(* ===== verification/_CoqProject ===== *)
-Q . S2P
Prelude.v
StdMap.v
Concurrent.v
Ctype.v
StringView.v
StringSearch.v
StringViewMore.v
InplaceBuff.v
InplaceBuffProofs.v
InplaceArray.v
AhoCorasick.v
StringTraits.v
StringCompare.v
StringTransform.v
JsonStr.v
Floats.v
Doubles.v
Strtod.v
Humanize.v
Time.v
Dates.v
Seccomp.v
Os.v
Spawner.v
Sandbox.v
SandboxFilter.v
SandboxMonitor.v
SandboxProofs.v
ProcessTermination.v
SpawnerProofs.v
SpawnerErrors.v
FileIo.v
FileIoProofs.v
FileManip.v
FileManipProofs.v
CopyProofs.v
Zip.v
ZipProofs.v
EventQueue.v
EventQueueProofs.v
FileMonitor.v
FileMonitorProofs.v
Handles.v
Mysql.v
MysqlProofs.v
MysqlSessions.v
MysqlStatement.v
MysqlStatementProofs.v
SimpleParser.v
Path.v
LibArchive.v
LibArchiveProofs.v
DefaultChecker.v
ProcStat.v
Process.v
ProcessSearch.v
ProcessProofs.v
ProcessFind.v
ProcStatus.v
Package.v
UrlDispatcher.v
UrlDispatcherProofs.v
ConfigFile.v
Simfile.v
SimfileTests.v
SimfileFiles.v
ConfigFileSafety.v
ConfigFileEscape.v
SimfileDump.v
Judge.v
DefaultCheckerVerdict.v
JudgeProofs.v
InteractiveJudge.v
SignalHandling.v
Compile.v
CompileProofs.v
Conver.v
ConverProofs.v
ConverLimits.v
