(* ===== verification/Prelude.v ===== *)
(** * A verification development for simlib

    simlib is the C++ library under the SIM contest system.  Its core logic reads
    and writes problem packages and judges solutions against them in a sandbox;
    below that lie a configuration-file format, access to files, processes,
    archives and a database, and string, path, time and concurrency utilities.
    The parts call each other in that order:

    - [Conver] ([src/sim/conver.cc]) builds a valid [Simfile] for a package and,
      from two judge reports, resets its time limits; it lists the package
      through [PackageContents] ([sim/problem_package.hh]) and reads an existing
      Simfile through the loaders of [Simfile];
    - [JudgeWorker] ([src/sim/judge_worker.cc]) compiles a solution and a checker
      ([src/sim/compile.cc]), runs the solution on the tests of a loaded
      [Simfile], in two threads for an interactive problem, and produces a
      [JudgeReport]; without a checker in the package the default one
      ([src/sim/default_checker.c]) is used;
    - [Sandbox] ([src/sandbox.cc]) runs a program under a seccomp filter and
      ptrace; [Spawner] ([src/spawner.cc]) runs one with limits;
    - [Simfile] ([src/sim/simfile.cc]) is an object loaded from, and printed to,
      a [ConfigFile] ([src/config_file.cc]);
    - files and directories ([file_contents.cc], [file_manip.cc], the owners of
      descriptors, temporary files), archives ([libzip.hh], [libarchive_zip.hh]),
      processes ([process.cc], the files of [/proc]), signals
      ([signal_handling.hh]), the MySQL binding ([mysql/mysql.hh]), the event
      queue and the file monitor on it ([event_queue.cc], [inotify.cc]), the URL
      dispatcher ([http/url_dispatcher.hh]);
    - all of the above are written over [StringView], [InplaceBuff],
      [SimpleParser], the conversions of [string_transform.hh], [path.cc],
      [time.hh], JSON texts, the Aho-Corasick automaton;
    - [JobProcessor] ([concurrent/job_processor.hh]) feeds worker threads through
      a [BoundedQueue] guarded by [Semaphore]s.

    ** How the code is modelled

    A string, and the part of one a view shows, is the list of its [char]s, which
    are signed.  Integers are [Z], with the width of the source wherever a result
    might not fit: signed overflow is undefined behaviour, unsigned wraps.  A
    computation returns an [outcome]: [Ok], [Throw] of a C++ exception, [UB] for
    undefined behaviour (a read out of range, an overflow, a division by zero) or
    [NoFuel] for a loop that was not given enough steps.  Code with state is in
    the monad [stm], which keeps the state when an exception is thrown, as the
    C++ object does.  [std::map], [std::set] and [std::sort] are the ordered
    sequences of [StdMap], used with the comparator the source passes; a
    comparator that is not a strict weak order voids their promises, and the
    theorems say for which keys it is one.  Floating point is computed exactly on
    rationals and then rounded to the format, ties to even ([Floats] for decimal
    texts and the conversions of time limits, [Doubles] for the arithmetic of the
    judge and of Conver, with infinities and NaN, [Strtod] for reading them).

    The kernel and the libraries outside of the repository (libzip, libarchive,
    the MySQL client) are parameters: an inductive type of requests, each with
    the type of its answer, and a function that answers them and changes a world
    about which nothing is known.  Theorems about what the code may ask for hold
    for every such function, and are stated on the trace of requests or on the
    objects that own what was answered; theorems about what the code achieves
    assume the documented behaviour as the laws of a type class, which leave open
    how transfers are split and interrupted and which requests fail, and have an
    instance in memory.  Threads and processes are step functions or relations,
    with the scheduler's choices as their arguments.

    ** Files

    Foundations:
    - [Prelude]: outcomes, the state monad, notations, the tactics and hint
      databases, lemmas on lists and characters;
    - [StdMap]: the ordered containers and sorting, with the class of strict weak
      orders their users discharge;
    - [Floats], [Doubles], [Strtod]: the floating point the sources use;
    - [Os], [Seccomp], [FileIo]: the requests of the process code and of the file
      code, and seccomp programs.

    Utilities:
    - [Ctype], [StringView], [StringSearch], [StringViewMore], [StringTraits],
      [StringCompare], [StringTransform]: [ctype.hh], [string_view.hh],
      [string_traits.hh], [string_compare.hh], [string_transform.hh],
      [to_string.hh];
    - [InplaceBuff], [InplaceBuffProofs], [InplaceArray]: [inplace_buff.hh] over a
      heap of blocks, [inplace_array.hh];
    - [AhoCorasick], [JsonStr], [Humanize], [Time], [Dates]: [aho_corasick.cc],
      [json_str.hh], [humanize.cc], [time.hh], [time.cc];
    - [SimpleParser], [Path]: [simple_parser.hh], [request_uri_parser.hh],
      [path.cc];
    - [Concurrent]: [Semaphore], [BoundedQueue], [JobProcessor::run] on any number
      of threads.

    The system:
    - [Spawner], [SpawnerProofs], [SpawnerErrors], [ProcessTermination]:
      [spawner.cc], what the program starts with, how a run ends, that it ends;
    - [Sandbox], [SandboxFilter], [SandboxMonitor], [SandboxProofs]: [sandbox.cc],
      its filter against a policy, a reference monitor and the refinement;
    - [FileIoProofs], [FileManip], [FileManipProofs], [CopyProofs], [Handles]:
      [file_contents.cc], [file_manip.cc], [directory.hh], [file_descriptor.hh],
      temporary files and directories;
    - [Zip], [ZipProofs], [LibArchive], [LibArchiveProofs]: the two bindings to
      archives;
    - [Process], [ProcessSearch], [ProcessProofs], [ProcessFind], [ProcStat],
      [ProcStatus]: [process.cc], [working_directory.cc], the files of [/proc];
    - [SignalHandling]: [signal_handling.hh];
    - [EventQueue], [EventQueueProofs], [FileMonitor], [FileMonitorProofs]:
      [event_queue.cc], [inotify.cc];
    - [Mysql], [MysqlProofs], [MysqlSessions], [MysqlStatement],
      [MysqlStatementProofs]: [mysql.hh], its objects and sessions, and the
      parameters and rows of a statement;
    - [UrlDispatcher], [UrlDispatcherProofs]: [url_dispatcher.hh],
      [response.cc].

    Packages and judging:
    - [Package]: [problem_package.hh] and [.cc];
    - [ConfigFile], [ConfigFileSafety], [ConfigFileEscape]: [config_file.hh] and
      [.cc], the parser's safety, and the escaping functions against the parser;
    - [Simfile], [SimfileTests], [SimfileFiles], [SimfileDump]: [simfile.hh] and
      [.cc], the tests and their scoring, the files they name, printing and
      reading back;
    - [Judge], [JudgeProofs], [InteractiveJudge]: [judge_worker.hh] and [.cc],
      [checker.cc], and the protocol of the two threads;
    - [DefaultChecker], [DefaultCheckerVerdict]: [default_checker.c] and what the
      judge makes of its output;
    - [Compile], [CompileProofs]: [compile.cc] and the package loaders of the
      judge;
    - [Conver], [ConverProofs], [ConverLimits]: [conver.hh] and [.cc].

    ** What the theorems show

    - Conver: whatever the package and its Simfile hold, a constructed Simfile
      names only files of the package, has the parts a problem needs and
      well-formed groups; the scores it distributes sum up to 100; reset time
      limits are the ones the reports give.  The Newton iteration that inverts
      the time-limit curve need not end; an instance on which it does not is
      proved.
    - Judge: for every behaviour of the sandbox, the solution and the checker
      the report has an entry for every selected test, none left skipped, and
      scores between zero and the group's maximum, zero unless the group is
      passed.  The default checker's verdict is the equality of the outputs up to
      trailing white space.  The threads of an interactive judgement neither block
      for ever nor use a value of another test.
    - Sandbox and Spawner: every run keeps to the reference monitor, the filter
      decides every system call as the policy says, the program starts with the
      descriptors it is meant to have and no others, no process is left behind,
      and runs end when the processes, the timers and the pipes do.
    - Simfile and ConfigFile: a printed Simfile is read back unchanged; what the
      escaping functions write is what the parser reads; the parser is total and
      reads inside its buffer on every input; tests are grouped, scored and given
      files as the configuration says; no path leads out of the package.
    - PackageContents refines a set of paths; the main directory found in an
      archive and in the loaded contents agree.
    - Files: what is written is read back, copies are equal, a tree is removed and
      nothing else, every descriptor has one owner and is closed once.
    - Archives: what is extracted is what the archive holds, and it stays below
      the destination.
    - Processes: only the processes that run one of the given executables are
      signalled, and on a system at rest all of them are found.
    - Signals: the process is cleaned up and killed, or the function returns, and
      which of them; what two signals in quick succession do is proved too.
    - The event queue refines a scheduler of handlers; the file monitor watches
      every path it was given, also after it was replaced.
    - MySQL: results, statements and transactions belong to the session of their
      connection; [next] reads every row whole.
    - JobProcessor: no deadlock, every job processed once, a bound on the number
      of steps, the queue within its capacity, for every schedule.
    - Utilities: KMP search finds the first occurrence and the automaton all of
      them; buffers hold the strings they were given; [path_absolute] resolves a
      path component by component; numbers, URIs, HTML and JSON texts are encoded
      so that they can be read back, and so are dates from 1970 to 9999;
      [StrNumCompare] orders by value; time arithmetic and printing are exact.

    Some lemmas record inputs on which the code does not do what it means to
    (for example [ConverLimits.conver_bad_optional_access],
    [JudgeProofs.wrong_second_line_is_dropped] or
    [SignalHandling.interrupt_and_termination_hang]); they evaluate the model.

    ** Fuel

    Loops over a position or a rest of a string take fuel computed from the
    length of the string (the parser of [ConfigFile], [path_absolute], the loops
    of [RequestUriParser], the default checker, the monitor's buffer, in which an
    event takes 16 bytes at least), the KMP fall-back from the state it starts in,
    printing of integers from their binary length.  The theorems are stated on
    the functions with that fuel in place and exclude [NoFuel].  Loops that wait
    for the system take fuel as an argument.  [ProcessTermination] bounds it by
    what the process and the kernel still have to do; for files, copies and
    archives the laws bound the number of interruptions, and fuel above that bound
    and the length of the data is enough; [read_all] of a statement needs one step
    more than there are rows.  A run of the event queue has no end of its own: it
    is cut by fuel and what is proved holds at every cut.  The Newton iteration has
    no bound.  The threads of [InteractiveJudge] are explored: the list of states
    that is checked is closed under their steps.

    ** Not modelled

    The texts of error messages and of the judge's log (the calls that produce
    them are), the logger and the stack traces of exceptions; creating archives
    with libarchive and by running zip; moving an [EventQueue]; the move
    assignments of [InplaceArray], which do not compile; the wrappers around
    pipes, signal masks, shared memory and raw system calls; [FileRemover]; the
    random generator and the vendored SHA-3; and the helpers of the language
    (metaprogramming, ranges, enumerations). *)

From Stdlib Require Import ZArith Lia Ascii.
From stdpp Require Export gmap strings list numbers.
Export stdpp.list_basics stdpp.list_relations stdpp.list_monad stdpp.list_misc.

(** ** Notations, scopes and hint databases *)

Declare Scope simlib_scope.
Delimit Scope simlib_scope with simlib.
Open Scope simlib_scope.

Create HintDb simlib.
Create Rewrite HintDb simlib.

(** [std::string] and [StringView] contents: a sequence of [char]s. *)
Abbreviation str := (list ascii).

(** String literals of the source. *)
Definition lit (s : string) : str := String.list_ascii_of_string s.

(** Characters that have no printable spelling in a literal. *)
Definition NUL : ascii := "000"%char.
Definition TAB : ascii := "009"%char.
Definition NL : ascii := "010"%char.
Definition SQ : ascii := "039"%char.
Definition DQ : ascii := "034"%char.
Definition BSLASH : ascii := "092"%char.

(** The value of a [char] ([char] is signed on the platforms simlib
    supports) and of the same byte read as [unsigned char]. *)
Definition uchz (c : ascii) : Z := Z.of_N (N_of_ascii c).
Definition chz (c : ascii) : Z := if (uchz c <? 128)%Z then uchz c else (uchz c - 256)%Z.

(** Conversion of an integer to [char], with the wrap-around of the cast. *)
Definition char_of (z : Z) : ascii := ascii_of_N (Z.to_N (z mod 256)).

Definition char_leb (c d : ascii) : bool := (chz c <=? chz d)%Z.
Definition char_ltb (c d : ascii) : bool := (chz c <? chz d)%Z.
Definition char_eqb (c d : ascii) : bool := (c =? d)%char.

Infix "<=c" := char_leb (at level 70) : simlib_scope.
Infix "<c" := char_ltb (at level 70) : simlib_scope.
Infix "=c" := char_eqb (at level 70) : simlib_scope.

(** ** Outcomes

    A C++ function that may throw, may run into undefined behaviour (an access
    past the end of a view, a failed [assert]) or whose loop is given fuel. *)

Inductive exn : Type :=
| RuntimeError (what : str)
| ParseError (what diagnostics : str)
| OutOfRange (what : str)
| BadOptionalAccess.

Inductive outcome (A : Type) : Type :=
| Ok (a : A)
| Throw (e : exn)
| UB
| NoFuel.
Arguments Ok {A} a.
Arguments Throw {A} e.
Arguments UB {A}.
Arguments NoFuel {A}.

#[export] Instance outcome_ret : MRet outcome := fun A a => Ok a.
#[export] Instance outcome_bind : MBind outcome := fun A B f m =>
  match m with
  | Ok a => f a
  | Throw e => Throw e
  | UB => UB
  | NoFuel => NoFuel
  end.
#[export] Instance outcome_fmap : FMap outcome := fun A B f m =>
  match m with
  | Ok a => Ok (f a)
  | Throw e => Throw e
  | UB => UB
  | NoFuel => NoFuel
  end.

(** An outcome the C++ abstract machine gives a meaning to: a value or an
    exception. *)
Definition defined {A} (m : outcome A) : Prop :=
  match m with Ok _ | Throw _ => True | UB | NoFuel => False end.

(** Reading an element that has to be there: [v[i]]. *)
Definition get_or_ub {A} (o : option A) : outcome A :=
  match o with Some a => Ok a | None => UB end.

(** [std::optional::value()]. *)
Definition value_or_throw {A} (o : option A) : outcome A :=
  match o with Some a => Ok a | None => Throw BadOptionalAccess end.

(** ** Stateful code

    A member function that changes the object it belongs to and may throw: what
    it did to the object before the exception stays done. *)

Definition stm (S A : Type) : Type := S -> S * outcome A.

#[export] Instance stm_ret S : MRet (stm S) := fun A a s => (s, Ok a).
#[export] Instance stm_bind S : MBind (stm S) := fun A B f m s =>
  match m s with
  | (s', Ok a) => f a s'
  | (s', Throw e) => (s', Throw e)
  | (s', UB) => (s', UB)
  | (s', NoFuel) => (s', NoFuel)
  end.

(** Reading a part of the object, changing it, and a computation that leaves it
    alone. *)
Definition gets {S A} (f : S -> A) : stm S A := fun s => (s, Ok (f s)).
Definition modify {S} (f : S -> S) : stm S unit := fun s => (f s, Ok tt).
Definition lift {S A} (m : outcome A) : stm S A := fun s => (s, m).
Definition throw_error {S A} (what : str) : stm S A := fun s => (s, Throw (RuntimeError what)).

(** [if (cond) { ... }] *)
Definition when {S} (cond : bool) (body : stm S unit) : stm S unit :=
  if cond then body else mret tt.

(** ** List functions shared by the components *)

(** The longest prefix (what is left after it) whose elements satisfy [f]. *)
Fixpoint take_while {A} (f : A -> bool) (l : list A) : list A :=
  match l with
  | [] => []
  | x :: l' => if f x then x :: take_while f l' else []
  end.

Fixpoint drop_while {A} (f : A -> bool) (l : list A) : list A :=
  match l with
  | [] => []
  | x :: l' => if f x then drop_while f l' else l
  end.

(** Index of the first element that satisfies [f]. *)
Fixpoint find_index {A} (f : A -> bool) (l : list A) : option nat :=
  match l with
  | [] => None
  | x :: l' => if f x then Some 0 else S <$> find_index f l'
  end.

(** Concatenation of the pieces with [sep] between them. *)
Fixpoint join {A} (sep : list A) (l : list (list A)) : list A :=
  match l with
  | [] => []
  | [x] => x
  | x :: l' => x ++ sep ++ join sep l'
  end.

(** ** Tactics *)

(** Case analysis on the scrutinee of a [match] or [if] of the goal, keeping
    the equation. *)
Ltac case_goal :=
  match goal with
  | |- context [match ?x with _ => _ end] => destruct x eqn:?
  end.

Ltac case_hyp H :=
  match type of H with
  | context [match ?x with _ => _ end] => destruct x eqn:?
  end.

(** Boolean hypotheses to propositions. *)
Ltac bools :=
  repeat match goal with
  | H : (_ && _)%bool = true |- _ => apply andb_true_iff in H as [? ?]
  | H : (_ || _)%bool = false |- _ => apply orb_false_iff in H as [? ?]
  | H : negb _ = true |- _ => apply negb_true_iff in H
  | H : negb _ = false |- _ => apply negb_false_iff in H
  | H : (_ =? _)%char = true |- _ => apply Ascii.eqb_eq in H
  | H : (_ =? _)%char = false |- _ => apply Ascii.eqb_neq in H
  | H : (_ =c _) = true |- _ => apply Ascii.eqb_eq in H
  | H : (_ =c _) = false |- _ => apply Ascii.eqb_neq in H
  end.

(** ** Characters *)

Definition all_chars : list ascii :=
  (fun n => ascii_of_nat n) <$> seq 0 256.

Lemma elem_of_all_chars c : c ∈ all_chars.
Proof.
  rewrite <- (ascii_nat_embedding c). unfold all_chars.
  apply list_elem_of_fmap_2, elem_of_seq.
  pose proof (nat_ascii_bounded c). lia.
Qed.

(** A property of one character that can be computed holds for every
    character once it was checked on the 256 of them. *)
Lemma char_forall (P : ascii -> bool) :
  forallb P all_chars = true -> forall c, P c = true.
Proof.
  intros H c. rewrite forallb_forall in H. apply H, list_elem_of_In, elem_of_all_chars.
Qed.

Lemma uchz_range c : (0 <= uchz c < 256)%Z.
Proof. unfold uchz. pose proof (N_ascii_bounded c). lia. Qed.

Lemma chz_range c : (-128 <= chz c < 128)%Z.
Proof. unfold chz. pose proof (uchz_range c). case_goal; lia. Qed.

Lemma char_of_uchz c : char_of (uchz c) = c.
Proof.
  unfold char_of. rewrite Z.mod_small by apply uchz_range.
  unfold uchz. rewrite N2Z.id. apply ascii_N_embedding.
Qed.

Lemma char_of_chz c : char_of (chz c) = c.
Proof.
  unfold chz. case_goal; [apply char_of_uchz|].
  rewrite <- (char_of_uchz c) at 2. unfold char_of.
  rewrite <- (Z.mod_add (uchz c - 256) 1 256) by lia.
  do 3 f_equal. lia.
Qed.

Lemma chz_inj c d : chz c = chz d -> c = d.
Proof. intros H. rewrite <- (char_of_chz c), <- (char_of_chz d). congruence. Qed.

Lemma char_eqb_refl c : (c =c c) = true.
Proof. apply Ascii.eqb_refl. Qed.

Lemma char_eqb_eq c d : (c =c d) = true <-> c = d.
Proof. apply Ascii.eqb_eq. Qed.

Lemma char_eqb_neq c d : (c =c d) = false <-> c <> d.
Proof. apply Ascii.eqb_neq. Qed.

#[export] Hint Rewrite char_eqb_refl : simlib.

(** Prove [forall c : ascii, P c = true]-like goals by running through all the
    characters. *)
Ltac all_chars_compute c :=
  clear - c; revert c;
  match goal with
  | |- forall c : ascii, @?P c = true => apply (char_forall P); vm_compute; reflexivity
  end.

(** ** Lists *)

Section Lists.
Context {A : Type}.
Implicit Types (f : A -> bool) (l : list A).

Lemma take_drop_while f l : take_while f l ++ drop_while f l = l.
Proof. induction l as [|x l IH]; simpl; [done|]. case_goal; simpl; congruence. Qed.

Lemma length_drop_while f l : length (drop_while f l) <= length l.
Proof. induction l as [|x l IH]; simpl; [done|]. case_goal; simpl; lia. Qed.

Lemma take_while_forall f l : Forall (fun x => f x = true) (take_while f l).
Proof. induction l as [|x l IH]; simpl; [constructor|]. case_goal; auto. Qed.

Lemma drop_while_head f l x l' : drop_while f l = x :: l' -> f x = false.
Proof.
  induction l as [|y l IH]; simpl; [done|]. case_goal; [apply IH|congruence].
Qed.

(** A prefix that satisfies [f] up to a first element that does not. *)
Lemma take_while_app f l1 l2 :
  Forall (fun x => f x = true) l1 -> take_while f (l1 ++ l2) = l1 ++ take_while f l2.
Proof. induction 1 as [|x l Hx Hl IH]; simpl; [done|]. by rewrite Hx, IH. Qed.

Lemma drop_while_app f l1 l2 :
  Forall (fun x => f x = true) l1 -> drop_while f (l1 ++ l2) = drop_while f l2.
Proof. induction 1 as [|x l Hx Hl IH]; simpl; [done|]. by rewrite Hx, IH. Qed.

Lemma drop_while_suffix f l : drop_while f l `suffix_of` l.
Proof. exists (take_while f l). symmetry. apply take_drop_while. Qed.

Lemma drop_while_true f l : Forall (fun x => f x = true) l -> drop_while f l = [].
Proof. intros H. rewrite <- (app_nil_r l). by rewrite drop_while_app. Qed.

Lemma drop_while_false f x l : f x = false -> drop_while f (x :: l) = x :: l.
Proof. simpl. by intros ->. Qed.

(** A loop that only appends to its result. *)
Lemma fold_left_append {B} (g : A -> list B) l acc :
  fold_left (fun a x => a ++ g x) l acc = acc ++ flat_map g l.
Proof.
  revert acc. induction l as [|x l IH]; intros acc; simpl; [by rewrite app_nil_r|].
  by rewrite IH, <- app_assoc.
Qed.

Lemma length_ind (P : list A -> Prop) :
  (forall l, (forall l', length l' < length l -> P l') -> P l) -> forall l, P l.
Proof.
  intros H l. remember (length l) as n eqn:E. revert l E.
  induction n as [n IH] using lt_wf_ind. intros l ->. apply H. eauto.
Qed.

Lemma find_index_lt f l i : find_index f l = Some i -> i < length l.
Proof.
  revert i. induction l as [|x l IH]; intros i; simpl; [done|].
  case_goal; [intros [= <-]; lia|].
  destruct (find_index f l) as [j|]; simpl; [|done].
  intros [= <-]. specialize (IH j eq_refl). lia.
Qed.

Lemma suffix_nonempty_last l1 l2 (x : A) :
  l1 `suffix_of` l2 ++ [x] -> l1 <> [] -> exists l, l1 = l ++ [x].
Proof.
  intros [k Hk] Hne. destruct l1 as [|y l1] using rev_ind; [done|].
  rewrite app_assoc in Hk. apply app_inj_tail in Hk as [_ ->]. by exists l1.
Qed.

(** Of two suffixes of a list the shorter is a suffix of the longer. *)
Lemma suffix_both_le (a b l : list A) :
  a `suffix_of` l -> b `suffix_of` l -> length a <= length b -> a `suffix_of` b.
Proof.
  intros [la ->] [lb H] Hle. exists (drop (length lb) la).
  assert (length la = length lb + (length b - length a)) as Hlen.
  { apply (f_equal length) in H. rewrite !length_app in H. lia. }
  apply (f_equal (drop (length lb))) in H.
  rewrite drop_app_le, drop_app_length in H by lia. done.
Qed.
End Lists.

(** ** Outcomes *)

Lemma bind_defined {A B} (m : outcome A) (f : A -> outcome B) :
  defined m -> (forall a, m = Ok a -> defined (f a)) -> defined (m ≫= f).
Proof. destruct m; simpl; auto. Qed.

Lemma bind_Ok {A B} (m : outcome A) (f : A -> outcome B) b :
  m ≫= f = Ok b -> exists a, m = Ok a /\ f a = Ok b.
Proof. destruct m; simpl; try discriminate. eauto. Qed.

#[export] Hint Resolve bind_defined : simlib.

(** ** Stateful code *)

Lemma stm_bind_Ok {S A B} (m : stm S A) (f : A -> stm S B) s s' b :
  (m ≫= f) s = (s', Ok b) -> exists s1 a, m s = (s1, Ok a) /\ f a s1 = (s', Ok b).
Proof.
  unfold mbind, stm_bind. destruct (m s) as [s1 [a|e| |]]; try discriminate. eauto.
Qed.

Lemma stm_bind_run {S A B} (m : stm S A) (f : A -> stm S B) s s1 a :
  m s = (s1, Ok a) -> (m ≫= f) s = f a s1.
Proof. unfold mbind, stm_bind. by intros ->. Qed.

Lemma when_throw_Ok {S} cond what (s s' : S) u :
  when cond (throw_error what) s = (s', Ok u) -> cond = false /\ s' = s.
Proof. destruct cond; cbn; [discriminate|]. by intros [= <-]. Qed.

(** Take apart a run of a stateful computation that ended without an
    exception. *)
Ltac inv_stm :=
  repeat match goal with
  | H : (_ ≫= _) _ = (_, Ok _) |- _ => apply stm_bind_Ok in H as (? & ? & ? & ?)
  | H : gets _ _ = (_, Ok _) |- _ => injection H as <- <-
  | H : modify _ _ = (_, Ok _) |- _ => injection H as <-
  | H : lift _ _ = (_, Ok _) |- _ => injection H as <- H
  | H : when _ (throw_error _) _ = (_, Ok _) |- _ => apply when_throw_Ok in H as [? ->]
  end.

(** *** What a stateful computation guarantees, whatever the state: it ends with
    a value that satisfies [Q], or throws, when [E] allows it. *)
Definition ensures {A} (E : Prop) (r : outcome A) (Q : A -> Prop) : Prop :=
  match r with Ok a => Q a | Throw _ => E | UB | NoFuel => False end.

Definition runs {S A} (E : Prop) (m : stm S A) (Q : A -> Prop) : Prop :=
  forall s, ensures E (m s).2 Q.

Lemma runs_ret {S A} (E : Prop) (a : A) (Q : A -> Prop) : Q a -> runs (S := S) E (mret a) Q.
Proof. intros H s. exact H. Qed.

Lemma runs_bind {S A B} (E : Prop) (m : stm S A) (f : A -> stm S B) P Q :
  runs E m P -> (forall a, P a -> runs E (f a) Q) -> runs E (m ≫= f) Q.
Proof.
  intros Hm Hf s. specialize (Hm s). unfold mbind, stm_bind. destruct (m s) as [s' [a|e| |]]; cbn in *; try done.
  by apply Hf.
Qed.

Lemma runs_lift {S A} (E : Prop) (r : outcome A) Q : ensures E r Q -> runs (S := S) E (lift r) Q.
Proof. intros H s. exact H. Qed.

Lemma runs_weaken {S A} (E : Prop) (m : stm S A) (P Q : A -> Prop) :
  runs E m P -> (forall a, P a -> Q a) -> runs E m Q.
Proof. intros H HPQ s. specialize (H s). destruct (m s).2; cbn in *; auto. Qed.

Lemma runs_modify {S} (E : Prop) (f : S -> S) (Q : unit -> Prop) : Q tt -> runs E (modify f) Q.
Proof. intros H s. exact H. Qed.

Lemma runs_gets {S A} (E : Prop) (f : S -> A) (Q : A -> Prop) : (forall s, Q (f s)) -> runs E (gets f) Q.
Proof. intros H s. exact (H s). Qed.

Lemma runs_when_throw {S} (E : Prop) cond what (Q : unit -> Prop) :
  (cond = true -> E) -> (cond = false -> Q tt) -> runs (S := S) E (when cond (throw_error what)) Q.
Proof. intros H1 H2 s. destruct cond; cbn; auto. Qed.
