(* ===== verification/StdMap.v ===== *)
(** * The ordered containers and the sort of the C++ standard library

    [std::map<K, V, Less>] as the sequence of its elements in the order of
    [Less], and [std::sort] as an interface: the sources rely on it for any
    comparator that is a strict weak order on the elements, and on nothing more
    (ties may come out in any order). *)

From Stdlib Require Import Lia Sorted Permutation.
From S2P Require Import Prelude.

(** ** Strict weak orders *)

(** A comparator that is a strict weak order on the keys that satisfy [P]. *)
Class StrictWeakOrder {K} (P : K -> Prop) (less : K -> K -> bool) : Prop := {
  swo_irrefl a : P a -> less a a = false;
  swo_trans a b c : P a -> P b -> P c -> less a b = true -> less b c = true -> less a c = true;
  swo_incomp a b c : P a -> P b -> P c -> less a b = false -> less b c = false -> less a c = false;
}.

Lemma swo_subset {K} (P Q : K -> Prop) less :
  (forall x, Q x -> P x) -> StrictWeakOrder P less -> StrictWeakOrder Q less.
Proof.
  intros H W. constructor.
  - intros a Ha. apply swo_irrefl, H, Ha.
  - intros a b c Ha Hb Hc. apply swo_trans; auto.
  - intros a b c Ha Hb Hc. apply swo_incomp; auto.
Qed.

Lemma swo_map {K L} (P : L -> Prop) (f : K -> L) less :
  StrictWeakOrder P less -> StrictWeakOrder (fun x => P (f x)) (fun a b => less (f a) (f b)).
Proof.
  intros W. constructor.
  - intros a Ha. by apply swo_irrefl.
  - intros a b c Ha Hb Hc. by apply swo_trans.
  - intros a b c Ha Hb Hc. by apply swo_incomp.
Qed.

Definition any {K} (k : K) : Prop := True.

(** Neither is less: the container treats them as the same key. *)
Definition equiv {K} (less : K -> K -> bool) (a b : K) : bool := negb (less a b) && negb (less b a).

(** ** std::map *)

Section StdMap.
Context {K V : Type} (less : K -> K -> bool).

Abbreviation elements := (list (K * V)).

Fixpoint map_find (k : K) (m : elements) : option V :=
  match m with
  | [] => None
  | (k', v) :: m' =>
      if less k' k then map_find k m'
      else if less k k' then None else Some v
  end.

(** [m[k] = f(m[k])], where a missing key is first inserted with the value
    [dflt]. *)
Fixpoint map_update (k : K) (dflt : V) (f : V -> V) (m : elements) : elements :=
  match m with
  | [] => [(k, f dflt)]
  | (k', v) :: m' =>
      if less k' k then (k', v) :: map_update k dflt f m'
      else if less k k' then (k, f dflt) :: m else (k', f v) :: m'
  end.

(** [m.emplace(k, v)]: inserts unless the key is there; tells whether it did. *)
Definition map_emplace (k : K) (v : V) (m : elements) : elements * bool :=
  match map_find k m with
  | Some _ => (m, false)
  | None => (map_update k v (fun x => x) m, true)
  end.

Definition map_count (k : K) (m : elements) : nat :=
  match map_find k m with Some _ => 1 | None => 0 end.

(** The keys in strictly increasing order. *)
Definition map_sorted (m : elements) : Prop :=
  StronglySorted (fun a b => less a b = true) m.*1.

Context `{SWO : !StrictWeakOrder any less}.

Lemma less_irrefl a : less a a = false.
Proof. by apply (swo_irrefl (P := any)). Qed.

Lemma less_trans a b c : less a b = true -> less b c = true -> less a c = true.
Proof. by apply (swo_trans (P := any)). Qed.

Lemma less_incomp a b c : less a b = false -> less b c = false -> less a c = false.
Proof. by apply (swo_incomp (P := any)). Qed.

Lemma less_asym a b : less a b = true -> less b a = false.
Proof.
  intros H. destruct (less b a) eqn:E; [|done].
  pose proof (less_irrefl a). rewrite (less_trans a b a) in *; done.
Qed.

Lemma less_equiv_l a b c : equiv less a b = true -> less a c = less b c.
Proof.
  unfold equiv. intros H. apply andb_true_iff in H as [H1 H2].
  apply negb_true_iff in H1, H2.
  destruct (less a c) eqn:E1, (less b c) eqn:E2; try done.
  - rewrite <- E1. by apply (less_incomp a b c).
  - rewrite <- E2. symmetry. by apply (less_incomp b a c).
Qed.

Lemma equiv_sym a b : equiv less a b = equiv less b a.
Proof. unfold equiv. apply andb_comm. Qed.

Lemma equiv_refl a : equiv less a a = true.
Proof. unfold equiv. by rewrite (less_irrefl a). Qed.

Lemma less_equiv_r a b c : equiv less a b = true -> less c a = less c b.
Proof.
  unfold equiv. intros H. apply andb_true_iff in H as [H1 H2].
  apply negb_true_iff in H1, H2.
  destruct (less c a) eqn:E1, (less c b) eqn:E2; try done.
  - rewrite <- E1. by apply (less_incomp c b a).
  - rewrite <- E2. symmetry. by apply (less_incomp c a b).
Qed.

Lemma map_update_keys k dflt f m k' :
  k' ∈ (map_update k dflt f m).*1 -> k' = k \/ k' ∈ m.*1.
Proof.
  induction m as [|[k1 v1] m IH]; cbn [map_update fmap list_fmap fst].
  - rewrite list_elem_of_singleton. auto.
  - repeat case_goal; cbn [fmap list_fmap fst]; rewrite !elem_of_cons; naive_solver.
Qed.

Lemma map_update_sorted k dflt f m : map_sorted m -> map_sorted (map_update k dflt f m).
Proof.
  unfold map_sorted. induction m as [|[k1 v1] m IH]; cbn [map_update fmap list_fmap fst]; intros H.
  - repeat constructor.
  - apply StronglySorted_inv in H as [H1 H2]. destruct (less k1 k) eqn:E1.
    + cbn [fmap list_fmap fst]. constructor; [by apply IH|]. apply Forall_forall. intros x Hx.
      apply map_update_keys in Hx as [->|Hx]; [done|]. rewrite Forall_forall in H2. auto.
    + destruct (less k k1) eqn:E2; cbn [fmap list_fmap fst]; [|by constructor].
      constructor; [by constructor|]. constructor; [done|]. eapply Forall_impl; [exact H2|].
      intros x Hx. by apply (less_trans k k1 x).
Qed.

Lemma map_find_update k dflt f m k' : map_sorted m ->
  map_find k' (map_update k dflt f m) =
  if equiv less k k' then Some (f (default dflt (map_find k m))) else map_find k' m.
Proof.
  unfold map_sorted. induction m as [|[k1 v1] m IH]; cbn [map_update map_find fmap list_fmap fst]; intros H.
  - unfold equiv. destruct (less k k') eqn:E1; [done|]. destruct (less k' k); done.
  - apply StronglySorted_inv in H as [H1 H2]. destruct (less k1 k) eqn:E1; cbn [map_find].
    + rewrite (IH H1). destruct (equiv less k k') eqn:E.
      * by rewrite <- (less_equiv_r k k' k1 E), E1.
      * done.
    + destruct (less k k1) eqn:E2; cbn [map_find].
      * destruct (less k k') eqn:E3.
        { unfold equiv. rewrite E3. done. }
        destruct (less k' k) eqn:E4.
        { unfold equiv. rewrite E3, E4. simpl.
          destruct (less k1 k') eqn:E5; [|by rewrite (less_trans k' k k1)].
          rewrite (less_trans k1 k' k) in E1; done. }
        unfold equiv. by rewrite E3, E4.
      * assert (equiv less k k1 = true) as Ek by (unfold equiv; by rewrite E1, E2).
        unfold equiv. rewrite (less_equiv_l k k1 k' Ek), (less_equiv_r k k1 k' Ek).
        destruct (less k1 k'), (less k' k1); done.
Qed.

(** Looking a key up finds an element whose key is equivalent to it. *)
Lemma map_find_elem k m v : map_find k m = Some v ->
  exists k', (k', v) ∈ m /\ equiv less k k' = true.
Proof.
  induction m as [|[k1 v1] m IH]; cbn [map_find]; [done|]. intros H.
  destruct (less k1 k) eqn:E1; [destruct (IH H) as (k' & H1 & H2); exists k'; split; [by right|done]|].
  destruct (less k k1) eqn:E2; [done|]. injection H as ->. exists k1. split; [left|].
  unfold equiv. by rewrite E1, E2.
Qed.

Lemma map_find_sorted k v m : map_sorted m -> (k, v) ∈ m -> map_find k m = Some v.
Proof.
  unfold map_sorted. induction m as [|[k1 v1] m IH]; cbn [map_find fmap list_fmap fst]; intros H Hin.
  - by apply not_elem_of_nil in Hin.
  - apply StronglySorted_inv in H as [H1 H2]. apply elem_of_cons in Hin as [[= -> ->]|Hin].
    + by rewrite (less_irrefl k1).
    + rewrite Forall_forall in H2.
      assert (less k1 k = true) as -> by (apply H2, list_elem_of_fmap; by exists (k, v)).
      by apply IH.
Qed.
End StdMap.

(** ** std::sort *)

(** Sorted: no element is less than an earlier one. *)
Definition sorted_by {A} (less : A -> A -> bool) (l : list A) : Prop :=
  StronglySorted (fun a b => less b a = false) l.

(** What the standard promises of [std::sort]. *)
Class StdSort := {
  std_sort : forall {A : Type}, (A -> A -> bool) -> list A -> list A;
  std_sort_correct {A} (less : A -> A -> bool) l :
    StrictWeakOrder (fun x => x ∈ l) less ->
    std_sort less l ≡ₚ l /\ sorted_by less (std_sort less l);
}.

(** The interface has an implementation. *)
Fixpoint insert_sorted {A} (less : A -> A -> bool) (x : A) (l : list A) : list A :=
  match l with
  | [] => [x]
  | y :: l' => if less y x then y :: insert_sorted less x l' else x :: l
  end.

Definition insertion_sort {A} (less : A -> A -> bool) (l : list A) : list A :=
  foldr (insert_sorted less) [] l.

Lemma insert_sorted_perm {A} (less : A -> A -> bool) x l : insert_sorted less x l ≡ₚ x :: l.
Proof.
  induction l as [|y l IH]; cbn [insert_sorted]; [done|]. case_goal; [|done].
  rewrite IH. apply Permutation_swap.
Qed.

Lemma insert_sorted_sorted {A} (less : A -> A -> bool) x l :
  StrictWeakOrder (fun z => z ∈ x :: l) less ->
  sorted_by less l -> sorted_by less (insert_sorted less x l).
Proof.
  unfold sorted_by. induction l as [|y l IH]; cbn [insert_sorted]; intros W H; [repeat constructor|].
  apply StronglySorted_inv in H as [H1 H2].
  assert (x ∈ x :: y :: l) as Px by constructor.
  assert (y ∈ x :: y :: l) as Py by (right; constructor).
  destruct (less y x) eqn:E.
  - constructor.
    + apply IH; [|done]. eapply swo_subset; [|exact W]. intros z. rewrite !elem_of_cons. tauto.
    + rewrite (insert_sorted_perm less x l). constructor; [|done].
      destruct (less x y) eqn:E2; [|done].
      pose proof (swo_irrefl y Py) as Hi. rewrite (swo_trans y x y) in Hi; done.
  - constructor; [by constructor|]. constructor; [done|].
    apply Forall_forall. intros z Hz. rewrite Forall_forall in H2. apply H2 in Hz as Hz'.
    apply (swo_incomp z y x); try done. by right; right.
Qed.

Lemma insertion_sort_correct {A} (less : A -> A -> bool) l :
  StrictWeakOrder (fun x => x ∈ l) less ->
  insertion_sort less l ≡ₚ l /\ sorted_by less (insertion_sort less l).
Proof.
  induction l as [|x l IH]; intros W; [repeat constructor|]. cbn [insertion_sort foldr].
  destruct IH as [IH1 IH2].
  { eapply swo_subset; [|exact W]. intros z. by right. }
  fold (insertion_sort less l). split.
  - rewrite insert_sorted_perm. by rewrite IH1.
  - apply insert_sorted_sorted; [|done]. eapply swo_subset; [|exact W].
    intros z. cbn beta. by rewrite IH1.
Qed.

Definition insertion_std_sort : StdSort :=
  {| std_sort := @insertion_sort; std_sort_correct := @insertion_sort_correct |}.
