(* ===== verification/Concurrent.v ===== *)
(** * Concurrent job processing

    Models [include/simlib/concurrent]: [Semaphore], [BoundedQueue] and
    [JobProcessor::run], with any number of worker threads interleaved in any
    order.  A thread takes one atomic step at a time: a successful wait on a
    semaphore (one that would block is not enabled), or a critical section of
    the mutex around the queue, whose only visible effect on a semaphore is its
    last action.  Interrupted waits ([EINTR]) are retried by the code and leave
    no trace. *)

From Stdlib Require Import Lia.
From S2P Require Import Prelude.

(** ** Semaphore *)

(** [wait] blocks on zero; [try_wait] tells whether it would have blocked. *)
Definition sem_wait (sem : nat) : option nat := match sem with O => None | S n => Some n end.

Definition sem_try_wait (sem : nat) : nat * bool := match sem with O => (0, false) | S n => (n, true) end.

Definition sem_post (sem : nat) : nat := S sem.

(** ** BoundedQueue *)

Section Queue.
Context {Elem : Type}.

Record BoundedQueue := mkQueue { free_slots_ : nat; queued_elems_ : nat; elems_ : list Elem }.

Definition new_queue (max_size : nat) : BoundedQueue := mkQueue max_size 0 [].

(** [pop_elem]: the queue is not empty. *)
Definition pop_elem (e : Elem) (rest : list Elem) (q : BoundedQueue) : BoundedQueue * Elem :=
  (mkQueue (sem_post (free_slots_ q)) (queued_elems_ q) rest, e).

(** The critical section of the extracting functions: an element, or none and
    the wake-up is passed on to the next thread. *)
Definition extract_elem_opt (q : BoundedQueue) : BoundedQueue * option Elem :=
  match elems_ q with
  | e :: rest => let (q', e) := pop_elem e rest q in (q', Some e)
  | [] => (mkQueue (free_slots_ q) (sem_post (queued_elems_ q)) [], None)
  end.

(** The first step of [pop], [pop_opt] and [try_pop]. *)
Definition wait_elem (q : BoundedQueue) : option BoundedQueue :=
  n ← sem_wait (queued_elems_ q);
  Some (mkQueue (free_slots_ q) n (elems_ q)).

(** [pop_opt] run without interruption; [None]: it blocks. *)
Definition pop_opt (q : BoundedQueue) : option (BoundedQueue * option Elem) :=
  extract_elem_opt <$> wait_elem q.

(** The throwing variants: [extract_elem] throws [NoMoreElems]. *)
Inductive thrown := NoMoreElems.

Definition extract_elem (q : BoundedQueue) : BoundedQueue * (Elem + thrown) :=
  match elems_ q with
  | e :: rest => let (q', e) := pop_elem e rest q in (q', inl e)
  | [] => (mkQueue (free_slots_ q) (sem_post (queued_elems_ q)) [], inr NoMoreElems)
  end.

Definition pop (q : BoundedQueue) : option (BoundedQueue * (Elem + thrown)) :=
  extract_elem <$> wait_elem q.

Definition try_pop (q : BoundedQueue) : BoundedQueue * (option Elem + thrown) :=
  let (n, ok) := sem_try_wait (queued_elems_ q) in
  if ok then
    match extract_elem (mkQueue (free_slots_ q) n (elems_ q)) with
    | (q', inl e) => (q', inl (Some e))
    | (q', inr t) => (q', inr t)
    end
  else (q, inl None).

(** [push] waits for a free slot... *)
Definition wait_slot (q : BoundedQueue) : option BoundedQueue :=
  n ← sem_wait (free_slots_ q);
  Some (mkQueue n (queued_elems_ q) (elems_ q)).

(** ... and appends. *)
Definition push_elem (e : Elem) (q : BoundedQueue) : BoundedQueue :=
  mkQueue (free_slots_ q) (sem_post (queued_elems_ q)) (elems_ q ++ [e]).

Definition push (e : Elem) (q : BoundedQueue) : option BoundedQueue := push_elem e <$> wait_slot q.

Definition signal_no_more_elems (q : BoundedQueue) : BoundedQueue :=
  mkQueue (free_slots_ q) (sem_post (queued_elems_ q)) (elems_ q).

Fixpoint increment_queue_size (q : BoundedQueue) (times : nat) : BoundedQueue :=
  match times with
  | O => q
  | S n => increment_queue_size (mkQueue (sem_post (free_slots_ q)) (queued_elems_ q) (elems_ q)) n
  end.
End Queue.
Arguments BoundedQueue : clear implicits.

(** ** JobProcessor *)

Section JobProcessor.
Context {Job : Type}.
Implicit Types (j : Job) (js jobs : list Job).

(** Where a thread is: producing the jobs that are left (about to wait for a
    slot for the first, or with the slot for it), about to wait for an element,
    about to extract one, processing one, finished. *)
Inductive thread :=
| Produce js
| Holding j js
| Wait
| Extract
| Process j
| Done.

(** The queue, and the jobs [process_job] was called on. *)
Record shared := mkShared { queue : BoundedQueue Job; processed : list Job }.

(** One step of a thread; [None] when it blocks or is finished. *)
Definition thread_step (sh : shared) (t : thread) : option (shared * thread) :=
  match t with
  | Produce (j :: js) => q ← wait_slot (queue sh); Some (mkShared q (processed sh), Holding j js)
  | Holding j js => Some (mkShared (push_elem j (queue sh)) (processed sh), Produce js)
  | Produce [] => Some (mkShared (signal_no_more_elems (queue sh)) (processed sh), Wait)
  | Wait => q ← wait_elem (queue sh); Some (mkShared q (processed sh), Extract)
  | Extract =>
      match extract_elem_opt (queue sh) with
      | (q, Some j) => Some (mkShared q (processed sh), Process j)
      | (q, None) => Some (mkShared q (processed sh), Done)
      end
  | Process j => Some (mkShared (queue sh) (processed sh ++ [j]), Wait)
  | Done => None
  end.

Record state := mkState { sh : shared; threads : list thread }.

(** [run]: the calling thread produces the jobs and then works itself, next to
    [workers_no] worker threads. *)
Definition start (max_size workers_no : nat) jobs : state :=
  mkState (mkShared (new_queue max_size) []) (Produce jobs :: replicate workers_no Wait).

(** [workers_no] of [run]. *)
Definition workers_no (hardware_concurrency : nat) : nat := (hardware_concurrency - 1) `max` 1.

(** The scheduler picks a thread. *)
Definition run_thread (s : state) (i : nat) : option state :=
  t ← threads s !! i;
  '(sh', t') ← thread_step (sh s) t;
  Some (mkState sh' (<[i := t']> (threads s))).

Fixpoint run_schedule (s : state) (schedule : list nat) : option state :=
  match schedule with
  | [] => Some s
  | i :: rest => s' ← run_thread s i; run_schedule s' rest
  end.

Inductive step (s : state) : state -> Prop :=
| step_thread i s' : run_thread s i = Some s' -> step s s'.

Inductive steps : nat -> state -> state -> Prop :=
| steps_0 s : steps 0 s s
| steps_S n s1 s2 s3 : step s1 s2 -> steps n s2 s3 -> steps (S n) s1 s3.

Definition all_done (s : state) : Prop := Forall (fun t => t = Done) (threads s).
End JobProcessor.
Arguments thread : clear implicits.
Arguments shared : clear implicits.
Arguments state : clear implicits.

(** ** Properties *)

Section Properties.
Context {Job : Type}.
Implicit Types (t : thread Job) (s : state Job) (ts : list (thread Job)) (q : BoundedQueue Job).

(** Sums over the threads. *)
Definition total (f : thread Job -> nat) ts : nat := foldr (fun t n => f t + n) 0 ts.

Lemma total_insert f ts i t t' : ts !! i = Some t -> total f (<[i := t']> ts) + f t = total f ts + f t'.
Proof.
  revert i. induction ts as [|x ts IH]; intros [|i] H; simplify_eq/=; [lia|]. specialize (IH i H). lia.
Qed.

Lemma total_ge f ts i t : ts !! i = Some t -> f t <= total f ts.
Proof. revert i. induction ts as [|x ts IH]; intros [|i] H; simplify_eq/=; [lia|]. specialize (IH i H). lia. Qed.

Lemma total_pos f ts : 0 < total f ts -> exists i t, ts !! i = Some t /\ 0 < f t.
Proof.
  induction ts as [|x ts IH]; cbn [total foldr]; [lia|]. intros H. fold (total f ts) in H.
  destruct (decide (0 < f x)); [by exists 0, x|]. destruct IH as (i & t & E & Ht); [lia|]. by exists (S i), t.
Qed.

Lemma total_replicate f n t : total f (replicate n t) = n * f t.
Proof. unfold total. induction n; cbn [replicate foldr]; lia. Qed.

(** The slots, wake-ups and jobs a thread holds. *)
Definition holding t : nat := match t with Holding _ _ => 1 | _ => 0 end.
Definition extracting t : nat := match t with Extract => 1 | _ => 0 end.
Definition producing t : nat := match t with Produce _ | Holding _ _ => 1 | _ => 0 end.
Definition finished t : nat := match t with Done => 1 | _ => 0 end.
Definition jobs_of t : list Job :=
  match t with Produce js => js | Holding j js => j :: js | Process j => [j] | _ => [] end.

(** Every job is in exactly one place. *)
Definition jobs_in s : list Job := concat (jobs_of <$> threads s) ++ elems_ (queue (sh s)) ++ processed (sh s).

Record inv (max_size : nat) (jobs : list Job) s : Prop := {
  inv_slots : free_slots_ (queue (sh s)) + length (elems_ (queue (sh s))) + total holding (threads s) = max_size;
  inv_queued : queued_elems_ (queue (sh s)) + total extracting (threads s) + total producing (threads s) =
    length (elems_ (queue (sh s))) + 1;
  inv_done : 0 < total producing (threads s) -> total finished (threads s) = 0;
  inv_producer : total producing (threads s) <= 1;
  inv_jobs : jobs_in s ≡ₚ jobs;
  inv_empty : 0 < total finished (threads s) -> elems_ (queue (sh s)) = [];
}.

Lemma jobs_insert ts i t t' : ts !! i = Some t ->
  exists rest, concat (jobs_of <$> ts) ≡ₚ jobs_of t ++ rest /\
    concat (jobs_of <$> <[i := t']> ts) ≡ₚ jobs_of t' ++ rest.
Proof.
  revert i. induction ts as [|x ts IH]; intros [|i] H; simplify_eq/=.
  - eexists. done.
  - destruct (IH i H) as (rest & E1 & E2). exists (jobs_of x ++ rest). rewrite E1, E2.
    split; rewrite !app_assoc; f_equiv; apply Permutation_app_comm.
Qed.

Lemma start_inv max_size n jobs : inv max_size jobs (start max_size n jobs).
Proof.
  constructor; unfold start; cbn [sh threads queue processed new_queue free_slots_ queued_elems_ elems_ length
    total foldr holding extracting producing finished]; fold (total holding (replicate n Wait));
    fold (total extracting (replicate n Wait)); fold (total producing (replicate n Wait));
    fold (total finished (replicate n Wait)); rewrite ?total_replicate; cbn; try lia.
  unfold jobs_in. cbn. rewrite !app_nil_r. replace (concat (jobs_of <$> replicate n Wait)) with (@nil Job).
  - by rewrite app_nil_r.
  - induction n; [done|]. cbn. done.
Qed.

Lemma wait_slot_inv q q' : wait_slot q = Some q' ->
  exists n, free_slots_ q = S n /\ q' = mkQueue n (queued_elems_ q) (elems_ q).
Proof. unfold wait_slot, sem_wait. destruct (free_slots_ q) as [|n]; [done|]. intros [= <-]. by exists n. Qed.

Lemma wait_elem_inv q q' : wait_elem q = Some q' ->
  exists n, queued_elems_ q = S n /\ q' = mkQueue (free_slots_ q) n (elems_ q).
Proof. unfold wait_elem, sem_wait. destruct (queued_elems_ q) as [|n]; [done|]. intros [= <-]. by exists n. Qed.

(** How a step of a thread changes what is counted, and where its jobs are. *)
Definition balance (q q' : BoundedQueue Job) (p p' : list Job) t t' : Prop :=
  free_slots_ q' + length (elems_ q') + holding t' = free_slots_ q + length (elems_ q) + holding t /\
  queued_elems_ q' + extracting t' + producing t' + length (elems_ q) =
    queued_elems_ q + extracting t + producing t + length (elems_ q') /\
  producing t' <= producing t /\
  (finished t' = 0 \/ (elems_ q = [] /\ t = Extract)) /\
  length (elems_ q') <= length (elems_ q) + producing t /\
  jobs_of t' ++ elems_ q' ++ p' ≡ₚ jobs_of t ++ elems_ q ++ p.

Lemma thread_step_balance (x x' : shared Job) t t' : thread_step x t = Some (x', t') ->
  balance (queue x) (queue x') (processed x) (processed x') t t'.
Proof.
  unfold balance. destruct t as [[|j js]|j js| | |j|]; cbn [thread_step]; intros E.
  - injection E as <- <-. cbn. unfold sem_post. split_and!; [lia|lia|lia|by left|lia|done].
  - apply bind_Some in E as (q & E & [= <- <-]). apply wait_slot_inv in E as (n & En & ->). cbn.
    rewrite En. split_and!; [lia|lia|lia|by left|lia|done].
  - injection E as <- <-. cbn. unfold sem_post. rewrite length_app. cbn. split_and!; [lia|lia|lia|by left|lia|].
    rewrite <- !app_assoc. cbn. by rewrite !Permutation_middle.
  - apply bind_Some in E as (q & E & [= <- <-]). apply wait_elem_inv in E as (n & En & ->). cbn.
    rewrite En. split_and!; [lia|lia|lia|by left|lia|done].
  - unfold extract_elem_opt in E. destruct (elems_ (queue x)) as [|j rest] eqn:Ee; injection E as <- <-; cbn; unfold sem_post.
    + rewrite ?Ee. cbn. split_and!; [lia|lia|lia|by right|lia|done].
    + rewrite ?Ee. cbn. split_and!; [lia|lia|lia|by left|lia|done].
  - injection E as <- <-. cbn. split_and!; [lia|lia|lia|by left|lia|]. rewrite app_assoc, Permutation_app_comm. done.
  - done.
Qed.

Lemma run_thread_inv max_size jobs s i s' : inv max_size jobs s -> run_thread s i = Some s' -> inv max_size jobs s'.
Proof.
  intros [I1 I2 I3 I4 I5 I6] E. unfold run_thread in E. apply bind_Some in E as (t & Et & E).
  apply bind_Some in E as ([x' t'] & Ex & [= <-]). apply thread_step_balance in Ex as (B1 & B2 & B3 & B4 & B6 & B5).
  pose proof (total_insert holding _ _ _ t' Et). pose proof (total_insert extracting _ _ _ t' Et).
  pose proof (total_insert producing _ _ _ t' Et). pose proof (total_insert finished _ _ _ t' Et).
  pose proof (total_ge extracting _ _ _ Et). pose proof (total_ge producing _ _ _ Et).
  constructor; cbn [sh threads]; [lia|lia| |lia| |].
  - intros Hp. destruct B4 as [B4|[B4 ->]]; [specialize (I3 ltac:(lia)); lia|].
    rewrite B4 in I2. cbn in I2. cbn [extracting producing] in *. lia.
  - unfold jobs_in in *. cbn [sh threads]. destruct (jobs_insert _ _ _ t' Et) as (rest & E1 & E2).
    rewrite E1 in I5. rewrite E2, <- I5. rewrite <- !app_assoc, !(Permutation_app_swap_app _ rest).
    by rewrite B5.
  - intros Hf. apply nil_length_inv.
    destruct B4 as [B4|[B4 ->]]; [|rewrite B4 in B6; cbn in B6; lia].
    assert (0 < total finished (threads s)) as Hf' by lia. specialize (I6 Hf'). rewrite I6 in B6. cbn in B6.
    destruct (decide (0 < total producing (threads s))) as [Hp|Hp]; [specialize (I3 Hp)|]; lia.
Qed.

Lemma steps_inv max_size jobs n s s' : steps n s s' -> inv max_size jobs s -> inv max_size jobs s'.
Proof. induction 1 as [|n s1 s2 s3 [i s2' E] _ IH]; [done|]. intros I. apply IH. by eapply run_thread_inv. Qed.

(** *** Progress *)

Definition enabled s i : Prop := is_Some (run_thread s i).

Lemma run_thread_enabled s i t r : threads s !! i = Some t -> thread_step (sh s) t = Some r -> enabled s i.
Proof. intros E1 E2. unfold enabled, run_thread. rewrite E1. cbn. rewrite E2. destruct r. by eexists. Qed.

(** A waiting worker runs as soon as there is a wake-up, an extracting one or one
    with a job always. *)
Lemma worker_enabled s i t : threads s !! i = Some t -> producing t = 0 -> finished t = 0 ->
  (t = Wait -> 0 < queued_elems_ (queue (sh s))) -> enabled s i.
Proof.
  intros Et Hp Hf Hw. destruct t as [| | | |j|]; try discriminate.
  - specialize (Hw eq_refl). destruct (queued_elems_ (queue (sh s))) as [|n] eqn:E; [lia|].
    eapply run_thread_enabled; [exact Et|]. cbn. unfold wait_elem. rewrite E. reflexivity.
  - destruct (extract_elem_opt (queue (sh s))) as [q [j|]] eqn:E;
      (eapply run_thread_enabled; [exact Et|]; cbn; rewrite E; reflexivity).
  - eapply run_thread_enabled; [exact Et|]. reflexivity.
Qed.

#[export] Instance all_done_dec s : Decision (all_done s).
Proof.
  unfold all_done. apply Forall_dec. intros []; first [left; reflexivity|right; discriminate].
Defined.

Lemma not_all_done s : ~ all_done s -> exists i t, threads s !! i = Some t /\ finished t = 0.
Proof.
  unfold all_done. induction (threads s) as [|t ts IH]; intros H; [by destruct H|].
  destruct (decide (finished t = 0)) as [E|E]; [by exists 0, t|].
  destruct IH as (i & t' & Ei & Et); [|by exists (S i), t'].
  intros F. apply H. constructor; [|done]. by destruct t.
Qed.

Lemma lookup_total_lt ts : 1 < length ts -> total producing ts <= 1 -> exists i t, ts !! i = Some t /\ producing t = 0.
Proof.
  destruct ts as [|t0 [|t1 ts]]; cbn; [lia|lia|]. intros _ H. destruct (decide (producing t0 = 0)); [by exists 0, t0|].
  exists 1, t1. split; [done|]. lia.
Qed.

Lemma inv_progress max_size jobs s : inv max_size jobs s -> 0 < max_size -> 1 < length (threads s) ->
  ~ all_done s -> exists i, enabled s i.
Proof.
  intros I Hm Hl Hd. destruct I as [I1 I2 I3 I4 I5 _].
  destruct (decide (0 < total extracting (threads s))) as [He|He].
  { apply total_pos in He as (i & t & Et & Ht). exists i. destruct t; cbn in Ht; try lia.
    by eapply worker_enabled. }
  destruct (decide (0 < total producing (threads s))) as [Hp|Hp].
  - apply total_pos in Hp as (i & t & Et & Ht). destruct t as [[|j js]|j js| | | |]; cbn in Ht; try lia.
    + exists i. eapply run_thread_enabled; [exact Et|]. reflexivity.
    + destruct (free_slots_ (queue (sh s))) as [|n] eqn:Ef.
      * (* the queue is full: a worker can go on *)
        destruct (lookup_total_lt _ Hl I4) as (k & t & Ek & Hk). exists k. eapply worker_enabled; [exact Ek|done| |].
        -- pose proof (total_ge producing _ _ _ Et) as H1. cbn in H1.
           pose proof (total_ge finished _ _ _ Ek). specialize (I3 ltac:(lia)). lia.
        -- intros _. pose proof (total_ge producing _ _ _ Et) as H1. cbn in H1.
           assert (total holding (threads s) = 0); [|lia].
           destruct (decide (0 < total holding (threads s))) as [Hh|]; [|lia].
           apply total_pos in Hh as (k' & t' & Ek' & Hk'). destruct t'; cbn in Hk'; try lia.
           exfalso. assert (k' <> i) as Hne by (intros ->; congruence).
           assert (<[i := Wait]> (threads s) !! k' = Some (Holding j0 js0)) as El by (by rewrite list_lookup_insert_ne).
           pose proof (total_ge producing _ _ _ El) as H2. cbn in H2.
           pose proof (total_insert producing _ _ _ Wait Et) as H3. cbn in H3. lia.
      * exists i. eapply run_thread_enabled; [exact Et|]. cbn. unfold wait_slot. rewrite Ef. reflexivity.
    + exists i. eapply run_thread_enabled; [exact Et|]. reflexivity.
  - apply not_all_done in Hd as (i & t & Et & Ht). exists i. eapply worker_enabled; [exact Et| |done|].
    + pose proof (total_ge producing _ _ _ Et). lia.
    + intros _. lia.
Qed.

(** *** Termination *)

(** What is left to do for a thread; an element of the queue counts for 3. *)
Definition weight t : nat :=
  match t with
  | Produce js => 5 * length js + 4
  | Holding _ js => 5 * length js + 8
  | Wait => 3
  | Extract => 2
  | Process _ => 4
  | Done => 0
  end.

Definition work s : nat := total weight (threads s) + 3 * length (elems_ (queue (sh s))).

Lemma thread_step_weight (x x' : shared Job) t t' : thread_step x t = Some (x', t') ->
  weight t' + 3 * length (elems_ (queue x')) < weight t + 3 * length (elems_ (queue x)).
Proof.
  destruct t as [[|j js]|j js| | |j|]; cbn [thread_step]; intros E.
  - injection E as <- <-. cbn. lia.
  - apply bind_Some in E as (q & E & [= <- <-]). apply wait_slot_inv in E as (n & En & ->). cbn. lia.
  - injection E as <- <-. cbn. rewrite length_app. cbn. lia.
  - apply bind_Some in E as (q & E & [= <- <-]). apply wait_elem_inv in E as (n & En & ->). cbn. lia.
  - unfold extract_elem_opt in E. destruct (elems_ (queue x)) as [|j rest] eqn:Ee; injection E as <- <-; cbn;
      rewrite ?Ee; cbn; lia.
  - injection E as <- <-. cbn. lia.
  - done.
Qed.

Lemma step_work s s' : step s s' -> work s' < work s.
Proof.
  intros [i s2 E]. unfold run_thread in E. apply bind_Some in E as (t & Et & E).
  apply bind_Some in E as ([x' t'] & Ex & [= <-]). apply thread_step_weight in Ex.
  unfold work. cbn [sh threads]. pose proof (total_insert weight _ _ _ t' Et). lia.
Qed.

Lemma steps_work n s s' : steps n s s' -> n + work s' <= work s.
Proof. induction 1 as [|n s1 s2 s3 H _ IH]; [lia|]. apply step_work in H. lia. Qed.

Lemma steps_threads n s s' : steps n s s' -> length (threads s') = length (threads s).
Proof.
  induction 1 as [|n s1 s2 s3 [i s2' E] _ IH]; [done|]. rewrite IH. unfold run_thread in E.
  apply bind_Some in E as (t & Et & E). apply bind_Some in E as ([x' t'] & _ & [= <-]). cbn [threads].
  apply length_insert.
Qed.

Lemma all_done_jobs ts : Forall (fun t => t = Done) ts -> concat (jobs_of <$> ts) = [].
Proof. induction 1 as [|t ts -> _ IH]; [done|]. cbn. done. Qed.

(** C15: every execution of [JobProcessor::run], whatever the interleaving, ends:
    it has at most [5 * jobs + 3 * workers + 4] steps. *)
Theorem job_processor_terminates max_size workers (jobs : list Job) n s :
  steps n (start max_size workers jobs) s -> n <= 5 * length jobs + 3 * workers + 4.
Proof.
  intros H. apply steps_work in H. unfold work at 2 in H. unfold start in H. cbn [threads sh queue] in H.
  cbn [total foldr weight] in H. fold (total weight (replicate workers Wait)) in H.
  rewrite total_replicate in H. cbn in H. lia.
Qed.

(** C14: [JobProcessor::run] cannot deadlock and loses no job: with room in the
    queue and at least one worker besides the producing thread, an execution
    that cannot go on has all its threads finished, and every produced job was
    processed exactly once. *)
Theorem job_processor_processes_all max_size workers (jobs : list Job) n s :
  0 < max_size -> 0 < workers -> steps n (start max_size workers jobs) s ->
  (forall i, run_thread s i = None) ->
  all_done s /\ processed (sh s) ≡ₚ jobs.
Proof.
  intros Hm Hw Hs Hstuck. pose proof (steps_inv _ _ _ _ _ Hs (start_inv max_size workers jobs)) as I.
  assert (all_done s) as Hd.
  { destruct (decide (all_done s)) as [|Hd]; [done|]. exfalso.
    destruct (inv_progress _ _ _ I Hm) with (2 := Hd) as [i [s' E]].
    - rewrite (steps_threads _ _ _ Hs). unfold start. cbn [threads length]. rewrite length_replicate. lia.
    - by rewrite Hstuck in E. }
  split; [done|]. destruct I as [_ _ _ _ I5 I6]. unfold jobs_in in I5. rewrite all_done_jobs in I5 by done.
  rewrite I6 in I5; [done|]. apply steps_threads in Hs. unfold start in Hs. cbn [threads length] in Hs.
  unfold all_done in Hd. destruct Hd as [|t ts -> _]; [done|]. cbn. lia.
Qed.

(** At every moment of every execution the queue holds at most [max_size]
    elements, and the semaphores stay within [max_size] and [max_size + 1]: no
    [sem_post] overflows as long as these are below [SEM_VALUE_MAX]. *)
Theorem bounded_queue_bounds max_size workers (jobs : list Job) n s :
  steps n (start max_size workers jobs) s ->
  length (elems_ (queue (sh s))) <= max_size /\
  free_slots_ (queue (sh s)) <= max_size /\ queued_elems_ (queue (sh s)) <= max_size + 1.
Proof.
  intros Hs. destruct (steps_inv _ _ _ _ _ Hs (start_inv max_size workers jobs)) as [I1 I2 _ _ _ _]. lia.
Qed.
End Properties.

Lemma run_schedule_steps {Job} sched : forall (s s' : state Job),
  run_schedule s sched = Some s' -> steps (length sched) s s'.
Proof.
  induction sched as [|i sched IH]; intros s s'; cbn [run_schedule length].
  - intros [= <-]. constructor.
  - intros E. apply bind_Some in E as (s1 & E1 & E2). econstructor; [by econstructor|by apply IH].
Qed.

(** One worker, a queue with one slot, two jobs. *)
Definition sample_schedule : list nat := [0; 0; 1; 1; 0; 0; 0; 1; 1; 1; 0; 0; 1; 1; 1].

Definition sample_end : state nat :=
  mkState (mkShared (mkQueue 1 1 []) [7; 8]) [Done; Done].

Lemma sample_run : run_schedule (start 1 1 [7; 8]) sample_schedule = Some sample_end.
Proof. vm_compute. reflexivity. Qed.

Lemma job_processor_terminates_witness :
  steps 15 (start 1 1 [7; 8]) sample_end /\ 15 <= 5 * length [7; 8] + 3 * 1 + 4.
Proof.
  split; [exact (run_schedule_steps _ _ _ sample_run)|].
  apply (job_processor_terminates 1 1 [7; 8] 15 sample_end). exact (run_schedule_steps _ _ _ sample_run).
Defined.

Lemma job_processor_processes_all_witness :
  all_done sample_end /\ processed (sh sample_end) ≡ₚ [7; 8].
Proof.
  apply (job_processor_processes_all 1 1 [7; 8] 15 sample_end); [lia|lia| |].
  - exact (run_schedule_steps _ _ _ sample_run).
  - intros [|[|i]]; reflexivity.
Defined.

Lemma bounded_queue_bounds_witness :
  length (elems_ (queue (sh sample_end))) <= 1 /\
  free_slots_ (queue (sh sample_end)) <= 1 /\ queued_elems_ (queue (sh sample_end)) <= 1 + 1.
Proof.
  apply (bounded_queue_bounds 1 1 [7; 8] 15 sample_end). exact (run_schedule_steps _ _ _ sample_run).
Defined.
