(* ===== verification/Ctype.v ===== *)
(** * Character classification and conversion

    Models [include/simlib/ctype.hh] and the digit conversions of
    [include/simlib/string_transform.hh].  The functions are templates over the
    integer type of the character; they are instantiated at [char] throughout
    the library, so a character is compared by its signed value. *)

From Stdlib Require Import ZArith Lia Ascii.
From S2P Require Import Prelude.

Definition is_digit (c : ascii) : bool := ("0" <=c c) && (c <=c "9").

Definition is_alpha (c : ascii) : bool :=
  (("A" <=c c) && (c <=c "Z")) || (("a" <=c c) && (c <=c "z")).

Definition is_alnum (c : ascii) : bool := is_alpha c || is_digit c.

Definition is_xdigit (c : ascii) : bool :=
  is_digit c || (("A" <=c c) && (c <=c "F")) || (("a" <=c c) && (c <=c "f")).

Definition is_lower (c : ascii) : bool := ("a" <=c c) && (c <=c "z").

Definition is_upper (c : ascii) : bool := ("A" <=c c) && (c <=c "Z").

Definition is_cntrl (c : ascii) : bool :=
  (("000" <=c c) && (c <=c "031")) || (c =c "127").

Definition is_space (c : ascii) : bool :=
  (c =c "009") || (("010" <=c c) && (c <=c "013")) || (c =c " ").

Definition is_blank (c : ascii) : bool := (c =c "009") || (c =c " ").

Definition is_graph (c : ascii) : bool := ("033" <=c c) && (c <=c "126").

Definition is_print (c : ascii) : bool := ("032" <=c c) && (c <=c "126").

Definition is_punct (c : ascii) : bool :=
  (("033" <=c c) && (c <=c "047")) || (("058" <=c c) && (c <=c "064"))
  || (("091" <=c c) && (c <=c "096")) || (("123" <=c c) && (c <=c "126")).

Definition to_lower (c : ascii) : ascii :=
  if is_upper c then char_of (97 + (chz c - 65)) else c.

Definition to_upper (c : ascii) : ascii :=
  if is_lower c then char_of (65 + (chz c - 97)) else c.
