(* ===== verification/StringView.v ===== *)
(** * Strings and string views

    Models [include/simlib/string_view.hh] ([StringBase], [StringView] and the
    free functions on [std::string]).  A view is the sequence of characters it
    shows: the pointer is gone, an access that the pointer would make past the
    end of the view is [UB].  [npos] is [None]. *)

From Stdlib Require Import ZArith Lia Ascii.
From S2P Require Import Prelude.

(** An exception that leaves a [noexcept] function ends the process. *)
Definition noexcept {A} (m : outcome A) : outcome A :=
  match m with Throw _ => UB | _ => m end.

Module SV.

(** ** Element access *)

Definition empty (s : str) : bool := length s =? 0.

Definition index (s : str) (n : nat) : outcome ascii := get_or_ub (s !! n).

Definition front (s : str) : outcome ascii := get_or_ub (s !! 0).

Definition back (s : str) : outcome ascii :=
  if empty s then UB else get_or_ub (s !! (length s - 1)).

Definition at_ (s : str) (n : nat) : outcome ascii :=
  match s !! n with
  | Some c => Ok c
  | None => Throw (OutOfRange (lit "StringBase::at"))
  end.

(** ** Comparison

    [std::char_traits<const char>::compare]: the generic traits, which compare
    two characters with [<] on [char]. *)

Fixpoint traits_compare (a b : str) (n : nat) : Z :=
  match n, a, b with
  | S n', x :: a', y :: b' =>
      if x <c y then -1 else if y <c x then 1 else traits_compare a' b' n'
  | _, _, _ => 0
  end%Z.

Definition compare (a b : str) : Z :=
  let clen := length a `min` length b in
  let rc := traits_compare a b clen in
  if negb (rc =? 0)%Z then rc
  else if length a =? length b then 0%Z
  else if length a <? length b then (-1)%Z else 1%Z.

Definition eqb (a b : str) : bool :=
  (length a =? length b) && (traits_compare a b (length a) =? 0)%Z.

Definition ltb (a b : str) : bool := (compare a b <? 0)%Z.
Definition gtb (a b : str) : bool := (compare a b >? 0)%Z.
Definition leb (a b : str) : bool := (compare a b <=? 0)%Z.
Definition geb (a b : str) : bool := (compare a b >=? 0)%Z.

(** ** Substrings *)

Definition substr_from (s : str) (pos : nat) : outcome str :=
  if length s <? pos then Throw (OutOfRange (lit "StringBase::substr"))
  else Ok (drop pos s).

Definition substr (s : str) (pos count : nat) : outcome str :=
  if length s <? pos then Throw (OutOfRange (lit "StringBase::substr"))
  else Ok (take (count `min` (length s - pos)) (drop pos s)).

Definition substring (s : str) (beg endi : nat) : outcome str :=
  if (endi <? beg) || (length s <? beg)
  then Throw (OutOfRange (lit "StringBase::substring"))
  else Ok (take (length s `min` endi - beg) (drop beg s)).

Definition compare_sub (s : str) (pos count : nat) (t : str) : outcome Z :=
  r ← substr s pos count; Ok (compare r t).

(** ** Searching for a character *)

(** The loop [for (; beg < endi; ++beg)]; [k] is the number of iterations
    left. *)
Fixpoint find_loop (s : str) (c : ascii) (beg k : nat) : option nat :=
  match k with
  | 0 => None
  | S k' =>
      match s !! beg with
      | Some x => if x =c c then Some beg else find_loop s c (S beg) k'
      | None => None
      end
  end.

Definition find_char (s : str) (c : ascii) (beg : nat) : option nat :=
  find_loop s c beg (length s - beg).

Definition find_char_in (s : str) (c : ascii) (beg endi : nat) : option nat :=
  let endi := if length s <? endi then length s else endi in
  find_loop s c beg (endi - beg).

(** The loop [for (; endi > beg;) if (str[--endi] == c) return endi;]; [k] is
    [endi - beg]. *)
Fixpoint rfind_loop (s : str) (c : ascii) (beg k : nat) : option nat :=
  match k with
  | 0 => None
  | S k' =>
      match s !! (beg + k') with
      | Some x => if x =c c then Some (beg + k') else rfind_loop s c beg k'
      | None => None
      end
  end.

Definition rfind_char (s : str) (c : ascii) (beg : nat) : option nat :=
  rfind_loop s c beg (length s - beg).

Definition rfind_char_in (s : str) (c : ascii) (beg endi : nat) : option nat :=
  let endi := if length s <? endi then length s else endi in
  rfind_loop s c beg (endi - beg).

(** ** Searching for a substring: Knuth-Morris-Pratt *)

(** [while (k > 0 && c != s[k]) k = p[k - 1];] *)
Fixpoint kmp_fall (fuel : nat) (s : str) (p : list nat) (c : ascii) (k : nat) : outcome nat :=
  match fuel with
  | 0 => NoFuel
  | S fuel' =>
      match k with
      | 0 => Ok 0
      | S k1 =>
          x ← index s k;
          if x =c c then Ok k
          else k' ← get_or_ub (p !! k1); kmp_fall fuel' s p c k'
      end
  end.

(** [if (c == s[k]) ++k;] after the fall. *)
Definition kmp_step (s : str) (p : list nat) (c : ascii) (k : nat) : outcome nat :=
  k ← kmp_fall (S k) s p c k;
  x ← index s k;
  Ok (if x =c c then S k else k).

(** The loop that fills [p]: [p] holds the entries below [i]. *)
Fixpoint kmp_fill (s : str) (rest : str) (p : list nat) (k : nat) : outcome (list nat) :=
  match rest with
  | [] => Ok p
  | c :: rest' =>
      k ← kmp_step s p c k;
      kmp_fill s rest' (p ++ [k]) k
  end.

(** The loop over the text. *)
Fixpoint kmp_search (s : str) (p : list nat) (text : str) (i k : nat) : outcome (option nat) :=
  match text with
  | [] => Ok None
  | c :: text' =>
      k ← kmp_step s p c k;
      if k =? length s then Ok (Some (i + 1 - length s))
      else kmp_search s p text' (S i) k
  end.

Definition find (text s : str) : outcome (option nat) :=
  if length s =? 0 then Ok (Some 0)
  else
    p ← kmp_fill s (tail s) [0] 0;
    kmp_search s p text 0 0.

(** ** Removing and extracting *)

Definition remove_prefix (s : str) (n : nat) : str :=
  let n := if length s <? n then length s else n in drop n s.

Definition remove_suffix (s : str) (n : nat) : str :=
  if length s <? n then [] else take (length s - n) s.

(** Both parts: the extracted one and what is left. *)
Definition extract_prefix (s : str) (n : nat) : str * str :=
  let n := if length s <? n then length s else n in (take n s, drop n s).

(** For [n > len] the source sets [len = n], so that the result shows [n]
    characters starting at the first one. *)
Definition extract_suffix (s : str) (n : nat) : outcome (str * str) :=
  if length s <? n then UB
  else Ok (drop (length s - n) s, take (length s - n) s).

Definition remove_leading (f : ascii -> bool) (s : str) : str := drop_while f s.

Definition remove_leading_char (c : ascii) (s : str) : str :=
  drop_while (fun x => x =c c) s.

Definition remove_trailing (f : ascii -> bool) (s : str) : str :=
  rev (drop_while f (rev s)).

Definition remove_trailing_char (c : ascii) (s : str) : str :=
  remove_trailing (fun x => x =c c) s.

Definition extract_leading (f : ascii -> bool) (s : str) : str * str :=
  (take_while f s, drop_while f s).

Definition extract_trailing (f : ascii -> bool) (s : str) : str * str :=
  (rev (take_while f (rev s)), rev (drop_while f (rev s))).

(** ** The order on strings *)

(** Lexicographic comparison by the signed value of the characters. *)
Fixpoint lex (a b : str) : comparison :=
  match a, b with
  | [], [] => Eq
  | [], _ => Lt
  | _, [] => Gt
  | x :: a', y :: b' =>
      match (chz x ?= chz y)%Z with Eq => lex a' b' | o => o end
  end.

Definition sign_of (o : comparison) : Z := match o with Lt => -1 | Eq => 0 | Gt => 1 end.

Lemma compare_lex a b : compare a b = sign_of (lex a b).
Proof.
  unfold compare. revert b. induction a as [|x a IH]; intros [|y b]; try reflexivity.
  cbn [length Nat.min traits_compare lex]. unfold char_ltb.
  destruct (Z.compare_spec (chz x) (chz y)) as [E|E|E].
  - rewrite E, Z.ltb_irrefl. rewrite <- IH. reflexivity.
  - by rewrite (proj2 (Z.ltb_lt _ _) E).
  - rewrite (proj2 (Z.ltb_ge (chz x) (chz y))) by lia.
    by rewrite (proj2 (Z.ltb_lt (chz y) (chz x))).
Qed.

Lemma lex_refl a : lex a a = Eq.
Proof. induction a as [|x a IH]; simpl; [done|]. by rewrite Z.compare_refl. Qed.

Lemma lex_eq a b : lex a b = Eq <-> a = b.
Proof.
  split; [|intros ->; apply lex_refl]. revert b.
  induction a as [|x a IH]; intros [|y b]; simpl; try done.
  destruct (Z.compare_spec (chz x) (chz y)) as [E|E|E]; try done.
  apply chz_inj in E as ->. intros H. f_equal. by apply IH.
Qed.

Lemma lex_antisym a b : lex b a = CompOpp (lex a b).
Proof.
  revert b. induction a as [|x a IH]; intros [|y b]; simpl; try done.
  rewrite (Z.compare_antisym (chz x)). destruct (chz x ?= chz y)%Z; simpl; auto.
Qed.

Lemma lex_trans a b c : lex a b = Lt -> lex b c = Lt -> lex a c = Lt.
Proof.
  revert b c. induction a as [|x a IH]; intros [|y b] [|z c]; simpl; try done.
  destruct (Z.compare_spec (chz x) (chz y)), (Z.compare_spec (chz y) (chz z)),
    (Z.compare_spec (chz x) (chz z)); try done; try lia; eauto.
Qed.

Lemma ltb_lex a b : ltb a b = true <-> lex a b = Lt.
Proof. unfold ltb. rewrite compare_lex. by destruct (lex a b). Qed.

Lemma eqb_eq a b : eqb a b = true <-> a = b.
Proof.
  unfold eqb. split.
  - intros H. bools. rename H into Hl, H0 into H.
    apply Nat.eqb_eq in Hl. apply Z.eqb_eq in H.
    apply lex_eq. pose proof (compare_lex a b) as E. unfold compare in E.
    rewrite <- Hl, Nat.min_id, H, Nat.eqb_refl in E. simpl in E.
    by destruct (lex a b).
  - intros ->. rewrite Nat.eqb_refl. simpl. apply Z.eqb_eq.
    pose proof (compare_lex b b) as E. rewrite lex_refl in E. unfold compare in E.
    rewrite Nat.min_id, Nat.eqb_refl in E. destruct (traits_compare b b (length b) =? 0)%Z eqn:E2.
    + by apply Z.eqb_eq in E2.
    + simpl in E. by rewrite E in E2.
Qed.

Lemma eqb_decide a b : eqb a b = bool_decide (a = b).
Proof.
  destruct (bool_decide_reflect (a = b)) as [H|H]; [by apply eqb_eq|].
  destruct (eqb a b) eqn:E; [|done]. by apply eqb_eq in E.
Qed.

(** [operator<] on views is a strict total order, as the ordered containers
    keyed by views need. *)
Lemma ltb_irrefl a : ltb a a = false.
Proof. unfold ltb. rewrite compare_lex, lex_refl. done. Qed.

Lemma ltb_trans a b c : ltb a b = true -> ltb b c = true -> ltb a c = true.
Proof. rewrite !ltb_lex. apply lex_trans. Qed.

Lemma ltb_total a b : ltb a b = false -> ltb b a = false -> a = b.
Proof.
  unfold ltb. rewrite !compare_lex, (lex_antisym a b). intros H1 H2.
  apply lex_eq. by destruct (lex a b).
Qed.

(** ** Character search *)

Lemma find_loop_spec s c beg k :
  beg + k = length s `max` beg ->
  match find_loop s c beg k with
  | Some i => beg <= i < length s /\ s !! i = Some c /\
              forall j, beg <= j < i -> s !! j <> Some c
  | None => forall j, beg <= j -> s !! j <> Some c
  end.
Proof.
  revert beg. induction k as [|k IH]; intros beg Hk; simpl.
  - intros j Hj. rewrite lookup_ge_None_2 by lia. done.
  - destruct (lookup_lt_is_Some_2 s beg) as [x Hx]; [lia|]. rewrite Hx.
    destruct (x =c c) eqn:E; bools; simplify_eq.
    + split; [lia|]. split; [done|]. intros; lia.
    + specialize (IH (S beg)). destruct (find_loop s c (S beg) k) as [i|].
      * destruct IH as (H1 & H2 & H3); [lia|]. split; [lia|]. split; [done|].
        intros j Hj. destruct (decide (j = beg)) as [->|]; [congruence|]. apply H3; lia.
      * intros j Hj. destruct (decide (j = beg)) as [->|]; [congruence|]. apply IH; lia.
Qed.

Lemma find_char_spec s c beg :
  match find_char s c beg with
  | Some i => beg <= i < length s /\ s !! i = Some c /\
              forall j, beg <= j < i -> s !! j <> Some c
  | None => forall j, beg <= j -> s !! j <> Some c
  end.
Proof. apply find_loop_spec. lia. Qed.

Lemma rfind_loop_spec s c beg k :
  beg + k <= length s \/ k = 0 ->
  match rfind_loop s c beg k with
  | Some i => beg <= i < beg + k /\ s !! i = Some c /\
              forall j, i < j < beg + k -> s !! j <> Some c
  | None => forall j, beg <= j < beg + k -> s !! j <> Some c
  end.
Proof.
  induction k as [|k IH]; intros Hk; simpl; [intros; lia|].
  destruct (lookup_lt_is_Some_2 s (beg + k)) as [x Hx]; [lia|]. rewrite Hx.
  destruct (x =c c) eqn:E; bools; simplify_eq.
  - split; [lia|]. split; [done|]. intros; lia.
  - destruct (rfind_loop s c beg k) as [i|].
    + destruct IH as (H1 & H2 & H3); [lia|]. split; [lia|]. split; [done|].
      intros j Hj. destruct (decide (j = beg + k)) as [->|]; [congruence|]. apply H3; lia.
    + intros j Hj. destruct (decide (j = beg + k)) as [->|]; [congruence|]. apply IH; lia.
Qed.

Lemma rfind_char_spec s c beg :
  match rfind_char s c beg with
  | Some i => beg <= i < length s /\ s !! i = Some c /\
              forall j, i < j -> s !! j <> Some c
  | None => forall j, beg <= j -> s !! j <> Some c
  end.
Proof.
  unfold rfind_char. pose proof (rfind_loop_spec s c beg (length s - beg)) as H.
  specialize (H ltac:(lia)). destruct (rfind_loop _ _ _ _) as [i|].
  - destruct H as (H1 & H2 & H3). split; [lia|]. split; [done|]. intros j Hj.
    destruct (decide (j < length s)); [apply H3; lia|]. rewrite lookup_ge_None_2 by lia. done.
  - intros j Hj. destruct (decide (j < length s)); [apply H; lia|].
    rewrite lookup_ge_None_2 by lia. done.
Qed.

(** ** Extraction *)

Lemma extract_leading_app f s :
  (extract_leading f s).1 ++ (extract_leading f s).2 = s.
Proof. apply take_drop_while. Qed.

Lemma extract_trailing_app f s :
  (extract_trailing f s).2 ++ (extract_trailing f s).1 = s.
Proof.
  unfold extract_trailing. simpl. rewrite <- rev_app_distr, take_drop_while.
  apply rev_involutive.
Qed.

Lemma remove_prefix_drop s n : remove_prefix s n = drop n s.
Proof.
  unfold remove_prefix. destruct (Nat.ltb_spec (length s) n); [|done].
  rewrite !drop_ge by lia. done.
Qed.

End SV.
