(* ===== verification/StringSearch.v ===== *)
(** * Correctness of the substring search

    [StringBase::find(const StringBase&)] is Knuth-Morris-Pratt.  The proof
    follows the prefixes of the needle that end at the current position of the
    text: the automaton state is the longest of them. *)

From Stdlib Require Import ZArith Lia Ascii.
From S2P Require Import Prelude.
From S2P Require Import StringView.

Module Search.

(** [s] occurs in [text] at position [pos]. *)
Definition occurs (text s : str) (pos : nat) : Prop :=
  exists l r, text = l ++ s ++ r /\ length l = pos.

(** The prefix of length [j] of [s] ends the text [w]. *)
Definition ends (s w : str) (j : nat) : Prop := take j s `suffix_of` w.

(** [k] is the longest prefix of [s] not longer than [lim] that ends [w]. *)
Definition longest (s w : str) (lim k : nat) : Prop :=
  k <= lim /\ ends s w k /\ forall j, j <= lim -> ends s w j -> j <= k.

(** The failure table: entry [i] is the longest proper border of the prefix of
    length [i + 1]. *)
Definition table_ok (s : str) (p : list nat) : Prop :=
  forall i k, p !! i = Some k -> longest s (take (S i) s) i k.

Lemma ends_trans s w k j :
  k <= length s -> ends s w k -> ends s (take k s) j -> ends s w j.
Proof. unfold ends. intros _ H1 H2. by etrans. Qed.

Lemma ends_shorter s w k j :
  k <= length s -> j <= k -> ends s w k -> ends s w j -> ends s (take k s) j.
Proof.
  intros Hk Hj H1 H2. eapply suffix_both_le; [exact H2|exact H1|].
  rewrite !length_take. lia.
Qed.

Lemma ends_0 s w : ends s w 0.
Proof. apply suffix_nil. Qed.

Lemma ends_S s w c j :
  j < length s -> ends s (w ++ [c]) (S j) <-> s !! j = Some c /\ ends s w j.
Proof.
  intros Hj. destruct (lookup_lt_is_Some_2 s j Hj) as [x Hx].
  unfold ends. rewrite (take_S_r _ _ _ Hx). rewrite Hx. split.
  - intros [l Hl]. rewrite app_assoc in Hl. apply app_inj_tail in Hl as [-> ->].
    split; [done|]. by exists l.
  - intros [[= ->] [l ->]]. exists l. by rewrite app_assoc.
Qed.

(** The inner loop stops at the longest candidate that can be extended by
    [c]. *)
Lemma kmp_fall_spec s p c w : table_ok s p ->
  forall k fuel, k < fuel -> k < length s -> k <= length p -> ends s w k ->
  exists k', SV.kmp_fall fuel s p c k = Ok k' /\ k' <= k /\ ends s w k' /\
    (k' = 0 \/ s !! k' = Some c) /\
    forall j, j <= k -> ends s w j -> s !! j = Some c -> j <= k'.
Proof.
  intros Hp k. induction k as [k IH] using lt_wf_ind. intros fuel Hf Hk Hlp He.
  destruct fuel as [|fuel]; [lia|]. simpl. destruct k as [|k1].
  { exists 0. repeat split; auto with lia. }
  destruct (lookup_lt_is_Some_2 s (S k1) Hk) as [x Hx].
  unfold SV.index. rewrite Hx. simpl. destruct (x =c c) eqn:E; bools.
  { subst x. exists (S k1). repeat split; auto. }
  destruct (lookup_lt_is_Some_2 p k1) as [k2 Hk2]; [lia|]. rewrite Hk2. simpl.
  destruct (Hp _ _ Hk2) as (Hle & Hends & Hmax).
  destruct (IH k2) with (fuel := fuel) as (k' & ? & ? & ? & ? & Hm); try lia.
  { eapply ends_trans; [|exact He|exact Hends]. lia. }
  exists k'. repeat split; auto with lia. intros j Hj Hje Hjc.
  assert (j <> S k1) by congruence. apply Hm; [|done|done].
  apply Hmax; [lia|]. eapply ends_shorter; [| |exact He|exact Hje]; lia.
Qed.

Lemma kmp_step_spec s p c w k :
  table_ok s p -> k < length s -> k <= length p -> longest s w (length s) k ->
  exists k', SV.kmp_step s p c k = Ok k' /\ longest s (w ++ [c]) (length s) k'.
Proof.
  intros Hp Hk Hlp (_ & He & Hmax). unfold SV.kmp_step.
  destruct (kmp_fall_spec s p c w Hp k (S k)) as (k0 & -> & Hle & He0 & Hor & Hm); auto.
  simpl. destruct (lookup_lt_is_Some_2 s k0) as [x Hx]; [lia|].
  unfold SV.index. rewrite Hx. simpl. destruct (x =c c) eqn:E; bools.
  - subst x. exists (S k0). split; [done|]. split; [lia|].
    split; [apply ends_S; [lia|done]|]. intros [|j] Hj Hje; [lia|].
    apply ends_S in Hje as [Hjc Hje]; [|lia].
    apply le_n_S, Hm; [apply Hmax; [lia|done]|done|done].
  - destruct Hor as [->|]; [|congruence]. exists 0. split; [done|]. split; [lia|].
    split; [apply ends_0|]. intros [|j] Hj Hje; [lia|].
    apply ends_S in Hje as [Hjc Hje]; [|lia].
    assert (j <= 0) by (apply Hm; [apply Hmax; [lia|done]|done|done]).
    assert (j = 0) as -> by lia. congruence.
Qed.

(** A proper border of the prefix of length [i + 1] is a prefix that ends what
    follows its first character. *)
Lemma longest_border s i k :
  S i <= length s -> longest s (drop 1 (take (S i) s)) (length s) k ->
  longest s (take (S i) s) i k.
Proof.
  unfold longest, ends. intros Hi (Hk & He & Hmax).
  assert (k <= i) as Hki.
  { apply suffix_length in He. rewrite length_take, length_drop, length_take in He. lia. }
  split; [done|]. split.
  { unfold ends in *. etrans; [exact He|]. apply suffix_drop. }
  intros j Hj Hje. apply Hmax; [lia|]. eapply suffix_both_le; [exact Hje|apply suffix_drop|].
  rewrite length_take, length_drop, length_take. lia.
Qed.

Lemma kmp_fill_spec s : forall rest p k,
  rest = drop (length p) s -> 0 < length p <= length s -> table_ok s p ->
  longest s (drop 1 (take (length p) s)) (length s) k ->
  exists p', SV.kmp_fill s rest p k = Ok p' /\ table_ok s p' /\ length p' = length s.
Proof.
  induction rest as [|c rest IH]; intros p k Hrest Hlen Hp Hk; simpl.
  { exists p. split_and!; auto. apply (f_equal length) in Hrest.
    rewrite length_drop in Hrest. simpl in Hrest. lia. }
  assert (s !! length p = Some c) as Hc.
  { apply (f_equal (lookup 0)) in Hrest. simpl in Hrest.
    rewrite lookup_drop, Nat.add_0_r in Hrest. done. }
  pose proof (lookup_lt_Some _ _ _ Hc) as Hlt.
  assert (k < length p) as Hkp.
  { destruct Hk as (Hk & He & _). apply suffix_length in He.
    rewrite length_take, length_drop, length_take in He. lia. }
  destruct (kmp_step_spec s p c (drop 1 (take (length p) s)) k) as (k' & -> & Hk'); try lia; auto.
  simpl. replace (drop 1 (take (length p) s) ++ [c])
    with (drop 1 (take (S (length p)) s)) in Hk'.
  2: { rewrite (take_S_r _ _ _ Hc), drop_app_le; [done|]. rewrite length_take. lia. }
  apply IH; rewrite ?length_app; simpl; try lia.
  - apply (f_equal (drop 1)) in Hrest. simpl in Hrest.
    rewrite drop_drop in Hrest. rewrite skipn_O in Hrest. exact Hrest.
  - intros i k2 Hi. destruct (decide (i < length p)).
    + rewrite lookup_app_l in Hi by lia. by apply Hp.
    + assert (i = length p) as -> by (apply lookup_lt_Some in Hi; rewrite length_app in Hi; simpl in Hi; lia).
      rewrite lookup_app_r, Nat.sub_diag in Hi by lia. simplify_eq/=.
      apply longest_border; [lia|done].
  - by rewrite Nat.add_1_r.
Qed.

Lemma occurs_suffix text s i :
  occurs text s i <-> i + length s <= length text /\ s `suffix_of` take (i + length s) text.
Proof.
  split.
  - intros (l & r & -> & <-). rewrite !length_app. split; [lia|]. exists l.
    rewrite app_assoc, take_app_le, take_ge; rewrite ?length_app; [done|lia..].
  - intros [Hle [l Hl]]. exists l, (drop (i + length s) text). split.
    + rewrite app_assoc, <- Hl. symmetry. apply take_drop.
    + apply (f_equal length) in Hl. rewrite length_take, length_app in Hl. lia.
Qed.

Lemma kmp_search_spec s p : 0 < length s -> table_ok s p -> length p = length s ->
  forall rest w k, k < length s -> longest s w (length s) k ->
  (forall i, i + length s <= length w -> ~ occurs (w ++ rest) s i) ->
  exists r, SV.kmp_search s p rest (length w) k = Ok r /\
    match r with
    | Some i => occurs (w ++ rest) s i /\ forall j, j < i -> ~ occurs (w ++ rest) s j
    | None => forall j, ~ occurs (w ++ rest) s j
    end.
Proof.
  intros Hs Hp Hlp. induction rest as [|c rest IH]; intros w k Hk Hl Hno; simpl.
  { exists None. split; [done|]. intros j Hj. pose proof Hj as Hj'.
    apply occurs_suffix in Hj as [Hj _]. rewrite length_app in Hj. simpl in Hj.
    eapply Hno; [|exact Hj']. lia. }
  destruct (kmp_step_spec s p c w k) as (k' & -> & Hk' & He & Hmax); try lia; auto.
  simpl. assert (take (length w + 1) (w ++ c :: rest) = w ++ [c]) as Htk.
  { rewrite (app_assoc w [c] rest : w ++ c :: rest = _), take_app_le, take_ge;
      rewrite ?length_app; simpl; [done|lia..]. }
  destruct (Nat.eqb_spec k' (length s)) as [->|Hne].
  - unfold ends in He. rewrite take_ge in He by lia.
    pose proof (suffix_length _ _ He) as Hlen. rewrite length_app in Hlen. simpl in Hlen.
    exists (Some (length w + 1 - length s)). split; [done|]. split.
    + apply occurs_suffix. rewrite length_app. simpl. split; [lia|].
      rewrite Nat.sub_add by lia. by rewrite Htk.
    + intros j Hj. apply Hno. lia.
  - specialize (IH (w ++ [c]) k').
    rewrite length_app in IH. cbn [length] in IH. rewrite Nat.add_1_r in IH.
    rewrite <- app_assoc in IH. simpl in IH. apply IH; [lia|split_and!; auto|].
    intros i Hi Hocc. pose proof Hocc as Hocc'.
    destruct (decide (i + length s <= length w)) as [?|?]; [by eapply Hno|].
    apply occurs_suffix in Hocc as [_ Hocc].
    replace (i + length s) with (length w + 1) in Hocc by lia. rewrite Htk in Hocc.
    apply Hne. apply Nat.le_antisymm; [lia|]. apply Hmax; [lia|].
    unfold ends. by rewrite take_ge by lia.
Qed.

Lemma table_init s : table_ok s [0].
Proof.
  intros [|i] k; simpl; [|done]. intros [= <-]. split; [lia|]. split; [apply ends_0|]. lia.
Qed.

Lemma longest_nil s : 0 < length s -> longest s [] (length s) 0.
Proof.
  intros Hs. split; [lia|]. split; [apply ends_0|]. intros j Hj He.
  apply suffix_length in He. rewrite length_take in He. simpl in He. lia.
Qed.

Lemma find_spec text s : s <> [] ->
  exists r, SV.find text s = Ok r /\
    match r with
    | Some i => occurs text s i /\ forall j, j < i -> ~ occurs text s j
    | None => forall j, ~ occurs text s j
    end.
Proof.
  intros Hs. assert (0 < length s) as Hlen by (destruct s; simpl; [done|lia]).
  unfold SV.find. rewrite (proj2 (Nat.eqb_neq _ _)) by lia.
  destruct (kmp_fill_spec s (tail s) [0] 0) as (p & -> & Hp & Hlp); simpl; try lia.
  - by destruct s.
  - apply table_init.
  - destruct s; [done|]. apply longest_nil. done.
  - apply (kmp_search_spec s p Hlen Hp Hlp text [] 0 Hlen (longest_nil s Hlen)).
    simpl. intros; lia.
Qed.

(** C36: [StringBase::find] of a non-empty needle runs without an access out of
    its buffers, ends, and returns the position of the first occurrence of the
    needle in the text, or [npos] exactly when there is none. *)
Theorem find_correct text s : s <> [] ->
  exists r, SV.find text s = Ok r /\
    match r with
    | Some i => occurs text s i /\ forall j, j < i -> ~ occurs text s j
    | None => forall j, ~ occurs text s j
    end.
Proof. apply find_spec. Qed.

Lemma find_correct_witness :
  exists r, SV.find (lit "abababac") (lit "ababac") = Ok r /\
    match r with
    | Some i => occurs (lit "abababac") (lit "ababac") i /\
                forall j, j < i -> ~ occurs (lit "abababac") (lit "ababac") j
    | None => forall j, ~ occurs (lit "abababac") (lit "ababac") j
    end.
Proof. apply (find_correct (lit "abababac") (lit "ababac")). discriminate. Defined.

End Search.
