(* ===== verification/StringViewMore.v ===== *)
(** * The rest of the string views

    The backward search [StringBase::rfind(const StringBase&)], the overloads of
    [find] and [rfind] that take parts of their arguments, and the remaining
    members and functions of [include/simlib/string_view.hh].  The backward search
    is the forward one of [StringView.v] read in a mirror; its correctness is
    carried over. *)

From Stdlib Require Import ZArith Lia Ascii.
From S2P Require Import Prelude.
From S2P Require Import StringView.
From S2P Require Import StringSearch.
Local Open Scope simlib_scope.

Module RSearch.

(** ** Searching backwards

    [size_type] is unsigned: decrementing 0 gives [npos]. *)

Definition npos : Z := 2 ^ 64 - 1.
Definition dec (k : Z) : Z := ((k - 1) mod 2 ^ 64)%Z.

Definition index_z (s : str) (k : Z) : outcome ascii :=
  if (k <? Z.of_nat (length s))%Z then SV.index s (Z.to_nat k) else UB.
Definition entry_z (p : list Z) (k : Z) : outcome Z :=
  if (k <? Z.of_nat (length p))%Z then get_or_ub (p !! Z.to_nat k) else UB.

(** [while (k < slen1 && c != s[k]) k = p[k + 1];] *)
Fixpoint rkmp_fall (fuel : nat) (s : str) (p : list Z) (c : ascii) (k : Z) : outcome Z :=
  match fuel with
  | O => NoFuel
  | S fuel' =>
      if (k <? Z.of_nat (length s - 1))%Z then
        x ← index_z s k;
        if x =c c then Ok k
        else k' ← entry_z p (k + 1); rkmp_fall fuel' s p c k'
      else Ok k
  end.

(** [if (c == s[k]) --k;] after the fall, each turn of which increases [k]. *)
Definition rkmp_step (s : str) (p : list Z) (c : ascii) (k : Z) : outcome Z :=
  k ← rkmp_fall (length s - Z.to_nat k) s p c k;
  x ← index_z s k;
  Ok (if x =c c then dec k else k).

(** The loop that fills [p], from [i - 1] down. *)
Fixpoint rkmp_fill (s : str) (i : nat) (p : list Z) (k : Z) : outcome (list Z) :=
  match i with
  | O => Ok p
  | S i' =>
      c ← SV.index s i';
      k ← rkmp_step s p c k;
      rkmp_fill s i' (<[i' := k]> p) k
  end.

(** The loop over the text, from [i - 1] down. *)
Fixpoint rkmp_search (s : str) (p : list Z) (text : str) (i : nat) (k : Z) : outcome (option nat) :=
  match i with
  | O => Ok None
  | S i' =>
      c ← SV.index text i';
      k ← rkmp_step s p c k;
      if (k =? npos)%Z then Ok (Some i') else rkmp_search s p text i' k
  end.

Definition rfind (text s : str) : outcome (option nat) :=
  if length s =? 0 then Ok (Some 0)
  else
    let slen1 := length s - 1 in
    p ← rkmp_fill s slen1 (<[slen1 := Z.of_nat slen1]> (replicate (length s) 0%Z)) (Z.of_nat slen1);
    rkmp_search s p text (length text) (Z.of_nat slen1).

(** ** Parts of the arguments

    [s.substr(beg1, n - beg1)]: the count wraps around to a number above every
    length when [beg1] is greater. *)
Definition substr_upto (s : str) (beg1 n : nat) : outcome str :=
  if beg1 <=? n then SV.substr s beg1 (n - beg1) else SV.substr_from s beg1.

Definition find_beg1 (text s : str) (beg1 : nat) : outcome (option nat) := t ← SV.substr_from s beg1; SV.find text t.
Definition find_beg1_endi1 (text s : str) (beg1 endi1 : nat) : outcome (option nat) :=
  t ← substr_upto s beg1 (endi1 `min` length text); SV.find text t.
Definition find_beg (text : str) (beg : nat) (s : str) (beg1 : nat) : outcome (option nat) :=
  u ← SV.substr_from text beg; t ← substr_upto s beg1 (length text); SV.find u t.
Definition find_beg_endi1 (text : str) (beg : nat) (s : str) (beg1 endi1 : nat) : outcome (option nat) :=
  u ← SV.substr_from text beg; t ← substr_upto s beg1 (endi1 `min` length text); SV.find u t.
Definition find_beg_endi (text : str) (beg endi : nat) (s : str) (beg1 : nat) : outcome (option nat) :=
  u ← SV.substr text beg endi; t ← substr_upto s beg1 (length text); SV.find u t.
Definition find_beg_endi_endi1 (text : str) (beg endi : nat) (s : str) (beg1 endi1 : nat) : outcome (option nat) :=
  u ← SV.substr text beg endi; t ← substr_upto s beg1 (endi1 `min` length text); SV.find u t.

Definition rfind_beg1 (text s : str) (beg1 : nat) : outcome (option nat) := t ← substr_upto s beg1 (length text); rfind text t.
Definition rfind_beg1_endi1 (text s : str) (beg1 endi1 : nat) : outcome (option nat) :=
  t ← substr_upto s beg1 (endi1 `min` length text); rfind text t.
Definition rfind_beg (text : str) (beg : nat) (s : str) (beg1 : nat) : outcome (option nat) :=
  u ← SV.substr_from text beg; t ← substr_upto s beg1 (length text); rfind u t.
Definition rfind_beg_endi1 (text : str) (beg : nat) (s : str) (beg1 endi1 : nat) : outcome (option nat) :=
  u ← SV.substr_from text beg; t ← substr_upto s beg1 (endi1 `min` length text); rfind u t.
Definition rfind_beg_endi (text : str) (beg endi : nat) (s : str) (beg1 : nat) : outcome (option nat) :=
  u ← SV.substr text beg endi; t ← substr_upto s beg1 (length text); rfind u t.
Definition rfind_beg_endi_endi1 (text : str) (beg endi : nat) (s : str) (beg1 endi1 : nat) : outcome (option nat) :=
  u ← SV.substr text beg endi; t ← substr_upto s beg1 (endi1 `min` length text); rfind u t.

(** ** Other members and functions *)

(** The constructor from a part of a [std::string], clamped to it. *)
Definition of_string (s : str) (beg n : nat) : str :=
  let b := beg `min` length s in take (n `min` (length s - b)) (drop b s).

Definition swap (a b : str) : str * str := (b, a).

Definition neqb (a b : str) : bool :=
  negb (length a =? length b) || negb (SV.traits_compare a b (length a) =? 0)%Z.

Definition without_prefix (s : str) (n : nat) : str := SV.remove_prefix s n.
Definition without_suffix (s : str) (n : nat) : str := SV.remove_suffix s n.
Definition without_leading (f : ascii -> bool) (s : str) : str := SV.remove_leading f s.
Definition without_trailing (f : ascii -> bool) (s : str) : str := SV.remove_trailing f s.

(** [remove_trailing] on a [std::string]: the iterator walks back from the end;
    [i] is its distance from the beginning. *)
Fixpoint trailing_begin (f : ascii -> bool) (s : str) (i : nat) : nat :=
  match i with
  | O => 0
  | S i' => match s !! i' with
            | Some c => if f c then trailing_begin f s i' else i
            | None => i
            end
  end.

Definition remove_trailing_string (f : ascii -> bool) (s : str) : str := take (trailing_begin f s (length s)) s.

Example rfind_examples :
  rfind (lit "abcabcab") (lit "abc") = Ok (Some 3) /\ rfind (lit "aaaa") (lit "aa") = Ok (Some 2) /\
  rfind (lit "abab") (lit "ba") = Ok (Some 1) /\ rfind (lit "abc") (lit "cb") = Ok None /\ rfind [] (lit "a") = Ok None.
Proof. split_and!; vm_compute; reflexivity. Qed.

(** * The mirror *)

Section Mirror.
Context (s : str).
Hypothesis Hs : 0 < length s.
Hypothesis Hmax : (Z.of_nat (length s) < 2 ^ 63)%Z.
Abbreviation n := (length s).

(** The state [k] of the forward search of the reversed needle. *)
Definition m (k : nat) : Z := Z.of_nat (n - 1 - k).

Definition mirrors (p : list nat) (q : list Z) : Prop :=
  length q = n /\ forall j k, p !! j = Some k -> k <= j /\ j < n /\ q !! (n - 1 - j) = Some (m k).

Lemma lookup_mirror (l : str) k : k < length l -> reverse l !! k = l !! (length l - 1 - k).
Proof. intros Hk. rewrite reverse_lookup by done. f_equal. lia. Qed.

Lemma index_mirror k : k < n -> index_z s (m k) = SV.index (reverse s) k.
Proof.
  intros Hk. unfold index_z, m. destruct (Z.ltb_spec (Z.of_nat (n - 1 - k)) (Z.of_nat n)); [|lia]. rewrite Nat2Z.id.
  unfold SV.index. by rewrite lookup_mirror.
Qed.

Lemma fall_mirror p q c : mirrors p q -> forall fuel k r, k < n -> k <= length p -> SV.kmp_fall fuel (reverse s) p c k = Ok r ->
  rkmp_fall fuel s q c (m k) = Ok (m r) /\ r <= k.
Proof.
  intros [Hq Hp]. induction fuel as [|fuel IH]; intros k r Hk Hlp E; [done|]. cbn [SV.kmp_fall rkmp_fall] in *. destruct k as [|k1].
  - injection E as <-. unfold m at 1. destruct (Z.ltb_spec (Z.of_nat (n - 1 - 0)) (Z.of_nat (n - 1))); [lia|]. done.
  - unfold m at 1. destruct (Z.ltb_spec (Z.of_nat (n - 1 - S k1)) (Z.of_nat (n - 1))); [|lia]. rewrite index_mirror by done.
    destruct (SV.index (reverse s) (S k1)) as [x| | |]; try done. cbn [mbind outcome_bind] in *.
    destruct (x =c c); [by injection E as <-|]. destruct (lookup_lt_is_Some_2 p k1) as [k2 Hk2]; [lia|]. rewrite Hk2 in E.
    cbn [get_or_ub mbind outcome_bind] in E. destruct (Hp _ _ Hk2) as (Hle & Hlt & Hqk).
    assert (entry_z q (m (S k1) + 1) = Ok (m k2)) as ->.
    { unfold entry_z, m at 1 2. destruct (Z.ltb_spec (Z.of_nat (n - 1 - S k1) + 1) (Z.of_nat (length q))); [|lia].
      replace (Z.to_nat (Z.of_nat (n - 1 - S k1) + 1)) with (n - 1 - k1) by lia. by rewrite Hqk. }
    cbn [mbind outcome_bind]. destruct (IH k2 r) as [E2 Hr]; [lia|lia|done|]. split; [done|lia].
Qed.

Definition m_full (k : nat) : Z := if k =? n then npos else m k.

Lemma step_mirror p q c k r : mirrors p q -> k < n -> k <= length p -> SV.kmp_step (reverse s) p c k = Ok r ->
  rkmp_step s q c (m k) = Ok (m_full r) /\ r <= S k.
Proof.
  intros Hpq Hk Hlp E. unfold SV.kmp_step, rkmp_step in *.
  replace (n - Z.to_nat (m k)) with (S k) by (unfold m; rewrite Nat2Z.id; lia).
  destruct (SV.kmp_fall (S k) (reverse s) p c k) as [k0| | |] eqn:Ef; try done. cbn [mbind outcome_bind] in E.
  destruct (fall_mirror p q c Hpq (S k) k k0 Hk Hlp Ef) as [-> Hle]. cbn [mbind outcome_bind]. rewrite index_mirror by lia.
  destruct (SV.index (reverse s) k0) as [x| | |]; try done. cbn [mbind outcome_bind] in *. injection E as <-.
  destruct (x =c c); split; try lia; f_equal; unfold m_full.
  - destruct (Nat.eqb_spec (S k0) n) as [En|En].
    + unfold dec, m. replace (n - 1 - k0) with 0 by lia. done.
    + unfold dec, m. rewrite Z.mod_small; lia.
  - destruct (Nat.eqb_spec k0 n); [lia|done].
Qed.

Lemma mirrors_snoc p q k i : mirrors p q -> length p < n -> k <= length p -> i = n - 1 - length p -> mirrors (p ++ [k]) (<[i := m k]> q).
Proof.
  intros [Hq Hp] Hlt Hk ->. split; [by rewrite length_insert|]. intros j k0 Hj. apply lookup_app_Some in Hj as [Hj|[Hle Hj]].
  - destruct (Hp _ _ Hj) as (H1 & H2 & H3). apply lookup_lt_Some in Hj. split; [done|]. split; [done|].
    rewrite list_lookup_insert_ne; [done|]. lia.
  - apply list_lookup_singleton_Some in Hj as [Hj <-]. assert (j = length p) as -> by lia. split; [done|]. split; [done|].
    apply list_lookup_insert_eq. lia.
Qed.

Lemma drop_mirror (l : str) i x : l !! i = Some x -> drop (length l - S i) (reverse l) = x :: drop (length l - i) (reverse l).
Proof.
  intros Hx. pose proof (lookup_lt_Some _ _ _ Hx) as Hlt.
  assert (reverse l !! (length l - S i) = Some x) as E by (rewrite reverse_lookup by lia; by replace (length l - S (length l - S i)) with i by lia).
  rewrite (drop_S _ _ _ E). by replace (S (length l - S i)) with (length l - i) by lia.
Qed.

Lemma fill_mirror i : forall p q k pf, i + length p = n -> k < length p -> mirrors p q ->
  SV.kmp_fill (reverse s) (drop (n - i) (reverse s)) p k = Ok pf ->
  exists qf, rkmp_fill s i q (m k) = Ok qf /\ mirrors pf qf /\ length pf = n.
Proof.
  induction i as [|i IH]; intros p q k pf Hi Hk Hpq E; cbn [rkmp_fill].
  - rewrite drop_ge in E by (rewrite length_reverse; lia). injection E as <-. by exists q.
  - destruct (lookup_lt_is_Some_2 s i) as [c Hc]; [lia|]. unfold SV.index. rewrite Hc. cbn [get_or_ub mbind outcome_bind].
    rewrite (drop_mirror s i c Hc) in E. cbn [SV.kmp_fill] in E.
    destruct (SV.kmp_step (reverse s) p c k) as [r| | |] eqn:Es; try done. cbn [mbind outcome_bind] in E.
    destruct (step_mirror p q c k r Hpq ltac:(lia) ltac:(lia) Es) as [-> Hr]. cbn [mbind outcome_bind].
    unfold m_full. destruct (Nat.eqb_spec r n); [lia|].
    apply (IH (p ++ [r]) _ r pf); [rewrite length_app; cbn; lia|rewrite length_app; cbn; lia| |done].
    apply mirrors_snoc; [done|lia|lia|lia].
Qed.

Lemma search_mirror p q text : mirrors p q -> length p = n -> forall i k r, i <= length text -> k < n -> k <= length text - i ->
  SV.kmp_search (reverse s) p (drop (length text - i) (reverse text)) (length text - i) k = Ok r ->
  rkmp_search s q text i (m k) = Ok ((fun j => length text - n - j) <$> r).
Proof.
  intros Hpq Hlp. induction i as [|i IH]; intros k r Hi Hk Hki E; cbn [rkmp_search].
  - rewrite drop_ge in E by (rewrite length_reverse; lia). by injection E as <-.
  - destruct (lookup_lt_is_Some_2 text i) as [c Hc]; [lia|]. unfold SV.index. rewrite Hc. cbn [get_or_ub mbind outcome_bind].
    rewrite (drop_mirror text i c Hc) in E. cbn [SV.kmp_search] in E.
    destruct (SV.kmp_step (reverse s) p c k) as [k'| | |] eqn:Es; try done. cbn [mbind outcome_bind] in E.
    destruct (step_mirror p q c k k' Hpq Hk ltac:(lia) Es) as [-> Hk']. cbn [mbind outcome_bind]. rewrite length_reverse in E. unfold m_full.
    destruct (Nat.eqb_spec k' n) as [->|Hne].
    + rewrite Z.eqb_refl. injection E as <-. cbn. repeat f_equal. lia.
    + destruct (Z.eqb_spec (m k') npos) as [Ez|_]; [unfold m, npos in Ez; lia|].
      replace (S (length text - S i)) with (length text - i) in E by lia. apply IH; [lia|lia|lia|done].
Qed.
End Mirror.

Lemma occurs_mirror text s i : Search.occurs (reverse text) (reverse s) i ->
  i + length s <= length text /\ Search.occurs text s (length text - length s - i).
Proof.
  intros (l & r & E & <-). apply (f_equal reverse) in E. rewrite reverse_involutive, !reverse_app, reverse_involutive in E.
  subst text. rewrite !length_app, !length_reverse. split; [lia|]. exists (reverse r), (reverse l). split; [by rewrite app_assoc|].
  rewrite length_reverse. lia.
Qed.

Lemma occurs_mirror_inv text s i : Search.occurs text s i ->
  i + length s <= length text /\ Search.occurs (reverse text) (reverse s) (length text - length s - i).
Proof.
  intros H. rewrite <- (reverse_involutive text), <- (reverse_involutive s) in H. apply occurs_mirror in H.
  by rewrite !length_reverse in H.
Qed.

(** [StringBase::rfind] of a non-empty needle runs without an access out of
    its buffers, ends, and returns the position of the last occurrence of the
    needle in the text, or [npos] exactly when there is none. *)
Theorem rfind_correct text s : s <> [] -> (Z.of_nat (length s) < 2 ^ 63)%Z ->
  exists r, rfind text s = Ok r /\
    match r with
    | Some i => Search.occurs text s i /\ forall j, i < j -> ~ Search.occurs text s j
    | None => forall j, ~ Search.occurs text s j
    end.
Proof.
  intros Hne Hmax. assert (0 < length s) as Hs by (destruct s; cbn; [done|lia]). unfold rfind. rewrite (proj2 (Nat.eqb_neq _ _)) by lia.
  assert (reverse s <> []) as Hne' by (intros E; apply (f_equal length) in E; rewrite length_reverse in E; cbn in E; lia).
  destruct (Search.find_spec (reverse text) (reverse s) Hne') as (r & E & Hr). unfold SV.find in E. rewrite length_reverse in E.
  rewrite (proj2 (Nat.eqb_neq _ _)) in E by lia.
  destruct (SV.kmp_fill (reverse s) (tail (reverse s)) [0] 0) as [pf| | |] eqn:Ef; try done. cbn [mbind outcome_bind] in E.
  destruct (fill_mirror s Hs Hmax (length s - 1) [0] (<[length s - 1 := Z.of_nat (length s - 1)]> (replicate (length s) 0%Z)) 0 pf)
    as (qf & Eq & Hpq & Hlp).
  - cbn. lia.
  - cbn. lia.
  - split; [by rewrite length_insert, length_replicate|]. intros [|j] k [= <-]. split; [done|]. split; [done|].
    replace (length s - 1 - 0) with (length s - 1) by lia. rewrite list_lookup_insert_eq by (rewrite length_replicate; lia). f_equal. unfold m. lia.
  - replace (length s - (length s - 1)) with 1 by lia. by destruct (reverse s).
  - assert (m s 0 = Z.of_nat (length s - 1)) as E0 by (unfold m; lia). rewrite E0 in Eq. rewrite Eq. cbn [mbind outcome_bind]. rewrite <- E0.
    rewrite (search_mirror s Hs Hmax pf qf text Hpq Hlp (length text) 0 r);
      [|lia|lia|lia|rewrite Nat.sub_diag; exact E].
    eexists. split; [reflexivity|]. destruct r as [i|]; cbn.
    + destruct Hr as [Hocc Hfirst]. apply occurs_mirror in Hocc as [Hle Hocc]. split; [done|]. intros j Hj [Hjl Hoj]%occurs_mirror_inv.
      apply (Hfirst (length text - length s - j)); [lia|done].
    + intros j [_ Hoj]%occurs_mirror_inv. by eapply Hr.
Qed.

Lemma rfind_correct_witness :
  rfind (lit "abababac") (lit "aba") = Ok (Some 4) /\
  exists r, rfind (lit "abababac") (lit "aba") = Ok r /\
    match r with
    | Some i => Search.occurs (lit "abababac") (lit "aba") i /\
                forall j, i < j -> ~ Search.occurs (lit "abababac") (lit "aba") j
    | None => forall j, ~ Search.occurs (lit "abababac") (lit "aba") j
    end.
Proof. split; [vm_compute; reflexivity|]. apply (rfind_correct (lit "abababac") (lit "aba")); [discriminate|reflexivity]. Defined.

(** ** Smaller facts *)

(** The last occurrence of the empty needle is at the end of the text, not where
    [rfind] finds it. *)
Lemma rfind_of_nothing text : rfind text [] = Ok (Some 0) /\ Search.occurs text [] (length text).
Proof. split; [done|]. exists text, []. by rewrite !app_nil_r. Qed.

(** The overloads that take a part of the needle cut it to the length of the
    text: a needle that is longer than the text is found when its beginning is. *)
Lemma find_cuts_needle : find_beg (lit "ab") 0 (lit "abc") 0 = Ok (Some 0) /\ rfind_beg1 (lit "ab") (lit "abc") 0 = Ok (Some 0) /\
  (forall i, ~ Search.occurs (lit "ab") (lit "abc") i).
Proof.
  split; [vm_compute; reflexivity|]. split; [vm_compute; reflexivity|]. intros i (l & r & E & _). apply (f_equal length) in E.
  rewrite !length_app in E. cbn in E. lia.
Qed.

Lemma neqb_eqb a b : neqb a b = negb (SV.eqb a b).
Proof. unfold neqb, SV.eqb. by rewrite negb_andb. Qed.

(** [remove_trailing] of a [std::string] does what it does to a view. *)
Lemma trailing_begin_app f l r : forall i, i <= length l -> trailing_begin f (l ++ r) i = trailing_begin f l i.
Proof.
  induction i as [|i IH]; intros Hi; [done|]. cbn [trailing_begin]. rewrite lookup_app_l by lia. rewrite IH by lia. done.
Qed.

Lemma remove_trailing_string_view f s : remove_trailing_string f s = SV.remove_trailing f s.
Proof.
  unfold remove_trailing_string, SV.remove_trailing. induction s as [|c s IH] using rev_ind; [done|].
  rewrite rev_app_distr. cbn [rev app drop_while]. rewrite length_app, Nat.add_1_r. cbn [trailing_begin].
  rewrite lookup_app_r, Nat.sub_diag by lia. cbn. destruct (f c).
  - rewrite trailing_begin_app by lia. rewrite <- IH. rewrite take_app_le; [done|].
    assert (forall i, trailing_begin f s i <= i) as H; [|apply H]. induction i as [|i IHi]; cbn; [done|]. repeat case_match; lia.
  - rewrite take_ge by (rewrite length_app; cbn; lia). cbn. by rewrite rev_involutive.
Qed.
End RSearch.
