(* ===== verification/InplaceBuff.v ===== *)
(** * In-place buffers

    [inplace_buff.hh]: a string buffer that keeps up to [N] characters in the
    object and longer contents in allocated memory, with [concat] and the
    appending functions over it.  Memory is explicit: objects have an array of
    their own, blocks are allocated and deleted, and an access outside a live
    array is undefined behaviour. *)

From Stdlib Require Import ZArith Lia Ascii.
From S2P Require Import Prelude.
From S2P Require Import StringView.
Local Open Scope Z_scope.

(** A character of memory that may not have been written yet. *)
Definition cell : Type := option ascii.

(** The array [a_] of an object, or an allocated block. *)
Inductive ptr :=
| Inplace (object : nat)
| Heap (block : nat).

#[export] Instance ptr_eq_dec : EqDecision ptr.
Proof. solve_decision. Defined.

(** An [InplaceBuff<N>]; [p_value_when_unallocated_] is the object's own array. *)
Record buffer := mkBuffer {
  static_size : Z;
  size : Z;
  max_size_ : Z;
  p_ : ptr;
  a_ : list cell
}.

Record memory := mkMemory {
  objects : gmap nat buffer;
  blocks : gmap nat (list cell);
  next_block : nat
}.

(** The string arguments of [append] and of assignments: text from elsewhere, or
    a view into a buffer. *)
Inductive source :=
| Chars (s : str)
| View (p : ptr) (offset len : Z).

Definition string_length (x : source) : Z :=
  match x with Chars s => Z.of_nat (length s) | View _ _ len => len end.

(** [size_t] *)
Definition size_t (x : Z) : Z := x mod 2 ^ 64.

(** [std::bad_alloc] *)
Definition bad_alloc : exn := RuntimeError (lit "std::bad_alloc").

Section InplaceBuff.
(** The largest block there is memory for. *)
Variable available : Z.

Abbreviation M := (stm memory).

(** ** Memory *)

Definition object (o : nat) : M buffer := fun s => lift (get_or_ub (objects s !! o)) s.

Definition set_object (o : nat) (b : buffer) : M unit :=
  modify (fun s => mkMemory (<[o := b]> (objects s)) (blocks s) (next_block s)).

(** [new char[n]] *)
Definition new_char (n : Z) : M nat := fun s =>
  if n <=? available then
    (mkMemory (objects s) (<[next_block s := replicate (Z.to_nat n) None]> (blocks s)) (S (next_block s)),
     Ok (next_block s))
  else (s, Throw bad_alloc).

(** [delete[] p] *)
Definition delete_block (id : nat) : M unit := fun s =>
  match blocks s !! id with
  | Some _ => (mkMemory (objects s) (delete id (blocks s)) (next_block s), Ok tt)
  | None => (s, UB)
  end.

Definition cells (s : memory) (p : ptr) : option (list cell) :=
  match p with
  | Inplace o => a_ <$> objects s !! o
  | Heap id => blocks s !! id
  end.

(** [len] cells from [offset], when they are all there. *)
Definition slice (l : list cell) (offset len : Z) : option (list cell) :=
  if (0 <=? offset) && (0 <=? len) && (offset + len <=? Z.of_nat (length l))
  then Some (take (Z.to_nat len) (drop (Z.to_nat offset) l)) else None.

Definition splice (l : list cell) (offset : Z) (data : list cell) : option (list cell) :=
  if (0 <=? offset) && (offset + Z.of_nat (length data) <=? Z.of_nat (length l))
  then Some (take (Z.to_nat offset) l ++ data ++ drop (Z.to_nat offset + length data) l) else None.

Definition read (p : ptr) (offset len : Z) : M (list cell) := fun s =>
  lift (get_or_ub (l ← cells s p; slice l offset len)) s.

Definition set_cells (p : ptr) (l : list cell) (s : memory) : memory :=
  match p with
  | Inplace o =>
      mkMemory (alter (fun b => mkBuffer (static_size b) (size b) (max_size_ b) (p_ b) l) o (objects s))
        (blocks s) (next_block s)
  | Heap id => mkMemory (objects s) (<[id := l]> (blocks s)) (next_block s)
  end.

Definition write (p : ptr) (offset : Z) (data : list cell) : M unit := fun s =>
  match (l ← cells s p; splice l offset data) with
  | Some l => (set_cells p l s, Ok tt)
  | None => (s, UB)
  end.

Definition read_source (x : source) : M (list cell) :=
  match x with
  | Chars s => mret (Some <$> s)
  | View p offset len => read p offset len
  end.

(** ** InplaceBuffBase *)

Definition with_size (n : Z) (b : buffer) : buffer :=
  mkBuffer (static_size b) n (max_size_ b) (p_ b) (a_ b).
Definition with_data (p : ptr) (max : Z) (b : buffer) : buffer :=
  mkBuffer (static_size b) (size b) max p (a_ b).

Definition is_allocated (o : nat) (b : buffer) : bool := bool_decide (p_ b <> Inplace o).

Definition set_size (o : nat) (n : Z) : M unit := b ← object o; set_object o (with_size n b).
Definition set_data (o : nat) (p : ptr) (max : Z) : M unit := b ← object o; set_object o (with_data p max b).

Definition deallocate (o : nat) : M unit :=
  b ← object o;
  if is_allocated o b then
    _ ← match p_ b with Heap id => delete_block id | Inplace _ => lift UB end;
    set_data o (Inplace o) 0
  else mret tt.

Definition make_copy_of (o : nat) (data : source) : M unit :=
  let len := string_length data in
  b ← object o;
  _ ← when (max_size_ b <? len)
        (new_p ← new_char len;
         _ ← deallocate o;
         set_data o (Heap new_p) len);
  _ ← set_size o len;
  text ← read_source data;
  b ← object o;
  write (p_ b) 0 text.

Definition lossy_resize (o : nat) (n : Z) : M unit :=
  b ← object o;
  _ ← when (max_size_ b <? n)
        (let new_max_size := Z.max (size_t (Z.shiftl (max_size_ b) 1)) n in
         _ ← deallocate o;
         new_p ← new_char new_max_size;
         set_data o (Heap new_p) new_max_size);
  set_size o n.

Definition resize (o : nat) (n : Z) : M unit :=
  b ← object o;
  _ ← when (max_size_ b <? n)
        (let new_max_size := Z.max (size_t (Z.shiftl (max_size_ b) 1)) n in
         new_p ← new_char new_max_size;
         text ← read (p_ b) 0 (size b);
         _ ← write (Heap new_p) 0 text;
         _ ← deallocate o;
         set_data o (Heap new_p) new_max_size);
  set_size o n.

Definition clear (o : nat) : M unit := set_size o 0.

(** [p_[i] = c] *)
Definition set_char (o : nat) (i : Z) (c : ascii) : M unit :=
  b ← object o; write (p_ b) i [Some c].

(** [to_cstr()]: the characters up to the [NUL] it writes. *)
Definition to_cstr (o : nat) : M (list cell) :=
  b ← object o;
  _ ← resize o (size_t (size b + 1));
  _ ← set_size o (size b);
  _ ← set_char o (size b) NUL;
  b ← object o;
  read (p_ b) 0 (size b).

(** The copies that [append] makes, from position [k]. *)
Fixpoint append_loop (o : nat) (args : list source) (k : Z) : M unit :=
  match args with
  | [] => mret tt
  | x :: args' =>
      text ← read_source x;
      b ← object o;
      _ ← write (p_ b) k text;
      append_loop o args' (size_t (k + string_length x))
  end.

Definition append (o : nat) (args : list source) : M unit :=
  b ← object o;
  let final_len := fold_left (fun n x => size_t (n + string_length x)) args (size b) in
  _ ← resize o final_len;
  append_loop o args (size b).

(** [std::string(data(), size)] *)
Definition to_string (o : nat) : M (list cell) :=
  b ← object o; read (p_ b) 0 (size b).

(** ** InplaceBuff *)

Definition blank (n : Z) : list cell := replicate (Z.to_nat n) None.

Definition construct (o : nat) (N : Z) : M unit :=
  set_object o (mkBuffer N 0 N (Inplace o) (blank N)).

Definition construct_size (o : nat) (N n : Z) : M unit :=
  if n <=? N then set_object o (mkBuffer N n (Z.max N n) (Inplace o) (blank N))
  else
    new_p ← new_char n;
    set_object o (mkBuffer N n (Z.max N n) (Heap new_p) (blank N)).

Definition construct_str (o : nat) (N : Z) (s : str) : M unit :=
  _ ← construct_size o N (Z.of_nat (length s));
  b ← object o;
  write (p_ b) 0 (Some <$> s).

Definition construct_copy (o from : nat) : M unit :=
  f ← object from;
  _ ← construct_size o (static_size f) (size f);
  text ← read (p_ f) 0 (size f);
  b ← object o;
  write (p_ b) 0 text.

(** The contents change hands: what [std::exchange] leaves in [from]. *)
Definition steal (o from : nat) : M unit :=
  f ← object from;
  b ← object o;
  _ ← set_object from (mkBuffer (static_size f) 0 (static_size f) (Inplace from) (a_ f));
  b ← object o;
  set_object o (mkBuffer (static_size b) (size f) (max_size_ f) (p_ f) (a_ b)).

Definition contents_of (from : nat) (f : buffer) : source := View (p_ f) 0 (size f).

(** The move constructors: from the same type, and from another size. *)
Definition construct_move (o from : nat) : M unit :=
  f ← object from;
  _ ← construct o (static_size f);
  if is_allocated from f then steal o from
  else make_copy_of o (contents_of from f).

Definition construct_move_other (o : nat) (N : Z) (from : nat) : M unit :=
  f ← object from;
  _ ← construct o N;
  if is_allocated from f && (N <? size f) then steal o from
  else make_copy_of o (contents_of from f).

Definition assign_copy (o from : nat) : M unit :=
  if bool_decide (o = from) then mret tt
  else f ← object from; make_copy_of o (contents_of from f).

Definition assign_str (o : nat) (data : source) : M unit := make_copy_of o data.

Definition assign_move (o from : nat) : M unit :=
  f ← object from;
  b ← object o;
  if is_allocated from f && (max_size_ b <=? max_size_ f) then
    _ ← deallocate o;
    steal o from
  else make_copy_of o (contents_of from f).

Definition destroy (o : nat) : M unit :=
  _ ← deallocate o;
  modify (fun s => mkMemory (delete o (objects s)) (blocks s) (next_block s)).

(** [in_place] and the constructor of several arguments; [concat].  The object is
    there before [append] is called, so it is destroyed when that throws. *)
Definition append_or_destroy (o : nat) (args : list source) : M unit := fun s =>
  match append o args s with
  | (s1, Throw e) => (_ ← destroy o; lift (Throw e)) s1
  | r => r
  end.

Definition construct_concat (o : nat) (N : Z) (args : list source) : M unit :=
  _ ← construct o N; append_or_destroy o args.

(** ** Programs over buffers *)

(** An argument: text, or a part of what a buffer holds. *)
Inductive argument :=
| Text (c : str)
| Part (from : nat) (offset len : Z).

Definition source_of (x : argument) : M source :=
  match x with
  | Text c => mret (Chars c)
  | Part from offset len => f ← object from; mret (View (p_ f) offset len)
  end.

Fixpoint sources_of (l : list argument) : M (list source) :=
  match l with
  | [] => mret []
  | x :: l' => y ← source_of x; rest ← sources_of l'; mret (y :: rest)
  end.

Inductive operation :=
| Construct (o : nat) (N : Z)
| ConstructSize (o : nat) (N n : Z)
| ConstructStr (o : nat) (N : Z) (c : str)
| ConstructConcat (o : nat) (N : Z) (args : list argument)
| ConstructCopy (o from : nat)
| ConstructMove (o from : nat)
| ConstructMoveOther (o : nat) (N : Z) (from : nat)
| AssignCopy (o from : nat)
| AssignStr (o : nat) (x : argument)
| AssignMove (o from : nat)
| Append (o : nat) (args : list argument)
| Resize (o : nat) (n : Z)
| LossyResize (o : nat) (n : Z)
| Clear (o : nat)
| SetChar (o : nat) (i : Z) (c : ascii)
| ToCstr (o : nat)
| Destroy (o : nat).

Definition run_operation (op : operation) : M unit :=
  match op with
  | Construct o N => construct o N
  | ConstructSize o N n => construct_size o N n
  | ConstructStr o N c => construct_str o N c
  | ConstructConcat o N args => l ← sources_of args; construct_concat o N l
  | ConstructCopy o from => construct_copy o from
  | ConstructMove o from => construct_move o from
  | ConstructMoveOther o N from => construct_move_other o N from
  | AssignCopy o from => assign_copy o from
  | AssignStr o x => y ← source_of x; assign_str o y
  | AssignMove o from => assign_move o from
  | Append o args => l ← sources_of args; append o l
  | Resize o n => resize o n
  | LossyResize o n => lossy_resize o n
  | Clear o => clear o
  | SetChar o i c => set_char o i c
  | ToCstr o => _ ← to_cstr o; mret tt
  | Destroy o => destroy o
  end.

End InplaceBuff.
