(* ===== verification/InplaceBuffProofs.v ===== *)
(** * In-place buffers hold strings

    The invariant of the objects and of the allocated blocks, and the theorem that
    every operation on buffers is an operation on the strings they hold. *)

From Stdlib Require Import ZArith Lia Ascii.
From S2P Require Import Prelude.
From S2P Require Import StringView.
From S2P Require Import InplaceBuff.
Local Open Scope Z_scope.

Lemma slice_prefix l n : 0 <= n <= Z.of_nat (length l) -> slice l 0 n = Some (take (Z.to_nat n) l).
Proof.
  intros Hn. unfold slice. destruct (_ && _) eqn:E; [by rewrite drop_0|].
  rewrite !andb_false_iff, !Z.leb_gt in E. lia.
Qed.

Lemma slice_inv l offset len l' : slice l offset len = Some l' ->
  0 <= offset /\ 0 <= len /\ offset + len <= Z.of_nat (length l) /\ Z.of_nat (length l') = len.
Proof.
  unfold slice. destruct (_ && _) eqn:E; [|done]. intros [= <-]. rewrite !andb_true_iff, !Z.leb_le in E.
  split_and!; try lia. rewrite length_take, length_drop. lia.
Qed.

Lemma splice_some l offset (data : list cell) : 0 <= offset -> offset + Z.of_nat (length data) <= Z.of_nat (length l) ->
  splice l offset data =
    Some (take (Z.to_nat offset) l ++ data ++ drop (Z.to_nat offset + length data) l).
Proof. intros H1 H2. unfold splice. by rewrite (proj2 (Z.leb_le _ _) H1), (proj2 (Z.leb_le _ _) H2). Qed.

Lemma length_splice (l : list cell) offset (data : list cell) : 0 <= offset -> offset + Z.of_nat (length data) <= Z.of_nat (length l) ->
  length (take (Z.to_nat offset) l ++ data ++ drop (Z.to_nat offset + length data) l) = length l.
Proof. intros H1 H2. rewrite !length_app, length_take, length_drop. lia. Qed.

Section Proofs.
Variable available : Z.
Hypothesis available_range : 0 <= available < 2 ^ 63.

Abbreviation M := (stm memory).

(** ** The invariant *)

(** The cells a buffer has, in the object or in its block. *)
Definition storage (B : gmap nat (list cell)) (b : buffer) : option (list cell) :=
  match p_ b with Inplace _ => Some (a_ b) | Heap id => B !! id end.

Definition owned (b : buffer) : option nat :=
  match p_ b with Inplace _ => None | Heap id => Some id end.

(** The buffer [o] is in order and holds [text]. *)
Record holds (B : gmap nat (list cell)) (o : nat) (b : buffer) (text : list cell) : Prop := {
  ok_static : 0 <= static_size b <= available;
  ok_array : Z.of_nat (length (a_ b)) = static_size b;
  ok_size : 0 <= size b <= max_size_ b;
  ok_max : max_size_ b <= available;
  ok_place : match p_ b with
             | Inplace o' => o' = o /\ max_size_ b <= static_size b
             | Heap id => exists l, B !! id = Some l /\ Z.of_nat (length l) = max_size_ b
             end;
  ok_text : (l ← storage B b; slice l 0 (size b)) = Some text
}.

(** [strings]: what every live object holds.  A block belongs to exactly one
    object. *)
Record represents (s : memory) (strings : gmap nat (list cell)) : Prop := {
  rep_dom : forall o, is_Some (objects s !! o) <-> is_Some (strings !! o);
  rep_holds : forall o b text, objects s !! o = Some b -> strings !! o = Some text -> holds (blocks s) o b text;
  rep_unique : forall o1 o2 b1 b2 id, objects s !! o1 = Some b1 -> objects s !! o2 = Some b2 ->
    owned b1 = Some id -> owned b2 = Some id -> o1 = o2;
  rep_used : forall id, is_Some (blocks s !! id) -> exists o b, objects s !! o = Some b /\ owned b = Some id;
  rep_next : forall id, is_Some (blocks s !! id) -> (id < next_block s)%nat
}.

Lemma holds_frame B B' o b text : (forall id, owned b = Some id -> B' !! id = B !! id) ->
  holds B o b text -> holds B' o b text.
Proof.
  intros Hf [H1 H2 H3 H4 H5 H6]. unfold owned in Hf. constructor; try done.
  - destruct (p_ b) as [o'|id]; [done|]. by rewrite Hf.
  - unfold storage in *. destruct (p_ b) as [o'|id]; [done|]. by rewrite Hf.
Qed.

Lemma rep_lookup s strings o text : represents s strings -> strings !! o = Some text ->
  exists b, objects s !! o = Some b /\ holds (blocks s) o b text.
Proof.
  intros H Ho. destruct (proj2 (rep_dom _ _ H o)) as [b Hb]; [by eexists|]. exists b. split; [done|].
  by eapply rep_holds.
Qed.

(** One object gets a new state, and with it perhaps another block. *)
Lemma represents_set s strings o b' text' B' nx' :
  represents s strings ->
  holds B' o b' text' ->
  (forall id, (forall b, objects s !! o = Some b -> owned b <> Some id) -> owned b' <> Some id ->
     B' !! id = blocks s !! id) ->
  (forall b id, objects s !! o = Some b -> owned b = Some id -> owned b' <> Some id -> B' !! id = None) ->
  (forall id, owned b' = Some id -> blocks s !! id = None \/ exists b, objects s !! o = Some b /\ owned b = Some id) ->
  (forall id, is_Some (B' !! id) -> (id < nx')%nat) ->
  represents (mkMemory (<[o := b']> (objects s)) B' nx') (<[o := text']> strings).
Proof.
  intros [H1 H2 H3 H4 H5] Hb Hsame Hgone Hnew Hnext.
  assert (forall o1 b1 id, objects s !! o1 = Some b1 -> o1 <> o -> owned b1 = Some id -> B' !! id = blocks s !! id /\ owned b' <> Some id) as Hothers.
  { intros o1 b1 id Ho1 Hne Hid. assert (owned b' <> Some id) as Hnb.
    { intros Hb'. destruct (Hnew _ Hb') as [Hnone|(b & Hob & Hown)].
      - destruct (proj1 (H1 o1)) as [t1 Ht1]; [by eexists|]. destruct (H2 _ _ _ Ho1 Ht1) as [_ _ _ _ Hp _].
        unfold owned in Hid. destruct (p_ b1); [done|]. simplify_eq. destruct Hp as (l & Hl & _). congruence.
      - by apply Hne, (H3 o1 o b1 b id). }
    split; [|done]. apply Hsame; [|done]. intros b Hob Hown. by apply Hne, (H3 o1 o b1 b id). }
  split; cbn.
  - intros o1. destruct (decide (o1 = o)) as [->|Hne]; [rewrite !lookup_insert_eq; split; by eexists|].
    by rewrite !lookup_insert_ne.
  - intros o1 b1 t1. destruct (decide (o1 = o)) as [->|Hne].
    + rewrite !lookup_insert_eq. by intros [= <-] [= <-].
    + rewrite !lookup_insert_ne by done. intros Ho1 Ht1. apply holds_frame with (B := blocks s); [|by eapply H2].
      intros id Hid. by apply (Hothers o1 b1 id).
  - intros o1 o2 b1 b2 id. destruct (decide (o1 = o)) as [->|Hne1], (decide (o2 = o)) as [->|Hne2]; [done| | |].
    + rewrite lookup_insert_eq, lookup_insert_ne by done. intros [= <-] Ho2 Hi1 Hi2.
      by destruct (Hothers o2 b2 id Ho2 Hne2 Hi2).
    + rewrite lookup_insert_eq, lookup_insert_ne by done. intros Ho1 [= <-] Hi1 Hi2.
      by destruct (Hothers o1 b1 id Ho1 Hne1 Hi1).
    + rewrite !lookup_insert_ne by done. apply H3.
  - intros id Hid. destruct (decide (owned b' = Some id)) as [Hb'|Hb'].
    { exists o, b'. by rewrite lookup_insert_eq. }
    destruct (objects s !! o) as [b|] eqn:Hob.
    + destruct (decide (owned b = Some id)) as [Hown|Hown].
      { rewrite (Hgone b id) in Hid by done. by destruct Hid. }
      rewrite Hsame in Hid by (try done; intros ? [= <-]; done).
      destruct (H4 id Hid) as (o1 & b1 & Ho1 & Hid1). exists o1, b1. rewrite lookup_insert_ne; [done|]. congruence.
    + rewrite Hsame in Hid by done. destruct (H4 id Hid) as (o1 & b1 & Ho1 & Hid1). exists o1, b1.
      rewrite lookup_insert_ne; [done|]. congruence.
  - apply Hnext.
Qed.

(** ** Running the primitives *)

Lemma object_run s o b : objects s !! o = Some b -> object o s = (s, Ok b).
Proof. intros E. unfold object, lift. by rewrite E. Qed.

Lemma new_char_run s n : n <= available -> new_char available n s =
  (mkMemory (objects s) (<[next_block s := blank n]> (blocks s)) (S (next_block s)), Ok (next_block s)).
Proof. intros Hn. unfold new_char. by rewrite (proj2 (Z.leb_le _ _) Hn). Qed.

Lemma new_char_throws s n : available < n -> new_char available n s = (s, Throw bad_alloc).
Proof. intros Hn. unfold new_char. by rewrite (proj2 (Z.leb_gt _ _) Hn). Qed.

Lemma set_size_run s o b n : objects s !! o = Some b ->
  set_size o n s = (mkMemory (<[o := with_size n b]> (objects s)) (blocks s) (next_block s), Ok tt).
Proof. intros E. unfold set_size, mbind, stm_bind. by rewrite (object_run _ _ _ E). Qed.

(** The blocks without the one of [b]. *)
Definition freed (B : gmap nat (list cell)) (b : buffer) : gmap nat (list cell) :=
  match owned b with Some id => delete id B | None => B end.

Lemma deallocate_run s o b text : objects s !! o = Some b -> holds (blocks s) o b text ->
  deallocate o s =
    (match p_ b with
     | Inplace _ => s
     | Heap id => mkMemory (<[o := with_data (Inplace o) 0 b]> (objects s)) (delete id (blocks s)) (next_block s)
     end, Ok tt).
Proof.
  intros Ho Hb. unfold deallocate, mbind, stm_bind. rewrite (object_run _ _ _ Ho).
  pose proof (ok_place _ _ _ _ Hb) as Hp. unfold is_allocated. destruct (p_ b) as [o'|id].
  - destruct Hp as [-> _]. by rewrite bool_decide_false by auto.
  - rewrite bool_decide_true by done. destruct Hp as (l & Hl & _).
    unfold delete_block. rewrite Hl. unfold set_data, object, mbind, stm_bind, lift. cbn. by rewrite Ho.
Qed.

Lemma reallocate_run s o b text p max : objects s !! o = Some b -> holds (blocks s) o b text ->
  (_ ← deallocate o; set_data o p max) s =
    (mkMemory (<[o := with_data p max b]> (objects s)) (freed (blocks s) b) (next_block s), Ok tt).
Proof.
  intros Ho Hb. unfold mbind, stm_bind. rewrite (deallocate_run _ _ _ _ Ho Hb). unfold freed, owned.
  destruct (p_ b) as [o'|id] eqn:Ep; unfold set_data, object, mbind, stm_bind, lift; cbn.
  - by rewrite Ho.
  - rewrite lookup_insert_eq. cbn [get_or_ub]. unfold set_object, modify. cbn [objects blocks next_block]. by rewrite insert_insert_eq.
Qed.

(** A view of a part of what an object holds. *)
Lemma slice_slice l n t offset len text : slice l 0 n = Some t -> slice t offset len = Some text ->
  slice l offset len = Some text.
Proof.
  intros H1 H2. pose proof (slice_inv _ _ _ _ H1) as (_ & Hn & Hl & Ht).
  pose proof (slice_inv _ _ _ _ H2) as (Ho & Hlen & Hl2 & _).
  rewrite slice_prefix in H1 by lia. assert (t = take (Z.to_nat n) l) as -> by congruence. clear H1.
  rewrite length_take in Hl2. unfold slice in *.
  destruct (_ && _) eqn:E2 in H2; [|done]. injection H2 as <-. rewrite !andb_true_iff, !Z.leb_le in E2.
  destruct (_ && _) eqn:E; [|rewrite !andb_false_iff, !Z.leb_gt in E; lia]. f_equal.
  rewrite skipn_firstn_comm, take_take. f_equal. lia.
Qed.

Lemma read_run s strings o b t offset len text : represents s strings -> objects s !! o = Some b ->
  strings !! o = Some t -> slice t offset len = Some text -> read (p_ b) offset len s = (s, Ok text).
Proof.
  intros Hr Ho Ht Hs. destruct (rep_holds _ _ Hr _ _ _ Ho Ht) as [_ _ _ _ Hp Htext].
  unfold read, lift. assert (cells s (p_ b) = storage (blocks s) b) as Hc.
  { unfold cells, storage. destruct (p_ b) as [o'|id]; [|done]. destruct Hp as [-> _]. by rewrite Ho. }
  rewrite Hc. destruct (storage (blocks s) b) as [l|]; [|done]. cbn in *.
  by rewrite (slice_slice _ _ _ _ _ _ Htext Hs).
Qed.

(** ** Writing into a buffer *)

Lemma represents_write s strings o b text l offset (data : list cell) :
  represents s strings -> objects s !! o = Some b -> strings !! o = Some text ->
  storage (blocks s) b = Some l -> 0 <= offset -> offset + Z.of_nat (length data) <= max_size_ b ->
  exists s', write (p_ b) offset data s = (s', Ok tt) /\
    (exists b', objects s' = <[o := b']> (objects s) /\ p_ b' = p_ b /\ size b' = size b /\ max_size_ b' = max_size_ b /\
       storage (blocks s') b' = Some (take (Z.to_nat offset) l ++ data ++ drop (Z.to_nat offset + length data) l)) /\
    represents s' (<[o := take (Z.to_nat (size b)) (take (Z.to_nat offset) l ++ data ++ drop (Z.to_nat offset + length data) l)]> strings).
Proof.
  intros Hr Ho Ht Hl H0 Hm. pose proof (rep_holds _ _ Hr _ _ _ Ho Ht) as Hb.
  destruct Hb as [H1 H2 H3 H4 Hp Htext]. assert (max_size_ b <= Z.of_nat (length l)) as Hlen.
  { unfold storage in Hl. destruct (p_ b) as [o'|id]; [simplify_eq; lia|]. destruct Hp as (l' & Hl' & ?). simplify_eq. lia. }
  set (l' := take (Z.to_nat offset) l ++ data ++ drop (Z.to_nat offset + length data) l).
  assert (length l' = length l) as Hll by (apply length_splice; lia).
  assert (cells s (p_ b) = Some l) as Hc.
  { unfold cells, storage in *. destruct (p_ b) as [o'|id]; [|done]. destruct Hp as [-> _]. by rewrite Ho. }
  exists (set_cells (p_ b) l' s). split; [unfold write; rewrite Hc; cbn; by rewrite splice_some by lia|].
  unfold set_cells, storage in *. destruct (p_ b) as [o'|id] eqn:Ep.
  - destruct Hp as [-> Hp]. simplify_eq. set (b' := mkBuffer (static_size b) (size b) (max_size_ b) (p_ b) l').
    assert (alter (fun b0 => mkBuffer (static_size b0) (size b0) (max_size_ b0) (p_ b0) l') o (objects s) = <[o := b']> (objects s)) as ->.
    { apply map_eq. intros i. destruct (decide (i = o)) as [->|Hi].
      - by rewrite lookup_alter_eq, lookup_insert_eq, Ho.
      - by rewrite lookup_alter_ne, lookup_insert_ne. }
    split; [exists b'; cbn; by rewrite Ep|]. apply represents_set; try done.
    + constructor; cbn; try lia; [by rewrite Ep|]. unfold storage. cbn. rewrite Ep. cbn. apply slice_prefix. lia.
    + intros b0 id Hb0 Hown. assert (b0 = b) as -> by congruence. unfold owned in Hown. by rewrite Ep in Hown.
    + intros id. unfold owned. cbn. by rewrite Ep.
    + apply (rep_next _ _ Hr).
  - destruct Hp as (l0 & Hl0 & Hll0). assert (l0 = l) as -> by congruence. split.
    { exists b. cbn. rewrite Ep, lookup_insert_eq. split_and!; try done. by rewrite insert_id. }
    replace (objects s) with (<[o := b]> (objects s)) by (by apply insert_id).
    apply (represents_set s strings o b); try done.
    + constructor; try done; [rewrite Ep; exists l'; rewrite lookup_insert_eq; split; [done|lia]|].
      unfold storage. rewrite Ep, lookup_insert_eq. cbn. apply slice_prefix. lia.
    + intros id' Hn _. rewrite lookup_insert_ne; [done|]. intros ->. apply (Hn b Ho). unfold owned. by rewrite Ep.
    + intros b0 id' Hb0 Hown Hn. congruence.
    + intros id' Hown. right. by exists b.
    + intros id' Hid. rewrite lookup_insert_is_Some in Hid. destruct Hid as [<-|[_ Hid]]; apply (rep_next _ _ Hr); [by exists l|done].
Qed.

(** ** Changing the size *)

Lemma fresh_block s strings : represents s strings -> blocks s !! next_block s = None.
Proof.
  intros Hr. destruct (blocks s !! next_block s) eqn:E; [|done].
  pose proof (rep_next _ _ Hr (next_block s)). rewrite E in H. specialize (H ltac:(by eexists)). lia.
Qed.

Lemma owned_live s strings o b text id : represents s strings -> objects s !! o = Some b ->
  strings !! o = Some text -> owned b = Some id -> is_Some (blocks s !! id).
Proof.
  intros Hr Ho Ht Hid. destruct (rep_holds _ _ Hr _ _ _ Ho Ht) as [_ _ _ _ Hp _]. unfold owned in Hid.
  destruct (p_ b); [done|]. simplify_eq. destruct Hp as (l & Hl & _). by exists l.
Qed.

Lemma represents_grow s strings o b text (l : list cell) n :
  represents s strings -> objects s !! o = Some b -> strings !! o = Some text ->
  0 <= n <= Z.of_nat (length l) -> Z.of_nat (length l) <= available ->
  represents
    (mkMemory (<[o := with_size n (with_data (Heap (next_block s)) (Z.of_nat (length l)) b)]> (objects s))
       (freed (<[next_block s := l]> (blocks s)) b) (S (next_block s)))
    (<[o := take (Z.to_nat n) l]> strings).
Proof.
  intros Hr Ho Ht Hn Hl. pose proof (fresh_block _ _ Hr) as Hf.
  pose proof (rep_holds _ _ Hr _ _ _ Ho Ht) as [H1 H2 H3 H4 Hp _].
  assert (freed (<[next_block s := l]> (blocks s)) b !! next_block s = Some l) as Hnx.
  { unfold freed. destruct (owned b) as [id|] eqn:Eb; [|by rewrite lookup_insert_eq].
    destruct (owned_live _ _ _ _ _ _ Hr Ho Ht Eb) as [x Hx]. rewrite lookup_delete_ne by congruence. by rewrite lookup_insert_eq. }
  assert (forall id, id <> next_block s -> owned b <> Some id ->
    freed (<[next_block s := l]> (blocks s)) b !! id = blocks s !! id) as Hsame.
  { intros id Hne Hob. unfold freed. destruct (owned b) as [id'|]; [rewrite lookup_delete_ne by congruence|]; by rewrite lookup_insert_ne. }
  apply represents_set; try done.
  - constructor; cbn; try done; [by exists l|]. unfold storage. cbn. rewrite Hnx. by apply slice_prefix.
  - intros id Hno Hb'. apply Hsame; [|by apply Hno]. intros ->. by apply Hb'.
  - intros b0 id Hb0 Hid Hne. assert (b0 = b) as -> by congruence. unfold freed. rewrite Hid. apply lookup_delete_eq.
  - intros id [= <-]. by left.
  - intros id [x Hx]. unfold freed in Hx. assert (is_Some (<[next_block s := l]> (blocks s) !! id)) as Hi.
    { destruct (owned b); [|by exists x]. apply lookup_delete_Some in Hx as [_ Hx]. by exists x. }
    apply lookup_insert_is_Some in Hi as [<-|[_ Hi]]; [lia|]. pose proof (rep_next _ _ Hr id Hi). lia.
Qed.

Lemma represents_size s strings o b text n : represents s strings -> objects s !! o = Some b ->
  strings !! o = Some text -> 0 <= n <= max_size_ b ->
  exists l, storage (blocks s) b = Some l /\ max_size_ b <= Z.of_nat (length l) /\
    text = take (Z.to_nat (size b)) l /\
    represents (mkMemory (<[o := with_size n b]> (objects s)) (blocks s) (next_block s))
      (<[o := take (Z.to_nat n) l]> strings).
Proof.
  intros Hr Ho Ht Hn. pose proof (rep_holds _ _ Hr _ _ _ Ho Ht) as [H1 H2 H3 H4 Hp Htext].
  assert (exists l, storage (blocks s) b = Some l /\ max_size_ b <= Z.of_nat (length l)) as (l & Hl & Hlen).
  { unfold storage. destruct (p_ b) as [o'|id]; [exists (a_ b); split; [done|lia]|].
    destruct Hp as (l & Hl & ?). exists l. split; [done|lia]. }
  exists l. rewrite Hl in Htext. cbn in Htext. rewrite slice_prefix in Htext by lia. split_and!; [done|done|congruence|].
  apply represents_set; try done.
  - constructor; cbn; try done. unfold storage in *. cbn. rewrite Hl. cbn. apply slice_prefix. lia.
  - intros b0 id Hb0 Hown Hne. assert (b0 = b) as -> by congruence. done.
  - intros id Hown. right. by exists b.
  - apply (rep_next _ _ Hr).
Qed.

(** A computation that gives a value with [Q], or runs out of memory with [E]. *)
Definition achieves {A} (s : memory) (m : M A) (Q : A -> memory -> Prop) (E : memory -> Prop) : Prop :=
  match m s with
  | (s', Ok a) => Q a s'
  | (s', Throw e) => e = bad_alloc /\ E s'
  | _ => False
  end.

Lemma achieves_bind {A B} s (m : M A) (k : A -> M B) Q R E :
  achieves s m Q E -> (forall a s', Q a s' -> achieves s' (k a) R E) -> achieves s (m ≫= k) R E.
Proof.
  unfold achieves, mbind, stm_bind. intros Hm Hk. destruct (m s) as [s' [a|e| |]]; try done. by apply Hk.
Qed.

Lemma achieves_conseq {A} s (m : M A) (Q Q' : A -> memory -> Prop) (E E' : memory -> Prop) :
  achieves s m Q E -> (forall a s', Q a s' -> Q' a s') -> (forall s', E s' -> E' s') -> achieves s m Q' E'.
Proof. unfold achieves. intros Hm HQ HE. destruct (m s) as [s' [a|e| |]]; try done; [auto|]. destruct Hm. auto. Qed.

Lemma achieves_run {A} s (m : M A) s' a Q E : m s = (s', Ok a) -> Q a s' -> achieves s m Q E.
Proof. unfold achieves. by intros ->. Qed.

(** The object has [n] characters now, the first of which are what they were. *)
Definition resized (s : memory) (strings : gmap nat (list cell)) (o : nat) (text : list cell) (n : Z) (s' : memory) : Prop :=
  exists b' text', objects s' = <[o := b']> (objects s) /\ size b' = n /\ Z.of_nat (length text') = n /\
    take (length text) text' = take (Z.to_nat n) text /\ represents s' (<[o := text']> strings).

Lemma max_bound n m : 0 <= m <= available -> Z.max (size_t (Z.shiftl m 1)) n = Z.max (2 * m) n.
Proof. intros Hm. unfold size_t. rewrite Z.shiftl_mul_pow2, Z.pow_1_r by lia. rewrite Z.mod_small by lia. lia. Qed.

Lemma take_app_blank {A} (text rest : list A) n : (length text <= n)%nat ->
  take (length text) (take n (text ++ rest)) = text.
Proof. intros Hn. rewrite take_take, Nat.min_l by lia. apply take_app_length. Qed.

Lemma length_text s o b text : holds (blocks s) o b text -> Z.of_nat (length text) = size b.
Proof.
  intros [_ _ _ _ _ Ht]. destruct (storage (blocks s) b); [|done]. cbn in Ht. by apply slice_inv in Ht as (_ & _ & _ & ?).
Qed.

(** The part of [resize] that moves the contents to a larger block. *)
Lemma move_to_block s strings o b text m : represents s strings -> objects s !! o = Some b ->
  strings !! o = Some text -> size b <= m <= available ->
  (new_p ← new_char available m;
   text ← read (p_ b) 0 (size b);
   _ ← write (Heap new_p) 0 text;
   _ ← deallocate o;
   set_data o (Heap new_p) m) s =
  (mkMemory (<[o := with_data (Heap (next_block s)) m b]> (objects s))
     (freed (<[next_block s := text ++ blank (m - size b)]> (blocks s)) b) (S (next_block s)), Ok tt).
Proof.
  intros Hr Ho Ht Hm. pose proof (rep_holds _ _ Hr _ _ _ Ho Ht) as Hb. pose proof (length_text _ _ _ _ Hb) as Hlt.
  pose proof (fresh_block _ _ Hr) as Hf. pose proof Hb as [H1 H2 H3 H4 Hp Htext].
  rewrite (stm_bind_run _ _ _ _ _ (new_char_run s m ltac:(lia))).
  set (s1 := mkMemory _ _ _).
  assert (forall id, owned b = Some id -> id <> next_block s) as Hid.
  { intros id Hid. destruct (owned_live _ _ _ _ _ _ Hr Ho Ht Hid). congruence. }
  assert (cells s1 (p_ b) = storage (blocks s) b) as Hc.
  { unfold cells, storage, owned in *. destruct (p_ b) as [o'|id]; cbn.
    - destruct Hp as [-> _]. by rewrite Ho.
    - rewrite lookup_insert_ne; [done|]. intros E. by apply (Hid id). }
  assert (read (p_ b) 0 (size b) s1 = (s1, Ok text)) as Hread.
  { unfold read, lift. by rewrite Hc, Htext. }
  rewrite (stm_bind_run _ _ _ _ _ Hread).
  set (s2 := mkMemory (objects s) (<[next_block s := text ++ blank (m - size b)]> (blocks s)) (S (next_block s))).
  assert (write (Heap (next_block s)) 0 text s1 = (s2, Ok tt)) as Hwrite.
  { unfold write, cells. cbn [blocks s1]. rewrite lookup_insert_eq. cbn. unfold blank.
    rewrite splice_some by (rewrite ?length_replicate; lia).
    change (Z.to_nat 0) with 0%nat. rewrite take_0, Nat.add_0_l, app_nil_l.
    unfold set_cells, s1. cbn [objects blocks next_block]. rewrite insert_insert_eq, drop_replicate.
    unfold s2, blank. by replace (Z.to_nat m - length text)%nat with (Z.to_nat (m - size b)) by lia. }
  rewrite (stm_bind_run _ _ _ _ _ Hwrite). rewrite (reallocate_run s2 o b text); [done|done|].
  apply holds_frame with (B := blocks s); [|done]. intros id Hi. cbn. rewrite lookup_insert_ne; [done|]. by apply not_eq_sym, Hid.
Qed.

Lemma resize_spec s strings o text n : represents s strings -> strings !! o = Some text -> 0 <= n ->
  achieves s (resize available o n) (fun _ => resized s strings o text n) (fun s' => s' = s).
Proof.
  intros Hr Ht Hn. destruct (rep_lookup _ _ _ _ Hr Ht) as (b & Ho & Hb). pose proof (length_text _ _ _ _ Hb) as Hlt.
  pose proof Hb as [H1 H2 H3 H4 Hp Htext]. unfold achieves, resize. rewrite (stm_bind_run _ _ _ _ _ (object_run _ _ _ Ho)).
  destruct (Z.ltb_spec (max_size_ b) n) as [Hgt|Hle]; cbn [when].
  - rewrite (max_bound n) by lia. set (m := Z.max (2 * max_size_ b) n).
    destruct (Z_le_gt_dec m available) as [Hm|Hm].
    + rewrite (stm_bind_run _ _ _ _ _ (move_to_block s strings o b text m Hr Ho Ht ltac:(lia))).
      rewrite (set_size_run _ o (with_data (Heap (next_block s)) m b)) by (cbn; by rewrite lookup_insert_eq).
      cbn [objects blocks next_block]. rewrite insert_insert_eq.
      set (l := text ++ blank (m - size b)). assert (Z.of_nat (length l) = m) as Hll.
      { unfold l, blank. rewrite length_app, length_replicate. lia. }
      pose proof (represents_grow s strings o b text l n Hr Ho Ht ltac:(lia) ltac:(lia)) as Hg. rewrite Hll in Hg.
      eexists _, _. split_and!; [reflexivity|done| | |exact Hg].
      * rewrite length_take. lia.
      * unfold l. rewrite take_app_blank by lia. rewrite firstn_all2; [done|lia].
    + unfold mbind at 1 2, stm_bind at 1 2. by rewrite new_char_throws by lia.
  - rewrite (stm_bind_run _ _ s s tt eq_refl). rewrite (set_size_run _ _ _ _ Ho).
    destruct (represents_size s strings o b text n Hr Ho Ht ltac:(lia)) as (l & Hl & Hlen & -> & Hs).
    eexists _, _. split_and!; [reflexivity|done| | |exact Hs].
    + rewrite length_take. lia.
    + rewrite length_take in Hlt |- *. rewrite !take_take. f_equal. lia.
Qed.

(** ** Replacing the contents *)

(** What a source outside the object [o] denotes. *)
Definition denotes (s : memory) (strings : gmap nat (list cell)) (o : nat) (x : source) (text : list cell) : Prop :=
  match x with
  | Chars c => text = Some <$> c
  | View p offset len => exists o' b' t', o' <> o /\ objects s !! o' = Some b' /\ p = p_ b' /\
      strings !! o' = Some t' /\ slice t' offset len = Some text
  end.

Lemma denotes_length s strings o x text : denotes s strings o x text -> Z.of_nat (length text) = string_length x.
Proof.
  destruct x as [c|p offset len]; cbn; [intros ->; by rewrite length_fmap|].
  intros (o' & b' & t' & _ & _ & _ & _ & Hs). by apply slice_inv in Hs as (_ & _ & _ & ?).
Qed.

(** Whatever happens to [o], such a source is read as before. *)
Lemma read_source_run s strings o x text s' b1 t1 : denotes s strings o x text ->
  objects s' = <[o := b1]> (objects s) -> represents s' (<[o := t1]> strings) ->
  read_source x s' = (s', Ok text).
Proof.
  destruct x as [c|p offset len]; cbn; [by intros ->|].
  intros (o' & b' & t' & Hne & Ho' & -> & Ht' & Hs) Ho Hr.
  apply (read_run s' (<[o := t1]> strings) o' b' t'); [done| | |done].
  - rewrite Ho. by rewrite lookup_insert_ne.
  - by rewrite lookup_insert_ne.
Qed.

(** [o] has room for [n] characters. *)
Definition prepared (s : memory) (strings : gmap nat (list cell)) (o : nat) (n : Z) (s' : memory) : Prop :=
  exists b' text', objects s' = <[o := b']> (objects s) /\ size b' = n /\ Z.of_nat (length text') = n /\
    represents s' (<[o := text']> strings).

Lemma replace_block s strings o b text n m : represents s strings -> objects s !! o = Some b ->
  strings !! o = Some text -> 0 <= n <= m -> m <= available ->
  prepared s strings o n
    (mkMemory (<[o := with_size n (with_data (Heap (next_block s)) m b)]> (objects s))
       (freed (<[next_block s := blank m]> (blocks s)) b) (S (next_block s))).
Proof.
  intros Hr Ho Ht Hn Hm. assert (Z.of_nat (length (blank m)) = m) as Hl by (unfold blank; rewrite length_replicate; lia).
  pose proof (represents_grow s strings o b text (blank m) n Hr Ho Ht ltac:(lia) ltac:(lia)) as Hg. rewrite Hl in Hg.
  eexists _, _. split_and!; [reflexivity|done| |exact Hg]. rewrite length_take. lia.
Qed.

Lemma shrink_prepared s strings o b text n : represents s strings -> objects s !! o = Some b ->
  strings !! o = Some text -> 0 <= n <= max_size_ b ->
  prepared s strings o n (mkMemory (<[o := with_size n b]> (objects s)) (blocks s) (next_block s)).
Proof.
  intros Hr Ho Ht Hn. destruct (represents_size s strings o b text n Hr Ho Ht Hn) as (l & Hl & Hlen & _ & Hs).
  eexists _, _. split_and!; [reflexivity|done| |exact Hs]. rewrite length_take. lia.
Qed.

Lemma prepare_copy s strings o b text n : represents s strings -> objects s !! o = Some b ->
  strings !! o = Some text -> 0 <= n ->
  achieves s (_ ← when (max_size_ b <? n)
        (new_p ← new_char available n;
         _ ← deallocate o;
         set_data o (Heap new_p) n);
      set_size o n) (fun _ => prepared s strings o n) (fun s' => s' = s /\ max_size_ b < n).
Proof.
  intros Hr Ho Ht Hn. pose proof (rep_holds _ _ Hr _ _ _ Ho Ht) as Hb. unfold achieves.
  destruct (Z.ltb_spec (max_size_ b) n) as [Hgt|Hle]; cbn [when].
  - destruct (Z_le_gt_dec n available) as [Hm|Hm].
    2: { unfold mbind at 1 2, stm_bind at 1 2. by rewrite new_char_throws by lia. }
    set (s1 := mkMemory (objects s) (<[next_block s := blank n]> (blocks s)) (S (next_block s))).
    assert (holds (blocks s1) o b text) as Hb1.
    { apply holds_frame with (B := blocks s); [|done]. intros id Hid. cbn. rewrite lookup_insert_ne; [done|].
      intros <-. destruct (owned_live _ _ _ _ _ _ Hr Ho Ht Hid) as [x Hx]. by rewrite (fresh_block _ _ Hr) in Hx. }
    erewrite stm_bind_run; [|erewrite stm_bind_run; [|by apply new_char_run]; apply (reallocate_run s1 o b text); done].
    rewrite (set_size_run _ o (with_data (Heap (next_block s)) n b)) by (cbn; by rewrite lookup_insert_eq).
    cbn [objects blocks next_block s1]. rewrite insert_insert_eq. by apply (replace_block s strings o b text n n).
  - rewrite (stm_bind_run _ _ s s tt eq_refl), (set_size_run _ _ _ _ Ho). by apply (shrink_prepared s strings o b text).
Qed.

(** Filling a prepared buffer. *)
Lemma fill_spec s strings o n s' (data : list cell) : prepared s strings o n s' -> Z.of_nat (length data) = n ->
  exists s2 b2, (b ← object o; write (p_ b) 0 data) s' = (s2, Ok tt) /\ objects s2 = <[o := b2]> (objects s) /\
    represents s2 (<[o := data]> strings).
Proof.
  intros (b' & text' & Ho' & Hs' & Hl' & Hr') Hd.
  assert (objects s' !! o = Some b') as Hb' by (by rewrite Ho', lookup_insert_eq).
  pose proof (rep_holds _ _ Hr' _ _ _ Hb' ltac:(apply lookup_insert_eq)) as Hh.
  destruct Hh as [H1 H2 H3 H4 Hp Htext]. destruct (storage (blocks s') b') as [l|] eqn:Est; [|done].
  destruct (represents_write s' _ o b' text' l 0 data Hr' Hb' ltac:(apply lookup_insert_eq) Est ltac:(lia) ltac:(lia))
    as (s2 & Hw & (b2 & Ho2 & _) & Hr2).
  exists s2, b2. rewrite (stm_bind_run _ _ _ _ _ (object_run _ _ _ Hb')). split_and!; [done| |].
  - by rewrite Ho2, Ho', insert_insert_eq.
  - rewrite insert_insert_eq in Hr2. change (Z.to_nat 0) with 0%nat in Hr2. rewrite take_0, app_nil_l in Hr2.
    rewrite Hs', <- Hd, Nat2Z.id, take_app_length in Hr2. done.
Qed.

(** [o] holds [text] now, and nothing else has changed. *)
Definition becomes (s : memory) (strings : gmap nat (list cell)) (o : nat) (text : list cell) (s' : memory) : Prop :=
  (exists b', objects s' = <[o := b']> (objects s)) /\ represents s' (<[o := text]> strings).

Lemma make_copy_of_spec s strings o text x data : represents s strings -> strings !! o = Some text ->
  denotes s strings o x data ->
  achieves s (make_copy_of available o x) (fun _ => becomes s strings o data)
    (fun s' => s' = s /\ forall b, objects s !! o = Some b -> max_size_ b < string_length x).
Proof.
  intros Hr Ht Hx. destruct (rep_lookup _ _ _ _ Hr Ht) as (b & Ho & Hb). pose proof (denotes_length _ _ _ _ _ Hx) as Hlen.
  unfold make_copy_of. unfold achieves. rewrite (stm_bind_run _ _ _ _ _ (object_run _ _ _ Ho)).
  pose proof (prepare_copy s strings o b text (string_length x) Hr Ho Ht ltac:(lia)) as Hp. unfold achieves in Hp.
  assert (forall b0, objects s !! o = Some b0 -> b0 = b) as Hbb by (intros; congruence).
  unfold mbind at 1, stm_bind at 1. unfold mbind at 1, stm_bind at 1 in Hp.
  destruct (when _ _ s) as [s1 [[]|e| |]]; try done.
  2: { destruct Hp as (-> & -> & Hlt). split_and!; [done|done|]. by intros b0 ->%Hbb. }
  unfold mbind at 1, stm_bind at 1. destruct (set_size o (string_length x) s1) as [s2 [[]|e| |]]; try done.
  2: { destruct Hp as (-> & -> & Hlt). split_and!; [done|done|]. by intros b0 ->%Hbb. }
  pose proof Hp as (b' & text' & Ho' & _ & _ & Hr').
  rewrite (stm_bind_run _ _ _ _ _ (read_source_run s strings o x data s2 b' text' Hx Ho' Hr')).
  destruct (fill_spec s strings o _ s2 data Hp ltac:(done)) as (s3 & b3 & E3 & Ho3 & Hr3). rewrite E3.
  split; [by exists b3|done].
Qed.

(** ** Appending *)

Fixpoint total_length (args : list source) : Z :=
  match args with [] => 0 | x :: args' => string_length x + total_length args' end.

Lemma fold_size_t args : forall n, 0 <= n -> Forall (fun x => 0 <= string_length x) args -> n + total_length args < 2 ^ 64 ->
  fold_left (fun n x => size_t (n + string_length x)) args n = n + total_length args.
Proof.
  induction args as [|x args IH]; cbn; intros n Hn Ha Hlt; [lia|]. inversion Ha; subst.
  assert (0 <= total_length args) by (clear - H2; induction H2; cbn; lia).
  replace (size_t (n + string_length x)) with (n + string_length x) by (unfold size_t; rewrite Z.mod_small; lia).
  rewrite IH by (try done; lia). lia.
Qed.

Lemma total_length_nonneg s strings o args datas : Forall2 (denotes s strings o) args datas ->
  total_length args = Z.of_nat (length (concat datas)).
Proof.
  induction 1 as [|x data args datas Hx H IH]; [done|]. cbn. rewrite length_app, IH. pose proof (denotes_length _ _ _ _ _ Hx). lia.
Qed.

Lemma sources_nonneg s strings o args datas : Forall2 (denotes s strings o) args datas ->
  Forall (fun x => 0 <= string_length x) args.
Proof.
  induction 1 as [|x data args datas Hx _ IH]; constructor; [|done]. rewrite <- (denotes_length _ _ _ _ _ Hx). lia.
Qed.

Lemma append_loop_spec s strings o args datas : Forall2 (denotes s strings o) args datas ->
  forall k s' b' t', objects s' = <[o := b']> (objects s) -> represents s' (<[o := t']> strings) ->
    0 <= k -> k + total_length args = Z.of_nat (length t') -> Z.of_nat (length t') < 2 ^ 64 ->
    achieves s' (append_loop o args k) (fun _ => becomes s strings o (take (Z.to_nat k) t' ++ concat datas)) (fun _ => False).
Proof.
  induction 1 as [|x data args datas Hx Hargs IH]; intros k s' b' t' Ho' Hr' Hk Hkt Hlt; cbn [append_loop concat].
  - eapply achieves_run; [done|]. cbn in Hkt. rewrite app_nil_r, firstn_all2 by lia. split; [by exists b'|done].
  - pose proof (denotes_length _ _ _ _ _ Hx) as Hd. pose proof (total_length_nonneg _ _ _ _ _ Hargs) as Htot. cbn in Hkt.
    unfold achieves. rewrite (stm_bind_run _ _ _ _ _ (read_source_run s strings o x data s' b' t' Hx Ho' Hr')).
    assert (objects s' !! o = Some b') as Hb' by (by rewrite Ho', lookup_insert_eq).
    rewrite (stm_bind_run _ _ _ _ _ (object_run _ _ _ Hb')).
    pose proof (rep_holds _ _ Hr' _ _ _ Hb' ltac:(apply lookup_insert_eq)) as Hh. pose proof (length_text _ _ _ _ Hh) as Hlen.
    destruct Hh as [H1 H2 H3 H4 Hp Htext]. destruct (storage (blocks s') b') as [l|] eqn:Est; [|done]. cbn in Htext.
    destruct (represents_write s' _ o b' t' l k data Hr' Hb' ltac:(apply lookup_insert_eq) Est Hk ltac:(lia))
      as (s2 & Hw & (b2 & Ho2 & _ & Hsz & _) & Hr2).
    rewrite (stm_bind_run _ _ _ _ _ Hw). rewrite insert_insert_eq in Hr2.
    unfold size_t. rewrite Z.mod_small by lia. pose proof (slice_inv _ _ _ _ Htext) as (_ & _ & Hl & _).
    rewrite slice_prefix in Htext by lia. injection Htext as Htext.
    set (t2 := take (Z.to_nat (size b')) _) in Hr2.
    assert (length t2 = length t') as Hl2.
    { unfold t2. rewrite length_take, length_splice by lia. lia. }
    assert (take (Z.to_nat (k + string_length x)) t2 = take (Z.to_nat k) t' ++ data) as Htake.
    { unfold t2. rewrite <- Htext, take_take, !take_take. rewrite (app_assoc _ data).
      replace (Z.to_nat k `min` Z.to_nat (size b'))%nat with (Z.to_nat k) by lia.
      rewrite take_app_le by (rewrite length_app, length_take; lia).
      rewrite firstn_all2; [done|]. rewrite length_app, length_take. lia. }
    specialize (IH (k + string_length x) s2 b2 t2). unfold achieves in IH.
    assert (objects s2 = <[o := b2]> (objects s)) as Ho3 by (by rewrite Ho2, Ho', insert_insert_eq).
    specialize (IH Ho3 Hr2 ltac:(lia) ltac:(lia) ltac:(lia)). rewrite Htake, <- app_assoc in IH. done.
Qed.

Lemma append_spec s strings o text args datas : represents s strings -> strings !! o = Some text ->
  Forall2 (denotes s strings o) args datas -> Z.of_nat (length text) + total_length args < 2 ^ 64 ->
  achieves s (append available o args) (fun _ => becomes s strings o (text ++ concat datas)) (fun s' => s' = s).
Proof.
  intros Hr Ht Hargs Hlt. destruct (rep_lookup _ _ _ _ Hr Ht) as (b & Ho & Hb). pose proof (length_text _ _ _ _ Hb) as Hlen.
  pose proof (total_length_nonneg _ _ _ _ _ Hargs) as Htot.
  unfold append. eapply achieves_bind; [by apply (achieves_run _ _ _ _ (fun a s' => a = b /\ s' = s) _ (object_run _ _ _ Ho))|].
  intros a s1 [Ha Hs1]. rewrite Ha, Hs1. clear Ha Hs1 a s1. rewrite fold_size_t; [|lia|by eapply sources_nonneg|lia].
  eapply achieves_bind; [apply (resize_spec s strings o text); [done|done|lia]|].
  intros [] s' (b' & t' & Ho' & Hs' & Hl' & Htake & Hr').
  eapply achieves_conseq; [apply (append_loop_spec s strings o args datas Hargs (size b) s' b' t'); [done|done|lia|lia|lia]| |done].
  intros u s2. replace (take (Z.to_nat (size b)) t') with text; [done|].
  rewrite <- Hlen, Nat2Z.id, Htake, firstn_all2; [done|lia].
Qed.

(** ** Reading and writing characters *)

Lemma to_string_spec s strings o text : represents s strings -> strings !! o = Some text ->
  to_string o s = (s, Ok text).
Proof.
  intros Hr Ht. destruct (rep_lookup _ _ _ _ Hr Ht) as (b & Ho & Hb). pose proof (length_text _ _ _ _ Hb) as Hlen.
  unfold to_string. rewrite (stm_bind_run _ _ _ _ _ (object_run _ _ _ Ho)).
  apply (read_run s strings o b text); try done. rewrite slice_prefix by lia.
  rewrite <- Hlen, Nat2Z.id, firstn_all. done.
Qed.

Lemma set_char_spec s strings o text i c : represents s strings -> strings !! o = Some text ->
  0 <= i < Z.of_nat (length text) ->
  achieves s (set_char o i c) (fun _ => becomes s strings o (<[Z.to_nat i := Some c]> text)) (fun _ => False).
Proof.
  intros Hr Ht Hi. destruct (rep_lookup _ _ _ _ Hr Ht) as (b & Ho & Hb). pose proof (length_text _ _ _ _ Hb) as Hlen.
  pose proof Hb as [H1 H2 H3 H4 Hp Htext]. destruct (storage (blocks s) b) as [l|] eqn:Est; [|done]. cbn in Htext.
  unfold achieves, set_char. rewrite (stm_bind_run _ _ _ _ _ (object_run _ _ _ Ho)).
  destruct (represents_write s strings o b text l i [Some c] Hr Ho Ht Est ltac:(lia) ltac:(cbn; lia))
    as (s2 & Hw & (b2 & Ho2 & _) & Hr2).
  rewrite Hw. split; [by exists b2|]. pose proof (slice_inv _ _ _ _ Htext) as (_ & _ & Hl & _).
  rewrite slice_prefix in Htext by lia. injection Htext as Htext. cbn [length] in Hr2.
  replace (<[Z.to_nat i := Some c]> text) with
    (take (Z.to_nat (size b)) (take (Z.to_nat i) l ++ [Some c] ++ drop (Z.to_nat i + 1) l)); [done|].
  rewrite <- Htext, (insert_take_drop (take _ l)) by (rewrite length_take; lia).
  rewrite take_app, take_take, length_take, Nat.min_r by lia.
  rewrite Nat.min_l by lia. replace (Z.to_nat i `min` Z.to_nat (size b))%nat with (Z.to_nat i) by lia.
  rewrite (take_take l (Z.to_nat i)), Nat.min_l by lia. f_equal.
  destruct (Z.to_nat (size b) - Z.to_nat i)%nat as [|m] eqn:Em; [lia|]. cbn [app take]. f_equal.
  rewrite skipn_firstn_comm, Nat.add_1_r. f_equal. lia.
Qed.

Lemma size_spec s strings o text n : represents s strings -> strings !! o = Some text ->
  0 <= n <= Z.of_nat (length text) ->
  achieves s (set_size o n) (fun _ => becomes s strings o (take (Z.to_nat n) text)) (fun _ => False).
Proof.
  intros Hr Ht Hn. destruct (rep_lookup _ _ _ _ Hr Ht) as (b & Ho & Hb). pose proof (length_text _ _ _ _ Hb) as Hlen.
  pose proof Hb as [H1 H2 H3 H4 _ _]. unfold achieves. rewrite (set_size_run _ _ _ _ Ho).
  destruct (represents_size s strings o b text n Hr Ho Ht ltac:(lia)) as (l & Hl & _ & -> & Hs).
  split; [by eexists|]. rewrite take_take, Nat.min_l by lia. done.
Qed.

Lemma becomes_trans s strings o t1 t2 s1 s2 : becomes s strings o t1 s1 -> becomes s1 (<[o := t1]> strings) o t2 s2 ->
  becomes s strings o t2 s2.
Proof.
  intros [[b1 H1] _] [[b2 H2] Hr]. rewrite insert_insert_eq in Hr. split; [|done]. exists b2. by rewrite H2, H1, insert_insert_eq.
Qed.

Lemma becomes_eq s strings o t1 t2 s1 : t1 = t2 -> becomes s strings o t1 s1 -> becomes s strings o t2 s1.
Proof. by intros ->. Qed.

Lemma to_cstr_spec s strings o text : represents s strings -> strings !! o = Some text ->
  achieves s (to_cstr available o)
    (fun view s' => view = text /\ becomes s strings o text s' /\
       forall b, objects s' !! o = Some b -> read (p_ b) 0 (size b + 1) s' = (s', Ok (text ++ [Some NUL])))
    (fun s' => s' = s).
Proof.
  intros Hr Ht. destruct (rep_lookup _ _ _ _ Hr Ht) as (b & Ho & Hb). pose proof (length_text _ _ _ _ Hb) as Hlen.
  pose proof Hb as [_ _ H3 H4 _ _]. unfold to_cstr, achieves. rewrite (stm_bind_run _ _ _ _ _ (object_run _ _ _ Ho)).
  unfold size_t. rewrite Z.mod_small by lia.
  pose proof (resize_spec s strings o text (size b + 1) Hr Ht ltac:(lia)) as Hz. unfold achieves in Hz.
  unfold mbind at 1, stm_bind at 1. destruct (resize available o (size b + 1) s) as [s1 [[]|e| |]]; try done.
  destruct Hz as (b1 & t1 & Ho1 & Hs1 & Hl1 & Htake & Hr1).
  assert (objects s1 !! o = Some b1) as Hb1 by (by rewrite Ho1, lookup_insert_eq).
  pose proof (rep_holds _ _ Hr1 _ _ _ Hb1 ltac:(apply lookup_insert_eq)) as Hh1. pose proof Hh1 as [_ _ Hsz1 _ _ _].
  destruct (represents_size s1 _ o b1 t1 (size b) Hr1 Hb1 ltac:(apply lookup_insert_eq) ltac:(lia)) as (l & Hl & Hlm & -> & Hr2).
  rewrite (stm_bind_run _ _ _ _ _ (set_size_run _ _ _ _ Hb1)). rewrite insert_insert_eq in Hr2. set (s2 := mkMemory _ _ _) in *.
  assert (objects s2 !! o = Some (with_size (size b) b1)) as Hb2 by (cbn; by rewrite lookup_insert_eq).
  unfold mbind at 1, stm_bind at 1. unfold set_char. rewrite (stm_bind_run _ _ _ _ _ (object_run _ _ _ Hb2)).
  destruct (represents_write s2 _ o (with_size (size b) b1) _ l (size b) [Some NUL] Hr2 Hb2 ltac:(apply lookup_insert_eq) Hl
    ltac:(lia) ltac:(cbn; lia)) as (s3 & Hw & (b3 & Ho3 & Hp3 & Hsz3 & Hm3 & Hst3) & Hr3).
  rewrite Hw. cbn [size with_size] in *.
  assert (objects s3 !! o = Some b3) as Hb3 by (by rewrite Ho3, lookup_insert_eq).
  assert (take (Z.to_nat (size b)) l = text) as Hprefix.
  { rewrite take_take, Nat.min_l in Htake by lia. replace (length text) with (Z.to_nat (size b)) in Htake by lia.
    rewrite Htake, firstn_all2; [done|lia]. }
  match type of Hst3 with _ = Some ?x => set (l3 := x) in * end.
  assert (take (Z.to_nat (size b)) l3 = text) as Ht3.
  { unfold l3. rewrite take_app_le by (rewrite length_take; lia). rewrite take_take, Nat.min_id. done. }
  assert (length l3 = length l) as Hll by (apply length_splice; cbn; lia).
  rewrite insert_insert_eq, Ht3 in Hr3. rewrite (stm_bind_run _ _ _ _ _ (object_run _ _ _ Hb3)), Hsz3.
  rewrite (read_run s3 _ o b3 text 0 (size b) text Hr3 Hb3 ltac:(apply lookup_insert_eq))
    by (rewrite slice_prefix by lia; rewrite firstn_all2; [done|lia]).
  split_and!; [done| |].
  - split; [|done]. exists b3. rewrite Ho3. cbn. by rewrite Ho1, !insert_insert_eq.
  - intros b' Hb'. assert (b' = b3) as -> by congruence. rewrite Hsz3. unfold read, lift.
    pose proof (rep_holds _ _ Hr3 _ _ _ Hb3 ltac:(apply lookup_insert_eq)) as [_ _ _ _ Hpl _].
    assert (cells s3 (p_ b3) = Some l3) as ->.
    { rewrite <- Hst3. unfold cells, storage. destruct (p_ b3) as [o'|id]; [|done]. destruct Hpl as [-> _]. by rewrite Hb3. }
    cbn. rewrite slice_prefix by lia. cbn. do 2 f_equal. unfold l3. rewrite app_assoc.
    rewrite take_app_le by (rewrite length_app, length_take; cbn; lia).
    rewrite firstn_all2 by (rewrite length_app, length_take; cbn; lia). by rewrite Hprefix.
Qed.

Lemma lossy_resize_spec s strings o text n : represents s strings -> strings !! o = Some text -> 0 <= n ->
  achieves s (lossy_resize available o n)
    (fun _ s' => exists text', Z.of_nat (length text') = n /\ becomes s strings o text' s') (fun _ => True).
Proof.
  intros Hr Ht Hn. destruct (rep_lookup _ _ _ _ Hr Ht) as (b & Ho & Hb). pose proof Hb as [H1 H2 H3 H4 _ _].
  assert (forall s', prepared s strings o n s' -> exists text', Z.of_nat (length text') = n /\ becomes s strings o text' s') as Hprep.
  { intros s' (b' & t' & Ho' & _ & Hl' & Hr'). exists t'. split; [done|]. split; [by exists b'|done]. }
  unfold achieves, lossy_resize. rewrite (stm_bind_run _ _ _ _ _ (object_run _ _ _ Ho)).
  destruct (Z.ltb_spec (max_size_ b) n) as [Hgt|Hle]; cbn [when].
  2: { rewrite (stm_bind_run _ _ s s tt eq_refl), (set_size_run _ _ _ _ Ho). by apply Hprep, (shrink_prepared s strings o b text). }
  rewrite (max_bound n) by lia. set (m := Z.max (2 * max_size_ b) n).
  unfold mbind at 1 2, stm_bind at 1 2. rewrite (deallocate_run _ _ _ _ Ho Hb).
  destruct (Z_le_gt_dec m available) as [Hm|Hm]; [|unfold mbind at 1, stm_bind at 1; by rewrite new_char_throws by lia].
  rewrite (stm_bind_run _ _ _ _ _ (new_char_run _ m Hm)).
  pose proof (replace_block s strings o b text n m Hr Ho Ht ltac:(lia) Hm) as Hp.
  unfold freed, owned in Hp. destruct (p_ b) as [o'|id] eqn:Ep; unfold set_data, mbind, stm_bind, object, lift;
    cbn [objects blocks next_block]; [rewrite Ho|rewrite lookup_insert_eq]; cbn [get_or_ub]; unfold set_object, modify;
    cbn [objects blocks next_block]; rewrite set_size_run with (b := with_data (Heap (next_block s)) m b) by (cbn; rewrite lookup_insert_eq; done);
    cbn [objects blocks next_block]; rewrite !insert_insert_eq; apply Hprep; [done|].
  rewrite delete_insert_ne in Hp; [done|]. destruct (owned_live s strings o b text id Hr Ho Ht ltac:(unfold owned; by rewrite Ep)) as [x Hx].
  intros ->. by rewrite (fresh_block _ _ Hr) in Hx.
Qed.

(** ** Constructors *)

(** An object that was not there, in its own array. *)
Lemma new_inplace s strings o N n : represents s strings -> strings !! o = None ->
  0 <= n <= N -> N <= available ->
  represents (mkMemory (<[o := mkBuffer N n N (Inplace o) (blank N)]> (objects s)) (blocks s) (next_block s))
    (<[o := blank n]> strings).
Proof.
  intros Hr Hnone Hn HN. assert (objects s !! o = None) as Ho.
  { apply eq_None_not_Some. intros H. apply (rep_dom _ _ Hr) in H as [x Hx]. congruence. }
  assert (length (blank N) = Z.to_nat N) as Hl by apply length_replicate.
  apply represents_set; try done.
  - constructor; cbn; try lia. unfold storage. cbn. rewrite slice_prefix by lia. unfold blank.
    rewrite take_replicate. do 2 f_equal. lia.
  - intros b id Hb. congruence.
  - apply (rep_next _ _ Hr).
Qed.

Lemma construct_spec s strings o N : represents s strings -> strings !! o = None -> 0 <= N <= available ->
  achieves s (construct o N) (fun _ => becomes s strings o []) (fun _ => False).
Proof.
  intros Hr Hnone HN. unfold achieves, construct, set_object, modify. split; [by eexists|].
  exact (new_inplace s strings o N 0 Hr Hnone ltac:(lia) ltac:(lia)).
Qed.

Lemma construct_size_spec s strings o N n : represents s strings -> strings !! o = None -> 0 <= N <= available -> 0 <= n ->
  achieves s (construct_size available o N n) (fun _ => prepared s strings o n) (fun s' => s' = s).
Proof.
  intros Hr Hnone HN Hn. assert (objects s !! o = None) as Ho.
  { apply eq_None_not_Some. intros H. apply (rep_dom _ _ Hr) in H as [x Hx]. congruence. }
  unfold achieves, construct_size. destruct (Z.leb_spec n N) as [Hle|Hgt].
  - unfold set_object, modify. rewrite Z.max_l by lia. eexists _, (blank n).
    split_and!; [reflexivity|done|unfold blank; rewrite length_replicate; lia|]. apply new_inplace; (done || lia).
  - destruct (Z_le_gt_dec n available) as [Hm|Hm].
    2: { unfold mbind, stm_bind. by rewrite new_char_throws by lia. }
    rewrite (stm_bind_run _ _ _ _ _ (new_char_run _ n Hm)), Z.max_r by lia. unfold set_object, modify. cbn [objects blocks next_block].
    assert (length (blank n) = Z.to_nat n) as Hl by apply length_replicate.
    eexists _, (blank n). split_and!; [reflexivity|done|lia|]. apply represents_set; try done.
    + assert (length (blank N) = Z.to_nat N) as HlN by apply length_replicate.
      constructor; cbn; try lia; [exists (blank n); rewrite lookup_insert_eq; split; [done|lia]|].
      unfold storage. cbn. rewrite lookup_insert_eq. cbn. rewrite slice_prefix by lia. rewrite firstn_all2; [done|lia].
    + intros id _ Hne. rewrite lookup_insert_ne; [done|]. intros <-. by apply Hne.
    + intros b id Hb. congruence.
    + intros id [= <-]. left. by eapply fresh_block.
    + intros id Hid. apply lookup_insert_is_Some in Hid as [<-|[_ Hid]]; [lia|]. pose proof (rep_next _ _ Hr id Hid). lia.
Qed.

Lemma construct_fill_spec s strings o N (data : list cell) (m : M (list cell)) : represents s strings -> strings !! o = None -> 0 <= N <= available ->
  (forall s', prepared s strings o (Z.of_nat (length data)) s' -> m s' = (s', Ok data)) ->
  achieves s (_ ← construct_size available o N (Z.of_nat (length data)); text ← m; b ← object o; write (p_ b) 0 text)
    (fun _ => becomes s strings o data) (fun s' => s' = s).
Proof.
  intros Hr Hnone HN Hm. eapply achieves_bind; [apply construct_size_spec; (done || lia)|].
  intros [] s' Hp. destruct (fill_spec s strings o _ s' data Hp eq_refl) as (s2 & b2 & E2 & Ho2 & Hr2).
  unfold achieves. rewrite (stm_bind_run _ _ _ _ _ (Hm _ Hp)), E2. split; [by exists b2|done].
Qed.

Lemma construct_str_spec s strings o N c : represents s strings -> strings !! o = None -> 0 <= N <= available ->
  achieves s (construct_str available o N c) (fun _ => becomes s strings o (Some <$> c)) (fun s' => s' = s).
Proof.
  intros Hr Hnone HN. pose proof (construct_fill_spec s strings o N (Some <$> c) (mret (Some <$> c) : M (list cell)) Hr Hnone HN ltac:(done)) as H.
  rewrite length_fmap in H. exact H.
Qed.

Lemma construct_copy_spec s strings o from text : represents s strings -> strings !! o = None -> strings !! from = Some text ->
  achieves s (construct_copy available o from) (fun _ => becomes s strings o text) (fun s' => s' = s).
Proof.
  intros Hr Hnone Ht. destruct (rep_lookup _ _ _ _ Hr Ht) as (f & Hf & Hb). pose proof (length_text _ _ _ _ Hb) as Hlen.
  unfold construct_copy, achieves. rewrite (stm_bind_run _ _ _ _ _ (object_run _ _ _ Hf)).
  pose proof (construct_fill_spec s strings o (static_size f) text (read (p_ f) 0 (size f)) Hr Hnone (ok_static _ _ _ _ Hb)) as H.
  rewrite Hlen in H. apply H. intros s' (b' & t' & Ho' & _ & _ & Hr').
  assert (from <> o) as Hne by (intros ->; congruence).
  apply (read_run s' (<[o := t']> strings) from f text); [done|by rewrite Ho', lookup_insert_ne|by rewrite lookup_insert_ne|].
  rewrite slice_prefix by lia. rewrite firstn_all2; [done|lia].
Qed.

(** ** Moving *)

Lemma freed_other s strings o b text id : represents s strings -> objects s !! o = Some b -> strings !! o = Some text ->
  owned b <> Some id -> freed (blocks s) b !! id = blocks s !! id.
Proof. intros Hr Ho Ht Hne. unfold freed. destruct (owned b) as [id'|]; [|done]. rewrite lookup_delete_ne; congruence. Qed.

(** [o] gives its own block back and takes over the one of [from]. *)
Lemma represents_steal s strings o from b f text tf id :
  represents s strings -> o <> from -> objects s !! o = Some b -> strings !! o = Some text ->
  objects s !! from = Some f -> strings !! from = Some tf -> p_ f = Heap id ->
  represents
    (mkMemory (<[o := mkBuffer (static_size b) (size f) (max_size_ f) (p_ f) (a_ b)]>
                 (<[from := mkBuffer (static_size f) 0 (static_size f) (Inplace from) (a_ f)]> (objects s)))
       (freed (blocks s) b) (next_block s))
    (<[o := tf]> (<[from := []]> strings)).
Proof.
  intros Hr Hne Ho Ht Hf Htf Ep. pose proof (rep_holds _ _ Hr _ _ _ Ho Ht) as [B1 B2 B3 B4 B5 _].
  pose proof (rep_holds _ _ Hr _ _ _ Hf Htf) as [F1 F2 F3 F4 F5 F6].
  assert (forall o1 b1 i, o1 <> o -> objects s !! o1 = Some b1 -> owned b1 = Some i -> owned b <> Some i) as Hown.
  { intros o1 b1 i Hn H1 Hi Hb. by apply Hn, (rep_unique _ _ Hr o1 o b1 b i). }
  assert (owned f = Some id) as Hof by (unfold owned; by rewrite Ep).
  assert (freed (blocks s) b !! id = blocks s !! id) as Hid by (eapply freed_other; eauto).
  split; cbn.
  - intros o1. destruct (decide (o1 = o)) as [->|H1]; [rewrite !lookup_insert_eq; split; by eexists|].
    destruct (decide (o1 = from)) as [->|H2]; [rewrite !(lookup_insert_ne _ o) by done; rewrite !lookup_insert_eq; split; by eexists|].
    rewrite !lookup_insert_ne by done. apply (rep_dom _ _ Hr).
  - intros o1 b1 t1. destruct (decide (o1 = o)) as [->|H1]; [|destruct (decide (o1 = from)) as [->|H2]].
    + rewrite !lookup_insert_eq. intros [= <-] [= <-]. constructor; cbn; try done.
      * rewrite Ep, Hid in *. done.
      * unfold storage in *. cbn. rewrite Ep in *. rewrite Hid. done.
    + rewrite !(lookup_insert_ne _ o) by done. rewrite !lookup_insert_eq. intros [= <-] [= <-].
      constructor; cbn; try done; try lia. unfold storage. cbn. apply slice_prefix. lia.
    + rewrite !lookup_insert_ne by done. intros Ho1 Ht1. apply holds_frame with (B := blocks s); [|by eapply rep_holds].
      intros i Hi. eapply freed_other; eauto.
  - intros o1 o2 b1 b2 i.
    assert (forall o' b', <[o := mkBuffer (static_size b) (size f) (max_size_ f) (p_ f) (a_ b)]>
      (<[from := mkBuffer (static_size f) 0 (static_size f) (Inplace from) (a_ f)]> (objects s)) !! o' = Some b' -> owned b' = Some i ->
      (o' = o /\ i = id) \/ (o' <> o /\ o' <> from /\ objects s !! o' = Some b')) as Hc.
    { intros o' b'. destruct (decide (o' = o)) as [->|H1]; [|destruct (decide (o' = from)) as [->|H2]].
      - rewrite lookup_insert_eq. intros [= <-]. unfold owned. cbn. rewrite Ep. intros [= <-]. by left.
      - rewrite lookup_insert_ne, lookup_insert_eq by done. by intros [= <-].
      - rewrite !lookup_insert_ne by done. intros H _. by right. }
    intros H1 H2 I1 I2. destruct (Hc _ _ H1 I1) as [[-> ->]|(N1 & N1' & E1)], (Hc _ _ H2 I2) as [[-> HH]|(N2 & N2' & E2)]; try done.
    + destruct N2'. by apply (rep_unique _ _ Hr o2 from b2 f id).
    + subst i. destruct N1'. by apply (rep_unique _ _ Hr o1 from b1 f id).
    + by apply (rep_unique _ _ Hr o1 o2 b1 b2 i).
  - intros i Hi. assert (owned b <> Some i) as Hbi.
    { intros Hb. unfold freed in Hi. rewrite Hb, lookup_delete_eq in Hi. by destruct Hi. }
    rewrite (freed_other s strings o b text) in Hi by done. destruct (rep_used _ _ Hr i Hi) as (o1 & b1 & Ho1 & Hi1).
    destruct (decide (o1 = from)) as [->|H2].
    + exists o. eexists. rewrite lookup_insert_eq. split; [done|]. assert (b1 = f) as -> by congruence. done.
    + exists o1, b1. rewrite !lookup_insert_ne; [done|congruence|congruence].
  - intros i Hi. apply (rep_next _ _ Hr). unfold freed in Hi. destruct (owned b); [|done].
    destruct Hi as [x Hx]. apply lookup_delete_Some in Hx as [_ Hx]. by exists x.
Qed.

(** What is left of the source of a move: nothing, or the text. *)
Definition moved (s : memory) (strings : gmap nat (list cell)) (o from : nat) (text : list cell) (s' : memory) : Prop :=
  exists rest, (rest = [] \/ rest = text) /\ represents s' (<[o := text]> (<[from := rest]> strings)).

Lemma steal_spec s strings o from b f text tf id :
  represents s strings -> o <> from -> objects s !! o = Some b -> strings !! o = Some text ->
  objects s !! from = Some f -> strings !! from = Some tf -> p_ f = Heap id ->
  achieves s (_ ← deallocate o; steal o from) (fun _ => moved s strings o from tf) (fun _ => False).
Proof.
  intros Hr Hne Ho Ht Hf Htf Ep. pose proof (rep_holds _ _ Hr _ _ _ Ho Ht) as Hb.
  pose proof (represents_steal s strings o from b f text tf id Hr Hne Ho Ht Hf Htf Ep) as Hs.
  unfold achieves. rewrite (stm_bind_run _ _ _ _ _ (deallocate_run _ _ _ _ Ho Hb)). unfold steal, freed, owned in *.
  destruct (p_ b) as [o'|i] eqn:Epb.
  - rewrite (stm_bind_run _ _ _ _ _ (object_run _ _ _ Hf)), (stm_bind_run _ _ _ _ _ (object_run _ _ _ Ho)).
    unfold set_object, modify, mbind, stm_bind, object, lift. cbn [objects blocks next_block].
    rewrite lookup_insert_ne, Ho by done. cbn [get_or_ub objects blocks next_block].
    exists []. split; [by left|done].
  - unfold set_object, modify, mbind, stm_bind, object, lift. cbn [objects blocks next_block].
    rewrite lookup_insert_ne, Hf by done. cbn [get_or_ub objects blocks next_block].
    rewrite lookup_insert_eq. cbn [get_or_ub objects blocks next_block].
    rewrite lookup_insert_ne, lookup_insert_eq by done. cbn [get_or_ub with_data static_size a_ objects blocks next_block].
    exists []. split; [by left|]. rewrite (insert_insert_ne _ from o), insert_insert_eq by done. done.
Qed.

Lemma copy_moved s strings o from b f text tf :
  represents s strings -> o <> from -> objects s !! o = Some b -> strings !! o = Some text ->
  objects s !! from = Some f -> strings !! from = Some tf ->
  achieves s (make_copy_of available o (contents_of from f)) (fun _ => moved s strings o from tf)
    (fun s' => s' = s /\ max_size_ b < size f).
Proof.
  intros Hr Hne Ho Ht Hf Htf. pose proof (rep_holds _ _ Hr _ _ _ Hf Htf) as Hb. pose proof (length_text _ _ _ _ Hb) as Hlen.
  eapply achieves_conseq; [apply (make_copy_of_spec s strings o text _ tf Hr Ht)| |intros s' [-> H]; by auto].
  - exists from, f, tf. split_and!; try done. rewrite slice_prefix by lia. rewrite firstn_all2; [done|lia].
  - intros u s' [_ Hr']. exists tf. split; [by right|]. by rewrite (insert_id strings from tf).
Qed.

Lemma assign_move_spec s strings o from text tf : represents s strings -> o <> from ->
  strings !! o = Some text -> strings !! from = Some tf ->
  achieves s (assign_move available o from) (fun _ => moved s strings o from tf) (fun s' => s' = s).
Proof.
  intros Hr Hne Ht Htf. destruct (rep_lookup _ _ _ _ Hr Ht) as (b & Ho & Hb).
  destruct (rep_lookup _ _ _ _ Hr Htf) as (f & Hf & Hfb). unfold assign_move, achieves.
  rewrite (stm_bind_run _ _ _ _ _ (object_run _ _ _ Hf)), (stm_bind_run _ _ _ _ _ (object_run _ _ _ Ho)).
  destruct (is_allocated from f && _) eqn:Ea.
  2: { eapply (achieves_conseq s); [by apply (copy_moved s strings o from b f text tf)|done|by intros s' [-> _]]. }
  apply andb_true_iff in Ea as [Ea _]. unfold is_allocated in Ea. apply bool_decide_eq_true in Ea.
  pose proof (ok_place _ _ _ _ Hfb) as Hp. destruct (p_ f) as [o'|id] eqn:Ep; [destruct Hp as [-> _]; done|].
  eapply (achieves_conseq s); [apply (steal_spec s strings o from b f text tf id); done|done|done].
Qed.

Lemma moved_fresh s strings o from tf s1 s' : from <> o ->
  moved s1 (<[o := []]> strings) o from tf s' -> moved s strings o from tf s'.
Proof.
  intros Hne (rest & Hrest & Hr). exists rest. split; [done|].
  by rewrite (insert_insert_ne _ from o), insert_insert_eq in Hr by done.
Qed.

(** Both move constructors, with what decides whether the block is taken. *)
(** Both move constructors, with what decides whether the block is taken. *)
Lemma construct_move_gen s strings o N from tf f (cond : bool) : represents s strings -> strings !! o = None ->
  strings !! from = Some tf -> objects s !! from = Some f -> 0 <= N <= available -> (cond = true -> is_allocated from f = true) ->
  achieves s (_ ← construct o N; if cond then steal o from else make_copy_of available o (contents_of from f))
    (fun _ => moved s strings o from tf) (fun _ => cond = false /\ N < size f).
Proof.
  intros Hr Hnone Htf Hf HN Hc. assert (from <> o) as Hne by (intros ->; congruence).
  pose proof (construct_spec s strings o N Hr Hnone HN) as Hs. unfold achieves in Hs.
  destruct (construct o N s) as [s1 [[]|e| |]] eqn:E1; try done. destruct Hs as [[b1 Ho1] Hr1].
  unfold achieves. rewrite (stm_bind_run _ _ _ _ _ E1). unfold construct, set_object, modify in E1. injection E1 as E1.
  assert (objects s1 !! o = Some (mkBuffer N 0 N (Inplace o) (blank N))) as Hob by (rewrite <- E1; apply lookup_insert_eq).
  assert (objects s1 !! from = Some f) as Hf1 by (by rewrite <- E1; cbn; rewrite lookup_insert_ne).
  assert (<[o := []]> strings !! from = Some tf) as Htf1 by (by rewrite lookup_insert_ne).
  pose proof (rep_holds _ _ Hr _ _ _ Hf Htf) as Hfb.
  destruct cond.
  - specialize (Hc eq_refl). unfold is_allocated in Hc. apply bool_decide_eq_true in Hc.
    pose proof (ok_place _ _ _ _ Hfb) as Hp. destruct (p_ f) as [o'|id] eqn:Ep; [destruct Hp as [-> _]; done|].
    pose proof (steal_spec s1 _ o from _ f [] tf id Hr1 ltac:(done) Hob ltac:(apply lookup_insert_eq) Hf1 Htf1 Ep) as H.
    unfold achieves in H.
    rewrite (stm_bind_run _ _ _ _ _ (deallocate_run _ _ _ _ Hob (rep_holds _ _ Hr1 _ _ _ Hob ltac:(apply lookup_insert_eq)))) in H.
    cbn [p_] in H. destruct (steal o from s1) as [s2 [[]|e| |]]; try done; [by eapply moved_fresh|by destruct H].
  - pose proof (copy_moved s1 _ o from _ f [] tf Hr1 ltac:(done) Hob ltac:(apply lookup_insert_eq) Hf1 Htf1) as H.
    unfold achieves in H. destruct (make_copy_of available o (contents_of from f) s1) as [s2 [[]|e| |]]; try done;
      [by eapply moved_fresh|]. destruct H as (-> & _ & H). done.
Qed.

Lemma construct_move_spec s strings o from tf : represents s strings -> strings !! o = None -> strings !! from = Some tf ->
  achieves s (construct_move available o from) (fun _ => moved s strings o from tf) (fun _ => False).
Proof.
  intros Hr Hnone Htf. destruct (rep_lookup _ _ _ _ Hr Htf) as (f & Hf & Hb). pose proof Hb as [H1 H2 H3 H4 Hp _].
  unfold construct_move, achieves. rewrite (stm_bind_run _ _ _ _ _ (object_run _ _ _ Hf)).
  eapply (achieves_conseq s); [apply (construct_move_gen s strings o (static_size f) from tf f (is_allocated from f)); done|done|].
  intros s' [Ha Hlt]. unfold is_allocated in Ha. apply bool_decide_eq_false in Ha. apply dec_stable in Ha. rewrite Ha in Hp. lia.
Qed.

Lemma construct_move_other_spec s strings o N from tf : represents s strings -> strings !! o = None ->
  strings !! from = Some tf -> 0 <= N <= available ->
  achieves s (construct_move_other available o N from) (fun _ => moved s strings o from tf) (fun _ => N < Z.of_nat (length tf)).
Proof.
  intros Hr Hnone Htf HN. destruct (rep_lookup _ _ _ _ Hr Htf) as (f & Hf & Hb).
  unfold construct_move_other, achieves. rewrite (stm_bind_run _ _ _ _ _ (object_run _ _ _ Hf)).
  eapply (achieves_conseq s); [apply (construct_move_gen s strings o N from tf f (is_allocated from f && (N <? size f)));
    try done; by intros [? _]%andb_true_iff|done|].
  intros s' [_ Hlt]. by rewrite (length_text _ _ _ _ Hb).
Qed.

(** ** Destruction *)

Lemma destroy_spec s strings o text : represents s strings -> strings !! o = Some text ->
  exists s', destroy o s = (s', Ok tt) /\ represents s' (delete o strings) /\
    objects s' = delete o (objects s) /\ (forall b, objects s !! o = Some b -> blocks s' = freed (blocks s) b) /\
    next_block s' = next_block s.
Proof.
  intros Hr Ht. destruct (rep_lookup _ _ _ _ Hr Ht) as (b & Ho & Hb).
  exists (mkMemory (delete o (objects s)) (freed (blocks s) b) (next_block s)). split_and!.
  - unfold destroy. rewrite (stm_bind_run _ _ _ _ _ (deallocate_run _ _ _ _ Ho Hb)). unfold modify, freed, owned.
    destruct (p_ b); [done|]. cbn. by rewrite delete_insert_eq.
  - split; cbn.
    + intros o1. destruct (decide (o1 = o)) as [->|Hne]; [rewrite !lookup_delete_eq; split; by intros []|].
      rewrite !lookup_delete_ne by done. apply (rep_dom _ _ Hr).
    + intros o1 b1 t1 [Hne Ho1]%lookup_delete_Some [_ Ht1]%lookup_delete_Some.
      apply holds_frame with (B := blocks s); [|by eapply rep_holds]. intros id Hid. eapply freed_other; eauto.
      intros Hbi. apply Hne. by apply (rep_unique _ _ Hr o o1 b b1 id).
    + intros o1 o2 b1 b2 id [_ H1]%lookup_delete_Some [_ H2]%lookup_delete_Some. by apply (rep_unique _ _ Hr).
    + intros id Hi. assert (owned b <> Some id) as Hbi.
      { intros Hbi. unfold freed in Hi. rewrite Hbi, lookup_delete_eq in Hi. by destruct Hi. }
      rewrite (freed_other s strings o b text) in Hi by done. destruct (rep_used _ _ Hr id Hi) as (o1 & b1 & Ho1 & Hi1).
      exists o1, b1. rewrite lookup_delete_ne; [done|congruence].
    + intros id Hi. apply (rep_next _ _ Hr). unfold freed in Hi. destruct (owned b); [|done].
      destruct Hi as [x Hx]. apply lookup_delete_Some in Hx as [_ Hx]. by exists x.
  - done.
  - intros b0 Hb0. cbn. congruence.
  - done.
Qed.

Lemma construct_concat_spec s strings o N args datas : represents s strings -> strings !! o = None -> 0 <= N <= available ->
  Forall2 (denotes s strings o) args datas -> total_length args < 2 ^ 64 ->
  achieves s (construct_concat available o N args) (fun _ => becomes s strings o (concat datas)) (fun s' => s' = s).
Proof.
  intros Hr Hnone HN Hargs Hlt. pose proof (construct_spec s strings o N Hr Hnone HN) as Hs. unfold achieves in Hs.
  destruct (construct o N s) as [s1 [[]|e| |]] eqn:E1; try done. pose proof Hs as [[b1 Ho1] Hr1].
  unfold achieves, construct_concat. rewrite (stm_bind_run _ _ _ _ _ E1).
  assert (Forall2 (denotes s1 (<[o := []]> strings) o) args datas) as Hargs1.
  { eapply Forall2_impl; [exact Hargs|]. intros x data Hx. destruct x as [c|p offset len]; [done|].
    destruct Hx as (o' & b' & t' & Hne & Ho' & Hp & Ht' & Hsl). exists o', b', t'. rewrite Ho1, !lookup_insert_ne by done. done. }
  pose proof (append_spec s1 (<[o := []]> strings) o [] args datas Hr1 ltac:(apply lookup_insert_eq) Hargs1 ltac:(cbn; lia)) as Ha.
  unfold achieves in Ha. unfold append_or_destroy. destruct (append available o args s1) as [s2 [[]|e| |]]; try done.
  - by eapply becomes_trans.
  - destruct Ha as [-> ->]. destruct (destroy_spec s1 _ o [] Hr1 ltac:(apply lookup_insert_eq)) as (s3 & Ed & _ & Ho3 & Hb3 & Hn3).
    rewrite (stm_bind_run _ _ _ _ _ Ed). split; [done|]. unfold construct, set_object, modify in E1. injection E1 as E1.
    assert (objects s !! o = None) as Hos.
    { apply eq_None_not_Some. intros H. apply (rep_dom _ _ Hr) in H as [x Hx]. congruence. }
    specialize (Hb3 (mkBuffer N 0 N (Inplace o) (blank N)) ltac:(rewrite <- E1; apply lookup_insert_eq)).
    destruct s3 as [O3 B3 n3]. cbn in *. subst. cbn. destruct s as [O B nx]. cbn in *. f_equal.
    rewrite delete_insert_id; [done|done].
Qed.

(** ** Programs *)

Definition text_of (strings : gmap nat (list cell)) (x : argument) : option (list cell) :=
  match x with
  | Text c => Some (Some <$> c)
  | Part from offset len => t ← strings !! from; slice t offset len
  end.

Definition outside (o : nat) (x : argument) : Prop :=
  match x with Text _ => True | Part from _ _ => from <> o end.

(** The arguments are parts of other buffers and fit into memory together with
    [n] characters. *)
Definition usable (strings : gmap nat (list cell)) (o : nat) (n : Z) (args : list argument) (datas : list (list cell)) : Prop :=
  Forall2 (fun x data => outside o x /\ text_of strings x = Some data) args datas /\
  n + Z.of_nat (length (concat datas)) < 2 ^ 64.

(** What an operation may be asked for. *)
Definition allowed (op : operation) (strings : gmap nat (list cell)) : Prop :=
  match op with
  | Construct o N => strings !! o = None /\ 0 <= N <= available
  | ConstructSize o N n => strings !! o = None /\ 0 <= N <= available /\ 0 <= n
  | ConstructStr o N _ => strings !! o = None /\ 0 <= N <= available
  | ConstructConcat o N args => strings !! o = None /\ 0 <= N <= available /\ exists datas, usable strings o 0 args datas
  | ConstructCopy o from | ConstructMove o from => strings !! o = None /\ is_Some (strings !! from)
  | ConstructMoveOther o N from => strings !! o = None /\ 0 <= N <= available /\ is_Some (strings !! from)
  | AssignCopy o from => is_Some (strings !! o) /\ is_Some (strings !! from)
  | AssignStr o x => is_Some (strings !! o) /\ outside o x /\ is_Some (text_of strings x)
  | AssignMove o from => is_Some (strings !! o) /\ is_Some (strings !! from) /\ o <> from
  | Append o args => exists text datas, strings !! o = Some text /\ usable strings o (Z.of_nat (length text)) args datas
  | Resize o n | LossyResize o n => is_Some (strings !! o) /\ 0 <= n
  | SetChar o i _ => exists text, strings !! o = Some text /\ 0 <= i < Z.of_nat (length text)
  | Clear o | ToCstr o | Destroy o => is_Some (strings !! o)
  end.

(** What it does to the strings. *)
Definition result (op : operation) (strings strings' : gmap nat (list cell)) : Prop :=
  match op with
  | Construct o _ | Clear o => strings' = <[o := []]> strings
  | ConstructSize o _ n | LossyResize o n =>
      exists text, Z.of_nat (length text) = n /\ strings' = <[o := text]> strings
  | ConstructStr o _ c => strings' = <[o := Some <$> c]> strings
  | ConstructConcat o _ args =>
      exists datas, mapM (text_of strings) args = Some datas /\ strings' = <[o := concat datas]> strings
  | ConstructCopy o from | AssignCopy o from =>
      exists text, strings !! from = Some text /\ strings' = <[o := text]> strings
  | ConstructMove o from | ConstructMoveOther o _ from | AssignMove o from =>
      exists text rest, strings !! from = Some text /\ (rest = [] \/ rest = text) /\
        strings' = <[o := text]> (<[from := rest]> strings)
  | AssignStr o x => exists text, text_of strings x = Some text /\ strings' = <[o := text]> strings
  | Append o args =>
      exists text datas, strings !! o = Some text /\ mapM (text_of strings) args = Some datas /\
        strings' = <[o := text ++ concat datas]> strings
  | Resize o n =>
      exists text text', strings !! o = Some text /\ Z.of_nat (length text') = n /\
        take (length text) text' = take (Z.to_nat n) text /\ strings' = <[o := text']> strings
  | SetChar o i c =>
      exists text, strings !! o = Some text /\ strings' = <[o := <[Z.to_nat i := Some c]> text]> strings
  | ToCstr o => strings' = strings
  | Destroy o => strings' = delete o strings
  end.

(** Operations that, short of memory, leave the object in disorder or end the
    program. *)
Definition unsafe_without_memory (op : operation) : bool :=
  match op with LossyResize _ _ | ConstructMoveOther _ _ _ => true | _ => false end.

Lemma source_of_run s strings o x data : represents s strings -> outside o x -> text_of strings x = Some data ->
  exists y, source_of x s = (s, Ok y) /\ denotes s strings o y data.
Proof.
  intros Hr Ho Hx. destruct x as [c|from offset len]; cbn in *; [exists (Chars c); split; [done|congruence]|].
  destruct (strings !! from) as [t|] eqn:Et; [|done]. cbn in Hx. destruct (rep_lookup _ _ _ _ Hr Et) as (f & Hf & Hb).
  exists (View (p_ f) offset len). split; [by rewrite (stm_bind_run _ _ _ _ _ (object_run _ _ _ Hf))|].
  by exists from, f, t.
Qed.

Lemma sources_of_run s strings o args datas : represents s strings ->
  Forall2 (fun x data => outside o x /\ text_of strings x = Some data) args datas ->
  exists l, sources_of args s = (s, Ok l) /\ Forall2 (denotes s strings o) l datas.
Proof.
  intros Hr. induction 1 as [|x data args datas [Ho Hx] H IH]; [by exists []|].
  destruct (source_of_run _ _ _ _ _ Hr Ho Hx) as (y & Ey & Hy). destruct IH as (l & El & Hl).
  exists (y :: l). cbn [sources_of]. rewrite (stm_bind_run _ _ _ _ _ Ey), (stm_bind_run _ _ _ _ _ El).
  split; [done|]. by constructor.
Qed.

Lemma usable_mapM strings o n args datas : usable strings o n args datas -> mapM (text_of strings) args = Some datas.
Proof. intros [H _]. apply mapM_Some_2. eapply Forall2_impl; [exact H|]. by intros x data [_ ?]. Qed.

Lemma achieves_sources s strings o n args datas (k : list source -> M unit) Q E : represents s strings ->
  usable strings o n args datas ->
  (forall l, Forall2 (denotes s strings o) l datas -> n + total_length l < 2 ^ 64 -> achieves s (k l) Q E) ->
  achieves s (l ← sources_of args; k l) Q E.
Proof.
  intros Hr [Hargs Hlt] Hk. destruct (sources_of_run _ _ _ _ _ Hr Hargs) as (l & El & Hl). unfold achieves.
  rewrite (stm_bind_run _ _ _ _ _ El). apply Hk; [done|]. by rewrite (total_length_nonneg _ _ _ _ _ Hl).
Qed.

(** From a specification of one operation to the theorem. *)
Lemma operation_done (op : operation) s strings (Q : unit -> memory -> Prop) (E : memory -> Prop) :
  achieves s (run_operation available op) Q E ->
  (forall u s', Q u s' -> exists strings', result op strings strings' /\ represents s' strings') ->
  (forall s', E s' -> unsafe_without_memory op = true \/ s' = s) ->
  achieves s (run_operation available op) (fun _ s' => exists strings', result op strings strings' /\ represents s' strings')
    (fun s' => unsafe_without_memory op = true \/ s' = s).
Proof. intros H HQ HE. eapply achieves_conseq; [exact H|exact HQ|exact HE]. Qed.

Lemma becomes_result s strings o text s' (P : gmap nat (list cell) -> Prop) : becomes s strings o text s' ->
  P (<[o := text]> strings) -> exists strings', P strings' /\ represents s' strings'.
Proof. intros [_ Hr] HP. by exists (<[o := text]> strings). Qed.

Lemma moved_result s strings o from text s' : strings !! from = Some text -> moved s strings o from text s' ->
  exists strings', (exists t rest, strings !! from = Some t /\ (rest = [] \/ rest = t) /\
    strings' = <[o := t]> (<[from := rest]> strings)) /\ represents s' strings'.
Proof. intros Ht (rest & Hrest & Hr). eexists. split; [|exact Hr]. by exists text, rest. Qed.

Lemma assign_copy_spec s strings o from text tf : represents s strings -> strings !! o = Some text ->
  strings !! from = Some tf ->
  achieves s (assign_copy available o from) (fun _ => becomes s strings o tf) (fun s' => s' = s).
Proof.
  intros Hr Ht Hf. unfold assign_copy. case_bool_decide as E.
  - subst. eapply achieves_run; [done|]. destruct (rep_lookup _ _ _ _ Hr Hf) as (b & Ho & _). split.
    + exists b. by rewrite insert_id.
    + by rewrite insert_id.
  - destruct (rep_lookup _ _ _ _ Hr Hf) as (f & Hof & Hb). unfold achieves. rewrite (stm_bind_run _ _ _ _ _ (object_run _ _ _ Hof)).
    eapply (achieves_conseq s); [apply (make_copy_of_spec s strings o text _ tf Hr Ht)|done|by intros s' [-> _]].
    pose proof (length_text _ _ _ _ Hb). exists from, f, tf. split_and!; try done. rewrite slice_prefix by lia.
    rewrite firstn_all2; [done|lia].
Qed.

Lemma assign_str_spec s strings o x text data : represents s strings -> strings !! o = Some text -> outside o x ->
  text_of strings x = Some data ->
  achieves s (y ← source_of x; assign_str available o y) (fun _ => becomes s strings o data) (fun s' => s' = s).
Proof.
  intros Hr Ht Ho Hx. destruct (source_of_run _ _ _ _ _ Hr Ho Hx) as (y & Ey & Hy). unfold achieves.
  rewrite (stm_bind_run _ _ _ _ _ Ey).
  eapply (achieves_conseq s); [by apply (make_copy_of_spec s strings o text y data)|done|by intros s' [-> _]].
Qed.

Lemma to_cstr_unit_spec s strings o text : represents s strings -> strings !! o = Some text ->
  achieves s (_ ← to_cstr available o; mret tt) (fun _ => becomes s strings o text) (fun s' => s' = s).
Proof.
  intros Hr Ht. eapply achieves_bind; [by apply (to_cstr_spec s strings o text)|]. intros view s' (_ & Hb & _).
  by eapply achieves_run.
Qed.

Ltac by_spec spec :=
  eapply operation_done; [exact spec| |intros ? ?; cbn [unsafe_without_memory]; first [by left | by right | done]];
  cbn [result].

Lemma run_operation_spec op s strings : represents s strings -> allowed op strings ->
  achieves s (run_operation available op) (fun _ s' => exists strings', result op strings strings' /\ represents s' strings')
    (fun s' => unsafe_without_memory op = true \/ s' = s).
Proof.
  intros Hr Ha. destruct op as [o N|o N n|o N c|o N args|o from|o from|o N from|o from|o x|o from|o args|o n|o n|o|o i c|o|o];
    cbn [allowed] in Ha.
  - destruct Ha as [Hn HN]. by_spec (construct_spec s strings o N Hr Hn HN).
    intros u s' H. by eapply becomes_result.
  - destruct Ha as (Hn & HN & H0). by_spec (construct_size_spec s strings o N n Hr Hn HN H0).
    intros u s' (b' & t' & Ho' & _ & Hl & Hr'). eexists. split; [|exact Hr']. by exists t'.
  - destruct Ha as [Hn HN]. by_spec (construct_str_spec s strings o N c Hr Hn HN).
    intros u s' H. by eapply becomes_result.
  - destruct Ha as (Hn & HN & datas & Hu). by_spec (achieves_sources s strings o 0 args datas _ _ _ Hr Hu
      (fun l Hl Hlt => construct_concat_spec s strings o N l datas Hr Hn HN Hl Hlt)).
    intros u s' H. eapply becomes_result; [exact H|]. exists datas. split; [by eapply usable_mapM|done].
  - destruct Ha as [Hn [t Ht]]. by_spec (construct_copy_spec s strings o from t Hr Hn Ht).
    intros u s' H. eapply becomes_result; [exact H|]. by exists t.
  - destruct Ha as [Hn [t Ht]]. by_spec (construct_move_spec s strings o from t Hr Hn Ht).
    intros u s' H. by eapply moved_result.
  - destruct Ha as (Hn & HN & t & Ht). by_spec (construct_move_other_spec s strings o N from t Hr Hn Ht HN).
    intros u s' H. by eapply moved_result.
  - destruct Ha as [[t Ht] [tf Hf]]. by_spec (assign_copy_spec s strings o from t tf Hr Ht Hf).
    intros u s' H. eapply becomes_result; [exact H|]. by exists tf.
  - destruct Ha as ([t Ht] & Ho & [data Hx]). by_spec (assign_str_spec s strings o x t data Hr Ht Ho Hx).
    intros u s' H. eapply becomes_result; [exact H|]. by exists data.
  - destruct Ha as ([t Ht] & [tf Hf] & Hne). by_spec (assign_move_spec s strings o from t tf Hr Hne Ht Hf).
    intros u s' H. by eapply moved_result.
  - destruct Ha as (text & datas & Ht & Hu). by_spec (achieves_sources s strings o _ args datas _ _ _ Hr Hu
      (fun l Hl Hlt => append_spec s strings o text l datas Hr Ht Hl Hlt)).
    intros u s' H. eapply becomes_result; [exact H|]. exists text, datas. split_and!; [done|by eapply usable_mapM|done].
  - destruct Ha as [[t Ht] Hn]. by_spec (resize_spec s strings o t n Hr Ht Hn).
    intros u s' (b' & t' & _ & _ & Hl & Htk & Hr'). eexists. split; [|exact Hr']. by exists t, t'.
  - destruct Ha as [[t Ht] Hn]. by_spec (lossy_resize_spec s strings o t n Hr Ht Hn).
    intros u s' (t' & Hl & H). eapply becomes_result; [exact H|]. by exists t'.
  - destruct Ha as [t Ht]. by_spec (size_spec s strings o t 0 Hr Ht ltac:(lia)).
    intros u s' H. by eapply becomes_result.
  - destruct Ha as (t & Ht & Hi). by_spec (set_char_spec s strings o t i c Hr Ht Hi).
    intros u s' H. eapply becomes_result; [exact H|]. by exists t.
  - destruct Ha as [t Ht]. by_spec (to_cstr_unit_spec s strings o t Hr Ht).
    intros u s' [_ Hr']. rewrite insert_id in Hr' by done. by exists strings.
  - destruct Ha as [t Ht]. destruct (destroy_spec s strings o t Hr Ht) as (s' & Ed & Hr' & _).
    eapply achieves_run; [exact Ed|]. by eexists.
Qed.

Lemma represents_empty s : represents s ∅ -> blocks s = ∅.
Proof.
  intros Hr. apply map_empty. intros id. destruct (blocks s !! id) as [l|] eqn:E; [|done].
  destruct (rep_used _ _ Hr id) as (o & b & Ho & _); [by exists l|]. destruct (proj1 (rep_dom _ _ Hr o)) as [t Ht]; [by exists b|].
  by rewrite lookup_empty in Ht.
Qed.

Definition no_memory_used : memory := mkMemory ∅ ∅ 0.

Lemma represents_start : represents no_memory_used ∅.
Proof.
  split; cbn; try (intros *; rewrite ?lookup_empty; by try intros []).
Qed.

End Proofs.



(** ** Uses that go wrong *)

(** Appending a buffer to itself when it has to grow reads the deleted block. *)
Theorem append_to_itself_dangles :
  ((_ ← construct_str 100 0 4 (lit "abcdefgh"); run_operation 100 (Append 0 [Part 0 0 8])) no_memory_used).2 = UB.
Proof. vm_compute. reflexivity. Qed.

(** [lossy_resize] deletes the block before it asks for the next one and keeps the
    size: when there is no memory, what is left reads past the object's array. *)
Theorem lossy_resize_overreads :
  match (_ ← construct_str 20 0 4 (lit "abcdefgh"); run_operation 20 (LossyResize 0 30)) no_memory_used with
  | (s, r) => r = Throw bad_alloc /\ (to_string 0 s).2 = UB
  end.
Proof. vm_compute. done. Qed.

(** Moving a buffer to itself deletes its block and keeps its size. *)
Theorem self_move_loses_block :
  match (_ ← construct_str 100 0 4 (lit "abcdefgh"); run_operation 100 (AssignMove 0 0)) no_memory_used with
  | (s, r) => r = Ok tt /\ (to_string 0 s).2 = UB
  end.
Proof. vm_compute. done. Qed.
