(* ===== verification/InplaceArray.v ===== *)
(** * Arrays with an in-place part

    [inplace_array.hh].  A cell of the storage holds an object or is raw ([None]);
    moving or copying from a raw cell, assigning to it and destroying it are
    undefined.  The elements are of a type with a default constructor.  The move
    assignments call an overload of [assign] that does not exist, and
    [operator=(const InplaceArray&)] calls one of them, so that using them does not
    compile; they are left out. *)

From S2P Require Import Prelude.
Local Open Scope nat_scope.

(** [p_]: the in-place storage, a block, or whatever was in memory. *)
Inductive pointer := InPlace | Allocated | Uninitialised.

Record array (T : Type) := mkArray { inplace : nat; size_ : nat; max_size_ : nat; p_ : pointer; cells : list (option T) }.
Arguments mkArray {T}.
Arguments inplace {T}.
Arguments size_ {T}.
Arguments max_size_ {T}.
Arguments p_ {T}.
Arguments cells {T}.

Section Array.
Context {T : Type} (default : T).
Abbreviation arr := (array T).

Definition raw (n : nat) : list (option T) := replicate n None.

(** The objects in a range of cells; all of them must be there. *)
Definition objects (n : nat) (cs : list (option T)) : outcome (list T) := get_or_ub (mapM id (take n cs)).

(** Constructs objects in the first cells. *)
Definition construct (vs : list T) (cs : list (option T)) : list (option T) := (Some <$> vs) ++ drop (length vs) cs.

(** [begin()] of an object whose pointer was not set. *)
Definition check_pointer (a : arr) : outcome unit := match p_ a with Uninitialised => UB | _ => Ok tt end.

Definition destruct_and_deallocate (a : arr) : outcome unit :=
  _ ← check_pointer a; _ ← objects (size_ a) (cells a); Ok tt.

Definition block_for (N n : nat) : pointer := if N <? n then Allocated else InPlace.

Definition new_empty (N : nat) : arr := mkArray N 0 N InPlace (raw N).
Definition new_size (N n : nat) : arr :=
  mkArray N n (max n N) (block_for N n) (construct (replicate n default) (raw (max n N))).
Definition new_fill (N n : nat) (val : T) : arr := mkArray N n (max n N) (block_for N n) (construct (replicate n val) (raw (max n N))).

Definition new_copy (N : nat) (a : arr) : outcome arr :=
  _ ← check_pointer a;
  vs ← objects (size_ a) (cells a);
  Ok (mkArray N (size_ a) (max (size_ a) N) (block_for N (size_ a)) (construct vs (raw (max (size_ a) N)))).

(** The new object and what is left of [a].  [p_] is not set for few elements;
    elements that are moved stay, so do their cells. *)
Definition new_moved (N : nat) (a : arr) : outcome (arr * arr) :=
  _ ← check_pointer a;
  if size_ a <=? N then
    if size_ a =? 0 then Ok (mkArray N 0 N Uninitialised (raw N), mkArray (inplace a) 0 (max_size_ a) (p_ a) (cells a)) else UB
  else match p_ a with
       | Allocated => Ok (mkArray N (size_ a) (max (size_ a) N) Allocated (take (max (size_ a) N) (cells a)),
           mkArray (inplace a) 0 (inplace a) InPlace (raw (inplace a)))
       | _ => vs ← objects (size_ a) (cells a);
              Ok (mkArray N (size_ a) (max (size_ a) N) Allocated (construct vs (raw (max (size_ a) N))),
                  mkArray (inplace a) 0 (max_size_ a) (p_ a) (cells a))
       end.

(** [operator=] for an array with another in-place size. *)
Definition assign_copy (self a : arr) : outcome arr :=
  _ ← check_pointer a;
  let N := inplace self in
  if size_ a <=? N then
    _ ← destruct_and_deallocate self;
    vs ← objects (size_ a) (cells a);
    Ok (mkArray N (size_ a) N InPlace (construct vs (raw N)))
  else if size_ a <=? size_ self then
    _ ← check_pointer self;
    _ ← objects (size_ self) (cells self);
    vs ← objects (size_ a) (cells a);
    Ok (mkArray N (size_ a) (max_size_ self) (p_ self) (construct (vs) (take (size_ a) (cells self) ++ replicate (size_ self - size_ a) None ++ drop (size_ self) (cells self))))
  else
    _ ← destruct_and_deallocate self;
    vs ← objects (size_ a) (cells a);
    Ok (mkArray N (size_ a) (size_ a) Allocated (construct vs (raw (size_ a)))).

(** The objects in the old storage are not destroyed. *)
Definition lossy_reserve_for (n : nat) (a : arr) : outcome arr :=
  if max_size_ a <? n then
    _ ← check_pointer a;
    let new_max_size := max (2 * max_size_ a) n in
    Ok (mkArray (inplace a) 0 new_max_size Allocated (raw new_max_size))
  else Ok a.

(** The elements are moved from the new storage to the old one. *)
Definition reserve_for (n : nat) (a : arr) : outcome arr :=
  if max_size_ a <? n then
    _ ← check_pointer a;
    let new_max_size := max (2 * max_size_ a) n in
    let new_p := raw new_max_size in
    _ ← objects (size_ a) new_p;
    Ok (mkArray (inplace a) (size_ a) new_max_size Allocated new_p)
  else Ok a.

(** All elements are constructed, also those there were. *)
Definition resize (n : nat) (a : arr) : outcome arr :=
  a ← reserve_for n a;
  _ ← check_pointer a;
  Ok (mkArray (inplace a) n (max_size_ a) (p_ a) (construct (replicate n default) (cells a))).

(** [size_] stays. *)
Definition resize_val (n : nat) (val : T) (a : arr) : outcome arr :=
  a ← reserve_for n a;
  _ ← check_pointer a;
  vs ← objects (size_ a) (cells a);
  Ok (mkArray (inplace a) (size_ a) (max_size_ a) (p_ a)
    (if n <? size_ a then take n (cells a) ++ replicate (size_ a - n) None ++ drop (size_ a) (cells a)
     else construct (vs ++ replicate (n - size_ a) val) (cells a))).

Definition emplace_back (val : T) (a : arr) : outcome arr :=
  a ← reserve_for (size_ a + 1) a;
  _ ← check_pointer a;
  Ok (mkArray (inplace a) (size_ a + 1) (max_size_ a) (p_ a) (<[size_ a := Some val]> (cells a))).

Definition clear (a : arr) : arr := mkArray (inplace a) 0 (max_size_ a) (p_ a) (cells a).

(** ** What holds *)

(** [a] holds the elements [vs]. *)
Definition holds_elements (vs : list T) (a : arr) : Prop :=
  p_ a <> Uninitialised /\ size_ a = length vs /\ length (cells a) = max_size_ a /\ inplace a <= max_size_ a /\
  exists rest, cells a = (Some <$> vs) ++ rest.

Lemma mapM_objects (vs : list T) : mapM id (Some <$> vs) = Some vs.
Proof. induction vs as [|v vs IH]; [done|]. cbn in *. by rewrite IH. Qed.

Lemma objects_holds vs a : holds_elements vs a -> objects (size_ a) (cells a) = Ok vs.
Proof.
  intros (_ & Hs & _ & _ & rest & Hc). unfold objects. rewrite Hc, Hs, take_app_length' by by rewrite length_fmap.
  by rewrite mapM_objects.
Qed.

Lemma check_holds vs a : holds_elements vs a -> check_pointer a = Ok tt.
Proof. intros (H & _). unfold check_pointer. by destruct (p_ a). Qed.

Lemma objects_raw n m : 0 < n <= m -> objects n (raw m) = UB.
Proof. intros [Hn Hm]. destruct n as [|n]; [lia|]. destruct m as [|m]; [lia|]. done. Qed.

Lemma length_construct vs cs : length vs <= length cs -> length (construct vs cs) = length cs.
Proof. intros H. unfold construct. rewrite length_app, length_fmap, length_drop. lia. Qed.

Lemma block_for_set N n : block_for N n <> Uninitialised.
Proof. unfold block_for. by destruct (N <? n). Qed.

(** What the constructors make. *)
Lemma constructed_holds N vs : holds_elements vs
  (mkArray N (length vs) (max (length vs) N) (block_for N (length vs)) (construct vs (raw (max (length vs) N)))).
Proof.
  split_and!; cbn; [apply block_for_set|done| |lia|].
  - rewrite length_construct; unfold raw; rewrite length_replicate; lia.
  - by eexists.
Qed.

Lemma new_fill_holds N n val : holds_elements (replicate n val) (new_fill N n val).
Proof. unfold new_fill. pose proof (constructed_holds N (replicate n val)) as H. by rewrite length_replicate in H. Qed.

Lemma new_copy_holds N vs a : holds_elements vs a -> exists a', new_copy N a = Ok a' /\ holds_elements vs a'.
Proof.
  intros H. unfold new_copy. rewrite (check_holds _ _ H). cbn. rewrite (objects_holds _ _ H). cbn. eexists. split; [done|].
  destruct H as (_ & -> & _). apply constructed_holds.
Qed.

Lemma destructor_holds vs a : holds_elements vs a -> destruct_and_deallocate a = Ok tt.
Proof. intros H. unfold destruct_and_deallocate. rewrite (check_holds _ _ H). cbn. by rewrite (objects_holds _ _ H). Qed.

Lemma assign_copy_holds us vs self a : holds_elements us self -> holds_elements vs a ->
  exists a', assign_copy self a = Ok a' /\ holds_elements vs a'.
Proof.
  intros Hu Hv. unfold assign_copy. rewrite (check_holds _ _ Hu), (check_holds _ _ Hv), (destructor_holds _ _ Hu), (objects_holds _ _ Hu), (objects_holds _ _ Hv).
  destruct Hu as (U1 & -> & U3 & U4 & r & U5), Hv as (_ & -> & _). cbn [mbind outcome_bind].
  destruct (Nat.leb_spec (length vs) (inplace self)) as [H|H]; [|destruct (Nat.leb_spec (length vs) (length us))]; (eexists; split; [done|]);
    (split_and!; cbn; [done|done| | |by eexists]); try lia.
  - rewrite length_construct; unfold raw; rewrite length_replicate; lia.
  - rewrite U5, length_app, length_fmap in U3. rewrite length_construct; rewrite !length_app, length_take, length_replicate, length_drop, U5, length_app, length_fmap; lia.
  - rewrite length_construct; unfold raw; rewrite length_replicate; lia.
Qed.

Lemma emplace_back_room vs v a : holds_elements vs a -> length vs < max_size_ a ->
  exists a', emplace_back v a = Ok a' /\ holds_elements (vs ++ [v]) a' /\ max_size_ a' = max_size_ a.
Proof.
  intros H Hl. pose proof (check_holds _ _ H) as Hp. destruct H as (H1 & H2 & H3 & H4 & rest & H5). unfold emplace_back, reserve_for.
  destruct (Nat.ltb_spec (max_size_ a) (size_ a + 1)); [lia|]. cbn. rewrite Hp. cbn. eexists. split; [done|]. split; [|done].
  split_and!; cbn; [done|rewrite length_app; cbn; lia|by rewrite length_insert|done|].
  assert (exists x rest', rest = x :: rest') as (x & rest' & ->).
  { destruct rest; [|eauto]. rewrite H5, app_nil_r, length_fmap in H3. lia. }
  exists rest'. rewrite H5, H2, fmap_app, <-app_assoc. rewrite insert_app_r_alt by by rewrite length_fmap.
  rewrite length_fmap, Nat.sub_diag. done.
Qed.

(** A full array is moved from storage that holds nothing. *)
Lemma emplace_back_full vs v a : holds_elements vs a -> vs <> [] -> max_size_ a = length vs -> emplace_back v a = UB.
Proof.
  intros H Hn Hm. pose proof (check_holds _ _ H) as Hp. destruct H as (H1 & H2 & _). unfold emplace_back, reserve_for.
  destruct (Nat.ltb_spec (max_size_ a) (size_ a + 1)); [|lia]. rewrite Hp. cbn [mbind outcome_bind].
  rewrite objects_raw; [done|]. destruct vs; [done|]. cbn in *. lia.
Qed.

Fixpoint emplace_all (vs : list T) (a : arr) : outcome arr :=
  match vs with [] => Ok a | v :: vs' => a ← emplace_back v a; emplace_all vs' a end.

(** Elements can be appended up to the in-place size and no further. *)
Theorem emplace_back_capacity N vs : 0 < N ->
  if length vs <=? N then exists a, emplace_all vs (new_empty N) = Ok a /\ holds_elements vs a else emplace_all vs (new_empty N) = UB.
Proof.
  intros HN. cut (forall ws us a, holds_elements us a -> max_size_ a = N -> length us <= N ->
    if length us + length ws <=? N then exists a', emplace_all ws a = Ok a' /\ holds_elements (us ++ ws) a' else emplace_all ws a = UB).
  { intros H. apply (H vs [] (new_empty N)); [|done|cbn; lia]. split_and!; cbn; [done|done|apply length_replicate|done|by eexists]. }
  induction ws as [|v ws IH]; intros us a Ha Hm Hl; cbn [length emplace_all].
  - destruct (Nat.leb_spec (length us + 0) N); [|lia]. exists a. by rewrite app_nil_r.
  - destruct (decide (length us < N)) as [Hlt|Hge].
    + destruct (emplace_back_room us v a Ha ltac:(lia)) as (a' & -> & Ha' & Hm'). cbn.
      specialize (IH (us ++ [v]) a' Ha' ltac:(lia)). rewrite length_app in IH. cbn in IH. specialize (IH ltac:(lia)).
      replace (length us + S (length ws)) with (length us + 1 + length ws) by lia. by rewrite <-app_assoc in IH.
    + destruct (Nat.leb_spec (length us + S (length ws)) N); [lia|].
      rewrite (emplace_back_full us v a Ha); [done|by intros ->; cbn in *; lia|lia].
Qed.

(** ** What does not *)

Lemma resize_val_keeps_size n val a a' : resize_val n val a = Ok a' -> size_ a' = size_ a.
Proof.
  unfold resize_val, reserve_for. destruct (max_size_ a <? n); intros H; repeat (case_match; simplify_eq/=; try done).
  all: unfold mbind, outcome_bind in H; repeat (case_match; simplify_eq/=; try done).
Qed.

Lemma resize_overwrites n vs a : holds_elements vs a -> n <= max_size_ a ->
  exists a', resize n a = Ok a' /\ take n (cells a') = replicate n (Some default).
Proof.
  intros H Hn. unfold resize, reserve_for. destruct (Nat.ltb_spec (max_size_ a) n); [lia|]. cbn. rewrite (check_holds _ _ H). cbn.
  eexists. split; [done|]. cbn. unfold construct. rewrite take_app_length' by by rewrite length_fmap, length_replicate. by rewrite fmap_replicate.
Qed.

Lemma move_of_few_elements N vs a : holds_elements vs a -> vs <> [] -> length vs <= N -> new_moved N a = UB.
Proof.
  intros H Hn Hl. unfold new_moved. rewrite (check_holds _ _ H). destruct H as (_ & -> & _). cbn [mbind outcome_bind].
  destruct (Nat.leb_spec (length vs) N); [|lia]. by destruct vs.
Qed.
End Array.
