(* ===== verification/AhoCorasick.v ===== *)
(** * The Aho-Corasick automaton

    Models [include/simlib/aho_corasick.hh] and [src/aho_corasick.cc]: a trie of
    the patterns whose nodes live in one vector and refer to each other by index,
    the fail edges built by a breadth-first walk, and the search of all patterns
    in a text at once. *)

From Stdlib Require Import ZArith Lia Ascii Sorted.
From stdpp Require Import sorting.
From S2P Require Import Prelude.
Local Open Scope nat_scope.

(** ** The automaton *)

Record Node := mkNode { patt_id : Z; fail : nat; next_pattern : nat; sons : list (ascii * nat) }.

Definition empty_node : Node := mkNode 0 0 0 [].

(** The member [nodes]; a new automaton has the root only. *)
Abbreviation AhoCorasick := (list Node).
Definition new_automaton : AhoCorasick := [empty_node].

(** Conversion of a size to [uint]. *)
Definition to_uint (n : nat) : nat := Z.to_nat (Z.of_nat n mod 2 ^ 32).

(** The binary search that [Node::operator[]] and [son] begin with: the son, or
    the position at which the loop ended.  The sons have different characters,
    so that their number and [beg + end] fit [uint]. *)
Fixpoint search_sons (fuel : nat) (l : list (ascii * nat)) (c : ascii) (beg end_ : nat) : outcome (nat + nat) :=
  match fuel with
  | 0 => NoFuel
  | S fuel' =>
      if beg <? end_ then
        let mid := (beg + end_) / 2 in
        p ← get_or_ub (l !! mid);
        if c <c p.1 then search_sons fuel' l c beg mid
        else if c =c p.1 then Ok (inl p.2)
        else search_sons fuel' l c (mid + 1) end_
      else Ok (inr beg)
  end.

Definition find_son (l : list (ascii * nat)) (c : ascii) : outcome (nat + nat) :=
  search_sons (S (length l)) l c 0 (length l).

(** [Node::operator[]] *)
Definition node_at (n : Node) (c : ascii) : outcome nat :=
  r ← find_son (sons n) c;
  match r with
  | inl v => Ok v
  | inr beg =>
      if beg =? length (sons n) then Ok 0
      else
        p ← get_or_ub (sons n !! beg);
        if negb (p.1 =c c) then Ok 0 else Ok p.2
  end.

(** [nodes[i]], read and written. *)
Definition node (i : nat) (ac : AhoCorasick) : outcome Node := get_or_ub (ac !! i).
Definition read_node (i : nat) : stm AhoCorasick Node := fun ac => (ac, node i ac).
Definition update_node (i : nat) (f : Node -> Node) : stm AhoCorasick unit :=
  n ← read_node i;
  modify (fun ac => <[i := f n]> ac).

Definition set_patt_id (id : Z) (n : Node) : Node := mkNode id (fail n) (next_pattern n) (sons n).
Definition set_fail (x : nat) (n : Node) : Node := mkNode (patt_id n) x (next_pattern n) (sons n).
Definition set_next_pattern (x : nat) (n : Node) : Node := mkNode (patt_id n) (fail n) x (sons n).
Definition insert_son (pos : nat) (p : ascii * nat) (n : Node) : Node :=
  mkNode (patt_id n) (fail n) (next_pattern n) (take pos (sons n) ++ p :: drop pos (sons n)).

Definition son (id : nat) (c : ascii) : stm AhoCorasick nat :=
  n ← read_node id;
  r ← lift (find_son (sons n) c);
  let create beg :=
    _ ← modify (fun ac => ac ++ [empty_node]);
    j ← gets (fun ac => to_uint (length ac - 1));
    _ ← update_node id (insert_son beg (c, j));
    mret j in
  match r with
  | inl v => mret v
  | inr beg =>
      if beg =? length (sons n) then create beg
      else
        p ← lift (get_or_ub (sons n !! beg));
        if negb (p.1 =c c) then create beg else mret p.2
  end.

Fixpoint walk_pattern (curr : nat) (patt : str) : stm AhoCorasick nat :=
  match patt with
  | [] => mret curr
  | c :: patt' => curr ← son curr c; walk_pattern curr patt'
  end.

Definition add_pattern (patt : str) (id : Z) : stm AhoCorasick unit :=
  curr ← walk_pattern 0 patt;
  update_node curr (set_patt_id id).

Fixpoint find_node_loop (ac : AhoCorasick) (x : nat) (s : str) : outcome nat :=
  match s with
  | [] => Ok x
  | c :: s' =>
      n ← node x ac;
      x ← node_at n c;
      if x =? 0 then Ok 0 else find_node_loop ac x s'
  end.

Definition find_node (s : str) (ac : AhoCorasick) : outcome nat := find_node_loop ac 0 s.

Definition pattern_id (node_id : nat) (ac : AhoCorasick) : outcome Z := patt_id <$> node node_id ac.
Definition next_pattern_of (node_id : nat) (ac : AhoCorasick) : outcome nat := next_pattern <$> node node_id ac.

(** [while ((x = nodes[v][c]) == 0 && v) v = nodes[v].fail;], with the last
    [x]. *)
Fixpoint follow_fail (fuel : nat) (ac : AhoCorasick) (c : ascii) (v : nat) : outcome nat :=
  match fuel with
  | 0 => NoFuel
  | S fuel' =>
      n ← node v ac;
      x ← node_at n c;
      if (x =? 0) && negb (v =? 0) then follow_fail fuel' ac c (fail n) else Ok x
  end.

(** [nodes[x].patt_id ? x : nodes[x].next_pattern] *)
Definition nearest_pattern (x : nat) (n : Node) : nat :=
  if negb (patt_id n =? 0)%Z then x else next_pattern n.

(** The loop over the sons of [curr], which the loop does not change. *)
Fixpoint build_sons (curr : nat) (ps : list (ascii * nat)) (queue : list nat) : stm AhoCorasick (list nat) :=
  match ps with
  | [] => mret queue
  | (c, s) :: ps' =>
      n ← read_node curr;
      x ← (fun ac => (ac, follow_fail (length ac) ac c (fail n)));
      _ ← update_node s (set_fail x);
      nx ← read_node x;
      _ ← update_node s (set_next_pattern (nearest_pattern x nx));
      build_sons curr ps' (queue ++ [s])
  end.

Fixpoint build_loop (fuel : nat) (queue : list nat) : stm AhoCorasick unit :=
  match fuel with
  | 0 => lift NoFuel
  | S fuel' =>
      match queue with
      | [] => mret tt
      | curr :: queue =>
          n ← read_node curr;
          queue ← build_sons curr (sons n) queue;
          build_loop fuel' queue
      end
  end.

Definition build_fail_edges : stm AhoCorasick unit :=
  root ← read_node 0;
  fuel ← gets length;
  build_loop fuel (snd <$> sons root).

Fixpoint search_loop (ac : AhoCorasick) (curr : nat) (text : str) : outcome (list nat) :=
  match text with
  | [] => Ok []
  | c :: text' =>
      curr ← follow_fail (length ac) ac c curr;
      n ← node curr ac;
      rest ← search_loop ac curr text';
      Ok (nearest_pattern curr n :: rest)
  end.

Definition search_in (text : str) (ac : AhoCorasick) : outcome (list nat) := search_loop ac 0 text.

(** ** The sons of a node *)

Definition son_lt (p q : ascii * nat) : Prop := (chz p.1 < chz q.1)%Z.

Definition before (c : ascii) : ascii * nat -> Prop := fun p => (chz p.1 < chz c)%Z.
Definition after (c : ascii) : ascii * nat -> Prop := fun p => (chz c < chz p.1)%Z.

Lemma search_sons_spec l c : StronglySorted son_lt l -> forall fuel beg end_,
  beg <= end_ <= length l -> end_ - beg < fuel ->
  Forall (before c) (take beg l) -> Forall (after c) (drop end_ l) ->
  match search_sons fuel l c beg end_ with
  | Ok (inl v) => (c, v) ∈ l
  | Ok (inr pos) => pos <= length l /\ Forall (before c) (take pos l) /\ Forall (after c) (drop pos l)
  | _ => False
  end.
Proof.
  intros Hs. induction fuel as [|fuel IH]; intros beg end_ Hb Hf H1 H2; [lia|]. cbn [search_sons].
  destruct (beg <? end_) eqn:E; [apply Nat.ltb_lt in E|apply Nat.ltb_ge in E].
  2:{ replace end_ with beg in * by lia. auto with lia. }
  set (mid := (beg + end_) / 2).
  assert (beg <= mid < end_) as Hm.
  { unfold mid. split; [apply Nat.div_le_lower_bound; lia|apply Nat.Div0.div_lt_upper_bound; lia]. }
  clearbody mid.
  destruct (lookup_lt_is_Some_2 l mid) as [[d v] Hd]; [lia|]. rewrite Hd. cbn.
  pose proof (take_drop_middle _ _ _ Hd) as Hl. rewrite <- Hl in Hs.
  apply StronglySorted_app_1_r in Hs as Hr. apply StronglySorted_inv in Hr as [_ Hr].
  assert (Forall (fun p => (chz p.1 < chz d)%Z) (take mid l)) as Ht.
  { apply Forall_forall. intros p Hp. change (son_lt p (d, v)). eapply StronglySorted_app_1_elem_of; [exact Hs|exact Hp|left]. }
  destruct (c <c d) eqn:E1; unfold char_ltb in E1.
  - apply Z.ltb_lt in E1. apply IH; [lia|lia|done|]. rewrite (drop_S _ _ _ Hd). constructor; [done|].
    eapply Forall_impl; [exact Hr|]. unfold son_lt, after. cbn. lia.
  - apply Z.ltb_ge in E1. destruct (c =c d) eqn:E2; bools.
    + subst d. rewrite <- Hl. set_solver.
    + assert (chz d < chz c)%Z as E3.
      { destruct (Z.eq_dec (chz c) (chz d)) as [H|H]; [by apply chz_inj in H|lia]. }
      rewrite Nat.add_1_r. apply IH; [lia|lia| |done]. rewrite (take_S_r _ _ _ Hd). apply Forall_app. split; [|by repeat constructor].
      eapply Forall_impl; [exact Ht|]. unfold before. cbn. lia.
Qed.

(** What the callers of the binary search rely on: the son, or that there is
    none and where it belongs. *)
Lemma find_son_spec l c : StronglySorted son_lt l ->
  match find_son l c with
  | Ok (inl v) => (c, v) ∈ l
  | Ok (inr pos) => pos <= length l /\ Forall (before c) (take pos l) /\ Forall (after c) (drop pos l)
  | _ => False
  end.
Proof.
  intros Hs. apply search_sons_spec; [done|lia|lia|constructor|]. by rewrite drop_ge.
Qed.

Lemma not_a_son l c pos v :
  Forall (before c) (take pos l) -> Forall (after c) (drop pos l) -> (c, v) ∉ l.
Proof.
  intros H1 H2 H. rewrite <- (take_drop pos l), elem_of_app in H. rewrite Forall_forall in H1, H2.
  destruct H as [H|H]; [apply H1 in H|apply H2 in H]; unfold before, after in H; cbn in H; lia.
Qed.

(** The element the code looks at after the binary search is not the son. *)
Lemma after_lookup l c pos p : Forall (after c) (drop pos l) -> l !! pos = Some p -> (p.1 =c c) = false.
Proof.
  intros H Hp. rewrite (drop_S _ _ _ Hp) in H. apply Forall_inv in H. unfold after in H.
  apply char_eqb_neq. intros E. rewrite E in H. lia.
Qed.

Lemma node_at_spec n c : StronglySorted son_lt (sons n) ->
  exists x, node_at n c = Ok x /\ ((c, x) ∈ sons n \/ x = 0 /\ forall v, (c, v) ∉ sons n).
Proof.
  intros Hs. unfold node_at. pose proof (find_son_spec (sons n) c Hs) as H.
  destruct (find_son (sons n) c) as [[v|pos]|e| |]; try done; cbn; [by eauto|].
  destruct H as (Hp & H1 & H2). assert (forall v, (c, v) ∉ sons n) as Hn by (intros v; by eapply not_a_son).
  destruct (pos =? length (sons n)) eqn:E; [by eauto|]. apply Nat.eqb_neq in E.
  destruct (lookup_lt_is_Some_2 (sons n) pos) as [p Hpos]; [lia|]. rewrite Hpos. cbn.
  rewrite (after_lookup _ _ _ _ H2 Hpos). cbn. eauto.
Qed.

(** ** Longest suffixes *)

(** [u] is the longest suffix of [t] that satisfies [P]. *)
Definition longest (P : str -> Prop) (t u : str) : Prop :=
  P u /\ u `suffix_of` t /\ forall u', P u' -> u' `suffix_of` t -> length u' <= length u.

Definition prefix_closed (ws : list str) : Prop := forall w c, w ++ [c] ∈ ws -> w ∈ ws.

Lemma longest_step ws t u u' c : prefix_closed ws ->
  longest (fun w => w ∈ ws) t u -> longest (fun w => w ∈ ws) (u ++ [c]) u' ->
  longest (fun w => w ∈ ws) (t ++ [c]) u'.
Proof.
  intros Hpc (_ & Hs & Hmax) (H1 & H2 & H3). split; [done|]. split.
  { etrans; [exact H2|]. by apply suffix_app. }
  intros v Hv Hsuf. destruct v as [|d v0 _] using rev_ind; [cbn; lia|].
  apply suffix_snoc_inv_1 in Hsuf as E. subst d. apply suffix_snoc_inv_2 in Hsuf.
  apply H3; [done|]. apply suffix_app. eapply suffix_both_le; [exact Hsuf|exact Hs|]. apply Hmax; [|done].
  by eapply Hpc.
Qed.

Lemma longest_cons (P : str -> Prop) a t u : ~ P (a :: t) -> longest P t u -> longest P (a :: t) u.
Proof.
  intros Hn (H1 & H2 & H3). split; [done|]. split; [by apply suffix_cons_r|]. intros v Hv Hs.
  destruct v as [|b v]; [cbn; lia|]. apply suffix_cons_inv in Hs as [E|Hs]; [by rewrite E in Hv|]. by apply H3.
Qed.

Lemma longest_self (P : str -> Prop) t : P t -> longest P t t.
Proof. intros H. split; [done|]. split; [done|]. intros u _ Hu. by apply suffix_length. Qed.

(** ** The trie

    Node [i] stands for the word [ws !! i] that leads to it from the root; [M]
    holds the patterns with their ids. *)

Record node_ok (ws : list str) (M : gmap str Z) (n : Node) (w : str) : Prop := {
  node_sorted : StronglySorted son_lt (sons n);
  node_sons c j : (c, j) ∈ sons n <-> ws !! j = Some (w ++ [c]);
  node_patt_id : patt_id n = default 0%Z (M !! w)
}.

Record trie (ac : AhoCorasick) (ws : list str) (M : gmap str Z) : Prop := {
  trie_length : length ac = length ws;
  trie_root : ws !! 0 = Some [];
  trie_nodup : NoDup ws;
  trie_closed : prefix_closed ws;
  trie_node i n w : ac !! i = Some n -> ws !! i = Some w -> node_ok ws M n w;
  trie_patterns w : is_Some (M !! w) -> w ∈ ws /\ w <> []
}.

(** The root and its sons keep the edges they were created with. *)
Definition shallow (ac : AhoCorasick) (ws : list str) : Prop :=
  forall i n w, ac !! i = Some n -> ws !! i = Some w -> length w <= 1 -> fail n = 0 /\ next_pattern n = 0.

Lemma trie_lookup ac ws M i w : trie ac ws M -> ws !! i = Some w -> exists n, ac !! i = Some n /\ node_ok ws M n w.
Proof.
  intros T H. destruct (lookup_lt_is_Some_2 ac i) as [n Hn].
  { rewrite (trie_length _ _ _ T). by eapply lookup_lt_Some. }
  exists n. split; [done|]. by eapply trie_node.
Qed.

Lemma trie_word ac ws M i n : trie ac ws M -> ac !! i = Some n -> exists w, ws !! i = Some w.
Proof.
  intros T H. apply lookup_lt_is_Some_2. rewrite <- (trie_length _ _ _ T). by eapply lookup_lt_Some.
Qed.

Lemma trie_index_unique ac ws M i j w : trie ac ws M -> ws !! i = Some w -> ws !! j = Some w -> i = j.
Proof. intros T H1 H2. eapply NoDup_lookup; [apply (trie_nodup _ _ _ T)|done|done]. Qed.

(** Following an edge of the trie. *)
Lemma node_at_trie ac ws M i n w c : trie ac ws M -> ac !! i = Some n -> ws !! i = Some w ->
  exists x, node_at n c = Ok x /\ (ws !! x = Some (w ++ [c]) \/ x = 0 /\ w ++ [c] ∉ ws).
Proof.
  intros T Hn Hw. destruct (trie_node _ _ _ T _ _ _ Hn Hw) as [Hs Hc _].
  destruct (node_at_spec n c Hs) as (x & E & [H|[-> H]]); exists x || exists 0; (split; [done|]).
  - left. by apply Hc.
  - right. split; [done|]. intros [j Hj]%list_elem_of_lookup. by apply (H j), Hc.
Qed.

Lemma insert_son_elem pos q n p : p ∈ sons (insert_son pos q n) <-> p = q \/ p ∈ sons n.
Proof.
  cbn. rewrite <- (take_drop pos (sons n)) at 3. rewrite !elem_of_app, elem_of_cons. tauto.
Qed.

Lemma insert_son_sorted pos c j n : StronglySorted son_lt (sons n) ->
  Forall (before c) (take pos (sons n)) -> Forall (after c) (drop pos (sons n)) ->
  StronglySorted son_lt (sons (insert_son pos (c, j) n)).
Proof.
  intros Hs H1 H2. cbn. rewrite <- (take_drop pos (sons n)), StronglySorted_app in Hs.
  destruct Hs as (Hs1 & Hs2 & Hs3). rewrite Forall_forall in H1, H2. apply StronglySorted_app. split; [|split; [done|]].
  - intros x y Hx [->|Hy]%elem_of_cons; [by apply H1|by apply Hs1].
  - constructor; [done|]. apply Forall_forall. intros y Hy. by apply H2.
Qed.

(** A word was added to the trie, as a son of the node of [w]. *)
Section Extend.
Context (ac : AhoCorasick) (ws : list str) (M : gmap str Z) (w : str) (c : ascii).
Hypothesis T : trie ac ws M.
Hypothesis Hnew : w ++ [c] ∉ ws.
Hypothesis Hw : w ∈ ws.

Lemma lookup_extended j w' :
  (ws ++ [w ++ [c]]) !! j = Some w' <-> ws !! j = Some w' \/ j = length ac /\ w' = w ++ [c].
Proof.
  rewrite lookup_app_Some, list_lookup_singleton_Some, (trie_length _ _ _ T). split.
  - intros [H|(H & H' & <-)]; [by left|right; split; [lia|done]].
  - intros [H|[-> ->]]; [by left|right]. split_and!; [lia|lia|done].
Qed.

Lemma extended_other n' w' : node_ok ws M n' w' -> w' <> w -> node_ok (ws ++ [w ++ [c]]) M n' w'.
Proof.
  intros [Hs Hc Hp] Hne. constructor; [done| |done]. intros d j. rewrite lookup_extended, Hc. split; [by left|].
  intros [H|[_ [-> _]%app_inj_tail]]; done.
Qed.

Lemma extended_parent n pos : node_ok ws M n w ->
  Forall (before c) (take pos (sons n)) -> Forall (after c) (drop pos (sons n)) ->
  node_ok (ws ++ [w ++ [c]]) M (insert_son pos (c, length ac) n) w.
Proof.
  intros [Hs Hc Hp] H1 H2. constructor; [by apply insert_son_sorted| |done].
  intros d j. rewrite lookup_extended, insert_son_elem, Hc. split.
  - intros [[= -> ->]|H]; [by right|by left].
  - intros [H|[-> [_ ->]%app_inj_tail]]; [by right|by left].
Qed.

Lemma extended_new : node_ok (ws ++ [w ++ [c]]) M empty_node (w ++ [c]).
Proof.
  constructor; [constructor| |].
  - intros d j. rewrite lookup_extended. split; [by intros ?%elem_of_nil|]. intros [H|[_ H]]; exfalso.
    + apply Hnew. eapply (trie_closed _ _ _ T). by eapply list_elem_of_lookup_2.
    + apply (f_equal length) in H. rewrite !length_app in H. cbn in H. lia.
  - destruct (M !! (w ++ [c])) eqn:E; [|done]. destruct (trie_patterns _ _ _ T (w ++ [c])); [by eexists|done].
Qed.

Lemma trie_extend i n pos : ac !! i = Some n -> ws !! i = Some w ->
  Forall (before c) (take pos (sons n)) -> Forall (after c) (drop pos (sons n)) ->
  trie (<[i := insert_son pos (c, length ac) n]> (ac ++ [empty_node])) (ws ++ [w ++ [c]]) M.
Proof.
  intros Hn Hi H1 H2. pose proof (trie_length _ _ _ T) as Hlen.
  assert (i < length ac) as Hlt by (by eapply lookup_lt_Some). constructor.
  - rewrite length_insert, !length_app, Hlen. done.
  - apply lookup_extended. left. apply T.
  - apply NoDup_app. split; [apply T|]. split; [|apply NoDup_singleton]. by intros x Hx ->%list_elem_of_singleton.
  - intros v d. rewrite !elem_of_app, !list_elem_of_singleton.
    intros [H|[-> ->]%app_inj_tail]; left; [by eapply (trie_closed _ _ _ T)|done].
  - intros k n' w' Hk Hw'. apply lookup_extended in Hw' as [Hw'|[-> ->]].
    + destruct (decide (k = i)) as [->|Hne].
      * rewrite list_lookup_insert_eq in Hk by (rewrite length_app; lia). injection Hk as <-.
        assert (w' = w) as -> by congruence. apply extended_parent; [by eapply trie_node|done|done].
      * rewrite list_lookup_insert_ne, lookup_app_l in Hk by (done || rewrite Hlen; by eapply lookup_lt_Some).
        apply extended_other; [by eapply trie_node|]. intros ->. apply Hne. by eapply trie_index_unique.
    + rewrite list_lookup_insert_ne, lookup_app_r, Nat.sub_diag in Hk by lia. injection Hk as <-. apply extended_new.
  - intros v Hv. apply (trie_patterns _ _ _ T) in Hv as [? ?]. split; [|done]. apply elem_of_app. by left.
Qed.

Lemma shallow_extend i n pos : shallow ac ws -> ac !! i = Some n ->
  shallow (<[i := insert_son pos (c, length ac) n]> (ac ++ [empty_node])) (ws ++ [w ++ [c]]).
Proof.
  intros Sh Hn k n' w' Hk Hw' Hle. assert (i < length ac) as Hlt by (by eapply lookup_lt_Some).
  apply lookup_extended in Hw' as [Hw'|[-> ->]].
  - destruct (decide (k = i)) as [->|Hne].
    + rewrite list_lookup_insert_eq in Hk by (rewrite length_app; lia). injection Hk as <-. by apply (Sh i n w').
    + rewrite list_lookup_insert_ne, lookup_app_l in Hk
        by (done || rewrite (trie_length _ _ _ T); by eapply lookup_lt_Some).
      by apply (Sh k n' w').
  - rewrite list_lookup_insert_ne, lookup_app_r, Nat.sub_diag in Hk by lia. by injection Hk as <-.
Qed.
End Extend.

(** ** Adding patterns *)

Definition fits (n : nat) : Prop := (Z.of_nat n <= 2 ^ 32)%Z.

Lemma to_uint_fits n : fits (S n) -> to_uint n = n.
Proof. unfold fits, to_uint. intros H. rewrite Z.mod_small by lia. lia. Qed.

Lemma read_node_run i (ac : AhoCorasick) n : ac !! i = Some n -> read_node i ac = (ac, Ok n).
Proof. intros H. unfold read_node, node. by rewrite H. Qed.

Lemma update_node_run i f (ac : AhoCorasick) n : ac !! i = Some n -> update_node i f ac = (<[i := f n]> ac, Ok tt).
Proof. intros H. unfold update_node, read_node, node, mbind, stm_bind. by rewrite H. Qed.

Lemma son_spec ac ws M i w c : trie ac ws M -> shallow ac ws -> ws !! i = Some w -> fits (S (length ws)) ->
  exists ac' ws' j, son i c ac = (ac', Ok j) /\ trie ac' ws' M /\ shallow ac' ws' /\ ws' !! j = Some (w ++ [c]) /\
    length ws' <= S (length ws).
Proof.
  intros T Sh Hw Hf. destruct (trie_lookup _ _ _ _ _ T Hw) as (n & Hn & Hok). destruct Hok as [Hs Hc Hp] eqn:E. clear E.
  unfold son, read_node, node, mbind, stm_bind, lift. rewrite Hn. cbn [get_or_ub].
  pose proof (find_son_spec (sons n) c Hs) as H. destruct (find_son (sons n) c) as [[v|pos]|e| |]; try done.
  { exists ac, ws, v. split_and!; [done|done|done|by apply Hc|lia]. }
  destruct H as (Hpos & H1 & H2). assert (w ++ [c] ∉ ws) as Hnew.
  { intros [j Hj]%list_elem_of_lookup. apply Hc in Hj. revert Hj. by eapply not_a_son. }
  set (ac' := <[i := insert_son pos (c, length ac) n]> (ac ++ [empty_node])).
  assert ((_ ← modify (fun ac => ac ++ [empty_node]); j ← gets (fun ac => to_uint (length ac - 1));
           _ ← update_node i (insert_son pos (c, j)); mret j) ac = (ac', Ok (length ac))) as Hrun.
  { unfold mbind, stm_bind, modify, gets. rewrite length_app, Nat.add_sub, to_uint_fits by (by rewrite (trie_length _ _ _ T)).
    rewrite (update_node_run _ _ _ n) by (rewrite lookup_app_l; [done|by eapply lookup_lt_Some]). done. }
  exists ac', (ws ++ [w ++ [c]]), (length ac). split.
  { destruct (pos =? length (sons n)) eqn:E; [exact Hrun|]. apply Nat.eqb_neq in E.
    destruct (lookup_lt_is_Some_2 (sons n) pos) as [p Hp']; [lia|]. rewrite Hp'. cbn.
    rewrite (after_lookup _ _ _ _ H2 Hp'). exact Hrun. }
  split; [|split; [|split]].
  - apply trie_extend; auto. by eapply list_elem_of_lookup_2.
  - by eapply shallow_extend.
  - eapply lookup_extended; [done|]. by right.
  - rewrite length_app. cbn. lia.
Qed.

Lemma walk_pattern_spec M patt : forall ac ws i w, trie ac ws M -> shallow ac ws -> ws !! i = Some w ->
  fits (length ws + length patt) ->
  exists ac' ws' j, walk_pattern i patt ac = (ac', Ok j) /\ trie ac' ws' M /\ shallow ac' ws' /\
    ws' !! j = Some (w ++ patt) /\ length ws' <= length ws + length patt.
Proof.
  induction patt as [|c patt IH]; intros ac ws i w T Sh Hw Hf.
  { exists ac, ws, i. rewrite app_nil_r. split_and!; [done|done|done|done|cbn; lia]. }
  cbn [length] in Hf. destruct (son_spec ac ws M i w c) as (ac1 & ws1 & j & E & T1 & Sh1 & Hj & Hl); [done|done|done| |].
  { unfold fits in *. lia. }
  destruct (IH ac1 ws1 j (w ++ [c]) T1 Sh1 Hj) as (ac2 & ws2 & k & E2 & T2 & Sh2 & Hk & Hl2).
  { unfold fits in *. lia. }
  exists ac2, ws2, k. cbn [walk_pattern]. rewrite (stm_bind_run _ _ _ _ _ E). rewrite <- app_assoc in Hk.
  split_and!; [done|done|done|done|cbn; lia].
Qed.

Lemma trie_set_patt_id ac ws M i n patt id : trie ac ws M -> ac !! i = Some n -> ws !! i = Some patt -> patt <> [] ->
  trie (<[i := set_patt_id id n]> ac) ws (<[patt := id]> M).
Proof.
  intros T Hn Hw Hne. constructor; try apply T.
  - rewrite length_insert. apply T.
  - intros k n' w' Hk Hw'. apply list_lookup_insert_Some in Hk as [(<- & <- & _)|[Hki Hk]].
    + assert (w' = patt) as -> by congruence. destruct (trie_node _ _ _ T _ _ _ Hn Hw) as [Hs Hc _].
      constructor; [done|done|]. by rewrite lookup_insert_eq.
    + destruct (trie_node _ _ _ T _ _ _ Hk Hw') as [Hs Hc Hp]. constructor; [done|done|].
      rewrite lookup_insert_ne; [done|]. intros ->. apply Hki. by eapply trie_index_unique.
  - intros v [id' Hv]. apply lookup_insert_Some in Hv as [[<- _]|[_ Hv]]; [|by eapply (trie_patterns _ _ _ T)].
    split; [by eapply list_elem_of_lookup_2|done].
Qed.

Lemma add_pattern_spec ac ws M patt id : trie ac ws M -> shallow ac ws -> patt <> [] ->
  fits (length ws + length patt) ->
  exists ac' ws', add_pattern patt id ac = (ac', Ok tt) /\ trie ac' ws' (<[patt := id]> M) /\ shallow ac' ws' /\
    length ws' <= length ws + length patt.
Proof.
  intros T Sh Hne Hf.
  destruct (walk_pattern_spec M patt ac ws 0 [] T Sh (trie_root _ _ _ T) Hf) as (ac1 & ws1 & j & E & T1 & Sh1 & Hj & Hl).
  destruct (trie_lookup _ _ _ _ _ T1 Hj) as (n & Hn & _). exists (<[j := set_patt_id id n]> ac1), ws1.
  unfold add_pattern. rewrite (stm_bind_run _ _ _ _ _ E). rewrite (update_node_run _ _ _ n Hn).
  split_and!; [done|by apply trie_set_patt_id| |done].
  intros k n' w' Hk. apply list_lookup_insert_Some in Hk as [(<- & <- & _)|[_ Hk]]; [by apply (Sh1 j n)|by apply Sh1].
Qed.

(** ** Fail edges *)

Lemma closed_app ws u v : prefix_closed ws -> u ++ v ∈ ws -> u ∈ ws.
Proof.
  intros Hc. induction v as [|c v IH] using rev_ind; [by rewrite app_nil_r|]. rewrite app_assoc. intros H. by apply IH, (Hc _ c).
Qed.

(** A word is shorter than the number of nodes: its prefixes are words. *)
Lemma word_depth ac ws M w : trie ac ws M -> w ∈ ws -> length w < length ws.
Proof.
  intros T Hw. apply Nat.lt_le_trans with (length ((fun k => take k w) <$> seq 0 (S (length w)))).
  { rewrite length_fmap, length_seq. lia. }
  apply submseteq_length, NoDup_submseteq.
  - apply NoDup_fmap_2_strong; [|apply NoDup_seq]. intros x y Hx%elem_of_seq Hy%elem_of_seq H.
    apply (f_equal length) in H. rewrite !length_take in H. lia.
  - intros u (k & -> & _)%list_elem_of_fmap. eapply closed_app; [apply T|]. by rewrite (take_drop k w).
Qed.

Definition pattern (M : gmap str Z) (w : str) : Prop := exists id, M !! w = Some id /\ id <> 0%Z.

(** [r] is the node of the longest pattern that ends [t], or 0 when none does. *)
Definition match_at (ws : list str) (M : gmap str Z) (t : str) (r : nat) : Prop :=
  (exists p, ws !! r = Some p /\ longest (pattern M) t p) \/ (r = 0 /\ forall p, pattern M p -> ~ p `suffix_of` t).

(** The edges of node [i] lead to the longest proper suffixes of its word. *)
Definition good (ac : AhoCorasick) (ws : list str) (M : gmap str Z) (i : nat) : Prop :=
  forall n w, ac !! i = Some n -> ws !! i = Some w ->
    match_at ws M (tail w) (next_pattern n) /\
    (w <> [] -> exists u, ws !! fail n = Some u /\ longest (fun w => w ∈ ws) (tail w) u).

Lemma pattern_node ac ws M i n w : trie ac ws M -> ac !! i = Some n -> ws !! i = Some w ->
  pattern M w <-> patt_id n <> 0%Z.
Proof.
  intros T Hn Hw. rewrite (node_patt_id _ _ _ _ (trie_node _ _ _ T _ _ _ Hn Hw)). split.
  - by intros (id & -> & Hid).
  - destruct (M !! w) as [id|] eqn:E; [|done]. intros H. by exists id.
Qed.

Lemma pattern_word ac ws M w : trie ac ws M -> pattern M w -> w ∈ ws /\ w <> [].
Proof. intros T (id & H & _). apply (trie_patterns _ _ _ T). by eexists. Qed.

Lemma follow_fail_spec ac ws M c : trie ac ws M -> forall fuel v w,
  (forall j u, ws !! j = Some u -> length u <= length w -> good ac ws M j) -> ws !! v = Some w -> length w < fuel ->
  exists x u, follow_fail fuel ac c v = Ok x /\ ws !! x = Some u /\ longest (fun w => w ∈ ws) (w ++ [c]) u.
Proof.
  intros T. induction fuel as [|fuel IH]; intros v w Hg Hw Hf; [lia|]. cbn [follow_fail].
  destruct (trie_lookup _ _ _ _ _ T Hw) as (n & Hn & _). unfold node. rewrite Hn. cbn [get_or_ub mbind outcome_bind].
  destruct (node_at_trie _ _ _ _ _ _ c T Hn Hw) as (x & -> & Hx). cbn [mbind outcome_bind].
  destruct Hx as [Hx|[-> Hno]].
  { exists x, (w ++ [c]). assert (x <> 0) as Hx0.
    { intros ->. rewrite (trie_root _ _ _ T) in Hx. injection Hx as Hx. by destruct w. }
    apply Nat.eqb_neq in Hx0. rewrite Hx0. split; [done|]. split; [done|].
    apply (longest_self (fun w => w ∈ ws)). by eapply list_elem_of_lookup_2. }
  cbn [Nat.eqb andb]. destruct (v =? 0) eqn:Ev; cbn [negb].
  - apply Nat.eqb_eq in Ev as ->. rewrite (trie_root _ _ _ T) in Hw. injection Hw as <-.
    exists 0, []. split; [done|]. split; [apply T|]. apply longest_cons; [done|]. apply (longest_self (fun w => w ∈ ws)).
    eapply list_elem_of_lookup_2, T.
  - apply Nat.eqb_neq in Ev. destruct w as [|a w].
    { destruct Ev. by eapply trie_index_unique; [|exact Hw|apply T]. }
    destruct (Hg v (a :: w) Hw ltac:(done) n (a :: w) Hn Hw) as [_ Hfail].
    destruct Hfail as (u & Hu & Hl); [done|]. cbn [tail] in Hl.
    assert (length u <= length w) as Hlen by (apply suffix_length, Hl).
    destruct (IH (fail n) u) as (x & u' & E & Hx & Hl'); [|done|cbn in Hf; lia|].
    { intros j u' Hj Hle. apply (Hg j u' Hj). cbn. lia. }
    exists x, u'. split; [done|]. split; [done|]. apply longest_cons; [done|].
    eapply longest_step; [apply T|exact Hl|exact Hl'].
Qed.

(** A pattern that ends [t] is the longest word that does, or ends its tail. *)
Lemma pattern_below ac ws M t u p : trie ac ws M -> longest (fun w => w ∈ ws) t u -> ~ pattern M u ->
  pattern M p -> p `suffix_of` t -> p `suffix_of` tail u.
Proof.
  intros T (_ & Hs & Hmax) Hu Hp Hsuf. destruct (pattern_word _ _ _ _ T Hp) as [Hin Hne].
  assert (p `suffix_of` u) as H by (eapply suffix_both_le; [exact Hsuf|exact Hs|by apply Hmax]).
  destruct p as [|b p]; [done|]. destruct u as [|a u]; [by apply suffix_nil_inv in H|].
  apply suffix_cons_inv in H as [H|H]; [by rewrite H in Hp|done].
Qed.

Lemma nearest_pattern_spec ac ws M x n u t : trie ac ws M -> ac !! x = Some n -> ws !! x = Some u -> good ac ws M x ->
  longest (fun w => w ∈ ws) t u -> match_at ws M t (nearest_pattern x n).
Proof.
  intros T Hn Hu Hg Hl. pose proof (pattern_node _ _ _ _ _ _ T Hn Hu) as Hp. unfold nearest_pattern.
  destruct (patt_id n =? 0)%Z eqn:E; [apply Z.eqb_eq in E|apply Z.eqb_neq in E]; cbn [negb].
  - assert (~ pattern M u) as Hnp by (rewrite Hp; auto).
    destruct (Hg n u Hn Hu) as [[(p & Hpn & H1 & H2 & H3)|[-> H]] _].
    + left. exists p. split; [done|]. split; [done|]. split.
      * etrans; [exact H2|]. etrans; [|apply Hl]. destruct u; [done|]. by apply suffix_cons_r.
      * intros p' Hp' Hs. apply H3; [done|]. by eapply pattern_below.
    + right. split; [done|]. intros p Hp' Hs. apply (H p); [done|]. by eapply pattern_below.
  - left. exists u. split; [done|]. split; [by apply Hp|]. split; [apply Hl|]. intros p Hp' Hs.
    apply Hl; [by eapply pattern_word|done].
Qed.

(** ** The breadth-first construction *)

Definition set_edges (x y : nat) (n : Node) : Node := mkNode (patt_id n) x y (sons n).

Lemma trie_set_edges ac ws M i n x y : trie ac ws M -> ac !! i = Some n -> trie (<[i := set_edges x y n]> ac) ws M.
Proof.
  intros T Hn. constructor; try apply T; [rewrite length_insert; apply T|].
  intros k n' w' Hk Hw'. apply list_lookup_insert_Some in Hk as [(<- & <- & _)|[_ Hk]]; [|by eapply trie_node].
  destruct (trie_node _ _ _ T _ _ _ Hn Hw') as [Hs Hc Hp]. by constructor.
Qed.

Lemma good_set_edges ac ws M s n x y w u : trie ac ws M -> ac !! s = Some n -> ws !! s = Some w ->
  ws !! x = Some u -> longest (fun w => w ∈ ws) (tail w) u -> match_at ws M (tail w) y ->
  good (<[s := set_edges x y n]> ac) ws M s /\
  forall j, good ac ws M j -> good (<[s := set_edges x y n]> ac) ws M j.
Proof.
  intros T Hn Hw Hx Hl Hm. assert (good (<[s := set_edges x y n]> ac) ws M s) as Hs.
  { intros n' w' Hn' Hw'. rewrite list_lookup_insert_eq in Hn' by (by eapply lookup_lt_Some). injection Hn' as <-.
    assert (w' = w) as -> by congruence. cbn. eauto. }
  split; [done|]. intros j Hj. destruct (decide (j = s)) as [->|Hne]; [done|].
  intros n' w' Hn'. rewrite list_lookup_insert_ne in Hn' by done. by apply Hj.
Qed.

(** One son: its edges follow those of its parent. *)
Lemma build_son_spec ac ws M curr w c s : trie ac ws M -> ws !! curr = Some w -> w <> [] ->
  (forall j u, ws !! j = Some u -> length u <= length w -> good ac ws M j) -> ws !! s = Some (w ++ [c]) ->
  exists n ns x y, ac !! curr = Some n /\ ac !! s = Some ns /\ follow_fail (length ac) ac c (fail n) = Ok x /\
    (nx ← read_node x; update_node s (set_next_pattern (nearest_pattern x nx))) (<[s := set_fail x ns]> ac) =
      (<[s := set_edges x y ns]> ac, Ok tt) /\
    good (<[s := set_edges x y ns]> ac) ws M s /\
    (forall j, good ac ws M j -> good (<[s := set_edges x y ns]> ac) ws M j).
Proof.
  intros T Hw Hne Hg Hs. destruct (trie_lookup _ _ _ _ _ T Hw) as (n & Hn & _).
  destruct (trie_lookup _ _ _ _ _ T Hs) as (ns & Hns & _).
  destruct (Hg curr w Hw ltac:(done) n w Hn Hw) as [_ Hfail]. destruct (Hfail Hne) as (u & Hu & Hl).
  assert (length u < length w) as Hlt.
  { apply Nat.le_lt_trans with (length (tail w)); [apply suffix_length, Hl|]. destruct w; [done|]. cbn. lia. }
  destruct (follow_fail_spec ac ws M c T (length ac) (fail n) u) as (x & u' & E & Hx & Hl').
  { intros j v Hj Hle. apply (Hg j v Hj). lia. }
  { done. }
  { rewrite (trie_length _ _ _ T). eapply word_depth; [done|]. by eapply list_elem_of_lookup_2. }
  assert (length u' <= length w) as Hlu.
  { assert (length u' <= length (u ++ [c])) as H by (apply suffix_length, Hl'). rewrite length_app in H. cbn in H. lia. }
  assert (longest (fun w => w ∈ ws) (tail (w ++ [c])) u') as Hl2.
  { destruct w as [|a w]; [done|]. cbn [tail app] in *. eapply longest_step; [apply T|exact Hl|exact Hl']. }
  assert (x <> s) as Hxs.
  { intros ->. rewrite Hs in Hx. injection Hx as <-. rewrite length_app in Hlu. cbn in Hlu. lia. }
  destruct (trie_lookup _ _ _ _ _ T Hx) as (nx & Hnx & _). exists n, ns, x, (nearest_pattern x nx).
  split; [done|]. split; [done|]. split; [done|]. split.
  - unfold read_node, node, mbind, stm_bind. rewrite list_lookup_insert_ne, Hnx by done. cbn [get_or_ub].
    rewrite (update_node_run _ _ _ (set_fail x ns)) by (by rewrite list_lookup_insert_eq by (by eapply lookup_lt_Some)).
    by rewrite list_insert_insert_eq.
  - eapply good_set_edges; eauto. eapply nearest_pattern_spec; eauto.
Qed.

Lemma build_sons_spec ws M curr w : ws !! curr = Some w -> w <> [] -> forall ps ac queue,
  trie ac ws M -> shallow ac ws ->
  (forall j u, ws !! j = Some u -> length u <= length w -> good ac ws M j) ->
  (forall c s, (c, s) ∈ ps -> ws !! s = Some (w ++ [c])) ->
  exists ac', build_sons curr ps queue ac = (ac', Ok (queue ++ ps.*2)) /\ trie ac' ws M /\ shallow ac' ws /\
    (forall j, good ac ws M j -> good ac' ws M j) /\ (forall s, s ∈ ps.*2 -> good ac' ws M s).
Proof.
  intros Hw Hne. induction ps as [|[c s] ps IH]; intros ac queue T Sh Hg Hps.
  { exists ac. cbn. rewrite app_nil_r. split_and!; [done|done|done|done|]. by intros s ?%elem_of_nil. }
  assert (ws !! s = Some (w ++ [c])) as Hs by (apply Hps; left).
  destruct (build_son_spec _ _ _ _ _ _ _ T Hw Hne Hg Hs) as (n & ns & x & y & Hn & Hns & E & E2 & G1 & G2).
  set (ac1 := <[s := set_edges x y ns]> ac) in *.
  destruct (IH ac1 (queue ++ [s])) as (ac' & E3 & T' & Sh' & G3 & G4).
  { by apply trie_set_edges. }
  { intros k n' w' Hk Hw' Hle. apply list_lookup_insert_Some in Hk as [(<- & <- & _)|[_ Hk]]; [|by apply (Sh k n' w')].
    rewrite Hs in Hw'. injection Hw' as <-. rewrite length_app in Hle. destruct w; [done|cbn in Hle; lia]. }
  { intros j u Hj Hle. by apply G2, (Hg j u). }
  { intros d j Hd. apply Hps. by right. }
  exists ac'. split.
  { cbn [build_sons]. rewrite (stm_bind_run _ _ _ _ _ (read_node_run curr ac n Hn)).
    rewrite (stm_bind_run _ _ ac ac x) by (by rewrite E).
    rewrite (stm_bind_run _ _ _ _ _ (update_node_run s (set_fail x) ac ns Hns)).
    apply stm_bind_Ok in E2 as (ac2 & nx & R1 & R2). rewrite (stm_bind_run _ _ _ _ _ R1), (stm_bind_run _ _ _ _ _ R2), E3.
    cbn. by rewrite <- app_assoc. }
  split; [done|]. split; [done|]. split; [auto|]. intros j [->|Hj]%elem_of_cons; auto.
Qed.

(** The state of the walk: [P] is processed, the queue is what is left of level
    [d] and the part of level [d + 1] found so far. *)
Record bfs (ac : AhoCorasick) (ws : list str) (M : gmap str Z) (P : list nat) (d : nat) (A B : list nat) : Prop := {
  bfs_trie : trie ac ws M;
  bfs_shallow : shallow ac ws;
  bfs_positive : 1 <= d;
  bfs_A i : i ∈ A -> exists w, ws !! i = Some w /\ length w = d;
  bfs_B i : i ∈ B -> exists w, ws !! i = Some w /\ length w = S d;
  bfs_good j u : ws !! j = Some u -> length u <= d -> good ac ws M j;
  bfs_good_B i : i ∈ B -> good ac ws M i;
  bfs_next j u c : ws !! j = Some (u ++ [c]) -> length u = d -> j ∈ B \/ exists i, ws !! i = Some u /\ i ∈ A;
  bfs_nodup : NoDup (P ++ A ++ B);
  bfs_bound i : i ∈ P ++ A ++ B -> i < length ws;
  bfs_parent i u c : i ∈ P ++ A ++ B -> ws !! i = Some (u ++ [c]) -> exists j, ws !! j = Some u /\ j ∈ P
}.

Lemma bfs_next_level ac ws M P d B : bfs ac ws M P d [] B -> bfs ac ws M P (S d) B [].
Proof.
  intros [T Sh Hd HA HB HG HGB HN Hnd Hb Hp]. constructor; rewrite ?app_nil_r; auto; try lia.
  - by intros i ?%elem_of_nil.
  - intros j u Hj Hle. destruct (decide (length u = S d)) as [E|E]; [|apply (HG j u Hj); lia].
    destruct u as [|c u _] using rev_ind; [done|]. rewrite length_app in E. cbn in E.
    destruct (HN j u c Hj) as [H|(i & _ & H%elem_of_nil)]; [lia|by apply HGB|done].
  - by intros i ?%elem_of_nil.
  - intros j u c Hj Hu. right. destruct u as [|e u _] using rev_ind; [done|]. rewrite length_app in Hu. cbn in Hu.
    assert (u ++ [e] ∈ ws) as Hin by (eapply (trie_closed _ _ _ T); by eapply list_elem_of_lookup_2).
    apply list_elem_of_lookup in Hin as [i Hi]. exists i. split; [done|].
    destruct (HN i u e Hi) as [H|(k & _ & H%elem_of_nil)]; [lia|done|done].
Qed.

Lemma sons_nodup ac ws M n w : trie ac ws M -> node_ok ws M n w -> NoDup (sons n).*2.
Proof.
  intros T [Hs Hc _]. apply NoDup_fmap_2_strong.
  - intros [c s] [d s'] H1%Hc H2%Hc E. cbn in E. subst s'. rewrite H1 in H2. injection H2 as H2.
    apply app_inj_tail in H2 as [_ ->]. done.
  - clear Hc. induction Hs as [|p l Hs IH Hp]; constructor; [|done]. intros H. rewrite Forall_forall in Hp.
    apply Hp in H. unfold son_lt in H. lia.
Qed.

Lemma bfs_perm (curr : nat) P A B S : (curr :: P) ++ A ++ B ++ S ≡ₚ (P ++ (curr :: A) ++ B) ++ S.
Proof. rewrite <- !app_assoc. cbn. rewrite <- Permutation_middle. done. Qed.

Lemma bfs_step ac ws M P d curr A B n : bfs ac ws M P d (curr :: A) B -> ac !! curr = Some n ->
  exists ac', build_sons curr (sons n) (A ++ B) ac = (ac', Ok (A ++ (B ++ (sons n).*2))) /\
    bfs ac' ws M (curr :: P) d A (B ++ (sons n).*2).
Proof.
  intros [T Sh Hd HA HB HG HGB HN Hnd Hb Hp] Hn. destruct (HA curr) as (w & Hw & Hlen); [left|].
  pose proof (trie_node _ _ _ T _ _ _ Hn Hw) as Hok. pose proof (node_sons _ _ _ _ Hok) as Hc.
  destruct (build_sons_spec ws M curr w Hw) with (ps := sons n) (ac := ac) (queue := A ++ B)
    as (ac' & E & T' & Sh' & G & GS).
  { intros ->. cbn in Hlen. lia. } { done. } { done. } { intros j u Hj Hle. apply (HG j u Hj). lia. } { by intros c s ?%Hc. }
  assert (forall s, s ∈ (sons n).*2 -> exists c, ws !! s = Some (w ++ [c])) as HS.
  { intros s ([c s'] & -> & H)%list_elem_of_fmap. exists c. by apply Hc. }
  exists ac'. rewrite E, <- app_assoc. split; [done|]. constructor; auto.
  - intros i Hi. apply HA. by right.
  - intros i [Hi|(c & Hi)%HS]%elem_of_app; [by apply HB|]. exists (w ++ [c]). rewrite length_app. cbn. split; [done|lia].
  - intros j u Hj Hle. by apply G, (HG j u).
  - intros i [Hi|Hi]%elem_of_app; auto.
  - intros j u c Hj Hu. destruct (HN j u c Hj Hu) as [H|(i & Hi & [->|H]%elem_of_cons)].
    + left. apply elem_of_app. by left.
    + left. apply elem_of_app. right. assert (u = w) as -> by congruence. apply list_elem_of_fmap. exists (c, j). by split; [|apply Hc].
    + right. by exists i.
  - rewrite bfs_perm. apply NoDup_app. split; [done|]. split; [|by eapply sons_nodup].
    intros s Hs (c & Hi)%HS. destruct (Hp s w c Hs Hi) as (j & Hj & HjP).
    assert (j = curr) as -> by (by eapply trie_index_unique).
    apply NoDup_app in Hnd as (_ & Hnd & _). apply (Hnd curr); [done|left].
  - intros i. rewrite bfs_perm. intros [Hi|(c & Hi)%HS]%elem_of_app; [by apply Hb|by eapply lookup_lt_Some].
  - intros i u c. rewrite bfs_perm. intros [Hi|(c' & Hi)%HS]%elem_of_app Hu.
    + destruct (Hp i u c Hi Hu) as (j & Hj & HjP). exists j. split; [done|by right].
    + exists curr. rewrite Hi in Hu. injection Hu as Hu. apply app_inj_tail in Hu as [-> _]. split; [done|left].
Qed.

(** When the queue is empty there is no deeper level. *)
Lemma bfs_end ac ws M P d j : bfs ac ws M P d [] [] -> good ac ws M j.
Proof.
  intros [T Sh Hd HA HB HG HGB HN Hnd Hb Hp] n w Hn Hw. destruct (decide (length w <= d)) as [Hle|Hgt]; [by apply (HG j w)|].
  assert (take (S d) w ∈ ws) as Hin.
  { eapply closed_app with (v := drop (S d) w); [apply T|]. rewrite take_drop. by eapply list_elem_of_lookup_2. }
  destruct (lookup_lt_is_Some_2 w d) as [c Hc]; [lia|]. rewrite (take_S_r _ _ _ Hc) in Hin.
  apply list_elem_of_lookup in Hin as [i Hi]. destruct (HN i (take d w) c Hi) as [H|(k & _ & H)].
  { rewrite length_take. lia. } all: by apply elem_of_nil in H.
Qed.

Lemma build_loop_spec ws M : forall fuel ac P d A B, bfs ac ws M P d A B -> length ws < length P + fuel ->
  exists ac', build_loop fuel (A ++ B) ac = (ac', Ok tt) /\ trie ac' ws M /\ shallow ac' ws /\ forall j, good ac' ws M j.
Proof.
  induction fuel as [|fuel IH]; intros ac P d A B I Hf.
  { exfalso. assert (length (P ++ A ++ B) <= length (seq 0 (length ws))) as H.
    { apply submseteq_length, NoDup_submseteq; [apply I|]. intros i Hi. apply elem_of_seq. split; [lia|]. by apply (bfs_bound _ _ _ _ _ _ _ I). }
    rewrite length_seq, length_app in H. lia. }
  assert (A = [] /\ B = [] \/ exists d' curr A' B', A ++ B = curr :: A' ++ B' /\ bfs ac ws M P d' (curr :: A') B') as Hcase.
  { destruct A as [|curr A]; [|right; by exists d, curr, A, B]. destruct B as [|curr B]; [by left|]. right.
    exists (S d), curr, B, []. rewrite app_nil_r. split; [done|]. by apply bfs_next_level. }
  destruct Hcase as [[-> ->]|(d' & curr & A' & B' & -> & I')].
  { exists ac. split; [done|]. split; [apply I|]. split; [apply I|]. intros j. by eapply bfs_end. }
  destruct (bfs_A _ _ _ _ _ _ _ I' curr) as (w & Hw & _); [left|].
  destruct (trie_lookup _ _ _ _ _ (bfs_trie _ _ _ _ _ _ _ I') Hw) as (n & Hn & _).
  destruct (bfs_step _ _ _ _ _ _ _ _ _ I' Hn) as (ac' & E & I2).
  destruct (IH ac' (curr :: P) d' A' (B' ++ (sons n).*2) I2) as (ac2 & E2 & R); [cbn; lia|].
  exists ac2. split; [|exact R]. cbn [build_loop].
  by rewrite (stm_bind_run _ _ _ _ _ (read_node_run curr ac n Hn)), (stm_bind_run _ _ _ _ _ E).
Qed.

Lemma match_at_nil ac ws M : trie ac ws M -> match_at ws M [] 0.
Proof. intros T. right. split; [done|]. intros p Hp H%suffix_nil_inv. by apply (pattern_word _ _ _ _ T Hp). Qed.

Lemma build_fail_edges_spec ac ws M : trie ac ws M -> shallow ac ws ->
  exists ac', build_fail_edges ac = (ac', Ok tt) /\ trie ac' ws M /\ shallow ac' ws /\ forall j, good ac' ws M j.
Proof.
  intros T Sh. pose proof (trie_root _ _ _ T) as H0. destruct (trie_lookup _ _ _ _ _ T H0) as (root & Hr & Hok).
  pose proof (node_sons _ _ _ _ Hok) as Hc. cbn in Hc.
  assert (forall s, s ∈ (sons root).*2 -> exists c, ws !! s = Some [c]) as HS.
  { intros s ([c s'] & -> & H)%list_elem_of_fmap. exists c. by apply Hc. }
  unfold build_fail_edges. rewrite (stm_bind_run _ _ _ _ _ (read_node_run 0 ac root Hr)).
  change ((fuel ← gets length; build_loop fuel (sons root).*2) ac) with (build_loop (length ac) (sons root).*2 ac).
  rewrite <- (app_nil_r (sons root).*2). apply (build_loop_spec ws M _ ac [0] 1); [|rewrite (trie_length _ _ _ T); cbn; lia].
  constructor; rewrite ?app_nil_r; auto.
  - intros i (c & Hi)%HS. by exists [c].
  - by intros i ?%elem_of_nil.
  - intros j u Hj Hle n w Hn Hw. rewrite Hj in Hw. injection Hw as <-. destruct (Sh j n u Hn Hj Hle) as [-> ->].
    assert (tail u = []) as ->. { destruct u as [|a [|b u]]; [done|done|cbn in Hle; lia]. }
    split; [by eapply match_at_nil|]. intros _. exists []. split; [done|]. apply (longest_self (fun w => w ∈ ws)).
    by eapply list_elem_of_lookup_2.
  - by intros i ?%elem_of_nil.
  - intros j u c Hj Hu. right.
    assert (u ∈ ws) as [i Hi]%list_elem_of_lookup by (eapply (trie_closed _ _ _ T); by eapply list_elem_of_lookup_2).
    exists i. split; [done|]. destruct u as [|e [|]]; try done. apply list_elem_of_fmap. exists (e, i). by split; [|apply Hc].
  - cbn. constructor; [|by eapply sons_nodup]. intros (c & Hi)%HS. congruence.
  - intros i [->|(c & Hi)%HS]%elem_of_cons; by eapply lookup_lt_Some.
  - intros i u c [->|(c' & Hi)%HS]%elem_of_cons Hu.
    + rewrite H0 in Hu. injection Hu as Hu. by destruct u.
    + exists 0. rewrite Hi in Hu. injection Hu as Hu. split; [|left]. destruct u as [|x u]; [done|]. by destruct u.
Qed.

(** ** Searching *)

Lemma search_loop_spec ac ws M : trie ac ws M -> (forall j, good ac ws M j) -> forall text curr u t,
  ws !! curr = Some u -> longest (fun w => w ∈ ws) t u ->
  exists res, search_loop ac curr text = Ok res /\ length res = length text /\
    forall i r, res !! i = Some r -> match_at ws M (t ++ take (S i) text) r.
Proof.
  intros T Hg. induction text as [|c text IH]; intros curr u t Hu Hl; [by exists []|]. cbn [search_loop].
  destruct (follow_fail_spec ac ws M c T (length ac) curr u) as (x & u' & -> & Hx & Hl'); [auto|done| |].
  { rewrite (trie_length _ _ _ T). eapply word_depth; [done|]. by eapply list_elem_of_lookup_2. }
  assert (longest (fun w => w ∈ ws) (t ++ [c]) u') as Hl2 by (eapply longest_step; [apply T|exact Hl|exact Hl']).
  destruct (trie_lookup _ _ _ _ _ T Hx) as (n & Hn & _). unfold node. cbn [mbind outcome_bind]. rewrite Hn. cbn [get_or_ub].
  destruct (IH x u' (t ++ [c]) Hx Hl2) as (res & -> & Hlen & Hres). cbn [mbind outcome_bind].
  eexists. split; [done|]. split; [cbn; lia|]. intros [|i] r; cbn [lookup list_lookup take].
  - intros [= <-]. by eapply nearest_pattern_spec.
  - intros H. specialize (Hres i r H). by rewrite <- app_assoc in Hres.
Qed.

Lemma find_node_loop_spec ac ws M : trie ac ws M -> forall s x w y, ws !! x = Some w -> ws !! y = Some (w ++ s) ->
  find_node_loop ac x s = Ok y.
Proof.
  intros T. induction s as [|c s IH]; intros x w y Hx Hy.
  { rewrite app_nil_r in Hy. cbn. f_equal. by eapply trie_index_unique. }
  destruct (trie_lookup _ _ _ _ _ T Hx) as (n & Hn & _). cbn [find_node_loop]. unfold node. rewrite Hn. cbn [get_or_ub mbind outcome_bind].
  destruct (node_at_trie _ _ _ _ _ _ c T Hn Hx) as (z & -> & Hz). cbn [mbind outcome_bind].
  assert (w ++ [c] ∈ ws) as Hin.
  { apply (closed_app ws _ s); [apply T|]. rewrite <- app_assoc. by eapply list_elem_of_lookup_2. }
  destruct Hz as [Hz|[_ Hz]]; [|done]. assert (z <> 0) as Hz0.
  { intros ->. rewrite (trie_root _ _ _ T) in Hz. injection Hz as Hz. by destruct w. }
  apply Nat.eqb_neq in Hz0. rewrite Hz0. apply (IH z (w ++ [c])); [done|]. by rewrite <- app_assoc.
Qed.

(** ** Main theorem *)

(** A use of the automaton before a search: patterns may also be added after
    the fail edges were built, when these are then built again. *)
Inductive operation := AddPattern (patt : str) (id : Z) | BuildFailEdges.

Definition run_operation (op : operation) : stm AhoCorasick unit :=
  match op with AddPattern patt id => add_pattern patt id | BuildFailEdges => build_fail_edges end.

Fixpoint run_operations (ops : list operation) : stm AhoCorasick unit :=
  match ops with
  | [] => mret tt
  | op :: ops' => _ ← run_operation op; run_operations ops'
  end.

(** The patterns with the last id each of them was given. *)
Definition add_to (M : gmap str Z) (op : operation) : gmap str Z :=
  match op with AddPattern patt id => <[patt := id]> M | BuildFailEdges => M end.
Definition patterns_of (ops : list operation) : gmap str Z := fold_left add_to ops ∅.

Definition operation_ok (op : operation) : Prop :=
  match op with AddPattern patt _ => patt <> [] | BuildFailEdges => True end.
Definition operation_size (op : operation) : nat :=
  match op with AddPattern patt _ => length patt | BuildFailEdges => 0 end.

(** [r] is what the automaton knows the longest pattern that ends [t] by, or 0
    when no pattern ends [t]. *)
Definition found (ac : AhoCorasick) (M : gmap str Z) (t : str) (r : nat) : Prop :=
  (exists p id, longest (pattern M) t p /\ M !! p = Some id /\ find_node p ac = Ok r /\ pattern_id r ac = Ok id) \/
  (r = 0 /\ forall p, pattern M p -> ~ p `suffix_of` t).

Lemma match_at_found ac ws M t r : trie ac ws M -> match_at ws M t r -> found ac M t r.
Proof.
  intros T [(p & Hp & Hl)|H]; [left|by right]. destruct (trie_lookup _ _ _ _ _ T Hp) as (n & Hn & Hok).
  destruct Hl as ((id & Hid & Hne) & Hl). exists p, id. split; [split; [by exists id|done]|]. split; [done|]. split.
  - apply (find_node_loop_spec _ _ _ T p 0 []); [apply T|done].
  - unfold pattern_id, node. rewrite Hn. cbn. by rewrite (node_patt_id _ _ _ _ Hok), Hid.
Qed.

Lemma new_automaton_trie : trie new_automaton [[]] ∅ /\ shallow new_automaton [[]].
Proof.
  split; [constructor|]; try done.
  - apply NoDup_singleton.
  - intros w c H%list_elem_of_singleton. by destruct w.
  - intros [|i] n w [= <-] [= <-]. constructor; [constructor| |done]. intros c j. split; [by intros ?%elem_of_nil|].
    by destruct j as [|j].
  - intros w [id H]. done.
  - by intros [|i] n w [= <-] [= <-].
Qed.

Lemma run_operations_spec ops : forall ac ws M, trie ac ws M -> shallow ac ws -> Forall operation_ok ops ->
  fits (length ws + sum_list_with operation_size ops) ->
  exists ac' ws', run_operations ops ac = (ac', Ok tt) /\ trie ac' ws' (fold_left add_to ops M) /\ shallow ac' ws'.
Proof.
  induction ops as [|op ops IH]; intros ac ws M T Sh Hok Hf; [by exists ac, ws|].
  apply Forall_cons in Hok as [Hop Hok]. cbn [sum_list_with] in Hf.
  assert (exists ac1 ws1, run_operation op ac = (ac1, Ok tt) /\ trie ac1 ws1 (add_to M op) /\ shallow ac1 ws1 /\
    length ws1 <= length ws + operation_size op) as (ac1 & ws1 & E & T1 & Sh1 & Hl).
  { destruct op as [patt id|]; cbn [run_operation add_to operation_size operation_ok] in *.
    - apply add_pattern_spec; auto. unfold fits in *. lia.
    - destruct (build_fail_edges_spec ac ws M T Sh) as (ac' & E & T' & Sh' & _). exists ac', ws. auto with lia. }
  cbn [run_operations fold_left]. rewrite (stm_bind_run _ _ _ _ _ E). apply (IH ac1 ws1); auto. unfold fits in *. lia.
Qed.

(** C34: whatever non-empty patterns were added, in whatever order and with
    whatever rebuilding in between, once the fail edges are built the automaton
    finds in every text, at every position, the longest pattern that ends there
    (an id of 0 disables a pattern, a repeated pattern has its last id); and
    from a pattern [next_pattern] leads to the next longest one, so that all the
    patterns that end at a position are listed.  No access is out of range and
    all loops end, as long as the nodes can be numbered with 32 bits. *)
Theorem aho_corasick_correct ops text : Forall operation_ok ops -> fits (1 + sum_list_with operation_size ops) ->
  exists ac res, (_ ← run_operations ops; build_fail_edges) new_automaton = (ac, Ok tt) /\
    search_in text ac = Ok res /\ length res = length text /\
    (forall i r, res !! i = Some r -> found ac (patterns_of ops) (take (S i) text) r) /\
    (forall p r, pattern (patterns_of ops) p -> find_node p ac = Ok r ->
       exists x, next_pattern_of r ac = Ok x /\ found ac (patterns_of ops) (tail p) x).
Proof.
  intros Hok Hf. destruct new_automaton_trie as [T0 S0].
  destruct (run_operations_spec ops _ _ _ T0 S0 Hok Hf) as (ac1 & ws & E & T1 & S1). fold (patterns_of ops) in T1.
  destruct (build_fail_edges_spec _ _ _ T1 S1) as (ac & E2 & T & _ & Hg).
  destruct (search_loop_spec _ _ _ T Hg text 0 [] []) as (res & R1 & R2 & R3).
  { apply T. } { apply (longest_self (fun w => w ∈ ws)). eapply list_elem_of_lookup_2, T. }
  exists ac, res. rewrite (stm_bind_run _ _ _ _ _ E), E2. split; [done|]. split; [done|]. split; [done|]. split.
  - intros i r Hr. eapply match_at_found; [done|]. exact (R3 i r Hr).
  - intros p r Hp Hr. destruct (pattern_word _ _ _ _ T Hp) as [[j Hj]%list_elem_of_lookup _].
    assert (find_node p ac = Ok j) as Hj' by (apply (find_node_loop_spec _ _ _ T p 0 []); [apply T|done]).
    rewrite Hj' in Hr. injection Hr as <-. destruct (trie_lookup _ _ _ _ _ T Hj) as (n & Hn & _).
    exists (next_pattern n). unfold next_pattern_of, node. rewrite Hn. split; [done|].
    eapply match_at_found; [done|]. by apply (Hg j n p Hn Hj).
Qed.

Definition sample_operations : list operation :=
  [AddPattern (lit "he") 1; AddPattern (lit "she") 2; BuildFailEdges; AddPattern (lit "hers") 3; AddPattern (lit "e") 4].

Lemma aho_corasick_correct_witness : exists ac res,
  (_ ← run_operations sample_operations; build_fail_edges) new_automaton = (ac, Ok tt) /\
  search_in (lit "ushers") ac = Ok res /\ length res = 6 /\
  (forall i r, res !! i = Some r -> found ac (patterns_of sample_operations) (take (S i) (lit "ushers")) r) /\
  (forall p r, pattern (patterns_of sample_operations) p -> find_node p ac = Ok r ->
     exists x, next_pattern_of r ac = Ok x /\ found ac (patterns_of sample_operations) (tail p) x).
Proof. apply (aho_corasick_correct sample_operations (lit "ushers")); [by repeat constructor|vm_compute; discriminate]. Defined.

(** The same run: [she] is found at position 3 (node 5) and [hers] at 5. *)
Example aho_corasick_ex :
  ((_ ← run_operations sample_operations; build_fail_edges) new_automaton).2 = Ok tt /\
  search_in (lit "ushers") ((_ ← run_operations sample_operations; build_fail_edges) new_automaton).1 =
    Ok [0; 0; 0; 5; 0; 7].
Proof. split; vm_compute; reflexivity. Qed.
