(* ===== verification/StringTraits.v ===== *)
(** * Predicates on strings

    Models [include/simlib/string_traits.hh]. *)

From Stdlib Require Import ZArith Lia Ascii.
From S2P Require Import Prelude.
From S2P Require Import Ctype.
From S2P Require Import StringView.

(** [compare(pos, count, s) == 0]; the callers below never pass a position past
    the end. *)
Definition compares_equal (s : str) (pos count : nat) (t : str) : bool :=
  match SV.compare_sub s pos count t with
  | Ok rc => (rc =? 0)%Z
  | _ => false
  end.

Definition has_prefix (s prefix : str) : bool :=
  compares_equal s 0 (length prefix) prefix.

Definition has_one_of_prefixes (s : str) (prefixes : list str) : bool :=
  existsb (has_prefix s) prefixes.

Definition has_suffix (s suffix : str) : bool :=
  (length suffix <=? length s) &&
  compares_equal s (length s - length suffix) (length suffix) suffix.

Definition has_one_of_suffixes (s : str) (suffixes : list str) : bool :=
  existsb (has_suffix s) suffixes.

Definition is_digit_str (s : str) : bool :=
  if SV.empty s then false else forallb is_digit s.

Definition is_alpha_str (s : str) : bool :=
  if SV.empty s then false else forallb is_alpha s.

Definition is_alnum_str (s : str) : bool :=
  if SV.empty s then false else forallb is_alnum s.

Definition is_word (c : ascii) : bool := is_alnum c || (c =c "_") || (c =c "-").

Definition is_word_str (s : str) : bool :=
  if SV.empty s then false else forallb is_word s.

Definition is_integer (s : str) : bool :=
  match s with
  | [] => false
  | c :: _ =>
      let s := if c =c "-" then SV.remove_prefix s 1 else s in
      is_digit_str s
  end.

Definition is_real (s : str) : bool :=
  match s with
  | [] => false
  | c :: _ =>
      let s := if c =c "-" then SV.remove_prefix s 1 else s in
      match SV.find_char s "." 0 with
      | None => is_digit_str s
      | Some dot_pos =>
          match SV.substring s 0 dot_pos, SV.substr_from s (dot_pos + 1) with
          | Ok int_part, Ok frac_part => is_digit_str int_part && is_digit_str frac_part
          | _, _ => false
          end
      end
  end.

(** ** Properties *)

Lemma has_prefix_spec s p : has_prefix s p = true <-> p `prefix_of` s.
Proof.
  unfold has_prefix, compares_equal, SV.compare_sub, SV.substr. simpl.
  rewrite Nat.sub_0_r, SV.compare_lex, skipn_O. split.
  - destruct (SV.lex _ _) eqn:E; try done. intros _. apply SV.lex_eq in E.
    rewrite <- E. apply prefix_take.
  - intros [k ->]. rewrite length_app, Nat.min_l, take_app_length by lia.
    by rewrite SV.lex_refl.
Qed.

Lemma has_suffix_spec s p : has_suffix s p = true <-> p `suffix_of` s.
Proof.
  unfold has_suffix, compares_equal, SV.compare_sub, SV.substr. split.
  - intros H. bools. apply Nat.leb_le in H.
    rewrite (proj2 (Nat.ltb_ge _ _)) in H0 by lia. simpl in H0.
    rewrite SV.compare_lex in H0. destruct (SV.lex _ _) eqn:E; try done.
    apply SV.lex_eq in E. rewrite take_ge in E by (rewrite length_drop; lia).
    rewrite <- E. apply suffix_drop.
  - intros [k ->]. rewrite length_app, (proj2 (Nat.leb_le _ _)) by lia.
    rewrite (proj2 (Nat.ltb_ge _ _)) by lia. simpl.
    replace (length k + length p - length p) with (length k) by lia.
    rewrite drop_app_length, take_ge by lia. rewrite SV.compare_lex, SV.lex_refl. done.
Qed.

Lemma is_digit_str_spec s :
  is_digit_str s = true <-> s <> [] /\ Forall (fun c => is_digit c = true) s.
Proof.
  unfold is_digit_str. destruct s as [|c s]; [by split; [|intros []]|].
  unfold SV.empty. cbn [length]. change (S (length s) =? 0) with false. cbv iota.
  rewrite forallb_forall, List.Forall_forall. split; [|by intros []].
  intros H. split; [done|]. done.
Qed.
