(* ===== verification/StringCompare.v ===== *)
(** * String comparisons

    Models [include/simlib/string_compare.hh] and [src/string_compare.cc]. *)

From Stdlib Require Import ZArith Lia Ascii.
From S2P Require Import Prelude.
From S2P Require Import Ctype.
From S2P Require Import StringView.
From S2P Require Import StringTraits.
Local Open Scope Z_scope.

(** ** Comparisons through a function of the characters *)

(** The loop of [special_less] over the [len] common positions: [Some] when it
    returns. *)
Fixpoint special_less_loop (f : ascii -> Z) (a b : str) (len : nat) : option bool :=
  match len, a, b with
  | S len', x :: a', y :: b' =>
      if negb (f x =? f y) then Some (f x <? f y) else special_less_loop f a' b' len'
  | _, _, _ => None
  end.

Definition special_less (f : ascii -> Z) (a b : str) : bool :=
  let len := (length a `min` length b)%nat in
  match special_less_loop f a b len with
  | Some r => r
  | None => (len <? length b)%nat
  end.

Definition special_equal (f : ascii -> Z) (a b : str) : bool :=
  if negb (length a =? length b)%nat then false
  else forallb (fun p => f p.1 =? f p.2) (zip a b).

Definition lower_equal (a b : str) : bool := special_equal (fun c => chz (to_lower c)) a b.

(** ** Strings compared as numbers *)

Definition StrNumCompare (a b : str) : bool :=
  let a := SV.remove_leading_char "0" a in
  let b := SV.remove_leading_char "0" b in
  if (length a =? length b)%nat then SV.ltb a b else (length a <? length b)%nat.

Definition is_digit_not_greater_than (max_val_str s : str) : bool :=
  is_digit_str s && negb (StrNumCompare max_val_str s).

Definition is_digit_not_less_than (min_val_str s : str) : bool :=
  is_digit_str s && negb (StrNumCompare s min_val_str).

(** ** Version strings *)

Definition common_prefix_len : str -> str -> nat :=
  fix go a b :=
    match a, b with
    | x :: a', y :: b' => if x =c y then S (go a' b') else 0%nat
    | _, _ => 0%nat
    end.

(** [while (beg > 0 and is_digit(a[beg - 1])) --beg;] *)
Fixpoint digits_begin (a : str) (beg : nat) : outcome nat :=
  match beg with
  | O => Ok O
  | S b => c ← SV.index a b; if is_digit c then digits_begin a b else Ok beg
  end.

(** [while (not str.empty() and str.front() == '0' and str != "0")]: the string
    without its leading zeros (a lone zero stays) and their number. *)
Fixpoint remove_leading_zeros (s : str) : str * nat :=
  match s with
  | c :: s' =>
      if (c =c "0") && negb (SV.eqb s (lit "0"))
      then let '(r, n) := remove_leading_zeros s' in (r, S n)
      else (s, O)
  | [] => ([], O)
  end.

Definition digit_at (s : str) (pf : nat) : bool :=
  match s !! pf with Some c => is_digit c | None => false end.

Definition less_from (a b : str) (pf : nat) : outcome bool :=
  x ← SV.substr_from a pf;
  y ← SV.substr_from b pf;
  Ok (SV.ltb x y).

Definition StrVersionCompare (a b : str) : outcome bool :=
  let pf := common_prefix_len a b in
  if negb (digit_at a pf) && negb (digit_at b pf) then less_from a b pf
  else
    beg ← digits_begin a pf;
    ra ← SV.substr_from a beg;
    rb ← SV.substr_from b beg;
    let numa := (SV.extract_leading is_digit ra).1 in
    let numb := (SV.extract_leading is_digit rb).1 in
    if SV.empty numa || SV.empty numb then less_from a b pf
    else
      let '(numa, a_leading_zeros) := remove_leading_zeros numa in
      let '(numb, b_leading_zeros) := remove_leading_zeros numb in
      if (a_leading_zeros =? 0)%nat && (b_leading_zeros =? 0)%nat then
        Ok (if (length numa =? length numb)%nat then SV.ltb numa numb
            else (length numa <? length numb)%nat)
      else if (a_leading_zeros =? 0)%nat then Ok false
      else if (b_leading_zeros =? 0)%nat then Ok true
      else Ok (if (a_leading_zeros =? b_leading_zeros)%nat then SV.ltb numa numb
               else (b_leading_zeros <? a_leading_zeros)%nat).

(** ** Comparison of a part of a string *)

Definition compare (s : str) (beg fin : nat) (t : str) : outcome Z :=
  let fin := (if length s <? fin then length s else fin)%nat in
  let beg := (if fin <? beg then fin else beg)%nat in
  SV.compare_sub s beg (fin - beg) t.

(** [npos], the end that [find] reports when there is no [c], is larger than any
    length. *)
Definition compare_to (s : str) (pos : nat) (c : ascii) (t : str) : outcome Z :=
  match SV.find_char s c pos with
  | Some fin => compare s pos fin t
  | None => compare s pos (S (length s)) t
  end.

(** ** Constant-time comparison *)

(** [for (i = 0; i < len; ++i) rc |= str1[i] ^ str2[i]] *)
Fixpoint slow_equal_loop (rc : Z) (str1 str2 : str) (len : nat) {struct len} : outcome Z :=
  match len with
  | O => Ok rc
  | S len' =>
      match str1, str2 with
      | x :: s1, y :: s2 => slow_equal_loop (Z.lor rc (Z.lxor (uchz x) (uchz y))) s1 s2 len'
      | _, _ => UB
      end
  end.

Definition slow_equal_len (str1 str2 : str) (len : nat) : outcome bool :=
  rc ← slow_equal_loop 0 str1 str2 len; Ok (rc =? 0).

Definition slow_equal (str1 str2 : str) : outcome bool :=
  r ← slow_equal_len str1 str2 (length str1 `min` length str2);
  Ok (r && (length str1 =? length str2)%nat).

(** ** The number a digit string denotes *)

Definition digit_val (c : ascii) : Z := uchz c - 48.

Definition num (s : str) : Z := fold_left (fun acc c => acc * 10 + digit_val c) s 0.

Abbreviation digits s := (Forall (fun c => is_digit c = true) s).

Lemma digit_val_range c : is_digit c = true -> 0 <= digit_val c <= 9.
Proof.
  intros H.
  assert (implb (is_digit c) ((0 <=? digit_val c) && (digit_val c <=? 9)) = true) as E
    by all_chars_compute c.
  rewrite H in E. simpl in E. lia.
Qed.

Lemma digit_val_chz c : is_digit c = true -> digit_val c = chz c - 48.
Proof.
  intros H.
  assert (implb (is_digit c) (digit_val c =? chz c - 48) = true) as E by all_chars_compute c.
  rewrite H in E. simpl in E. lia.
Qed.

Lemma num_fold s acc :
  fold_left (fun a c => a * 10 + digit_val c) s acc = acc * 10 ^ Z.of_nat (length s) + num s.
Proof.
  unfold num. revert acc. induction s as [|c s IH]; intros acc; cbn [fold_left length]; [lia|].
  rewrite IH, (IH (0 * 10 + digit_val c)), Nat2Z.inj_succ, Z.pow_succ_r by lia. nia.
Qed.

Lemma num_cons c s : num (c :: s) = digit_val c * 10 ^ Z.of_nat (length s) + num s.
Proof. unfold num at 1. cbn [fold_left]. rewrite num_fold. done. Qed.

Lemma num_app s t : num (s ++ t) = num s * 10 ^ Z.of_nat (length t) + num t.
Proof. unfold num at 1. rewrite fold_left_app, num_fold. done. Qed.

Lemma num_bound s : digits s -> 0 <= num s < 10 ^ Z.of_nat (length s).
Proof.
  induction 1 as [|c s Hc Hs IH]; [done|].
  rewrite num_cons. cbn [length]. rewrite Nat2Z.inj_succ, Z.pow_succ_r by lia.
  apply digit_val_range in Hc. nia.
Qed.

Lemma num_remove_zeros s : num (SV.remove_leading_char "0" s) = num s.
Proof.
  induction s as [|c s IH]; [done|]. unfold SV.remove_leading_char in *.
  cbn [drop_while]. destruct (c =c "0") eqn:E; [|done]. bools. subst c.
  rewrite IH, num_cons. change (digit_val "0") with 0. lia.
Qed.

Lemma num_lower c s :
  digits (c :: s) -> c <> "0"%char -> 10 ^ Z.of_nat (length s) <= num (c :: s).
Proof.
  inversion 1 as [|? ? Hc Hs]; subst. intros Hne. rewrite num_cons.
  assert (0 < digit_val c).
  { pose proof (digit_val_range c Hc). destruct (Z.eq_dec (digit_val c) 0) as [E|E]; [|lia].
    exfalso. apply Hne, chz_inj. rewrite digit_val_chz in E by done. change (chz "0") with 48. lia. }
  pose proof (num_bound s Hs). nia.
Qed.

Lemma lex_num a b : digits a -> digits b -> length a = length b ->
  SV.lex a b = (num a ?= num b).
Proof.
  intros Ha. revert b. induction Ha as [|x a Hx Ha IH]; intros [|y b] Hb; try done.
  cbn [length]. intros [= Hl]. inversion Hb as [|? ? Hy Hb']; subst. cbn [SV.lex].
  rewrite !num_cons, <- Hl.
  pose proof (num_bound a Ha) as Ba. pose proof (num_bound b Hb') as Bb. rewrite <- Hl in Bb.
  pose proof (digit_val_chz x Hx). pose proof (digit_val_chz y Hy).
  destruct (Z.compare_spec (chz x) (chz y)) as [E|E|E]; symmetry.
  - rewrite IH by done. replace (digit_val x) with (digit_val y) by lia.
    apply Zcompare_plus_compat.
  - apply Z.compare_lt_iff. nia.
  - apply Z.compare_gt_iff. nia.
Qed.

Lemma digits_drop_while f s : digits s -> digits (drop_while f s).
Proof. induction 1; simpl; [constructor|]. case_goal; auto. Qed.

Lemma StrNumCompare_spec a b : digits a -> digits b ->
  StrNumCompare a b = (num a <? num b).
Proof.
  intros Ha Hb. unfold StrNumCompare.
  rewrite <- (num_remove_zeros a), <- (num_remove_zeros b).
  assert (digits (SV.remove_leading_char "0" a)) as Ha' by (by apply digits_drop_while).
  assert (digits (SV.remove_leading_char "0" b)) as Hb' by (by apply digits_drop_while).
  assert (forall s c l, SV.remove_leading_char "0" s = c :: l -> c <> "0"%char) as Hz.
  { intros s c l E ->. apply drop_while_head in E. done. }
  specialize (Hz a) as Hza. specialize (Hz b) as Hzb. clear Hz.
  revert Ha' Hb' Hza Hzb.
  generalize (SV.remove_leading_char "0" a), (SV.remove_leading_char "0" b). clear a b Ha Hb.
  intros a b Ha Hb Hza Hzb. destruct (Nat.eqb_spec (length a) (length b)) as [E|E].
  { apply Bool.eq_iff_eq_true. rewrite SV.ltb_lex, lex_num, Z.ltb_lt by done.
    apply Z.compare_lt_iff. }
  assert (forall x y, digits x -> digits y -> (forall c l, y = c :: l -> c <> "0"%char) ->
    (length x < length y)%nat -> num x < num y) as Hlt.
  { intros x [|c y] Hx Hy Hne Hl; [simpl in Hl; lia|].
    pose proof (num_bound x Hx). pose proof (num_lower c y Hy (Hne _ _ eq_refl)).
    assert (10 ^ Z.of_nat (length x) <= 10 ^ Z.of_nat (length y)); [|lia].
    apply Z.pow_le_mono_r; [lia|]. simpl in Hl. lia. }
  destruct (Nat.ltb_spec (length a) (length b)) as [L|L]; symmetry.
  - apply Z.ltb_lt, Hlt; auto.
  - apply Z.ltb_ge, Z.lt_le_incl, Hlt; auto. lia.
Qed.

(** On strings of digits [StrNumCompare] is the order of the numbers they
    denote, whatever the leading zeros (an empty string denotes zero). *)
Theorem StrNumCompare_num a b : digits a -> digits b ->
  StrNumCompare a b = (num a <? num b).
Proof. apply StrNumCompare_spec. Qed.

Lemma StrNumCompare_num_witness : StrNumCompare (lit "007") (lit "10") = (7 <? 10).
Proof. apply (StrNumCompare_num (lit "007") (lit "10")); repeat constructor. Defined.

(** ** Constant-time comparison *)

Lemma lxor_uchz x y : Z.lxor (uchz x) (uchz y) = 0 <-> x = y.
Proof.
  rewrite Z.lxor_eq_0_iff. split; [|by intros ->].
  intros H. rewrite <- (char_of_uchz x), <- (char_of_uchz y). congruence.
Qed.

Lemma slow_equal_loop_spec n rc s t :
  (n <= length s)%nat -> (n <= length t)%nat ->
  exists r, slow_equal_loop rc s t n = Ok r /\ (r = 0 <-> rc = 0 /\ take n s = take n t).
Proof.
  revert rc s t. induction n as [|n IH]; intros rc s t Hs Ht; [exists rc; by rewrite !take_0; naive_solver|].
  destruct s as [|x s], t as [|y t]; cbn [length] in Hs, Ht; try lia.
  cbn [slow_equal_loop take].
  destruct (IH (Z.lor rc (Z.lxor (uchz x) (uchz y))) s t) as (r & -> & Hr); [lia..|].
  exists r. split; [done|]. rewrite Hr, Z.lor_eq_0_iff, lxor_uchz. split.
  - intros ([-> ->] & ->). done.
  - intros [-> [= -> ->]]. done.
Qed.

(** [slow_equal] never reads past either string and answers exactly whether
    the two strings are equal. *)
Theorem slow_equal_correct s t : slow_equal s t = Ok (bool_decide (s = t)).
Proof.
  unfold slow_equal, slow_equal_len.
  destruct (slow_equal_loop_spec (length s `min` length t) 0 s t) as (r & -> & Hr); [lia..|].
  simpl. f_equal. apply Bool.eq_iff_eq_true.
  rewrite bool_decide_eq_true, andb_true_iff, Z.eqb_eq, Nat.eqb_eq, Hr. split.
  - intros [[_ H] E]. rewrite <- E, Nat.min_id in H. rewrite (take_ge s) in H by lia.
    rewrite take_ge in H by lia. done.
  - intros ->. done.
Qed.
