(* ===== verification/StringTransform.v ===== *)
(** * Conversions between strings, numbers and encodings

    Models [include/simlib/string_transform.hh] and the integer part of
    [include/simlib/to_string.hh]. *)

From Stdlib Require Import ZArith Lia Ascii.
From S2P Require Import Prelude.
From S2P Require Import Ctype.
From S2P Require Import StringView.
From S2P Require Import StringTraits.
From S2P Require Import StringCompare.
Local Open Scope Z_scope.

(** ** Machine integer types *)

Record int_type := IntType { is_signed : bool; int_min : Z; int_max : Z }.

Definition int64 : int_type := IntType true (- 2 ^ 63) (2 ^ 63 - 1).
Definition uint64 : int_type := IntType false 0 (2 ^ 64 - 1).
Definition int32 : int_type := IntType true (- 2 ^ 31) (2 ^ 31 - 1).
Definition uint32 : int_type := IntType false 0 (2 ^ 32 - 1).
Definition uint8 : int_type := IntType false 0 255.

Definition in_range (T : int_type) (x : Z) : bool := (int_min T <=? x) && (x <=? int_max T).

(** ** Integer to string *)

(** [while (x) { x2 = x / 10; res[len++] = x - x2 * 10 + '0'; x = x2; }] *)
Fixpoint to_string_loop (fuel : nat) (x : Z) (res : str) : str :=
  match fuel with
  | O => res
  | S fuel' =>
      if x =? 0 then res
      else
        let x2 := Z.quot x 10 in
        to_string_loop fuel' x2 (res ++ [char_of (x - x2 * 10 + 48)])
  end.

(** The same loop for a negative number, whose digits are [x2 * 10 - x]. *)
Fixpoint to_string_neg_loop (fuel : nat) (x : Z) (res : str) : str :=
  match fuel with
  | O => res
  | S fuel' =>
      if x =? 0 then res
      else
        let x2 := Z.quot x 10 in
        to_string_neg_loop fuel' x2 (res ++ [char_of (x2 * 10 - x + 48)])
  end.

(** A number has no more decimal than binary digits, so one iteration per bit is
    enough (see [to_string_loop_spec]). *)
Definition to_string_fuel (x : Z) : nat := S (Z.to_nat (Z.log2 (Z.abs x))).

Definition to_string (x : Z) : str :=
  if x =? 0 then lit "0"
  else if x <? 0 then rev (to_string_neg_loop (to_string_fuel x) x [] ++ lit "-")
  else rev (to_string_loop (to_string_fuel x) x []).

Definition to_string_bool (x : bool) : str := if x then lit "true" else lit "false".

(** ** String to integer *)

Fixpoint str2num_loop (T : int_type) (minus : bool) (res : Z) (s : str) : option Z :=
  match s with
  | [] => Some res
  | c :: s' =>
      if negb (is_digit c) then None
      else
        let mul := res * 10 in
        if negb (in_range T mul) then None
        else
          let add := mul + (if minus then 48 - uchz c else uchz c - 48) in
          if negb (in_range T add) then None
          else str2num_loop T minus add s'
  end.

Definition str2num (T : int_type) (s : str) : option Z :=
  match s with
  | [] => None
  | c :: s' =>
      let minus := is_signed T && (c =c "-") in
      let s := if minus then s' else s in
      match s with
      | [] => None
      | d :: rest =>
          if negb (is_digit d) then None
          else str2num_loop T minus (if minus then 48 - chz d else chz d - 48) rest
      end
  end.

Definition str2num_bool (s : str) : option bool :=
  match str2num uint8 s with
  | Some x => if x <=? 1 then Some (negb (x =? 0)) else None
  | None => None
  end.

Definition str2num_in (T : int_type) (s : str) (min_val max_val : Z) : option Z :=
  match str2num T s with
  | Some x => if (x <? min_val) || (max_val <? x) then None else Some x
  | None => None
  end.

(** ** Hexadecimal digits *)

Definition to_lower_str (s : str) : str := map to_lower s.

Definition hex2dec (c : ascii) : Z :=
  if c <c "A" then chz c - 48
  else 10 + chz c - (if "a" <=c c then 97 else 65).

Definition dec2hex (x : Z) : ascii := char_of (if 9 <? x then 97 - 10 + x else x + 48).

Definition dec2Hex (x : Z) : ascii := char_of (if 9 <? x then 65 - 10 + x else x + 48).

Definition to_hex (s : str) : str :=
  flat_map (fun c => [dec2hex (Z.shiftr (uchz c) 4); dec2hex (Z.land (uchz c) 15)]) s.

(** ** URI encoding *)

Definition uri_is_safe (c : ascii) : bool :=
  (("a" <=c c) && (c <=c "z")) || (("A" <=c c) && (c <=c "Z")) || (("0" <=c c) && (c <=c "9"))
  || existsb (char_eqb c) (lit "-_.~").

Definition encode_uri (s : str) : str :=
  flat_map (fun c =>
    if uri_is_safe c then [c]
    else ["%"%char; dec2Hex (Z.shiftr (uchz c) 4); dec2Hex (Z.land (uchz c) 15)]) s.

Fixpoint decode_uri (s : str) : str :=
  match s with
  | [] => []
  | c :: s' =>
      match s' with
      | h :: l :: rest =>
          if (c =c "%") && is_xdigit h && is_xdigit l
          then char_of (Z.lor (Z.shiftl (hex2dec h) 4) (hex2dec l)) :: decode_uri rest
          else (if c =c "+" then " "%char else c) :: decode_uri s'
      | _ => (if c =c "+" then " "%char else c) :: decode_uri s'
      end
  end.

(** ** HTML *)

Definition append_as_html_escaped_char (s : str) (c : ascii) : str :=
  s ++ (if c =c "&" then lit "&amp;"
        else if c =c DQ then lit "&quot;"
        else if c =c SQ then lit "&apos;"
        else if c =c "<" then lit "&lt;"
        else if c =c ">" then lit "&gt;"
        else [c]).

Definition append_as_html_escaped (s t : str) : str :=
  fold_left append_as_html_escaped_char t s.

Definition html_escape (s : str) : str := append_as_html_escaped [] s.

(** ** JSON strings *)

Definition json_safe_append (s : str) (c : ascii) : str :=
  s ++ (if c =c DQ then [BSLASH; DQ]
        else if c =c NL then [BSLASH; "n"%char]
        else if c =c BSLASH then [BSLASH; BSLASH]
        else if is_cntrl c then
          lit "\u00" ++ [dec2hex (Z.shiftr (uchz c) 4); dec2hex (Z.land (uchz c) 15)]
        else [c]).

Definition append_stringified_json (s : str) (args : list str) : str :=
  fold_left (fun acc arg => fold_left json_safe_append arg acc) args (s ++ [DQ]) ++ [DQ].

Definition json_stringify (args : list str) : str := append_stringified_json [] args.

(** ** Padding *)

Inductive Adjustment := LEFT | RIGHT.

Definition padded_string (s : str) (len : nat) (adj : Adjustment) (filler : ascii) : str :=
  if (len <=? length s)%nat then s
  else
    match adj with
    | LEFT => s ++ replicate (len - length s) filler
    | RIGHT => replicate (len - length s) filler ++ s
    end.

(** * Properties *)

(** ** Integers *)

Lemma char_of_digit d : 0 <= d <= 9 ->
  is_digit (char_of (d + 48)) = true /\ digit_val (char_of (d + 48)) = d.
Proof.
  intros H. assert (d = 0 \/ d = 1 \/ d = 2 \/ d = 3 \/ d = 4 \/ d = 5 \/ d = 6 \/ d = 7 \/ d = 8 \/ d = 9)
    as Hd by lia.
  repeat (destruct Hd as [->|Hd]; [by vm_compute|]). subst. by vm_compute.
Qed.

(** The digits come out least significant first; reversed they denote [x] and
    have no leading zero. *)
Lemma to_string_loop_spec fuel : forall x res, 0 <= x < 2 ^ Z.of_nat fuel ->
  exists ds, rev (to_string_loop fuel x res) = ds ++ rev res /\ digits ds /\ num ds = x /\
    (x = 0 -> ds = []) /\ (0 < x -> exists c l, ds = c :: l /\ c <> "0"%char).
Proof.
  induction fuel as [|fuel IH]; intros x res Hx.
  { exists []. simpl in Hx. assert (x = 0) as -> by lia. split_and!; done. }
  cbn [to_string_loop]. destruct (Z.eqb_spec x 0) as [->|Hne].
  { exists []. split_and!; try done; lia. }
  rewrite Z.quot_div_nonneg by lia.
  pose proof (Z.div_mod x 10 ltac:(lia)) as Hdm. pose proof (Z.mod_pos_bound x 10 ltac:(lia)) as Hm.
  replace (x - x / 10 * 10) with (x mod 10) by lia.
  destruct (char_of_digit (x mod 10)) as [Hd Hv]; [lia|].
  destruct (IH (x / 10) (res ++ [char_of (x mod 10 + 48)])) as (ds & -> & Hds & Hn & Hnil & Hz).
  { split; [apply Z.div_pos; lia|]. rewrite Nat2Z.inj_succ, Z.pow_succ_r in Hx by lia.
    apply Z.div_lt_upper_bound; lia. }
  exists (ds ++ [char_of (x mod 10 + 48)]). rewrite rev_app_distr. split_and!.
  - by rewrite <- app_assoc.
  - apply Forall_app. auto.
  - rewrite num_app, Hn, num_cons, Hv. simpl. unfold num. simpl. lia.
  - lia.
  - intros _. pose proof (Z.div_pos x 10 ltac:(lia) ltac:(lia)).
    destruct (Z.eq_dec (x / 10) 0) as [E|E].
    + rewrite (Hnil E). exists (char_of (x mod 10 + 48)), []. split; [done|]. intros E2.
      rewrite E2 in Hv. change (digit_val "0") with 0 in Hv. lia.
    + destruct Hz as (c & l & -> & Hc); [lia|].
      exists c, (l ++ [char_of (x mod 10 + 48)]). done.
Qed.

Lemma to_string_neg_loop_opp fuel x res :
  to_string_neg_loop fuel x res = to_string_loop fuel (- x) res.
Proof.
  revert x res. induction fuel as [|fuel IH]; intros x res; [done|].
  cbn [to_string_neg_loop to_string_loop].
  destruct (Z.eqb_spec x 0), (Z.eqb_spec (- x) 0); try lia; [done|].
  rewrite IH, Z.quot_opp_l by lia. do 4 f_equal. lia.
Qed.

Lemma to_string_fuel_enough x : 0 < x -> 0 <= x < 2 ^ Z.of_nat (to_string_fuel x).
Proof.
  intros Hx. unfold to_string_fuel. rewrite Nat2Z.inj_succ, Z2Nat.id by apply Z.log2_nonneg.
  rewrite Z.abs_eq by lia. pose proof (Z.log2_spec x Hx). lia.
Qed.

(** The decimal representation: a sign, then digits without a leading zero. *)
Lemma to_string_pos x : 0 < x ->
  digits (to_string x) /\ num (to_string x) = x /\
  exists c l, to_string x = c :: l /\ c <> "0"%char.
Proof.
  intros Hx. unfold to_string. destruct (Z.eqb_spec x 0), (Z.ltb_spec x 0); try lia.
  destruct (to_string_loop_spec _ x [] (to_string_fuel_enough x Hx)) as (ds & -> & Hd & Hn & _ & Hz).
  rewrite app_nil_r. auto.
Qed.

Lemma to_string_neg x : x < 0 -> to_string x = "-"%char :: to_string (- x).
Proof.
  intros Hx. unfold to_string at 1. destruct (Z.eqb_spec x 0), (Z.ltb_spec x 0); try lia.
  rewrite rev_app_distr. cbn [rev app lit String.list_ascii_of_string]. f_equal. unfold to_string.
  destruct (Z.eqb_spec (- x) 0), (Z.ltb_spec (- x) 0); try lia.
  rewrite to_string_neg_loop_opp. unfold to_string_fuel. by rewrite Z.abs_opp.
Qed.

Lemma to_string_nonneg x : 0 <= x ->
  to_string x <> [] /\ digits (to_string x) /\ num (to_string x) = x.
Proof.
  intros Hx. destruct (Z.eq_dec x 0) as [->|]; [change (to_string 0) with (lit "0"); split_and!; [discriminate|repeat constructor|done]|].
  destruct (to_string_pos x) as (H1 & H2 & c & l & E & _); [lia|].
  split_and!; auto. by rewrite E.
Qed.

(** What [str2num] reads: an optional minus sign for signed types, then at least
    one digit. *)
Definition read_int (signed : bool) (s : str) : option Z :=
  match s with
  | [] => None
  | c :: s' =>
      if signed && (c =c "-") then (if is_digit_str s' then Some (- num s') else None)
      else if is_digit_str s then Some (num s) else None
  end.

Lemma str2num_loop_spec T (minus : bool) s : int_min T <= 0 <= int_max T ->
  forall res, in_range T res = true -> (if minus then res <= 0 else 0 <= res) ->
  str2num_loop T minus res s =
    if forallb is_digit s then
      let v := res * 10 ^ Z.of_nat (length s) + (if minus then - num s else num s) in
      if in_range T v then Some v else None
    else None.
Proof.
  intros HT. induction s as [|c s IH]; intros res Hr Hs.
  { cbn. unfold num. cbn. destruct minus; rewrite ?Z.mul_1_r, ?Z.add_0_r, Hr; done. }
  cbn [str2num_loop forallb]. destruct (is_digit c) eqn:Hc; [|done]. cbn [negb andb].
  pose proof (digit_val_range c Hc) as Hd. unfold digit_val in Hd.
  assert (forallb is_digit s = true -> 0 <= num s < 10 ^ Z.of_nat (length s)) as Hb.
  { intros H. apply num_bound. rewrite List.Forall_forall. by rewrite forallb_forall in H. }
  cbn zeta. rewrite num_cons. unfold digit_val. cbn [length]. rewrite Nat2Z.inj_succ, Z.pow_succ_r by lia.
  assert (0 < 10 ^ Z.of_nat (length s)) as Hp by (apply Z.pow_pos_nonneg; lia).
  unfold in_range in *. destruct (int_min T <=? res * 10) eqn:E1, (res * 10 <=? int_max T) eqn:E2; cbn [andb negb].
  2,3,4: destruct (forallb is_digit s); [|done]; specialize (Hb eq_refl);
    symmetry; rewrite (proj2 (andb_false_iff _ _)); [done|];
    rewrite !Z.leb_gt; destruct minus; first [left; nia | right; nia].
  destruct (int_min T <=? res * 10 + _) eqn:E3, (res * 10 + _ <=? int_max T) eqn:E4; cbn [andb negb].
  2,3,4: destruct (forallb is_digit s); [|done]; specialize (Hb eq_refl);
    symmetry; rewrite (proj2 (andb_false_iff _ _)); [done|];
    rewrite !Z.leb_gt; destruct minus; first [left; nia | right; nia].
  rewrite IH; [|by rewrite E3, E4|destruct minus; lia].
  destruct (forallb is_digit s); [|done]. cbn zeta.
  match goal with |- (if (_ <=? ?a) && _ then _ else _) = (if (_ <=? ?b) && _ then _ else _) =>
    replace a with b by (destruct minus; nia) end. done.
Qed.

(** The integer types [str2num] is used with: they hold every digit. *)
Definition holds_digits (T : int_type) : Prop :=
  int_min T <= (if is_signed T then -9 else 0) /\ 9 <= int_max T.

Lemma is_digit_str_forallb s : is_digit_str s = negb (SV.empty s) && forallb is_digit s.
Proof. unfold is_digit_str. by destruct (SV.empty s). Qed.

Lemma str2num_spec T s : holds_digits T ->
  str2num T s =
    match read_int (is_signed T) s with
    | Some v => if in_range T v then Some v else None
    | None => None
    end.
Proof.
  intros [Hmin Hmax]. unfold str2num, read_int. destruct s as [|c s]; [done|].
  assert (int_min T <= 0 <= int_max T) as HT by (destruct (is_signed T); lia).
  assert (forall (minus : bool) d rest, (minus = true -> is_signed T = true) ->
    (if negb (is_digit d) then None
     else str2num_loop T minus (if minus then 48 - chz d else chz d - 48) rest) =
    match (if is_digit_str (d :: rest)
           then Some (if minus then - num (d :: rest) else num (d :: rest)) else None) with
    | Some v => if in_range T v then Some v else None
    | None => None
    end) as Hmain.
  { intros minus d rest Hm. rewrite is_digit_str_forallb. simpl.
    destruct (is_digit d) eqn:Hd; [|done]. simpl.
    pose proof (digit_val_range d Hd). pose proof (digit_val_chz d Hd).
    rewrite str2num_loop_spec; [|done| |destruct minus; lia].
    2: { unfold in_range. destruct minus; [rewrite Hm in Hmin by done|]; lia. }
    destruct (forallb is_digit rest); [|done]. cbn zeta. rewrite num_cons.
    replace (48 - chz d) with (- digit_val d) by lia. replace (chz d - 48) with (digit_val d) by lia.
    replace (_ * 10 ^ _ + _)
      with (if minus then - (digit_val d * 10 ^ Z.of_nat (length rest) + num rest)
            else digit_val d * 10 ^ Z.of_nat (length rest) + num rest) by (destruct minus; lia).
    done. }
  destruct (is_signed T && (c =c "-")) eqn:E.
  - destruct s as [|d rest]; [done|]. apply Hmain. intros _. by bools.
  - apply Hmain. done.
Qed.

(** C40: [str2num<T>] accepts exactly the decimal integers (with a minus sign only
    when [T] is signed) whose value fits in [T], and returns that value; the
    overflow checks on the partial results reject nothing else. *)
Theorem str2num_correct T s : holds_digits T ->
  str2num T s =
    match read_int (is_signed T) s with
    | Some v => if in_range T v then Some v else None
    | None => None
    end.
Proof. apply str2num_spec. Qed.

Lemma str2num_correct_witness : holds_digits int64 /\
  str2num int64 (lit "-9223372036854775809") =
    match read_int (is_signed int64) (lit "-9223372036854775809") with
    | Some v => if in_range int64 v then Some v else None
    | None => None
    end.
Proof.
  assert (holds_digits int64) as H by (split; discriminate).
  split; [exact H|]. apply (str2num_correct int64 (lit "-9223372036854775809") H).
Defined.

(** The decimal text of a value of the type is read back. *)
Lemma str2num_to_string_spec T x : holds_digits T -> (is_signed T = false -> int_min T = 0) ->
  in_range T x = true -> str2num T (to_string x) = Some x.
Proof.
  intros HT Hu Hr. rewrite str2num_spec by done.
  destruct (Z_lt_le_dec x 0) as [Hx|Hx].
  - rewrite to_string_neg by done. unfold read_int.
    destruct (is_signed T) eqn:Hs; [|unfold in_range in Hr; specialize (Hu eq_refl); lia].
    simpl. destruct (to_string_nonneg (- x)) as (H1 & H2 & H3); [lia|].
    rewrite (proj2 (is_digit_str_spec _)) by done. rewrite H3, Z.opp_involutive, Hr. done.
  - destruct (to_string_nonneg x) as (H1 & H2 & H3); [lia|].
    unfold read_int. destruct (to_string x) as [|c l] eqn:E; [done|].
    replace (c =c "-") with false; [rewrite andb_false_r|].
    + rewrite (proj2 (is_digit_str_spec (c :: l))) by done. rewrite H3, Hr. done.
    + inversion H2 as [|? ? Hc]; subst. symmetry. apply char_eqb_neq. intros ->. done.
Qed.

(** [str2num<T>(to_string(x)) == x] for every value of an integer type. *)
Theorem str2num_to_string T x : holds_digits T -> (is_signed T = false -> int_min T = 0) ->
  in_range T x = true -> str2num T (to_string x) = Some x.
Proof. apply str2num_to_string_spec. Qed.

Lemma str2num_to_string_witness :
  str2num int64 (to_string (-9223372036854775808)) = Some (-9223372036854775808).
Proof.
  apply (str2num_to_string int64 (-9223372036854775808)); [split; discriminate|done|reflexivity].
Defined.

(** [is_digit_not_greater_than<MAX>]: digits only, and a number not above [MAX]. *)
Lemma is_digit_not_greater_than_spec m s : 0 <= m ->
  is_digit_not_greater_than (to_string m) s = true <->
  s <> [] /\ digits s /\ num s <= m.
Proof.
  intros Hm. destruct (to_string_nonneg m Hm) as (H1 & H2 & H3).
  unfold is_digit_not_greater_than. rewrite andb_true_iff, negb_true_iff, is_digit_str_spec.
  split.
  - intros [[Hne Hd] Hc]. rewrite StrNumCompare_spec, H3 in Hc by done. split_and!; auto. lia.
  - intros (Hne & Hd & Hc). split; [done|]. rewrite StrNumCompare_spec, H3 by done. lia.
Qed.

(** ** URI *)

Lemma decode_uri_plain c s : c <> "%"%char -> c <> "+"%char ->
  decode_uri (c :: s) = c :: decode_uri s.
Proof.
  intros H1 H2. apply char_eqb_neq in H1, H2. cbn [decode_uri]. rewrite H1, H2.
  by destruct s as [|h [|l s]].
Qed.

Lemma decode_uri_escaped h l s : is_xdigit h = true -> is_xdigit l = true ->
  decode_uri ("%"%char :: h :: l :: s) =
  char_of (Z.lor (Z.shiftl (hex2dec h) 4) (hex2dec l)) :: decode_uri s.
Proof. intros Hh Hl. cbn [decode_uri]. by rewrite Hh, Hl. Qed.

Lemma uri_safe_plain c : uri_is_safe c = true -> c <> "%"%char /\ c <> "+"%char.
Proof. intros H. split; intros ->; discriminate. Qed.

Lemma dec2Hex_xdigits c :
  is_xdigit (dec2Hex (Z.shiftr (uchz c) 4)) = true /\
  is_xdigit (dec2Hex (Z.land (uchz c) 15)) = true /\
  char_of (Z.lor (Z.shiftl (hex2dec (dec2Hex (Z.shiftr (uchz c) 4))) 4)
                 (hex2dec (dec2Hex (Z.land (uchz c) 15)))) = c.
Proof.
  assert (forall P Q R : bool, P && Q && R = true -> P = true /\ Q = true /\ R = true) as Hand
    by (intros [] [] []; done).
  rewrite <- (char_eqb_eq _ c). apply Hand. all_chars_compute c.
Qed.

(** [decode_uri(encode_uri(s)) == s] for every byte string. *)
Theorem decode_encode_uri s : decode_uri (encode_uri s) = s.
Proof.
  induction s as [|c s IH]; [done|]. unfold encode_uri in *. cbn [flat_map].
  destruct (uri_is_safe c) eqn:E; cbn [app].
  - apply uri_safe_plain in E as [H1 H2]. by rewrite decode_uri_plain, IH.
  - destruct (dec2Hex_xdigits c) as (H1 & H2 & H3).
    by rewrite decode_uri_escaped, IH, H3.
Qed.

(** ** HTML *)

Definition html_entity (c : ascii) : str := append_as_html_escaped_char [] c.

(** What a browser shows for text with the five entities: the inverse that
    [html_escape] has to be right for. *)
Fixpoint strip_prefix (p s : str) : option str :=
  match p, s with
  | [], _ => Some s
  | x :: p', y :: s' => if x =c y then strip_prefix p' s' else None
  | _, [] => None
  end.

Definition html_read_one (s : str) : option (ascii * str) :=
  match s with
  | [] => None
  | c :: s' =>
      match strip_prefix (lit "&amp;") s, strip_prefix (lit "&quot;") s,
            strip_prefix (lit "&apos;") s, strip_prefix (lit "&lt;") s,
            strip_prefix (lit "&gt;") s with
      | Some r, _, _, _, _ => Some ("&"%char, r)
      | _, Some r, _, _, _ => Some (DQ, r)
      | _, _, Some r, _, _ => Some (SQ, r)
      | _, _, _, Some r, _ => Some ("<"%char, r)
      | _, _, _, _, Some r => Some (">"%char, r)
      | _, _, _, _, _ => Some (c, s')
      end
  end.

Fixpoint html_unescape (fuel : nat) (s : str) : str :=
  match fuel with
  | O => []
  | S fuel' =>
      match html_read_one s with
      | Some (c, r) => c :: html_unescape fuel' r
      | None => []
      end
  end.

Lemma html_escape_flat_map s : html_escape s = flat_map html_entity s.
Proof. exact (fold_left_append html_entity s []). Qed.

Lemma html_read_one_entity c r : html_read_one (html_entity c ++ r) = Some (c, r).
Proof.
  unfold html_entity, append_as_html_escaped_char.
  repeat match goal with
  | |- context [if ?x =c ?y then _ else _] => destruct (x =c y) eqn:?; bools; [by subst|]
  end.
  assert (("&"%char =c c) = false) as E by (by apply char_eqb_neq).
  cbn [app html_read_one lit String.list_ascii_of_string strip_prefix]. by rewrite E.
Qed.

Lemma html_entity_nonempty c : (1 <= length (html_entity c))%nat.
Proof.
  unfold html_entity, append_as_html_escaped_char. rewrite length_app.
  repeat case_goal; simpl; lia.
Qed.

(** [html_escape] is safe to place in HTML and loses nothing: its output has
    none of the characters [<], [>], double and single quote, and reading the
    entities back gives the original text. *)
Theorem html_escape_correct s :
  (forall c, c ∈ html_escape s -> c <> "<"%char /\ c <> ">"%char /\ c <> DQ /\ c <> SQ) /\
  html_unescape (length (html_escape s)) (html_escape s) = s.
Proof.
  rewrite html_escape_flat_map. split.
  - intros c Hc. rewrite list_elem_of_In, in_flat_map in Hc. destruct Hc as (x & _ & Hc).
    assert (forallb (fun d => negb (existsb (char_eqb d) (lit "<>" ++ [DQ; SQ]))) (html_entity x) = true)
      as H by all_chars_compute x.
    rewrite forallb_forall in H. specialize (H c Hc).
    repeat split; intros ->; discriminate.
  - assert (forall n, (length (flat_map html_entity s) <= n)%nat ->
      html_unescape n (flat_map html_entity s) = s) as H; [|by apply H].
    induction s as [|c s IH]; intros n Hn; [by destruct n|].
    cbn [flat_map] in *. rewrite length_app in Hn. pose proof (html_entity_nonempty c).
    destruct n as [|n]; [lia|]. cbn [html_unescape]. rewrite html_read_one_entity.
    f_equal. apply IH. lia.
Qed.

(** ** JSON *)

(** The reader of a JSON string literal after its opening quotation mark, for
    the escapes the writer uses: the string and what follows the literal. *)
Fixpoint json_read (s : str) : option (str * str) :=
  match s with
  | [] => None
  | c :: s' =>
      if c =c DQ then Some ([], s')
      else if c =c BSLASH then
        match s' with
        | e :: s2 =>
            if (e =c DQ) || (e =c BSLASH) then prod_map (cons e) id <$> json_read s2
            else if e =c "n" then prod_map (cons NL) id <$> json_read s2
            else if e =c "u" then
              match s2 with
              | "0"%char :: "0"%char :: h :: l :: s3 =>
                  if is_xdigit h && is_xdigit l
                  then prod_map (cons (char_of (Z.lor (Z.shiftl (hex2dec h) 4) (hex2dec l)))) id <$> json_read s3
                  else None
              | _ => None
              end
            else None
        | [] => None
        end
      else if is_cntrl c then None
      else prod_map (cons c) id <$> json_read s'
  end.

Definition json_char (c : ascii) : str := json_safe_append [] c.

Lemma json_stringify_flat_map args :
  json_stringify args = DQ :: flat_map json_char (concat args) ++ [DQ].
Proof.
  unfold json_stringify, append_stringified_json.
  assert (forall acc, fold_left (fun acc arg => fold_left json_safe_append arg acc) args acc =
    acc ++ flat_map json_char (concat args)) as H.
  { induction args as [|a args IH]; intros acc; simpl; [by rewrite app_nil_r|].
    rewrite IH. rewrite (fold_left_append json_char a acc : fold_left json_safe_append a acc = _).
    by rewrite flat_map_app, app_assoc. }
  rewrite H. done.
Qed.

Lemma dec2hex_xdigits c :
  is_xdigit (dec2hex (Z.shiftr (uchz c) 4)) && is_xdigit (dec2hex (Z.land (uchz c) 15)) = true /\
  char_of (Z.lor (Z.shiftl (hex2dec (dec2hex (Z.shiftr (uchz c) 4))) 4)
                 (hex2dec (dec2hex (Z.land (uchz c) 15)))) = c.
Proof.
  rewrite <- (char_eqb_eq _ c). apply andb_true_iff. all_chars_compute c.
Qed.

Lemma json_read_char c s : json_read (json_char c ++ s) = prod_map (cons c) id <$> json_read s.
Proof.
  unfold json_char, json_safe_append. cbn [app].
  destruct (c =c DQ) eqn:E1; bools; [by subst|].
  destruct (c =c NL) eqn:E2; bools; [by subst|].
  destruct (c =c BSLASH) eqn:E3; bools; [by subst|].
  destruct (is_cntrl c) eqn:E4.
  - destruct (dec2hex_xdigits c) as [H1 H2]. cbn -[is_xdigit hex2dec dec2hex char_of Z.lor Z.shiftl].
    by rewrite H1, H2.
  - cbn [app json_read]. apply char_eqb_neq in E1, E3. by rewrite E1, E3, E4.
Qed.

Lemma json_read_string s rest : json_read (flat_map json_char s ++ DQ :: rest) = Some (s, rest).
Proof.
  induction s as [|c s IH]; [done|]. cbn [flat_map]. by rewrite <- app_assoc, json_read_char, IH.
Qed.

(** [json_stringify(args...)] is a JSON string literal that denotes the
    concatenation of the arguments: a reader that rejects raw control
    characters and unknown escapes reads it back. *)
Theorem json_stringify_correct args :
  exists body, json_stringify args = DQ :: body /\ json_read body = Some (concat args, []).
Proof.
  exists (flat_map json_char (concat args) ++ [DQ]). split; [apply json_stringify_flat_map|]. apply json_read_string.
Qed.

(** ** Padding *)

Lemma length_padded_string s len adj filler :
  length (padded_string s len adj filler) = (length s `max` len)%nat.
Proof.
  unfold padded_string. destruct (Nat.leb_spec len (length s)); [lia|].
  destruct adj; rewrite length_app, length_replicate; lia.
Qed.
