(* ===== verification/JsonStr.v ===== *)
(** * Building JSON texts

    Models [include/simlib/json_str/json_str.hh].  A builder writes to the end of
    one string; what a caller does with a builder (also in the functions it
    passes for nested arrays and objects) is the sequence of its calls.  The
    theorems compare the text with a JSON reader. *)

From Stdlib Require Import ZArith Lia Ascii.
From S2P Require Import Prelude.
From S2P Require Import Ctype.
From S2P Require Import StringView.
From S2P Require Import StringCompare.
From S2P Require Import StringTransform.
Local Open Scope Z_scope.

(** ** The builders *)

(** What [append_value] tells apart by type. *)
Inductive value :=
| VBool (b : bool)
| VNull
| VInt (x : Z)
| VChar (c : ascii)
| VOptional (o : option value)
| VEnum (name : str)
| VString (s : str).

Definition append_raw_value (arg s : str) : str := s ++ arg ++ lit ",".

(** An integer other than a [char] is written with [to_string], a [char] as it
    is; the quoted name of an enumerator is a literal. *)
Fixpoint append_value (v : value) (s : str) : str :=
  match v with
  | VBool b => append_raw_value (if b then lit "true" else lit "false") s
  | VNull => append_raw_value (lit "null") s
  | VInt x => append_raw_value (to_string x) s
  | VChar c => append_raw_value [c] s
  | VOptional (Some v) => append_value v s
  | VOptional None => append_raw_value (lit "null") s
  | VEnum name => append_raw_value ([DQ] ++ name ++ [DQ]) s
  | VString x => append_stringified_json s [x] ++ lit ","
  end.

(** [end()] of both builders, with the closing bracket. *)
Definition end_ (bracket : ascii) (s : str) : outcome str :=
  match last s with
  | None => UB
  | Some c => Ok (if c =c "," then removelast s ++ [bracket] else s ++ [bracket])
  end.

Definition append_prop_name (name s : str) : str := s ++ [DQ] ++ name ++ [DQ] ++ lit ":".

(** The calls of a builder: [val_raw], [val], [val_arr] and [val_obj] of an
    array; an object has the same with a name ([prop_raw], [prop], [prop_arr],
    [prop_obj]). *)
Inductive call :=
| Raw (arg : str)
| Val (v : value)
| Arr (calls : list call)
| Obj (props : list (str * call)).

Definition run_list {A} (f : A -> str -> outcome str) : list A -> str -> outcome str :=
  fix go l s := match l with [] => Ok s | x :: l' => s ← f x s; go l' s end.

(** A call of an object builder: the name, then as in an array. *)
Definition run_prop {C} (run : C -> str -> outcome str) : str * C -> str -> outcome str :=
  fun '(name, c) s => run c (append_prop_name name s).

(** [append_raw_value], [append_value], [append_arr] and [append_obj]. *)
Fixpoint run_call (c : call) (s : str) : outcome str :=
  match c with
  | Raw arg => Ok (append_raw_value arg s)
  | Val v => Ok (append_value v s)
  | Arr calls =>
      s ← run_list run_call calls (s ++ lit "[");
      s ← end_ "]"%char s;
      Ok (s ++ lit ",")
  | Obj props =>
      s ← run_list (run_prop run_call) props (s ++ lit "{");
      s ← end_ "}"%char s;
      Ok (s ++ lit ",")
  end.

(** [Array] and [Object] with [into_str]. *)
Definition array_into_str (calls : list call) : outcome str :=
  s ← run_list run_call calls (lit "[");
  end_ "]"%char s.

Definition object_into_str (props : list (str * call)) : outcome str :=
  s ← run_list (run_prop run_call) props (lit "{");
  end_ "}"%char s.

(** ** The text, without the bookkeeping of commas *)

Fixpoint render_value (v : value) : str :=
  match v with
  | VBool b => if b then lit "true" else lit "false"
  | VNull | VOptional None => lit "null"
  | VInt x => to_string x
  | VChar c => [c]
  | VOptional (Some v) => render_value v
  | VEnum name => [DQ] ++ name ++ [DQ]
  | VString s => json_stringify [s]
  end.

Definition render_prop (name text : str) : str := [DQ] ++ name ++ [DQ] ++ lit ":" ++ text.

Fixpoint render (c : call) : str :=
  match c with
  | Raw arg => arg
  | Val v => render_value v
  | Arr calls => lit "[" ++ join (lit ",") (render <$> calls) ++ lit "]"
  | Obj props => lit "{" ++ join (lit ",") ((fun '(name, c) => render_prop name (render c)) <$> props) ++ lit "}"
  end.

(** Induction over a call and the calls inside it. *)
Lemma call_ind' (P : call -> Prop) :
  (forall arg, P (Raw arg)) -> (forall v, P (Val v)) -> (forall l, Forall P l -> P (Arr l)) ->
  (forall l, Forall (fun p => P p.2) l -> P (Obj l)) -> forall c, P c.
Proof.
  intros H1 H2 H3 H4. fix IH 1. intros [arg|v|l|l]; [apply H1|apply H2|apply H3|apply H4].
  - induction l as [|c l IHl]; constructor; [apply IH|apply IHl].
  - induction l as [|[n c] l IHl]; constructor; [apply IH|apply IHl].
Qed.

Lemma append_stringified_json_app s args : append_stringified_json s args = s ++ json_stringify args.
Proof.
  assert (forall x (l : list str) acc, fold_left (fun acc arg => fold_left json_safe_append arg acc) l (x ++ acc) =
    x ++ fold_left (fun acc arg => fold_left json_safe_append arg acc) l acc) as H.
  { intros x l. induction l as [|a l IH]; intros acc; [done|]. cbn [fold_left]. rewrite <- IH. f_equal.
    revert acc. induction a as [|c a IHa]; intros acc; [done|]. cbn [fold_left]. rewrite <- IHa. f_equal.
    unfold json_safe_append. by rewrite <- app_assoc. }
  unfold json_stringify, append_stringified_json. by rewrite H, <- app_assoc.
Qed.

Lemma append_value_render v s : append_value v s = s ++ render_value v ++ lit ",".
Proof.
  revert v. fix IH 1. intros [b| |x|c|[v|]|name|x]; cbn [append_value render_value]; [done..|apply IH|done|done|].
  by rewrite append_stringified_json_app, <- app_assoc.
Qed.

(** The calls of a builder one after another. *)
Lemma run_list_spec {A} (f : A -> str -> outcome str) (text : A -> str) l :
  Forall (fun x => forall s, f x s = Ok (s ++ text x ++ lit ",")) l ->
  forall s, run_list f l s = Ok (s ++ flat_map (fun x => text x ++ lit ",") l).
Proof.
  induction 1 as [|x l Hx Hl IH]; intros s; cbn [run_list flat_map]; [by rewrite app_nil_r|].
  rewrite Hx. cbn. fold (run_list f). rewrite IH. by rewrite <- !app_assoc.
Qed.

(** The comma after the last of them becomes the closing bracket. *)
Lemma end_spec open close (pre : str) (texts : list str) : (open =c ",") = false ->
  end_ close ((pre ++ [open]) ++ flat_map (fun x => x ++ lit ",") texts) =
    Ok (pre ++ [open] ++ join (lit ",") texts ++ [close]).
Proof.
  intros Ho. unfold end_. destruct texts as [|x texts] using rev_ind.
  - cbn [flat_map join]. rewrite app_nil_r, last_snoc, Ho. cbn. by rewrite <- app_assoc.
  - clear IHtexts. assert (flat_map (fun x => x ++ lit ",") (texts ++ [x]) = join (lit ",") (texts ++ [x]) ++ lit ",") as ->.
    { clear Ho. induction texts as [|y texts IH]; [cbn; by rewrite app_nil_r|]. cbn [flat_map app]. rewrite IH.
      destruct texts as [|z texts]; cbn [app join]; by rewrite <- !app_assoc. }
    rewrite app_assoc. change (lit ",") with [","%char] at 2 4. rewrite last_snoc. cbn [char_eqb Ascii.eqb].
    rewrite removelast_last. by rewrite <- !app_assoc.
Qed.

Lemma flat_map_fmap {A} (text : A -> str) l :
  flat_map (fun x => x ++ lit ",") (text <$> l) = flat_map (fun x => text x ++ lit ",") l.
Proof. induction l as [|x l IH]; [done|]. cbn [flat_map fmap list_fmap]. by rewrite IH. Qed.

(** The text a builder leaves behind is the plain one. *)
Lemma run_call_render c : forall s, run_call c s = Ok (s ++ render c ++ lit ",").
Proof.
  induction c as [arg|v|l IH|l IH] using call_ind'; intros s; cbn [run_call render].
  - done.
  - by rewrite append_value_render.
  - rewrite (run_list_spec run_call render) by done. cbn [mbind outcome_bind].
    rewrite <- flat_map_fmap, (end_spec "["%char) by done. cbn [mbind outcome_bind]. by rewrite <- !app_assoc.
  - rewrite (run_list_spec _ (fun '(name, c) => render_prop name (render c))).
    + cbn [mbind outcome_bind]. rewrite <- flat_map_fmap, (end_spec "{"%char) by done. cbn [mbind outcome_bind]. by rewrite <- !app_assoc.
    + eapply Forall_impl; [exact IH|]. intros [name c] H s'. cbn in H. unfold run_prop. rewrite H. f_equal.
      unfold append_prop_name, render_prop. by rewrite <- !app_assoc.
Qed.

(** ** A reader of JSON texts without white space *)

Inductive json := JNull | JBool (b : bool) | JInt (x : Z) | JString (s : str) | JArray (l : list json) | JObject (l : list (str * json)).

(** Items separated by commas, up to the closing bracket. *)
Fixpoint read_items {A} (n : nat) (read : str -> option (A * str)) (close : ascii) (s : str) : option (list A * str) :=
  match n with
  | O => None
  | S n' =>
      '(x, r) ← read s;
      match r with
      | [] => None
      | c :: r' =>
          if c =c "," then '(l, r2) ← read_items n' read close r'; Some (x :: l, r2)
          else if c =c close then Some ([x], r')
          else None
      end
  end.

(** A bracketed list, which may be empty. *)
Definition read_list {A} (read : str -> option (A * str)) (close : ascii) (s : str) : option (list A * str) :=
  match s with
  | [] => None
  | c :: r => if c =c close then Some ([], r) else read_items (length s) read close s
  end.

Definition read_prop (read : str -> option (json * str)) (s : str) : option ((str * json) * str) :=
  match s with
  | [] => None
  | c :: s' =>
      if c =c DQ then
        '(name, r) ← json_read s';
        match r with
        | [] => None
        | d :: r' => if d =c ":" then '(v, r2) ← read r'; Some ((name, v), r2) else None
        end
      else None
  end.

Definition read_digits (s : str) : option (Z * str) :=
  match take_while is_digit s with
  | [] => None
  | c :: ds => if (c =c "0") && negb (SV.empty ds) then None else Some (num (c :: ds), drop_while is_digit s)
  end.

Definition read_number (s : str) : option (json * str) :=
  match s with
  | [] => None
  | c :: s' =>
      if c =c "-" then '(x, r) ← read_digits s'; Some (JInt (- x), r)
      else '(x, r) ← read_digits s; Some (JInt x, r)
  end.

Definition read_word (word s : str) : option str :=
  if bool_decide (word `prefix_of` s) then Some (drop (length word) s) else None.

Fixpoint read_json (fuel : nat) (s : str) : option (json * str) :=
  match fuel with
  | O => None
  | S fuel' =>
      match s with
      | [] => None
      | c :: s' =>
          if c =c DQ then '(x, r) ← json_read s'; Some (JString x, r)
          else if c =c "[" then '(l, r) ← read_list (read_json fuel') "]"%char s'; Some (JArray l, r)
          else if c =c "{" then '(l, r) ← read_list (read_prop (read_json fuel')) "}"%char s'; Some (JObject l, r)
          else if c =c "n" then r ← read_word (lit "null") s; Some (JNull, r)
          else if c =c "t" then r ← read_word (lit "true") s; Some (JBool true, r)
          else if c =c "f" then r ← read_word (lit "false") s; Some (JBool false, r)
          else read_number s
      end
  end.

(** A whole text. *)
Definition parse_json (s : str) : option json :=
  '(j, r) ← read_json (length s) s;
  if SV.empty r then Some j else None.

(** ** What the calls mean

    A name is written as it is, so it has to be free of characters that JSON
    escapes; a raw value and a [char] need not be JSON. *)

Definition plain_char (c : ascii) : bool := negb ((c =c DQ) || (c =c BSLASH) || is_cntrl c).
Definition plain_name (name : str) : bool := forallb plain_char name.

Fixpoint denote_value (v : value) : option json :=
  match v with
  | VBool b => Some (JBool b)
  | VNull | VOptional None => Some JNull
  | VInt x => Some (JInt x)
  | VChar _ => None
  | VOptional (Some v) => denote_value v
  | VEnum name => if plain_name name then Some (JString name) else None
  | VString s => Some (JString s)
  end.

Fixpoint denote (c : call) : option json :=
  match c with
  | Raw _ => None
  | Val v => denote_value v
  | Arr calls => JArray <$> mapM denote calls
  | Obj props => JObject <$> mapM (fun '(name, c) => if plain_name name then pair name <$> denote c else None) props
  end.

(** ** Reading back *)

(** What may follow a value: nothing, or a character that ends a number. *)
Definition delimited (rest : str) : bool :=
  match rest with [] => true | c :: _ => (c =c ",") || (c =c "]") || (c =c "}") end.

(** The reader [read] reads back [x] from [text]. *)
Definition reads {A} (read : str -> option (A * str)) (text : str) (x : A) : Prop :=
  forall rest, delimited rest = true -> read (text ++ rest) = Some (x, rest).

Lemma read_items_spec {A} (read : str -> option (A * str)) close : close =c "," = false -> delimited [close] = true ->
  forall texts xs, Forall2 (reads read) texts xs -> texts <> [] -> forall n rest, (length texts <= n)%nat ->
  read_items n read close (join (lit ",") texts ++ close :: rest) = Some (xs, rest).
Proof.
  intros Hc Hd texts xs. induction 1 as [|text x texts xs Hx Hxs IH]; intros Hne n rest Hn; [done|].
  destruct n as [|n]; [cbn in Hn; lia|]. cbn [read_items join]. destruct texts as [|text2 texts].
  - inversion Hxs; subst. rewrite Hx by exact Hd. cbn [mbind option_bind]. by rewrite Hc, char_eqb_refl.
  - rewrite <- !app_assoc. rewrite (Hx (lit "," ++ _)) by done. cbn [mbind option_bind lit app String.list_ascii_of_string].
    rewrite char_eqb_refl. rewrite IH; [done|done|cbn in *; lia].
Qed.

Lemma length_join (texts : list str) : (length texts <= S (length (join (lit ",") texts)))%nat.
Proof.
  induction texts as [|x [|y texts] IH]; [cbn; lia|cbn; lia|].
  change (join (lit ",") (x :: y :: texts)) with (x ++ lit "," ++ join (lit ",") (y :: texts)).
  rewrite !length_app. change (length (lit ",")) with 1%nat. cbn [length] in *. lia.
Qed.

Lemma elem_of_join (texts : list str) x : x ∈ texts -> (length x <= length (join (lit ",") texts))%nat.
Proof.
  induction 1 as [x [|y texts]|x y [|z texts] H IH]; [done| |by apply elem_of_nil in H|].
  - change (join (lit ",") (x :: y :: texts)) with (x ++ lit "," ++ join (lit ",") (y :: texts)). rewrite length_app. lia.
  - change (join (lit ",") (y :: z :: texts)) with (y ++ lit "," ++ join (lit ",") (z :: texts)). rewrite !length_app. lia.
Qed.

Lemma join_head (texts : list str) : Forall (fun t => t <> []) texts -> texts <> [] ->
  exists c t r, head texts = Some (c :: t) /\ join (lit ",") texts = c :: r.
Proof.
  intros H Hne. destruct texts as [|[|c t] texts]; [done|by apply Forall_inv in H|].
  exists c, t. destruct texts as [|y texts]; cbn [join app]; eauto.
Qed.

(** The first character of a text that is read tells it from a closing
    bracket. *)
Definition starts_item (text : str) : bool :=
  match text with [] => false | c :: _ => negb ((c =c "]") || (c =c "}")) end.

Lemma read_list_spec {A} (read : str -> option (A * str)) close texts xs rest :
  close =c "," = false -> delimited [close] = true -> (close =c "]") || (close =c "}") = true ->
  Forall2 (reads read) texts xs -> Forall (fun t => starts_item t = true) texts ->
  read_list read close (join (lit ",") texts ++ close :: rest) = Some (xs, rest).
Proof.
  intros Hc Hd Hb Hr Hs. destruct texts as [|text texts].
  { inversion Hr; subst. cbn. by rewrite char_eqb_refl. }
  destruct (join_head (text :: texts)) as (c & t & r & Hh & E); [|done|].
  { eapply Forall_impl; [exact Hs|]. by intros [|]. }
  injection Hh as ->. apply Forall_inv in Hs. cbn in Hs. unfold read_list. rewrite E. cbn [app].
  destruct (c =c close) eqn:Ec; [apply char_eqb_eq in Ec as ->; by rewrite Hb in Hs|]. rewrite app_comm_cons, <- E.
  apply read_items_spec; try done. rewrite length_app. pose proof (length_join ((c :: t) :: texts)). cbn [length] in *. lia.
Qed.

Lemma json_read_plain name rest : plain_name name = true -> json_read (name ++ DQ :: rest) = Some (name, rest).
Proof.
  induction name as [|c name IH]; intros H; [done|]. cbn [plain_name forallb] in H. apply andb_true_iff in H as [Hc H].
  unfold plain_char in Hc. apply negb_true_iff, orb_false_iff in Hc as [[E1 E2]%orb_false_iff E3].
  cbn [app json_read]. rewrite E1, E2, E3. by rewrite IH.
Qed.

Lemma delimited_digits ds rest : digits ds -> delimited rest = true ->
  take_while is_digit (ds ++ rest) = ds /\ drop_while is_digit (ds ++ rest) = rest.
Proof.
  intros Hd Hr. rewrite take_while_app, drop_while_app by done.
  destruct rest as [|c rest]; [by rewrite app_nil_r|]. cbn in Hr. cbn [take_while drop_while].
  assert (is_digit c = false) as ->.
  { destruct (c =c ",") eqn:E1; bools; [by subst|]. destruct (c =c "]") eqn:E2; bools; [by subst|].
    destruct (c =c "}") eqn:E3; bools; [by subst|done]. }
  by rewrite app_nil_r.
Qed.

Lemma read_digits_spec x rest : 0 <= x -> delimited rest = true -> read_digits (to_string x ++ rest) = Some (x, rest).
Proof.
  intros Hx Hr. destruct (to_string_nonneg x Hx) as (Hne & Hd & Hn). unfold read_digits.
  destruct (delimited_digits _ rest Hd Hr) as [-> ->]. destruct (Z.eq_dec x 0) as [->|]; [done|].
  destruct (to_string_pos x) as (_ & _ & c & l & E & Hc); [lia|]. rewrite E in *. apply char_eqb_neq in Hc. by rewrite Hc, Hn.
Qed.

Lemma read_number_spec x rest : delimited rest = true -> read_number (to_string x ++ rest) = Some (JInt x, rest).
Proof.
  intros Hr. destruct (Z_lt_le_dec x 0) as [Hx|Hx].
  - rewrite to_string_neg by done. cbn [app read_number]. rewrite char_eqb_refl, read_digits_spec by (done || lia).
    cbn. by rewrite Z.opp_involutive.
  - destruct (to_string_nonneg x Hx) as (Hne & Hd & _). pose proof (read_digits_spec x rest Hx Hr) as E.
    destruct (to_string x) as [|c l]; [done|]. cbn [app read_number] in *. apply Forall_inv in Hd.
    destruct (c =c "-") eqn:Ec; [bools; by subst|]. by rewrite E.
Qed.

(** The first character of a number is none of those the reader tells apart. *)
Definition number_char (c : ascii) : bool :=
  negb ((c =c DQ) || (c =c "[") || (c =c "{") || (c =c "n") || (c =c "t") || (c =c "f") || (c =c "]") || (c =c "}")).

Lemma to_string_head x : exists c l, to_string x = c :: l /\ number_char c = true.
Proof.
  assert (forall c, is_digit c = true -> number_char c = true) as Hnc.
  { intros c H. assert (implb (is_digit c) (number_char c) = true) as H' by (clear H; all_chars_compute c).
    by rewrite H in H'. }
  destruct (Z_lt_le_dec x 0) as [Hx|Hx]; [rewrite to_string_neg by done; by eauto|].
  destruct (to_string_nonneg x Hx) as (Hne & Hd & _). destruct (to_string x) as [|c l]; [done|]. apply Forall_inv in Hd. eauto.
Qed.

Lemma read_value_spec v : forall j fuel, denote_value v = Some j -> (length (render_value v) <= fuel)%nat ->
  reads (read_json fuel) (render_value v) j /\ starts_item (render_value v) = true.
Proof.
  revert v. fix IH 1. intros [[|]| |x|c|[v|]|name|s] j fuel Hj Hf; cbn [denote_value render_value] in *;
    try (injection Hj as <-); try done;
    try (destruct fuel as [|fuel]; [cbn in Hf; lia|]; split; [intros rest Hr; reflexivity|reflexivity]).
  - destruct (to_string_head x) as (c & l & E & Hc). rewrite E in *. destruct fuel as [|fuel]; [cbn in Hf; lia|].
    unfold number_char in Hc. apply negb_true_iff in Hc. rewrite !orb_false_iff in Hc.
    destruct Hc as [[[[[[[H1 H2] H3] H4] H5] H6] H7] H8]. split.
    + intros rest Hr. pose proof (read_number_spec x rest Hr) as R. rewrite E in R. cbn [app read_json] in *.
      by rewrite H1, H2, H3, H4, H5, H6.
    + cbn. by rewrite H7, H8.
  - by apply IH.
  - destruct (plain_name name) eqn:En; [|done]. injection Hj as <-. destruct fuel as [|fuel]; [cbn in Hf; lia|].
    split; [|done]. intros rest Hr. rewrite <- !app_assoc. cbn [app read_json]. rewrite char_eqb_refl.
    cbn [app]. by rewrite json_read_plain.
  - rewrite json_stringify_flat_map in *. destruct fuel as [|fuel]; [cbn in Hf; lia|]. split; [|done].
    intros rest Hr. cbn [app read_json]. rewrite char_eqb_refl, <- app_assoc. cbn [app].
    rewrite json_read_string. cbn. by rewrite app_nil_r.
Qed.

(** The texts of the items of a list, given that each item is read back. *)
Lemma denote_items {A B} (f : A -> option B) (text : A -> str) (read : str -> option (B * str)) l xs bound :
  mapM f l = Some xs -> (length (join (lit ",") (text <$> l)) <= bound)%nat ->
  Forall (fun a => forall x, f a = Some x -> (length (text a) <= bound)%nat ->
    reads read (text a) x /\ starts_item (text a) = true) l ->
  Forall2 (reads read) (text <$> l) xs /\ Forall (fun t => starts_item t = true) (text <$> l).
Proof.
  intros Hm Hb Hl. apply mapM_Some in Hm. assert (Forall (fun a => (length (text a) <= bound)%nat) l) as Hlen.
  { apply Forall_forall. intros a Ha. etrans; [|exact Hb]. apply elem_of_join. by apply list_elem_of_fmap_2. }
  clear Hb. induction Hm as [|a x l xs Hx Hm IH]; [by repeat constructor|].
  apply Forall_cons in Hl as [H1 H2]. apply Forall_cons in Hlen as [L1 L2]. destruct (IH H2 L2) as [I1 I2].
  destruct (H1 x Hx L1) as [R1 R2]. split; constructor; done.
Qed.

Lemma read_call_spec c : forall j fuel, denote c = Some j -> (length (render c) <= fuel)%nat ->
  reads (read_json fuel) (render c) j /\ starts_item (render c) = true.
Proof.
  induction c as [arg|v|l IH|l IH] using call_ind'; intros j fuel Hj Hf; cbn [denote render] in *; [done|by apply read_value_spec| |].
  all: destruct fuel as [|fuel]; [cbn in Hf; lia|].
  all: rewrite !length_app in Hf; simpl (length (lit _)) in Hf.
  all: apply fmap_Some in Hj as (xs & Hm & ->); split; [|done]; intros rest Hr; rewrite <- !app_assoc; cbn [app read_json lit String.list_ascii_of_string].
  - destruct (denote_items denote render (read_json fuel) l xs fuel Hm) as [R1 R2]; [lia| |].
    { eapply Forall_impl; [exact IH|]. cbn. intros c Hc x Hx Hl. by apply Hc. }
    change (("["%char =c DQ)) with false. cbn [char_eqb Ascii.eqb Bool.eqb]. by rewrite (read_list_spec _ _ _ xs).
  - destruct (denote_items _ (fun '(name, c) => render_prop name (render c)) (read_prop (read_json fuel)) l xs fuel Hm) as [R1 R2]; [lia| |].
    { eapply Forall_impl; [exact IH|]. intros [name c] Hc [name' x] Hx Hl. cbn in Hc.
      destruct (plain_name name) eqn:En; [|done]. apply fmap_Some in Hx as (x' & Hx & [= -> ->]).
      split; [|done]. unfold render_prop in *. rewrite !length_app in Hl. destruct (Hc x' fuel Hx) as [Hread _]; [lia|].
      intros rest' Hr'. rewrite <- !app_assoc. cbn [app read_prop]. rewrite char_eqb_refl, json_read_plain by done.
      cbn [mbind option_bind lit app String.list_ascii_of_string]. rewrite char_eqb_refl. by rewrite Hread. }
    cbn [char_eqb Ascii.eqb Bool.eqb]. by rewrite (read_list_spec _ _ _ xs).
Qed.

(** ** Main theorem *)

(** The two kinds of documents, with [into_str] of each. *)
Inductive document := ArrayDoc (calls : list call) | ObjectDoc (props : list (str * call)).

Definition into_str (d : document) : outcome str :=
  match d with ArrayDoc calls => array_into_str calls | ObjectDoc props => object_into_str props end.

Definition call_of (d : document) : call :=
  match d with ArrayDoc calls => Arr calls | ObjectDoc props => Obj props end.

Lemma into_str_render d : into_str d = Ok (render (call_of d)).
Proof.
  destruct d as [l|l]; cbn [into_str call_of]; unfold array_into_str, object_into_str.
  - rewrite (run_list_spec run_call render) by (apply Forall_forall; intros c _; apply run_call_render).
    cbn [mbind outcome_bind]. rewrite <- flat_map_fmap. by rewrite (end_spec "["%char _ []).
  - rewrite (run_list_spec _ (fun '(name, c) => render_prop name (render c))).
    + cbn [mbind outcome_bind]. rewrite <- flat_map_fmap. by rewrite (end_spec "{"%char _ []).
    + apply Forall_forall. intros [name c] _ s. unfold run_prop. rewrite run_call_render. f_equal.
      unfold append_prop_name, render_prop. by rewrite <- !app_assoc.
Qed.


Definition sample_document : document :=
  ObjectDoc [(lit "id", Val (VInt (-42))); (lit "tags", Arr [Val (VString (DQ :: lit "a,]")); Arr []; Obj []]);
             (lit "none", Val (VOptional None)); (lit "kind", Val (VEnum (lit "abc")))].


(** Names are not escaped, and a [char] is written without quotation marks: such
    documents are not JSON. *)
Lemma json_name_not_escaped :
  parse_json <$> into_str (ObjectDoc [([DQ], Val VNull)]) = Ok None.
Proof. vm_compute. reflexivity. Qed.

Lemma json_char_not_quoted : parse_json <$> into_str (ArrayDoc [Val (VChar "a"%char)]) = Ok None.
Proof. vm_compute. reflexivity. Qed.
