(* ===== verification/Floats.v ===== *)
(** * Decimal texts and floating-point numbers

    The part of floating point the sources use when they read a time limit
    ([stod] and the [std::chrono] conversions in [src/sim/simfile.cc] and
    [src/sim/conver.cc]): numbers are exact rationals, and an operation of a
    format with [prec] bits of mantissa is the exact operation followed by
    rounding to nearest, ties to even.  [double] has 53 bits, [long double] 64
    (x86-64). *)

From Stdlib Require Import ZArith QArith Qround Qabs Qpower Lia Lqa Ascii.
From S2P Require Import Prelude.
From S2P Require Import Ctype.
From S2P Require Import StringView.
From S2P Require Import StringTraits.
From S2P Require Import StringCompare.
From S2P Require Import StringTransform.
Local Open Scope Q_scope.

(** ** Rounding *)

(** The integer nearest to [x], the even one of two. *)
Definition round_even (x : Q) : Z :=
  let q := Qfloor x in
  match (x - inject_Z q ?= 1 # 2)%Q with
  | Lt => q
  | Gt => (q + 1)%Z
  | Eq => if Z.even q then q else (q + 1)%Z
  end.

(** The exponent of the leading binary digit of a positive [x]. *)
Definition ilog2 (x : Q) : Z :=
  let e := (Z.log2 (Qnum x) - Z.log2 (Zpos (Qden x)))%Z in
  if Qle_bool (2 ^ e)%Q x then e else (e - 1)%Z.

(** [x] on the grid of the multiples of [2 ^ e]. *)
Definition round_at (e : Z) (x : Q) : Q := inject_Z (round_even (x / 2 ^ e)) * 2 ^ e.

(** A positive [x] rounded to [prec] bits of mantissa. *)
Definition round_float (prec : Z) (x : Q) : Q := round_at (ilog2 x - (prec - 1)) x.

(** Limits of [double]. *)
Definition DOUBLE_PREC : Z := 53.
Definition DOUBLE_MIN_EXP : Z := -1022.
Definition DOUBLE_MAX_EXP : Z := 1024.
Definition LONG_DOUBLE_PREC : Z := 64.

(** ** Decimal texts *)

(** The number [s], which satisfies [is_real], stands for: sign, digits without
    the decimal point and the number of digits after it. *)
Definition decimal (s : str) : bool * Z * nat :=
  let neg := match s with c :: _ => c =c "-" | [] => false end in
  let s := if neg then SV.remove_prefix s 1 else s in
  let int_part := take_while (fun c => negb (c =c ".")) s in
  let frac_part := drop 1 (drop_while (fun c => negb (c =c ".")) s) in
  (neg, num (int_part ++ frac_part), length frac_part).

Definition decimal_value (s : str) : Q :=
  let '(neg, n, k) := decimal s in
  (if neg then -1 else 1) * (inject_Z n / inject_Z (10 ^ Z.of_nat k)).

(** [std::stod] on a text that satisfies [is_real]: the nearest [double]; a
    value that is too big, or that is inexact below the normal range, throws
    [std::out_of_range]. *)
Definition stod_abs (x : Q) : outcome Q :=
  if Qeq_bool x 0 then Ok 0
  else
    let r := round_float DOUBLE_PREC x in
    if Qle_bool (2 ^ DOUBLE_MAX_EXP) r then Throw (OutOfRange (lit "stod"))
    else if Qle_bool (2 ^ DOUBLE_MIN_EXP) r then Ok r
    else
      let r := round_at (DOUBLE_MIN_EXP - (DOUBLE_PREC - 1)) x in
      if Qeq_bool r x then Ok r else Throw (OutOfRange (lit "stod")).

Definition stod (s : str) : outcome Q :=
  let '(neg, n, k) := decimal s in
  r ← stod_abs (inject_Z n / inject_Z (10 ^ Z.of_nat k));
  Ok (if neg : bool then - r else r).

(** ** Seconds to nanoseconds

    [duration_cast<nanoseconds>(duration<double>(tl) + 0.5ns)]: [0.5ns] is a
    [duration<long double, std::nano>], so the multiplication by 10^9 and the
    addition happen in [long double]; the cast to the 64-bit count truncates and
    is undefined when the value does not fit. *)
Definition round_to_nanoseconds (tl : Q) : outcome Z :=
  let x := round_float LONG_DOUBLE_PREC (tl * inject_Z 1000000000) in
  let y := round_float LONG_DOUBLE_PREC (x + (1 # 2)) in
  let ns := Qfloor y in
  if in_range int64 ns then Ok ns else UB.

Example stod_ex :
  match stod (lit "0.1") with
  | Ok r => Qeq_bool r (3602879701896397 # 36028797018963968)
  | _ => false
  end = true.
Proof. vm_compute. reflexivity. Qed.

(** * Properties *)

Lemma pow2_pos e : 0 < 2 ^ e.
Proof. apply Qpower_0_lt. reflexivity. Qed.

#[export] Hint Resolve pow2_pos : simlib.

Lemma pow2_plus a b : 2 ^ (a + b) == 2 ^ a * 2 ^ b.
Proof. apply Qpower_plus. discriminate. Qed.

(** ** Rounding to an integer *)

Lemma round_even_error x : Qabs (inject_Z (round_even x) - x) <= 1 # 2.
Proof.
  unfold round_even. pose proof (Qfloor_le x) as Hl. pose proof (Qlt_floor x) as Hu.
  rewrite inject_Z_plus in Hu. change (inject_Z 1) with 1 in Hu. apply Qabs_Qle_condition.
  destruct (Qcompare_spec (x - inject_Z (Qfloor x)) (1 # 2)) as [E|E|E];
    [destruct (Z.even (Qfloor x))| |]; rewrite ?inject_Z_plus; change (inject_Z 1) with 1; lra.
Qed.

Lemma round_at_error e x : Qabs (round_at e x - x) <= 2 ^ e * (1 # 2).
Proof.
  unfold round_at. pose proof (pow2_pos e) as Hp.
  pose proof (round_even_error (x / 2 ^ e)) as He. apply Qabs_Qle_condition in He as [H1 H2].
  assert (x == x / 2 ^ e * 2 ^ e) as Hx by (field; intros H0; rewrite H0 in Hp; by apply Qlt_irrefl in Hp).
  set (r := inject_Z (round_even (x / 2 ^ e))) in *. set (q := x / 2 ^ e) in *.
  apply Qabs_Qle_condition. rewrite Hx. split; nra.
Qed.

(** ** The exponent *)

Lemma inject_pow2 n : (0 <= n)%Z -> inject_Z (2 ^ n) == 2 ^ n.
Proof. intros Hn. rewrite Zpower_Qpower by done. reflexivity. Qed.

Lemma log2_inject n : (0 < n)%Z -> 2 ^ Z.log2 n <= inject_Z n /\ inject_Z n < 2 ^ (Z.log2 n + 1).
Proof.
  intros Hn. pose proof (Z.log2_spec n Hn) as [H1 H2]. pose proof (Z.log2_nonneg n).
  rewrite <- !inject_pow2 by lia. rewrite <- Zle_Qle, <- Zlt_Qlt. rewrite Z.add_1_r. lia.
Qed.

Lemma ilog2_spec x : 0 < x -> 2 ^ ilog2 x <= x /\ x < 2 ^ (ilog2 x + 1).
Proof.
  destruct x as [n d]. intros Hx. assert (0 < n)%Z as Hn.
  { unfold Qlt in Hx. simpl in Hx. lia. }
  unfold ilog2. cbn [Qnum Qden]. set (e := (Z.log2 n - Z.log2 (Zpos d))%Z).
  destruct (log2_inject n Hn) as [N1 N2]. destruct (log2_inject (Zpos d) ltac:(lia)) as [D1 D2].
  assert (inject_Z n == (n # d) * inject_Z (Zpos d)) as E.
  { unfold Qeq, inject_Z. simpl. lia. }
  set (x := n # d) in *. rewrite E in N1, N2. clear E.
  replace (Z.log2 n) with (e + Z.log2 (Zpos d))%Z in N1, N2 by (unfold e; lia).
  replace (e + Z.log2 (Zpos d) + 1)%Z with ((e + 1) + Z.log2 (Zpos d))%Z in N2 by lia.
  rewrite pow2_plus in N1, N2, D2. change (2 ^ 1) with 2 in D2.
  pose proof (pow2_pos (Z.log2 (Zpos d))) as Pd. pose proof (pow2_pos e) as Pe.
  set (b := 2 ^ Z.log2 (Zpos d)) in *. set (D := inject_Z (Zpos d)) in *.
  assert (x < 2 ^ (e + 1)) as U.
  { apply Qnot_le_lt. intros C. assert (2 ^ (e + 1) * b <= x * D); [|lra].
    apply Qle_trans with (x * b); [apply Qmult_le_r; done|]. rewrite !(Qmult_comm x).
    apply Qmult_le_r; done. }
  destruct (Qle_bool (2 ^ e) x) eqn:El.
  - apply Qle_bool_iff in El. done.
  - assert (~ 2 ^ e <= x) as L by (rewrite <- Qle_bool_iff; congruence). apply Qnot_le_lt in L.
    split.
    + apply Qnot_lt_le. intros C.
      assert (2 ^ e == 2 ^ (e - 1) * 2) as E2.
      { change 2 with (2 ^ 1) at 3. rewrite <- pow2_plus. by replace (e - 1 + 1)%Z with e by lia. }
      rewrite E2 in N1. pose proof (pow2_pos (e - 1)). set (h := 2 ^ (e - 1)) in *.
      assert (x * D <= x * (b * 2)); [|nra].
      rewrite !(Qmult_comm x). apply Qmult_le_r; [done|]. lra.
    + by replace (e - 1 + 1)%Z with e by lia.
Qed.

(** Rounding to [prec] bits changes a positive number by at most [2 ^ -prec] of
    it. *)
Lemma round_float_error prec x : 0 < x -> Qabs (round_float prec x - x) <= x * 2 ^ (- prec).
Proof.
  intros Hx. unfold round_float.
  eapply Qle_trans; [apply round_at_error|].
  destruct (ilog2_spec x Hx) as [H _].
  assert (2 ^ (ilog2 x - (prec - 1)) * (1 # 2) == 2 ^ ilog2 x * 2 ^ (- prec)) as ->.
  { change (1 # 2) with (2 ^ (-1)). rewrite <- !pow2_plus. apply Qpower_comp; [done|]. lia. }
  apply Qmult_le_r; [apply pow2_pos|done].
Qed.

(** ** Reading a time *)

Lemma pow2_le a b : (a <= b)%Z -> 2 ^ a <= 2 ^ b.
Proof. intros H. apply Qpower_le_compat_l; [done|]. discriminate. Qed.

Lemma stod_abs_normal x : 2 ^ (-60) <= x -> x <= 2 ^ 60 ->
  exists r, stod_abs x = Ok r /\ Qabs (r - x) <= x * 2 ^ (- DOUBLE_PREC).
Proof.
  intros H1 H2. pose proof (pow2_pos (-60)) as P.
  assert (0 < x) as Hx by lra. exists (round_float DOUBLE_PREC x).
  pose proof (round_float_error DOUBLE_PREC x Hx) as E. split; [|done].
  apply Qabs_Qle_condition in E as [E1 E2]. unfold stod_abs.
  destruct (Qeq_bool x 0) eqn:E0; [apply Qeq_bool_eq in E0; lra|].
  set (r := round_float DOUBLE_PREC x) in *.
  change (2 ^ (- DOUBLE_PREC)) with (1 # 9007199254740992) in E1, E2.
  pose proof (pow2_le 61 DOUBLE_MAX_EXP ltac:(done)) as Hmax.
  pose proof (pow2_le DOUBLE_MIN_EXP (-61) ltac:(done)) as Hmin.
  change (2 ^ 61) with (inject_Z 2305843009213693952) in Hmax. change (2 ^ 60) with (inject_Z 1152921504606846976) in H2.
  change (2 ^ (-61)) with (1 # 2305843009213693952) in Hmin.
  change (2 ^ (-60)) with (1 # 1152921504606846976) in H1.
  destruct (Qle_bool (2 ^ DOUBLE_MAX_EXP) r) eqn:C.
  { apply Qle_bool_iff in C. unfold inject_Z in *. lra. }
  destruct (Qle_bool (2 ^ DOUBLE_MIN_EXP) r) eqn:C'; [done|].
  exfalso. assert (~ 2 ^ DOUBLE_MIN_EXP <= r) as N by (rewrite <- Qle_bool_iff; congruence).
  apply N. lra.
Qed.

Lemma Qfloor_unique q n : inject_Z n <= q -> q < inject_Z (n + 1) -> Qfloor q = n.
Proof.
  intros H1 H2. apply Qfloor_resp_le in H1. rewrite Qfloor_Z in H1.
  assert (inject_Z (Qfloor q) < inject_Z (n + 1)) as H3.
  { eapply Qle_lt_trans; [apply Qfloor_le|done]. }
  rewrite <- Zlt_Qlt in H3. lia.
Qed.

(** A [double] within half a unit in the last place of [D] nanoseconds turns
    into exactly [D] nanoseconds, up to 2^51 nanoseconds (26 days). *)
Lemma round_to_nanoseconds_exact (D : Z) x r : (0 < D < 2 ^ 51)%Z ->
  x * inject_Z 1000000000 == inject_Z D ->
  Qabs (r - x) <= x * 2 ^ (- DOUBLE_PREC) ->
  round_to_nanoseconds r = Ok D.
Proof.
  intros HD Hx Hr. apply Qabs_Qle_condition in Hr as [R1 R2].
  change (2 ^ (- DOUBLE_PREC)) with (1 # 9007199254740992) in R1, R2.
  change (inject_Z 1000000000) with (1000000000 # 1) in *.
  assert (1 <= inject_Z D <= 2251799813685247 # 1) as [D1 D2].
  { change 1 with (inject_Z 1). change (2251799813685247 # 1) with (inject_Z 2251799813685247).
    rewrite <- !Zle_Qle. lia. }
  unfold round_to_nanoseconds. change (inject_Z 1000000000) with (1000000000 # 1).
  set (d := inject_Z D) in *. pose proof (round_float_error LONG_DOUBLE_PREC (r * (1000000000 # 1)) ltac:(lra)) as E1.
  set (x1 := round_float _ (r * _)) in *. apply Qabs_Qle_condition in E1 as [L1 U1].
  change (2 ^ (- LONG_DOUBLE_PREC)) with (1 # 18446744073709551616) in L1, U1.
  pose proof (round_float_error LONG_DOUBLE_PREC (x1 + (1 # 2)) ltac:(lra)) as E2.
  set (y := round_float _ (x1 + _)) in *. apply Qabs_Qle_condition in E2 as [L2 U2].
  change (2 ^ (- LONG_DOUBLE_PREC)) with (1 # 18446744073709551616) in L2, U2.
  assert (Qfloor y = D) as ->.
  { apply Qfloor_unique; [fold d; lra|]. rewrite inject_Z_plus. change (inject_Z 1) with 1. fold d. lra. }
  assert (in_range int64 D = true) as ->; [|done].
  unfold in_range, int64. cbn [int_min int_max]. lia.
Qed.

(** ** Decimal texts *)

Lemma digits_no_dot s : digits s -> Forall (fun c => negb (c =c ".") = true) s.
Proof.
  intros H. eapply Forall_impl; [exact H|]. intros c Hc.
  assert (implb (is_digit c) (negb (c =c ".")) = true) as E by all_chars_compute c.
  rewrite Hc in E. exact E.
Qed.

Lemma digits_no_minus s : digits s -> match s with c :: _ => c =c "-" | [] => false end = false.
Proof.
  intros H. destruct H as [|c s Hc Hs]; [done|].
  assert (implb (is_digit c) (negb (c =c "-")) = true) as E by all_chars_compute c.
  rewrite Hc in E. simpl in E. by apply negb_true_iff in E.
Qed.

(** A printed decimal: an integer part, and a fraction with its point unless it
    is empty. *)
Definition print_decimal (int_part frac : str) : str :=
  int_part ++ (if SV.empty frac then [] else lit "." ++ frac).

Lemma decimal_print i f : i <> [] -> digits i -> digits f ->
  decimal (print_decimal i f) = (false, num (i ++ f), length f).
Proof.
  intros Hne Hi Hf. unfold decimal, print_decimal.
  assert (match i ++ (if SV.empty f then [] else lit "." ++ f) with c :: _ => c =c "-" | [] => false end = false) as ->.
  { destruct i as [|c i]; [done|]. apply (digits_no_minus _ Hi). }
  rewrite take_while_app, drop_while_app by (by apply digits_no_dot).
  destruct f as [|c f]; cbn -[num]; rewrite ?app_nil_r; done.
Qed.

Lemma is_digit_str_digits s : s <> [] -> digits s -> is_digit_str s = true.
Proof. intros Hne H. apply is_digit_str_spec. done. Qed.

Lemma digits_lookup s j c : digits s -> s !! j = Some c -> c <> "."%char.
Proof.
  intros H Hj ->. apply (Forall_lookup_1 _ _ _ _ H) in Hj. discriminate.
Qed.

Lemma find_dot i f : digits i -> SV.find_char (i ++ lit "." ++ f) "." 0 = Some (length i).
Proof.
  intros Hi. pose proof (SV.find_char_spec (i ++ lit "." ++ f) "." 0) as H.
  assert ((i ++ lit "." ++ f) !! length i = Some "."%char) as Hdot.
  { rewrite lookup_app_r, Nat.sub_diag by lia. done. }
  destruct (SV.find_char _ _ _) as [j|]; [|exfalso; apply (H (length i)); [lia|done]].
  destruct H as (H1 & H2 & H3). f_equal.
  destruct (lt_eq_lt_dec j (length i)) as [[L| ->]|L]; [|done|].
  - exfalso. rewrite lookup_app_l in H2 by done. by eapply digits_lookup.
  - exfalso. apply (H3 (length i)); [lia|done].
Qed.

Lemma find_no_dot i : digits i -> SV.find_char i "." 0 = None.
Proof.
  intros Hi. pose proof (SV.find_char_spec i "." 0) as H.
  destruct (SV.find_char i "." 0) as [j|]; [|done]. destruct H as (H1 & H2 & H3).
  exfalso. by eapply digits_lookup.
Qed.

Lemma is_real_print i f : i <> [] -> digits i -> digits f -> is_real (print_decimal i f) = true.
Proof.
  intros Hne Hi Hf. unfold is_real, print_decimal.
  assert (forall r, match i ++ r with c :: _ => c =c "-" | [] => false end = false) as Hm.
  { intros r. destruct i as [|c i]; [done|]. apply (digits_no_minus _ Hi). }
  destruct f as [|c f].
  - rewrite app_nil_r. specialize (Hm []). rewrite app_nil_r in Hm.
    destruct i as [|d i'] eqn:Ei; [done|]. rewrite Hm, <- Ei in *. rewrite find_no_dot by done.
    apply is_digit_str_digits; congruence || done.
  - cbn [SV.empty length Nat.eqb]. specialize (Hm (lit "." ++ c :: f)).
    destruct (i ++ lit "." ++ c :: f) as [|d s] eqn:Es; [by destruct i|]. rewrite Hm. rewrite <- Es in *.
    clear Es Hm d s. rewrite find_dot by done.
    assert (SV.substring (i ++ lit "." ++ c :: f) 0 (length i) = Ok i) as ->.
    { unfold SV.substring. rewrite length_app. simpl.
      rewrite Nat.min_r by lia. rewrite ?drop_0, ?Nat.sub_0_r. by rewrite take_app_length. }
    assert (SV.substr_from (i ++ lit "." ++ c :: f) (length i + 1) = Ok (c :: f)) as ->.
    { unfold SV.substr_from. rewrite length_app. cbn [length app lit String.list_ascii_of_string].
      destruct (Nat.ltb_spec (length i + S (S (length f))) (length i + 1)); [lia|].
      rewrite drop_app_ge by lia. by replace (length i + 1 - length i)%nat with 1%nat by lia. }
    rewrite !is_digit_str_digits; done.
Qed.
