(* ===== verification/Doubles.v ===== *)
(** * Double precision arithmetic

    The type [double] of the sources: IEEE 754 binary64 with rounding to
    nearest, ties to even.  A finite value is a rational; zero carries no sign,
    so a division by zero takes its sign from the dividend (the only divisors of
    the modelled code that can be zero are sums and converted integers, whose
    zero is positive). *)

From Stdlib Require Import ZArith QArith Qround Qabs Qpower Lia Lqa.
From S2P Require Import Prelude.
From S2P Require Import Floats.
From S2P Require Import StringTransform.
Local Open Scope Q_scope.

Inductive double :=
| Fin (q : Q)
| Inf (negative : bool)
| NaN.

(** ** Rounding *)

Definition DOUBLE_MIN_ULP : Z := -1074.

(** The grid around a positive [x]. *)
Definition ulp_exp (x : Q) : Z := Z.max (ilog2 x - (DOUBLE_PREC - 1)) DOUBLE_MIN_ULP.

Definition round_abs (x : Q) : double :=
  let r := Qred (round_at (ulp_exp x) x) in
  if Qle_bool (2 ^ DOUBLE_MAX_EXP) r then Inf false else Fin r.

Definition dneg (x : double) : double :=
  match x with Fin q => Fin (- q) | Inf s => Inf (negb s) | NaN => NaN end.

Definition Qneg (x : Q) : bool := negb (Qle_bool 0 x).

Definition round_double (x : Q) : double :=
  if Qeq_bool x 0 then Fin 0
  else if Qneg x then dneg (round_abs (- x)) else round_abs x.

(** ** Operations *)

Definition dadd (x y : double) : double :=
  match x, y with
  | NaN, _ | _, NaN => NaN
  | Fin a, Fin b => round_double (a + b)
  | Inf s, Fin _ | Fin _, Inf s => Inf s
  | Inf s, Inf s' => if eqb s s' then Inf s else NaN
  end.

Definition dsub (x y : double) : double := dadd x (dneg y).

Definition dmul (x y : double) : double :=
  match x, y with
  | NaN, _ | _, NaN => NaN
  | Fin a, Fin b => round_double (a * b)
  | Inf s, Fin a | Fin a, Inf s => if Qeq_bool a 0 then NaN else Inf (xorb s (Qneg a))
  | Inf s, Inf s' => Inf (xorb s s')
  end.

Definition ddiv (x y : double) : double :=
  match x, y with
  | NaN, _ | _, NaN => NaN
  | Fin a, Fin b =>
      if Qeq_bool b 0 then if Qeq_bool a 0 then NaN else Inf (Qneg a)
      else round_double (a / b)
  | Inf s, Fin b => Inf (xorb s (Qneg b))
  | Fin _, Inf _ => Fin 0
  | Inf _, Inf _ => NaN
  end.

Definition dltb (x y : double) : bool :=
  match x, y with
  | NaN, _ | _, NaN => false
  | Fin a, Fin b => negb (Qle_bool b a)
  | Inf s, Fin _ => s
  | Fin _, Inf s => negb s
  | Inf s, Inf s' => s && negb s'
  end.

(** [std::min(x, y)] *)
Definition dmin (x y : double) : double := if dltb y x then y else x.

(** Conversion of an integer. *)
Definition dZ (n : Z) : double := round_double (inject_Z n).

(** [static_cast<int64_t>]: truncates; undefined when the result does not fit. *)
Definition Qtrunc (q : Q) : Z := Z.quot (Qnum q) (Zpos (Qden q)).

Definition d_to_int64 (x : double) : outcome Z :=
  match x with
  | Fin q => if in_range int64 (Qtrunc q) then Ok (Qtrunc q) else UB
  | _ => UB
  end.

(** [round]: to the nearest integer, halves away from zero. *)
Definition dround (x : double) : double :=
  match x with
  | Fin q => Fin (inject_Z (if Qneg q then - Qfloor (- q + (1 # 2)) else Qfloor (q + (1 # 2))))
  | x => x
  end.

(** A duration in nanoseconds as a [std::chrono::duration<double>]. *)
Definition d_seconds (ns : Z) : double := ddiv (dZ ns) (dZ 1000000000).

(** ** Properties *)

Lemma round_even_le x (n : Z) : x <= inject_Z n -> (round_even x <= n)%Z.
Proof.
  intros H. unfold round_even. pose proof (Qfloor_le x) as Hl.
  assert (Qfloor x <= n)%Z as Hf by (rewrite Zle_Qle; lra).
  destruct (Z.eq_dec (Qfloor x) n) as [E|E].
  - assert (x == inject_Z n) as Hx by (rewrite <- E in *; lra).
    destruct (Qcompare_spec (x - inject_Z (Qfloor x)) (1 # 2)) as [C|C|C]; rewrite E in C; [lra|lia|lra].
  - destruct (x - inject_Z (Qfloor x) ?= 1 # 2); try destruct (Z.even _); lia.
Qed.

Lemma round_even_nonneg x : 0 <= x -> (0 <= round_even x)%Z.
Proof.
  intros H. apply Qfloor_resp_le in H. change (Qfloor 0) with 0%Z in H. unfold round_even.
  destruct (x - inject_Z (Qfloor x) ?= 1 # 2); try destruct (Z.even _); lia.
Qed.

Lemma round_even_exact x (n : Z) : x == inject_Z n -> round_even x = n.
Proof.
  intros H. unfold round_even. assert (Qfloor x = n) as -> by (rewrite H; apply Qfloor_Z).
  destruct (Qcompare_spec (x - inject_Z n) (1 # 2)) as [C|C|C]; [lra|done|lra].
Qed.

(** The integers of 53 bits above [x] are on the grid around [x]. *)
Lemma grid_integer x (n : Z) : 0 < x -> x <= inject_Z n -> (n <= 2 ^ 53)%Z ->
  exists m, inject_Z n == inject_Z m * 2 ^ ulp_exp x.
Proof.
  intros H0 Hn Hb. set (e := ulp_exp x). destruct (Z.leb_spec e 0) as [He|He].
  - exists (n * 2 ^ (- e))%Z. rewrite inject_Z_mult, inject_pow2 by lia.
    rewrite <- Qmult_assoc, <- pow2_plus. replace (- e + e)%Z with 0%Z by lia. simpl. lra.
  - assert (e = ilog2 x - 52)%Z as Ee.
    { unfold e, ulp_exp, DOUBLE_PREC, DOUBLE_MIN_ULP in *. lia. }
    destruct (ilog2_spec x H0) as [L _].
    assert (53 <= ilog2 x)%Z as L53 by lia. apply pow2_le in L53 as L'.
    assert (inject_Z (2 ^ 53) <= inject_Z n) as L2.
    { rewrite inject_pow2 by lia. lra. }
    rewrite <- Zle_Qle in L2. assert (n = 2 ^ 53)%Z as -> by lia.
    assert (ilog2 x = 53)%Z as E53.
    { destruct (Z.leb_spec 54 (ilog2 x)) as [C|C]; [|lia]. apply pow2_le in C.
      rewrite inject_pow2 in Hn by lia. assert ((2:Q) ^ 54 <= 2 ^ 53) as Q by lra. by vm_compute in Q. }
    rewrite E53 in Ee. exists (2 ^ 52)%Z. rewrite Ee. reflexivity.
Qed.

(** Such values are finite. *)
Lemma round_abs_finite x (n : Z) : round_at (ulp_exp x) x <= inject_Z n -> (n <= 2 ^ 53)%Z ->
  exists r, round_abs x = Fin r /\ r == round_at (ulp_exp x) x.
Proof.
  intros H Hb. unfold round_abs. cbn zeta. destruct (Qle_bool _ _) eqn:C.
  - exfalso. apply Qle_bool_iff in C. rewrite Qred_correct in C.
    assert (inject_Z (2 ^ 1024) <= inject_Z (2 ^ 53)) as Q.
    { rewrite inject_pow2 by lia. unfold DOUBLE_MAX_EXP in C. apply Qle_trans with (inject_Z n); [lra|].
      by rewrite <- Zle_Qle. }
    rewrite <- Zle_Qle in Q. by vm_compute in Q.
  - eexists. split; [done|]. apply Qred_correct.
Qed.

(** A positive number that is at most an integer of 53 bits is rounded to such
    a number. *)
Lemma round_abs_le x (n : Z) : 0 < x -> x <= inject_Z n -> (n <= 2 ^ 53)%Z ->
  exists r, round_abs x = Fin r /\ 0 <= r /\ r <= inject_Z n.
Proof.
  intros H0 Hn Hb. destruct (grid_integer x n H0 Hn Hb) as [m Hm].
  pose proof (pow2_pos (ulp_exp x)) as Pe.
  assert (inject_Z (round_even (x / 2 ^ ulp_exp x)) <= inject_Z m) as Hr.
  { rewrite <- Zle_Qle. apply round_even_le. apply Qle_shift_div_r; [done|]. by rewrite <- Hm. }
  assert (0 <= inject_Z (round_even (x / 2 ^ ulp_exp x))) as Hr0.
  { change 0 with (inject_Z 0). rewrite <- Zle_Qle. apply round_even_nonneg. apply Qle_shift_div_l; [done|]. lra. }
  assert (0 <= round_at (ulp_exp x) x /\ round_at (ulp_exp x) x <= inject_Z n) as [R1 R2].
  { unfold round_at. rewrite Hm. split; [|by apply Qmult_le_r]. apply Qmult_le_0_compat; [done|]. lra. }
  destruct (round_abs_finite x n R2 Hb) as (r & -> & E). exists r. split; [done|]. rewrite E. done.
Qed.

(** Integers of 53 bits are represented exactly. *)
Lemma round_abs_exact (n : Z) : (0 < n <= 2 ^ 53)%Z ->
  exists r, round_abs (inject_Z n) = Fin r /\ r == inject_Z n.
Proof.
  intros [H1 H2]. assert (0 < inject_Z n) as H0 by (change 0 with (inject_Z 0); rewrite <- Zlt_Qlt; lia).
  destruct (grid_integer (inject_Z n) n H0 ltac:(apply Qle_refl) H2) as [m Hm].
  pose proof (pow2_pos (ulp_exp (inject_Z n))) as Pe.
  assert (round_at (ulp_exp (inject_Z n)) (inject_Z n) == inject_Z n) as E.
  { unfold round_at. rewrite (round_even_exact _ m); [by rewrite <- Hm|].
    rewrite Hm at 1. field. intros C. rewrite C in Pe. by apply Qlt_irrefl in Pe. }
  destruct (round_abs_finite (inject_Z n) n) as (r & Er & Hr); [rewrite E; apply Qle_refl|done|].
  exists r. split; [done|]. by rewrite Hr.
Qed.

Lemma Qneg_spec x : Qneg x = true <-> x < 0.
Proof.
  unfold Qneg. rewrite negb_true_iff. split.
  - intros H. apply Qnot_le_lt. intros C. apply Qle_bool_iff in C. congruence.
  - intros H. destruct (Qle_bool 0 x) eqn:E; [|done]. apply Qle_bool_iff in E. lra.
Qed.

Lemma Qneg_false x : Qneg x = false <-> 0 <= x.
Proof. unfold Qneg. rewrite negb_false_iff. apply Qle_bool_iff. Qed.

(** ** Scaling an integer by a ratio *)

(** The distance from zero, rounded half away from zero. *)
Lemma scale_nonneg (n : Z) p r : (0 <= n <= 2 ^ 53)%Z -> p == inject_Z n -> 0 <= r -> r <= 1 ->
  exists v, dround (dmul (Fin p) (Fin r)) = Fin (inject_Z v) /\ (0 <= v <= n)%Z.
Proof.
  intros Hn Hp Hr0 Hr1. cbn [dmul]. unfold round_double.
  assert (0 <= inject_Z n) as Hn0 by (change 0 with (inject_Z 0); rewrite <- Zle_Qle; lia).
  destruct (Qeq_bool (p * r) 0) eqn:E.
  { exists 0%Z. split; [done|]. lia. }
  assert (0 <= p * r /\ p * r <= inject_Z n) as [P1 P2] by (rewrite Hp; split; nra).
  assert (Qneg (p * r) = false) as -> by (by apply Qneg_false).
  assert (~ p * r == 0) as Hnz by (intros C; apply Qeq_bool_neq in E; done).
  destruct (round_abs_le (p * r) n ltac:(lra) P2 ltac:(lia)) as (q & -> & Q1 & Q2).
  cbn [dround]. assert (Qneg q = false) as -> by (by apply Qneg_false).
  exists (Qfloor (q + (1 # 2))). split; [done|]. split.
  - apply (Qfloor_resp_le 0). lra.
  - assert (inject_Z (Qfloor (q + (1 # 2))) < inject_Z (n + 1)) as L.
    { eapply Qle_lt_trans; [apply Qfloor_le|]. rewrite inject_Z_plus. change (inject_Z 1) with 1. lra. }
    rewrite <- Zlt_Qlt in L. lia.
Qed.

Lemma dZ_exact (n : Z) : (0 <= n <= 2 ^ 53)%Z -> exists p, dZ n = Fin p /\ p == inject_Z n.
Proof.
  intros H. unfold dZ, round_double. destruct (Qeq_bool (inject_Z n) 0) eqn:E.
  - exists 0. split; [done|]. apply Qeq_bool_eq in E. by rewrite E.
  - assert (0 <= inject_Z n) as Hn by (change 0 with (inject_Z 0); rewrite <- Zle_Qle; lia).
    assert (Qneg (inject_Z n) = false) as -> by (by apply Qneg_false).
    apply round_abs_exact. assert (n <> 0)%Z; [|lia]. intros ->. done.
Qed.

Lemma Qeq_bool_comp x y z : x == y -> Qeq_bool x z = Qeq_bool y z.
Proof. intros H. apply eq_true_iff_eq. rewrite !Qeq_bool_iff, H. done. Qed.

Lemma d_to_int64_Z v : in_range int64 v = true -> d_to_int64 (Fin (inject_Z v)) = Ok v.
Proof.
  intros H. cbn [d_to_int64]. assert (Qtrunc (inject_Z v) = v) as ->; [|by rewrite H].
  unfold Qtrunc, inject_Z. cbn. apply Z.quot_1_r.
Qed.

(** Everything is symmetric around zero. *)
Lemma Qopp_opp q : - - q = q.
Proof. destruct q. unfold Qopp. cbn. by rewrite Z.opp_involutive. Qed.

Lemma dneg_neg x : dneg (dneg x) = x.
Proof. destruct x; cbn; [by rewrite Qopp_opp|by rewrite negb_involutive|done]. Qed.

Lemma round_double_opp x : round_double (- x) = dneg (round_double x).
Proof.
  unfold round_double. destruct (Qeq_bool x 0) eqn:E.
  - apply Qeq_bool_eq in E. assert (Qeq_bool (- x) 0 = true) as -> by (apply Qeq_bool_iff; rewrite E; done). done.
  - assert (Qeq_bool (- x) 0 = false) as ->.
    { destruct (Qeq_bool (- x) 0) eqn:E2; [|done]. apply Qeq_bool_eq in E2. apply Qeq_bool_neq in E. lra. }
    assert (~ x == 0) as Hx by (by apply Qeq_bool_neq). destruct (Qneg x) eqn:S.
    + apply Qneg_spec in S. assert (Qneg (- x) = false) as -> by (apply Qneg_false; lra). by rewrite dneg_neg.
    + apply Qneg_false in S. assert (Qneg (- x) = true) as -> by (apply Qneg_spec; lra). by rewrite Qopp_opp.
Qed.

Lemma dZ_opp n : dZ (- n) = dneg (dZ n).
Proof. unfold dZ. rewrite <- round_double_opp. done. Qed.

Lemma dmul_neg p r : dmul (dneg (Fin p)) (Fin r) = dneg (dmul (Fin p) (Fin r)).
Proof.
  cbn [dmul dneg]. rewrite <- round_double_opp. f_equal. destruct p, r. unfold Qmult, Qopp. cbn.
  by rewrite Z.mul_opp_l.
Qed.

Lemma dround_neg x : dround (dneg x) = dneg (dround x).
Proof.
  destruct x as [q| |]; [|done..]. cbn [dneg dround].
  assert (forall z, - inject_Z z = inject_Z (- z)) as Ei by done. rewrite Ei.
  destruct (Qneg q) eqn:S.
  - apply Qneg_spec in S. assert (Qneg (- q) = false) as -> by (apply Qneg_false; lra).
    by rewrite Z.opp_involutive.
  - apply Qneg_false in S. destruct (Qneg (- q)) eqn:S2; [by rewrite Qopp_opp|].
    apply Qneg_false in S2. assert (q == 0) as Hq by lra.
    assert (Qfloor (- q + (1 # 2)) = 0%Z) as -> by (apply Qfloor_unique; change (inject_Z 0) with 0; change (inject_Z (0+1)) with 1; lra).
    assert (Qfloor (q + (1 # 2)) = 0%Z) as -> by (apply Qfloor_unique; change (inject_Z 0) with 0; change (inject_Z (0+1)) with 1; lra).
    done.
Qed.

(** [round(n * ratio)] for a ratio between 0 and 1 is between 0 and [n]. *)
Lemma scale_bounds (n : Z) r : (- 2 ^ 53 <= n <= 2 ^ 53)%Z -> 0 <= r -> r <= 1 ->
  exists v, d_to_int64 (dround (dmul (dZ n) (Fin r))) = Ok v /\ (0 <= v <= n \/ n <= v <= 0)%Z.
Proof.
  intros Hn H0 H1.
  assert (forall v, (- 2 ^ 53 <= v <= 2 ^ 53)%Z -> in_range int64 v = true) as R.
  { intros v Hv. unfold in_range, int64. cbn [int_min int_max]. apply andb_true_iff. split; apply Z.leb_le; lia. }
  destruct (Z.leb_spec 0 n) as [Hs|Hs].
  - destruct (dZ_exact n ltac:(lia)) as (p & -> & Hp). destruct (scale_nonneg n p r) as (v & -> & Hv); [lia|done..|].
    exists v. split; [apply d_to_int64_Z, R; lia|lia].
  - replace n with (- - n)%Z by lia. rewrite dZ_opp. destruct (dZ_exact (- n) ltac:(lia)) as (p & -> & Hp).
    rewrite dmul_neg, dround_neg. destruct (scale_nonneg (- n) p r) as (v & -> & Hv); [lia|done..|].
    exists (- v)%Z. split; [|lia]. cbn [dneg]. change (- inject_Z v) with (inject_Z (- v)).
    apply d_to_int64_Z, R. lia.
Qed.
