(* ===== verification/Strtod.v ===== *)
(** * Reading floating point numbers

    [str2num<double>] of [string_transform.hh] and the [strtod] of the C library
    it calls (in the C locale).  A value out of the range of [double], or one
    that loses digits below the normal range, makes [strtod] set [errno]. *)

From Stdlib Require Import ZArith QArith Qabs Lia Lqa Ascii.
From S2P Require Import Prelude.
From S2P Require Import Ctype.
From S2P Require Import StringView.
From S2P Require Import StringTraits.
From S2P Require Import StringCompare.
From S2P Require Import StringTransform.
From S2P Require Import Floats.
From S2P Require Import Doubles.
Local Open Scope Q_scope.

(** ** strtod *)

(** The sign, and the number of characters it takes. *)
Definition strtod_sign (s : str) : bool * nat :=
  match s with
  | c :: _ => if c =c "-" then (true, 1%nat) else if c =c "+" then (false, 1%nat) else (false, 0%nat)
  | [] => (false, 0%nat)
  end.

(** The digits before and after the point, and the number of characters. *)
Definition mantissa (digit : ascii -> bool) (s : str) : str * str * nat :=
  let i := take_while digit s in
  match drop_while digit s with
  | c :: r =>
      if c =c "." then
        let f := take_while digit r in (i, f, length i + 1 + length f)%nat
      else (i, [], length i)
  | [] => (i, [], length i)
  end.

(** [e] or [p], a sign and decimal digits. *)
Definition exponent (mark : ascii) (s : str) : Z * nat :=
  match s with
  | c :: s' =>
      if to_lower c =c mark then
        let '(neg, k) := strtod_sign s' in
        let d := take_while is_digit (drop k s') in
        if SV.empty d then (0%Z, 0%nat)
        else ((if neg : bool then - num d else num d)%Z, (1 + k + length d)%nat)
      else (0%Z, 0%nat)
  | [] => (0%Z, 0%nat)
  end.

Definition hex_num (s : str) : Z := fold_left (fun n c => n * 16 + hex2dec c)%Z s 0%Z.

(** The value of the digits, [false] when there are none. *)
Definition decimal_subject (s : str) : Q * nat * bool :=
  let '(i, f, n) := mantissa is_digit s in
  let '(e, k) := exponent "e" (drop n s) in
  (inject_Z (num (i ++ f)) / inject_Z (10 ^ Z.of_nat (length f)) * (inject_Z 10 ^ e), (n + k)%nat, negb (SV.empty (i ++ f))).

Definition hex_subject (s : str) : Q * nat * bool :=
  let '(i, f, n) := mantissa is_xdigit s in
  let '(e, k) := exponent "p" (drop n s) in
  (inject_Z (hex_num (i ++ f)) / inject_Z (16 ^ Z.of_nat (length f)) * (2 ^ e), (n + k)%nat, negb (SV.empty (i ++ f))).

Definition is_nan_char (c : ascii) : bool := is_alnum c || (c =c "_").

(** [nan] and the characters in parentheses that may follow it. *)
Definition nan_length (s : str) : nat :=
  match drop 3 s with
  | c :: r =>
      if c =c "(" then
        let t := take_while is_nan_char r in
        match drop (length t) r with
        | d :: _ => if d =c ")" then (5 + length t)%nat else 3%nat
        | [] => 3%nat
        end
      else 3%nat
  | [] => 3%nat
  end.

(** The value rounded; [true] when [errno] becomes [ERANGE]. *)
Definition rounded (neg : bool) (x : Q) : double * bool :=
  let sign r := if neg then dneg r else r in
  match stod_abs x with
  | Ok r => (sign (Fin r), false)
  | _ => (sign (round_abs x), true)
  end.

(** The value, the number of characters read and whether [errno] is set. *)
Definition strtod (s : str) : double * nat * bool :=
  let white := length (take_while is_space s) in
  let '(neg, k) := strtod_sign (drop white s) in
  let t := drop (white + k) s in
  let low := to_lower <$> t in
  let done := (white + k)%nat in
  if has_prefix low (lit "infinity") then (Inf neg, (done + 8)%nat, false)
  else if has_prefix low (lit "inf") then (Inf neg, (done + 3)%nat, false)
  else if has_prefix low (lit "nan") then (NaN, (done + nan_length t)%nat, false)
  else
    let '(x, n, ok) :=
      let '(x, n, ok) := hex_subject (drop 2 t) in
      if has_prefix low (lit "0x") && ok then (x, (n + 2)%nat, ok) else decimal_subject t in
    if (ok : bool) then let '(r, range) := rounded neg x in (r, (done + n)%nat, range)
    else (Fin 0, 0%nat, false).

(** ** str2num *)

Definition str2num_double (s : str) : option double :=
  match s with
  | [] => None
  | c :: _ =>
      if is_space c then None
      else
        let '(res, read, err) := strtod s in
        if (err : bool) || negb (read =? length s)%nat then None else Some res
  end.

(** ** Properties *)

Definition shows (o : option double) (q : Q) : bool :=
  match o with Some (Fin r) => Qeq_bool r q | _ => false end.

Example strtod_samples :
  shows (str2num_double (lit "12345.67")) (6787103858842665 # 549755813888) = true /\
  shows (str2num_double (lit "-0x1.8p+1")) (-3) = true /\ shows (str2num_double (lit "+1e2")) 100 = true /\
  shows (str2num_double (lit ".5")) (1 # 2) = true /\ shows (str2num_double (lit "5.")) 5 = true /\
  str2num_double (lit "-inf") = Some (Inf true) /\ str2num_double (lit "nan(x_1)") = Some NaN /\
  str2num_double (lit "1e400") = None /\ str2num_double (lit ".") = None /\ str2num_double (lit "1e") = None /\
  str2num_double (lit " 1") = None /\ str2num_double (lit "1 ") = None /\ str2num_double (lit "0x") = None.
Proof. vm_compute. repeat split. Qed.

Lemma take_while_forall_id {A} (f : A -> bool) l : Forall (fun x => f x = true) l -> take_while f l = l.
Proof. intros H. rewrite <- (app_nil_r l) at 1. rewrite take_while_app by done. apply app_nil_r. Qed.

(** The mantissa of a printed decimal is its two parts. *)
Lemma mantissa_print i f : digits i -> digits f ->
  mantissa is_digit (print_decimal i f) = (i, f, length (print_decimal i f)).
Proof.
  intros Hi Hf. unfold mantissa, print_decimal. rewrite take_while_app, drop_while_app by done. destruct f as [|c f].
  - cbn [SV.empty length Nat.eqb take_while drop_while]. by rewrite app_nil_r.
  - cbn [SV.empty length Nat.eqb lit String.list_ascii_of_string app take_while drop_while].
    change (is_digit ".") with false. cbn iota. rewrite app_nil_r. change ("." =c ".") with true. cbn iota.
    rewrite take_while_forall_id by done. rewrite length_app. cbn [length]. f_equal. lia.
Qed.

(** No number starts like infinity, a NaN or a hexadecimal number when all it has
    are digits and a point. *)
Lemma plain_head c : is_digit c = true -> is_space c = false /\ (c =c "-") = false /\ (c =c "+") = false /\
  to_lower c <> "i"%char /\ to_lower c <> "n"%char.
Proof.
  intros Hc. assert (implb (is_digit c) (negb (is_space c) && negb (c =c "-") && negb (c =c "+") &&
    negb (to_lower c =c "i") && negb (to_lower c =c "n")) = true) as E by all_chars_compute c.
  rewrite Hc in E. cbn [implb] in E. bools. repeat split; try done; by apply char_eqb_neq.
Qed.

Lemma plain_second c : is_digit c = true \/ c = "."%char -> to_lower c <> "x"%char.
Proof.
  intros Hc. assert (implb (is_digit c || (c =c ".")) (negb (to_lower c =c "x")) = true) as E by all_chars_compute c.
  assert (is_digit c || (c =c ".") = true) as H by (destruct Hc as [-> | ->]; done). rewrite H in E. cbn [implb] in E. by bools.
Qed.

Lemma no_prefix s p c d : head s = Some c -> head p = Some d -> c <> d -> has_prefix s p = false.
Proof.
  intros Hs Hp Hne. apply not_true_iff_false. rewrite has_prefix_spec. intros [k ->].
  destruct p; [done|]. cbn in Hs, Hp. congruence.
Qed.

Lemma print_decimal_chars i f c : digits i -> digits f -> c ∈ print_decimal i f -> is_digit c = true \/ c = "."%char.
Proof.
  intros Hi Hf. rewrite Forall_forall in Hi, Hf. unfold print_decimal.
  rewrite elem_of_app. intros [H|H]; [auto|]. destruct (SV.empty f); [by apply elem_of_nil in H|].
  cbn in H. apply elem_of_cons in H as [?|H]; auto.
Qed.

Lemma no_hex_prefix i f : digits i -> digits f -> has_prefix (to_lower <$> print_decimal i f) (lit "0x") = false.
Proof.
  intros Hi Hf. apply not_true_iff_false. rewrite has_prefix_spec. intros [k Hk].
  pose proof (print_decimal_chars i f) as Hc. destruct (print_decimal i f) as [|c [|d s]]; [done..|].
  cbn in Hk. injection Hk as _ Hd _. eapply plain_second; [|exact Hd]. apply Hc; [done..|]. do 2 constructor.
Qed.

(** What [strtod] makes of a printed decimal. *)
Lemma strtod_print i f : i <> [] -> digits i -> digits f ->
  strtod (print_decimal i f) =
  let '(r, range) := rounded false (inject_Z (num (i ++ f)) / inject_Z (10 ^ Z.of_nat (length f)) * 1) in
  (r, length (print_decimal i f), range).
Proof.
  intros Hne Hi Hf. destruct i as [|c i]; [done|]. pose proof Hi as Hi'. apply Forall_cons_1 in Hi' as [Hc _].
  destruct (plain_head c Hc) as (Hsp & Hm & Hp & Hin & Hna). set (s := print_decimal (c :: i) f).
  assert (exists t, s = c :: t) as [t Et] by (unfold s, print_decimal; cbn; eauto).
  assert (take_while is_space s = []) as Hw by (rewrite Et; cbn; by rewrite Hsp).
  assert (strtod_sign s = (false, 0%nat)) as Hs by (rewrite Et; cbn; by rewrite Hm, Hp).
  assert (head (to_lower <$> s) = Some (to_lower c)) as Hh by (by rewrite Et).
  unfold strtod. rewrite Hw. cbn [length drop]. rewrite drop_0, Hs. cbn [Nat.add]. rewrite drop_0.
  rewrite (no_prefix _ (lit "infinity") _ _ Hh eq_refl Hin), (no_prefix _ (lit "inf") _ _ Hh eq_refl Hin), (no_prefix _ (lit "nan") _ _ Hh eq_refl Hna).
  pose proof (no_hex_prefix (c :: i) f Hi Hf) as Hx. fold s in Hx. rewrite Hx. cbn [andb].
  destruct (hex_subject (drop 2 s)) as [[x n] ok] eqn:Eh. cbn iota.
  unfold decimal_subject. pose proof (mantissa_print (c :: i) f Hi Hf) as Hman. fold s in Hman. rewrite Hman, drop_all.
  cbn [exponent]. rewrite Nat.add_0_r.
  assert (SV.empty ((c :: i) ++ f) = false) as -> by done. cbn [negb].
  change (inject_Z 10 ^ 0) with 1. done.
Qed.

(** [str2num<double>] reads a decimal: the digits of a number with or without
    a fraction give the nearest [double], at most one part in 2^53 away from what
    they say, for every value between 2^-60 and 2^60. *)
Theorem str2num_double_decimal i f : i <> [] -> digits i -> digits f ->
  let x := inject_Z (num (i ++ f)) / inject_Z (10 ^ Z.of_nat (length f)) in
  2 ^ (-60) <= x -> x <= 2 ^ 60 ->
  exists r, str2num_double (print_decimal i f) = Some (Fin r) /\ Qabs (r - x) <= x * 2 ^ (-53).
Proof.
  intros Hne Hi Hf x H1 H2. destruct (stod_abs_normal (x * 1)) as (r & Hr & He); [by rewrite Qmult_1_r..|].
  exists r. split; [|by rewrite !Qmult_1_r in He].
  unfold str2num_double. rewrite strtod_print by done. fold x. unfold rounded. rewrite Hr. rewrite Nat.eqb_refl.
  destruct i as [|c i]; [done|]. apply Forall_cons_1 in Hi as [Hc _]. destruct (plain_head c Hc) as (Hsp & _).
  unfold print_decimal. cbn [app]. by rewrite Hsp.
Qed.

Lemma str2num_double_decimal_witness :
  let x := inject_Z (num (lit "1234567")) / inject_Z (10 ^ 2) in
  exists r, str2num_double (lit "12345.67") = Some (Fin r) /\ Qabs (r - x) <= x * 2 ^ (-53).
Proof.
  apply (str2num_double_decimal (lit "12345") (lit "67")); [done|by repeat constructor..|by vm_compute|by vm_compute].
Defined.
