(* ===== verification/Humanize.v ===== *)
(** * Sizes for humans

    Models [humanize_file_size] of [src/humanize.cc] and [to_string] of a floating
    point number in [include/simlib/to_string.hh].  The division is that of
    doubles; [snprintf] prints the exact value of its argument rounded to the
    digits asked for, half to even, as the GNU C library does. *)

From Stdlib Require Import Ascii ZArith QArith Qabs Qround Lqa Lia.
From S2P Require Import Prelude.
From S2P Require Import StringTransform.
From S2P Require Import Floats.
From S2P Require Import Doubles.
Local Open Scope Z_scope.
Local Open Scope simlib_scope.

(** ** Printing a floating point number *)

Definition pad_zeros (width : nat) (s : str) : str := replicate (width - length s) "0"%char ++ s.

(** ["%.*Lf"] of a finite number. *)
Definition fixed (precision : nat) (q : Q) : str :=
  let scale := 10 ^ Z.of_nat precision in
  let n := round_even (Qabs q * inject_Z scale) in
  (if Qneg q then lit "-" else []) ++ to_string (n / scale) ++
  (if (precision =? 0)%nat then [] else lit "." ++ pad_zeros precision (to_string (n mod scale))).

(** A NaN is printed without its sign. *)
Definition printf_Lf (precision : nat) (x : double) : str :=
  match x with
  | Fin q => fixed precision q
  | Inf negative => if negative then lit "-inf" else lit "inf"
  | NaN => lit "nan"
  end.

(** What [snprintf] leaves in a buffer of which it may use [size] bytes. *)
Definition snprintf (buff : str) (size : nat) (text : str) : str :=
  match size with
  | O => buff
  | S n => let k := Nat.min n (length text) in take k text ++ NUL :: drop (S k) buff
  end.

(** [std::string::resize(n, '\0')] *)
Definition resize_str (s : str) (n : nat) : str := take n s ++ replicate (n - length s) NUL.

Definition STEP : nat := 20.

Definition to_string_floating (x : double) (precision : nat) : str :=
  let text := printf_Lf precision x in
  let len := length text in
  let res := snprintf (replicate STEP NUL) (STEP - 1) text in
  let res :=
    if (STEP <=? len)%nat then
      let res := resize_str res (len + 1) in
      snprintf res (length res - 1) text
    else res in
  resize_str res len.

(** ** [humanize_file_size] *)

Definition MIN_KIB : Z := Z.shiftl 1 10.
Definition MIN_MIB : Z := Z.shiftl 1 20.
Definition MIN_GIB : Z := Z.shiftl 1 30.
Definition MIN_TIB : Z := Z.shiftl 1 40.
Definition MIN_PIB : Z := Z.shiftl 1 50.
Definition MIN_EIB : Z := Z.shiftl 1 60.
Definition MIN_3DIGIT_KIB : Z := 102349.
Definition MIN_3DIGIT_MIB : Z := 104805172.
Definition MIN_3DIGIT_GIB : Z := 107320495309.
Definition MIN_3DIGIT_TIB : Z := 109896187196212.
Definition MIN_3DIGIT_PIB : Z := 112533595688920269.

Definition humanize_file_size (size : Z) : str :=
  if size <? MIN_KIB then
    if size =? 1 then lit "1 byte" else to_string size ++ lit " bytes"
  else
    let dsize := dZ size in
    let show unit precision := to_string_floating (ddiv dsize (dZ unit)) precision in
    if size <? MIN_3DIGIT_KIB then show MIN_KIB 1%nat ++ lit " KiB"
    else if size <? MIN_MIB then show MIN_KIB 0%nat ++ lit " KiB"
    else if size <? MIN_3DIGIT_MIB then show MIN_MIB 1%nat ++ lit " MiB"
    else if size <? MIN_GIB then show MIN_MIB 0%nat ++ lit " MiB"
    else if size <? MIN_3DIGIT_GIB then show MIN_GIB 1%nat ++ lit " GiB"
    else if size <? MIN_TIB then show MIN_GIB 0%nat ++ lit " GiB"
    else if size <? MIN_3DIGIT_TIB then show MIN_TIB 1%nat ++ lit " TiB"
    else if size <? MIN_PIB then show MIN_TIB 0%nat ++ lit " TiB"
    else if size <? MIN_3DIGIT_PIB then show MIN_PIB 1%nat ++ lit " PiB"
    else if size <? MIN_EIB then show MIN_PIB 0%nat ++ lit " PiB"
    else show MIN_EIB 1%nat ++ lit " EiB".

(** * Properties *)

Local Open Scope Q_scope.

(** ** Rounding of a quotient *)

Lemma round_double_error x : 2 ^ (-60) <= x -> x <= 2 ^ 65 -> exists r, round_double x = Fin r /\ Qabs (r - x) <= x * 2 ^ (-53).
Proof.
  intros H1 H2. pose proof (pow2_pos (-60)) as P. assert (0 < x) as Hx by lra. unfold round_double.
  destruct (Qeq_bool x 0) eqn:E0; [apply Qeq_bool_eq in E0; lra|].
  assert (Qneg x = false) as -> by (apply Qneg_false; lra).
  assert (ulp_exp x = (ilog2 x - (DOUBLE_PREC - 1))%Z) as Eu.
  { unfold ulp_exp. apply Z.max_l. destruct (ilog2_spec x Hx) as [_ Hl]. unfold DOUBLE_PREC, DOUBLE_MIN_ULP.
    destruct (Z.le_gt_cases (-61) (ilog2 x)); [lia|]. exfalso. pose proof (pow2_le (ilog2 x + 1) (-60) ltac:(lia)). lra. }
  unfold round_abs. rewrite Eu. change (round_at (ilog2 x - (DOUBLE_PREC - 1)) x) with (round_float DOUBLE_PREC x).
  pose proof (round_float_error DOUBLE_PREC x Hx) as E. unfold DOUBLE_PREC in *. cbn zeta.
  destruct (Qle_bool _ _) eqn:C.
  - exfalso. apply Qle_bool_iff in C. rewrite Qred_correct in C. apply Qabs_Qle_condition in E as [_ E].
    pose proof (pow2_le 66 DOUBLE_MAX_EXP ltac:(done)) as Hmax. change (2 ^ 66) with (inject_Z 73786976294838206464) in Hmax.
    change (2 ^ 65) with (36893488147419103232 # 1) in H2. change (2 ^ (- (53))) with (1 # 9007199254740992) in E.
    change (inject_Z 73786976294838206464) with (73786976294838206464 # 1) in Hmax.
    lra.
  - eexists. split; [done|]. rewrite Qred_correct. exact E.
Qed.

(** [dsize / unit] where the unit is at most the size. *)
Lemma quotient_error size (unit : Z) : (1 <= unit <= 2 ^ 60)%Z -> dZ unit = Fin (inject_Z unit) -> (unit <= size < 2 ^ 64)%Z ->
  let x := inject_Z size / inject_Z unit in
  exists r, ddiv (dZ size) (dZ unit) = Fin r /\ x * (1 - (1 # 2251799813685248)) <= r /\ r <= x * (1 + (1 # 2251799813685248)).
Proof.
  intros Hu Eu Hs x. rewrite Eu.
  assert (1 <= inject_Z size /\ inject_Z size <= 2 ^ 64) as [S1 S2].
  { split; [change 1 with (inject_Z 1)|change (2 ^ 64) with (inject_Z (2 ^ 64))]; rewrite <- Zle_Qle; lia. }
  assert (1 <= inject_Z unit /\ inject_Z unit <= inject_Z (2 ^ 60)) as [U1 U2] by (change 1 with (inject_Z 1); rewrite <- !Zle_Qle; lia).
  assert (inject_Z unit <= inject_Z size) as US by (rewrite <- Zle_Qle; lia).
  assert (2 ^ (-60) <= 1) as P60 by done. assert (1 < 2 ^ 64) as P64 by done.
  assert (x * inject_Z unit == inject_Z size) as Ex by (unfold x; field; lra).
  assert (1 <= x) as X1 by nra.
  assert (2 ^ 64 <= 2 ^ 65) as P65 by done.
  destruct (round_double_error (inject_Z size) ltac:(lra) ltac:(lra)) as (p & Ep & Hp). unfold dZ. rewrite Ep. cbn [ddiv].
  destruct (Qeq_bool (inject_Z unit) 0) eqn:E0; [apply Qeq_bool_eq in E0; lra|].
  change (2 ^ (-53)) with (1 # 9007199254740992) in Hp. apply Qabs_Qle_condition in Hp as [P1 P2].
  set (y := p / inject_Z unit). assert (y * inject_Z unit == p) as Ey by (unfold y; field; lra).
  assert (x * (1 - (1 # 9007199254740992)) <= y /\ y <= x * (1 + (1 # 9007199254740992))) as [Y1 Y2].
  { split; apply (Qmult_le_r _ _ (inject_Z unit)); lra || (rewrite Ey; nra). }
  destruct (round_double_error y) as (r & Er & Hr).
  - lra.
  - assert (y <= p) by nra. change (2 ^ 64) with (18446744073709551616 # 1) in *. change (2 ^ 65) with (36893488147419103232 # 1). lra.
  - exists r. split; [exact Er|]. change (2 ^ (-53)) with (1 # 9007199254740992) in Hr. apply Qabs_Qle_condition in Hr as [R1 R2]. split; lra.
Qed.

(** ** What is printed *)

Lemma short_text x precision : (length (printf_Lf precision x) <= 18)%nat -> to_string_floating x precision = printf_Lf precision x.
Proof.
  intros Hl. unfold to_string_floating. set (text := printf_Lf precision x) in *.
  destruct (STEP <=? length text)%nat eqn:E; [apply Nat.leb_le in E; unfold STEP in E; lia|].
  unfold snprintf, STEP. cbn [Nat.sub]. rewrite Nat.min_r by lia. rewrite firstn_all. unfold resize_str.
  rewrite take_app_length. rewrite length_app. replace (length text - _)%nat with 0%nat by lia. apply app_nil_r.
Qed.

Lemma small_numbers_length n : (0 <= n <= 1024)%Z -> (length (to_string n) <= 4)%nat.
Proof.
  intros Hn. assert (forallb (fun i => (length (to_string (Z.of_nat i)) <=? 4)%nat) (seq 0 1025) = true) as H by (vm_compute; reflexivity).
  rewrite forallb_forall in H. specialize (H (Z.to_nat n)). rewrite Z2Nat.id in H by lia. apply Nat.leb_le, H. apply in_seq. lia.
Qed.

Lemma digit_length n : (0 <= n <= 9)%Z -> length (to_string n) = 1%nat.
Proof.
  intros Hn. assert (forallb (fun i => (length (to_string (Z.of_nat i)) =? 1)%nat) (seq 0 10) = true) as H by (vm_compute; reflexivity).
  rewrite forallb_forall in H. specialize (H (Z.to_nat n)). rewrite Z2Nat.id in H by lia. apply Nat.eqb_eq, H. apply in_seq. lia.
Qed.

Lemma round_even_bounds y (lo hi : Z) : inject_Z lo - (1 # 2) < y -> y < inject_Z hi + (1 # 2) -> (lo <= round_even y <= hi)%Z.
Proof.
  intros H1 H2. pose proof (round_even_error y) as E. apply Qabs_Qle_condition in E as [E1 E2]. set (n := round_even y) in *. split.
  - assert (inject_Z lo < inject_Z (n + 1)) as L by (rewrite inject_Z_plus; change (inject_Z 1) with 1; lra). rewrite <- Zlt_Qlt in L. lia.
  - assert (inject_Z n < inject_Z (hi + 1)) as L by (rewrite inject_Z_plus; change (inject_Z 1) with 1; lra). rewrite <- Zlt_Qlt in L. lia.
Qed.

(** With one decimal, and without. *)
Lemma show_one_decimal r : 1 - (1 # 100) <= r -> r < (1999 # 20) -> exists n, (10 <= n <= 999)%Z /\
  to_string_floating (Fin r) 1 = to_string (n / 10) ++ lit "." ++ to_string (n mod 10) /\ Qabs (inject_Z n / 10 - r) <= 1 # 20.
Proof.
  intros H1 H2. set (y := Qabs r * inject_Z (10 ^ Z.of_nat 1)). assert (y == r * 10) as Ey by (unfold y; by rewrite Qabs_pos by lra).
  set (n := round_even y). exists n.
  assert (10 <= n <= 999)%Z as Hn by (apply round_even_bounds; change (inject_Z 10) with 10; change (inject_Z 999) with 999; lra).
  assert (printf_Lf 1 (Fin r) = to_string (n / 10) ++ lit "." ++ to_string (n mod 10)) as E.
  { unfold printf_Lf, fixed. assert (Qneg r = false) as -> by (apply Qneg_false; lra).
    fold y n.
    cbn [Nat.eqb app]. change (10 ^ Z.of_nat 1)%Z with 10%Z. unfold pad_zeros. rewrite digit_length; [done|].
    pose proof (Z.mod_pos_bound n 10 eq_refl). lia. }
  split; [done|]. split.
  - rewrite short_text; [exact E|]. rewrite E, !length_app. pose proof (small_numbers_length (n / 10)) as L.
    rewrite (digit_length (n mod 10)) by (pose proof (Z.mod_pos_bound n 10 eq_refl); lia). cbn.
    assert (0 <= n / 10 <= 1024)%Z as B by (split; [apply Z.div_pos; lia|]; apply Z.div_le_upper_bound; lia). specialize (L B). lia.
  - pose proof (round_even_error y) as Hr. fold n in Hr. apply Qabs_Qle_condition in Hr as [R1 R2].
    assert (inject_Z n / 10 == inject_Z n * (1 # 10)) as -> by (field; done). apply Qabs_Qle_condition. split; lra.
Qed.

Lemma show_no_decimal r : (199 # 2) < r -> r < (2049 # 2) -> exists n, (100 <= n <= 1024)%Z /\
  to_string_floating (Fin r) 0 = to_string n /\ Qabs (inject_Z n - r) <= 1 # 2.
Proof.
  intros H1 H2. set (y := Qabs r * inject_Z (10 ^ Z.of_nat 0)). assert (y == r * 1) as Ey by (unfold y; by rewrite Qabs_pos by lra).
  set (n := round_even y). exists n.
  assert (100 <= n <= 1024)%Z as Hn by (apply round_even_bounds; change (inject_Z 100) with 100; change (inject_Z 1024) with 1024; lra).
  assert (printf_Lf 0 (Fin r) = to_string n) as E.
  { unfold printf_Lf, fixed. assert (Qneg r = false) as -> by (apply Qneg_false; lra).
    fold y n.
    cbn [Nat.eqb app]. change (10 ^ Z.of_nat 0)%Z with 1%Z. by rewrite Z.div_1_r, app_nil_r. }
  split; [done|]. split.
  - rewrite short_text; [exact E|]. rewrite E. pose proof (small_numbers_length n). lia.
  - pose proof (round_even_error y) as Hr. fold n in Hr. apply Qabs_Qle_condition in Hr as [R1 R2]. apply Qabs_Qle_condition. split; lra.
Qed.

Definition units : list (Z * str) :=
  [(10%Z, lit "KiB"); (20%Z, lit "MiB"); (30%Z, lit "GiB"); (40%Z, lit "TiB"); (50%Z, lit "PiB"); (60%Z, lit "EiB")].

(** The text [s] shows [size] in the unit [2 ^ k] with one decimal, or with
    none. *)
Definition shows_tenths (size k : Z) (name s : str) : Prop :=
  exists n, (10 <= n <= 999)%Z /\ s = to_string (n / 10) ++ lit "." ++ to_string (n mod 10) ++ lit " " ++ name /\
    Qabs (inject_Z n / 10 - inject_Z size / inject_Z (2 ^ k)) <= (1 # 20) + (1 # 2 ^ 40).
Definition shows_whole (size k : Z) (name s : str) : Prop :=
  exists n, (100 <= n <= 1024)%Z /\ s = to_string n ++ lit " " ++ name /\
    Qabs (inject_Z n - inject_Z size / inject_Z (2 ^ k)) <= (1 # 2) + (1 # 2 ^ 40).

Lemma unit_exact k name : (k, name) ∈ units -> (1 <= 2 ^ k <= 2 ^ 60)%Z /\ dZ (2 ^ k) = Fin (inject_Z (2 ^ k)).
Proof.
  intros Hk. assert (Forall (fun x => (1 <= 2 ^ x.1 <= 2 ^ 60)%Z /\ dZ (2 ^ x.1) = Fin (inject_Z (2 ^ x.1))) units) as H
    by (repeat constructor; vm_compute; done).
  rewrite Forall_forall in H. exact (H _ Hk).
Qed.

Lemma shows_tenths_below size k name (top : Z) : (k, name) ∈ units -> (2 ^ k <= size < top)%Z -> (top <= 2 ^ 64)%Z ->
  inject_Z (top - 1) * (1 + (1 # 2251799813685248)) < (1999 # 20) * inject_Z (2 ^ k) ->
  shows_tenths size k name (to_string_floating (ddiv (dZ size) (dZ (2 ^ k))) 1 ++ lit " " ++ name).
Proof.
  intros Hk Hs Ht Htop. destruct (unit_exact k name Hk) as [Hu Eu]. destruct (quotient_error size (2 ^ k) Hu Eu ltac:(lia)) as (r & -> & R1 & R2).
  set (x := inject_Z size / inject_Z (2 ^ k)) in *. set (u := inject_Z (2 ^ k)) in *.
  assert (1 <= u) as U1 by (unfold u; change 1 with (inject_Z 1); rewrite <- Zle_Qle; lia).
  assert (x * u == inject_Z size) as Ex by (unfold x; field; lra).
  assert (u <= inject_Z size /\ inject_Z size <= inject_Z (top - 1)) as [S1 S2] by (unfold u; rewrite <- !Zle_Qle; lia).
  assert (1 <= x) as X1 by nra. assert (x * (1 + (1 # 2251799813685248)) < (1999 # 20)) as X2 by nra.
  destruct (show_one_decimal r ltac:(lra) ltac:(lra)) as (n & Hn & -> & Hr). exists n. split; [done|]. split; [by rewrite <- !app_assoc|].
  apply Qabs_Qle_condition in Hr as [N1 N2]. apply Qabs_Qle_condition. fold u. fold x. change (1 # 2 ^ 40) with (1 # 1099511627776). split; lra.
Qed.

Lemma shows_whole_above size k name (bottom top : Z) : (k, name) ∈ units -> (bottom <= size < top)%Z -> (2 ^ k <= bottom)%Z -> (top <= 2 ^ 64)%Z ->
  (199 # 2) * inject_Z (2 ^ k) < inject_Z bottom * (1 - (1 # 2251799813685248)) -> inject_Z top <= 1024 * inject_Z (2 ^ k) ->
  shows_whole size k name (to_string_floating (ddiv (dZ size) (dZ (2 ^ k))) 0 ++ lit " " ++ name).
Proof.
  intros Hk Hs Hb Ht Hbot Htop. destruct (unit_exact k name Hk) as [Hu Eu]. destruct (quotient_error size (2 ^ k) Hu Eu ltac:(lia)) as (r & -> & R1 & R2).
  set (x := inject_Z size / inject_Z (2 ^ k)) in *. set (u := inject_Z (2 ^ k)) in *.
  assert (1 <= u) as U1 by (unfold u; change 1 with (inject_Z 1); rewrite <- Zle_Qle; lia).
  assert (x * u == inject_Z size) as Ex by (unfold x; field; lra).
  assert (inject_Z bottom <= inject_Z size /\ inject_Z size <= inject_Z top) as [S1 S2] by (rewrite <- !Zle_Qle; lia).
  assert (x <= 1024) as X1 by nra. assert ((199 # 2) < x * (1 - (1 # 2251799813685248))) as X2 by nra.
  destruct (show_no_decimal r ltac:(lra) ltac:(lra)) as (n & Hn & -> & Hr). exists n. split; [done|]. split; [done|].
  apply Qabs_Qle_condition in Hr as [N1 N2]. apply Qabs_Qle_condition. fold u. fold x. change (1 # 2 ^ 40) with (1 # 1099511627776). split; lra.
Qed.

(** A branch of the function: the unit is the one at [i]. *)
Ltac constants := unfold MIN_3DIGIT_KIB, MIN_3DIGIT_MIB, MIN_3DIGIT_GIB, MIN_3DIGIT_TIB, MIN_3DIGIT_PIB in *.
Ltac is_unit i := apply (list_elem_of_lookup_2 units i); reflexivity.
Ltac branch i := eexists _, _; split; [is_unit i|split; [constants; lia|]].
Ltac tenths i top := branch i; left; apply (shows_tenths_below _ _ _ top); [is_unit i|constants; lia|by vm_compute|by vm_compute].
Ltac wholes i bottom top := branch i; right; apply (shows_whole_above _ _ _ bottom top);
  [is_unit i|constants; lia|by vm_compute|by vm_compute|by vm_compute|by vm_compute].

(** C33: what [humanize_file_size] shows of a 64-bit size: below 1024 the exact
    number of bytes; otherwise the unit is the largest power of 1024 that is not
    greater than the size, the number is between 1.0 and 99.9 with one decimal
    and off by at most half a tenth of the unit, or between 100 and 1024 without
    decimals and off by at most half the unit (up to the rounding of doubles);
    a hundred is never shown as 100.0. *)
Theorem humanize_file_size_bounds size : (0 <= size < 2 ^ 64)%Z ->
  ((size < 1024)%Z /\ humanize_file_size size = to_string size ++ (if (size =? 1)%Z then lit " byte" else lit " bytes")) \/
  exists k name, (k, name) ∈ units /\ (2 ^ k <= size < 2 ^ (k + 10))%Z /\
    (shows_tenths size k name (humanize_file_size size) \/ shows_whole size k name (humanize_file_size size)).
Proof.
  intros Hs. unfold humanize_file_size.
  destruct (Z.ltb_spec size MIN_KIB) as [|HK].
  { left. split; [done|]. destruct (Z.eqb_spec size 1) as [->|]; done. }
  right. change MIN_KIB with (2 ^ 10)%Z in *. change MIN_MIB with (2 ^ 20)%Z. change MIN_GIB with (2 ^ 30)%Z.
  change MIN_TIB with (2 ^ 40)%Z. change MIN_PIB with (2 ^ 50)%Z. change MIN_EIB with (2 ^ 60)%Z. cbn zeta.
  destruct (Z.ltb_spec size MIN_3DIGIT_KIB); [by tenths 0%nat MIN_3DIGIT_KIB|].
  destruct (Z.ltb_spec size (2 ^ 20)); [by wholes 0%nat MIN_3DIGIT_KIB (2 ^ 20)%Z|].
  destruct (Z.ltb_spec size MIN_3DIGIT_MIB); [by tenths 1%nat MIN_3DIGIT_MIB|].
  destruct (Z.ltb_spec size (2 ^ 30)); [by wholes 1%nat MIN_3DIGIT_MIB (2 ^ 30)%Z|].
  destruct (Z.ltb_spec size MIN_3DIGIT_GIB); [by tenths 2%nat MIN_3DIGIT_GIB|].
  destruct (Z.ltb_spec size (2 ^ 40)); [by wholes 2%nat MIN_3DIGIT_GIB (2 ^ 40)%Z|].
  destruct (Z.ltb_spec size MIN_3DIGIT_TIB); [by tenths 3%nat MIN_3DIGIT_TIB|].
  destruct (Z.ltb_spec size (2 ^ 50)); [by wholes 3%nat MIN_3DIGIT_TIB (2 ^ 50)%Z|].
  destruct (Z.ltb_spec size MIN_3DIGIT_PIB); [by tenths 4%nat MIN_3DIGIT_PIB|].
  destruct (Z.ltb_spec size (2 ^ 60)); [by wholes 4%nat MIN_3DIGIT_PIB (2 ^ 60)%Z|].
  by tenths 5%nat (2 ^ 64)%Z.
Qed.

Lemma humanize_file_size_bounds_witness :
  humanize_file_size 129747 = lit "127 KiB" /\
  (((129747 < 1024)%Z /\ humanize_file_size 129747 = to_string 129747 ++ lit " bytes") \/
   exists k name, (k, name) ∈ units /\ (2 ^ k <= 129747 < 2 ^ (k + 10))%Z /\
    (shows_tenths 129747 k name (humanize_file_size 129747) \/ shows_whole 129747 k name (humanize_file_size 129747))).
Proof. split; [vm_compute; reflexivity|]. exact (humanize_file_size_bounds 129747 ltac:(lia)). Defined.

(** The least sizes that are shown without decimals are those that would be shown
    as 100.0 otherwise, but for PiB: there 99.9 PiB becomes 100 PiB too early. *)
Lemma pib_threshold_too_small :
  to_string_floating (ddiv (dZ MIN_3DIGIT_PIB) (dZ MIN_PIB)) 1 = lit "99.9" /\
  humanize_file_size MIN_3DIGIT_PIB = lit "100 PiB" /\
  map (fun x : Z * Z => to_string_floating (ddiv (dZ x.1) (dZ x.2)) 1)
    [(MIN_3DIGIT_KIB, MIN_KIB); (MIN_3DIGIT_MIB, MIN_MIB); (MIN_3DIGIT_GIB, MIN_GIB); (MIN_3DIGIT_TIB, MIN_TIB)] =
  replicate 4 (lit "100.0").
Proof. split; [|split]; vm_compute; reflexivity. Qed.

(** [snprintf] is given one byte less than it needs: the last digit of a text of
    19 characters or more becomes a null byte. *)
Lemma to_string_floating_loses_last :
  to_string_floating (dZ 1000000000000) 6 = lit "1000000000000.00000" ++ [NUL] /\
  to_string_floating (dZ 100000000000) 6 = lit "100000000000.00000" ++ [NUL].
Proof. split; vm_compute; reflexivity. Qed.

(** The values of the unit test. *)
Example humanize_test :
  forallb (fun x : Z * str => bool_decide (humanize_file_size x.1 = x.2))
    [(0, lit "0 bytes"); (1, lit "1 byte"); (1023, lit "1023 bytes"); (1024, lit "1.0 KiB"); (129747, lit "127 KiB");
     (97379112, lit "92.9 MiB"); (2 ^ 20 - 1, lit "1024 KiB"); (2 ^ 30 - 1, lit "1024 MiB"); (2 ^ 40 - 1, lit "1024 GiB");
     (2 ^ 50 - 1, lit "1024 TiB"); (2 ^ 60 - 1, lit "1024 PiB"); (2 ^ 60, lit "1.0 EiB");
     (102348, lit "99.9 KiB"); (102349, lit "100 KiB"); (109896187196211, lit "99.9 TiB"); (109896187196212, lit "100 TiB");
     (112533595688920268, lit "99.9 PiB"); (112533595688920269, lit "100 PiB"); (2 ^ 64 - 1, lit "16.0 EiB")]%Z = true.
Proof. vm_compute. reflexivity. Qed.
