(* ===== verification/Time.v ===== *)
(** * Times and durations

    Models [include/simlib/time.hh]: the arithmetic of [timespec] and [timeval],
    the conversions to and from [std::chrono] durations and the printing of a
    time in seconds.  Signed 64-bit arithmetic is checked: a result that does
    not fit is undefined behaviour. *)

From Stdlib Require Import ZArith QArith Qabs Lia Lqa Ascii.
From S2P Require Import Prelude.
From S2P Require Import Ctype.
From S2P Require Import StringView.
From S2P Require Import StringTraits.
From S2P Require Import StringCompare.
From S2P Require Import StringTransform.
From S2P Require Import Floats.
Local Open Scope Z_scope.

(** The result of a signed 64-bit operation. *)
Definition i64 (x : Z) : outcome Z := if in_range int64 x then Ok x else UB.

Definition NSEC : Z := 1000000000.
Definition USEC : Z := 1000000.

(** ** timespec *)

Record timespec := mkTimespec { tv_sec : Z; tv_nsec : Z }.

Definition timespec_add (a b : timespec) : outcome timespec :=
  sec ← i64 (tv_sec a + tv_sec b);
  nsec ← i64 (tv_nsec a + tv_nsec b);
  if NSEC <=? nsec then
    sec' ← i64 (sec + 1);
    Ok (mkTimespec sec' (nsec - NSEC))
  else Ok (mkTimespec sec nsec).

Definition timespec_sub (a b : timespec) : outcome timespec :=
  sec ← i64 (tv_sec a - tv_sec b);
  nsec ← i64 (tv_nsec a - tv_nsec b);
  if nsec <? 0 then
    sec' ← i64 (sec - 1);
    Ok (mkTimespec sec' (nsec + NSEC))
  else Ok (mkTimespec sec nsec).

Definition timespec_eqb (a b : timespec) : bool :=
  (tv_sec a =? tv_sec b) && (tv_nsec a =? tv_nsec b).

Definition timespec_ltb (a b : timespec) : bool :=
  (tv_sec a <? tv_sec b) || ((tv_sec a =? tv_sec b) && (tv_nsec a <? tv_nsec b)).

Definition timespec_leb (a b : timespec) : bool :=
  (tv_sec a <? tv_sec b) || ((tv_sec a =? tv_sec b) && (tv_nsec a <=? tv_nsec b)).

(** ** timeval *)

Record timeval := mkTimeval { tvu_sec : Z; tvu_usec : Z }.

Definition timeval_add (a b : timeval) : outcome timeval :=
  sec ← i64 (tvu_sec a + tvu_sec b);
  usec ← i64 (tvu_usec a + tvu_usec b);
  if USEC <=? usec then
    sec' ← i64 (sec + 1);
    Ok (mkTimeval sec' (usec - USEC))
  else Ok (mkTimeval sec usec).

Definition timeval_sub (a b : timeval) : outcome timeval :=
  sec ← i64 (tvu_sec a - tvu_sec b);
  usec ← i64 (tvu_usec a - tvu_usec b);
  if usec <? 0 then
    sec' ← i64 (sec - 1);
    Ok (mkTimeval sec' (usec + USEC))
  else Ok (mkTimeval sec usec).

Definition timeval_eqb (a b : timeval) : bool :=
  (tvu_sec a =? tvu_sec b) && (tvu_usec a =? tvu_usec b).

Definition timeval_ltb (a b : timeval) : bool :=
  (tvu_sec a <? tvu_sec b) || ((tvu_sec a =? tvu_sec b) && (tvu_usec a <? tvu_usec b)).

Definition timeval_leb (a b : timeval) : bool :=
  (tvu_sec a <? tvu_sec b) || ((tvu_sec a =? tvu_sec b) && (tvu_usec a <=? tvu_usec b)).

(** ** Durations

    A [std::chrono::duration<int64_t, std::ratio<1, 10^prec>>] is its count. *)

Definition to_nanoseconds (ts : timespec) : outcome Z :=
  sec ← i64 (tv_sec ts * NSEC);
  i64 (sec + tv_nsec ts).

Definition to_duration (tv : timeval) : outcome Z :=
  sec ← i64 (tvu_sec tv * USEC);
  i64 (sec + tvu_usec tv).

(** [to_timespec] of a duration in nanoseconds: both conversions truncate. *)
Definition to_timespec (dur : Z) : timespec :=
  mkTimespec (Z.quot dur NSEC) (dur - Z.quot dur NSEC * NSEC).

(** [floor_to_10ms] of a duration in nanoseconds, counted in hundredths of a
    second. *)
Definition floor_to_10ms (time : Z) : Z := Z.quot time 10000000.

Fixpoint is_power_of_10_loop (fuel : nat) (x : Z) : outcome bool :=
  match fuel with
  | O => NoFuel
  | S fuel' =>
      if x <=? 1 then Ok (x =? 1)
      else if negb (Z.rem x 10 =? 0) then Ok false
      else is_power_of_10_loop fuel' (Z.quot x 10)
  end.

(** Each iteration divides by ten, so one per bit of [x] is enough. *)
Definition is_power_of_10 (x : Z) : outcome bool :=
  if x <=? 0 then Ok false else is_power_of_10_loop (to_string_fuel x + 1) x.

(** ** Printing *)

(** [for (i = len + n - 1; i >= len; --i) { res[i] = '0' + x % 10; x /= 10; }]:
    the [n] characters from [len] on. *)
Fixpoint fraction_digits (n : nat) (x : Z) : str :=
  match n with
  | O => []
  | S n' => fraction_digits n' (Z.quot x 10) ++ [char_of (48 + Z.rem x 10)]
  end.

(** The tail of the printing functions.  [sec] are the digits already in the
    buffer, [frac] the fraction written after the decimal point, of which the
    first [keep] characters are looked at; [cap] is the size of the
    [StaticCStringBuff], whose array has [cap + 1] elements. *)
Definition finish_fraction (cap : nat) (sec frac : str) (keep : nat) (trim_zeros : bool) :
    outcome str :=
  if (cap + 1 <? length sec + 1 + length frac)%nat then UB
  else
    let kept := take keep frac in
    let kept := if trim_zeros then SV.remove_trailing_char "0" kept else kept in
    let res := if SV.empty kept then sec else sec ++ lit "." ++ kept in
    if (cap <? length res)%nat then UB else Ok res.

(** Sizes of the buffers [to_string<int64_t>] and [to_string<uint64_t>] return:
    the digits of the greatest value and one more. *)
Definition INT64_BUFF : nat := 20.
Definition UINT64_BUFF : nat := 21.

(** [to_string(duration, trim_zeros)] for a duration in units of
    [10 ^ -prec] seconds. *)
Definition duration_to_string (prec : nat) (dur : Z) (trim_zeros : bool) : outcome str :=
  let den := 10 ^ Z.of_nat prec in
  let dec_dur := Z.quot dur den in
  let x := dur - dec_dur * den in
  let frac := fraction_digits prec x in
  if trim_zeros then finish_fraction INT64_BUFF (to_string dec_dur) frac prec true
  else
    (* without trimming the decimal point stays, even before no digit *)
    if (INT64_BUFF <? length (to_string dec_dur) + 1 + prec)%nat then UB
    else Ok (to_string dec_dur ++ lit "." ++ frac).

(** [tv_sec] is converted to [uint64_t] first. *)
Definition to_uint64 (x : Z) : Z := x mod 2 ^ 64.

Definition timespec_to_string (x : timespec) (prec : nat) (trim_zeros : bool) : outcome str :=
  finish_fraction UINT64_BUFF (to_string (to_uint64 (tv_sec x))) (fraction_digits 9 (tv_nsec x))
    (Nat.min 9 prec) trim_zeros.

Definition timeval_to_string (x : timeval) (prec : nat) (trim_zeros : bool) : outcome str :=
  finish_fraction UINT64_BUFF (to_string (to_uint64 (tvu_sec x))) (fraction_digits 6 (tvu_usec x))
    (Nat.min 6 prec) trim_zeros.

Example duration_ex1 : duration_to_string 9 1012300000 true = Ok (lit "1.0123").
Proof. reflexivity. Qed.
Example duration_ex2 : duration_to_string 9 100123456780 true = Ok (lit "100.12345678").
Proof. reflexivity. Qed.
Example duration_ex3 : duration_to_string 0 1 true = Ok (lit "1").
Proof. reflexivity. Qed.
Example timespec_ex : timespec_to_string (mkTimespec 5 120000000) 3 false = Ok (lit "5.120").
Proof. reflexivity. Qed.

(** * Properties *)

(** ** timespec arithmetic *)

(** A normalised time has between 0 and [NSEC - 1] nanoseconds. *)
Definition normalised (t : timespec) : Prop :=
  in_range int64 (tv_sec t) = true /\ 0 <= tv_nsec t < NSEC.

(** The time as a number of nanoseconds. *)
Definition total_ns (t : timespec) : Z := tv_sec t * NSEC + tv_nsec t.

Lemma i64_ok x : - 2 ^ 63 <= x < 2 ^ 63 -> i64 x = Ok x.
Proof.
  intros H. unfold i64, in_range, int64. cbn [int_min int_max].
  destruct (Z.leb_spec (- 2 ^ 63) x), (Z.leb_spec x (2 ^ 63 - 1)); try lia. done.
Qed.

Lemma i64_inv x y : i64 x = Ok y -> y = x /\ - 2 ^ 63 <= x < 2 ^ 63.
Proof.
  unfold i64, in_range, int64. cbn [int_min int_max].
  destruct (Z.leb_spec (- 2 ^ 63) x), (Z.leb_spec x (2 ^ 63 - 1)); simpl; try discriminate.
  intros [= <-]. lia.
Qed.

Lemma normalised_i64 t : normalised t -> - 2 ^ 63 <= tv_sec t < 2 ^ 63 /\ 0 <= tv_nsec t < NSEC.
Proof.
  intros [H1 H2]. unfold in_range, int64 in H1. cbn [int_min int_max] in H1. lia.
Qed.

Lemma to_normalised s n : - 2 ^ 63 <= s < 2 ^ 63 -> 0 <= n < NSEC -> normalised (mkTimespec s n).
Proof.
  intros H1 H2. split; [|done]. unfold in_range, int64. cbn [int_min int_max tv_sec]. lia.
Qed.

(** Adding and subtracting normalised times is exact and the result is
    normalised again, whenever the number of seconds stays within 63 bits of
    magnitude (one of slack for the carry); no intermediate operation
    overflows. *)
Theorem timespec_arith_exact a b :
  normalised a -> normalised b -> Z.abs (tv_sec a) < 2 ^ 62 -> Z.abs (tv_sec b) < 2 ^ 62 ->
  (exists s, timespec_add a b = Ok s /\ normalised s /\ total_ns s = total_ns a + total_ns b) /\
  (exists d, timespec_sub a b = Ok d /\ normalised d /\ total_ns d = total_ns a - total_ns b).
Proof.
  intros Ha Hb La Lb. apply normalised_i64 in Ha as [A1 A2]. apply normalised_i64 in Hb as [B1 B2].
  unfold timespec_add, timespec_sub, total_ns, NSEC in *. split.
  - rewrite !i64_ok by lia. cbn [mbind outcome_bind].
    destruct (Z.leb_spec 1000000000 (tv_nsec a + tv_nsec b)).
    + rewrite i64_ok by lia. eexists. split; [reflexivity|]. cbn [tv_sec tv_nsec].
      split; [apply to_normalised; unfold NSEC; lia|lia].
    + eexists. split; [reflexivity|]. cbn [tv_sec tv_nsec].
      split; [apply to_normalised; unfold NSEC; lia|lia].
  - rewrite !i64_ok by lia. cbn [mbind outcome_bind].
    destruct (Z.ltb_spec (tv_nsec a - tv_nsec b) 0).
    + rewrite i64_ok by lia. eexists. split; [reflexivity|]. cbn [tv_sec tv_nsec].
      split; [apply to_normalised; unfold NSEC; lia|lia].
    + eexists. split; [reflexivity|]. cbn [tv_sec tv_nsec].
      split; [apply to_normalised; unfold NSEC; lia|lia].
Qed.

Lemma timespec_arith_exact_witness :
  exists d, timespec_sub (mkTimespec 5 100) (mkTimespec 3 200) = Ok d /\ total_ns d = 1999999900.
Proof.
  destruct (timespec_arith_exact (mkTimespec 5 100) (mkTimespec 3 200)) as [_ (d & E & _ & T)];
    [by split|by split|reflexivity|reflexivity|].
  exists d. split; [exact E|]. rewrite T. reflexivity.
Defined.

(** The comparison operators compare the numbers of nanoseconds. *)
Lemma timespec_compare_ns a b : normalised a -> normalised b ->
  timespec_ltb a b = (total_ns a <? total_ns b) /\
  timespec_leb a b = (total_ns a <=? total_ns b) /\
  timespec_eqb a b = (total_ns a =? total_ns b).
Proof.
  intros Ha Hb. apply normalised_i64 in Ha as [_ A2]. apply normalised_i64 in Hb as [_ B2].
  unfold timespec_ltb, timespec_leb, timespec_eqb, total_ns, NSEC in *. split_and!; lia.
Qed.

(** [to_timespec] undoes [to_nanoseconds] on the times it can represent. *)
Lemma to_timespec_to_nanoseconds t n :
  0 <= tv_sec t -> 0 <= tv_nsec t < NSEC -> to_nanoseconds t = Ok n -> to_timespec n = t.
Proof.
  intros H1 H2 H. unfold to_nanoseconds in H.
  apply bind_Ok in H as (s & E & H). apply i64_inv in E as [-> _]. apply i64_inv in H as [-> _].
  unfold to_timespec, NSEC in *. destruct t as [s n]. cbn [tv_sec tv_nsec] in *.
  rewrite Z.quot_div_nonneg by lia. rewrite Z.div_add_l, Z.div_small by lia.
  f_equal; lia.
Qed.

(** ** Printing *)

Lemma fraction_digits_spec n : forall x, 0 <= x ->
  digits (fraction_digits n x) /\ length (fraction_digits n x) = n /\
  num (fraction_digits n x) = x mod 10 ^ Z.of_nat n.
Proof.
  induction n as [|n IH]; intros x Hx; cbn [fraction_digits].
  - split_and!; [constructor|done|]. rewrite Z.mod_1_r. done.
  - rewrite Z.quot_div_nonneg, Z.rem_mod_nonneg by lia.
    destruct (IH (x / 10)) as (H1 & H2 & H3); [apply Z.div_pos; lia|].
    pose proof (Z.mod_pos_bound x 10 ltac:(lia)) as Hm. rewrite Z.add_comm.
    destruct (char_of_digit (x mod 10)) as [Hd Hv]; [lia|]. split_and!.
    + apply Forall_app. auto.
    + rewrite length_app, H2. simpl. lia.
    + rewrite num_app, H3, num_cons, Hv. cbn [length]. change (num []) with 0.
      change (10 ^ Z.of_nat 1) with 10. change (10 ^ Z.of_nat 0) with 1.
      rewrite Nat2Z.inj_succ, Z.pow_succ_r, Z.rem_mul_r by lia. lia.
Qed.

(** What [remove_trailing('0')] takes away. *)
Lemma remove_trailing_zeros s : exists k,
  s = SV.remove_trailing_char "0" s ++ replicate k "0"%char /\
  (forall l, SV.remove_trailing_char "0" s <> l ++ ["0"%char]).
Proof.
  unfold SV.remove_trailing_char, SV.remove_trailing. exists (length (take_while (fun x => x =c "0") (rev s))).
  split.
  - rewrite <- (rev_involutive s) at 1. rewrite <- (take_drop_while (fun x => x =c "0") (rev s)) at 1.
    rewrite rev_app_distr. f_equal. rewrite <- length_rev.
    generalize (take_while_forall (fun x => x =c "0") (rev s)).
    generalize (take_while (fun x => x =c "0") (rev s)). intros l Hl. symmetry. apply replicate_as_Forall.
    split; [done|]. apply Forall_rev. eapply Forall_impl; [exact Hl|]. intros c Hc. by apply char_eqb_eq in Hc.
  - intros l E. apply (f_equal (@rev ascii)) in E. rewrite rev_involutive, rev_app_distr in E.
    cbn [rev app] in E. apply drop_while_head in E. done.
Qed.

Lemma length_to_string x k : 0 <= x < 10 ^ Z.of_nat k -> (0 < k)%nat -> (length (to_string x) <= k)%nat.
Proof.
  intros Hx Hk. destruct (Z.eq_dec x 0) as [->|Hne]; [simpl; lia|].
  destruct (to_string_pos x) as (Hd & Hn & c & l & E & Hc); [lia|].
  destruct (decide (length (to_string x) <= k)%nat) as [|C]; [done|]. exfalso.
  pose proof Hd as Hd'. rewrite E in Hd'. pose proof (num_lower c l Hd' Hc) as Hl. rewrite <- E, Hn in Hl.
  rewrite E in C. cbn [length] in C.
  assert (10 ^ Z.of_nat k <= 10 ^ Z.of_nat (length l)) by (apply Z.pow_le_mono_r; lia). lia.
Qed.

Lemma num_zeros s k : num (s ++ replicate k "0"%char) = num s * 10 ^ Z.of_nat k.
Proof.
  rewrite num_app, length_replicate. replace (num (replicate k "0"%char)) with 0; [lia|].
  induction k as [|k IH]; [done|]. cbn [replicate]. rewrite num_cons, <- IH. done.
Qed.

(** The text of a non-negative duration: its whole seconds, and the digits of
    its fraction without trailing zeros. *)
Lemma duration_to_string_spec prec d : (prec <= 18)%nat -> 0 <= d < 2 ^ 63 ->
  exists f, duration_to_string prec d true = Ok (print_decimal (to_string (d / 10 ^ Z.of_nat prec)) f) /\
    digits f /\ (length f <= prec)%nat /\ (forall l, f <> l ++ ["0"%char]) /\
    num f * 10 ^ Z.of_nat (prec - length f) = d mod 10 ^ Z.of_nat prec.
Proof.
  intros Hp Hd. unfold duration_to_string. set (den := 10 ^ Z.of_nat prec).
  assert (0 < den) as Hden by (apply Z.pow_pos_nonneg; lia).
  rewrite Z.quot_div_nonneg by lia.
  replace (d - d / den * den) with (d mod den) by (pose proof (Z.div_mod d den); lia).
  destruct (fraction_digits_spec prec (d mod den)) as (F1 & F2 & F3).
  { apply Z.mod_pos_bound. lia. }
  fold den in F3. rewrite Z.mod_mod in F3 by lia. set (fr := fraction_digits prec (d mod den)) in *.
  destruct (remove_trailing_zeros fr) as (k & E & Hnz). exists (SV.remove_trailing_char "0" fr).
  set (f := SV.remove_trailing_char "0" fr) in *.
  assert (length fr = length f + k)%nat as El by (rewrite E at 1; rewrite length_app, length_replicate; done).
  assert (length (to_string (d / den)) <= 19 - prec)%nat as Ls.
  { apply length_to_string; [|lia]. split; [apply Z.div_pos; lia|].
    apply Z.div_lt_upper_bound; [lia|]. unfold den. rewrite <- Z.pow_add_r by lia.
    replace (Z.of_nat prec + Z.of_nat (19 - prec)) with 19 by lia. lia. }
  split_and!.
  - unfold finish_fraction, INT64_BUFF. rewrite F2. rewrite (take_ge fr) by lia. fold f.
    destruct (Nat.ltb_spec (20 + 1) (length (to_string (d / den)) + 1 + prec)); [lia|].
    unfold print_decimal. destruct (SV.empty f) eqn:Ef.
    + rewrite app_nil_r. destruct (Nat.ltb_spec 20 (length (to_string (d / den)))); [lia|done].
    + rewrite !length_app. change (length (lit ".")) with 1%nat.
      destruct (Nat.ltb_spec 20 (length (to_string (d / den)) + (1 + length f))); [lia|done].
  - rewrite E in F1. by apply Forall_app in F1 as [].
  - lia.
  - done.
  - rewrite <- F3. rewrite E at 1. rewrite num_zeros. do 3 f_equal. lia.
Qed.

(** The parts of the printed duration put together again. *)
Lemma duration_parts prec d f : 0 <= d -> digits f -> (length f <= prec)%nat ->
  num f * 10 ^ Z.of_nat (prec - length f) = d mod 10 ^ Z.of_nat prec ->
  num (to_string (d / 10 ^ Z.of_nat prec) ++ f) * 10 ^ Z.of_nat (prec - length f) = d.
Proof.
  intros Hd Hf Hl Hn. set (den := 10 ^ Z.of_nat prec) in *.
  assert (0 < den) as Hden by (apply Z.pow_pos_nonneg; lia).
  destruct (to_string_nonneg (d / den)) as (_ & _ & E); [apply Z.div_pos; lia|].
  rewrite num_app, E, Z.mul_add_distr_r, Hn, <- Z.mul_assoc, <- Z.pow_add_r by lia.
  replace (Z.of_nat (length f) + Z.of_nat (prec - length f)) with (Z.of_nat prec) by lia.
  fold den. pose proof (Z.div_mod d den). lia.
Qed.

Lemma parts_value prec n k d : (k <= prec)%nat -> n * 10 ^ Z.of_nat (prec - k) = d ->
  (inject_Z n / inject_Z (10 ^ Z.of_nat k) * inject_Z (10 ^ Z.of_nat prec) == inject_Z d)%Q.
Proof.
  intros Hk <-. replace (Z.of_nat prec) with (Z.of_nat k + Z.of_nat (prec - k)) by lia.
  rewrite Z.pow_add_r, !inject_Z_mult by lia. field. intros E.
  assert (inject_Z 0 == inject_Z (10 ^ Z.of_nat k))%Q as E' by (by rewrite E).
  rewrite inject_Z_injective in E'. pose proof (Z.pow_pos_nonneg 10 (Z.of_nat k)). lia.
Qed.

(** A non-negative duration in units of 10^-prec seconds is printed into a
    buffer that is large enough, as a decimal number that equals it exactly and
    whose fraction has no trailing zero. *)
Theorem duration_to_string_exact prec d : (prec <= 18)%nat -> 0 <= d < 2 ^ 63 ->
  exists t, duration_to_string prec d true = Ok t /\ is_real t = true /\
    (decimal_value t * inject_Z (10 ^ Z.of_nat prec) == inject_Z d)%Q /\
    (existsb (fun c => c =c ".") t = true -> forall l, t <> l ++ ["0"%char]).
Proof.
  intros Hp Hd. destruct (duration_to_string_spec prec d Hp Hd) as (f & E & Hf & Hl & Hz & Hn).
  set (den := 10 ^ Z.of_nat prec) in *.
  destruct (to_string_nonneg (d / den)) as (Hi & Hds & _).
  { apply Z.div_pos; [lia|]. apply Z.pow_pos_nonneg; lia. }
  eexists. split; [exact E|]. split; [by apply is_real_print|]. split.
  - unfold decimal_value. rewrite decimal_print by done. rewrite Qmult_1_l.
    apply parts_value; [done|]. by apply duration_parts; [lia|..].
  - unfold print_decimal. destruct f as [|c f]; [cbn [SV.empty length Nat.eqb]|cbn [SV.empty length Nat.eqb]].
    + intros C l _. rewrite app_nil_r in C. apply existsb_exists in C as (x & Hin & Hx).
      apply digits_no_dot in Hds. rewrite Stdlib.Lists.List.Forall_forall in Hds.
      apply Hds in Hin. by rewrite Hx in Hin.
    + intros _ l C. destruct (exists_last (l := c :: f)) as (f' & y & Ef); [done|].
      rewrite Ef, !app_assoc in C. apply app_inj_tail in C as [_ ->]. by apply (Hz f').
Qed.

Lemma duration_to_string_exact_witness :
  exists t, duration_to_string 9 1012300000 true = Ok t /\ is_real t = true /\
    (decimal_value t * inject_Z (10 ^ Z.of_nat 9) == inject_Z 1012300000)%Q.
Proof.
  destruct (duration_to_string_exact 9 1012300000) as (t & E & R & V & _); [lia|lia|].
  exists t. split_and!; [exact E|exact R|exact V].
Defined.

(** A printed time limit, read back through [stod] and the conversion of
    seconds to nanoseconds, is the time limit. *)
Lemma time_limit_round_trip d : 0 < d < 2 ^ 51 ->
  exists t r, duration_to_string 9 d true = Ok t /\ is_real t = true /\
    stod t = Ok r /\ (0 < r)%Q /\ round_to_nanoseconds r = Ok d.
Proof.
  intros Hd. destruct (duration_to_string_spec 9 d ltac:(lia) ltac:(lia)) as (f & E & Hf & Hl & _ & Hn).
  destruct (to_string_nonneg (d / 10 ^ Z.of_nat 9)) as (Hi & Hds & _); [apply Z.div_pos; lia|].
  set (i := to_string (d / 10 ^ Z.of_nat 9)) in *.
  pose proof (duration_parts 9 d f ltac:(lia) Hf Hl Hn) as Hv. fold i in Hv.
  apply parts_value in Hv; [|done]. set (x := (_ / _)%Q) in Hv.
  change (inject_Z (10 ^ Z.of_nat 9)) with (1000000000 # 1)%Q in Hv.
  assert (1 <= inject_Z d)%Q as D1 by (change 1%Q with (inject_Z 1); rewrite <- Zle_Qle; lia).
  assert (inject_Z d <= 2251799813685248 # 1)%Q as D2.
  { change (2251799813685248 # 1)%Q with (inject_Z 2251799813685248). rewrite <- Zle_Qle. lia. }
  destruct (stod_abs_normal x) as (r & Er & Hr).
  { change (2 ^ (-60))%Q with (1 # 1152921504606846976)%Q. lra. }
  { change (2 ^ 60)%Q with (1152921504606846976 # 1)%Q. lra. }
  exists (print_decimal i f), r. split_and!; [exact E|by apply is_real_print| | |].
  - unfold stod. rewrite decimal_print by done. fold x. rewrite Er. done.
  - apply Qabs_Qle_condition in Hr as [R1 R2].
    change (2 ^ (- DOUBLE_PREC))%Q with (1 # 9007199254740992)%Q in R1, R2. lra.
  - eapply round_to_nanoseconds_exact; [exact Hd|exact Hv|exact Hr].
Qed.

(** [timespec_to_string] writes past its buffer: the buffer has the size of
    the one [to_string<uint64_t>] returns, which is too small for 13 digits of
    seconds and the fraction. *)
Theorem timespec_to_string_overflow : timespec_to_string (mkTimespec (10 ^ 12) 1) 9 true = UB.
Proof. vm_compute. reflexivity. Qed.
