(* ===== verification/Dates.v ===== *)
(** * Dates

    [time.cc]: texts of dates in the formats of [strftime] and back.  Of the
    library's conversions those of the calendar and the clock are written out
    ([%Y %m %d %H %M %S]); what the other ones, the current time and the time zone
    give are parameters.  Texts hold no NUL. *)

From Stdlib Require Import ZArith Lia Ascii.
From S2P Require Import Prelude.
From S2P Require Import Ctype.
From S2P Require Import StringTransform.
Local Open Scope Z_scope.

Definition microtime (tv_sec tv_usec : Z) : Z := tv_sec * 1000000 + tv_usec.

(** ** The calendar *)

(** [tm]: [tm_year] counts from 1900, [tm_mon] from 0. *)
Record tm := mkTm { tm_year : Z; tm_mon : Z; tm_mday : Z; tm_hour : Z; tm_min : Z; tm_sec : Z }.

Definition leap (y : Z) : bool := (y mod 4 =? 0) && (negb (y mod 100 =? 0) || (y mod 400 =? 0)).

(** Days from 1970-01-01 to the first day of the year. *)
Definition year_start (y : Z) : Z := 365 * (y - 1970) + (y - 1) / 4 - (y - 1) / 100 + (y - 1) / 400 - 477.

(** Days of the year before each month. *)
Definition months (l : bool) : list Z :=
  if l then [0; 31; 60; 91; 121; 152; 182; 213; 244; 274; 305; 335] else [0; 31; 59; 90; 120; 151; 181; 212; 243; 273; 304; 334].
Definition month_start (l : bool) (m : Z) : Z := nth (Z.to_nat m) (months l) 0.

Definition year_of (d : Z) : Z :=
  let y := d * 400 / 146097 + 1970 in
  if d <? year_start y then y - 1 else if year_start (y + 1) <=? d then y + 1 else y.

Definition month_of (l : bool) (yday : Z) : Z := Z.of_nat (length (List.filter (fun s => s <=? yday) (months l))) - 1.

(** [gmtime_r] fails for a year that is not an [int]. *)
Definition gmtime_r (t : Z) : option tm :=
  let d := t / 86400 in
  let y := year_of d in
  let m := month_of (leap y) (d - year_start y) in
  if (- 2 ^ 31 <=? y - 1900) && (y - 1900 <? 2 ^ 31) then
    Some (mkTm (y - 1900) m (d - year_start y - month_start (leap y) m + 1) (t mod 86400 / 3600) (t mod 3600 / 60) (t mod 60))
  else None.

(** [timegm] of a month in its range; the other fields need not be. *)
Definition timegm (x : tm) : Z :=
  (year_start (tm_year x + 1900) + month_start (leap (tm_year x + 1900)) (tm_mon x) + tm_mday x - 1) * 86400 +
  tm_hour x * 3600 + tm_min x * 60 + tm_sec x.

(** ** Formats *)

Inductive item := Literal (c : ascii) | Directive (c : ascii).

Fixpoint items (format : str) : list item :=
  match format with
  | "%"%char :: c :: format' => Directive c :: items format'
  | c :: format' => Literal c :: items format'
  | [] => []
  end.

Definition digit (x : Z) : ascii := char_of (48 + x).
Definition two (x : Z) : str := [digit (x / 10); digit (x mod 10)].

Section Dates.
Variables (strftime_other : ascii -> tm -> str) (strptime_other : ascii -> tm -> str -> option (tm * str)).

Definition strftime_item (x : tm) (i : item) : str :=
  match i with
  | Literal c => [c]
  | Directive "Y" => to_string (tm_year x + 1900)
  | Directive "m" => two (tm_mon x + 1)
  | Directive "d" => two (tm_mday x)
  | Directive "H" => two (tm_hour x)
  | Directive "M" => two (tm_min x)
  | Directive "S" => two (tm_sec x)
  | Directive "%" => ["%"%char]
  | Directive c => strftime_other c x
  end.

(** The text and its terminator must fit. *)
Definition strftime (max : Z) (format : str) (x : tm) : str :=
  let text := flat_map (strftime_item x) (items format) in
  if Z.of_nat (length text) <? max then text else [].

(** glibc's [get_number]: white space, then up to [n] digits as long as the value
    cannot get too large. *)
Fixpoint number_rest (n : nat) (to val : Z) (s : str) : Z * str :=
  match n, s with
  | S n', c :: s' => if (val * 10 <=? to) && is_digit c then number_rest n' to (val * 10 + (chz c - 48)) s' else (val, s)
  | _, _ => (val, s)
  end.

Definition get_number (from to : Z) (n : nat) (s : str) : option (Z * str) :=
  match drop_while is_space s with
  | c :: s' =>
      if is_digit c then
        let (val, rest) := number_rest (pred n) to (chz c - 48) s' in
        if (val <? from) || (to <? val) then None else Some (val, rest)
      else None
  | [] => None
  end.

Definition strptime_item (x : tm) (s : str) (i : item) : option (tm * str) :=
  match i with
  | Literal c =>
      if is_space c then Some (x, drop_while is_space s)
      else match s with c' :: s' => if c =c c' then Some (x, s') else None | [] => None end
  | Directive "Y" => '(v, s) ← get_number 0 9999 4 s; Some (mkTm (v - 1900) (tm_mon x) (tm_mday x) (tm_hour x) (tm_min x) (tm_sec x), s)
  | Directive "m" => '(v, s) ← get_number 1 12 2 s; Some (mkTm (tm_year x) (v - 1) (tm_mday x) (tm_hour x) (tm_min x) (tm_sec x), s)
  | Directive "d" => '(v, s) ← get_number 1 31 2 s; Some (mkTm (tm_year x) (tm_mon x) v (tm_hour x) (tm_min x) (tm_sec x), s)
  | Directive "H" => '(v, s) ← get_number 0 23 2 s; Some (mkTm (tm_year x) (tm_mon x) (tm_mday x) v (tm_min x) (tm_sec x), s)
  | Directive "M" => '(v, s) ← get_number 0 59 2 s; Some (mkTm (tm_year x) (tm_mon x) (tm_mday x) (tm_hour x) v (tm_sec x), s)
  | Directive "S" => '(v, s) ← get_number 0 61 2 s; Some (mkTm (tm_year x) (tm_mon x) (tm_mday x) (tm_hour x) (tm_min x) v, s)
  | Directive "%" => match s with "%"%char :: s' => Some (x, s') | _ => None end
  | Directive c => strptime_other c x s
  end.

(** What is left of the text is not looked at. *)
Fixpoint strptime (x : tm) (s : str) (l : list item) : option tm :=
  match l with
  | [] => Some x
  | i :: l' => '(x, s) ← strptime_item x s i; strptime x s l'
  end.

(** ** The functions *)

Definition date_impl (now : Z) (format : str) (curr_time : Z) (func : Z -> option tm) : outcome str :=
  let curr_time := if curr_time <? 0 then now else curr_time in
  let size := Z.of_nat (length format) + 1 + Z.of_nat (count_occ ascii_dec format "%"%char) * 25 in
  match func curr_time with
  | None => Throw (RuntimeError (lit "Failed to convert time"))
  | Some ptm => Ok (strftime size format ptm)
  end.

Definition date (now : Z) (format : str) (curr_time : Z) : outcome str := date_impl now format curr_time gmtime_r.
Definition localdate (localtime_r : Z -> option tm) (now : Z) (format : str) (curr_time : Z) : outcome str :=
  date_impl now format curr_time localtime_r.

Definition DATETIME : str := lit "%Y-%m-%d %H:%M:%S".
Definition mysql_date (now curr_time : Z) : outcome str := date now DATETIME curr_time.

Definition zero_tm : tm := mkTm 0 0 0 0 0 0.

Definition is_datetime (s : str) : bool :=
  (Z.of_nat (length s) =? 19) && bool_decide (is_Some (strptime zero_tm s (items DATETIME))).

Definition str_to_time_t (s format : str) : Z :=
  match strptime zero_tm s (items format) with None => -1 | Some t => timegm t end.

End Dates.

(** ** The calendar is right *)

Lemma year_of_spec d : year_start (year_of d) <= d < year_start (year_of d + 1).
Proof.
  unfold year_of. cbv zeta. set (y := d * 400 / 146097 + 1970).
  assert (year_start (y - 1) <= d < year_start (y + 2)) as H by (unfold year_start, y; Z.to_euclidean_division_equations; lia).
  destruct (Z.ltb_spec d (year_start y)).
  - replace (y - 1 + 1) with y by lia. lia.
  - destruct (Z.leb_spec (year_start (y + 1)) d); [|lia]. replace (y + 1 + 1) with (y + 2) by lia. lia.
Qed.

Lemma year_length y : year_start (y + 1) - year_start y = if leap y then 366 else 365.
Proof.
  unfold year_start, leap. replace (y + 1 - 1) with y by lia.
  destruct (Z.eqb_spec (y mod 4) 0), (Z.eqb_spec (y mod 100) 0), (Z.eqb_spec (y mod 400) 0); cbn [andb orb negb];
    Z.to_euclidean_division_equations; lia.
Qed.

Definition month_ok (l : bool) (yday : Z) : bool :=
  let m := month_of l yday in
  let day := yday - month_start l m + 1 in (0 <=? m) && (m <=? 11) && (1 <=? day) && (day <=? 31).

Lemma month_of_spec (l : bool) yday : 0 <= yday < (if l then 366 else 365) -> month_ok l yday = true.
Proof.
  intros H. assert (forallb (fun l : bool => forallb (fun n : nat => month_ok l (Z.of_nat n)) (seq 0 (if l then 366 else 365))) [true; false] = true) as Hall
    by (vm_compute; reflexivity).
  rewrite forallb_forall in Hall. specialize (Hall l ltac:(destruct l; cbn; auto)). rewrite forallb_forall in Hall.
  specialize (Hall (Z.to_nat yday)). rewrite Z2Nat.id in Hall by lia. apply Hall, in_seq. destruct l; lia.
Qed.

(** A moment, broken down as the calendar of the year has it. *)
Lemma gmtime_timegm t x : gmtime_r t = Some x ->
  timegm x = t /\ 0 <= tm_mon x <= 11 /\ 1 <= tm_mday x <= 31 /\ 0 <= tm_hour x <= 23 /\ 0 <= tm_min x <= 59 /\ 0 <= tm_sec x <= 59.
Proof.
  unfold gmtime_r. cbv zeta. set (d := t / 86400). set (y := year_of d). set (m := month_of (leap y) (d - year_start y)).
  destruct (_ && _); [|done]. intros [= <-]. cbn [tm_year tm_mon tm_mday tm_hour tm_min tm_sec].
  pose proof (year_of_spec d) as Hy. fold y in Hy. pose proof (year_length y) as Hl.
  pose proof (month_of_spec (leap y) (d - year_start y) ltac:(destruct (leap y); lia)) as Hm. unfold month_ok in Hm. cbv zeta in Hm. fold m in Hm.
  apply andb_true_iff in Hm as [Hm H4%Z.leb_le]. apply andb_true_iff in Hm as [Hm H3%Z.leb_le]. apply andb_true_iff in Hm as [H1%Z.leb_le H2%Z.leb_le].
  split_and!; try lia; try (Z.to_euclidean_division_equations; lia).
  unfold timegm. cbn. replace (y - 1900 + 1900) with y by lia.
  replace (year_start y + month_start (leap y) m + (d - year_start y - month_start (leap y) m + 1) - 1) with d by lia.
  unfold d. clear. Z.to_euclidean_division_equations. lia.
Qed.

(** The years with four digits, from 1970. *)
Lemma year_range t : 0 <= t <= 253402300799 -> exists x, gmtime_r t = Some x /\ 1970 <= tm_year x + 1900 <= 9999.
Proof.
  intros H. pose proof (year_of_spec (t / 86400)) as Hy. unfold gmtime_r. cbv zeta. set (y := year_of (t / 86400)) in *.
  assert (0 <= t / 86400 <= 2932896) by (Z.to_euclidean_division_equations; lia).
  assert (1970 <= y <= 9999) by (unfold year_start in Hy; Z.to_euclidean_division_equations; lia).
  destruct (Z.leb_spec (- 2 ^ 31) (y - 1900)); [|lia]. destruct (Z.ltb_spec (y - 1900) (2 ^ 31)); [|lia].
  eexists. split; [done|]. cbn [tm_year]. lia.
Qed.

(** ** Printing and reading *)

Lemma digit_char a : 0 <= a <= 9 -> is_digit (digit a) = true /\ chz (digit a) - 48 = a /\ is_space (digit a) = false.
Proof.
  intros H. assert (a = 0 \/ a = 1 \/ a = 2 \/ a = 3 \/ a = 4 \/ a = 5 \/ a = 6 \/ a = 7 \/ a = 8 \/ a = 9) as Ha by lia.
  destruct_or! Ha; subst a; done.
Qed.

Lemma get_two from to x rest : 0 <= x <= 99 -> from <= x <= to -> get_number from to 2 (two x ++ rest) = Some (x, rest).
Proof.
  intros Hx Hr. assert (0 <= x / 10 <= 9 /\ 0 <= x mod 10 <= 9 /\ x = x / 10 * 10 + x mod 10) as (H1 & H2 & E) by (Z.to_euclidean_division_equations; lia).
  unfold get_number, two. destruct (digit_char _ H1) as (D1 & V1 & S1), (digit_char _ H2) as (D2 & V2 & _).
  cbn [app drop_while]. rewrite S1, D1. cbn [number_rest pred]. rewrite V1, D2, V2.
  destruct (Z.leb_spec (x / 10 * 10) to); [|lia]. cbn [andb]. rewrite <-E.
  destruct (Z.ltb_spec x from); [lia|]. destruct (Z.ltb_spec to x); [lia|]. done.
Qed.

Definition four (y : Z) : str := [digit (y / 1000); digit (y / 100 mod 10); digit (y / 10 mod 10); digit (y mod 10)].

Lemma to_string_year y : 1000 <= y <= 9999 -> to_string y = four y.
Proof.
  intros H. assert (forallb (fun n : nat => bool_decide (to_string (Z.of_nat n) = four (Z.of_nat n))) (seq (Z.to_nat 1000) (Z.to_nat 9000)) = true) as Hall by (vm_compute; reflexivity).
  rewrite forallb_forall in Hall. specialize (Hall (Z.to_nat y)). rewrite Z2Nat.id in Hall by lia.
  apply (proj1 (bool_decide_eq_true _)), Hall, in_seq. lia.
Qed.

Lemma get_four y rest : 0 <= y <= 9999 -> get_number 0 9999 4 (four y ++ rest) = Some (y, rest).
Proof.
  intros Hy. assert (0 <= y / 1000 <= 9 /\ 0 <= y / 100 mod 10 <= 9 /\ 0 <= y / 10 mod 10 <= 9 /\ 0 <= y mod 10 <= 9 /\
    y = ((y / 1000 * 10 + y / 100 mod 10) * 10 + y / 10 mod 10) * 10 + y mod 10) as (H1 & H2 & H3 & H4 & E)
    by (Z.to_euclidean_division_equations; lia).
  unfold get_number, four. destruct (digit_char _ H1) as (D1 & V1 & S1), (digit_char _ H2) as (D2 & V2 & _), (digit_char _ H3) as (D3 & V3 & _), (digit_char _ H4) as (D4 & V4 & _).
  cbn [app drop_while]. rewrite S1, D1. cbn [number_rest pred]. rewrite V1, D2, V2, D3, V3, D4, V4.
  rewrite !(proj2 (Z.leb_le _ 9999)) by lia. cbn [andb]. rewrite <-E.
  destruct (Z.ltb_spec y 0); [lia|]. destruct (Z.ltb_spec 9999 y); [lia|]. done.
Qed.

(** White space before a number is skipped once. *)
Lemma drop_space_two x rest : 0 <= x <= 99 -> drop_while is_space (" "%char :: two x ++ rest) = two x ++ rest.
Proof.
  intros H. assert (0 <= x / 10 <= 9) as H1 by (Z.to_euclidean_division_equations; lia). destruct (digit_char _ H1) as (_ & _ & S1).
  unfold two. cbn [app drop_while]. by rewrite S1.
Qed.

Section RoundTrip.
Variables (strftime_other : ascii -> tm -> str) (strptime_other : ascii -> tm -> str -> option (tm * str)).

Lemma strptime_step x s i l x' s' : strptime_item strptime_other x s i = Some (x', s') ->
  strptime strptime_other x s (i :: l) = strptime strptime_other x' s' l.
Proof. intros H. cbn [strptime]. by rewrite H. Qed.

Lemma strptime_literal c x s l : is_space c = false ->
  strptime strptime_other x (c :: s) (Literal c :: l) = strptime strptime_other x s l.
Proof. intros H. apply strptime_step. cbn. by rewrite H, char_eqb_refl. Qed.

Lemma strptime_space y x s l : 0 <= y <= 99 ->
  strptime strptime_other x (" "%char :: two y ++ s) (Literal " " :: l) = strptime strptime_other x (two y ++ s) l.
Proof. intros H. apply strptime_step. cbn [strptime_item]. by rewrite drop_space_two. Qed.

(** Every moment from 1970 to the end of 9999 is printed by [mysql_date] as a text
    of 19 characters, which [is_datetime] accepts and [str_to_time_t] reads back. *)
Theorem mysql_date_round_trip now t : 0 <= t <= 253402300799 ->
  exists s, mysql_date strftime_other now t = Ok s /\ length s = 19%nat /\
    is_datetime strptime_other s = true /\ str_to_time_t strptime_other s DATETIME = t.
Proof.
  intros Ht. destruct (year_range t Ht) as (x & Hx & Hy). destruct (gmtime_timegm t x Hx) as (Hback & H1 & H2 & H3 & H4 & H5).
  set (s := four (tm_year x + 1900) ++ "-"%char :: two (tm_mon x + 1) ++ "-"%char :: two (tm_mday x) ++ " "%char :: two (tm_hour x) ++ ":"%char ::
    two (tm_min x) ++ ":"%char :: two (tm_sec x) ++ []).
  assert (strptime strptime_other zero_tm s (items DATETIME) = Some x) as Hp.
  { change (items DATETIME) with [Directive "Y"; Literal "-"; Directive "m"; Literal "-"; Directive "d"; Literal " "; Directive "H"; Literal ":"; Directive "M"; Literal ":"; Directive "S"].
    unfold s. erewrite strptime_step by (cbn [strptime_item]; rewrite get_four by lia; reflexivity).
    rewrite strptime_literal by done. erewrite strptime_step by (cbn [strptime_item]; rewrite get_two by lia; reflexivity).
    rewrite strptime_literal by done. erewrite strptime_step by (cbn [strptime_item]; rewrite get_two by lia; reflexivity).
    rewrite strptime_space by lia. erewrite strptime_step by (cbn [strptime_item]; rewrite get_two by lia; reflexivity).
    rewrite strptime_literal by done. erewrite strptime_step by (cbn [strptime_item]; rewrite get_two by lia; reflexivity).
    rewrite strptime_literal by done. erewrite strptime_step by (cbn [strptime_item]; rewrite get_two by lia; reflexivity).
    destruct x. cbn. f_equal. f_equal; lia. }
  exists s. split_and!.
  - unfold mysql_date, date, date_impl. destruct (Z.ltb_spec t 0); [lia|]. rewrite Hx. f_equal. unfold strftime.
    change (items DATETIME) with [Directive "Y"; Literal "-"; Directive "m"; Literal "-"; Directive "d"; Literal " "; Directive "H"; Literal ":"; Directive "M"; Literal ":"; Directive "S"].
    cbn [flat_map strftime_item]. rewrite to_string_year by lia. done.
  - done.
  - unfold is_datetime. rewrite Hp. done.
  - unfold str_to_time_t. by rewrite Hp.
Qed.

(** A text with something else at its end, and a day that does not exist. *)
Lemma is_datetime_accepts_more :
  is_datetime strptime_other (lit "2020-1-1 0:0:0 what") = true /\ is_datetime strptime_other (lit "2021-02-31 00:00:00") = true.
Proof. split; reflexivity. Qed.
End RoundTrip.
