(* ===== verification/Seccomp.v ===== *)
(** * Seccomp filters

    The part of libseccomp's interface that [src/sandbox.cc] uses: rules and what
    it means for a rule to match a system call.  How the library and the kernel
    decide between rules is not code of this repository: [Seccomp_filter] states
    what their documentation promises, and theorems about the filter hold for
    every function that keeps the promise.  System calls are named as in
    [SCMP_SYS]; their numbers are libseccomp's business. *)

From Stdlib Require Import ZArith Lia.
From S2P Require Import Prelude.
Local Open Scope Z_scope.

Inductive arch := X86 | X86_64.
#[export] Instance arch_eq_dec : EqDecision arch.
Proof. solve_decision. Defined.

Inductive action := ACT_ALLOW | ACT_ERRNO (errnum : Z) | ACT_TRACE (id : nat) | ACT_TRAP.
#[export] Instance action_eq_dec : EqDecision action.
Proof. solve_decision. Defined.

Inductive cmp_op := CMP_EQ | CMP_NE | CMP_LT | CMP_GT.

(** [scmp_arg_cmp]: the argument's number, the comparison and the value it is
    compared with, both unsigned 64-bit. *)
Record arg_cmp := mkCmp { cmp_arg : nat; cmp_oper : cmp_op; datum_a : Z }.

Record rule := mkRule { rule_action : action; rule_syscall : string; rule_cmps : list arg_cmp }.

Definition cmp_holds (args : list Z) (c : arg_cmp) : bool :=
  match args !! cmp_arg c with
  | None => false
  | Some x =>
      match cmp_oper c with
      | CMP_EQ => x =? datum_a c
      | CMP_NE => negb (x =? datum_a c)
      | CMP_LT => x <? datum_a c
      | CMP_GT => datum_a c <? x
      end
  end.

Definition rule_matches (name : string) (args : list Z) (r : rule) : bool :=
  bool_decide (rule_syscall r = name) && forallb (cmp_holds args) (rule_cmps r).

(** [eval rules default name args]: what happens when the system call [name] is
    made with the arguments [args] under a filter with these rules and this
    default action: the action of one of the rules that match, or the default
    one if there is none. *)
Class Seccomp_filter (eval : list rule -> action -> string -> list Z -> action) : Prop := {
  eval_match : forall rules default name args,
    existsb (rule_matches name args) rules = true ->
    exists r, r ∈ rules /\ rule_matches name args r = true /\
      eval rules default name args = rule_action r;
  eval_default : forall rules default name args,
    existsb (rule_matches name args) rules = false ->
    eval rules default name args = default
}.

(** The first rule that matches decides: one of the functions that keep the
    promise. *)
Definition first_match (rules : list rule) (default : action) (name : string) (args : list Z) : action :=
  match List.find (rule_matches name args) rules with
  | Some r => rule_action r
  | None => default
  end.

#[export] Instance first_match_filter : Seccomp_filter first_match.
Proof.
  split; intros rules default name args H; unfold first_match.
  - destruct (List.find _ rules) as [r|] eqn:E.
    + apply List.find_some in E as [E1 E2]. exists r. split_and!; [by apply list_elem_of_In|done|done].
    + apply existsb_exists in H as (r & Hr & Hm). by rewrite (List.find_none _ _ E r Hr) in Hm.
  - destruct (List.find _ rules) as [r|] eqn:E; [|done].
    apply List.find_some in E as [E1 E2]. exfalso.
    assert (existsb (rule_matches name args) rules = true) by (apply existsb_exists; eauto). congruence.
Qed.

(** When all the rules that match agree, it does not matter which one the
    library takes. *)
Lemma eval_agree `{Seccomp_filter eval} rules default name args act :
  existsb (rule_matches name args) rules = true ->
  (forall r, r ∈ rules -> rule_matches name args r = true -> rule_action r = act) ->
  eval rules default name args = act.
Proof.
  intros Hm Hall. destruct (eval_match rules default name args Hm) as (r & Hr & Hr' & ->). by apply Hall.
Qed.

(** ** Requests to the library *)

Inductive scmp_request :=
| SeccompInit (a : arch)
| SeccompRelease (a : arch)
| SeccompTsync (a : arch)
| SeccompArchAdd (a : arch)
| SeccompArchRemoveNative (a : arch)
| SeccompBadarch (a : arch) (act : action)
| SeccompPriority (a : arch) (name : string) (priority : Z)
| SeccompRuleAdd (a : arch) (r : rule)
| SeccompMerge
| SeccompLoad.
