(* ===== verification/Os.v ===== *)
(** * The operating system, as the process code sees it

    What [src/spawner.cc] and [src/sandbox.cc] ask of the system: an interface of
    requests with the type of their answers.  The kernel that answers them is a
    parameter of every definition of [Spawner.v] and [Sandbox.v]; nothing is
    assumed of it except where a theorem names a law.  A request that fails
    answers [None] (or an [errno]); the texts of exceptions come without the
    position that [THROW] adds and without the text of [errno].

    Every request and its answer is recorded in a trace, in the order in which
    they happen, which is what the theorems about a whole run speak of.  Signals
    whose handlers the library installs are delivered at requests: before a
    request is answered the handlers of the signals that came since the last one
    run. *)

From Stdlib Require Import ZArith Lia.
From S2P Require Import Prelude.
From S2P Require Import Floats.
From S2P Require Import Time.
From S2P Require Import Seccomp.
Local Open Scope Z_scope.

(** ** Constants of the platform (Linux, x86) *)

Definition SIGKILL : Z := 9.
Definition SIGTRAP : Z := 5.
Definition SIGCHLD : Z := 17.
Definition SIGCONT : Z := 18.
Definition SIGSTOP : Z := 19.
Definition SIGSYS : Z := 31.
Definition SIGRTMIN : Z := 34.

Definition CLD_EXITED : Z := 1.
Definition CLD_KILLED : Z := 2.
Definition CLD_DUMPED : Z := 3.
Definition CLD_TRAPPED : Z := 4.
Definition CLD_STOPPED : Z := 5.

(** [si_code] of a signal sent by a timer. *)
Definition SI_TIMER : Z := -2.

(** Options of [waitid]. *)
Definition WSTOPPED : Z := 2.
Definition WEXITED : Z := 4.
Definition WNOWAIT : Z := 16777216.

Definition EPERM : Z := 1.
Definition ENOENT : Z := 2.
Definition ESRCH : Z := 3.
Definition EINTR : Z := 4.
Definition EBADF : Z := 9.
Definition EFAULT : Z := 14.
Definition ESPIPE : Z := 29.
Definition ENAMETOOLONG : Z := 36.

Definition CLOCK_MONOTONIC : Z := 1.
Definition PATH_MAX : Z := 4096.

Definition STDIN_FILENO : Z := 0.
Definition STDOUT_FILENO : Z := 1.
Definition STDERR_FILENO : Z := 2.

Inductive resource := RLIMIT_AS | RLIMIT_STACK | RLIMIT_CPU | RLIMIT_CORE.

(** ** Registers of a traced process *)

Record x86_user_regset := mkRegs32 {
  ebx : Z; ecx : Z; edx : Z; esi : Z; edi : Z; ebp : Z; eax : Z; xds : Z; xes : Z;
  xfs : Z; xgs : Z; orig_eax : Z; eip : Z; xcs : Z; eflags32 : Z; esp : Z; xss : Z
}.

Record x86_64_user_regset := mkRegs64 {
  r15 : Z; r14 : Z; r13 : Z; r12 : Z; rbp : Z; rbx : Z; r11 : Z; r10 : Z; r9 : Z; r8 : Z;
  rax : Z; rcx : Z; rdx : Z; rsi : Z; rdi : Z; orig_rax : Z; rip : Z; cs : Z; eflags : Z;
  rsp : Z; ss : Z; fs_base : Z; gs_base : Z; ds : Z; es : Z; fs : Z; gs : Z
}.

(** ** Requests *)

(** The fields of [siginfo_t] that are read: those [waitid] fills in, and those
    of a [SIGSYS] sent by seccomp. *)
Record siginfo := mkSi { si_signo : Z; si_code : Z; si_status : Z }.
Record sigsys_info := mkSigsys { sys_code : Z; si_syscall : Z; si_arch : Z }.

(** [struct rusage] is passed on and never looked into. *)
Definition rusage : Type := list Z.

Inductive sys : Type -> Type :=
(* processes *)
| Pipe2 : sys (option (Z * Z))
| Fork : sys (option Z)
| Close (fd : Z) : sys unit
| Read (fd count : Z) : sys (option str)
| Waitid (pid options : Z) : sys (option (siginfo * rusage))
| Kill (pid sig : Z) : sys unit
| DoInParentAfterFork (pid : Z) : sys (option exn)
(* clocks, timers and signals *)
| ClockGetcpuclockid (pid : Z) : sys (option Z)
| ClockGettime (clock_id : Z) : sys (option timespec)
| Sigaction (signum : Z) : sys bool
| TimerCreate (clock_id signo : Z) (sival_ptr : nat) : sys (option Z)
| TimerSettime (timer_id : Z) (value : timespec) : sys (option timespec)
| TimerDelete (timer_id : Z) : sys bool
| Pause : sys unit
| Signals : sys (list (Z * nat))
(* tracing *)
| PtraceSetoptions (pid : Z) : sys bool
| PtraceCont (pid sig : Z) : sys bool
| PtraceSyscall (pid : Z) : sys bool
| PtraceGetsiginfo (pid : Z) : sys (option sigsys_info)
| PtraceGeteventmsg (pid : Z) : sys (option Z)
| PtraceGetregs32 (pid : Z) : sys (option x86_user_regset)
| PtraceSetregs32 (pid : Z) (regs : x86_user_regset) : sys bool
| PtraceGetregs64 (pid : Z) : sys (option x86_64_user_regset)
| PtraceSetregs64 (pid : Z) (regs : x86_64_user_regset) : sys bool
| PtracePeekuser (pid : Z) : sys Z
| ProcessVmReadv (pid addr len : Z) : sys (option str)
| OpenStatm (pid : Z) : sys (option Z)
| Pread (fd count offset : Z) : sys (option str)
| SysconfPagesize : sys Z
| SyscallResolve (arch nr : Z) : sys (option str)
(* libseccomp, which answers 0 or a negated errno *)
| SeccompArchNative : sys (option arch)
| Seccomp (r : scmp_request) : sys Z
(* the child before execvp() *)
| Setpgid : sys Z
| Chdir (path : str) : sys Z
| Setrlimit (r : resource) (limit : Z) : sys Z
| Prlimit (r : resource) (limit : option Z) : sys Z
| Dup2 (oldfd newfd : Z) : sys Z
| Opendir (path : str) : sys (Z + Z)
| Readdir (dirfd : Z) : sys (Z + option str)
| Closedir (dirfd : Z) : sys unit
| Getpid : sys Z
| PtraceTraceme : sys Z
| Sigprocmask : sys Z
| SigpipeDefault : sys unit
| Execvp (file : str) (argv : list str) : sys (option Z)
| WriteAll (fd : Z) (data : str) : sys unit.

(** A request with its answer. *)
Inductive entry :=
| Did {A : Type} (c : sys A) (a : A).

(** ** Running against a kernel *)

(** What a signal handler of the library works on: the fields of
    [SignalHandlerContext] of [Spawner::Timer]. *)
Record SignalHandlerContext := mkContext {
  watched_pid : Z;
  timeout_signal : Z;
  timeout_signal_was_sent_ : bool
}.

(** The state of a process: the variables [loc] of the function that runs, the
    handler contexts that have been made, the world and the trace. *)
Record proc (W L : Type) := mkProc {
  loc : L;
  contexts : list SignalHandlerContext;
  world : W;
  trace : list entry
}.
Arguments mkProc {W L}.
Arguments loc {W L}.
Arguments contexts {W L}.
Arguments world {W L}.
Arguments trace {W L}.

Section Run.
Context {W L : Type}.
Variable kernel : forall A, sys A -> W -> W * A.
Arguments kernel {A}.

Abbreviation M := (stm (proc W L)).

(** One request, without the delivery of signals. *)
Definition request {A} (c : sys A) : M A := fun s =>
  let (w, a) := kernel c (world s) in
  (mkProc (loc s) (contexts s) w (trace s ++ [Did c a]), Ok a).

Definition getl {A} (f : L -> A) : M A := gets (fun s => f (loc s)).
Definition setl (f : L -> L) : M unit :=
  modify (fun s => mkProc (f (loc s)) (contexts s) (world s) (trace s)).

Definition mark_sent (c : SignalHandlerContext) : SignalHandlerContext :=
  mkContext (watched_pid c) (timeout_signal c) true.

(** The handler that the constructor of [Spawner::Timer] installs. *)
Definition timeout_handler (code : Z) (sival_ptr : nat) : M unit :=
  if negb (code =? SI_TIMER) then mret tt
  else
    ctxs ← gets contexts;
    context ← lift (get_or_ub (ctxs !! sival_ptr));
    _ ← request (Kill (watched_pid context) (timeout_signal context));
    modify (fun s => mkProc (loc s) (alter mark_sent sival_ptr (contexts s)) (world s) (trace s)).

Fixpoint run_handlers (l : list (Z * nat)) : M unit :=
  match l with
  | [] => mret tt
  | (code, sival_ptr) :: l' => _ ← timeout_handler code sival_ptr; run_handlers l'
  end.

(** A request of the program: the signals that came are handled first. *)
Definition call {A} (c : sys A) : M A :=
  sigs ← request Signals;
  _ ← run_handlers sigs;
  request c.

(** [if (!ok) THROW(what)] *)
Definition call_or_throw {A} (what : str) (c : sys (option A)) : M A :=
  r ← call c;
  match r with Some a => mret a | None => throw_error what end.

End Run.

(** ** Destructors and handlers *)

(** The destructor [d] of a local object runs when [m] is left, by returning or
    by an exception; an exception of [d] does not get out of it ([CallInDtor],
    [Defer] and the [noexcept] destructors). *)
Definition finally {S A} (m : stm S A) (d : stm S unit) : stm S A := fun s =>
  match m s with
  | (s1, UB) => (s1, UB)
  | (s1, NoFuel) => (s1, NoFuel)
  | (s1, r) =>
      match d s1 with
      | (s2, UB) => (s2, UB)
      | (s2, NoFuel) => (s2, NoFuel)
      | (s2, _) => (s2, r)
      end
  end.

(** [try { m } catch (const std::exception& e) { h }] *)
Definition try_catch {S A} (m : stm S A) (h : exn -> stm S A) : stm S A := fun s =>
  match m s with
  | (s1, Throw e) => h e s1
  | r => r
  end.
