(* ===== verification/Spawner.v ===== *)
(** * Spawning a process

    Models [Spawner] of [include/simlib/spawner.hh] and [src/spawner.cc]: the
    timers, the parent's side of [run], the child's side [run_child] and the
    messages that go from the child to the parent.  A process is a program over
    the requests of [Os.v]; the two sides of [fork] are two programs. *)

From Stdlib Require Import ZArith Lia.
From S2P Require Import Prelude.
From S2P Require Import StringView.
From S2P Require Import StringTransform.
From S2P Require Import Floats.
From S2P Require Import Time.
From S2P Require Import Os.
Local Open Scope Z_scope.

(** ** Data *)

Record ExitStat := mkExitStat {
  es_runtime : Z;
  cpu_runtime : Z;
  es_code : Z;
  es_status : Z;
  es_rusage : rusage;
  vm_peak : Z;
  es_message : str
}.

Record Options := mkOptions {
  new_stdin_fd : Z;
  new_stdout_fd : Z;
  new_stderr_fd : Z;
  opt_real_time_limit : option Z;
  opt_memory_limit : option Z;
  opt_cpu_time_limit : option Z;
  working_dir : str
}.

Definition default_options : Options :=
  mkOptions STDIN_FILENO STDOUT_FILENO STDERR_FILENO None None None (lit ".").

(** [std::variant<WithTimeout, WithoutTimeout>]; the signal handler's context of
    a [WithTimeout] is kept with the process and named by its number. *)
Inductive timer_state :=
| WithTimeout (time_limit : timespec) (timer_id : Z) (timer_is_active : bool) (context : nat)
| WithoutTimeout (start_clock_time : timespec).

Record Timer := mkTimer { clock_id_ : Z; state_ : timer_state }.

Section Spawner.
Context {W L : Type}.
Variable kernel : forall A, sys A -> W -> W * A.
(** [strsignal(3)] and the text [errmsg] makes of an [errno]. *)
Variables strsignal errmsg : Z -> str.

Abbreviation M := (stm (proc W L)).
Abbreviation call := (call kernel).
Abbreviation call_or_throw := (call_or_throw kernel).

(** What is left of a computation that ends in an exception: its guard runs. *)
Definition on_throw {A} (m : M A) (guard : M unit) : M A := fun s =>
  match m s with
  | (s1, Throw e) => finally (lift (Throw e)) guard s1
  | r => r
  end.

(** ** Messages from the child *)

Fixpoint read_all (fuel : nat) (fd : Z) (message : str) : M str :=
  match fuel with
  | O => lift NoFuel
  | S fuel' =>
      rc ← call (Read fd 4096);
      match rc with
      | Some (c :: data) => read_all fuel' fd (message ++ c :: data)
      | _ => mret message
      end
  end.

Definition describe_end (si : siginfo) : outcome str :=
  if si_code si =? CLD_EXITED then Ok (lit "exited with " ++ to_string (si_status si))
  else if si_code si =? CLD_KILLED then
    Ok (lit "killed by signal " ++ to_string (si_status si) ++ lit " - " ++ strsignal (si_status si))
  else if si_code si =? CLD_DUMPED then
    Ok (lit "killed and dumped by signal " ++ to_string (si_status si) ++ lit " - " ++
        strsignal (si_status si))
  else Throw (RuntimeError (lit "Invalid siginfo_t.si_code: " ++ to_string (si_code si))).

Definition receive_error_message (fuel : nat) (si : siginfo) (fd : Z) : M str :=
  message ← read_all fuel fd [];
  if negb (SV.empty message) then throw_error message
  else lift (describe_end si).

(** ** Timers *)

Definition timeout_signal_was_sent (t : Timer) : M bool :=
  match state_ t with
  | WithoutTimeout _ => mret false
  | WithTimeout _ _ _ c =>
      ctxs ← gets contexts;
      context ← lift (get_or_ub (ctxs !! c));
      mret (timeout_signal_was_sent_ context)
  end.

Fixpoint pause_until_sent (fuel : nat) (t : Timer) : M unit :=
  match fuel with
  | O => lift NoFuel
  | S fuel' =>
      sent ← timeout_signal_was_sent t;
      if (sent : bool) then mret tt
      else _ ← call Pause; pause_until_sent fuel' t
  end.

Definition no_time : timespec := mkTimespec 0 0.

Definition delete_timer_and_get_remaning_time (fuel : nat) (t : Timer) : M (Timer * timespec) :=
  match state_ t with
  | WithoutTimeout _ => mret (t, no_time)
  | WithTimeout time_limit timer_id timer_is_active c =>
      if negb timer_is_active then mret (t, no_time)
      else
        let t' := mkTimer (clock_id_ t) (WithTimeout time_limit timer_id false c) in
        rc ← call (TimerSettime timer_id no_time);
        old_value ← lift (get_or_ub rc);
        _ ← when (timespec_eqb old_value no_time) (pause_until_sent fuel t');
        deleted ← call (TimerDelete timer_id);
        if (deleted : bool) then mret (t', old_value) else lift UB
  end.

(** [~Timer()] *)
Definition delete_timer (fuel : nat) (t : Timer) : M unit :=
  _ ← delete_timer_and_get_remaning_time fuel t; mret tt.

Definition new_context (c : SignalHandlerContext) : M nat := fun s =>
  (mkProc (loc s) (contexts s ++ [c]) (world s) (trace s), Ok (length (contexts s))).

Definition make_timer (fuel : nat) (pid time_limit clock_id signal : Z) : M Timer :=
  if time_limit <? 0 then lift UB
  else if time_limit =? 0 then
    curr_clock_time ← call_or_throw (lit "clock_gettime()") (ClockGettime clock_id);
    mret (mkTimer clock_id (WithoutTimeout curr_clock_time))
  else
    let limit := to_timespec time_limit in
    c ← new_context (mkContext pid signal false);
    installed ← call (Sigaction SIGRTMIN);
    if negb installed then throw_error (lit "sigaction()")
    else
      timer_id ← call_or_throw (lit "timer_create()") (TimerCreate clock_id SIGRTMIN c);
      armed ← call (TimerSettime timer_id limit);
      match armed with
      | None =>
          _ ← delete_timer fuel (mkTimer clock_id (WithTimeout limit timer_id true c));
          throw_error (lit "timer_settime()")
      | Some _ => mret (mkTimer clock_id (WithTimeout limit timer_id true c))
      end.

Definition deactivate_and_get_runtime (fuel : nat) (t : Timer) : M (Timer * Z) :=
  match state_ t with
  | WithoutTimeout start_clock_time =>
      rc ← call (ClockGettime (clock_id_ t));
      curr_clock_time ← lift (get_or_ub rc);
      d ← lift (timespec_sub curr_clock_time start_clock_time);
      ns ← lift (to_nanoseconds d);
      mret (t, ns)
  | WithTimeout time_limit _ timer_is_active _ =>
      if negb timer_is_active then lift UB
      else
        '(t', remaining) ← delete_timer_and_get_remaning_time fuel t;
        d ← lift (timespec_sub time_limit remaining);
        ns ← lift (to_nanoseconds d);
        mret (t', ns)
  end.

(** ** The parent *)

Definition check_limits (opts : Options) : M unit :=
  _ ← when (match opt_real_time_limit opts with Some tl => tl <=? 0 | None => false end)
        (throw_error (lit "If set, real_time_limit has to be greater than 0"));
  _ ← when (match opt_cpu_time_limit opts with Some tl => tl <=? 0 | None => false end)
        (throw_error (lit "If set, cpu_time_limit has to be greater than 0"));
  when (match opt_memory_limit opts with Some ml => ml <=? 0 | None => false end)
    (throw_error (lit "If set, memory_limit has to be greater than 0")).

(** [waitid] whose result is not looked at: when it fails, [si] keeps its
    value. *)
Definition waitid_into (pid options : Z) (si : siginfo) : M siginfo :=
  r ← call (Waitid pid options);
  mret (match r with Some (si', _) => si' | None => si end).

Definition waitid_usage (pid options : Z) (si : siginfo) (ru : rusage) : M (siginfo * rusage) :=
  r ← call (Waitid pid options);
  mret (match r with Some r' => r' | None => (si, ru) end).

(** [kill_and_wait_child_guard] *)
Definition kill_and_wait (pid : Z) : M unit :=
  _ ← call (Kill (- pid) SIGKILL);
  _ ← call (Waitid pid WEXITED);
  mret tt.

Definition do_in_parent_after_fork (pid : Z) : M unit :=
  r ← call (DoInParentAfterFork pid);
  match r with None => mret tt | Some e => lift (Throw e) end.

Definition limit_or_0 (l : option Z) : Z := match l with Some x => x | None => 0 end.

(** From the guard's construction to its [cancel()]. *)
Definition watch_child (fuel : nat) (cpid : Z) (opts : Options) (si : siginfo) : M (Z * Z * siginfo) :=
  on_throw
    (_ ← do_in_parent_after_fork cpid;
     cpu_clock ← call_or_throw (lit "clock_getcpuclockid()") (ClockGetcpuclockid cpid);
     timer ← make_timer fuel cpid (limit_or_0 (opt_real_time_limit opts)) CLOCK_MONOTONIC SIGKILL;
     cpu_timer ← on_throw
       (make_timer fuel cpid (limit_or_0 (opt_cpu_time_limit opts)) cpu_clock SIGKILL)
       (delete_timer fuel timer);
     _ ← call (Kill cpid SIGCONT);
     si ← waitid_into cpid (Z.lor WEXITED WNOWAIT) si;
     '(_, runtime) ← deactivate_and_get_runtime fuel timer;
     '(_, cpu_runtime) ← deactivate_and_get_runtime fuel cpu_timer;
     mret (runtime, cpu_runtime, si))
    (kill_and_wait cpid).

(** [run] in the parent; [exec] and its arguments only matter to the child. *)
Definition run (fuel : nat) (opts : Options) : M ExitStat :=
  _ ← check_limits opts;
  pfd ← call_or_throw (lit "pipe()") Pipe2;
  cpid ← call_or_throw (lit "fork()") Fork;
  _ ← call (Close pfd.2);
  finally
    ('(si, ru) ← call_or_throw (lit "waitid()") (Waitid cpid (Z.lor WSTOPPED WEXITED));
     if negb (si_code si =? CLD_STOPPED) then
       message ← receive_error_message fuel si pfd.1;
       mret (mkExitStat 0 0 (si_code si) (si_status si) ru 0 message)
     else
       '(runtime, cpu_time, si) ← watch_child fuel cpid opts si;
       '(si, ru) ← waitid_usage cpid WEXITED si ru;
       if negb (si_code si =? CLD_EXITED) || negb (si_status si =? 0) then
         message ← receive_error_message fuel si pfd.1;
         mret (mkExitStat runtime cpu_time (si_code si) (si_status si) ru 0 message)
       else mret (mkExitStat runtime cpu_time (si_code si) (si_status si) ru 0 []))
    (call (Close pfd.1)).

(** ** The child

    A computation of the child gives a value, or has ended the process with
    [_exit]. *)

Definition child (A : Type) : Type := M (A + Z).

#[export] Instance child_ret : MRet child := fun A a s => (s, Ok (inl a)).
#[export] Instance child_bind : MBind child := fun A B f m s =>
  match m s with
  | (s', Ok (inl a)) => f a s'
  | (s', Ok (inr status)) => (s', Ok (inr status))
  | (s', Throw e) => (s', Throw e)
  | (s', UB) => (s', UB)
  | (s', NoFuel) => (s', NoFuel)
  end.

(** The child has no timers: no signal of the library reaches it. *)
Definition ask {A} (c : sys A) : child A := fun s =>
  let (s', r) := request kernel c s in (s', inl <$> r).
Definition exit_with {A} (status : Z) : child A := fun s => (s, Ok (inr status)).
Definition child_fuel {A} : child A := fun s => (s, NoFuel).

Definition send_error_message_and_exit {A} (fd : Z) (message : str) : child A :=
  _ ← ask (WriteAll fd message);
  exit_with (-1).

Definition send_error_and_exit {A} (fd errnum : Z) (message : str) : child A :=
  _ ← ask (WriteAll fd message);
  _ ← ask (WriteAll fd (errmsg errnum));
  exit_with (-1).

(** [if (request) send_error_and_exit(errno, what)] *)
Definition require (fd : Z) (c : sys Z) (what : str) : child unit :=
  errnum ← ask c;
  if errnum =? 0 then mret tt else send_error_and_exit fd errnum what.

Definition c_str (s : str) : str := take_while (fun c => negb (c =c NUL)) s.

Definition check_child_limits (fd : Z) (opts : Options) : child unit :=
  _ ← (if (match opt_real_time_limit opts with Some tl => tl <=? 0 | None => false end)
       then send_error_message_and_exit fd (lit "If set, real_time_limit has to be greater than 0")
       else mret tt);
  _ ← (if (match opt_cpu_time_limit opts with Some tl => tl <=? 0 | None => false end)
       then send_error_message_and_exit fd (lit "If set, cpu_time_limit has to be greater than 0")
       else mret tt);
  if (match opt_memory_limit opts with Some ml => ml <=? 0 | None => false end)
  then send_error_message_and_exit fd (lit "If set, memory_limit has to be greater than 0")
  else mret tt.

(** [duration_cast<seconds>(cpu_tl + 1.5s)]: the sum of a 64-bit count of
    nanoseconds and 1.5 s, and its quotient, are exact enough in [long double]
    for the truncation. *)
Definition cpu_rlimit (cpu_tl : Z) : Z := Z.quot (cpu_tl + 1500000000) NSEC.

Definition set_cpu_rlimit (fd cpu_tl : Z) : child unit :=
  require fd (Setrlimit RLIMIT_CPU (cpu_rlimit cpu_tl)) (lit "setrlimit(RLIMIT_CPU)").

Fixpoint dup2_loop (fuel : nat) (fd oldfd newfd : Z) : child unit :=
  match fuel with
  | O => child_fuel
  | S fuel' =>
      errnum ← ask (Dup2 oldfd newfd);
      if errnum =? 0 then mret tt
      else if errnum =? EINTR then dup2_loop fuel' fd oldfd newfd
      else send_error_and_exit fd errnum (lit "dup2()")
  end.

Definition change_fd (fuel : nat) (fd new_fd target : Z) : child unit :=
  if new_fd <? 0 then ask (Close target)
  else if new_fd =? target then mret tt
  else dup2_loop fuel fd new_fd target.

Definition permitted_fds (dirfd fd : Z) (opts : Options) : list Z :=
  [dirfd; fd;
   if new_stdin_fd opts <? 0 then fd else STDIN_FILENO;
   if new_stdout_fd opts <? 0 then fd else STDOUT_FILENO;
   if new_stderr_fd opts <? 0 then fd else STDERR_FILENO].

Definition close_if_not_permitted (permitted : list Z) (name : str) : child unit :=
  match str2num int32 name with
  | Some n => if bool_decide (n ∈ permitted) then mret tt else ask (Close n)
  | None => mret tt
  end.

(** [for_each_dir_component] with this function. *)
Fixpoint close_loop (fuel : nat) (fd dirfd : Z) (permitted : list Z) : child unit :=
  match fuel with
  | O => child_fuel
  | S fuel' =>
      file ← ask (Readdir dirfd);
      match file with
      | inl errnum => send_error_and_exit fd errnum (lit "readdir()")
      | inr None => mret tt
      | inr (Some name) =>
          _ ← (if SV.eqb name (lit ".") || SV.eqb name (lit "..") then mret tt
               else close_if_not_permitted permitted name);
          close_loop fuel' fd dirfd permitted
      end
  end.

Definition close_other_fds (fuel : nat) (fd : Z) (opts : Options) : child unit :=
  dir ← ask (Opendir (lit "/proc/self/fd"));
  match dir with
  | inl errnum => send_error_and_exit fd errnum (lit "opendir()")
  | inr dirfd =>
      _ ← close_loop fuel fd dirfd (permitted_fds dirfd fd opts);
      ask (Closedir dirfd)
  end.

Definition set_memory_rlimits (fd : Z) (opts : Options) : child unit :=
  match opt_memory_limit opts with
  | None => mret tt
  | Some limit =>
      _ ← require fd (Setrlimit RLIMIT_AS limit) (lit "setrlimit(RLIMIT_AS)");
      require fd (Setrlimit RLIMIT_STACK limit) (lit "setrlimit(RLIMIT_STACK)")
  end.

(** [try { do_before_exec(); } catch (std::exception& e) { ... }] *)
Definition catch_and_send (fd : Z) (text : exn -> str) (m : child unit) : child unit := fun s =>
  match m s with
  | (s', Throw e) => send_error_message_and_exit fd (text e) s'
  | r => r
  end.

Definition exec_error_text (exec : str) : str :=
  if Z.of_nat (length exec) <=? PATH_MAX then lit "execvp('" ++ exec ++ lit "')"
  else lit "execvp('" ++ take (Z.to_nat PATH_MAX) exec ++ lit "...')".

(** [run_child] ends with [inl tt] when [execvp] has replaced the program. *)
Definition run_child (fuel : nat) (exec : str) (exec_args : list str) (opts : Options) (fd : Z)
    (text : exn -> str) (do_before_exec : child unit) : child unit :=
  _ ← require fd Setpgid (lit "setpgid()");
  _ ← check_child_limits fd opts;
  _ ← (if bool_decide (working_dir opts ∈ [[]; lit "."; lit "./"]) then mret tt
       else require fd (Chdir (c_str (working_dir opts))) (lit "chdir()"));
  _ ← set_memory_rlimits fd opts;
  _ ← match opt_cpu_time_limit opts, opt_real_time_limit opts with
      | Some cpu_tl, _ => set_cpu_rlimit fd cpu_tl
      | None, Some tl => set_cpu_rlimit fd tl
      | None, None => mret tt
      end;
  _ ← change_fd fuel fd (new_stdin_fd opts) STDIN_FILENO;
  _ ← change_fd fuel fd (new_stdout_fd opts) STDOUT_FILENO;
  _ ← change_fd fuel fd (new_stderr_fd opts) STDERR_FILENO;
  _ ← close_other_fds fuel fd opts;
  _ ← catch_and_send fd text do_before_exec;
  pid ← ask Getpid;
  _ ← ask (Kill pid SIGSTOP);
  r ← ask (Execvp (c_str exec) (map c_str exec_args));
  match r with
  | None => mret tt
  | Some errnum => send_error_and_exit fd errnum (exec_error_text exec)
  end.

End Spawner.
