(* ===== verification/Sandbox.v ===== *)
(** * The sandbox

    Models [Sandbox] of [include/simlib/sandbox.hh] and [src/sandbox.cc]: the
    seccomp filter and the callbacks that the constructor sets up, the rules that
    depend on the options, the child's side and the parent's side of [run] with
    its loop over the events of the traced process.  The kernel and libseccomp
    are behind the requests of [Os.v].  The debugging output that the sources
    switch off is left out. *)

From Stdlib Require Import ZArith Lia Ascii.
From S2P Require Import Prelude.
From S2P Require Import StringView.
From S2P Require Import StringTransform.
From S2P Require Import Floats.
From S2P Require Import Time.
From S2P Require Import Seccomp.
From S2P Require Import Os.
From S2P Require Import Spawner.
Local Open Scope Z_scope.

(** ** Data *)

Inductive OpenAccess := NONE | RDONLY | WRONLY | RDWR.
#[export] Instance OpenAccess_eq_dec : EqDecision OpenAccess.
Proof. solve_decision. Defined.

Definition AllowedFile : Type := str * OpenAccess.

(** The functions that [SyscallCallbackLambda] is made of. *)
Inductive lambda :=
| InvalidArch
| ExitCallback
| ExitGroupCallback
| OpenCallback (a : arch)
| OpenatCallback (a : arch).

Inductive SyscallCallback :=
| SyscallCallbackLambda (f : lambda)
| SyscallCallbackLimiting (limit counter : Z) (syscall_name : str)
| SyscallCallbackVmPeakUpdater (fail_counter : Z).

(** The two filter contexts are the rules added to them, in order. *)
Record Sandbox := mkSandbox {
  tracee_pid_ : Z;
  callbacks_ : list SyscallCallback;
  allowed_files_ : list AllowedFile;
  x86_ctx_ : list rule;
  x86_64_ctx_ : list rule;
  badarch_ : list (arch * action);
  message_to_set_in_exit_stat_ : str;
  tracee_statm_fd_ : Z;
  tracee_vm_peak_ : Z
}.

Definition empty_sandbox : Sandbox := mkSandbox 0 [] [] [] [] [] [] (-1) 0.

Definition set_callbacks (cbs : list SyscallCallback) (sb : Sandbox) : Sandbox :=
  mkSandbox (tracee_pid_ sb) cbs (allowed_files_ sb) (x86_ctx_ sb) (x86_64_ctx_ sb) (badarch_ sb)
    (message_to_set_in_exit_stat_ sb) (tracee_statm_fd_ sb) (tracee_vm_peak_ sb).
Definition set_message (msg : str) (sb : Sandbox) : Sandbox :=
  mkSandbox (tracee_pid_ sb) (callbacks_ sb) (allowed_files_ sb) (x86_ctx_ sb) (x86_64_ctx_ sb)
    (badarch_ sb) msg (tracee_statm_fd_ sb) (tracee_vm_peak_ sb).
Definition set_vm_peak (peak : Z) (sb : Sandbox) : Sandbox :=
  mkSandbox (tracee_pid_ sb) (callbacks_ sb) (allowed_files_ sb) (x86_ctx_ sb) (x86_64_ctx_ sb)
    (badarch_ sb) (message_to_set_in_exit_stat_ sb) (tracee_statm_fd_ sb) peak.
Definition set_statm_fd (fd : Z) (sb : Sandbox) : Sandbox :=
  mkSandbox (tracee_pid_ sb) (callbacks_ sb) (allowed_files_ sb) (x86_ctx_ sb) (x86_64_ctx_ sb)
    (badarch_ sb) (message_to_set_in_exit_stat_ sb) fd (tracee_vm_peak_ sb).
Definition set_tracee_pid (pid : Z) (sb : Sandbox) : Sandbox :=
  mkSandbox pid (callbacks_ sb) (allowed_files_ sb) (x86_ctx_ sb) (x86_64_ctx_ sb) (badarch_ sb)
    (message_to_set_in_exit_stat_ sb) (tracee_statm_fd_ sb) (tracee_vm_peak_ sb).
Definition set_allowed_files (files : list AllowedFile) (sb : Sandbox) : Sandbox :=
  mkSandbox (tracee_pid_ sb) (callbacks_ sb) files (x86_ctx_ sb) (x86_64_ctx_ sb) (badarch_ sb)
    (message_to_set_in_exit_stat_ sb) (tracee_statm_fd_ sb) (tracee_vm_peak_ sb).
Definition push_rule (a : arch) (r : rule) (sb : Sandbox) : Sandbox :=
  mkSandbox (tracee_pid_ sb) (callbacks_ sb) (allowed_files_ sb)
    (if decide (a = X86) then x86_ctx_ sb ++ [r] else x86_ctx_ sb)
    (if decide (a = X86_64) then x86_64_ctx_ sb ++ [r] else x86_64_ctx_ sb) (badarch_ sb)
    (message_to_set_in_exit_stat_ sb) (tracee_statm_fd_ sb) (tracee_vm_peak_ sb).
Definition push_badarch (a : arch) (act : action) (sb : Sandbox) : Sandbox :=
  mkSandbox (tracee_pid_ sb) (callbacks_ sb) (allowed_files_ sb) (x86_ctx_ sb) (x86_64_ctx_ sb)
    (badarch_ sb ++ [(a, act)])
    (message_to_set_in_exit_stat_ sb) (tracee_statm_fd_ sb) (tracee_vm_peak_ sb).

(** ** The filter *)

Section Filter.
Context {W : Type}.
Variable kernel : forall A, sys A -> W -> W * A.

Abbreviation M := (stm (proc W Sandbox)).

(** The [seccomp_*_throw] wrappers. *)
Definition scmp_throw (what : str) (r : scmp_request) : M unit :=
  errnum ← request kernel (Seccomp r);
  if errnum =? 0 then mret tt else throw_error what.

Definition seccomp_rule_add_throw (a : arch) (act : action) (name : string) (cmps : list arg_cmp) :
    M unit :=
  let r := mkRule act name cmps in
  _ ← scmp_throw (lit "seccomp_rule_add_throw()") (SeccompRuleAdd a r);
  setl (push_rule a r).

Definition seccomp_rule_add_both_ctx (act : action) (name : string) (cmps : list arg_cmp) : M unit :=
  _ ← seccomp_rule_add_throw X86 act name cmps;
  seccomp_rule_add_throw X86_64 act name cmps.

Fixpoint for_each {A} (l : list A) (f : A -> M unit) : M unit :=
  match l with
  | [] => mret tt
  | x :: l' => _ ← f x; for_each l' f
  end.

(** Returns the callback id that can be used in [SCMP_ACT_TRACE()]. *)
Definition add_unique_ptr_callback (callback : SyscallCallback) : M nat :=
  id ← getl (fun sb => length (callbacks_ sb));
  _ ← setl (fun sb => set_callbacks (callbacks_ sb ++ [callback]) sb);
  mret id.

Definition add_callback (f : lambda) : M nat := add_unique_ptr_callback (SyscallCallbackLambda f).

Definition add_limiting_callback (limit : Z) (syscall_name : str) : M nat :=
  add_unique_ptr_callback (SyscallCallbackLimiting limit limit syscall_name).

Definition set_arch (a : arch) (native : option arch) : M unit :=
  if decide (native = Some a) then mret tt
  else
    _ ← scmp_throw (lit "seccomp_arch_add()") (SeccompArchAdd a);
    scmp_throw (lit "seccomp_arch_remove()") (SeccompArchRemoveNative a).

Definition set_badarch (a : arch) (act : action) : M unit :=
  _ ← scmp_throw (lit "seccomp_attr_set()") (SeccompBadarch a act);
  setl (push_badarch a act).

Definition priorities : list (string * Z) :=
  [("brk", 255); ("mmap2", 255); ("read", 254); ("write", 254); ("mmap", 253); ("mremap", 253)]%string.

Definition set_priority (p : string * Z) : M unit :=
  _ ← scmp_throw (lit "seccomp_syscall_priority()") (SeccompPriority X86 p.1 p.2);
  scmp_throw (lit "seccomp_syscall_priority()") (SeccompPriority X86_64 p.1 p.2).

Definition configure_ctxs : M unit :=
  _ ← scmp_throw (lit "seccomp_attr_set()") (SeccompTsync X86);
  _ ← scmp_throw (lit "seccomp_attr_set()") (SeccompTsync X86_64);
  native ← request kernel SeccompArchNative;
  _ ← set_arch X86 native;
  _ ← set_arch X86_64 native;
  id ← add_callback InvalidArch;
  _ ← set_badarch X86 (ACT_TRACE id);
  _ ← set_badarch X86_64 (ACT_TRACE id);
  for_each priorities set_priority.

Definition install_limits : M unit :=
  id ← add_limiting_callback 1 (lit "execve");
  _ ← seccomp_rule_add_both_ctx (ACT_TRACE id) "execve" [];
  id ← add_limiting_callback 2 (lit "prlimit64");
  seccomp_rule_add_both_ctx (ACT_TRACE id) "prlimit64" [].

Definition memory_syscalls : list string := ["brk"; "mmap"; "mmap2"; "mremap"; "munmap"]%string.

Definition install_vm_peak : M unit :=
  id ← add_unique_ptr_callback (SyscallCallbackVmPeakUpdater 0);
  _ ← for_each memory_syscalls (fun name => seccomp_rule_add_both_ctx (ACT_TRACE id) name []);
  id ← add_callback ExitCallback;
  _ ← seccomp_rule_add_both_ctx (ACT_TRACE id) "exit" [];
  id ← add_callback ExitGroupCallback;
  seccomp_rule_add_both_ctx (ACT_TRACE id) "exit_group" [].

Definition install_open : M unit :=
  id ← add_callback (OpenCallback X86);
  _ ← seccomp_rule_add_throw X86 (ACT_TRACE id) "open" [];
  id ← add_callback (OpenCallback X86_64);
  _ ← seccomp_rule_add_throw X86_64 (ACT_TRACE id) "open" [];
  id ← add_callback (OpenatCallback X86);
  _ ← seccomp_rule_add_throw X86 (ACT_TRACE id) "openat" [];
  id ← add_callback (OpenatCallback X86_64);
  seccomp_rule_add_throw X86_64 (ACT_TRACE id) "openat" [].

Definition allowed_both : list string :=
  ["alarm"; "capget"; "capget"; "clock_getres"; "clock_gettime"; "clock_nanosleep"; "close"; "futex";
   "get_robust_list"; "get_thread_area"; "getegid"; "geteuid"; "getgid"; "getpid"; "getrandom";
   "getrlimit"; "getrusage"; "gettid"; "gettimeofday"; "getuid"; "madvise"; "mlock"; "mlock2";
   "mlockall"; "mprotect"; "msync"; "munlock"; "munlockall"; "nanosleep"; "pause"; "poll"; "ppoll";
   "pselect6"; "rt_sigaction"; "rt_sigpending"; "rt_sigprocmask"; "rt_sigsuspend"; "rt_sigtimedwait";
   "select"; "sendfile"; "time"]%string.

Definition allowed_x86 : list string :=
  ["_newselect"; "getegid32"; "geteuid32"; "getgid32"; "getuid32"; "sendfile64"; "sigaction";
   "sigpending"; "sigsuspend"; "ugetrlimit"]%string.

Definition install_rules : M unit :=
  _ ← install_limits;
  _ ← seccomp_rule_add_both_ctx (ACT_ERRNO ENOENT) "access" [];
  _ ← seccomp_rule_add_both_ctx (ACT_ERRNO ENOENT) "stat" [];
  _ ← seccomp_rule_add_both_ctx (ACT_ERRNO ENOENT) "statx" [];
  _ ← seccomp_rule_add_both_ctx ACT_ALLOW "uname" [];
  _ ← seccomp_rule_add_both_ctx ACT_ALLOW "set_thread_area" [];
  _ ← seccomp_rule_add_both_ctx ACT_ALLOW "arch_prctl" [];
  _ ← seccomp_rule_add_both_ctx (ACT_ERRNO ENOENT) "readlink" [];
  _ ← install_vm_peak;
  _ ← install_open;
  _ ← seccomp_rule_add_both_ctx (ACT_ERRNO EPERM) "sysinfo" [];
  _ ← seccomp_rule_add_both_ctx (ACT_ERRNO EPERM) "ioctl" [];
  _ ← seccomp_rule_add_both_ctx (ACT_ERRNO EPERM) "clone" [];
  _ ← for_each allowed_both (fun name => seccomp_rule_add_both_ctx ACT_ALLOW name []);
  for_each allowed_x86 (fun name => seccomp_rule_add_throw X86 ACT_ALLOW name []).

Definition release (a : arch) : M unit :=
  _ ← request kernel (Seccomp (SeccompRelease a)); mret tt.

(** [Sandbox::Sandbox()], run on an object whose fields have their default
    values. *)
Definition construct : M unit :=
  _ ← scmp_throw (lit "seccomp_init()") (SeccompInit X86);
  _ ← on_throw (scmp_throw (lit "seccomp_init()") (SeccompInit X86_64)) (release X86);
  on_throw
    (_ ← configure_ctxs; install_rules)
    (_ ← release X86; release X86_64).

(** ** Rules that depend on the options and on the child *)

Definition A0 (op : cmp_op) (x : Z) : list arg_cmp := [mkCmp 0 op x].

(** What the three macros add for one descriptor that is not closed. *)
Definition fd_rule (a : arch) (name : string) (errnum new_fd fileno : Z) : M unit :=
  seccomp_rule_add_throw a (if new_fd <? 0 then ACT_ALLOW else ACT_ERRNO errnum) name
    (A0 CMP_EQ fileno).

Definition DISALLOW_ONLY_ON_STDIN_STDOUT_STDERR (opts : Options) (a : arch) (name : string) (errnum : Z) :
    M unit :=
  _ ← fd_rule a name errnum (new_stdin_fd opts) STDIN_FILENO;
  _ ← fd_rule a name errnum (new_stdout_fd opts) STDOUT_FILENO;
  _ ← fd_rule a name errnum (new_stderr_fd opts) STDERR_FILENO;
  _ ← seccomp_rule_add_throw a ACT_ALLOW name (A0 CMP_LT STDIN_FILENO);
  seccomp_rule_add_throw a ACT_ALLOW name (A0 CMP_GT STDERR_FILENO).

Definition DISALLOW_ONLY_ON_STDIN (opts : Options) (a : arch) (name : string) (errnum : Z) : M unit :=
  _ ← fd_rule a name errnum (new_stdin_fd opts) STDIN_FILENO;
  _ ← seccomp_rule_add_throw a ACT_ALLOW name (A0 CMP_LT STDIN_FILENO);
  seccomp_rule_add_throw a ACT_ALLOW name (A0 CMP_GT STDIN_FILENO).

Definition DISALLOW_ONLY_ON_STDOUT_STDERR (opts : Options) (a : arch) (name : string) (errnum : Z) :
    M unit :=
  _ ← fd_rule a name errnum (new_stdout_fd opts) STDOUT_FILENO;
  _ ← fd_rule a name errnum (new_stderr_fd opts) STDERR_FILENO;
  _ ← seccomp_rule_add_throw a ACT_ALLOW name (A0 CMP_LT STDOUT_FILENO);
  seccomp_rule_add_throw a ACT_ALLOW name (A0 CMP_GT STDERR_FILENO).

Definition both_ctx (f : arch -> string -> Z -> M unit) (x : string * Z) : M unit :=
  _ ← f X86 x.1 x.2; f X86_64 x.1 x.2.

Definition std_x86 : list (string * Z) :=
  [("_llseek", ESPIPE); ("fadvise64_64", ESPIPE); ("fstat64", ESPIPE)]%string.

Definition std_both : list (string * Z) :=
  [("dup", EPERM); ("dup2", EPERM); ("dup3", EPERM); ("fadvise64", ESPIPE); ("flistxattr", EPERM);
   ("flock", EPERM); ("fstat", ESPIPE); ("fsync", EPERM); ("lseek", ESPIPE); ("pread64", ESPIPE);
   ("preadv", ESPIPE); ("pwrite64", ESPIPE); ("pwritev", ESPIPE)]%string.

Definition stdin_both : list (string * Z) := [("write", EBADF); ("writev", EBADF)]%string.
Definition stdout_stderr_both : list (string * Z) := [("read", EBADF); ("readv", EBADF)]%string.

Definition install_opts_rules (opts : Options) : M unit :=
  _ ← for_each std_x86 (fun x => DISALLOW_ONLY_ON_STDIN_STDOUT_STDERR opts X86 x.1 x.2);
  _ ← for_each std_both (both_ctx (DISALLOW_ONLY_ON_STDIN_STDOUT_STDERR opts));
  _ ← for_each stdin_both (both_ctx (DISALLOW_ONLY_ON_STDIN opts));
  for_each stdout_stderr_both (both_ctx (DISALLOW_ONLY_ON_STDOUT_STDERR opts)).

(** [tracee_pid_] is converted to [scmp_datum_t]. *)
Definition u64 (x : Z) : Z := x mod 2 ^ 64.

Definition install_pid_rules : M unit :=
  pid ← request kernel Getpid;
  _ ← setl (set_tracee_pid pid);
  let self := u64 pid in
  _ ← seccomp_rule_add_both_ctx ACT_ALLOW "tgkill" [mkCmp 0 CMP_EQ self; mkCmp 1 CMP_EQ self];
  _ ← seccomp_rule_add_both_ctx (ACT_ERRNO EPERM) "tgkill" [mkCmp 0 CMP_NE self];
  _ ← seccomp_rule_add_both_ctx (ACT_ERRNO EPERM) "tgkill" [mkCmp 0 CMP_EQ self; mkCmp 1 CMP_NE self];
  _ ← seccomp_rule_add_both_ctx ACT_ALLOW "kill" [mkCmp 0 CMP_EQ self];
  seccomp_rule_add_both_ctx (ACT_ERRNO EPERM) "kill" [mkCmp 0 CMP_NE self].

(** ** The child *)

Variables errmsg : Z -> str.
(** [e.what()] *)
Variable what : exn -> str.

Abbreviation child := (child (W := W) (L := Sandbox)).

Definition sub {A} (m : M A) : child A := fun s => let (s', r) := m s in (s', inl <$> r).

(** A request of libseccomp answers a negated [errno]. *)
Definition scmp_require (fd : Z) (r : scmp_request) (text : str) : child unit :=
  errnum ← ask kernel (Seccomp r);
  if errnum =? 0 then mret tt else send_error_and_exit kernel errmsg fd (- errnum) text.

(** The second limit is there to use up the calls of [prlimit64] the filter
    allows. *)
Definition set_limits_after_load (fd : Z) (opts : Options) : child unit :=
  match opt_memory_limit opts with
  | Some limit =>
      _ ← require kernel errmsg fd (Prlimit RLIMIT_AS (Some limit)) (lit "prlimit(RLIMIT_AS)");
      require kernel errmsg fd (Prlimit RLIMIT_STACK (Some limit)) (lit "prlimit(RLIMIT_STACK)")
  | None =>
      _ ← ask kernel (Prlimit RLIMIT_AS None);
      _ ← ask kernel (Prlimit RLIMIT_STACK None);
      mret tt
  end.

Definition before_exec (fd : Z) (opts : Options) : child unit :=
  _ ← require kernel errmsg fd (Setrlimit RLIMIT_CORE 0) (lit "setrlimit(RLIMIT_CORE)");
  _ ← require kernel errmsg fd PtraceTraceme (lit "ptrace(PTRACE_TRACEME)");
  _ ← require kernel errmsg fd Sigprocmask (lit "sigprocmask()");
  _ ← ask kernel SigpipeDefault;
  pid ← ask kernel Getpid;
  _ ← ask kernel (Kill pid SIGSTOP);
  _ ← scmp_require fd SeccompLoad (lit "seccomp_load()");
  set_limits_after_load fd opts.

Definition without_memory_limit (opts : Options) : Options :=
  mkOptions (new_stdin_fd opts) (new_stdout_fd opts) (new_stderr_fd opts)
    (opt_real_time_limit opts) None (opt_cpu_time_limit opts) (working_dir opts).

(** [run] after [fork], in the child. *)
Definition run_tracee (fuel : nat) (exec : str) (exec_args : list str) (opts : Options) (pfd : Z * Z) :
    child unit :=
  _ ← ask kernel (Close pfd.1);
  _ ← catch_and_send kernel pfd.2 what (_ ← sub (install_opts_rules opts); sub install_pid_rules);
  _ ← scmp_require pfd.2 SeccompMerge (lit "seccomp_merge()");
  run_child kernel errmsg fuel exec exec_args (without_memory_limit opts) pfd.2 what
    (before_exec pfd.2 opts).

End Filter.

(** ** The parent *)

(** The registers at a system call; [X86SyscallRegisters] and
    [X86_64SyscallRegisters] are the instances. *)
Class SyscallRegisters (R : Type) := {
  reg_width : Z;
  get_regs : Z -> sys (option R);
  set_regs : Z -> R -> sys bool;
  syscall : R -> Z;
  res : R -> Z;
  arg1 : R -> Z;
  arg2 : R -> Z;
  arg3 : R -> Z;
  set_syscall_res : Z -> Z -> R -> R
}.

#[export] Instance X86SyscallRegisters : SyscallRegisters x86_user_regset := {
  reg_width := 32;
  get_regs := PtraceGetregs32;
  set_regs := PtraceSetregs32;
  syscall := orig_eax;
  res := eax;
  arg1 := ebx;
  arg2 := ecx;
  arg3 := edx;
  set_syscall_res := fun nr r u =>
    mkRegs32 (ebx u) (ecx u) (edx u) (esi u) (edi u) (ebp u) r (xds u) (xes u) (xfs u) (xgs u) nr
      (eip u) (xcs u) (eflags32 u) (esp u) (xss u)
}.

#[export] Instance X86_64SyscallRegisters : SyscallRegisters x86_64_user_regset := {
  reg_width := 64;
  get_regs := PtraceGetregs64;
  set_regs := PtraceSetregs64;
  syscall := orig_rax;
  res := rax;
  arg1 := rdi;
  arg2 := rsi;
  arg3 := rdx;
  set_syscall_res := fun nr r u =>
    mkRegs64 (r15 u) (r14 u) (r13 u) (r12 u) (rbp u) (rbx u) (r11 u) (r10 u) (r9 u) (r8 u) r
      (rcx u) (rdx u) (rsi u) (rdi u) nr (rip u) (cs u) (eflags u) (rsp u) (ss u) (fs_base u)
      (gs_base u) (ds u) (es u) (fs u) (gs u)
}.

(** The variables of [run] that its closures share. *)
Record run_locals := mkLocals {
  sandbox : Sandbox;
  l_si : siginfo;
  l_ru : rusage;
  l_timer : option Timer;
  l_cpu_timer : option Timer;
  l_runtime : Z;
  l_cpu_runtime : Z;
  guard_active : bool
}.

Definition on_sandbox (f : Sandbox -> Sandbox) (l : run_locals) : run_locals :=
  mkLocals (f (sandbox l)) (l_si l) (l_ru l) (l_timer l) (l_cpu_timer l) (l_runtime l)
    (l_cpu_runtime l) (guard_active l).
Definition set_si (si : siginfo) (l : run_locals) : run_locals :=
  mkLocals (sandbox l) si (l_ru l) (l_timer l) (l_cpu_timer l) (l_runtime l) (l_cpu_runtime l)
    (guard_active l).
Definition set_ru (ru : rusage) (l : run_locals) : run_locals :=
  mkLocals (sandbox l) (l_si l) ru (l_timer l) (l_cpu_timer l) (l_runtime l) (l_cpu_runtime l)
    (guard_active l).
Definition set_timer (t : option Timer) (l : run_locals) : run_locals :=
  mkLocals (sandbox l) (l_si l) (l_ru l) t (l_cpu_timer l) (l_runtime l) (l_cpu_runtime l)
    (guard_active l).
Definition set_cpu_timer (t : option Timer) (l : run_locals) : run_locals :=
  mkLocals (sandbox l) (l_si l) (l_ru l) (l_timer l) t (l_runtime l) (l_cpu_runtime l)
    (guard_active l).
Definition set_runtimes (rt cpu : Z) (l : run_locals) : run_locals :=
  mkLocals (sandbox l) (l_si l) (l_ru l) (l_timer l) (l_cpu_timer l) rt cpu (guard_active l).
Definition set_guard (b : bool) (l : run_locals) : run_locals :=
  mkLocals (sandbox l) (l_si l) (l_ru l) (l_timer l) (l_cpu_timer l) (l_runtime l)
    (l_cpu_runtime l) b.

Section Parent.
Context {W : Type}.
Variable kernel : forall A, sys A -> W -> W * A.
Variable strsignal : Z -> str.

Abbreviation M := (stm (proc W run_locals)).
Abbreviation call := (call kernel).
Abbreviation call_or_throw := (call_or_throw kernel).

Definition get_sb {A} (f : Sandbox -> A) : M A := getl (fun l => f (sandbox l)).
Definition set_sb (f : Sandbox -> Sandbox) : M unit := setl (on_sandbox f).

Definition set_message_callback (msg : str) : M bool := _ ← set_sb (set_message msg); mret true.

Definition reset (cb : SyscallCallback) : SyscallCallback :=
  match cb with
  | SyscallCallbackLambda f => SyscallCallbackLambda f
  | SyscallCallbackLimiting limit _ name => SyscallCallbackLimiting limit limit name
  | SyscallCallbackVmPeakUpdater _ => SyscallCallbackVmPeakUpdater 0
  end.

Definition reset_callbacks : M unit := set_sb (fun sb => set_callbacks (map reset (callbacks_ sb)) sb).

(** ** The size of the traced process *)

Definition statm_error (buff : str) : str :=
  lit "Read invalid VmSize from /proc/tracee_pid/statm: " ++ [DQ] ++ buff ++ [DQ].

(** The first field of what [/proc/PID/statm] holds. *)
Definition parse_vm_size (data : str) : outcome Z :=
  let buff := match SV.find_char data " "%char 0 with Some pos => take pos data | None => data end in
  match str2num uint64 buff with
  | Some vm_size => Ok vm_size
  | None => Throw (RuntimeError (statm_error buff))
  end.

Definition get_tracee_vm_size : M Z :=
  fd ← get_sb tracee_statm_fd_;
  rc ← call (Pread fd 32 0);
  match rc with
  | Some (c :: data) => lift (parse_vm_size (c :: data))
  | _ => throw_error (lit "pread()")
  end.

Definition update_tracee_vm_peak_to (curr_vm_size : Z) : M unit :=
  set_sb (fun sb => if tracee_vm_peak_ sb <? curr_vm_size then set_vm_peak curr_vm_size sb else sb).

Definition update_tracee_vm_peak : M unit :=
  vm_size ← get_tracee_vm_size;
  update_tracee_vm_peak_to vm_size.

(** ** Callbacks *)

Definition FAIL_COUNTER_LIMIT : Z := 1024.

Definition set_callback (id : nat) (cb : SyscallCallback) : M unit :=
  set_sb (fun sb => set_callbacks (<[id := cb]> (callbacks_ sb)) sb).

Definition limiting_callback (id : nat) (limit counter : Z) (syscall_name : str) : M bool :=
  if counter =? 0 then set_message_callback (lit "forbidden syscall: " ++ syscall_name)
  else
    _ ← set_callback id (SyscallCallbackLimiting limit (counter - 1) syscall_name);
    mret false.

(** [SIGTRAP | 0x80] *)
Definition SYSCALL_STOP : Z := Z.lor SIGTRAP 128.

(** When [waitid] fails, [si] is read without having been written. *)
Definition vm_peak_updater (id : nat) (fail_counter : Z) : M bool :=
  pid ← get_sb tracee_pid_;
  _ ← call (PtraceSyscall pid);
  r ← call (Waitid pid (Z.lor (Z.lor WSTOPPED WEXITED) WNOWAIT));
  si ← lift (get_or_ub (fst <$> r));
  if negb (si_status si =? SYSCALL_STOP) then mret false
  else
    vm_size ← get_tracee_vm_size;
    peak ← get_sb tracee_vm_peak_;
    if vm_size =? peak then
      let fail_counter := (fail_counter + 1) mod 2 ^ 32 in
      _ ← set_callback id (SyscallCallbackVmPeakUpdater fail_counter);
      if fail_counter =? FAIL_COUNTER_LIMIT then set_message_callback (lit "Memory limit exceeded")
      else mret false
    else
      _ ← set_callback id (SyscallCallbackVmPeakUpdater 0);
      _ ← update_tracee_vm_peak_to vm_size;
      mret false.

(** *** Opening files *)

Section Open.
Context {R : Type} `{SyscallRegisters R}.

(** [syscall_reg = -1; res_reg = -errnum; registers.set_regs(tracee_pid)] *)
Definition deny (registers : R) (errnum : Z) : M bool :=
  pid ← get_sb tracee_pid_;
  let wrap x := x mod 2 ^ reg_width in
  ok ← call (set_regs pid (set_syscall_res (wrap (-1)) (wrap (- errnum)) registers));
  if (ok : bool) then mret false else throw_error (lit "ptrace(PTRACE_SETREGS)").

Definition O_ACCMODE : Z := 3.

Definition access_of (flags : Z) : OpenAccess :=
  let perm := Z.land flags O_ACCMODE in
  if perm =? 0 then RDONLY
  else if perm =? 1 then WRONLY
  else if perm =? 2 then RDWR
  else NONE.

(** The loop over [allowed_files]: whether the file may be opened. *)
Fixpoint may_open (allowed_files : list AllowedFile) (path : str) (op : OpenAccess) : bool :=
  match allowed_files with
  | [] => false
  | af :: rest => if SV.eqb af.1 path then bool_decide (op = af.2) else may_open rest path op
  end.

(** [path.extract_prefix(path.find('\0'))] *)
Definition up_to_nul (data : str) : str :=
  match SV.find_char data NUL 0 with Some pos => (SV.extract_prefix data pos).1 | None => data end.

Definition check_opening_syscall (registers : R) (path_arg flags_arg : Z) : M bool :=
  pid ← get_sb tracee_pid_;
  len ← call (ProcessVmReadv pid path_arg PATH_MAX);
  match len with
  | None => deny registers EFAULT
  | Some data =>
      let path := up_to_nul data in
      if Nat.eqb (length path) (length data) then deny registers ENAMETOOLONG
      else
        allowed_files ← get_sb allowed_files_;
        if may_open allowed_files path (access_of flags_arg) then mret false
        else deny registers EPERM
  end.

Definition AT_FDCWD : Z := -100.

(** [static_cast<int>] *)
Definition to_int (x : Z) : Z := let y := x mod 2 ^ 32 in if y <? 2 ^ 31 then y else y - 2 ^ 32.

Definition check_openat_syscall (regs : R) : M bool :=
  if negb (to_int (arg1 regs) =? AT_FDCWD) then deny regs EPERM
  else check_opening_syscall regs (arg2 regs) (arg3 regs).

Definition read_regs : M R :=
  pid ← get_sb tracee_pid_;
  call_or_throw (lit "ptrace(PTRACE_GETREGS)") (get_regs pid).

Definition open_callback : M bool :=
  regs ← read_regs;
  check_opening_syscall regs (arg1 regs) (arg2 regs).

Definition openat_callback : M bool :=
  regs ← read_regs;
  check_openat_syscall regs.

End Open.

Definition run_lambda (f : lambda) : M bool :=
  match f with
  | InvalidArch => set_message_callback (lit "Invalid architecture of the syscall")
  | ExitCallback | ExitGroupCallback => _ ← update_tracee_vm_peak; mret false
  | OpenCallback X86 => open_callback (R := x86_user_regset)
  | OpenCallback X86_64 => open_callback (R := x86_64_user_regset)
  | OpenatCallback X86 => openat_callback (R := x86_user_regset)
  | OpenatCallback X86_64 => openat_callback (R := x86_64_user_regset)
  end.

(** [callbacks_[id]->operator()()]: whether to kill the traced process. *)
Definition run_callback (id : nat) : M bool :=
  cbs ← get_sb callbacks_;
  cb ← lift (get_or_ub (cbs !! id));
  match cb with
  | SyscallCallbackLambda f => run_lambda f
  | SyscallCallbackLimiting limit counter name => limiting_callback id limit counter name
  | SyscallCallbackVmPeakUpdater fail_counter => vm_peak_updater id fail_counter
  end.

(** ** Events of the traced process *)

Variable fuel : nat.

Definition wait (options : Z) : M unit :=
  pid ← get_sb tracee_pid_;
  r ← call (Waitid pid options);
  match r with
  | Some (si, _) => setl (set_si si)
  | None => mret tt
  end.

Definition kill_group : M unit :=
  pid ← get_sb tracee_pid_;
  call (Kill (- pid) SIGKILL).

Definition has_timer_timeouted (t : option Timer) : M bool :=
  match t with
  | None => mret false
  | Some t' => timeout_signal_was_sent t'
  end.

Definition has_tracee_timeouted : M bool :=
  timer ← getl l_timer;
  b ← has_timer_timeouted timer;
  if (b : bool) then mret true
  else
    cpu_timer ← getl l_cpu_timer;
    has_timer_timeouted cpu_timer.

(** What [unique_ptr<Timer>] does with the timer it lets go of. *)
Definition destroy_timer (t : option Timer) : M unit :=
  match t with None => mret tt | Some t' => delete_timer kernel fuel t' end.

Definition stop_timer (t : option Timer) : M (option Timer * Z) :=
  match t with
  | None => mret (None, 0)
  | Some t' => '(t'', d) ← deactivate_and_get_runtime kernel fuel t'; mret (Some t'', d)
  end.

Definition get_cpu_time_and_wait_tracee (is_waited : bool) : M unit :=
  _ ← when (negb is_waited) (wait (Z.lor WEXITED WNOWAIT));
  timer ← getl l_timer;
  '(timer, runtime) ← stop_timer timer;
  _ ← setl (set_timer timer);
  cpu_timer ← getl l_cpu_timer;
  '(cpu_timer', cpu_runtime) ← stop_timer cpu_timer;
  _ ← setl (set_cpu_timer cpu_timer');
  _ ← setl (set_runtimes runtime cpu_runtime);
  _ ← when (bool_decide (cpu_timer = None)) (set_sb (set_vm_peak 0));
  _ ← setl (set_guard false);
  pid ← get_sb tracee_pid_;
  r ← call (Waitid pid WEXITED);
  match r with
  | Some (si, ru) => _ ← setl (set_si si); setl (set_ru ru)
  | None => mret tt
  end.

Definition SYS_SECCOMP : Z := 1.
Definition EXEC_STOP : Z := Z.lor SIGTRAP (Z.shiftl 4 8).
Definition SECCOMP_STOP : Z := Z.lor SIGTRAP (Z.shiftl 7 8).

Definition forbidden_message (sii : sigsys_info) (syscall_name : option str) : str :=
  match syscall_name with
  | Some name => lit "forbidden syscall: " ++ to_string (si_syscall sii) ++ lit " - " ++ name
  | None => lit "forbidden syscall: " ++ to_string (si_syscall sii) ++ lit " (arch: " ++
            to_string (si_arch sii) ++ lit ")"
  end.

(** [SIGSYS]: whether it came from seccomp, which ends the event. *)
Definition on_sigsys : M bool :=
  pid ← get_sb tracee_pid_;
  sii ← call_or_throw (lit "ptrace(PTRACE_GETSIGINFO)") (PtraceGetsiginfo pid);
  if sys_code sii =? SYS_SECCOMP then
    syscall_name ← call (SyscallResolve (si_arch sii) (si_syscall sii));
    _ ← set_message_callback (forbidden_message sii syscall_name);
    _ ← update_tracee_vm_peak;
    _ ← kill_group;
    mret true
  else mret false.

Definition on_exec (opts : Options) : M unit :=
  pid ← get_sb tracee_pid_;
  vm_size ← get_tracee_vm_size;
  _ ← set_sb (set_vm_peak vm_size);
  old ← getl l_timer;
  timer ← make_timer kernel fuel pid (limit_or_0 (opt_real_time_limit opts)) CLOCK_MONOTONIC SIGSTOP;
  _ ← setl (set_timer (Some timer));
  _ ← destroy_timer old;
  clock ← call_or_throw (lit "clock_getcpuclockid()") (ClockGetcpuclockid pid);
  old ← getl l_cpu_timer;
  timer ← make_timer kernel fuel pid (limit_or_0 (opt_cpu_time_limit opts)) clock SIGSTOP;
  _ ← setl (set_cpu_timer (Some timer));
  destroy_timer old.

Definition on_seccomp : M unit :=
  pid ← get_sb tracee_pid_;
  msg ← call_or_throw (lit "ptrace(PTRACE_GETEVENTMSG)") (PtraceGeteventmsg pid);
  to_kill ← run_callback (Z.to_nat msg);
  when to_kill (_ ← update_tracee_vm_peak; kill_group).

(** Deliver the intercepted signal. *)
Definition deliver (sig : Z) : M unit :=
  pid ← get_sb tracee_pid_;
  _ ← call (PtraceCont pid sig);
  mret tt.

Definition on_other_stop (status : Z) : M unit :=
  timeouted ← has_tracee_timeouted;
  if (timeouted : bool) then _ ← update_tracee_vm_peak; kill_group
  else _ ← update_tracee_vm_peak; deliver status.

Definition on_trapped (opts : Options) (si : siginfo) : M unit :=
  if negb (si_signo si =? SIGCHLD) then throw_error (lit "Assertion `si.si_signo == SIGCHLD` failed.")
  else
    handled ← (if si_status si =? SIGSYS then on_sigsys else mret false);
    if (handled : bool) then mret tt
    else if si_status si =? EXEC_STOP then on_exec opts
    else if si_status si =? SECCOMP_STOP then on_seccomp
    else if si_status si =? SYSCALL_STOP then mret tt
    else on_other_stop (si_status si).

(** One turn of [for (;;)]: whether the traced process has died. *)
Definition one_event (opts : Options) : M bool :=
  _ ← deliver 0;
  _ ← wait (Z.lor (Z.lor WSTOPPED WEXITED) WNOWAIT);
  si ← getl l_si;
  if si_code si =? CLD_TRAPPED then _ ← on_trapped opts si; mret false
  else if si_code si =? CLD_STOPPED then _ ← deliver (si_status si); mret false
  else if bool_decide (si_code si ∈ [CLD_EXITED; CLD_DUMPED; CLD_KILLED]) then
    _ ← get_cpu_time_and_wait_tracee true; mret true
  else mret false.

Fixpoint event_loop (n : nat) (opts : Options) : M unit :=
  match n with
  | O => lift NoFuel
  | S n' =>
      died ← one_event opts;
      if (died : bool) then mret tt else event_loop n' opts
  end.

(** The [catch] of the loop. *)
Definition on_exception (e : exn) : M unit :=
  active ← getl guard_active;
  if negb active then lift (Throw e)
  else
    pid ← get_sb tracee_pid_;
    errnum ← call (PtracePeekuser pid);
    if errnum =? ESRCH then _ ← kill_group; get_cpu_time_and_wait_tracee false
    else lift (Throw e).

(** [tracee_died:] *)
Definition exit_stat (pipe : Z) : M ExitStat :=
  l ← getl (fun l => l);
  pagesize ← call SysconfPagesize;
  let si := l_si l in
  let peak := (tracee_vm_peak_ (sandbox l) * pagesize) mod 2 ^ 64 in
  let stat msg := mkExitStat (l_runtime l) (l_cpu_runtime l) (si_code si) (si_status si) (l_ru l) peak msg in
  let message := message_to_set_in_exit_stat_ (sandbox l) in
  if negb (SV.empty message) then mret (stat message)
  else if negb (si_code si =? CLD_EXITED) || negb (si_status si =? 0) then
    msg ← receive_error_message kernel strsignal fuel si pipe;
    mret (stat msg)
  else mret (stat []).

(** ** run *)

Definition guard : M unit :=
  active ← getl guard_active;
  when active (pid ← get_sb tracee_pid_; kill_and_wait kernel pid).

Definition destroy_timers : M unit :=
  cpu_timer ← getl l_cpu_timer;
  _ ← destroy_timer cpu_timer;
  timer ← getl l_timer;
  destroy_timer timer.

Definition close_statm : M unit :=
  fd ← get_sb tracee_statm_fd_;
  _ ← when (0 <=? fd) (call (Close fd));
  set_sb (set_statm_fd (-1)).

(** From the opening of [/proc/PID/statm] to the end. *)
Definition trace_tracee (opts : Options) (pipe : Z) : M ExitStat :=
  pid ← get_sb tracee_pid_;
  fd ← call (OpenStatm pid);
  match fd with
  | None => _ ← set_sb (set_statm_fd (-1)); throw_error (lit "open(/proc/{tracee_pid_ = " ++ to_string pid ++ lit "}/statm)")
  | Some fd =>
      _ ← set_sb (set_statm_fd fd);
      finally
        (finally
          (_ ← do_in_parent_after_fork kernel pid;
           _ ← try_catch (event_loop fuel opts) on_exception;
           exit_stat pipe)
          destroy_timers)
        close_statm
  end.

Definition no_siginfo : siginfo := mkSi 0 0 0.

(** The local variables when [run] starts. *)
Definition fresh_locals (sb : Sandbox) : run_locals := mkLocals sb no_siginfo [] None None 0 0 false.

(** From the first [waitid] to the end. *)
Definition watch_tracee (opts : Options) (pid pipe : Z) : M ExitStat :=
  '(si, _) ← call_or_throw (lit "waitid()") (Waitid pid (Z.lor WSTOPPED WEXITED));
  _ ← setl (set_si si);
  if negb (si_code si =? CLD_TRAPPED) then
    message ← receive_error_message kernel strsignal fuel si pipe;
    mret (mkExitStat 0 0 (si_code si) (si_status si) [] 0 message)
  else
    _ ← setl (set_guard true);
    finally
      (ok ← call (PtraceSetoptions pid);
       if negb ok then throw_error (lit "ptrace(PTRACE_SETOPTIONS)")
       else trace_tracee opts pipe)
      guard.

Definition run_sandboxed (opts : Options) (allowed_files : list AllowedFile) : M ExitStat :=
  _ ← setl (fun l => fresh_locals (sandbox l));
  _ ← check_limits opts;
  _ ← reset_callbacks;
  _ ← set_sb (set_vm_peak 0);
  _ ← set_sb (set_message []);
  _ ← set_sb (set_allowed_files allowed_files);
  pfd ← call_or_throw (lit "pipe()") Pipe2;
  r ← call Fork;
  let pid := match r with Some pid => pid | None => -1 end in
  _ ← set_sb (set_tracee_pid pid);
  _ ← when (pid =? -1) (throw_error (lit "fork()"));
  _ ← call (Close pfd.2);
  finally (watch_tracee opts pid pfd.1) (call (Close pfd.1)).

End Parent.
