(* ===== verification/SandboxFilter.v ===== *)
(** * What the sandbox's filter lets through

    The rules that [Sandbox::Sandbox()] and the child add, read as a policy: what
    happens to each system call, by its name and its arguments.  The policy does
    not depend on how libseccomp chooses between rules that match, because rules
    that match the same call never disagree. *)

From Stdlib Require Import ZArith Lia.
From S2P Require Import Prelude.
From S2P Require Import Seccomp.
From S2P Require Import Os.
From S2P Require Import Spawner.
From S2P Require Import Sandbox.
Local Open Scope Z_scope.

(** ** The policy *)

(** What happens to a system call: it is made, it fails with an [errno], a
    callback is asked, or the process gets [SIGSYS]. *)
Inductive verdict :=
| Allow
| FailWith (errnum : Z)
| AskCallback (cb : SyscallCallback)
| Trap.

(** Whether descriptor [fd] is one of the standard ones in [guarded] and is not
    closed by the options. *)
Definition guarded_fd (opts : Options) (guarded : list Z) (fd : Z) : bool :=
  bool_decide (fd ∈ guarded) &&
  (if fd =? STDIN_FILENO then 0 <=? new_stdin_fd opts
   else if fd =? STDOUT_FILENO then 0 <=? new_stdout_fd opts
   else 0 <=? new_stderr_fd opts).

Definition fd_policy (opts : Options) (guarded : list Z) (errnum fd : Z) : verdict :=
  if guarded_fd opts guarded fd then FailWith errnum else Allow.

Definition always_allowed (a : arch) : list string :=
  ["uname"; "set_thread_area"; "arch_prctl"]%string ++ allowed_both ++
  (if decide (a = X86) then allowed_x86 else []).

Definition no_entry : list string := ["access"; "stat"; "statx"; "readlink"]%string.
Definition not_permitted : list string := ["sysinfo"; "ioctl"; "clone"]%string.

(** The errno of a call on one of the standard descriptors. *)
Definition std_errno (a : arch) (name : string) : option Z :=
  snd <$> List.find (fun p => bool_decide (p.1 = name))
    ((if decide (a = X86) then std_x86 else []) ++ std_both).

Definition policy (a : arch) (opts : Options) (self : Z) (name : string) (arg0 arg1 : Z) : verdict :=
  if decide (name ∈ always_allowed a) then Allow
  else if decide (name ∈ no_entry) then FailWith ENOENT
  else if decide (name ∈ not_permitted) then FailWith EPERM
  else if decide (name ∈ memory_syscalls) then AskCallback (SyscallCallbackVmPeakUpdater 0)
  else if decide (name = "execve"%string) then AskCallback (SyscallCallbackLimiting 1 1 (lit "execve"))
  else if decide (name = "prlimit64"%string) then
    AskCallback (SyscallCallbackLimiting 2 2 (lit "prlimit64"))
  else if decide (name = "exit"%string) then AskCallback (SyscallCallbackLambda ExitCallback)
  else if decide (name = "exit_group"%string) then AskCallback (SyscallCallbackLambda ExitGroupCallback)
  else if decide (name = "open"%string) then AskCallback (SyscallCallbackLambda (OpenCallback a))
  else if decide (name = "openat"%string) then AskCallback (SyscallCallbackLambda (OpenatCallback a))
  else if decide (name ∈ ["write"; "writev"]%string) then fd_policy opts [STDIN_FILENO] EBADF arg0
  else if decide (name ∈ ["read"; "readv"]%string) then
    fd_policy opts [STDOUT_FILENO; STDERR_FILENO] EBADF arg0
  else if decide (name = "kill"%string) then if arg0 =? self then Allow else FailWith EPERM
  else if decide (name = "tgkill"%string) then
    if (arg0 =? self) && (arg1 =? self) then Allow else FailWith EPERM
  else
    match std_errno a name with
    | Some errnum => fd_policy opts [STDIN_FILENO; STDOUT_FILENO; STDERR_FILENO] errnum arg0
    | None => Trap
    end.

(** An action of the filter and a verdict, given the table of callbacks. *)
Definition realises (cbs : list SyscallCallback) (act : action) (v : verdict) : Prop :=
  match v with
  | Allow => act = ACT_ALLOW
  | FailWith errnum => act = ACT_ERRNO errnum
  | AskCallback cb => exists id, act = ACT_TRACE id /\ cbs !! id = Some cb
  | Trap => act = ACT_TRAP
  end.

Definition ctx_of (a : arch) (sb : Sandbox) : list rule :=
  match a with X86 => x86_ctx_ sb | X86_64 => x86_64_ctx_ sb end.

(** ** What the set-up does to the object *)

Section Tracks.
Context {W : Type}.
Variable kernel : forall A, sys A -> W -> W * A.
Abbreviation M := (stm (proc W Sandbox)).

(** If [m] does not throw, it does to the object what [f] does. *)
Definition tracks {A} (m : M A) (f : Sandbox -> Sandbox * A) : Prop :=
  forall s s' a, m s = (s', Ok a) -> (loc s', a) = f (loc s).

Lemma tracks_ret {A} (a : A) : tracks (mret a) (fun sb => (sb, a)).
Proof. intros s s' b E. by inversion E. Qed.

Lemma tracks_bind {A B} (m : M A) (k : A -> M B) f g : tracks m f -> (forall a, tracks (k a) (g a)) ->
  tracks (m ≫= k) (fun sb => let (sb', a) := f sb in g a sb').
Proof.
  intros Hm Hk s s' b E. apply stm_bind_Ok in E as (s1 & a & E1 & E2).
  apply Hm in E1. apply Hk in E2. rewrite <- E1. done.
Qed.

Lemma tracks_ext {A} (m : M A) f g : tracks m f -> (forall sb, f sb = g sb) -> tracks m g.
Proof. intros Hm Hfg s s' a E. by rewrite <- Hfg, <- (Hm _ _ _ E). Qed.

Lemma tracks_getl {A} (f : Sandbox -> A) : tracks (getl f) (fun sb => (sb, f sb)).
Proof. intros s s' b E. by inversion E. Qed.

Lemma tracks_setl (f : Sandbox -> Sandbox) : tracks (setl f) (fun sb => (f sb, tt)).
Proof. intros s s' b E. by inversion E. Qed.

Lemma tracks_on_throw {A} (m : M A) g f : tracks m f -> tracks (on_throw m g) f.
Proof.
  intros Hm s s' a E. apply Hm. unfold on_throw in E. destruct (m s) as [s1 [b|e| |]] eqn:E1; try done.
  unfold finally, lift in E. destruct (g s1) as [s2 []]; simplify_eq.
Qed.

Lemma tracks_scmp w r : tracks (scmp_throw kernel w r) (fun sb => (sb, tt)).
Proof.
  intros s s' a E. unfold scmp_throw in E. apply stm_bind_Ok in E as (s1 & x & E1 & E2).
  unfold request in E1. destruct (kernel _ _ _) as [w' y]. simplify_eq.
  destruct (x =? 0); by inversion E2.
Qed.

Lemma tracks_rule a act name cmps :
  tracks (seccomp_rule_add_throw kernel a act name cmps) (fun sb => (push_rule a (mkRule act name cmps) sb, tt)).
Proof.
  eapply tracks_ext; [eapply tracks_bind; [apply tracks_scmp|intros ?; apply tracks_setl]|done].
Qed.

Fixpoint each {A} (f : A -> Sandbox -> Sandbox * unit) (l : list A) (sb : Sandbox) : Sandbox * unit :=
  match l with [] => (sb, tt) | x :: l' => let (sb', _) := f x sb in each f l' sb' end.

Lemma tracks_for_each {A} (l : list A) (k : A -> M unit) f :
  (forall x, tracks (k x) (f x)) -> tracks (for_each l k) (each f l).
Proof.
  intros Hk. induction l as [|x l IH]; [apply tracks_ret|].
  eapply tracks_ext; [eapply tracks_bind; [apply Hk|intros ?; apply IH]|done].
Qed.

(** [request] whose answer decides nothing about the object. *)
Lemma tracks_native {B} (k : option arch -> M B) f : (forall x, tracks (k x) f) ->
  tracks (x ← request kernel SeccompArchNative; k x) f.
Proof.
  intros Hk s s' b E. apply stm_bind_Ok in E as (s1 & x & E1 & E2). apply Hk in E2. rewrite E2. f_equal.
  unfold request in E1. destruct (kernel _ _ _). by simplify_eq.
Qed.

Lemma tracks_set_arch a native : tracks (set_arch kernel a native) (fun sb => (sb, tt)).
Proof.
  unfold set_arch. destruct (decide _); [apply tracks_ret|].
  eapply tracks_ext; [eapply tracks_bind; [apply tracks_scmp|intros ?; apply tracks_scmp]|done].
Qed.

End Tracks.

Ltac track :=
  repeat first
    [ apply tracks_ret | apply tracks_getl | apply tracks_setl | apply tracks_scmp | apply tracks_rule
    | apply tracks_set_arch | eapply tracks_native; intros ? | eapply tracks_on_throw
    | eapply tracks_for_each; intros ? | eapply tracks_bind; [|intros ?] ].

(** ** The rules and the callbacks, as data *)

Definition static_callbacks : list SyscallCallback :=
  [SyscallCallbackLambda InvalidArch; SyscallCallbackLimiting 1 1 (lit "execve");
   SyscallCallbackLimiting 2 2 (lit "prlimit64"); SyscallCallbackVmPeakUpdater 0;
   SyscallCallbackLambda ExitCallback; SyscallCallbackLambda ExitGroupCallback;
   SyscallCallbackLambda (OpenCallback X86); SyscallCallbackLambda (OpenCallback X86_64);
   SyscallCallbackLambda (OpenatCallback X86); SyscallCallbackLambda (OpenatCallback X86_64)].

Definition plain (act : action) (name : string) : rule := mkRule act name [].

Definition static_rules (a : arch) : list rule :=
  [plain (ACT_TRACE 1) "execve"; plain (ACT_TRACE 2) "prlimit64"] ++
  map (plain (ACT_ERRNO ENOENT)) ["access"; "stat"; "statx"]%string ++
  map (plain ACT_ALLOW) ["uname"; "set_thread_area"; "arch_prctl"]%string ++
  [plain (ACT_ERRNO ENOENT) "readlink"] ++
  map (plain (ACT_TRACE 3)) memory_syscalls ++
  [plain (ACT_TRACE 4) "exit"; plain (ACT_TRACE 5) "exit_group";
   plain (ACT_TRACE (if decide (a = X86) then 6 else 7)%nat) "open";
   plain (ACT_TRACE (if decide (a = X86) then 8 else 9)%nat) "openat"] ++
  map (plain (ACT_ERRNO EPERM)) ["sysinfo"; "ioctl"; "clone"]%string ++
  map (plain ACT_ALLOW) allowed_both ++
  (if decide (a = X86) then map (plain ACT_ALLOW) allowed_x86 else []).

Definition fd_action (new_fd errnum : Z) : action := if new_fd <? 0 then ACT_ALLOW else ACT_ERRNO errnum.

Definition std_rules (opts : Options) (x : string * Z) : list rule :=
  [mkRule (fd_action (new_stdin_fd opts) x.2) x.1 (A0 CMP_EQ 0);
   mkRule (fd_action (new_stdout_fd opts) x.2) x.1 (A0 CMP_EQ 1);
   mkRule (fd_action (new_stderr_fd opts) x.2) x.1 (A0 CMP_EQ 2);
   mkRule ACT_ALLOW x.1 (A0 CMP_LT 0); mkRule ACT_ALLOW x.1 (A0 CMP_GT 2)].

Definition stdin_rules (opts : Options) (x : string * Z) : list rule :=
  [mkRule (fd_action (new_stdin_fd opts) x.2) x.1 (A0 CMP_EQ 0);
   mkRule ACT_ALLOW x.1 (A0 CMP_LT 0); mkRule ACT_ALLOW x.1 (A0 CMP_GT 0)].

Definition stdout_stderr_rules (opts : Options) (x : string * Z) : list rule :=
  [mkRule (fd_action (new_stdout_fd opts) x.2) x.1 (A0 CMP_EQ 1);
   mkRule (fd_action (new_stderr_fd opts) x.2) x.1 (A0 CMP_EQ 2);
   mkRule ACT_ALLOW x.1 (A0 CMP_LT 1); mkRule ACT_ALLOW x.1 (A0 CMP_GT 2)].

Definition pid_rules (self : Z) : list rule :=
  [mkRule ACT_ALLOW "tgkill" [mkCmp 0 CMP_EQ self; mkCmp 1 CMP_EQ self];
   mkRule (ACT_ERRNO EPERM) "tgkill" [mkCmp 0 CMP_NE self];
   mkRule (ACT_ERRNO EPERM) "tgkill" [mkCmp 0 CMP_EQ self; mkCmp 1 CMP_NE self];
   mkRule ACT_ALLOW "kill" [mkCmp 0 CMP_EQ self];
   mkRule (ACT_ERRNO EPERM) "kill" [mkCmp 0 CMP_NE self]].

Definition all_rules (a : arch) (opts : Options) (self : Z) : list rule :=
  static_rules a ++
  (if decide (a = X86) then flat_map (std_rules opts) std_x86 else []) ++
  flat_map (std_rules opts) std_both ++ flat_map (stdin_rules opts) stdin_both ++
  flat_map (stdout_stderr_rules opts) stdout_stderr_both ++ pid_rules self.

Section SetUp.
Context {W : Type}.
Variable kernel : forall A, sys A -> W -> W * A.

Lemma construct_loc (s s' : proc W Sandbox) u : loc s = empty_sandbox -> construct kernel s = (s', Ok u) ->
  loc s' = mkSandbox 0 static_callbacks [] (static_rules X86) (static_rules X86_64)
             [(X86, ACT_TRACE 0); (X86_64, ACT_TRACE 0)] [] (-1) 0.
Proof.
  intros H0 E.
  assert (exists f, tracks (construct kernel) f /\ (f empty_sandbox).1 =
    mkSandbox 0 static_callbacks [] (static_rules X86) (static_rules X86_64)
      [(X86, ACT_TRACE 0); (X86_64, ACT_TRACE 0)] [] (-1) 0) as (f & Hf & Ef).
  { eexists. split; [unfold construct; track|vm_compute; reflexivity]. }
  apply Hf in E. rewrite H0 in E. by rewrite <- Ef, <- E.
Qed.

(** The object in the child after the rules that depend on the options and on the
    process have been added to the one the constructor made. *)
Lemma tracee_loc (s1 s2 s3 s4 : proc W Sandbox) u v w opts :
  loc s1 = empty_sandbox -> construct kernel s1 = (s2, Ok u) ->
  install_opts_rules kernel opts s2 = (s3, Ok v) -> install_pid_rules kernel s3 = (s4, Ok w) ->
  callbacks_ (loc s4) = static_callbacks /\
  forall a, ctx_of a (loc s4) = all_rules a opts (u64 (tracee_pid_ (loc s4))).
Proof.
  intros H0 E1 E2 E3. apply (construct_loc _ _ _ H0) in E1.
  unfold install_pid_rules in E3. apply stm_bind_Ok in E3 as (s5 & pid & E4 & E3).
  assert (loc s5 = loc s3) as E5 by (unfold request in E4; destruct (kernel _ _ _); by simplify_eq).
  evar (f : Sandbox -> Sandbox * unit). evar (g : Sandbox -> Sandbox * unit).
  assert (Hf : tracks (install_opts_rules kernel opts) f) by (subst f; unfold install_opts_rules; track).
  match type of E3 with ?m s5 = _ => assert (Hg : tracks m g) by (subst g; track) end.
  apply Hf in E2. apply Hg in E3. rewrite E1 in E2.
  assert (loc s3 = (f (loc s2)).1) as F3 by (by rewrite E1, <- E2).
  assert (loc s4 = (g (loc s5)).1) as F4 by (by rewrite <- E3).
  rewrite E5, F3, E1 in F4. rewrite F4. subst f g. split; [cbv -[u64 Z.ltb]; reflexivity|].
  intros []; cbv -[u64 Z.ltb]; reflexivity.
Qed.

End SetUp.

(** ** Rules as a policy *)

Definition rules_for (name : string) (rules : list rule) : list rule :=
  List.filter (fun r => bool_decide (rule_syscall r = name)) rules.

Definition cmps_hold (args : list Z) (r : rule) : bool := forallb (cmp_holds args) (rule_cmps r).

Section Policy.
Context (eval : list rule -> action -> string -> list Z -> action) `{Seccomp_filter eval}.
Variables (rules : list rule) (name : string) (args : list Z).

(** All the rules for the call that match it have the action [act], and there is
    one. *)
Definition decides (rs : list rule) (act : action) : Prop :=
  existsb (cmps_hold args) rs = true /\
  Forall (fun r => cmps_hold args r = true -> rule_action r = act) rs.

Lemma existsb_rules_for : existsb (rule_matches name args) rules = existsb (cmps_hold args) (rules_for name rules).
Proof.
  clear H. induction rules as [|r rs IH]; [done|]. cbn [existsb rules_for List.filter].
  unfold rule_matches at 1. fold (cmps_hold args r). fold (rules_for name rs).
  destruct (bool_decide _); cbn [existsb andb orb]; by rewrite IH.
Qed.

Lemma eval_decides rs act : rules_for name rules = rs -> decides rs act -> eval rules ACT_TRAP name args = act.
Proof.
  intros <- [H1 H2]. apply eval_agree; [by rewrite existsb_rules_for|].
  intros r Hr Hm. unfold rule_matches in Hm. apply andb_true_iff in Hm as [E Hm].
  rewrite Forall_forall in H2. apply H2; [|done]. apply list_elem_of_In, filter_In. split; [by apply list_elem_of_In|done].
Qed.

Lemma eval_trap : rules_for name rules = [] -> eval rules ACT_TRAP name args = ACT_TRAP.
Proof. intros E. apply eval_default. by rewrite existsb_rules_for, E. Qed.

Lemma decides_plain act : decides [plain act name] act.
Proof. split; [done|]. by repeat constructor. Qed.

(** A rule that is added twice. *)
Lemma decides_plain_twice act : decides [plain act name; plain act name] act.
Proof. split; [done|]. by repeat constructor. Qed.

End Policy.

(** The three shapes of rules on a descriptor, and the rules on a process. *)

Ltac case_cmps :=
  unfold decides, cmps_hold, A0; cbn;
  repeat case_goal; repeat constructor; cbn; intros; bools; try congruence; try lia.

Lemma decides_std opts x a0 rest : 0 <= a0 ->
  decides (a0 :: rest) (std_rules opts x)
    (if a0 =? 0 then fd_action (new_stdin_fd opts) x.2
     else if a0 =? 1 then fd_action (new_stdout_fd opts) x.2
     else if a0 =? 2 then fd_action (new_stderr_fd opts) x.2 else ACT_ALLOW).
Proof. intros H0. case_cmps. Qed.

Lemma decides_stdin opts x a0 rest : 0 <= a0 ->
  decides (a0 :: rest) (stdin_rules opts x)
    (if a0 =? 0 then fd_action (new_stdin_fd opts) x.2 else ACT_ALLOW).
Proof. intros H0. case_cmps. Qed.

Lemma decides_stdout_stderr opts x a0 rest : 0 <= a0 ->
  decides (a0 :: rest) (stdout_stderr_rules opts x)
    (if a0 =? 1 then fd_action (new_stdout_fd opts) x.2
     else if a0 =? 2 then fd_action (new_stderr_fd opts) x.2 else ACT_ALLOW).
Proof. intros H0. case_cmps. Qed.

Lemma decides_kill self a0 rest :
  decides (a0 :: rest)
    [mkRule ACT_ALLOW "kill" [mkCmp 0 CMP_EQ self]; mkRule (ACT_ERRNO EPERM) "kill" [mkCmp 0 CMP_NE self]]
    (if a0 =? self then ACT_ALLOW else ACT_ERRNO EPERM).
Proof. case_cmps. Qed.

Lemma decides_tgkill self a0 a1 rest :
  decides (a0 :: a1 :: rest)
    [mkRule ACT_ALLOW "tgkill" [mkCmp 0 CMP_EQ self; mkCmp 1 CMP_EQ self];
     mkRule (ACT_ERRNO EPERM) "tgkill" [mkCmp 0 CMP_NE self];
     mkRule (ACT_ERRNO EPERM) "tgkill" [mkCmp 0 CMP_EQ self; mkCmp 1 CMP_NE self]]
    (if (a0 =? self) && (a1 =? self) then ACT_ALLOW else ACT_ERRNO EPERM).
Proof. case_cmps. Qed.

(** A descriptor's action and its verdict. *)
Lemma fd_action_realises cbs new_fd errnum :
  realises cbs (fd_action new_fd errnum) (if 0 <=? new_fd then FailWith errnum else Allow).
Proof. unfold fd_action. destruct (Z.ltb_spec new_fd 0), (Z.leb_spec 0 new_fd); done || lia. Qed.

Lemma fd_policy_std cbs opts errnum a0 : 0 <= a0 ->
  realises cbs
    (if a0 =? 0 then fd_action (new_stdin_fd opts) errnum
     else if a0 =? 1 then fd_action (new_stdout_fd opts) errnum
     else if a0 =? 2 then fd_action (new_stderr_fd opts) errnum else ACT_ALLOW)
    (fd_policy opts [STDIN_FILENO; STDOUT_FILENO; STDERR_FILENO] errnum a0).
Proof.
  intros H0. unfold fd_policy, guarded_fd, fd_action, STDIN_FILENO, STDOUT_FILENO, STDERR_FILENO.
  destruct (Z.eqb_spec a0 0) as [->|]; [exact (fd_action_realises cbs _ errnum)|].
  destruct (Z.eqb_spec a0 1) as [->|]; [exact (fd_action_realises cbs _ errnum)|].
  destruct (Z.eqb_spec a0 2) as [->|]; [exact (fd_action_realises cbs _ errnum)|].
  rewrite bool_decide_eq_false_2 by set_solver. done.
Qed.

Lemma fd_policy_stdin cbs opts errnum a0 : 0 <= a0 ->
  realises cbs (if a0 =? 0 then fd_action (new_stdin_fd opts) errnum else ACT_ALLOW)
    (fd_policy opts [STDIN_FILENO] errnum a0).
Proof.
  intros H0. unfold fd_policy, guarded_fd, fd_action, STDIN_FILENO.
  destruct (Z.eqb_spec a0 0) as [->|]; [exact (fd_action_realises cbs _ errnum)|].
  rewrite bool_decide_eq_false_2 by set_solver. done.
Qed.

Lemma fd_policy_stdout_stderr cbs opts errnum a0 : 0 <= a0 ->
  realises cbs
    (if a0 =? 1 then fd_action (new_stdout_fd opts) errnum
     else if a0 =? 2 then fd_action (new_stderr_fd opts) errnum else ACT_ALLOW)
    (fd_policy opts [STDOUT_FILENO; STDERR_FILENO] errnum a0).
Proof.
  intros H0. unfold fd_policy, guarded_fd, fd_action, STDIN_FILENO, STDOUT_FILENO, STDERR_FILENO.
  destruct (Z.eqb_spec a0 1) as [->|]; [exact (fd_action_realises cbs _ errnum)|].
  destruct (Z.eqb_spec a0 2) as [->|]; [exact (fd_action_realises cbs _ errnum)|].
  rewrite bool_decide_eq_false_2 by set_solver. done.
Qed.

(** ** Every system call *)

Definition known_names (a : arch) : list string :=
  map rule_syscall (all_rules a default_options 0).

Lemma known_names_all a opts self : map rule_syscall (all_rules a opts self) = known_names a.
Proof. destruct a; reflexivity. Qed.

Lemma rules_for_unknown a opts self name : name ∉ known_names a -> rules_for name (all_rules a opts self) = [].
Proof.
  rewrite <- (known_names_all a opts self). intros Hn. unfold rules_for.
  induction (all_rules a opts self) as [|r rs IH]; [done|]. cbn.
  rewrite bool_decide_eq_false_2 by (intros E; apply Hn; rewrite <- E; left).
  apply IH. intros Hin. apply Hn. by right.
Qed.

Lemma known_by_check (a : arch) (l : list string) name :
  forallb (fun n => bool_decide (n ∈ known_names a)) l = true -> name ∉ known_names a -> name ∉ l.
Proof.
  intros Hl Hn Hin. rewrite forallb_forall in Hl. apply list_elem_of_In, Hl in Hin.
  by apply bool_decide_eq_true in Hin.
Qed.

Lemma policy_unknown a opts self name a0 a1 : name ∉ known_names a -> policy a opts self name a0 a1 = Trap.
Proof.
  intros Hn. unfold policy.
  assert (Hl : forall l, forallb (fun n => bool_decide (n ∈ known_names a)) l = true -> name ∉ l)
    by (intros l Hl; exact (known_by_check a l name Hl Hn)).
  assert (He : forall x, forallb (fun n => bool_decide (n ∈ known_names a)) [x] = true -> name <> x).
  { intros x Hx ->. apply (Hl [x] Hx). left. }
  rewrite !(decide_False (P := name ∈ _)) by (apply Hl; destruct a; vm_compute; reflexivity).
  rewrite !(decide_False (P := name = _)) by (apply He; destruct a; vm_compute; reflexivity).
  unfold std_errno. destruct (List.find _ _) as [p|] eqn:E; [|done]. exfalso.
  apply List.find_some in E as [Hin E]. apply bool_decide_eq_true in E. apply list_elem_of_In in Hin.
  apply (Hl (map fst ((if decide (a = X86) then std_x86 else []) ++ std_both)));
    [destruct a; vm_compute; reflexivity|]. rewrite <- E. by apply list_elem_of_fmap_2.
Qed.

(** The verdict on a name that has rules, by the shape of its rules. *)
Ltac decide_policy ev :=
  match goal with |- realises _ (ev (all_rules ?a ?opts ?self) _ ?n (?a0 :: ?a1 :: ?rest)) (policy _ _ _ _ _ _) =>
    let v := eval cbv -[fd_policy Z.eqb EBADF ESPIPE EPERM ENOENT lit] in (policy a opts self n a0 a1) in
    change (policy a opts self n a0 a1) with v;
    let rs := eval cbv -[fd_action Z.eqb EBADF ESPIPE EPERM ENOENT new_stdin_fd new_stdout_fd new_stderr_fd] in
      (rules_for n (all_rules a opts self)) in
    first
      [ first
          [ rewrite (eval_decides ev (all_rules a opts self) n (a0 :: a1 :: rest) rs _ eq_refl
                      (decides_plain n (a0 :: a1 :: rest) _))
          | rewrite (eval_decides ev (all_rules a opts self) n (a0 :: a1 :: rest) rs _ eq_refl
                      (decides_plain_twice n (a0 :: a1 :: rest) _)) ];
        solve [reflexivity | eexists; split; reflexivity]
      | erewrite (eval_decides ev (all_rules a opts self) n (a0 :: a1 :: rest) rs _ eq_refl);
        [|first [apply (decides_std opts (n, _)); assumption | apply (decides_stdin opts (n, _)); assumption
                |apply (decides_stdout_stderr opts (n, _)); assumption | apply decides_kill | apply decides_tgkill]];
        first [apply fd_policy_std; assumption | apply fd_policy_stdin; assumption
              |apply fd_policy_stdout_stderr; assumption
              |destruct (a0 =? self), (a1 =? self); reflexivity ] ]
  end.

Lemma all_rules_policy ev `{Seccomp_filter ev} a opts self name a0 a1 rest : 0 <= a0 ->
  realises static_callbacks (ev (all_rules a opts self) ACT_TRAP name (a0 :: a1 :: rest))
    (policy a opts self name a0 a1).
Proof.
  intros H0. destruct (decide (name ∈ known_names a)) as [Hin|Hn].
  2: { rewrite policy_unknown by done. apply eval_trap; [done|]. by apply rules_for_unknown. }
  apply elem_of_remove_dups in Hin. revert name Hin. rewrite <- Forall_forall.
  destruct a; match goal with |- Forall _ ?l => let v := eval vm_compute in l in change l with v end;
    repeat constructor; decide_policy ev.
Qed.

(** C4: The filter of the sandbox, as built by the constructor and completed in
    the child, does to every system call of either architecture what [policy]
    says, whichever of the matching rules libseccomp prefers: only the listed
    calls are made, [kill] and [tgkill] reach only the process itself, the
    standard descriptors are guarded, opening files, [execve], [prlimit64] and
    the calls that change the size of memory go to their callbacks, a call on
    another architecture goes to the callback that reports it, and everything
    else traps. *)
Theorem sandbox_filter_policy (W : Type) (kernel : forall A, sys A -> W -> W * A) ev `{Seccomp_filter ev}
    (s1 s2 s3 s4 : proc W Sandbox) u v w opts a name a0 a1 rest :
  loc s1 = empty_sandbox ->
  construct kernel s1 = (s2, Ok u) ->
  install_opts_rules kernel opts s2 = (s3, Ok v) ->
  install_pid_rules kernel s3 = (s4, Ok w) ->
  0 <= a0 ->
  realises (callbacks_ (loc s4)) (ev (ctx_of a (loc s4)) ACT_TRAP name (a0 :: a1 :: rest))
    (policy a opts (u64 (tracee_pid_ (loc s4))) name a0 a1) /\
  (forall b, (b, ACT_TRACE 0) ∈ badarch_ (loc s2)) /\
  callbacks_ (loc s2) !! 0%nat = Some (SyscallCallbackLambda InvalidArch).
Proof.
  intros H0 E1 E2 E3 Ha. destruct (tracee_loc kernel _ _ _ _ _ _ _ _ H0 E1 E2 E3) as [-> Ec].
  rewrite Ec. split; [by apply all_rules_policy|].
  rewrite (construct_loc kernel _ _ _ H0 E1). split; [intros []; set_solver|done].
Qed.

(** A kernel on which everything succeeds. *)
Definition quiet_kernel (A : Type) (c : sys A) (w : unit) : unit * A :=
  (w, match c in sys B return B with
      | Pipe2 => Some (3, 4)
      | Fork => Some 100
      | Waitid _ _ => Some (mkSi SIGCHLD CLD_EXITED 0, [])
      | Read _ _ => None
      | DoInParentAfterFork _ => None
      | ClockGetcpuclockid _ => Some 2
      | ClockGettime _ => Some (Time.mkTimespec 0 0)
      | Sigaction _ => true
      | TimerCreate _ _ _ => Some 1
      | TimerSettime _ t => Some t
      | TimerDelete _ => true
      | Signals => []
      | PtraceSetoptions _ => true
      | PtraceCont _ _ => true
      | PtraceSyscall _ => true
      | PtraceGetsiginfo _ => None
      | PtraceGeteventmsg _ => None
      | PtraceGetregs32 _ => None
      | PtraceSetregs32 _ _ => true
      | PtraceGetregs64 _ => None
      | PtraceSetregs64 _ _ => true
      | PtracePeekuser _ => 0
      | ProcessVmReadv _ _ _ => None
      | OpenStatm _ => Some 5
      | Pread _ _ _ => Some (lit "10 5")
      | SysconfPagesize => 4096
      | SyscallResolve _ _ => None
      | SeccompArchNative => Some X86_64
      | Opendir _ => inr 6
      | Readdir _ => inr None
      | Getpid => 100
      | Execvp _ _ => None
      | Close _ | Kill _ _ | Pause | Closedir _ | SigpipeDefault | WriteAll _ _ => tt
      | Seccomp _ | Setpgid | Chdir _ | Setrlimit _ _ | Prlimit _ _ | Dup2 _ _ | PtraceTraceme
      | Sigprocmask => 0
      end).

Definition built : proc unit Sandbox := (construct quiet_kernel (mkProc empty_sandbox [] tt [])).1.
Definition built_opts : proc unit Sandbox := (install_opts_rules quiet_kernel default_options built).1.
Definition built_pid : proc unit Sandbox := (install_pid_rules quiet_kernel built_opts).1.

Lemma sandbox_filter_policy_witness :
  realises (callbacks_ (loc built_pid))
    (first_match (ctx_of X86_64 (loc built_pid)) ACT_TRAP "kill" [1; 9; 0; 0; 0; 0]) (FailWith EPERM) /\
  realises (callbacks_ (loc built_pid))
    (first_match (ctx_of X86 (loc built_pid)) ACT_TRAP "socket" [2; 1; 0; 0; 0; 0]) Trap.
Proof.
  split.
  - refine (proj1 (sandbox_filter_policy unit quiet_kernel first_match (mkProc empty_sandbox [] tt [])
      built built_opts built_pid tt tt tt default_options X86_64 "kill" 1 9 [0; 0; 0; 0] _ _ _ _ _));
      vm_compute; congruence.
  - refine (proj1 (sandbox_filter_policy unit quiet_kernel first_match (mkProc empty_sandbox [] tt [])
      built built_opts built_pid tt tt tt default_options X86 "socket" 2 1 [0; 0; 0; 0] _ _ _ _ _));
      vm_compute; congruence.
Defined.

(** The guards of the standard descriptors compare the whole 64-bit register,
    of which the kernel takes the lower half for an [int]: a program that sets a
    bit above writes to its standard input. *)
Theorem guard_ignores_upper_bits ev `{Seccomp_filter ev} opts self rest :
  0 <= new_stdin_fd opts ->
  ev (all_rules X86_64 opts self) ACT_TRAP "write" (2 ^ 32 :: rest) = ACT_ALLOW /\
  to_int (2 ^ 32) = STDIN_FILENO /\
  ev (all_rules X86_64 opts self) ACT_TRAP "write" (STDIN_FILENO :: rest) = ACT_ERRNO EBADF.
Proof.
  intros Hfd.
  assert (forall a0, 0 <= a0 -> ev (all_rules X86_64 opts self) ACT_TRAP "write" (a0 :: rest) =
    if a0 =? 0 then fd_action (new_stdin_fd opts) EBADF else ACT_ALLOW) as E.
  { intros a0 H0.
    apply (eval_decides ev (all_rules X86_64 opts self) "write" (a0 :: rest) (stdin_rules opts ("write"%string, EBADF)));
      [reflexivity|by apply (decides_stdin opts ("write"%string, EBADF))]. }
  rewrite !E by done. split_and!; [done|done|].
  unfold fd_action. destruct (Z.ltb_spec (new_stdin_fd opts) 0); [lia|done].
Qed.
