(* ===== verification/SandboxMonitor.v ===== *)
(** * A reference monitor for sandboxed runs

    What [Sandbox::run] promises about the process it traces, as an automaton
    that reads the requests of a run and their answers in order.  It keeps what a
    policy has to know - how often a limited call was made, the greatest size of
    the process, which timers ran out - and what is still due for the event at
    which the process is stopped.  A run violates the policy when the process is
    let go on ([PTRACE_CONT], [PTRACE_SYSCALL]) while something is due.

    The automaton knows nothing of the sandbox's own variables; [SandboxProofs.v]
    shows that no run of [run_sandboxed] violates it and that the result of the
    run says what the automaton has seen. *)

From Stdlib Require Import ZArith Lia.
From S2P Require Import Prelude.
From S2P Require Import Floats.
From S2P Require Import Time.
From S2P Require Import Seccomp.
From S2P Require Import Os.
From S2P Require Import Spawner.
From S2P Require Import Sandbox.
Local Open Scope Z_scope.

(** What has to happen before the traced process may go on. *)
Inductive due :=
| Nothing
| Inspect (openat : bool)                (* read the registers of an opening call *)
| ReadPath (flags : Z)                   (* read the path it was given *)
| Deny                                   (* make the call fail *)
| MustDie.                               (* kill the process *)

(** Inside a call that changes the size of memory: waiting for its end, then for
    the new size. *)
Inductive memory_phase := Outside | Waiting (id : nat) | Measuring (id : nat).

Record monitor := mkMonitor {
  m_pid : Z;
  m_si : siginfo;                        (* the last event *)
  m_due : due;
  m_memory : memory_phase;
  m_count : gmap nat Z;                  (* what each callback has counted *)
  m_last : nat;                          (* the callback of the last event *)
  m_peak : Z;                            (* the greatest size since execve() *)
  m_exec : bool;                         (* the next size is the first one since execve() *)
  m_sigsys : sigsys_info;
  m_message : str;                       (* why the process has to die *)
  m_timers : list nat;                   (* the timers of the run *)
  m_fired : list nat                     (* the timers that ran out *)
}.

Definition monitor_start : monitor :=
  mkMonitor (-1) (mkSi 0 0 0) Nothing Outside ∅ 0 0 false (mkSigsys 0 0 0) [] [] [].

Definition with_due (d : due) (m : monitor) : monitor :=
  mkMonitor (m_pid m) (m_si m) d (m_memory m) (m_count m) (m_last m) (m_peak m) (m_exec m)
    (m_sigsys m) (m_message m) (m_timers m) (m_fired m).
Definition with_memory (p : memory_phase) (m : monitor) : monitor :=
  mkMonitor (m_pid m) (m_si m) (m_due m) p (m_count m) (m_last m) (m_peak m) (m_exec m)
    (m_sigsys m) (m_message m) (m_timers m) (m_fired m).
Definition with_pid (pid : Z) (m : monitor) : monitor :=
  mkMonitor pid (m_si m) (m_due m) (m_memory m) (m_count m) (m_last m) (m_peak m) (m_exec m)
    (m_sigsys m) (m_message m) (m_timers m) (m_fired m).
Definition with_si (si : siginfo) (m : monitor) : monitor :=
  mkMonitor (m_pid m) si (m_due m) (m_memory m) (m_count m) (m_last m) (m_peak m) (m_exec m)
    (m_sigsys m) (m_message m) (m_timers m) (m_fired m).
Definition with_count (id : nat) (n : Z) (m : monitor) : monitor :=
  mkMonitor (m_pid m) (m_si m) (m_due m) (m_memory m) (<[id := n]> (m_count m)) (m_last m) (m_peak m)
    (m_exec m) (m_sigsys m) (m_message m) (m_timers m) (m_fired m).
Definition with_last (id : nat) (m : monitor) : monitor :=
  mkMonitor (m_pid m) (m_si m) (m_due m) (m_memory m) (m_count m) id (m_peak m) (m_exec m)
    (m_sigsys m) (m_message m) (m_timers m) (m_fired m).
Definition with_peak (peak : Z) (exec : bool) (m : monitor) : monitor :=
  mkMonitor (m_pid m) (m_si m) (m_due m) (m_memory m) (m_count m) (m_last m) peak exec
    (m_sigsys m) (m_message m) (m_timers m) (m_fired m).
Definition with_sigsys (sii : sigsys_info) (m : monitor) : monitor :=
  mkMonitor (m_pid m) (m_si m) (m_due m) (m_memory m) (m_count m) (m_last m) (m_peak m) (m_exec m)
    sii (m_message m) (m_timers m) (m_fired m).
Definition with_message (msg : str) (m : monitor) : monitor :=
  mkMonitor (m_pid m) (m_si m) (m_due m) (m_memory m) (m_count m) (m_last m) (m_peak m) (m_exec m)
    (m_sigsys m) msg (m_timers m) (m_fired m).
Definition with_timers (ts : list nat) (m : monitor) : monitor :=
  mkMonitor (m_pid m) (m_si m) (m_due m) (m_memory m) (m_count m) (m_last m) (m_peak m) (m_exec m)
    (m_sigsys m) (m_message m) ts (m_fired m).
Definition with_fired (ts : list nat) (m : monitor) : monitor :=
  mkMonitor (m_pid m) (m_si m) (m_due m) (m_memory m) (m_count m) (m_last m) (m_peak m) (m_exec m)
    (m_sigsys m) (m_message m) (m_timers m) ts.

Definition must_die (msg : str) (m : monitor) : monitor := with_due MustDie (with_message msg m).

(** A time limit has passed. *)
Definition timed_out (m : monitor) : bool := existsb (fun t => bool_decide (t ∈ m_fired m)) (m_timers m).

Definition die_if_timed_out (m : monitor) : monitor := if timed_out m then with_due MustDie m else m.

(** The events of the tracing itself; any other stop means that a signal is about
    to reach the process. *)
Definition is_signal_stop (si : siginfo) : bool :=
  (si_code si =? CLD_TRAPPED) && negb (si_status si =? EXEC_STOP) &&
  negb (si_status si =? SECCOMP_STOP) && negb (si_status si =? SYSCALL_STOP).

(** The process has stopped or died.  A timeout is enforced at the next stop for a
    signal ([SIGSYS] is looked into first). *)
Definition on_event (si : siginfo) (m : monitor) : monitor :=
  let m := with_si si m in
  let m := if (si_code si =? CLD_TRAPPED) && (si_status si =? EXEC_STOP)
           then with_timers [] (with_peak (m_peak m) true m) else m in
  if is_signal_stop si && negb (si_status si =? SIGSYS) then die_if_timed_out m else m.

(** The policy: the callbacks that filter rules name, as the constructor makes
    them, and the files that may be opened. *)
Section Monitor.
Variable callbacks : list SyscallCallback.
Variable allowed_files : list AllowedFile.

Definition counted (id : nat) (m : monitor) : Z := default 0 (m_count m !! id).

(** The process asks for what callback [id] stands for. *)
Definition on_callback (id : nat) (m : monitor) : monitor :=
  let m := with_last id m in
  match callbacks !! id with
  | None => m
  | Some (SyscallCallbackLimiting limit _ name) =>
      if counted id m <? limit then with_count id (counted id m + 1) m
      else must_die (lit "forbidden syscall: " ++ name) m
  | Some (SyscallCallbackVmPeakUpdater _) => m
  | Some (SyscallCallbackLambda InvalidArch) => must_die (lit "Invalid architecture of the syscall") m
  | Some (SyscallCallbackLambda (ExitCallback | ExitGroupCallback)) => m
  | Some (SyscallCallbackLambda (OpenCallback _)) => with_due (Inspect false) m
  | Some (SyscallCallbackLambda (OpenatCallback _)) => with_due (Inspect true) m
  end.

(** The size of the process.  At the end of a call that changes it, a size equal
    to the greatest one counts as a failed allocation; 1024 of them in a row are
    too many. *)
Definition on_size (size : Z) (m : monitor) : monitor :=
  match m_memory m with
  | Measuring id =>
      let m := with_memory Outside m in
      if size =? m_peak m then
        let n := (counted id m + 1) mod 2 ^ 32 in
        let m := with_count id n m in
        if n =? FAIL_COUNTER_LIMIT then must_die (lit "Memory limit exceeded") m else m
      else with_peak (Z.max (m_peak m) size) (m_exec m) (with_count id 0 m)
  | _ => if m_exec m then with_peak size false m else with_peak (Z.max (m_peak m) size) false m
  end.

Definition on_registers (dirfd flags_at flags : Z) (m : monitor) : monitor :=
  match m_due m with
  | Inspect true => if to_int dirfd =? AT_FDCWD then with_due (ReadPath flags_at) m else with_due Deny m
  | Inspect false => with_due (ReadPath flags) m
  | _ => m
  end.

(** The path the process wants to open, if the [data] read hold its end. *)
Definition path_allowed (data : option str) (flags : Z) : bool :=
  match data with
  | None => false
  | Some data =>
      let path := up_to_nul data in
      negb (Nat.eqb (length path) (length data)) && may_open allowed_files path (access_of flags)
  end.

Definition on_path (data : option str) (m : monitor) : monitor :=
  match m_due m with
  | ReadPath flags => with_due (if path_allowed data flags then Nothing else Deny) m
  | _ => m
  end.

(** The call is made to fail: its number becomes -1. *)
Definition on_denied (ok : bool) (nr width : Z) (m : monitor) : monitor :=
  match m_due m with
  | Deny => if ok && (nr =? 2 ^ width - 1) then with_due Nothing m else m
  | _ => m
  end.

Definition on_kill (pid sig : Z) (m : monitor) : monitor :=
  match m_due m with
  | MustDie => if (pid =? - m_pid m) && (sig =? SIGKILL) then with_due Nothing m else m
  | _ => m
  end.

Definition resume (m : monitor) : option monitor :=
  match m_due m with Nothing => Some m | _ => None end.

Definition on_sigsys_info (sii : sigsys_info) (m : monitor) : monitor :=
  let m := with_sigsys sii m in
  if sys_code sii =? SYS_SECCOMP then with_due MustDie m
  else if is_signal_stop (m_si m) then die_if_timed_out m else m.

Definition timer_signals (l : list (Z * nat)) : list nat :=
  map snd (List.filter (fun p => p.1 =? SI_TIMER) l).

(** One request and its answer; [None]: the policy is violated. *)
Definition monitor_step (m : monitor) (e : entry) : option monitor :=
  match e with
  | @Did _ c a =>
      match c in sys A return A -> option monitor with
      | Fork => fun a => Some (match a with Some pid => with_pid pid m | None => m end)
      | Waitid _ options => fun a =>
          match a, m_memory m with
          | None, Waiting id => Some (with_memory (Measuring id) m)
          | Some _, Waiting id => Some (with_memory (Measuring id) m)
          | None, _ => Some (on_event (m_si m) m)
          | Some (si, _), _ => Some (on_event si m)
          end
      | Kill pid sig => fun _ => Some (on_kill pid sig m)
      | PtraceSetoptions _ => fun _ => Some (with_peak 0 false m)
      | TimerCreate _ _ t => fun a =>
          Some (match a with Some _ => with_timers (t :: m_timers m) m | None => m end)
      | Signals => fun a => Some (with_fired (timer_signals a ++ m_fired m) m)
      | PtraceCont _ _ => fun _ => resume (with_memory Outside m)
      | PtraceSyscall _ => fun _ => resume (with_memory (Waiting (m_last m)) m)
      | PtraceGetsiginfo _ => fun a =>
          Some (match a with Some sii => on_sigsys_info sii m | None => m end)
      | SyscallResolve _ _ => fun a => Some (with_message (forbidden_message (m_sigsys m) a) m)
      | PtraceGeteventmsg _ => fun a =>
          Some (match a with Some id => on_callback (Z.to_nat id) m | None => m end)
      | PtraceGetregs32 _ => fun a =>
          Some (match a with Some r => on_registers (ebx r) (edx r) (ecx r) m | None => m end)
      | PtraceGetregs64 _ => fun a =>
          Some (match a with Some r => on_registers (rdi r) (rdx r) (rsi r) m | None => m end)
      | PtraceSetregs32 _ r => fun ok => Some (on_denied ok (orig_eax r) 32 m)
      | PtraceSetregs64 _ r => fun ok => Some (on_denied ok (orig_rax r) 64 m)
      | ProcessVmReadv _ _ _ => fun a => Some (on_path a m)
      | Pread _ _ _ => fun a =>
          Some (match a with
                | Some (ch :: data) =>
                    match parse_vm_size (ch :: data) with Ok size => on_size size m | _ => m end
                | _ => m
                end)
      | _ => fun _ => Some m
      end a
  end.

Definition monitor_run (t : list entry) : option monitor :=
  foldl (fun m e => m ≫= fun m => monitor_step m e) (Some monitor_start) t.

Lemma monitor_run_snoc t e : monitor_run (t ++ [e]) = monitor_run t ≫= fun m => monitor_step m e.
Proof. unfold monitor_run. by rewrite foldl_app. Qed.

End Monitor.
