(* ===== verification/SandboxProofs.v ===== *)
(** * Sandboxed runs keep to the policy

    No run of [run_sandboxed], whatever the kernel and the traced process do,
    violates the monitor of [SandboxMonitor.v], and the result of a run is what
    the monitor has seen.  The proof relates the sandbox's variables to the
    monitor's after every request. *)

From Stdlib Require Import ZArith Lia.
From S2P Require Import Prelude.
From S2P Require Import StringTransform.
From S2P Require Import Floats.
From S2P Require Import Time.
From S2P Require Import Seccomp.
From S2P Require Import Os.
From S2P Require Import Spawner.
From S2P Require Import Sandbox.
From S2P Require Import SandboxFilter.
From S2P Require Import SandboxMonitor.
Local Open Scope Z_scope.

Section Proofs.
Context {W : Type}.
Variable kernel : forall A, sys A -> W -> W * A.
Variable strsignal : Z -> str.
Variable allowed : list AllowedFile.

Abbreviation P := (proc W run_locals).
Abbreviation M := (stm (proc W run_locals)).
Abbreviation call := (call kernel).
Abbreviation ctxs_t := (list SignalHandlerContext).

(** ** Triples

    [E] holds when the computation is left by an exception, by undefined
    behaviour or for lack of fuel. *)

Definition hoare {A} (Pre : P -> Prop) (m : M A) (Q : A -> P -> Prop) (E : P -> Prop) : Prop :=
  forall s, Pre s -> match m s with (s', Ok a) => Q a s' | (s', _) => E s' end.

Lemma hoare_ret {A} Pre (a : A) E : hoare Pre (mret a) (fun b s => b = a /\ Pre s) E.
Proof. by intros s Hs. Qed.

Lemma hoare_bind {A B} Pre (m : M A) (k : A -> M B) Q R E :
  hoare Pre m Q E -> (forall a, hoare (Q a) (k a) R E) -> hoare Pre (m ≫= k) R E.
Proof.
  intros Hm Hk s Hs. specialize (Hm s Hs). unfold mbind, stm_bind.
  destruct (m s) as [s' [a|e| |]]; try done. by apply Hk.
Qed.

Lemma hoare_conseq {A} (Pre Pre' : P -> Prop) (m : M A) (Q Q' : A -> P -> Prop) E :
  hoare Pre m Q E -> (forall s, Pre' s -> Pre s) -> (forall a s, Q a s -> Q' a s) -> hoare Pre' m Q' E.
Proof. intros Hm HP HQ s Hs. specialize (Hm s (HP s Hs)). destruct (m s) as [s' []]; auto. Qed.

Lemma hoare_pre {A} (Pre Pre' : P -> Prop) (m : M A) Q E :
  (forall s, Pre' s -> Pre s) -> hoare Pre m Q E -> hoare Pre' m Q E.
Proof. intros HP Hm. by eapply hoare_conseq. Qed.

Lemma hoare_ex {A X} (Pre : X -> P -> Prop) (m : M A) Q E :
  (forall x, hoare (Pre x) m Q E) -> hoare (fun s => exists x, Pre x s) m Q E.
Proof. intros Hm s [x Hs]. exact (Hm x s Hs). Qed.

Lemma hoare_pure {A} (X : Prop) Pre (m : M A) Q E :
  (X -> hoare Pre m Q E) -> hoare (fun s => X /\ Pre s) m Q E.
Proof. intros Hm s [x Hs]. exact (Hm x s Hs). Qed.

Lemma hoare_gets {A B} (Pre : P -> Prop) (f : P -> A) (k : A -> M B) Q E :
  (forall a, hoare (fun s => Pre s /\ f s = a) (k a) Q E) -> hoare Pre (gets f ≫= k) Q E.
Proof. intros Hk s Hs. exact (Hk (f s) s (conj Hs eq_refl)). Qed.

(** ** What the monitor knows and what the sandbox knows *)

Abbreviation mon := (monitor_run static_callbacks allowed).

(** A predicate of the monitor, the variables and the handler contexts. *)
Abbreviation pred := (monitor -> run_locals -> ctxs_t -> Prop).

Definition at_ (R : pred) (s : P) : Prop :=
  exists m, mon (trace s) = Some m /\ R m (loc s) (contexts s).

(** What holds at any moment, also when an exception passes. *)
Record base (m : monitor) (l : run_locals) (ctxs : ctxs_t) : Prop := {
  base_pid : m_pid m = tracee_pid_ (sandbox l);
  base_peak : m_peak m = tracee_vm_peak_ (sandbox l);
  base_message : m_message m = message_to_set_in_exit_stat_ (sandbox l)
}.

Definition E : P -> Prop := at_ base.

(** The delivery of signals: the timers that fire are recorded on both sides. *)
Definition marked (fired : list nat) (ctxs ctxs' : ctxs_t) : Prop :=
  length ctxs' = length ctxs /\
  (forall i, i ∈ fired -> (i < length ctxs)%nat) /\
  forall i c, ctxs !! i = Some c ->
    ctxs' !! i = Some (if bool_decide (i ∈ fired) then mark_sent c else c).

Definition due_after (d d' : due) : Prop := d' = d \/ d = MustDie /\ d' = Nothing.

Lemma due_after_trans d1 d2 d3 : due_after d1 d2 -> due_after d2 d3 -> due_after d1 d3.
Proof. unfold due_after. intuition congruence. Qed.

Definition delivered (m : monitor) (ctxs : ctxs_t) (m' : monitor) (ctxs' : ctxs_t) : Prop :=
  exists fired d, m' = with_due d (with_fired (fired ++ m_fired m) m) /\
    due_after (m_due m) d /\ marked fired ctxs ctxs'.

(** A predicate that the delivery of signals does not disturb. *)
Class Stable (R : pred) : Prop := {
  stable : forall m l ctxs m' ctxs', R m l ctxs -> delivered m ctxs m' ctxs' -> R m' l ctxs';
  stable_base : forall m l ctxs, R m l ctxs -> base m l ctxs
}.

Lemma at_E R `{Stable R} s : at_ R s -> E s.
Proof. intros (m & Hm & HR). exists m. split; [done|]. by apply stable_base. Qed.

Lemma at_conseq (R R' : pred) s : (forall m l ctxs, R m l ctxs -> R' m l ctxs) -> at_ R s -> at_ R' s.
Proof. intros Hi (m & Hm & HR). exists m. auto. Qed.

(** ** Requests *)

Lemma request_run {A} (c : sys A) (s : P) :
  exists w a, request kernel c s = (mkProc (loc s) (contexts s) w (trace s ++ [Did c a]), Ok a).
Proof. unfold request. destruct (kernel _ c (world s)) as [w a]. by exists w, a. Qed.

(** A predicate that does not depend on what signals change. *)
Class Robust (B : pred) : Prop :=
  robust m l ctxs d f ctxs' : B m l ctxs -> B (with_due d (with_fired f m)) l ctxs'.

Instance base_robust : Robust base.
Proof. by intros m l ctxs d f ctxs' []. Qed.

Lemma robust_due B `{Robust B} d m l ctxs ctxs' : B m l ctxs -> B (with_due d m) l ctxs'.
Proof. intros HB. apply (robust m l ctxs d (m_fired m) ctxs') in HB. by destruct m. Qed.

Lemma on_kill_due pid sig m : exists d, on_kill pid sig m = with_due d m /\
  due_after (m_due m) d.
Proof.
  unfold on_kill, due_after. destruct (m_due m) eqn:Hd; try (exists (m_due m); rewrite Hd; destruct m; cbn in *; subst; by auto).
  destruct (_ && _); [by exists Nothing; auto|].
  exists MustDie. destruct m; cbn in *; subst; by auto.
Qed.

Lemma with_due_twice d d' m : with_due d (with_due d' m) = with_due d m.
Proof. done. Qed.

Lemma marked_nil ctxs : marked [] ctxs ctxs.
Proof. split_and!; [done|by intros i Hi%not_elem_of_nil|]. intros i c Hc. done. Qed.

Lemma marked_cons i c fired ctxs ctxs' : ctxs !! i = Some c ->
  marked fired (alter mark_sent i ctxs) ctxs' -> marked (i :: fired) ctxs ctxs'.
Proof.
  intros Hi (Hlen & Hin & Hl). rewrite length_alter in Hlen, Hin. split_and!; [done|..].
  - intros j Hj. apply elem_of_cons in Hj as [->|Hj]; [by eapply lookup_lt_Some|by apply Hin].
  - intros j c' Hj. destruct (decide (j = i)) as [->|Hne].
    + simplify_eq. rewrite bool_decide_eq_true_2 by left.
      specialize (Hl i (mark_sent c)). rewrite list_lookup_alter_eq, Hi in Hl. specialize (Hl eq_refl).
      rewrite Hl. by destruct (bool_decide _).
    + rewrite (Hl j c') by (by rewrite list_lookup_alter_ne).
      f_equal. by rewrite (bool_decide_ext (j ∈ i :: fired) (j ∈ fired)) by set_solver.
Qed.

Lemma run_handlers_spec B `{Robust B} sigs : forall s m, mon (trace s) = Some m -> B m (loc s) (contexts s) ->
  match run_handlers kernel sigs s with
  | (s', Ok _) => loc s' = loc s /\ exists d, mon (trace s') = Some (with_due d m) /\
      due_after (m_due m) d /\ marked (timer_signals sigs) (contexts s) (contexts s')
  | (s', _) => at_ B s'
  end.
Proof.
  induction sigs as [|[code i] sigs IH]; intros s m Hm Hb.
  { cbn. split; [done|]. exists (m_due m). split_and!; [by destruct m|by left|apply marked_nil]. }
  cbn [run_handlers]. unfold timer_signals. cbn [List.filter fst].
  unfold timeout_handler. destruct (Z.eqb_spec code SI_TIMER) as [->|Hne]; cbn [negb map snd].
  2: { rewrite (stm_bind_run _ _ s s tt) by done. by apply IH. }
  destruct (contexts s !! i) as [c|] eqn:Hc.
  2: { unfold mbind, stm_bind, gets, lift. rewrite Hc. cbn. by exists m. }
  destruct (request_run (Kill (watched_pid c) (timeout_signal c)) s) as (w & a & Hr).
  set (s1 := mkProc (loc s) (alter mark_sent i (contexts s)) w (trace s ++ [Did (Kill (watched_pid c) (timeout_signal c)) a])).
  rewrite (stm_bind_run _ _ s s1 tt).
  2: { unfold mbind, stm_bind, gets, lift. rewrite Hc. cbn [get_or_ub]. by rewrite Hr. }
  destruct (on_kill_due (watched_pid c) (timeout_signal c) m) as (d & Hd & Hd').
  specialize (IH s1 (with_due d m)).
  assert (mon (trace s1) = Some (with_due d m)) as Hm1.
  { cbn [trace s1]. rewrite monitor_run_snoc, Hm. cbn. by rewrite Hd. }
  specialize (IH Hm1 (robust_due B d m _ _ _ Hb)).
  destruct (run_handlers kernel sigs s1) as [s' [u|e| |]]; [|done..].
  destruct IH as (Hl & d' & Hm' & Hd'' & Hmk). split; [done|]. exists d'. rewrite with_due_twice in Hm'.
  split_and!; [done|by eapply due_after_trans|]. by apply (marked_cons i c).
Qed.

(** A request: the state before it, after the signals, and the monitor's step. *)
Lemma call_robust {A} (c : sys A) (B R : pred) `{Robust B} :
  (forall m l ctxs m' ctxs', R m l ctxs -> delivered m ctxs m' ctxs' -> R m' l ctxs') ->
  (forall m l ctxs, R m l ctxs -> B m l ctxs) ->
  (forall m l ctxs a, R m l ctxs -> monitor_step static_callbacks allowed m (Did c a) <> None) ->
  hoare (at_ R) (call c)
    (fun a => at_ (fun m' l ctxs => exists m, R m l ctxs /\
                     monitor_step static_callbacks allowed m (Did c a) = Some m')) (at_ B).
Proof.
  intros Hst HRB Hstep s (m & Hm & HR). unfold call, Os.call.
  destruct (request_run Signals s) as (w & sigs & Hr). rewrite (stm_bind_run _ _ _ _ _ Hr).
  set (s1 := mkProc (loc s) (contexts s) w (trace s ++ [Did Signals sigs])).
  set (m1 := with_fired (timer_signals sigs ++ m_fired m) m).
  assert (mon (trace s1) = Some m1) as Hm1 by (cbn [trace s1]; by rewrite monitor_run_snoc, Hm).
  assert (B m1 (loc s1) (contexts s1)) as Hb1.
  { apply HRB, (robust _ _ _ (m_due m) (timer_signals sigs ++ m_fired m) (contexts s1)) in HR. by destruct m. }
  pose proof (run_handlers_spec B sigs s1 m1 Hm1 Hb1) as Hh.
  unfold mbind, stm_bind. destruct (run_handlers kernel sigs s1) as [s2 [u|e| |]]; [|done..].
  destruct Hh as (Hl & d & Hm2 & Hd & Hmk).
  assert (R (with_due d m1) (loc s2) (contexts s2)) as HR2.
  { rewrite Hl. eapply Hst; [exact HR|]. by exists (timer_signals sigs), d. }
  destruct (request_run c s2) as (w' & a & Hr'). rewrite Hr'.
  specialize (Hstep _ _ _ a HR2).
  destruct (monitor_step static_callbacks allowed (with_due d m1) (Did c a)) as [m'|] eqn:Es; [|done].
  exists m'. cbn [trace loc contexts]. split; [by rewrite monitor_run_snoc, Hm2|].
  by exists (with_due d m1).
Qed.

Lemma call_hoare {A} (c : sys A) R `{Stable R} :
  (forall m l ctxs a, R m l ctxs -> monitor_step static_callbacks allowed m (Did c a) <> None) ->
  hoare (at_ R) (call c)
    (fun a => at_ (fun m' l ctxs => exists m, R m l ctxs /\
                     monitor_step static_callbacks allowed m (Did c a) = Some m')) E.
Proof. apply call_robust; [apply _|apply stable|apply stable_base]. Qed.

Lemma call_conseq {A} (c : sys A) R (Q : A -> pred) : Stable R ->
  (forall m l ctxs a, R m l ctxs -> exists m',
     monitor_step static_callbacks allowed m (Did c a) = Some m' /\ Q a m' l ctxs) ->
  hoare (at_ R) (call c) (fun a => at_ (Q a)) E.
Proof.
  intros HR HQ. eapply hoare_conseq; [apply (call_hoare c R)|done|].
  - intros m l ctxs a Hm. destruct (HQ m l ctxs a Hm) as (m' & -> & _). done.
  - intros a s. apply at_conseq. intros m' l ctxs (m & Hm & Es).
    destruct (HQ m l ctxs a Hm) as (m'' & Es' & Hq). congruence.
Qed.

(** Requests that the monitor does not look at. *)
Definition neutral {A} (c : sys A) : Prop :=
  forall m a, monitor_step static_callbacks allowed m (Did c a) = Some m.

Lemma call_neutral {A} (c : sys A) R `{Stable R} : neutral c -> hoare (at_ R) (call c) (fun _ => at_ R) E.
Proof.
  intros Hc. apply call_conseq; [done|]. intros m l ctxs a Hm. exists m. by rewrite Hc.
Qed.

(** ** The invariant of the loop *)

(** A callback that has counted [n]. *)
Definition current (n : Z) (cb : SyscallCallback) : SyscallCallback :=
  match cb with
  | SyscallCallbackLambda f => SyscallCallbackLambda f
  | SyscallCallbackLimiting limit _ name => SyscallCallbackLimiting limit (limit - n) name
  | SyscallCallbackVmPeakUpdater _ => SyscallCallbackVmPeakUpdater n
  end.

Definition within_limit (n : Z) (cb : SyscallCallback) : Prop :=
  match cb with SyscallCallbackLimiting limit _ _ => 0 <= n <= limit | _ => True end.

Definition callbacks_ok (m : monitor) (cbs : list SyscallCallback) : Prop :=
  cbs = imap (fun id cb => current (counted id m) cb) static_callbacks /\
  forall id cb, static_callbacks !! id = Some cb -> within_limit (counted id m) cb.

(** The timers of the run: the contexts of those the monitor knows, the contexts
    whose flag agrees with the monitor, and the two variables that hold timers. *)
Record run_timers := mkRunTimers {
  ids : list nat; tracked : list nat; t_real : option Timer; t_cpu : option Timer }.

Record inv (ts : run_timers) (m : monitor) (l : run_locals) (ctxs : ctxs_t) : Prop := {
  inv_base : base m l ctxs;
  inv_si : m_si m = l_si l;
  inv_exec : m_exec m = false;
  inv_allowed : allowed_files_ (sandbox l) = allowed;
  inv_callbacks : callbacks_ok m (callbacks_ (sandbox l));
  inv_timers : m_timers m = ids ts;
  inv_real : l_timer l = t_real ts;
  inv_cpu : l_cpu_timer l = t_cpu ts;
  inv_fired : forall i, i ∈ m_fired m -> (i < length ctxs)%nat;
  inv_sent : forall i, i ∈ tracked ts -> exists c, ctxs !! i = Some c /\
    timeout_signal_was_sent_ c = bool_decide (i ∈ m_fired m)
}.

(** What is due, the phase of a memory call, the last callback and the last
    [SIGSYS]. *)
Abbreviation phase := (due -> memory_phase -> nat -> sigsys_info -> Prop).

Definition in_phase (ts : run_timers) (Q : phase) : pred := fun m l ctxs =>
  inv ts m l ctxs /\ Q (m_due m) (m_memory m) (m_last m) (m_sigsys m).

Class StablePhase (Q : phase) : Prop :=
  stable_phase d d' p i sii : Q d p i sii -> due_after d d' -> Q d' p i sii.

#[export] Instance in_phase_stable ts Q : StablePhase Q -> Stable (in_phase ts Q).
Proof.
  intros HQ. split; [|intros m l ctxs [[] _]; done].
  intros m l ctxs m' ctxs' [[Hb Hsi Hex Hal Hcb Hti Hre Hcp Hfi Hse] Hq] (fired & d & -> & Hd & Hlen & Hin & Hmk).
  split; [|by eapply stable_phase]. split; try done; cbn [m_fired with_due with_fired].
  - by destruct Hb.
  - intros i [Hi|Hi]%elem_of_app; rewrite Hlen; auto.
  - intros i Hi. destruct (Hse i Hi) as (c & Hc & Hs). exists (if bool_decide (i ∈ fired) then mark_sent c else c).
    split; [by apply Hmk|]. destruct (bool_decide_reflect (i ∈ fired)) as [Hf|Hf]; cbn.
    + symmetry. apply bool_decide_eq_true. set_solver.
    + rewrite Hs. apply bool_decide_ext. set_solver.
Qed.

Definition idle : phase := fun d _ _ _ => d = Nothing.
Definition dying : phase := fun d p _ _ => (d = MustDie \/ d = Nothing) /\ (forall id, p <> Measuring id).
Definition quiet : phase := fun d p _ _ => d = Nothing /\ p = Outside.
Definition due_is (d0 : due) : phase := fun d p _ _ => d = d0 /\ p = Outside.

#[export] Instance idle_stable : StablePhase idle.
Proof. unfold StablePhase, idle, due_after. intuition congruence. Qed.
#[export] Instance dying_stable : StablePhase dying.
Proof. unfold StablePhase, dying, due_after. intuition congruence. Qed.
#[export] Instance quiet_stable : StablePhase quiet.
Proof. unfold StablePhase, quiet, due_after. intuition congruence. Qed.
#[export] Instance due_is_stable d : d <> MustDie -> StablePhase (due_is d).
Proof. unfold StablePhase, due_is, due_after. intuition congruence. Qed.

(** ** Changing variables *)

Lemma hoare_setl (R R' : pred) f : (forall m l ctxs, R m l ctxs -> R' m (f l) ctxs) ->
  hoare (at_ R) (setl f) (fun _ => at_ R') E.
Proof. intros Hf s (m & Hm & HR). exists m. split; [done|]. by apply Hf. Qed.

Lemma hoare_getl {A B} (R : pred) (f : run_locals -> A) (k : A -> M B) Q :
  (forall a, hoare (at_ (fun m l ctxs => f l = a /\ R m l ctxs)) (k a) Q E) ->
  hoare (at_ R) (getl f ≫= k) Q E.
Proof.
  intros Hk s (m & Hm & HR). apply (Hk (f (loc s))). by exists m.
Qed.

Lemma hoare_throw {A} (R : pred) `{Stable R} r Q : (forall a, r <> Ok a) -> hoare (A := A) (at_ R) (lift r) Q E.
Proof. intros Hr s Hs. destruct r; [by destruct (Hr a)|..]; by eapply at_E. Qed.

(** A fact about the variables, which signals do not change. *)
#[export] Instance loc_stable (X : run_locals -> Prop) R : Stable R -> Stable (fun m l ctxs => X l /\ R m l ctxs).
Proof.
  intros HR. split; [|intros m l ctxs [_ ?]; by apply stable_base].
  intros m l ctxs m' ctxs' [HX ?] Hd. split; [done|]. by eapply stable.
Qed.

(** ** The size of the process *)

Lemma str2num_uint64_nonneg t v : str2num uint64 t = Some v -> 0 <= v.
Proof.
  intros H. rewrite str2num_spec in H by done. destruct (read_int _ t) as [x|]; [|done].
  destruct (in_range uint64 x) eqn:Er; simplify_eq. unfold in_range, uint64 in Er. cbn [int_min int_max] in Er. lia.
Qed.

Lemma vm_size_hoare R `{Stable R} :
  hoare (at_ R) (get_tracee_vm_size kernel)
    (fun v => at_ (fun m' l ctxs => exists m, R m l ctxs /\ 0 <= v /\ m' = on_size v m)) E.
Proof.
  unfold get_tracee_vm_size, get_sb. apply hoare_getl. intros fd.
  eapply hoare_bind; [apply call_hoare; [apply loc_stable, _|done]|].
  intros rc s (m' & Hm' & m & [_ HR] & Es).
  assert (m' = m -> E s) as Hthrow by (intros ->; exists m; split; [done|]; by apply stable_base).
  destruct rc as [[|ch data]|]; cbn [monitor_step] in Es.
  1,3: simplify_eq; by apply Hthrow.
  unfold lift. destruct (parse_vm_size (ch :: data)) as [v|e| |] eqn:Ep; simplify_eq.
  - exists (on_size v m). split; [done|]. exists m. split_and!; [done| |done].
    unfold parse_vm_size in Ep. destruct (str2num uint64 _) as [v'|] eqn:Ev; simplify_eq.
    by eapply str2num_uint64_nonneg.
  - by apply Hthrow.
  - by apply Hthrow.
  - by apply Hthrow.
Qed.

(** Both sides take over a size. *)
Lemma inv_new_size ts m l ctxs v : inv ts m l ctxs ->
  inv ts (with_peak (Z.max (m_peak m) v) false m)
    (on_sandbox (fun sb => if tracee_vm_peak_ sb <? v then set_vm_peak v sb else sb) l) ctxs.
Proof.
  intros [[Hp Hpk Hmsg] Hsi Hex Hal Hcb Hti Hre Hcp Hfi Hse].
  destruct (Z.ltb_spec (tracee_vm_peak_ (sandbox l)) v) as [Hlt|Hge].
  - assert (on_sandbox (fun sb => if tracee_vm_peak_ sb <? v then set_vm_peak v sb else sb) l =
            on_sandbox (set_vm_peak v) l) as ->.
    { unfold on_sandbox. by rewrite (proj2 (Z.ltb_lt _ _) Hlt). }
    split; try done. split; cbn; [done|lia|done].
  - assert (on_sandbox (fun sb => if tracee_vm_peak_ sb <? v then set_vm_peak v sb else sb) l = l) as ->.
    { unfold on_sandbox. rewrite (proj2 (Z.ltb_ge _ _) Hge). by destruct l. }
    split; try done. split; cbn; [done|lia|done].
Qed.

Definition not_measuring (p : memory_phase) : Prop := forall id, p <> Measuring id.

Lemma on_size_outside v m : not_measuring (m_memory m) -> m_exec m = false ->
  on_size v m = with_peak (Z.max (m_peak m) v) false m.
Proof. intros Hn He. unfold on_size. destruct (m_memory m) as [| |id] eqn:E1; rewrite ?He; try done. by destruct (Hn id). Qed.

Lemma update_peak_hoare ts Q `{StablePhase Q} : (forall d p i sii, Q d p i sii -> not_measuring p) ->
  hoare (at_ (in_phase ts Q)) (update_tracee_vm_peak kernel) (fun _ => at_ (in_phase ts Q)) E.
Proof.
  intros HQ. unfold update_tracee_vm_peak. eapply hoare_bind; [apply (vm_size_hoare _)|].
  intros v. apply hoare_setl. intros m' l ctxs (m & [Hi Hq] & Hv & ->).
  rewrite on_size_outside by (eauto using inv_exec). split; [by apply inv_new_size|done].
Qed.

(** ** Killing *)

Lemma inv_with_due d ts m l ctxs : inv ts m l ctxs -> inv ts (with_due d m) l ctxs.
Proof. intros [[] ? ? ? ? ? ? ? ? ?]. constructor; done. Qed.

Lemma on_kill_group ts Q m l ctxs : in_phase ts Q m l ctxs -> (m_due m = MustDie \/ m_due m = Nothing) ->
  m_due (on_kill (- tracee_pid_ (sandbox l)) SIGKILL m) = Nothing /\
  inv ts (on_kill (- tracee_pid_ (sandbox l)) SIGKILL m) l ctxs.
Proof.
  intros [Hi _] Hd. unfold on_kill. destruct (m_due m) eqn:E1; try (by destruct Hd).
  rewrite (base_pid _ _ _ (inv_base _ _ _ _ Hi)), Z.eqb_refl. split; [done|]. by apply inv_with_due.
Qed.

Lemma kill_group_hoare ts :
  hoare (at_ (in_phase ts dying)) (kill_group kernel) (fun _ => at_ (in_phase ts idle)) E.
Proof.
  unfold kill_group, get_sb. apply hoare_getl. intros pid.
  apply call_conseq; [apply _|]. intros m l ctxs a [Hp Hi]. subst pid. eexists. split; [reflexivity|].
  destruct (on_kill_group _ _ _ _ _ Hi) as [H1 H2]; [by destruct Hi as [_ []]|]. by split.
Qed.

Lemma kill_after_update ts :
  hoare (at_ (in_phase ts dying)) (_ ← update_tracee_vm_peak kernel; kill_group kernel)
    (fun _ => at_ (in_phase ts idle)) E.
Proof.
  eapply hoare_bind; [apply (update_peak_hoare ts dying)|intros ?; apply kill_group_hoare].
  by intros d p i sii [].
Qed.

(** ** Callbacks *)

(** What a callback leaves: [b] tells whether the process is to be killed. *)
Definition answered (ts : run_timers) (b : bool) : pred :=
  in_phase ts (if b then dying else idle).

Lemma counted_same id n m : counted id (with_count id n m) = n.
Proof. unfold counted. cbn. by rewrite lookup_insert_eq. Qed.

Lemma counted_other id id' n m : id <> id' -> counted id' (with_count id n m) = counted id' m.
Proof. intros Hne. unfold counted. cbn. by rewrite lookup_insert_ne. Qed.

(** Callback [id] counts [n] on both sides. *)
Lemma callbacks_ok_count id cb n m cbs : callbacks_ok m cbs -> static_callbacks !! id = Some cb ->
  within_limit n cb -> callbacks_ok (with_count id n m) (<[id := current n cb]> cbs).
Proof.
  intros [-> Hw] Hid Hn. split.
  - apply list_eq. intros j. destruct (decide (j = id)) as [->|Hne].
    + rewrite list_lookup_insert_eq by (rewrite length_imap; by eapply lookup_lt_Some).
      by rewrite list_lookup_imap, Hid; cbn; rewrite counted_same.
    + rewrite list_lookup_insert_ne by done. rewrite !list_lookup_imap.
      destruct (static_callbacks !! j); cbn; [|done]. by rewrite counted_other.
  - intros j cb' Hj. destruct (decide (j = id)) as [->|Hne].
    + simplify_eq. by rewrite counted_same.
    + rewrite counted_other by done. by apply Hw.
Qed.

Lemma callbacks_ok_lookup m cbs id : callbacks_ok m cbs ->
  cbs !! id = (fun cb => current (counted id m) cb) <$> static_callbacks !! id.
Proof. intros [-> _]. by rewrite list_lookup_imap. Qed.

Lemma hoare_setl_ret {A} (R : pred) (R' : A -> pred) f b :
  (forall m l ctxs, R m l ctxs -> R' b m (f l) ctxs) ->
  hoare (at_ R) (_ ← setl f; mret b) (fun b' => at_ (R' b')) E.
Proof. intros Hf s (m & Hm & HR). exists m. split; [done|]. by apply Hf. Qed.

Lemma hoare_ret_at {A} (R : pred) (R' : A -> pred) b : (forall m l ctxs, R m l ctxs -> R' b m l ctxs) ->
  hoare (at_ R) (mret b) (fun b' => at_ (R' b')) E.
Proof. intros Hf s (m & Hm & HR). exists m. split; [done|]. by apply Hf. Qed.

Lemma hoare_pre_at {A} (R R' : pred) (k : M A) Q E' : (forall m l ctxs, R m l ctxs -> R' m l ctxs) ->
  hoare (at_ R') k Q E' -> hoare (at_ R) k Q E'.
Proof. intros HR. apply hoare_pre. intros s. by apply at_conseq. Qed.

Lemma inv_with_last id ts m l ctxs : inv ts m l ctxs -> inv ts (with_last id m) l ctxs.
Proof. intros [[] ? ? ? ? ? ? ? ? ?]. constructor; done. Qed.

Lemma inv_with_memory p ts m l ctxs : inv ts m l ctxs -> inv ts (with_memory p m) l ctxs.
Proof. intros [[] ? ? ? ? ? ? ? ? ?]. constructor; done. Qed.

Lemma inv_message msg ts m l ctxs : inv ts m l ctxs ->
  inv ts (with_message msg m) (on_sandbox (set_message msg) l) ctxs.
Proof. intros [[] ? ? ? ? ? ? ? ? ?]. constructor; done. Qed.

Lemma inv_must_die msg ts m l ctxs : inv ts m l ctxs ->
  inv ts (must_die msg m) (on_sandbox (set_message msg) l) ctxs.
Proof. intros Hi. by apply inv_with_due, inv_message. Qed.

Lemma inv_count id cb n ts m l ctxs : inv ts m l ctxs -> static_callbacks !! id = Some cb ->
  within_limit n cb ->
  inv ts (with_count id n m)
    (on_sandbox (fun sb => set_callbacks (<[id := current n cb]> (callbacks_ sb)) sb) l) ctxs.
Proof.
  intros [[] ? ? ? ? ? ? ? ? ?] Hid Hn. constructor; try done.
  by apply callbacks_ok_count.
Qed.

(** The process has asked for callback [id]. *)
Definition asked (ts : run_timers) (id : nat) : pred := fun m l ctxs =>
  exists m0, in_phase ts quiet m0 l ctxs /\ m = on_callback static_callbacks id m0.

Lemma limiting_hoare ts id limit c0 name n :
  static_callbacks !! id = Some (SyscallCallbackLimiting limit c0 name) ->
  hoare (at_ (fun m l ctxs => exists m0, counted id m0 = n /\ in_phase ts quiet m0 l ctxs /\
                m = on_callback static_callbacks id m0))
    (limiting_callback id limit (limit - n) name) (fun b => at_ (answered ts b)) E.
Proof.
  intros Hid. unfold limiting_callback, set_message_callback, set_callback.
  destruct (Z.eqb_spec (limit - n) 0) as [Heq|Hne]; apply hoare_setl_ret;
    intros m l ctxs (m0 & Hn & [Hi [Hd Hp]] & ->); unfold on_callback; rewrite Hid;
    change (counted id (with_last id m0)) with (counted id m0); rewrite Hn.
  - rewrite (proj2 (Z.ltb_ge _ _)) by lia. split; [by apply inv_must_die, inv_with_last|].
    split; [by left|]. cbn. rewrite Hp. done.
  - pose proof (proj2 (inv_callbacks _ _ _ _ Hi) _ _ Hid) as Hw. cbn in Hw. rewrite Hn in Hw.
    rewrite (proj2 (Z.ltb_lt _ _)) by lia. split; [|done].
    replace (limit - n - 1) with (limit - (n + 1)) by lia.
    apply (inv_count id (SyscallCallbackLimiting limit c0 name)); [by apply inv_with_last|done|]. cbn. lia.
Qed.

(** *** Calls that change the size of memory *)

Definition in_call (p : memory_phase) : phase := fun d p' _ _ => d = Nothing /\ p' = p.

Instance in_call_stable p : StablePhase (in_call p).
Proof. unfold StablePhase, in_call, due_after. intuition congruence. Qed.

Lemma vm_peak_hoare ts id c0 n : static_callbacks !! id = Some (SyscallCallbackVmPeakUpdater c0) ->
  hoare (at_ (fun m l ctxs => callbacks_ (sandbox l) !! id = Some (SyscallCallbackVmPeakUpdater n) /\
                in_phase ts (fun d p i _ => d = Nothing /\ p = Outside /\ i = id) m l ctxs))
    (vm_peak_updater kernel id n) (fun b => at_ (answered ts b)) E.
Proof.
  intros Hid. unfold vm_peak_updater, get_sb. apply hoare_getl. intros pid.
  assert (StablePhase (fun d p i _ => d = Nothing /\ p = Outside /\ i = id)) as HS.
  { unfold StablePhase, due_after. intuition congruence. }
  set (R p := fun m l (ctxs : ctxs_t) => callbacks_ (sandbox l) !! id = Some (SyscallCallbackVmPeakUpdater n) /\
    in_phase ts (in_call p) m l ctxs).
  eapply hoare_bind with (Q := fun _ => at_ (R (Waiting id))).
  { apply call_conseq; [do 2 apply loc_stable; apply _|]. intros m l ctxs a (_ & Hc & Hi & Hd & Hp & Hl).
    cbn [monitor_step]. unfold resume. cbn [m_due with_memory]. rewrite Hd. eexists. split; [done|].
    split; [done|]. split; [by apply inv_with_memory|]. split; [done|]. cbn. by rewrite Hl. }
  intros _. eapply hoare_bind with (Q := fun _ => at_ (R (Measuring id))).
  { apply call_conseq; [apply loc_stable; apply _|]. intros m l ctxs a (Hc & Hi & Hd & Hp).
    exists (with_memory (Measuring id) m). split; [cbn [monitor_step]; rewrite Hp; by destruct a as [[]|]|].
    split; [done|]. split; [by apply inv_with_memory|done]. }
  intros r. destruct r as [[si ru]|].
  2: { eapply hoare_bind; [|intros a; exact (fun s H => H)].
       apply hoare_throw; [apply loc_stable; apply _|done]. }
  eapply hoare_bind with (Q := fun si' s => si' = si /\ at_ (R (Measuring id)) s).
  { intros s Hs. cbn. done. }
  intros si'. apply hoare_pure. intros ->. destruct (negb _).
  { apply hoare_ret_at. intros m l ctxs (Hc & Hi & Hd & Hp). split; [done|exact Hd]. }
  eapply hoare_bind; [apply vm_size_hoare; apply loc_stable; apply _|]. intros v.
  apply hoare_getl. intros peak. set (fc := (n + 1) mod 2 ^ 32).
  assert (forall m l ctxs, R (Measuring id) m l ctxs -> counted id m = n) as Hn.
  { intros m l ctxs (Hc & Hi & _). rewrite (callbacks_ok_lookup m), Hid in Hc by apply Hi.
    cbn in Hc. congruence. }
  destruct (Z.eqb_spec v peak) as [->|Hne].
  - eapply hoare_bind with (Q := fun _ => at_ (fun m' l ctxs => exists m1, inv ts m1 l ctxs /\
      m_memory m1 = Outside /\ m_due m1 = Nothing /\
      m' = if fc =? FAIL_COUNTER_LIMIT then must_die (lit "Memory limit exceeded") m1 else m1)).
    + apply hoare_setl. intros m' l ctxs (Hp & m & HR & Hv & ->). pose proof (Hn _ _ _ HR) as Hc.
      destruct HR as (Hcb & Hi & Hd & Hm). unfold on_size. rewrite Hm. cbn [m_peak with_memory].
      rewrite (base_peak _ _ _ (inv_base _ _ _ _ Hi)), Hp, Z.eqb_refl.
      change (counted id (with_memory Outside m)) with (counted id m). rewrite Hc. fold fc.
      exists (with_count id fc (with_memory Outside m)). split_and!; [|done|done|done].
      apply (inv_count id _ fc ts (with_memory Outside m) l ctxs) in Hid; [done|by apply inv_with_memory|done].
    + intros _. destruct (fc =? FAIL_COUNTER_LIMIT).
      * apply hoare_setl_ret. intros m' l ctxs (m1 & Hi & Hm & Hd & ->).
        split; [by apply inv_must_die|]. split; [by left|]. cbn. by rewrite Hm.
      * apply hoare_ret_at. intros m' l ctxs (m1 & Hi & Hm & Hd & ->). split; [done|exact Hd].
  - eapply hoare_bind with (Q := fun _ => at_ (fun m' l ctxs => exists m1, inv ts m1 l ctxs /\
      m_due m1 = Nothing /\ m' = with_peak (Z.max (m_peak m1) v) false m1)).
    + apply hoare_setl. intros m' l ctxs (Hp & m & HR & Hv & ->).
      destruct HR as (Hcb & Hi & Hd & Hm). unfold on_size. rewrite Hm. cbn [m_peak with_memory].
      rewrite (base_peak _ _ _ (inv_base _ _ _ _ Hi)), Hp. rewrite (proj2 (Z.eqb_neq _ _)) by done.
      cbn [m_exec with_memory]. rewrite (inv_exec _ _ _ _ Hi).
      exists (with_count id 0 (with_memory Outside m)). cbn [m_peak with_memory with_count].
      rewrite (base_peak _ _ _ (inv_base _ _ _ _ Hi)), Hp. split_and!; [|done|done].
      apply (inv_count id _ 0 ts (with_memory Outside m) l ctxs) in Hid; [done|by apply inv_with_memory|done].
    + intros _. apply hoare_setl_ret. intros m' l ctxs (m1 & Hi & Hd & ->).
      split; [by apply inv_new_size|exact Hd].
Qed.

(** *** Opening files *)

(** What the two kinds of registers have in common for the monitor. *)
Class MonitoredRegisters (R : Type) `{SyscallRegisters R} : Prop := {
  monitor_get_regs : forall pid m a,
    monitor_step static_callbacks allowed m (Did (get_regs pid) a) =
    Some (match a with Some r => on_registers (arg1 r) (arg3 r) (arg2 r) m | None => m end);
  monitor_set_regs : forall pid r m ok,
    monitor_step static_callbacks allowed m (Did (set_regs pid r) ok) =
    Some (on_denied ok (syscall r) reg_width m);
  syscall_set : forall nr v r, syscall (set_syscall_res nr v r) = nr;
  reg_width_pos : 0 < reg_width
}.

Instance x86_monitored : MonitoredRegisters x86_user_regset.
Proof. by split. Qed.
Instance x86_64_monitored : MonitoredRegisters x86_64_user_regset.
Proof. by split. Qed.

Section Opening.
Context {R : Type} `{MonitoredRegisters R}.

Lemma deny_hoare ts (r : R) errnum :
  hoare (at_ (in_phase ts (due_is Deny))) (deny kernel r errnum) (fun b => at_ (answered ts b)) E.
Proof.
  unfold deny, get_sb. apply hoare_getl. intros pid.
  assert (StablePhase (due_is Deny)) by by apply due_is_stable.
  eapply hoare_bind with (Q := fun ok => at_ (in_phase ts (due_is (if (ok : bool) then Nothing else Deny)))).
  { apply call_conseq; [apply loc_stable; apply _|]. intros m l ctxs ok (_ & Hi & Hd & Hp).
    rewrite monitor_set_regs, syscall_set. eexists. split; [done|]. unfold on_denied. rewrite Hd.
    replace ((-1) mod 2 ^ reg_width =? 2 ^ reg_width - 1) with true.
    2: { symmetry. apply Z.eqb_eq. pose proof reg_width_pos. pose proof (Z.pow_pos_nonneg 2 reg_width).
         symmetry. apply (Z.mod_unique _ _ (-1)); lia. }
    destruct ok; cbn [andb]; (split; [try apply inv_with_due; done|done]). }
  intros [].
  - apply hoare_ret_at. intros m l ctxs (Hi & Hd & Hp). split; [done|exact Hd].
  - apply hoare_throw; [apply _|done].
Qed.

Lemma check_opening_hoare ts (r : R) path_arg flags :
  hoare (at_ (in_phase ts (due_is (ReadPath flags)))) (check_opening_syscall kernel r path_arg flags)
    (fun b => at_ (answered ts b)) E.
Proof.
  unfold check_opening_syscall, get_sb. apply hoare_getl. intros pid.
  assert (StablePhase (due_is (ReadPath flags))) by by apply due_is_stable.
  eapply hoare_bind with (Q := fun data => at_ (in_phase ts
    (due_is (if path_allowed allowed data flags then Nothing else Deny)))).
  { apply call_conseq; [apply loc_stable; apply _|]. intros m l ctxs data (_ & Hi & Hd & Hp).
    eexists. split; [done|]. unfold on_path. rewrite Hd. split; [by apply inv_with_due|done]. }
  intros [data|]; cbn [path_allowed]; [|apply deny_hoare].
  destruct (Nat.eqb _ _); cbn [negb andb]; [apply deny_hoare|].
  apply hoare_getl. intros files.
  eapply (hoare_pre_at _ (fun m l ctxs => files = allowed /\ in_phase ts
    (due_is (if may_open allowed (up_to_nul data) (access_of flags) then Nothing else Deny)) m l ctxs)).
  { intros m l ctxs (<- & Hi & Hq). split; [by apply Hi|]. by split. }
  intros s (m & Hm & -> & Hs). revert s Hm Hs.
  destruct (may_open _ _ _); intros s Hm Hs.
  - exists m. split; [done|]. destruct Hs as (Hi & Hd & Hp). split; [done|exact Hd].
  - apply (deny_hoare ts r EPERM). by exists m.
Qed.

Lemma read_regs_hoare ts (at_fd : bool) :
  hoare (at_ (in_phase ts (due_is (Inspect at_fd)))) (read_regs kernel (R := R))
    (fun r => at_ (in_phase ts (due_is
       (if at_fd then if to_int (arg1 r) =? AT_FDCWD then ReadPath (arg3 r) else Deny
        else ReadPath (arg2 r))))) E.
Proof.
  unfold read_regs, get_sb. apply hoare_getl. intros pid.
  assert (StablePhase (due_is (Inspect at_fd))) by by apply due_is_stable.
  unfold call_or_throw. eapply hoare_bind with (Q := fun r => at_ (in_phase ts (due_is
    (match r with
     | None => Inspect at_fd
     | Some r => if at_fd then if to_int (arg1 r) =? AT_FDCWD then ReadPath (arg3 r) else Deny
                 else ReadPath (arg2 r)
     end)))).
  { apply call_conseq; [apply loc_stable; apply _|]. intros m l ctxs r (_ & Hi & Hd & Hp).
    rewrite monitor_get_regs. eexists. split; [done|]. destruct r as [r|]; [|by split].
    unfold on_registers. rewrite Hd. destruct at_fd; [destruct (_ =? _)|]; (split; [by apply inv_with_due|done]). }
  intros [r|].
  - apply hoare_ret_at. done.
  - apply hoare_throw; [apply _|done].
Qed.

Lemma open_callback_hoare ts :
  hoare (at_ (in_phase ts (due_is (Inspect false)))) (open_callback kernel (R := R))
    (fun b => at_ (answered ts b)) E.
Proof.
  unfold open_callback. eapply hoare_bind; [apply read_regs_hoare|]. intros r. apply check_opening_hoare.
Qed.

Lemma openat_callback_hoare ts :
  hoare (at_ (in_phase ts (due_is (Inspect true)))) (openat_callback kernel (R := R))
    (fun b => at_ (answered ts b)) E.
Proof.
  unfold openat_callback. eapply hoare_bind; [apply read_regs_hoare|]. intros r. unfold check_openat_syscall.
  cbn beta iota. destruct (to_int (arg1 r) =? AT_FDCWD); [apply check_opening_hoare|apply deny_hoare].
Qed.

End Opening.

(** *** Any callback *)

Lemma exit_callback_hoare ts : hoare (at_ (in_phase ts quiet)) (_ ← update_tracee_vm_peak kernel; mret false)
  (fun b => at_ (answered ts b)) E.
Proof.
  eapply hoare_bind; [apply (update_peak_hoare ts quiet); intros d p i sii [_ ->]; done|].
  intros ?. apply hoare_ret_at. intros m l ctxs (Hi & Hd & Hp). split; [done|exact Hd].
Qed.

Lemma run_callback_hoare ts id :
  hoare (at_ (asked ts id)) (run_callback kernel id) (fun b => at_ (answered ts b)) E.
Proof.
  unfold run_callback, get_sb. apply hoare_getl. intros cbs.
  intros s (m & Hm & Hcbs & m0 & Hq & ->).
  assert (cbs !! id = (fun cb => current (counted id m0) cb) <$> static_callbacks !! id) as Hl.
  { rewrite <- Hcbs. apply callbacks_ok_lookup. by apply Hq. }
  unfold mbind at 1, stm_bind at 1, lift. rewrite Hl. unfold on_callback in Hm.
  destruct (static_callbacks !! id) as [cb|] eqn:Hid; cbn [fmap option_fmap option_map get_or_ub].
  2: { exists (with_last id m0). split; [done|]. destruct Hq as [Hi _]. exact (inv_base _ _ _ _ (inv_with_last id _ _ _ _ Hi)). }
  assert (forall d, mon (trace s) = Some (with_due d (with_last id m0)) -> at_ (in_phase ts (due_is d)) s) as Hdue.
  { intros d Hd. exists (with_due d (with_last id m0)). split; [done|]. destruct Hq as (Hi & Hd' & Hp).
    split; [by apply inv_with_due, inv_with_last|done]. }
  assert (mon (trace s) = Some (with_last id m0) -> at_ (in_phase ts quiet) s) as Hquiet.
  { intros Hd. exists (with_last id m0). split; [done|]. destruct Hq as (Hi & Hq'). split; [by apply inv_with_last|done]. }
  destruct cb as [f|limit c0 name|c0]; cbn [current].
  - destruct f as [| | |a|a]; cbn [run_lambda] in *.
    + assert (hoare (at_ (fun m l ctxs => exists m1, in_phase ts quiet m1 l ctxs /\
        m = must_die (lit "Invalid architecture of the syscall") m1))
        (set_message_callback (lit "Invalid architecture of the syscall")) (fun b => at_ (answered ts b)) E) as Hh.
      { apply hoare_setl_ret. intros m l ctxs (m1 & (Hi & Hd & Hp) & ->).
        split; [by apply inv_must_die|]. split; [by left|]. cbn. by rewrite Hp. }
      apply Hh. eexists. split; [exact Hm|]. exists (with_last id m0). split; [|done].
      destruct Hq as (Hi & Hq'). split; [by apply inv_with_last|done].
    + apply exit_callback_hoare. by apply Hquiet.
    + apply exit_callback_hoare. by apply Hquiet.
    + destruct a; apply open_callback_hoare; try apply _; by apply Hdue.
    + destruct a; apply openat_callback_hoare; try apply _; by apply Hdue.
  - apply (limiting_hoare ts id limit c0 name (counted id m0) Hid). eexists. split; [exact Hm|].
    exists m0. split; [done|]. split; [done|]. unfold on_callback. by rewrite Hid.
  - apply (vm_peak_hoare ts id c0 (counted id m0) Hid). exists (with_last id m0). split; [done|]. split.
    + rewrite Hcbs, Hl. done.
    + destruct Hq as (Hi & Hd & Hp). split; [by apply inv_with_last|done].
Qed.

(** ** Events *)

Lemma on_seccomp_hoare ts :
  hoare (at_ (in_phase ts quiet)) (on_seccomp kernel) (fun _ => at_ (in_phase ts idle)) E.
Proof.
  unfold on_seccomp, get_sb. apply hoare_getl. intros pid. unfold call_or_throw.
  eapply hoare_bind with (Q := fun msg => at_ (asked ts (Z.to_nat msg))).
  { eapply hoare_bind with (Q := fun r => at_ (match r with
      | Some msg => asked ts (Z.to_nat msg) | None => in_phase ts quiet end)).
    - apply call_conseq; [apply loc_stable; apply _|]. intros m l ctxs r (_ & Hq).
      eexists. split; [done|]. destruct r as [msg|]; [|done]. by exists m.
    - intros [msg|]; [by apply hoare_ret_at|]. apply hoare_throw; [apply _|done]. }
  intros msg. eapply hoare_bind; [apply run_callback_hoare|].
  intros []; cbn [when answered]; [apply kill_after_update|by apply hoare_ret_at].
Qed.

(** A signal that is delivered: nothing may be due. *)
Lemma deliver_hoare ts sig :
  hoare (at_ (in_phase ts idle)) (deliver kernel sig) (fun _ => at_ (in_phase ts quiet)) E.
Proof.
  unfold deliver, get_sb. apply hoare_getl. intros pid.
  eapply hoare_bind with (Q := fun _ => at_ (in_phase ts quiet)); [|intros _; by apply hoare_ret_at].
  apply call_conseq; [apply loc_stable; apply _|]. intros m l ctxs r (_ & Hi & Hd).
  cbn [monitor_step]. unfold resume. cbn [m_due with_memory]. rewrite Hd. eexists. split; [done|].
  split; [by apply inv_with_memory|done].
Qed.

(** ** Timers *)

Definition timer_ids (t : option Timer) : list nat :=
  match t with
  | Some t => match state_ t with WithTimeout _ _ _ c => [c] | WithoutTimeout _ => [] end
  | None => []
  end.

(** The timers the variables hold are the ones the monitor knows. *)
Definition of_timers (real cpu : option Timer) : run_timers :=
  mkRunTimers (timer_ids cpu ++ timer_ids real) (timer_ids cpu ++ timer_ids real) real cpu.

Lemma has_timer_timeouted_run t (s : P) (fired : list nat) :
  (forall i, i ∈ timer_ids t -> exists c, contexts s !! i = Some c /\
     timeout_signal_was_sent_ c = bool_decide (i ∈ fired)) ->
  has_timer_timeouted t s = (s, Ok (existsb (fun i => bool_decide (i ∈ fired)) (timer_ids t))).
Proof.
  intros Hs. destruct t as [[clk [tl id act c|]]|]; [|done|done]. unfold has_timer_timeouted.
  cbn [timer_ids state_] in *. unfold timeout_signal_was_sent. cbn [state_].
  destruct (Hs c) as (ctx & Hc & Hsent); [left|]. unfold mbind, stm_bind, gets, lift. rewrite Hc. cbn.
  by rewrite Hsent, orb_false_r.
Qed.

Lemma timeouted_hoare real cpu (R : pred) :
  (forall m l ctxs, R m l ctxs -> inv (of_timers real cpu) m l ctxs) ->
  hoare (at_ R) has_tracee_timeouted (fun b => at_ (fun m l ctxs => timed_out m = b /\ R m l ctxs)) E.
Proof.
  intros HR s (m & Hm & Hs). pose proof (HR _ _ _ Hs) as Hi.
  assert (has_tracee_timeouted s = (s, Ok (timed_out m))) as ->; [|by exists m].
  pose proof (inv_sent _ _ _ _ Hi) as Hsent. cbn [tracked of_timers] in Hsent.
  unfold has_tracee_timeouted, timed_out. rewrite (inv_timers _ _ _ _ Hi). cbn [ids of_timers].
  rewrite existsb_app.
  rewrite (stm_bind_run _ _ s s real) by (unfold getl, gets; by rewrite (inv_real _ _ _ _ Hi)).
  rewrite (stm_bind_run _ _ s s _ (has_timer_timeouted_run real s (m_fired m) (fun i Hin => Hsent i (proj2 (elem_of_app _ _ _) (or_intror Hin))))).
  destruct (existsb _ (timer_ids real)); [by rewrite orb_true_r|]. rewrite orb_false_r.
  rewrite (stm_bind_run _ _ s s cpu) by (unfold getl, gets; by rewrite (inv_cpu _ _ _ _ Hi)).
  apply has_timer_timeouted_run. intros i Hin. apply Hsent, elem_of_app. by left.
Qed.

(** A stop for a signal, once the monitor has said whether the process has to
    die for the time it took. *)
Definition judged (ts : run_timers) : pred := fun m l ctxs =>
  in_phase ts (fun d p _ _ => d = Nothing /\ p = Outside) (with_due Nothing m) l ctxs /\
  m_due m = if timed_out m then MustDie else Nothing.

Lemma on_other_stop_hoare real cpu status :
  hoare (at_ (judged (of_timers real cpu))) (on_other_stop kernel status)
    (fun _ => at_ (in_phase (of_timers real cpu) idle)) E.
Proof.
  unfold on_other_stop. set (ts := of_timers real cpu).
  assert (forall m l ctxs, judged ts m l ctxs -> inv ts m l ctxs) as Hj.
  { intros m l ctxs [[Hi _] _]. apply (inv_with_due (m_due m)) in Hi. by destruct m. }
  eapply hoare_bind; [by apply (timeouted_hoare real cpu)|]. intros b.
  apply (hoare_pre_at _ (in_phase ts (if b then dying else quiet))).
  { intros m l ctxs [Hb Hm]. split; [by apply Hj|]. destruct Hm as [[_ [_ Hp]] Hd]. rewrite Hb in Hd.
    cbn in Hp. destruct b; split; try done; [by left|]. by rewrite Hp. }
  destruct b; [apply kill_after_update|].
  eapply hoare_bind; [apply (update_peak_hoare ts quiet); intros d p i sii [_ ->]; done|]. intros ?.
  apply (hoare_pre_at _ (in_phase ts idle)); [by intros m l ctxs [Hi [Hd _]]|].
  eapply hoare_conseq; [apply deliver_hoare|done|].
  intros ? s'. apply at_conseq. by intros m l ctxs [Hi [Hd _]].
Qed.

Lemma inv_with_sigsys sii ts m l ctxs : inv ts m l ctxs -> inv ts (with_sigsys sii m) l ctxs.
Proof. intros [[] ? ? ? ? ? ? ? ? ?]. constructor; done. Qed.

(** [SIGSYS]: killed if it comes from seccomp, otherwise like any signal. *)
Lemma on_sigsys_hoare ts :
  hoare (at_ (fun m l ctxs => is_signal_stop (l_si l) = true /\ in_phase ts quiet m l ctxs)) (on_sigsys kernel)
    (fun b : bool => at_ (if b then in_phase ts idle else judged ts)) E.
Proof.
  unfold on_sigsys, get_sb. apply hoare_getl. intros pid. unfold call_or_throw.
  set (caught (sii : sigsys_info) := fun d p (_ : nat) (sii' : sigsys_info) => (d = MustDie \/ d = Nothing) /\ p = Outside /\ sii' = sii).
  assert (forall sii, StablePhase (caught sii)) as HS.
  { intros sii. unfold StablePhase, caught, due_after. intuition congruence. }
  eapply hoare_bind with (Q := fun sii => at_ (if sys_code sii =? SYS_SECCOMP
    then in_phase ts (caught sii) else judged ts)).
  { eapply hoare_bind with (Q := fun r => at_ (match r with
      | Some sii => if sys_code sii =? SYS_SECCOMP then in_phase ts (caught sii) else judged ts
      | None => in_phase ts quiet end)).
    - apply call_conseq; [do 2 apply loc_stable; apply _|]. intros m l ctxs r (_ & Hst & Hi & Hd & Hp).
      eexists. split; [done|]. destruct r as [sii|]; [|by split]. unfold on_sigsys_info.
      cbn [m_si with_sigsys]. rewrite (inv_si _ _ _ _ Hi), Hst. destruct (_ =? _).
      + split; [by apply inv_with_due, inv_with_sigsys|]. split_and!; [by left|done|done].
      + unfold die_if_timed_out. change (timed_out (with_sigsys sii m)) with (timed_out m).
        destruct (timed_out m) eqn:Ht; unfold judged.
        * split; [|change (MustDie = if timed_out m then MustDie else Nothing); by rewrite Ht]. split; [by apply inv_with_due, inv_with_due, inv_with_sigsys|done].
        * split; [|change (m_due m = if timed_out m then MustDie else Nothing); by rewrite Ht]. split; [by apply inv_with_due, inv_with_sigsys|done].
    - intros [sii|]; [by apply hoare_ret_at|]. apply hoare_throw; [apply _|done]. }
  intros sii. destruct (sys_code sii =? SYS_SECCOMP); [|by apply hoare_ret_at].
  eapply hoare_bind with (Q := fun name => at_ (fun m l ctxs => exists m1, in_phase ts dying m1 l ctxs /\
    m = with_message (forbidden_message sii name) m1)).
  { apply call_conseq; [apply _|]. intros m l ctxs name (Hi & Hd & Hp & Hs). eexists. split; [done|].
    rewrite Hs. exists m. split; [|done]. split; [done|]. split; [done|]. by rewrite Hp. }
  intros name. eapply hoare_bind with (Q := fun _ => at_ (in_phase ts dying)).
  { apply hoare_setl_ret. intros m l ctxs (m1 & [Hi Hq] & ->). split; [by apply inv_message|done]. }
  intros _. eapply hoare_bind; [apply (update_peak_hoare ts dying); by intros d p i sii' []|]. intros ?.
  eapply hoare_bind; [apply kill_group_hoare|]. intros ?. by apply hoare_ret_at.
Qed.

(** ** Making and deleting timers *)

Definition keeps {A} (R : pred) (m : M A) : Prop := hoare (at_ R) m (fun _ => at_ R) E.

Lemma keeps_seq {A B} R (m : M A) (k : A -> M B) : keeps R m -> (forall a, keeps R (k a)) -> keeps R (m ≫= k).
Proof. apply hoare_bind. Qed.

Lemma keeps_then {A} (R R' : pred) (m : M A) : keeps R m ->
  (forall m l ctxs, R m l ctxs -> R' m l ctxs) -> hoare (at_ R) m (fun _ => at_ R') E.
Proof. intros Hk HR. eapply hoare_conseq; [exact Hk|done|]. intros ? s. by apply at_conseq. Qed.

Lemma keeps_ret {A} R (a : A) : keeps R (mret a).
Proof. by apply (hoare_ret_at R (fun _ => R)). Qed.

Lemma keeps_lift {A} R `{Stable R} (r : outcome A) : keeps R (lift r).
Proof. intros s Hs. unfold lift. destruct r; [done|..]; by eapply at_E. Qed.

Lemma keeps_gets {A B} R (f : P -> A) (k : A -> M B) : (forall a, keeps R (k a)) -> keeps R (gets f ≫= k).
Proof. intros Hk s Hs. by apply (Hk (f s)). Qed.

Lemma keeps_call {A} R `{Stable R} (c : sys A) : neutral c -> keeps R (call c).
Proof. by apply call_neutral. Qed.

Ltac keep :=
  repeat (cbn beta iota; lazymatch goal with
    | |- keeps _ (mret _) => apply keeps_ret
    | |- keeps _ (lift _) => apply keeps_lift; apply _
    | |- keeps ?R (throw_error ?x) => apply (keeps_lift R (Throw (RuntimeError x)))
    | |- keeps _ (gets _ ≫= _) => apply keeps_gets; intros ?
    | |- keeps _ (_ ≫= _) => apply keeps_seq; [|intros ?]
    | |- keeps _ (Os.call _ _) => apply keeps_call; [apply _|by intros ? ?]
    | |- keeps _ (match ?x with _ => _ end) => destruct x
    | |- hoare (at_ ?R) ?m (fun _ => at_ ?R) E => change (keeps R m)
    end).

Lemma keeps_sent R `{Stable R} t : keeps R (timeout_signal_was_sent t).
Proof. unfold timeout_signal_was_sent. keep. Qed.

Lemma keeps_pause R `{Stable R} fuel t : keeps R (pause_until_sent kernel fuel t).
Proof.
  induction fuel as [|fuel IH]; cbn [pause_until_sent]; [keep|].
  apply keeps_seq; [by apply keeps_sent|]. intros []; keep. apply IH.
Qed.

Lemma keeps_delete R `{Stable R} fuel t : keeps R (delete_timer_and_get_remaning_time kernel fuel t).
Proof.
  unfold delete_timer_and_get_remaning_time. destruct (state_ t); [|keep]. destruct (negb _); [keep|].
  unfold when. keep; by apply keeps_pause.
Qed.

Lemma keeps_delete_timer R `{Stable R} fuel t : keeps R (delete_timer kernel fuel t).
Proof. unfold delete_timer. apply keeps_seq; [by apply keeps_delete|]. intros ?. keep. Qed.

Lemma keeps_destroy R `{Stable R} fuel t : keeps R (destroy_timer kernel fuel t).
Proof. destruct t; cbn [destroy_timer]; [by apply keeps_delete_timer|keep]. Qed.

Lemma keeps_stop R `{Stable R} fuel t : keeps R (stop_timer kernel fuel t).
Proof.
  destruct t as [t|]; cbn [stop_timer]; [|keep]. apply keeps_seq; [|intros []; keep].
  unfold deactivate_and_get_runtime. destruct (state_ t); [|keep]. destruct (negb _); [keep|].
  apply keeps_seq; [by apply keeps_delete|]. intros []. keep.
Qed.

(** A new context is not marked, and the monitor has not seen its timer fire. *)
Lemma new_context_hoare ix tr real cpu Q ctx : timeout_signal_was_sent_ ctx = false ->
  hoare (at_ (in_phase (mkRunTimers ix tr real cpu) Q)) (new_context ctx)
    (fun c => at_ (in_phase (mkRunTimers ix (c :: tr) real cpu) Q)) E.
Proof.
  intros Hctx s (m & Hm & [[[? ? ?] Hsi Hex Hal Hcb Hti Hre Hcp Hfi Hse] Hq]).
  exists m. split; [done|]. split; [|done]. cbn [loc contexts]. constructor; try done.
  - intros i Hi. rewrite length_app. apply Hfi in Hi. cbn. lia.
  - cbn [tracked]. intros i [->|Hi]%elem_of_cons.
    + exists ctx. split; [by rewrite lookup_app_r, Nat.sub_diag|]. rewrite Hctx. symmetry.
      apply bool_decide_eq_false. intros Hin%Hfi. lia.
    + destruct (Hse i Hi) as (x & Hx & Hs). exists x. split; [|done]. by apply lookup_app_l_Some.
Qed.

Lemma make_timer_hoare ix real cpu Q `{StablePhase Q} fuel pid limit clock :
  hoare (at_ (in_phase (mkRunTimers ix ix real cpu) Q)) (make_timer kernel fuel pid limit clock SIGSTOP)
    (fun t => let ix' := timer_ids (Some t) ++ ix in at_ (in_phase (mkRunTimers ix' ix' real cpu) Q)) E.
Proof.
  unfold make_timer. destruct (limit <? 0); [apply hoare_throw; [apply _|done]|].
  unfold call_or_throw. destruct (limit =? 0).
  { eapply hoare_bind with (Q := fun _ => at_ (in_phase (mkRunTimers ix ix real cpu) Q)); [keep|].
    intros ts. by apply (hoare_ret_at _ (fun t => in_phase (mkRunTimers (timer_ids (Some t) ++ ix) (timer_ids (Some t) ++ ix) real cpu) Q)). }
  eapply hoare_bind; [by apply new_context_hoare|]. intros c.
  set (R := in_phase (mkRunTimers ix (c :: ix) real cpu) Q).
  eapply hoare_bind with (Q := fun _ => at_ R); [change (keeps R (call (Sigaction SIGRTMIN))); keep|].
  intros installed.
  destruct (negb installed); [apply hoare_throw; [apply _|done]|].
  eapply hoare_bind with (Q := fun _ => at_ (in_phase (mkRunTimers (c :: ix) (c :: ix) real cpu) Q)).
  { eapply hoare_bind with (Q := fun r => at_ (match r with
      | Some _ => in_phase (mkRunTimers (c :: ix) (c :: ix) real cpu) Q | None => R end)).
    - apply call_conseq; [apply _|]. intros m l ctxs r [Hi Hq]. eexists. split; [done|].
      destruct r as [id|]; [|by split]. split; [|done].
      destruct Hi as [[] ? ? ? ? Ht ? ? ? ?]. constructor; try done. cbn. by rewrite Ht.
    - intros [id|]; [apply keeps_ret|]. apply hoare_throw; [apply _|done]. }
  intros timer_id. eapply hoare_bind with (Q := fun _ => at_ (in_phase (mkRunTimers (c :: ix) (c :: ix) real cpu) Q)); [keep|].
  intros [v|].
  - by apply (hoare_ret_at _ (fun t => in_phase (mkRunTimers (timer_ids (Some t) ++ ix) (timer_ids (Some t) ++ ix) real cpu) Q)).
  - eapply hoare_bind; [exact (keeps_delete_timer _ fuel _)|]. intros ?. apply hoare_throw; [apply _|done].
Qed.

(** ** The start of the program *)

(** The monitor has seen [execve] and waits for the first size. *)
Definition executing (ts : run_timers) : pred := fun m l ctxs =>
  exists m0, in_phase ts quiet m0 l ctxs /\ m = with_timers [] (with_peak (m_peak m0) true m0).

Instance executing_stable ts : Stable (executing ts).
Proof.
  split.
  - intros m l ctxs m' ctxs' (m0 & Hq & ->) (fired & d & -> & Hd & Hmk).
    exists (with_due d (with_fired (fired ++ m_fired m0) m0)). split; [|done].
    eapply stable; [exact Hq|]. by exists fired, d.
  - intros m l ctxs (m0 & [[[] ? ? ? ? ? ? ? ? ?] _] & ->). by constructor.
Qed.

Lemma first_size_hoare ts :
  hoare (at_ (executing ts)) (v ← get_tracee_vm_size kernel; set_sb (set_vm_peak v))
    (fun _ => at_ (in_phase (mkRunTimers [] [] (t_real ts) (t_cpu ts)) quiet)) E.
Proof.
  eapply hoare_bind; [apply (vm_size_hoare (executing ts))|]. intros v. apply hoare_setl.
  intros m' l ctxs (m & (m0 & (Hi & Hd & Hp) & ->) & Hv & ->).
  unfold on_size. cbn [m_memory with_timers with_peak m_exec]. rewrite Hp. split; [|done].
  destruct Hi as [[] ? ? ? ? ? ? ? ? ?]. constructor; try done. by intros i Hi%not_elem_of_nil.
Qed.

Lemma set_timer_hoare ts t Q :
  hoare (at_ (in_phase ts Q)) (setl (set_timer t))
    (fun _ => at_ (in_phase (mkRunTimers (ids ts) (tracked ts) t (t_cpu ts)) Q)) E.
Proof.
  apply hoare_setl. intros m l ctxs [[[] ? ? ? ? ? ? ? ? ?] Hq]. split; [|done]. by constructor.
Qed.

Lemma set_cpu_timer_hoare ts t Q :
  hoare (at_ (in_phase ts Q)) (setl (set_cpu_timer t))
    (fun _ => at_ (in_phase (mkRunTimers (ids ts) (tracked ts) (t_real ts) t) Q)) E.
Proof.
  apply hoare_setl. intros m l ctxs [[[] ? ? ? ? ? ? ? ? ?] Hq]. split; [|done]. by constructor.
Qed.

Lemma hoare_getl_any {A B} (R : pred) (f : run_locals -> A) (k : A -> M B) Q :
  (forall a, hoare (at_ R) (k a) Q E) -> hoare (at_ R) (getl f ≫= k) Q E.
Proof. intros Hk. apply hoare_getl. intros a. eapply hoare_pre_at; [|apply Hk]. by intros m l ctxs []. Qed.

Lemma bind_assoc_hoare {A B C} Pre (m : M A) (k : A -> M B) (g : B -> M C) Q :
  hoare Pre ((m ≫= k) ≫= g) Q E -> hoare Pre (m ≫= fun a => k a ≫= g) Q E.
Proof.
  intros Hh s Hs. specialize (Hh s Hs). unfold mbind, stm_bind in *. by destruct (m s) as [s' []].
Qed.

Lemma on_exec_hoare fuel ts opts :
  hoare (at_ (executing ts)) (on_exec kernel fuel opts)
    (fun _ => at_ (fun m l ctxs => exists real cpu, in_phase (of_timers real cpu) idle m l ctxs)) E.
Proof.
  unfold on_exec, get_sb. apply hoare_getl_any. intros pid. apply bind_assoc_hoare.
  eapply hoare_bind; [apply first_size_hoare|]. intros ?. apply hoare_getl_any. intros old.
  eapply hoare_bind; [apply (make_timer_hoare []); apply _|]. intros t1. cbn beta zeta.
  eapply hoare_bind; [apply set_timer_hoare|]. intros ?. cbn [ids tracked t_cpu].
  eapply hoare_bind; [exact (keeps_destroy _ fuel _)|]. intros ?. unfold call_or_throw.
  eapply hoare_bind; [match goal with |- hoare (at_ ?R) ?m _ _ => assert (keeps R m) as X by keep; exact X end|].
  intros clock. apply hoare_getl_any. intros old'.
  eapply hoare_bind; [apply make_timer_hoare; apply _|]. intros t2. cbn beta zeta.
  eapply hoare_bind; [apply set_cpu_timer_hoare|]. intros ?. cbn [ids tracked t_real t_cpu].
  rewrite app_nil_r.
  apply keeps_then; [apply keeps_destroy; apply _|].
  intros m l ctxs [Hi [Hd _]]. exists (Some t1), (Some t2). by split.
Qed.

(** ** One event *)

(** The invariant at the head of the loop. *)
Definition in_loop (Q : phase) : pred := fun m l ctxs => exists real cpu, in_phase (of_timers real cpu) Q m l ctxs.

Lemma hoare_in_loop {A} Q (k : M A) R E' :
  (forall real cpu, hoare (at_ (in_phase (of_timers real cpu) Q)) k R E') -> hoare (at_ (in_loop Q)) k R E'.
Proof. intros Hk s (m & Hm & real & cpu & Hq). apply (Hk real cpu). by exists m. Qed.

Lemma in_loop_intro Q s real cpu : at_ (in_phase (of_timers real cpu) Q) s -> at_ (in_loop Q) s.
Proof. apply at_conseq. intros m l ctxs Hq. by exists real, cpu. Qed.

(** The monitor has taken note of the event that [si] describes. *)
Definition noticed (ts : run_timers) (si : siginfo) : pred := fun m l ctxs =>
  exists m0, l_si l = si /\ in_phase ts quiet m0 (set_si (m_si m0) l) ctxs /\ m = on_event si m0.

Lemma noticed_other ts si m l ctxs : noticed ts si m l ctxs ->
  (si_code si =? CLD_TRAPPED) && (si_status si =? EXEC_STOP) = false ->
  is_signal_stop si && negb (si_status si =? SIGSYS) = false -> in_phase ts quiet m l ctxs.
Proof.
  intros (m0 & Hl & (Hi & Hq) & ->) H1 H2. unfold on_event. rewrite H1, H2. split; [|done].
  destruct Hi as [[] ? ? ? ? ? ? ? ? ?]. by constructor.
Qed.

Lemma noticed_exec ts si m l ctxs : noticed ts si m l ctxs ->
  (si_code si =? CLD_TRAPPED) && (si_status si =? EXEC_STOP) = true -> executing ts m l ctxs.
Proof.
  intros (m0 & Hl & (Hi & Hq) & ->) H1. unfold on_event. rewrite H1.
  assert (is_signal_stop si = false) as ->.
  { unfold is_signal_stop. apply andb_true_iff in H1 as [_ ->]. cbn [negb]. by rewrite andb_false_r. }
  cbn [andb]. exists (with_si si m0). split; [|done]. split; [|done].
  destruct Hi as [[] ? ? ? ? ? ? ? ? ?]. by constructor.
Qed.

Lemma noticed_signal ts si m l ctxs : noticed ts si m l ctxs ->
  is_signal_stop si && negb (si_status si =? SIGSYS) = true -> judged ts m l ctxs.
Proof.
  intros (m0 & Hl & (Hi & Hd & Hp) & ->) H1. unfold on_event. rewrite H1.
  assert ((si_code si =? CLD_TRAPPED) && (si_status si =? EXEC_STOP) = false) as ->.
  { apply andb_true_iff in H1 as [H1 _]. unfold is_signal_stop in H1. bools.
    destruct (si_status si =? EXEC_STOP); [done|]. by rewrite andb_false_r. }
  assert (inv ts (with_si si m0) l ctxs) as Hi'.
  { destruct Hi as [[] ? ? ? ? ? ? ? ? ?]. by constructor. }
  unfold die_if_timed_out. change (timed_out (with_si si m0)) with (timed_out m0).
  destruct (timed_out m0) eqn:Ht.
  - split; [split; [by apply inv_with_due, inv_with_due|done]|].
    change (MustDie = if timed_out m0 then MustDie else Nothing). by rewrite Ht.
  - split; [split; [by apply inv_with_due|done]|].
    change (m_due m0 = if timed_out m0 then MustDie else Nothing). by rewrite Ht.
Qed.

Lemma set_si_same l : set_si (l_si l) l = l.
Proof. by destruct l. Qed.

Lemma wait_hoare ts options :
  hoare (at_ (in_phase ts quiet)) (wait kernel options) (fun _ => at_ (fun m l ctxs => noticed ts (l_si l) m l ctxs)) E.
Proof.
  unfold wait, get_sb. apply hoare_getl_any. intros pid.
  eapply hoare_bind with (Q := fun r => at_ (fun m l ctxs => exists m0, in_phase ts quiet m0 l ctxs /\
    m = on_event (match r with Some (si, _) => si | None => m_si m0 end) m0)).
  { apply call_conseq; [apply _|]. intros m l ctxs r (Hi & Hd & Hp).
    exists (on_event (match r with Some (si, _) => si | None => m_si m end) m). split.
    - cbn [monitor_step]. rewrite Hp. by destruct r as [[]|].
    - exists m. by split. }
  intros [[si ru]|].
  - apply hoare_setl. intros m l ctxs (m0 & [Hi Hq] & ->). exists m0. split_and!; [done| |done].
    change (set_si (m_si m0) (set_si si l)) with (set_si (m_si m0) l).
    rewrite (inv_si _ _ _ _ Hi), set_si_same. by split.
  - apply (hoare_ret_at _ (fun _ m l ctxs => noticed ts (l_si l) m l ctxs)).
    intros m l ctxs (m0 & [Hi Hq] & ->). exists m0. rewrite (inv_si _ _ _ _ Hi), set_si_same. by split_and!.
Qed.

Lemma on_event_base si m l ctxs : base m l ctxs -> base (on_event si m) l ctxs.
Proof.
  intros [? ? ?]. unfold on_event, die_if_timed_out. repeat case_match; by constructor.
Qed.

Lemma noticed_base ts si m l ctxs : noticed ts si m l ctxs -> base m l ctxs.
Proof. intros (m0 & _ & [[[] ? ? ? ? ? ? ? ? ?] _] & ->). by apply on_event_base. Qed.

Lemma on_trapped_hoare fuel real cpu opts si : si_code si = CLD_TRAPPED ->
  hoare (at_ (noticed (of_timers real cpu) si)) (on_trapped kernel fuel opts si) (fun _ => at_ (in_loop idle)) E.
Proof.
  intros Hc. unfold on_trapped. destruct (negb _).
  { intros s Hs. cbn. revert Hs. apply at_conseq. intros m l ctxs. apply noticed_base. }
  set (ts := of_timers real cpu).
  assert (hoare (at_ (judged ts)) (on_other_stop kernel (si_status si)) (fun _ => at_ (in_loop idle)) E) as Hother.
  { eapply hoare_conseq; [apply on_other_stop_hoare|done|]. intros ? s. apply in_loop_intro. }
  assert (forall R, (si_code si =? CLD_TRAPPED) && R = R) as HR by (intros R; by rewrite Hc).
  destruct (Z.eqb_spec (si_status si) SIGSYS) as [Hs|Hs].
  - rewrite Hs. change (SIGSYS =? EXEC_STOP) with false. change (SIGSYS =? SECCOMP_STOP) with false.
    change (SIGSYS =? SYSCALL_STOP) with false.
    eapply hoare_bind with (Q := fun b : bool => at_ (if b then in_phase ts idle else judged ts)).
    + eapply hoare_pre_at; [|apply on_sigsys_hoare]. intros m l ctxs Hn. cbn beta.
      assert (l_si l = si) as -> by (by destruct Hn as (? & ? & _)). split.
      * unfold is_signal_stop. by rewrite Hc, Hs.
      * eapply noticed_other; [done|by rewrite Hc, Hs|by rewrite Hs, andb_false_r].
    + intros []; [|by rewrite <- Hs].
      apply (hoare_ret_at _ (fun _ => in_loop idle)). intros m l ctxs Hq. by exists real, cpu.
  - intros s Hn. rewrite (stm_bind_run _ _ s s false) by done. revert s Hn.
    assert (forall m l ctxs, noticed ts si m l ctxs -> si_status si = SECCOMP_STOP \/ si_status si = SYSCALL_STOP ->
      in_phase ts quiet m l ctxs) as Hnot.
    { intros m l ctxs Hn Hst. apply (noticed_other ts si); [done|..]; [|unfold is_signal_stop]; rewrite Hc.
      - by destruct Hst as [->| ->].
      - by destruct Hst as [->| ->]. }
    destruct (Z.eqb_spec (si_status si) EXEC_STOP) as [He|He].
    { apply (hoare_pre_at _ (executing ts)); [|apply on_exec_hoare].
      intros m l ctxs Hn. eapply noticed_exec; [done|]. by rewrite Hc, He. }
    destruct (Z.eqb_spec (si_status si) SECCOMP_STOP) as [Hse|Hse].
    { apply (hoare_pre_at _ (in_phase ts quiet)); [by auto|].
      eapply hoare_conseq; [apply on_seccomp_hoare|done|]. intros ? s. apply in_loop_intro. }
    destruct (Z.eqb_spec (si_status si) SYSCALL_STOP) as [Hsy|Hsy].
    { apply (hoare_ret_at _ (fun _ => in_loop idle)). intros m l ctxs Hn. exists real, cpu.
      destruct (Hnot m l ctxs Hn) as [Hi [Hd _]]; [by right|]. by split. }
    apply (hoare_pre_at _ (judged ts)); [|done]. intros m l ctxs Hn. eapply noticed_signal; [done|].
    unfold is_signal_stop. rewrite Hc. change (CLD_TRAPPED =? CLD_TRAPPED) with true. cbn [andb]. rewrite !(proj2 (Z.eqb_neq _ _)) by done. done.
Qed.

(** ** After the process has died

    From here on the process is not let go on any more.  The sandbox may have
    forgotten the greatest size, if the program was never executed. *)

Record weak (msg : str) (pk : Z) (m : monitor) (l : run_locals) (ctxs : ctxs_t) : Prop := {
  weak_message_m : m_message m = msg;
  weak_peak_m : m_peak m = pk;
  weak_message : message_to_set_in_exit_stat_ (sandbox l) = msg;
  weak_peak : tracee_vm_peak_ (sandbox l) = pk \/ tracee_vm_peak_ (sandbox l) = 0
}.

Instance weak_robust msg pk : Robust (weak msg pk).
Proof. by intros m l ctxs d f ctxs' []. Qed.

Definition Ew (msg : str) (pk : Z) : P -> Prop := at_ (weak msg pk).

(** The run has ended, or is about to. *)
Definition ending (s : P) : Prop := exists msg pk, Ew msg pk s.

Lemma E_ending s : E s -> ending s.
Proof.
  intros (m & Hm & []). exists (m_message m), (m_peak m), m. split; [done|]. constructor; try done. by left.
Qed.

Lemma hoare_E {A} Pre (m : M A) Q (E1 E2 : P -> Prop) :
  (forall s, E1 s -> E2 s) -> hoare Pre m Q E1 -> hoare Pre m Q E2.
Proof. intros HE Hm s Hs. specialize (Hm s Hs). destruct (m s) as [s' []]; auto. Qed.

(** A request that neither lets the process go on nor changes what [weak] is
    about. *)
Definition calm {A} (c : sys A) : Prop := forall m a, exists m',
  monitor_step static_callbacks allowed m (Did c a) = Some m' /\
  m_message m' = m_message m /\ m_peak m' = m_peak m.

(** What such requests are made of, however it ends. *)
Definition calms {A} (m : M A) : Prop :=
  forall msg pk, hoare (Ew msg pk) m (fun _ => Ew msg pk) (Ew msg pk).

Lemma calms_call {A} (c : sys A) : calm c -> calms (call c).
Proof.
  intros Hc msg pk. eapply hoare_conseq; [apply (call_robust c (weak msg pk) (weak msg pk))|done|].
  - intros m l ctxs m' ctxs' Hw (f & d & -> & _). by eapply robust.
  - done.
  - intros m l ctxs a _. destruct (Hc m a) as (m' & -> & _). done.
  - intros a s. apply at_conseq. intros m' l ctxs (m & [? ? ? ?] & Es).
    destruct (Hc m a) as (m'' & Es' & H1 & H2). simplify_eq. constructor; congruence || done.
Qed.

Lemma calms_bind {A B} (m : M A) (k : A -> M B) : calms m -> (forall a, calms (k a)) -> calms (m ≫= k).
Proof. intros Hm Hk msg pk. eapply hoare_bind; [apply Hm|intros a; apply Hk]. Qed.
Lemma calms_ret {A} (a : A) : calms (mret a).
Proof. by intros msg pk s Hs. Qed.
Lemma calms_lift {A} (r : outcome A) : calms (lift r).
Proof. intros msg pk s Hs. unfold lift. by destruct r. Qed.
Lemma calms_gets {A B} (f : P -> A) (k : A -> M B) : (forall a, calms (k a)) -> calms (gets f ≫= k).
Proof. intros Hk msg pk s Hs. by apply (Hk (f s)). Qed.
Lemma calms_getl {A B} (f : run_locals -> A) (k : A -> M B) : (forall a, calms (k a)) -> calms (getl f ≫= k).
Proof. intros Hk msg pk s Hs. by apply (Hk (f (loc s))). Qed.
Lemma calms_setl f :
  (forall l, message_to_set_in_exit_stat_ (sandbox (f l)) = message_to_set_in_exit_stat_ (sandbox l) /\
             tracee_vm_peak_ (sandbox (f l)) = tracee_vm_peak_ (sandbox l)) -> calms (setl f).
Proof.
  intros Hf msg pk s (m & Hm & [? ? ? ?]). exists m. split; [done|]. cbn. destruct (Hf (loc s)) as [E1 E2].
  constructor; congruence || by rewrite E2.
Qed.
Lemma calms_forget : calms (set_sb (set_vm_peak 0)).
Proof. intros msg pk s (m & Hm & [? ? ? ?]). exists m. split; [done|]. constructor; try done. by right. Qed.

Lemma calm_neutral {A} (c : sys A) : neutral c -> calm c.
Proof. intros Hc m a. exists m. by rewrite Hc. Qed.

Lemma calm_kill pid sig : calm (Kill pid sig).
Proof. intros m a. eexists. split; [done|]. destruct (on_kill_due pid sig m) as (d & -> & _). done. Qed.

Lemma calm_waitid pid options : calm (Waitid pid options).
Proof.
  intros m a. cbn [monitor_step].
  assert (forall si, m_message (on_event si m) = m_message m /\ m_peak (on_event si m) = m_peak m) as He.
  { intros si. unfold on_event, die_if_timed_out. repeat case_match; done. }
  destruct a as [[si ru]|], (m_memory m); eauto.
Qed.

Ltac calming :=
  repeat (cbn beta iota; lazymatch goal with
    | |- calms (mret _) => apply calms_ret
    | |- calms (lift _) => apply calms_lift
    | |- calms (throw_error ?x) => apply (calms_lift (Throw (RuntimeError x)))
    | |- calms (gets _ ≫= _) => apply calms_gets; intros ?
    | |- calms (getl _ ≫= _) => apply calms_getl; intros ?
    | |- calms (get_sb _ ≫= _) => apply calms_getl; intros ?
    | |- calms (_ ≫= _) => apply calms_bind; [|intros ?]
    | |- calms (Os.call _ (Kill _ _)) => apply calms_call, calm_kill
    | |- calms (Os.call _ (Waitid _ _)) => apply calms_call, calm_waitid
    | |- calms (Os.call _ _) => apply calms_call, calm_neutral; by intros ? ?
    | |- calms (set_sb (set_vm_peak 0)) => apply calms_forget
    | |- calms (setl _) => apply calms_setl; by intros ?
    | |- calms (set_sb (set_statm_fd _)) => apply calms_setl; by intros ?
    | |- calms (when ?b _) => destruct b; cbn [when]
    | |- calms (match ?x with _ => _ end) => destruct x
    end).

Lemma calms_pause fuel t : calms (pause_until_sent kernel fuel t).
Proof.
  induction fuel as [|fuel IH]; cbn [pause_until_sent]; [calming|].
  unfold timeout_signal_was_sent. calming; apply IH.
Qed.

Lemma calms_delete fuel t : calms (delete_timer_and_get_remaning_time kernel fuel t).
Proof. unfold delete_timer_and_get_remaning_time. calming; apply calms_pause. Qed.

Lemma calms_destroy fuel t : calms (destroy_timer kernel fuel t).
Proof. destruct t; cbn [destroy_timer]; unfold delete_timer; calming; apply calms_delete. Qed.

Lemma calms_stop fuel t : calms (stop_timer kernel fuel t).
Proof.
  destruct t; cbn [stop_timer]; unfold deactivate_and_get_runtime; calming; apply calms_delete.
Qed.

Lemma calms_wait options : calms (wait kernel options).
Proof. unfold wait. calming. Qed.

Lemma calms_read_all fuel fd message : calms (read_all kernel fuel fd message).
Proof. revert message. induction fuel as [|fuel IH]; intros message; cbn [read_all]; calming; apply IH. Qed.

Lemma calms_get_cpu fuel b : calms (get_cpu_time_and_wait_tracee kernel fuel b).
Proof. unfold get_cpu_time_and_wait_tracee. calming; first [apply calms_wait | apply calms_stop]. Qed.

Lemma calms_on_exception fuel e : calms (on_exception kernel fuel e).
Proof. unfold on_exception, kill_group. calming. apply calms_get_cpu. Qed.

Lemma calms_receive fuel si fd : calms (receive_error_message kernel strsignal fuel si fd).
Proof. unfold receive_error_message. calming. apply calms_read_all. Qed.

(** ** The whole run *)

(** What [run_sandboxed] says: the reason the monitor has for the end of the
    process, if it has one, and the greatest size it has seen (or 0). *)
Definition reported (page : Z) (es : ExitStat) (msg : str) (pk : Z) : Prop :=
  (msg <> [] -> es_message es = msg) /\
  (vm_peak es = (pk * page) mod 2 ^ 64 \/ vm_peak es = 0).

Definition done_with (page : Z) (es : ExitStat) (s : P) : Prop :=
  exists msg pk, reported page es msg pk /\ Ew msg pk s.

Lemma hoare_finally {A} Pre (m : M A) (rep : A -> str -> Z -> Prop) d :
  hoare Pre m (fun a s => exists msg pk, rep a msg pk /\ Ew msg pk s) ending -> calms d ->
  hoare Pre (finally m d) (fun a s => exists msg pk, rep a msg pk /\ Ew msg pk s) ending.
Proof.
  intros Hm Hd s Hs. specialize (Hm s Hs). unfold finally.
  destruct (m s) as [s1 [a|e| |]]; [destruct Hm as (msg & pk & Hr & Hw)|destruct Hm as (msg & pk & Hw)|done|done];
    specialize (Hd msg pk s1 Hw); destruct (d s1) as [s2 []]; unfold ending; eauto 10.
Qed.

Lemma calms_ending {A} (m : M A) : calms m -> hoare ending m (fun _ => ending) ending.
Proof.
  intros Hm s (msg & pk & Hw). specialize (Hm msg pk s Hw). destruct (m s) as [s' []]; by exists msg, pk.
Qed.

Lemma in_phase_ending ts Q s : at_ (in_phase ts Q) s -> ending s.
Proof. intros Hs. apply E_ending. revert Hs. apply at_conseq. by intros m l ctxs [[] _]. Qed.

Lemma one_event_hoare fuel opts :
  hoare (at_ (in_loop idle)) (one_event kernel fuel opts)
    (fun b s => if (b : bool) then ending s else at_ (in_loop idle) s) ending.
Proof.
  apply hoare_in_loop. intros real cpu. unfold one_event.
  eapply hoare_bind; [apply (hoare_E _ _ _ E); [apply E_ending|apply deliver_hoare]|]. intros ?.
  eapply hoare_bind; [apply (hoare_E _ _ _ E); [apply E_ending|apply wait_hoare]|]. intros ?.
  set (ts := of_timers real cpu). intros s Hs.
  rewrite (stm_bind_run _ _ s s (l_si (loc s))) by done.
  assert (at_ (noticed ts (l_si (loc s))) s) as Hn by exact Hs. clear Hs.
  assert (E s) as HE by (revert Hn; apply at_conseq; intros m l ctxs; apply noticed_base).
  destruct (Z.eqb_spec (si_code (l_si (loc s))) CLD_TRAPPED) as [Ht|Ht].
  { pose proof (on_trapped_hoare fuel real cpu opts _ Ht s Hn) as Hh. unfold mbind, stm_bind.
    destruct (on_trapped _ _ _ _ s) as [s' []]; cbn; by first [done|apply E_ending]. }
  assert (at_ (in_phase ts idle) s) as Hidle.
  { revert Hn. apply at_conseq. intros m l ctxs Hn. apply noticed_other in Hn as [Hi [Hd _]]; [by split|..].
    - by rewrite (proj2 (Z.eqb_neq _ _)).
    - unfold is_signal_stop. by rewrite (proj2 (Z.eqb_neq _ _)). }
  destruct (si_code (l_si (loc s)) =? CLD_STOPPED).
  { pose proof (deliver_hoare ts (si_status (l_si (loc s))) s Hidle) as Hh. unfold mbind, stm_bind.
    destruct (deliver _ _ s) as [s' []]; cbn; try by apply E_ending.
    apply (in_loop_intro _ _ real cpu). revert Hh. apply at_conseq. by intros m l ctxs [Hi [Hd _]]. }
  destruct (bool_decide _).
  - pose proof (calms_ending _ (calms_get_cpu fuel true) s (E_ending s HE)) as Hh. unfold mbind, stm_bind.
    by destruct (get_cpu_time_and_wait_tracee _ _ _ s) as [s' []].
  - cbn. by apply (in_loop_intro _ _ real cpu).
Qed.

Lemma event_loop_hoare fuel n opts :
  hoare (at_ (in_loop idle)) (event_loop kernel fuel n opts) (fun _ => ending) ending.
Proof.
  induction n as [|n IH]; cbn [event_loop].
  { intros s Hs. cbn. apply E_ending. revert Hs. apply at_conseq. by intros m l ctxs (real & cpu & [] & _). }
  eapply hoare_bind; [apply one_event_hoare|]. intros []; [by intros s Hs|apply IH].
Qed.

Lemma run_handlers_loc sigs (s s' : P) u : run_handlers kernel sigs s = (s', Ok u) -> loc s' = loc s.
Proof.
  revert s. induction sigs as [|[code i] sigs IH]; intros s Hr; cbn [run_handlers] in Hr; [by inversion Hr|].
  apply stm_bind_Ok in Hr as (s1 & v & H1 & H2). apply IH in H2. rewrite H2. clear H2 IH.
  unfold timeout_handler in H1. destruct (negb _); [by inversion H1|].
  apply stm_bind_Ok in H1 as (s2 & ctxs & H2 & H1). inversion H2; subst; clear H2.
  apply stm_bind_Ok in H1 as (s3 & ctx & H2 & H1). unfold lift in H2. destruct (_ !! i); inversion H2; subst.
  apply stm_bind_Ok in H1 as (s4 & a & H3 & H1). inversion H1; subst.
  destruct (request_run (Kill (watched_pid ctx) (timeout_signal ctx)) s3) as (w & b & E1). rewrite E1 in H3.
  by inversion H3.
Qed.

(** A request leaves the variables alone, and its answer is the kernel's. *)
Lemma call_loc {A} (c : sys A) (s s' : P) a : call c s = (s', Ok a) -> loc s' = loc s /\ exists w, (kernel A c w).2 = a.
Proof.
  unfold call, Os.call. intros H. apply stm_bind_Ok in H as (s1 & sigs & H1 & H).
  apply stm_bind_Ok in H as (s2 & u & H2 & H3). apply run_handlers_loc in H2.
  destruct (request_run Signals s) as (w & b & E1). rewrite E1 in H1. simplify_eq. cbn in H2. rewrite <- H2.
  unfold request in H3. destruct (kernel A c (world s2)) as [w' a'] eqn:Ek. simplify_eq. split; [done|].
  exists (world s2). by rewrite Ek.
Qed.

Lemma exit_stat_hoare fuel pipe page : (forall w, (kernel _ SysconfPagesize w).2 = page) ->
  hoare ending (exit_stat kernel strsignal fuel pipe) (done_with page) ending.
Proof.
  intros Hpage s (msg & pk & Hw). unfold exit_stat. rewrite (stm_bind_run _ _ s s (loc s)) by done.
  assert (calms (call SysconfPagesize)) as Hc by calming. specialize (Hc msg pk s Hw).
  unfold mbind at 1, stm_bind at 1. destruct (call SysconfPagesize s) as [s1 [pagesize|e| |]] eqn:Ec;
    [|by exists msg, pk..].
  apply call_loc in Ec as [_ [w Ew']]. rewrite Hpage in Ew'. subst pagesize.
  destruct Hw as (m & Hm & [_ Hpk Hmsg Hpk']). set (l := loc s) in *.
  assert (forall text, (msg <> [] -> text = msg) ->
    done_with page (mkExitStat (l_runtime l) (l_cpu_runtime l) (si_code (l_si l)) (si_status (l_si l)) (l_ru l)
      ((tracee_vm_peak_ (sandbox l) * page) mod 2 ^ 64) text) s1) as Hdone.
  { intros text Ht. exists msg, pk. split; [|done]. split; [done|]. cbn [vm_peak].
    destruct Hpk' as [-> | ->]; [by left|right; done]. }
  cbv zeta. rewrite Hmsg. destruct msg as [|ch msg]; [|by apply Hdone].
  change (negb (StringView.SV.empty [])) with false. cbv iota.
  destruct (negb _ || negb _); [|by apply Hdone].
  assert (calms (receive_error_message kernel strsignal fuel (l_si l) pipe)) as Hr by apply calms_receive.
  specialize (Hr [] pk s1 Hc). unfold mbind, stm_bind.
  destruct (receive_error_message _ _ _ _ _ s1) as [s2 [text|e| |]]; [|exact (ex_intro _ [] (ex_intro _ pk Hr))..].
  exists [], pk. split; [|done]. split; [done|]. cbn [vm_peak]. destruct Hpk' as [-> | ->]; [by left|by right].
Qed.

Lemma try_loop_hoare fuel n opts :
  hoare (at_ (in_loop idle)) (try_catch (event_loop kernel fuel n opts) (on_exception kernel fuel))
    (fun _ => ending) ending.
Proof.
  intros s Hs. pose proof (event_loop_hoare fuel n opts s Hs) as Hh. unfold try_catch.
  destruct (event_loop _ _ _ _ s) as [s1 [u|e| |]]; [done| |done|done].
  apply (calms_ending _ (calms_on_exception fuel e)). done.
Qed.

Lemma calms_destroy_timers fuel : calms (destroy_timers kernel fuel).
Proof. unfold destroy_timers. calming; apply calms_destroy. Qed.

Lemma calms_close_statm : calms (close_statm kernel).
Proof. unfold close_statm. calming. Qed.

Lemma calms_guard : calms (guard kernel).
Proof. unfold guard, kill_and_wait. calming. Qed.

Definition no_timers : run_timers := of_timers None None.

Lemma inv_statm ts fd m l ctxs : inv ts m l ctxs -> inv ts m (on_sandbox (set_statm_fd fd) l) ctxs.
Proof. intros [[] ? ? ? ? ? ? ? ? ?]. constructor; done. Qed.

Lemma trace_tracee_hoare fuel opts pipe page : (forall w, (kernel _ SysconfPagesize w).2 = page) ->
  hoare (at_ (in_phase no_timers quiet)) (trace_tracee kernel strsignal fuel opts pipe) (done_with page) ending.
Proof.
  intros Hpage. unfold trace_tracee, get_sb.
  assert (forall A (m : M A) Q, keeps (in_phase no_timers quiet) m ->
    (forall a, hoare (at_ (in_phase no_timers quiet)) (Q a) (done_with page) ending) ->
    hoare (at_ (in_phase no_timers quiet)) (m ≫= Q) (done_with page) ending) as Hk.
  { intros A m Q Hm HQ. eapply hoare_bind; [apply (hoare_E _ _ _ E); [apply E_ending|exact Hm]|exact HQ]. }
  intros s Hs. rewrite (stm_bind_run _ _ s s (tracee_pid_ (sandbox (loc s)))) by done.
  generalize (tracee_pid_ (sandbox (loc s))). intros pid. revert s Hs. apply Hk; [keep|].
  assert (forall fd, keeps (in_phase no_timers quiet) (set_sb (set_statm_fd fd))) as Hfd.
  { intros fd. apply hoare_setl. intros m l ctxs [Hi Hq]. split; [by apply inv_statm|done]. }
  intros [fd|]; (apply Hk; [apply Hfd|intros _]).
  2: { intros s Hs. cbn. by eapply in_phase_ending. }
  apply hoare_finally; [|apply calms_close_statm]. apply hoare_finally; [|apply calms_destroy_timers].
  apply Hk; [unfold do_in_parent_after_fork; keep|]. intros _.
  eapply hoare_pre_at with (R' := in_loop idle).
  { intros m l ctxs [Hi [Hd _]]. exists None, None. by split. }
  eapply hoare_bind; [apply try_loop_hoare|]. intros ?. by apply exit_stat_hoare.
Qed.

(** ** From the start *)

(** The policy has not been violated. *)
Definition unviolated (s : P) : Prop := exists m, mon (trace s) = Some m.

Lemma ending_unviolated s : ending s -> unviolated s.
Proof. intros (msg & pk & m & Hm & _). by exists m. Qed.

(** Before [fork]: the monitor does not know the process yet. *)
Definition before_fork : pred := fun m l ctxs =>
  message_to_set_in_exit_stat_ (sandbox l) = [] /\ tracee_vm_peak_ (sandbox l) = 0 /\
  in_phase no_timers quiet m (on_sandbox (set_tracee_pid (m_pid m)) l) ctxs.

Lemma before_fork_stable m l ctxs m' ctxs' : before_fork m l ctxs -> delivered m ctxs m' ctxs' -> before_fork m' l ctxs'.
Proof.
  intros (H1 & H2 & Hq) Hd. split_and!; [done|done|].
  assert (m_pid m' = m_pid m) as -> by (by destruct Hd as (f & d & -> & _)).
  eapply stable; [exact Hq|done].
Qed.

(** After [fork], with nothing said about the process. *)
Definition forked : pred := fun m l ctxs =>
  (message_to_set_in_exit_stat_ (sandbox l) = [] /\ tracee_vm_peak_ (sandbox l) = 0) /\
  in_phase no_timers quiet m l ctxs.

(** The first event has come; the monitor may take it for [execve]. *)
Definition attached : pred := fun m l ctxs =>
  exists m0, forked m0 l ctxs /\ (m = m0 \/ m = with_peak (m_peak m0) true m0).

Instance attached_stable : Stable attached.
Proof.
  split.
  - intros m l ctxs m' ctxs' (m0 & [Hl Hq] & Hm) (fired & d & -> & Hd & Hmk).
    exists (with_due d (with_fired (fired ++ m_fired m0) m0)). split; [split; [done|]|].
    + eapply stable; [exact Hq|]. exists fired, d. split; [done|]. split; [|done].
      by destruct Hm as [-> | ->].
    + destruct Hm as [-> | ->]; [by left|by right].
  - intros m l ctxs (m0 & [_ [[[] ? ? ? ? ? ? ? ? ?] _]] & [-> | ->]); by constructor.
Qed.

Lemma on_event_no_timers si m l ctxs : in_phase no_timers quiet m l ctxs ->
  on_event si m = with_si si m \/ on_event si m = with_peak (m_peak m) true (with_si si m).
Proof.
  intros [Hi _]. pose proof (inv_timers _ _ _ _ Hi) as Ht. unfold on_event, die_if_timed_out.
  assert (forall m', m_timers m' = [] -> timed_out m' = false) as Hto by (intros m' E1; unfold timed_out; by rewrite E1).
  destruct m. cbn in Ht. subst.
  destruct (_ && _), (_ && _); rewrite ?Hto by done; by auto.
Qed.

Lemma waited_first pid options :
  hoare (at_ forked) (call_or_throw kernel (lit "waitid()") (Waitid pid options))
    (fun r => at_ (fun m l ctxs => attached m (set_si (fst r) l) ctxs)) E.
Proof.
  unfold call_or_throw. eapply hoare_bind with (Q := fun r => at_ (fun m l ctxs =>
    match r with Some (si, _) => attached m (set_si si l) ctxs | None => base m l ctxs end)).
  { apply call_conseq; [apply loc_stable; apply _|]. intros m l ctxs r (Hl & Hq).
    pose proof Hq as (Hi & Hd & Hp). cbn [monitor_step]. rewrite Hp.
    destruct r as [[si ru]|]; (eexists; split; [done|]).
    - exists (with_si si m). split; [|exact (on_event_no_timers si m l ctxs Hq)]. split; [done|]. split; [|done].
      destruct Hi as [[] ? ? ? ? ? ? ? ? ?]. by constructor.
    - apply on_event_base. by apply Hi. }
  intros [[si ru]|].
  - by apply (hoare_ret_at _ (fun r m l ctxs => attached m (set_si (fst r) l) ctxs)).
  - intros s Hs. exact Hs.
Qed.

Lemma setoptions_hoare pid :
  hoare (at_ attached) (call (PtraceSetoptions pid)) (fun _ => at_ (in_phase no_timers quiet)) E.
Proof.
  apply call_conseq; [apply _|]. intros m l ctxs ok (m0 & [[_ Hpk] [Hi Hq]] & Hm). eexists. split; [done|].
  replace (with_peak 0 false m) with m0; [by split|].
  pose proof (inv_exec _ _ _ _ Hi) as He. pose proof (base_peak _ _ _ (inv_base _ _ _ _ Hi)) as Hb. rewrite Hpk in Hb.
  destruct m0; cbn in He, Hb; subst. by destruct Hm as [-> | ->].
Qed.

Lemma watch_tracee_hoare fuel opts pid pipe page : (forall w, (kernel _ SysconfPagesize w).2 = page) ->
  hoare (at_ forked) (watch_tracee kernel strsignal fuel opts pid pipe) (done_with page) ending.
Proof.
  intros Hpage. unfold watch_tracee.
  eapply hoare_bind; [apply (hoare_E _ _ _ E); [apply E_ending|apply waited_first]|]. intros [si ru]. cbn [fst].
  eapply hoare_bind with (Q := fun _ => at_ attached).
  { apply (hoare_E _ _ _ E); [apply E_ending|]. by apply hoare_setl. }
  intros _. destruct (negb _).
  { intros s Hs.
    assert (exists pk, Ew [] pk s) as [pk Hw].
    { destruct Hs as (m & Hm & (m0 & [[Hmsg Hpk] [Hi _]] & Hm0)). exists (m_peak m), m. split; [done|].
      pose proof (inv_base _ _ _ _ Hi) as [? ? ?]. constructor; [|done|done|by right].
      destruct Hm0 as [-> | ->]; cbn; congruence. }
    pose proof (calms_receive fuel si pipe [] pk s Hw) as Hr. unfold mbind, stm_bind.
    destruct (receive_error_message _ _ _ _ _ s) as [s' [text|e| |]]; [|exact (ex_intro _ [] (ex_intro _ pk Hr))..].
    exists [], pk. split; [|done]. split; [done|by right]. }
  eapply hoare_bind with (Q := fun _ => at_ attached).
  { apply (hoare_E _ _ _ E); [apply E_ending|]. apply hoare_setl.
    intros m l ctxs (m0 & [Hl [Hi Hq]] & Hm). exists m0. split; [|done]. split; [done|]. split; [|done].
    destruct Hi as [[] ? ? ? ? ? ? ? ? ?]. by constructor. }
  intros _. apply hoare_finally; [|apply calms_guard].
  eapply hoare_bind; [apply (hoare_E _ _ _ E); [apply E_ending|apply setoptions_hoare]|]. intros ok.
  destruct (negb ok); [|by apply trace_tracee_hoare]. intros s Hs. cbn. by eapply in_phase_ending.
Qed.

(** The start of a run, by a sandbox that may have been used before. *)
Definition ready (l : run_locals) : Prop := map reset (callbacks_ (sandbox l)) = static_callbacks.

Lemma static_callbacks_current :
  static_callbacks = imap (fun id cb => current (counted id monitor_start) cb) static_callbacks.
Proof. reflexivity. Qed.

Definition prepared (l : run_locals) : run_locals :=
  on_sandbox (set_allowed_files allowed) (on_sandbox (set_message []) (on_sandbox (set_vm_peak 0)
    (on_sandbox (fun sb => set_callbacks (map reset (callbacks_ sb)) sb) (fresh_locals (sandbox l))))).

Lemma prepared_before_fork l ctxs : ready l -> before_fork monitor_start (prepared l) ctxs.
Proof.
  intros Hr. split_and!; [done|done|]. split; [|done]. constructor; try done.
  - split; [cbn; rewrite Hr; apply static_callbacks_current|].
    intros id cb Hid. unfold within_limit. destruct cb; [done| |done].
    assert (Forall (fun cb => match cb with SyscallCallbackLimiting limit _ _ => 0 <= limit | _ => True end) static_callbacks) as HF.
    { unfold static_callbacks. repeat constructor; lia. }
    rewrite Forall_lookup in HF. specialize (HF _ _ Hid). cbn in HF. unfold counted. cbn [m_count monitor_start]. rewrite lookup_empty. cbn [default]. lia.
  - by intros i Hi%not_elem_of_nil.
  - by intros i Hi%not_elem_of_nil.
Qed.

Instance true_robust : Robust (fun _ _ _ => True).
Proof. by intros ? ? ? ? ? ?. Qed.

Lemma fork_hoare fuel opts page : (forall w, (kernel _ SysconfPagesize w).2 = page) ->
  hoare (at_ before_fork)
    (pfd ← call_or_throw kernel (lit "pipe()") Pipe2;
     r ← call Fork;
     let pid := match r with Some pid => pid | None => -1 end in
     _ ← set_sb (set_tracee_pid pid);
     _ ← when (pid =? -1) (throw_error (lit "fork()"));
     _ ← call (Close pfd.2);
     finally (watch_tracee kernel strsignal fuel opts pid pfd.1) (call (Close pfd.1)))
    (done_with page) unviolated.
Proof.
  intros Hpage.
  assert (forall A (c : sys A), (forall m a, monitor_step static_callbacks allowed m (Did c a) <> None) ->
    hoare (at_ before_fork) (call c) (fun a => at_ (fun m' l ctxs => exists m, before_fork m l ctxs /\
       monitor_step static_callbacks allowed m (Did c a) = Some m')) unviolated) as Hcall.
  { intros A c Hc. apply (hoare_E _ _ _ (at_ (fun _ _ _ => True))); [by intros s (m & Hm & _); exists m|].
    apply (call_robust c (fun _ _ _ => True) before_fork); [apply before_fork_stable|done|by eauto]. }
  unfold call_or_throw at 1. eapply hoare_bind with (Q := fun _ => at_ before_fork).
  { eapply hoare_bind; [by apply Hcall|]. intros [pfd|] s Hs.
    - destruct Hs as (m' & Hm' & m & Hb & Em). cbn in Em. simplify_eq. by exists m'.
    - destruct Hs as (m' & Hm' & _). by exists m'. }
  intros pfd. eapply hoare_bind; [by apply Hcall|]. intros r. cbv zeta.
  destruct r as [pid|].
  2: { intros s (m' & Hm' & _). by exists m'. }
  eapply hoare_bind with (Q := fun _ => at_ forked).
  { intros s (m' & Hm' & m & (H1 & H2 & Hi & Hq) & Em). cbn in Em. simplify_eq. exists (with_pid pid m).
    split; [done|]. split; [done|]. split; [|done]. destruct Hi as [[] ? ? ? ? ? ? ? ? ?]. by constructor. }
  intros _. destruct (pid =? -1); cbn [when].
  { intros s (m & Hm & _). by exists m. }
  eapply hoare_bind with (Q := fun _ => at_ forked); [by intros s Hs|]. intros _.
  apply (hoare_E _ _ _ ending); [apply ending_unviolated|].
  eapply hoare_bind; [apply (hoare_E _ _ _ E); [apply E_ending|]|].
  { apply (keeps_call forked (Close pfd.2)). by intros ? ?. }
  intros ?. apply hoare_finally; [by apply watch_tracee_hoare|calming].
Qed.

Lemma run_hoare fuel opts page (s : P) : (forall w, (kernel _ SysconfPagesize w).2 = page) ->
  ready (loc s) -> trace s = [] ->
  match run_sandboxed kernel strsignal fuel opts allowed s with
  | (s', Ok es) => done_with page es s'
  | (s', _) => unviolated s'
  end.
Proof.
  intros Hpage Hr Ht. unfold run_sandboxed.
  set (s1 := mkProc (fresh_locals (sandbox (loc s))) (contexts s) (world s) (trace s)).
  rewrite (stm_bind_run _ _ s s1 tt) by done.
  assert (unviolated s1) as Hu by (exists monitor_start; cbn [trace s1]; by rewrite Ht).
  unfold check_limits. unfold when.
  repeat match goal with |- context [if ?b then throw_error _ else _] => destruct b; [exact Hu|] end.
  set (s2 := mkProc (prepared (loc s)) (contexts s) (world s) (trace s)).
  change (match (pfd ← call_or_throw kernel (lit "pipe()") Pipe2;
     r ← call Fork;
     let pid := match r with Some pid => pid | None => -1 end in
     _ ← set_sb (set_tracee_pid pid);
     _ ← when (pid =? -1) (throw_error (lit "fork()"));
     _ ← call (Close pfd.2);
     finally (watch_tracee kernel strsignal fuel opts pid pfd.1) (call (Close pfd.1))) s2 with
  | (s', Ok es) => done_with page es s'
  | (s', _) => unviolated s'
  end).
  apply fork_hoare; [done|]. exists monitor_start. cbn [trace loc contexts s2].
  split; [by rewrite Ht|by apply prepared_before_fork].
Qed.
End Proofs.


(** A process that executes a program, which tries to open a file that is not on
    the list and then to open a socket. *)
Definition script : list siginfo :=
  [mkSi SIGCHLD CLD_TRAPPED SIGSTOP; mkSi SIGCHLD CLD_TRAPPED EXEC_STOP;
   mkSi SIGCHLD CLD_TRAPPED SECCOMP_STOP; mkSi SIGCHLD CLD_TRAPPED SIGSYS;
   mkSi SIGCHLD CLD_KILLED SIGKILL].

Definition script_regs : x86_64_user_regset :=
  mkRegs64 0 0 0 0 0 0 0 0 0 0 0 0 0 0 4096 2 0 0 0 0 0 0 0 0 0 0 0.

Definition script_kernel (A : Type) (c : sys A) (w : nat) : nat * A :=
  match c in sys B return nat * B with
  | Waitid _ _ => (S w, Some (default (mkSi SIGCHLD CLD_KILLED SIGKILL) (script !! w), []))
  | PtraceGeteventmsg _ => (w, Some 7)
  | PtraceGetregs64 _ => (w, Some script_regs)
  | ProcessVmReadv _ _ _ => (w, Some (lit "/etc/passwd" ++ [NUL] ++ lit "x"))
  | PtraceGetsiginfo _ => (w, Some (mkSigsys SYS_SECCOMP 41 62))
  | SyscallResolve _ _ => (w, Some (lit "socket"))
  | c => (w, (quiet_kernel _ c tt).2)
  end.

Definition script_start : proc nat run_locals := mkProc (fresh_locals (loc built)) [] 0%nat [].

Definition script_run : proc nat run_locals * outcome ExitStat :=
  run_sandboxed script_kernel (fun _ => []) 10 default_options [(lit "in", RDONLY)] script_start.


(** ** Two things the monitor cannot see *)

(** A signal is delivered with one [PTRACE_CONT], and the head of the loop gives
    another one without waiting in between.  If the process has reached its next
    stop by then - say, an [open] that has to be checked - that stop is resumed
    and never looked at. *)
Definition signal_script : list siginfo :=
  [mkSi SIGCHLD CLD_TRAPPED SIGSTOP; mkSi SIGCHLD CLD_TRAPPED EXEC_STOP;
   mkSi SIGCHLD CLD_TRAPPED 10; mkSi SIGCHLD CLD_EXITED 0].

Definition signal_kernel (A : Type) (c : sys A) (w : nat) : nat * A :=
  match c in sys B return nat * B with
  | Waitid _ _ => (S w, Some (default (mkSi SIGCHLD CLD_EXITED 0) (signal_script !! w), []))
  | c => (w, (quiet_kernel _ c tt).2)
  end.

Definition cont_of (e : entry) : option Z :=
  match e with @Did _ c _ => match c with PtraceCont _ sig => Some sig | _ => None end end.
Definition is_wait (e : entry) : bool :=
  match e with @Did _ c _ => match c with Waitid _ _ => true | _ => false end end.

Theorem signal_resumed_twice :
  exists before between after,
    trace (run_sandboxed signal_kernel (fun _ => []) 10 default_options [] script_start).1 =
      before ++ [Did (PtraceCont 100 10) true] ++ between ++ [Did (PtraceCont 100 0) true] ++ after /\
    existsb is_wait between = false.
Proof.
  set (t := trace (run_sandboxed signal_kernel (fun _ => []) 10 default_options [] script_start).1).
  exists (take 33 t), (take 1 (drop 34 t)), (drop 36 t). split; vm_compute; reflexivity.
Qed.

(** When a signal comes instead of the end of a call that changes the size of
    memory, the callback leaves it to the loop, which resumes the process with
    [PTRACE_CONT] and no signal: the signal is lost. *)
Definition lost_script : list siginfo :=
  [mkSi SIGCHLD CLD_TRAPPED SIGSTOP; mkSi SIGCHLD CLD_TRAPPED EXEC_STOP;
   mkSi SIGCHLD CLD_TRAPPED SECCOMP_STOP; mkSi SIGCHLD CLD_TRAPPED 10; mkSi SIGCHLD CLD_EXITED 0].

Definition lost_kernel (A : Type) (c : sys A) (w : nat) : nat * A :=
  match c in sys B return nat * B with
  | Waitid _ _ => (S w, Some (default (mkSi SIGCHLD CLD_EXITED 0) (lost_script !! w), []))
  | PtraceGeteventmsg _ => (w, Some 3)
  | c => (w, (quiet_kernel _ c tt).2)
  end.

Theorem signal_lost_in_memory_call :
  omap cont_of (trace (run_sandboxed lost_kernel (fun _ => []) 10 default_options [] script_start).1) = [0; 0; 0].
Proof. vm_compute. reflexivity. Qed.
