(* ===== verification/ProcessTermination.v ===== *)
(** * Runs end

    The loops of [Spawner.v] and [Sandbox.v] are given fuel.  A run that is out of
    fuel has waited for the process, waited for a signal or read from the error
    pipe at least that many times: only a process that never stops producing
    events keeps [run] from returning, and any bound on their number is enough
    fuel. *)

From Stdlib Require Import ZArith Lia.
From S2P Require Import Prelude.
From S2P Require Import StringTransform.
From S2P Require Import Floats.
From S2P Require Import Time.
From S2P Require Import Os.
From S2P Require Import Spawner.
From S2P Require Import Seccomp.
From S2P Require Import Sandbox.
From S2P Require Import SandboxFilter.
From S2P Require Import SandboxProofs.
Local Open Scope nat_scope.

(** ** Counting requests *)

Definition is_pause (e : entry) : bool :=
  match e with @Did _ c _ => match c with Pause => true | _ => false end end.
Definition is_data (e : entry) : bool :=
  match e with
  | @Did _ c a =>
      match c in sys A return A -> bool with
      | Read _ _ => fun a => match a with Some (_ :: _) => true | _ => false end
      | _ => fun _ => false
      end a
  end.

Definition count (f : entry -> bool) (t : list entry) : nat := length (List.filter f t).

Lemma count_app f t1 t2 : count f (t1 ++ t2) = count f t1 + count f t2.
Proof. unfold count. by rewrite List.filter_app, length_app. Qed.

(** [n] waits, pauses or reads of data. *)
Definition exhausted (n : nat) (t : list entry) : Prop :=
  n <= count is_wait t \/ n <= count is_pause t \/ n <= count is_data t.

Lemma exhausted_app n t1 t2 : exhausted n t1 \/ exhausted n t2 -> exhausted n (t1 ++ t2).
Proof. unfold exhausted. rewrite !count_app. lia. Qed.

Section Ends.
Context {W L : Type}.
Variable kernel : forall A, sys A -> W -> W * A.
Variable n : nat.
Abbreviation M := (stm (proc W L)).
Abbreviation call := (call kernel).

(** The trace only grows, and lack of fuel shows in what is added to it. *)
Definition ends {A} (m : M A) : Prop := forall s s' r, m s = (s', r) ->
  exists t, trace s' = trace s ++ t /\ (r = NoFuel -> exhausted n t).

Lemma ends_ret {A} (a : A) : ends (mret a).
Proof. intros s s' r E. inversion E; subst. exists []. by rewrite app_nil_r. Qed.

Lemma ends_lift {A} (r : outcome A) : r <> NoFuel -> ends (lift r).
Proof. intros Hr s s' r' E. inversion E; subst. exists []. by rewrite app_nil_r. Qed.

Lemma ends_modify (f : proc W L -> proc W L) : (forall s, trace (f s) = trace s) -> ends (modify f).
Proof. intros Hf s s' r E. inversion E; subst. exists []. by rewrite app_nil_r, Hf. Qed.

Lemma ends_setl f : ends (setl f).
Proof. by apply ends_modify. Qed.

Lemma ends_bind {A B} (m : M A) (k : A -> M B) : ends m -> (forall a, ends (k a)) -> ends (m ≫= k).
Proof.
  intros Hm Hk s s' r E. unfold mbind, stm_bind in E. destruct (m s) as [s1 r1] eqn:E1.
  destruct (Hm _ _ _ E1) as (t1 & Ht1 & Hn1).
  destruct r1 as [a|e| |]; [|simplify_eq; exists t1; split; [done|]; intros; first [done|by apply Hn1]..].
  destruct (Hk a _ _ _ E) as (t2 & Ht2 & Hn2). exists (t1 ++ t2). split; [by rewrite Ht2, Ht1, app_assoc|].
  intros Hr. apply exhausted_app. auto.
Qed.

Lemma ends_gets {A B} (f : proc W L -> A) (k : A -> M B) : (forall a, ends (k a)) -> ends (gets f ≫= k).
Proof. intros Hk s s' r E. exact (Hk (f s) _ _ _ E). Qed.

Lemma ends_request {A} (c : sys A) : ends (request kernel c).
Proof.
  intros s s' r E. unfold request in E. destruct (kernel A c (world s)) as [w a].
  inversion E; subst. by exists [Did c a].
Qed.

Lemma ends_handlers sigs : ends (run_handlers kernel sigs).
Proof.
  induction sigs as [|[code i] sigs IH]; cbn [run_handlers]; [apply ends_ret|].
  apply ends_bind; [|intros _; apply IH]. unfold timeout_handler. destruct (negb _); [apply ends_ret|].
  apply ends_gets. intros ctxs. apply ends_bind; [apply ends_lift; by destruct (_ !! i)|]. intros ctx.
  apply ends_bind; [apply ends_request|]. intros _. by apply ends_modify.
Qed.

Lemma ends_call {A} (c : sys A) : ends (call c).
Proof.
  unfold call, Os.call. apply ends_bind; [apply ends_request|]. intros sigs.
  apply ends_bind; [apply ends_handlers|]. intros _. apply ends_request.
Qed.

(** The request itself is in the trace. *)
Lemma call_in_trace {A} (c : sys A) (s s' : proc W L) a : call c s = (s', Ok a) ->
  exists t, trace s' = trace s ++ t ++ [Did c a].
Proof.
  unfold call, Os.call. intros E. apply stm_bind_Ok in E as (s1 & sigs & E1 & E).
  apply stm_bind_Ok in E as (s2 & u & E2 & E3).
  destruct (ends_request Signals _ _ _ E1) as (t1 & Ht1 & _).
  destruct (ends_handlers sigs _ _ _ E2) as (t2 & Ht2 & _).
  unfold request in E3. destruct (kernel A c (world s2)) as [w b]. inversion E3; subst. cbn.
  exists (t1 ++ t2). rewrite Ht2, Ht1. by rewrite <- !app_assoc.
Qed.

Lemma ends_finally {A} (m : M A) d : ends m -> ends d -> ends (finally m d).
Proof.
  intros Hm Hd s s' r E. unfold finally in E. destruct (m s) as [s1 r1] eqn:E1.
  destruct (Hm _ _ _ E1) as (t1 & Ht1 & Hn1).
  destruct r1 as [a|e| |]; [| |simplify_eq; exists t1; split; [done|]; intros; first [done|by apply Hn1]..].
  1,2: destruct (d s1) as [s2 r2] eqn:E2; destruct (Hd _ _ _ E2) as (t2 & Ht2 & Hn2);
    exists (t1 ++ t2); destruct r2; simplify_eq;
    (split; [by rewrite Ht2, Ht1, app_assoc|]); intros Hr; try done; apply exhausted_app; auto.
Qed.

Lemma ends_try {A} (m : M A) h : ends m -> (forall e, ends (h e)) -> ends (try_catch m h).
Proof.
  intros Hm Hh s s' r E. unfold try_catch in E. destruct (m s) as [s1 r1] eqn:E1.
  destruct (Hm _ _ _ E1) as (t1 & Ht1 & Hn1).
  destruct r1 as [a|e| |]; [simplify_eq; by exists t1| |simplify_eq; exists t1; split; [done|]; intros; first [done|by apply Hn1]..].
  destruct (Hh e _ _ _ E) as (t2 & Ht2 & Hn2). exists (t1 ++ t2). split; [by rewrite Ht2, Ht1, app_assoc|].
  intros Hr. apply exhausted_app. auto.
Qed.

Lemma ends_on_throw {A} (m : M A) d : ends m -> ends d -> ends (on_throw m d).
Proof.
  intros Hm Hd s s' r E. unfold on_throw in E. destruct (m s) as [s1 r1] eqn:E1.
  destruct (Hm _ _ _ E1) as (t1 & Ht1 & Hn1).
  destruct r1 as [a|e| |]; [simplify_eq; by exists t1| |simplify_eq; exists t1; split; [done|]; intros; first [done|by apply Hn1]..].
  destruct (ends_finally (lift (Throw e)) d (ends_lift (A := A) (Throw e) ltac:(discriminate)) Hd _ _ _ E) as (t2 & Ht2 & Hn2).
  exists (t1 ++ t2). split; [by rewrite Ht2, Ht1, app_assoc|]. intros Hr. apply exhausted_app. auto.
Qed.

(** ** The loops of [Spawner] *)

(** A loop whose every turn adds an entry counted by [f]. *)
Definition counts {A} (f : entry -> bool) (k : nat) (m : M A) : Prop := forall s s' r, m s = (s', r) ->
  exists t, trace s' = trace s ++ t /\ (r = NoFuel -> k <= count f t \/ exhausted n t).

Lemma read_all_counts fuel fd : forall message, counts is_data fuel (read_all kernel fuel fd message).
Proof.
  induction fuel as [|fuel IH]; intros message s s' r E; cbn [read_all] in E.
  { inversion E; subst. exists []. rewrite app_nil_r. split; [done|]. left. cbn. lia. }
  unfold mbind, stm_bind in E. destruct (call (Read fd 4096) s) as [s1 r1] eqn:E1.
  destruct (ends_call _ _ _ _ E1) as (t1 & Ht1 & Hn1).
  destruct r1 as [rc|e| |]; [|simplify_eq; exists t1; split; [done|]; intros; first [done|right; by apply Hn1]..].
  destruct rc as [[|c data]|]; [inversion E; subst; exists t1; by auto| |inversion E; subst; exists t1; by auto].
  destruct (call_in_trace _ _ _ _ E1) as (t0 & Ht0). rewrite Ht1 in Ht0. apply app_inv_head in Ht0. subst t1.
  destruct (IH _ _ _ _ E) as (t2 & Ht2 & Hn2). exists ((t0 ++ [Did (Read fd 4096) (Some (c :: data))]) ++ t2).
  split; [by rewrite Ht2, Ht1, <- !app_assoc|]. intros Hr. destruct (Hn2 Hr) as [Hk|Hx].
  - left. rewrite !count_app. change (count is_data [Did (Read fd 4096) (Some (c :: data))]) with 1. lia.
  - right. apply exhausted_app. by right.
Qed.

Lemma pause_counts fuel t : counts is_pause fuel (pause_until_sent kernel fuel t).
Proof.
  induction fuel as [|fuel IH]; intros s s' r E; cbn [pause_until_sent] in E.
  { inversion E; subst. exists []. rewrite app_nil_r. split; [done|]. left. cbn. lia. }
  unfold mbind at 1, stm_bind at 1 in E.
  assert (forall s1 r1, timeout_signal_was_sent t s = (s1, r1) -> s1 = s /\ r1 <> NoFuel) as Hs.
  { intros s1 r1 Hs. unfold timeout_signal_was_sent in Hs. destruct (state_ t); [|by inversion Hs].
    unfold mbind, stm_bind, gets, lift in Hs. destruct (_ !! context); cbn in Hs; by inversion Hs. }
  destruct (timeout_signal_was_sent t s) as [s0 r0] eqn:E0. destruct (Hs _ _ eq_refl) as [-> Hn0].
  destruct r0 as [[]|e| |]; [inversion E; subst; exists []; by rewrite app_nil_r| |
    inversion E; subst; exists []; by rewrite app_nil_r..].
  unfold mbind, stm_bind in E. destruct (call Pause s) as [s1 r1] eqn:E1.
  destruct (ends_call _ _ _ _ E1) as (t1 & Ht1 & Hn1).
  destruct r1 as [u|e| |]; [|simplify_eq; exists t1; split; [done|]; intros; first [done|right; by apply Hn1]..].
  destruct (call_in_trace _ _ _ _ E1) as (t0 & Ht0). rewrite Ht1 in Ht0. apply app_inv_head in Ht0. subst t1.
  destruct (IH _ _ _ E) as (t2 & Ht2 & Hn2). exists ((t0 ++ [Did Pause u]) ++ t2).
  split; [by rewrite Ht2, Ht1, <- !app_assoc|]. intros Hr. destruct (Hn2 Hr) as [Hk|Hx].
  - left. rewrite !count_app. change (count is_pause [Did Pause u]) with 1. lia.
  - right. apply exhausted_app. by right.
Qed.

Lemma ends_read_all fd message : ends (read_all kernel n fd message).
Proof.
  intros s s' r E. destruct (read_all_counts n fd message _ _ _ E) as (t & Ht & Hn). exists t.
  split; [done|]. intros Hr. destruct (Hn Hr); [right; by right|done].
Qed.

Lemma ends_pause t : ends (pause_until_sent kernel n t).
Proof.
  intros s s' r E. destruct (pause_counts n t _ _ _ E) as (t' & Ht & Hn). exists t'.
  split; [done|]. intros Hr. destruct (Hn Hr); [right; by left|done].
Qed.

End Ends.

Ltac ending :=
  repeat (cbn beta iota zeta; lazymatch goal with
    | |- ends _ (mret _) => apply ends_ret
    | |- ends _ (lift (get_or_ub ?x)) => apply ends_lift; by destruct x
    | |- ends _ (lift (Throw _)) => apply ends_lift; discriminate
    | |- ends _ (lift UB) => apply ends_lift; discriminate
    | |- ends ?n (throw_error ?x) => apply (ends_lift n (Throw (RuntimeError x))); discriminate
    | |- ends _ (gets _ ≫= _) => apply ends_gets; intros ?
    | |- ends _ (getl _ ≫= _) => apply ends_gets; intros ?
    | |- ends _ (get_sb _ ≫= _) => apply ends_gets; intros ?
    | |- ends _ (setl _) => apply ends_setl
    | |- ends _ (set_sb _) => apply ends_setl
    | |- ends _ (_ ≫= _) => apply ends_bind; [|intros ?]
    | |- ends _ (Os.call _ _) => apply ends_call
    | |- ends _ (finally _ _) => apply ends_finally
    | |- ends _ (on_throw _ _) => apply ends_on_throw
    | |- ends _ (when ?b _) => destruct b; cbn [when]
    | |- ends _ (match ?x with _ => _ end) => destruct x
    end).

(** ** [Spawner::run] *)

Section Spawner.
Context {W L : Type}.
Variable kernel : forall A, sys A -> W -> W * A.
Variable n : nat.
Variable strsignal : Z -> str.

Lemma i64_fuel x : i64 x <> NoFuel.
Proof. unfold i64. by destruct (in_range _ _). Qed.

Lemma timespec_sub_fuel a b : timespec_sub a b <> NoFuel.
Proof.
  unfold timespec_sub, i64, mbind, outcome_bind. repeat case_match; simplify_eq; try discriminate.
Qed.

Lemma to_nanoseconds_fuel a : to_nanoseconds a <> NoFuel.
Proof. unfold to_nanoseconds, i64, mbind, outcome_bind. repeat case_match; simplify_eq; discriminate. Qed.

Lemma ends_delete (t : Timer) : ends (L := L) n (delete_timer_and_get_remaning_time kernel n t).
Proof. unfold delete_timer_and_get_remaning_time. ending; apply ends_pause. Qed.

Lemma ends_delete_timer (t : Timer) : ends (L := L) n (delete_timer kernel n t).
Proof. unfold delete_timer. ending. apply ends_delete. Qed.

Lemma ends_make_timer pid limit clock signal : ends (L := L) n (make_timer kernel n pid limit clock signal).
Proof.
  unfold make_timer, call_or_throw. ending; try apply ends_delete_timer.
  intros s s' r E. inversion E; subst. exists []. cbn. by rewrite app_nil_r.
Qed.

Lemma ends_deactivate (t : Timer) : ends (L := L) n (deactivate_and_get_runtime kernel n t).
Proof.
  unfold deactivate_and_get_runtime.
  ending; first [apply ends_delete | apply ends_lift; first [apply timespec_sub_fuel | apply to_nanoseconds_fuel]].
Qed.

Lemma ends_receive si fd : ends (L := L) n (receive_error_message kernel strsignal n si fd).
Proof.
  unfold receive_error_message. ending; [apply ends_read_all|]. apply ends_lift. unfold describe_end.
  repeat case_match; discriminate.
Qed.

Lemma ends_check_limits opts : ends (W := W) (L := L) n (check_limits opts).
Proof. unfold check_limits. ending. Qed.

Lemma ends_spawner_run opts : ends (L := L) n (run kernel strsignal n opts).
Proof.
  unfold run, call_or_throw, watch_child, do_in_parent_after_fork, kill_and_wait, waitid_into, waitid_usage, call_or_throw.
  ending; first [apply ends_check_limits | apply ends_receive | apply ends_make_timer | apply ends_deactivate
    | apply ends_delete_timer | apply ends_lift; discriminate].
Qed.

End Spawner.

(** ** [Sandbox::run] *)

Section SandboxRun.
Context {W : Type}.
Variable kernel : forall A, sys A -> W -> W * A.
Variable n : nat.
Variable strsignal : Z -> str.

Lemma parse_vm_size_fuel data : parse_vm_size data <> NoFuel.
Proof. unfold parse_vm_size. repeat case_match; discriminate. Qed.

Lemma ends_vm_size : ends n (get_tracee_vm_size kernel).
Proof. unfold get_tracee_vm_size. ending. apply ends_lift, parse_vm_size_fuel. Qed.

Lemma ends_update : ends n (update_tracee_vm_peak kernel).
Proof. unfold update_tracee_vm_peak, update_tracee_vm_peak_to. ending. apply ends_vm_size. Qed.

Lemma ends_deny {R} `{SyscallRegisters R} (r : R) e : ends n (deny kernel r e).
Proof. unfold deny. ending. Qed.

Lemma ends_check_opening {R} `{SyscallRegisters R} (r : R) p f : ends n (check_opening_syscall kernel r p f).
Proof. unfold check_opening_syscall. ending; apply ends_deny. Qed.

Lemma ends_open {R} `{SyscallRegisters R} : ends n (open_callback kernel (R := R)) /\ ends n (openat_callback kernel (R := R)).
Proof.
  unfold open_callback, openat_callback, read_regs, call_or_throw, check_openat_syscall.
  split; ending; first [apply ends_check_opening | apply ends_deny].
Qed.

Lemma ends_callback id : ends n (run_callback kernel id).
Proof.
  unfold run_callback, run_lambda, limiting_callback, vm_peak_updater, set_callback,
    update_tracee_vm_peak_to, set_message_callback.
  ending; first [apply ends_update | apply ends_vm_size | apply ends_open].
Qed.

Lemma ends_timeouted : ends (W := W) n has_tracee_timeouted.
Proof. unfold has_tracee_timeouted, has_timer_timeouted, timeout_signal_was_sent. ending. Qed.

Lemma ends_wait options : ends n (wait kernel options).
Proof. unfold wait. ending. Qed.

Lemma ends_deliver sig : ends n (deliver kernel sig).
Proof. unfold deliver. ending. Qed.

Lemma ends_kill_group : ends n (kill_group kernel).
Proof. unfold kill_group. ending. Qed.

Lemma ends_destroy t : ends n (destroy_timer kernel n t).
Proof. unfold destroy_timer. ending. apply ends_delete_timer. Qed.

Lemma ends_get_cpu b : ends n (get_cpu_time_and_wait_tracee kernel n b).
Proof.
  unfold get_cpu_time_and_wait_tracee, stop_timer. ending; first [apply ends_wait | apply ends_deactivate].
Qed.

Lemma ends_trapped opts si : ends n (on_trapped kernel n opts si).
Proof.
  unfold on_trapped, on_sigsys, on_exec, on_seccomp, on_other_stop, call_or_throw, set_message_callback. ending;
    first [apply ends_timeouted | apply ends_update | apply ends_kill_group | apply ends_deliver
          | apply ends_vm_size | apply ends_make_timer | apply ends_destroy | apply ends_callback].
Qed.

(** Every turn of the loop waits for the process. *)
Lemma one_event_waits opts s s' r : one_event kernel n opts s = (s', r) ->
  exists t, trace s' = trace s ++ t /\ (r = NoFuel -> exhausted n t) /\
    (forall b, r = Ok b -> 1 <= count is_wait t).
Proof.
  unfold one_event. intros E. unfold mbind at 1, stm_bind at 1 in E.
  destruct (deliver kernel 0 s) as [s1 r1] eqn:E1. destruct (ends_deliver _ _ _ _ E1) as (t1 & Ht1 & Hn1).
  destruct r1 as [u|e| |]; [|simplify_eq; exists t1; split_and!; [done|intros; first [done|by apply Hn1]|done]..].
  unfold mbind at 1, stm_bind at 1 in E.
  destruct (wait kernel _ s1) as [s2 r2] eqn:E2. destruct (ends_wait _ _ _ _ E2) as (t2 & Ht2 & Hn2).
  destruct r2 as [v|e| |];
    [|simplify_eq; exists (t1 ++ t2); (split_and!; [by rewrite Ht2, Ht1, app_assoc| |done]);
      intros; first [done|apply exhausted_app; right; by apply Hn2]..].
  assert (1 <= count is_wait t2) as Hw.
  { unfold wait in E2. apply stm_bind_Ok in E2 as (s3 & pid & E3 & E2). inversion E3; subst.
    apply stm_bind_Ok in E2 as (s4 & a & E4 & E2).
    assert (trace s2 = trace s4) as Et by (destruct a as [[]|]; by inversion E2).
    destruct (call_in_trace _ n _ _ _ _ E4) as (t0 & Ht0). rewrite <- Et, Ht2 in Ht0.
    apply app_inv_head in Ht0. subst t2. rewrite count_app.
    match goal with |- context [count is_wait [?e]] => change (count is_wait [e]) with 1 end. lia. }
  match type of E with ?m s2 = _ => assert (ends n m) as Hrest end.
  { ending; first [apply ends_trapped | apply ends_deliver | apply ends_get_cpu]. }
  destruct (Hrest _ _ _ E) as (t3 & Ht3 & Hn3). exists ((t1 ++ t2) ++ t3).
  split_and!; [by rewrite Ht3, Ht2, Ht1, <- !app_assoc| |].
  - intros Hr. apply exhausted_app. right. by apply Hn3.
  - intros b _. rewrite !count_app. lia.
Qed.

Lemma event_loop_counts opts k : counts n is_wait k (event_loop kernel n k opts).
Proof.
  induction k as [|k IH]; intros s s' r E; cbn [event_loop] in E.
  { inversion E; subst. exists []. rewrite app_nil_r. split; [done|]. left. cbn. lia. }
  unfold mbind, stm_bind in E. destruct (one_event kernel n opts s) as [s1 r1] eqn:E1.
  destruct (one_event_waits _ _ _ _ E1) as (t1 & Ht1 & Hn1 & Hw).
  destruct r1 as [[]|e| |]; [inversion E; subst; exists t1; by auto| |
    simplify_eq; exists t1; split; [done|]; intros; first [done|right; by apply Hn1]..].
  destruct (IH _ _ _ E) as (t2 & Ht2 & Hn2). exists (t1 ++ t2). split; [by rewrite Ht2, Ht1, app_assoc|].
  specialize (Hw false eq_refl). intros Hr. destruct (Hn2 Hr) as [Hk|Hx].
  - left. rewrite count_app. lia.
  - right. apply exhausted_app. by right.
Qed.

Lemma ends_event_loop opts : ends n (event_loop kernel n n opts).
Proof.
  intros s s' r E. destruct (event_loop_counts opts n _ _ _ E) as (t & Ht & Hn). exists t.
  split; [done|]. intros Hr. destruct (Hn Hr); [by left|done].
Qed.

Lemma ends_sandbox_run opts files : ends n (run_sandboxed kernel strsignal n opts files).
Proof.
  unfold run_sandboxed, watch_tracee, trace_tracee, exit_stat, guard, destroy_timers, close_statm, kill_and_wait,
    do_in_parent_after_fork, call_or_throw, reset_callbacks.
  ending; first [apply ends_check_limits | apply ends_receive | apply ends_destroy
    | apply ends_lift; discriminate | idtac].
  apply ends_try; [apply ends_event_loop|]. intros e. unfold on_exception. ending; first [apply ends_kill_group | apply ends_get_cpu].
Qed.

End SandboxRun.

Lemma ends_drop {W L A} n (m : stm (proc W L) A) s s' r : ends n m -> m s = (s', r) ->
  ~ exhausted n (drop (length (trace s)) (trace s')) -> r <> NoFuel.
Proof.
  intros Hm E Hx. destruct (Hm _ _ _ E) as (t & Ht & Hn). rewrite Ht, drop_app_length in Hx. auto.
Qed.



(** The same for [Spawner::run]. *)
Lemma spawner_run_ends {W L} (kernel : forall A, sys A -> W -> W * A) strsignal n opts (s s' : proc W L) r :
  run kernel strsignal n opts s = (s', r) ->
  ~ exhausted n (drop (length (trace s)) (trace s')) -> r <> NoFuel.
Proof. apply ends_drop, ends_spawner_run. Qed.
