(* ===== verification/SpawnerProofs.v ===== *)
(** * What a spawned process starts with

    The descriptors a program is executed with: [run_child] redirects the three
    standard ones and closes all the others, and nothing else gets through
    [execvp].  The semantics of descriptors is the kernel's; [FdKernel] states the
    part of its documentation that the code relies on. *)

From Stdlib Require Import ZArith Lia.
From S2P Require Import Prelude.
From S2P Require Import StringView.
From S2P Require Import StringTransform.
From S2P Require Import Floats.
From S2P Require Import Time.
From S2P Require Import Seccomp.
From S2P Require Import Os.
From S2P Require Import Spawner.
From S2P Require Import Sandbox.
From S2P Require Import SandboxFilter.
Local Open Scope Z_scope.

(** Requests that have to do with descriptors. *)
Definition on_fds {A} (c : sys A) : bool :=
  match c with
  | Close _ | Dup2 _ _ | Opendir _ | Readdir _ | Closedir _ | Execvp _ _
  | Pipe2 | Fork | OpenStatm _ => true
  | _ => false
  end.

(** [fds w]: the open descriptors, what they refer to and their close-on-exec
    flag; [unlisted w]: descriptors that the open listing of [/proc/self/fd] has
    still to give, unless they are closed before ([readdir(3)] need not return an
    entry that is removed after [opendir(3)]). *)
Class FdKernel {W : Type} (kernel : forall A, sys A -> W -> W * A) := {
  fds : W -> gmap Z (nat * bool);
  unlisted : W -> gset Z;
  fds_range : forall w fd, fd ∈ dom (fds w) -> 0 <= fd < 2 ^ 31;
  kernel_other : forall A (c : sys A) w, on_fds c = false ->
    fds (kernel _ c w).1 = fds w;
  kernel_close : forall fd w,
    fds (kernel _ (Close fd) w).1 = delete fd (fds w) /\
    unlisted (kernel _ (Close fd) w).1 = unlisted w;
  kernel_dup2 : forall oldfd newfd w, oldfd <> newfd ->
    match kernel _ (Dup2 oldfd newfd) w with
    | (w', 0) => exists f c, fds w !! oldfd = Some (f, c) /\ fds w' = <[newfd := (f, false)]> (fds w)
    | (w', _) => fds w' = fds w
    end;
  kernel_opendir : forall path w,
    match kernel _ (Opendir path) w with
    | (w', inr dirfd) => dirfd ∉ dom (fds w) /\ (exists f, fds w' = <[dirfd := (f, true)]> (fds w)) /\
        (path = lit "/proc/self/fd" -> dom (fds w') ⊆ unlisted w')
    | (w', inl _) => fds w' = fds w
    end;
  kernel_readdir : forall dirfd w,
    match kernel _ (Readdir dirfd) w with
    | (w', inr (Some name)) => fds w' = fds w /\
        forall fd, fd ∈ unlisted w -> name = to_string fd \/ fd ∈ unlisted w'
    | (w', inr None) => fds w' = fds w /\ unlisted w ## dom (fds w)
    | (w', inl _) => fds w' = fds w
    end;
  kernel_closedir : forall dirfd w, fds (kernel _ (Closedir dirfd) w).1 = delete dirfd (fds w);
  kernel_execvp : forall file argv w,
    match kernel _ (Execvp file argv) w with
    | (w', None) => fds w' = filter (fun p => p.2.2 = false) (fds w)
    | (w', Some _) => fds w' = fds w
    end
}.

Section Descriptors.
Context {W L : Type} (kernel : forall A, sys A -> W -> W * A) `{FdKernel W kernel}.
Variable errmsg : Z -> str.
Variable what : exn -> str.

Abbreviation child := (child (W := W) (L := L)).

(** If the computation does not end the process, the world is as [Q] says. *)
Definition reaches {A} (P : W -> Prop) (m : child A) (Q : A -> W -> Prop) : Prop :=
  forall s s' a, P (world s) -> m s = (s', Ok (inl a)) -> Q a (world s').

Lemma reaches_bind {A B} P (m : child A) (k : A -> child B) Q R :
  reaches P m Q -> (forall a, reaches (Q a) (k a) R) -> reaches P (m ≫= k) R.
Proof.
  intros Hm Hk s s' b Hs E. unfold mbind, child_bind in E. destruct (m s) as [s1 [[a|st]|e| |]] eqn:E1; try done.
  eapply Hk; [|exact E]. by eapply Hm.
Qed.

Lemma reaches_ret {A} P (a : A) : reaches P (mret a) (fun b w => b = a /\ P w).
Proof. intros s s' b Hs E. by inversion E; subst. Qed.

Lemma reaches_conseq {A} (P P' : W -> Prop) (m : child A) (Q Q' : A -> W -> Prop) :
  reaches P m Q -> (forall w, P' w -> P w) -> (forall a w, Q a w -> Q' a w) -> reaches P' m Q'.
Proof. intros Hm HP HQ s s' a Hs E. by eapply HQ, Hm, E; apply HP. Qed.

Lemma reaches_ask {A} P (c : sys A) : reaches P (ask kernel c) (fun a w' => exists w, P w /\ kernel _ c w = (w', a)).
Proof.
  intros s s' a Hs E. unfold ask, request in E. destruct (kernel A c (world s)) as [w b] eqn:Ek.
  inversion E; subst. cbn. by exists (world s).
Qed.

Lemma reaches_exit {A} P st Q : reaches P (exit_with (A := A) st) Q.
Proof. intros s s' a _ E. by inversion E. Qed.

Lemma reaches_send {A} P fd e msg Q : reaches P (send_error_and_exit kernel errmsg (A := A) fd e msg) Q.
Proof.
  unfold send_error_and_exit. eapply reaches_bind; [apply reaches_ask|]. intros ?.
  eapply reaches_bind; [apply reaches_ask|]. intros ?. apply reaches_exit.
Qed.

Lemma reaches_send_message {A} P fd msg Q : reaches P (send_error_message_and_exit kernel (A := A) fd msg) Q.
Proof.
  unfold send_error_message_and_exit. eapply reaches_bind; [apply reaches_ask|]. intros ?. apply reaches_exit.
Qed.

(** ** Steps that leave descriptors alone *)

Definition same_fds {A} (m : child A) : Prop :=
  forall D, reaches (fun w => fds w = D) m (fun _ w => fds w = D).

Lemma same_bind {A B} (m : child A) (k : A -> child B) : same_fds m -> (forall a, same_fds (k a)) -> same_fds (m ≫= k).
Proof. intros Hm Hk D. eapply reaches_bind; [apply Hm|]. intros a. apply Hk. Qed.

Lemma same_ret {A} (a : A) : same_fds (mret a).
Proof. intros D. eapply reaches_conseq; [apply (reaches_ret (fun w => fds w = D))|done|]. by intros b w [_ ?]. Qed.

Lemma same_ask {A} (c : sys A) : on_fds c = false -> same_fds (ask kernel c).
Proof.
  intros Hc D. eapply reaches_conseq; [apply (reaches_ask (fun w => fds w = D))|done|]. intros a w' (w & Hw & Ek).
  pose proof (kernel_other A c w Hc) as Ho. by rewrite Ek, Hw in Ho.
Qed.

Lemma same_require fd c msg : on_fds c = false -> same_fds (require kernel errmsg fd c msg).
Proof.
  intros Hc. unfold require. apply same_bind; [by apply same_ask|]. intros e.
  destruct (e =? 0); [apply same_ret|]. intros D. apply reaches_send.
Qed.

Lemma same_check_limits fd opts : same_fds (check_child_limits kernel fd opts).
Proof.
  unfold check_child_limits.
  assert (forall (b : bool) msg, same_fds (if b then send_error_message_and_exit kernel fd msg else mret tt)) as Hb.
  { intros [] msg; [intros D; apply reaches_send_message|apply same_ret]. }
  apply same_bind; [apply Hb|intros ?]. apply same_bind; [apply Hb|intros ?]. apply Hb.
Qed.

Lemma same_memory fd opts : same_fds (set_memory_rlimits kernel errmsg fd opts).
Proof.
  unfold set_memory_rlimits. destruct (opt_memory_limit opts); [|apply same_ret].
  apply same_bind; [by apply same_require|intros ?]. by apply same_require.
Qed.

(** ** Redirecting *)

Lemma dup2_loop_reaches fuel fd oldfd newfd D : oldfd <> newfd ->
  reaches (fun w => fds w = D) (dup2_loop kernel errmsg fuel fd oldfd newfd)
    (fun _ w => exists f c, D !! oldfd = Some (f, c) /\ fds w = <[newfd := (f, false)]> D).
Proof.
  intros Hne. induction fuel as [|fuel IH]; cbn [dup2_loop]; [by intros s s' a _ E; inversion E|].
  eapply reaches_bind; [apply reaches_ask|]. intros e.
  destruct (Z.eqb_spec e 0) as [->|He0].
  { intros s s' a (w & Hw & Ek) E. inversion E; subst. pose proof (kernel_dup2 oldfd newfd w Hne) as Hd.
    rewrite Ek in Hd. done. }
  destruct (e =? EINTR); [|apply reaches_send].
  eapply reaches_conseq; [apply IH| |done]. intros w' (w & Hw & Ek).
  pose proof (kernel_dup2 oldfd newfd w Hne) as Hd. rewrite Ek in Hd. destruct e; [done|..]; congruence.
Qed.

(** What one descriptor becomes. *)
Definition redirected (D : gmap Z (nat * bool)) (new_fd target : Z) (D' : gmap Z (nat * bool)) : Prop :=
  if new_fd <? 0 then D' = delete target D
  else if new_fd =? target then D' = D
  else exists f c, D !! new_fd = Some (f, c) /\ D' = <[target := (f, false)]> D.

Lemma change_fd_reaches fuel fd new_fd target D :
  reaches (fun w => fds w = D) (change_fd kernel errmsg fuel fd new_fd target)
    (fun _ w => redirected D new_fd target (fds w)).
Proof.
  unfold change_fd, redirected. destruct (new_fd <? 0).
  { eapply reaches_conseq; [apply (reaches_ask (fun w => fds w = D))|done|]. intros a w' (w & Hw & Ek).
    destruct (kernel_close target w) as [Hc _]. by rewrite Ek, Hw in Hc. }
  destruct (Z.eqb_spec new_fd target); [apply same_ret|]. by apply dup2_loop_reaches.
Qed.

(** ** Closing the others *)

Lemma fd_name_read fd : 0 <= fd < 2 ^ 31 -> str2num int32 (to_string fd) = Some fd.
Proof. intros Hfd. apply str2num_to_string_spec; [done|done|]. unfold in_range, int32. cbn [int_min int_max]. lia. Qed.

(** During the listing that started with descriptors [D]. *)
Definition listing (D : gmap Z (nat * bool)) (permitted : list Z) (w : W) : Prop :=
  (forall fd, fd ∈ permitted -> fds w !! fd = D !! fd) /\
  (forall fd x, fds w !! fd = Some x -> D !! fd = Some x /\ (fd ∈ permitted \/ fd ∈ unlisted w)).

Lemma listing_close D permitted fd : fd ∉ permitted ->
  reaches (listing D permitted) (ask kernel (Close fd)) (fun _ => listing D permitted).
Proof.
  intros Hfd. eapply reaches_conseq; [apply (reaches_ask (listing D permitted))|done|].
  intros a w' (w & [H1 H2] & Ek). destruct (kernel_close fd w) as [Hc Hu]. rewrite Ek in Hc, Hu. cbn in Hc, Hu.
  split; rewrite Hc.
  - intros fd' Hin. rewrite lookup_delete_ne by (by intros ->). auto.
  - intros fd' x Hx. apply lookup_delete_Some in Hx as [_ Hx]. rewrite Hu. auto.
Qed.

(** The listing has given [name]: what it names is dealt with next. *)
Lemma close_named D permitted name :
  reaches (fun w => exists w0, listing D permitted w0 /\ fds w = fds w0 /\
             forall fd, fd ∈ unlisted w0 -> name = to_string fd \/ fd ∈ unlisted w)
    (if SV.eqb name (lit ".") || SV.eqb name (lit "..") then mret tt
     else close_if_not_permitted kernel permitted name)
    (fun _ => listing D permitted).
Proof.
  intros s s' u (w0 & [H1 H2] & Hf & Hu) E.
  assert (forall fd x, fds w0 !! fd = Some x -> 0 <= fd < 2 ^ 31) as Hr.
  { intros fd x Hx. apply (fds_range w0). apply elem_of_dom. by exists x. }
  assert ((forall fd x, fds w0 !! fd = Some x -> name <> to_string fd \/ fd ∈ permitted) -> listing D permitted (world s)) as Hkeep.
  { intros Hn. split; rewrite Hf; [done|]. intros fd x Hx. destruct (H2 _ _ Hx) as [Hd Hp]. split; [done|].
    destruct Hp as [Hp|Hp]; [by left|]. destruct (Hn _ _ Hx) as [Hne|]; [|by left]. destruct (Hu _ Hp); [done|by right]. }
  destruct (SV.eqb name (lit ".") || SV.eqb name (lit "..")) eqn:Edots.
  { inversion E; subst. apply Hkeep. intros fd x Hx. left. intros ->.
    pose proof (fd_name_read fd (Hr _ _ Hx)) as Hread.
    apply orb_true_iff in Edots as [Ed|Ed]; apply SV.eqb_eq in Ed; rewrite Ed in Hread; done. }
  unfold close_if_not_permitted in E. destruct (str2num int32 name) as [n|] eqn:En.
  2: { inversion E; subst. apply Hkeep. intros fd x Hx. left. intros ->. by rewrite fd_name_read in En by eauto. }
  assert (forall fd x, fds w0 !! fd = Some x -> name = to_string fd -> fd = n) as Hn.
  { intros fd x Hx ->. rewrite fd_name_read in En by eauto. congruence. }
  case_bool_decide as Hp.
  { inversion E; subst. apply Hkeep. intros fd x Hx. destruct (decide (fd = n)) as [->|Hne]; [by right|].
    left. intros Hname. by apply Hne, (Hn fd x). }
  unfold ask, request in E. destruct (kernel unit (Close n) (world s)) as [w' b] eqn:Ek. inversion E; subst. cbn.
  destruct (kernel_close n (world s)) as [Hc Hul]. rewrite Ek in Hc, Hul. cbn in Hc, Hul. split; rewrite Hc, Hf.
  - intros fd Hin. rewrite lookup_delete_ne by (by intros ->). auto.
  - intros fd x Hx. apply lookup_delete_Some in Hx as [Hne Hx]. destruct (H2 _ _ Hx) as [Hd Hpp]. split; [done|].
    destruct Hpp as [|Hpp]; [by left|right]. rewrite Hul. destruct (Hu _ Hpp) as [Hname|]; [|done].
    destruct Hne. symmetry. by apply (Hn fd x).
Qed.

Lemma close_loop_reaches fuel fd dirfd D permitted :
  reaches (listing D permitted) (close_loop kernel errmsg fuel fd dirfd permitted)
    (fun _ w => forall n, fds w !! n = if decide (n ∈ permitted) then D !! n else None).
Proof.
  induction fuel as [|fuel IH]; cbn [close_loop]; [by intros s s' a _ E; inversion E|].
  eapply reaches_bind; [apply (reaches_ask (listing D permitted))|]. intros [e|[name|]]; [apply reaches_send|..].
  - eapply reaches_bind; [|intros ?; apply IH].
    eapply reaches_conseq; [apply (close_named D permitted name)| |done].
    intros w' (w & Hw & Ek). pose proof (kernel_readdir dirfd w) as Hd. rewrite Ek in Hd. destruct Hd as [Hf Hu].
    exists w. by split_and!.
  - intros s s' a (w & [H1 H2] & Ek) E. inversion E; subst. pose proof (kernel_readdir dirfd w) as Hd.
    rewrite Ek in Hd. destruct Hd as [Hf Hu]. intros n. rewrite Hf. destruct (decide (n ∈ permitted)); [by apply H1|].
    destruct (fds w !! n) as [x|] eqn:Hx; [|done]. exfalso. destruct (H2 _ _ Hx) as [_ [Hp|Hp]]; [done|].
    apply (Hu n); [done|]. apply elem_of_dom. by exists x.
Qed.

Lemma close_other_reaches fuel fd opts D :
  reaches (fun w => fds w = D) (close_other_fds kernel errmsg fuel fd opts)
    (fun _ w => exists dirfd, dirfd ∉ dom D /\
       forall n, fds w !! n = if decide (n ∈ permitted_fds dirfd fd opts /\ n <> dirfd) then D !! n else None).
Proof.
  unfold close_other_fds. eapply reaches_bind; [apply (reaches_ask (fun w => fds w = D))|].
  intros [e|dirfd]; [apply reaches_send|]. set (permitted := permitted_fds dirfd fd opts).
  eapply reaches_bind with (Q := fun _ w => dirfd ∉ dom D /\ exists f, forall n, fds w !! n =
    if decide (n ∈ permitted) then <[dirfd := (f, true)]> D !! n else None).
  { intros s s' a (w & <- & Ek) E. pose proof (kernel_opendir (lit "/proc/self/fd") w) as Ho. rewrite Ek in Ho.
    destruct Ho as (Hd & [f Hf] & Hu). split; [done|]. exists f. rewrite <- Hf.
    eapply close_loop_reaches; [|exact E]. split; [done|]. intros n x Hx. split; [done|]. right.
    apply (Hu eq_refl), elem_of_dom. by exists x. }
  intros ?. eapply reaches_conseq; [apply reaches_ask|intros w Hw; exact Hw|].
  intros b w' (w & [Hd [f Hf]] & Ek). exists dirfd. split; [done|]. intros n.
  pose proof (kernel_closedir dirfd w) as Hc. rewrite Ek in Hc. cbn in Hc. rewrite Hc.
  destruct (decide (n = dirfd)) as [->|Hne].
  - rewrite lookup_delete_eq, decide_False by (by intros []). done.
  - rewrite lookup_delete_ne, Hf by done. rewrite lookup_insert_ne by done.
    destruct (decide (n ∈ permitted)).
    + by rewrite decide_True by done.
    + by rewrite decide_False by (by intros []).
Qed.

(** ** The program's descriptors *)

(** The descriptor the options ask for. *)
Definition wanted (D : gmap Z (nat * bool)) (new_fd target : Z) : option (nat * bool) :=
  if new_fd <? 0 then None
  else
    match D !! new_fd with
    | Some (f, cloexec) => if (new_fd =? target) && cloexec then None else Some (f, false)
    | None => None
    end.

(** No descriptor is redirected to one that has been redirected before. *)
Definition uncrossed (opts : Options) : Prop :=
  (new_stdout_fd opts <> STDIN_FILENO \/ new_stdin_fd opts = STDIN_FILENO) /\
  (new_stderr_fd opts <> STDIN_FILENO \/ new_stdin_fd opts = STDIN_FILENO) /\
  (new_stderr_fd opts <> STDOUT_FILENO \/ new_stdout_fd opts = STDOUT_FILENO).


Lemma redirected_ne D new_fd target D' n : redirected D new_fd target D' -> n <> target -> D' !! n = D !! n.
Proof.
  unfold redirected. intros Hr Hn. repeat case_match; [subst; by rewrite lookup_delete_ne|by subst|].
  destruct Hr as (f & c & _ & ->). by rewrite lookup_insert_ne.
Qed.

Lemma redirected_same D target D' : 0 <= target -> redirected D target target D' -> D' = D.
Proof. unfold redirected. intros Ht. rewrite (proj2 (Z.ltb_ge _ _)), Z.eqb_refl by done. done. Qed.

(** What a redirected descriptor gives to the program. *)
Lemma redirected_wanted D new_fd target D' : redirected D new_fd target D' -> 0 <= new_fd ->
  match D' !! target with Some (f, false) => Some (f, false) | _ => None end = wanted D new_fd target.
Proof.
  unfold redirected, wanted. intros Hr H0. rewrite (proj2 (Z.ltb_ge _ _)) in * by done.
  destruct (Z.eqb_spec new_fd target) as [->|Hne]; cbn [andb].
  - subst. by destruct (D !! target) as [[f []]|].
  - destruct Hr as (f & c & -> & ->). by rewrite lookup_insert_eq.
Qed.

(** What is left of a descriptor after [execvp]. *)
Definition surviving (x : option (nat * bool)) : option (nat * bool) :=
  match x with Some (f, false) => Some (f, false) | _ => None end.

Lemma surviving_filter (D : gmap Z (nat * bool)) n :
  filter (fun p => p.2.2 = false) D !! n = surviving (D !! n).
Proof.
  rewrite map_lookup_filter. destruct (D !! n) as [[f []]|]; done.
Qed.

Definition permitted_std (opts : Options) (n : Z) : bool :=
  ((n =? 0) && (0 <=? new_stdin_fd opts)) || ((n =? 1) && (0 <=? new_stdout_fd opts)) ||
  ((n =? 2) && (0 <=? new_stderr_fd opts)).

Lemma permitted_cases dirfd fd opts n : n ∈ permitted_fds dirfd fd opts -> n <> dirfd -> n <> fd -> permitted_std opts n = true.
Proof.
  unfold permitted_fds, permitted_std, STDIN_FILENO, STDOUT_FILENO, STDERR_FILENO. intros Hn H1 H2.
  rewrite !elem_of_cons in Hn. destruct Hn as [->|[->|[Hn|[Hn|[Hn|Hn%not_elem_of_nil]]]]]; try done;
    destruct (_ <? 0) eqn:E1 in Hn; subst; try done; lia.
Qed.

Lemma permitted_std_in dirfd fd opts n : permitted_std opts n = true -> n ∈ permitted_fds dirfd fd opts.
Proof.
  unfold permitted_fds, permitted_std, STDIN_FILENO, STDOUT_FILENO, STDERR_FILENO. intros Hn.
  rewrite !orb_true_iff, !andb_true_iff, !Z.eqb_eq, !Z.leb_le in Hn. rewrite !elem_of_cons.
  destruct Hn as [[[-> Hn]|[-> Hn]]|[-> Hn]]; rewrite (proj2 (Z.ltb_ge _ _) Hn); tauto.
Qed.

(** The three redirections, seen from the standard descriptors. *)
Lemma redirections D D1 D2 D3 opts n : uncrossed opts ->
  redirected D (new_stdin_fd opts) 0 D1 -> redirected D1 (new_stdout_fd opts) 1 D2 ->
  redirected D2 (new_stderr_fd opts) 2 D3 -> permitted_std opts n = true ->
  surviving (D3 !! n) =
    if n =? 0 then wanted D (new_stdin_fd opts) 0
    else if n =? 1 then wanted D (new_stdout_fd opts) 1 else wanted D (new_stderr_fd opts) 2.
Proof.
  intros (Hu1 & Hu2 & Hu3) H1 H2 H3 Hn. unfold STDIN_FILENO, STDOUT_FILENO in *.
  unfold permitted_std in Hn. rewrite !orb_true_iff, !andb_true_iff, !Z.eqb_eq, !Z.leb_le in Hn.
  assert (forall x, x <> 0 \/ new_stdin_fd opts = 0 -> D1 !! x = D !! x) as HD1.
  { intros x [Hx|Hx]; [by eapply redirected_ne|]. rewrite Hx in H1. by rewrite (redirected_same D 0 D1). }
  assert (forall x, x <> 0 \/ new_stdin_fd opts = 0 -> x <> 1 \/ new_stdout_fd opts = 1 -> D2 !! x = D !! x) as HD2.
  { intros x Hx0 [Hx|Hx]; [rewrite (redirected_ne D1 _ _ D2 x H2 Hx); by apply HD1|].
    rewrite Hx in H2. rewrite (redirected_same D1 1 D2) by done. by apply HD1. }
  assert (forall A B x t, A !! x = B !! x -> wanted A x t = wanted B x t) as Hw.
  { intros A B x t E. unfold wanted. by rewrite E. }
  destruct Hn as [[[-> Hn]|[-> Hn]]|[-> Hn]]; cbn [Z.eqb].
  - rewrite (redirected_ne D2 _ _ D3 0 H3), (redirected_ne D1 _ _ D2 0 H2) by done. by apply redirected_wanted.
  - rewrite (redirected_ne D2 _ _ D3 1 H3) by done. change (1 =? 0) with false. cbn.
    rewrite <- (Hw D1 D _ 1 (HD1 _ Hu1)). by apply redirected_wanted.
  - change (2 =? 0) with false. cbn.
    rewrite <- (Hw D2 D _ 2 (HD2 _ Hu2 Hu3)). by apply redirected_wanted.
Qed.

Definition wanted_fd (D : gmap Z (nat * bool)) (opts : Options) (n : Z) : option (nat * bool) :=
  if n =? 0 then wanted D (new_stdin_fd opts) 0
  else if n =? 1 then wanted D (new_stdout_fd opts) 1
  else if n =? 2 then wanted D (new_stderr_fd opts) 2 else None.

Lemma redirections_all D D1 D2 D3 opts n : uncrossed opts ->
  redirected D (new_stdin_fd opts) 0 D1 -> redirected D1 (new_stdout_fd opts) 1 D2 ->
  redirected D2 (new_stderr_fd opts) 2 D3 -> permitted_std opts n = true ->
  surviving (D3 !! n) = wanted_fd D opts n.
Proof.
  intros Hu H1 H2 H3 Hn. rewrite (redirections D D1 D2 D3 opts n) by done. unfold wanted_fd.
  destruct (Z.eqb_spec n 0); [done|]. destruct (Z.eqb_spec n 1); [done|].
  destruct (Z.eqb_spec n 2); [done|]. exfalso. unfold permitted_std in Hn. lia.
Qed.

Lemma not_permitted_wanted D opts n : permitted_std opts n <> true -> wanted_fd D opts n = None.
Proof.
  unfold permitted_std, wanted_fd, wanted. intros Hn.
  repeat case_match; try done; exfalso; apply Hn; lia.
Qed.

Lemma run_child_reaches fuel exec args opts fd p before D :
  D !! fd = Some (p, true) -> fd <> 0 -> fd <> 1 -> fd <> 2 -> uncrossed opts -> same_fds before ->
  reaches (fun w => fds w = D) (run_child kernel errmsg fuel exec args opts fd what before)
    (fun _ w => forall n, fds w !! n = wanted_fd D opts n).
Proof.
  intros Hfd H0 H1 H2 Hu Hb. unfold run_child.
  eapply reaches_bind; [by apply (same_require fd Setpgid)|]. intros ?.
  eapply reaches_bind; [apply (same_check_limits fd opts)|]. intros ?.
  eapply reaches_bind with (Q := fun _ w => fds w = D).
  { destruct (bool_decide _); [apply same_ret|by apply same_require]. }
  intros ?. eapply reaches_bind; [apply (same_memory fd opts)|]. intros ?.
  eapply reaches_bind with (Q := fun _ w => fds w = D).
  { destruct (opt_cpu_time_limit opts), (opt_real_time_limit opts); unfold set_cpu_rlimit;
      first [apply same_ret | by apply same_require]. }
  intros ?. eapply reaches_bind; [apply change_fd_reaches|]. intros ?.
  eapply reaches_bind with (Q := fun _ w => exists D1, redirected D (new_stdin_fd opts) 0 D1 /\
    redirected D1 (new_stdout_fd opts) 1 (fds w)).
  { intros s s' u Hr E. exists (fds (world s)). split; [done|]. by eapply change_fd_reaches. }
  intros ?. eapply reaches_bind with (Q := fun _ w => exists D1 D2, redirected D (new_stdin_fd opts) 0 D1 /\
    redirected D1 (new_stdout_fd opts) 1 D2 /\ redirected D2 (new_stderr_fd opts) 2 (fds w)).
  { intros s s' u (D1 & Hr1 & Hr2) E. exists D1, (fds (world s)). split_and!; [done|done|]. by eapply change_fd_reaches. }
  set (final := fun w => forall n, surviving (fds w !! n) = wanted_fd D opts n).
  intros ?. eapply reaches_bind with (Q := fun _ => final).
  { intros s s' u (D1 & D2 & Hr1 & Hr2 & Hr3) E.
    destruct (close_other_reaches fuel fd opts (fds (world s)) s s' u eq_refl E) as (dirfd & Hd & Hc).
    set (D3 := fds (world s)) in *. intros n. rewrite Hc.
    assert (D3 !! fd = Some (p, true)) as Hfd3.
    { rewrite (redirected_ne D2 _ _ D3 fd Hr3), (redirected_ne D1 _ _ D2 fd Hr2), (redirected_ne D _ _ D1 fd Hr1) by done. done. }
    destruct (decide (permitted_std opts n = true)) as [Hp|Hp].
    - rewrite <- (redirections_all D D1 D2 D3 opts n) by done.
      destruct (decide (n = dirfd)) as [->|Hne].
      + rewrite decide_False by (by intros []). by rewrite (not_elem_of_dom_1 _ _ Hd).
      + by rewrite decide_True by (split; [by apply permitted_std_in|done]).
    - rewrite not_permitted_wanted by done. case_decide as Hc'; [|done]. destruct Hc' as [Hin Hne].
      destruct (decide (n = fd)) as [->|Hnf]; [by rewrite Hfd3|].
      destruct Hp. by eapply permitted_cases. }
  intros ?. eapply reaches_bind with (Q := fun _ => final).
  { intros s s' [] Hs E. unfold catch_and_send in E. destruct (before s) as [s1 r1] eqn:Eb.
    destruct r1 as [[u|st]|e| |]; try by inversion E.
    - assert (s1 = s') as -> by congruence. intros n. rewrite (Hb (fds (world s)) s s' u eq_refl Eb). apply Hs.
    - by apply (reaches_send_message (fun _ => True) fd (what e) (fun _ => final)) in E. }
  assert (forall A (c : sys A), on_fds c = false -> reaches final (ask kernel c) (fun _ => final)) as Hask.
  { intros A c Hc s s' b Hs E n. rewrite (same_ask c Hc (fds (world s)) s s' b eq_refl E). apply Hs. }
  intros ?. eapply reaches_bind; [by apply Hask|]. intros pid. eapply reaches_bind; [by apply Hask|]. intros ?.
  eapply reaches_bind; [apply (reaches_ask final)|]. intros [e|]; [apply reaches_send|].
  intros s s' b (w & Hw & Ek) E. inversion E; subst. intros n.
  pose proof (kernel_execvp (c_str exec) (map c_str args) w) as He. rewrite Ek in He. rewrite He, surviving_filter. apply Hw.
Qed.

End Descriptors.

(** ** The sandboxed program *)

Section Sandboxed.
Context {W : Type} (kernel : forall A, sys A -> W -> W * A) `{FdKernel W kernel}.
Variable errmsg : Z -> str.
Variable what : exn -> str.

Abbreviation same := (same_fds (L := Sandbox) kernel).

Lemma same_scmp_require fd r msg : same (scmp_require kernel errmsg fd r msg).
Proof.
  unfold scmp_require. apply same_bind; [by apply (same_ask kernel)|]. intros e.
  destruct (e =? 0); [apply same_ret|]. intros D. apply reaches_send.
Qed.

Lemma same_before_exec fd opts : same (before_exec kernel errmsg fd opts).
Proof.
  unfold before_exec, set_limits_after_load.
  do 7 (apply same_bind; [first [by apply (same_require kernel errmsg) | by apply (same_ask kernel) | apply same_scmp_require]|intros ?]).
  destruct (opt_memory_limit opts).
  - apply same_bind; [|intros ?]; by apply (same_require kernel errmsg).
  - apply same_bind; [by apply (same_ask kernel)|intros ?].
    apply same_bind; [by apply (same_ask kernel)|intros ?]. apply same_ret.
Qed.

(** Adding rules to a filter is no business of the descriptors. *)
Definition calm_setup {A} (m : stm (proc W Sandbox) A) : Prop :=
  forall s s' a, m s = (s', Ok a) -> fds (world s') = fds (world s).

Lemma setup_bind {A B} (m : stm (proc W Sandbox) A) (k : A -> stm (proc W Sandbox) B) :
  calm_setup m -> (forall a, calm_setup (k a)) -> calm_setup (m ≫= k).
Proof.
  intros Hm Hk s s' b E. apply stm_bind_Ok in E as (s1 & a & E1 & E2). rewrite (Hk _ _ _ _ E2). by eapply Hm.
Qed.

Lemma setup_request {A} (c : sys A) : on_fds c = false -> calm_setup (request kernel c).
Proof.
  intros Hc s s' a E. unfold request in E. pose proof (kernel_other A c (world s) Hc) as Ho.
  destruct (kernel A c (world s)) as [w b]. by inversion E; subst.
Qed.

Lemma setup_ret {A} (a : A) : calm_setup (mret a).
Proof. intros s s' b E. by inversion E. Qed.
Lemma setup_setl f : calm_setup (setl f).
Proof. intros s s' b E. by inversion E. Qed.
Lemma setup_throw {A} msg : calm_setup (A := A) (throw_error msg).
Proof. intros s s' b E. by inversion E. Qed.

Lemma setup_for_each {A} (l : list A) f : (forall x, calm_setup (f x)) -> calm_setup (for_each l f).
Proof. intros Hf. induction l as [|x l IH]; [apply setup_ret|]. apply setup_bind; [apply Hf|]. intros _. apply IH. Qed.

Ltac setup :=
  repeat (cbn beta iota zeta; lazymatch goal with
    | |- calm_setup (mret _) => apply setup_ret
    | |- calm_setup (setl _) => apply setup_setl
    | |- calm_setup (throw_error _) => apply setup_throw
    | |- calm_setup (request _ _) => by apply setup_request
    | |- calm_setup (for_each _ _) => apply setup_for_each; intros ?
    | |- calm_setup (_ ≫= _) => apply setup_bind; [|intros ?]
    | |- calm_setup (if ?b then _ else _) => destruct b
    | |- calm_setup (?f _) => progress unfold f
    end).

Lemma setup_rule a act name cmps : calm_setup (seccomp_rule_add_throw kernel a act name cmps).
Proof. unfold seccomp_rule_add_throw, scmp_throw. setup. Qed.

Lemma setup_opts_rules opts : calm_setup (install_opts_rules kernel opts).
Proof.
  unfold install_opts_rules, both_ctx, DISALLOW_ONLY_ON_STDIN_STDOUT_STDERR, DISALLOW_ONLY_ON_STDIN,
    DISALLOW_ONLY_ON_STDOUT_STDERR, fd_rule.
  setup; apply setup_rule.
Qed.

Lemma setup_pid_rules : calm_setup (install_pid_rules kernel).
Proof. unfold install_pid_rules, seccomp_rule_add_both_ctx. setup; apply setup_rule. Qed.

Lemma same_sub {A} (m : stm (proc W Sandbox) A) : calm_setup m -> same (sub m).
Proof.
  intros Hm D s s' a Hs E. unfold sub in E. destruct (m s) as [s1 [b|e| |]] eqn:E1; inversion E; subst.
  by rewrite (Hm _ _ _ E1).
Qed.

Lemma same_catch fd (m : child (W := W) (L := Sandbox) unit) : same m -> same (catch_and_send kernel fd what m).
Proof.
  intros Hm D s s' a Hs E. unfold catch_and_send in E. destruct (m s) as [s1 r] eqn:E1.
  destruct r as [[u|st]|e| |]; try by inversion E.
  - assert (s1 = s') as -> by congruence. by eapply (Hm D s s' u).
  - by apply (reaches_send_message kernel (fun _ => True) fd (what e) (fun _ w => fds w = D)) in E.
Qed.

Lemma run_tracee_reaches fuel exec args opts pfd p D :
  D !! pfd.2 = Some (p, true) -> pfd.1 <> pfd.2 -> pfd.2 <> 0 -> pfd.2 <> 1 -> pfd.2 <> 2 -> uncrossed opts ->
  reaches (L := Sandbox) (fun w => fds w = D)
    (run_tracee kernel errmsg what fuel exec args opts pfd)
    (fun _ w => forall n, fds w !! n = wanted_fd (delete pfd.1 D) opts n).
Proof.
  intros Hp Hne H0 H1 H2 Hu. unfold run_tracee.
  eapply reaches_bind with (Q := fun _ w => fds w = delete pfd.1 D).
  { eapply reaches_conseq; [apply (reaches_ask kernel (fun w => fds w = D))|done|]. intros a w' (w & <- & Ek).
    destruct (kernel_close pfd.1 w) as [Hc _]. by rewrite Ek in Hc. }
  intros ?. eapply reaches_bind.
  { apply (same_catch pfd.2). apply same_bind; [apply same_sub, setup_opts_rules|]. intros ?.
    apply same_sub, setup_pid_rules. }
  intros ?. eapply reaches_bind; [apply (same_scmp_require pfd.2)|]. intros ?.
  apply (run_child_reaches kernel errmsg what fuel exec args (without_memory_limit opts) pfd.2 p); try done.
  - by rewrite lookup_delete_ne.
  - apply same_before_exec.
Qed.

End Sandboxed.

(** ** A kernel with descriptors *)

(** The world: the table of descriptors, and what is left of the listing of
    [/proc/self/fd]. *)
Definition fd_world : Type := gmap Z (nat * bool) * list Z.

Definition fd_kernel (A : Type) (c : sys A) (w : fd_world) : fd_world * A :=
  match c in sys B return fd_world * B with
  | Close fd => ((delete fd w.1, w.2), tt)
  | Dup2 oldfd newfd =>
      match w.1 !! oldfd with
      | Some (f, _) =>
          if (0 <=? oldfd) && (oldfd <? 2 ^ 31) && (0 <=? newfd) && (newfd <? 2 ^ 31)
          then ((<[newfd := (f, false)]> w.1, w.2), 0) else (w, EBADF)
      | None => (w, EBADF)
      end
  | Opendir _ =>
      match list_find (fun fd => w.1 !! fd = None) (seqZ 0 1024) with
      | Some (_, dirfd) =>
          let t := <[dirfd := (0%nat, true)]> w.1 in ((t, (map_to_list t).*1), inr dirfd)
      | None => (w, inl EBADF)
      end
  | Readdir _ =>
      match w.2 with
      | [] => (w, inr None)
      | fd :: l => ((w.1, l), inr (Some (to_string fd)))
      end
  | Closedir dirfd => ((delete dirfd w.1, w.2), tt)
  | Execvp _ _ => ((filter (fun p => p.2.2 = false) w.1, w.2), None)
  | c => (w, (quiet_kernel _ c tt).2)
  end.

Definition valid_fd (p : Z * (nat * bool)) : Prop := 0 <= p.1 < 2 ^ 31.
#[local] Instance valid_fd_dec p : Decision (valid_fd p) := _.

#[local] Instance fd_kernel_laws : FdKernel fd_kernel.
Proof.
  refine {| fds := fun w => filter valid_fd w.1; unlisted := fun w => list_to_set w.2 |}.
  - intros w fd [x Hx]%elem_of_dom. by apply map_lookup_filter_Some in Hx as [_ Hx].
  - intros A c w. by destruct c.
  - intros fd w. cbn. by rewrite map_filter_delete.
  - intros oldfd newfd w _. cbn [fd_kernel]. destruct (w.1 !! oldfd) as [[f c]|] eqn:Eo; [|done].
    destruct (_ && _) eqn:Ev; [|done]. exists f, c. cbn. rewrite !andb_true_iff in Ev. split.
    + apply map_lookup_filter_Some. split; [done|]. unfold valid_fd. cbn. lia.
    + rewrite map_filter_insert_True; [done|]. unfold valid_fd. cbn. lia.
  - intros path w. cbn [fd_kernel]. destruct (list_find _ _) as [[i dirfd]|] eqn:Ef; [|done].
    apply list_find_Some in Ef as (Hl & Hn & _). apply lookup_seqZ in Hl as [Hl ?]. cbn. split_and!.
    + intros [x Hx]%elem_of_dom. apply map_lookup_filter_Some in Hx as [Hx _]. congruence.
    + exists 0%nat. rewrite map_filter_insert_True; [done|]. unfold valid_fd. cbn. lia.
    + intros _ fd [x Hx]%elem_of_dom. apply map_lookup_filter_Some in Hx as [Hx _].
      apply elem_of_list_to_set, list_elem_of_fmap. exists (fd, x). split; [done|]. by apply elem_of_map_to_list.
  - intros dirfd [t [|fd l]]; cbn; [set_solver|]. split; [done|]. intros n. set_solver.
  - intros dirfd w. cbn. by rewrite map_filter_delete.
  - intros file argv w. cbn. apply map_filter_comm.
Defined.


(** The parent has its terminal as 0, 1 and 2, the pipe as 3 and 4, an input and
    an output file as 5 and 6, and something else as 7. *)
Definition fd_start : proc fd_world Sandbox :=
  mkProc (loc built) []
    (list_to_map [(0, (1%nat, false)); (1, (1%nat, false)); (2, (1%nat, false)); (3, (3%nat, true));
                  (4, (4%nat, true)); (5, (5%nat, true)); (6, (6%nat, false)); (7, (7%nat, false))], []) [].

Abbreviation fd_run stdin stdout :=
  (run_tracee fd_kernel (fun _ => []) (fun _ => []) 20 (lit "/bin/true") []
    (mkOptions stdin stdout (-1) None None None (lit ".")) (3, 4) fd_start).


(** A redirection that takes a descriptor which has been replaced gets the
    replacement: asked to swap 0 with 5 and 1 with 0, the program gets the file
    of 5 as its output too. *)
Theorem crossed_redirection :
  exists w, fd_run 5 0 = (w, Ok (inl tt)) /\
    fds (world w) !! 1 = Some (5%nat, false) /\
    fds (world fd_start) !! 0 = Some (1%nat, false).
Proof. exists (fd_run 5 0).1. vm_compute. done. Qed.
