(* ===== verification/SpawnerErrors.v ===== *)
(** * How a run of a process can end

    The outcomes of [Spawner::run]: which limits it refuses, what it reports of
    the process, and that it leaves no process behind when it throws. *)

From Stdlib Require Import ZArith Lia.
From S2P Require Import Prelude.
From S2P Require Import StringView.
From S2P Require Import StringTransform.
From S2P Require Import Floats.
From S2P Require Import Time.
From S2P Require Import Os.
From S2P Require Import Spawner.
From S2P Require Import Seccomp.
From S2P Require Import Sandbox.
From S2P Require Import SandboxFilter.
From S2P Require Import SandboxProofs.
From S2P Require Import ProcessTermination.
Local Open Scope Z_scope.

(** ** Children in a trace *)

(** A process that has been forked is there until a [waitid] that may reap it
    says that it has ended. *)
Definition reaps (options : Z) (si : siginfo) : bool :=
  (Z.land options WNOWAIT =? 0) && negb (si_code si =? CLD_STOPPED).

Definition child_step (child : option Z) (e : entry) : option Z :=
  match e with
  | @Did _ c a =>
      match c in sys A return A -> option Z with
      | Fork => fun a => match a with Some pid => Some pid | None => child end
      | Waitid pid options => fun a =>
          match a with
          | Some (si, _) => if reaps options si && bool_decide (child = Some pid) then None else child
          | None => child
          end
      | _ => fun _ => child
      end a
  end.

Definition child_after (child : option Z) (t : list entry) : option Z := fold_left child_step t child.

(** No [waitid] failed, and one that asks for ended processes only has not
    reported another stop: the documented behaviour for a child of one's own. *)
Definition answered (e : entry) : Prop :=
  match e with
  | @Did _ c a =>
      match c in sys A return A -> Prop with
      | Waitid _ options => fun a =>
          match a with
          | Some (si, _) => options = WEXITED -> si_code si <> CLD_STOPPED
          | None => False
          end
      | _ => fun _ => True
      end a
  end.

Definition calm (e : entry) : Prop :=
  match e with @Did _ c _ => match c with Fork | Waitid _ _ => False | _ => True end end.

Lemma calm_child e child : calm e -> child_step child e = child.
Proof. destruct e as [A c a]. by destruct c. Qed.

Lemma calm_children t : forall child, Forall calm t -> child_after child t = child.
Proof.
  induction t as [|e t IH]; intros child Ht; [done|]. inversion Ht; subst.
  cbn. rewrite calm_child by done. by apply IH.
Qed.

Lemma child_after_app child t1 t2 : child_after child (t1 ++ t2) = child_after (child_after child t1) t2.
Proof. apply fold_left_app. Qed.

Section Outcomes.
Context {W L : Type}.
Variable kernel : forall A, sys A -> W -> W * A.
Variable strsignal : Z -> str.
Variable n : nat.
Abbreviation M := (stm (proc W L)).
Abbreviation call := (call kernel).

(** ** Computations that have nothing to do with children *)

Definition quiet {A} (m : M A) : Prop := forall s s' r, m s = (s', r) ->
  exists t, trace s' = trace s ++ t /\ Forall calm t.

Lemma quiet_same {A} (m : M A) : (forall s, trace (m s).1 = trace s) -> quiet m.
Proof. intros Hm s s' r E. exists []. specialize (Hm s). rewrite E in Hm. by rewrite app_nil_r. Qed.

Lemma quiet_bind {A B} (m : M A) (k : A -> M B) : quiet m -> (forall a, quiet (k a)) -> quiet (m ≫= k).
Proof.
  intros Hm Hk s s' r E. unfold mbind, stm_bind in E. destruct (m s) as [s1 r1] eqn:E1.
  destruct (Hm _ _ _ E1) as (t1 & Ht1 & Hc1). destruct r1 as [a|e| |]; [|simplify_eq; by exists t1..].
  destruct (Hk a _ _ _ E) as (t2 & Ht2 & Hc2). exists (t1 ++ t2). split; [by rewrite Ht2, Ht1, app_assoc|].
  by apply Forall_app.
Qed.

Lemma quiet_gets {A B} (f : proc W L -> A) (k : A -> M B) : (forall a, quiet (k a)) -> quiet (gets f ≫= k).
Proof. intros Hk. by apply quiet_bind; [apply quiet_same|]. Qed.

Lemma quiet_request {A} (c : sys A) : (forall a, calm (Did c a)) -> quiet (request kernel c).
Proof.
  intros Hc s s' r E. unfold request in E. destruct (kernel A c (world s)) as [w a].
  inversion E; subst. exists [Did c a]. split; [done|]. by repeat constructor.
Qed.

Lemma quiet_handlers sigs : quiet (run_handlers kernel sigs).
Proof.
  induction sigs as [|[code i] sigs IH]; cbn [run_handlers]; [by apply quiet_same|].
  apply quiet_bind; [|intros _; apply IH]. unfold timeout_handler. destruct (negb _); [by apply quiet_same|].
  apply quiet_gets. intros ctxs. apply quiet_bind; [by apply quiet_same|]. intros ctx.
  apply quiet_bind; [by apply quiet_request|]. intros _. by apply quiet_same.
Qed.

Lemma quiet_call {A} (c : sys A) : (forall a, calm (Did c a)) -> quiet (call c).
Proof.
  intros Hc. unfold call, Os.call. apply quiet_bind; [by apply quiet_request|]. intros sigs.
  apply quiet_bind; [apply quiet_handlers|]. intros _. by apply quiet_request.
Qed.

End Outcomes.

Ltac quieting :=
  repeat (cbn beta iota zeta; lazymatch goal with
    | |- quiet (mret _) => by apply quiet_same
    | |- quiet (lift _) => by apply quiet_same
    | |- quiet (throw_error _) => by apply quiet_same
    | |- quiet (new_context _) => by apply quiet_same
    | |- quiet (gets _ ≫= _) => apply quiet_gets; intros ?
    | |- quiet (_ ≫= _) => apply quiet_bind; [|intros ?]
    | |- quiet (Os.call _ _) => by apply quiet_call
    | |- quiet (Os.call_or_throw _ _ _) => unfold Os.call_or_throw
    | |- quiet (when ?b _) => destruct b; cbn [when]
    | |- quiet (match ?x with _ => _ end) => destruct x
    end).

Section Runs.
Context {W L : Type}.
Variable kernel : forall A, sys A -> W -> W * A.
Variable strsignal : Z -> str.
Variable n : nat.
Abbreviation M := (stm (proc W L)).
Abbreviation call := (call kernel).

Lemma quiet_read_all fuel fd : forall message, quiet (L := L) (read_all kernel fuel fd message).
Proof. induction fuel as [|fuel IH]; intros message; cbn [read_all]; quieting. apply IH. Qed.

Lemma quiet_pause fuel t : quiet (L := L) (pause_until_sent kernel fuel t).
Proof. induction fuel as [|fuel IH]; cbn [pause_until_sent]; unfold timeout_signal_was_sent; quieting; apply IH. Qed.

Lemma quiet_delete t : quiet (L := L) (delete_timer_and_get_remaning_time kernel n t).
Proof. unfold delete_timer_and_get_remaning_time. quieting; apply quiet_pause. Qed.

Lemma quiet_make_timer pid limit clock signal : quiet (L := L) (make_timer kernel n pid limit clock signal).
Proof. unfold make_timer, delete_timer. quieting; apply quiet_delete. Qed.

Lemma quiet_deactivate t : quiet (L := L) (deactivate_and_get_runtime kernel n t).
Proof. unfold deactivate_and_get_runtime. quieting; apply quiet_delete. Qed.

Lemma quiet_receive si fd : quiet (L := L) (receive_error_message kernel strsignal n si fd).
Proof. unfold receive_error_message. quieting. apply quiet_read_all. Qed.

(** ** Children over a run *)

(** From a state with the child [p], if all waits are answered: a value comes
    with [Q], an exception with [E]. *)
Definition ledger {A} (p : option Z) (m : M A) (Q : A -> option Z -> Prop) (E : option Z -> Prop) : Prop :=
  forall s s' r, m s = (s', r) -> exists t, trace s' = trace s ++ t /\
    (Forall answered t ->
     match r with Ok a => Q a (child_after p t) | Throw _ => E (child_after p t) | _ => True end).

Lemma ledger_quiet {A} p (m : M A) (Q : A -> option Z -> Prop) E :
  quiet m -> (forall s s' a, m s = (s', Ok a) -> Q a p) -> E p -> ledger p m Q E.
Proof.
  intros Hm HQ HE s s' r Em. destruct (Hm _ _ _ Em) as (t & Ht & Hc). exists t. split; [done|]. intros _.
  rewrite calm_children by done. destruct r; try done. by eapply HQ.
Qed.

Lemma ledger_keep {A} p (m : M A) E : quiet m -> E p -> ledger p m (fun _ q => q = p) E.
Proof. intros Hm HE. by apply ledger_quiet. Qed.

Lemma ledger_ret {A} p (a : A) (Q : A -> option Z -> Prop) E : Q a p -> ledger p (mret a) Q E.
Proof. intros HQ s s' r Em. inversion Em; subst. exists []. split; [by rewrite app_nil_r|]. done. Qed.

Lemma ledger_throw {A} p (e : exn) (Q : A -> option Z -> Prop) (E : option Z -> Prop) : E p -> ledger p (lift (Throw e)) Q E.
Proof. intros HE s s' r Em. inversion Em; subst. exists []. split; [by rewrite app_nil_r|]. done. Qed.

(** The trace grows anyway. *)
Lemma ledger_bind {A B} p (m : M A) (k : A -> M B) Q R E :
  ledger p m Q E -> (forall a, ends n (k a)) -> (forall a q, Q a q -> ledger q (k a) R E) -> ledger p (m ≫= k) R E.
Proof.
  intros Hm Hg Hk s s' r Em. unfold mbind, stm_bind in Em. destruct (m s) as [s1 r1] eqn:E1.
  destruct (Hm _ _ _ E1) as (t1 & Ht1 & Hc1). destruct r1 as [a|e| |]; [|simplify_eq; by exists t1..].
  destruct (Hg a _ _ _ Em) as (t2 & Ht2 & _). exists (t1 ++ t2). split; [by rewrite Ht2, Ht1, app_assoc|].
  rewrite Forall_app. intros [Ha1 Ha2]. destruct (Hk a _ (Hc1 Ha1) _ _ _ Em) as (t2' & Ht2' & Hc2).
  rewrite Ht2 in Ht2'. apply app_inv_head in Ht2' as <-. rewrite child_after_app. by apply Hc2.
Qed.

Lemma ledger_finally {A} p (m : M A) d Q E : ledger p m Q E -> quiet d -> ledger p (finally m d) Q E.
Proof.
  intros Hm Hd s s' r Em. unfold finally in Em. destruct (m s) as [s1 r1] eqn:E1.
  destruct (Hm _ _ _ E1) as (t1 & Ht1 & Hc1). destruct r1 as [a|e| |]; [| |simplify_eq; by exists t1..].
  all: destruct (d s1) as [s2 r2] eqn:E2; destruct (Hd _ _ _ E2) as (t2 & Ht2 & Hc2); exists (t1 ++ t2);
    assert (s2 = s') as -> by (by destruct r2; simplify_eq); (split; [by rewrite Ht2, Ht1, app_assoc|]);
    rewrite Forall_app, child_after_app, (calm_children t2) by done; intros [Ha1 _]; specialize (Hc1 Ha1);
    destruct r2; by simplify_eq.
Qed.

Lemma ledger_on_throw {A} p (m : M A) d Q (E E' : option Z -> Prop) :
  ledger p m Q E -> ends n d -> (forall q, E q -> ledger q d (fun _ => E') E') -> ledger p (on_throw m d) Q E'.
Proof.
  intros Hm Hg Hd s s' r Em. unfold on_throw in Em. destruct (m s) as [s1 r1] eqn:E1.
  destruct (Hm _ _ _ E1) as (t1 & Ht1 & Hc1). destruct r1 as [a|e| |]; [simplify_eq; by exists t1| |simplify_eq; by exists t1..].
  unfold finally, lift in Em. destruct (d s1) as [s2 r2] eqn:E2. destruct (Hg _ _ _ E2) as (t2 & Ht2 & _).
  exists (t1 ++ t2). assert (s2 = s') as -> by (by destruct r2; simplify_eq).
  split; [by rewrite Ht2, Ht1, app_assoc|]. rewrite Forall_app, child_after_app. intros [Ha1 Ha2].
  destruct (Hd _ (Hc1 Ha1) _ _ _ E2) as (t2' & Ht2' & Hc2). rewrite Ht2 in Ht2'. apply app_inv_head in Ht2' as <-.
  specialize (Hc2 Ha2). destruct r2; by simplify_eq.
Qed.

Lemma ledger_conseq {A} p (m : M A) (Q Q' : A -> option Z -> Prop) (E E' : option Z -> Prop) :
  ledger p m Q E -> (forall a q, Q a q -> Q' a q) -> (forall q, E q -> E' q) -> ledger p m Q' E'.
Proof.
  intros Hm HQ HE s s' r Em. destruct (Hm _ _ _ Em) as (t & Ht & Hc). exists t. split; [done|]. intros Ha.
  specialize (Hc Ha). destruct r; auto.
Qed.

(** A handler does not throw. *)
Lemma handlers_no_throw sigs : forall s : proc W L, match (run_handlers kernel sigs s).2 with Throw _ => False | _ => True end.
Proof.
  induction sigs as [|[code i] sigs IH]; intros s; [done|]. cbn [run_handlers]. unfold mbind, stm_bind.
  destruct (timeout_handler kernel code i s) as [s1 r1] eqn:E1. destruct r1 as [u|e| |]; [apply IH| |done..].
  unfold timeout_handler in E1. destruct (negb _); [done|].
  unfold gets, lift, request, modify, mbind, stm_bind in E1. destruct (contexts s !! i); cbn in E1; [|done].
  by destruct (kernel _ _ _).
Qed.

(** Every request: what its answer makes of the child. *)
Lemma ledger_call {A} p (c : sys A) (E : option Z -> Prop) :
  ledger p (call c) (fun a q => q = child_step p (Did c a) /\ answered (Did c a)) E.
Proof.
  apply ledger_conseq with (E := fun _ => False) (Q := fun a q => q = child_step p (Did c a) /\ answered (Did c a));
    [|done..].
  intros s s' r Em. unfold call, Os.call, mbind, stm_bind in Em. unfold request at 1 in Em.
  destruct (kernel _ Signals (world s)) as [w sigs]. destruct (run_handlers kernel sigs _) as [s1 r1] eqn:E1.
  destruct (quiet_handlers kernel sigs _ _ _ E1) as (t & Ht & Hc). pose proof (handlers_no_throw sigs) as Hn.
  specialize (Hn (mkProc (loc s) (contexts s) w (trace s ++ [Did Signals sigs]))). rewrite E1 in Hn.
  destruct r1 as [u|e| |]; [|done|simplify_eq; exists ([Did Signals sigs] ++ t); split; [by rewrite Ht, app_assoc|done]..].
  unfold request in Em. destruct (kernel A c (world s1)) as [w1 a]. simplify_eq. cbn.
  exists ([Did Signals sigs] ++ t ++ [Did c a]). split; [by rewrite Ht, !app_assoc|].
  rewrite !Forall_app, !child_after_app, (calm_children t) by done. intros (_ & _ & Ha). by inversion Ha.
Qed.

Lemma ledger_call_or_throw {A} p what (c : sys (option A)) (E : option Z -> Prop) :
  (answered (Did c None) -> E (child_step p (Did c None))) ->
  ledger p (Os.call_or_throw kernel what c)
    (fun a q => q = child_step p (Did c (Some a)) /\ answered (Did c (Some a))) E.
Proof.
  intros HE'. unfold Os.call_or_throw. eapply ledger_bind; [by apply ledger_call|intros ?; ending|].
  intros r q [Hq Ha]. rewrite Hq. destruct r as [a|]; [by apply ledger_ret|]. by apply ledger_throw, HE'.
Qed.

(** ** [Spawner::run] *)

Definition refused (opts : Options) : option str :=
  let not_positive (l : option Z) := match l with Some x => x <=? 0 | None => false end in
  if not_positive (opt_real_time_limit opts) then Some (lit "If set, real_time_limit has to be greater than 0")
  else if not_positive (opt_cpu_time_limit opts) then Some (lit "If set, cpu_time_limit has to be greater than 0")
  else if not_positive (opt_memory_limit opts) then Some (lit "If set, memory_limit has to be greater than 0")
  else None.

Lemma check_limits_refused opts (s : proc W L) :
  check_limits opts s =
    (s, match refused opts with Some text => Throw (RuntimeError text) | None => Ok tt end).
Proof.
  unfold check_limits, refused. cbv zeta.
  destruct (match opt_real_time_limit opts with Some x => x <=? 0 | None => false end); [done|].
  destruct (match opt_cpu_time_limit opts with Some x => x <=? 0 | None => false end); [done|].
  by destruct (match opt_memory_limit opts with Some x => x <=? 0 | None => false end).
Qed.

(** What [run] may say of a process. *)
Definition reported (st : ExitStat) : Prop :=
  (es_message st = [] -> es_code st = CLD_EXITED /\ es_status st = 0) /\
  (es_message st <> [] ->
    describe_end strsignal (mkSi SIGCHLD (es_code st) (es_status st)) = Ok (es_message st)) /\
  vm_peak st = 0.

Lemma describe_end_nonempty si message : describe_end strsignal si = Ok message -> message <> [].
Proof. unfold describe_end. intros E ->. repeat case_match; discriminate. Qed.

Lemma ledger_receive p si fd : 
  ledger p (receive_error_message kernel strsignal n si fd)
    (fun message q => q = p /\ describe_end strsignal si = Ok message) (fun q => q = p).
Proof.
  apply ledger_quiet; [apply quiet_receive| |done]. intros s s' a E. split; [done|].
  unfold receive_error_message in E. apply stm_bind_Ok in E as (s1 & message & _ & E).
  destruct (negb _); [done|]. by inversion E.
Qed.

(** The wait that reaps. *)
Lemma reaping_wait pid a : answered (Did (Waitid pid WEXITED) a) ->
  child_step (Some pid) (Did (Waitid pid WEXITED) a) = None.
Proof.
  cbn. destruct a as [[si ru]|]; [|done]. intros Ha. unfold reaps.
  rewrite bool_decide_true, (proj2 (Z.eqb_neq _ _) (Ha eq_refl)) by done. done.
Qed.

Lemma ledger_kill_and_wait pid E :
  ledger (Some pid) (kill_and_wait kernel pid) (fun _ q => q = None) E.
Proof.
  unfold kill_and_wait. eapply ledger_bind; [by apply ledger_call|intros ?; ending|]. intros u q [-> _].
  eapply ledger_bind; [by apply ledger_call|intros ?; ending|]. intros a q [-> Ha].
  apply ledger_ret. by apply reaping_wait.
Qed.

Ltac growing :=
  intros; unfold watch_child, do_in_parent_after_fork, waitid_into, waitid_usage, kill_and_wait, Os.call_or_throw; ending;
  first [apply ends_make_timer | apply ends_deactivate | apply ends_delete_timer | apply ends_receive
        | apply ends_lift; discriminate | idtac].

(** A step that has nothing to do with children. *)
Ltac quiet_step := eapply ledger_bind; [apply ledger_keep; [|reflexivity]|growing|intros ? ? ->].

Lemma ledger_watch_child pid opts si :
  ledger (Some pid) (watch_child kernel n pid opts si) (fun _ q => q = Some pid) (fun q => q = None).
Proof.
  unfold watch_child. apply ledger_on_throw with (E := fun q => q = Some pid);
    [|growing|intros q ->; apply ledger_kill_and_wait].
  quiet_step; [unfold do_in_parent_after_fork; quieting|].
  quiet_step; [quieting|].
  quiet_step; [apply quiet_make_timer|].
  eapply ledger_bind with (Q := fun _ q => q = Some pid); [|growing|intros ? ? ->].
  { apply ledger_on_throw with (E := fun q => q = Some pid); [|growing|].
    - by apply ledger_keep; [apply quiet_make_timer|].
    - intros q ->. apply ledger_keep; [|done]. unfold delete_timer. quieting. apply quiet_delete. }
  quiet_step; [quieting|].
  eapply ledger_bind with (Q := fun _ q => q = Some pid); [|growing|intros ? ? ->].
  { unfold waitid_into. eapply ledger_bind; [apply ledger_call|growing|]. intros r q [-> _]. apply ledger_ret.
    cbn. by destruct r as [[]|]. }
  quiet_step; [apply quiet_deactivate|]. case_match.
  quiet_step; [apply quiet_deactivate|]. case_match.
  by apply ledger_ret.
Qed.

(** After the first wait has told that the process has stopped. *)
Lemma ledger_started pid fd opts si ru E : E None ->
  ledger (Some pid)
    ('(runtime, cpu_time, si) ← watch_child kernel n pid opts si;
     '(si, ru) ← waitid_usage kernel pid WEXITED si ru;
     if negb (si_code si =? CLD_EXITED) || negb (si_status si =? 0) then
       message ← receive_error_message kernel strsignal n si fd;
       mret (mkExitStat runtime cpu_time (si_code si) (si_status si) ru 0 message)
     else mret (mkExitStat runtime cpu_time (si_code si) (si_status si) ru 0 []))
    (fun st q => q = None /\ reported st) E.
Proof.
  intros HE. eapply ledger_bind; [|growing|].
  { eapply ledger_conseq; [apply ledger_watch_child|intros a q Hq; exact Hq|by intros q ->]. }
  intros [[runtime cpu_time] si1] q ->. eapply ledger_bind with (Q := fun _ q => q = None); [|growing|].
  { unfold waitid_usage. eapply ledger_bind; [apply ledger_call|growing|]. intros r q [-> Ha]. apply ledger_ret.
    by apply reaping_wait. }
  intros [si2 ru2] q ->. destruct (_ || _) eqn:Ec.
  - eapply ledger_bind; [|growing|].
    { eapply ledger_conseq; [apply ledger_receive|intros a q Hq; exact Hq|by intros q ->]. }
    intros message q [-> Hm]. apply ledger_ret. split; [done|]. pose proof (describe_end_nonempty _ _ Hm). by split_and!.
  - apply ledger_ret. split; [done|]. apply orb_false_iff in Ec as [E1 E2].
    split_and!; [intros _; cbn; lia|by intros []|done].
Qed.

Lemma ledger_run opts : refused opts = None ->
  ledger None (run kernel strsignal n opts) (fun st q => q = None /\ reported st) (fun q => q = None).
Proof.
  intros Hr. unfold run. eapply ledger_bind with (Q := fun _ q => q = None); [|growing|].
  { by apply ledger_keep; [apply quiet_same; intros s; rewrite check_limits_refused|]. }
  intros ? ? ->. eapply ledger_bind; [by apply ledger_call_or_throw|growing|]. intros pfd q [-> _].
  eapply ledger_bind; [by apply ledger_call_or_throw|growing|]. intros pid q [-> _].
  eapply ledger_bind; [by apply ledger_call|growing|]. intros u q [-> _]. cbn [child_step].
  apply ledger_finally; [|quieting].
  eapply ledger_bind; [by apply ledger_call_or_throw|growing|]. intros [si ru] q [-> Ha].
  destruct (si_code si =? CLD_STOPPED) eqn:Es; cbn [negb].
  { replace (child_step _ _) with (Some pid); [by apply ledger_started|]. cbn. unfold reaps. by rewrite Es, andb_false_r. }
  replace (child_step _ _) with (None : option Z).
  2: { cbn. unfold reaps. rewrite Es, bool_decide_true by done. done. }
  eapply ledger_bind; [apply ledger_receive|growing|].
  intros message q [-> Hm]. apply ledger_ret. split; [done|]. pose proof (describe_end_nonempty _ _ Hm). by split_and!.
Qed.

End Runs.


(** A process killed by a signal. *)
Definition kill_kernel (A : Type) (c : sys A) (w : nat) : nat * A :=
  match c in sys B return nat * B with
  | Waitid _ _ =>
      (S w, Some (match w with O => mkSi SIGCHLD CLD_STOPPED 19 | _ => mkSi SIGCHLD CLD_KILLED 9 end, []))
  | c => (w, (quiet_kernel _ c tt).2)
  end.


