(* ===== verification/FileIo.v ===== *)
(** * Reading and writing files

    The loops of [file_contents.cc], [file_manip.cc] ([blast]) and
    [fd_pread_buff.hh] over [read], [pread], [write] and [lseek].  The kernel
    answers requests and is a parameter; [errno] is part of the state. *)

From Stdlib Require Import ZArith Lia Ascii.
From S2P Require Import Prelude.
From S2P Require Import StringView.
From S2P Require Import StringTransform.
Local Open Scope Z_scope.

Definition EINTR : Z := 4.
Definition EEXIST : Z := 17.
Definition EXDEV : Z := 18.
Definition ENOTDIR : Z := 20.
Definition ETXTBSY : Z := 26.
Definition ENAMETOOLONG : Z := 36.
Definition ENOMEM : Z := 12.
Definition AT_FDCWD : Z := -100.

Inductive whence := SEEK_SET | SEEK_CUR | SEEK_END.

Inductive open_flag :=
| O_RDONLY | O_WRONLY | O_CREAT | O_EXCL | O_TRUNC | O_DIRECTORY | O_NOFOLLOW | O_CLOEXEC | O_APPEND.

#[export] Instance open_flag_eq_dec : EqDecision open_flag.
Proof. solve_decision. Defined.

(** [d_type] *)
Inductive dtype := DT_DIR | DT_UNKNOWN | DT_OTHER.

(** Requests to the file system: [inl errno] when they fail. *)
Inductive fsys : Type -> Type :=
| Read (fd count : Z) : fsys (Z + str)
| Pread (fd count offset : Z) : fsys (Z + str)
| Write (fd : Z) (data : str) : fsys (Z + Z)
| Lseek (fd offset : Z) (from : whence) : fsys (Z + Z)
| Openat (dirfd : Z) (path : str) (flags : list open_flag) (mode : Z) : fsys (Z + Z)
| Close (fd : Z) : fsys (Z + unit)
| Ftruncate (fd length : Z) : fsys (Z + unit)
| Fchmod (fd mode : Z) : fsys (Z + unit)
| Fstatat (dirfd : Z) (path : str) : fsys (Z + Z)
| Mkdirat (dirfd : Z) (path : str) (mode : Z) : fsys (Z + unit)
| Unlinkat (dirfd : Z) (path : str) (removedir : bool) : fsys (Z + unit)
| Renameat (old_dirfd : Z) (old_path : str) (new_dirfd : Z) (new_path : str) : fsys (Z + unit)
| Fdopendir (fd : Z) : fsys (Z + unit)
| Readdir (fd : Z) : fsys (Z + option (str * dtype))
| Closedir (fd : Z) : fsys (Z + unit)
| Random (count : Z) : fsys (Z + str).

Record io (W : Type) := mkIo { errno : Z; world : W }.
Arguments mkIo {W}.
Arguments errno {W}.
Arguments world {W}.

Section FileIo.
Context {W : Type}.
Variable kernel : forall A, fsys A -> W -> W * A.
Arguments kernel {A}.

Abbreviation M := (stm (io W)).

(** A system call: [None] with [errno] set when it fails. *)
Definition perform {A} (c : fsys (Z + A)) : M (option A) := fun s =>
  match kernel c (world s) with
  | (w, inl e) => (mkIo e w, Ok None)
  | (w, inr a) => (mkIo (errno s) w, Ok (Some a))
  end.

Definition set_errno (e : Z) : M unit := modify (fun s => mkIo e (world s)).
Definition interrupted : M bool := gets (fun s => errno s =? EINTR).

Definition len (s : str) : Z := Z.of_nat (length s).

(** ** file_contents.cc *)

(** The result and what has been read into the buffer before the position. *)
Fixpoint read_all (fuel : nat) (fd count : Z) (buff : str) : M (Z * str) :=
  match fuel with
  | O => lift NoFuel
  | S fuel' =>
      if len buff <? count then
        k ← perform (Read fd (count - len buff));
        match k with
        | Some (c :: data) => read_all fuel' fd count (buff ++ c :: data)
        | Some [] => _ ← set_errno 0; mret (len buff, buff)
        | None =>
            again ← interrupted;
            if (again : bool) then read_all fuel' fd count buff else mret (len buff, buff)
        end
      else _ ← set_errno 0; mret (count, buff)
  end.

Fixpoint pread_all (fuel : nat) (fd pos count : Z) (buff : str) : M (Z * str) :=
  match fuel with
  | O => lift NoFuel
  | S fuel' =>
      if len buff <? count then
        k ← perform (Pread fd (count - len buff) (pos + len buff));
        match k with
        | Some (c :: data) => pread_all fuel' fd pos count (buff ++ c :: data)
        | Some [] => _ ← set_errno 0; mret (len buff, buff)
        | None =>
            again ← interrupted;
            if (again : bool) then pread_all fuel' fd pos count buff else mret (pos, buff)
        end
      else _ ← set_errno 0; mret (len buff, buff)
  end.

(** [write_all] from position [pos] of the data. *)
Fixpoint write_loop (fuel : nat) (fd : Z) (data : str) (pos : Z) : M Z :=
  match fuel with
  | O => lift NoFuel
  | S fuel' =>
      if pos <? len data then
        k ← perform (Write fd (drop (Z.to_nat pos) data));
        match k with
        | Some k => write_loop fuel' fd data (pos + k)
        | None =>
            again ← interrupted;
            if (again : bool) then write_loop fuel' fd data pos else mret pos
        end
      else _ ← set_errno 0; mret (len data)
  end.

Definition write_all (fuel : nat) (fd : Z) (data : str) : M Z :=
  _ ← set_errno 0; write_loop fuel fd data 0.

Definition write_all_throw (fuel : nat) (fd : Z) (data : str) : M unit :=
  n ← write_all fuel fd data;
  if n =? len data then mret tt else throw_error (lit "write()").

Definition BUFF_SIZE : Z := 65536.

(** The loop of [get_file_contents]. *)
Fixpoint contents_loop (fuel : nat) (fd bytes : Z) (res : str) : M str :=
  match fuel with
  | O => lift NoFuel
  | S fuel' =>
      if 0 <? bytes then
        k ← perform (Read fd (Z.min BUFF_SIZE bytes));
        match k with
        | Some [] => mret res
        | Some data => contents_loop fuel' fd (bytes - len data) (res ++ data)
        | None =>
            again ← interrupted;
            if (again : bool) then contents_loop fuel' fd bytes res
            else throw_error (lit "read() failed")
        end
      else mret res
  end.

(** [bytes] of the default argument: [size_t(-1)]. *)
Definition ALL_BYTES : Z := 2 ^ 64 - 1.

Definition get_file_contents (fuel : nat) (fd bytes : Z) : M str := contents_loop fuel fd bytes [].

(** From [beg] to [end]. *)
Definition get_file_contents_range (fuel : nat) (fd beg end_ : Z) : M str :=
  r ← perform (Lseek fd 0 SEEK_END);
  let size := match r with Some x => x | None => -1 end in
  let beg := if beg <? 0 then Z.max (size + beg) 0 else beg in
  _ ← when (size =? -1) (throw_error (lit "lseek64() failed"));
  if size <? beg then mret []
  else
    let end_ := if (size <? end_) || (end_ <? 0) then size else end_ in
    let end_ := if end_ <? beg then beg else end_ in
    r ← perform (Lseek fd beg SEEK_SET);
    _ ← when (negb (bool_decide (r = Some beg))) (throw_error (lit "lseek64() failed"));
    contents_loop fuel fd (end_ - beg) [].

(** [open] again while it is interrupted. *)
Fixpoint open_loop (fuel : nat) (file : str) : M (option Z) :=
  match fuel with
  | O => lift NoFuel
  | S fuel' =>
      fd ← perform (Openat AT_FDCWD file [O_RDONLY; O_CLOEXEC] 0);
      match fd with
      | Some fd => mret (Some fd)
      | None => again ← interrupted; if (again : bool) then open_loop fuel' file else mret None
      end
  end.

(** The destructor of [FileDescriptor] runs when [m] is left. *)
Definition with_fd {A} (fd : Z) (m : M A) : M A := fun s =>
  match m s with
  | (s1, UB) => (s1, UB)
  | (s1, NoFuel) => (s1, NoFuel)
  | (s1, r) => let (s2, _) := perform (Close fd) s1 in (s2, r)
  end.

Definition open_error (file : str) : str := lit "Failed to open file `" ++ file ++ lit "`".

Definition get_file_contents_path (fuel : nat) (file : str) : M str :=
  fd ← open_loop fuel file;
  match fd with
  | None => throw_error (open_error file)
  | Some fd => with_fd fd (get_file_contents fuel fd ALL_BYTES)
  end.

Definition get_file_contents_path_range (fuel : nat) (file : str) (beg end_ : Z) : M str :=
  fd ← open_loop fuel file;
  match fd with
  | None => throw_error (open_error file)
  | Some fd => with_fd fd (get_file_contents_range fuel fd beg end_)
  end.

(** [data] is what the pointer and the length given denote (up to the first NUL
    when the length is [size_t(-1)]). *)
Definition put_file_contents (fuel : nat) (file data : str) (mode : Z) : M unit :=
  fd ← perform (Openat AT_FDCWD file [O_WRONLY; O_CREAT; O_TRUNC; O_CLOEXEC] mode);
  match fd with
  | None => throw_error (lit "open() failed")
  | Some fd =>
      with_fd fd
        (n ← write_all fuel fd data;
         if n =? len data then mret tt else throw_error (lit "write() failed"))
  end.

(** ** blast *)

(** The inner loop: [false] when writing has failed. *)
Fixpoint blast_write (fuel : nat) (outfd : Z) (buff : str) (pos : Z) : M bool :=
  match fuel with
  | O => lift NoFuel
  | S fuel' =>
      if pos <? len buff then
        written ← perform (Write outfd (drop (Z.to_nat pos) buff));
        let written := match written with Some k => k | None => -1 end in
        if 0 <? written then blast_write fuel' outfd buff (pos + written)
        else
          again ← interrupted;
          if (again : bool) then blast_write fuel' outfd buff pos else mret false
      else mret true
  end.

Fixpoint blast (fuel : nat) (infd outfd : Z) : M Z :=
  match fuel with
  | O => lift NoFuel
  | S fuel' =>
      k ← perform (Read infd BUFF_SIZE);
      match k with
      | Some [] => mret 0
      | Some buff =>
          ok ← blast_write fuel outfd buff 0;
          if (ok : bool) then blast fuel' infd outfd else mret (-1)
      | None =>
          again ← interrupted;
          if (again : bool) then blast fuel' infd outfd else mret (-1)
      end
  end.

(** ** FdPreadBuff *)

Record FdPreadBuff := mkPreadBuff {
  pb_fd : Z;
  pb_buff : str;
  pb_pos : Z;
  pb_len : Z;
  buff_end_offset : Z
}.

Definition new_pread_buff (fd beg_offset : Z) : FdPreadBuff := mkPreadBuff fd [] 0 0 beg_offset.

(** [get_char]: [None] for an error, [Some None] for [EOF]. *)
Definition get_char (b : FdPreadBuff) : M (FdPreadBuff * option (option ascii)) :=
  if negb (pb_pos b =? pb_len b) then
    c ← lift (get_or_ub (pb_buff b !! Z.to_nat (pb_pos b)));
    mret (mkPreadBuff (pb_fd b) (pb_buff b) (pb_pos b + 1) (pb_len b) (buff_end_offset b), Some (Some c))
  else
    res ← perform (Pread (pb_fd b) 4096 (buff_end_offset b));
    match res with
    | None => mret (b, None)
    | Some [] => mret (b, Some None)
    | Some (c :: data) =>
        let n := len (c :: data) in
        mret (mkPreadBuff (pb_fd b) (c :: data) 1 n (buff_end_offset b + n), Some (Some c))
    end.

Definition curr_offset (b : FdPreadBuff) : Z := buff_end_offset b - (pb_len b - pb_pos b).

End FileIo.
