(* ===== verification/FileIoProofs.v ===== *)
(** * Reading and writing whole files

    What the loops of [FileIo.v] do on a kernel that may read and write any part
    of what it is asked for, be interrupted and fail. *)

From Stdlib Require Import ZArith Lia Ascii.
From S2P Require Import Prelude.
From S2P Require Import StringView.
From S2P Require Import FileIo.
Local Open Scope Z_scope.

(** [write(2)] at an offset: the characters are replaced, a gap is filled. *)
Definition overwrite (c : str) (offset : nat) (data : str) : str :=
  take offset c ++ replicate (offset - length c) NUL ++ data ++ drop (offset + length data) c.

(** Open files: the file a descriptor refers to, its offset, and the contents of
    the files.  [patience]: how often the kernel will still interrupt a call or
    write nothing. *)
Record view := mkView {
  handles : gmap Z (nat * nat);
  files : gmap nat str
}.

(** [read(2)], [pread(2)], [write(2)] and [lseek(2)] on regular files that
    nobody else uses. *)
Class FileKernel {W : Type} (kernel : forall A, fsys A -> W -> W * A) := {
  view_of : W -> view;
  patience : W -> nat;
  kernel_read : forall fd n w f offset c, 0 < n ->
    handles (view_of w) !! fd = Some (f, offset) -> files (view_of w) !! f = Some c ->
    match kernel _ (Read fd n) w with
    | (w', inr data) =>
        data `prefix_of` drop offset c /\ len data <= n /\ (data = [] -> (length c <= offset)%nat) /\
        view_of w' = mkView (<[fd := (f, (offset + length data)%nat)]> (handles (view_of w))) (files (view_of w)) /\
        (patience w' <= patience w)%nat
    | (w', inl e) =>
        view_of w' = view_of w /\ (patience w' <= patience w)%nat /\ (e = EINTR -> (patience w' < patience w)%nat)
    end;
  kernel_pread : forall fd n pos w f offset c, 0 < n -> 0 <= pos ->
    handles (view_of w) !! fd = Some (f, offset) -> files (view_of w) !! f = Some c ->
    match kernel _ (Pread fd n pos) w with
    | (w', inr data) =>
        data `prefix_of` drop (Z.to_nat pos) c /\ len data <= n /\ (data = [] -> len c <= pos) /\
        view_of w' = view_of w /\ (patience w' <= patience w)%nat
    | (w', inl e) =>
        view_of w' = view_of w /\ (patience w' <= patience w)%nat /\ (e = EINTR -> (patience w' < patience w)%nat)
    end;
  kernel_write : forall fd data w f offset c, data <> [] ->
    handles (view_of w) !! fd = Some (f, offset) -> files (view_of w) !! f = Some c ->
    match kernel _ (Write fd data) w with
    | (w', inr k) =>
        0 <= k <= len data /\
        view_of w' = mkView (<[fd := (f, (offset + Z.to_nat k)%nat)]> (handles (view_of w)))
          (<[f := overwrite c offset (take (Z.to_nat k) data)]> (files (view_of w))) /\
        (patience w' <= patience w)%nat /\ (k = 0 -> (patience w' < patience w)%nat)
    | (w', inl e) =>
        view_of w' = view_of w /\ (patience w' <= patience w)%nat /\ (e = EINTR -> (patience w' < patience w)%nat)
    end;
  kernel_lseek : forall fd n from w f offset c,
    handles (view_of w) !! fd = Some (f, offset) -> files (view_of w) !! f = Some c ->
    match kernel _ (Lseek fd n from) w with
    | (w', inr pos) =>
        0 <= pos /\ pos = n + match from with SEEK_SET => 0 | SEEK_CUR => Z.of_nat offset | SEEK_END => len c end /\
        view_of w' = mkView (<[fd := (f, Z.to_nat pos)]> (handles (view_of w))) (files (view_of w)) /\
        (patience w' <= patience w)%nat
    | (w', inl e) => view_of w' = view_of w /\ (patience w' <= patience w)%nat
    end
}.

(** ** Overwriting in pieces *)

Lemma overwrite_nil c offset : (offset <= length c)%nat -> overwrite c offset [] = c.
Proof.
  intros H. unfold overwrite. replace (offset - length c)%nat with 0%nat by lia. cbn. rewrite Nat.add_0_r. apply take_drop.
Qed.

Lemma length_overwrite c offset d : length (overwrite c offset d) = Nat.max (length c) (offset + length d).
Proof. unfold overwrite. rewrite !length_app, length_take, length_replicate, length_drop. lia. Qed.

(** Two writes one after the other are one. *)
Lemma overwrite_app c offset d1 d2 :
  overwrite (overwrite c offset d1) (offset + length d1) d2 = overwrite c offset (d1 ++ d2).
Proof.
  set (p := take offset c ++ replicate (offset - length c) NUL).
  assert (length p = offset) as Hp by (unfold p; rewrite length_app, length_take, length_replicate; lia).
  unfold overwrite at 1. rewrite length_overwrite.
  replace (offset + length d1 - _)%nat with 0%nat by lia. cbn [replicate app].
  assert (overwrite c offset d1 = p ++ d1 ++ drop (offset + length d1) c) as -> by (unfold overwrite, p; by rewrite <- app_assoc).
  rewrite (app_assoc p d1), take_app_le, firstn_all2 by (rewrite length_app; lia).
  rewrite drop_app_ge by (rewrite length_app; lia). rewrite drop_drop. unfold overwrite, p.
  rewrite <- !app_assoc. do 5 f_equal. rewrite !length_app, length_take, length_replicate. lia.
Qed.

Section Loops.
Context {W : Type} (kernel : forall A, fsys A -> W -> W * A) `{!FileKernel kernel}.
Abbreviation M := (stm (io W)).

Definition opened (s : io W) (fd : Z) (f offset : nat) (c : str) : Prop :=
  handles (view_of (world s)) !! fd = Some (f, offset) /\ files (view_of (world s)) !! f = Some c.

(** The offset of [fd] has moved. *)
Definition advanced (s : io W) (fd : Z) (f offset : nat) (s' : io W) : Prop :=
  view_of (world s') = mkView (<[fd := (f, offset)]> (handles (view_of (world s)))) (files (view_of (world s))).

Lemma opened_advanced s fd f offset c s' offset' : opened s fd f offset c -> advanced s fd f offset' s' ->
  opened s' fd f offset' c.
Proof. intros [_ Hf] Ha. unfold opened. rewrite Ha. cbn. by rewrite lookup_insert_eq. Qed.

Lemma advanced_here s fd f offset c s' : opened s fd f offset c -> view_of (world s') = view_of (world s) ->
  advanced s fd f offset s'.
Proof. intros [Hh _] Hv. unfold advanced. rewrite Hv, insert_id by done. by destruct (view_of (world s)). Qed.

Lemma advanced_trans s fd f o1 o2 s1 s2 : advanced s fd f o1 s1 -> advanced s1 fd f o2 s2 -> advanced s fd f o2 s2.
Proof. unfold advanced. intros H1 H2. rewrite H2, H1. cbn. by rewrite insert_insert_eq. Qed.

(** ** Reading *)

(** One [read]: what the loops do with its answer. *)
Lemma perform_read s fd n f offset c : 0 < n -> opened s fd f offset c ->
  match perform kernel (Read fd n) s with
  | (s', Ok (Some data)) =>
      data = take (length data) (drop offset c) /\ len data <= n /\ (data = [] -> (length c <= offset)%nat) /\
      advanced s fd f (offset + length data) s' /\ (patience (world s') <= patience (world s))%nat
  | (s', Ok None) =>
      view_of (world s') = view_of (world s) /\ (patience (world s') <= patience (world s))%nat /\
      (errno s' = EINTR -> (patience (world s') < patience (world s))%nat)
  | _ => False
  end.
Proof.
  intros Hn [Hh Hf]. pose proof (kernel_read fd n (world s) f offset c Hn Hh Hf) as H. unfold perform.
  destruct (kernel _ (Read fd n) (world s)) as [w [e|data]]; [done|]. cbn.
  destruct H as ((rest & Hrest) & Hlen & Hnil & Hv & Hp). split_and!; try done.
  by rewrite Hrest, take_app_length.
Qed.

Lemma contents_loop_spec fd f c : forall fuel bytes res s offset, 0 <= bytes -> opened s fd f offset c ->
  (patience (world s) + (length c - offset) < fuel)%nat ->
  match contents_loop kernel fuel fd bytes res s with
  | (s', Ok r) =>
      let data := take (Z.to_nat bytes) (drop offset c) in
      r = res ++ data /\ advanced s fd f (offset + length data) s'
  | (s', Throw e) => e = RuntimeError (lit "read() failed") /\ exists k, advanced s fd f k s'
  | _ => False
  end.
Proof.
  induction fuel as [|fuel IH]; intros bytes res s offset Hb Ho Hfuel; [lia|]. cbn [contents_loop].
  destruct (Z.ltb_spec 0 bytes) as [Hpos|Hz].
  2: { replace (Z.to_nat bytes) with 0%nat by lia. cbn. rewrite app_nil_r, Nat.add_0_r. split; [done|]. by eapply advanced_here. }
  unfold mbind, stm_bind. pose proof (perform_read s fd (Z.min BUFF_SIZE bytes) f offset c ltac:(unfold BUFF_SIZE; lia) Ho) as Hr.
  destruct (perform kernel _ s) as [s1 [[data|]|e| |]]; try done.
  - destruct Hr as (Hd & Hlen & Hnil & Ha & Hp). destruct data as [|x data].
    + specialize (Hnil eq_refl). cbn. rewrite drop_ge by lia. rewrite take_nil, app_nil_r. cbn in *. split; [done|]. done.
    + set (d := x :: data) in *. pose proof (opened_advanced _ _ _ _ _ _ _ Ho Ha) as Ho1.
      assert (length d <> 0)%nat as Hd0 by done. unfold len in Hlen.
      assert (length d <= length c - offset)%nat as Hrem by (rewrite Hd, length_take, length_drop; lia).
      specialize (IH (bytes - len d) (res ++ d) s1 (offset + length d)%nat ltac:(unfold len; lia) Ho1 ltac:(lia)).
      destruct (contents_loop kernel fuel fd (bytes - len d) (res ++ d) s1) as [s2 [r|e| |]]; try done.
      * destruct IH as [-> Ha2]. cbn. rewrite <- drop_drop in *.
        assert (take (Z.to_nat bytes) (drop offset c) = d ++ take (Z.to_nat (bytes - len d)) (drop (length d) (drop offset c))) as ->.
        { rewrite Hd at 1. rewrite <- (take_drop (length d) (drop offset c)) at 1. rewrite take_app_ge by (rewrite <- Hd; unfold len; lia).
          rewrite <- Hd. do 3 f_equal. unfold len. lia. }
        split; [by rewrite app_assoc|]. rewrite length_app, Nat.add_assoc. by eapply advanced_trans.
      * destruct IH as [-> [k Hk]]. split; [done|]. exists k. by eapply advanced_trans.
  - destruct Hr as (Hv & Hp & Hint). unfold interrupted, gets. cbn.
    assert (advanced s fd f offset s1) as Ha by (by eapply advanced_here).
    destruct (Z.eqb_spec (errno s1) EINTR) as [He|He]; [|split; [done|by exists offset]].
    specialize (IH bytes res s1 offset Hb (opened_advanced _ _ _ _ _ _ _ Ho Ha) ltac:(specialize (Hint He); lia)).
    destruct (contents_loop kernel fuel fd bytes res s1) as [s2 [r|e| |]]; try done.
    + destruct IH as [-> Ha2]. split; [done|]. by eapply advanced_trans.
    + destruct IH as [-> [k Hk]]. split; [done|]. exists k. by eapply advanced_trans.
Qed.

(** ** Writing *)

(** [fd] has written [data] at its offset. *)
Definition wrote (s : io W) (fd : Z) (f offset : nat) (c data : str) (s' : io W) : Prop :=
  view_of (world s') = mkView (<[fd := (f, (offset + length data)%nat)]> (handles (view_of (world s))))
    (<[f := overwrite c offset data]> (files (view_of (world s)))).

Lemma opened_wrote s fd f offset c data s' : wrote s fd f offset c data s' ->
  opened s' fd f (offset + length data) (overwrite c offset data).
Proof. intros Hw. unfold opened. rewrite Hw. cbn. by rewrite !lookup_insert_eq. Qed.

Lemma wrote_nothing s fd f offset c s' : opened s fd f offset c -> (offset <= length c)%nat ->
  view_of (world s') = view_of (world s) -> wrote s fd f offset c [] s'.
Proof.
  intros [Hh Hf] Hoff Hv. unfold wrote. cbn. rewrite Hv, Nat.add_0_r, overwrite_nil, !insert_id by done.
  by destruct (view_of (world s)).
Qed.

Lemma wrote_trans s fd f offset c d1 d2 s1 s2 : wrote s fd f offset c d1 s1 ->
  wrote s1 fd f (offset + length d1) (overwrite c offset d1) d2 s2 -> wrote s fd f offset c (d1 ++ d2) s2.
Proof.
  unfold wrote. intros H1 H2. rewrite H2, H1. cbn. rewrite !insert_insert_eq, overwrite_app, length_app, Nat.add_assoc. done.
Qed.

Lemma perform_write s fd data f offset c : data <> [] -> opened s fd f offset c ->
  match perform kernel (Write fd data) s with
  | (s', Ok (Some k)) =>
      0 <= k <= len data /\ wrote s fd f offset c (take (Z.to_nat k) data) s' /\
      (patience (world s') <= patience (world s))%nat /\ (k = 0 -> (patience (world s') < patience (world s))%nat)
  | (s', Ok None) =>
      view_of (world s') = view_of (world s) /\ (patience (world s') <= patience (world s))%nat /\
      (errno s' = EINTR -> (patience (world s') < patience (world s))%nat)
  | _ => False
  end.
Proof.
  intros Hd [Hh Hf]. pose proof (kernel_write fd data (world s) f offset c Hd Hh Hf) as H. unfold perform.
  destruct (kernel _ (Write fd data) (world s)) as [w [e|k]]; [done|]. cbn. destruct H as (Hk & Hv & Hp & H0).
  split; [done|]. split; [|done]. unfold len in Hk.
  assert (length (take (Z.to_nat k) data) = Z.to_nat k) as Hl by (rewrite length_take; lia).
  unfold wrote. rewrite <- Hl in Hv at 1. exact Hv.
Qed.

(** Some part of [data] from [pos] has been written, all of it if [all]. *)
Definition wrote_some (s : io W) (fd : Z) (f offset : nat) (c data : str) (all : Prop) (s' : io W) : Prop :=
  exists k, (k <= length data)%nat /\ (all -> k = length data) /\ wrote s fd f offset c (take k data) s' /\
    (patience (world s') <= patience (world s))%nat.

Lemma write_loop_spec fd f data : forall fuel pos s offset c, 0 <= pos <= len data -> opened s fd f offset c ->
  (offset <= length c)%nat -> (patience (world s) + (length data - Z.to_nat pos) < fuel)%nat ->
  match write_loop kernel fuel fd data pos s with
  | (s', Ok n) => pos <= n <= len data /\ (n = len data -> errno s' = 0) /\
      wrote s fd f offset c (take (Z.to_nat (n - pos)) (drop (Z.to_nat pos) data)) s' /\
      (patience (world s') <= patience (world s))%nat
  | _ => False
  end.
Proof.
  induction fuel as [|fuel IH]; intros pos s offset c Hpos Ho Hoff Hfuel; [lia|]. cbn [write_loop]. unfold len in *.
  destruct (Z.ltb_spec pos (Z.of_nat (length data))) as [Hlt|Hge].
  2: { cbn. unfold len. split; [lia|]. split; [done|]. rewrite drop_ge, take_nil by lia.
       split; [by apply wrote_nothing|done]. }
  assert (drop (Z.to_nat pos) data <> []) as Hne by (intros E; apply (f_equal length) in E; rewrite length_drop in E; cbn in E; lia).
  unfold mbind, stm_bind. pose proof (perform_write s fd _ f offset c Hne Ho) as Hw.
  destruct (perform kernel _ s) as [s1 [[k|]|e| |]]; try done.
  - destruct Hw as (Hk & Hw & Hp & H0). unfold len in Hk. rewrite length_drop in Hk.
    set (d := take (Z.to_nat k) (drop (Z.to_nat pos) data)) in *.
    assert (length d = Z.to_nat k) as Hd by (unfold d; rewrite length_take, length_drop; lia).
    specialize (IH (pos + k) s1 _ _ ltac:(lia) (opened_wrote _ _ _ _ _ _ _ Hw) ltac:(rewrite length_overwrite; lia)
      ltac:(destruct (Z.eq_dec k 0) as [E|E]; [specialize (H0 E)|]; lia)).
    destruct (write_loop kernel fuel fd data (pos + k) s1) as [s2 [n|e| |]]; try done.
    destruct IH as (Hn & Herr & Hw2 & Hp2). split; [lia|]. split; [done|]. split; [|lia].
    replace (take (Z.to_nat (n - pos)) (drop (Z.to_nat pos) data)) with
      (d ++ take (Z.to_nat (n - (pos + k))) (drop (Z.to_nat (pos + k)) data)); [by eapply wrote_trans|].
    unfold d. replace (Z.to_nat (pos + k)) with (Z.to_nat pos + Z.to_nat k)%nat by lia.
    rewrite <- drop_drop, take_take_drop. f_equal. lia.
  - destruct Hw as (Hv & Hp & Hint). unfold interrupted, gets. cbn.
    destruct (Z.eqb_spec (errno s1) EINTR) as [He|He].
    + assert (opened s1 fd f offset c) as Ho1 by (unfold opened in *; by rewrite Hv).
      specialize (IH pos s1 offset c ltac:(lia) Ho1 Hoff ltac:(specialize (Hint He); lia)).
      destruct (write_loop kernel fuel fd data pos s1) as [s2 [n|e| |]]; try done.
      destruct IH as (Hn & Herr & Hw2 & Hp2). split_and!; try done; try lia. unfold wrote in *. by rewrite Hw2, Hv.
    + split; [lia|]. split; [lia|]. rewrite Z.sub_diag, take_0. split; [by apply wrote_nothing|done].
Qed.

Lemma blast_write_spec outfd f buff : forall fuel pos s offset c, 0 <= pos <= len buff -> opened s outfd f offset c ->
  (offset <= length c)%nat -> (patience (world s) + (length buff - Z.to_nat pos) < fuel)%nat ->
  match blast_write kernel fuel outfd buff pos s with
  | (s', Ok ok) => exists k, (k <= length buff - Z.to_nat pos)%nat /\ (ok = true -> k = length buff - Z.to_nat pos)%nat /\
      wrote s outfd f offset c (take k (drop (Z.to_nat pos) buff)) s' /\ (patience (world s') <= patience (world s))%nat
  | _ => False
  end.
Proof.
  induction fuel as [|fuel IH]; intros pos s offset c Hpos Ho Hoff Hfuel; [lia|]. cbn [blast_write]. unfold len in *.
  destruct (Z.ltb_spec pos (Z.of_nat (length buff))) as [Hlt|Hge].
  2: { exists 0%nat. split_and!; [lia|lia| |done]. rewrite take_0. by apply wrote_nothing. }
  assert (drop (Z.to_nat pos) buff <> []) as Hne by (intros E; apply (f_equal length) in E; rewrite length_drop in E; cbn in E; lia).
  unfold mbind, stm_bind. pose proof (perform_write s outfd _ f offset c Hne Ho) as Hw.
  (* nothing was written: again, or the end *)
  assert (forall s1, opened s1 outfd f offset c -> view_of (world s1) = view_of (world s) ->
    (patience (world s1) <= patience (world s))%nat -> (errno s1 = EINTR -> (patience (world s1) < patience (world s))%nat) ->
    match (if errno s1 =? EINTR then blast_write kernel fuel outfd buff pos else mret false) s1 with
    | (s', Ok ok) => exists k, (k <= length buff - Z.to_nat pos)%nat /\ (ok = true -> k = length buff - Z.to_nat pos)%nat /\
        wrote s outfd f offset c (take k (drop (Z.to_nat pos) buff)) s' /\ (patience (world s') <= patience (world s))%nat
    | _ => False
    end) as Hnone.
  { intros s1 Ho1 Hv Hp Hint. destruct (Z.eqb_spec (errno s1) EINTR) as [He|He].
    - specialize (IH pos s1 offset c ltac:(lia) Ho1 Hoff ltac:(specialize (Hint He); lia)).
      destruct (blast_write kernel fuel outfd buff pos s1) as [s2 [ok|e| |]]; try done.
      destruct IH as (k & Hk & Hok & Hw2 & Hp2). exists k. split_and!; try done; [|lia]. unfold wrote in *. by rewrite Hw2, Hv.
    - exists 0%nat. split_and!; [lia|done| |lia]. rewrite take_0. by apply wrote_nothing. }
  destruct (perform kernel _ s) as [s1 [[k|]|e| |]]; try done.
  - destruct Hw as (Hk & Hw & Hp & H0). unfold len in Hk. rewrite length_drop in Hk. cbv zeta.
    destruct (Z.ltb_spec 0 k) as [Hk0|Hk0].
    + set (d := take (Z.to_nat k) (drop (Z.to_nat pos) buff)) in *.
      assert (length d = Z.to_nat k) as Hd by (unfold d; rewrite length_take, length_drop; lia).
      specialize (IH (pos + k) s1 _ _ ltac:(lia) (opened_wrote _ _ _ _ _ _ _ Hw) ltac:(rewrite length_overwrite; lia) ltac:(lia)).
      destruct (blast_write kernel fuel outfd buff (pos + k) s1) as [s2 [ok|e| |]]; try done.
      destruct IH as (m & Hm & Hok & Hw2 & Hp2). exists (Z.to_nat k + m)%nat. split_and!; [lia| | |lia].
      { intros E. specialize (Hok E). lia. }
      replace (take (Z.to_nat k + m) (drop (Z.to_nat pos) buff)) with
        (d ++ take m (drop (Z.to_nat (pos + k)) buff)); [by eapply wrote_trans|].
      unfold d. replace (Z.to_nat (pos + k)) with (Z.to_nat pos + Z.to_nat k)%nat by lia.
      rewrite <- drop_drop, take_take_drop. done.
    + assert (k = 0) as -> by lia. unfold interrupted, gets. cbn [Z.to_nat take] in Hw. apply Hnone; try done.
      * apply opened_wrote in Hw. cbn in Hw. by rewrite Nat.add_0_r, overwrite_nil in Hw.
      * unfold wrote in Hw. cbn in Hw. rewrite Nat.add_0_r, overwrite_nil in Hw by done. destruct Ho as [Hh Hf].
        rewrite !insert_id in Hw by done. rewrite Hw. by destruct (view_of (world s)).
      * intros _. by apply H0.
  - destruct Hw as (Hv & Hp & Hint). unfold interrupted, gets. apply Hnone; try done. unfold opened in *. by rewrite Hv.
Qed.

(** ** Copying *)

(** [data] has been written to [outfd] and the offset of [infd] is [pos]. *)
Definition copied (s : io W) (infd : Z) (fi pos : nat) (outfd : Z) (fo offset : nat) (c data : str) (s' : io W) : Prop :=
  view_of (world s') =
    mkView (<[infd := (fi, pos)]> (<[outfd := (fo, (offset + length data)%nat)]> (handles (view_of (world s)))))
      (<[fo := overwrite c offset data]> (files (view_of (world s)))).

Section Copying.
Context (infd outfd : Z) (fi fo : nat) (Hfds : infd <> outfd) (Hfiles : fi <> fo).

Lemma copied_nothing s i ci offset c pos s' : opened s infd fi i ci -> opened s outfd fo offset c ->
  (offset <= length c)%nat -> advanced s infd fi pos s' -> copied s infd fi pos outfd fo offset c [] s'.
Proof.
  intros Hi [Hh Hf] Hoff Ha. unfold copied. rewrite Ha. cbn.
  by rewrite Nat.add_0_r, overwrite_nil, (insert_id _ outfd), (insert_id _ fo).
Qed.

Lemma copied_piece s offset c pos d s1 s2 : advanced s infd fi pos s1 -> wrote s1 outfd fo offset c d s2 ->
  copied s infd fi pos outfd fo offset c d s2.
Proof. unfold advanced, wrote, copied. intros H1 H2. rewrite H2, H1. cbn. by rewrite insert_insert_ne. Qed.

Lemma copied_trans s offset c p1 p2 d1 d2 s1 s2 : copied s infd fi p1 outfd fo offset c d1 s1 ->
  copied s1 infd fi p2 outfd fo (offset + length d1) (overwrite c offset d1) d2 s2 ->
  copied s infd fi p2 outfd fo offset c (d1 ++ d2) s2.
Proof.
  unfold copied. intros H1 H2. rewrite H2, H1. cbn. f_equal.
  - rewrite (insert_insert_ne _ outfd infd) by done. by rewrite !insert_insert_eq, length_app, Nat.add_assoc.
  - by rewrite insert_insert_eq, overwrite_app.
Qed.

Lemma copied_opened s i ci offset c pos d s' : opened s infd fi i ci -> copied s infd fi pos outfd fo offset c d s' ->
  opened s' infd fi pos ci /\ opened s' outfd fo (offset + length d) (overwrite c offset d).
Proof.
  intros [_ Hf] Hc. unfold opened. rewrite Hc. cbn. rewrite lookup_insert_eq, !(lookup_insert_ne _ infd), !lookup_insert_eq by done.
  by rewrite lookup_insert_ne.
Qed.

(** What [blast] has done: everything that was left of the input is written, or
    it reports an error and a part of it is. *)
Definition blasted (s : io W) (i : nat) (ci : str) (offset : nat) (c : str) (rc : Z) (s' : io W) : Prop :=
  exists pos k,
    (i <= pos)%nat /\ (k <= pos - i)%nat /\
    copied s infd fi pos outfd fo offset c (take k (drop i ci)) s' /\
    (rc = 0 /\ (length ci - i <= k)%nat \/ rc = -1).

Lemma blast_spec ci : forall fuel s i offset c, opened s infd fi i ci -> opened s outfd fo offset c ->
  (offset <= length c)%nat -> (patience (world s) + (length ci - i) < fuel)%nat ->
  match blast kernel fuel infd outfd s with
  | (s', Ok rc) => blasted s i ci offset c rc s'
  | _ => False
  end.
Proof.
  induction fuel as [|fuel IH]; intros s i offset c Hi Ho Hoff Hfuel; [lia|]. cbn [blast].
  unfold mbind at 1, stm_bind at 1. pose proof (perform_read s infd BUFF_SIZE fi i ci ltac:(done) Hi) as Hr.
  destruct (perform kernel _ s) as [s1 [[data|]|e| |]]; try done.
  - destruct Hr as (Hd & _ & Hnil & Ha & Hp). destruct data as [|x data].
    + specialize (Hnil eq_refl). cbn. exists (i + 0)%nat, 0%nat. split_and!; [lia|lia| |left; lia].
      cbn. by eapply copied_nothing.
    + set (d := x :: data) in *. assert (length d <> 0)%nat as Hd0 by done.
      assert (length d <= length ci - i)%nat as Hrem by (rewrite Hd, length_take, length_drop; lia).
      assert (opened s1 outfd fo offset c) as Ho1.
      { unfold opened in *. rewrite Ha. cbn. by rewrite lookup_insert_ne. }
      unfold mbind, stm_bind. pose proof (blast_write_spec outfd fo d (S fuel) 0 s1 offset c ltac:(unfold len; lia) Ho1 Hoff ltac:(lia)) as Hw.
      destruct (blast_write kernel (S fuel) outfd d 0 s1) as [s2 [ok|e| |]]; try done.
      destruct Hw as (k & Hk & Hok & Hw & Hp2). cbn [Z.to_nat drop] in Hk, Hok, Hw. rewrite Nat.sub_0_r in Hk, Hok.
      pose proof (copied_piece _ _ _ _ _ _ _ Ha Hw) as Hc. destruct ok.
      * rewrite (Hok eq_refl), take_ge in Hc by done. destruct (copied_opened _ _ _ _ _ _ _ _ Hi Hc) as [Hi2 Ho2].
        specialize (IH s2 _ _ _ Hi2 Ho2 ltac:(rewrite length_overwrite; lia) ltac:(lia)).
        destruct (blast kernel fuel infd outfd s2) as [s3 [rc|e| |]]; try done.
        destruct IH as (pos & m & Hpos & Hm & Hc2 & Hrc). exists pos, (length d + m)%nat. split_and!; [lia|lia| |lia].
        replace (take (length d + m) (drop i ci)) with (d ++ take m (drop (i + length d) ci)); [by eapply copied_trans|].
        rewrite <- drop_drop, <- take_take_drop. by rewrite <- Hd.
      * exists (i + length d)%nat, k. split_and!; [lia|lia| |by right].
        replace (take k (drop i ci)) with (take k d); [done|]. rewrite Hd, take_take. f_equal. lia.
  - destruct Hr as (Hv & Hp & Hint). unfold interrupted, gets, mbind, stm_bind. cbv beta iota.
    assert (advanced s infd fi i s1) as Ha by (by eapply advanced_here).
    destruct (Z.eqb_spec (errno s1) EINTR) as [He|He].
    + specialize (IH s1 i offset c ltac:(unfold opened in *; by rewrite Hv) ltac:(unfold opened in *; by rewrite Hv) Hoff
        ltac:(specialize (Hint He); lia)).
      destruct (blast kernel fuel infd outfd s1) as [s2 [rc|e| |]]; try done.
      destruct IH as (pos & k & Hpos & Hk & Hc & Hrc). exists pos, k. split_and!; try done. unfold copied in *. by rewrite Hc, Hv.
    + exists i, 0%nat. split_and!; [lia|lia| |by right]. cbn. by eapply copied_nothing.
Qed.
End Copying.

(** ** A part of a file *)

(** [c[beg:end]] with the conventions of [get_file_contents]: a negative [beg]
    counts from the end, a negative [end] is the end. *)
Definition file_slice (c : str) (beg end_ : Z) : str :=
  let b := if beg <? 0 then Z.max (len c + beg) 0 else beg in
  let e := if end_ <? 0 then len c else Z.min end_ (len c) in
  take (Z.to_nat (e - b)) (drop (Z.to_nat b) c).

Lemma perform_lseek s fd n from f offset c : opened s fd f offset c ->
  match perform kernel (Lseek fd n from) s with
  | (s', Ok (Some pos)) =>
      0 <= pos /\ pos = n + match from with SEEK_SET => 0 | SEEK_CUR => Z.of_nat offset | SEEK_END => len c end /\
      advanced s fd f (Z.to_nat pos) s' /\ (patience (world s') <= patience (world s))%nat
  | (s', Ok None) => advanced s fd f offset s' /\ (patience (world s') <= patience (world s))%nat
  | _ => False
  end.
Proof.
  intros Ho. pose proof Ho as [Hh Hf]. pose proof (kernel_lseek fd n from (world s) f offset c Hh Hf) as H. unfold perform.
  destruct (kernel _ (Lseek fd n from) (world s)) as [w [e|pos]]; [|done]. destruct H as [Hv Hp]. split; [|done].
  by eapply advanced_here.
Qed.

Lemma get_file_contents_range_spec fuel fd f c beg end_ s offset : opened s fd f offset c ->
  (patience (world s) + length c < fuel)%nat ->
  match get_file_contents_range kernel fuel fd beg end_ s with
  | (s', Ok r) => r = file_slice c beg end_ /\ exists k, advanced s fd f k s'
  | (s', Throw e) =>
      (e = RuntimeError (lit "lseek64() failed") \/ e = RuntimeError (lit "read() failed")) /\ exists k, advanced s fd f k s'
  | _ => False
  end.
Proof.
  intros Ho Hfuel. unfold get_file_contents_range, file_slice. unfold mbind at 1, stm_bind at 1.
  pose proof (perform_lseek s fd 0 SEEK_END f offset c Ho) as H1.
  destruct (perform kernel _ s) as [s1 [[size|]|e| |]]; try done.
  2: { cbn. destruct H1 as [Ha _]. split; [by left|by eexists]. }
  destruct H1 as (Hs0 & -> & Ha & Hp). rewrite Z.add_0_l in *. cbv zeta.
  destruct (Z.eqb_spec (len c) (-1)); [lia|].
  set (b := if beg <? 0 then Z.max (len c + beg) 0 else beg).
  set (e := if end_ <? 0 then len c else Z.min end_ (len c)).
  assert (0 <= b) as Hb by (unfold b; destruct (Z.ltb_spec beg 0); lia).
  cbn [when]. unfold mbind at 1, stm_bind at 1, mret at 1, stm_ret. cbv iota beta.
  destruct (Z.ltb_spec (len c) b) as [Hlt|Hle].
  { cbn. split; [|by eexists]. rewrite drop_ge by (unfold len in Hlt; lia). by rewrite take_nil. }
  pose proof (opened_advanced _ _ _ _ _ _ _ Ho Ha) as Ho1. unfold mbind at 1, stm_bind at 1.
  pose proof (perform_lseek s1 fd b SEEK_SET f _ c Ho1) as H2.
  destruct (perform kernel _ s1) as [s2 [[pos|]|e'| |]]; try done.
  2: { cbn. destruct H2 as [Ha2 _]. split; [by left|]. eexists. by eapply advanced_trans. }
  destruct H2 as (_ & -> & Ha2 & Hp2). rewrite Z.add_0_r in *. rewrite bool_decide_true by done. cbn [negb when].
  unfold mbind, stm_bind, mret, stm_ret. pose proof (opened_advanced _ _ _ _ _ _ _ Ho1 Ha2) as Ho2.
  pose proof (advanced_trans _ _ _ _ _ _ _ Ha Ha2) as Ha3.
  match goal with |- context [contents_loop kernel fuel fd ?n [] s2] => assert (Z.to_nat n = Z.to_nat (e - b) /\ 0 <= n) as [Hn Hn0] end.
  { unfold e. clearbody b. clear -Hle Hb Hs0.
    destruct (Z.ltb_spec (len c) end_), (Z.ltb_spec end_ 0); cbn;
      match goal with |- context [?x <? b] => destruct (Z.ltb_spec x b) end; lia. }
  match goal with |- context [contents_loop kernel fuel fd ?n [] s2] =>
    pose proof (contents_loop_spec fd f c fuel n [] s2 (Z.to_nat b) Hn0 Ho2 ltac:(lia)) as H3;
    destruct (contents_loop kernel fuel fd n [] s2) as [s3 [r|e'| |]] end; try done.
  - destruct H3 as [-> Ha4]. rewrite Hn in *. split; [done|]. eexists. by eapply advanced_trans.
  - destruct H3 as [-> [k Ha4]]. split; [by right|]. eexists. by eapply advanced_trans.
Qed.
End Loops.

(** ** Files with names *)

(** [open(2)] of the two kinds the library uses and [close(2)].  A path either
    leads to a file or does not; creating a file may make other paths lead to
    it too. *)
Class NamedFiles {W : Type} (kernel : forall A, fsys A -> W -> W * A) `{!FileKernel kernel} := {
  named : W -> str -> option nat;
  kernel_open_read : forall path w,
    match kernel _ (Openat AT_FDCWD path [O_RDONLY; O_CLOEXEC] 0) w with
    | (w', inr fd) => exists f c, named w path = Some f /\ files (view_of w) !! f = Some c /\
        handles (view_of w) !! fd = None /\
        view_of w' = mkView (<[fd := (f, 0%nat)]> (handles (view_of w))) (files (view_of w)) /\
        (patience w' <= patience w)%nat
    | (w', inl e) =>
        view_of w' = view_of w /\ named w' path = named w path /\
        (patience w' <= patience w)%nat /\ (e = EINTR -> (patience w' < patience w)%nat)
    end;
  kernel_open_create : forall path mode w,
    match kernel _ (Openat AT_FDCWD path [O_WRONLY; O_CREAT; O_TRUNC; O_CLOEXEC] mode) w with
    | (w', inr fd) => exists f, named w' path = Some f /\
        (named w path = Some f \/ named w path = None /\ files (view_of w) !! f = None) /\
        handles (view_of w) !! fd = None /\
        view_of w' = mkView (<[fd := (f, 0%nat)]> (handles (view_of w))) (<[f := []]> (files (view_of w))) /\
        (patience w' <= patience w)%nat
    | (w', inl e) => view_of w' = view_of w /\ (patience w' <= patience w)%nat
    end;
  kernel_close : forall fd w, let w' := (kernel _ (Close fd) w).1 in
    view_of w' = mkView (delete fd (handles (view_of w))) (files (view_of w)) /\
    named w' = named w /\ (patience w' <= patience w)%nat;
  kernel_write_named : forall fd data w, named (kernel _ (Write fd data) w).1 = named w
}.

Section Named.
Context {W : Type} (kernel : forall A, fsys A -> W -> W * A) `{!FileKernel kernel} `{!NamedFiles kernel}.

Lemma write_loop_named fd data : forall fuel pos s,
  named (world (write_loop kernel fuel fd data pos s).1) = named (world s).
Proof.
  induction fuel as [|fuel IH]; intros pos s; [done|]. cbn [write_loop]. destruct (pos <? len data); [|done].
  unfold mbind, stm_bind, perform. pose proof (kernel_write_named fd (drop (Z.to_nat pos) data) (world s)) as Hn.
  destruct (kernel _ (Write fd _) (world s)) as [w [e|k]]; cbn in Hn |- *.
  - destruct (e =? EINTR); [by rewrite IH|done].
  - by rewrite IH.
Qed.

(** [with_fd]: what [m] has done, and the descriptor is closed. *)
Lemma with_fd_spec {A} fd (m : stm (io W) A) s (Q : io W -> outcome A -> Prop) :
  (match m s with (_, UB) | (_, NoFuel) => False | _ => True end) ->
  (forall s', (m s).1 = s' -> forall e w,
    view_of w = mkView (delete fd (handles (view_of (world s')))) (files (view_of (world s'))) ->
    named w = named (world s') -> (patience w <= patience (world s'))%nat -> Q (mkIo e w) (m s).2) ->
  let r := with_fd kernel fd m s in Q r.1 r.2.
Proof.
  intros Hok H. unfold with_fd. destruct (m s) as [s1 o]. cbn in H. specialize (H s1 eq_refl).
  unfold perform. destruct (kernel_close fd (world s1)) as (Hv & Hn & Hp).
  destruct o; try done; destruct (kernel _ (Close fd) (world s1)) as [w [e'|u]]; cbn in *; by apply H.
Qed.

Lemma open_loop_spec file : forall fuel s, (patience (world s) < fuel)%nat ->
  match open_loop kernel fuel file s with
  | (s', Ok (Some fd)) => exists f c, named (world s) file = Some f /\ files (view_of (world s)) !! f = Some c /\
      handles (view_of (world s)) !! fd = None /\
      view_of (world s') = mkView (<[fd := (f, 0%nat)]> (handles (view_of (world s)))) (files (view_of (world s))) /\
      (patience (world s') <= patience (world s))%nat
  | (s', Ok None) => view_of (world s') = view_of (world s)
  | _ => False
  end.
Proof.
  induction fuel as [|fuel IH]; intros s Hfuel; [lia|]. cbn [open_loop]. unfold mbind, stm_bind, perform.
  pose proof (kernel_open_read file (world s)) as Ho.
  destruct (kernel _ (Openat _ _ _ _) (world s)) as [w [e|fd]]; [|exact Ho].
  destruct Ho as (Hv & Hn & Hp & Hint). unfold interrupted, gets. cbn [errno world].
  destruct (Z.eqb_spec e EINTR) as [He|He]; [|done]. specialize (IH (mkIo e w) ltac:(cbn; specialize (Hint He); lia)). cbn [world] in IH.
  destruct (open_loop kernel fuel file (mkIo e w)) as [s' [[fd|]|e'| |]]; try done.
  - destruct IH as (f & c & H1 & H2 & H3 & H4 & H5). rewrite Hv, Hn in *. exists f, c. split_and!; try done. lia.
  - by rewrite IH.
Qed.

(** Reading a whole file. *)
Lemma get_file_contents_path_spec fuel file f c s : named (world s) file = Some f -> files (view_of (world s)) !! f = Some c ->
  len c <= ALL_BYTES -> (patience (world s) + length c < fuel)%nat ->
  match get_file_contents_path kernel fuel file s with
  | (s', Ok r) => r = c /\ view_of (world s') = view_of (world s)
  | (s', Throw e) => (e = RuntimeError (open_error file) \/ e = RuntimeError (lit "read() failed")) /\
      view_of (world s') = view_of (world s)
  | _ => False
  end.
Proof.
  intros Hf Hc Hlen Hfuel. unfold get_file_contents_path, mbind, stm_bind. pose proof (open_loop_spec file fuel s ltac:(lia)) as Ho.
  destruct (open_loop kernel fuel file s) as [s1 [[fd|]|e| |]]; try done. 2: { split; [by left|done]. }
  destruct Ho as (f' & c' & Hf' & Hc' & Hfd & Hv & Hp). rewrite Hf in Hf'. injection Hf' as <-. rewrite Hc in Hc'. injection Hc' as <-.
  assert (opened kernel s1 fd f 0 c) as Ho1 by (unfold opened; rewrite Hv; cbn; by rewrite lookup_insert_eq).
  pose proof (contents_loop_spec kernel fd f c fuel ALL_BYTES [] s1 0 ltac:(done) Ho1 ltac:(lia)) as Hl.
  assert (forall s2 k, advanced kernel s1 fd f k s2 -> mkView (delete fd (handles (view_of (world s2)))) (files (view_of (world s2))) = view_of (world s)) as Hback.
  { intros s2 k Ha. rewrite Ha, Hv. cbn. rewrite insert_insert_eq, delete_insert_id by done. by destruct (view_of (world s)). }
  set (Q := fun (s' : io W) (o : outcome str) => match o with
    | Ok r => r = c /\ view_of (world s') = view_of (world s)
    | Throw e => (e = RuntimeError (open_error file) \/ e = RuntimeError (lit "read() failed")) /\ view_of (world s') = view_of (world s)
    | _ => False end).
  pose proof (with_fd_spec fd (get_file_contents kernel fuel fd ALL_BYTES) s1 Q) as Hw. unfold get_file_contents in *.
  destruct (contents_loop kernel fuel fd ALL_BYTES [] s1) as [s2 [r|e| |]]; try done.
  - assert (take (Z.to_nat ALL_BYTES) (drop 0 c) = c) as Hall by (rewrite drop_0; apply take_ge; unfold len in Hlen; lia).
    destruct Hl as [-> Ha]. rewrite Hall in Ha, Hw.
    specialize (Hw I ltac:(intros ? <- e w Hvw _ _; cbn in *; by rewrite Hvw, (Hback _ _ Ha))).
    destruct (with_fd kernel fd _ s1) as [s3 [r|e| |]]; exact Hw.
  - destruct Hl as [-> [k Ha]].
    specialize (Hw I ltac:(intros ? <- e w Hvw _ _; cbn in *; rewrite Hvw, (Hback _ _ Ha); split; [by right|done])).
    destruct (with_fd kernel fd _ s1) as [s3 [r|e| |]]; exact Hw.
Qed.

(** Writing a whole file: all of it, or an exception and a part of it; the
    descriptor is closed. *)
Lemma put_file_contents_spec fuel file data mode s : (patience (world s) + length data < fuel)%nat ->
  match put_file_contents kernel fuel file data mode s with
  | (s', Ok _) => exists f, named (world s') file = Some f /\
      view_of (world s') = mkView (handles (view_of (world s))) (<[f := data]> (files (view_of (world s)))) /\
      (patience (world s') <= patience (world s))%nat
  | (s', Throw e) =>
      e = RuntimeError (lit "open() failed") /\ view_of (world s') = view_of (world s) \/
      e = RuntimeError (lit "write() failed") /\ exists f k, named (world s') file = Some f /\ (k < length data)%nat /\
        view_of (world s') = mkView (handles (view_of (world s))) (<[f := take k data]> (files (view_of (world s))))
  | _ => False
  end.
Proof.
  intros Hfuel. unfold put_file_contents. unfold mbind at 1, stm_bind at 1. unfold perform at 1.
  pose proof (kernel_open_create file mode (world s)) as Ho.
  destruct (kernel _ (Openat _ _ _ _) (world s)) as [w [e|fd]]; [left; by destruct Ho|].
  destruct Ho as (f & Hn & _ & Hfd & Hv & Hp). set (s1 := mkIo (errno s) w).
  set (Q := fun (s' : io W) (o : outcome unit) => match o with
    | Ok _ => exists f, named (world s') file = Some f /\
        view_of (world s') = mkView (handles (view_of (world s))) (<[f := data]> (files (view_of (world s)))) /\
        (patience (world s') <= patience (world s))%nat
    | Throw e => e = RuntimeError (lit "open() failed") /\ view_of (world s') = view_of (world s) \/
        e = RuntimeError (lit "write() failed") /\ exists f k, named (world s') file = Some f /\ (k < length data)%nat /\
        view_of (world s') = mkView (handles (view_of (world s))) (<[f := take k data]> (files (view_of (world s))))
    | _ => False end).
  match goal with |- match with_fd _ _ ?m _ with _ => _ end => pose proof (with_fd_spec fd m s1 Q) as Hw; set (body := m) in * end.
  cut (Q (with_fd kernel fd body s1).1 (with_fd kernel fd body s1).2); [by destruct (with_fd kernel fd body s1) as [s3 [r|e| |]]|].
  assert (opened kernel (mkIo 0 w) fd f 0 []) as Ho1 by (unfold opened; cbn; rewrite Hv; cbn; by rewrite !lookup_insert_eq).
  pose proof (write_loop_spec kernel fd f data fuel 0 (mkIo 0 w) 0 [] ltac:(unfold len; lia) Ho1 ltac:(done) ltac:(cbn; lia)) as Hl.
  pose proof (write_loop_named fd data fuel 0 (mkIo 0 w)) as Hln.
  assert (body s1 = match write_loop kernel fuel fd data 0 (mkIo 0 w) with
    | (s2, Ok n) => (if n =? len data then mret tt else throw_error (lit "write() failed")) s2
    | (s2, Throw e) => (s2, Throw e) | (s2, UB) => (s2, UB) | (s2, NoFuel) => (s2, NoFuel) end) as Hbody.
  { unfold body, write_all, mbind, stm_bind. cbn. by destruct (write_loop kernel fuel fd data 0 (mkIo 0 w)) as [s2 []]. }
  rewrite Hbody in Hw. clearbody body.
  destruct (write_loop kernel fuel fd data 0 (mkIo 0 w)) as [s2 [n|e| |]]; try done.
  destruct Hl as (Hn1 & _ & Hwr & Hp2). cbn [drop Z.to_nat] in Hwr. rewrite Z.sub_0_r in Hwr.
  assert (forall c, overwrite [] 0 c = c) as Hov by (intros c; unfold overwrite; cbn; rewrite drop_nil; apply app_nil_r).
  assert (mkView (delete fd (handles (view_of (world s2)))) (files (view_of (world s2))) =
    mkView (handles (view_of (world s))) (<[f := take (Z.to_nat n) data]> (files (view_of (world s))))) as Hback.
  { rewrite Hwr. cbn [handles files world]. rewrite Hv, Hov. cbn [handles files world]. by rewrite !insert_insert_eq, delete_insert_id. }
  cbn in Hln. destruct (Z.eqb_spec n (len data)) as [Heq|Hne]; cbn in Hw.
  - apply Hw; [done|]. intros ? <- e w' Hv' Hn' Hp'. exists f. cbn. rewrite Hn', Hln, Hv', Hback. split_and!; [done| |].
    + rewrite take_ge; [done|]. unfold len in Heq. lia.
    + cbn in Hp2. lia.
  - apply Hw; [done|]. intros ? <- e w' Hv' Hn' Hp'. right. split; [done|]. exists f, (Z.to_nat n). cbn.
    rewrite Hn', Hln, Hv', Hback. split_and!; [done| |done]. unfold len in *. lia.
Qed.
End Named.

(** ** Files in memory *)

(** A kernel that is interrupted [signals] times and then reads and writes at
    most three characters at once. *)
Record memory_files := mkMemoryFiles {
  mf_view : view;
  mf_names : gmap str nat;
  mf_signals : nat
}.

(** [g] when no signal is left. *)
Definition unless_interrupted {A} (w : memory_files) (g : memory_files * (Z + A)) : memory_files * (Z + A) :=
  match mf_signals w with
  | O => g
  | S n => (mkMemoryFiles (mf_view w) (mf_names w) n, inl EINTR)
  end.

Definition EBADF : Z := 9.

Definition with_handle {A} (w : memory_files) (fd : Z) (g : nat -> nat -> str -> memory_files * (Z + A)) : memory_files * (Z + A) :=
  match handles (mf_view w) !! fd with
  | Some (f, offset) => match files (mf_view w) !! f with Some c => g f offset c | None => (w, inl EBADF) end
  | None => (w, inl EBADF)
  end.

Definition seek (w : memory_files) (fd : Z) (f offset : nat) : memory_files :=
  mkMemoryFiles (mkView (<[fd := (f, offset)]> (handles (mf_view w))) (files (mf_view w))) (mf_names w) (mf_signals w).

Definition open_new (w : memory_files) (path : str) (f : nat) (fs : gmap nat str) : memory_files * (Z + Z) :=
  let fd := fresh (dom (handles (mf_view w))) in
  (mkMemoryFiles (mkView (<[fd := (f, 0%nat)]> (handles (mf_view w))) fs) (<[path := f]> (mf_names w)) (mf_signals w), inr fd).

Definition memory_kernel (A : Type) (c : fsys A) (w : memory_files) : memory_files * A :=
  match c in fsys A return memory_files * A with
  | Read fd n => unless_interrupted w (with_handle w fd (fun f offset c =>
      let data := take (Z.to_nat (Z.min 3 n)) (drop offset c) in
      (seek w fd f (offset + length data), inr data)))
  | Pread fd n pos => unless_interrupted w (with_handle w fd (fun f offset c =>
      (w, inr (take (Z.to_nat (Z.min 3 n)) (drop (Z.to_nat pos) c)))))
  | Write fd data => unless_interrupted w (with_handle w fd (fun f offset c =>
      let k := Z.min 3 (len data) in
      (mkMemoryFiles (mkView (<[fd := (f, (offset + Z.to_nat k)%nat)]> (handles (mf_view w)))
         (<[f := overwrite c offset (take (Z.to_nat k) data)]> (files (mf_view w)))) (mf_names w) (mf_signals w), inr k)))
  | Lseek fd n from => with_handle w fd (fun f offset c =>
      let pos := n + match from with SEEK_SET => 0 | SEEK_CUR => Z.of_nat offset | SEEK_END => len c end in
      if pos <? 0 then (w, inl 22) else (seek w fd f (Z.to_nat pos), inr pos))
  | Openat _ path flags _ =>
      match mf_names w !! path with
      | Some f =>
          if decide (O_EXCL ∈ flags) then (w, inl EEXIST) else
          match files (mf_view w) !! f with
          | Some c => open_new w path f (if decide (O_TRUNC ∈ flags) then <[f := []]> (files (mf_view w)) else files (mf_view w))
          | None => (w, inl 5)
          end
      | None =>
          if decide (O_CREAT ∈ flags) then
            let f := fresh (dom (files (mf_view w))) in open_new w path f (<[f := []]> (files (mf_view w)))
          else (w, inl 2)
      end
  | Close fd => (mkMemoryFiles (mkView (delete fd (handles (mf_view w))) (files (mf_view w))) (mf_names w) (mf_signals w), inr tt)
  | Ftruncate fd n => with_handle w fd (fun f _ c =>
      (mkMemoryFiles (mkView (handles (mf_view w)) (<[f := resize (Z.to_nat n) NUL c]> (files (mf_view w)))) (mf_names w) (mf_signals w), inr tt))
  | Fchmod fd _ => with_handle w fd (fun _ _ _ => (w, inr tt))
  | Fstatat _ path => (w, if mf_names w !! path is Some _ then inr 33188 else inl 2)
  | Mkdirat _ _ _ => (w, inl 38)
  | Unlinkat _ path _ => (mkMemoryFiles (mf_view w) (delete path (mf_names w)) (mf_signals w), inr tt)
  | Renameat _ old _ new =>
      match mf_names w !! old with
      | Some f => (mkMemoryFiles (mf_view w) (<[new := f]> (delete old (mf_names w))) (mf_signals w), inr tt)
      | None => (w, inl 2)
      end
  | Fdopendir _ => (w, inl 38)
  | Readdir _ => (w, inl 38)
  | Closedir _ => (w, inl 38)
  | Random _ => (w, inl 38)
  end.

Lemma take_3_prefix (n : Z) (c : str) : 0 < n ->
  let data := take (Z.to_nat (Z.min 3 n)) c in data `prefix_of` c /\ len data <= n /\ (data = [] -> c = []).
Proof.
  intros Hn data. split_and!.
  - apply prefix_take.
  - unfold data, len. rewrite length_take. lia.
  - unfold data. replace (Z.to_nat (Z.min 3 n)) with (S (Z.to_nat (Z.min 3 n) - 1)) by lia. by destruct c.
Qed.

#[export] Program Instance memory_file_kernel : FileKernel memory_kernel :=
  { view_of := mf_view; patience := mf_signals }.
Next Obligation.
  intros fd n w f offset c Hn Hh Hf. cbn. unfold unless_interrupted. destruct (mf_signals w) eqn:Hs; [|cbn; rewrite ?Hs; split_and!; [done|lia|lia]].
  unfold with_handle. rewrite Hh, Hf. destruct (take_3_prefix n (drop offset c) Hn) as (H1 & H2 & H3).
  split_and!; try done; cbn; [|lia]. intros E. apply H3, (f_equal length) in E. rewrite length_drop in E. cbn in E. lia.
Qed.
Next Obligation.
  intros fd n pos w f offset c Hn Hpos Hh Hf. cbn. unfold unless_interrupted. destruct (mf_signals w) eqn:Hs; [|cbn; rewrite ?Hs; split_and!; [done|lia|lia]].
  unfold with_handle. rewrite Hh, Hf. destruct (take_3_prefix n (drop (Z.to_nat pos) c) Hn) as (H1 & H2 & H3).
  split_and!; try done; cbn; [|lia]. intros E. apply H3, (f_equal length) in E. rewrite length_drop in E. cbn in E. unfold len. lia.
Qed.
Next Obligation.
  intros fd data w f offset c Hd Hh Hf. cbn. unfold unless_interrupted. destruct (mf_signals w) eqn:Hs; [|cbn; rewrite ?Hs; split_and!; [done|lia|lia]].
  unfold with_handle. rewrite Hh, Hf. cbn. assert (0 < len data) by (destruct data; [done|unfold len; cbn; lia]).
  split_and!; try done; lia.
Qed.
Next Obligation.
  intros fd n from w f offset c Hh Hf. cbn. unfold with_handle. rewrite Hh, Hf.
  match goal with |- context [?x <? 0] => destruct (Z.ltb_spec x 0) end; cbn; [done|]. split_and!; done || lia.
Qed.

#[export] Program Instance memory_named_files : NamedFiles memory_kernel :=
  { named := fun w path => mf_names w !! path }.
Next Obligation.
  intros path w. cbn. destruct (mf_names w !! path) as [f|] eqn:Hn; [|done].
  destruct (files (mf_view w) !! f) as [c|] eqn:Hf; [|by rewrite ?Hn]. cbn. exists f, c. split_and!; try done.
  apply not_elem_of_dom, is_fresh.
Qed.
Next Obligation.
  intros path mode w. cbn. destruct (mf_names w !! path) as [f|] eqn:Hn.
  - destruct (files (mf_view w) !! f) as [c|] eqn:Hf; [|done]. exists f. cbn. rewrite lookup_insert_eq. split_and!; try done; [by left|].
    apply not_elem_of_dom, is_fresh.
  - exists (fresh (dom (files (mf_view w)))). cbn. rewrite lookup_insert_eq. split_and!; try done.
    + right. split; [done|]. apply not_elem_of_dom, is_fresh.
    + apply not_elem_of_dom, is_fresh.
Qed.
Next Obligation. intros fd w. done. Qed.
Next Obligation.
  intros fd data w. cbn. unfold unless_interrupted, with_handle. destruct (mf_signals w); [|done].
  destruct (handles (mf_view w) !! fd) as [[f offset]|]; [|done]. by destruct (files (mf_view w) !! f).
Qed.

(** ** The properties *)

(** C23: On any kernel that keeps open files as [read], [write] and [open] are
    documented to, however it splits the transfers and however often (but
    finitely often) it interrupts them: [put_file_contents] and then
    [get_file_contents] of the same path terminate, and either give back what
    was written with every other file and every open descriptor as before, or
    throw; when writing throws, the file has been left alone or holds a proper
    prefix of the data. *)
Theorem file_contents_round_trip {W : Type} (kernel : forall A, fsys A -> W -> W * A)
    `{!FileKernel kernel} `{!NamedFiles kernel} fuel file data mode s :
  (patience (world s) + length data < fuel)%nat -> len data <= ALL_BYTES ->
  match put_file_contents kernel fuel file data mode s with
  | (s1, Ok _) =>
      (exists f, view_of (world s1) = mkView (handles (view_of (world s))) (<[f := data]> (files (view_of (world s))))) /\
      match get_file_contents_path kernel fuel file s1 with
      | (s2, Ok r) => r = data /\ view_of (world s2) = view_of (world s1)
      | (s2, Throw e) => e = RuntimeError (open_error file) \/ e = RuntimeError (lit "read() failed")
      | _ => False
      end
  | (s1, Throw e) =>
      e = RuntimeError (lit "open() failed") /\ view_of (world s1) = view_of (world s) \/
      e = RuntimeError (lit "write() failed") /\ exists f k, (k < length data)%nat /\
        view_of (world s1) = mkView (handles (view_of (world s))) (<[f := take k data]> (files (view_of (world s))))
  | _ => False
  end.
Proof.
  intros Hfuel Hlen. pose proof (put_file_contents_spec kernel fuel file data mode s Hfuel) as Hput.
  destruct (put_file_contents kernel fuel file data mode s) as [s1 [u|e| |]]; try done.
  - destruct Hput as (f & Hn & Hv & Hp). split; [by exists f|].
    assert (files (view_of (world s1)) !! f = Some data) as Hf by (rewrite Hv; cbn; by rewrite lookup_insert_eq).
    pose proof (get_file_contents_path_spec kernel fuel file f data s1 Hn Hf Hlen ltac:(lia)) as Hget.
    destruct (get_file_contents_path kernel fuel file s1) as [s2 [r|e| |]]; try done. by destruct Hget.
  - destruct Hput as [?|(He & f & k & _ & Hk & Hv)]; [by left|right]. eauto.
Qed.

(** Files [0] and [1] are open as descriptors [3] and [4]. *)
Definition two_files : memory_files :=
  mkMemoryFiles (mkView (<[3 := (0%nat, 1%nat)]> (<[4 := (1%nat, 2%nat)]> ∅)) (<[0%nat := lit "0123456789"]> (<[1%nat := lit "abcdef"]> ∅)))
    (<[lit "in" := 0%nat]> (<[lit "out" := 1%nat]> ∅)) 2.

Lemma file_contents_round_trip_witness :
  match put_file_contents memory_kernel 20 (lit "out") (lit "some text") 420 (mkIo 0 two_files) with
  | (s1, Ok _) =>
      match get_file_contents_path memory_kernel 20 (lit "out") s1 with
      | (s2, Ok r) => r = lit "some text" /\ view_of (world s2) = view_of (world s1)
      | _ => False
      end
  | _ => False
  end.
Proof.
  assert (2 + length (lit "some text") < 20)%nat as Hfuel by (vm_compute; lia).
  pose proof (file_contents_round_trip memory_kernel 20 (lit "out") (lit "some text") 420 (mkIo 0 two_files)
    Hfuel ltac:(vm_compute; discriminate)) as H.
  destruct (put_file_contents memory_kernel 20 (lit "out") (lit "some text") 420 (mkIo 0 two_files)) as [s1 o] eqn:E1.
  assert (o = Ok tt) as -> by (change o with (s1, o).2; rewrite <- E1; vm_compute; reflexivity).
  destruct H as [_ H]. destruct (get_file_contents_path memory_kernel 20 (lit "out") s1) as [s2 o] eqn:E2.
  assert (o = Ok (lit "some text")) as ->; [|exact H].
  change o with (s2, o).2. rewrite <- E2. change s1 with (s1, Ok tt).1. rewrite <- E1. vm_compute. reflexivity.
Defined.

(** [blast] between two different open files always returns.  When it
    returns 0 everything from the offset of the input to its end has been
    written at the offset of the output, which ends after it; when it returns -1
    a part of it has.  Nothing else changes. *)
Theorem blast_copies {W : Type} (kernel : forall A, fsys A -> W -> W * A) `{!FileKernel kernel}
    fuel infd outfd fi fo i offset ci c s :
  infd <> outfd -> fi <> fo ->
  opened kernel s infd fi i ci -> opened kernel s outfd fo offset c -> (offset <= length c)%nat ->
  (patience (world s) + (length ci - i) < fuel)%nat ->
  exists s' rc pos data,
    blast kernel fuel infd outfd s = (s', Ok rc) /\
    data `prefix_of` drop i ci /\ (i <= pos)%nat /\
    view_of (world s') =
      mkView (<[infd := (fi, pos)]> (<[outfd := (fo, (offset + length data)%nat)]> (handles (view_of (world s)))))
        (<[fo := overwrite c offset data]> (files (view_of (world s)))) /\
    (rc = 0 /\ data = drop i ci \/ rc = -1).
Proof.
  intros Hfd Hf Hi Ho Hoff Hfuel. pose proof (blast_spec kernel infd outfd fi fo Hfd Hf ci fuel s i offset c Hi Ho Hoff Hfuel) as H.
  destruct (blast kernel fuel infd outfd s) as [s' [rc|e| |]]; try done. destruct H as (pos & k & Hpos & Hk & Hc & Hrc).
  exists s', rc, pos, (take k (drop i ci)). split_and!; try done; [apply prefix_take|].
  destruct Hrc as [[-> Hall]| ->]; [left|by right]. split; [done|]. apply take_ge. rewrite length_drop. lia.
Qed.

Lemma blast_copies_witness :
  match blast memory_kernel 20 3 4 (mkIo 0 two_files) with
  | (s', Ok rc) => rc = 0 /\ files (view_of (world s')) !! 1%nat = Some (lit "ab123456789")
  | _ => False
  end /\
  exists s' rc pos data,
    blast memory_kernel 20 3 4 (mkIo 0 two_files) = (s', Ok rc) /\
    data `prefix_of` drop 1 (lit "0123456789") /\ (1 <= pos)%nat /\
    view_of (world s') =
      mkView (<[3 := (0%nat, pos)]> (<[4 := (1%nat, (2 + length data)%nat)]> (handles (view_of two_files))))
        (<[1%nat := overwrite (lit "abcdef") 2 data]> (files (view_of two_files))) /\
    (rc = 0 /\ data = drop 1 (lit "0123456789") \/ rc = -1).
Proof.
  split; [vm_compute; split; reflexivity|].
  apply (blast_copies memory_kernel 20 3 4 0 1 1 2 (lit "0123456789") (lit "abcdef") (mkIo 0 two_files));
    [lia|lia|split; vm_compute; reflexivity|split; vm_compute; reflexivity|vm_compute; lia|vm_compute; lia].
Defined.

(** A kernel whose [pread] fails. *)
Definition broken_kernel (A : Type) (c : fsys A) (w : memory_files) : memory_files * A :=
  match c in fsys A return memory_files * A with
  | Pread _ _ _ => (w, inl 5)
  | c => memory_kernel _ c w
  end.

(** When [pread] fails [pread_all] returns the offset it was given, not the
    number of characters it has read. *)
Theorem pread_all_error_count :
  (pread_all broken_kernel 5 3 100 10 [] (mkIo 0 two_files)).2 = Ok (100, []).
Proof. vm_compute. reflexivity. Qed.
