(* ===== verification/FileManip.v ===== *)
(** * Files and directories

    [file_manip.cc], [temporary_file.cc], [random.cc] and the directory walk of
    [directory.hh], over the requests of [FileIo.v].  An open file is the number
    the kernel gave ([None] for -1), a [DIR*] the descriptor it was made from;
    a destructor is the request at the end of its scope.  Paths hold no NUL. *)

From Stdlib Require Import ZArith Lia Ascii.
From S2P Require Import Prelude.
From S2P Require Import StringView.
From S2P Require Import StringTraits.
From S2P Require Import FileIo.
Local Open Scope Z_scope.

Definition PATH_MAX : Z := 4096.
Definition S_0755 : Z := 493.
Definition ACCESSPERMS : Z := 511.
Definition S_IFMT : Z := 61440.
Definition S_ISDIR (mode : Z) : bool := Z.land mode S_IFMT =? 16384.

Section FileManip.
Context {W : Type}.
Variable kernel : forall A, fsys A -> W -> W * A.

Abbreviation M := (stm (io W)).
Abbreviation sys := (perform kernel).

(** The value of a call that returns 0 or -1. *)
Definition rc_of {A} (c : fsys (Z + A)) : M Z :=
  r ← sys c; mret (if r is Some _ then 0 else -1).

Definition get_errno : M Z := gets errno.

Definition openat (dirfd : Z) (path : str) (flags : list open_flag) (mode : Z) : M (option Z) :=
  sys (Openat dirfd path flags mode).

Definition unlinkat (dirfd : Z) (path : str) (removedir : bool) : M Z := rc_of (Unlinkat dirfd path removedir).

(** ** Creating directories *)

(** The position of the first slash from [end_] on. *)
Fixpoint next_slash (fuel : nat) (path : str) (end_ : nat) : outcome nat :=
  match fuel with
  | O => NoFuel
  | S fuel' =>
      c ← get_or_ub (path !! end_);
      if decide (c = "/"%char) then Ok end_ else next_slash fuel' path (S end_)
  end.

Fixpoint mkdir_loop (fuel : nat) (path : str) (mode : Z) (end_ : nat) : M Z :=
  match fuel with
  | O => lift NoFuel
  | S fuel' =>
      if (end_ <? length path)%nat then
        end_ ← lift (next_slash (S (length path)) path end_);
        rc ← rc_of (Mkdirat AT_FDCWD (take end_ path) mode);
        e ← get_errno;
        if (rc =? -1) && negb (e =? EEXIST) then mret (-1) else mkdir_loop fuel' path mode (S end_)
      else mret 0
  end.

Definition mkdir_r (path : str) (mode : Z) : M Z :=
  if PATH_MAX <=? len path then _ ← set_errno ENAMETOOLONG; mret (-1)
  else
    let path := if decide (last path = Some "/"%char) then path else path ++ ["/"%char] in
    mkdir_loop (length path) path mode 1.

Definition create_subdirectories (file : str) : M Z :=
  let path := SV.remove_trailing (fun c => negb (bool_decide (c = "/"%char))) file in
  if decide (path = []) then mret 0 else mkdir_r path S_0755.

(** ** Walking a directory *)

(** [func] gets the variables it captures and returns them, with [true] for
    [continue_repeating]. *)
Fixpoint for_each_dir_component {C} (fuel : nat) (dir : Z) (func : C -> str * dtype -> M (C * bool))
    (readdir_failed : C -> M C) (captured : C) : M C :=
  match fuel with
  | O => lift NoFuel
  | S fuel' =>
      _ ← set_errno 0;
      file ← sys (Readdir dir);
      match file with
      | Some (Some file) =>
          if decide (file.1 = lit "." \/ file.1 = lit "..")
          then for_each_dir_component fuel' dir func readdir_failed captured
          else
            '(captured, continue_) ← func captured file;
            if (continue_ : bool) then for_each_dir_component fuel' dir func readdir_failed captured
            else mret captured
      | _ =>
          e ← get_errno;
          if e =? 0 then mret captured else readdir_failed captured
      end
  end.

(** [ec] and [rc]. *)
Record failure := mkFailure { ec : Z; rc : Z }.

Definition no_failure : failure := mkFailure 0 0.

(** [ec = errno; rc = -1;] *)
Definition fail_with_errno (_ : failure) : M failure := e ← get_errno; mret (mkFailure e (-1)).

(** The end of the lambdas: stop when [r] is not 0. *)
Definition check_entry (st : failure) (r : Z) : M (failure * bool) :=
  if r =? 0 then mret (st, true) else st ← fail_with_errno st; mret (st, false).

Definition must_descend (t : dtype) : bool := match t with DT_DIR | DT_UNKNOWN => true | DT_OTHER => false end.

(** ** Removing *)

Definition DIR_FLAGS : list open_flag := [O_RDONLY; O_DIRECTORY; O_NOFOLLOW; O_CLOEXEC].

Fixpoint remove_rat_impl (fuel : nat) (dirfd : Z) (path : str) : M Z :=
  match fuel with
  | O => lift NoFuel
  | S fuel' =>
      fd ← openat dirfd path DIR_FLAGS 0;
      match fd with
      | None => unlinkat dirfd path false
      | Some fd =>
          dir ← sys (Fdopendir fd);
          match dir with
          | None => _ ← sys (Close fd); unlinkat dirfd path true
          | Some _ =>
              st ← for_each_dir_component fuel fd
                (fun st file =>
                   r ← (if must_descend file.2 then remove_rat_impl fuel' fd file.1
                        else unlinkat fd file.1 false);
                   check_entry st r)
                fail_with_errno no_failure;
              _ ← sys (Closedir fd);
              if rc st =? -1 then _ ← set_errno (ec st); mret (-1) else unlinkat dirfd path true
          end
      end
  end.

Definition remove_rat (fuel : nat) (dirfd : Z) (path : str) : M Z := remove_rat_impl fuel dirfd path.

Definition remove_r (fuel : nat) (pathname : str) : M Z := remove_rat fuel AT_FDCWD pathname.

Definition remove_dir_contents_at (fuel : nat) (dirfd : Z) (pathname : str) : M Z :=
  fd ← openat dirfd pathname DIR_FLAGS 0;
  match fd with
  | None => mret (-1)
  | Some fd =>
      dir ← sys (Fdopendir fd);
      match dir with
      | None => e ← get_errno; _ ← sys (Close fd); _ ← set_errno e; mret (-1)
      | Some _ =>
          st ← for_each_dir_component fuel fd
            (fun st file =>
               r ← (if must_descend file.2 then remove_rat_impl fuel fd file.1
                    else unlinkat fd file.1 false);
               check_entry st r)
            fail_with_errno no_failure;
          _ ← sys (Closedir fd);
          _ ← when (rc st =? -1) (set_errno (ec st));
          mret (rc st)
      end
  end.

Definition remove_dir_contents (fuel : nat) (pathname : str) : M Z := remove_dir_contents_at fuel AT_FDCWD pathname.

(** ** Copying *)

(** [get_random('a', 'z')]: a distribution of the standard library over the
    generator. *)
Variable get_random_letter : M ascii.

Fixpoint random_letters (n : nat) : M str :=
  match n with
  | O => mret []
  | S n' => c ← get_random_letter; rest ← random_letters n'; mret (c :: rest)
  end.

(** [tries] attempts; [prefix] is the buffer without its last [suffix_len]
    characters.  The descriptor and what the buffer holds. *)
Fixpoint unique_file_loop (tries : nat) (dirfd : Z) (prefix : str) (suffix_len : nat) (flags : list open_flag) (mode : Z)
    : M (option (Z * str)) :=
  match tries with
  | O => mret None
  | S tries' =>
      suffix ← random_letters suffix_len;
      fd ← openat dirfd (prefix ++ suffix) (flags ++ [O_EXCL; O_CREAT]) mode;
      match fd with
      | Some fd => mret (Some (fd, prefix ++ suffix))
      | None =>
          e ← get_errno;
          if e =? EEXIST then unique_file_loop tries' dirfd prefix suffix_len flags mode else mret None
      end
  end.

Definition create_unique_file (dirfd : Z) (prefix : str) (suffix_len : nat) (flags : list open_flag) (mode : Z)
    : M (option (Z * str)) :=
  unique_file_loop (if decide (suffix_len = 0%nat) then 1 else 256) dirfd prefix suffix_len flags mode.

(** [tmp_dest_remover] goes first, then the two descriptors. *)
Definition copyat_using_rename (fuel : nat) (src_dirfd : Z) (src : str) (dest_dirfd : Z) (dest : str) (mode : Z) : M Z :=
  src_fd ← openat src_dirfd src [O_RDONLY; O_CLOEXEC] 0;
  match src_fd with
  | None => mret (-1)
  | Some src_fd =>
      with_fd kernel src_fd
        (opt_fd ← create_unique_file dest_dirfd (dest ++ ["."%char]) 10 [O_WRONLY; O_CLOEXEC] mode;
         match opt_fd with
         | None => mret (-1)
         | Some (dest_fd, tmp_dest) =>
             r ← blast kernel fuel src_fd dest_fd;
             if negb (r =? 0) then
               _ ← unlinkat dest_dirfd tmp_dest false; _ ← sys (Close dest_fd); mret (-1)
             else
               _ ← sys (Close dest_fd);
               r ← rc_of (Renameat dest_dirfd tmp_dest dest_dirfd dest);
               if negb (r =? 0) then _ ← unlinkat dest_dirfd tmp_dest false; mret (-1) else mret 0
         end)
  end.

(** What [copyat] does with a destination that was there before. *)
Definition finish_overwriting (out mode : Z) : M Z :=
  offset ← sys (Lseek out 0 SEEK_CUR);
  match offset with
  | None => mret (-1)
  | Some offset =>
      r ← rc_of (Ftruncate out offset);
      if negb (r =? 0) then mret (-1)
      else r ← rc_of (Fchmod out mode); mret (if negb (r =? 0) then -1 else 0)
  end.

Definition COPY_FLAGS : list open_flag := [O_WRONLY; O_TRUNC; O_CLOEXEC].

(** The destination and [file_created]. *)
Definition open_destination (dest_dirfd : Z) (dest : str) (mode : Z) : M (option Z * bool) :=
  out ← openat dest_dirfd dest (COPY_FLAGS ++ [O_CREAT; O_EXCL]) mode;
  e ← get_errno;
  if bool_decide (out = None) && (e =? EEXIST) then
    out ← openat dest_dirfd dest COPY_FLAGS 0; mret (out, false)
  else mret (out, true).

Definition copyat_mode (fuel : nat) (src_dirfd : Z) (src : str) (dest_dirfd : Z) (dest : str) (mode : Z) : M Z :=
  '(out, file_created) ← open_destination dest_dirfd dest mode;
  match out with
  | None =>
      e ← get_errno;
      if negb (e =? ETXTBSY) then mret (-1)
      else copyat_using_rename fuel src_dirfd src dest_dirfd dest mode
  | Some out =>
      with_fd kernel out
        (in_ ← openat src_dirfd src [O_RDONLY; O_CLOEXEC] 0;
         match in_ with
         | None => mret (-1)
         | Some in_ =>
             with_fd kernel in_
               (r ← blast kernel fuel in_ out;
                if negb (r =? 0) then mret (-1)
                else if (file_created : bool) then mret 0 else finish_overwriting out mode)
         end)
  end.

Definition copyat (fuel : nat) (src_dirfd : Z) (src : str) (dest_dirfd : Z) (dest : str) : M Z :=
  st_mode ← sys (Fstatat src_dirfd src);
  match st_mode with
  | None => mret (-1)
  | Some st_mode => copyat_mode fuel src_dirfd src dest_dirfd dest st_mode
  end.

Definition copyat_using_rename_stat (fuel : nat) (src_dirfd : Z) (src : str) (dest_dirfd : Z) (dest : str) : M Z :=
  st_mode ← sys (Fstatat src_dirfd src);
  match st_mode with
  | None => mret (-1)
  | Some st_mode => copyat_using_rename fuel src_dirfd src dest_dirfd dest st_mode
  end.

Fixpoint copy_rat_impl (fuel : nat) (src_dirfd : Z) (src : str) (dest_dirfd : Z) (dest : str) : M Z :=
  match fuel with
  | O => lift NoFuel
  | S fuel' =>
      src_fd ← openat src_dirfd src [O_RDONLY; O_DIRECTORY; O_CLOEXEC] 0;
      match src_fd with
      | None =>
          e ← get_errno;
          if e =? ENOTDIR then copyat fuel src_dirfd src dest_dirfd dest else mret (-1)
      | Some src_fd =>
          _ ← sys (Mkdirat dest_dirfd dest S_0755);
          dest_fd ← openat dest_dirfd dest [O_RDONLY; O_DIRECTORY; O_CLOEXEC] 0;
          match dest_fd with
          | None => _ ← sys (Close src_fd); mret (-1)
          | Some dest_fd =>
              src_dir ← sys (Fdopendir src_fd);
              match src_dir with
              | None => _ ← sys (Close src_fd); _ ← sys (Close dest_fd); mret (-1)
              | Some _ =>
                  st ← for_each_dir_component fuel src_fd
                    (fun st file =>
                       r ← (if must_descend file.2 then copy_rat_impl fuel' src_fd file.1 dest_fd file.1
                            else copyat fuel src_fd file.1 dest_fd file.1);
                       check_entry st r)
                    fail_with_errno no_failure;
                  _ ← sys (Closedir src_fd);
                  _ ← sys (Close dest_fd);
                  _ ← when (rc st =? -1) (set_errno (ec st));
                  mret (rc st)
              end
          end
      end
  end.

Definition copy_rat (fuel : nat) (src_dirfd : Z) (src : str) (dest_dirfd : Z) (dest : str) : M Z :=
  st_mode ← sys (Fstatat src_dirfd src);
  match st_mode with
  | None => mret (-1)
  | Some st_mode =>
      if S_ISDIR st_mode then copy_rat_impl fuel src_dirfd src dest_dirfd dest
      else copyat_mode fuel src_dirfd src dest_dirfd dest (Z.land st_mode ACCESSPERMS)
  end.

Definition copy_r (fuel : nat) (src dest : str) (create_subdirs : bool) : M Z :=
  r ← (if create_subdirs then create_subdirectories dest else mret 0);
  if r =? -1 then mret (-1) else copy_rat fuel AT_FDCWD src AT_FDCWD dest.

Definition move (fuel : nat) (oldpath newpath : str) (create_subdirs : bool) : M Z :=
  r ← (if create_subdirs then create_subdirectories newpath else mret 0);
  if r =? -1 then mret (-1)
  else
    r ← rc_of (Renameat AT_FDCWD oldpath AT_FDCWD newpath);
    if r =? -1 then
      e ← get_errno;
      if e =? EXDEV then
        r ← copy_r fuel oldpath newpath false;
        if r =? 0 then remove_r fuel oldpath else mret (-1)
      else mret (-1)
    else mret 0.

Definition create_file (pathname : str) (mode : Z) : M Z :=
  fd ← openat AT_FDCWD pathname [O_WRONLY; O_CREAT; O_TRUNC; O_CLOEXEC] mode;
  match fd with
  | None => mret (-1)
  | Some fd => rc_of (Close fd)
  end.

(** ** Temporary files *)

(** [path_]: empty when there is no file. *)
Definition TemporaryFile : Type := str.

Definition new_temporary_file (templ : str) (mode : Z) : M TemporaryFile :=
  _ ← when (negb (has_suffix templ (lit "XXXXXX"))) (lift UB);
  opt_fd ← create_unique_file AT_FDCWD (take (length templ - 6) templ) 6 [O_RDONLY; O_CLOEXEC] mode;
  match opt_fd with
  | None => throw_error (lit "create_unique_file()")
  | Some (fd, path) => _ ← sys (Close fd); mret path
  end.

Definition destroy_temporary_file (path_ : TemporaryFile) : M unit :=
  when (bool_decide (path_ <> [])) (_ ← unlinkat AT_FDCWD path_ false; mret tt).

(** [operator=(TemporaryFile&&)]: the new value of the object. *)
Definition move_temporary_file (path_ tf : TemporaryFile) : M TemporaryFile :=
  _ ← destroy_temporary_file path_; mret tf.

(** ** Random bytes *)

(** [getrandom] writes the characters it has into the memory it is given;
    [None]: not written. *)
Definition poke (dest : list (option ascii)) (data : str) : list (option ascii) :=
  (Some <$> data) ++ drop (length data) dest.

Fixpoint fill_randomly (fuel : nat) (dest : list (option ascii)) (bytes : Z) : M (list (option ascii)) :=
  match fuel with
  | O => lift NoFuel
  | S fuel' =>
      if 0 <? bytes then
        data ← sys (Random bytes);
        match data with
        | Some data => fill_randomly fuel' (poke dest data) (bytes - len data)
        | None =>
            again ← interrupted;
            if (again : bool) then fill_randomly fuel' dest bytes else throw_error (lit "getrandom()")
        end
      else mret dest
  end.

(** [read_from_dev_urandom_nothrow]: its value and what was read. *)
Definition read_from_dev_urandom_nothrow (fuel : nat) (bytes : Z) : M (Z * str) :=
  fd ← openat AT_FDCWD (lit "/dev/urandom") [O_RDONLY; O_CLOEXEC] 0;
  match fd with
  | None => mret (-1, [])
  | Some fd =>
      with_fd kernel fd
        ('(n, buff) ← read_all kernel fuel fd bytes [];
         errnum ← get_errno;
         if bytes =? n then mret (bytes, buff) else _ ← set_errno errnum; mret (-1, buff))
  end.

(** What was read. *)
Definition read_from_dev_urandom (fuel : nat) (bytes : Z) : M str :=
  fd ← openat AT_FDCWD (lit "/dev/urandom") [O_RDONLY; O_CLOEXEC] 0;
  match fd with
  | None => throw_error (lit "Failed to open /dev/urandom")
  | Some fd =>
      with_fd kernel fd
        ('(n, buff) ← read_all kernel fuel fd bytes [];
         if bytes =? n then mret buff else throw_error (lit "Failed to read from /dev/urandom"))
  end.
End FileManip.
