(* ===== verification/FileManipProofs.v ===== *)
(** * Removing trees

    [remove_rat] and [remove_dir_contents_at] on a kernel that keeps a tree of
    files as [openat], [unlinkat] and [readdir] are documented to: they return,
    they touch nothing outside of what they remove, they leave no descriptor
    open, and success means that nothing is left. *)

From Stdlib Require Import ZArith Lia Ascii.
From S2P Require Import Prelude.
From S2P Require Import FileIo.
From S2P Require Import FileManip.
Local Open Scope Z_scope.

Inductive node := NDir | NFile.

#[export] Instance node_eq_dec : EqDecision node.
Proof. solve_decision. Defined.

(** Where everything is: the names from the root, and what the open directories
    are. *)
Abbreviation place := (list str).

Record dview := mkDview {
  tree : gmap place node;
  dirs : gmap Z place
}.

(** A name in a directory. *)
Definition component (name : str) : Prop := name <> [] /\ ~ ("/"%char ∈ name) /\ name <> lit "." /\ name <> lit "..".

(** What [dirfd] may be. *)
Definition usable (v : dview) (dirfd : Z) : Prop := dirfd = AT_FDCWD \/ is_Some (dirs v !! dirfd).

(** [locate w dirfd path]: what the path leads to, if anything could be there.
    [stamina]: how many entries [readdir] will still give. *)
Class DirKernel {W : Type} (kernel : forall A, fsys A -> W -> W * A) := {
  dview_of : W -> dview;
  locate : W -> Z -> str -> option place;
  stamina : W -> nat;
  locate_child : forall w fd p name, dirs (dview_of w) !! fd = Some p -> component name ->
    locate w fd name = Some (p ++ [name]);
  dir_open : forall dirfd path w,
    match kernel _ (Openat dirfd path DIR_FLAGS 0) w with
    | (w', inr fd) => exists p, locate w dirfd path = Some p /\ tree (dview_of w) !! p = Some NDir /\
        dirs (dview_of w) !! fd = None /\ fd <> AT_FDCWD /\
        dview_of w' = mkDview (tree (dview_of w)) (<[fd := p]> (dirs (dview_of w))) /\
        (forall d q, usable (dview_of w) d -> locate w' d q = locate w d q) /\ (stamina w' <= stamina w)%nat
    | (w', inl e) => dview_of w' = dview_of w /\ locate w' = locate w /\ (stamina w' <= stamina w)%nat
    end;
  dir_fdopendir : forall fd w, let w' := (kernel _ (Fdopendir fd) w).1 in
    dview_of w' = dview_of w /\ locate w' = locate w /\ (stamina w' <= stamina w)%nat;
  dir_readdir : forall fd p w, dirs (dview_of w) !! fd = Some p ->
    match kernel _ (Readdir fd) w with
    | (w', inr (Some (name, _))) => (component name \/ name = lit "." \/ name = lit "..") /\
        dview_of w' = dview_of w /\ locate w' = locate w /\ (stamina w' < stamina w)%nat
    | (w', _) => dview_of w' = dview_of w /\ locate w' = locate w /\ (stamina w' <= stamina w)%nat
    end;
  dir_close : forall fd w, let w' := (kernel _ (Close fd) w).1 in
    dview_of w' = mkDview (tree (dview_of w)) (delete fd (dirs (dview_of w))) /\
    (forall d q, d <> fd -> locate w' d q = locate w d q) /\ (stamina w' <= stamina w)%nat;
  dir_closedir : forall fd w, let w' := (kernel _ (Closedir fd) w).1 in
    dview_of w' = mkDview (tree (dview_of w)) (delete fd (dirs (dview_of w))) /\
    (forall d q, d <> fd -> locate w' d q = locate w d q) /\ (stamina w' <= stamina w)%nat;
  dir_unlink : forall dirfd path removedir w,
    match kernel _ (Unlinkat dirfd path removedir) w with
    | (w', inr _) => exists p, locate w dirfd path = Some p /\
        (if removedir then tree (dview_of w) !! p = Some NDir /\
           (forall q, is_Some (tree (dview_of w) !! q) -> p `prefix_of` q -> q = p)
         else tree (dview_of w) !! p = Some NFile) /\
        dview_of w' = mkDview (delete p (tree (dview_of w))) (dirs (dview_of w)) /\
        (forall d q r, locate w' d q = Some r -> locate w d q = Some r) /\ (stamina w' <= stamina w)%nat
    | (w', inl e) => dview_of w' = dview_of w /\ locate w' = locate w /\ (stamina w' <= stamina w)%nat
    end
}.

(** Everything in the tree is in a directory. *)
Definition well_placed (v : dview) : Prop :=
  forall p name, is_Some (tree v !! (p ++ [name])) -> tree v !! p = Some NDir.

Lemma well_placed_below v p q : well_placed v -> is_Some (tree v !! (p ++ q)) -> q <> [] -> tree v !! p = Some NDir.
Proof.
  intros Hv. induction q as [|x q IH] using rev_ind; [done|]. intros Hs _. rewrite app_assoc in Hs. apply Hv in Hs.
  destruct q as [|y q]; [by rewrite app_nil_r in Hs|]. apply IH; [by eexists|done].
Qed.

Section Removing.
Context {W : Type} (kernel : forall A, fsys A -> W -> W * A) `{!DirKernel kernel}.
Abbreviation M := (stm (io W)).
Abbreviation see s := (dview_of (world s)).

(** [s'] comes after [s] when only things at and below [top] may have been
    removed in between and the same directories are open. *)
Record removed_below (top : option place) (s s' : io W) : Prop := {
  rb_dirs : dirs (see s') = dirs (see s);
  rb_tree : forall q, tree (see s') !! q = tree (see s) !! q \/
    (tree (see s') !! q = None /\ exists p, top = Some p /\ p `prefix_of` q);
  rb_placed : well_placed (see s) -> well_placed (see s');
  rb_locate : forall d q r, usable (see s) d -> locate (world s') d q = Some r -> locate (world s) d q = Some r;
  rb_stamina : (stamina (world s') <= stamina (world s))%nat
}.

Lemma removed_below_refl top s s' : dview_of (world s') = dview_of (world s) -> locate (world s') = locate (world s) ->
  (stamina (world s') <= stamina (world s))%nat -> removed_below top s s'.
Proof. intros Hv Hl Hs. split; rewrite ?Hv, ?Hl; auto. Qed.

Lemma removed_below_trans top s s1 s2 : removed_below top s s1 -> removed_below top s1 s2 -> removed_below top s s2.
Proof.
  intros [Hd1 Ht1 Hp1 Hl1 Hs1] [Hd2 Ht2 Hp2 Hl2 Hs2]. split.
  - by rewrite Hd2.
  - intros q. destruct (Ht2 q) as [E|[E Hq]]; [|by right]. rewrite E. apply Ht1.
  - auto.
  - intros d q r Hd Hr. apply Hl1; [done|]. apply Hl2; [|done]. unfold usable in *. by rewrite Hd1.
  - lia.
Qed.

(** A smaller part is below a larger one. *)
Lemma removed_below_weaken top top' s s' :
  (forall q r, top = Some q -> q `prefix_of` r -> exists p, top' = Some p /\ p `prefix_of` r) ->
  removed_below top s s' -> removed_below top' s s'.
Proof.
  intros Hpq [Hd Ht Hp Hl Hs]. split; try done. intros r. destruct (Ht r) as [E|(E & q & Hq & Hr)]; [by left|].
  right. split; [done|]. by eapply Hpq.
Qed.

Definition gone (p : place) (s : io W) : Prop := forall q, p `prefix_of` q -> tree (see s) !! q = None.

(** The promise of the functions that remove [path]. *)
Definition removes (dirfd : Z) (path : str) (s : io W) (out : io W * outcome Z) : Prop :=
  match out with
  | (s', Ok r) => removed_below (locate (world s) dirfd path) s s' /\ (r = 0 \/ r = -1) /\
      (r = 0 -> exists p, locate (world s) dirfd path = Some p /\ is_Some (tree (see s) !! p) /\ gone p s')
  | _ => False
  end.

Lemma unlinkat_removes dirfd path removedir s : well_placed (see s) -> removes dirfd path s (unlinkat kernel dirfd path removedir s).
Proof.
  intros Hv. pose proof (dir_unlink dirfd path removedir (world s)) as Hu.
  unfold unlinkat, rc_of, mbind, stm_bind, perform. destruct (kernel _ (Unlinkat _ _ _) (world s)) as [w [e|u]]; cbn.
  { destruct Hu as (? & ? & ?). split_and!; [by apply removed_below_refl|by right|done]. }
  destruct Hu as (p & Hp & Hkind & Hw & Hl & Hs).
  assert (is_Some (tree (see s) !! p)) as Hin by (destruct removedir; [destruct Hkind as [-> _]|rewrite Hkind]; by eexists).
  assert (forall q, is_Some (tree (see s) !! q) -> p `prefix_of` q -> q = p) as Hleaf.
  { destruct removedir; [by destruct Hkind|]. intros q Hq [r ->]. destruct r as [|x r]; [by rewrite app_nil_r|].
    rewrite (well_placed_below _ p (x :: r) Hv Hq) in Hkind; done. }
  split_and!; [|by left|].
  - rewrite Hp. split; cbn; rewrite ?Hw; cbn; auto.
    + intros q. destruct (decide (q = p)) as [->|Hne]; [right|left; by rewrite lookup_delete_ne].
      rewrite lookup_delete_eq. split; [done|]. by exists p.
    + intros _ q name Hq. cbn in *. apply lookup_delete_is_Some in Hq as [Hne Hq].
      rewrite lookup_delete_ne; [by eapply Hv|]. intros ->. apply Hne. symmetry. apply Hleaf; [done|by exists [name]].
  - intros _. exists p. split_and!; [done..|]. intros q Hq. cbn. rewrite Hw. cbn.
    destruct (tree (see s) !! q) as [n|] eqn:E; [|by rewrite lookup_delete_None; right].
    rewrite (Hleaf q ltac:(by eexists) Hq). apply lookup_delete_eq.
Qed.

(** The walk over a directory whose entries are removed. *)
Lemma for_each_removes fd p (func : failure -> str * dtype -> M (failure * bool)) n :
  (forall st file s, component file.1 -> dirs (see s) !! fd = Some p -> well_placed (see s) -> (stamina (world s) < n)%nat ->
    match func st file s with (s', Ok _) => removed_below (Some p) s s' | _ => False end) ->
  forall fuel st s, dirs (see s) !! fd = Some p -> well_placed (see s) -> (stamina (world s) <= n)%nat ->
    (stamina (world s) < fuel)%nat ->
    match for_each_dir_component kernel fuel fd func fail_with_errno st s with
    | (s', Ok _) => removed_below (Some p) s s'
    | _ => False
    end.
Proof.
  intros Hfunc. induction fuel as [|fuel IH]; intros st s Hd Hv Hn Hfuel; [lia|]. cbn [for_each_dir_component].
  unfold mbind, stm_bind, set_errno, modify, perform. cbn [world errno].
  pose proof (dir_readdir fd p (world s) Hd) as Hr.
  assert (forall w e, dview_of w = see s -> locate w = locate (world s) -> (stamina w <= stamina (world s))%nat ->
    match (e ← get_errno; if e =? 0 then mret st else fail_with_errno st) (mkIo e w) with
    | (s', Ok _) => removed_below (Some p) s s' | _ => False end) as Hend.
  { intros w e ? ? ?. unfold mbind, stm_bind, get_errno, gets. cbn. destruct (e =? 0); cbn; by apply removed_below_refl. }
  destruct (kernel _ (Readdir fd) (world s)) as [w [e|[[name t]|]]].
  - destruct Hr as (? & ? & ?). by apply Hend.
  - destruct Hr as (Hname & Hw & Hl & Hs). set (s1 := mkIo 0 w).
    assert (removed_below (Some p) s s1) as H1 by (apply removed_below_refl; cbn; done || lia).
    assert (forall st2 s2, removed_below (Some p) s s2 -> (stamina (world s2) < stamina (world s))%nat ->
      match for_each_dir_component kernel fuel fd func fail_with_errno st2 s2 with
      | (s', Ok _) => removed_below (Some p) s s' | _ => False end) as Hnext.
    { intros st2 s2 H2 Hs2. specialize (IH st2 s2 ltac:(by rewrite (rb_dirs _ _ _ H2)) (rb_placed _ _ _ H2 Hv) ltac:(lia) ltac:(lia)).
      destruct (for_each_dir_component kernel fuel fd func fail_with_errno st2 s2) as [s3 []]; try done. by eapply removed_below_trans. }
    cbn [fst]. destruct (decide _) as [_|Hne]; [by apply Hnext|].
    assert (component name) as Hc by (destruct Hname as [?|[?|?]]; [done|exfalso; apply Hne; auto..]).
    specialize (Hfunc st (name, t) s1 Hc ltac:(by rewrite (rb_dirs _ _ _ H1)) (rb_placed _ _ _ H1 Hv) ltac:(cbn; lia)).
    fold s1. destruct (func st (name, t) s1) as [s2 [[st2 go]|e| |]]; try done.
    assert (removed_below (Some p) s s2) as H2 by (by eapply removed_below_trans).
    destruct go; [|done]. apply Hnext; [done|]. pose proof (rb_stamina _ _ _ Hfunc). cbn in *. lia.
  - destruct Hr as (? & ? & ?). by apply Hend.
Qed.

(** A directory has been opened, worked on and closed again. *)
Lemma removed_below_closed p fd s s1 s2 s3 : dirs (see s) !! fd = None -> fd <> AT_FDCWD ->
  see s1 = mkDview (tree (see s)) (<[fd := p]> (dirs (see s))) ->
  (forall d q, usable (see s) d -> locate (world s1) d q = locate (world s) d q) ->
  (stamina (world s1) <= stamina (world s))%nat ->
  removed_below (Some p) s1 s2 ->
  see s3 = mkDview (tree (see s2)) (delete fd (dirs (see s2))) ->
  (forall d q, d <> fd -> locate (world s3) d q = locate (world s2) d q) ->
  (stamina (world s3) <= stamina (world s2))%nat ->
  removed_below (Some p) s s3.
Proof.
  intros Hfd Hcwd H1 Hl1 Hs1 [Hd2 Ht2 Hp2 Hl2 Hs2] H3 Hl3 Hs3.
  assert (forall d, usable (see s) d -> d <> fd /\ usable (see s1) d) as Hus.
  { intros d [->|[x Hx]]; unfold usable; rewrite H1; cbn; [auto|].
    assert (d <> fd) as Hne by congruence. split; [done|right]. rewrite lookup_insert_ne by done. by eexists. }
  split.
  - rewrite H3. cbn. rewrite Hd2, H1. cbn. by apply delete_insert_id.
  - intros q. rewrite H3. cbn. specialize (Ht2 q). by rewrite H1 in Ht2.
  - intros Hv. assert (well_placed (see s2)) as Hv2 by (apply Hp2; by rewrite H1). by rewrite H3.
  - intros d q r Hd Hr. apply Hus in Hd as Hd'. destruct Hd' as [Hne Hd']. rewrite <- Hl1 by done. apply Hl2; [done|]. by rewrite <- Hl3.
  - lia.
Qed.

(** The last step: the directory itself, when its path still leads to it. *)
Lemma removes_then_unlink dirfd path p s s3 : well_placed (see s) -> usable (see s) dirfd ->
  locate (world s) dirfd path = Some p -> tree (see s) !! p = Some NDir -> removed_below (Some p) s s3 ->
  removes dirfd path s (unlinkat kernel dirfd path true s3).
Proof.
  intros Hv Hd Hp Hdir H3. pose proof (unlinkat_removes dirfd path true s3 (rb_placed _ _ _ H3 Hv)) as Hu. unfold removes in *.
  destruct (unlinkat kernel dirfd path true s3) as [s4 [r|e| |]]; try done. destruct Hu as (H4 & Hr & H0).
  assert (forall q, locate (world s3) dirfd path = Some q -> q = p) as Hsame.
  { intros q Hq. apply (rb_locate _ _ _ H3) in Hq; [|done]. congruence. }
  split_and!; [|done|].
  - rewrite Hp. eapply removed_below_trans; [done|]. eapply removed_below_weaken; [|done].
    intros q r' Hq Hr'. apply Hsame in Hq as ->. by exists p.
  - intros ->. destruct (H0 eq_refl) as (q & Hq & _ & Hg). apply Hsame in Hq as ->. exists p. split_and!; [done|by eexists|done].
Qed.

Lemma check_entry_state st r (s : io W) : exists x, check_entry st r s = (s, Ok x).
Proof. unfold check_entry. destruct (r =? 0); by eexists. Qed.

(** Removing an entry of an open directory. *)
Lemma entry_removed fd p name (m : M Z) st s : component name -> dirs (see s) !! fd = Some p ->
  removes fd name s (m s) ->
  match (r ← m; check_entry st r) s with (s', Ok _) => removed_below (Some p) s s' | _ => False end.
Proof.
  intros Hc Hd Hm. unfold removes in Hm. rewrite (locate_child _ _ _ _ Hd Hc) in Hm. unfold mbind, stm_bind.
  destruct (m s) as [s1 [r|e| |]]; try done. destruct (check_entry_state st r s1) as [x ->].
  destruct Hm as (Hm & _). eapply removed_below_weaken; [|done].
  intros q r' [= <-] Hr'. exists p. split; [done|]. etransitivity; [|done]. by exists [name].
Qed.

Lemma remove_rat_impl_removes : forall fuel dirfd path s, well_placed (see s) -> usable (see s) dirfd ->
  (stamina (world s) < fuel)%nat -> removes dirfd path s (remove_rat_impl kernel fuel dirfd path s).
Proof.
  induction fuel as [|fuel IH]; intros dirfd path s Hv Hd Hfuel; [lia|]. cbn [remove_rat_impl].
  unfold openat. unfold mbind at 1, stm_bind at 1. unfold perform at 1. pose proof (dir_open dirfd path (world s)) as Ho.
  destruct (kernel _ (Openat _ _ _ _) (world s)) as [w [e|fd]].
  { destruct Ho as (Hw & Hl & Hs). pose proof (unlinkat_removes dirfd path false (mkIo e w) ltac:(cbn; by rewrite Hw)) as Hu.
    unfold removes in *. destruct (unlinkat kernel dirfd path false (mkIo e w)) as [s1 [r|e'| |]]; try done.
    cbn [world] in Hu. rewrite Hl, Hw in Hu. destruct Hu as (H1 & Hr & H0). split_and!; [|done|done].
    eapply removed_below_trans; [|done]. by apply removed_below_refl. }
  destruct Ho as (p & Hp & Hdir & Hfresh & Hcwd & Hw & Hl & Hs). set (s1 := mkIo (errno s) w).
  unfold mbind at 1, stm_bind at 1. unfold perform at 1.
  destruct (dir_fdopendir fd w) as (Hw2 & Hl2 & Hs2). change (world s1) with w.
  assert (forall e w2, dview_of w2 = dview_of w -> locate w2 = locate w -> (stamina w2 <= stamina w)%nat ->
    removed_below (Some p) s1 (mkIo e w2)) as Hstart by (intros; by apply removed_below_refl).
  assert (forall s2 s3, removed_below (Some p) s1 s2 -> see s3 = mkDview (tree (see s2)) (delete fd (dirs (see s2))) ->
    (forall d q, d <> fd -> locate (world s3) d q = locate (world s2) d q) -> (stamina (world s3) <= stamina (world s2))%nat ->
    removed_below (Some p) s s3) as Hclosed by (intros; eapply (removed_below_closed p fd s s1); done).
  destruct (kernel _ (Fdopendir fd) w) as [w2 [e|u]]; cbn [fst] in Hw2, Hl2, Hs2.
  - (* the descriptor is no directory stream *)
    unfold mbind, stm_bind, perform. cbn [world]. destruct (dir_close fd w2) as (Hw3 & Hl3 & Hs3).
    specialize (Hclosed (mkIo e w2)).
    destruct (kernel _ (Close fd) w2) as [w3 [e'|u]]; cbn [fst] in *; cbv beta iota; eapply removes_then_unlink; try done;
      apply Hclosed; auto.
  - set (s2 := mkIo (errno s1) w2).
    match goal with |- context [for_each_dir_component kernel _ fd ?func] => set (f := func) end.
    assert (removed_below (Some p) s1 s2) as H2 by (apply Hstart; done).
    assert (dirs (see s1) !! fd = Some p) as Hfd1 by (cbn; rewrite Hw; cbn; apply lookup_insert_eq).
    assert (well_placed (see s1)) as Hv1 by (cbn; rewrite Hw; done).
    assert (stamina (world s2) <= fuel)%nat as Hs2' by (cbn; lia).
    pose proof (for_each_removes fd p f fuel) as Hloop.
    specialize (Hloop ltac:(intros st file s' Hc Hd' Hv' Hs'; apply (entry_removed fd p file.1); [done|done|];
      destruct (must_descend file.2); [apply IH; [done|by right; eexists|lia]|by apply unlinkat_removes])).
    specialize (Hloop (S fuel) no_failure s2 ltac:(by rewrite (rb_dirs _ _ _ H2)) (rb_placed _ _ _ H2 Hv1) Hs2' ltac:(lia)).
    unfold mbind at 1, stm_bind at 1.
    destruct (for_each_dir_component kernel (S fuel) fd f fail_with_errno no_failure s2) as [s3 [st|e| |]]; try done.
    unfold mbind at 1, stm_bind at 1. unfold perform. destruct (dir_closedir fd (world s3)) as (Hw4 & Hl4 & Hs4).
    assert (removed_below (Some p) s1 s3) as H3 by (by eapply removed_below_trans).
    assert (forall w4 e, w4 = (kernel _ (Closedir fd) (world s3)).1 -> removed_below (Some p) s (mkIo e w4)) as Hfinal.
    { intros w4 e ->. apply (Hclosed s3); done. }
    destruct (kernel _ (Closedir fd) (world s3)) as [w4 [e|u']]; cbn [fst] in *.
    all: cbv beta iota; destruct (rc st =? -1); [cbn; split_and!; [|by right|done]; rewrite Hp; by apply Hfinal|].
    all: eapply removes_then_unlink; try done; by apply Hfinal.
Qed.
End Removing.

(** ** A tree in memory *)

Record memory_tree := mkMemoryTree {
  mt_view : dview;
  mt_pending : gmap Z (list (str * dtype));
  mt_stamina : nat
}.

#[export] Instance component_dec name : Decision (component name).
Proof. unfold component. apply _. Defined.

Definition mt_locate (w : memory_tree) (d : Z) (path : str) : option place :=
  if decide (component path) then
    match dirs (mt_view w) !! d with
    | Some p => Some (p ++ [path])
    | None => if decide (d = AT_FDCWD) then Some [path] else None
    end
  else None.

(** What [readdir] gives for a directory. *)
Definition entries (v : dview) (p : place) : list (str * dtype) :=
  omap (fun x : place * node =>
    if decide (removelast x.1 = p) then
      match last x.1 with
      | Some name => if decide (component name) then Some (name, match x.2 with NDir => DT_DIR | NFile => DT_OTHER end) else None
      | None => None
      end
    else None) (map_to_list (tree v)).

Definition mt_close (w : memory_tree) (fd : Z) : memory_tree :=
  mkMemoryTree (mkDview (tree (mt_view w)) (delete fd (dirs (mt_view w)))) (delete fd (mt_pending w)) (mt_stamina w).

Definition tree_kernel (A : Type) (c : fsys A) (w : memory_tree) : memory_tree * A :=
  match c in fsys A return memory_tree * A with
  | Openat d path _ _ =>
      match mt_locate w d path with
      | Some p =>
          if decide (tree (mt_view w) !! p = Some NDir) then
            let fd := fresh ({[AT_FDCWD]} ∪ dom (dirs (mt_view w))) in
            (mkMemoryTree (mkDview (tree (mt_view w)) (<[fd := p]> (dirs (mt_view w))))
               (<[fd := entries (mt_view w) p]> (mt_pending w)) (mt_stamina w), inr fd)
          else (w, inl ENOTDIR)
      | None => (w, inl 2)
      end
  | Fdopendir _ => (w, inr tt)
  | Readdir fd =>
      match mt_pending w !! fd, mt_stamina w with
      | Some (x :: rest), S n =>
          if decide (component x.1) then (mkMemoryTree (mt_view w) (<[fd := rest]> (mt_pending w)) n, inr (Some x))
          else (w, inl 5)
      | Some (_ :: _), O => (w, inl 5)
      | _, _ => (w, inr None)
      end
  | Close fd => (mt_close w fd, inr tt)
  | Closedir fd => (mt_close w fd, inr tt)
  | Unlinkat d path removedir =>
      match mt_locate w d path with
      | Some p =>
          if (if removedir then bool_decide (tree (mt_view w) !! p = Some NDir) &&
                bool_decide (map_Forall (fun q _ => p `prefix_of` q -> q = p) (tree (mt_view w)))
              else bool_decide (tree (mt_view w) !! p = Some NFile))
          then (mkMemoryTree (mkDview (delete p (tree (mt_view w))) (dirs (mt_view w))) (mt_pending w) (mt_stamina w), inr tt)
          else (w, inl 39)
      | None => (w, inl 2)
      end
  | Read _ _ => (w, inl 38)
  | Pread _ _ _ => (w, inl 38)
  | Write _ _ => (w, inl 38)
  | Lseek _ _ _ => (w, inl 38)
  | Ftruncate _ _ => (w, inl 38)
  | Fchmod _ _ => (w, inl 38)
  | Fstatat _ _ => (w, inl 38)
  | Mkdirat _ _ _ => (w, inl 38)
  | Renameat _ _ _ _ => (w, inl 38)
  | Random _ => (w, inl 38)
  end.

Lemma mt_locate_ne w d q v' pending n : dirs v' !! d = dirs (mt_view w) !! d ->
  mt_locate (mkMemoryTree v' pending n) d q = mt_locate w d q.
Proof. intros H. unfold mt_locate. cbn. by rewrite H. Qed.

#[export] Program Instance memory_dir_kernel : DirKernel tree_kernel :=
  { dview_of := mt_view; locate := mt_locate; stamina := mt_stamina }.
Next Obligation. intros w fd p name Hd Hc. unfold mt_locate. by rewrite Hd, decide_True. Qed.
Next Obligation.
  intros d path w. cbn. destruct (mt_locate w d path) as [p|] eqn:Hp; [|done]. destruct (decide _) as [Hdir|]; [|done].
  exists p. pose proof (is_fresh ({[AT_FDCWD]} ∪ dom (dirs (mt_view w)))) as Hf. rewrite not_elem_of_union, not_elem_of_singleton, not_elem_of_dom in Hf.
  destruct Hf as [Hf1 Hf2]. split_and!; try done. intros x q Hx. apply mt_locate_ne. cbn. apply lookup_insert_ne. intros <-.
  destruct Hx as [E|[y Hy]]; [done|]. by rewrite Hf2 in Hy.
Qed.
Next Obligation. done. Qed.
Next Obligation.
  intros fd p w Hd. cbn. destruct (mt_pending w !! fd) as [[|[name t] rest]|]; [done| |done].
  destruct (mt_stamina w) eqn:Hs; [by rewrite Hs|]. cbn. destruct (decide _) as [Hc|]; [|by rewrite Hs]. cbn. split_and!; try done; [by left|lia].
Qed.
Next Obligation. intros fd w. cbn. split_and!; try done. intros d q Hne. apply mt_locate_ne. cbn. by rewrite lookup_delete_ne. Qed.
Next Obligation. intros fd w. cbn. split_and!; try done. intros d q Hne. apply mt_locate_ne. cbn. by rewrite lookup_delete_ne. Qed.
Next Obligation.
  intros d path removedir w. cbn. destruct (mt_locate w d path) as [p|] eqn:Hp; [|done]. destruct (if removedir then _ else _) eqn:Hk; [|done].
  exists p. split_and!; try done. destruct removedir; [|by apply bool_decide_eq_true in Hk].
  apply andb_true_iff in Hk as [Hdir Hall]. apply bool_decide_eq_true in Hdir, Hall. split; [done|].
  intros q [n Hq]. by apply (Hall q n Hq).
Qed.

(** ** The property *)

(** C22: [remove_rat] returns on every kernel that keeps a tree of files as
    documented (and lists finitely many entries).  It opens no directory without
    closing it; whatever it returns, only things at or below its path have been
    removed and nothing has been added; when it returns 0 the path led to
    something and now nothing is left at it or below it.  Symbolic links are
    removed, not followed. *)
Theorem remove_rat_removes_tree {W : Type} (kernel : forall A, fsys A -> W -> W * A) `{!DirKernel kernel} fuel dirfd path s :
  well_placed (dview_of (world s)) -> usable (dview_of (world s)) dirfd -> (stamina (world s) < fuel)%nat ->
  exists s' r, remove_rat kernel fuel dirfd path s = (s', Ok r) /\
    dirs (dview_of (world s')) = dirs (dview_of (world s)) /\
    (forall q, tree (dview_of (world s')) !! q = tree (dview_of (world s)) !! q \/
       tree (dview_of (world s')) !! q = None /\ exists p, locate (world s) dirfd path = Some p /\ p `prefix_of` q) /\
    (r = -1 \/ r = 0 /\ exists p, locate (world s) dirfd path = Some p /\
       is_Some (tree (dview_of (world s)) !! p) /\
       forall q, p `prefix_of` q -> tree (dview_of (world s')) !! q = None).
Proof.
  intros Hv Hd Hfuel. pose proof (remove_rat_impl_removes kernel fuel dirfd path s Hv Hd Hfuel) as H.
  unfold remove_rat, removes in *. destruct (remove_rat_impl kernel fuel dirfd path s) as [s' [r|e| |]]; try done.
  destruct H as ([Hdirs Htree _ _ _] & Hr & H0). exists s', r. split_and!; [done|done|done|].
  destruct Hr as [->| ->]; [right|by left]. split; [done|]. by apply H0.
Qed.

Definition sample_tree : memory_tree :=
  mkMemoryTree (mkDview (list_to_map [([], NDir); ([lit "d"], NDir); ([lit "d"; lit "x"], NFile); ([lit "d"; lit "e"], NDir);
    ([lit "d"; lit "e"; lit "y"], NFile); ([lit "keep"], NFile)]) ∅) ∅ 5.

Lemma well_placed_check v :
  map_Forall (fun q _ => q = [] \/ tree v !! removelast q = Some NDir) (tree v) -> well_placed v.
Proof.
  intros H p name [n Hn]. destruct (H _ _ Hn) as [E|E]; [by destruct p|]. by rewrite removelast_last in E.
Qed.

Lemma remove_rat_removes_tree_witness :
  let s := mkIo 0 sample_tree in
  match remove_rat tree_kernel 10 AT_FDCWD (lit "d") s with
  | (s', Ok r) => bool_decide (r = 0 /\ tree (mt_view (world s')) = list_to_map [([], NDir); ([lit "keep"], NFile)])
  | _ => false
  end = true /\
  exists s' r, remove_rat tree_kernel 10 AT_FDCWD (lit "d") s = (s', Ok r) /\
    dirs (dview_of (world s')) = dirs (dview_of (world s)).
Proof.
  intros s. split; [vm_compute; reflexivity|].
  assert (well_placed (dview_of (world s))) as Hv.
  { apply well_placed_check. apply (bool_decide_eq_true_1 _). vm_compute. reflexivity. }
  destruct (remove_rat_removes_tree tree_kernel 10 AT_FDCWD (lit "d") s Hv) as (s' & r & H & Hd & _).
  - left. reflexivity.
  - apply Nat.ltb_lt. vm_compute. reflexivity.
  - exists s', r. split; assumption.
Defined.
