(* ===== verification/CopyProofs.v ===== *)
(** * Copying files

    [copy] of [file_manip.cc] on a kernel that keeps named files: the three ways
    it takes (a new destination, one that is overwritten, and the detour over a
    temporary file when the destination is being executed). *)

From Stdlib Require Import ZArith Lia Ascii.
From S2P Require Import Prelude.
From S2P Require Import StringView.
From S2P Require Import FileIo.
From S2P Require Import FileIoProofs.
From S2P Require Import FileManip.
Local Open Scope Z_scope.

(** What [copy] needs of the kernel besides [FileIoProofs.v]: exclusive creation,
    truncation, [rename(2)] and [unlink(2)]; and that names do not change when
    files are only read and written. *)
Class CopyKernel {W : Type} (kernel : forall A, fsys A -> W -> W * A) `{!FileKernel kernel} `{!NamedFiles kernel} := {
  kernel_open_excl : forall path flags mode w, O_EXCL ∈ flags -> O_CREAT ∈ flags ->
    match kernel _ (Openat AT_FDCWD path flags mode) w with
    | (w', inr fd) => exists f, named w path = None /\ named w' path = Some f /\
        files (view_of w) !! f = None /\ handles (view_of w) !! fd = None /\
        view_of w' = mkView (<[fd := (f, 0%nat)]> (handles (view_of w))) (<[f := []]> (files (view_of w))) /\
        (forall p g, named w p = Some g -> named w' p = Some g) /\
        (forall p g, named w' p = Some g -> named w p = Some g \/ g = f) /\ (patience w' <= patience w)%nat
    | (w', inl e) => view_of w' = view_of w /\ named w' = named w /\ (patience w' <= patience w)%nat
    end;
  kernel_open_trunc : forall path w,
    match kernel _ (Openat AT_FDCWD path COPY_FLAGS 0) w with
    | (w', inr fd) => exists f, named w path = Some f /\ named w' = named w /\
        handles (view_of w) !! fd = None /\
        view_of w' = mkView (<[fd := (f, 0%nat)]> (handles (view_of w))) (<[f := []]> (files (view_of w))) /\
        (patience w' <= patience w)%nat
    | (w', inl e) => view_of w' = view_of w /\ named w' = named w /\ (patience w' <= patience w)%nat
    end;
  kernel_open_read_named : forall path w, named (kernel _ (Openat AT_FDCWD path [O_RDONLY; O_CLOEXEC] 0) w).1 = named w;
  kernel_read_named : forall fd n w, named (kernel _ (Read fd n) w).1 = named w;
  kernel_lseek_named : forall fd n from w, named (kernel _ (Lseek fd n from) w).1 = named w;
  kernel_ftruncate : forall fd n w f offset c, 0 <= n ->
    handles (view_of w) !! fd = Some (f, offset) -> files (view_of w) !! f = Some c ->
    match kernel _ (Ftruncate fd n) w with
    | (w', inr _) => view_of w' = mkView (handles (view_of w)) (<[f := resize (Z.to_nat n) NUL c]> (files (view_of w))) /\ named w' = named w
    | (w', inl _) => view_of w' = view_of w /\ named w' = named w
    end;
  kernel_fstatat : forall path w, let w' := (kernel _ (Fstatat AT_FDCWD path) w).1 in
    view_of w' = view_of w /\ named w' = named w /\ (patience w' <= patience w)%nat;
  kernel_fchmod : forall fd mode w, let w' := (kernel _ (Fchmod fd mode) w).1 in view_of w' = view_of w /\ named w' = named w;
  kernel_unlink : forall path w, let w' := (kernel _ (Unlinkat AT_FDCWD path false) w).1 in
    handles (view_of w') = handles (view_of w) /\
    forall g x, files (view_of w) !! g = Some x -> named w path <> Some g -> files (view_of w') !! g = Some x;
  kernel_rename : forall old new w,
    match kernel _ (Renameat AT_FDCWD old AT_FDCWD new) w with
    | (w', inr _) => named w' new = named w old /\ handles (view_of w') = handles (view_of w) /\
        forall g x, files (view_of w) !! g = Some x -> named w new <> Some g \/ named w old = Some g -> files (view_of w') !! g = Some x
    | (w', inl _) => view_of w' = view_of w /\ named w' = named w
    end
}.

Section Copy.
Context {W : Type} (kernel : forall A, fsys A -> W -> W * A) `{!FileKernel kernel} `{!NamedFiles kernel} `{!CopyKernel kernel}.
Abbreviation M := (stm (io W)).
Abbreviation see s := (view_of (world s)).

(** The generator of random letters does not touch files. *)
Variable get_random_letter : M ascii.
Hypothesis random_letter : forall s, exists c e w, get_random_letter s = (mkIo e w, Ok c) /\
  view_of w = see s /\ named w = named (world s) /\ (patience w <= patience (world s))%nat.

(** Nothing that matters has changed. *)
Definition calm (s s' : io W) : Prop :=
  see s' = see s /\ named (world s') = named (world s) /\ (patience (world s') <= patience (world s))%nat.

Lemma calm_refl s : calm s s.
Proof. done. Qed.

Lemma calm_trans s1 s2 s3 : calm s1 s2 -> calm s2 s3 -> calm s1 s3.
Proof. intros (H1 & H2 & H3) (H4 & H5 & H6). split_and!; [congruence|congruence|lia]. Qed.

Lemma random_letters_calm n : forall s, exists l s', random_letters get_random_letter n s = (s', Ok l) /\ calm s s'.
Proof.
  induction n as [|n IH]; intros s; [by exists [], s|]. cbn [random_letters].
  destruct (random_letter s) as (c & e & w & Hr & Hv & Hn & Hp). destruct (IH (mkIo e w)) as (l & s' & Hl & Hc).
  exists (c :: l), s'. unfold mbind, stm_bind. rewrite Hr, Hl. split; [done|]. eapply calm_trans; [|done]. done.
Qed.

Lemma blast_write_named fuel outfd buff : forall pos s, named (world (blast_write kernel fuel outfd buff pos s).1) = named (world s).
Proof.
  induction fuel as [|fuel IH]; intros pos s; [done|]. cbn [blast_write]. destruct (_ <? _); [|done].
  unfold mbind, stm_bind, perform. pose proof (kernel_write_named outfd (drop (Z.to_nat pos) buff) (world s)) as Hn.
  destruct (kernel _ (Write outfd _) (world s)) as [w [e|k]]; cbn in Hn |- *.
  - destruct (e =? EINTR); [by rewrite IH|done].
  - destruct (0 <? k); [by rewrite IH|]. cbn. destruct (errno s =? EINTR); [by rewrite IH|done].
Qed.

Lemma blast_named fuel infd outfd : forall s, named (world (blast kernel fuel infd outfd s).1) = named (world s).
Proof.
  induction fuel as [|fuel IH]; intros s; [done|]. cbn [blast]. unfold mbind at 1, stm_bind at 1. unfold perform.
  pose proof (kernel_read_named infd BUFF_SIZE (world s)) as Hn.
  destruct (kernel _ (Read infd BUFF_SIZE) (world s)) as [w [e|[|x data]]]; cbn [fst] in Hn; [|done|].
  - unfold interrupted, gets, mbind, stm_bind. cbn. destruct (e =? EINTR); [by rewrite IH|done].
  - unfold mbind, stm_bind. pose proof (blast_write_named (S fuel) outfd (x :: data) 0 (mkIo (errno s) w)) as Hw.
    destruct (blast_write kernel (S fuel) outfd (x :: data) 0 (mkIo (errno s) w)) as [s2 [[]|e| |]]; cbn [fst world] in *;
      unfold mret, stm_ret; cbn [fst world]; rewrite ?IH; congruence.
Qed.
Section To.
Context (dest c : str).

(** What the caller of [copy] sees, descriptors aside: files that [dest] did not
    lead to are as before, and after success it leads to the contents [c]. *)
Definition copied_well (s s' : io W) (r : Z) : Prop :=
  (forall g x, files (see s) !! g = Some x -> named (world s) dest <> Some g -> files (see s') !! g = Some x) /\
  (r = -1 \/ r = 0 /\ exists fo, named (world s') dest = Some fo /\ files (see s') !! fo = Some c).

Definition finished (P : gmap Z (nat * nat) -> Prop) (s : io W) (out : io W * outcome Z) : Prop :=
  match out with (s', Ok r) => P (handles (see s')) /\ copied_well s s' r | _ => False end.

Lemma copied_well_failed s s' : files (see s) = files (see s') -> copied_well s s' (-1).
Proof. intros H. split; [intros g x; by rewrite H|by left]. Qed.

(** The descriptor of a scope is closed at its end. *)
Lemma with_fd_finished fd (m : M Z) (P : gmap Z (nat * nat) -> Prop) s0 s1 :
  finished (fun h => P (delete fd h)) s0 (m s1) -> finished P s0 (with_fd kernel fd m s1).
Proof.
  intros Hm. pose proof (with_fd_spec kernel fd m s1 (fun s3 o => finished P s0 (s3, o))) as Hw.
  destruct (with_fd kernel fd m s1) as [s3 o]. apply Hw; clear Hw; destruct (m s1) as [s2 [r|e| |]]; try done.
  intros s' <- e w Hv Hn Hp. cbn in *. rewrite Hv. cbn. destruct Hm as [Hh [Hf Hr]]. split; [done|]. split.
  - cbn. rewrite Hv. done.
  - cbn. rewrite Hv, Hn. done.
Qed.

Lemma close_state fd s : exists s' o, perform kernel (Close fd) s = (s', Ok o) /\
  see s' = mkView (delete fd (handles (see s))) (files (see s)) /\ named (world s') = named (world s).
Proof.
  unfold perform. destruct (kernel_close fd (world s)) as (Hv & Hn & _).
  destruct (kernel _ (Close fd) (world s)) as [w [e|u]]; cbn in *; eexists _, _; split_and!; done.
Qed.

Lemma unlink_state path s : exists s' r, unlinkat kernel AT_FDCWD path false s = (s', Ok r) /\
  handles (see s') = handles (see s) /\
  forall g x, files (see s) !! g = Some x -> named (world s) path <> Some g -> files (see s') !! g = Some x.
Proof.
  unfold unlinkat, rc_of, mbind, stm_bind, perform. destruct (kernel_unlink path (world s)) as (Hh & Hf).
  destruct (kernel _ (Unlinkat _ _ _) (world s)) as [w [e|u]]; cbn in *; eexists _, _; split_and!; done.
Qed.

(** ** The temporary file *)

(** A new file [f] at [path], open as [fd]. *)
Definition created (s : io W) (path : str) (fd : Z) (f : nat) (s' : io W) : Prop :=
  named (world s') path = Some f /\ files (see s) !! f = None /\ handles (see s) !! fd = None /\
  see s' = mkView (<[fd := (f, 0%nat)]> (handles (see s))) (<[f := []]> (files (see s))) /\
  (forall p g, named (world s) p = Some g -> named (world s') p = Some g) /\
  (forall p g, named (world s') p = Some g -> named (world s) p = Some g \/ g = f) /\
  (patience (world s') <= patience (world s))%nat.

Lemma openat_excl path flags mode s : O_EXCL ∈ flags -> O_CREAT ∈ flags ->
  match openat kernel AT_FDCWD path flags mode s with
  | (s', Ok (Some fd)) => named (world s) path = None /\ exists f, created s path fd f s'
  | (s', Ok None) => calm s s'
  | _ => False
  end.
Proof.
  intros H1 H2. unfold openat, perform. pose proof (kernel_open_excl path flags mode (world s) H1 H2) as Ho.
  destruct (kernel _ (Openat _ _ _ _) (world s)) as [w [e|fd]]; [done|]. destruct Ho as (f & ? & ? & ? & ? & ? & ? & ? & ?).
  split; [done|]. by exists f.
Qed.

Lemma created_calm s s1 path fd f s2 : calm s s1 -> created s1 path fd f s2 -> created s path fd f s2.
Proof. intros (Hv & Hn & Hp) (H1 & H2 & H3 & H4 & H5 & H6 & H7). rewrite Hv, Hn in *. split_and!; try done. lia. Qed.

Lemma unique_file_spec tries prefix n flags mode : forall s,
  match unique_file_loop kernel get_random_letter tries AT_FDCWD prefix n flags mode s with
  | (s', Ok (Some (fd, path))) => exists f, created s path fd f s'
  | (s', Ok None) => calm s s'
  | _ => False
  end.
Proof.
  induction tries as [|tries IH]; intros s; [done|]. cbn [unique_file_loop]. unfold mbind, stm_bind.
  destruct (random_letters_calm n s) as (l & s1 & -> & Hc).
  pose proof (openat_excl (prefix ++ l) (flags ++ [O_EXCL; O_CREAT]) mode s1 ltac:(set_solver) ltac:(set_solver)) as Ho.
  destruct (openat kernel _ _ _ _ s1) as [s2 [[fd|]|e| |]]; try done.
  - destruct Ho as (_ & f & Hf). exists f. by eapply created_calm.
  - assert (calm s s2) as Hc2 by (by eapply calm_trans). unfold get_errno, gets. cbn. destruct (errno s2 =? EEXIST); [|done].
    specialize (IH s2). destruct (unique_file_loop _ _ _ _ _ _ _ _ s2) as [s3 [[[fd path]|]|e| |]]; try done.
    + destruct IH as [f Hf]. exists f. by eapply created_calm.
    + by eapply calm_trans.
Qed.
Lemma openat_read path s f x : named (world s) path = Some f -> files (see s) !! f = Some x ->
  match openat kernel AT_FDCWD path [O_RDONLY; O_CLOEXEC] 0 s with
  | (s', Ok (Some fd)) => handles (see s) !! fd = None /\
      see s' = mkView (<[fd := (f, 0%nat)]> (handles (see s))) (files (see s)) /\
      named (world s') = named (world s) /\ (patience (world s') <= patience (world s))%nat
  | (s', Ok None) => calm s s'
  | _ => False
  end.
Proof.
  intros Hn Hf. unfold openat, perform. pose proof (kernel_open_read path (world s)) as Ho. pose proof (kernel_open_read_named path (world s)) as Hnn.
  destruct (kernel _ (Openat _ _ _ _) (world s)) as [w [e|fd]]; cbn in Hnn.
  - destruct Ho as (? & _ & ? & _). done.
  - destruct Ho as (f' & x' & Hf' & _ & Hfd & Hv & Hp). assert (f' = f) as -> by congruence. done.
Qed.

(** ** Copying into an open file *)

(** [blast] from the start of a file to an empty one. *)
Lemma blast_into fuel infd outfd fi fo s : infd <> outfd -> fi <> fo ->
  opened kernel s infd fi 0 c -> opened kernel s outfd fo 0 [] -> (patience (world s) + length c < fuel)%nat ->
  match blast kernel fuel infd outfd s with
  | (s', Ok r) => exists pos k, handles (see s') = <[infd := (fi, pos)]> (<[outfd := (fo, k)]> (handles (see s))) /\
      files (see s') = <[fo := take k c]> (files (see s)) /\ named (world s') = named (world s) /\
      (k <= length c)%nat /\ (r = -1 \/ r = 0 /\ k = length c)
  | _ => False
  end.
Proof.
  intros Hfd Hf Hi Ho Hfuel. pose proof (blast_spec kernel infd outfd fi fo Hfd Hf c fuel s 0 0 [] Hi Ho ltac:(done) ltac:(lia)) as Hb.
  pose proof (blast_named fuel infd outfd s) as Hn.
  destruct (blast kernel fuel infd outfd s) as [s' [r|e| |]]; try done. destruct Hb as (pos & k & _ & _ & Hc & Hr).
  rewrite drop_0 in Hc. exists pos, (length (take k c)). unfold copied in Hc. rewrite Hc. cbn [handles files].
  assert (forall d, overwrite [] 0 d = d) as Hov by (intros d; unfold overwrite; cbn; rewrite drop_nil; apply app_nil_r).
  rewrite Hov. split_and!; [done| |done|rewrite length_take; lia|].
  - f_equal. rewrite length_take. destruct (decide (k <= length c)%nat); [by rewrite Nat.min_l|]. rewrite Nat.min_r by lia. by rewrite !take_ge by lia.
  - rewrite length_take. destruct Hr as [[-> Hk]| ->]; [right|by left]. split; [done|]. lia.
Qed.

Lemma copyat_using_rename_spec fuel src mode fi s : named (world s) src = Some fi -> files (see s) !! fi = Some c ->
  (patience (world s) + length c < fuel)%nat ->
  finished (fun h => h = handles (see s)) s (copyat_using_rename kernel get_random_letter fuel AT_FDCWD src AT_FDCWD dest mode s).
Proof.
  intros Hsrc Hfi Hfuel. unfold copyat_using_rename. unfold mbind at 1, stm_bind at 1. pose proof (openat_read src s fi c Hsrc Hfi) as Ho.
  destruct (openat kernel AT_FDCWD src _ _ s) as [s1 [[src_fd|]|e| |]]; try done.
  2: { destruct Ho as (Hv & Hn & _). cbn. rewrite Hv. split; [done|]. apply copied_well_failed. by rewrite Hv. }
  destruct Ho as (Hfresh & Hv1 & Hn1 & Hp1). apply with_fd_finished. unfold mbind at 1, stm_bind at 1.
  pose proof (unique_file_spec (if decide (10%nat = 0%nat) then 1 else 256) (dest ++ ["."%char]) 10 [O_WRONLY; O_CLOEXEC] mode s1) as Hu.
  unfold create_unique_file. destruct (unique_file_loop _ _ _ _ _ _ _ _ s1) as [s2 [[[fd tmp]|]|e| |]]; try done.
  2: { destruct Hu as (Hv & Hn & _). cbn. rewrite Hv, Hv1. cbn. split; [by rewrite delete_insert_id|]. apply copied_well_failed. by rewrite Hv, Hv1. }
  destruct Hu as (f & Hnt & Hff & Hhf & Hv2 & Hmono & Honly & Hp2).
  assert (src_fd <> fd) as Hne by (intros ->; rewrite Hv1 in Hhf; cbn in Hhf; by rewrite lookup_insert_eq in Hhf).
  assert (fi <> f) as Hfne by (intros ->; rewrite Hv1 in Hff; cbn in Hff; congruence).
  assert (opened kernel s2 src_fd fi 0 c) as Hin.
  { unfold opened. rewrite Hv2, Hv1. cbn. rewrite lookup_insert_ne, lookup_insert_eq, lookup_insert_ne by done. done. }
  assert (opened kernel s2 fd f 0 []) as Hout by (unfold opened; rewrite Hv2; cbn; by rewrite !lookup_insert_eq).
  assert (forall g x, files (see s) !! g = Some x -> g <> f) as Hold by (intros g x Hg ->; rewrite Hv1 in Hff; cbn in Hff; congruence).
  unfold mbind at 1, stm_bind at 1. pose proof (blast_into fuel src_fd fd fi f s2 Hne Hfne Hin Hout ltac:(lia)) as Hb.
  destruct (blast kernel fuel src_fd fd s2) as [s3 [r|e| |]]; try done.
  destruct Hb as (pos & k & Hh3 & Hf3 & Hn3 & Hk & Hr).
  assert (delete src_fd (delete fd (handles (see s3))) = handles (see s)) as Hclosed.
  { rewrite Hv1 in Hhf. rewrite Hh3, Hv2, Hv1. cbn in *. apply map_eq. intros i.
    destruct (decide (fd = i)), (decide (src_fd = i)); subst; by simplify_map_eq. }
  assert (files (see s3) = <[f := take k c]> (files (see s))) as Hfs by (rewrite Hf3, Hv2, Hv1; cbn; by rewrite insert_insert_eq).
  assert (named (world s3) tmp = Some f) as Hnt3 by congruence.
  destruct (negb (r =? 0)) eqn:Hr0.
  - (* blast failed *)
    destruct (unlink_state tmp s3) as (s4 & r4 & E4 & Hh4 & Hf4). destruct (close_state fd s4) as (s5 & o5 & E5 & Hv5 & Hn5).
    unfold mbind, stm_bind. rewrite E4, E5. cbn. rewrite Hv5. cbn. split; [by rewrite Hh4|]. split; [|by left].
    intros g x Hg _. rewrite Hv5. cbn. apply Hf4; [|rewrite Hnt3; intros [= E]; by destruct (Hold g x Hg)].
    rewrite Hfs, lookup_insert_ne; [done|]. intros E. by destruct (Hold g x Hg).
  - destruct Hr as [-> | [-> Hkc]]; [done|].
    destruct (close_state fd s3) as (s4 & o4 & E4 & Hv4 & Hn4). unfold mbind at 1, stm_bind at 1. rewrite E4.
    unfold rc_of. unfold mbind, stm_bind, perform. pose proof (kernel_rename tmp dest (world s4)) as Hren.
    destruct (kernel _ (Renameat _ _ _ _) (world s4)) as [w [e|u]].
    + destruct Hren as [Hv5 Hn5]. cbn. destruct (unlink_state tmp (mkIo e w)) as (s6 & r6 & E6 & Hh6 & Hf6). rewrite E6. cbn.
      split; [rewrite Hh6; cbn; rewrite Hv5, Hv4; done|]. split; [|by left]. intros g x Hg _. apply Hf6.
      * cbn. rewrite Hv5, Hv4. cbn. rewrite Hfs, lookup_insert_ne; [done|]. intros E. by destruct (Hold g x Hg).
      * cbn. rewrite Hn5, Hn4, Hnt3. intros [= E]. by destruct (Hold g x Hg).
    + destruct Hren as (Hn5 & Hh5 & Hf5). cbn. split; [rewrite Hh5, Hv4; done|]. split.
      * intros g x Hg Hnd. cbn. apply Hf5; [rewrite Hv4; cbn; rewrite Hfs, lookup_insert_ne; [done|]; intros E; by destruct (Hold g x Hg)|].
        left. rewrite Hn4, Hn3. intros Hd. apply Honly in Hd as [Hd| ->]; [congruence|]. by destruct (Hold f x Hg).
      * right. split; [done|]. exists f. cbn. rewrite Hn5, Hn4, Hnt3. split; [done|]. apply Hf5; [|right; by rewrite Hn4, Hnt3].
        rewrite Hv4. cbn. rewrite Hfs, lookup_insert_eq. by rewrite Hkc, firstn_all.
Qed.

(** ** Copying over the destination *)

Lemma open_destination_spec mode s :
  match open_destination kernel AT_FDCWD dest mode s with
  | (s', Ok (Some out, _)) => exists f, handles (see s) !! out = None /\ named (world s') dest = Some f /\
      see s' = mkView (<[out := (f, 0%nat)]> (handles (see s))) (<[f := []]> (files (see s))) /\
      (forall g x, files (see s) !! g = Some x -> named (world s) dest <> Some g -> g <> f) /\
      (forall p g, named (world s) p = Some g -> named (world s') p = Some g) /\
      (patience (world s') <= patience (world s))%nat
  | (s', Ok (None, _)) => calm s s'
  | _ => False
  end.
Proof.
  unfold open_destination. unfold mbind at 1, stm_bind at 1.
  pose proof (openat_excl dest (COPY_FLAGS ++ [O_CREAT; O_EXCL]) mode s ltac:(set_solver) ltac:(set_solver)) as Ho.
  destruct (openat kernel _ _ _ mode s) as [s1 [[out|]|e| |]]; try done; unfold mbind at 1, stm_bind at 1, get_errno, gets.
  - destruct Ho as (_ & f & H1 & H2 & H3 & H4 & H5 & H6 & H7). cbn. exists f. split_and!; try done. intros g x Hg _ ->. congruence.
  - rewrite bool_decide_true by done. cbn [andb]. destruct (errno s1 =? EEXIST); [|done]. destruct Ho as (Hv & Hn & Hp).
    unfold mbind, stm_bind, openat, perform. pose proof (kernel_open_trunc dest (world s1)) as Ht.
    destruct (kernel _ (Openat _ _ _ _) (world s1)) as [w [e|out]]; cbn.
    + destruct Ht as (? & ? & ?). split_and!; cbn; [congruence|congruence|lia].
    + destruct Ht as (f & Hf & Hn2 & Hh & Hv2 & Hp2). rewrite Hv, Hn in *. exists f. rewrite Hn2. split_and!; try done; [congruence|lia].
Qed.

Lemma finish_overwriting_spec out f k x mode s : opened kernel s out f k x -> k = length x ->
  match finish_overwriting kernel out mode s with
  | (s', Ok r) => see s' = see s /\ named (world s') = named (world s) /\ (r = 0 \/ r = -1)
  | _ => False
  end.
Proof.
  intros Ho Hk. unfold finish_overwriting. unfold mbind at 1, stm_bind at 1.
  pose proof (perform_lseek kernel s out 0 SEEK_CUR f k x Ho) as Hl.
  pose proof (kernel_lseek_named out 0 SEEK_CUR (world s)) as Hn. unfold perform in *.
  destruct (kernel _ (Lseek out 0 SEEK_CUR) (world s)) as [w [e|pos]]; cbn [fst] in Hn.
  { destruct Hl as [Ha _]. destruct Ho as [Hh _]. cbn. unfold advanced in Ha. cbn in Ha. rewrite Ha, insert_id by done.
    split_and!; [by destruct (see s)|done|by right]. }
  destruct Hl as (Hpos & Hpos' & Ha & _). set (s1 := mkIo (errno s) w).
  assert (see s1 = see s) as Hv1.
  { unfold advanced in Ha. unfold s1. rewrite Ha. destruct Ho as [Hh _]. replace (Z.to_nat pos) with k by lia. rewrite insert_id by done. by destruct (see s). }
  unfold rc_of, mbind, stm_bind, perform. destruct Ho as [Hh Hf].
  pose proof (kernel_ftruncate out pos w f k x Hpos ltac:(by change w with (world s1); rewrite Hv1) ltac:(by change w with (world s1); rewrite Hv1)) as Ht.
  change (world s1) with w. destruct (kernel _ (Ftruncate out pos) w) as [w2 [e|u]].
  { destruct Ht as [Hv2 Hn2]. cbn. split_and!; [by rewrite Hv2|congruence|by right]. }
  destruct Ht as [Hv2 Hn2]. assert (view_of w2 = see s) as Hv2'.
  { rewrite Hv2. change (view_of w) with (see s1). rewrite Hv1. replace (Z.to_nat pos) with (length x) by lia.
    rewrite resize_all, insert_id by done. by destruct (see s). }
  cbn. destruct (kernel_fchmod out mode w2) as [Hv3 Hn3].
  destruct (kernel _ (Fchmod out mode) w2) as [w3 [e|u']]; cbn in *; (split_and!; [congruence|congruence|auto]).
Qed.

Lemma copyat_mode_spec fuel src mode fi s : named (world s) src = Some fi -> files (see s) !! fi = Some c ->
  named (world s) dest <> Some fi -> (patience (world s) + length c < fuel)%nat ->
  finished (fun h => h = handles (see s)) s (copyat_mode kernel get_random_letter fuel AT_FDCWD src AT_FDCWD dest mode s).
Proof.
  intros Hsrc Hfi Hne Hfuel. unfold copyat_mode. unfold mbind at 1, stm_bind at 1. pose proof (open_destination_spec mode s) as Ho.
  destruct (open_destination kernel AT_FDCWD dest mode s) as [s1 [[[out|] created_]|e| |]]; try done.
  2: { destruct Ho as (Hv & Hn & Hp). unfold mbind, stm_bind, get_errno, gets. destruct (negb (errno s1 =? ETXTBSY)).
    - cbn. rewrite Hv. split; [done|]. apply copied_well_failed. by rewrite Hv.
    - pose proof (copyat_using_rename_spec fuel src mode fi s1 ltac:(congruence) ltac:(congruence) ltac:(lia)) as Hr.
      unfold finished, copied_well in *. rewrite Hv, Hn in Hr. done. }
  destruct Ho as (f & Hfresh & Hnd & Hv1 & Hold & Hmono & Hp1). apply with_fd_finished.
  assert (fi <> f) as Hfne by (by eapply Hold).
  assert (files (see s1) !! fi = Some c) as Hfi1 by (rewrite Hv1; cbn; by rewrite lookup_insert_ne).
  assert (forall s' r, files (see s') = <[f := r]> (files (see s)) -> copied_well s s' (-1)) as Hfail.
  { intros s' r Hf'. split; [|by left]. intros g x Hg Hgd. rewrite Hf', lookup_insert_ne; [done|]. intros E. by destruct (Hold g x Hg Hgd). }
  unfold mbind at 1, stm_bind at 1. pose proof (openat_read src s1 fi c (Hmono _ _ Hsrc) Hfi1) as Hi.
  destruct (openat kernel AT_FDCWD src _ 0 s1) as [s2 [[in_|]|e| |]]; try done.
  2: { destruct Hi as (Hv & Hn & _). cbn. rewrite Hv, Hv1. cbn. split; [by rewrite delete_insert_id|]. eapply Hfail. by rewrite Hv, Hv1. }
  destruct Hi as (Hfresh2 & Hv2 & Hn2 & Hp2).
  assert (in_ <> out) as Hfd by (intros ->; rewrite Hv1 in Hfresh2; cbn in Hfresh2; by rewrite lookup_insert_eq in Hfresh2).
  apply with_fd_finished.
  assert (opened kernel s2 in_ fi 0 c) as Hin by (unfold opened; rewrite Hv2; cbn; by rewrite lookup_insert_eq).
  assert (opened kernel s2 out f 0 []) as Hout.
  { unfold opened. rewrite Hv2, Hv1. cbn. rewrite lookup_insert_ne, !lookup_insert_eq by done. done. }
  unfold mbind at 1, stm_bind at 1. pose proof (blast_into fuel in_ out fi f s2 Hfd Hfne Hin Hout ltac:(lia)) as Hb.
  destruct (blast kernel fuel in_ out s2) as [s3 [r|e| |]]; try done. destruct Hb as (pos & k & Hh3 & Hf3 & Hn3 & Hk & Hr).
  assert (delete out (delete in_ (handles (see s3))) = handles (see s)) as Hclosed.
  { rewrite Hv1 in Hfresh2. rewrite Hh3, Hv2, Hv1. cbn in *. apply map_eq. intros i.
    destruct (decide (out = i)), (decide (in_ = i)); subst; by simplify_map_eq. }
  assert (files (see s3) = <[f := take k c]> (files (see s))) as Hfs by (rewrite Hf3, Hv2, Hv1; cbn; by rewrite insert_insert_eq).
  destruct (negb (r =? 0)) eqn:Hr0; [by cbn; split; [|eapply Hfail]|]. destruct Hr as [-> | [-> Hkc]]; [done|].
  assert (files (see s3) !! f = Some c) as Hfc by (rewrite Hfs, lookup_insert_eq, Hkc; by rewrite firstn_all).
  assert (forall s', see s' = see s3 -> named (world s') = named (world s3) -> copied_well s s' 0) as Hdone.
  { intros s' Hv' Hn'. split.
    - intros g x Hg Hgd. rewrite Hv', Hfs, lookup_insert_ne; [done|]. intros E. by destruct (Hold g x Hg Hgd).
    - right. split; [done|]. exists f. rewrite Hv', Hn', Hn3, Hn2. done. }
  destruct created_; [cbn; by split; [|apply Hdone]|].
  assert (opened kernel s3 out f k c) as Ho3.
  { split; [|done]. rewrite Hh3. by simplify_map_eq. }
  pose proof (finish_overwriting_spec out f k c mode s3 Ho3 Hkc) as Hfin.
  destruct (finish_overwriting kernel out mode s3) as [s4 [r|e| |]]; try done. destruct Hfin as (Hv4 & Hn4 & [-> | ->]).
  - cbn. rewrite Hv4. by split; [|apply Hdone].
  - cbn. rewrite Hv4. split; [done|]. eapply Hfail. by rewrite Hv4.
Qed.

End To.

End Copy.

#[export] Program Instance memory_copy_kernel : CopyKernel memory_kernel.
Next Obligation.
  intros path flags mode w Hx Hc. cbn. destruct (mf_names w !! path) as [f|] eqn:Hn; [by rewrite decide_True|]. rewrite decide_True by done.
  cbn. exists (fresh (dom (files (mf_view w)))). rewrite lookup_insert_eq. split_and!; try done.
  - apply not_elem_of_dom, is_fresh.
  - apply not_elem_of_dom, is_fresh.
  - intros p g Hp. rewrite lookup_insert_ne; [done|congruence].
  - intros p g Hp. destruct (decide (path = p)) as [->|Hne]; [rewrite lookup_insert_eq in Hp; right; congruence|].
    rewrite lookup_insert_ne in Hp by done. by left.
Qed.
Next Obligation.
  intros path w. cbn. destruct (mf_names w !! path) as [f|] eqn:Hn; [|done]. destruct (files (mf_view w) !! f) as [x|]; [|done]. cbn.
  exists f. split_and!; try done; [by rewrite (insert_id (mf_names w) path f Hn)|apply not_elem_of_dom, is_fresh].
Qed.
Next Obligation.
  intros path w. cbn. destruct (mf_names w !! path) as [f|] eqn:Hn; [|done]. destruct (files (mf_view w) !! f); destruct (decide _); try done.
  cbn. by rewrite (insert_id (mf_names w) path f Hn).
Qed.
Next Obligation.
  intros fd n w. cbn. unfold unless_interrupted, with_handle. destruct (mf_signals w); [|done].
  destruct (handles (mf_view w) !! fd) as [[f offset]|]; [|done]. by destruct (files (mf_view w) !! f).
Qed.
Next Obligation.
  intros fd n from w. cbn. unfold with_handle.
  destruct (handles (mf_view w) !! fd) as [[f offset]|]; [|done]. destruct (files (mf_view w) !! f); [|done]. by destruct (_ <? 0).
Qed.
Next Obligation. intros fd n w f offset c Hn Hh Hf. cbn in *. unfold with_handle. by rewrite Hh, Hf. Qed.
Next Obligation. done. Qed.
Next Obligation.
  intros fd mode w. cbn. unfold with_handle.
  destruct (handles (mf_view w) !! fd) as [[f offset]|]; [|done]. by destruct (files (mf_view w) !! f).
Qed.
Next Obligation. done. Qed.
Next Obligation.
  intros old new w. cbn. destruct (mf_names w !! old) as [f|] eqn:Hn; [|done]. cbn. rewrite lookup_insert_eq. done.
Qed.

(** ** The property *)

(** C24: [copy] between two different files, however the kernel splits and
    interrupts the transfers: it returns and leaves the same descriptors open;
    every file the destination did not lead to (the source among them) is as
    before; and when it returns 0 the destination leads to a file with the
    contents of the source, whether it was created, overwritten, or replaced by
    a temporary file because it is being executed. *)
Theorem copy_copies {W : Type} (kernel : forall A, fsys A -> W -> W * A) `{!FileKernel kernel} `{!NamedFiles kernel}
    `{!CopyKernel kernel} (get_random_letter : stm (io W) ascii) fuel src dest fi c s :
  (forall s, exists c e w, get_random_letter s = (mkIo e w, Ok c) /\ view_of w = view_of (world s) /\
    named w = named (world s) /\ (patience w <= patience (world s))%nat) ->
  named (world s) src = Some fi -> files (view_of (world s)) !! fi = Some c -> named (world s) dest <> Some fi ->
  (patience (world s) + length c < fuel)%nat ->
  exists s' r, copyat kernel get_random_letter fuel AT_FDCWD src AT_FDCWD dest s = (s', Ok r) /\
    handles (view_of (world s')) = handles (view_of (world s)) /\
    (forall g x, files (view_of (world s)) !! g = Some x -> named (world s) dest <> Some g ->
      files (view_of (world s')) !! g = Some x) /\
    (r = -1 \/ r = 0 /\ exists fo, named (world s') dest = Some fo /\ files (view_of (world s')) !! fo = Some c).
Proof.
  intros Hrnd Hsrc Hfi Hne Hfuel. unfold copyat, mbind, stm_bind, perform. destruct (kernel_fstatat src (world s)) as (Hv & Hn & Hp).
  destruct (kernel _ (Fstatat AT_FDCWD src) (world s)) as [w [e|mode]]; cbn [fst] in *.
  { eexists _, _. split; [done|]. cbn. rewrite Hv. auto. }
  pose proof (copyat_mode_spec kernel get_random_letter Hrnd dest c fuel src mode fi (mkIo (errno s) w)
    ltac:(cbn; congruence) ltac:(cbn; congruence) ltac:(cbn; congruence) ltac:(cbn; lia)) as Hc.
  unfold finished, copied_well in Hc. destruct (copyat_mode _ _ _ _ _ _ _ _ _) as [s' [r|e| |]]; try done.
  cbn in Hc. rewrite Hv, Hn in Hc. destruct Hc as (Hh & Hf & Hr). by exists s', r.
Qed.

(** The letter [a], always. *)
Definition letter_a : stm (io memory_files) ascii := mret "a"%char.

Lemma copy_copies_witness :
  let s := mkIo 0 two_files in
  match copyat memory_kernel letter_a 20 AT_FDCWD (lit "in") AT_FDCWD (lit "out") s with
  | (s', Ok r) => bool_decide (r = 0 /\ files (mf_view (world s')) !! 1%nat = Some (lit "0123456789"))
  | _ => false
  end = true /\
  exists s' r, copyat memory_kernel letter_a 20 AT_FDCWD (lit "in") AT_FDCWD (lit "out") s = (s', Ok r) /\
    handles (view_of (world s')) = handles (view_of (world s)).
Proof.
  intros s. split; [vm_compute; reflexivity|].
  assert (2 + length (lit "0123456789") < 20)%nat as Hfuel by (vm_compute; lia).
  destruct (copy_copies memory_kernel letter_a 20 (lit "in") (lit "out") 0 (lit "0123456789") s) as (s' & r & H & Hh & _).
  - intros s0. exists "a"%char, (errno s0), (world s0). split_and!; try done. by destruct s0.
  - vm_compute. reflexivity.
  - vm_compute. reflexivity.
  - vm_compute. discriminate.
  - exact Hfuel.
  - exists s', r. split; assumption.
Defined.

(** The destination is truncated before the source is read: copying a file to
    itself empties it and reports success. *)
Theorem copy_onto_itself_empties :
  match copyat memory_kernel letter_a 20 AT_FDCWD (lit "in") AT_FDCWD (lit "in") (mkIo 0 two_files) with
  | (s', Ok r) => bool_decide (r = 0 /\ files (mf_view (world s')) !! 0%nat = Some [])
  | _ => false
  end = true.
Proof. vm_compute. reflexivity. Qed.

(** Random bytes one at a time. *)
Definition slow_random (A : Type) (c : fsys A) (w : memory_files) : memory_files * A :=
  match c in fsys A return memory_files * A with
  | Random _ => (w, inr ["r"%char])
  | c => memory_kernel _ c w
  end.

(** When [getrandom] gives fewer bytes than asked for, [fill_randomly] writes
    the next ones to the beginning again and leaves the end as it was. *)
Theorem fill_randomly_leaves_end :
  (fill_randomly slow_random 10 [None; None; None] 3 (mkIo 0 two_files)).2 = Ok [Some "r"%char; None; None].
Proof. vm_compute. reflexivity. Qed.
