(* ===== verification/Zip.v ===== *)
(** * Zip archives

    [libzip.hh]: the classes [ZipEntry], [ZipSource] and [ZipFile] over libzip,
    which answers requests and is a parameter.  A [zip_t*], [zip_file_t*] or
    [zip_source_t*] is a number; the texts of exceptions come without what libzip
    says about the error. *)

From Stdlib Require Import ZArith Lia Ascii.
From S2P Require Import Prelude.
From S2P Require Import StringView.
From S2P Require Import StringTraits.
From S2P Require Import FileIo.
From S2P Require Import FileManip.
Local Open Scope Z_scope.

Definition ZIP_ER_NOENT : Z := 9.
Definition ZIP_OPSYS_UNIX : Z := 3.
Definition ZIP_CM_DEFLATE : Z := 8.
Definition S_IFREG : Z := 32768.
Definition S_IFDIR : Z := 16384.
Definition S_0644 : Z := 420.
Definition ALLPERMS : Z := 4095.
Definition default_mode : Z := Z.lor S_IFREG S_0644.

(** Conversions to [zip_uint32_t] and [zip_uint16_t]. *)
Definition uint32 (z : Z) : Z := z mod 2 ^ 32.
Definition uint16 (z : Z) : Z := z mod 2 ^ 16.

(** Requests; [bool] answers are "no failure", [None] a null pointer, -1 or an
    error.  [NameLocate] fails with the code of the error.  Attributes are the
    operating system and the external attributes. *)
Inductive zsys : Type -> Type :=
| ZipOpen (file : str) (flags : Z) : zsys (option Z)
| ZipClose (zip : Z) : zsys bool
| ZipDiscard (zip : Z) : zsys unit
| NameLocate (zip : Z) (name : str) : zsys (Z + Z)
| FopenIndex (zip index flags : Z) : zsys (option Z)
| Fread (zfile nbytes : Z) : zsys (option str)
| Fclose (zfile : Z) : zsys bool
| NumEntries (zip flags : Z) : zsys Z
| StatSize (zip index : Z) : zsys (option Z)
| GetName (zip index flags : Z) : zsys (option str)
| GetAttributes (zip index : Z) : zsys (option (Z * Z))
| SetAttributes (zip index opsys attrs : Z) : zsys bool
| DirAdd (zip : Z) (name : str) (flags : Z) : zsys (option Z)
| SourceBuffer (zip : Z) (data : str) : zsys (option Z)
| SourceFile (zip : Z) (fname : str) (start len : Z) : zsys (option Z)
| SourceZip (zip src_zip srcidx flags start len : Z) : zsys (option Z)
| SourceFree (source : Z) : zsys unit
| Lstat (fname : str) : zsys (option Z)
| FileAdd (zip : Z) (name : str) (source : option Z) (flags : Z) : zsys (option Z)
| FileReplace (zip index : Z) (source : option Z) (flags : Z) : zsys bool
| SetCompression (zip index method flags : Z) : zsys bool
| FileRename (zip index : Z) (name : str) (flags : Z) : zsys bool
| ZipDelete (zip index : Z) : zsys bool
| Unchange (zip index : Z) : zsys bool
| UnchangeAll (zip : Z) : zsys bool
| UnchangeArchive (zip : Z) : zsys bool.

Record ZipSource := mkZipSource { zsource_ : option Z; opsys_ : Z; external_attributes_ : Z }.

(** ** The attributes of a source *)

Definition set_file_mode (mode : Z) (s : ZipSource) : ZipSource :=
  mkZipSource (zsource_ s) ZIP_OPSYS_UNIX (uint32 (Z.shiftl mode 16)).

Definition set_file_permissions (permissions : Z) (s : ZipSource) : ZipSource :=
  let attrs := if negb (opsys_ s =? ZIP_OPSYS_UNIX) then uint32 (Z.shiftl default_mode 16) else external_attributes_ s in
  let attrs := Z.land attrs (uint32 (Z.lnot (Z.shiftl ALLPERMS 16))) in
  mkZipSource (zsource_ s) ZIP_OPSYS_UNIX (Z.lor attrs (uint32 (Z.shiftl (Z.land permissions ALLPERMS) 16))).

Definition get_file_mode (s : ZipSource) : option Z :=
  if negb (opsys_ s =? ZIP_OPSYS_UNIX) then None else Some (Z.shiftr (external_attributes_ s) 16).

Definition get_file_permissions (s : ZipSource) : option Z :=
  if negb (opsys_ s =? ZIP_OPSYS_UNIX) then None else Some (Z.land (Z.shiftr (external_attributes_ s) 16) ALLPERMS).

(** A source as its constructors start. *)
Definition initial_source (zsource : option Z) : ZipSource := mkZipSource zsource ZIP_OPSYS_UNIX (uint32 (Z.shiftl default_mode 16)).

Section Zip.
Context {W : Type}.
Variable kernel : forall A, fsys A -> W -> W * A.
Variable libzip : forall A, zsys A -> W -> W * A.
Arguments libzip {A}.

Abbreviation M := (stm (io W)).

Definition zip_call {A} (c : zsys A) : M A := fun s =>
  let (w, a) := libzip c (world s) in (mkIo (errno s) w, Ok a).

Definition or_throw {A} (what : str) (c : zsys (option A)) : M A :=
  r ← zip_call c; match r with Some a => mret a | None => throw_error what end.
Definition check (what : str) (c : zsys bool) : M unit :=
  ok ← zip_call c; if (ok : bool) then mret tt else throw_error what.

(** ** ZipEntry *)

Definition read (zfile nbytes : Z) : M str := or_throw (lit "zip_fread() - ") (Fread zfile nbytes).

(** [zfile_] is null afterwards, also when an exception is thrown. *)
Definition close_entry (zfile : option Z) : M unit :=
  match zfile with None => mret tt | Some f => check (lit "zip_fclose() - ") (Fclose f) end.

(** The destructor of the entry runs when [m] is left. *)
Definition with_entry {A} (zfile : Z) (m : M A) : M A := fun s =>
  match m s with
  | (s1, UB) => (s1, UB)
  | (s1, NoFuel) => (s1, NoFuel)
  | (s1, r) => let (s2, _) := zip_call (Fclose zfile) s1 in (s2, r)
  end.

(** ** ZipSource *)

(** Left by an exception, a constructor does not run the destructor. *)
Definition new_source_buffer (zip : Z) (data : str) : M ZipSource :=
  r ← or_throw (lit "zip_source_buffer() - ") (SourceBuffer zip data); mret (initial_source (Some r)).

Definition new_source_file (zip : Z) (fname : str) (start len : Z) : M ZipSource :=
  r ← zip_call (SourceFile zip fname start len);
  mode ← or_throw (lit "lstat()") (Lstat fname);
  let source := set_file_permissions mode (initial_source r) in
  match r with Some _ => mret source | None => throw_error (lit "zip_source_file() - ") end.

Definition new_source_zip (zip src_zip srcidx flags start len : Z) : M ZipSource :=
  r ← zip_call (SourceZip zip src_zip srcidx flags start len);
  '(opsys, attrs) ← or_throw (lit "zip_file_get_external_attributes() - ") (GetAttributes src_zip srcidx);
  match r with Some _ => mret (mkZipSource r opsys attrs) | None => throw_error (lit "zip_source_zip() - ") end.

Definition free (s : ZipSource) : M ZipSource :=
  match zsource_ s with
  | Some h => _ ← zip_call (SourceFree h); mret (mkZipSource None (opsys_ s) (external_attributes_ s))
  | None => mret s
  end.

(** The moved object and what is left of the other one: the attributes are not
    moved. *)
Definition move_source (zs : ZipSource) : ZipSource * ZipSource :=
  (initial_source (zsource_ zs), mkZipSource None (opsys_ zs) (external_attributes_ zs)).

Definition assign_source (this zs : ZipSource) : M (ZipSource * ZipSource) :=
  this ← free this;
  mret (mkZipSource (zsource_ zs) (opsys_ this) (external_attributes_ this),
        mkZipSource None (opsys_ zs) (external_attributes_ zs)).

(** ** ZipFile *)

Definition new_zip_file (file : str) (flags : Z) : M Z := or_throw (lit "zip_open() - ") (ZipOpen file flags).

Definition get_index (zip : Z) (fname : str) : M Z :=
  r ← zip_call (NameLocate zip fname);
  match r with
  | inr index => mret index
  | inl code => if code =? ZIP_ER_NOENT then mret (-1) else throw_error (lit "zip_name_locate() - ")
  end.

Definition has_entry (zip : Z) (fname : str) : M bool := i ← get_index zip fname; mret (negb (i =? -1)).

Definition get_entry (zip index flags : Z) : M Z := or_throw (lit "zip_fopen_index() - ") (FopenIndex zip index flags).

Definition entries_no (zip flags : Z) : M Z := zip_call (NumEntries zip flags).

Definition get_name (zip index flags : Z) : M str := or_throw (lit "zip_get_name() - ") (GetName zip index flags).

(** The parameter is a [zip_uint16_t]. *)
Definition entry_size (zip index : Z) : M Z := or_throw (lit "zip_stat_index() - ") (StatSize zip (uint16 index)).

(** [res] is the part of the string that has been read; more than asked for
    would be written past its end. *)
Fixpoint read_loop (fuel : nat) (zfile size : Z) (res : str) : M str :=
  match fuel with
  | O => lift NoFuel
  | S fuel' =>
      if len res <? size then
        data ← read zfile (size - len res);
        if size - len res <? len data then lift UB else read_loop fuel' zfile size (res ++ data)
      else mret res
  end.

Definition extract_to_str (fuel : nat) (zip index : Z) : M str :=
  size ← entry_size zip index;
  entry ← get_entry zip index 0;
  with_entry entry (read_loop fuel entry size []).

Fixpoint copy_loop (fuel : nat) (zfile fd : Z) : M unit :=
  match fuel with
  | O => lift NoFuel
  | S fuel' =>
      buff ← read zfile BUFF_SIZE;
      match buff with
      | [] => mret tt
      | _ => _ ← write_all_throw kernel fuel fd buff; copy_loop fuel' zfile fd
      end
  end.

Definition extract_to_fd (fuel : nat) (zip index fd : Z) : M unit :=
  entry ← get_entry zip index 0; with_entry entry (copy_loop fuel entry fd).

Definition extraction_mode (zip index : Z) (permissions : option Z) : M Z :=
  match permissions with
  | Some p => mret p
  | None =>
      '(opsys, attrs) ← or_throw (lit "zip_file_get_external_attributes() - ") (GetAttributes zip index);
      mret (if negb (opsys =? ZIP_OPSYS_UNIX) then S_0644 else Z.shiftr attrs 16)
  end.

Definition extract_to_file (fuel : nat) (zip index : Z) (fpath : str) (permissions : option Z) : M unit :=
  mode ← extraction_mode zip index permissions;
  fd ← perform kernel (Openat AT_FDCWD fpath [O_WRONLY; O_CREAT; O_TRUNC; O_CLOEXEC] mode);
  match fd with
  | None => throw_error (lit "open()")
  | Some fd => with_fd kernel fd (extract_to_fd fuel zip index fd)
  end.

Definition dir_add (zip : Z) (name : str) (flags permissions : Z) : M Z :=
  idx ← or_throw (lit "zip_dir_add() - ") (DirAdd zip name flags);
  _ ← check (lit "zip_file_set_external_attributes() - ")
    (SetAttributes zip idx ZIP_OPSYS_UNIX (uint32 (Z.shiftl (Z.lor S_IFDIR (Z.land permissions ALLPERMS)) 16)));
  mret idx.

Definition file_set_compression (zip index method flags : Z) : M unit :=
  check (lit "zip_set_file_compression() - ") (SetCompression zip index method flags).

(** The source given by reference may lose its [zsource_], also when an
    exception is thrown: the variables are in the state. *)
Record adding := mkAdding { a_io : io W; a_source : ZipSource }.
Abbreviation AM := (stm adding).

Definition on_io {A} (m : M A) : AM A := fun s => let (i, r) := m (a_io s) in (mkAdding i (a_source s), r).
Definition set_zsource (h : option Z) : AM unit :=
  modify (fun s => mkAdding (a_io s) (mkZipSource h (opsys_ (a_source s)) (external_attributes_ (a_source s)))).

(** [CallInDtor] that is cancelled at the end. *)
Definition unless_completed {A} (m : AM A) (guard : AM unit) : AM A := fun s =>
  match m s with
  | (s1, Throw e) => let (s2, _) := guard s1 in (s2, Throw e)
  | out => out
  end.

Definition file_add (zip : Z) (name : str) (flags compression_level : Z) : AM Z :=
  source ← gets a_source;
  if has_suffix name (lit "/") then
    if opsys_ source =? ZIP_OPSYS_UNIX then on_io (dir_add zip name flags (Z.shiftr (external_attributes_ source) 16))
    else on_io (dir_add zip name flags S_0755)
  else
    idx ← on_io (or_throw (lit "zip_file_add() - ") (FileAdd zip name (zsource_ source) flags));
    unless_completed
      (_ ← on_io (check (lit "zip_file_set_external_attributes() - ")
          (SetAttributes zip idx (opsys_ source) (external_attributes_ source)));
       _ ← set_zsource None;
       _ ← when (0 <? compression_level) (on_io (file_set_compression zip idx ZIP_CM_DEFLATE compression_level));
       mret idx)
      (on_io (_ ← zip_call (ZipDelete zip idx); mret tt)).

Definition file_replace (zip index flags compression_level : Z) : AM unit :=
  source ← gets a_source;
  _ ← on_io (check (lit "zip_file_replace() - ") (FileReplace zip index (zsource_ source) flags));
  _ ← on_io (check (lit "zip_file_set_external_attributes() - ")
      (SetAttributes zip index (opsys_ source) (external_attributes_ source)));
  _ ← set_zsource None;
  when (0 <? compression_level) (on_io (file_set_compression zip index ZIP_CM_DEFLATE compression_level)).

(** A call with a source of its own, which is destroyed at the end. *)
Definition run_adding {A} (m : AM A) (source : ZipSource) : M A := fun s =>
  match m (mkAdding s source) with
  | (s1, UB) => (a_io s1, UB)
  | (s1, NoFuel) => (a_io s1, NoFuel)
  | (s1, r) => let (s2, _) := free (a_source s1) (a_io s1) in (s2, r)
  end.

Definition with_source {A} (make : M ZipSource) (m : AM A) : M A := source ← make; run_adding m source.

Definition file_rename (zip index : Z) (name : str) (flags : Z) : M unit :=
  check (lit "zip_file_rename() - ") (FileRename zip index name flags).
Definition file_delete (zip index : Z) : M unit := check (lit "zip_delete() - ") (ZipDelete zip index).
Definition file_unchange (zip index : Z) : M unit := check (lit "zip_unchange() - ") (Unchange zip index).
Definition unchange_all (zip : Z) : M unit := check (lit "zip_unchange_all() - ") (UnchangeAll zip).
Definition unchange_archive (zip : Z) : M unit := check (lit "zip_unchange_archive() - ") (UnchangeArchive zip).

(** [close] keeps [zip_] when it throws; [discard] and the destructor. *)
Definition close_zip (zip : Z) : M unit := check (lit "zip_close() - ") (ZipClose zip).
Definition discard (zip : option Z) : M unit :=
  match zip with Some z => zip_call (ZipDiscard z) | None => mret tt end.

(** The new values of the two objects. *)
Definition assign_zip (this zf : option Z) : M (option Z * option Z) := _ ← discard this; mret (zf, None).

End Zip.
