(* ===== verification/ZipProofs.v ===== *)
(** * Extracting from archives

    What the functions of [Zip.v] extract, on a library that gives an entry's
    contents in pieces as [zip_fread] is documented to; the attributes of
    sources. *)

From Stdlib Require Import ZArith Lia Ascii.
From S2P Require Import Prelude.
From S2P Require Import StringView.
From S2P Require Import FileIo.
From S2P Require Import FileIoProofs.
From S2P Require Import FileManip.
From S2P Require Import Zip.
Local Open Scope Z_scope.

(** The requests that extracting makes. *)
Definition extracting {A} (c : zsys A) : bool :=
  match c with FopenIndex _ _ _ | Fread _ _ | Fclose _ | StatSize _ _ | GetAttributes _ _ => true | _ => false end.

(** [entry w zip index]: the contents of an entry; [reading w]: what the open
    entries will still give. *)
Class ZipLibrary {W : Type} (kernel : forall A, fsys A -> W -> W * A) `{!FileKernel kernel} `{!NamedFiles kernel}
    (libzip : forall A, zsys A -> W -> W * A) := {
  entry : W -> Z -> Z -> option str;
  reading : W -> gmap Z str;
  zip_files : forall A (c : zsys A) w, extracting c = true ->
    let w' := (libzip A c w).1 in view_of w' = view_of w /\ named w' = named w /\ (patience w' <= patience w)%nat /\ entry w' = entry w;
  files_zip : forall A (c : fsys A) w, let w' := (kernel A c w).1 in entry w' = entry w /\ reading w' = reading w;
  zip_stat_size : forall zip index w,
    match libzip _ (StatSize zip index) w with
    | (w', r) => reading w' = reading w /\ match r with Some n => exists c, entry w zip index = Some c /\ n = len c | None => True end
    end;
  zip_attributes : forall zip index w, reading (libzip _ (GetAttributes zip index) w).1 = reading w;
  zip_fopen : forall zip index flags w,
    match libzip _ (FopenIndex zip index flags) w with
    | (w', Some f) => exists c, entry w zip index = Some c /\ reading w !! f = None /\ reading w' = <[f := c]> (reading w)
    | (w', None) => reading w' = reading w
    end;
  zip_fread : forall f n c w, 0 < n -> reading w !! f = Some c ->
    match libzip _ (Fread f n) w with
    | (w', Some data) => data `prefix_of` c /\ len data <= n /\ (data = [] -> c = []) /\
        reading w' = <[f := drop (length data) c]> (reading w)
    | (w', None) => reading w' = reading w
    end;
  zip_fclose : forall f w, reading (libzip _ (Fclose f) w).1 = delete f (reading w)
}.

Section Extract.
Context {W : Type} (kernel : forall A, fsys A -> W -> W * A) `{!FileKernel kernel} `{!NamedFiles kernel}
  (libzip : forall A, zsys A -> W -> W * A) `{!ZipLibrary kernel libzip}.
Abbreviation M := (stm (io W)).

(** Nothing but what is open in the archive has changed. *)
Definition same_files (s s' : io W) : Prop :=
  view_of (world s') = view_of (world s) /\ named (world s') = named (world s) /\
  (patience (world s') <= patience (world s))%nat /\ entry (world s') = entry (world s).

Lemma same_files_refl s : same_files s s.
Proof. done. Qed.

Lemma same_files_trans s1 s2 s3 : same_files s1 s2 -> same_files s2 s3 -> same_files s1 s3.
Proof. intros (? & ? & ? & ?) (? & ? & ? & ?). split_and!; [congruence|congruence|lia|congruence]. Qed.

(** One request. *)
Lemma zip_call_spec {A} (c : zsys A) s : extracting c = true ->
  exists w a, libzip A c (world s) = (w, a) /\ zip_call libzip c s = (mkIo (errno s) w, Ok a) /\ same_files s (mkIo (errno s) w).
Proof.
  intros Hc. pose proof (zip_files A c (world s) Hc) as Hf. unfold zip_call. destruct (libzip A c (world s)) as [w a]. eexists _, _. split_and!; try done; apply Hf.
Qed.

Lemma read_spec f n c s : 0 < n -> reading (world s) !! f = Some c ->
  match read libzip f n s with
  | (s', Ok data) => same_files s s' /\ (exists rest, c = data ++ rest /\ reading (world s') = <[f := rest]> (reading (world s))) /\
      len data <= n /\ (data = [] -> c = [])
  | (s', Throw _) => same_files s s' /\ reading (world s') = reading (world s)
  | _ => False
  end.
Proof.
  intros Hn Hf. destruct (zip_call_spec (Fread f n) s eq_refl) as (w & r & Hl & Hz & Hs).
  pose proof (zip_fread f n c (world s) Hn Hf) as Hr. rewrite Hl in Hr. unfold read, or_throw, mbind, stm_bind. rewrite Hz.
  destruct r as [data|]; [|done]. destruct Hr as ((rest & ->) & Hlen & Hnil & Hrd). cbn. split_and!; [done| |done|done].
  exists rest. split; [done|]. by rewrite Hrd, drop_app_length.
Qed.

(** The entry is closed when its scope is left. *)
Lemma with_entry_spec {A} f (m : M A) s (Q : io W -> outcome A -> Prop) :
  (match m s with (_, UB) | (_, NoFuel) => False | _ => True end) ->
  (forall s', same_files (m s).1 s' -> reading (world s') = delete f (reading (world (m s).1)) -> Q s' (m s).2) ->
  Q (with_entry libzip f m s).1 (with_entry libzip f m s).2.
Proof.
  intros Hok HQ. unfold with_entry. destruct (m s) as [s1 o]. cbn [fst snd] in HQ.
  destruct (zip_call_spec (Fclose f) s1 eq_refl) as (w & r & Hl & Hz & Hs). pose proof (zip_fclose f (world s1)) as Hc. rewrite Hl in Hc.
  destruct o; try done; rewrite Hz; by apply HQ.
Qed.

Lemma get_entry_spec zip index s :
  match get_entry libzip zip index 0 s with
  | (s', Ok f) => same_files s s' /\ exists c, entry (world s) zip index = Some c /\ reading (world s) !! f = None /\
      reading (world s') = <[f := c]> (reading (world s))
  | (s', Throw _) => same_files s s' /\ reading (world s') = reading (world s)
  | _ => False
  end.
Proof.
  destruct (zip_call_spec (FopenIndex zip index 0) s eq_refl) as (w & r & Hl & Hz & Hs).
  pose proof (zip_fopen zip index 0 (world s)) as Ho. rewrite Hl in Ho. unfold get_entry, or_throw, mbind, stm_bind. rewrite Hz.
  by destruct r as [f|].
Qed.

(** ** Into a string *)

Lemma read_loop_spec f c : forall fuel res rest s, reading (world s) !! f = Some rest -> c = res ++ rest -> (length rest < fuel)%nat ->
  match read_loop libzip fuel f (len c) res s with
  | (s', Ok r) => r = c /\ same_files s s' /\ delete f (reading (world s')) = delete f (reading (world s))
  | (s', Throw _) => same_files s s' /\ delete f (reading (world s')) = delete f (reading (world s))
  | _ => False
  end.
Proof.
  induction fuel as [|fuel IH]; intros res rest s Hf Hc Hfuel; [lia|]. cbn [read_loop]. subst c. unfold len. rewrite length_app.
  destruct (Z.ltb_spec (Z.of_nat (length res)) (Z.of_nat (length res + length rest))) as [Hlt|Hge].
  2: { destruct rest as [|x rest]; [|cbn in Hge; lia]. cbn. by rewrite app_nil_r. }
  unfold mbind, stm_bind. pose proof (read_spec f (Z.of_nat (length res + length rest) - Z.of_nat (length res)) rest s ltac:(lia) Hf) as Hr.
  destruct (read libzip f _ s) as [s1 [data|e| |]]; try done.
  2: { destruct Hr as [Hs ->]. done. }
  destruct Hr as (Hs & (rest' & -> & Hrd) & Hlen & Hnil). rewrite length_app in *. fold (len data) in *.
  destruct (Z.ltb_spec (Z.of_nat (length res + (length data + length rest')) - Z.of_nat (length res)) (len data)) as [Hbad|_]; [unfold len in Hbad; lia|].
  assert (length rest' < fuel)%nat as Hfuel'.
  { destruct data as [|x data]; [|cbn in Hfuel; lia]. specialize (Hnil eq_refl). cbn in Hnil. rewrite Hnil in Hlt. cbn in Hlt. lia. }
  specialize (IH (res ++ data) rest' s1 ltac:(rewrite Hrd; apply lookup_insert_eq) ltac:(by rewrite app_assoc) Hfuel').
  unfold len in IH. rewrite !length_app in IH. replace (length res + length data + length rest')%nat with (length res + (length data + length rest'))%nat in IH by lia.
  assert (delete f (reading (world s1)) = delete f (reading (world s))) as Hd by (by rewrite Hrd, delete_insert_eq).
  destruct (read_loop libzip fuel f _ (res ++ data) s1) as [s2 [r|e| |]]; try done.
  - destruct IH as (-> & Hs2 & Hd2). split_and!; [done|by eapply same_files_trans|congruence].
  - destruct IH as (Hs2 & Hd2). split; [by eapply same_files_trans|congruence].
Qed.

Lemma extract_to_str_spec fuel zip index s : 0 <= index < 2 ^ 16 ->
  (forall c, entry (world s) zip index = Some c -> (length c < fuel)%nat) ->
  match extract_to_str libzip fuel zip index s with
  | (s', Ok r) => entry (world s) zip index = Some r /\ same_files s s' /\ reading (world s') = reading (world s)
  | (s', Throw _) => same_files s s' /\ reading (world s') = reading (world s)
  | _ => False
  end.
Proof.
  intros Hi Hfuel. unfold extract_to_str, entry_size, or_throw. unfold uint16. rewrite Z.mod_small by lia.
  destruct (zip_call_spec (StatSize zip index) s eq_refl) as (w & r & Hl & Hz & Hs).
  pose proof (zip_stat_size zip index (world s)) as Hst. rewrite Hl in Hst. unfold mbind, stm_bind. rewrite Hz. destruct Hst as [Hrd Hst].
  destruct r as [n|]; [|done]. destruct Hst as (c & Hc & ->). cbn. set (s1 := mkIo (errno s) w) in *.
  pose proof (get_entry_spec zip index s1) as Hg. destruct (get_entry libzip zip index 0 s1) as [s2 [f|e| |]]; try done.
  2: { destruct Hg as [Hs2 ->]. split; [by eapply same_files_trans|done]. }
  destruct Hg as (Hs2 & c' & Hc' & Hf & Hrd2). assert (c' = c) as -> by (destruct Hs as (_ & _ & _ & He); cbn in *; congruence).
  pose proof (read_loop_spec f c fuel [] c s2 ltac:(rewrite Hrd2; apply lookup_insert_eq) eq_refl (Hfuel c Hc)) as Hr.
  pose proof (with_entry_spec f (read_loop libzip fuel f (len c) []) s2 (fun s' o => match o with
    | Ok r => entry (world s) zip index = Some r /\ same_files s s' /\ reading (world s') = reading (world s)
    | Throw _ => same_files s s' /\ reading (world s') = reading (world s) | _ => False end)) as Hw.
  assert (delete f (reading (world s2)) = reading (world s)) as Hback by (rewrite Hrd2, delete_insert_id by done; exact Hrd).
  assert (same_files s s2) as Hs02 by (by eapply same_files_trans).
  destruct (read_loop libzip fuel f (len c) [] s2) as [s3 [r|e| |]]; try done; cbn [fst snd] in Hw.
  - destruct Hr as (-> & Hs3 & Hd). specialize (Hw I ltac:(intros s' Hs' ->; split_and!; [done|by repeat (eapply same_files_trans; [done|])|congruence])).
    by destruct (with_entry libzip f _ s2) as [s' [r|e| |]].
  - destruct Hr as (Hs3 & Hd). specialize (Hw I ltac:(intros s' Hs' ->; split; [by repeat (eapply same_files_trans; [done|])|congruence])).
    by destruct (with_entry libzip f _ s2) as [s' [r|e'| |]].
Qed.

(** ** Into a file *)

(** What writing leaves alone. *)
Definition kept (s s' : io W) : Prop :=
  named (world s') = named (world s) /\ (patience (world s') <= patience (world s))%nat /\
  entry (world s') = entry (world s) /\ reading (world s') = reading (world s).

Lemma write_loop_zip fd data : forall fuel pos s, entry (world (write_loop kernel fuel fd data pos s).1) = entry (world s) /\
  reading (world (write_loop kernel fuel fd data pos s).1) = reading (world s).
Proof.
  induction fuel as [|fuel IH]; intros pos s; [done|]. cbn [write_loop]. destruct (pos <? len data); [|done].
  unfold mbind, stm_bind, perform. pose proof (files_zip _ (Write fd (drop (Z.to_nat pos) data)) (world s)) as Hn.
  destruct (kernel _ (Write fd _) (world s)) as [w [e|k]]; cbn in Hn |- *; destruct Hn as [Hn1 Hn2].
  - destruct (e =? EINTR); [|done]. destruct (IH pos (mkIo e w)) as [H1 H2]. cbn in *. by rewrite H1, H2.
  - destruct (IH (pos + k) (mkIo (errno s) w)) as [H1 H2]. cbn in *. by rewrite H1, H2.
Qed.

(** One piece. *)
Lemma write_piece_spec fuel fd f offset c buff s : opened kernel s fd f offset c -> (offset <= length c)%nat ->
  (patience (world s) + length buff < fuel)%nat ->
  match write_all_throw kernel fuel fd buff s with
  | (s', Ok _) => wrote kernel s fd f offset c buff s' /\ kept s s'
  | (s', Throw _) => exists k, wrote kernel s fd f offset c (take k buff) s' /\ kept s s'
  | _ => False
  end.
Proof.
  intros Ho Hoff Hfuel. unfold write_all_throw, write_all.
  assert (opened kernel (mkIo 0 (world s)) fd f offset c) as Ho' by exact Ho.
  pose proof (write_loop_spec kernel fd f buff fuel 0 (mkIo 0 (world s)) offset c ltac:(unfold len; lia) Ho' Hoff ltac:(cbn; lia)) as Hl.
  pose proof (write_loop_named kernel fd buff fuel 0 (mkIo 0 (world s))) as Hn. destruct (write_loop_zip fd buff fuel 0 (mkIo 0 (world s))) as [He Hr].
  unfold mbind, stm_bind, set_errno, modify. destruct (write_loop kernel fuel fd buff 0 (mkIo 0 (world s))) as [s' [n|e| |]]; try done.
  cbn [fst world] in *. destruct Hl as (Hn0 & _ & Hw & Hp). rewrite Z.sub_0_r in Hw. cbn [drop Z.to_nat] in Hw.
  assert (wrote kernel s fd f offset c (take (Z.to_nat n) buff) s') as Hw' by exact Hw. assert (kept s s') as Hk by (by split_and!).
  destruct (Z.eqb_spec n (len buff)) as [->|Hne]; cbn.
  - split; [|done]. unfold len in Hw'. rewrite Nat2Z.id, firstn_all in Hw'. done.
  - by exists (Z.to_nat n).
Qed.

Lemma kept_trans s1 s2 s3 : kept s1 s2 -> kept s2 s3 -> kept s1 s3.
Proof. intros (? & ? & ? & ?) (? & ? & ? & ?). split_and!; [congruence|lia|congruence|congruence]. Qed.

(** All that is left of the entry, or a part of it. *)
Lemma copy_loop_spec zf fd f : forall fuel rest s offset c, reading (world s) !! zf = Some rest -> opened kernel s fd f offset c ->
  (offset <= length c)%nat -> (patience (world s) + length rest < fuel)%nat ->
  match copy_loop kernel libzip fuel zf fd s with
  | (s', Ok _) => wrote kernel s fd f offset c rest s' /\ named (world s') = named (world s) /\
      entry (world s') = entry (world s) /\ delete zf (reading (world s')) = delete zf (reading (world s))
  | (s', Throw _) => (exists k, wrote kernel s fd f offset c (take k rest) s') /\ named (world s') = named (world s) /\
      entry (world s') = entry (world s) /\ delete zf (reading (world s')) = delete zf (reading (world s))
  | _ => False
  end.
Proof.
  induction fuel as [|fuel IH]; intros rest s offset c Hz Ho Hoff Hfuel; [lia|]. cbn [copy_loop]. unfold mbind at 1, stm_bind at 1.
  pose proof (read_spec zf BUFF_SIZE rest s ltac:(done) Hz) as Hr. destruct (read libzip zf BUFF_SIZE s) as [s1 [data|e| |]]; try done.
  2: { destruct Hr as ((Hv & Hn & _ & He) & Hrd). split_and!; [|done|done|congruence]. exists 0%nat. rewrite take_0. by apply wrote_nothing. }
  destruct Hr as ((Hv & Hn & Hp & He) & (rest' & -> & Hrd) & Hlen & Hnil).
  assert (delete zf (reading (world s1)) = delete zf (reading (world s))) as Hd by (by rewrite Hrd, delete_insert_eq).
  destruct data as [|x data].
  { specialize (Hnil eq_refl). cbn in Hnil |- *. subst rest'. split_and!; [by apply wrote_nothing|done|done|done]. }
  assert (opened kernel s1 fd f offset c) as Ho1 by (unfold opened in *; by rewrite Hv).
  rewrite length_app in Hfuel. unfold mbind, stm_bind. pose proof (write_piece_spec (S fuel) fd f offset c (x :: data) s1 Ho1 Hoff ltac:(lia)) as Hw.
  assert (forall d s2, wrote kernel s1 fd f offset c d s2 -> wrote kernel s fd f offset c d s2) as Hs1 by (intros d s2; unfold wrote; by rewrite Hv).
  destruct (write_all_throw kernel (S fuel) fd (x :: data) s1) as [s2 [u|e| |]]; try done.
  - destruct Hw as [Hw (Hn2 & Hp2 & He2 & Hr2)].
    specialize (IH rest' s2 _ _ ltac:(rewrite Hr2, Hrd; apply lookup_insert_eq) (opened_wrote _ _ _ _ _ _ _ _ Hw) ltac:(rewrite length_overwrite; lia) ltac:(cbn in Hfuel; lia)).
    destruct (copy_loop kernel libzip fuel zf fd s2) as [s3 [u'|e| |]]; try done.
    + destruct IH as (Hw3 & Hn3 & He3 & Hd3). split_and!; [|congruence|congruence|congruence]. apply Hs1. by eapply wrote_trans.
    + destruct IH as ((k & Hw3) & Hn3 & He3 & Hd3). split_and!; [|congruence|congruence|congruence].
      exists (length (x :: data) + k)%nat. rewrite take_app_add. apply Hs1. by eapply wrote_trans.
  - destruct Hw as (k & Hw & Hn2 & Hp2 & He2 & Hr2). split_and!; [|congruence|congruence|congruence].
    exists (Nat.min k (length (x :: data))). rewrite take_app_le by lia. apply Hs1.
    destruct (Nat.le_ge_cases k (length (x :: data))) as [Hk|Hk]; [by rewrite Nat.min_l|]. rewrite Nat.min_r, firstn_all by done.
    by rewrite take_ge in Hw.
Qed.

Lemma extract_to_fd_spec fuel zip index fd f s : opened kernel s fd f 0 [] ->
  (forall c, entry (world s) zip index = Some c -> (patience (world s) + length c < fuel)%nat) ->
  match extract_to_fd kernel libzip fuel zip index fd s with
  | (s', Ok _) => exists c, entry (world s) zip index = Some c /\ wrote kernel s fd f 0 [] c s' /\ named (world s') = named (world s) /\
      reading (world s') = reading (world s)
  | (s', Throw _) => (exists d, wrote kernel s fd f 0 [] d s' /\ (d = [] \/ exists c, entry (world s) zip index = Some c /\ d `prefix_of` c)) /\
      named (world s') = named (world s) /\ reading (world s') = reading (world s)
  | _ => False
  end.
Proof.
  intros Ho Hfuel. unfold extract_to_fd, mbind, stm_bind. pose proof (get_entry_spec zip index s) as Hg.
  destruct (get_entry libzip zip index 0 s) as [s1 [zf|e| |]]; try done.
  2: { destruct Hg as [(Hv & Hn & Hp & He) Hrd]. split_and!; [|done|done]. exists []. split; [by apply wrote_nothing|by left]. }
  destruct Hg as ((Hv & Hn & Hp & He) & c & Hc & Hf & Hrd). specialize (Hfuel c Hc).
  pose proof (copy_loop_spec zf fd f fuel c s1 0 [] ltac:(rewrite Hrd; apply lookup_insert_eq) ltac:(unfold opened in *; by rewrite Hv) ltac:(done) ltac:(lia)) as Hl.
  set (Q := fun (s' : io W) (o : outcome unit) => match o with
    | Ok _ => exists c, entry (world s) zip index = Some c /\ wrote kernel s fd f 0 [] c s' /\ named (world s') = named (world s) /\ reading (world s') = reading (world s)
    | Throw _ => (exists d, wrote kernel s fd f 0 [] d s' /\ (d = [] \/ exists c, entry (world s) zip index = Some c /\ d `prefix_of` c)) /\
        named (world s') = named (world s) /\ reading (world s') = reading (world s)
    | _ => False end).
  pose proof (with_entry_spec zf (copy_loop kernel libzip fuel zf fd) s1 Q) as Hw.
  cut (Q (with_entry libzip zf (copy_loop kernel libzip fuel zf fd) s1).1 (with_entry libzip zf (copy_loop kernel libzip fuel zf fd) s1).2).
  { by destruct (with_entry libzip zf _ s1) as [s' [u|e| |]]. }
  assert (delete zf (reading (world s1)) = reading (world s)) as Hback by (by rewrite Hrd, delete_insert_id).
  assert (forall d s2 s3, wrote kernel s1 fd f 0 [] d s2 -> view_of (world s3) = view_of (world s2) -> wrote kernel s fd f 0 [] d s3) as Hwr.
  { intros d s2 s3 H2 H3. unfold wrote in *. by rewrite H3, H2, Hv. }
  destruct (copy_loop kernel libzip fuel zf fd s1) as [s2 [u|e| |]]; try done; cbn [fst snd] in Hw.
  - destruct Hl as (Hl & Hn2 & He2 & Hd2). apply Hw; [done|]. intros s3 (Hv3 & Hn3 & _) Hr3. exists c. split_and!; [done|by eapply Hwr|congruence|congruence].
  - destruct Hl as ((k & Hl) & Hn2 & He2 & Hd2). apply Hw; [done|]. intros s3 (Hv3 & Hn3 & _) Hr3. split_and!; [|congruence|congruence].
    exists (take k c). split; [by eapply Hwr|]. right. exists c. split; [done|]. exists (drop k c). by rewrite take_drop.
Qed.

(** The result of extracting to a file. *)
Definition extracted (zip index : Z) (fpath : str) (s s' : io W) (o : outcome unit) : Prop :=
  reading (world s') = reading (world s) /\
  match o with
  | Ok _ => exists f c, entry (world s) zip index = Some c /\ named (world s') fpath = Some f /\
      view_of (world s') = mkView (handles (view_of (world s))) (<[f := c]> (files (view_of (world s))))
  | Throw _ => view_of (world s') = view_of (world s) \/
      exists f d, named (world s') fpath = Some f /\ (d = [] \/ exists c, entry (world s) zip index = Some c /\ d `prefix_of` c) /\
        view_of (world s') = mkView (handles (view_of (world s))) (<[f := d]> (files (view_of (world s))))
  | _ => False
  end.

Lemma extraction_mode_spec zip index permissions s :
  match extraction_mode libzip zip index permissions s with
  | (s', Ok _) | (s', Throw _) => same_files s s' /\ reading (world s') = reading (world s)
  | _ => False
  end.
Proof.
  destruct permissions as [p|]; [done|]. unfold extraction_mode, or_throw, mbind, stm_bind.
  destruct (zip_call_spec (GetAttributes zip index) s eq_refl) as (w & r & Hl & Hz & Hs).
  pose proof (zip_attributes zip index (world s)) as Hr. rewrite Hl in Hr. rewrite Hz. by destruct r as [[opsys attrs]|].
Qed.

Lemma extract_to_file_spec fuel zip index fpath permissions s :
  (forall c, entry (world s) zip index = Some c -> (patience (world s) + length c < fuel)%nat) ->
  let (s', o) := extract_to_file kernel libzip fuel zip index fpath permissions s in extracted zip index fpath s s' o.
Proof.
  intros Hfuel. unfold extract_to_file. unfold mbind at 1, stm_bind at 1. pose proof (extraction_mode_spec zip index permissions s) as Hm.
  destruct (extraction_mode libzip zip index permissions s) as [s1 [mode|e| |]]; try done.
  2: { destruct Hm as [(Hv & _) Hr]. split; [done|by left]. }
  destruct Hm as [(Hv & Hn & Hp & He) Hr]. unfold mbind at 1, stm_bind at 1. unfold perform at 1.
  pose proof (kernel_open_create fpath mode (world s1)) as Ho. pose proof (files_zip _ (Openat AT_FDCWD fpath [O_WRONLY; O_CREAT; O_TRUNC; O_CLOEXEC] mode) (world s1)) as Hz.
  destruct (kernel _ (Openat _ _ _ _) (world s1)) as [w [e|fd]]; cbn [fst] in Hz; destruct Hz as [Hez Hrz].
  { destruct Ho as [Hvo _]. split; [cbn; congruence|]. left. cbn. congruence. }
  destruct Ho as (f & Hnm & _ & Hfd & Hvo & Hpo). set (s2 := mkIo (errno s1) w).
  assert (opened kernel s2 fd f 0 []) as Ho2 by (unfold opened; cbn; rewrite Hvo; cbn; by rewrite !lookup_insert_eq).
  pose proof (extract_to_fd_spec fuel zip index fd f s2 Ho2 ltac:(intros c Hc; cbn in Hc |- *; rewrite Hez, He in Hc; specialize (Hfuel c Hc); lia)) as Hx.
  assert (forall d s3 w', wrote kernel s2 fd f 0 [] d s3 -> view_of w' = mkView (delete fd (handles (view_of (world s3)))) (files (view_of (world s3))) ->
    view_of w' = mkView (handles (view_of (world s))) (<[f := d]> (files (view_of (world s))))) as Hback.
  { intros d s3 w' H3 ->. rewrite H3. cbn [handles files world s2]. rewrite Hvo. cbn [handles files]. rewrite !insert_insert_eq, delete_insert_id by done.
    rewrite Hv. f_equal. f_equal. unfold overwrite. cbn. rewrite drop_nil. apply app_nil_r. }
  assert (forall s3 (m : M unit), m s2 = s3 -> match s3.2 with UB | NoFuel => False | _ => True end -> reading (world s3.1) = reading (world s) ->
    reading (world (with_fd kernel fd m s2).1) = reading (world s)) as Hrd.
  { intros s3 m <- Hok Hr3. unfold with_fd. destruct (m s2) as [s4 [u|e| |]]; try done; unfold perform;
      destruct (files_zip _ (Close fd) (world s4)) as [_ Hc]; destruct (kernel _ (Close fd) (world s4)) as [w' [e'|u']]; cbn in *; congruence. }
  set (body := extract_to_fd kernel libzip fuel zip index fd) in *. pose proof (with_fd_spec kernel fd body s2 (fun s' o => match o with
    | Ok _ => exists f c, entry (world s) zip index = Some c /\ named (world s') fpath = Some f /\
        view_of (world s') = mkView (handles (view_of (world s))) (<[f := c]> (files (view_of (world s))))
    | Throw _ => exists f d, named (world s') fpath = Some f /\ (d = [] \/ exists c, entry (world s) zip index = Some c /\ d `prefix_of` c) /\
        view_of (world s') = mkView (handles (view_of (world s))) (<[f := d]> (files (view_of (world s))))
    | _ => False end)) as Hw.
  specialize (Hrd (body s2) body eq_refl). cbn in Hx. rewrite Hez, He, Hrz, Hr in Hx. cbv zeta in Hw. rewrite (surjective_pairing (with_fd kernel fd body s2)). cbv beta iota. split.
  - apply Hrd; destruct (body s2) as [s3 [u|e| |]]; try done; [by destruct Hx as (c & _ & _ & _ & Hx)|by destruct Hx as (_ & _ & Hx)].
  - cut (match (with_fd kernel fd body s2).2 with
      | Ok _ => exists f c, entry (world s) zip index = Some c /\ named (world (with_fd kernel fd body s2).1) fpath = Some f /\
          view_of (world (with_fd kernel fd body s2).1) = mkView (handles (view_of (world s))) (<[f := c]> (files (view_of (world s))))
      | Throw _ => exists f d, named (world (with_fd kernel fd body s2).1) fpath = Some f /\
          (d = [] \/ exists c, entry (world s) zip index = Some c /\ d `prefix_of` c) /\
          view_of (world (with_fd kernel fd body s2).1) = mkView (handles (view_of (world s))) (<[f := d]> (files (view_of (world s))))
      | _ => False end).
    { destruct (with_fd kernel fd body s2) as [s' [u|e| |]]; cbn; try done. by right. }
    destruct (body s2) as [s3 [u|e| |]]; try done; cbn [fst snd] in Hw; apply Hw; try done; intros s' <- e' w' Hv' Hn' _.
    + destruct Hx as (c & Hc & Hwr & Hn3 & _). exists f, c. split_and!; [done|cbn; congruence|by eapply Hback].
    + destruct Hx as ((d & Hwr & Hd) & Hn3 & _). exists f, d. split_and!; [cbn; congruence|done|by eapply Hback].
Qed.

End Extract.

(** C25: Extracting an entry, whatever pieces libzip gives it in and however the
    kernel splits the writing: [extract_to_str], for one of the first 65536
    entries, ends and returns exactly the contents; [extract_to_file] ends and
    leaves a file with exactly the contents under its path, or throws and leaves
    the files alone or a beginning of the contents in that file; nothing else
    changes, every descriptor is closed and no entry stays open. *)
Theorem zip_extract_correct {W : Type} (kernel : forall A, fsys A -> W -> W * A) `{!FileKernel kernel} `{!NamedFiles kernel}
    (libzip : forall A, zsys A -> W -> W * A) `{!ZipLibrary kernel libzip} fuel zip index fpath permissions s :
  0 <= index < 2 ^ 16 -> (forall c, entry (world s) zip index = Some c -> (patience (world s) + length c < fuel)%nat) ->
  match extract_to_str libzip fuel zip index s with
  | (s', Ok r) => entry (world s) zip index = Some r /\ same_files kernel libzip s s' /\ reading (world s') = reading (world s)
  | (s', Throw _) => same_files kernel libzip s s' /\ reading (world s') = reading (world s)
  | _ => False
  end /\
  (let (s', o) := extract_to_file kernel libzip fuel zip index fpath permissions s in extracted kernel libzip zip index fpath s s' o).
Proof.
  intros Hi Hfuel. split; [|by apply extract_to_file_spec]. apply extract_to_str_spec; [done|]. intros c Hc. specialize (Hfuel c Hc). lia.
Qed.

(** ** Archives in memory *)

Record zip_world := mkZipWorld { zw_files : memory_files; zw_entries : gmap Z str; zw_reading : gmap Z str }.

Definition zip_kernel (A : Type) (c : fsys A) (w : zip_world) : zip_world * A :=
  let (f, a) := memory_kernel A c (zw_files w) in (mkZipWorld f (zw_entries w) (zw_reading w), a).

(** At most four characters at once. *)
Definition sample_libzip (A : Type) (c : zsys A) (w : zip_world) : zip_world * A :=
  match c in zsys A return zip_world * A with
  | FopenIndex _ index _ =>
      match zw_entries w !! index with
      | Some c => let f := fresh (dom (zw_reading w)) in (mkZipWorld (zw_files w) (zw_entries w) (<[f := c]> (zw_reading w)), Some f)
      | None => (w, None)
      end
  | Fread f n =>
      match zw_reading w !! f with
      | Some c => let k := Nat.min (Z.to_nat n) 4 in
          (mkZipWorld (zw_files w) (zw_entries w) (<[f := drop k c]> (zw_reading w)), Some (take k c))
      | None => (w, None)
      end
  | Fclose f => (mkZipWorld (zw_files w) (zw_entries w) (delete f (zw_reading w)), true)
  | StatSize _ index => (w, len <$> zw_entries w !! index)
  | GetAttributes _ _ => (w, Some (ZIP_OPSYS_UNIX, Z.shiftl 33188 16))
  | ZipOpen _ _ => (w, None)
  | ZipClose _ => (w, true)
  | ZipDiscard _ => (w, tt)
  | NameLocate _ _ => (w, inl ZIP_ER_NOENT)
  | NumEntries _ _ => (w, Z.of_nat (size (zw_entries w)))
  | GetName _ _ _ => (w, None)
  | SetAttributes _ _ _ _ => (w, true)
  | DirAdd _ _ _ => (w, None)
  | SourceBuffer _ _ => (w, None)
  | SourceFile _ _ _ _ => (w, None)
  | SourceZip _ _ _ _ _ _ => (w, None)
  | SourceFree _ => (w, tt)
  | Lstat _ => (w, None)
  | FileAdd _ _ _ _ => (w, None)
  | FileReplace _ _ _ _ => (w, false)
  | SetCompression _ _ _ _ => (w, false)
  | FileRename _ _ _ _ => (w, false)
  | ZipDelete _ _ => (w, false)
  | Unchange _ _ => (w, false)
  | UnchangeAll _ => (w, false)
  | UnchangeArchive _ => (w, false)
  end.

(** What the files do next to an archive is what they do alone. *)
Ltac beside law :=
  pose proof law as Hlaw; unfold zip_kernel; cbv beta zeta in Hlaw |- *;
  match goal with |- context [memory_kernel ?A ?c ?f] => destruct (memory_kernel A c f) as [f' a] end; exact Hlaw.

#[export] Program Instance zip_file_kernel : FileKernel zip_kernel :=
  { view_of := fun w => view_of (zw_files w); patience := fun w => patience (zw_files w) }.
Next Obligation. intros fd n w f offset c H1 H2 H3. beside (kernel_read fd n (zw_files w) f offset c H1 H2 H3). Qed.
Next Obligation. intros fd n pos w f offset c H1 H2 H3 H4. beside (kernel_pread fd n pos (zw_files w) f offset c H1 H2 H3 H4). Qed.
Next Obligation. intros fd data w f offset c H1 H2 H3. beside (kernel_write fd data (zw_files w) f offset c H1 H2 H3). Qed.
Next Obligation. intros fd n from w f offset c H1 H2. beside (kernel_lseek fd n from (zw_files w) f offset c H1 H2). Qed.

#[export] Program Instance zip_named_files : NamedFiles zip_kernel := { named := fun w => named (zw_files w) }.
Next Obligation. intros path w. beside (kernel_open_read path (zw_files w)). Qed.
Next Obligation. intros path mode w. beside (kernel_open_create path mode (zw_files w)). Qed.
Next Obligation. intros fd w. beside (kernel_close fd (zw_files w)). Qed.
Next Obligation. intros fd data w. beside (kernel_write_named fd data (zw_files w)). Qed.

#[export] Program Instance sample_zip_library : ZipLibrary zip_kernel sample_libzip :=
  { entry := fun w _ index => zw_entries w !! index; reading := zw_reading }.
Next Obligation.
  intros A c w Hc. destruct c; try done; cbn.
  - by destruct (zw_entries w !! index).
  - by destruct (zw_reading w !! zfile).
Qed.
Next Obligation. intros A c w. unfold zip_kernel. cbn. by destruct (memory_kernel A c (zw_files w)). Qed.
Next Obligation. intros zip index w. cbn. split; [done|]. destruct (zw_entries w !! index) as [c|]; [|done]. by exists c. Qed.
Next Obligation. done. Qed.
Next Obligation.
  intros zip index flags w. cbn. destruct (zw_entries w !! index) as [c|]; [|done]. exists c. split_and!; [done| |done].
  apply not_elem_of_dom, is_fresh.
Qed.
Next Obligation.
  intros f n c w Hn Hf. cbn. rewrite Hf. set (k := Nat.min (Z.to_nat n) 4). split_and!.
  - exists (drop k c). by rewrite take_drop.
  - unfold len. rewrite length_take. lia.
  - intros E. apply (f_equal length) in E. rewrite length_take in E. cbn in E. destruct c; [done|cbn in E; lia].
  - cbn. f_equal. rewrite length_take. destruct (Nat.le_ge_cases k (length c)) as [Hk|Hk]; [by rewrite Nat.min_l|].
    rewrite Nat.min_r by done. rewrite drop_ge by done. by rewrite drop_ge.
Qed.
Next Obligation. done. Qed.

Definition sample_archive : io zip_world :=
  mkIo 0 (mkZipWorld two_files (list_to_map [(0, lit "0123456789"); (3, lit "abc")]) ∅).

Lemma sample_fuel : forall c, entry (world sample_archive) 0 0 = Some c -> (patience (world sample_archive) + length c < 30)%nat.
Proof. intros c Hc. vm_compute in Hc. injection Hc as <-. apply Nat.ltb_lt. vm_compute. reflexivity. Qed.

Lemma zip_extract_correct_witness :
  match extract_to_str sample_libzip 30 0 0 sample_archive with (_, Ok r) => bool_decide (r = lit "0123456789") | _ => false end = true /\
  (let (s', o) := extract_to_file zip_kernel sample_libzip 30 0 0 (lit "new") None sample_archive in
   extracted zip_kernel sample_libzip 0 0 (lit "new") sample_archive s' o).
Proof.
  split; [vm_compute; reflexivity|].
  assert (0 <= 0 < 2 ^ 16) as Hi by lia.
  pose proof (zip_extract_correct zip_kernel sample_libzip 30 0 0 (lit "new") None sample_archive Hi sample_fuel) as H.
  apply H.
Defined.

(** ** Where the code does not do what it means to *)

Lemma read_loop_waits f size res : forall fuel s, zw_reading (world s) !! f = Some [] -> len res < size ->
  (read_loop sample_libzip fuel f size res s).2 = NoFuel.
Proof.
  induction fuel as [|fuel IH]; intros s Hf Hlt; [done|]. cbn [read_loop]. destruct (Z.ltb_spec (len res) size); [|lia].
  unfold read, or_throw, zip_call, mbind, stm_bind. cbn [sample_libzip]. rewrite Hf. rewrite take_nil, drop_nil.
  unfold mret, stm_ret. destruct (Z.ltb_spec (size - len res) (len [])) as [Hbad|_]; [unfold len in Hbad; cbn in Hbad; unfold len in Hlt; lia|].
  rewrite app_nil_r. apply IH; [cbn; apply lookup_insert_eq|done].
Qed.

(** The entry 65536 is given the size of the entry 0: when that one is longer,
    [extract_to_str] never ends. *)
Definition large_archive : io zip_world :=
  mkIo 0 (mkZipWorld two_files (list_to_map [(0, lit "two"); (65536, lit "x")]) ∅).

Lemma size_of_another_entry fuel : (extract_to_str sample_libzip fuel 0 65536 large_archive).2 = NoFuel.
Proof.
  assert (entry_size sample_libzip 0 65536 large_archive = (large_archive, Ok 3)) as H1 by (vm_compute; reflexivity).
  set (s1 := (get_entry sample_libzip 0 65536 0 large_archive).1).
  assert (get_entry sample_libzip 0 65536 0 large_archive = (s1, Ok 0)) as H2 by (vm_compute; reflexivity).
  set (s2 := (read sample_libzip 0 3 s1).1).
  assert (read sample_libzip 0 3 s1 = (s2, Ok (lit "x"))) as H3 by (vm_compute; reflexivity).
  assert (zw_reading (world s2) !! 0 = Some []) as H4 by (vm_compute; reflexivity). clearbody s2 s1.
  assert ((read_loop sample_libzip fuel 0 3 [] s1).2 = NoFuel) as Hl.
  { destruct fuel as [|fuel]; [done|]. cbn [read_loop]. change (len [] <? 3) with true. change (3 - len []) with 3. cbv iota.
    unfold mbind, stm_bind. rewrite H3. apply read_loop_waits; done. }
  unfold extract_to_str, mbind, stm_bind. rewrite H1, H2. unfold with_entry. by destruct (read_loop sample_libzip fuel 0 3 [] s1) as [s3 [a|e| |]].
Qed.

(** When it is shorter, the contents are cut. *)
Definition other_archive : io zip_world :=
  mkIo 0 (mkZipWorld two_files (list_to_map [(0, lit "x"); (65536, lit "two")]) ∅).

Lemma contents_cut : (extract_to_str sample_libzip 10 0 65536 other_archive).2 = Ok (lit "t").
Proof. vm_compute. reflexivity. Qed.

(** A source moved from loses its permissions on the way. *)
Lemma moved_source_loses_permissions : forall zs, get_file_permissions (move_source (set_file_permissions 511 zs)).1 = Some 420.
Proof. intros zs. vm_compute. reflexivity. Qed.

(** A library that takes the source over in [zip_file_add] and fails to set the
    attributes; the world is the list of the sources it was told to free. *)
Definition no_attributes (A : Type) (c : zsys A) (w : list Z) : list Z * A :=
  match c in zsys A return list Z * A with
  | SourceBuffer _ _ => (w, Some 7)
  | SourceFile _ _ _ _ => (w, Some 7)
  | FileAdd _ _ _ _ => (w, Some 0)
  | SourceFree h => (w ++ [h], tt)
  | SetAttributes _ _ _ _ => (w, false)
  | ZipOpen _ _ => (w, None)
  | ZipClose _ => (w, true)
  | ZipDiscard _ => (w, tt)
  | NameLocate _ _ => (w, inl 0)
  | FopenIndex _ _ _ => (w, None)
  | Fread _ _ => (w, None)
  | Fclose _ => (w, true)
  | NumEntries _ _ => (w, 0)
  | StatSize _ _ => (w, None)
  | GetName _ _ _ => (w, None)
  | GetAttributes _ _ => (w, None)
  | DirAdd _ _ _ => (w, None)
  | SourceZip _ _ _ _ _ _ => (w, None)
  | Lstat _ => (w, None)
  | FileReplace _ _ _ _ => (w, false)
  | SetCompression _ _ _ _ => (w, false)
  | FileRename _ _ _ _ => (w, false)
  | ZipDelete _ _ => (w, true)
  | Unchange _ _ => (w, false)
  | UnchangeAll _ => (w, false)
  | UnchangeArchive _ => (w, false)
  end.

(** The source that [zip_file_add] has taken over is freed once more. *)
Lemma added_source_freed_again :
  let out := with_source no_attributes (new_source_buffer no_attributes 0 (lit "data")) (file_add no_attributes 0 (lit "name") 0 4) (mkIo 0 []) in
  world out.1 = [7] /\ out.2 = Throw (RuntimeError (lit "zip_file_set_external_attributes() - ")).
Proof. vm_compute. split; reflexivity. Qed.

(** A source of a file that cannot be examined is not freed. *)
Lemma source_leaks_when_lstat_fails :
  let out := new_source_file no_attributes 0 (lit "file") 0 (-1) (mkIo 0 []) in world out.1 = [] /\ out.2 = Throw (RuntimeError (lit "lstat()")).
Proof. vm_compute. split; reflexivity. Qed.

(** ** The attributes of sources *)

Lemma shifted_bits z n : 0 <= z -> 0 <= n -> Z.testbit (Z.shiftl z 16) n = (if n <? 16 then false else Z.testbit z (n - 16)).
Proof.
  intros Hz Hn. rewrite Z.shiftl_spec by done. destruct (Z.ltb_spec n 16); [by rewrite Z.testbit_neg_r by lia|done].
Qed.

Lemma uint32_bits z n : 0 <= n -> Z.testbit (uint32 z) n = (n <? 32) && Z.testbit z n.
Proof.
  intros Hn. unfold uint32. destruct (Z.ltb_spec n 32); [by rewrite Z.mod_pow2_bits_low by lia|by rewrite Z.mod_pow2_bits_high by lia].
Qed.

Lemma allperms_bits n : 0 <= n -> Z.testbit ALLPERMS n = (n <? 12).
Proof.
  intros Hn. change ALLPERMS with (Z.ones 12). destruct (Z.ltb_spec n 12); [by rewrite Z.ones_spec_low by lia|by rewrite Z.ones_spec_high by lia].
Qed.

(** Setting permissions sets exactly these: they are what is read back, and the
    type of the file stays. *)
Lemma file_permissions_round_trip p s : 0 <= p -> opsys_ s = ZIP_OPSYS_UNIX -> 0 <= external_attributes_ s < 2 ^ 32 ->
  get_file_permissions (set_file_permissions p s) = Some (Z.land p ALLPERMS) /\
  get_file_mode (set_file_permissions p s) = Some (Z.lor (Z.ldiff (Z.shiftr (external_attributes_ s) 16) ALLPERMS) (Z.land p ALLPERMS)).
Proof.
  intros Hp Ho Ha. unfold get_file_permissions, get_file_mode, set_file_permissions. cbn [opsys_ external_attributes_]. rewrite Ho.
  change (negb (ZIP_OPSYS_UNIX =? ZIP_OPSYS_UNIX)) with false. cbv iota.
  assert (forall n, 0 <= n -> Z.testbit (Z.shiftr (Z.lor (Z.land (external_attributes_ s) (uint32 (Z.lnot (Z.shiftl ALLPERMS 16))))
      (uint32 (Z.shiftl (Z.land p ALLPERMS) 16))) 16) n =
    Z.testbit (Z.lor (Z.ldiff (Z.shiftr (external_attributes_ s) 16) ALLPERMS) (Z.land p ALLPERMS)) n) as Hbits.
  { intros n Hn. rewrite Z.shiftr_spec, !Z.lor_spec, Z.ldiff_spec, !Z.land_spec, !uint32_bits, Z.lnot_spec, !shifted_bits, Z.land_spec by (try done; try lia; by apply Z.land_nonneg; left).
    destruct (Z.ltb_spec (n + 16) 16); [lia|]. replace (n + 16 - 16) with n by lia. rewrite Z.shiftr_spec, !allperms_bits by lia.
    destruct (Z.ltb_spec (n + 16) 32), (Z.ltb_spec n 12); try lia; rewrite ?andb_true_r, ?andb_false_r, ?orb_false_r, ?orb_true_r; cbn; try done.
    rewrite Z.bits_above_log2; [done|lia|]. destruct (Z.eq_dec (external_attributes_ s) 0) as [->|Hne]; [cbn; lia|].
    apply Z.log2_lt_pow2; [lia|]. eapply Z.lt_le_trans; [apply Ha|]. apply Z.pow_le_mono_r; lia. }
  split; f_equal; [|by apply Z.bits_inj'].
  apply Z.bits_inj'. intros n Hn. rewrite Z.land_spec, Hbits by done. rewrite Z.lor_spec, Z.ldiff_spec, Z.land_spec, allperms_bits by done.
  destruct (Z.ltb_spec n 12); rewrite ?andb_true_r, ?andb_false_r, ?orb_false_r; done.
Qed.
