(* ===== verification/EventQueue.v ===== *)
(** * The event queue

    Models [EventQueue] of [include/simlib/event_queue.hh] and
    [src/event_queue.cc].  Handlers are named by the client; what a handler does
    is a program over the queue's own interface and the client's world, so that
    handlers add and remove handlers, throw, and ask for a pause while the queue
    is running them.  The texts of exceptions come without the position that
    [THROW] adds and without the text of [errno].  The clock, [ppoll] and the other threads that may request a
    pause are parameters.  Handler ids are not exhausted: there are 2^64 of
    them. *)

From Stdlib Require Import ZArith Lia.
From S2P Require Import Prelude.
From S2P Require Import StringTransform.
From S2P Require Import Floats.
From S2P Require Import Time.
Local Open Scope Z_scope.

(** ** Data *)

Section EventQueue.
Context {W H : Type}.

(** [std::function<void()>]: the client's function, or the closure that
    [add_repeating_handler] makes of one. *)
Inductive timed_fn := Once (h : H) | Repeat (interval : Z) (h : H).

(** [std::function<void(FileEvent)>]: the client's, or the one the constructor
    installs for [immediate_pause_fd_]. *)
Inductive file_fn := OnFile (h : H) | OnPause.

Inductive handler :=
| TimedHandler (time : Z) (fn : timed_fn)
| FileHandler (fn : file_fn) (events : Z) (poll_event_idx : nat).

Record pollfd := mkPollfd { fd : Z; events : Z; revents : Z }.

Record EventQueue := mkQueue {
  next_handler_id_ : nat;
  handlers_ : gmap nat handler;
  timed_handlers_ : list (Z * nat);
  poll_events_ : list pollfd;
  poll_events_idx_to_hid_ : list nat;
  immediate_pause_ : bool
}.

(** What happened, for the client: the calls are recorded with the time the
    queue read before. *)
Inductive event :=
| Added (id : nat) (time : option Z)
| Removed (id : nat)
| TimedCall (id : nat) (now : Z)
| FileCall (id : nat) (events : Z).

Record ES := mkES { world : W; queue : EventQueue; trace : list event }.

Abbreviation M := (stm ES).

Definition on_queue (f : EventQueue -> EventQueue) : M unit :=
  modify (fun s => mkES (world s) (f (queue s)) (trace s)).
Definition on_world {A} (f : W -> W * A) : M A :=
  fun s => let (w, a) := f (world s) in (mkES w (queue s) (trace s), Ok a).
Definition record (e : event) : M unit := modify (fun s => mkES (world s) (queue s) (trace s ++ [e])).

Definition set_next x q := mkQueue x (handlers_ q) (timed_handlers_ q) (poll_events_ q) (poll_events_idx_to_hid_ q) (immediate_pause_ q).
Definition set_handlers x q := mkQueue (next_handler_id_ q) x (timed_handlers_ q) (poll_events_ q) (poll_events_idx_to_hid_ q) (immediate_pause_ q).
Definition set_timed x q := mkQueue (next_handler_id_ q) (handlers_ q) x (poll_events_ q) (poll_events_idx_to_hid_ q) (immediate_pause_ q).
Definition set_poll x q := mkQueue (next_handler_id_ q) (handlers_ q) (timed_handlers_ q) x (poll_events_idx_to_hid_ q) (immediate_pause_ q).
Definition set_hids x q := mkQueue (next_handler_id_ q) (handlers_ q) (timed_handlers_ q) (poll_events_ q) x (immediate_pause_ q).
Definition set_pause x q := mkQueue (next_handler_id_ q) (handlers_ q) (timed_handlers_ q) (poll_events_ q) (poll_events_idx_to_hid_ q) x.

(** ** The outside *)

Variable now : W -> W * Z.
(** The result, whether [errno] is [EINTR], and the new [revents]. *)
Variable ppoll : list pollfd -> option Z -> W -> W * (Z * bool * list Z).
Variable sleep_for : Z -> W -> W.
(** Whether another thread requested a pause by now, and what [pause_immediately]
    and [run] do with the event file descriptor. *)
Variable external_pause : W -> W * bool.
Variable write_pause_fd : W -> W.
Variable read_pause_fd : W -> W.

(** ** Adding and removing handlers *)

Definition READABLE : Z := 1.
Definition WRITEABLE : Z := 2.
Definition CLOSED : Z := 4.
Definition POLLIN : Z := 1.
Definition POLLPRI : Z := 2.
Definition POLLOUT : Z := 4.
Definition POLLERR : Z := 8.
Definition POLLHUP : Z := 16.
Definition POLLRDHUP : Z := 8192.

Definition has_bits (x mask : Z) : bool := negb (Z.land x mask =? 0).

Definition file_events_to_poll_events (events : Z) : Z :=
  Z.lor (if has_bits events READABLE then POLLIN else 0) (if has_bits events WRITEABLE then POLLOUT else 0).

Definition poll_events_to_file_events (events : Z) : Z :=
  Z.lor (Z.lor (if has_bits events POLLIN then READABLE else 0) (if has_bits events POLLOUT then WRITEABLE else 0))
    (if has_bits events (Z.lor POLLERR POLLHUP) then CLOSED else 0).

Definition new_handler_id : M nat :=
  id ← gets (fun s => next_handler_id_ (queue s));
  _ ← on_queue (set_next (S id));
  mret id.

(** [timed_handlers_], a [std::multiset] ordered by time, then id. *)
Definition timed_ltb (x y : Z * nat) : bool := (x.1 <? y.1) || ((x.1 =? y.1) && (x.2 <? y.2)%nat).

Fixpoint timed_insert (x : Z * nat) (l : list (Z * nat)) : list (Z * nat) :=
  match l with
  | [] => [x]
  | y :: l' => if timed_ltb x y then x :: l else y :: timed_insert x l'
  end.

Definition timed_erase (x : Z * nat) (l : list (Z * nat)) : list (Z * nat) := filter (fun y => y <> x) l.

Definition add_time_handler_impl (tp : Z) (fn : timed_fn) : M nat :=
  id ← new_handler_id;
  _ ← on_queue (fun q => set_handlers (<[id := TimedHandler tp fn]> (handlers_ q)) q);
  _ ← on_queue (fun q => set_timed (timed_insert (tp, id) (timed_handlers_ q)) q);
  _ ← record (Added id (Some tp));
  mret id.

Definition add_ready_handler (fn : timed_fn) : M nat :=
  t ← on_world now;
  add_time_handler_impl t fn.

Definition add_time_handler (tp : Z) (fn : timed_fn) : M nat :=
  t ← on_world now;
  add_time_handler_impl (if tp <? t then t else tp) fn.

(** The overload with a duration; the assertion comes first. *)
Definition add_time_handler_in (duration : Z) (fn : timed_fn) : M nat :=
  if duration <? 0 then lift UB
  else
    t ← on_world now;
    tp ← lift (i64 (t + duration));
    add_time_handler_impl tp fn.

Definition add_repeating_handler (interval : Z) (h : H) : M unit :=
  if interval <? 0 then lift UB
  else
    _ ← add_time_handler_in interval (Repeat interval h);
    mret tt.

Definition add_file_handler (file events : Z) (fn : file_fn) : M nat :=
  id ← new_handler_id;
  _ ← on_queue (fun q => set_handlers (<[id := FileHandler fn events (length (poll_events_ q))]> (handlers_ q)) q);
  _ ← on_queue (fun q => set_hids (poll_events_idx_to_hid_ q ++ [id]) q);
  _ ← on_queue (fun q => set_poll (poll_events_ q ++ [mkPollfd file (file_events_to_poll_events events) 0]) q);
  _ ← record (Added id None);
  mret id.

(** [poll_events_[idx].fd = -1] *)
Definition deactivate (idx : nat) : M unit :=
  l ← gets (fun s => poll_events_ (queue s));
  p ← lift (get_or_ub (l !! idx));
  on_queue (set_poll (<[idx := mkPollfd (-1) (events p) (revents p)]> l)).

(** An unknown id makes [handlers_.at] throw, which ends the program. *)
Definition remove_handler (id : nat) : M unit :=
  hs ← gets (fun s => handlers_ (queue s));
  match hs !! id with
  | None => lift (Throw (OutOfRange (lit "map::at")))
  | Some h =>
      _ ← match h with
          | TimedHandler tp _ => on_queue (fun q => set_timed (timed_erase (tp, id) (timed_handlers_ q)) q)
          | FileHandler _ _ idx => deactivate idx
          end;
      _ ← on_queue (fun q => set_handlers (delete id (handlers_ q)) q);
      record (Removed id)
  end.

Definition pause_immediately : M unit :=
  _ ← on_queue (set_pause true);
  on_world (fun w => (write_pause_fd w, tt)).

(** The flag, which other threads may set. *)
Definition immediate_pause_was_requested : M bool :=
  b ← on_world external_pause;
  _ ← when b (on_queue (set_pause true));
  gets (fun s => immediate_pause_ (queue s)).

(** ** Handlers *)

(** What a handler does: it looks at and changes the client's world, uses the
    queue, and returns or throws; [Crash] is undefined behaviour and
    [std::terminate]. *)
Inductive prog (A : Type) : Type :=
| Ret (a : A)
| Fail (e : exn)
| Crash
| Look (k : W -> prog A)
| Effect (f : W -> W) (k : prog A)
| AddReady (h : H) (k : nat -> prog A)
| AddAt (tp : Z) (h : H) (k : nat -> prog A)
| AddIn (duration : Z) (h : H) (k : nat -> prog A)
| AddRepeating (interval : Z) (h : H) (k : prog A)
| AddFile (file events : Z) (h : H) (k : nat -> prog A)
| Remove (id : nat) (k : prog A)
| Pause (k : prog A).

Fixpoint exec {A} (p : prog A) : M A :=
  match p with
  | Ret _ a => mret a
  | Fail _ e => lift (Throw e)
  | Crash _ => lift UB
  | Look _ k => w ← gets world; exec (k w)
  | Effect _ f k => _ ← on_world (fun w => (f w, tt)); exec k
  | AddReady _ h k => id ← add_ready_handler (Once h); exec (k id)
  | AddAt _ tp h k => id ← add_time_handler tp (Once h); exec (k id)
  | AddIn _ d h k => id ← add_time_handler_in d (Once h); exec (k id)
  | AddRepeating _ d h k => _ ← add_repeating_handler d h; exec k
  | AddFile _ file ev h k => id ← add_file_handler file ev (OnFile h); exec (k id)
  | Remove _ id k => _ ← remove_handler id; exec k
  | Pause _ k => _ ← pause_immediately; exec k
  end.

(** The client's functions: timed, repeating (whether to stop) and for file
    events. *)
Variable timed_body : H -> prog unit.
Variable repeating_body : H -> prog bool.
Variable file_body : H -> Z -> prog unit.

Definition call_timed (fn : timed_fn) : M unit :=
  match fn with
  | Once h => exec (timed_body h)
  | Repeat interval h =>
      stop ← exec (repeating_body h);
      if stop : bool then mret tt
      else
        _ ← add_time_handler_in interval (Repeat interval h);
        mret tt
  end.

Definition call_file (fn : file_fn) (events : Z) : M unit :=
  match fn with
  | OnFile h => exec (file_body h events)
  | OnPause => on_queue (set_pause true)
  end.

(** ** Running *)

Definition TIME_QUANTUM : Z := 6000.

(** The body of [process_timed_handlers] after the first read of the clock. *)
Fixpoint timed_loop (fuel : nat) (start t : Z) : M unit :=
  match fuel with
  | O => lift NoFuel
  | S fuel' =>
      ts ← gets (fun s => timed_handlers_ (queue s));
      match ts with
      | [] => mret tt
      | (tp, id) :: rest =>
          if t <? tp then mret tt
          else
            _ ← on_queue (set_timed rest);
            hs ← gets (fun s => handlers_ (queue s));
            match hs !! id with
            | Some (TimedHandler _ fn) =>
                _ ← on_queue (set_handlers (delete id hs));
                _ ← record (TimedCall id t);
                _ ← call_timed fn;
                paused ← immediate_pause_was_requested;
                if paused : bool then mret tt
                else
                  t ← on_world now;
                  bound ← lift (i64 (start + TIME_QUANTUM));
                  if t <=? bound then timed_loop fuel' start t else mret tt
            | _ => lift UB
            end
      end
  end.

Definition process_timed_handlers (fuel : nat) : M unit :=
  ts ← gets (fun s => timed_handlers_ (queue s));
  if decide (ts = []) then mret tt
  else
    paused ← immediate_pause_was_requested;
    if paused : bool then mret tt
    else
      start ← on_world now;
      timed_loop fuel start start.

(** The compression step: entry [idx] becomes entry [new_idx]. *)
Definition move_entry (idx new_idx : nat) : M unit :=
  if (new_idx =? idx)%nat then mret tt
  else
    l ← gets (fun s => poll_events_ (queue s));
    p ← lift (get_or_ub (l !! idx));
    _ ← on_queue (set_poll (<[new_idx := p]> l));
    hids ← gets (fun s => poll_events_idx_to_hid_ (queue s));
    id ← lift (get_or_ub (hids !! idx));
    _ ← on_queue (set_hids (<[new_idx := id]> hids));
    hs ← gets (fun s => handlers_ (queue s));
    match hs !! id with
    | Some (FileHandler fn ev _) =>
        _ ← on_queue (set_handlers (<[id := FileHandler fn ev new_idx]> hs));
        deactivate idx
    | _ => lift UB
    end.

Definition invalid_event (revents : Z) : exn :=
  RuntimeError (lit "pollfd.revents = " ++ to_string revents ++
    lit " is an invalid event (at the moment of implementing this) and cannot be handled").

(** Calling the handler of entry [new_idx]; the result is whether to go on. *)
Definition process_event (new_idx : nat) (revents : Z) : M bool :=
  let events := poll_events_to_file_events revents in
  if negb (events =? 0) then
    hids ← gets (fun s => poll_events_idx_to_hid_ (queue s));
    id ← lift (get_or_ub (hids !! new_idx));
    hs ← gets (fun s => handlers_ (queue s));
    match hs !! id with
    | Some (FileHandler fn _ _) =>
        _ ← record (FileCall id events);
        _ ← call_file fn events;
        paused ← immediate_pause_was_requested;
        mret (negb paused)
    | _ => lift UB
    end
  else if has_bits revents (Z.lor POLLPRI POLLRDHUP) then mret true
  else lift (Throw (invalid_event revents)).

(** The loop of [process_file_events]; [None]: the function returned early. *)
Fixpoint file_loop (fuel idx new_size : nat) (quantum_start : Z) : M (option nat) :=
  match fuel with
  | O => lift NoFuel
  | S fuel' =>
      l ← gets (fun s => poll_events_ (queue s));
      match l !! idx with
      | None => mret (Some new_size)
      | Some p =>
          if fd p <? 0 then file_loop fuel' (S idx) new_size quantum_start
          else
            let new_idx := new_size in
            _ ← move_entry idx new_idx;
            l ← gets (fun s => poll_events_ (queue s));
            p ← lift (get_or_ub (l !! new_idx));
            let revents := revents p in
            if revents =? 0 then file_loop fuel' (S idx) (S new_size) quantum_start
            else
              t ← on_world now;
              bound ← lift (i64 (quantum_start + TIME_QUANTUM));
              if bound <? t then
                _ ← process_timed_handlers fuel';
                paused ← immediate_pause_was_requested;
                if paused : bool then mret None
                else
                  t ← on_world now;
                  l ← gets (fun s => poll_events_ (queue s));
                  p ← lift (get_or_ub (l !! new_idx));
                  if fd p <? 0 then file_loop fuel' (S idx) new_size t
                  else
                    go_on ← process_event new_idx revents;
                    if go_on : bool then file_loop fuel' (S idx) (S new_size) t else mret None
              else
                go_on ← process_event new_idx revents;
                if go_on : bool then file_loop fuel' (S idx) (S new_size) quantum_start else mret None
      end
  end.

Definition process_file_events (fuel : nat) : M unit :=
  paused ← immediate_pause_was_requested;
  if paused : bool then mret tt
  else
    t ← on_world now;
    r ← file_loop fuel 0 0 t;
    match r with
    | None => mret tt
    | Some n =>
        _ ← on_queue (fun q => set_poll (take n (poll_events_ q)) q);
        on_queue (fun q => set_hids (take n (poll_events_idx_to_hid_ q)) q)
    end.

Definition are_there_file_file_handlers (q : EventQueue) : bool :=
  (length (timed_handlers_ q) <? size (handlers_ q))%nat.

(** [timeout]: [None] is -1. *)
Definition compute_timeout : M (option Z) :=
  ts ← gets (fun s => timed_handlers_ (queue s));
  match ts with
  | [] => mret None
  | (first_expiration, _) :: _ =>
      t ← on_world now;
      if first_expiration <? t then mret (Some 0)
      else
        d ← lift (i64 (first_expiration - t));
        mret (Some d)
  end.

Fixpoint set_revents (l : list pollfd) (r : list Z) : list pollfd :=
  match l, r with
  | p :: l', x :: r' => mkPollfd (fd p) (events p) x :: set_revents l' r'
  | _, _ => l
  end.

(** [ppoll], whose result comes with whether [errno] is [EINTR]. *)
Definition call_ppoll (timeout : option Z) : M (Z * bool) :=
  l ← gets (fun s => poll_events_ (queue s));
  '(n, eintr, r) ← on_world (ppoll l timeout);
  _ ← when (negb (n =? -1)) (on_queue (set_poll (set_revents l r)));
  mret (n, eintr).

Definition wait_for_events (timeout : option Z) : M (Z * bool) :=
  q ← gets queue;
  if negb (are_there_file_file_handlers q) then
    _ ← match timeout with
        | Some d => when (0 <? d) (on_world (fun w => (sleep_for d w, tt)))
        | None => mret tt
        end;
    mret (0, false)
  else call_ppoll timeout.

Definition ppoll_error : exn := RuntimeError (lit "ppoll()").

Fixpoint run_loop (fuel : nat) : M unit :=
  match fuel with
  | O => lift NoFuel
  | S fuel' =>
      n ← gets (fun s => size (handlers_ (queue s)));
      if (n <=? 1)%nat then mret tt
      else
        paused ← immediate_pause_was_requested;
        if paused : bool then mret tt
        else
          timeout ← compute_timeout;
          '(ready, eintr) ← wait_for_events timeout;
          _ ← when ((ready =? -1) && negb eintr) (lift (Throw ppoll_error));
          _ ← process_timed_handlers fuel';
          _ ← when (0 <? ready) (process_file_events fuel');
          run_loop fuel'
  end.

Definition run (fuel : nat) : M unit :=
  _ ← on_queue (set_pause false);
  _ ← on_world (fun w => (read_pause_fd w, tt));
  run_loop fuel.

(** The constructor, given the descriptor [eventfd] returned. *)
Definition empty_queue : EventQueue := mkQueue 0 ∅ [] [] [] false.

Definition construct (pause_fd : Z) : M unit :=
  if pause_fd <? 0 then lift (Throw (RuntimeError (lit "eventfd()")))
  else
    _ ← add_file_handler pause_fd READABLE OnPause;
    mret tt.

Definition start (w : W) : ES := mkES w empty_queue [].
End EventQueue.

Arguments timed_fn : clear implicits.
Arguments file_fn : clear implicits.
Arguments handler : clear implicits.
Arguments EventQueue : clear implicits.
Arguments ES : clear implicits.
Arguments prog : clear implicits.
Arguments Ret {W H A} a.
Arguments Fail {W H A} e.
Arguments Crash {W H A}.
Arguments Look {W H A} k.
Arguments Effect {W H A} f k.
Arguments AddReady {W H A} h k.
Arguments AddAt {W H A} tp h k.
Arguments AddIn {W H A} duration h k.
Arguments AddRepeating {W H A} interval h k.
Arguments AddFile {W H A} file events h k.
Arguments Remove {W H A} id k.
Arguments Pause {W H A} k.
