(* ===== verification/EventQueueProofs.v ===== *)
(** * The event queue schedules its handlers

    The queue keeps four containers that refer to each other; handlers change
    them while the queue walks over them.  The containers stay consistent, no
    access of the queue fails, and what the client sees is a run of an abstract
    scheduler: a handler is called only between its addition and its removal, a
    timed one once, not before its time and not after one that is due later. *)

From Stdlib Require Import ZArith Lia Sorted.
From stdpp Require Import sorting.
From S2P Require Import Prelude.
From S2P Require Import StringTransform.
From S2P Require Import Floats.
From S2P Require Import Time.
From S2P Require Import EventQueue.
Local Open Scope Z_scope.

(** ** The abstract scheduler

    The handlers that are registered, with the time of the timed ones. *)

Abbreviation pending := (gmap nat (option Z)).

Inductive sched_step : pending -> event -> pending -> Prop :=
| sched_add m id k : m !! id = None -> sched_step m (Added id k) (<[id := k]> m)
| sched_remove m id k : m !! id = Some k -> sched_step m (Removed id) (delete id m)
| sched_timed m id tp t : m !! id = Some (Some tp) -> tp <= t ->
    (forall id' tp', m !! id' = Some (Some tp') -> tp <= tp') -> sched_step m (TimedCall id t) (delete id m)
| sched_file m id ev : m !! id = Some None -> sched_step m (FileCall id ev) m.

Inductive sched : list event -> pending -> Prop :=
| sched_nil : sched [] ∅
| sched_snoc tr m e m' : sched tr m -> sched_step m e m' -> sched (tr ++ [e]) m'.

(** The ids handed out. *)
Definition added (tr : list event) : list nat := omap (fun e => match e with Added id _ => Some id | _ => None end) tr.

Section Proofs.
Context {W H : Type}.
Implicit Types (s : ES W H) (q : EventQueue H).

(** What the client knows of the queue: the next id, and the handlers without
    the places of their entries. *)
Definition strip (h : handler H) : handler H :=
  match h with TimedHandler tp fn => TimedHandler tp fn | FileHandler fn ev _ => FileHandler fn ev 0 end.
Definition fns q : gmap nat (handler H) := strip <$> handlers_ q.

(** The client's own invariant, which holds while none of its handlers runs, and
    the exceptions it expects. *)
Context (J : nat -> gmap nat (handler H) -> W -> Prop) (allowed : exn -> Prop).
Definition JS s : Prop := J (next_handler_id_ (queue s)) (fns (queue s)) (world s).

Definition kind (h : handler H) : option Z :=
  match h with TimedHandler tp _ => Some tp | FileHandler _ _ _ => None end.
Definition abs q : pending := kind <$> handlers_ q.

(** ** The invariant *)

Definition timed_lt (x y : Z * nat) : Prop := x.1 < y.1 \/ (x.1 = y.1 /\ (x.2 < y.2)%nat).

Definition max_time : Z := 2 ^ 63 - 1.
Definition small_time (t : Z) : Prop := 0 <= t < 2 ^ 62.

Definition fn_ok (h : handler H) : Prop :=
  match h with
  | TimedHandler tp (Repeat interval _) => tp <= max_time /\ small_time interval
  | TimedHandler tp (Once _) => tp <= max_time
  | FileHandler _ _ _ => True
  end.

Record consistent q : Prop := {
  c_lengths : length (poll_events_ q) = length (poll_events_idx_to_hid_ q);
  c_file id fn ev i : handlers_ q !! id = Some (FileHandler fn ev i) ->
    exists p, poll_events_ q !! i = Some p /\ 0 <= fd p /\ poll_events_idx_to_hid_ q !! i = Some id;
  c_live i p : poll_events_ q !! i = Some p -> 0 <= fd p ->
    exists id fn ev, poll_events_idx_to_hid_ q !! i = Some id /\ handlers_ q !! id = Some (FileHandler fn ev i);
  c_timed tp id : (tp, id) ∈ timed_handlers_ q <-> exists fn, handlers_ q !! id = Some (TimedHandler tp fn);
  c_sorted : StronglySorted timed_lt (timed_handlers_ q);
  c_next id : is_Some (handlers_ q !! id) -> (id < next_handler_id_ q)%nat;
  c_fn id h : handlers_ q !! id = Some h -> fn_ok h
}.

Record inv s : Prop := {
  i_queue : consistent (queue s);
  i_sched : sched (trace s) (abs (queue s));
  i_added : NoDup (added (trace s)) /\ Forall (fun id => (id < next_handler_id_ (queue s))%nat) (added (trace s))
}.

(** While the entries are compressed: those from [n] to [i] are dead. *)
Definition gap (n i : nat) s : Prop :=
  (n <= i <= length (poll_events_ (queue s)))%nat /\
  forall k p, (n <= k < i)%nat -> poll_events_ (queue s) !! k = Some p -> fd p < 0.

Definition I (n i : nat) s : Prop := inv s /\ gap n i s.

Lemma I_0 s : inv s -> I 0 0 s.
Proof. intros Hs. split; [done|]. split; [lia|]. intros k p Hk. lia. Qed.

(** ** Triples: without undefined behaviour, and consistent also after an
    exception *)

Definition triple {A} (P : ES W H -> Prop) (m : stm (ES W H) A) (Q : A -> ES W H -> Prop) : Prop :=
  forall s, P s ->
  match m s with
  | (s', Ok a) => Q a s'
  | (s', Throw e) => inv s' /\ allowed e
  | (s', NoFuel) => inv s' /\ JS s'
  | (_, UB) => False
  end.

Lemma triple_ret {A} P (a : A) : triple P (mret a) (fun _ => P).
Proof. intros s Hs. exact Hs. Qed.

Lemma triple_bind {A B} P (m : stm (ES W H) A) (f : A -> stm (ES W H) B) Q R :
  triple P m Q -> (forall a, triple (Q a) (f a) R) -> triple P (m ≫= f) R.
Proof.
  intros Hm Hf s Hs. specialize (Hm s Hs). unfold mbind, stm_bind.
  destruct (m s) as [s' [a|e| |]]; try done. by apply Hf.
Qed.

Lemma triple_conseq {A} (P P' : ES W H -> Prop) (m : stm (ES W H) A) (Q Q' : A -> ES W H -> Prop) :
  triple P m Q -> (forall s, P' s -> P s) -> (forall a s, Q a s -> Q' a s) -> triple P' m Q'.
Proof.
  intros Hm HP HQ s Hs. specialize (Hm s (HP s Hs)). destruct (m s) as [s' [a|e| |]]; auto.
Qed.

Lemma triple_seq {B} P (m : stm (ES W H) unit) (k : stm (ES W H) B) R :
  triple P m (fun _ => P) -> triple P k R -> triple P (_ ← m; k) R.
Proof. intros Hm Hk. eapply triple_bind; [exact Hm|]. done. Qed.

(** The world is not part of the invariant. *)
Lemma I_world n i s w : I n i s -> I n i (mkES w (queue s) (trace s)).
Proof. intros [[H1 H2 H3] G]. by split. Qed.

Lemma triple_world {A} n i (f : W -> W * A) (Q : A -> Prop) : (forall w, Q (f w).2) ->
  triple (I n i) (on_world f) (fun a s => Q a /\ I n i s).
Proof.
  intros HQ s Hs. unfold on_world. specialize (HQ (world s)). destruct (f (world s)) as [w a].
  split; [done|]. by apply I_world.
Qed.

(** Reading a part of the state. *)
Lemma triple_gets {A B} P (f : ES W H -> A) (k : A -> stm (ES W H) B) R :
  (forall s, P s -> match k (f s) s with
                    | (s', Ok a) => R a s' | (s', Throw e) => inv s' /\ allowed e
                    | (s', NoFuel) => inv s' /\ JS s' | (_, UB) => False end) ->
  triple P (a ← gets f; k a) R.
Proof. intros Hk s Hs. exact (Hk s Hs). Qed.

Lemma triple_at {A} (m : stm (ES W H) A) Q s : triple (fun s' => s' = s) m Q ->
  match m s with
  | (s', Ok a) => Q a s' | (s', Throw e) => inv s' /\ allowed e | (s', NoFuel) => inv s' /\ JS s' | (_, UB) => False
  end.
Proof. intros Hm. by apply Hm. Qed.

(** ** Adding handlers *)

Lemma timed_ltb_spec x y : timed_ltb x y = true <-> timed_lt x y.
Proof.
  unfold timed_ltb, timed_lt. rewrite orb_true_iff, andb_true_iff, Z.ltb_lt, Z.eqb_eq, Nat.ltb_lt. done.
Qed.

Lemma timed_insert_elem x l y : y ∈ timed_insert x l <-> y = x \/ y ∈ l.
Proof.
  induction l as [|z l IH]; cbn [timed_insert]; [set_solver|]. destruct (timed_ltb x z); set_solver.
Qed.

Lemma timed_insert_sorted x l : StronglySorted timed_lt l -> x ∉ l -> StronglySorted timed_lt (timed_insert x l).
Proof.
  induction 1 as [|y l Hl IH Hy]; intros Hx; cbn [timed_insert]; [by repeat constructor|].
  destruct (timed_ltb x y) eqn:E.
  - apply timed_ltb_spec in E. constructor; [by constructor|]. constructor; [done|].
    eapply Forall_impl; [exact Hy|]. unfold timed_lt in *. intros z. cbn. lia.
  - assert (timed_lt y x) as Hyx.
    { assert (~ timed_lt x y) as H1 by (rewrite <- timed_ltb_spec; by rewrite E). assert (x <> y) as H2 by set_solver.
      unfold timed_lt in *. destruct x as [a i], y as [b j]; cbn in *.
      destruct (Z.eq_dec a b) as [->|]; [|lia]. assert (i <> j) by congruence. lia. }
    constructor; [apply IH; set_solver|]. apply Forall_forall. intros z [->|Hz]%timed_insert_elem; [done|].
    by eapply Forall_forall in Hy.
Qed.

Lemma fresh q : consistent q -> handlers_ q !! next_handler_id_ q = None.
Proof.
  intros C. destruct (handlers_ q !! next_handler_id_ q) eqn:E; [|done]. exfalso.
  apply (Nat.lt_irrefl (next_handler_id_ q)), C. by eexists.
Qed.

(** A handler added under the next id. *)
Lemma inv_record_added s q k : inv s -> consistent q -> next_handler_id_ q = S (next_handler_id_ (queue s)) ->
  abs q = <[next_handler_id_ (queue s) := k]> (abs (queue s)) ->
  inv (mkES (world s) q (trace s ++ [Added (next_handler_id_ (queue s)) k])).
Proof.
  intros [C S [A1 A2]] Cq Hn Ha. constructor; [done| |]; cbn [queue trace].
  - eapply sched_snoc; [exact S|]. rewrite Ha. constructor. unfold abs. by rewrite lookup_fmap, fresh.
  - unfold added. rewrite omap_app. cbn. fold (added (trace s)). rewrite Hn. split.
    + apply NoDup_app. split; [done|]. split; [|apply NoDup_singleton]. intros id Hid ->%list_elem_of_singleton.
      rewrite Forall_forall in A2. apply A2 in Hid. lia.
    + apply Forall_app. split; [|repeat constructor]. eapply Forall_impl; [exact A2|]. cbn. lia.
Qed.

Definition with_timed (tp : Z) (fn : timed_fn H) q : EventQueue H :=
  let id := next_handler_id_ q in
  mkQueue (S id) (<[id := TimedHandler tp fn]> (handlers_ q)) (timed_insert (tp, id) (timed_handlers_ q))
    (poll_events_ q) (poll_events_idx_to_hid_ q) (immediate_pause_ q).

Lemma with_timed_consistent tp fn q : consistent q -> fn_ok (TimedHandler tp fn) -> consistent (with_timed tp fn q).
Proof.
  intros C Hfn. pose proof (fresh q C) as F. destruct C as [C1 C2 C3 C4 C5 C6 C7]. constructor; cbn; auto.
  - intros id f ev i. rewrite lookup_insert_Some. intros [[_ ?]|[_ Hh]]; [done|]. by eapply C2.
  - intros i p Hp Hfd. destruct (C3 i p Hp Hfd) as (id & f & ev & Hh & Hid). exists id, f, ev. split; [done|].
    rewrite lookup_insert_ne; [done|]. intros <-. congruence.
  - intros tp0 id0. rewrite timed_insert_elem, C4. setoid_rewrite lookup_insert_Some. split.
    + intros [[= -> ->]|[f Hf]]; [by eauto|]. exists f. right. split; [congruence|done].
    + intros [f [[-> [= -> ->]]|[_ Hf]]]; [by left|right; by eauto].
  - apply timed_insert_sorted; [done|]. rewrite C4. intros [f Hf]. congruence.
  - intros id [h Hh]. apply lookup_insert_Some in Hh as [[<- _]|[_ Hh]]; [lia|]. apply Nat.lt_lt_succ_r, C6. by eexists.
  - intros id h. rewrite lookup_insert_Some. intros [[_ <-]|[_ Hh]]; [done|by eapply C7].
Qed.

Lemma add_time_handler_impl_triple n i tp fn : fn_ok (TimedHandler tp fn) ->
  triple (I n i) (add_time_handler_impl tp fn) (fun _ => I n i).
Proof.
  intros Hfn s [Hs G].
  change (add_time_handler_impl tp fn s) with
    (mkES (world s) (with_timed tp fn (queue s)) (trace s ++ [Added (next_handler_id_ (queue s)) (Some tp)]),
     @Ok nat (next_handler_id_ (queue s))).
  split; [|done]. apply inv_record_added; [done| |done|].
  - by apply with_timed_consistent; [apply Hs|].
  - unfold abs, with_timed. cbn. by rewrite fmap_insert.
Qed.

Definition with_file (file events : Z) (fn : file_fn H) q : EventQueue H :=
  let id := next_handler_id_ q in
  mkQueue (S id) (<[id := FileHandler fn events (length (poll_events_ q))]> (handlers_ q)) (timed_handlers_ q)
    (poll_events_ q ++ [mkPollfd file (file_events_to_poll_events events) 0]) (poll_events_idx_to_hid_ q ++ [id])
    (immediate_pause_ q).

Lemma with_file_consistent file events fn q : consistent q -> 0 <= file -> consistent (with_file file events fn q).
Proof.
  intros C Hfd. pose proof (fresh q C) as F. destruct C as [C1 C2 C3 C4 C5 C6 C7]. constructor; cbn; auto.
  - rewrite !length_app. cbn. lia.
  - intros id f ev i. rewrite lookup_insert_Some. intros [[<- [= <- <- <-]]|[_ Hh]].
    + exists (mkPollfd file (file_events_to_poll_events events) 0). rewrite C1 at 2.
      rewrite !lookup_app_r, !Nat.sub_diag by lia. done.
    + destruct (C2 id f ev i Hh) as (p & Hp & ? & ?). exists p. split_and!; [by apply lookup_app_l_Some|done|by apply lookup_app_l_Some].
  - intros i p Hp Hpos. apply lookup_app_Some in Hp as [Hp|[Hle Hp]].
    + destruct (C3 i p Hp Hpos) as (id & f & ev & Hh & Hid). exists id, f, ev.
      rewrite (lookup_app_l_Some _ _ _ _ Hh). split; [done|]. rewrite lookup_insert_ne; [done|]. intros <-. congruence.
    + apply list_lookup_singleton_Some in Hp as [Hi <-]. assert (i = length (poll_events_ q)) as -> by lia.
      exists (next_handler_id_ q), fn, events. rewrite C1 at 1. rewrite lookup_app_r, Nat.sub_diag, lookup_insert_eq by lia. done.
  - intros tp id. rewrite C4. setoid_rewrite lookup_insert_Some. split.
    + intros [f Hf]. exists f. right. split; [congruence|done].
    + intros [f [[_ ?]|[_ Hf]]]; [done|by eauto].
  - intros id [h Hh]. apply lookup_insert_Some in Hh as [[<- _]|[_ Hh]]; [lia|]. apply Nat.lt_lt_succ_r, C6. by eexists.
  - intros id h. rewrite lookup_insert_Some. intros [[_ <-]|[_ Hh]]; [done|by eapply C7].
Qed.

Lemma add_file_handler_triple n i file events fn : 0 <= file ->
  triple (I n i) (add_file_handler file events fn) (fun _ => I n i).
Proof.
  intros Hfd s [Hs [G1 G2]].
  change (add_file_handler file events fn s) with
    (mkES (world s) (with_file file events fn (queue s)) (trace s ++ [Added (next_handler_id_ (queue s)) None]),
     @Ok nat (next_handler_id_ (queue s))).
  split.
  - apply inv_record_added; [done| |done|].
    + by apply with_file_consistent; [apply Hs|].
    + unfold abs, with_file. cbn. by rewrite fmap_insert.
  - split; cbn; [rewrite length_app; lia|]. intros k p Hk. rewrite lookup_app_l by lia. by apply G2.
Qed.

(** ** Removing handlers *)

Lemma delete_file_other q id h i fn ev id0 : handlers_ q !! id = Some h -> kind h <> None ->
  handlers_ q !! id0 = Some (FileHandler fn ev i) -> delete id (handlers_ q) !! id0 = Some (FileHandler fn ev i).
Proof. intros Hh Hk H0. rewrite lookup_delete_ne; [done|]. intros <-. rewrite Hh in H0. by injection H0 as ->. Qed.

(** A timed handler taken out of both containers. *)
Definition without_timed (id : nat) (ts : list (Z * nat)) q : EventQueue H :=
  mkQueue (next_handler_id_ q) (delete id (handlers_ q)) ts (poll_events_ q) (poll_events_idx_to_hid_ q) (immediate_pause_ q).

Lemma without_timed_consistent id tp fn ts q : consistent q -> handlers_ q !! id = Some (TimedHandler tp fn) ->
  (forall x, x ∈ ts <-> x ∈ timed_handlers_ q /\ x <> (tp, id)) -> StronglySorted timed_lt ts ->
  consistent (without_timed id ts q).
Proof.
  intros [C1 C2 C3 C4 C5 C6 C7] Hh Hts Hsort. constructor; cbn; auto.
  - intros id0 f ev i. rewrite lookup_delete_Some. intros [_ ?]. by eapply C2.
  - intros i p Hp Hfd. destruct (C3 i p Hp Hfd) as (id0 & f & ev & ? & ?). exists id0, f, ev. split; [done|].
    by eapply delete_file_other.
  - intros tp0 id0. rewrite Hts, C4. setoid_rewrite lookup_delete_Some. split.
    + intros [[f Hf] Hne]. exists f. split; [|done]. intros <-. congruence.
    + intros [f [Hne Hf]]. split; [by eauto|congruence].
  - intros id0 [h Hd]. apply lookup_delete_Some in Hd as [_ Hd]. apply C6. by eexists.
  - intros id0 h. rewrite lookup_delete_Some. intros [_ ?]. by eapply C7.
Qed.

(** A file handler taken out; its entry is left behind, dead. *)
Definition dead (p : pollfd) : pollfd := mkPollfd (-1) (events p) (revents p).

Definition without_file (id idx : nat) (p : pollfd) q : EventQueue H :=
  mkQueue (next_handler_id_ q) (delete id (handlers_ q)) (timed_handlers_ q) (<[idx := dead p]> (poll_events_ q))
    (poll_events_idx_to_hid_ q) (immediate_pause_ q).

Lemma without_file_consistent id idx fn ev p q : consistent q -> handlers_ q !! id = Some (FileHandler fn ev idx) ->
  consistent (without_file id idx p q).
Proof.
  intros [C1 C2 C3 C4 C5 C6 C7] Hh. destruct (C2 _ _ _ _ Hh) as (p0 & Hp0 & _ & Hid). constructor; cbn; auto.
  - by rewrite length_insert.
  - intros id0 f ev0 i. rewrite lookup_delete_Some. intros [Hne H0]. destruct (C2 _ _ _ _ H0) as (p1 & Hp1 & ? & ?).
    exists p1. rewrite list_lookup_insert_ne; [done|]. congruence.
  - intros i p1 Hp1 Hfd. apply list_lookup_insert_Some in Hp1 as [(_ & <- & _)|[Hne Hp1]]; [done|].
    destruct (C3 i p1 Hp1 Hfd) as (id0 & f & ev0 & H1 & H2). exists id0, f, ev0. split; [done|].
    rewrite lookup_delete_ne; [done|]. congruence.
  - intros tp0 id0. rewrite C4. setoid_rewrite lookup_delete_Some. split.
    + intros [f Hf]. exists f. split; [|done]. congruence.
    + intros [f [_ Hf]]. by eauto.
  - intros id0 [h Hd]. apply lookup_delete_Some in Hd as [_ Hd]. apply C6. by eexists.
  - intros id0 h. rewrite lookup_delete_Some. intros [_ ?]. by eapply C7.
Qed.

Lemma gap_dead n i idx p s w q tr : gap n i s -> poll_events_ q = <[idx := dead p]> (poll_events_ (queue s)) ->
  gap n i (mkES w q tr).
Proof.
  intros [G1 G2] E. split; cbn; rewrite E; [by rewrite length_insert|]. intros k p0 Hk H0.
  apply list_lookup_insert_Some in H0 as [(_ & <- & _)|[_ H0]]; [done|by eapply G2].
Qed.

Lemma inv_record s q e m : inv s -> consistent q -> next_handler_id_ q = next_handler_id_ (queue s) ->
  abs q = m -> sched_step (abs (queue s)) e m -> added [e] = [] -> inv (mkES (world s) q (trace s ++ [e])).
Proof.
  intros [C S A] Cq Hn <- Hstep He. constructor; cbn [queue trace]; [done| |].
  - by eapply sched_snoc.
  - unfold added. rewrite omap_app. fold (added [e]). rewrite He, app_nil_r. rewrite Hn. exact A.
Qed.

Lemma sorted_filter_timed (P : Z * nat -> Prop) `{!forall x, Decision (P x)} l :
  StronglySorted timed_lt l -> StronglySorted timed_lt (filter P l).
Proof.
  induction 1 as [|x l Hl IH Hx]; [constructor|]. rewrite filter_cons. case_decide; [|done]. constructor; [done|].
  apply Forall_forall. intros y [_ Hy]%list_elem_of_filter. by eapply Forall_forall in Hx.
Qed.

Lemma remove_handler_triple n i id : allowed (OutOfRange (lit "map::at")) ->
  triple (I n i) (remove_handler id) (fun _ => I n i).
Proof.
  intros Hall.
  intros s [Hs G]. unfold remove_handler. unfold mbind at 1, stm_bind at 1. unfold gets at 1.
  pose proof (i_queue _ Hs) as C. destruct (handlers_ (queue s) !! id) as [[tp fn|fn ev idx]|] eqn:Hh; [| |by split].
  - set (ts := timed_erase (tp, id) (timed_handlers_ (queue s))).
    change (let '(s', r) := ((_ ← on_queue (fun q => set_timed (timed_erase (tp, id) (timed_handlers_ q)) q);
      _ ← on_queue (fun q => set_handlers (delete id (handlers_ q)) q); record (Removed id)) : stm (ES W H) unit) s in
      match r with Ok a => I n i s' | Throw e => inv s' /\ allowed e | NoFuel => inv s' /\ JS s' | UB => False end)
    with (I n i (mkES (world s) (without_timed id ts (queue s)) (trace s ++ [Removed id]))).
    split; [|exact G]. eapply inv_record; [done| |done|done| |done].
    + eapply without_timed_consistent; [done|done| |by apply sorted_filter_timed, C].
      intros x. unfold ts, timed_erase. rewrite list_elem_of_filter. tauto.
    + unfold abs at 2. cbn. rewrite fmap_delete. eapply sched_remove. by rewrite lookup_fmap, Hh.
  - destruct (c_file _ C _ _ _ _ Hh) as (p & Hp & _ & _).
    assert (deactivate idx s = (mkES (world s) (set_poll (<[idx := dead p]> (poll_events_ (queue s))) (queue s)) (trace s), Ok tt)) as E.
    { unfold deactivate, gets, lift, on_queue, modify, mbind, stm_bind. by rewrite Hp. }
    rewrite (stm_bind_run _ _ _ _ _ E).
    change (I n i (mkES (world s) (without_file id idx p (queue s)) (trace s ++ [Removed id]))).
    split; [|by eapply gap_dead]. eapply inv_record; [done| |done|done| |done].
    + by eapply without_file_consistent.
    + unfold abs at 2. cbn. rewrite fmap_delete. eapply sched_remove. by rewrite lookup_fmap, Hh.
Qed.

(** ** Handlers at work *)

Lemma I_pause n i s b : I n i s -> I n i (mkES (world s) (set_pause b (queue s)) (trace s)).
Proof. intros [[C S A] G]. split; [|exact G]. split; [|exact S|exact A]. by destruct C; constructor. Qed.

Variable now : W -> W * Z.
Variable ppoll : list pollfd -> option Z -> W -> W * (Z * bool * list Z).
Variable sleep_for : Z -> W -> W.
Variable external_pause : W -> W * bool.
Variable write_pause_fd read_pause_fd : W -> W.
Variable timed_body : H -> prog W H unit.
Variable repeating_body : H -> prog W H bool.
Variable file_body : H -> Z -> prog W H unit.

(** The programs of the client: times that fit, descriptors that are open. *)
Fixpoint prog_ok {A} (p : prog W H A) : Prop :=
  match p with
  | Ret _ | Fail _ => True
  | Crash => False
  | Look k => forall w, prog_ok (k w)
  | Effect _ k => prog_ok k
  | AddReady _ k => forall id, prog_ok (k id)
  | AddAt tp _ k => tp <= max_time /\ forall id, prog_ok (k id)
  | AddIn d _ k => small_time d /\ forall id, prog_ok (k id)
  | AddRepeating d _ k => small_time d /\ prog_ok k
  | AddFile file _ _ k => 0 <= file /\ forall id, prog_ok (k id)
  | Remove _ k => prog_ok k
  | Pause k => prog_ok k
  end.

Hypothesis clock : forall w, small_time (now w).2.

Lemma now_triple n i : triple (I n i) (on_world now) (fun t s => small_time t /\ I n i s).
Proof. by apply (triple_world n i now small_time). Qed.

Lemma triple_pure {A} (Q : Prop) P (m : stm (ES W H) A) R : (Q -> triple P m R) -> triple (fun s => Q /\ P s) m R.
Proof. intros Hm s [HQ HP]. by apply Hm. Qed.

(** The clock is read, then [m] runs. *)
Lemma now_bind {B} n i (k : Z -> stm (ES W H) B) R :
  (forall t, small_time t -> triple (I n i) (k t) R) -> triple (I n i) (t ← on_world now; k t) R.
Proof. intros Hk. eapply triple_bind; [apply now_triple|]. intros t. apply triple_pure. intros Ht. by apply Hk. Qed.

Lemma i64_bind {B} P x (k : Z -> stm (ES W H) B) R :
  - 2 ^ 63 <= x <= max_time -> triple P (k x) R -> triple P (y ← lift (i64 x); k y) R.
Proof.
  intros Hx Hk. assert (i64 x = Ok x) as E by (apply i64_ok; unfold max_time in Hx; lia). rewrite E.
  intros s Hs. exact (Hk s Hs).
Qed.

Lemma add_time_handler_in_triple n i d fn : small_time d ->
  (forall tp, tp <= max_time -> fn_ok (TimedHandler tp fn)) ->
  triple (I n i) (add_time_handler_in now d fn) (fun _ => I n i).
Proof.
  intros Hd Hfn. unfold add_time_handler_in. destruct (Z.ltb_spec d 0); [unfold small_time in Hd; lia|].
  apply now_bind. intros t Ht. apply i64_bind; [unfold small_time, max_time in *; lia|].
  apply add_time_handler_impl_triple, Hfn. unfold small_time, max_time in *. lia.
Qed.

Lemma pause_triple n i : triple (I n i) (pause_immediately write_pause_fd) (fun _ => I n i).
Proof. intros s Hs. apply (I_world n i (mkES (world s) (set_pause true (queue s)) (trace s))). by apply I_pause. Qed.

Lemma exec_triple n i {A} (p : prog W H A) : (forall e, allowed e) -> prog_ok p ->
  triple (I n i) (exec now write_pause_fd p) (fun _ => I n i).
Proof.
  intros Hall.
  induction p as [a|e| |k IH|f k IH|h k IH|tp h k IH|d h k IH|d h k IH|file ev h k IH|id k IH|k IH]; cbn [exec prog_ok]; intros Hp.
  - apply triple_ret.
  - intros s [Hs _]. by split.
  - done.
  - intros s Hs. by apply IH.
  - eapply triple_bind; [apply (triple_world n i _ (fun _ => True)); done|]. intros u. apply triple_pure. intros _. by apply IH.
  - eapply triple_bind; [|intros id; by apply IH]. apply now_bind. intros t Ht. apply add_time_handler_impl_triple.
    unfold fn_ok, small_time, max_time in *. lia.
  - destruct Hp as [Htp Hk]. eapply triple_bind; [|intros id; by apply IH]. apply now_bind. intros t Ht.
    apply add_time_handler_impl_triple. cbn. destruct (tp <? t); unfold small_time, max_time in *; lia.
  - destruct Hp as [Hd Hk]. eapply triple_bind; [|intros id; by apply IH]. by apply add_time_handler_in_triple.
  - destruct Hp as [Hd Hk]. eapply triple_bind; [|intros u; by apply IH]. unfold add_repeating_handler.
    destruct (Z.ltb_spec d 0); [unfold small_time in Hd; lia|].
    eapply triple_bind; [by apply add_time_handler_in_triple|]. intros id. apply triple_ret.
  - destruct Hp as [Hd Hk]. eapply triple_bind; [by apply add_file_handler_triple|]. intros id. by apply IH.
  - eapply triple_bind; [by apply remove_handler_triple|]. intros u. by apply IH.
  - eapply triple_bind; [apply pause_triple|]. intros u. by apply IH.
Qed.

(** The client's functions keep its invariant: a timed one is called when the
    queue has already forgotten it. *)
Definition IJ (n i : nat) s : Prop := I n i s /\ JS s.
Definition called (n i id : nat) (tp : Z) (fn : timed_fn H) s : Prop :=
  I n i s /\ fns (queue s) !! id = None /\
  J (next_handler_id_ (queue s)) (<[id := TimedHandler tp fn]> (fns (queue s))) (world s).

Hypothesis queue_exceptions : allowed ppoll_error /\ forall r, allowed (invalid_event r).
Hypothesis timed_keeps : forall n i id tp fn, fn_ok (TimedHandler tp fn) ->
  triple (called n i id tp fn) (call_timed now write_pause_fd timed_body repeating_body fn) (fun _ => IJ n i).
Hypothesis file_keeps : forall n i id e fn ev,
  triple (fun s => IJ n i s /\ fns (queue s) !! id = Some (FileHandler fn e 0))
    (call_file now write_pause_fd file_body fn ev) (fun _ => IJ n i).
Hypothesis outside_keeps : forall k m w, J k m w ->
  J k m (now w).1 /\ (forall l t, J k m (ppoll l t w).1) /\ (forall d, J k m (sleep_for d w)) /\
  J k m (external_pause w).1 /\ J k m (read_pause_fd w).

Lemma IJ_pause n i s b : IJ n i s -> IJ n i (mkES (world s) (set_pause b (queue s)) (trace s)).
Proof. intros [Hi Hj]. split; [by apply I_pause|exact Hj]. Qed.

Lemma IJ_world n i s w : IJ n i s -> (forall k m, J k m (world s) -> J k m w) -> IJ n i (mkES w (queue s) (trace s)).
Proof. intros [Hi Hj] Hw. split; [by apply I_world|by apply Hw]. Qed.

Lemma now_J_bind {B} n i (k : Z -> stm (ES W H) B) R :
  (forall t, small_time t -> triple (IJ n i) (k t) R) -> triple (IJ n i) (t ← on_world now; k t) R.
Proof.
  intros Hk s Hs. unfold mbind, stm_bind, on_world. pose proof (clock (world s)) as Hc.
  assert (forall k m, J k m (world s) -> J k m (now (world s)).1) as Ho by (intros; by apply outside_keeps).
  destruct (now (world s)) as [w t]. apply Hk; [done|]. by apply IJ_world.
Qed.

Lemma pause_requested_triple n i : triple (IJ n i) (immediate_pause_was_requested external_pause) 
  (fun b s => IJ n i s /\ b = immediate_pause_ (queue s)).
Proof.
  intros s Hs. unfold immediate_pause_was_requested, mbind, stm_bind, on_world.
  assert (forall k m, J k m (world s) -> J k m (external_pause (world s)).1) as Ho by (intros; by apply outside_keeps).
  destruct (external_pause (world s)) as [w b]. apply (IJ_world n i s w) in Hs; [|done].
  destruct b; [|by split]. split; [exact (IJ_pause n i _ true Hs)|done].
Qed.

Lemma pause_requested_bind {B} n i (k : bool -> stm (ES W H) B) R : (forall b, triple (IJ n i) (k b) R) ->
  triple (IJ n i) (b ← immediate_pause_was_requested external_pause; k b) R.
Proof. intros Hk. eapply triple_bind; [apply pause_requested_triple|]. intros b s [Hs _]. by apply Hk. Qed.

(** ** Timed handlers *)

(** The first timed handler taken out and recorded as called. *)
Lemma I_timed_call n i s tp id rest t fn : I n i s -> timed_handlers_ (queue s) = (tp, id) :: rest -> tp <= t ->
  handlers_ (queue s) !! id = Some (TimedHandler tp fn) ->
  I n i (mkES (world s) (without_timed id rest (queue s)) (trace s ++ [TimedCall id t])).
Proof.
  intros [Hs G] E Ht Hh. pose proof (i_queue _ Hs) as C. pose proof (c_sorted _ C) as Hsort. rewrite E in Hsort.
  apply StronglySorted_inv in Hsort as [Hsort Hfirst]. split; [|exact G]. eapply inv_record; [done| |done|done| |done].
  - eapply without_timed_consistent; [done|done| |done]. intros x. rewrite E, elem_of_cons. split.
    + intros Hx. split; [by right|]. intros ->. rewrite Forall_forall in Hfirst. apply Hfirst in Hx. unfold timed_lt in Hx. lia.
    + by intros [[->|Hx] Hne].
  - unfold abs at 2. cbn. rewrite fmap_delete. eapply sched_timed; [by rewrite lookup_fmap, Hh|done|].
    intros id' tp' H'. unfold abs in H'. rewrite lookup_fmap in H'. apply fmap_Some in H' as (h & Hh' & Hk).
    destruct h as [tp0 fn0|]; [|done]. injection Hk as <-.
    assert ((tp', id') ∈ timed_handlers_ (queue s)) as Hin by (apply C; by eauto).
    rewrite E, elem_of_cons in Hin. destruct Hin as [[= -> ->]|Hin]; [lia|].
    rewrite Forall_forall in Hfirst. apply Hfirst in Hin. unfold timed_lt in Hin. cbn in Hin. lia.
Qed.

Abbreviation timed_loop' := (timed_loop now external_pause write_pause_fd timed_body repeating_body).
Abbreviation process_timed' := (process_timed_handlers now external_pause write_pause_fd timed_body repeating_body).

Lemma timed_loop_triple n i fuel : forall start t, small_time start ->
  triple (IJ n i) (timed_loop' fuel start t) (fun _ => IJ n i).
Proof.
  induction fuel as [|fuel IH]; intros start t Hst; [by intros s [[Hs _] Hj]|]. cbn [timed_loop]. apply triple_gets.
  intros s HsJ. destruct HsJ as [Hs Hj] eqn:EH. destruct (timed_handlers_ (queue s)) as [|[tp id] rest] eqn:E; [exact HsJ|].
  destruct (Z.ltb_spec t tp); [exact HsJ|]. clear HsJ EH. pose proof (i_queue _ (proj1 Hs)) as C.
  assert (exists fn, handlers_ (queue s) !! id = Some (TimedHandler tp fn)) as [fn Hh].
  { apply C. rewrite E. left. }
  pose proof (c_fn _ C _ _ Hh) as Hfn. set (s1 := mkES (world s) (set_timed rest (queue s)) (trace s)).
  rewrite (stm_bind_run _ _ s s1 tt) by reflexivity. rewrite (stm_bind_run _ _ s1 s1 (handlers_ (queue s))) by reflexivity. rewrite Hh.
  set (s2 := mkES (world s) (without_timed id rest (queue s)) (trace s)). rewrite (stm_bind_run _ _ s1 s2 tt) by reflexivity.
  rewrite (stm_bind_run _ _ s2 (mkES (world s) (queue s2) (trace s ++ [TimedCall id t])) tt) by reflexivity.
  apply (triple_bind (called n i id tp fn) _ _ (fun _ => IJ n i)); [by apply timed_keeps| |].
  2:{ split; [by eapply I_timed_call|]. cbn [queue world]. unfold fns, without_timed. cbn. rewrite fmap_delete.
      split; [by rewrite lookup_delete_eq|]. rewrite insert_delete_id; [exact Hj|]. by rewrite lookup_fmap, Hh. }
  intros u. apply pause_requested_bind. intros [|]; [apply triple_ret|].
  apply now_J_bind. intros t' Ht'. apply i64_bind; [unfold small_time, TIME_QUANTUM, max_time in *; lia|].
  destruct (t' <=? start + TIME_QUANTUM); [by apply IH|apply triple_ret].
Qed.

Lemma process_timed_triple n i fuel : triple (IJ n i) (process_timed' fuel) (fun _ => IJ n i).
Proof.
  unfold process_timed_handlers. apply triple_gets. intros s Hs. case_decide; [exact Hs|].
  revert s Hs H0. cut (triple (IJ n i) (paused ← immediate_pause_was_requested external_pause;
    if paused : bool then mret tt else start ← on_world now; timed_loop' fuel start start) (fun _ => IJ n i)).
  { intros Ht s Hs _. exact (Ht s Hs). }
  apply pause_requested_bind. intros [|]; [apply triple_ret|].
  apply now_J_bind. intros t Ht. by apply timed_loop_triple.
Qed.

(** ** Compressing the entries *)

Definition live_at (n : nat) s : Prop := exists p, poll_events_ (queue s) !! n = Some p /\ 0 <= fd p.

Definition moved (idx n id : nat) (fn : file_fn H) (ev : Z) (p : pollfd) q : EventQueue H :=
  mkQueue (next_handler_id_ q) (<[id := FileHandler fn ev n]> (handlers_ q)) (timed_handlers_ q)
    (<[idx := dead p]> (<[n := p]> (poll_events_ q))) (<[n := id]> (poll_events_idx_to_hid_ q)) (immediate_pause_ q).

Section Moved.
Context (s : ES W H) (idx n id : nat) (fn : file_fn H) (ev : Z) (p : pollfd).
Hypothesis Hs : I n idx s.
Hypothesis Hlt : (n < idx)%nat.
Hypothesis Hp : poll_events_ (queue s) !! idx = Some p.
Hypothesis Hfd : 0 <= fd p.
Hypothesis Hid : poll_events_idx_to_hid_ (queue s) !! idx = Some id.
Hypothesis Hh : handlers_ (queue s) !! id = Some (FileHandler fn ev idx).

Lemma moved_poll_n : poll_events_ (moved idx n id fn ev p (queue s)) !! n = Some p.
Proof.
  cbn. rewrite list_lookup_insert_ne, list_lookup_insert_eq; [done| |lia]. apply lookup_lt_Some in Hp. lia.
Qed.

Lemma moved_poll i p0 : 0 <= fd p0 -> i <> n ->
  poll_events_ (moved idx n id fn ev p (queue s)) !! i = Some p0 -> i <> idx /\ poll_events_ (queue s) !! i = Some p0.
Proof.
  cbn. intros H0 Hi E. apply list_lookup_insert_Some in E as [(_ & <- & _)|[Hne E]]; [done|].
  rewrite list_lookup_insert_ne in E by done. auto.
Qed.

(** The place the entry goes to is not used by a handler. *)
Lemma moved_target_free id0 f e i : handlers_ (queue s) !! id0 = Some (FileHandler f e i) -> i <> n.
Proof.
  intros H0 ->. destruct (c_file _ (i_queue _ (proj1 Hs)) _ _ _ _ H0) as (p0 & Hp0 & Hfd0 & _).
  apply (proj2 (proj2 Hs)) in Hp0; lia.
Qed.

Lemma moved_consistent : consistent (moved idx n id fn ev p (queue s)).
Proof.
  pose proof (i_queue _ (proj1 Hs)) as C. destruct C as [C1 C2 C3 C4 C5 C6 C7] eqn:EC. clear EC.
  assert (n < length (poll_events_idx_to_hid_ (queue s)))%nat as Hn by (apply lookup_lt_Some in Hid; lia). constructor; auto.
  - cbn. by rewrite !length_insert.
  - intros id0 f e i. cbn [moved handlers_]. rewrite lookup_insert_Some. intros [[<- [= <- <- <-]]|[Hne H0]].
    + exists p. split; [apply moved_poll_n|]. split; [done|]. cbn. by rewrite list_lookup_insert_eq.
    + pose proof (moved_target_free _ _ _ _ H0) as Hin. destruct (C2 _ _ _ _ H0) as (p0 & Hp0 & Hfd0 & Hid0). exists p0.
      assert (i <> idx) by congruence. cbn. rewrite !list_lookup_insert_ne by done. done.
  - intros i p0 Hp0 Hfd0. destruct (decide (i = n)) as [->|Hin].
    + exists id, fn, ev. cbn. by rewrite list_lookup_insert_eq, lookup_insert_eq.
    + apply moved_poll in Hp0 as [Hidx Hp0]; [|done|done]. destruct (C3 i p0 Hp0 Hfd0) as (id0 & f & e & H1 & H2).
      exists id0, f, e. cbn. rewrite list_lookup_insert_ne, lookup_insert_ne by (done || congruence). done.
  - intros tp id0. cbn. rewrite C4. setoid_rewrite lookup_insert_Some. split.
    + intros [f Hf]. exists f. right. split; [congruence|done].
    + intros [f [[_ ?]|[_ Hf]]]; [done|by eauto].
  - intros id0 [h H0]. cbn in H0. apply lookup_insert_Some in H0 as [[<- _]|[_ H0]]; apply C6; by eexists.
  - intros id0 h. cbn. rewrite lookup_insert_Some. intros [[_ <-]|[_ H0]]; [done|by eapply C7].
Qed.

Lemma moved_I : I (S n) (S idx) (mkES (world s) (moved idx n id fn ev p (queue s)) (trace s)).
Proof.
  destruct Hs as [[C S A] [G1 G2]]. split; [split|].
  - apply moved_consistent.
  - assert (abs (moved idx n id fn ev p (queue s)) = abs (queue s)) as E.
    { unfold abs, moved. cbn. rewrite fmap_insert. apply insert_id. by rewrite lookup_fmap, Hh. }
    cbn [queue trace]. by rewrite E.
  - exact A.
  - split; cbn [queue].
    + cbn. rewrite !length_insert. apply lookup_lt_Some in Hp. lia.
    + intros k p0 Hk H0. destruct (Z_lt_le_dec (fd p0) 0) as [|Hpos]; [done|].
      apply moved_poll in H0 as [Hidx H0]; [|done|lia]. apply (G2 k p0); [lia|done].
Qed.

Lemma moved_fns : fns (moved idx n id fn ev p (queue s)) = fns (queue s).
Proof. unfold fns, moved. cbn. rewrite fmap_insert. apply insert_id. by rewrite lookup_fmap, Hh. Qed.
End Moved.

Lemma move_entry_triple idx n p : triple (fun s => IJ n idx s /\ poll_events_ (queue s) !! idx = Some p /\ 0 <= fd p)
  (move_entry idx n) (fun _ s => IJ (S n) (S idx) s /\ live_at n s).
Proof.
  intros s ([Hs Hj] & Hp & Hfd). unfold move_entry. destruct (n =? idx)%nat eqn:E.
  - apply Nat.eqb_eq in E as ->. split; [|by exists p]. split; [|exact Hj]. split; [apply Hs|]. split; [apply lookup_lt_Some in Hp; lia|].
    intros k p0 Hk. lia.
  - apply Nat.eqb_neq in E. assert (n < idx)%nat as Hlt by (pose proof (proj1 (proj2 Hs)); lia).
    destruct (c_live _ (i_queue _ (proj1 Hs)) _ _ Hp Hfd) as (id & fn & ev & Hid & Hh).
    set (s1 := mkES (world s) (set_poll (<[n := p]> (poll_events_ (queue s))) (queue s)) (trace s)).
    set (s2 := mkES (world s) (set_hids (<[n := id]> (poll_events_idx_to_hid_ (queue s))) (queue s1)) (trace s)).
    set (s3 := mkES (world s) (set_handlers (<[id := FileHandler fn ev n]> (handlers_ (queue s))) (queue s2)) (trace s)).
    assert (move_entry idx n s = (mkES (world s) (moved idx n id fn ev p (queue s)) (trace s), Ok tt)) as R.
    { unfold move_entry. apply Nat.eqb_neq in E as ->.
      rewrite (stm_bind_run _ _ s s (poll_events_ (queue s))) by reflexivity.
      rewrite (stm_bind_run _ _ s s p) by (unfold lift; by rewrite Hp).
      rewrite (stm_bind_run _ _ s s1 tt) by reflexivity.
      rewrite (stm_bind_run _ _ s1 s1 (poll_events_idx_to_hid_ (queue s))) by reflexivity.
      rewrite (stm_bind_run _ _ s1 s1 id) by (unfold lift; by rewrite Hid).
      rewrite (stm_bind_run _ _ s1 s2 tt) by reflexivity.
      rewrite (stm_bind_run _ _ s2 s2 (handlers_ (queue s))) by reflexivity. rewrite Hh.
      rewrite (stm_bind_run _ _ s2 s3 tt) by reflexivity.
      unfold deactivate. rewrite (stm_bind_run _ _ s3 s3 (<[n := p]> (poll_events_ (queue s)))) by reflexivity.
      rewrite (stm_bind_run _ _ s3 s3 p) by (unfold lift; by rewrite list_lookup_insert_ne, Hp by lia). reflexivity. }
    unfold move_entry in R. apply Nat.eqb_neq in E. rewrite E in R. rewrite R. split.
    { split; [by apply moved_I|]. unfold JS. cbn [queue world]. erewrite moved_fns by done. exact Hj. }
    exists p. split; [by apply moved_poll_n|done].
Qed.

(** ** File events *)

Lemma process_event_triple n i k r : triple (fun s => IJ n i s /\ live_at k s)
  (process_event now external_pause write_pause_fd file_body k r) (fun _ => IJ n i).
Proof.
  intros s [[Hs Hj] (p & Hp & Hfd)]. unfold process_event. destruct (poll_events_to_file_events r =? 0); cbn [negb].
  { destruct (has_bits _ _); [by split|]. split; [exact (proj1 Hs)|apply queue_exceptions]. }
  destruct (c_live _ (i_queue _ (proj1 Hs)) _ _ Hp Hfd) as (id & fn & ev & Hid & Hh).
  rewrite (stm_bind_run _ _ s s (poll_events_idx_to_hid_ (queue s))) by reflexivity.
  rewrite (stm_bind_run _ _ s s id) by (unfold lift; by rewrite Hid).
  rewrite (stm_bind_run _ _ s s (handlers_ (queue s))) by reflexivity. rewrite Hh.
  set (e := FileCall id (poll_events_to_file_events r)).
  rewrite (stm_bind_run _ _ s (mkES (world s) (queue s) (trace s ++ [e])) tt) by reflexivity.
  apply (triple_bind (fun s => IJ n i s /\ fns (queue s) !! id = Some (FileHandler fn ev 0)) _ _ (fun _ => IJ n i));
    [apply file_keeps| |].
  - intros u. apply pause_requested_bind. intros b. apply triple_ret.
  - split; [|unfold fns; cbn; by rewrite lookup_fmap, Hh]. split; [|exact Hj]. destruct Hs as [Hs G]. split; [|exact G]. eapply inv_record; [done|apply Hs|done|done| |done].
    apply sched_file. unfold abs. by rewrite lookup_fmap, Hh.
Qed.

Lemma now_bind_live {B} n i k (f : Z -> stm (ES W H) B) R :
  (forall t, small_time t -> triple (fun s => IJ n i s /\ live_at k s) (f t) R) ->
  triple (fun s => IJ n i s /\ live_at k s) (t ← on_world now; f t) R.
Proof.
  intros Hf s [Hs Hl]. unfold mbind, stm_bind, on_world. pose proof (clock (world s)) as Hc.
  assert (forall k m, J k m (world s) -> J k m (now (world s)).1) as Ho by (intros; by apply outside_keeps).
  destruct (now (world s)) as [w t]. apply Hf; [done|]. split; [by apply IJ_world|exact Hl].
Qed.

Abbreviation file_loop' := (file_loop now external_pause write_pause_fd timed_body repeating_body file_body).

Definition loop_post (r : option nat) s : Prop :=
  match r with None => inv s /\ JS s | Some n => IJ n (length (poll_events_ (queue s))) s end.

Lemma gap_extend n i s p : gap (S n) i s -> (n < i)%nat -> poll_events_ (queue s) !! n = Some p -> fd p < 0 -> gap n i s.
Proof.
  intros [G1 G2] Hlt Hp Hfd. split; [lia|]. intros k p0 Hk H0. destruct (decide (k = n)) as [->|]; [congruence|].
  apply (G2 k); [lia|done].
Qed.

(** After the handlers of due timers ran in the middle of the walk. *)
Lemma resume_triple fuel idx n r t :
  (forall i n st, small_time st -> triple (IJ n i) (file_loop' fuel i n st) loop_post) -> small_time t ->
  triple (IJ (S n) (S idx)) (l ← gets (fun s => poll_events_ (queue s)); p ← lift (get_or_ub (l !! n));
    if fd p <? 0 then file_loop' fuel (S idx) n t
    else go_on ← process_event now external_pause write_pause_fd file_body n r;
         if go_on : bool then file_loop' fuel (S idx) (S n) t else mret None) loop_post.
Proof.
  intros IH Ht. apply triple_gets. intros s [Hs Hj].
  destruct (lookup_lt_is_Some_2 (poll_events_ (queue s)) n) as [p Hp]; [pose proof (proj1 (proj2 Hs)); lia|].
  rewrite (stm_bind_run _ _ s s p) by (unfold lift; by rewrite Hp). destruct (Z.ltb_spec (fd p) 0).
  - apply (IH (S idx) n t Ht). split; [|exact Hj]. split; [apply Hs|]. eapply gap_extend; [apply Hs|pose proof (proj1 (proj2 Hs)); lia|done|done].
  - apply (triple_bind (fun s => IJ (S n) (S idx) s /\ live_at n s) _ _ (fun _ => IJ (S n) (S idx))).
    + apply process_event_triple.
    + intros [|]; [by apply IH|]. intros s' [Hs' Hj']. exact (conj (proj1 Hs') Hj').
    + split; [done|]. by exists p.
Qed.

Lemma process_and_go_on fuel idx n r t :
  (forall i n st, small_time st -> triple (IJ n i) (file_loop' fuel i n st) loop_post) -> small_time t ->
  triple (fun s => IJ (S n) (S idx) s /\ live_at n s)
    (go_on ← process_event now external_pause write_pause_fd file_body n r;
     if go_on : bool then file_loop' fuel (S idx) (S n) t else mret None) loop_post.
Proof.
  intros IH Ht. eapply triple_bind; [apply process_event_triple|]. intros [|]; [by apply IH|].
  intros s' [Hs' Hj']. exact (conj (proj1 Hs') Hj').
Qed.

Lemma file_loop_triple fuel : forall i n st, small_time st -> triple (IJ n i) (file_loop' fuel i n st) loop_post.
Proof.
  induction fuel as [|fuel IH]; intros idx n st Hst; [by intros s [[Hs _] Hj]|]. cbn [file_loop]. apply triple_gets.
  intros s [Hs Hj]. destruct (poll_events_ (queue s) !! idx) as [p|] eqn:Hp.
  2:{ apply lookup_ge_None in Hp. assert (length (poll_events_ (queue s)) = idx) as E by (pose proof (proj1 (proj2 Hs)); lia).
      cbn. rewrite E. by split. }
  destruct (Z.ltb_spec (fd p) 0).
  { apply (IH (S idx) n st Hst). split; [|exact Hj]. destruct Hs as [Hs [G1 G2]]. split; [done|]. split; [apply lookup_lt_Some in Hp; lia|].
    intros k p0 Hk Hp0. destruct (decide (k = idx)) as [->|]; [congruence|]. apply (G2 k); [lia|done]. }
  apply (triple_bind (fun s => IJ n idx s /\ poll_events_ (queue s) !! idx = Some p /\ 0 <= fd p) _ _
    (fun _ s => IJ (S n) (S idx) s /\ live_at n s)); [apply move_entry_triple| |by split].
  intros u. apply triple_gets. clear s Hs Hj Hp. intros s [Hs Hl]. pose proof Hl as (p' & Hp' & Hfd').
  rewrite (stm_bind_run _ _ s s p') by (unfold lift; by rewrite Hp'). destruct (revents p' =? 0); [by apply IH|].
  revert s Hs Hl Hp'. cut (triple (fun s => IJ (S n) (S idx) s /\ live_at n s)
    (t ← on_world now; bound ← lift (i64 (st + TIME_QUANTUM));
     if bound <? t then
       _ ← process_timed' fuel;
       paused ← immediate_pause_was_requested external_pause;
       if paused : bool then mret None
       else
         t ← on_world now; l ← gets (fun s => poll_events_ (queue s)); p ← lift (get_or_ub (l !! n));
         if fd p <? 0 then file_loop' fuel (S idx) n t
         else go_on ← process_event now external_pause write_pause_fd file_body n (revents p');
              if go_on : bool then file_loop' fuel (S idx) (S n) t else mret None
     else go_on ← process_event now external_pause write_pause_fd file_body n (revents p');
          if go_on : bool then file_loop' fuel (S idx) (S n) st else mret None) loop_post).
  { intros Ht s Hs Hl _. exact (Ht s (conj Hs Hl)). }
  apply now_bind_live. intros t Ht. apply i64_bind; [unfold small_time, TIME_QUANTUM, max_time in *; lia|].
  destruct (st + TIME_QUANTUM <? t); [|by apply process_and_go_on].
  apply (triple_conseq (IJ (S n) (S idx)) _ _ loop_post); [|by intros s [? _]|done].
  apply triple_seq; [apply process_timed_triple|]. apply pause_requested_bind.
  intros [|]; [intros s [Hs Hj]; exact (conj (proj1 Hs) Hj)|]. apply now_J_bind. intros t' Ht'. by apply resume_triple.
Qed.

(** ** Running *)

Lemma shrink_inv n s : I n (length (poll_events_ (queue s))) s ->
  inv (mkES (world s) (set_hids (take n (poll_events_idx_to_hid_ (queue s)))
    (set_poll (take n (poll_events_ (queue s))) (queue s))) (trace s)).
Proof.
  intros [[C S A] [G1 G2]]. split; [|exact S|exact A]. destruct C as [C1 C2 C3 C4 C5 C6 C7]. constructor; cbn; auto.
  - rewrite !length_take. lia.
  - intros id fn ev i Hh. destruct (C2 _ _ _ _ Hh) as (p & Hp & Hfd & Hid). exists p.
    assert (i < n)%nat as Hi.
    { destruct (Nat.lt_ge_cases i n) as [|Hge]; [done|]. apply lookup_lt_Some in Hp as Hlt. apply (G2 i p) in Hp; [lia|lia]. }
    rewrite !lookup_take_lt by done. done.
  - intros i p Hp Hfd. apply lookup_take_Some in Hp as [Hp Hi]. destruct (C3 i p Hp Hfd) as (id & fn & ev & H1 & H2).
    exists id, fn, ev. rewrite lookup_take_lt by done. done.
Qed.

Lemma process_file_events_triple fuel :
  triple (IJ 0 0) (process_file_events now external_pause write_pause_fd timed_body repeating_body file_body fuel)
    (fun _ => IJ 0 0).
Proof.
  unfold process_file_events. apply pause_requested_bind. intros [|]; [apply triple_ret|].
  apply now_J_bind. intros t Ht. eapply triple_bind; [by apply file_loop_triple|]. intros [n|]; intros s [Hs Hj].
  - split; [|exact Hj]. apply I_0. exact (shrink_inv n s Hs).
  - split; [by apply I_0|exact Hj].
Qed.

Lemma compute_timeout_triple : triple (IJ 0 0) (compute_timeout now) (fun _ => IJ 0 0).
Proof.
  unfold compute_timeout. apply triple_gets. intros s Hs.
  destruct (timed_handlers_ (queue s)) as [|[tp id] rest] eqn:E; [exact Hs|].
  assert (tp <= max_time) as Htp.
  { pose proof (i_queue _ (proj1 (proj1 Hs))) as C. assert ((tp, id) ∈ timed_handlers_ (queue s)) as Hin by (rewrite E; left).
    apply C in Hin as [fn Hh]. apply C in Hh. destruct fn; cbn in Hh; lia. }
  revert s Hs E. cut (triple (IJ 0 0) (t ← on_world now;
    if tp <? t then mret (Some 0) else d ← lift (i64 (tp - t)); mret (Some d)) (fun _ => IJ 0 0)); [intros Ht s Hs _; exact (Ht s Hs)|].
  apply now_J_bind. intros t Ht. destruct (Z.ltb_spec tp t); [apply triple_ret|].
  apply i64_bind; [unfold small_time, max_time in *; lia|]. apply triple_ret.
Qed.

Lemma set_revents_fd l r : fd <$> set_revents l r = fd <$> l.
Proof. revert r. induction l as [|p l IH]; intros [|x r]; cbn; [done..|]. by rewrite IH. Qed.

(** Only the descriptors of the entries matter. *)
Lemma same_fd_inv s l : inv s -> fd <$> l = fd <$> poll_events_ (queue s) -> inv (mkES (world s) (set_poll l (queue s)) (trace s)).
Proof.
  intros [C S A] E. split; [|exact S|exact A]. destruct C as [C1 C2 C3 C4 C5 C6 C7].
  assert (forall i, fd <$> l !! i = fd <$> poll_events_ (queue s) !! i) as Ei by (intros i; by rewrite <- !list_lookup_fmap, E).
  constructor; cbn; auto.
  - rewrite <- C1. apply (f_equal length) in E. by rewrite !length_fmap in E.
  - intros id fn ev i Hh. destruct (C2 _ _ _ _ Hh) as (p & Hp & Hfd & Hid). specialize (Ei i). rewrite Hp in Ei.
    destruct (l !! i) as [p'|] eqn:Hp'; [|done]. injection Ei as Ei. exists p'. rewrite Ei. done.
  - intros i p Hp Hfd. specialize (Ei i). rewrite Hp in Ei. destruct (poll_events_ (queue s) !! i) as [p'|] eqn:Hp'; [|done].
    injection Ei as Ei. apply (C3 i p'); [done|]. by rewrite <- Ei.
Qed.

Lemma wait_triple timeout : triple (IJ 0 0) (wait_for_events ppoll sleep_for timeout) (fun _ => IJ 0 0).
Proof.
  unfold wait_for_events. apply triple_gets. intros s Hs. pose proof (outside_keeps _ _ _ (proj2 Hs)) as (_ & Hp & Hsl & _).
  destruct (negb (are_there_file_file_handlers (queue s))).
  - destruct timeout as [d|]; [|exact Hs]. destruct (0 <? d); [|exact Hs].
    split; [exact (I_world 0 0 s _ (proj1 Hs))|apply Hsl].
  - destruct Hs as [Hs Hj]. unfold call_ppoll, mbind, stm_bind, gets, on_world.
    specialize (Hp (poll_events_ (queue s)) timeout). destruct (ppoll _ _ _) as [w [[n eintr] r]].
    apply (I_world 0 0 s w) in Hs. destruct (negb (n =? -1)); [|exact (conj Hs Hp)].
    split; [|exact Hp]. apply I_0. apply (same_fd_inv _ _ (proj1 Hs)). apply set_revents_fd.
Qed.

Definition ended s : Prop := (size (handlers_ (queue s)) <= 1)%nat \/ immediate_pause_ (queue s) = true.

Abbreviation run_loop' := (run_loop now ppoll sleep_for external_pause write_pause_fd timed_body repeating_body file_body).
Abbreviation run' := (run now ppoll sleep_for external_pause write_pause_fd read_pause_fd timed_body repeating_body file_body).

Lemma run_loop_triple fuel : triple (IJ 0 0) (run_loop' fuel) (fun _ s => IJ 0 0 s /\ ended s).
Proof.
  induction fuel as [|fuel IH]; [by intros s [[Hs _] Hj]|]. cbn [run_loop]. apply triple_gets. intros s Hs.
  destruct (size (handlers_ (queue s)) <=? 1)%nat eqn:E; [split; [exact Hs|]; left; by apply Nat.leb_le|].
  revert s Hs E. match goal with |- forall s, _ -> _ -> match ?m s with _ => _ end =>
    cut (triple (IJ 0 0) m (fun _ s => IJ 0 0 s /\ ended s)); [intros Ht s Hs _; exact (Ht s Hs)|] end.
  eapply triple_bind; [apply pause_requested_triple|]. intros [|].
  { intros s [Hs Hb]. split; [exact Hs|]. by right. }
  apply (triple_conseq (IJ 0 0) _ _ (fun _ s => IJ 0 0 s /\ ended s)); [|by intros s [? _]|done]. eapply triple_bind; [apply compute_timeout_triple|].
  intros timeout. eapply triple_bind; [apply wait_triple|]. intros [ready eintr].
  apply triple_seq; [destruct (_ && _); [intros s [[Hs _] _]; exact (conj Hs (proj1 queue_exceptions))|apply triple_ret]|].
  apply triple_seq; [apply process_timed_triple|].
  apply triple_seq; [destruct (0 <? ready); [apply process_file_events_triple|apply triple_ret]|]. exact IH.
Qed.

Lemma run_triple fuel : triple (IJ 0 0) (run' fuel) (fun _ s => IJ 0 0 s /\ ended s).
Proof.
  unfold run. apply triple_seq; [intros s Hs; exact (IJ_pause 0 0 s false Hs)|].
  apply triple_seq; [|apply run_loop_triple]. intros s [Hs Hj].
  exact (conj (I_world 0 0 s _ Hs) (proj2 (proj2 (proj2 (proj2 (outside_keeps _ _ _ Hj)))))).
Qed.

Lemma construct_inv pause_fd w : 0 <= pause_fd -> inv (construct pause_fd (start w)).1.
Proof.
  intros Hfd. assert (inv (start w)) as H0.
  { split; [constructor| |]; cbn; try done.
    - split; [by intros ?%elem_of_nil|]. by intros [fn ?].
    - constructor.
    - by intros id [h ?].
    - exact sched_nil.
    - split; constructor. }
  unfold construct. destruct (Z.ltb_spec pause_fd 0); [lia|].
  pose proof (add_file_handler_triple 0 0 pause_fd READABLE OnPause Hfd (start w) (I_0 _ H0)) as Ht.
  unfold mbind, stm_bind. destruct (add_file_handler _ _ _ _) as [s' [a|e| |]]; [exact (proj1 Ht)|exact (proj1 Ht)|done|exact (proj1 Ht)].
Qed.
End Proofs.

(** ** Any client *)

Section Clients.
Context {W H : Type}.
Implicit Types (s : ES W H) (q : EventQueue H).
Variable now : W -> W * Z.
Variable ppoll : list pollfd -> option Z -> W -> W * (Z * bool * list Z).
Variable sleep_for : Z -> W -> W.
Variable external_pause : W -> W * bool.
Variable write_pause_fd read_pause_fd : W -> W.
Variable timed_body : H -> prog W H unit.
Variable repeating_body : H -> prog W H bool.
Variable file_body : H -> Z -> prog W H unit.
Hypothesis clock : forall w, small_time (now w).2.
Hypothesis timed_ok : forall h, prog_ok (timed_body h).
Hypothesis repeating_ok : forall h, prog_ok (repeating_body h).
Hypothesis file_ok : forall h ev, prog_ok (file_body h ev).

(** The client has no invariant of its own. *)
Abbreviation anyJ := (fun (_ : nat) (_ : gmap nat (handler H)) (_ : W) => True).
Abbreviation anyE := (fun _ : exn => True).
Abbreviation triple' := (triple anyJ anyE).

Lemma any_exec n i {A} (p : prog W H A) : prog_ok p -> triple' (I n i) (exec now write_pause_fd p) (fun _ => I n i).
Proof. by apply exec_triple. Qed.

Lemma any_timed n i id tp fn : fn_ok (TimedHandler tp fn) ->
  triple' (called anyJ n i id tp fn) (call_timed now write_pause_fd timed_body repeating_body fn) (fun _ => IJ anyJ n i).
Proof.
  intros Hfn. apply (triple_conseq anyJ anyE (I n i) _ _ (fun _ => I n i)); [|by intros s [? _]|by intros _ s ?].
  destruct fn as [h|d h]; cbn [call_timed]; [by apply any_exec|].
  eapply triple_bind; [by apply any_exec|]. intros stop. destruct stop; [apply triple_ret|].
  eapply triple_bind; [|intros id0; apply triple_ret]. cbn in Hfn. apply add_time_handler_in_triple; [done|apply Hfn|].
  intros tp0 H0. by split; [|apply Hfn].
Qed.

Lemma any_file n i id e fn ev :
  triple' (fun s => IJ anyJ n i s /\ fns (queue s) !! id = Some (FileHandler fn e 0))
    (call_file now write_pause_fd file_body fn ev) (fun _ => IJ anyJ n i).
Proof.
  apply (triple_conseq anyJ anyE (I n i) _ _ (fun _ => I n i)); [|by intros s [[? _] _]|by intros _ s ?].
  destruct fn as [h|]; cbn [call_file]; [by apply any_exec|]. intros s Hs. exact (I_pause n i s true Hs).
Qed.

Abbreviation run' := (run now ppoll sleep_for external_pause write_pause_fd read_pause_fd timed_body repeating_body file_body).

Lemma any_run fuel : triple' (I 0 0) (run' fuel) (fun _ s => I 0 0 s /\ ended s).
Proof.
  apply (triple_conseq anyJ anyE (IJ anyJ 0 0) _ _ (fun _ s => IJ anyJ 0 0 s /\ ended s)); [|by intros s ?|by intros _ s [[? _] ?]].
  apply run_triple; [done|done|by apply any_timed|by apply any_file|done].
Qed.

(** One use of the queue by its owner: some calls, then [run]; the queue may be
    used again after an exception or a pause. *)
Definition use (p : prog W H unit) (fuel : nat) : stm (ES W H) unit :=
  _ ← exec now write_pause_fd p; run' fuel.

Fixpoint uses (l : list (prog W H unit * nat)) s : ES W H :=
  match l with [] => s | (p, fuel) :: l' => uses l' (use p fuel s).1 end.

Lemma use_triple p fuel : prog_ok p -> triple' (I 0 0) (use p fuel) (fun _ s => I 0 0 s /\ ended s).
Proof. intros Hp. eapply triple_bind; [by apply any_exec|]. intros u. apply any_run. Qed.

Lemma triple_inv {A} (m : stm (ES W H) A) Q s : triple' (I 0 0) m Q -> (forall a s, Q a s -> inv s) -> inv s -> inv (m s).1.
Proof.
  intros Hm HQ Hs. specialize (Hm s (I_0 s Hs)). destruct (m s) as [s' [a|e| |]]; cbn; [by eapply HQ|apply Hm|done|apply Hm].
Qed.

Lemma uses_inv l : forall s, Forall (fun u => prog_ok u.1) l -> inv s -> inv (uses l s).
Proof.
  induction l as [|[p fuel] l IH]; intros s Hl Hs; [done|]. apply Forall_cons in Hl as [Hp Hl]. cbn [uses]. apply IH; [done|].
  eapply triple_inv; [by apply use_triple| |done]. intros a s' [[Hi _] _]. exact Hi.
Qed.

(** The ids of the timed calls of a schedule are different. *)
Definition timed_calls (tr : list event) : list nat :=
  omap (fun e => match e with TimedCall id _ => Some id | _ => None end) tr.

Lemma sched_once tr m : sched tr m -> NoDup (added tr) ->
  NoDup (timed_calls tr) /\ (forall id, is_Some (m !! id) -> id ∈ added tr) /\
  (forall id, id ∈ timed_calls tr -> id ∈ added tr /\ m !! id = None).
Proof.
  induction 1 as [|tr m e m' Hs IH Hstep]; intros Hnd; [split; [constructor|]; split; [by intros id [? ?]|by intros id ?%elem_of_nil]|].
  unfold added, timed_calls in *. rewrite !omap_app in *. fold (added tr) (timed_calls tr) in *.
  apply NoDup_app in Hnd as (Hnd & Hdis & _). destruct (IH Hnd) as (N & D & T). clear IH.
  destruct Hstep as [m id k Hid|m id k Hid|m id tp t Hid Ht Hmin|m id ev Hid]; cbn [omap list_omap] in *;
    rewrite ?app_nil_r; (split; [|split]).
  - done.
  - intros id' [x Hx]. apply lookup_insert_Some in Hx as [[<- _]|[_ Hx]]; apply elem_of_app; [right; left|left; apply D; by eexists].
  - intros id' Hid'. destruct (T id' Hid') as [Ha Hn]. split; [apply elem_of_app; by left|].
    rewrite lookup_insert_ne; [done|]. intros <-. apply (Hdis id Ha). left.
  - done.
  - intros id' [x Hx]. apply lookup_delete_Some in Hx as [_ Hx]. apply D. by eexists.
  - intros id' Hid'. destruct (T id' Hid') as [Ha Hn]. split; [done|]. apply lookup_delete_None. by right.
  - apply NoDup_app. split; [done|]. split; [|apply NoDup_singleton]. intros id' Hid' ->%list_elem_of_singleton.
    apply T in Hid' as [_ Hn]. congruence.
  - intros id' [x Hx]. apply lookup_delete_Some in Hx as [_ Hx]. apply D. by eexists.
  - intros id' [Hid'|E]%elem_of_app; [|apply list_elem_of_singleton in E as ->].
    + destruct (T id' Hid') as [Ha Hn]. split; [done|]. apply lookup_delete_None. by right.
    + split; [apply D; by eexists|]. apply lookup_delete_None. by left.
  - done.
  - done.
  - done.
Qed.

(** C5: an [EventQueue], however often it is run, also again after a pause or an
    exception, and whatever its handlers do to it while they run (adding and
    removing handlers, pausing, throwing), refines the abstract scheduler: a
    handler is called only between its addition and its removal, a timed handler
    at most once, not before its time and never before one with an earlier time
    that waits; no access of the queue is out of range, no assertion fails; its
    containers stay consistent; and [run] returns only when no handler is left
    beside the one for pausing, or a pause was requested.  Assumed: clock values,
    times and durations that cannot overflow, non-negative descriptors. *)
Theorem event_queue_refines_scheduler pause_fd w l p fuel :
  0 <= pause_fd -> Forall (fun u => prog_ok u.1) l -> prog_ok p ->
  match use p fuel (uses l (construct pause_fd (start w)).1) with
  | (s, r) =>
      r <> UB /\ consistent (queue s) /\ sched (trace s) (abs (queue s)) /\ NoDup (timed_calls (trace s)) /\
      (r = Ok tt -> ended s)
  end.
Proof.
  intros Hfd Hl Hp. pose proof (uses_inv l _ Hl (construct_inv anyJ anyE pause_fd w Hfd)) as Hs.
  set (s0 := uses l _) in *. pose proof (use_triple p fuel Hp s0 (I_0 _ Hs)) as Ht.
  pose proof (triple_inv _ _ s0 (use_triple p fuel Hp) ltac:(by intros a s' [[Hi _] _]) Hs) as Hi.
  destruct (use p fuel s0) as [s r]. cbn in Hi. split; [by destruct r|]. split; [apply Hi|]. split; [apply Hi|].
  split; [eapply sched_once; apply Hi|]. intros ->. apply Ht.
Qed.
End Clients.

(** ** A concrete run

    The world is a clock that advances with every reading; file 7 is always
    readable.  Handler 0 adds a handler that is ready at once, handler 1 watches
    the file and pauses, handler 2 repeats until the clock passes 40. *)

Definition sample_now (w : nat) : nat * Z := (S w, Z.of_nat w mod 1000).
Definition sample_ppoll (l : list pollfd) (timeout : option Z) (w : nat) : nat * (Z * bool * list Z) :=
  (w, (1, false, (fun p => if fd p =? 7 then 1 else 0) <$> l)).
Definition sample_timed (h : nat) : prog nat nat unit :=
  match h with O => AddReady 3%nat (fun _ => Ret tt) | _ => Ret tt end.
Definition sample_repeating (h : nat) : prog nat nat bool := Look (fun w => Ret (40 <? w)%nat).
Definition sample_file (h : nat) (ev : Z) : prog nat nat unit := Look (fun w => if (60 <? w)%nat then Pause (Ret tt) else Ret tt).
Definition sample_setup : prog nat nat unit :=
  AddIn 5 0%nat (fun _ => AddFile 7 READABLE 1%nat (fun id => AddRepeating 20 2%nat (AddAt 30 4%nat (fun t => Remove t (Ret tt))))).

Definition sample_use := use sample_now sample_ppoll (fun _ w => w) (fun w => (w, false)) (fun w => w) (fun w => w)
  sample_timed sample_repeating sample_file.

Lemma sample_ok : (forall w, small_time (sample_now w).2) /\ (forall h, prog_ok (sample_timed h)) /\
  (forall h, prog_ok (sample_repeating h)) /\ (forall h ev, prog_ok (sample_file h ev)) /\ prog_ok sample_setup.
Proof.
  split_and!.
  - intros w. unfold small_time. cbn. pose proof (Z.mod_pos_bound (Z.of_nat w) 1000 eq_refl). lia.
  - by intros [|h].
  - done.
  - intros h ev. unfold sample_file. cbn [prog_ok]. intros w. by case_match.
  - cbn. unfold small_time, max_time. repeat split; intros; lia.
Qed.

Lemma event_queue_refines_scheduler_witness :
  match sample_use sample_setup 200 (construct 5 (start 0%nat)).1 with
  | (s, r) => r <> UB /\ consistent (queue s) /\ sched (trace s) (abs (queue s)) /\ NoDup (timed_calls (trace s)) /\
      (r = Ok tt -> ended s)
  end.
Proof.
  destruct sample_ok as (H1 & H2 & H3 & H4 & H5).
  apply (event_queue_refines_scheduler sample_now sample_ppoll (fun _ w => w) (fun w => (w, false)) (fun w => w) (fun w => w)
    sample_timed sample_repeating sample_file H1 H2 H3 H4 5 0%nat [] sample_setup 200); [done|constructor|done].
Defined.

(** The timed handlers run in the order of their times, the repeating one twice. *)
Example sample_queue_run :
  (sample_use sample_setup 200 (construct 5 (start 0%nat)).1).2 = Ok tt /\
  omap (fun e => match e with TimedCall id _ => Some id | _ => None end)
    (trace (sample_use sample_setup 200 (construct 5 (start 0%nat)).1).1) = [1; 5; 3; 6]%nat.
Proof. split; vm_compute; reflexivity. Qed.

(** A negative descriptor is accepted and its entry dropped at the next
    compression, while its handler keeps the index: removing that handler then
    switches off the entry of another one. *)
Definition negative_fd_state : ES nat nat :=
  let s := (sample_use (AddFile (-1) 0 1%nat (fun _ => AddFile 7 READABLE 1%nat (fun _ => Ret tt))) 60
    (construct 5 (start 30%nat)).1).1 in
  (remove_handler 1 s).1.

Lemma negative_fd_removes_other :
  fd <$> (poll_events_ (queue negative_fd_state) !! 1%nat) = Some (-1) /\
  handlers_ (queue negative_fd_state) !! 2%nat = Some (FileHandler (OnFile 1%nat) READABLE 1).
Proof. split; vm_compute; reflexivity. Qed.
