(* ===== verification/FileMonitor.v ===== *)
(** * Monitoring files for modifications

    Models [FileModificationMonitor] of [include/simlib/inotify.hh] and
    [src/inotify.cc] as a client of the event queue: its handlers are programs
    over the queue's interface, so that the queue runs them.  A pointer to a node
    of [added_files_] is the [FileInfo] it points to: the nodes are never changed
    or erased.  The calls of inotify, the watching log and the user's event
    handler and other handlers are parameters; the user's programs have a world
    of their own, which the monitor's members are not part of. *)

From Stdlib Require Import ZArith Lia.
From S2P Require Import Prelude.
From S2P Require Import StringTraits.
From S2P Require Import StringTransform.
From S2P Require Import EventQueue.
Local Open Scope Z_scope.
Local Open Scope simlib_scope.

(** ** Programs in sequence *)

Fixpoint prog_bind {W H A B} (p : prog W H A) (k : A -> prog W H B) : prog W H B :=
  match p with
  | Ret a => k a
  | Fail e => Fail e
  | Crash => Crash
  | Look k' => Look (fun w => prog_bind (k' w) k)
  | Effect f p' => Effect f (prog_bind p' k)
  | AddReady h k' => AddReady h (fun id => prog_bind (k' id) k)
  | AddAt tp h k' => AddAt tp h (fun id => prog_bind (k' id) k)
  | AddIn d h k' => AddIn d h (fun id => prog_bind (k' id) k)
  | AddRepeating d h p' => AddRepeating d h (prog_bind p' k)
  | AddFile file ev h k' => AddFile file ev h (fun id => prog_bind (k' id) k)
  | Remove id p' => Remove id (prog_bind p' k)
  | Pause p' => Pause (prog_bind p' k)
  end.

#[export] Instance prog_ret_inst W H : MRet (prog W H) := fun A a => Ret a.
#[export] Instance prog_bind_inst W H : MBind (prog W H) := fun A B k p => prog_bind p k.

(** ** Data *)

Record FileInfo := mkFileInfo { path : str; stillness_threshold : Z }.

#[export] Instance FileInfo_eq_dec : EqDecision FileInfo.
Proof. solve_decision. Defined.

Record FileModificationMonitor := mkMonitor {
  added_files_ : gmap str Z;
  unwatched_files_ : list FileInfo;
  watched_files_ : gmap Z FileInfo;
  processing_unwatched_files_is_scheduled_ : bool;
  intfy_fd_ : Z;
  deferred_modification_handlers_ : gmap str nat;
  add_missing_files_retry_period_ : Z
}.

Definition IN_MODIFY : Z := 0x2.
Definition IN_MOVED_TO : Z := 0x80.
Definition IN_CREATE : Z := 0x100.
Definition IN_MOVE_SELF : Z := 0x800.
Definition IN_UNMOUNT : Z := 0x2000.
Definition IN_Q_OVERFLOW : Z := 0x4000.
Definition IN_IGNORED : Z := 0x8000.
Definition IN_EXCL_UNLINK : Z := 0x4000000.

Definition events_requiring_handler : Z := Z.lor (Z.lor IN_MODIFY IN_CREATE) IN_MOVED_TO.
Definition all_events : Z := Z.lor (Z.lor events_requiring_handler IN_MOVE_SELF) IN_EXCL_UNLINK.

Record simlib_inotify_event := mkEvent { wd : Z; mask : Z; cookie : Z; file_name : option str }.

(** The constructor; the retry period is 50 ms. *)
Definition new_monitor : FileModificationMonitor := mkMonitor ∅ [] ∅ false (-1) ∅ 50000000.

Definition set_added x m := mkMonitor x (unwatched_files_ m) (watched_files_ m)
  (processing_unwatched_files_is_scheduled_ m) (intfy_fd_ m) (deferred_modification_handlers_ m) (add_missing_files_retry_period_ m).
Definition set_unwatched x m := mkMonitor (added_files_ m) x (watched_files_ m)
  (processing_unwatched_files_is_scheduled_ m) (intfy_fd_ m) (deferred_modification_handlers_ m) (add_missing_files_retry_period_ m).
Definition set_watched x m := mkMonitor (added_files_ m) (unwatched_files_ m) x
  (processing_unwatched_files_is_scheduled_ m) (intfy_fd_ m) (deferred_modification_handlers_ m) (add_missing_files_retry_period_ m).
Definition set_scheduled x m := mkMonitor (added_files_ m) (unwatched_files_ m) (watched_files_ m)
  x (intfy_fd_ m) (deferred_modification_handlers_ m) (add_missing_files_retry_period_ m).
Definition set_intfy_fd x m := mkMonitor (added_files_ m) (unwatched_files_ m) (watched_files_ m)
  (processing_unwatched_files_is_scheduled_ m) x (deferred_modification_handlers_ m) (add_missing_files_retry_period_ m).
Definition set_deferred x m := mkMonitor (added_files_ m) (unwatched_files_ m) (watched_files_ m)
  (processing_unwatched_files_is_scheduled_ m) (intfy_fd_ m) x (add_missing_files_retry_period_ m).
Definition set_add_missing_files_retry_period x m := mkMonitor (added_files_ m) (unwatched_files_ m) (watched_files_ m)
  (processing_unwatched_files_is_scheduled_ m) (intfy_fd_ m) (deferred_modification_handlers_ m) x.

(** ** Events in the buffer

    [struct inotify_event]: four 32-bit fields, the last one the length of the
    name that follows; the bytes are those [read] put into the buffer, and
    reading past them has no meaning here. *)

Definition EVENT_SIZE : nat := 16.

Definition load_u32 (buff : str) (at_ : nat) : option Z :=
  match drop at_ buff with
  | b0 :: b1 :: b2 :: b3 :: _ => Some (uchz b0 + 256 * (uchz b1 + 256 * (uchz b2 + 256 * uchz b3)))
  | _ => None
  end.

Definition to_s32 (x : Z) : Z := if x <? 2 ^ 31 then x else x - 2 ^ 32.

(** [CStringView(ptr)]: up to the terminating null byte. *)
Definition load_c_string (s : str) : option str :=
  if decide (NUL ∈ s) then Some (take_while (fun c => negb (c =c NUL)) s) else None.

(** The event at [ptr], and where the next one begins. *)
Definition load_event (buff : str) (ptr : nat) : option (simlib_inotify_event * nat) :=
  wd ← load_u32 buff ptr;
  mask ← load_u32 buff (ptr + 4);
  cookie ← load_u32 buff (ptr + 8);
  len ← load_u32 buff (ptr + 12);
  name ← (if 0 <? len then Some <$> load_c_string (drop (ptr + EVENT_SIZE) buff) else Some None);
  Some (mkEvent (to_s32 wd) mask cookie name, (ptr + EVENT_SIZE + Z.to_nat len)%nat).

Definition intfy_buff_len : Z := (16 + 4096 + 1) * 16.

(** ** The outside *)

Section Monitor.
Context {CW C : Type}.

(** The calls of inotify: with [errno] where the code reads it; [read] with the
    bytes. *)
Variable inotify_init1 : CW -> CW * Z.
Variable inotify_add_watch : Z -> str -> Z -> CW -> CW * (Z * Z).
Variable inotify_rm_watch : Z -> Z -> CW -> CW * Z.
Variable read : Z -> Z -> CW -> CW * (Z * Z * str).

(** [WatchingLog] *)
Record WatchingLog := mkLog {
  could_not_watch : str -> Z -> CW -> CW;
  read_failed : Z -> CW -> CW;
  started_watching : str -> CW -> CW
}.

Definition SilentWatchingLog : WatchingLog := mkLog (fun _ _ w => w) (fun _ w => w) (fun _ w => w).

Variable watching_log_ : WatchingLog.

(** The user's functions: the event handler, and what else the user gives to the
    queue. *)
Variable event_handler_ : str -> prog CW C unit.
Variable user_timed : C -> prog CW C unit.
Variable user_repeating : C -> prog CW C bool.
Variable user_file : C -> Z -> prog CW C unit.

(** The order of the nodes of [added_files_] in memory. *)
Variable address : str -> Z.

Record MW := mkMW { monitor : FileModificationMonitor; outside : CW }.

(** The closures the monitor gives to the queue, and the user's. *)
Inductive MH := ReadInotify | RetryUnwatched | Deferred (file_path : str) | User (c : C).

Abbreviation P := (prog MW MH).

Definition look {A} (f : FileModificationMonitor -> A) : P A := Look (fun w => Ret (f (monitor w))).
Definition change (f : FileModificationMonitor -> FileModificationMonitor) : P unit :=
  Effect (fun w => mkMW (f (monitor w)) (outside w)) (Ret tt).
Definition call {A} (f : CW -> CW * A) : P A :=
  Look (fun w => Effect (fun w => mkMW (monitor w) (f (outside w)).1) (Ret (f (outside w)).2)).
Definition log (f : CW -> CW) : P unit := Effect (fun w => mkMW (monitor w) (f (outside w))) (Ret tt).

(** A program of the user. *)
Fixpoint user {A} (p : prog CW C A) : P A :=
  match p with
  | Ret a => Ret a
  | Fail e => Fail e
  | Crash => Crash
  | Look k => Look (fun w => user (k (outside w)))
  | Effect f p' => Effect (fun w => mkMW (monitor w) (f (outside w))) (user p')
  | AddReady c k => AddReady (User c) (fun id => user (k id))
  | AddAt tp c k => AddAt tp (User c) (fun id => user (k id))
  | AddIn d c k => AddIn d (User c) (fun id => user (k id))
  | AddRepeating d c p' => AddRepeating d (User c) (user p')
  | AddFile file ev c k => AddFile file ev (User c) (fun id => user (k id))
  | Remove id p' => Remove id (user p')
  | Pause p' => Pause (user p')
  end.

(** ** Telling the user *)

Definition run_modification_handler (finfo : FileInfo) (file_path : str) : P unit :=
  if stillness_threshold finfo =? 0 then user (event_handler_ file_path)
  else
    deferred ← look deferred_modification_handlers_;
    _ ← match deferred !! file_path with
        | None => Ret tt
        | Some id =>
            _ ← change (set_deferred (delete file_path deferred));
            Remove id (Ret tt)
        end;
    _ ← change (fun m => set_deferred (<[file_path := 0%nat]> (deferred_modification_handlers_ m)) m);
    id ← AddIn (stillness_threshold finfo) (Deferred file_path) Ret;
    change (fun m => set_deferred (<[file_path := id]> (deferred_modification_handlers_ m)) m).

(** The closure of the deferred handling. *)
Definition deferred_handling (file_path : str) : P unit :=
  _ ← user (event_handler_ file_path);
  change (fun m => set_deferred (delete file_path (deferred_modification_handlers_ m)) m).

(** ** Watching *)

(** [unwatched_files_], a [std::set] of pointers. *)
Fixpoint set_emplace (f : FileInfo) (l : list FileInfo) : list FileInfo :=
  match l with
  | [] => [f]
  | g :: l' =>
      if address (path f) <? address (path g) then f :: l
      else if address (path g) <? address (path f) then g :: set_emplace f l' else l
  end.

Definition erase_unwatched (f : FileInfo) (m : FileModificationMonitor) : FileModificationMonitor :=
  set_unwatched (filter (fun g => g <> f) (unwatched_files_ m)) m.

(** [watched_files_.emplace(wd, finfo)] does nothing when [wd] is there. *)
Definition emplace_watched (wd : Z) (f : FileInfo) (m : FileModificationMonitor) : FileModificationMonitor :=
  match watched_files_ m !! wd with
  | Some _ => m
  | None => set_watched (<[wd := f]> (watched_files_ m)) m
  end.

Definition c_str (s : str) : str := take_while (fun c => negb (c =c NUL)) s.

(** The predicate of [filter]: whether the file stays unwatched. *)
Definition try_watch (notify : bool) (finfo : FileInfo) : P bool :=
  fd ← look intfy_fd_;
  '(wd, errno) ← call (inotify_add_watch fd (c_str (path finfo)) all_events);
  if wd =? -1 then
    _ ← log (could_not_watch watching_log_ (path finfo) errno);
    Ret true
  else
    _ ← log (started_watching watching_log_ (path finfo));
    _ ← change (emplace_watched wd finfo);
    _ ← (if notify : bool then run_modification_handler finfo (path finfo) else Ret tt);
    Ret false.

(** [filter]: goes over the container and erases while it goes. *)
Fixpoint filter_unwatched (pred : FileInfo -> P bool) (l : list FileInfo) : P unit :=
  match l with
  | [] => Ret tt
  | f :: l' =>
      keep ← pred f;
      _ ← (if keep : bool then Ret tt else change (erase_unwatched f));
      filter_unwatched pred l'
  end.

Definition process_unwatched_files (run_modification_handler_on_success : bool) : P unit :=
  l ← look unwatched_files_;
  filter_unwatched (try_watch run_modification_handler_on_success) l.

Definition schedule_processing_unwatched_files : P unit :=
  m ← look (fun m => m);
  if processing_unwatched_files_is_scheduled_ m || bool_decide (unwatched_files_ m = []) then Ret tt
  else
    _ ← AddRepeating (add_missing_files_retry_period_ m) RetryUnwatched (Ret tt);
    change (set_scheduled true).

(** The closure that is repeated; the result is [stop_repeating]. *)
Definition retry : P bool :=
  _ ← process_unwatched_files true;
  l ← look unwatched_files_;
  if decide (l = []) then
    _ ← change (set_scheduled false);
    Ret true
  else Ret false.

(** ** Events *)

Definition missing_slash (s : str) : str := if has_suffix s (lit "/") then [] else lit "/".

Definition process_event (event : simlib_inotify_event) : P unit :=
  watched ← look watched_files_;
  match watched !! wd event with
  | None => Crash
  | Some finfo =>
      if has_bits (mask event) IN_IGNORED then
        _ ← change (fun m => set_watched (delete (wd event) (watched_files_ m)) m);
        _ ← change (fun m => set_unwatched (set_emplace finfo (unwatched_files_ m)) m);
        schedule_processing_unwatched_files
      else if has_bits (mask event) IN_MOVE_SELF then
        fd ← look intfy_fd_;
        r ← call (inotify_rm_watch fd (wd event));
        if r =? 0 then Ret tt else Fail (RuntimeError (lit "inotify_rm_watch()"))
      else if negb (has_bits (mask event) events_requiring_handler) then
        Fail (RuntimeError (lit "read unknown event for " ++ path finfo ++ lit ": mask = " ++ to_string (mask event)))
      else
        match file_name event with
        | Some name => run_modification_handler finfo (path finfo ++ missing_slash (path finfo) ++ name)
        | None => run_modification_handler finfo (path finfo)
        end
  end.

(** The loop over the buffer: each turn advances [ptr] by the size of an event
    at least. *)
Fixpoint event_loop (fuel : nat) (buff : str) (read_len : Z) (ptr : nat) : P unit :=
  if Z.of_nat ptr <? read_len then
    match fuel with
    | O => Crash
    | S fuel' =>
        match load_event buff ptr with
        | None => Crash
        | Some (event, next) =>
            _ ← process_event event;
            event_loop fuel' buff read_len next
        end
    end
  else Ret tt.

(** The handler of [intfy_fd_]. *)
Definition read_inotify : P unit :=
  fd ← look intfy_fd_;
  '(read_len, errno, buff) ← call (read fd intfy_buff_len);
  if read_len <? Z.of_nat EVENT_SIZE then log (read_failed watching_log_ errno)
  else event_loop (S (length buff)) buff read_len 0.

(** ** The interface *)

(** The assertions come with the insertion. *)
Definition add_path (p : str) (threshold : Z) : P unit :=
  added ← look added_files_;
  if (threshold <? 0) || bool_decide (is_Some (added !! p)) then Crash
  else
    _ ← change (set_added (<[p := threshold]> added));
    change (fun m => set_unwatched (set_emplace (mkFileInfo p threshold) (unwatched_files_ m)) m).

Definition init_watching : P unit :=
  fd ← call inotify_init1;
  _ ← change (set_intfy_fd fd);
  if fd <? 0 then Fail (RuntimeError (lit "inotify_init1()"))
  else
    _ ← AddFile fd READABLE ReadInotify Ret;
    _ ← process_unwatched_files false;
    schedule_processing_unwatched_files.

(** What the queue runs.  A closure is only ever given to the queue as the kind
    of handler it is. *)
Definition timed_body (h : MH) : P unit :=
  match h with
  | Deferred file_path => deferred_handling file_path
  | User c => user (user_timed c)
  | ReadInotify | RetryUnwatched => Crash
  end.

Definition repeating_body (h : MH) : P bool :=
  match h with
  | RetryUnwatched => retry
  | User c => user (user_repeating c)
  | ReadInotify | Deferred _ => Crash
  end.

Definition file_body (h : MH) (events : Z) : P unit :=
  match h with
  | ReadInotify => read_inotify
  | User c => user (user_file c events)
  | RetryUnwatched | Deferred _ => Crash
  end.

(** The clock and the waiting of the queue, which do not touch the monitor. *)
Variable now : CW -> CW * Z.
Variable ppoll : list pollfd -> option Z -> CW -> CW * (Z * bool * list Z).
Variable sleep_for : Z -> CW -> CW.
Variable external_pause : CW -> CW * bool.
Variable write_pause_fd read_pause_fd : CW -> CW.

Definition on_outside {A} (f : CW -> CW * A) (w : MW) : MW * A :=
  (mkMW (monitor w) (f (outside w)).1, (f (outside w)).2).
Definition in_outside (f : CW -> CW) (w : MW) : MW := mkMW (monitor w) (f (outside w)).

Definition run_queue (fuel : nat) : stm (ES MW MH) unit :=
  run (on_outside now) (fun l t => on_outside (ppoll l t)) (fun d => in_outside (sleep_for d)) (on_outside external_pause)
    (in_outside write_pause_fd) (in_outside read_pause_fd) timed_body repeating_body file_body fuel.

Definition do {A} (p : P A) : stm (ES MW MH) A := exec (on_outside now) (in_outside write_pause_fd) p.

Definition watch (fuel : nat) : stm (ES MW MH) unit :=
  fd ← do (look intfy_fd_);
  _ ← (if fd <? 0 then do init_watching else mret tt);
  run_queue fuel.

(** A monitor, given the descriptor of its queue's pause event. *)
Definition construct_monitor (pause_fd : Z) (w : CW) : ES MW MH * outcome unit :=
  construct pause_fd (start (mkMW new_monitor w)).
End Monitor.

Arguments MW : clear implicits.
Arguments MH : clear implicits.
Arguments WatchingLog : clear implicits.
