(* ===== verification/FileMonitorProofs.v ===== *)
(** * The monitor keeps track of its files

    The monitor spreads what it knows over its own containers and the handlers
    it has in the event queue.  The invariant ties them together: a file it was
    given is watched or waits to be, a retry is pending exactly when the flag
    says so, and the deferred notifications are the timers in the queue.  The
    event queue's theorem carries the invariant through its runs. *)

From Stdlib Require Import ZArith Lia.
From S2P Require Import Prelude.
From S2P Require Import StringTraits.
From S2P Require Import StringTransform.
From S2P Require Import Floats.
From S2P Require Import Time.
From S2P Require Import EventQueue.
From S2P Require Import EventQueueProofs.
From S2P Require Import FileMonitor.
Local Open Scope Z_scope.
Local Open Scope simlib_scope.

(** ** The bytes of events

    What the kernel puts into the buffer: names are padded with null bytes. *)

Definition store_u32 (x : Z) : str := [char_of x; char_of (x / 256); char_of (x / 256 / 256); char_of (x / 256 / 256 / 256)].

Definition name_bytes (e : simlib_inotify_event) (pad : nat) : str :=
  match file_name e with None => [] | Some n => n ++ NUL :: replicate pad NUL end.

Definition store_event (r : simlib_inotify_event * nat) : str :=
  let '(e, pad) := r in
  store_u32 (wd e mod 2 ^ 32) ++ store_u32 (mask e) ++ store_u32 (cookie e) ++
  store_u32 (Z.of_nat (length (name_bytes e pad))) ++ name_bytes e pad.

Definition event_ok (r : simlib_inotify_event * nat) : Prop :=
  let '(e, pad) := r in
  - 2 ^ 31 <= wd e < 2 ^ 31 /\ 0 <= mask e < 2 ^ 32 /\ 0 <= cookie e < 2 ^ 32 /\
  Z.of_nat (length (name_bytes e pad)) < 2 ^ 32 /\ match file_name e with Some n => NUL ∉ n | None => True end.

Lemma uchz_char_of x : uchz (char_of x) = x mod 256.
Proof.
  unfold uchz, char_of. pose proof (Z.mod_pos_bound x 256 eq_refl). rewrite Ascii.N_ascii_embedding by lia. lia.
Qed.

Lemma load_store_u32 x pre rest : 0 <= x < 2 ^ 32 -> load_u32 (pre ++ store_u32 x ++ rest) (length pre) = Some x.
Proof.
  intros Hx. unfold load_u32. rewrite drop_app_length. unfold store_u32. cbn [app]. rewrite !uchz_char_of. f_equal.
  pose proof (Z.div_mod x 256 ltac:(done)). pose proof (Z.div_mod (x / 256) 256 ltac:(done)).
  pose proof (Z.div_mod (x / 256 / 256) 256 ltac:(done)).
  rewrite (Z.mod_small (x / 256 / 256 / 256)); [lia|]. rewrite !Z.div_div by done. split; [apply Z.div_pos; lia|].
  apply Z.div_lt_upper_bound; lia.
Qed.

Lemma to_s32_wrap x : - 2 ^ 31 <= x < 2 ^ 31 -> to_s32 (x mod 2 ^ 32) = x.
Proof.
  intros Hx. unfold to_s32. destruct (Z_lt_le_dec x 0).
  - replace (x mod 2 ^ 32) with (x + 2 ^ 32) by (apply (Z.mod_unique _ _ (-1)); lia). destruct (Z.ltb_spec (x + 2 ^ 32) (2 ^ 31)); lia.
  - rewrite Z.mod_small by lia. destruct (Z.ltb_spec x (2 ^ 31)); lia.
Qed.

Lemma load_c_string_padded n rest : NUL ∉ n -> load_c_string (n ++ NUL :: rest) = Some n.
Proof.
  intros Hn. unfold load_c_string. rewrite decide_True by (apply elem_of_app; right; left). f_equal.
  rewrite take_while_app; [by rewrite app_nil_r|]. apply Forall_forall. intros c Hc. apply negb_true_iff, char_eqb_neq. intros ->. done.
Qed.

Lemma load_field buff k pre x rest : buff = pre ++ store_u32 x ++ rest -> k = length pre -> 0 <= x < 2 ^ 32 ->
  load_u32 buff k = Some x.
Proof. intros -> -> Hx. by apply load_store_u32. Qed.

(** Reading an event back, wherever it is in the buffer. *)
Lemma load_store_event r pre rest : event_ok r ->
  load_event (pre ++ store_event r ++ rest) (length pre) = Some (r.1, (length pre + length (store_event r))%nat).
Proof.
  destruct r as [[wd mask cookie name] pad]. intros (Hwd & Hm & Hc & Hl & Hn). unfold load_event.
  set (nb := name_bytes _ pad) in *. set (L := Z.of_nat (length nb)) in *. cbn [fst].
  set (w := store_u32 (wd mod 2 ^ 32)). set (m := store_u32 mask). set (c := store_u32 cookie). set (l := store_u32 L).
  assert (store_event (mkEvent wd mask cookie name, pad) = w ++ m ++ c ++ l ++ nb) as -> by done.
  rewrite <- !app_assoc. pose proof (Z.mod_pos_bound wd (2 ^ 32) eq_refl) as Hw.
  rewrite (load_field _ (length pre) pre (wd mod 2 ^ 32) (m ++ c ++ l ++ nb ++ rest)); [|reflexivity|reflexivity|lia]. cbn [mbind option_bind].
  rewrite (load_field _ (length pre + 4) (pre ++ w) mask (c ++ l ++ nb ++ rest)); [|by rewrite <- !app_assoc|by rewrite !length_app|done].
  cbn [mbind option_bind].
  rewrite (load_field _ (length pre + 8) (pre ++ w ++ m) cookie (l ++ nb ++ rest)); [|by rewrite <- !app_assoc|by rewrite !length_app|done].
  cbn [mbind option_bind].
  rewrite (load_field _ (length pre + 12) (pre ++ w ++ m ++ c) L (nb ++ rest)); [|by rewrite <- !app_assoc|by rewrite !length_app|lia].
  cbn [mbind option_bind].
  assert (drop (length pre + EVENT_SIZE) (pre ++ w ++ m ++ c ++ l ++ nb ++ rest) = nb ++ rest) as ->.
  { replace (pre ++ w ++ m ++ c ++ l ++ nb ++ rest) with ((pre ++ w ++ m ++ c ++ l) ++ nb ++ rest)
      by (by rewrite <- !app_assoc).
    apply drop_app_length'. by rewrite !length_app. }
  rewrite to_s32_wrap by done. rewrite !length_app.
  assert ((length w + (length m + (length c + (length l + length nb))) = EVENT_SIZE + length nb)%nat) as -> by done.
  unfold L. rewrite Nat2Z.id, Nat.add_assoc. destruct name as [n|].
  - destruct (Z.ltb_spec 0 (Z.of_nat (length nb))) as [_|Hz].
    + unfold nb, name_bytes. cbn [file_name]. rewrite <- app_assoc, <- app_comm_cons, load_c_string_padded by done. done.
    + exfalso. unfold nb, name_bytes in Hz. cbn [file_name] in Hz. rewrite length_app in Hz. cbn in Hz. lia.
  - done.
Qed.

(** ** The invariant *)

Section Invariant.
Context {C : Type}.

(** What a handler in the queue is to the monitor. *)
Inductive role := RDeferred (p : str) | RRetry | RRead.

Definition role_of (h : handler (MH C)) : option role :=
  match h with
  | TimedHandler _ (Once (Deferred p)) => Some (RDeferred p)
  | TimedHandler _ (Repeat _ RetryUnwatched) => Some RRetry
  | FileHandler (OnFile ReadInotify) _ _ => Some RRead
  | _ => None
  end.

(** The closures are registered as what they are. *)
Definition well_kinded (h : handler (MH C)) : Prop :=
  match h with
  | TimedHandler _ (Once (Deferred _ | User _)) | TimedHandler _ (Repeat _ (RetryUnwatched | User _))
  | FileHandler (OnFile (ReadInotify | User _)) _ _ | FileHandler OnPause _ _ => True
  | _ => False
  end.

(** The handlers [m] of the queue, given the deferred notifications, whether the
    retry is pending and whether inotify is read. *)
Record queue_agrees (k : nat) (m : gmap nat (handler (MH C))) (D : gmap str nat) (scheduled reading : bool) : Prop := {
  qa_ids id : is_Some (m !! id) -> (id < k)%nat;
  qa_kinds id h : m !! id = Some h -> well_kinded h;
  qa_deferred p id : D !! p = Some id <-> m !! id ≫= role_of = Some (RDeferred p);
  qa_retry : scheduled = true <-> exists id, m !! id ≫= role_of = Some RRetry;
  qa_one_retry id id' : m !! id ≫= role_of = Some RRetry -> m !! id' ≫= role_of = Some RRetry -> id = id';
  qa_read : reading = true -> exists id, m !! id ≫= role_of = Some RRead
}.

Lemma role_insert k (m : gmap nat (handler (MH C))) h r : (forall id, is_Some (m !! id) -> (id < k)%nat) ->
  forall id, <[k := h]> m !! id ≫= role_of = Some r <-> (id = k /\ role_of h = Some r) \/ m !! id ≫= role_of = Some r.
Proof.
  intros Hk id. destruct (decide (id = k)) as [->|Hne].
  - rewrite lookup_insert_eq. cbn. split; [by left|]. intros [[_ ?]|Hr]; [done|].
    destruct (m !! k) eqn:E; [|done]. assert (k < k)%nat by (apply Hk; by eexists). lia.
  - rewrite lookup_insert_ne by done. split; [by right|]. by intros [[? _]|?].
Qed.

Lemma role_delete k (m : gmap nat (handler (MH C))) r :
  forall id, delete k m !! id ≫= role_of = Some r <-> id <> k /\ m !! id ≫= role_of = Some r.
Proof.
  intros id. destruct (decide (id = k)) as [->|Hne]; [rewrite lookup_delete_eq; split; [done|by intros [? _]]|].
  rewrite lookup_delete_ne by done. tauto.
Qed.

Section Agrees.
Context (k : nat) (m : gmap nat (handler (MH C))) (D : gmap str nat) (b r : bool).
Hypothesis Q : queue_agrees k m D b r.

Lemma agrees_below h : well_kinded h ->
  (forall id0, is_Some (<[k := h]> m !! id0) -> (id0 < S k)%nat) /\
  (forall id0 h0, <[k := h]> m !! id0 = Some h0 -> well_kinded h0).
Proof.
  intros Hh. split.
  - intros id0 [h0 H0]. apply lookup_insert_Some in H0 as [[<- _]|[_ H0]]; [lia|]. apply Nat.lt_lt_succ_r, Q. by eexists.
  - intros id0 h0 H0. apply lookup_insert_Some in H0 as [[_ <-]|[_ H0]]; [done|by eapply Q].
Qed.

(** A handler of the user is added. *)
Lemma agrees_user h : well_kinded h -> role_of h = None -> queue_agrees (S k) (<[k := h]> m) D b r.
Proof.
  intros Hh Hr. destruct (agrees_below h Hh) as [B1 B2].
  assert (forall x id, <[k := h]> m !! id ≫= role_of = Some x <-> m !! id ≫= role_of = Some x) as E.
  { intros x id. rewrite role_insert by apply Q. rewrite Hr. naive_solver. }
  constructor; [done|done| | | |].
  - intros p id. rewrite E. apply Q.
  - setoid_rewrite E. apply Q.
  - intros id id'. rewrite !E. apply Q.
  - setoid_rewrite E. apply Q.
Qed.

Lemma agrees_defer tp p : D !! p = None ->
  queue_agrees (S k) (<[k := TimedHandler tp (Once (Deferred p))]> m) (<[p := k]> D) b r.
Proof.
  intros Hp. set (h := TimedHandler tp _). destruct (agrees_below h Logic.I) as [B1 B2].
  pose proof (fun x => role_insert k m h x (qa_ids _ _ _ _ _ Q)) as E. unfold h in E at 2. cbn [role_of] in E.
  constructor; [done|done| | | |].
  - intros q id. rewrite E, lookup_insert_Some, (qa_deferred _ _ _ _ _ Q q id). split.
    + intros [[-> ->]|[? ?]]; [by left|by right].
    + intros [[-> [= ->]]|Hid]; [by left|]. right. split; [|done]. intros ->. apply Q in Hid. congruence.
  - setoid_rewrite E. rewrite (qa_retry _ _ _ _ _ Q). naive_solver.
  - intros id id'. rewrite !E. intros [[_ ?]|?] [[_ ?]|?]; try done. by eapply Q.
  - setoid_rewrite E. intros Hr. destruct (qa_read _ _ _ _ _ Q Hr) as [id Hid]. exists id. by right.
Qed.

Lemma agrees_removed id : (forall id0, is_Some (delete id m !! id0) -> (id0 < k)%nat) /\
  (forall id0 h0, delete id m !! id0 = Some h0 -> well_kinded h0).
Proof.
  split.
  - intros id0 [h0 H0]. apply lookup_delete_Some in H0 as [_ H0]. apply Q. by eexists.
  - intros id0 h0 H0. apply lookup_delete_Some in H0 as [_ H0]. by eapply Q.
Qed.

Lemma agrees_undefer p id : D !! p = Some id -> queue_agrees k (delete id m) (delete p D) b r.
Proof.
  intros Hp. destruct (agrees_removed id) as [B1 B2]. pose proof (fun x => role_delete id m x) as E.
  apply Q in Hp as Hr. constructor; [done|done| | | |].
  - intros q id0. rewrite E, lookup_delete_Some, (qa_deferred _ _ _ _ _ Q q id0). split.
    + intros [Hne H0]. split; [|done]. intros ->. congruence.
    + intros [Hne H0]. split; [|done]. intros ->. apply Q in H0. congruence.
  - setoid_rewrite E. rewrite (qa_retry _ _ _ _ _ Q). split; [|naive_solver]. intros [id0 H0]. exists id0. split; [|done]. congruence.
  - intros id0 id'. rewrite !E. intros [_ ?] [_ ?]. by eapply Q.
  - setoid_rewrite E. intros Hb. destruct (qa_read _ _ _ _ _ Q Hb) as [id0 H0]. exists id0. split; [|done]. congruence.
Qed.

Lemma agrees_scheduled tp d : b = false -> queue_agrees (S k) (<[k := TimedHandler tp (Repeat d RetryUnwatched)]> m) D true r.
Proof.
  intros Hb. set (h := TimedHandler tp _). destruct (agrees_below h Logic.I) as [B1 B2].
  pose proof (fun x => role_insert k m h x (qa_ids _ _ _ _ _ Q)) as E. unfold h in E at 2. cbn [role_of] in E.
  assert (forall id, m !! id ≫= role_of = Some RRetry -> False) as Hno.
  { intros id Hid. assert (b = true) by (apply Q; by exists id). congruence. }
  constructor; [done|done| | | |].
  - intros p id. rewrite E, (qa_deferred _ _ _ _ _ Q p id). naive_solver.
  - split; [|done]. intros _. exists k. apply E. by left.
  - intros id id'. rewrite !E. intros [[-> _]|?] [[-> _]|?]; [done|exfalso; eauto..].
  - setoid_rewrite E. intros Hr. destruct (qa_read _ _ _ _ _ Q Hr) as [id Hid]. exists id. by right.
Qed.

Lemma agrees_unscheduled id : m !! id ≫= role_of = Some RRetry -> queue_agrees k (delete id m) D false r.
Proof.
  intros Hid. destruct (agrees_removed id) as [B1 B2]. pose proof (fun x => role_delete id m x) as E.
  constructor; [done|done| | | |].
  - intros q id0. rewrite E, (qa_deferred _ _ _ _ _ Q q id0). split; [|naive_solver]. intros H0. split; [|done]. congruence.
  - split; [done|]. intros [id0 [Hne H0]%E]. exfalso. apply Hne. by eapply Q.
  - intros id0 id'. rewrite !E. intros [_ ?] [_ ?]. by eapply Q.
  - setoid_rewrite E. intros Hb. destruct (qa_read _ _ _ _ _ Q Hb) as [id0 H0]. exists id0. split; [|done]. congruence.
Qed.

Lemma agrees_reading ev : queue_agrees (S k) (<[k := FileHandler (OnFile ReadInotify) ev 0]> m) D b true.
Proof.
  set (h := FileHandler _ _ _). destruct (agrees_below h Logic.I) as [B1 B2].
  pose proof (fun x => role_insert k m h x (qa_ids _ _ _ _ _ Q)) as E. unfold h in E at 2. cbn [role_of] in E.
  constructor; [done|done| | | |].
  - intros p id. rewrite E, (qa_deferred _ _ _ _ _ Q p id). naive_solver.
  - setoid_rewrite E. rewrite (qa_retry _ _ _ _ _ Q). naive_solver.
  - intros id id'. rewrite !E. intros [[_ ?]|?] [[_ ?]|?]; try done. by eapply Q.
  - intros _. exists k. apply E. by left.
Qed.

Lemma agrees_forget_user id h : m !! id = Some h -> role_of h = None -> queue_agrees k (delete id m) D b r.
Proof.
  intros Hh Hr. destruct (agrees_removed id) as [B1 B2].
  assert (forall x id0, delete id m !! id0 ≫= role_of = Some x <-> m !! id0 ≫= role_of = Some x) as E.
  { intros x id0. rewrite role_delete. split; [by intros [_ ?]|]. intros H0. split; [|done]. intros ->. rewrite Hh in H0. cbn in H0. congruence. }
  constructor; [done|done| | | |].
  - intros p id0. rewrite E. apply Q.
  - setoid_rewrite E. apply Q.
  - intros id0 id'. rewrite !E. apply Q.
  - setoid_rewrite E. apply Q.
Qed.
End Agrees.
End Invariant.

(** The files: each one the monitor was given is watched, or waits to be. *)
Record files_tracked (given : gmap str Z) (m : FileModificationMonitor) : Prop := {
  ft_given : added_files_ m = given;
  ft_files f : added_files_ m !! path f = Some (stillness_threshold f) <->
    f ∈ unwatched_files_ m \/ exists wd, watched_files_ m !! wd = Some f;
  ft_disjoint f wd : f ∈ unwatched_files_ m -> watched_files_ m !! wd <> Some f;
  ft_one_wd f wd wd' : watched_files_ m !! wd = Some f -> watched_files_ m !! wd' = Some f -> wd = wd';
  ft_nodup : NoDup (unwatched_files_ m);
  ft_times p t : added_files_ m !! p = Some t -> small_time t;
  ft_period : small_time (add_missing_files_retry_period_ m)
}.

Section Emplace.
Context (address : str -> Z).

Lemma set_emplace_elem f l : (forall g, g ∈ l -> address (path g) = address (path f) -> g = f) ->
  forall g, g ∈ set_emplace address f l <-> g = f \/ g ∈ l.
Proof.
  induction l as [|h l IH]; intros Hinj g; cbn [set_emplace]; [set_solver|].
  destruct (Z.ltb_spec (address (path f)) (address (path h))); [set_solver|].
  destruct (Z.ltb_spec (address (path h)) (address (path f))).
  - rewrite !elem_of_cons, IH; [tauto|]. intros g0 Hg0. apply Hinj. by right.
  - assert (h = f) as -> by (apply Hinj; [left|lia]). set_solver.
Qed.

Lemma set_emplace_nodup f l : (forall g, g ∈ l -> address (path g) = address (path f) -> g = f) -> NoDup l -> f ∉ l ->
  NoDup (set_emplace address f l).
Proof.
  intros Hinj. induction l as [|h l IH]; intros Hnd Hf; cbn [set_emplace]; [apply NoDup_singleton|].
  apply NoDup_cons in Hnd as Hnd'. destruct Hnd' as [Hh Hl].
  destruct (Z.ltb_spec (address (path f)) (address (path h))); [by constructor|].
  destruct (Z.ltb_spec (address (path h)) (address (path f))); [|done].
  constructor; [|apply IH; [|done|set_solver]; intros g Hg; apply Hinj; by right].
  rewrite set_emplace_elem; [|intros g Hg; apply Hinj; by right]. intros [->|]; [|done]. apply Hf. left.
Qed.
End Emplace.

Section Files.
Context (address : str -> Z).
Hypothesis address_inj : forall p q, address p = address q -> p = q.
Context (given : gmap str Z) (m : FileModificationMonitor).
Hypothesis T : files_tracked given m.

Lemma tracked_same f g : added_files_ m !! path f = Some (stillness_threshold f) ->
  added_files_ m !! path g = Some (stillness_threshold g) -> path f = path g -> f = g.
Proof. destruct f, g. cbn. intros Hf Hg ->. congruence. Qed.

Lemma emplace_ok f : added_files_ m !! path f = Some (stillness_threshold f) ->
  forall g, g ∈ unwatched_files_ m -> address (path g) = address (path f) -> g = f.
Proof. intros Hf g Hg E. apply tracked_same; [|done|by apply address_inj]. apply T. by left. Qed.

(** A file begins to be watched. *)
Lemma tracked_watch f wd D : f ∈ unwatched_files_ m -> watched_files_ m !! wd = None ->
  files_tracked given (erase_unwatched f (set_deferred D (set_watched (<[wd := f]> (watched_files_ m)) m))).
Proof.
  intros Hf Hwd. destruct T as [T0 T1 T2 T3 T4 T5 T6]. constructor; cbn; [done| | | |by apply NoDup_filter|done|done].
  - intros g. rewrite T1, list_elem_of_filter. setoid_rewrite lookup_insert_Some. split.
    + intros [Hg|[wd' Hg]].
      * destruct (decide (g = f)) as [->|]; [right; exists wd; by left|by left].
      * right. exists wd'. right. split; [congruence|done].
    + intros [[_ Hg]|[wd' [[_ <-]|[_ Hg]]]]; [by left|by left|right; by exists wd'].
  - intros g wd' [Hne Hg]%list_elem_of_filter [[_ ->]|[_ Hw]]%lookup_insert_Some; [done|]. by apply (T2 g wd').
  - intros g wd1 wd2 H1%lookup_insert_Some H2%lookup_insert_Some. destruct H1 as [[<- <-]|[_ H1]], H2 as [[<- H2]|[_ H2]];
      [done|by apply (T2 f wd2) in H2|subst; by apply (T2 g wd1) in H1|by apply (T3 g)].
Qed.

(** A file is no longer watched. *)
Lemma tracked_unwatch f wd : watched_files_ m !! wd = Some f ->
  files_tracked given (set_unwatched (set_emplace address f (unwatched_files_ m)) (set_watched (delete wd (watched_files_ m)) m)).
Proof.
  intros Hwd. destruct T as [T0 T1 T2 T3 T4 T5 T6] eqn:ET. assert (added_files_ m !! path f = Some (stillness_threshold f)) as Hf.
  { apply T1. right. by exists wd. }
  pose proof (set_emplace_elem address f _ (emplace_ok f Hf)) as E. constructor; cbn; [done| | | | | |].
  - intros g. rewrite T1, E. setoid_rewrite lookup_delete_Some. split.
    + intros [Hg|[wd' Hg]]; [left; by right|]. destruct (decide (wd = wd')) as [->|]; [left; left; congruence|right; by exists wd'].
    + intros [[->|Hg]|[wd' [_ Hg]]]; [right; by exists wd|by left|right; by exists wd'].
  - intros g wd' [->|Hg]%E [Hne Hw]%lookup_delete_Some; [by apply Hne, (T3 f)|by apply (T2 g wd')].
  - intros g wd1 wd2 [_ H1]%lookup_delete_Some [_ H2]%lookup_delete_Some. by apply (T3 g).
  - apply set_emplace_nodup; [by apply emplace_ok|done|]. intros Hu. by apply (T2 f wd).
  - done.
  - done.
Qed.

(** A file is added. *)
Lemma tracked_add p t : added_files_ m !! p = None -> small_time t ->
  files_tracked (<[p := t]> given) (set_unwatched (set_emplace address (mkFileInfo p t) (unwatched_files_ m)) (set_added (<[p := t]> (added_files_ m)) m)).
Proof.
  intros Hp Ht. destruct T as [T0 T1 T2 T3 T4 T5 T6] eqn:ET. set (f := mkFileInfo p t).
  assert (forall g, g ∈ unwatched_files_ m \/ (exists wd, watched_files_ m !! wd = Some g) -> path g <> p) as Hfresh.
  { intros g Hg E. apply T1 in Hg. congruence. }
  assert (forall g, g ∈ unwatched_files_ m -> address (path g) = address (path f) -> g = f) as Hadd.
  { intros g Hg E. exfalso. apply (Hfresh g); [by left|]. by apply address_inj in E. }
  pose proof (set_emplace_elem address f _ Hadd) as E. constructor; cbn; [by rewrite T0| | | | | |].
  - intros g. rewrite E, lookup_insert_Some, T1. split.
    + intros [[Hq Hg]|[_ [Hg|Hg]]]; [left; left; unfold f; destruct g; cbn in *; by subst|left; by right|by right].
    + intros [[->|Hg]|Hg]; [by left|right; split; [|by left]|right; split; [|by right]].
      * symmetry. apply Hfresh. by left.
      * symmetry. apply Hfresh. by right.
  - intros g wd [->|Hg]%E Hw; [|by apply (T2 g wd)]. apply (Hfresh f); [right; by exists wd|done].
  - done.
  - apply set_emplace_nodup; [done|done|]. intros Hf. apply (Hfresh f); [by left|done].
  - intros q t' [[_ <-]|[_ Hq]]%lookup_insert_Some; [done|by eapply T5].
  - done.
Qed.
End Files.

(** ** The kernel's side

    [live w]: the watch descriptors for which an [IN_IGNORED] was not read yet.
    An event is about one of them, and a file that the monitor does not watch
    gets a new one: no two of its paths lead to one file. *)

Fixpoint reported (es : list (simlib_inotify_event * nat)) (L : gset Z) : option (gset Z) :=
  match es with
  | [] => Some L
  | (e, _) :: es' =>
      if decide (wd e ∈ L) then reported es' (if has_bits (mask e) IN_IGNORED then L ∖ {[wd e]} else L) else None
  end.

Class Inotify {CW : Type} (inotify_init1 : CW -> CW * Z) (inotify_add_watch : Z -> str -> Z -> CW -> CW * (Z * Z))
    (inotify_rm_watch : Z -> Z -> CW -> CW * Z) (read : Z -> Z -> CW -> CW * (Z * Z * str)) (live : CW -> gset Z) : Prop := {
  new_instance w : 0 <= (inotify_init1 w).2 -> live (inotify_init1 w).1 = ∅;
  add_watch fd p events w : let r := inotify_add_watch fd p events w in
    (r.2.1 = -1 /\ live r.1 = live w) \/ (r.2.1 <> -1 /\ r.2.1 ∉ live w /\ live r.1 = {[r.2.1]} ∪ live w);
  rm_watch fd wd w : live (inotify_rm_watch fd wd w).1 = live w;
  read_events fd len w : let '(w', (n, _, bytes)) := read fd len w in
    (n < 16 /\ live w' = live w) \/
    (exists es, Forall event_ok es /\ bytes = concat (store_event <$> es) /\ n = Z.of_nat (length bytes) /\
      reported es (live w) = Some (live w'))
}.

(** The handlers of the queue by their role. *)
Lemma handlers_role {CW C} (s : ES (MW CW) (MH C)) id r : fns (queue s) !! id ≫= role_of = Some r <-> exists h, handlers_ (queue s) !! id = Some h /\ role_of h = Some r.
Proof.
  unfold fns. rewrite lookup_fmap. destruct (handlers_ (queue s) !! id) as [h|]; cbn.
  - destruct h; cbn; naive_solver.
  - naive_solver.
Qed.

Lemma role_deferred {C} (h : handler (MH C)) p : role_of h = Some (RDeferred p) <-> exists tp, h = TimedHandler tp (Once (Deferred p)).
Proof.
  split; [|by intros [tp ->]]. destruct h as [tp [[| |q|c]|d [| |q|c]]|[[| |q|c]|] ev idx]; try done. cbn. intros [= ->]. by exists tp.
Qed.

Lemma role_retry {C} (h : handler (MH C)) : role_of h = Some RRetry <-> exists tp d, h = TimedHandler tp (Repeat d RetryUnwatched).
Proof.
  split; [|by intros (tp & d & ->)]. destruct h as [tp [[| |q|c]|d [| |q|c]]|[[| |q|c]|] ev idx]; try done. intros _. by exists tp, d.
Qed.

(** The monitor knows each of the paths, in one place; a retry and the deferred
    notifications are in the queue. *)
Definition keeps_track_of {CW C : Type} (paths : list (str * Z)) (s : ES (MW CW) (MH C)) : Prop :=
  let mo := monitor (world s) in
  let handlers := handlers_ (queue s) in
  (forall p t, (p, t) ∈ paths <->
    (mkFileInfo p t ∈ unwatched_files_ mo \/ exists wd, watched_files_ mo !! wd = Some (mkFileInfo p t))) /\
  (forall f wd, watched_files_ mo !! wd = Some f -> f ∉ unwatched_files_ mo /\
    forall wd', watched_files_ mo !! wd' = Some f -> wd' = wd) /\
  (unwatched_files_ mo <> [] -> exists id tp d, handlers !! id = Some (TimedHandler tp (Repeat d RetryUnwatched)) /\
    forall id' tp' d', handlers !! id' = Some (TimedHandler tp' (Repeat d' RetryUnwatched)) -> id' = id) /\
  (forall p id, deferred_modification_handlers_ mo !! p = Some id <->
    exists tp, handlers !! id = Some (TimedHandler tp (Once (Deferred p)))).

Section Monitor.
Context {CW C : Type} (paths : list (str * Z)).
Abbreviation given := (list_to_map paths : gmap str Z).
Context (inotify_init1 : CW -> CW * Z) (inotify_add_watch : Z -> str -> Z -> CW -> CW * (Z * Z))
  (inotify_rm_watch : Z -> Z -> CW -> CW * Z) (read : Z -> Z -> CW -> CW * (Z * Z * str)).
Context (live : CW -> gset Z) `{K : !Inotify inotify_init1 inotify_add_watch inotify_rm_watch read live}.
Context (watching_log_ : WatchingLog CW) (event_handler_ : str -> prog CW C unit).
Context (user_timed : C -> prog CW C unit) (user_repeating : C -> prog CW C bool) (user_file : C -> Z -> prog CW C unit).
Context (address : str -> Z) (now : CW -> CW * Z).
Context (ppoll : list pollfd -> option Z -> CW -> CW * (Z * bool * list Z)) (sleep_for : Z -> CW -> CW).
Context (external_pause : CW -> CW * bool) (write_pause_fd read_pause_fd : CW -> CW).

(** What the user does is nothing to inotify; times fit; the user does not remove
    handlers, which might be the monitor's. *)
Fixpoint user_ok (E : exn -> Prop) {A} (p : prog CW C A) : Prop :=
  match p with
  | Ret _ => True
  | Fail e => E e
  | Crash | Remove _ _ => False
  | Look k => forall w, user_ok E (k w)
  | Effect f p' => (forall w, live (f w) = live w) /\ user_ok E p'
  | AddReady _ k => forall id, user_ok E (k id)
  | AddAt tp _ k => tp <= max_time /\ forall id, user_ok E (k id)
  | AddIn d _ k => small_time d /\ forall id, user_ok E (k id)
  | AddRepeating d _ p' => small_time d /\ user_ok E p'
  | AddFile file _ _ k => 0 <= file /\ forall id, user_ok E (k id)
  | Pause p' => user_ok E p'
  end.

(** The exceptions that may leave [watch]: not that of an unknown handler id. *)
Definition expected (e : exn) : Prop := e <> OutOfRange (lit "map::at").

Hypothesis address_inj : forall p q, address p = address q -> p = q.
Hypothesis clock : forall w, small_time (now w).2.
Hypothesis outside_live : forall w, live (now w).1 = live w /\ (forall l t, live (ppoll l t w).1 = live w) /\
  (forall d, live (sleep_for d w) = live w) /\ live (external_pause w).1 = live w /\ live (write_pause_fd w) = live w /\
  live (read_pause_fd w) = live w.
Hypothesis log_live : forall w, (forall p e, live (could_not_watch watching_log_ p e w) = live w) /\
  (forall e, live (read_failed watching_log_ e w) = live w) /\ (forall p, live (started_watching watching_log_ p w) = live w).
(** The event handler does not throw. *)
Hypothesis handler_ok : forall p, user_ok (fun _ => False) (event_handler_ p).
Hypothesis timed_ok : forall c, user_ok expected (user_timed c).
Hypothesis repeating_ok : forall c, user_ok expected (user_repeating c).
Hypothesis file_ok : forall c ev, user_ok expected (user_file c ev).

(** The monitor while it watches: what the queue has agrees with its members, its
    files are accounted for, it knows the descriptors the kernel may report, and a
    file that waits is tried again. *)
Definition monitor_inv (k : nat) (m : gmap nat (handler (MH C))) (w : MW CW) : Prop :=
  let mo := monitor w in
  queue_agrees k m (deferred_modification_handlers_ mo) (processing_unwatched_files_is_scheduled_ mo) true /\
  files_tracked given mo /\ dom (watched_files_ mo) = live (outside w) /\
  (unwatched_files_ mo <> [] -> processing_unwatched_files_is_scheduled_ mo = true) /\ 0 <= intfy_fd_ mo.

Abbreviation tr := (triple monitor_inv expected).
Abbreviation run_prog := (exec (on_outside now) (in_outside write_pause_fd)).

(** The state while the monitor works: its members are [mo], the kernel's live
    descriptors [L], the queue's handlers are for [D], [b] and [r]. *)
Definition state_is (n i : nat) (mo : FileModificationMonitor) (L : gset Z) (D : gmap str nat) (b r : bool) (s : ES (MW CW) (MH C)) : Prop :=
  I n i s /\ monitor (world s) = mo /\ live (outside (world s)) = L /\
  queue_agrees (next_handler_id_ (queue s)) (fns (queue s)) D b r.

(** *** Programs *)

Lemma exec_bind {A B} (p : prog (MW CW) (MH C) A) (k : A -> prog (MW CW) (MH C) B) : forall s,
  run_prog (prog_bind p k) s = (a ← run_prog p; run_prog (k a)) s.
Proof.
  induction p as [a|e| |k' IH|f p IH|h k' IH|tp h k' IH|d h k' IH|d h p IH|file ev h k' IH|id p IH|p IH]; intros s;
    try done; cbn [prog_bind exec].
  - exact (IH (world s) s).
  - exact (IH _).
  - unfold mbind, stm_bind. destruct (add_ready_handler _ _ s) as [s' [id|e| |]]; [exact (IH id s')|done|done|done].
  - unfold mbind, stm_bind. destruct (add_time_handler _ _ _ s) as [s' [id|e| |]]; [exact (IH id s')|done|done|done].
  - unfold mbind, stm_bind. destruct (add_time_handler_in _ _ _ s) as [s' [id|e| |]]; [exact (IH id s')|done|done|done].
  - unfold mbind, stm_bind. destruct (add_repeating_handler _ _ _ s) as [s' [u|e| |]]; [exact (IH s')|done|done|done].
  - unfold mbind, stm_bind. destruct (add_file_handler _ _ _ s) as [s' [id|e| |]]; [exact (IH id s')|done|done|done].
  - unfold mbind, stm_bind. destruct (remove_handler id s) as [s' [u|e| |]]; [exact (IH s')|done|done|done].
  - unfold mbind, stm_bind. destruct (pause_immediately _ s) as [s' [u|e| |]]; [exact (IH s')|done|done|done].
Qed.

Lemma tr_bind {A B} P Q R (p : prog (MW CW) (MH C) A) (k : A -> prog (MW CW) (MH C) B) :
  tr P (run_prog p) Q -> (forall a, tr (Q a) (run_prog (k a)) R) -> tr P (run_prog (p ≫= k)) R.
Proof.
  intros Hp Hk s Hs. unfold mbind, prog_bind_inst. rewrite exec_bind. by eapply (triple_bind monitor_inv expected P _ _ Q).
Qed.

Lemma tr_conseq {A} (P P' : ES (MW CW) (MH C) -> Prop) (m : stm (ES (MW CW) (MH C)) A) Q Q' :
  tr P m Q -> (forall s, P' s -> P s) -> (forall a s, Q a s -> Q' a s) -> tr P' m Q'.
Proof. apply triple_conseq. Qed.

Section At.
Context (n i : nat).

Lemma tr_look {A B} mo L D b r (f : FileModificationMonitor -> A) (k : A -> prog (MW CW) (MH C) B) R :
  tr (state_is n i mo L D b r) (run_prog (k (f mo))) R -> tr (state_is n i mo L D b r) (run_prog (look f ≫= k)) R.
Proof. intros Hk s Hs. pose proof Hs as (_ & E & _). specialize (Hk s Hs). rewrite <- E in Hk. exact Hk. Qed.

Lemma tr_change {B} mo L D b r f (k : unit -> prog (MW CW) (MH C) B) R :
  tr (state_is n i (f mo) L D b r) (run_prog (k tt)) R -> tr (state_is n i mo L D b r) (run_prog (change f ≫= k)) R.
Proof.
  intros Hk s (Hi & E & EL & Q). apply (Hk (mkES (mkMW (f (monitor (world s))) (outside (world s))) (queue s) (trace s))).
  split; [exact (I_world n i s _ Hi)|]. rewrite E. split; [done|]. split; [done|]. exact Q.
Qed.

Lemma tr_call {A B} mo L D b r (f : CW -> CW * A) (k : A -> prog (MW CW) (MH C) B) R :
  (forall w, live w = L -> tr (state_is n i mo (live (f w).1) D b r) (run_prog (k (f w).2)) R) ->
  tr (state_is n i mo L D b r) (run_prog (call f ≫= k)) R.
Proof.
  intros Hk s (Hi & E & EL & Q). apply (Hk (outside (world s)) EL (mkES (mkMW (monitor (world s)) (f (outside (world s))).1) (queue s) (trace s))).
  split; [exact (I_world n i s _ Hi)|done].
Qed.

Lemma tr_log {B} mo L D b r f (k : unit -> prog (MW CW) (MH C) B) R : (forall w, live (f w) = live w) ->
  tr (state_is n i mo L D b r) (run_prog (k tt)) R -> tr (state_is n i mo L D b r) (run_prog (log f ≫= k)) R.
Proof.
  intros Hf Hk s (Hi & E & EL & Q). apply (Hk (mkES (mkMW (monitor (world s)) (f (outside (world s)))) (queue s) (trace s))).
  split; [exact (I_world n i s _ Hi)|]. split; [done|]. split; [|done]. cbn. by rewrite Hf.
Qed.

(** *** Handlers are added *)

Lemma add_impl_at mo L D b r tp fn D' b' : fn_ok (TimedHandler tp fn) ->
  (forall k m, queue_agrees k m D b r ->
    queue_agrees (S k) (<[k := TimedHandler tp fn]> m) (D' k) b' r) ->
  tr (state_is n i mo L D b r) (add_time_handler_impl tp fn) (fun id => state_is n i mo L (D' id) b' r).
Proof.
  intros Hfn HQ s (Hi & E & EL & Q). pose proof (add_time_handler_impl_triple monitor_inv expected n i tp fn Hfn s Hi) as Ht.
  change (add_time_handler_impl tp fn s) with
    (mkES (world s) (with_timed tp fn (queue s)) (trace s ++ [Added (next_handler_id_ (queue s)) (Some tp)]),
     @Ok nat (next_handler_id_ (queue s))) in Ht |- *.
  split; [exact Ht|]. split; [done|]. split; [done|]. cbn [queue]. unfold fns, with_timed. cbn. rewrite fmap_insert. by apply HQ.
Qed.

Lemma now_at {B} mo L D b r (k : Z -> stm (ES (MW CW) (MH C)) B) R :
  (forall t, small_time t -> tr (state_is n i mo L D b r) (k t) R) -> tr (state_is n i mo L D b r) (t ← on_world (on_outside now); k t) R.
Proof.
  intros Hk s (Hi & E & EL & Q). unfold mbind, stm_bind, on_world, on_outside.
  apply (Hk (now (outside (world s))).2); [apply clock|]. split; [exact (I_world n i s _ Hi)|]. split; [done|]. split; [|done].
  cbn. rewrite <- EL. apply outside_live.
Qed.

Lemma add_in_at mo L D b r d fn D' b' : small_time d -> (forall tp, tp <= max_time -> fn_ok (TimedHandler tp fn)) ->
  (forall tp k m, queue_agrees k m D b r ->
    queue_agrees (S k) (<[k := TimedHandler tp fn]> m) (D' k) b' r) ->
  tr (state_is n i mo L D b r) (add_time_handler_in (on_outside now) d fn) (fun id => state_is n i mo L (D' id) b' r).
Proof.
  intros Hd Hfn HQ. unfold add_time_handler_in. destruct (Z.ltb_spec d 0); [unfold small_time in Hd; lia|].
  apply now_at. intros t Ht. apply i64_bind; [unfold small_time, max_time in *; lia|].
  apply add_impl_at; [|apply HQ]. apply Hfn. unfold small_time, max_time in *. lia.
Qed.

Lemma add_repeating_at mo L D b r d h b' : small_time d ->
  (forall tp k m, queue_agrees k m D b r ->
    queue_agrees (S k) (<[k := TimedHandler tp (Repeat d h)]> m) D b' r) ->
  tr (state_is n i mo L D b r) (add_repeating_handler (on_outside now) d h) (fun _ => state_is n i mo L D b' r).
Proof.
  intros Hd HQ. unfold add_repeating_handler. destruct (Z.ltb_spec d 0); [unfold small_time in Hd; lia|].
  eapply triple_bind; [apply (add_in_at mo L D b r d _ (fun _ => D) b'); [done|by split|done]|]. intros id. apply triple_ret.
Qed.

Lemma add_file_at mo L D b r file ev h r' : 0 <= file ->
  (forall k m, queue_agrees k m D b r -> queue_agrees (S k) (<[k := FileHandler (OnFile h) ev 0]> m) D b r') ->
  tr (state_is n i mo L D b r) (add_file_handler file ev (OnFile h)) (fun _ => state_is n i mo L D b r').
Proof.
  intros Hf HQ s (Hi & E & EL & Q). pose proof (add_file_handler_triple monitor_inv expected n i file ev (OnFile h) Hf s Hi) as Ht.
  change (add_file_handler file ev (OnFile h) s) with
    (mkES (world s) (with_file file ev (OnFile h) (queue s)) (trace s ++ [Added (next_handler_id_ (queue s)) None]),
     @Ok nat (next_handler_id_ (queue s))) in Ht |- *.
  split; [exact Ht|]. split; [done|]. split; [done|]. cbn [queue]. unfold fns, with_file. cbn. rewrite fmap_insert. by apply HQ.
Qed.

(** *** Programs of the user *)

Lemma user_at mo L D b r (E : exn -> Prop) {A} (p : prog CW C A) : (forall e, E e -> expected e) -> user_ok E p ->
  tr (state_is n i mo L D b r) (run_prog (user p)) (fun _ => state_is n i mo L D b r).
Proof.
  intros HE. induction p as [a|e| |k IH|f p IH|h k IH|tp h k IH|d h k IH|d h p IH|file ev h k IH|id p IH|p IH];
    cbn [user_ok user exec]; intros Hp; try done.
  - by intros s Hs.
  - intros s (Hi & _). split; [apply Hi|by apply HE].
  - intros s Hs. by apply IH.
  - destruct Hp as [Hf Hp]. intros s (Hi & Em & EL & Q).
    apply (IH Hp (mkES (mkMW (monitor (world s)) (f (outside (world s)))) (queue s) (trace s))).
    split; [exact (I_world n i s _ Hi)|]. split; [done|]. split; [|done]. cbn. by rewrite Hf.
  - eapply triple_bind; [|intros id; by apply IH]. apply now_at. intros t Ht. apply (add_impl_at mo L D b r t _ (fun _ => D) b).
    + unfold fn_ok, small_time, max_time in *. lia.
    + intros k0 m Q. by apply agrees_user.
  - destruct Hp as [Htp Hp]. eapply triple_bind; [|intros id; by apply IH]. apply now_at. intros t Ht.
    apply (add_impl_at mo L D b r _ _ (fun _ => D) b).
    + cbn. destruct (tp <? t); unfold small_time, max_time in *; lia.
    + intros k0 m Q. by apply agrees_user.
  - destruct Hp as [Hd Hp]. eapply triple_bind; [|intros id; by apply IH]. apply (add_in_at mo L D b r d _ (fun _ => D) b); [done|done|].
    intros tp k0 m Q. by apply agrees_user.
  - destruct Hp as [Hd Hp]. eapply triple_bind; [|intros u; by apply IH]. apply (add_repeating_at mo L D b r d _ b); [done|].
    intros tp k0 m Q. by apply agrees_user.
  - destruct Hp as [Hd Hp]. eapply triple_bind; [|intros id; by apply IH]. apply (add_file_at mo L D b r file ev _ r); [done|].
    intros k0 m Q. by apply agrees_user.
  - eapply triple_bind; [|intros u; by apply IH]. intros s (Hi & Em & EL & Q).
    split; [exact (I_world n i _ _ (I_pause n i s true Hi))|]. split; [done|]. split; [|done].
    cbn. rewrite <- EL. apply outside_live.
Qed.

(** *** The monitor's own programs *)

Lemma remove_at mo L D b r p id : D !! p = Some id ->
  tr (state_is n i mo L D b r) (remove_handler id) (fun _ => state_is n i mo L (delete p D) b r).
Proof.
  intros Hp s (Hi & E & EL & Q). apply (qa_deferred _ _ _ _ _ Q) in Hp as Hr. unfold fns in Hr. rewrite lookup_fmap in Hr.
  destruct (handlers_ (queue s) !! id) as [h|] eqn:Hh; [|done].
  assert (exists tp fn, h = TimedHandler tp fn) as (tp & fn & ->).
  { destruct h as [tp fn|fn ev idx]; [by exists tp, fn|]. by destruct fn as [[]|]. }
  pose proof (remove_handler_triple (fun _ _ _ => True) (fun _ => True) n i id Logic.I s Hi) as Ht.
  assert (remove_handler id s = (mkES (world s)
    (without_timed id (timed_erase (tp, id) (timed_handlers_ (queue s))) (queue s)) (trace s ++ [Removed id]), Ok tt)) as R.
  { unfold remove_handler. rewrite (stm_bind_run _ _ s s (handlers_ (queue s))) by reflexivity. by rewrite Hh. }
  rewrite R in Ht |- *. split; [exact Ht|]. split; [done|]. split; [done|]. cbn [queue]. unfold fns, without_timed. cbn.
  rewrite fmap_delete. by eapply agrees_undefer.
Qed.

Lemma set_deferred_id mo : set_deferred (deferred_modification_handlers_ mo) mo = mo.
Proof. by destruct mo. Qed.

Lemma tr_value {A} (Q : A -> ES (MW CW) (MH C) -> Prop) a : tr (Q a) (run_prog (Ret a)) Q.
Proof. by intros s Hs. Qed.

(** A modification is reported, or will be. *)
Lemma run_modification_handler_at mo L b r f p : small_time (stillness_threshold f) ->
  tr (state_is n i mo L (deferred_modification_handlers_ mo) b r) (run_prog (run_modification_handler event_handler_ f p))
    (fun _ s => exists D, state_is n i (set_deferred D mo) L D b r s).
Proof.
  intros Hf. unfold run_modification_handler. destruct (stillness_threshold f =? 0).
  { eapply tr_conseq; [by apply (user_at mo L (deferred_modification_handlers_ mo) b r (fun _ => False))|intros s Hs; exact Hs|].
    intros u s Hs. exists (deferred_modification_handlers_ mo). by rewrite set_deferred_id. }
  apply tr_look. set (D := deferred_modification_handlers_ mo).
  apply (tr_bind _ (fun _ s => state_is n i (set_deferred (delete p D) mo) L (delete p D) b r s)).
  { destruct (D !! p) as [id|] eqn:Hp.
    - apply tr_change. cbn [exec]. eapply triple_bind; [by apply (remove_at _ _ _ _ _ p)|]. intros u. by intros s Hs.
    - intros s Hs. cbn. rewrite delete_id by done. unfold D. by rewrite set_deferred_id. }
  intros u. apply tr_change. cbn [set_deferred deferred_modification_handlers_].
  apply (tr_bind _ (fun id => state_is n i (set_deferred (<[p := 0%nat]> (delete p D)) mo) L (<[p := id]> (delete p D)) b r)).
  { cbn [exec]. eapply triple_bind; [|intros id; apply tr_value].
    apply (add_in_at _ _ _ _ _ _ _ (fun id => <[p := id]> (delete p D)) b); [done|done|].
    intros tp k m Q. apply agrees_defer; [done|]. by rewrite lookup_delete_eq. }
  intros id s (Hi & E & EL & Q). exists (<[p := id]> (delete p D)).
  split; [exact (I_world n i s _ Hi)|]. cbn. rewrite E. cbn. by rewrite insert_insert_eq.
Qed.

(** A file is tried. *)
Lemma try_watch_at mo L b r notify f : small_time (stillness_threshold f) -> dom (watched_files_ mo) = L ->
  tr (state_is n i mo L (deferred_modification_handlers_ mo) b r)
    (run_prog (try_watch inotify_add_watch watching_log_ event_handler_ notify f))
    (fun keep s => if (keep : bool) then state_is n i mo L (deferred_modification_handlers_ mo) b r s
      else exists wd D, wd ∉ L /\ state_is n i (set_deferred D (set_watched (<[wd := f]> (watched_files_ mo)) mo)) ({[wd]} ∪ L) D b r s).
Proof.
  intros Hf EL. unfold try_watch. apply tr_look. apply tr_call. intros w Hw. destruct (add_watch (intfy_fd_ mo) (c_str (path f)) all_events w) as [[E1 E2]|(E1 & E2 & E3)];
    destruct (inotify_add_watch _ _ _ w) as [w' [wd errno]]; cbn [fst snd] in *.
  - subst wd. rewrite E2, Hw. apply tr_log; [intros w0; apply log_live|]. by intros s Hs.
  - rewrite E3, Hw. rewrite Hw in E2. destruct (Z.eqb_spec wd (-1)); [done|]. apply tr_log; [intros w0; apply log_live|]. apply tr_change.
    assert (emplace_watched wd f mo = set_watched (<[wd := f]> (watched_files_ mo)) mo) as ->.
    { unfold emplace_watched. replace (watched_files_ mo !! wd) with (@None FileInfo); [done|]. symmetry. apply not_elem_of_dom. by rewrite EL. }
    set (mo' := set_watched _ mo).
    apply (tr_bind _ (fun _ s => exists D, state_is n i (set_deferred D mo') ({[wd]} ∪ L) D b r s)).
    + destruct notify; [by apply (run_modification_handler_at mo')|]. intros s Hs. exists (deferred_modification_handlers_ mo). exact Hs.
    + intros u s [D Hs]. by exists wd, D.
Qed.

(** Between two steps of a function: the files are accounted for; [flag] and [fd]
    are members that stay, [b] is whether a retry is pending. *)
Definition working (flag : bool) (fd : Z) (b r : bool) (s : ES (MW CW) (MH C)) : Prop :=
  exists mo, state_is n i mo (dom (watched_files_ mo)) (deferred_modification_handlers_ mo) b r s /\ files_tracked given mo /\
    processing_unwatched_files_is_scheduled_ mo = flag /\ intfy_fd_ mo = fd.

Lemma tracked_small mo f : files_tracked given mo -> f ∈ unwatched_files_ mo \/ (exists wd, watched_files_ mo !! wd = Some f) ->
  small_time (stillness_threshold f).
Proof. intros T Hf. apply (ft_files _ _ T) in Hf. by eapply ft_times. Qed.

Lemma filter_unwatched_at flag fd b r notify l : NoDup l ->
  tr (fun s => exists mo, (state_is n i mo (dom (watched_files_ mo)) (deferred_modification_handlers_ mo) b r s /\ files_tracked given mo /\
        processing_unwatched_files_is_scheduled_ mo = flag /\ intfy_fd_ mo = fd) /\ forall f, f ∈ l -> f ∈ unwatched_files_ mo)
    (run_prog (filter_unwatched (try_watch inotify_add_watch watching_log_ event_handler_ notify) l))
    (fun _ => working flag fd b r).
Proof.
  induction l as [|f l IH]; intros Hnd; cbn [filter_unwatched].
  { intros s (mo & Hs & _). by exists mo. }
  apply NoDup_cons in Hnd as [Hf Hnd]. specialize (IH Hnd).
  intros s0 (mo & (Hs & T & Efl & Efd) & Hl). revert s0 Hs. fold (tr (state_is n i mo (dom (watched_files_ mo)) (deferred_modification_handlers_ mo) b r)
    (run_prog (keep ← try_watch inotify_add_watch watching_log_ event_handler_ notify f;
      _ ← (if keep : bool then Ret tt else change (erase_unwatched f));
      filter_unwatched (try_watch inotify_add_watch watching_log_ event_handler_ notify) l)) (fun _ => working flag fd b r)).
  eapply tr_bind; [apply try_watch_at; [|done]|].
  { eapply tracked_small; [done|]. left. apply Hl. left. }
  intros [|].
  - intros s Hs. apply IH. exists mo. split; [done|]. intros g Hg. apply Hl. by right.
  - intros s (wd & D & Hwd & Hs). set (mo1 := set_deferred D (set_watched (<[wd := f]> (watched_files_ mo)) mo)) in *.
    revert s Hs. apply (tr_change mo1 _ D b r (erase_unwatched f)). intros s Hs. apply IH. exists (erase_unwatched f mo1). split.
    + split; [|split; [|done]].
      * cbn. rewrite dom_insert_L. exact Hs.
      * apply tracked_watch; [done|apply Hl; left|]. by apply not_elem_of_dom.
    + intros g Hg. cbn. apply list_elem_of_filter. split; [|apply Hl; by right]. by intros ->.
Qed.

Lemma process_unwatched_at flag fd b r notify : tr (working flag fd b r)
  (run_prog (process_unwatched_files inotify_add_watch watching_log_ event_handler_ notify)) (fun _ => working flag fd b r).
Proof.
  intros s (mo & Hs & T & Hfl). pose proof Hs as (_ & Em & _). unfold process_unwatched_files.
  change (run_prog (l ← look unwatched_files_; filter_unwatched (try_watch inotify_add_watch watching_log_ event_handler_ notify) l) s)
    with (run_prog (filter_unwatched (try_watch inotify_add_watch watching_log_ event_handler_ notify) (unwatched_files_ (monitor (world s)))) s).
  rewrite Em. apply (filter_unwatched_at flag fd b r notify (unwatched_files_ mo)); [apply T|]. by exists mo.
Qed.

(** When the monitor is done with an event: the kernel knows [L], the monitor
    [L'], which lacks what it has not read yet. *)
Definition settled (fd : Z) (L L' : gset Z) (s : ES (MW CW) (MH C)) : Prop :=
  exists mo, state_is n i mo L (deferred_modification_handlers_ mo) (processing_unwatched_files_is_scheduled_ mo) true s /\
    files_tracked given mo /\ dom (watched_files_ mo) = L' /\ intfy_fd_ mo = fd /\
    (unwatched_files_ mo <> [] -> processing_unwatched_files_is_scheduled_ mo = true).

Lemma tracked_flag mo b : files_tracked given mo -> files_tracked given (set_scheduled b mo).
Proof. intros []. by constructor. Qed.

Lemma tracked_deferred mo D : files_tracked given mo -> files_tracked given (set_deferred D mo).
Proof. intros []. by constructor. Qed.

Lemma schedule_at fd L mo : files_tracked given mo -> intfy_fd_ mo = fd ->
  tr (state_is n i mo L (deferred_modification_handlers_ mo) (processing_unwatched_files_is_scheduled_ mo) true)
    (run_prog (schedule_processing_unwatched_files)) (fun _ => settled fd L (dom (watched_files_ mo))).
Proof.
  intros T Efd. unfold schedule_processing_unwatched_files. apply tr_look.
  destruct (processing_unwatched_files_is_scheduled_ mo) eqn:Efl; cbn [orb].
  { intros s Hs. exists mo. rewrite Efl. done. }
  case_bool_decide as Hu.
  { intros s Hs. exists mo. by rewrite Efl. }
  cbn [exec]. unfold mbind at 1, prog_bind_inst at 1. cbn [prog_bind exec].
  eapply triple_bind; [apply (add_repeating_at mo L _ false true _ _ true)|].
  - apply T.
  - intros tp k m Q. by apply (agrees_scheduled k m _ false true Q).
  - intros u s (Hi & E & EL & Q). exists (set_scheduled true mo). split; [|split; [by apply tracked_flag|done]].
    split; [exact (I_world n i s _ Hi)|]. cbn. by rewrite E.
Qed.

(** *** Events *)

Lemma notify_at fd L mo f p : files_tracked given mo -> intfy_fd_ mo = fd ->
  (unwatched_files_ mo <> [] -> processing_unwatched_files_is_scheduled_ mo = true) -> (exists wd, watched_files_ mo !! wd = Some f) ->
  tr (state_is n i mo L (deferred_modification_handlers_ mo) (processing_unwatched_files_is_scheduled_ mo) true)
    (run_prog (run_modification_handler event_handler_ f p)) (fun _ => settled fd L (dom (watched_files_ mo))).
Proof.
  intros T Efd Hu Hf. eapply tr_conseq; [apply run_modification_handler_at|intros s Hs; exact Hs|].
  - eapply tracked_small; [done|by right].
  - intros u s [D Hs]. exists (set_deferred D mo). split; [exact Hs|]. split; [by apply tracked_deferred|done].
Qed.

Abbreviation process_event' := (FileMonitor.process_event inotify_rm_watch event_handler_ address).

Lemma process_event_at fd L L' e : wd e ∈ L' ->
  tr (settled fd L L') (run_prog (process_event' e))
    (fun _ => settled fd L (if has_bits (mask e) IN_IGNORED then L' ∖ {[wd e]} else L')).
Proof.
  intros He s0 (mo & Hs & T & <- & Efd & Hu). apply elem_of_dom in He as [f Hf]. revert s0 Hs.
  fold (tr (state_is n i mo L (deferred_modification_handlers_ mo) (processing_unwatched_files_is_scheduled_ mo) true) (run_prog (process_event' e))
    (fun _ => settled fd L (if has_bits (mask e) IN_IGNORED then dom (watched_files_ mo) ∖ {[wd e]} else dom (watched_files_ mo)))).
  unfold FileMonitor.process_event. apply tr_look. rewrite Hf. destruct (has_bits (mask e) IN_IGNORED).
  { apply tr_change, tr_change. set (mo1 := set_watched _ mo). set (mo2 := set_unwatched _ mo1).
    pose proof (schedule_at fd L mo2 (tracked_unwatch address address_inj given mo T f (wd e) Hf) Efd) as Ht.
    cbn [mo2 mo1 set_unwatched set_watched watched_files_] in Ht. rewrite dom_delete_L in Ht. exact Ht. }
  destruct (has_bits (mask e) IN_MOVE_SELF).
  { apply tr_look, tr_call. intros w Hw. rewrite (rm_watch (intfy_fd_ mo) (wd e) w), Hw.
    destruct ((inotify_rm_watch (intfy_fd_ mo) (wd e) w).2 =? 0).
    - intros s Hs. by exists mo.
    - intros s [Hi _]. by split; [apply Hi|]. }
  destruct (has_bits (mask e) events_requiring_handler); cbn [negb].
  - destruct (file_name e) as [name|]; apply notify_at; eauto.
  - intros s [Hi _]. by split; [apply Hi|].
Qed.

Lemma store_event_length r : (16 <= length (store_event r))%nat.
Proof. destruct r as [e pad]. unfold store_event. rewrite !length_app. unfold store_u32. cbn [length]. lia. Qed.

(** The loop takes the events from the buffer one by one. *)
Lemma event_loop_at fd L es : Forall event_ok es -> forall fuel pre L', (length es <= fuel)%nat -> reported es L' = Some L ->
  tr (settled fd L L')
    (run_prog (event_loop inotify_rm_watch event_handler_ address fuel (pre ++ concat (store_event <$> es))
      (Z.of_nat (length (pre ++ concat (store_event <$> es)))) (length pre))) (fun _ => settled fd L L).
Proof.
  induction es as [|[e pad] es IH]; intros Hok fuel pre L' Hfuel Hr.
  { cbn in Hr. injection Hr as ->. cbn [fmap list_fmap concat]. rewrite app_nil_r. destruct fuel; cbn [event_loop]; rewrite Z.ltb_irrefl; by intros s Hs. }
  apply Forall_cons in Hok as [He Hok]. destruct fuel as [|fuel]; cbn [length] in Hfuel; [lia|]. cbn [reported] in Hr.
  destruct (decide (wd e ∈ L')) as [Hin|]; [|done]. cbn [event_loop]. change (store_event <$> (e, pad) :: es) with (store_event (e, pad) :: (store_event <$> es)).
  cbn [concat]. pose proof (store_event_length (e, pad)) as Hlen.
  destruct (Z.ltb_spec (Z.of_nat (length pre)) (Z.of_nat (length (pre ++ store_event (e, pad) ++ concat (store_event <$> es)))));
    [|rewrite !length_app in *; lia].
  rewrite load_store_event by done. cbn [fst]. eapply tr_bind; [by apply process_event_at|]. intros u.
  rewrite app_assoc, <- length_app. apply IH; [done|lia|done].
Qed.

Lemma concat_events_length es : (length es <= length (concat (store_event <$> es)))%nat.
Proof.
  induction es as [|r es IH]; [done|]. change (store_event <$> r :: es) with (store_event r :: (store_event <$> es)). cbn [concat length].
  rewrite length_app. pose proof (store_event_length r). lia.
Qed.

(** Outside of handlers. *)
Definition at_rest (fd : Z) (s : ES (MW CW) (MH C)) : Prop := exists L, settled fd L L s.

Lemma read_inotify_at fd : tr (at_rest fd) (run_prog (read_inotify inotify_rm_watch read watching_log_ event_handler_ address)) (fun _ => at_rest fd).
Proof.
  intros s0 (L & mo & Hs & T & EL & Efd & Hu). revert s0 Hs.
  fold (tr (state_is n i mo L (deferred_modification_handlers_ mo) (processing_unwatched_files_is_scheduled_ mo) true)
    (run_prog (read_inotify inotify_rm_watch read watching_log_ event_handler_ address)) (fun _ => at_rest fd)).
  unfold read_inotify. apply tr_look, tr_call. intros w Hw. pose proof (read_events (intfy_fd_ mo) intfy_buff_len w) as Hr.
  destruct (read _ _ w) as [w' [[len errno] bytes]]. cbn [fst snd]. destruct (Z.ltb_spec len (Z.of_nat EVENT_SIZE)) as [Hlt|Hge].
  - intros s (Hi & Em & El & Q). exists (live (read_failed watching_log_ errno (outside (world s)))). exists mo.
    assert (live w' = L) as HL.
    { destruct Hr as [[_ ?]|(es & _ & -> & -> & Hr)]; [congruence|]. destruct es as [|r es]; [cbn in Hr; congruence|]. exfalso.
      change (store_event <$> r :: es) with (store_event r :: (store_event <$> es)) in Hlt. cbn [concat] in Hlt. rewrite length_app in Hlt.
      pose proof (store_event_length r). unfold EVENT_SIZE in Hlt. lia. }
    split; [|split; [done|]; split; [|done]].
    + split; [exact (I_world n i s _ Hi)|]. done.
    + rewrite EL, <- HL, <- El. symmetry. apply log_live.
  - destruct Hr as [[? _]|(es & Hok & -> & -> & Hr)]; [unfold EVENT_SIZE in *; lia|].
    eapply tr_conseq; [apply (event_loop_at fd (live w') es Hok _ [] L)| |].
    + pose proof (concat_events_length es). cbn [app]. lia.
    + by rewrite <- Hw.
    + intros s Hs. by exists mo.
    + intros u s Hs. by exists (live w').
Qed.

(** *** What the queue calls *)

Lemma at_rest_inv fd s : 0 <= fd -> at_rest fd s -> IJ monitor_inv n i s.
Proof.
  intros Hfd (L & mo & (Hi & Em & EL & Q) & T & E & Efd & Hu). split; [done|]. unfold JS, monitor_inv. rewrite Em, EL, Efd. done.
Qed.

Lemma inv_at_rest s : IJ monitor_inv n i s -> exists fd, 0 <= fd /\ at_rest fd s.
Proof.
  intros [Hi (Q & T & E & Hu & Hfd)]. exists (intfy_fd_ (monitor (world s))). split; [done|].
  exists (live (outside (world s))), (monitor (world s)). by split.
Qed.

Lemma tr_at_rest {A} (m : stm (ES (MW CW) (MH C)) A) : (forall fd, tr (at_rest fd) m (fun _ => at_rest fd)) ->
  tr (IJ monitor_inv n i) m (fun _ => IJ monitor_inv n i).
Proof.
  intros Hm s Hs. apply inv_at_rest in Hs as (fd & Hfd & Hs). specialize (Hm fd s Hs). destruct (m s) as [s' [a|e| |]]; try done.
  by eapply at_rest_inv.
Qed.

Lemma user_keeps fd E {A} (p : prog CW C A) : (forall e, E e -> expected e) -> user_ok E p ->
  tr (at_rest fd) (run_prog (user p)) (fun _ => at_rest fd).
Proof.
  intros HE Hp s (L & mo & Hs & Hmo). eapply tr_conseq; [exact (user_at mo L (deferred_modification_handlers_ mo) (processing_unwatched_files_is_scheduled_ mo) true E p HE Hp)|intros s' Hs'; exact Hs'| |exact Hs].
  intros a s' Hs'. exists L, mo. by split.
Qed.

(** The monitor when one of its timed handlers is called: the queue has forgotten
    the handler. *)
Lemma called_state id tp fn s : called monitor_inv n i id tp fn s -> exists mo, 0 <= intfy_fd_ mo /\ files_tracked given mo /\
  (unwatched_files_ mo <> [] -> processing_unwatched_files_is_scheduled_ mo = true) /\ well_kinded (TimedHandler tp fn) /\
  (role_of (TimedHandler tp fn) = Some RRetry -> processing_unwatched_files_is_scheduled_ mo = true) /\
  forall D b, (forall k m, m !! id = Some (TimedHandler tp fn) ->
      queue_agrees k m (deferred_modification_handlers_ mo) (processing_unwatched_files_is_scheduled_ mo) true ->
      queue_agrees k (delete id m) D b true) ->
    state_is n i mo (dom (watched_files_ mo)) D b true s.
Proof.
  intros (Hi & Hid & Q & T & E & Hu & Hfd). exists (monitor (world s)). split; [done|]. split; [done|]. split; [done|]. split.
  { eapply (qa_kinds _ _ _ _ _ Q id). apply lookup_insert_eq. }
  split.
  - intros Hr. apply (qa_retry _ _ _ _ _ Q). exists id. by rewrite lookup_insert_eq.
  - intros D b HQ. split; [done|]. split; [done|]. split; [done|]. specialize (HQ _ _ (lookup_insert_eq _ _ _) Q).
    by rewrite delete_insert_id in HQ.
Qed.

Lemma deferred_handling_at fd mo p : 0 <= fd -> files_tracked given mo -> intfy_fd_ mo = fd ->
  (unwatched_files_ mo <> [] -> processing_unwatched_files_is_scheduled_ mo = true) ->
  tr (state_is n i mo (dom (watched_files_ mo)) (delete p (deferred_modification_handlers_ mo)) (processing_unwatched_files_is_scheduled_ mo) true)
    (run_prog (deferred_handling event_handler_ p)) (fun _ => IJ monitor_inv n i).
Proof.
  intros Hfd T Efd Hu. unfold deferred_handling. eapply tr_bind; [by apply (user_at _ _ _ _ _ (fun _ => False))|].
  intros u s (Hi & E & EL & Q). apply (at_rest_inv fd); [done|].
  exists (dom (watched_files_ mo)), (set_deferred (delete p (deferred_modification_handlers_ mo)) mo).
  split; [|split; [by apply tracked_deferred|done]]. split; [exact (I_world n i s _ Hi)|]. cbn. by rewrite E.
Qed.

Abbreviation retry' := (retry inotify_add_watch watching_log_ event_handler_).

Lemma retry_at fd d : 0 <= fd -> small_time d -> tr (working true fd false true)
  (stop ← run_prog retry'; if stop : bool then mret tt else _ ← add_time_handler_in (on_outside now) d (Repeat d RetryUnwatched); mret tt)
  (fun _ => IJ monitor_inv n i).
Proof.
  intros Hfd Hd. apply (triple_bind _ _ _ _ _ (fun stop s => if (stop : bool) then at_rest fd s else working true fd false true s)).
  - unfold retry. eapply tr_bind; [apply process_unwatched_at|]. intros u s0 (mo & Hs & T & Efl & Efd). revert s0 Hs.
    apply (tr_look mo (dom (watched_files_ mo)) _ false true unwatched_files_ _
      (fun (stop : bool) s => if stop then at_rest fd s else working true fd false true s)).
    case_decide as Hu.
    + intros s (Hi & E & EL & Q). exists (dom (watched_files_ mo)), (set_scheduled false mo).
      split; [|split; [by apply tracked_flag|done]]. split; [exact (I_world n i s _ Hi)|]. cbn. by rewrite E.
    + intros s Hs'. by exists mo.
  - intros [|]; [intros s Hs; by apply (at_rest_inv fd)|]. intros s0 (mo & Hs & T & Efl & Efd).
    revert s0 Hs. fold (tr (state_is n i mo (dom (watched_files_ mo)) (deferred_modification_handlers_ mo) false true)
      (_ ← add_time_handler_in (on_outside now) d (Repeat d RetryUnwatched); mret tt) (fun _ => IJ monitor_inv n i)).
    eapply triple_bind; [apply (add_in_at mo _ _ false true d _ (fun _ => deferred_modification_handlers_ mo) true); [done|by split|]|].
    + intros tp k m Q. by apply (agrees_scheduled k m _ false true Q).
    + intros id s Hs. apply (at_rest_inv fd); [done|]. exists (dom (watched_files_ mo)), mo. rewrite Efl. done.
Qed.
End At.

Abbreviation timed' := (timed_body event_handler_ user_timed).
Abbreviation repeating' := (repeating_body inotify_add_watch watching_log_ event_handler_ user_repeating).
Abbreviation file' := (file_body inotify_rm_watch read watching_log_ event_handler_ user_file address).

Lemma monitor_timed n i id tp fn : fn_ok (TimedHandler tp fn) ->
  tr (called monitor_inv n i id tp fn) (call_timed (on_outside now) (in_outside write_pause_fd) timed' repeating' fn) (fun _ => IJ monitor_inv n i).
Proof.
  intros Hfn s Hs. apply called_state in Hs as (mo & Hfd & T & Hu & Hk & Hret & HQ). destruct fn as [[| |p|c]|d [| |p|c]]; try done; cbn [call_timed].
  - apply (deferred_handling_at n i (intfy_fd_ mo) mo p); [done|done|done|done|]. apply HQ. intros k m Hm Q.
    eapply agrees_undefer; [done|]. apply (qa_deferred _ _ _ _ _ Q). by rewrite Hm.
  - apply (tr_conseq (at_rest n i (intfy_fd_ mo)) (at_rest n i (intfy_fd_ mo)) _ (fun _ => at_rest n i (intfy_fd_ mo)) (fun _ => IJ monitor_inv n i)).
    + by apply (user_keeps n i (intfy_fd_ mo) expected).
    + done.
    + intros _ s'. by apply at_rest_inv.
    + exists (dom (watched_files_ mo)), mo. split; [|done]. apply HQ. intros k m Hm Q. by eapply agrees_forget_user.
  - apply (retry_at n i (intfy_fd_ mo) d Hfd (proj2 Hfn)). exists mo.
    assert (state_is n i mo (dom (watched_files_ mo)) (deferred_modification_handlers_ mo) false true s) as Hs.
    { apply HQ. intros k m Hm Q. eapply agrees_unscheduled; [done|]. by rewrite Hm. }
    split; [exact Hs|]. split; [done|]. split; [by apply Hret|done].
  - apply (triple_bind _ _ (at_rest n i (intfy_fd_ mo)) _ _ (fun _ => at_rest n i (intfy_fd_ mo))).
    + by apply (user_keeps n i (intfy_fd_ mo) expected).
    + intros [|]; [intros s' Hs'; by apply (at_rest_inv n i (intfy_fd_ mo))|]. intros s' (L & mo' & Hs' & Hmo').
      eapply (triple_bind _ _ (state_is n i mo' L (deferred_modification_handlers_ mo') (processing_unwatched_files_is_scheduled_ mo') true) _ _ (fun _ => IJ monitor_inv n i));
        [|by intros id' s1 H1|exact Hs'].
      eapply tr_conseq; [apply (add_in_at n i mo' L (deferred_modification_handlers_ mo') (processing_unwatched_files_is_scheduled_ mo') true d _ (fun _ => deferred_modification_handlers_ mo')
        (processing_unwatched_files_is_scheduled_ mo')); [apply Hfn|intros tp' Htp; by split; [|apply Hfn]|]|intros s1 H1; exact H1|].
      * intros tp' k m Q. by apply agrees_user.
      * intros id' s1 H1. apply (at_rest_inv n i (intfy_fd_ mo)); [done|]. exists L, mo'. by split.
    + exists (dom (watched_files_ mo)), mo. split; [|done]. apply HQ. intros k m Hm Q. by eapply agrees_forget_user.
Qed.

Lemma monitor_file n i id e fn ev :
  tr (fun s => IJ monitor_inv n i s /\ fns (queue s) !! id = Some (FileHandler fn e 0))
    (call_file (on_outside now) (in_outside write_pause_fd) file' fn ev) (fun _ => IJ monitor_inv n i).
Proof.
  intros s [Hs Hid]. assert (well_kinded (FileHandler fn e 0)) as Hk by (eapply qa_kinds; [apply Hs|exact Hid]).
  destruct fn as [[| |p|c]|]; try done; cbn [call_file].
  - by apply (tr_at_rest n i _ (read_inotify_at n i)).
  - apply (tr_at_rest n i (run_prog (user (user_file c ev)))); [|done]. intros fd. by apply (user_keeps n i fd expected).
  - exact (IJ_pause monitor_inv n i s true Hs).
Qed.

Abbreviation run_queue' := (run_queue inotify_add_watch inotify_rm_watch read watching_log_ event_handler_ user_timed
  user_repeating user_file address now ppoll sleep_for external_pause write_pause_fd read_pause_fd).

Lemma run_queue_at fuel : tr (IJ monitor_inv 0 0) (run_queue' fuel) (fun _ s => IJ monitor_inv 0 0 s /\ ended s).
Proof.
  apply run_triple.
  - intros w. apply clock.
  - done.
  - exact monitor_timed.
  - exact monitor_file.
  - intros k m w (Q & T & E & Hu & Hfd). destruct (outside_live (outside w)) as (O1 & O2 & O3 & O4 & O5 & O6).
    assert (forall w', live w' = live (outside w) -> monitor_inv k m (mkMW (monitor w) w')) as Jw.
    { intros w' Hw'. unfold monitor_inv. cbn. rewrite Hw'. done. }
    split; [by apply Jw|]. split; [intros l t; apply Jw, O2|]. split; [intros d; apply Jw, O3|]. by split; apply Jw.
Qed.

(** *** Before and at the first [watch] *)

Definition ready (g : gmap str Z) (s : ES (MW CW) (MH C)) : Prop :=
  exists mo L, state_is 0 0 mo L (deferred_modification_handlers_ mo) (processing_unwatched_files_is_scheduled_ mo) false s /\
    files_tracked g mo /\ watched_files_ mo = ∅ /\ intfy_fd_ mo < 0.

Lemma construct_ready pause_fd w : 0 <= pause_fd -> ready ∅ (construct_monitor pause_fd w).1.
Proof.
  intros Hfd. pose proof (construct_inv (H := MH C) (fun _ _ _ => True) (fun _ => True) pause_fd (mkMW new_monitor w) Hfd) as Hi.
  exists new_monitor, (live w). unfold construct_monitor, construct in *. destruct (Z.ltb_spec pause_fd 0); [lia|].
  change ((_ ← add_file_handler pause_fd READABLE OnPause; mret tt : stm (ES (MW CW) (MH C)) unit) (start (mkMW new_monitor w))) with
    (mkES (mkMW new_monitor w) (with_file pause_fd READABLE OnPause (@empty_queue (MH C))) [Added 0 None], @Ok unit tt) in *.
  split; [|split; [|done]].
  - split; [by apply I_0|]. split; [done|]. split; [done|]. cbn [fst queue new_monitor deferred_modification_handlers_].
    unfold fns, with_file. cbn. rewrite fmap_insert, fmap_empty. apply (agrees_user 0 ∅ ∅ false false); [|done|done].
    constructor; cbn; try done.
    + by intros id [h Hh].
    + split; [done|]. by intros [id Hid].
  - constructor; cbn; try done.
    + intros f. rewrite lookup_empty. split; [done|]. intros [?%elem_of_nil|[wd Hwd]]; done.
    + constructor.
Qed.

Lemma add_path_at g p t : g !! p = None -> small_time t ->
  tr (ready g) (run_prog (add_path address p t)) (fun _ => ready (<[p := t]> g)).
Proof.
  intros Hp Ht s0 (mo & L & Hs & T & Ew & Efd). revert s0 Hs. unfold add_path.
  apply (tr_look 0 0 mo L _ _ false added_files_). rewrite (ft_given _ _ T), Hp.
  destruct (Z.ltb_spec t 0); [unfold small_time in Ht; lia|]. rewrite bool_decide_false by (by intros [? ?]). cbn [orb].
  apply tr_change. intros s (Hi & E & EL & Q). eexists _, L.
  split; [split; [exact (I_world 0 0 s _ Hi)|split; [cbn; rewrite E; reflexivity|by split]]|]. split; [|done].
  pose proof (tracked_add address address_inj g mo T p t) as Ha. rewrite (ft_given _ _ T) in Ha. by apply Ha.
Qed.

Fixpoint add_paths (l : list (str * Z)) : prog (MW CW) (MH C) unit :=
  match l with [] => Ret tt | (p, t) :: l' => _ ← add_path address p t; add_paths l' end.

Lemma add_paths_at l : forall g, NoDup l.*1 -> (forall p, p ∈ l.*1 -> g !! p = None) -> Forall (fun x => small_time x.2) l ->
  tr (ready g) (run_prog (add_paths l)) (fun _ => ready (list_to_map l ∪ g)).
Proof.
  induction l as [|[p t] l IH]; intros g Hnd Hg Hl; cbn [add_paths].
  - intros s Hs. cbn. by rewrite (left_id_L ∅ (∪)).
  - cbn in Hnd. apply NoDup_cons in Hnd as [Hp Hnd]. apply Forall_cons in Hl as [Ht Hl].
    eapply tr_bind; [apply add_path_at; [apply Hg; left|done]|]. intros u.
    eapply tr_conseq; [apply (IH (<[p := t]> g)); [done| |done]|intros s Hs; exact Hs|].
    + intros q Hq. rewrite lookup_insert_ne; [apply Hg; by right|]. by intros ->.
    + intros u' s Hs. cbn. rewrite <- insert_union_l.
      rewrite <- insert_union_r in Hs; [done|]. apply not_elem_of_list_to_map. done.
Qed.

Abbreviation init' := (init_watching inotify_init1 inotify_add_watch watching_log_ event_handler_).

Lemma init_watching_at : tr (ready given) (run_prog init') (fun _ => IJ monitor_inv 0 0).
Proof.
  intros s0 (mo & L & Hs & T & Ew & Efd). revert s0 Hs. unfold init_watching. apply tr_call. intros w Hw. apply tr_change.
  pose proof (new_instance w) as Hn. destruct (inotify_init1 w) as [w' fd]. cbn [fst snd] in *. destruct (Z.ltb_spec fd 0) as [|Hfd].
  { intros s [Hi _]. by split; [apply Hi|]. }
  rewrite (Hn Hfd). set (mo1 := set_intfy_fd fd mo). unfold mbind at 1, prog_bind_inst at 1. cbn [prog_bind exec].
  assert (files_tracked given mo1) as T1 by (by destruct T; constructor).
  eapply (triple_bind _ _ _ _ _ (fun _ => state_is 0 0 mo1 ∅ (deferred_modification_handlers_ mo1) (processing_unwatched_files_is_scheduled_ mo1) true)).
  { apply (add_file_at 0 0 mo1 ∅ _ _ false); [done|]. intros k m Q. by eapply agrees_reading. }
  intros id. apply (tr_bind _ (fun _ => working 0 0 (processing_unwatched_files_is_scheduled_ mo) fd (processing_unwatched_files_is_scheduled_ mo) true)).
  { eapply tr_conseq; [apply process_unwatched_at| |intros u s Hs; exact Hs]. intros s Hs. exists mo1. split; [|done].
    cbn. rewrite Ew, dom_empty_L. exact Hs. }
  intros u s (mo2 & Hs & T2 & Efl & Efd2).
  eapply tr_conseq; [apply (schedule_at 0 0 fd (dom (watched_files_ mo2)) mo2 T2 Efd2)|intros s' Hs'; exact Hs'| |by rewrite Efl].
  intros u' s' Hs'. apply (at_rest_inv 0 0 fd); [done|]. exists (dom (watched_files_ mo2)). exact Hs'.
Qed.

Abbreviation watch' := (watch inotify_init1 inotify_add_watch inotify_rm_watch read watching_log_ event_handler_ user_timed
  user_repeating user_file address now ppoll sleep_for external_pause write_pause_fd read_pause_fd).

Lemma watch_at fuel : tr (fun s => ready given s \/ IJ monitor_inv 0 0 s) (watch' fuel) (fun _ s => IJ monitor_inv 0 0 s /\ ended s).
Proof.
  intros s Hs. unfold watch, do. change (run_prog (look intfy_fd_)) with (gets (fun s : ES (MW CW) (MH C) => intfy_fd_ (monitor (world s)))).
  rewrite (stm_bind_run _ _ s s (intfy_fd_ (monitor (world s)))) by reflexivity.
  eapply (triple_bind _ _ (fun s' => s' = s) _ _ (fun _ => IJ monitor_inv 0 0)); [|intros u; apply run_queue_at|done].
  intros s' ->. destruct Hs as [Hs|Hs].
  - pose proof Hs as (mo & L & (_ & Em & _) & _ & _ & Efd). rewrite Em. destruct (Z.ltb_spec (intfy_fd_ mo) 0); [|lia]. by apply init_watching_at.
  - pose proof Hs as [_ (_ & _ & _ & _ & Hfd)]. destruct (Z.ltb_spec (intfy_fd_ (monitor (world s))) 0); [lia|]. exact Hs.
Qed.

(** [watch] called again after each pause. *)
Fixpoint watch_again (fuels : list nat) : stm (ES (MW CW) (MH C)) unit :=
  match fuels with [] => mret tt | fuel :: fuels' => _ ← watch' fuel; watch_again fuels' end.

Lemma watch_again_at fuels : tr (IJ monitor_inv 0 0) (watch_again fuels) (fun _ => IJ monitor_inv 0 0).
Proof.
  induction fuels as [|fuel fuels IH]; cbn [watch_again]; [apply triple_ret|].
  eapply triple_bind; [eapply tr_conseq; [apply watch_at|by right|intros u s Hs; exact Hs]|]. intros u s [Hs _]. by apply IH.
Qed.

(** What the invariant says of the containers. *)
Lemma monitor_inv_reads s : NoDup paths.*1 -> JS monitor_inv s -> keeps_track_of paths s.
Proof.
  intros Hnd (Q & T & E & Hu & Hfd). split; [|split; [|split]].
  - intros p t. rewrite <- (ft_files _ _ T (mkFileInfo p t)), (ft_given _ _ T). cbn. by rewrite elem_of_list_to_map.
  - intros f wd Hw. split; [intros Hf; by apply (ft_disjoint _ _ T f wd)|]. intros wd' Hw'. by eapply ft_one_wd.
  - intros Hne. apply Hu, (qa_retry _ _ _ _ _ Q) in Hne as [id Hid]. pose proof Hid as (h & Hh & (tp & d & ->)%role_retry)%handlers_role.
    exists id, tp, d. split; [done|]. intros id' tp' d' Hh'. eapply (qa_one_retry _ _ _ _ _ Q); [|exact Hid]. apply handlers_role. by eexists.
  - intros p id. rewrite (qa_deferred _ _ _ _ _ Q p id), handlers_role. setoid_rewrite role_deferred. naive_solver.
Qed.


(** ** What a modification does *)

(** The file an event is about. *)
Definition event_path (f : FileInfo) (e : simlib_inotify_event) : str :=
  match file_name e with Some name => path f ++ missing_slash (path f) ++ name | None => path f end.

Definition is_modification (e : simlib_inotify_event) : bool :=
  has_bits (mask e) events_requiring_handler && negb (has_bits (mask e) IN_IGNORED) && negb (has_bits (mask e) IN_MOVE_SELF).

Definition forget (old : option nat) (m : gmap nat (handler (MH C))) : gmap nat (handler (MH C)) :=
  match old with Some id => delete id m | None => m end.

Lemma run_prog_bind_ok {A B} (p : prog (MW CW) (MH C) A) (k : A -> prog (MW CW) (MH C) B) s s1 a :
  run_prog p s = (s1, Ok a) -> run_prog (p ≫= k) s = run_prog (k a) s1.
Proof. intros E. unfold mbind, prog_bind_inst. rewrite exec_bind. by rewrite (stm_bind_run _ _ s s1 a). Qed.

Lemma process_modification f e (s : ES (MW CW) (MH C)) : watched_files_ (monitor (world s)) !! wd e = Some f -> is_modification e = true ->
  run_prog (FileMonitor.process_event inotify_rm_watch event_handler_ address e) s =
  run_prog (run_modification_handler event_handler_ f (event_path f e)) s.
Proof.
  intros Hf Hm. unfold is_modification in Hm. apply andb_true_iff in Hm as [[Hm Hi%negb_true_iff]%andb_true_iff Hv%negb_true_iff].
  unfold FileMonitor.process_event. rewrite (run_prog_bind_ok _ _ s s (watched_files_ (monitor (world s)))) by reflexivity.
  rewrite Hf, Hi, Hv, Hm. cbn [negb]. unfold event_path. by destruct (file_name e).
Qed.

(** The removal of the timer that was pending for the path. *)
Lemma drop_deferred p (s : ES (MW CW) (MH C)) : JS monitor_inv s ->
  let old := deferred_modification_handlers_ (monitor (world s)) !! p in
  exists q tr', run_prog (match old with
      | None => Ret tt
      | Some id => _ ← change (set_deferred (delete p (deferred_modification_handlers_ (monitor (world s))))); Remove id (Ret tt)
      end) s
    = (mkES (mkMW (set_deferred (delete p (deferred_modification_handlers_ (monitor (world s)))) (monitor (world s))) (outside (world s))) q tr', Ok tt)
    /\ handlers_ q = forget old (handlers_ (queue s)) /\ next_handler_id_ q = next_handler_id_ (queue s).
Proof.
  intros (Q & _). cbn zeta. destruct (deferred_modification_handlers_ (monitor (world s)) !! p) as [id|] eqn:Hp.
  - pose proof Hp as (h & Hh & (tp & ->)%role_deferred)%(qa_deferred _ _ _ _ _ Q)%handlers_role.
    rewrite (run_prog_bind_ok _ _ s (mkES (mkMW (set_deferred (delete p (deferred_modification_handlers_ (monitor (world s)))) (monitor (world s)))
      (outside (world s))) (queue s) (trace s)) tt) by reflexivity.
    cbn [exec]. unfold remove_handler, mbind, stm_bind, gets. cbn [queue]. rewrite Hh. cbn. eexists _, _. split; [reflexivity|]. done.
  - exists (queue s), (trace s). rewrite delete_id by done. rewrite set_deferred_id. destruct s as [[mo w] q tr']. done.
Qed.

(** The notification of a modification: when the file has no stillness
    threshold, the event handler is called at once with the path of the file, or
    of the directory's entry; otherwise the timer that may be pending for this
    path is taken out of the event queue, a new one is put in that is due the
    threshold after now, and the monitor remembers it for the path: nothing else
    changes, so that the handler is called when the file was still for that long. *)
Theorem modification_deferred f e (s : ES (MW CW) (MH C)) : JS monitor_inv s -> watched_files_ (monitor (world s)) !! wd e = Some f ->
  is_modification e = true ->
  let mo := monitor (world s) in
  let p := event_path f e in
  let process := run_prog (FileMonitor.process_event inotify_rm_watch event_handler_ address e) s in
  if stillness_threshold f =? 0 then process = run_prog (user (event_handler_ p)) s
  else exists s', process = (s', Ok tt) /\
    let id := next_handler_id_ (queue s) in
    let due := (now (outside (world s))).2 + stillness_threshold f in
    handlers_ (queue s') = <[id := TimedHandler due (Once (Deferred p))]>
      (forget (deferred_modification_handlers_ mo !! p) (handlers_ (queue s))) /\
    monitor (world s') = set_deferred (<[p := id]> (deferred_modification_handlers_ mo)) mo.
Proof.
  intros HJ Hf Hm. cbn zeta. rewrite (process_modification f e s Hf Hm). unfold run_modification_handler.
  pose proof HJ as (Q & T & _ & _ & _).
  assert (small_time (stillness_threshold f)) as Ht by (eapply tracked_small; [done|right; by exists (wd e)]).
  destruct (stillness_threshold f =? 0); [done|]. set (p := event_path f e). set (mo := monitor (world s)) in *.
  rewrite (run_prog_bind_ok _ _ s s (deferred_modification_handlers_ mo)) by reflexivity.
  destruct (drop_deferred p s HJ) as (q & tr' & E & Hh & Hn). rewrite (run_prog_bind_ok _ _ _ _ _ E).
  set (D := delete p (deferred_modification_handlers_ mo)). set (w := outside (world s)) in *.
  rewrite (run_prog_bind_ok _ _ _ (mkES (mkMW (set_deferred (<[p := 0%nat]> D) mo) w) q tr') tt) by reflexivity.
  pose proof (clock w) as Hc. set (t := (now w).2) in *. set (d := stillness_threshold f) in *.
  set (s3 := mkES (mkMW (set_deferred (<[p := 0%nat]> D) mo) (now w).1) (with_timed (t + d) (Once (Deferred p)) q)
    (tr' ++ [Added (next_handler_id_ q) (Some (t + d))])).
  rewrite (run_prog_bind_ok _ _ _ s3 (next_handler_id_ q)).
  2:{ cbn [exec]. assert (add_time_handler_in (on_outside now) d (Once (Deferred p)) (mkES (mkMW (set_deferred (<[p := 0%nat]> D) mo) w) q tr') =
        (s3, Ok (next_handler_id_ q))) as Ea; [|by rewrite (stm_bind_run _ _ _ _ _ Ea)].
      unfold add_time_handler_in. destruct (Z.ltb_spec d 0); [unfold small_time in Ht; lia|].
      rewrite (stm_bind_run _ _ _ (mkES (mkMW (set_deferred (<[p := 0%nat]> D) mo) (now w).1) q tr') t) by reflexivity.
      assert (i64 (t + d) = Ok (t + d)) as Ei by (apply i64_ok; unfold small_time in *; lia).
      rewrite Ei. reflexivity. }
  eexists. split; [reflexivity|]. split.
  - cbn. by rewrite Hh, Hn.
  - cbn. rewrite insert_insert_eq, Hn. unfold D. by rewrite insert_delete_eq.
Qed.
End Monitor.

(** ** A small kernel

    Paths can be watched from a time on; the batches of events are read one after
    another; waiting advances the clock. *)

Record sample_world := mkSample {
  s_clock : Z; s_live : gset Z; s_next : Z; s_present : list (str * Z);
  s_batches : list (list (simlib_inotify_event * nat)); s_calls : list str
}.

Definition s_init (w : sample_world) : sample_world * Z :=
  (mkSample (s_clock w) ∅ (s_next w) (s_present w) (s_batches w) (s_calls w), 3).
Definition s_add (fd : Z) (p : str) (events : Z) (w : sample_world) : sample_world * (Z * Z) :=
  if existsb (fun x => bool_decide (x.1 = p) && (x.2 <=? s_clock w)) (s_present w) && bool_decide (s_next w ∉ s_live w) && (0 <? s_next w) then
    (mkSample (s_clock w) ({[s_next w]} ∪ s_live w) (s_next w + 1) (s_present w) (s_batches w) (s_calls w), (s_next w, 0))
  else (w, (-1, 2)).
Definition s_rm (fd wd : Z) (w : sample_world) : sample_world * Z := (w, 0).

#[local] Instance event_ok_dec r : Decision (event_ok r).
Proof. destruct r as [[wd mask cookie [n|]] pad]; cbn; apply _. Defined.

Definition s_read (fd len : Z) (w : sample_world) : sample_world * (Z * Z * str) :=
  match s_batches w with
  | es :: rest =>
      match reported es (s_live w) with
      | Some L => if decide (Forall event_ok es) then
            let bytes := concat (store_event <$> es) in
            (mkSample (s_clock w) L (s_next w) (s_present w) rest (s_calls w), (Z.of_nat (length bytes), 0, bytes))
          else (w, (-1, 5, []))
      | None => (w, (-1, 5, []))
      end
  | [] => (w, (-1, 11, []))
  end.
Definition s_now (w : sample_world) : sample_world * Z :=
  (mkSample (s_clock w + 1) (s_live w) (s_next w) (s_present w) (s_batches w) (s_calls w), s_clock w mod 2 ^ 62).
Definition s_sleep (d : Z) (w : sample_world) : sample_world :=
  mkSample (s_clock w + d) (s_live w) (s_next w) (s_present w) (s_batches w) (s_calls w).
Definition s_ppoll (l : list pollfd) (timeout : option Z) (w : sample_world) : sample_world * (Z * bool * list Z) :=
  match s_batches w with
  | [] => (match timeout with Some d => s_sleep d w | None => w end, (0, false, []))
  | _ => (w, (1, false, (fun p => if fd p =? 3 then POLLIN else 0) <$> l))
  end.
(** The event handler writes down the path; a modification of "b" pauses. *)
Definition s_handler (p : str) : prog sample_world Empty_set unit :=
  Effect (fun w => mkSample (s_clock w) (s_live w) (s_next w) (s_present w) (s_batches w) (s_calls w ++ [p]))
    (if decide (p = lit "b") then Pause (Ret tt) else Ret tt).

#[local] Instance sample_inotify : Inotify s_init s_add s_rm s_read s_live.
Proof.
  constructor.
  - done.
  - intros fd p events w. unfold s_add. destruct (existsb _ (s_present w)); cbn [andb]; [|by left].
    case_bool_decide; cbn [andb]; [|by left]. destruct (Z.ltb_spec 0 (s_next w)); [|by left]. right. cbn. split; [lia|done].
  - done.
  - intros fd len w. unfold s_read. destruct (s_batches w) as [|es rest]; [left; by split; [lia|]|].
    destruct (reported es (s_live w)) as [L|] eqn:E; [|left; by split; [lia|]]. case_decide; [|left; by split; [lia|]]. right. by exists es.
Qed.

Definition s_address (p : str) : Z := Zpos (encode p).
Definition s_paths : list (str * Z) := [(lit "a", 10); (lit "b", 0)].
Definition s_batch : list (simlib_inotify_event * nat) :=
  [(mkEvent 1 IN_MODIFY 0 None, 0%nat); (mkEvent 1 IN_CREATE 0 (Some (lit "x")), 3%nat); (mkEvent 1 IN_MODIFY 0 None, 0%nat)].
Definition s_start : sample_world := mkSample 1000 ∅ 1 [(lit "a", 0); (lit "b", 90000000)] [s_batch] [].

Definition s_watch := watch s_init s_add s_rm s_read SilentWatchingLog s_handler (fun c : Empty_set => match c with end)
  (fun c => match c with end) (fun c _ => match c with end) s_address s_now s_ppoll s_sleep
  (fun w => (w, false)) (fun w => w) (fun w => w).
Definition s_setup (paths : list (str * Z)) : stm (ES (MW sample_world) (MH Empty_set)) unit :=
  do s_now (fun w => w) (add_paths s_address paths).

Lemma s_handler_ok p : user_ok s_live (fun _ => False) (s_handler p).
Proof. unfold s_handler. cbn. split; [done|]. by case_decide. Qed.

Lemma s_clock_ok w : small_time (s_now w).2.
Proof. unfold small_time. cbn. pose proof (Z.mod_pos_bound (s_clock w) (2 ^ 62) eq_refl). lia. Qed.

Lemma s_outside w : s_live (s_now w).1 = s_live w /\ (forall l t, s_live (s_ppoll l t w).1 = s_live w) /\
  (forall d, s_live (s_sleep d w) = s_live w) /\ s_live w = s_live w /\ s_live w = s_live w /\ s_live w = s_live w.
Proof. split; [done|]. split; [|done]. intros l t. unfold s_ppoll. by destruct (s_batches w), t. Qed.

Lemma s_address_inj p q : s_address p = s_address q -> p = q.
Proof. unfold s_address. intros [= E]. by apply encode_inj in E. Qed.

Lemma s_paths_ok : NoDup s_paths.*1 /\ Forall (fun x => small_time x.2) s_paths.
Proof. split; [apply (bool_decide_unpack _); vm_compute; exact Logic.I|]. repeat constructor; cbn; lia. Qed.

(** The whole session: "b" appears after a while and is watched then. *)
Definition s_run : ES (MW sample_world) (MH Empty_set) * outcome unit :=
  (_ ← s_setup s_paths; _ ← s_watch 60; mret tt) (construct_monitor 5 s_start).1.


(** Two modifications of "a" close to each other are one notification; the entry
    "a/x" is a path of its own; "b" is reported when it appears. *)
Example sample_monitor_run :
  match s_run with
  | (s, Ok _) => bool_decide (s_calls (outside (world s)) = [lit "a/x"; lit "a"; lit "b"]) &&
      bool_decide (unwatched_files_ (monitor (world s)) = []) && negb (processing_unwatched_files_is_scheduled_ (monitor (world s)))
  | _ => false
  end = true.
Proof. vm_compute. reflexivity. Qed.

(** The monitor when it begins to watch. *)
Definition s_begin : ES (MW sample_world) (MH Empty_set) * outcome unit :=
  (_ ← s_setup s_paths; do s_now (fun w => w) (init_watching s_init s_add SilentWatchingLog s_handler)) (construct_monitor 5 s_start).1.

Lemma s_begin_inv : JS (monitor_inv s_paths s_live) s_begin.1.
Proof.
  pose proof (construct_ready (C := Empty_set) s_live 5 s_start ltac:(done)) as Hs.
  assert (triple (monitor_inv s_paths s_live) expected (ready s_live ∅)
    (_ ← s_setup s_paths; do s_now (fun w => w) (init_watching s_init s_add SilentWatchingLog s_handler))
    (fun _ => IJ (monitor_inv s_paths s_live) 0 0)) as Ht.
  { eapply triple_bind; [apply (add_paths_at s_paths s_live s_address s_now (fun w => w) s_address_inj s_paths ∅); [apply s_paths_ok|done|apply s_paths_ok]|].
    intros u. rewrite (right_id_L ∅ (∪)).
    eapply (init_watching_at s_paths s_init s_add s_rm s_read s_live SilentWatchingLog s_handler s_now s_ppoll s_sleep
      (fun w => (w, false)) (fun w => w) (fun w => w)); [apply s_clock_ok|apply s_outside|done|apply s_handler_ok]. }
  specialize (Ht _ Hs). assert (match s_begin.2 with Ok _ => true | _ => false end = true) as E by (vm_compute; reflexivity).
  unfold s_begin in *. destruct ((_ ← s_setup s_paths; _) _) as [s [u|e| |]]; try done. apply Ht.
Qed.

Definition s_a : FileInfo := mkFileInfo (lit "a") 10.
Definition s_event : simlib_inotify_event := mkEvent 1 IN_MODIFY 0 None.

Lemma s_begin_watches : watched_files_ (monitor (world s_begin.1)) !! wd s_event = Some s_a.
Proof. vm_compute. reflexivity. Qed.

Lemma modification_deferred_witness :
  let s := s_begin.1 in
  let p := event_path s_a s_event in
  exists s', exec (on_outside s_now) (in_outside (fun w => w)) (FileMonitor.process_event s_rm s_handler s_address s_event) s = (s', Ok tt) /\
    let id := next_handler_id_ (queue s) in
    let due := (s_now (outside (world s))).2 + stillness_threshold s_a in
    handlers_ (queue s') = <[id := TimedHandler due (Once (Deferred p))]>
      (forget (deferred_modification_handlers_ (monitor (world s)) !! p) (handlers_ (queue s))) /\
    monitor (world s') = set_deferred (<[p := id]> (deferred_modification_handlers_ (monitor (world s)))) (monitor (world s)).
Proof.
  exact (modification_deferred s_paths s_rm s_live s_handler s_address s_now (fun w => w) s_clock_ok
    s_a s_event s_begin.1 s_begin_inv s_begin_watches eq_refl).
Defined.

(** ** What the monitor does not handle *)

(** A path that is added after the first [watch] returned is not tried by the
    next one: [init_watching] is not called again, and nothing schedules the
    retry.  "c" can be watched all the time. *)
Lemma late_path_is_not_watched :
  match (_ ← s_setup [(lit "b", 0)]; _ ← s_watch 60; _ ← s_setup [(lit "c", 0)]; s_watch 60)
      (construct_monitor 5 (mkSample 1000 ∅ 1 [(lit "b", 60000000); (lit "c", 0)] [] [])).1 with
  | (s, NoFuel) => bool_decide (unwatched_files_ (monitor (world s)) = [mkFileInfo (lit "c") 0]) &&
      negb (processing_unwatched_files_is_scheduled_ (monitor (world s)))
  | _ => false
  end = true.
Proof. vm_compute. reflexivity. Qed.

(** Two paths that lead to one file: inotify gives both the descriptor 1, and the
    second one is neither watched nor waiting. *)
Lemma second_path_of_a_file_is_lost :
  let one_file fd p events w := (w : sample_world, (1, 0)) : sample_world * (Z * Z) in
  match (_ ← s_setup s_paths; do s_now (fun w => w) (init_watching s_init one_file SilentWatchingLog s_handler)) (construct_monitor 5 s_start).1 with
  | (s, Ok _) => bool_decide (unwatched_files_ (monitor (world s)) = []) &&
      bool_decide (map_to_list (watched_files_ (monitor (world s))) = [(1, mkFileInfo (lit "b") 0)])
  | _ => false
  end = true.
Proof. vm_compute. reflexivity. Qed.

(** Unmounting the file system of a watched file makes [watch] throw, though an
    [IN_IGNORED] would follow. *)
Lemma unmount_throws f (s : ES (MW sample_world) (MH Empty_set)) : watched_files_ (monitor (world s)) !! 1 = Some f ->
  exec (on_outside s_now) (in_outside (fun w => w)) (FileMonitor.process_event s_rm s_handler s_address (mkEvent 1 IN_UNMOUNT 0 None)) s =
  (s, Throw (RuntimeError (lit "read unknown event for " ++ path f ++ lit ": mask = " ++ to_string IN_UNMOUNT))).
Proof.
  intros Hf. unfold FileMonitor.process_event.
  rewrite (run_prog_bind_ok s_now (fun w => w) _ _ s s (watched_files_ (monitor (world s)))) by reflexivity. cbn [wd]. by rewrite Hf.
Qed.

(** When the queue of inotify overflows, the event has the descriptor -1, which
    the monitor does not have: the program is aborted. *)
Lemma overflow_aborts (s : ES (MW sample_world) (MH Empty_set)) : watched_files_ (monitor (world s)) !! (-1) = None ->
  exec (on_outside s_now) (in_outside (fun w => w)) (FileMonitor.process_event s_rm s_handler s_address (mkEvent (-1) IN_Q_OVERFLOW 0 None)) s = (s, UB).
Proof.
  intros Hf. unfold FileMonitor.process_event.
  rewrite (run_prog_bind_ok s_now (fun w => w) _ _ s s (watched_files_ (monitor (world s)))) by reflexivity. cbn [wd]. by rewrite Hf.
Qed.

(** An event handler that throws while a file is tried again: the retry is gone
    from the event queue, but the flag says that it is there, so that no file is
    ever tried again. *)
Lemma throwing_handler_stops_retries :
  let throwing p := Fail (RuntimeError (lit "user")) : prog sample_world Empty_set unit in
  match (_ ← s_setup [(lit "b", 0); (lit "d", 0)];
      watch s_init s_add s_rm s_read SilentWatchingLog throwing (fun c : Empty_set => match c with end)
        (fun c => match c with end) (fun c _ => match c with end) s_address s_now s_ppoll s_sleep
        (fun w => (w, false)) (fun w => w) (fun w => w) 60)
      (construct_monitor 5 (mkSample 1000 ∅ 1 [(lit "b", 60000000)] [] [])).1 with
  | (s, Throw _) => processing_unwatched_files_is_scheduled_ (monitor (world s)) &&
      bool_decide (timed_handlers_ (queue s) = []) && bool_decide (mkFileInfo (lit "d") 0 ∈ unwatched_files_ (monitor (world s)))
  | _ => false
  end = true.
Proof. vm_compute. reflexivity. Qed.
