(* ===== verification/Handles.v ===== *)
(** * Owners of descriptors

    The classes [FileDescriptor] ([file_descriptor.hh]) and [Directory]
    ([directory.hh]): objects that own a descriptor, or a [DIR*], and close it.
    A handle is an integer, [null] the one that stands for none (-1 and the null
    pointer); the objects live in a store, next to the set of the handles the
    kernel has open.  A handle that a caller has at hand outside any object is in
    [loose]: one from a call such as [pipe2], or one an object has released. *)

From Stdlib Require Import ZArith Lia.
From S2P Require Import Prelude.
Local Open Scope Z_scope.

Record store := mkStore {
  objects : gmap nat Z;
  opened : gset Z;
  loose : gset Z;
  bad_closes : nat (* closing what is not open *)
}.

Section Handle.
Variable null : Z.
(** [fd_ >= 0] and [dir_ != nullptr]. *)
Variable valid : Z -> bool.

Definition put (o : nat) (h : Z) (s : store) : store :=
  mkStore (<[o := h]> (objects s)) (opened s) (loose s) (bad_closes s).

(** [close(2)], [closedir(3)] *)
Definition kernel_close (h : Z) (s : store) : store :=
  if decide (h ∈ opened s) then mkStore (objects s) (opened s ∖ {[h]}) (loose s) (bad_closes s)
  else mkStore (objects s) (opened s) (loose s) (S (bad_closes s)).

(** The caller gets a handle, or hands one over. *)
Definition let_loose (h : Z) (s : store) : store :=
  if valid h then mkStore (objects s) (opened s) (loose s ∪ {[h]}) (bad_closes s) else s.
Definition take_up (h : Z) (s : store) : store :=
  mkStore (objects s) (opened s) (loose s ∖ {[h]}) (bad_closes s).

(** A call that opens something answers [null] or a handle that was not open. *)
Definition kernel_open (h : Z) (s : store) : store :=
  if valid h then mkStore (objects s) (opened s ∪ {[h]}) (loose s ∪ {[h]}) (bad_closes s) else s.

(** ** The member functions *)

Definition release (o : nat) (s : store) : option (store * Z) :=
  h ← objects s !! o; Some (let_loose h (put o null s), h).

Definition reset (o : nat) (h : Z) (s : store) : option store :=
  old ← objects s !! o;
  let s := if valid old then kernel_close old s else s in
  Some (take_up h (put o h s)).

Definition new (o : nat) (h : Z) (s : store) : option store :=
  match objects s !! o with None => Some (take_up h (put o h s)) | Some _ => None end.

(** [answer] is what [open] or [opendir] returns. *)
Definition new_open (o : nat) (answer : Z) (s : store) : option store := new o answer (kernel_open answer s).

Definition new_moved (o from : nat) (s : store) : option store :=
  '(s, h) ← release from s; new o h s.

Definition move_assign (o from : nat) (s : store) : option store :=
  '(s, h) ← release from s; reset o h s.

Definition assign (o : nat) (h : Z) (s : store) : option store := reset o h s.

(** [open] of [FileDescriptor] does not close what the object has. *)
Definition open (o : nat) (answer : Z) (s : store) : option store :=
  _ ← objects s !! o; Some (take_up answer (put o answer (kernel_open answer s))).

Definition reopen (o : nat) (answer : Z) (s : store) : option store := reset o answer (kernel_open answer s).

Definition close (o : nat) (s : store) : option store :=
  h ← objects s !! o;
  if valid h then Some (put o null (kernel_close h s)) else Some s.

Definition destroy (o : nat) (s : store) : option store :=
  h ← objects s !! o;
  let s := if valid h then kernel_close h s else s in
  Some (mkStore (delete o (objects s)) (opened s) (loose s) (bad_closes s)).

(** ** Programs *)

Inductive op :=
| New (o : nat) (h : Z)
| NewOpen (o : nat) (answer : Z)
| NewMoved (o from : nat)
| MoveAssign (o from : nat)
| Assign (o : nat) (h : Z)
| Release (o : nat)
| Reset (o : nat) (h : Z)
| Open (o : nat) (answer : Z)
| Reopen (o : nat) (answer : Z)
| Close (o : nat)
| Destroy (o : nat)
| Obtain (h : Z). (* from the kernel, outside any object *)

Definition exec (c : op) (s : store) : option store :=
  match c with
  | New o h => new o h s
  | NewOpen o answer => new_open o answer s
  | NewMoved o from => new_moved o from s
  | MoveAssign o from => move_assign o from s
  | Assign o h => assign o h s
  | Release o => fst <$> release o s
  | Reset o h => reset o h s
  | Open o answer => open o answer s
  | Reopen o answer => reopen o answer s
  | Close o => close o s
  | Destroy o => destroy o s
  | Obtain h => Some (kernel_open h s)
  end.

(** What a caller has to see to: a handle passed in is none or a loose one, and
    [open] is called on an object without a handle; and what the kernel sees to:
    it answers with handles that are not open. *)
Definition handed_over (h : Z) (s : store) : Prop := valid h = false \/ h ∈ loose s.
Definition answered (h : Z) (s : store) : Prop := valid h = false \/ h ∉ opened s.

Definition permitted (c : op) (s : store) : Prop :=
  match c with
  | New _ h | Assign _ h | Reset _ h => handed_over h s
  | NewOpen _ h | Reopen _ h | Obtain h => answered h s
  | Open o h => answered h s /\ forall old, objects s !! o = Some old -> valid old = false
  | _ => True
  end.

Fixpoint execs (p : list op) (s : store) : option store :=
  match p with
  | [] => Some s
  | c :: p' => s ← exec c s; execs p' s
  end.

(** Every operation of the program is permitted where it is. *)
Fixpoint well_used (p : list op) (s : store) : Prop :=
  match p with
  | [] => True
  | c :: p' => permitted c s /\ forall s', exec c s = Some s' -> well_used p' s'
  end.

Definition empty_store : store := mkStore ∅ ∅ ∅ 0.

(** ** The invariant *)

Record owned (s : store) : Prop := {
  owned_open : forall o h, objects s !! o = Some h -> valid h = true -> h ∈ opened s /\ h ∉ loose s;
  owned_once : forall o o' h, objects s !! o = Some h -> objects s !! o' = Some h -> valid h = true -> o = o';
  owned_all : forall h, h ∈ opened s -> h ∈ loose s \/ exists o, objects s !! o = Some h;
  loose_open : forall h, h ∈ loose s -> h ∈ opened s;
  open_valid : forall h, h ∈ opened s -> valid h = true;
  no_bad_close : bad_closes s = 0%nat
}.

Lemma owned_empty : owned empty_store.
Proof. constructor; cbn; set_solver. Qed.

Hypothesis null_invalid : valid null = false.

(** An object without a handle: one that is not there, or has an invalid one. *)
Definition vacant (o : nat) (s : store) : Prop := forall h, objects s !! o = Some h -> valid h = false.

(** The handle of an object is not that of another one. *)
Lemma other_object s o old p h : owned s -> objects s !! o = Some old -> p <> o -> objects s !! p = Some h -> valid h = true -> h <> old.
Proof. intros Hs Ho Hne Hp Hv ->. by apply Hne, (owned_once s Hs p o old). Qed.

Lemma insert_null_lookup (o : nat) (m : gmap nat Z) (p : nat) h : <[o := null]> m !! p = Some h -> valid h = true -> p <> o /\ m !! p = Some h.
Proof.
  intros Hp Hv. destruct (decide (p = o)) as [->|Hne]; [rewrite lookup_insert_eq in Hp; congruence|].
  by rewrite lookup_insert_ne in Hp by done.
Qed.

(** Taking the handle of an object away: to the caller or to the kernel. *)
Lemma owned_vacated s s' o old : owned s -> objects s !! o = Some old -> objects s' = <[o := null]> (objects s) ->
  (forall h, h ∈ opened s' -> h ∈ opened s) -> (forall h, h ∈ loose s' -> h ∈ opened s') ->
  (forall h, h <> old -> valid h = true -> (h ∈ opened s' <-> h ∈ opened s) /\ (h ∈ loose s' <-> h ∈ loose s)) ->
  (old ∈ opened s' -> old ∈ loose s') -> bad_closes s' = 0%nat -> owned s'.
Proof.
  intros Hs Ho Eo Hop Hlo Hother Hold Hb. constructor; rewrite ?Eo.
  - intros p h Hp Hv. apply insert_null_lookup in Hp as [Hne Hp]; [|done]. destruct (owned_open s Hs p h Hp Hv) as [H1 H2].
    destruct (Hother h (other_object _ _ _ _ _ Hs Ho Hne Hp Hv) Hv) as [E1 E2]. rewrite E1, E2. done.
  - intros p p' h Hp Hp' Hv. apply insert_null_lookup in Hp as [Hne Hp]; [|done]. apply insert_null_lookup in Hp' as [Hne' Hp']; [|done].
    by eapply owned_once.
  - intros h Hh. destruct (decide (h = old)) as [->|Hne]; [by left; apply Hold|]. pose proof (Hop h Hh) as Hh'.
    destruct (Hother h Hne (open_valid s Hs h Hh')) as [_ E2]. destruct (owned_all s Hs h Hh') as [Hl|[p Hp]]; [left; by apply E2|].
    right. exists p. rewrite lookup_insert_ne; [done|congruence].
  - done.
  - intros h Hh. by apply (open_valid s Hs), Hop.
  - done.
Qed.

Lemma owned_closed s o old : owned s -> objects s !! o = Some old -> owned (put o null (if valid old then kernel_close old s else s)).
Proof.
  intros Hs Ho. destruct (valid old) eqn:Hv.
  - destruct (owned_open s Hs o old Ho Hv) as [Hop Hl]. unfold kernel_close. rewrite decide_True by done.
    eapply owned_vacated; [exact Hs|exact Ho|done|cbn; set_solver| |cbn; set_solver|cbn; set_solver|apply Hs].
    cbn. intros h Hh. pose proof (loose_open s Hs h Hh). set_solver.
  - eapply owned_vacated; [exact Hs|exact Ho|done|done|cbn; apply Hs|done| |apply Hs].
    cbn. intros Hin. apply (open_valid s Hs) in Hin. congruence.
Qed.

Lemma owned_release o s s' h : owned s -> release o s = Some (s', h) -> owned s' /\ handed_over h s' /\ vacant o s' /\
  (forall p, objects s !! p = None -> objects s' !! p = None).
Proof.
  intros Hs. unfold release. destruct (objects s !! o) as [old|] eqn:Ho; [|done]. cbn [mbind option_bind]. intros [= <- <-].
  assert (vacant o (let_loose old (put o null s)) /\ (forall p, objects s !! p = None -> objects (let_loose old (put o null s)) !! p = None)) as Hv.
  { unfold vacant, let_loose. destruct (valid old); cbn; (split; [intros h; rewrite lookup_insert_eq; congruence|]);
      intros p Hp; (rewrite lookup_insert_ne; [done|congruence]). }
  unfold let_loose in *. destruct (valid old) eqn:Hval.
  - destruct (owned_open s Hs o old Ho Hval) as [Hop Hl]. split; [|split; [right; cbn; set_solver|done]].
    eapply owned_vacated; [exact Hs|exact Ho|done|done| |cbn; set_solver|cbn; set_solver|apply Hs].
    cbn. intros h Hh. apply elem_of_union in Hh as [Hh|Hh]; [by apply (loose_open s Hs)|set_solver].
  - split; [|split; [by left|done]]. pose proof (owned_closed s o old Hs Ho) as H. by rewrite Hval in H.
Qed.

(** Giving an object without a handle one that was loose. *)
Lemma owned_filled s o h : owned s -> vacant o s -> handed_over h s -> owned (take_up h (put o h s)).
Proof.
  intros Hs Hvac Hh.
  assert (forall p x, <[o := h]> (objects s) !! p = Some x -> valid x = true -> (p = o /\ x = h) \/ (p <> o /\ objects s !! p = Some x)) as Hcase.
  { intros p x Hp Hv. destruct (decide (p = o)) as [->|Hne]; [rewrite lookup_insert_eq in Hp; left; split; congruence|].
    rewrite lookup_insert_ne in Hp by done. by right. }
  assert (valid h = true -> h ∈ loose s) as Hl by (intros Hv; destruct Hh as [?|?]; [congruence|done]).
  constructor; cbn.
  - intros p x Hp Hv. apply Hcase in Hp as [[-> ->]|[Hne Hp]]; [|pose proof (owned_open s Hs p x Hp Hv); set_solver|done].
    pose proof (loose_open s Hs h (Hl Hv)). set_solver.
  - intros p p' x Hp Hp' Hv. apply Hcase in Hp; [|done]. apply Hcase in Hp'; [|done].
    destruct Hp as [[-> ->]|[Hne Hp]], Hp' as [[-> E]|[Hne' Hp']]; [done| | |by eapply owned_once].
    + destruct (owned_open s Hs p' h Hp' Hv) as [_ []]. auto.
    + subst x. destruct (owned_open s Hs p h Hp Hv) as [_ []]. auto.
  - intros x Hx. destruct (decide (x = h)) as [->|Hne]; [right; exists o; apply lookup_insert_eq|].
    destruct (owned_all s Hs x Hx) as [?|[p Hp]]; [left; set_solver|]. right. exists p. rewrite lookup_insert_ne; [done|].
    intros <-. pose proof (Hvac x Hp). pose proof (open_valid s Hs x Hx). congruence.
  - intros x Hx. apply (loose_open s Hs). set_solver.
  - apply Hs.
  - apply Hs.
Qed.

Lemma owned_reset o h s s' : owned s -> handed_over h s ->
  reset o h s = Some s' -> owned s'.
Proof.
  intros Hs Hh. unfold reset. destruct (objects s !! o) as [old|] eqn:Ho; [|done]. cbn [mbind option_bind]. intros [= <-].
  pose proof (owned_closed s o old Hs Ho) as H1. set (s1 := if valid old then kernel_close old s else s) in *.
  assert (take_up h (put o h s1) = take_up h (put o h (put o null s1))) as ->.
  { unfold take_up, put. cbn. by rewrite insert_insert_eq. }
  apply owned_filled; [done|intros x; cbn; rewrite lookup_insert_eq; congruence|].
  destruct Hh as [?|Hin]; [by left|right]. cbn. unfold s1, kernel_close. destruct (valid old); [|done]. by destruct (decide _).
Qed.

Lemma owned_new o h s s' : owned s -> handed_over h s -> new o h s = Some s' -> owned s'.
Proof.
  intros Hs Hh. unfold new. destruct (objects s !! o) eqn:Ho; [done|]. intros [= <-]. apply owned_filled; [done| |done].
  intros x Hx. congruence.
Qed.

Lemma owned_opened h s : owned s -> answered h s -> owned (kernel_open h s) /\ handed_over h (kernel_open h s).
Proof.
  intros Hs Ha. unfold kernel_open, handed_over. destruct (valid h) eqn:Hv; [|auto]. destruct Ha as [?|Ha]; [congruence|].
  split; [|right; cbn; set_solver]. constructor; cbn.
  - intros p x Hp Hx. destruct (owned_open s Hs p x Hp Hx). set_solver.
  - apply Hs.
  - intros x Hx. apply elem_of_union in Hx as [Hx|Hx]; [destruct (owned_all s Hs x Hx); [left; set_solver|by right]|left; set_solver].
  - intros x Hx. apply elem_of_union in Hx as [Hx|Hx]; [pose proof (loose_open s Hs x Hx)|]; set_solver.
  - intros x Hx. apply elem_of_union in Hx as [Hx|Hx]; [by apply (open_valid s Hs)|]. apply elem_of_singleton in Hx. congruence.
  - apply Hs.
Qed.

Lemma owned_deleted o s : owned s -> vacant o s -> owned (mkStore (delete o (objects s)) (opened s) (loose s) (bad_closes s)).
Proof.
  intros Hs Hv. constructor; cbn; try apply Hs.
  - intros p h Hp. apply lookup_delete_Some in Hp as [_ Hp]. by apply (owned_open s Hs p).
  - intros p p' h Hp Hp'. apply lookup_delete_Some in Hp as [_ Hp]. apply lookup_delete_Some in Hp' as [_ Hp']. by apply (owned_once s Hs).
  - intros h Hh. destruct (owned_all s Hs h Hh) as [?|[p Hp]]; [by left|]. right. exists p. rewrite lookup_delete_ne; [done|].
    intros <-. pose proof (Hv h Hp). pose proof (open_valid s Hs h Hh). congruence.
Qed.

Lemma owned_exec c s s' : owned s -> permitted c s -> exec c s = Some s' -> owned s'.
Proof.
  intros Hs Hp. destruct c; cbn [exec permitted] in *.
  - by apply owned_new.
  - destruct (owned_opened answer s Hs Hp). by apply owned_new.
  - unfold new_moved. destruct (release from s) as [[s1 h]|] eqn:E; [|done]. destruct (owned_release _ _ _ _ Hs E) as (H1 & H2 & _).
    by apply owned_new.
  - unfold move_assign. destruct (release from s) as [[s1 h]|] eqn:E; [|done]. destruct (owned_release _ _ _ _ Hs E) as (H1 & H2 & _).
    by apply owned_reset.
  - by apply owned_reset.
  - destruct (release o s) as [[s1 h]|] eqn:E; [|done]. intros [= <-]. by destruct (owned_release _ _ _ _ Hs E).
  - by apply owned_reset.
  - destruct Hp as [Ha Hv]. destruct (owned_opened answer s Hs Ha) as [H1 H2]. unfold open.
    destruct (objects s !! o) as [old|] eqn:Ho; [|done]. intros [= <-]. apply owned_filled; [done| |done].
    intros x Hx. apply Hv. rewrite <- Hx. unfold kernel_open. by destruct (valid answer).
  - destruct (owned_opened answer s Hs Hp). by apply owned_reset.
  - unfold close. destruct (objects s !! o) as [h|] eqn:Ho; [|done]. cbn [mbind option_bind]. pose proof (owned_closed s o h Hs Ho) as H.
    destruct (valid h); by intros [= <-].
  - unfold destroy. destruct (objects s !! o) as [h|] eqn:Ho; [|done]. cbn [mbind option_bind]. intros [= <-].
    pose proof (owned_closed s o h Hs Ho) as H. set (s1 := if valid h then kernel_close h s else s) in *.
    assert (delete o (objects s1) = delete o (objects (put o null s1))) as -> by (cbn; by rewrite delete_insert_eq).
    apply (owned_deleted o (put o null s1) H). intros x. cbn. rewrite lookup_insert_eq. congruence.
  - intros [= <-]. by apply owned_opened.
Qed.

Lemma owned_execs : forall p s s', owned s -> well_used p s -> execs p s = Some s' -> owned s'.
Proof.
  induction p as [|c p IH]; intros s s' Hs Hp; cbn [execs well_used] in *; [by intros [= <-]|].
  destruct (exec c s) as [s1|] eqn:E; [|done]. cbn [mbind option_bind]. destruct Hp as [Hc Hp]. apply IH; [by eapply owned_exec|auto].
Qed.

End Handle.

(** ** The two classes *)

Definition fd_valid (fd : Z) : bool := 0 <=? fd.
Definition dir_valid (dir : Z) : bool := negb (dir =? 0).

(** [Directory] has the same member functions, but for [open]. *)
Definition directory_exec (c : op) (s : store) : option store :=
  match c with Open _ _ => None | _ => exec 0 dir_valid c s end.

(** C31: Objects of [FileDescriptor] and [Directory], used in any order: when every
    handle passed to them is none or one the caller has at hand, and [open] is
    called on objects that have none, then each handle has at most one owner,
    nothing is closed that is not open, and everything that is open belongs to an
    object or to the caller; so when all objects are gone nothing is left open
    but what the caller has. *)
Theorem handles_owned null valid p s : (null, valid) = (-1, fd_valid) \/ (null, valid) = (0, dir_valid) ->
  well_used null valid p empty_store -> execs null valid p empty_store = Some s ->
  owned valid s /\ (objects s = ∅ -> opened s = loose s).
Proof.
  intros Hc Hp He. assert (valid null = false) as Hnull by (by destruct Hc as [[= -> ->]|[= -> ->]]).
  pose proof (owned_execs null valid Hnull p empty_store s (owned_empty valid) Hp He) as Hs. split; [done|]. intros E.
  apply set_eq. intros h. split; [|apply (loose_open valid s Hs)]. intros Hh. destruct (owned_all valid s Hs h Hh) as [?|[o Ho]]; [done|].
  rewrite E in Ho. by rewrite lookup_empty in Ho.
Qed.

(** Opening, moving into a new object, taking over the end of a pipe, moving an
    object onto itself, and the end. *)
Definition sample_program : list op :=
  [NewOpen 0 3; NewMoved 1 0; Obtain 4; Assign 0 4; MoveAssign 0 0; Reopen 1 5; Release 0; Destroy 0; Destroy 1].

Definition after_sample : store := default empty_store (execs (-1) fd_valid sample_program empty_store).

Lemma sample_ends : execs (-1) fd_valid sample_program empty_store = Some after_sample.
Proof. vm_compute. reflexivity. Qed.

Lemma sample_well_used : well_used (-1) fd_valid sample_program empty_store.
Proof.
  unfold sample_program. repeat (cbn [well_used]; split; [try exact Logic.I; first [right; apply (bool_decide_eq_true_1 _); vm_compute; reflexivity]|];
    intros ? E; vm_compute in E; injection E as <-).
  exact Logic.I.
Qed.

Lemma handles_owned_witness : opened after_sample = loose after_sample.
Proof.
  apply (handles_owned (-1) fd_valid sample_program after_sample).
  - left. reflexivity.
  - exact sample_well_used.
  - exact sample_ends.
  - vm_compute. reflexivity.
Defined.

(** [open] on an object that has a descriptor leaves it open without an owner. *)
Lemma open_leaks : exists s, execs (-1) fd_valid [NewOpen 0 3; Open 0 4; Destroy 0] empty_store = Some s /\
  objects s = ∅ /\ loose s = ∅ /\ opened s = {[3]}.
Proof. eexists. split; [vm_compute; reflexivity|]. by vm_compute. Qed.
