(* ===== verification/Mysql.v ===== *)
(** * The MySQL binding: connections and what refers to them

    The classes [Connection], [Result], [Statement] and [Transaction] of
    [mysql/mysql.hh] as objects in a store: what they own of the client library,
    the counter of the objects that refer to a connection, reconnecting.  The
    parameters and results of a statement are in [MysqlStatement.v].

    The client library answers requests and is a parameter; the requests and
    their answers make a trace.  The texts of exceptions come from the library. *)

From Stdlib Require Import ZArith Lia.
From S2P Require Import Prelude.
Local Open Scope Z_scope.

Definition CR_SERVER_GONE_ERROR : Z := 2006.
Definition CR_SERVER_LOST : Z := 2013.
Definition FD_CLOEXEC : Z := 1.

(** What [mysql_real_connect] is given and [MYSQL] keeps. *)
Record login := mkLogin { host : str; user : str; passwd : str; db : str }.

(** A row with its lengths: a column is [NULL] or a string. *)
Abbreviation row := (list (option str)).

(** Requests to the library; handles ([MYSQL*], [MYSQL_RES*], [MYSQL_STMT*]) are
    numbers and [None] is the null pointer; [bool] answers are "no failure".
    [CallAction] calls the rollback action with this number, which may throw. *)
Inductive mysys : Type -> Type :=
| Init : mysys (option Z)
| CloseConn (conn : Z) : mysys unit
| Options (conn : Z) : mysys unit
| RealConnect (conn : Z) (l : login) : mysys bool
| LoginOf (conn : Z) : mysys (option login)
| GetFd (conn : Z) : mysys (option Z)
| SetFd (conn flags : Z) : mysys bool
| Errno (conn : Z) : mysys Z
| ErrorText (conn : Z) : mysys str
| Ping (conn : Z) : mysys bool
| InsertId (conn : Z) : mysys Z
| RealQuery (conn : Z) (sql : str) : mysys bool
| StoreResult (conn : Z) : mysys (option Z)
| FreeResult (res : Z) : mysys unit
| FetchRow (res : Z) : mysys (option row)
| NumFields (res : Z) : mysys Z
| NumRows (res : Z) : mysys Z
| StmtInit (conn : Z) : mysys (option Z)
| StmtPrepare (stmt : Z) (sql : str) : mysys bool
| StmtClose (stmt : Z) : mysys unit
| StmtErrorText (stmt : Z) : mysys str
| RollbackConn (conn : Z) : mysys bool
| CommitConn (conn : Z) : mysys bool
| CallAction (action : nat) : mysys (option exn).

(** A request with its answer. *)
Inductive event :=
| Did {A : Type} (c : mysys A) (a : A).

(** ** The objects

    A pointer to a connection, or to its counter, is the number of the
    connection object. *)

Record Connection := mkConnection { conn_ : option Z; referencing_objects_no_ : Z }.
Record Result := mkResult { r_connection : option nat; res_ : option Z; row_ : option row }.
Record Statement := mkStatement { s_connection : option nat; stmt_ : option Z }.
Record Transaction := mkTransaction { t_conn : option nat; rollback_action_ : option nat }.

Inductive object :=
| OConnection (x : Connection)
| OResult (x : Result)
| OStatement (x : Statement)
| OTransaction (x : Transaction).

(** [stmt_var] is the variable [stmt] of [Connection::prepare]. *)
Record client (W : Type) := mkClient {
  objects : gmap nat object;
  stmt_var : Z;
  library : W;
  trace : list event
}.
Arguments mkClient {W}.
Arguments objects {W}.
Arguments stmt_var {W}.
Arguments library {W}.
Arguments trace {W}.

Section Mysql.
Context {W : Type}.
Variable mysql : forall A, mysys A -> W -> W * A.
Arguments mysql {A}.

Abbreviation M := (stm (client W)).

Definition request {A} (c : mysys A) : M A := fun s =>
  let (w, a) := mysql c (library s) in (mkClient (objects s) (stmt_var s) w (trace s ++ [Did c a]), Ok a).

Definition put (o : nat) (x : object) : M unit :=
  modify (fun s => mkClient (<[o := x]> (objects s)) (stmt_var s) (library s) (trace s)).
Definition remove (o : nat) : M unit :=
  modify (fun s => mkClient (delete o (objects s)) (stmt_var s) (library s) (trace s)).
Definition set_stmt (stmt : Z) : M unit :=
  modify (fun s => mkClient (objects s) stmt (library s) (trace s)).

(** An object of the class the code expects; anything else is undefined. *)
Definition get_object (o : nat) : M object := s ← gets objects; lift (get_or_ub (s !! o)).
Definition get_connection (o : nat) : M Connection :=
  x ← get_object o; match x with OConnection x => mret x | _ => lift UB end.
Definition get_result (o : nat) : M Result :=
  x ← get_object o; match x with OResult x => mret x | _ => lift UB end.
Definition get_statement (o : nat) : M Statement :=
  x ← get_object o; match x with OStatement x => mret x | _ => lift UB end.
Definition get_transaction (o : nat) : M Transaction :=
  x ← get_object o; match x with OTransaction x => mret x | _ => lift UB end.

(** The place of a new object. *)
Definition new_place (o : nat) : M unit :=
  s ← gets objects; match s !! o with None => mret tt | Some _ => lift UB end.

(** The library is not made for null pointers. *)
Definition handle (h : option Z) : M Z := lift (get_or_ub h).
Definition conn_handle (o : nat) : M Z := c ← get_connection o; handle (conn_ c).

(** [++] and [--] of the counter, a [size_t]; there are fewer than 2^64 objects. *)
Definition increment (n : Z) : Z := n + 1.
Definition decrement (n : Z) : Z := if n =? 0 then 2 ^ 64 - 1 else n - 1.

Definition change_counter (f : Z -> Z) (o : nat) : M unit :=
  c ← get_connection o; put o (OConnection (mkConnection (conn_ c) (f (referencing_objects_no_ c)))).

Definition unless_null {A} (p : option A) (f : A -> M unit) : M unit :=
  match p with Some x => f x | None => mret tt end.

(** What is left of a computation that ends in an exception: [guard] runs. *)
Definition on_throw {A} (m : M A) (guard : M unit) : M A := fun s =>
  match m s with
  | (s1, Throw e) => let '(s2, r) := guard s1 in (s2, match r with Ok _ => Throw e | Throw e' => Throw e' | UB => UB | NoFuel => NoFuel end)
  | out => out
  end.

(** ** Connection *)

Definition init_connection : M Z :=
  h ← request Init;
  match h with
  | Some h => mret h
  | None => throw_error (lit "mysql_init() failed - not enough memory is available")
  end.

Definition new_connection (o : nat) : M unit :=
  _ ← new_place o; h ← init_connection; put o (OConnection (mkConnection (Some h) 0)).

Definition connect_handle (h : Z) (l : login) : M unit :=
  _ ← request (Options h);
  ok ← request (RealConnect h l);
  if negb ok then m ← request (ErrorText h); throw_error m
  else
    flags ← request (GetFd h);
    match flags with
    | None => throw_error (lit "fcntl()")
    | Some flags =>
        ok ← request (SetFd h (Z.lor flags FD_CLOEXEC));
        if negb ok then throw_error (lit "fcntl()") else mret tt
    end.

Definition connect (o : nat) (l : login) : M unit := h ← conn_handle o; connect_handle h l.

Definition close (o : nat) : M unit :=
  c ← get_connection o;
  unless_null (conn_ c) (fun h =>
    _ ← request (CloseConn h); put o (OConnection (mkConnection None (referencing_objects_no_ c)))).

Definition move_connection (o from : nat) : M unit :=
  _ ← new_place o;
  c ← get_connection from;
  _ ← put from (OConnection (mkConnection None (referencing_objects_no_ c)));
  put o (OConnection c).

Definition assign_connection (o from : nat) : M unit :=
  _ ← close o;
  c ← get_connection from;
  _ ← put from (OConnection (mkConnection None (referencing_objects_no_ c)));
  put o (OConnection c).

Definition destroy_connection (o : nat) : M unit :=
  c ← get_connection o; _ ← unless_null (conn_ c) (fun h => request (CloseConn h)); remove o.

(** The variable [c] of [reconnect] ends up in [*this]; when [connect] throws it
    is destroyed. *)
Definition reconnect (o : nat) : M unit :=
  h ← conn_handle o;
  l ← request (LoginOf h);
  l ← lift (get_or_ub l);
  h ← init_connection;
  _ ← on_throw (connect_handle h l) (request (CloseConn h));
  _ ← close o;
  put o (OConnection (mkConnection (Some h) 0)).

(** [func] gives [None] for a result that is not [ret_val_success]. *)
Definition call_and_try_reconnecting_on_error_impl {T} (o : nat) (resetter : M unit) (error_msg : M str)
    (func : M (option T)) : M T :=
  rc ← func;
  match rc with
  | Some x => mret x
  | None =>
      h ← conn_handle o;
      e ← request (Errno h);
      if negb ((e =? CR_SERVER_GONE_ERROR) || (e =? CR_SERVER_LOST)) then m ← error_msg; throw_error m
      else
        c ← get_connection o;
        if negb (referencing_objects_no_ c =? 0) then m ← error_msg; throw_error m
        else
          _ ← reconnect o;
          _ ← resetter;
          rc ← func;
          match rc with
          | Some x => mret x
          | None => m ← error_msg; throw_error m
          end
  end.

Definition call_and_try_reconnecting_on_error {T} (o : nat) (func : M (option T)) : M T :=
  call_and_try_reconnecting_on_error_impl o (mret tt) (h ← conn_handle o; request (ErrorText h)) func.

(** [mysql_real_query] and [mysql_stmt_prepare] return 0 for success. *)
Definition real_query (o : nat) (sql : str) : M (option unit) :=
  h ← conn_handle o; ok ← request (RealQuery h sql); mret (if (ok : bool) then Some tt else None).

Definition update (o : nat) (sql : str) : M unit := call_and_try_reconnecting_on_error o (real_query o sql).

(** The new [Result] is the object [r]. *)
Definition query (o r : nat) (sql : str) : M unit :=
  _ ← new_place r;
  _ ← call_and_try_reconnecting_on_error o (real_query o sql);
  res ← call_and_try_reconnecting_on_error o (h ← conn_handle o; request (StoreResult h));
  _ ← put r (OResult (mkResult (Some o) (Some res) None));
  change_counter increment o.

Definition stmt_init (o : nat) : M Z :=
  call_and_try_reconnecting_on_error o (h ← conn_handle o; request (StmtInit h)).

Definition close_stmt_var : M unit := stmt ← gets stmt_var; request (StmtClose stmt).

(** The new [Statement] is the object [p]; its parameters are in
    [MysqlStatement.v]. *)
Definition prepare (o p : nat) (sql : str) : M unit :=
  _ ← new_place p;
  stmt ← stmt_init o;
  _ ← set_stmt stmt;
  _ ← on_throw
    (call_and_try_reconnecting_on_error_impl o
       (_ ← close_stmt_var; stmt ← stmt_init o; set_stmt stmt)
       (stmt ← gets stmt_var; request (StmtErrorText stmt))
       (stmt ← gets stmt_var; ok ← request (StmtPrepare stmt sql); mret (if (ok : bool) then Some tt else None)))
    close_stmt_var;
  stmt ← gets stmt_var;
  _ ← put p (OStatement (mkStatement (Some o) (Some stmt)));
  change_counter increment o.

Definition disconnected (o : nat) : M bool :=
  h ← conn_handle o;
  ok ← request (Ping h);
  if (ok : bool) then mret false else e ← request (Errno h); mret (e =? CR_SERVER_GONE_ERROR).

Definition insert_id (o : nat) : M Z := h ← conn_handle o; request (InsertId h).

(** ** Result *)

Definition release_result (x : Result) : M unit :=
  _ ← unless_null (res_ x) (fun res => request (FreeResult res));
  unless_null (r_connection x) (change_counter decrement).

Definition no_result (x : Result) : Result := mkResult None None (row_ x).

Definition move_result (o from : nat) : M unit :=
  _ ← new_place o; x ← get_result from; _ ← put from (OResult (no_result x)); put o (OResult x).

(** Assigned to itself the object keeps what it has just released. *)
Definition assign_result (o from : nat) : M unit :=
  this ← get_result o;
  _ ← release_result this;
  x ← get_result from;
  _ ← put from (OResult (no_result x));
  put o (OResult x).

Definition destroy_result (o : nat) : M unit := x ← get_result o; _ ← release_result x; remove o.

Definition next (o : nat) : M bool :=
  x ← get_result o;
  res ← handle (res_ x);
  r ← request (FetchRow res);
  _ ← put o (OResult (mkResult (r_connection x) (res_ x) r));
  mret (match r with Some _ => true | None => false end).

Definition column (o : nat) (idx : nat) : M (option str) :=
  x ← get_result o;
  r ← lift (get_or_ub (row_ x));
  lift (get_or_ub (r !! idx)).

Definition is_null (o idx : nat) : M bool :=
  v ← column o idx; mret (match v with None => true | Some _ => false end).

Definition get_column (o idx : nat) : M str :=
  v ← column o idx;
  match v with
  | None => throw_error (lit "Encountered NULL at a column that did not expect nullable data")
  | Some v => mret v
  end.

Definition to_opt (o idx : nat) : M (option str) := column o idx.

Definition fields_num (o : nat) : M Z := x ← get_result o; res ← handle (res_ x); request (NumFields res).
Definition rows_num (o : nat) : M Z := x ← get_result o; res ← handle (res_ x); request (NumRows res).

(** ** Statement *)

Definition release_statement (x : Statement) : M unit :=
  _ ← unless_null (stmt_ x) (fun stmt => request (StmtClose stmt));
  unless_null (s_connection x) (change_counter decrement).

Definition new_statement (o : nat) : M unit := _ ← new_place o; put o (OStatement (mkStatement None None)).

Definition move_statement (o from : nat) : M unit :=
  _ ← new_place o; x ← get_statement from; _ ← put from (OStatement (mkStatement None None)); put o (OStatement x).

Definition assign_statement (o from : nat) : M unit :=
  this ← get_statement o;
  _ ← release_statement this;
  x ← get_statement from;
  _ ← put from (OStatement (mkStatement None None));
  put o (OStatement x).

Definition destroy_statement (o : nat) : M unit := x ← get_statement o; _ ← release_statement x; remove o.

(** ** Transaction *)

Definition START_TRANSACTION : str := lit "START TRANSACTION".

Definition start_transaction (o t : nat) : M unit :=
  _ ← new_place t;
  _ ← update o START_TRANSACTION;
  _ ← change_counter increment o;
  put t (OTransaction (mkTransaction (Some o) None)).

Definition start_serializable_transaction (o t : nat) : M unit :=
  _ ← update o (lit "SET TRANSACTION ISOLATION LEVEL SERIALIZABLE"); start_transaction o t.

Definition start_read_committed_transaction (o t : nat) : M unit :=
  _ ← update o (lit "SET TRANSACTION ISOLATION LEVEL READ COMMITTED"); start_transaction o t.

Definition new_transaction (t : nat) : M unit := _ ← new_place t; put t (OTransaction (mkTransaction None None)).

Definition set_rollback_action (t : nat) (action : option nat) : M unit :=
  x ← get_transaction t; put t (OTransaction (mkTransaction (t_conn x) action)).

Definition call_action (action : nat) : M unit := fun s =>
  match request (CallAction action) s with
  | (s', Ok (Some e)) => (s', Throw e)
  | (s', Ok None) => (s', Ok tt)
  | (s', Throw e) => (s', Throw e)
  | (s', UB) => (s', UB)
  | (s', NoFuel) => (s', NoFuel)
  end.

Definition rollback (t : nat) : M unit :=
  x ← get_transaction t;
  unless_null (t_conn x) (fun c =>
    h ← conn_handle c;
    ok ← request (RollbackConn h);
    if negb ok then m ← request (ErrorText h); throw_error m
    else
      _ ← change_counter decrement c;
      _ ← put t (OTransaction (mkTransaction None (rollback_action_ x)));
      unless_null (rollback_action_ x) call_action).

Definition commit (t : nat) : M unit :=
  x ← get_transaction t;
  c ← lift (get_or_ub (t_conn x));
  h ← conn_handle c;
  ok ← request (CommitConn h);
  if negb ok then m ← request (ErrorText h); throw_error m
  else
    _ ← change_counter decrement c;
    put t (OTransaction (mkTransaction None (rollback_action_ x))).

(** The rollback action stays behind. *)
Definition move_transaction (t from : nat) : M unit :=
  _ ← new_place t;
  x ← get_transaction from;
  _ ← put from (OTransaction (mkTransaction None (rollback_action_ x)));
  put t (OTransaction (mkTransaction (t_conn x) None)).

(** [noexcept]: when [rollback] throws the program is terminated, which is no
    outcome of the call; it counts as [UB]. *)
Definition noexcept {A} (m : M A) : M A := fun s =>
  match m s with (s', Throw _) => (s', UB) | out => out end.

Definition assign_transaction (t from : nat) : M unit :=
  _ ← noexcept (rollback t);
  x ← get_transaction from;
  _ ← put from (OTransaction (mkTransaction None (rollback_action_ x)));
  this ← get_transaction t;
  put t (OTransaction (mkTransaction (t_conn x) (rollback_action_ this))).

(** [try { ... } catch (...) {}] *)
Definition catching (m : M unit) : M unit := fun s =>
  match m s with (s', Throw _) => (s', Ok tt) | out => out end.

Definition destroy_transaction (t : nat) : M unit :=
  _ ← catching (rollback t);
  x ← get_transaction t;
  _ ← unless_null (t_conn x) (change_counter decrement);
  remove t.

End Mysql.
