(* ===== verification/MysqlProofs.v ===== *)
(** * Sessions and ownership in the MySQL binding

    For every sequence of operations on connections, results, statements and
    transactions, whatever the library answers: a connection's counter is the
    number of objects that refer to it, so it does not reconnect under them; what
    the library has given out is owned by exactly one object. *)

From Stdlib Require Import ZArith Lia.
From S2P Require Import Prelude.
From S2P Require Import Mysql.
Local Open Scope Z_scope.

(** ** Counting objects *)

Definition handle_of (x : object) : option Z :=
  match x with
  | OConnection c => conn_ c
  | OResult r => res_ r
  | OStatement s => stmt_ s
  | OTransaction _ => None
  end.

(** The connection an object refers to. *)
Definition ref_of (x : object) : option nat :=
  match x with
  | OConnection _ => None
  | OResult r => r_connection r
  | OStatement s => s_connection s
  | OTransaction t => t_conn t
  end.

Definition one (b : bool) : nat := if b then 1%nat else 0%nat.

Definition count (P : object -> bool) (m : gmap nat object) : nat := map_fold (fun _ x n => (one (P x) + n)%nat) 0%nat m.

Lemma count_insert P o x m : count P (<[o := x]> m) = (one (P x) + count P (delete o m))%nat.
Proof.
  unfold count. rewrite <- insert_delete_eq. rewrite map_fold_insert_L; [done| |apply lookup_delete_eq]. intros. lia.
Qed.

Lemma count_lookup P o x m : m !! o = Some x -> count P m = (one (P x) + count P (delete o m))%nat.
Proof. intros H. rewrite <- (count_insert P o x m). by rewrite fin_maps.insert_id. Qed.

Lemma count_absent P o m : m !! o = None -> count P (delete o m) = count P m.
Proof. intros H. by rewrite delete_id. Qed.

Lemma count_zero P m : count P m = 0%nat -> forall o x, m !! o = Some x -> P x = false.
Proof. intros H o x Hx. rewrite (count_lookup P o x m Hx) in H. destruct (P x); [|done]. cbn in H. lia. Qed.

Lemma count_none P m : (forall o x, m !! o = Some x -> P x = false) -> count P m = 0%nat.
Proof.
  induction m as [|o x m Ho IH] using map_ind; intros H; [done|]. rewrite count_insert, (count_absent P o m Ho), IH.
  - by rewrite (H o x (lookup_insert_eq _ _ _)).
  - intros p y Hp. apply (H p). rewrite lookup_insert_ne; [done|]. intros ->. congruence.
Qed.

Definition handle_is (h : Z) (x : object) : bool := bool_decide (handle_of x = Some h).
Definition ref_is (c : nat) (x : object) : bool := bool_decide (ref_of x = Some c).

(** How many objects refer to a connection. *)
Definition referring (c : nat) (m : gmap nat object) : nat := count (ref_is c) m.

(** ** Sessions in the trace *)

Definition closes (h : Z) (e : event) : Prop :=
  match e with Did c _ => match c with CloseConn h' => h' = h | _ => False end end.

(** [e] has happened and the connection [h] has not been closed since. *)
Definition since (e : event) (h : Z) (tr : list event) : Prop :=
  exists before after, tr = before ++ e :: after /\ Forall (fun e' => ~ closes h e') after.

Lemma since_more e h tr e' : since e h tr -> ~ closes h e' -> since e h (tr ++ [e']).
Proof.
  intros (a & b & -> & Hb) Hc. exists a, (b ++ [e']). split; [by rewrite <- app_assoc|]. apply Forall_app. auto.
Qed.

Lemma since_now e h tr : since e h (tr ++ [e]).
Proof. by exists tr, []. Qed.

(** An object that refers to a connection was made in its session. *)
Definition made_in (x : object) (h : Z) (tr : list event) : Prop :=
  match x with
  | OConnection _ => False
  | OResult r => exists res, res_ r = Some res /\ since (Did (StoreResult h) (Some res)) h tr
  | OStatement s => exists stmt, stmt_ s = Some stmt /\ since (Did (StmtInit h) (Some stmt)) h tr
  | OTransaction _ => since (Did (RealQuery h START_TRANSACTION) true) h tr
  end.

Lemma made_in_more x h tr e : made_in x h tr -> ~ closes h e -> made_in x h (tr ++ [e]).
Proof.
  destruct x; cbn; [done| | |by intros; apply since_more].
  - intros (r & Hr & Hs) He. exists r. split; [done|by apply since_more].
  - intros (r & Hr & Hs) He. exists r. split; [done|by apply since_more].
Qed.

(** ** The invariant

    [X] are the handles that a running operation has in its variables. *)

Record inv (X : gset Z) (m : gmap nat object) (lv : gset Z) (tr : list event) : Prop := {
  inv_owned : forall h, (count (handle_is h) m + one (bool_decide (h ∈ X)) = one (bool_decide (h ∈ lv)))%nat;
  inv_counter : forall c C, m !! c = Some (OConnection C) -> referencing_objects_no_ C = Z.of_nat (referring c m);
  inv_session : forall o x c, m !! o = Some x -> ref_of x = Some c ->
    exists C h, m !! c = Some (OConnection C) /\ conn_ C = Some h /\ made_in x h tr;
  inv_paired : forall o x h, m !! o = Some x -> handle_of x = Some h -> ref_of x = None -> exists C, x = OConnection C
}.

Ltac decides := repeat (case_bool_decide || case_decide).
Ltac hcases := unfold handle_is, ref_is in *; decides; cbn [one handle_of ref_of conn_ res_ stmt_ r_connection s_connection t_conn] in *; simplify_eq.

Section Pure.
Context (X : gset Z) (m : gmap nat object) (lv : gset Z) (tr : list event).
Hypothesis H : inv X m lv tr.

Lemma held_count o x h : m !! o = Some x -> handle_of x = Some h ->
  count (handle_is h) (delete o m) = 0%nat /\ h ∈ lv /\ h ∉ X.
Proof.
  intros Ho Hh. pose proof (inv_owned _ _ _ _ H h) as E. rewrite (count_lookup _ o x m Ho) in E. unfold handle_is at 1 in E.
  rewrite bool_decide_true in E by done. cbn [one] in E. decides; cbn [one] in E; (split_and!; [lia|set_solver|set_solver]) || lia.
Qed.

(** Something happens that closes no connection. *)
Lemma inv_event e : (forall h, ~ closes h e) -> inv X m lv (tr ++ [e]).
Proof.
  intros He. destruct H as [H1 H2 H3 H4]. split; [done|done| |done].
  intros o x c Ho Hc. destruct (H3 o x c Ho Hc) as (C & h & ? & ? & ?). exists C, h. split_and!; [done|done|]. by apply made_in_more.
Qed.

Lemma inv_alloc e h : (forall h, ~ closes h e) -> h ∉ lv -> inv (X ∪ {[h]}) m (lv ∪ {[h]}) (tr ++ [e]) /\ h ∉ X.
Proof.
  intros He Hh. destruct (inv_event e He) as [H1 H2 H3 H4]. pose proof (H1 h) as Hx. split.
  - split; [|done|done|done]. intros h'. pose proof (H1 h'). destruct (decide (h' = h)) as [->|Hne].
    + repeat case_bool_decide; cbn [one] in *; try lia; set_solver.
    + assert (bool_decide (h' ∈ X ∪ {[h]}) = bool_decide (h' ∈ X)) as -> by (apply bool_decide_ext; set_solver).
      assert (bool_decide (h' ∈ lv ∪ {[h]}) = bool_decide (h' ∈ lv)) as -> by (apply bool_decide_ext; set_solver). done.
  - intros Hin. repeat case_bool_decide; cbn [one] in *; try lia; done.
Qed.

Lemma inv_free e h : (forall h', closes h' e -> h' = h) -> h ∈ X -> inv (X ∖ {[h]}) m (lv ∖ {[h]}) (tr ++ [e]).
Proof.
  intros He Hh. destruct H as [H1 H2 H3 H4]. split; [|done| |done].
  - intros h'. pose proof (H1 h'). destruct (decide (h' = h)) as [->|Hne].
    + repeat case_bool_decide; cbn [one] in *; try lia; set_solver.
    + assert (bool_decide (h' ∈ X ∖ {[h]}) = bool_decide (h' ∈ X)) as -> by (apply bool_decide_ext; set_solver).
      assert (bool_decide (h' ∈ lv ∖ {[h]}) = bool_decide (h' ∈ lv)) as -> by (apply bool_decide_ext; set_solver). done.
  - intros o x c Ho Hc. destruct (H3 o x c Ho Hc) as (C & h' & Hcc & Hh' & Hm). exists C, h'. split_and!; [done|done|].
    apply made_in_more; [done|]. intros Hcl. apply He in Hcl as ->. by destruct (held_count c (OConnection C) h Hcc Hh') as (_ & _ & []).
Qed.

End Pure.

(** ** Changing objects *)

(** An object that holds nothing. *)
Definition vacant (x : object) : Prop :=
  handle_of x = None /\ ref_of x = None /\ forall C, x <> OConnection C.

(** Nothing is lost by overwriting [o]. *)
Definition free_place (m : gmap nat object) (o : nat) : Prop := forall x, m !! o = Some x -> vacant x.

Definition handles (x : object) : gset Z := match handle_of x with Some h => {[h]} | None => ∅ end.

Lemma elem_of_handles h x : h ∈ handles x <-> handle_of x = Some h.
Proof. unfold handles. destruct (handle_of x); set_solver. Qed.

Lemma one_handles h x : one (bool_decide (h ∈ handles x)) = one (handle_is h x).
Proof. unfold handle_is. f_equal. apply bool_decide_ext, elem_of_handles. Qed.

Lemma vacant_handle h x : vacant x -> handle_is h x = false.
Proof. intros (E & _). unfold handle_is. rewrite E. by apply bool_decide_false. Qed.

Lemma vacant_ref c x : vacant x -> ref_is c x = false.
Proof. intros (_ & E & _). unfold ref_is. rewrite E. by apply bool_decide_false. Qed.

Lemma count_free P m o : free_place m o -> (forall x, vacant x -> P x = false) -> count P m = count P (delete o m).
Proof.
  intros Hf HP. destruct (m !! o) as [x|] eqn:E; [|by rewrite count_absent].
  by rewrite (count_lookup P o x m E), (HP x (Hf x E)).
Qed.

Lemma count_two P m o c x y : o <> c ->
  count P (<[o := x]> (<[c := y]> m)) = (one (P x) + (one (P y) + count P (delete c (delete o m))))%nat.
Proof. intros Hne. rewrite count_insert, delete_insert_ne by done. by rewrite count_insert. Qed.

Lemma count_lookup_two P m o c x y : o <> c -> m !! o = Some x -> m !! c = Some y ->
  count P m = (one (P x) + (one (P y) + count P (delete c (delete o m))))%nat.
Proof.
  intros Hne Ho Hc. rewrite (count_lookup P o x m Ho). rewrite (count_lookup P c y (delete o m)); [done|].
  by rewrite lookup_delete_ne.
Qed.

(** Which connections there are, as far as referring objects see. *)
Definition connections_kept (m m' : gmap nat object) : Prop :=
  forall c C h, m !! c = Some (OConnection C) -> conn_ C = Some h -> exists C', m' !! c = Some (OConnection C') /\ conn_ C' = Some h.

(** An object that holds nothing appears, changes or goes. *)
Lemma inv_vacant X m lv tr o x : inv X m lv tr -> free_place m o -> vacant x -> inv X (<[o := x]> m) lv tr.
Proof.
  intros H Hf Hx. destruct H as [H1 H2 H3 H4].
  assert (forall P, (forall y, vacant y -> P y = false) -> count P (<[o := x]> m) = count P m) as E.
  { intros P HP. by rewrite count_insert, (HP x Hx), (count_free P m o Hf HP). }
  split.
  - intros h. rewrite E; [apply H1|intros y; apply vacant_handle].
  - intros c C Hc. apply lookup_insert_Some in Hc as [[_ ->]|[_ Hc]]; [by destruct (proj2 (proj2 Hx) C)|].
    unfold referring. rewrite E; [by apply H2|intros y; apply vacant_ref].
  - intros p y c Hp Hr. apply lookup_insert_Some in Hp as [[_ <-]|[Hne Hp]]; [destruct Hx as (_ & Hx & _); congruence|].
    destruct (H3 p y c Hp Hr) as (C & h & Hc & Hh & Hm). exists C, h. split_and!; [|done|done].
    rewrite lookup_insert_ne; [done|]. intros <-. by destruct (proj2 (proj2 (Hf _ Hc)) C).
  - intros p y h Hp Hh Hr. apply lookup_insert_Some in Hp as [[_ <-]|[_ Hp]]; [destruct Hx as (Hx & _); congruence|eauto].
Qed.

(** An object gets a handle from a variable and refers to a connection. *)
Lemma inv_give X m lv tr o c x C h : inv X m lv tr -> free_place m o -> handles x ⊆ X -> ref_of x = Some c ->
  m !! c = Some (OConnection C) -> conn_ C = Some h -> made_in x h tr ->
  inv (X ∖ handles x) (<[o := x]> (<[c := OConnection (mkConnection (conn_ C) (increment (referencing_objects_no_ C)))]> m)) lv tr.
Proof.
  intros H Hf Hx Hr Hc Hh Hm. pose proof H as [H1 H2 H3 H4].
  assert (o <> c) as Hoc by (intros ->; by destruct (proj2 (proj2 (Hf _ Hc)) C)).
  assert (forall P, (forall y, vacant y -> P y = false) -> count P m = (one (P (OConnection C)) + count P (delete c (delete o m)))%nat) as E.
  { intros P HP. rewrite (count_free P m o Hf HP), (count_lookup P c (OConnection C)); [done|]. by rewrite lookup_delete_ne. }
  split.
  - intros h'. rewrite count_two by done. specialize (H1 h'). rewrite E in H1 by (intros y; apply vacant_handle).
    change (handle_is h' (OConnection (mkConnection (conn_ C) _))) with (handle_is h' (OConnection C)). rewrite <- one_handles.
    pose proof (elem_of_handles h' x). repeat case_bool_decide; cbn [one] in *; try lia; set_solver.
  - intros d D Hd. unfold referring. rewrite count_two by done. apply lookup_insert_Some in Hd as [[_ ->]|[_ Hd]]; [by destruct Hm|].
    change (ref_is d (OConnection (mkConnection (conn_ C) _))) with (ref_is d (OConnection C)).
    pose proof (E (ref_is d) (fun y => vacant_ref d y)) as Ed.
    apply lookup_insert_Some in Hd as [[<- [= <-]]|[Hne Hd]]; cbn [referencing_objects_no_]; unfold increment.
    + rewrite (H2 c C Hc). unfold referring. rewrite Ed. assert (ref_is c x = true) as -> by (by apply bool_decide_true). cbn [one]. lia.
    + rewrite (H2 d D Hd). unfold referring. rewrite Ed. assert (ref_is d x = false) as -> by (apply bool_decide_false; congruence). cbn [one]. lia.
  - intros p y d Hp Hd. apply lookup_insert_Some in Hp as [[<- <-]|[Hne Hp]].
    + assert (d = c) as -> by congruence. eexists _, h. rewrite lookup_insert_ne, lookup_insert_eq by done. by split_and!.
    + apply lookup_insert_Some in Hp as [[_ <-]|[_ Hp]]; [done|]. destruct (H3 p y d Hp Hd) as (D & h' & HD & Hh' & Hm').
      assert (o <> d) as Hod by (intros ->; by destruct (proj2 (proj2 (Hf _ HD)) D)).
      destruct (decide (c = d)) as [<-|Hcd].
      * eexists _, h'. rewrite lookup_insert_ne, lookup_insert_eq by done. split_and!; [done|cbn; congruence|done].
      * exists D, h'. by rewrite !lookup_insert_ne by done.
  - intros p y h' Hp Hh' Hr'. apply lookup_insert_Some in Hp as [[_ <-]|[_ Hp]]; [congruence|].
    apply lookup_insert_Some in Hp as [[_ <-]|[_ Hp]]; [by eexists|eauto].
Qed.

(** An object lets go of its handle and of its connection. *)
Lemma inv_take X m lv tr o c x x' : inv X m lv tr -> m !! o = Some x -> ref_of x = Some c -> vacant x' ->
  exists C, m !! c = Some (OConnection C) /\ o <> c /\
  inv (X ∪ handles x) (<[o := x']> (<[c := OConnection (mkConnection (conn_ C) (decrement (referencing_objects_no_ C)))]> m)) lv tr.
Proof.
  intros H Ho Hr Hv. pose proof H as [H1 H2 H3 H4]. destruct (H3 o x c Ho Hr) as (C & h & Hc & Hh & Hm). exists C. split; [done|].
  assert (o <> c) as Hoc by (intros ->; assert (x = OConnection C) as -> by congruence; done). split; [done|].
  assert (forall P, count P m = (one (P x) + (one (P (OConnection C)) + count P (delete c (delete o m))))%nat) as E
    by (intros P; by apply count_lookup_two).
  split.
  - intros h'. rewrite count_two by done. rewrite (vacant_handle h' x' Hv).
    change (handle_is h' (OConnection (mkConnection (conn_ C) _))) with (handle_is h' (OConnection C)).
    specialize (H1 h'). rewrite E in H1. rewrite <- one_handles in H1.
    repeat case_bool_decide; cbn [one] in *; try lia; set_solver.
  - intros d D Hd. unfold referring. rewrite count_two by done. apply lookup_insert_Some in Hd as [[_ ->]|[_ Hd]].
    { by destruct (proj2 (proj2 Hv) D). }
    rewrite (vacant_ref d x' Hv). change (ref_is d (OConnection (mkConnection (conn_ C) _))) with (ref_is d (OConnection C)).
    pose proof (E (ref_is d)) as Ed.
    apply lookup_insert_Some in Hd as [[<- [= <-]]|[Hne Hd]]; cbn [referencing_objects_no_]; unfold decrement.
    + rewrite (H2 c C Hc). unfold referring. rewrite Ed. assert (ref_is c x = true) as -> by (by apply bool_decide_true). cbn [one].
      destruct (Z.eqb_spec (Z.of_nat (1 + (one (ref_is c (OConnection C)) + count (ref_is c) (delete c (delete o m))))) 0); lia.
    + rewrite (H2 d D Hd). unfold referring. rewrite Ed. assert (ref_is d x = false) as -> by (apply bool_decide_false; congruence).
      cbn [one]. lia.
  - intros p y d Hp Hd. apply lookup_insert_Some in Hp as [[<- <-]|[Hne Hp]]; [destruct Hv as (_ & Hv & _); congruence|].
    apply lookup_insert_Some in Hp as [[_ <-]|[_ Hp]]; [done|]. destruct (H3 p y d Hp Hd) as (D & h' & HD & Hh' & Hm').
    assert (o <> d) as Hod by (intros ->; assert (x = OConnection D) as -> by congruence; done).
    destruct (decide (c = d)) as [<-|Hcd].
    + eexists _, h'. rewrite lookup_insert_ne, lookup_insert_eq by done. split_and!; [done|cbn; congruence|done].
    + exists D, h'. by rewrite !lookup_insert_ne by done.
  - intros p y h' Hp Hh' Hr'. apply lookup_insert_Some in Hp as [[_ <-]|[_ Hp]]; [destruct Hv as (Hv & _); congruence|].
    apply lookup_insert_Some in Hp as [[_ <-]|[_ Hp]]; [by eexists|eauto].
Qed.

(** An object that holds nothing goes. *)
Lemma inv_gone X m lv tr o x : inv X m lv tr -> m !! o = Some x -> vacant x -> inv X (delete o m) lv tr.
Proof.
  intros H Ho Hx. pose proof H as [H1 H2 H3 H4].
  assert (forall P, (forall y, vacant y -> P y = false) -> count P (delete o m) = count P m) as E.
  { intros P HP. symmetry. apply count_free; [|done]. intros y Hy. congruence. }
  split.
  - intros h. rewrite E; [apply H1|intros y; apply vacant_handle].
  - intros c C Hc. apply lookup_delete_Some in Hc as [_ Hc]. unfold referring. rewrite E; [by apply H2|intros y; apply vacant_ref].
  - intros p y c Hp Hr. apply lookup_delete_Some in Hp as [_ Hp]. destruct (H3 p y c Hp Hr) as (C & h & Hc & ?). exists C, h.
    rewrite lookup_delete_ne; [done|]. intros <-. assert (x = OConnection C) as -> by congruence. by destruct (proj2 (proj2 Hx) C).
  - intros p y h Hp. apply lookup_delete_Some in Hp as [_ Hp]. eauto.
Qed.

(** What an object holds passes to another one. *)
Lemma inv_pass X m lv tr o from x y x' : inv X m lv tr -> free_place m o -> o <> from -> m !! from = Some x ->
  (forall C, x <> OConnection C) -> vacant x' -> handle_of y = handle_of x -> ref_of y = ref_of x ->
  (forall h, made_in x h tr -> made_in y h tr) -> (forall C, y <> OConnection C) -> inv X (<[o := y]> (<[from := x']> m)) lv tr.
Proof.
  intros H Hf Hne Hx HxC Hx' Hhy Hry Hmy HyC. destruct (ref_of x) as [c|] eqn:Hr.
  - destruct (inv_take _ _ _ _ _ _ _ _ H Hx Hr Hx') as (C & Hc & Hfc & H').
    destruct (inv_session _ _ _ _ H from x c Hx Hr) as (C0 & h & Hc0 & Hh & Hm). assert (C0 = C) as -> by congruence.
    assert (o <> c) as Hoc by (intros ->; by destruct (proj2 (proj2 (Hf _ Hc)) C)).
    eapply (inv_give _ _ _ _ o c y _ h) in H'; [| | |exact Hry| | |by apply Hmy].
    2: { intros z. rewrite !lookup_insert_ne by done. apply Hf. }
    2: { intros z Hz. apply elem_of_union_r. apply elem_of_handles. rewrite <- Hhy. by apply elem_of_handles. }
    2: { by rewrite lookup_insert_ne, lookup_insert_eq by done. }
    2: { done. }
    cbn [conn_ referencing_objects_no_] in H'.
    assert (handles y = handles x) as Hhs by (unfold handles; by rewrite Hhy).
    assert ((X ∪ handles x) ∖ handles y = X) as HX.
    { rewrite Hhs. apply set_eq. intros z. assert (z ∈ handles x -> z ∉ X); [|set_solver]. intros Hz. apply elem_of_handles in Hz.
      by destruct (held_count _ _ _ _ H from x z Hx Hz) as (_ & _ & ?). }
    rewrite HX in H'. 
    assert (increment (decrement (referencing_objects_no_ C)) = referencing_objects_no_ C) as Hid.
    { unfold increment, decrement. rewrite (inv_counter _ _ _ _ H c C Hc). unfold referring.
      rewrite (count_lookup _ from x m Hx). assert (ref_is c x = true) as -> by (by apply bool_decide_true). cbn [one].
      destruct (Z.eqb_spec (Z.of_nat (1 + count (ref_is c) (delete from m))) 0); lia. }
    rewrite Hid in H'. replace (<[o := y]> (<[from := x']> m)) with
      (<[o := y]> (<[c := OConnection (mkConnection (conn_ C) (referencing_objects_no_ C))]> (<[from := x']>
        (<[c := OConnection (mkConnection (conn_ C) (decrement (referencing_objects_no_ C)))]> m)))); [done|].
    f_equal. rewrite (insert_insert_ne _ c from) by done. rewrite insert_insert_eq. f_equal. apply fin_maps.insert_id. rewrite Hc. by destruct C.
  - assert (handle_of x = None) as Hhx.
    { destruct (handle_of x) as [h|] eqn:E; [|done]. destruct (inv_paired _ _ _ _ H from x h Hx E Hr) as [C ->]. by destruct (HxC C). }
    apply inv_vacant; [apply inv_vacant; [done| |done]| |].
    + intros z Hz. assert (z = x) as -> by congruence. done.
    + intros z. rewrite lookup_insert_ne by done. apply Hf.
    + split_and!; congruence.
Qed.

(** An object changes in what does not matter here. *)
Lemma inv_alter X m lv tr o x y : inv X m lv tr -> m !! o = Some x -> (forall C, x <> OConnection C) -> (forall C, y <> OConnection C) ->
  handle_of y = handle_of x -> ref_of y = ref_of x -> (forall h, made_in x h tr -> made_in y h tr) -> inv X (<[o := y]> m) lv tr.
Proof.
  intros H Ho HxC HyC Hh Hr Hm. pose proof H as [H1 H2 H3 H4].
  assert (forall P, P y = P x -> count P (<[o := y]> m) = count P m) as E by (intros P HP; by rewrite count_insert, (count_lookup P o x m Ho), HP).
  split.
  - intros h. rewrite E; [apply H1|]. unfold handle_is. by rewrite Hh.
  - intros c C Hc. apply lookup_insert_Some in Hc as [[_ ->]|[_ Hc]]; [by destruct (HyC C)|]. unfold referring. rewrite E; [by apply H2|].
    unfold ref_is. by rewrite Hr.
  - assert (forall p C, m !! p = Some (OConnection C) -> <[o := y]> m !! p = Some (OConnection C)) as Hk.
    { intros p C Hp. rewrite lookup_insert_ne; [done|]. intros <-. assert (x = OConnection C) as -> by congruence. by destruct (HxC C). }
    intros p z c Hp Hc. apply lookup_insert_Some in Hp as [[<- <-]|[_ Hp]].
    + rewrite Hr in Hc. destruct (H3 o x c Ho Hc) as (C & h & HC & Hh' & Hm'). exists C, h. split_and!; [by apply Hk|done|by apply Hm].
    + destruct (H3 p z c Hp Hc) as (C & h & HC & ?). exists C, h. split; [by apply Hk|done].
  - intros p z h Hp Hh' Hr'. apply lookup_insert_Some in Hp as [[_ <-]|[_ Hp]]; [|eauto]. rewrite Hh in Hh'. rewrite Hr in Hr'.
    destruct (H4 o x h Ho Hh' Hr') as [C ->]. by destruct (HxC C).
Qed.

(** ** Changing connections *)

(** A connection without a handle appears. *)
Lemma inv_empty_connection X m lv tr o : inv X m lv tr -> m !! o = None -> inv X (<[o := OConnection (mkConnection None 0)]> m) lv tr.
Proof.
  intros H Ho. pose proof H as [H1 H2 H3 H4]. split.
  - intros h. rewrite count_insert, count_absent by done. apply H1.
  - intros c C Hc. unfold referring. rewrite count_insert, count_absent by done. cbn.
    apply lookup_insert_Some in Hc as [[<- [= <-]]|[_ Hc]]; [|by apply H2]. cbn. symmetry. apply (Nat2Z.inj_iff _ 0).
    apply count_none. intros p x Hp. apply bool_decide_false. intros Hr. destruct (H3 p x o Hp Hr) as (C & h' & Hc & _). congruence.
  - intros p x c Hp Hr. apply lookup_insert_Some in Hp as [[_ <-]|[_ Hp]]; [done|]. destruct (H3 p x c Hp Hr) as (C & h' & Hc & ?).
    exists C, h'. rewrite lookup_insert_ne; [done|congruence].
  - intros p x h' Hp Hh' Hr. apply lookup_insert_Some in Hp as [[_ <-]|[_ Hp]]; [by eexists|eauto].
Qed.


Lemma inv_new_connection X m lv tr o h : inv X m lv tr -> m !! o = None -> h ∈ X ->
  inv (X ∖ {[h]}) (<[o := OConnection (mkConnection (Some h) 0)]> m) lv tr.
Proof.
  intros H Ho Hh. pose proof H as [H1 H2 H3 H4]. split.
  - intros h'. rewrite count_insert, count_absent by done. specialize (H1 h'). unfold handle_is at 1. cbn [handle_of conn_].
    repeat case_bool_decide; cbn [one] in *; simplify_eq; try lia; set_solver.
  - intros c C Hc. unfold referring. rewrite count_insert, count_absent by done. cbn.
    apply lookup_insert_Some in Hc as [[<- [= <-]]|[_ Hc]]; [|by apply H2]. cbn. symmetry. apply (Nat2Z.inj_iff _ 0).
    apply count_none. intros p x Hp. apply bool_decide_false. intros Hr. destruct (H3 p x o Hp Hr) as (C & h' & Hc & _). congruence.
  - intros p x c Hp Hr. apply lookup_insert_Some in Hp as [[_ <-]|[_ Hp]]; [done|]. destruct (H3 p x c Hp Hr) as (C & h' & Hc & ?).
    exists C, h'. rewrite lookup_insert_ne; [done|congruence].
  - intros p x h' Hp Hh' Hr. apply lookup_insert_Some in Hp as [[_ <-]|[_ Hp]]; [by eexists|eauto].
Qed.

(** A connection that nothing refers to gives up its handle. *)
Lemma inv_drop_connection X m lv tr o C h : inv X m lv tr -> m !! o = Some (OConnection C) -> conn_ C = Some h ->
  referring o m = 0%nat -> inv (X ∪ {[h]}) (<[o := OConnection (mkConnection None (referencing_objects_no_ C))]> m) lv tr.
Proof.
  intros H Ho Hh H0. pose proof H as [H1 H2 H3 H4]. destruct (held_count _ _ _ _ H o _ h Ho Hh) as (Hd & Hlv & HX). split.
  - intros h'. rewrite count_insert. specialize (H1 h'). rewrite (count_lookup _ o _ m Ho) in H1. unfold handle_is at 1. unfold handle_is at 1 in H1.
    cbn [handle_of conn_] in *. rewrite Hh in H1. repeat case_bool_decide; cbn [one] in *; simplify_eq; try lia; set_solver.
  - intros c D Hc. unfold referring. rewrite count_insert. change (ref_is c (OConnection (mkConnection None (referencing_objects_no_ C)))) with (ref_is c (OConnection C)).
    rewrite <- (count_lookup (ref_is c) o _ m Ho). apply lookup_insert_Some in Hc as [[<- [= <-]]|[_ Hc]]; [|by apply H2]. cbn. by apply H2.
  - intros p x c Hp Hr. apply lookup_insert_Some in Hp as [[_ <-]|[_ Hp]]; [done|]. destruct (H3 p x c Hp Hr) as (D & h' & Hc & ?).
    exists D, h'. rewrite lookup_insert_ne; [done|]. intros <-. pose proof (count_zero _ _ H0 p x Hp) as E.
    apply bool_decide_eq_false in E. done.
  - intros p x h' Hp Hh' Hr. apply lookup_insert_Some in Hp as [[_ <-]|[_ Hp]]; [by eexists|eauto].
Qed.

Lemma nobody_refers X m lv tr o C : inv X m lv tr -> m !! o = Some (OConnection C) -> conn_ C = None -> referring o m = 0%nat.
Proof.
  intros H Ho Hh. apply count_none. intros p x Hp. apply bool_decide_false. intros Hr.
  destruct (inv_session _ _ _ _ H p x o Hp Hr) as (D & h' & HD & Hh' & _). congruence.
Qed.

Lemma inv_fill_connection X m lv tr o C h n : inv X m lv tr -> m !! o = Some (OConnection C) -> conn_ C = None -> h ∈ X ->
  n = referencing_objects_no_ C \/ n = 0 -> inv (X ∖ {[h]}) (<[o := OConnection (mkConnection (Some h) n)]> m) lv tr.
Proof.
  intros H Ho Hh HX Hn. pose proof H as [H1 H2 H3 H4]. pose proof (nobody_refers _ _ _ _ _ _ H Ho Hh) as H0.
  assert (n = 0) as -> by (destruct Hn as [-> | ->]; [rewrite (H2 o C Ho), H0|]; done). split.
  - intros h'. rewrite count_insert. specialize (H1 h'). rewrite (count_lookup _ o _ m Ho) in H1. unfold handle_is at 1. unfold handle_is at 1 in H1.
    cbn [handle_of conn_] in *. rewrite Hh in H1. repeat case_bool_decide; cbn [one] in *; simplify_eq; try lia; set_solver.
  - intros c D Hc. unfold referring. rewrite count_insert. change (ref_is c (OConnection (mkConnection (Some h) 0))) with (ref_is c (OConnection C)).
    rewrite <- (count_lookup (ref_is c) o _ m Ho). apply lookup_insert_Some in Hc as [[<- [= <-]]|[_ Hc]]; [|by apply H2]. cbn.
    fold (referring o m). lia.
  - intros p x c Hp Hr. apply lookup_insert_Some in Hp as [[_ <-]|[_ Hp]]; [done|]. destruct (H3 p x c Hp Hr) as (D & h' & Hc & Hh' & ?).
    exists D, h'. rewrite lookup_insert_ne; [done|]. intros <-. congruence.
  - intros p x h' Hp Hh' Hr. apply lookup_insert_Some in Hp as [[_ <-]|[_ Hp]]; [by eexists|eauto].
Qed.

Lemma inv_connection_gone X m lv tr o C : inv X m lv tr -> m !! o = Some (OConnection C) -> conn_ C = None -> inv X (delete o m) lv tr.
Proof.
  intros H Ho Hh. pose proof H as [H1 H2 H3 H4]. split.
  - intros h. rewrite <- (H1 h), (count_lookup _ o _ m Ho). unfold handle_is at 2. cbn. by rewrite Hh.
  - intros c D Hc. apply lookup_delete_Some in Hc as [_ Hc]. rewrite (H2 c D Hc). unfold referring. by rewrite (count_lookup _ o _ m Ho).
  - intros p x c Hp Hr. apply lookup_delete_Some in Hp as [_ Hp]. destruct (H3 p x c Hp Hr) as (D & h & HD & Hh' & ?). exists D, h.
    rewrite lookup_delete_ne; [done|]. intros <-. congruence.
  - intros p x h Hp. apply lookup_delete_Some in Hp as [_ Hp]. eauto.
Qed.
