(* ===== verification/MysqlSessions.v ===== *)
(** * Operations of the MySQL binding keep the invariant

    The operations of [Mysql.v] on a library that hands out each pointer once
    before it is freed, and the theorem about all sequences of them. *)

From Stdlib Require Import ZArith Lia.
From S2P Require Import Prelude.
From S2P Require Import Mysql.
From S2P Require Import MysqlProofs.
Local Open Scope Z_scope.

(** Requests that neither make nor free anything. *)
Definition plain {A} (c : mysys A) : bool :=
  match c with
  | Init | CloseConn _ | StoreResult _ | FreeResult _ | StmtInit _ | StmtClose _ => false
  | _ => true
  end.

Definition allocates (c : mysys (option Z)) : Prop := c = Init \/ (exists h, c = StoreResult h) \/ (exists h, c = StmtInit h).

Definition frees (c : mysys unit) (h : Z) : Prop := c = CloseConn h \/ c = FreeResult h \/ c = StmtClose h.

(** What the library is relied on for: a pointer it returns is not one of those
    it has returned and not freed yet; [mysql_stmt_init] finds memory. *)
Class MysqlLibrary {W : Type} (mysql : forall A, mysys A -> W -> W * A) := {
  live : W -> gset Z;
  lib_plain : forall A (c : mysys A) w, plain c = true -> live (mysql A c w).1 = live w;
  lib_alloc : forall (c : mysys (option Z)) w, allocates c ->
    match mysql _ c w with
    | (w', Some h) => h ∉ live w /\ live w' = live w ∪ {[h]}
    | (w', None) => live w' = live w
    end;
  lib_free : forall (c : mysys unit) w h, frees c h -> h ∈ live w -> live (mysql _ c w).1 = live w ∖ {[h]};
  lib_stmt_init : forall h w, is_Some (mysql _ (StmtInit h) w).2
}.

(** ** Triples: an exception leads to [E], undefined behaviour is not looked at *)

Definition triple {S A} (P : S -> Prop) (m : stm S A) (Q : A -> S -> Prop) (E : S -> Prop) : Prop :=
  forall s, P s -> match m s with (s', Ok a) => Q a s' | (s', Throw _) => E s' | _ => True end.

Section Rules.
Context {S A B : Type}.

Lemma session_triple_bind P (m : stm S A) R (f : A -> stm S B) Q E :
  triple P m R E -> (forall a, triple (R a) (f a) Q E) -> triple P (m ≫= f) Q E.
Proof.
  intros Hm Hf s Hs. specialize (Hm s Hs). unfold mbind, stm_bind. destruct (m s) as [s' [a|e| |]]; try done. by apply Hf.
Qed.

Lemma session_triple_ret (P : S -> Prop) (a : A) (Q : A -> S -> Prop) E : (forall s, P s -> Q a s) -> triple P (mret a) Q E.
Proof. intros H s Hs. by apply H. Qed.

Lemma triple_throw (P : S -> Prop) what (Q : A -> S -> Prop) (E : S -> Prop) : (forall s, P s -> E s) -> triple P (throw_error what) Q E.
Proof. intros H s Hs. by apply H. Qed.

Lemma triple_weaken (P P' : S -> Prop) (m : stm S A) (Q Q' : A -> S -> Prop) (E E' : S -> Prop) :
  triple P m Q E -> (forall s, P' s -> P s) -> (forall a s, Q a s -> Q' a s) -> (forall s, E s -> E' s) -> triple P' m Q' E'.
Proof. intros H HP HQ HE s Hs. specialize (H s (HP s Hs)). destruct (m s) as [s' [a|e| |]]; auto. Qed.

Lemma triple_ub (P : S -> Prop) (Q : A -> S -> Prop) E : triple P (lift UB) Q E.
Proof. done. Qed.

Lemma triple_exists {X} (P : X -> S -> Prop) (m : stm S A) Q E :
  (forall x, triple (P x) m Q E) -> triple (fun s => exists x, P x s) m Q E.
Proof. intros H s [x Hx]. by apply (H x s). Qed.

(** What is known of the state without the state. *)
Lemma triple_know (phi : Prop) P (m : stm S A) Q E : (forall s, P s -> phi) -> (phi -> triple P m Q E) -> triple P m Q E.
Proof. intros H1 H2 s Hs. exact (H2 (H1 s Hs) s Hs). Qed.

Lemma session_triple_pure (phi : Prop) P (m : stm S A) Q E : (phi -> triple P m Q E) -> triple (fun s => P s /\ phi) m Q E.
Proof. intros H s [Hs Hp]. by apply (H Hp). Qed.

Lemma triple_pre (P P' : S -> Prop) (m : stm S A) Q E : triple P m Q E -> (forall s, P' s -> P s) -> triple P' m Q E.
Proof. intros H HP s Hs. by apply H, HP. Qed.

End Rules.

Section Sessions.
Context {W : Type} (mysql : forall A, mysys A -> W -> W * A) `{!MysqlLibrary mysql}.
Abbreviation M := (stm (client W)).

(** The objects are [m], and [X] is in variables. *)
Definition exact (m : gmap nat object) (v : Z) (X : gset Z) (s : client W) : Prop :=
  objects s = m /\ stmt_var s = v /\ inv X m (live (library s)) (trace s).

(** The same up to the handle of the connection [o], which may have changed. *)
Definition frame (o : nat) (m0 m : gmap nat object) : Prop := forall p, p <> o -> m !! p = m0 !! p.

Definition at_state (o : nat) (m0 : gmap nat object) (v : Z) (X : gset Z) (s : client W) : Prop :=
  exists m, frame o m0 m /\ exact m v X s.

Lemma session_triple_at {A} o m0 v X (c : M A) Q E : (forall m, frame o m0 m -> triple (exact m v X) c Q E) -> triple (at_state o m0 v X) c Q E.
Proof. intros H s (m & Hf & Hm). by apply (H m Hf). Qed.

Lemma exact_at m v X o s : exact m v X s -> at_state o m v X s.
Proof. intros H. by exists m. Qed.

Lemma inv_at X m v s : exact m v X s -> inv X m (live (library s)) (trace s).
Proof. by intros (_ & _ & H). Qed.

(** The connection [o] has the handle [h]. *)
Definition connected (o : nat) (h : Z) (s : client W) : Prop :=
  exists C, objects s !! o = Some (OConnection C) /\ conn_ C = Some h.

Lemma request_plain {A} (c : mysys A) (P : client W -> Prop) E : plain c = true ->
  (forall s w a, P s -> live w = live (library s) -> P (mkClient (objects s) (stmt_var s) w (trace s ++ [Did c a]))) ->
  triple P (request mysql c) (fun _ => P) E.
Proof.
  intros Hc HP s Hs. unfold request. pose proof (lib_plain A c (library s) Hc) as Hl. destruct (mysql A c (library s)) as [w a]. by apply HP.
Qed.

Lemma plain_closes {A} (c : mysys A) a h : plain c = true -> ~ closes h (Did c a).
Proof. destruct c; cbn; (discriminate || (intros _ [])). Qed.

Lemma alloc_closes c a h : allocates c -> ~ closes h (Did c a).
Proof. intros [->|[[h' ->]|[h' ->]]] []. Qed.

Lemma free_closes c a h h' : frees c h -> closes h' (Did c a) -> h' = h.
Proof. intros [->|[->| ->]]; cbn; [congruence|done|done]. Qed.

Lemma closing h : frees (CloseConn h) h.
Proof. by left. Qed.
Lemma freeing h : frees (FreeResult h) h.
Proof. by right; left. Qed.
Lemma stmt_closing h : frees (StmtClose h) h.
Proof. by right; right. Qed.
#[local] Hint Resolve closing freeing stmt_closing : core.

Lemma at_plain {A} (c : mysys A) m v X E : plain c = true -> triple (exact m v X) (request mysql c) (fun _ => exact m v X) E.
Proof.
  intros Hc. apply request_plain; [done|]. intros s w a (Hf & Hv & Hi) Hl. split_and!; [done|done|]. cbn [objects library trace]. rewrite Hl.
  apply inv_event; [done|]. intros h. by apply plain_closes.
Qed.

Lemma get_object_spec P o E : triple P (get_object o) (fun x s => P s /\ objects (W := W) s !! o = Some x) E.
Proof.
  intros s Hs. unfold get_object, mbind, stm_bind, gets, lift, get_or_ub. by destruct (objects s !! o) eqn:?.
Qed.

Lemma get_connection_spec P o E : triple P (get_connection o) (fun C s => P s /\ objects (W := W) s !! o = Some (OConnection C)) E.
Proof. eapply session_triple_bind; [apply get_object_spec|]. intros [x|x|x|x]; try apply triple_ub. by apply session_triple_ret. Qed.

Lemma get_result_spec P o E : triple P (get_result o) (fun x s => P s /\ objects (W := W) s !! o = Some (OResult x)) E.
Proof. eapply session_triple_bind; [apply get_object_spec|]. intros [x|x|x|x]; try apply triple_ub. by apply session_triple_ret. Qed.

Lemma get_statement_spec P o E : triple P (get_statement o) (fun x s => P s /\ objects (W := W) s !! o = Some (OStatement x)) E.
Proof. eapply session_triple_bind; [apply get_object_spec|]. intros [x|x|x|x]; try apply triple_ub. by apply session_triple_ret. Qed.

Lemma get_transaction_spec P o E : triple P (get_transaction o) (fun x s => P s /\ objects (W := W) s !! o = Some (OTransaction x)) E.
Proof. eapply session_triple_bind; [apply get_object_spec|]. intros [x|x|x|x]; try apply triple_ub. by apply session_triple_ret. Qed.

Lemma handle_spec P h E : triple P (handle (W := W) h) (fun x s => P s /\ h = Some x) E.
Proof. destruct h as [h|]; [|apply triple_ub]. by apply session_triple_ret. Qed.

Lemma conn_handle_spec P o E : triple P (conn_handle o) (fun h s => P s /\ connected o h s) E.
Proof.
  eapply session_triple_bind; [apply get_connection_spec|]. intros C. eapply triple_weaken; [apply handle_spec|exact (fun s H => H)| |exact (fun s H => H)].
  intros h s [[HP HC] Hh]. split; [done|]. by exists C.
Qed.

Lemma new_place_spec P o E : triple P (new_place o) (fun _ s => P s /\ objects (W := W) s !! o = None) E.
Proof. intros s Hs. unfold new_place, mbind, stm_bind, gets, lift. by destruct (objects s !! o) eqn:?. Qed.

Lemma on_throw_spec {A} P (m : M A) Q E' guard E : triple P m Q E' -> triple E' guard (fun _ => E) E -> triple P (on_throw m guard) Q E.
Proof.
  intros Hm Hg s Hs. specialize (Hm s Hs). unfold on_throw. destruct (m s) as [s1 [a|e| |]]; try done.
  specialize (Hg s1 Hm). by destruct (guard s1) as [s2 [u|e'| |]].
Qed.

(** Something new in a variable. *)
Lemma request_alloc (c : mysys (option Z)) m v X E : allocates c ->
  triple (exact m v X) (request mysql c) (fun r s =>
    match r with
    | Some h => exact m v (X ∪ {[h]}) s /\ h ∉ X /\ exists tr, trace s = tr ++ [Did c (Some h)]
    | None => exact m v X s
    end) E.
Proof.
  intros Hc s (Hf & Hv & Hi). unfold request. pose proof (lib_alloc c (library s) Hc) as Hl.
  assert (forall a h, ~ closes h (Did c a)) as Hcl by (intros a h; by apply alloc_closes). destruct (mysql _ c (library s)) as [w [h|]].
  - destruct Hl as [Hh Hl]. destruct (inv_alloc _ _ _ _ Hi (Did c (Some h)) h (Hcl _) Hh) as [Hi' HX]. split_and!; [|done|by eexists].
    split_and!; [done|done|]. cbn [objects library trace]. by rewrite Hl.
  - split_and!; [done|done|]. cbn [objects library trace]. rewrite Hl. by apply inv_event.
Qed.

(** Something in a variable is freed. *)
Lemma request_free (c : mysys unit) m v X h E : frees c h -> h ∈ X ->
  triple (exact m v X) (request mysql c) (fun _ => exact m v (X ∖ {[h]})) E.
Proof.
  intros Hc Hh s (Hf & Hv & Hi). unfold request.
  assert (h ∈ live (library s)) as Hlv.
  { pose proof (inv_owned _ _ _ _ Hi h) as Hw. repeat case_bool_decide; cbn [one] in Hw; try lia; done. }
  pose proof (lib_free c (library s) h Hc Hlv) as Hl. destruct (mysql _ c (library s)) as [w u]. cbn [fst] in Hl.
  split_and!; [done|done|]. cbn [objects library trace]. rewrite Hl. apply inv_free; [done| |done].
  intros h' Hcl. by eapply free_closes.
Qed.

Lemma init_connection_spec m v X : triple (exact m v X) (init_connection mysql)
  (fun h s => exact m v (X ∪ {[h]}) s /\ h ∉ X) (exact m v X).
Proof.
  eapply session_triple_bind; [apply request_alloc; by left|]. intros [h|]; [|by apply triple_throw]. apply session_triple_ret. intros s (H & HX & _). done.
Qed.

Lemma connect_handle_spec h l m v X : triple (exact m v X) (connect_handle mysql h l) (fun _ => exact m v X) (exact m v X).
Proof.
  unfold connect_handle. eapply session_triple_bind; [by apply at_plain|intros ?]. eapply session_triple_bind; [by apply at_plain|intros []]; cbn [negb].
  - eapply session_triple_bind; [by apply at_plain|intros [flags|]]; [|by apply triple_throw].
    eapply session_triple_bind; [by apply at_plain|intros []]; cbn [negb]; [by apply session_triple_ret|by apply triple_throw].
  - eapply session_triple_bind; [by apply at_plain|intros text]. by apply triple_throw.
Qed.

(** [put] and the rest of what changes objects, by the state they lead to. *)
Lemma put_spec (P : client W -> Prop) o x (Q : unit -> client W -> Prop) E :
  (forall s, P s -> Q tt (mkClient (<[o := x]> (objects s)) (stmt_var s) (library s) (trace s))) -> triple P (put o x) Q E.
Proof. intros H s Hs. by apply H. Qed.

(** A connection that nothing refers to gives up its handle: the handle is
    freed, then the object is overwritten. *)
Lemma close_spec m v X o C : m !! o = Some (OConnection C) -> referring o m = 0%nat ->
  triple (exact m v X) (close mysql o) (fun _ => exact (<[o := OConnection (mkConnection None (referencing_objects_no_ C))]> m) v X) (fun _ => False).
Proof.
  intros Ho H0. unfold close. eapply session_triple_bind; [apply get_connection_spec|]. intros C' s [(<- & <- & Hi) HC].
  assert (C' = C) as -> by congruence. destruct (conn_ C) as [h|] eqn:Hh; cbn [unless_null].
  - unfold mbind, stm_bind, request, put, modify. pose proof (inv_drop_connection _ _ _ _ _ _ _ Hi Ho Hh H0) as Hd.
    destruct (held_count _ _ _ _ Hi o _ h Ho Hh) as (_ & Hlv & HX).
    pose proof (lib_free (CloseConn h) (library s) h (closing h) Hlv) as Hl. destruct (mysql _ (CloseConn h) (library s)) as [w u].
    cbn [fst] in Hl. split_and!; [done|done|]. cbn [objects library trace]. rewrite Hl.
    replace X with ((X ∪ {[h]}) ∖ {[h]}) by set_solver. apply inv_free; [done| |set_solver]. intros h' Hcl. by cbn in Hcl.
  - unfold mret, stm_ret. assert (<[o:=OConnection (mkConnection None (referencing_objects_no_ C))]> (objects s) = objects s) as E.
    { apply fin_maps.insert_id. rewrite Ho. destruct C as [c n]. cbn in Hh. by subst c. }
    split_and!; [by rewrite E|done|]. by rewrite E.
Qed.

Lemma frame_refl o m : frame o m m.
Proof. done. Qed.

Lemma frame_insert o m0 m x : frame o m0 m -> frame o m0 (<[o := x]> m).
Proof. intros H p Hp. rewrite lookup_insert_ne by done. by apply H. Qed.

Lemma frame_trans o m0 m1 m2 : frame o m0 m1 -> frame o m1 m2 -> frame o m0 m2.
Proof. intros H1 H2 p Hp. rewrite H2 by done. by apply H1. Qed.

Lemma reconnect_spec m v X o C : m !! o = Some (OConnection C) -> referencing_objects_no_ C = 0 ->
  triple (exact m v X) (reconnect mysql o) (fun _ => at_state o m v X) (exact m v X).
Proof.
  intros Ho Hn. apply (triple_know (referring o m = 0%nat)).
  { intros s Hs. pose proof (inv_counter _ _ _ _ (inv_at _ _ _ _ Hs) o C Ho). lia. }
  intros H0. unfold reconnect. eapply session_triple_bind; [apply conn_handle_spec|]. intros h0.
  eapply session_triple_bind; [eapply triple_pre; [by apply (at_plain (LoginOf h0))|by intros s []]|]. intros [l|]; [|apply triple_ub].
  eapply session_triple_bind; [apply (session_triple_ret _ l (fun _ => exact m v X)); exact (fun s H => H)|]. intros l'.
  eapply session_triple_bind; [apply init_connection_spec|]. intros h. apply session_triple_pure. intros HX.
  eapply session_triple_bind.
  { eapply on_throw_spec; [apply connect_handle_spec|].
    pose proof (request_free (CloseConn h) m v (X ∪ {[h]}) h (exact m v X) (closing h) ltac:(set_solver)) as Hc.
    replace ((X ∪ {[h]}) ∖ {[h]}) with X in Hc by set_solver. exact Hc. }
  intros u. eapply session_triple_bind.
  { eapply triple_weaken; [exact (close_spec m v (X ∪ {[h]}) o C Ho H0)|exact (fun s H => H)|exact (fun a s H => H)|done]. }
  intros u'. apply put_spec. intros s (Hm & Hv & Hi). exists (<[o := OConnection (mkConnection (Some h) 0)]> m).
  split; [by apply frame_insert|]. split_and!; cbn [objects stmt_var library trace]; [by rewrite Hm, insert_insert_eq|done|].
  replace X with ((X ∪ {[h]}) ∖ {[h]}) by set_solver. rewrite <- (insert_insert_eq m o (OConnection (mkConnection (Some h) 0))
    (OConnection (mkConnection None (referencing_objects_no_ C)))).
  eapply inv_fill_connection; [exact Hi|apply lookup_insert_eq|done|set_solver|by right].
Qed.

(** A call that may be repeated after reconnecting.  [I] holds before [func],
    [J] after reconnecting, [E] when an exception leaves the call. *)
Lemma call_impl_spec {T} o (I J E : client W -> Prop) resetter error_msg (func : M (option T)) G :
  triple I func (fun r s => match r with Some x => G x s | None => I s end) E ->
  (forall h, triple I (request mysql (Errno h)) (fun _ => I) E) ->
  triple I error_msg (fun _ => E) E ->
  (forall C, triple (fun s => I s /\ objects s !! o = Some (OConnection C) /\ referencing_objects_no_ C = 0) (reconnect mysql o) (fun _ => J) E) ->
  triple J resetter (fun _ => I) E ->
  triple I (call_and_try_reconnecting_on_error_impl mysql o resetter error_msg func) G E.
Proof.
  intros Hf Herr Hmsg Hre Hres. unfold call_and_try_reconnecting_on_error_impl.
  assert (forall what : M str, triple I what (fun _ => E) E -> triple I (m ← what; throw_error m) G E) as Hthrow.
  { intros what Hw. eapply session_triple_bind; [exact Hw|]. intros a. by apply triple_throw. }
  eapply session_triple_bind; [exact Hf|]. intros [x|]; [by apply session_triple_ret|].
  eapply session_triple_bind; [apply conn_handle_spec|]. intros h. eapply session_triple_bind; [eapply triple_pre; [apply Herr|by intros s []]|]. intros e.
  destruct (negb _); [by apply Hthrow|]. eapply session_triple_bind; [apply get_connection_spec|]. intros C.
  destruct (Z.eqb_spec (referencing_objects_no_ C) 0) as [H0|]; cbn [negb]; [|eapply triple_pre; [by apply Hthrow|by intros s []]].
  eapply session_triple_bind; [eapply triple_pre; [apply (Hre C)|by intros s []]|]. intros u.
  eapply session_triple_bind; [exact Hres|]. intros u'. eapply session_triple_bind; [exact Hf|]. intros [x|]; [by apply session_triple_ret|by apply Hthrow].
Qed.

(** An object that is not there is not called. *)
Lemma call_absent {T} o (func : M (option T)) Q E : triple (fun s => objects s !! o = None) func (fun _ _ => False) (fun _ => False) ->
  triple (fun s => objects s !! o = None) (call_and_try_reconnecting_on_error mysql o func) Q E.
Proof.
  intros Hf. eapply session_triple_bind; [eapply triple_weaken; [exact Hf|exact (fun s H => H)|exact (fun a s H => H)|done]|]. intros a s [].
Qed.

Lemma conn_handle_absent o Q E : triple (fun s => objects (W := W) s !! o = None) (conn_handle o) Q E.
Proof.
  intros s Hs. unfold conn_handle, get_connection, get_object, mbind, stm_bind, gets, lift. by rewrite Hs.
Qed.

Lemma call_spec {T} o m0 v X (func : M (option T)) G :
  (forall m, frame o m0 m -> triple (exact m v X) func (fun r s => match r with Some x => G x s | None => exact m v X s end) (fun _ => False)) ->
  triple (at_state o m0 v X) (call_and_try_reconnecting_on_error mysql o func) G (at_state o m0 v X).
Proof.
  intros Hf. assert (forall m c, frame o m0 m -> exact m v X c -> at_state o m0 v X c) as Hat by (intros m c ? ?; by exists m).
  apply (call_impl_spec o _ (at_state o m0 v X)).
  - apply session_triple_at. intros m Hm. eapply triple_weaken; [by apply Hf|done| |done]. intros [x|] s Hs; [done|eauto].
  - intros h. apply session_triple_at. intros m Hm. eapply triple_weaken; [by apply at_plain|done|eauto|exact (fun s H => H)].
  - apply session_triple_at. intros m Hm. eapply session_triple_bind; [apply conn_handle_spec|]. intros h.
    eapply triple_weaken; [by apply (at_plain (ErrorText h))|by intros s []|eauto|exact (fun s H => H)].
  - intros C s ((m & Hm & Hs) & Ho & H0). assert (objects s = m) as Em by apply Hs. rewrite Em in Ho.
    pose proof (reconnect_spec m v X o C Ho H0 s Hs) as Hr. destruct (reconnect mysql o s) as [s' [u|e| |]]; try done; [|eauto].
    destruct Hr as (m' & Hm' & Hs'). exists m'. split; [by eapply frame_trans|done].
  - by apply session_triple_ret.
Qed.

(** [e h] has happened in the session [h] of the connection [o]. *)
Definition happened (o : nat) (e : Z -> event) (s : client W) : Prop := exists h, connected o h s /\ since (e h) h (trace s).

Lemma update_spec o sql m0 v X : triple (at_state o m0 v X) (update mysql o sql)
  (fun _ s => at_state o m0 v X s /\ happened o (fun h => Did (RealQuery h sql) true) s) (at_state o m0 v X).
Proof.
  apply call_spec. intros m Hm. unfold real_query. eapply session_triple_bind; [apply conn_handle_spec|]. intros h s [Hs Hc].
  pose proof (at_plain (RealQuery h sql) m v X (fun _ => False) eq_refl s Hs) as Hr. unfold mbind, stm_bind, request in *.
  destruct (mysql _ (RealQuery h sql) (library s)) as [w []]; unfold mret, stm_ret; [|done].
  split; [by exists m|]. exists h. split; [done|]. apply since_now.
Qed.

Lemma store_result_spec o m0 v X : triple (at_state o m0 v X) (call_and_try_reconnecting_on_error mysql o (h ← conn_handle o; request mysql (StoreResult h)))
  (fun res s => at_state o m0 v (X ∪ {[res]}) s /\ res ∉ X /\ happened o (fun h => Did (StoreResult h) (Some res)) s) (at_state o m0 v X).
Proof.
  apply call_spec. intros m Hm. eapply session_triple_bind; [apply conn_handle_spec|]. intros h s [Hs Hc].
  pose proof (request_alloc (StoreResult h) m v X (fun _ => False) ltac:(right; left; by exists h) s Hs) as Hr. unfold request in *.
  destruct (mysql _ (StoreResult h) (library s)) as [w [res|]]; [|done]. destruct Hr as (Hr & HX & _).
  split_and!; [by exists m|done|]. exists h. split; [done|]. apply since_now.
Qed.

(** [mysql_stmt_init] does not fail, so that there is no reason to reconnect. *)
Lemma stmt_init_spec o m v X E : triple (exact m v X) (stmt_init mysql o)
  (fun stmt s => exact m v (X ∪ {[stmt]}) s /\ stmt ∉ X /\ happened o (fun h => Did (StmtInit h) (Some stmt)) s) E.
Proof.
  unfold stmt_init, call_and_try_reconnecting_on_error, call_and_try_reconnecting_on_error_impl.
  eapply session_triple_bind.
  - eapply session_triple_bind; [apply conn_handle_spec|]. intros h s [Hs Hc].
    pose proof (request_alloc (StmtInit h) m v X (fun _ => False) ltac:(right; right; by exists h) s Hs) as Hr. unfold request in *.
    pose proof (lib_stmt_init h (library s)) as Hsome. destruct (mysql _ (StmtInit h) (library s)) as [w [stmt|]]; [|by destruct Hsome].
    instantiate (1 := fun r s => match r with Some stmt => exact m v (X ∪ {[stmt]}) s /\ stmt ∉ X /\
      happened o (fun h => Did (StmtInit h) (Some stmt)) s | None => False end).
    destruct Hr as (Hr & HX & _). split_and!; [done|done|]. exists h. split; [done|]. apply since_now.
  - intros [stmt|]; [|by intros s []]. by apply session_triple_ret.
Qed.

Definition good (s : client W) : Prop := inv ∅ (objects s) (live (library s)) (trace s).

Lemma exact_good m v s : exact m v ∅ s -> good s.
Proof. intros (<- & _ & H). exact H. Qed.

Lemma at_good o m v s : at_state o m v ∅ s -> good s.
Proof. intros (m' & _ & H). by eapply exact_good. Qed.

Lemma triple_good {A} (c : M A) Q E : (forall m v, triple (exact m v ∅) c Q E) -> triple good c Q E.
Proof. intros H s Hs. apply (H (objects s) (stmt_var s)). by split_and!. Qed.

(** A new object for what the connection [o] has given. *)
Section Attach.
Context (o r : nat) (m : gmap nat object) (v : Z) (x : object) (e : Z -> event).
Hypothesis Hr : m !! r = None.
Hypothesis Hro : r <> o.
Hypothesis Hx : ref_of x = Some o.
Hypothesis Hmade : forall h tr, since (e h) h tr -> made_in x h tr.

Lemma attach_good s : at_state o m v (handles x) s -> happened o e s -> exists C, objects s !! o = Some (OConnection C) /\ objects s !! r = None /\
  inv ∅ (<[r := x]> (<[o := OConnection (mkConnection (conn_ C) (increment (referencing_objects_no_ C)))]> (objects s))) (live (library s)) (trace s).
Proof.
  intros (m' & Hf & <- & _ & Hi) (h & (C & HC & Hh) & Hs). exists C. split; [done|].
  assert (objects s !! r = None) as Hr' by (by rewrite (Hf r Hro)). split; [done|].
  replace (∅ : gset Z) with (handles x ∖ handles x) by set_solver.
  eapply inv_give; [exact Hi|intros y; congruence|done|done|done|exact Hh|by apply Hmade].
Qed.

Lemma attach_put_first E : triple (fun s => at_state o m v (handles x) s /\ happened o e s) (_ ← put r x; change_counter increment o) (fun _ => good) E.
Proof.
  intros s [Hs He]. destruct (attach_good s Hs He) as (C & HC & Hr' & Hi). unfold change_counter, get_connection, get_object, put, modify, gets, lift,
    mbind, stm_bind, mret, stm_ret, get_or_ub. cbn [objects]. rewrite lookup_insert_ne by done. rewrite HC. unfold good. cbn [objects library trace].
  by rewrite insert_insert_ne.
Qed.

Lemma attach_count_first E : triple (fun s => at_state o m v (handles x) s /\ happened o e s) (_ ← change_counter increment o; put r x) (fun _ => good) E.
Proof.
  intros s [Hs He]. destruct (attach_good s Hs He) as (C & HC & Hr' & Hi). unfold change_counter, get_connection, get_object, put, modify, gets, lift,
    mbind, stm_bind, mret, stm_ret, get_or_ub. cbn [objects]. by rewrite HC.
Qed.

End Attach.

Lemma real_query_absent o sql : triple (fun s => objects s !! o = None) (real_query mysql o sql) (fun _ _ => False) (fun _ => False).
Proof. eapply session_triple_bind; [apply conn_handle_absent with (Q := fun _ _ => False)|]. intros h s []. Qed.

Lemma query_good o r sql : triple good (query mysql o r sql) (fun _ => good) good.
Proof.
  apply triple_good. intros m v. unfold query. eapply session_triple_bind; [apply new_place_spec|]. intros _u.
  destruct (decide (r = o)) as [->|Hne].
  { eapply session_triple_bind; [eapply triple_pre; [apply (call_absent o _ (fun _ _ => False)), real_query_absent|by intros s []]|]. intros a s []. }
  apply (triple_know (m !! r = None)); [by intros s [(<- & _) ?]|]. intros Hr.
  eapply session_triple_bind; [eapply triple_weaken; [apply (update_spec o sql m v ∅)| |exact (fun a s H => H)|by apply at_good]|].
  { intros s [Hs _]. by apply exact_at. }
  intros u. eapply session_triple_bind; [eapply triple_weaken; [apply (store_result_spec o m v ∅)|by intros s []|exact (fun a s H => H)|by apply at_good]|].
  intros res. eapply triple_pre; [apply (attach_put_first o r m v (OResult (mkResult (Some o) (Some res) None)) (fun h => Did (StoreResult h) (Some res)) Hr Hne eq_refl)|].
  - intros h tr Hs. by exists res.
  - intros s (Hs & _ & Hh). split; [|done]. by rewrite (left_id_L ∅ (∪)) in Hs.
Qed.

Lemma update_good o sql : triple good (update mysql o sql) (fun _ => good) good.
Proof.
  apply triple_good. intros m v. eapply triple_weaken; [apply (update_spec o sql m v ∅)|intros s; by apply exact_at| |by apply at_good].
  intros a s [Hs _]. by eapply at_good.
Qed.

Lemma start_transaction_good o t : triple good (start_transaction mysql o t) (fun _ => good) good.
Proof.
  apply triple_good. intros m v. unfold start_transaction. eapply session_triple_bind; [apply new_place_spec|]. intros _u.
  destruct (decide (t = o)) as [->|Hne].
  { eapply session_triple_bind; [eapply triple_pre; [apply (call_absent o _ (fun _ _ => False)), real_query_absent|by intros s []]|]. intros a s []. }
  apply (triple_know (m !! t = None)); [by intros s [(<- & _) ?]|]. intros Ht.
  eapply session_triple_bind; [eapply triple_weaken; [apply (update_spec o START_TRANSACTION m v ∅)| |exact (fun a s H => H)|by apply at_good]|].
  { intros s [Hs _]. by apply exact_at. }
  intros u. eapply triple_pre; [apply (attach_count_first o t m v (OTransaction (mkTransaction (Some o) None)) (fun h => Did (RealQuery h START_TRANSACTION) true) Ht Hne eq_refl)|exact (fun s H => H)].
  done.
Qed.

(** ** Preparing a statement *)

(** The variable [stmt] holds a statement; [bound]: made in the session the
    connection has now. *)
Definition holding (o : nat) (m : gmap nat object) (s : client W) : Prop := exists v, at_state o m v {[v]} s.
Definition bound (o : nat) (s : client W) : Prop := happened o (fun h => Did (StmtInit h) (Some (stmt_var s))) s.

Lemma holding_plain {A} (c : mysys A) o m E : plain c = true -> triple (holding o m) (request mysql c) (fun _ => holding o m) E.
Proof.
  intros Hc. apply triple_exists. intros v. apply session_triple_at. intros m' Hm. eapply triple_weaken; [by apply (at_plain c m' v)|done| |exact (fun s H => H)].
  intros a s Hs. by exists v, m'.
Qed.

Lemma happened_more {A} (c : mysys A) a o (e : Z -> event) s w : plain c = true -> happened o e s ->
  happened o e (mkClient (objects s) (stmt_var s) w (trace s ++ [Did c a])).
Proof. intros Hc (h & Hh & Hs). exists h. split; [done|]. apply since_more; [done|by apply plain_closes]. Qed.

Lemma bound_plain {A} (c : mysys A) o m E : plain c = true ->
  triple (fun s => holding o m s /\ bound o s) (request mysql c) (fun _ s => holding o m s /\ bound o s) E.
Proof.
  intros Hc s [Hs Hb]. pose proof (holding_plain c o m E Hc s Hs) as Hp. unfold request in *. destruct (mysql A c (library s)) as [w a].
  split; [exact Hp|]. by apply happened_more.
Qed.

Lemma close_stmt_var_spec o m E : triple (holding o m) (close_stmt_var mysql) (fun _ s => exists v, at_state o m v ∅ s) E.
Proof.
  apply triple_exists. intros v. apply session_triple_at. intros m' Hm. intros s Hs. unfold close_stmt_var, gets, mbind, stm_bind.
  assert (stmt_var s = v) as -> by apply Hs.
  pose proof (request_free (StmtClose v) m' v {[v]} v (fun _ => False) (stmt_closing v) ltac:(set_solver) s Hs) as Hr.
  destruct (request mysql (StmtClose v) s) as [s' [u|e| |]]; try done. exists v, m'. split; [done|].
  by replace ({[v]} ∖ {[v]} : gset Z) with (∅ : gset Z) in Hr by set_solver.
Qed.

(** A new statement in the variable. *)
Definition made_stmt (o : nat) (m : gmap nat object) (stmt : Z) (s : client W) : Prop :=
  (exists v, at_state o m v {[stmt]} s) /\ happened o (fun h => Did (StmtInit h) (Some stmt)) s.

Lemma stmt_init_made o m E : triple (fun s => exists v, at_state o m v ∅ s) (stmt_init mysql o) (made_stmt o m) E.
Proof.
  apply triple_exists. intros v. apply session_triple_at. intros m' Hm. eapply triple_weaken; [apply stmt_init_spec|done| |exact (fun s H => H)].
  intros stmt s (Hs & _ & Hh). split; [|done]. exists v, m'. split; [done|]. by rewrite (left_id_L ∅ (∪)) in Hs.
Qed.

Lemma set_stmt_spec o m stmt E : triple (made_stmt o m stmt) (set_stmt stmt) (fun _ s => holding o m s /\ bound o s) E.
Proof.
  intros s [(v & m' & Hm & Ho & Hv & Hi) Hh]. unfold set_stmt, modify. split; [|exact Hh]. exists stmt, m'. split; [done|]. by split_and!.
Qed.

Lemma prepare_call_spec o m sql : triple (fun s => holding o m s /\ bound o s)
  (call_and_try_reconnecting_on_error_impl mysql o (_ ← close_stmt_var mysql; stmt ← stmt_init mysql o; set_stmt stmt)
     (stmt ← gets stmt_var; request mysql (StmtErrorText stmt))
     (stmt ← gets stmt_var; ok ← request mysql (StmtPrepare stmt sql); mret (if (ok : bool) then Some tt else None)))
  (fun _ s => holding o m s /\ bound o s) (holding o m).
Proof.
  assert (forall P (f : Z -> M str) Q E, (forall stmt, triple P (f stmt) Q E) -> triple P (stmt ← gets stmt_var; f stmt) Q E) as Hgets.
  { intros P f Q E Hf s Hs. by apply Hf. }
  apply (call_impl_spec o _ (holding o m)).
  - intros s Hs. unfold gets, mbind, stm_bind. pose proof (bound_plain (StmtPrepare (stmt_var s) sql) o m (fun _ => False) eq_refl s Hs) as Hp.
    destruct (request mysql (StmtPrepare (stmt_var s) sql) s) as [s' [[]|e| |]]; done.
  - intros h. by apply bound_plain.
  - apply Hgets. intros stmt. eapply triple_weaken; [by apply (holding_plain (StmtErrorText stmt))|by intros s []|done|exact (fun s H => H)].
  - intros C s (((v & m' & Hm & Hs) & _) & Ho & H0). assert (objects s = m') as Em by apply Hs. rewrite Em in Ho.
    pose proof (reconnect_spec m' v {[v]} o C Ho H0 s Hs) as Hr. destruct (reconnect mysql o s) as [s' [u|e| |]]; try done; [|by exists v, m'].
    destruct Hr as (m2 & Hm2 & Hs2). exists v, m2. split; [by eapply frame_trans|done].
  - eapply session_triple_bind; [apply close_stmt_var_spec|]. intros u. eapply session_triple_bind; [apply stmt_init_made|]. intros stmt. apply set_stmt_spec.
Qed.

Lemma stmt_init_absent o Q E : triple (fun s => objects s !! o = None) (stmt_init mysql o) Q E.
Proof. apply call_absent. eapply session_triple_bind; [apply conn_handle_absent with (Q := fun _ _ => False)|]. intros h s []. Qed.

Lemma prepare_good o p sql : triple good (prepare mysql o p sql) (fun _ => good) good.
Proof.
  apply triple_good. intros m v. unfold prepare. eapply session_triple_bind; [apply new_place_spec|]. intros _u.
  destruct (decide (p = o)) as [->|Hne].
  { eapply session_triple_bind; [eapply triple_pre; [apply (stmt_init_absent o (fun _ _ => False))|by intros s []]|]. intros a s []. }
  apply (triple_know (m !! p = None)); [by intros s [(<- & _) ?]|]. intros Hp.
  eapply session_triple_bind; [eapply triple_pre; [apply (stmt_init_made o m)|intros s [Hs _]; exists v; by apply exact_at]|]. intros stmt.
  eapply session_triple_bind; [apply set_stmt_spec|]. intros u. eapply session_triple_bind; [eapply on_throw_spec; [apply prepare_call_spec|]|].
  { eapply triple_weaken; [apply (close_stmt_var_spec o m (fun _ => False))|exact (fun s H => H)| |done]. intros a s [v' Hv']. by eapply at_good. }
  intros u' s [(v2 & Hs2) Hb]. assert (v2 = stmt_var s) as -> by (destruct Hs2 as (m2 & _ & _ & H & _); done).
  exact (attach_put_first o p m _ (OStatement (mkStatement (Some o) (Some (stmt_var s)))) (fun h => Did (StmtInit h) (Some (stmt_var s))) Hp Hne eq_refl
    (fun h tr Hs => ex_intro _ (stmt_var s) (conj eq_refl Hs)) good s (conj Hs2 Hb)).
Qed.

(** ** Letting go *)

(** [o] may be overwritten by anything that holds nothing. *)
Definition released (o : nat) (s : client W) : Prop :=
  forall x', vacant x' -> inv ∅ (<[o := x']> (objects s)) (live (library s)) (trace s).

(** A handle is freed and a counter decremented, in the order of the
    destructors. *)
Lemma release_spec (fr : Z -> mysys unit) o x E : (forall h, frees (fr h) h) -> (forall C, x <> OConnection C) ->
  triple (fun s => good s /\ objects s !! o = Some x)
    (_ ← unless_null (handle_of x) (fun h => request mysql (fr h)); unless_null (ref_of x) (change_counter decrement))
    (fun _ s => released o s /\ objects s !! o = Some x) E.
Proof.
  intros Hfr HxC s [Hs Ho]. destruct (ref_of x) as [c|] eqn:Hr.
  2: { assert (handle_of x = None) as Hh.
       { destruct (handle_of x) as [h|] eqn:Hh; [|done]. destruct (inv_paired _ _ _ _ Hs o x h Ho Hh Hr) as [C ->]. by destruct (HxC C). }
       rewrite Hh. split; [|done]. intros x' Hx'. apply inv_vacant; [done| |done]. intros y Hy. assert (y = x) as -> by congruence. by split_and!. }
  assert (forall w tr, inv ∅ (objects s) (live (library s)) (trace s) -> (forall x', vacant x' -> exists C, objects s !! c = Some (OConnection C) /\ o <> c /\
      inv ∅ (<[o := x']> (<[c := OConnection (mkConnection (conn_ C) (decrement (referencing_objects_no_ C)))]> (objects s))) (live w) tr) ->
    match unless_null (Some c) (change_counter decrement) (mkClient (objects s) (stmt_var s) w tr) with
    | (s', Ok _) => released o s' /\ objects s' !! o = Some x | _ => True end) as Hcount.
  { intros w tr _ Ht. unfold unless_null, change_counter, get_connection, get_object, put, modify, gets, lift, mbind, stm_bind, mret, stm_ret, get_or_ub.
    cbn [objects]. destruct (Ht (OTransaction (mkTransaction None None))) as (C & HC & Hoc & _); [done|]. rewrite HC. cbn [objects library trace stmt_var].
    split; [|by rewrite lookup_insert_ne]. intros x' Hx'. destruct (Ht x' Hx') as (C' & HC' & _ & Hi). assert (C' = C) as -> by congruence. exact Hi. }
  destruct (handle_of x) as [h|] eqn:Hh; cbn [unless_null].
  - unfold mbind, stm_bind, request. destruct (held_count _ _ _ _ Hs o x h Ho Hh) as (_ & Hlv & _).
    pose proof (lib_free (fr h) (library s) h (Hfr h) Hlv) as Hl. destruct (mysql _ (fr h) (library s)) as [w u]. cbn [fst] in Hl.
    specialize (Hcount w (trace s ++ [Did (fr h) u]) Hs). cbn [unless_null] in Hcount.
    destruct (change_counter decrement c _) as [s' [a|e| |]] eqn:Hcc; try done; [apply Hcount| ].
    + intros x' Hx'. destruct (inv_take _ _ _ _ _ _ _ _ Hs Ho Hr Hx') as (C & HC & Hoc & Hi). exists C. split_and!; [done|done|]. rewrite Hl.
      replace (∅ : gset Z) with ((∅ ∪ handles x) ∖ {[h]}) by (unfold handles; rewrite Hh; set_solver).
      apply inv_free; [done| |unfold handles; rewrite Hh; set_solver]. intros h' Hcl. eapply free_closes; [apply Hfr|exact Hcl].
    + unfold change_counter, get_connection, get_object, put, modify, gets, lift, mbind, stm_bind, mret, stm_ret, get_or_ub in Hcc.
      repeat case_match; simplify_eq.
  - specialize (Hcount (library s) (trace s) Hs). cbn [unless_null] in Hcount. replace (mkClient (objects s) (stmt_var s) (library s) (trace s)) with s in Hcount by by destruct s.
    unfold mbind, stm_bind, mret, stm_ret. destruct (change_counter decrement c s) as [s' [a|e| |]] eqn:Hcc; try done; [apply Hcount|].
    + intros x' Hx'. destruct (inv_take _ _ _ _ _ _ _ _ Hs Ho Hr Hx') as (C & HC & Hoc & Hi). exists C. split_and!; [done|done|].
      by replace (∅ : gset Z) with (∅ ∪ handles x) by (unfold handles; rewrite Hh; set_solver).
    + unfold change_counter, get_connection, get_object, put, modify, gets, lift, mbind, stm_bind, mret, stm_ret, get_or_ub in Hcc.
      repeat case_match; simplify_eq.
Qed.

Lemma remove_released o x E : triple (fun s => released o s /\ objects s !! o = Some x) (remove o) (fun _ => good) E.
Proof.
  intros s [Hr Ho]. unfold remove, modify, good. cbn [objects library trace].
  rewrite <- (delete_insert_eq (objects s) o (OTransaction (mkTransaction None None))).
  eapply inv_gone; [apply Hr; done|apply lookup_insert_eq|done].
Qed.

Lemma destroy_result_good o : triple good (destroy_result mysql o) (fun _ => good) good.
Proof.
  eapply session_triple_bind; [apply get_result_spec|]. intros x. eapply session_triple_bind; [by apply (release_spec FreeResult o (OResult x) _ freeing)|].
  intros u. apply remove_released.
Qed.

Lemma destroy_statement_good o : triple good (destroy_statement mysql o) (fun _ => good) good.
Proof.
  eapply session_triple_bind; [apply get_statement_spec|]. intros x. eapply session_triple_bind; [by apply (release_spec StmtClose o (OStatement x) _ stmt_closing)|].
  intros u. apply remove_released.
Qed.

(** What [from] holds passes to [o], which holds nothing (any more). *)
Lemma pass_good o from x x' E : o <> from -> (forall C, x <> OConnection C) -> vacant x' ->
  triple (fun s => released o s /\ objects s !! from = Some x) (_ ← put from x'; put o x) (fun _ => good) E.
Proof.
  intros Hne HxC Hx' s [Hr Hf]. unfold put, modify, mbind, stm_bind, good. cbn [objects library trace].
  pose proof (Hr (OTransaction (mkTransaction None None)) ltac:(done)) as Hi.
  eapply (inv_pass _ _ _ _ o from x x x') in Hi; try done.
  - by rewrite (insert_insert_ne _ from o), insert_insert_eq in Hi by done.
  - intros z. rewrite lookup_insert_eq. by intros [= <-].
  - by rewrite lookup_insert_ne.
Qed.

Lemma good_absent_released o s : good s -> objects s !! o = None -> released o s.
Proof. intros Hs Ho x' Hx'. apply inv_vacant; [done|intros y; congruence|done]. Qed.

Lemma no_result_vacant x : vacant (OResult (no_result x)).
Proof. done. Qed.

Lemma moved_good {A} o from (get : M A) (wrap : A -> object) (empty : A -> object) E :
  (forall P E, triple P get (fun x s => P s /\ objects s !! from = Some (wrap x)) E) ->
  (forall x C, wrap x <> OConnection C) -> (forall x, vacant (empty x)) ->
  triple good (_ ← new_place o; x ← get; _ ← put from (empty x); put o (wrap x)) (fun _ => good) E.
Proof.
  intros Hget HC He. eapply session_triple_bind; [apply new_place_spec|]. intros u. eapply session_triple_bind; [apply Hget|]. intros x s [[Hs Ho] Hf].
  apply (pass_good o from (wrap x) (empty x) E); [intros ->; congruence|apply HC|apply He|]. split; [by apply good_absent_released|done].
Qed.

Lemma move_result_good o from : triple good (move_result o from) (fun _ => good) good.
Proof. apply (moved_good o from (get_result from) OResult (fun x => OResult (no_result x))); [intros; apply get_result_spec|done|done]. Qed.

Lemma move_statement_good o from : triple good (move_statement o from) (fun _ => good) good.
Proof. apply (moved_good o from (get_statement from) OStatement (fun _ => OStatement (mkStatement None None))); [intros; apply get_statement_spec|done|done]. Qed.

Lemma assign_result_good o from : o <> from -> triple good (assign_result mysql o from) (fun _ => good) good.
Proof.
  intros Hne. eapply session_triple_bind; [apply get_result_spec|]. intros this. eapply session_triple_bind; [by apply (release_spec FreeResult o (OResult this) _ freeing)|].
  intros u. eapply session_triple_bind; [apply get_result_spec|]. intros x. eapply triple_pre; [by apply (pass_good o from (OResult x) (OResult (no_result x)))|].
  by intros s [[Hr _] Hf].
Qed.

Lemma assign_statement_good o from : o <> from -> triple good (assign_statement mysql o from) (fun _ => good) good.
Proof.
  intros Hne. eapply session_triple_bind; [apply get_statement_spec|]. intros this.
  eapply session_triple_bind; [by apply (release_spec StmtClose o (OStatement this) _ stmt_closing)|]. intros u. eapply session_triple_bind; [apply get_statement_spec|]. intros x.
  eapply triple_pre; [by apply (pass_good o from (OStatement x) (OStatement (mkStatement None None)))|]. by intros s [[Hr _] Hf].
Qed.

(** ** Transactions *)

Lemma good_plain {A} (c : mysys A) E : plain c = true -> triple good (request mysql c) (fun _ => good) E.
Proof.
  intros Hc. apply triple_good. intros m v. eapply triple_weaken; [by apply (at_plain c m v ∅)|done| |exact (fun s H => H)].
  intros a s Hs. exact (exact_good _ _ _ Hs).
Qed.

(** A request that changes no object. *)
Lemma keeps_plain {A} (c : mysys A) o x E : plain c = true ->
  triple (fun s => good s /\ objects s !! o = Some x) (request mysql c) (fun _ s => good s /\ objects s !! o = Some x) E.
Proof.
  intros Hc s [Hs Ho]. pose proof (good_plain c E Hc s Hs) as Hp. unfold request in *. by destruct (mysql A c (library s)) as [w a].
Qed.

(** The end of a transaction: the counter, then the object. *)
Lemma detach_good t x x' c E : t_conn x = Some c -> vacant x' ->
  triple (fun s => good s /\ objects s !! t = Some (OTransaction x)) (_ ← change_counter decrement c; put t x')
    (fun _ s => good s /\ objects s !! t = Some x') E.
Proof.
  intros Hx Hx'. destruct x as [tc action]. cbn in Hx. subst tc. eapply session_triple_bind.
  - exact (release_spec FreeResult t (OTransaction (mkTransaction (Some c) action)) E freeing (fun C H => ltac:(discriminate H))).
  - intros u. apply put_spec. intros s [Hr _]. unfold good. cbn [objects library trace]. split; [by apply Hr|apply lookup_insert_eq].
Qed.

(** The same with what comes after it. *)
Lemma end_transaction t c action (k : M unit) Q E :
  triple (fun s => good s /\ objects s !! t = Some (OTransaction (mkTransaction None action))) k Q E ->
  triple (fun s => good s /\ objects s !! t = Some (OTransaction (mkTransaction (Some c) action)))
    (_ ← change_counter decrement c; _ ← put t (OTransaction (mkTransaction None action)); k) Q E.
Proof.
  intros Hk s Hs. pose proof (detach_good t (mkTransaction (Some c) action) (OTransaction (mkTransaction None action)) c E eq_refl ltac:(done) s Hs) as Hd.
  unfold mbind, stm_bind in *. destruct (change_counter decrement c s) as [s' [a|e| |]]; try done. by apply Hk.
Qed.

Lemma call_action_good action x t : triple (fun s => good s /\ objects s !! t = Some x) (call_action mysql action)
  (fun _ s => good s /\ objects s !! t = Some x) (fun s => good s /\ objects s !! t = Some x).
Proof.
  intros s Hs. unfold call_action. pose proof (keeps_plain (CallAction action) t x (fun _ => False) eq_refl s Hs) as Hp.
  destruct (request mysql (CallAction action) s) as [s' [[e|]|e| |]]; done.
Qed.

(** After a rollback that returns the transaction refers to nothing. *)
Lemma rollback_spec t x : triple (fun s => good s /\ objects s !! t = Some (OTransaction x)) (rollback mysql t)
  (fun _ s => good s /\ objects s !! t = Some (OTransaction (mkTransaction None (rollback_action_ x))))
  (fun s => good s /\ exists x', objects s !! t = Some (OTransaction x')).
Proof.
  unfold rollback. eapply session_triple_bind; [apply get_transaction_spec|]. intros x'.
  apply (triple_know (x' = x)); [intros s [[_ H] H']; congruence|]. intros ->. destruct x as [[c|] action]; cbn [t_conn unless_null rollback_action_].
  2: { apply session_triple_ret. by intros s [[? ?] _]. }
  eapply session_triple_bind; [apply conn_handle_spec|]. intros h. eapply session_triple_bind.
  { eapply triple_pre; [by apply (keeps_plain (RollbackConn h) t (OTransaction (mkTransaction (Some c) action)))|]. by intros s [[[Hs Ho] _] _]. }
  intros []; cbn [negb].
  - apply end_transaction. destruct action as [action|]; cbn [unless_null]; [|by apply session_triple_ret].
    eapply triple_weaken; [apply call_action_good|exact (fun s H => H)|exact (fun a s H => H)|]. intros s [Hs Ho]. eauto.
  - eapply session_triple_bind; [by apply keeps_plain|]. intros text. apply triple_throw. intros s [Hs Ho]. eauto.
Qed.

Lemma rollback_good t : triple good (rollback mysql t) (fun _ => good) good.
Proof.
  intros s Hs. destruct (objects s !! t) as [[C|r|st|tx]|] eqn:Ht;
    try (unfold rollback, get_transaction, get_object, gets, lift, mbind, stm_bind, get_or_ub; by rewrite Ht).
  pose proof (rollback_spec t tx s (conj Hs Ht)) as Hr. destruct (rollback mysql t s) as [s1 [u|e| |]]; try done; apply Hr.
Qed.

Lemma commit_good t : triple good (commit mysql t) (fun _ => good) good.
Proof.
  unfold commit. eapply session_triple_bind; [apply get_transaction_spec|]. intros [[c|] action]; cbn [t_conn rollback_action_]; [|apply triple_ub].
  eapply session_triple_bind; [apply (session_triple_ret _ c (fun c' s => (good s /\ objects s !! t = Some (OTransaction (mkTransaction (Some c) action))) /\ c' = c)); done|].
  intros c'. apply session_triple_pure. intros ->. eapply session_triple_bind; [apply conn_handle_spec|]. intros h. eapply session_triple_bind.
  { eapply triple_pre; [by apply (keeps_plain (CommitConn h) t (OTransaction (mkTransaction (Some c) action)))|]. by intros s [Hs _]. }
  intros []; cbn [negb].
  - eapply triple_weaken; [by apply (detach_good t (mkTransaction (Some c) action))|exact (fun s H => H)|by intros a s []|exact (fun s H => H)].
  - eapply session_triple_bind; [by apply keeps_plain|]. intros text. apply triple_throw. by intros s [].
Qed.

Lemma destroy_transaction_good t : triple good (destroy_transaction mysql t) (fun _ => good) good.
Proof.
  intros s Hs. unfold destroy_transaction, catching. unfold mbind at 1, stm_bind at 1. pose proof (rollback_good t s Hs) as Hr.
  assert (triple good (x ← get_transaction t; _ ← unless_null (t_conn x) (change_counter decrement); remove t) (fun _ => good) good) as Hrest.
  { eapply session_triple_bind; [apply get_transaction_spec|]. intros x. eapply session_triple_bind; [|intros u; apply remove_released].
    exact (release_spec FreeResult t (OTransaction x) good freeing (fun C H => ltac:(discriminate H))). }
  destruct (rollback mysql t s) as [s' [u|e| |]]; try done; by apply Hrest.
Qed.

Lemma move_transaction_good t from : triple good (move_transaction t from) (fun _ => good) good.
Proof.
  eapply session_triple_bind; [apply new_place_spec|]. intros u. eapply session_triple_bind; [apply get_transaction_spec|]. intros x s [[Hs Ho] Hf].
  unfold put, modify, mbind, stm_bind, good. cbn [objects library trace].
  eapply (inv_pass _ _ _ _ t from (OTransaction x)); try done; [intros y; congruence|intros ->; congruence].
Qed.

Lemma assign_transaction_good t from : triple good (assign_transaction mysql t from) (fun _ => good) good.
Proof.
  unfold assign_transaction. intros s Hs. unfold mbind at 1, stm_bind at 1, noexcept.
  destruct (objects s !! t) as [[C|r|st|tx]|] eqn:Ht;
    try (unfold rollback, get_transaction, get_object, gets, lift, mbind, stm_bind, get_or_ub; by rewrite Ht).
  pose proof (rollback_spec t tx s (conj Hs Ht)) as Hr. destruct (rollback mysql t s) as [s1 [u|e| |]]; try done.
  revert s1 Hr. apply (session_triple_bind _ _ _ _ (fun _ => good) good (get_transaction_spec _ from good)). intros x s1 [[H1 Ht1] Hf].
  unfold put, modify, get_transaction, get_object, gets, lift, mbind, stm_bind, get_or_ub. cbn [objects library trace stmt_var].
  destruct (decide (from = t)) as [->|Hne].
  - assert (x = mkTransaction None (rollback_action_ tx)) as -> by congruence. rewrite lookup_insert_eq. unfold mret, stm_ret, good. cbn [objects library trace].
    rewrite insert_insert_eq. apply inv_vacant; [done| |done]. intros y Hy. assert (y = OTransaction (mkTransaction None (rollback_action_ tx))) as -> by congruence. done.
  - rewrite lookup_insert_ne, Ht1 by done. unfold mret, stm_ret, good. cbn [objects library trace rollback_action_].
    eapply (inv_pass _ _ _ _ t from (OTransaction x)); try done.
    intros y Hy. assert (y = OTransaction (mkTransaction None (rollback_action_ tx))) as -> by congruence. done.
Qed.

(** ** Connections *)

Lemma new_connection_good o : triple good (new_connection mysql o) (fun _ => good) good.
Proof.
  apply triple_good. intros m v. unfold new_connection. eapply session_triple_bind; [apply new_place_spec|]. intros u.
  apply (triple_know (m !! o = None)); [by intros s [(<- & _) ?]|]. intros Ho.
  eapply session_triple_bind; [eapply triple_weaken; [apply (init_connection_spec m v ∅)|by intros s []|exact (fun a s H => H)|exact (exact_good m v)]|].
  intros h. apply put_spec. intros s [(<- & _ & Hi) _]. unfold good. cbn [objects library trace].
  replace (∅ : gset Z) with ((∅ ∪ {[h]} : gset Z) ∖ {[h]}) by set_solver. eapply inv_new_connection; [exact Hi|done|set_solver].
Qed.

Lemma connect_good o l : triple good (connect mysql o l) (fun _ => good) good.
Proof.
  apply triple_good. intros m v. eapply session_triple_bind; [apply conn_handle_spec|]. intros h.
  eapply triple_weaken; [apply (connect_handle_spec h l m v ∅)|by intros s []|intros a s H; exact (exact_good _ _ _ H)|exact (exact_good m v)].
Qed.

(** Nothing refers to [o]. *)
Definition alone (o : nat) (m : gmap nat object) : Prop := referring o m = 0%nat.

Lemma close_good o : triple (fun s => good s /\ alone o (objects s)) (close mysql o) (fun _ => good) good.
Proof.
  intros s [Hs H0]. destruct (objects s !! o) as [[C|r|st|tx]|] eqn:Ho;
    try (unfold close, get_connection, get_object, gets, lift, mbind, stm_bind, get_or_ub; by rewrite Ho).
  pose proof (close_spec (objects s) (stmt_var s) ∅ o C Ho H0 s ltac:(by split_and!)) as Hc. destruct (close mysql o s) as [s' [u|e| |]]; try done.
  by eapply exact_good.
Qed.

Lemma destroy_connection_good o : triple (fun s => good s /\ alone o (objects s)) (destroy_connection mysql o) (fun _ => good) good.
Proof.
  intros s [Hs H0]. unfold destroy_connection. destruct (objects s !! o) as [[C|r|st|tx]|] eqn:Ho;
    try (unfold get_connection, get_object, gets, lift, mbind, stm_bind, get_or_ub; by rewrite Ho).
  unfold get_connection, get_object, gets, lift, mbind, stm_bind, get_or_ub, mret, stm_ret. rewrite Ho.
  destruct (conn_ C) as [h|] eqn:Hh; cbn [unless_null]; unfold request, remove, modify, good; cbn [objects library trace].
  - pose proof (inv_drop_connection _ _ _ _ _ _ _ Hs Ho Hh H0) as Hd. destruct (held_count _ _ _ _ Hs o _ h Ho Hh) as (_ & Hlv & _).
    pose proof (lib_free (CloseConn h) (library s) h (closing h) Hlv) as Hl. destruct (mysql _ (CloseConn h) (library s)) as [w u].
    cbn [fst objects library trace] in *. rewrite Hl. rewrite <- (delete_insert_eq (objects s) o (OConnection (mkConnection None (referencing_objects_no_ C)))).
    eapply inv_connection_gone; [|apply lookup_insert_eq|done].
    replace (∅ : gset Z) with ((∅ ∪ {[h]} : gset Z) ∖ {[h]}) by set_solver. apply inv_free; [done| |set_solver]. intros h' Hcl. by cbn in Hcl.
  - by eapply inv_connection_gone.
Qed.

Lemma alone_counter s o C : good s -> objects s !! o = Some (OConnection C) -> alone o (objects s) -> referencing_objects_no_ C = 0.
Proof. intros Hs Ho H0. rewrite (inv_counter _ _ _ _ Hs o C Ho). unfold alone in H0. lia. Qed.

Lemma move_connection_good o from : triple (fun s => good s /\ alone from (objects s)) (move_connection o from) (fun _ => good) good.
Proof.
  eapply session_triple_bind; [apply new_place_spec|]. intros u. eapply session_triple_bind; [apply get_connection_spec|]. intros C s [[[Hs H0] Ho] Hf].
  assert (o <> from) as Hne by congruence. pose proof (alone_counter s from C Hs Hf H0) as Hn.
  unfold put, modify, mbind, stm_bind, good. cbn [objects library trace]. destruct C as [[h|] n]; cbn [conn_ referencing_objects_no_] in *; subst n.
  - pose proof (inv_drop_connection _ _ _ _ _ _ h Hs Hf eq_refl H0) as Hd. cbn [referencing_objects_no_] in Hd.
    replace (∅ : gset Z) with ((∅ ∪ {[h]} : gset Z) ∖ {[h]}) by set_solver. eapply inv_new_connection; [exact Hd| |set_solver].
    by rewrite lookup_insert_ne.
  - apply inv_empty_connection; [|by rewrite lookup_insert_ne]. rewrite fin_maps.insert_id; done.
Qed.

Lemma assign_connection_good o from : triple (fun s => good s /\ alone o (objects s) /\ alone from (objects s)) (assign_connection mysql o from) (fun _ => good) good.
Proof.
  intros s (Hs & H0 & Hf0). unfold assign_connection. unfold mbind at 1, stm_bind at 1.
  destruct (objects s !! o) as [[C|r|st|tx]|] eqn:Ho;
    try (unfold close, get_connection, get_object, gets, lift, mbind, stm_bind, get_or_ub; by rewrite Ho).
  pose proof (close_spec (objects s) (stmt_var s) ∅ o C Ho H0 s ltac:(by split_and!)) as Hc. destruct (close mysql o s) as [s1 [u|e| |]]; try done.
  pose proof (alone_counter s o C Hs Ho H0) as Hn. rewrite Hn in Hc. destruct Hc as (Em & _ & Hi).
  assert (alone from (objects s1)) as Hf1.
  { unfold alone, referring. rewrite Em, count_insert. change (ref_is from (OConnection (mkConnection None 0))) with (ref_is from (OConnection C)).
    by rewrite <- (count_lookup _ o _ _ Ho). }
  assert (good s1) as Hs1 by (unfold good; by rewrite Em). assert (objects s1 !! o = Some (OConnection (mkConnection None 0))) as Ho1 by (rewrite Em; apply lookup_insert_eq).
  destruct (objects s1 !! from) as [[D|r|st|tx]|] eqn:Hf; unfold get_connection, get_object, gets, lift, mbind, stm_bind, get_or_ub; rewrite Hf; try done.
  unfold mret, stm_ret, put, modify, good. cbn [objects library trace]. pose proof (alone_counter s1 from D Hs1 Hf Hf1) as Hd.
  destruct D as [[h|] n]; cbn [conn_ referencing_objects_no_] in *; subst n.
  - assert (o <> from) as Hne by congruence. pose proof (inv_drop_connection _ _ _ _ _ _ h Hs1 Hf eq_refl Hf1) as Hd. cbn [referencing_objects_no_] in Hd.
    replace (∅ : gset Z) with ((∅ ∪ {[h]} : gset Z) ∖ {[h]}) by set_solver.
    eapply inv_fill_connection; [exact Hd|rewrite lookup_insert_ne by done; exact Ho1|done|set_solver|by right].
  - rewrite (fin_maps.insert_id _ from) by done. by rewrite (fin_maps.insert_id _ o) by done.
Qed.

(** ** The rest *)

Lemma column_good o idx E : triple good (column o idx) (fun _ => good) E.
Proof.
  eapply session_triple_bind; [apply get_result_spec|]. intros x. destruct (row_ x) as [r|]; [|apply triple_ub].
  eapply session_triple_bind; [apply (session_triple_ret _ r (fun _ => good)); by intros s []|]. intros r'. intros s Hs. unfold lift, get_or_ub. by destruct (r' !! idx).
Qed.

Lemma get_column_good o idx : triple good (get_column o idx) (fun _ => good) good.
Proof. eapply session_triple_bind; [apply column_good|]. intros [v|]; [by apply session_triple_ret|by apply triple_throw]. Qed.

Lemma result_request_good {A} (c : Z -> mysys A) o : (forall res, plain (c res) = true) ->
  triple good (x ← get_result o; res ← handle (res_ x); request mysql (c res)) (fun _ => good) good.
Proof.
  intros Hc. eapply session_triple_bind; [apply get_result_spec|]. intros x. eapply session_triple_bind; [apply handle_spec|]. intros res.
  eapply triple_pre; [apply good_plain, Hc|by intros s [[? _] _]].
Qed.

Lemma next_good o : triple good (next mysql o) (fun _ => good) good.
Proof.
  unfold next. eapply session_triple_bind; [apply get_result_spec|]. intros x. eapply session_triple_bind; [apply handle_spec|]. intros res.
  eapply session_triple_bind; [eapply triple_pre; [by apply (keeps_plain (FetchRow res) o (OResult x))|by intros s []]|]. intros r.
  eapply session_triple_bind; [apply put_spec with (Q := fun _ => good)|intros u; by apply session_triple_ret]. intros s [Hs Ho]. unfold good. cbn [objects library trace].
  by eapply inv_alter.
Qed.

Lemma set_rollback_action_good t action : triple good (set_rollback_action t action) (fun _ => good) good.
Proof.
  eapply session_triple_bind; [apply get_transaction_spec|]. intros x. apply put_spec. intros s [Hs Ho]. unfold good. cbn [objects library trace].
  by eapply inv_alter.
Qed.

Lemma new_vacant_good o x : vacant x -> triple good (_ ← new_place o; put o x) (fun _ => good) good.
Proof.
  intros Hx. eapply session_triple_bind; [apply new_place_spec|]. intros u. apply put_spec. intros s [Hs Ho]. unfold good. cbn [objects library trace].
  apply inv_vacant; [done|intros y; congruence|done].
Qed.

Lemma disconnected_good o : triple good (disconnected mysql o) (fun _ => good) good.
Proof.
  eapply session_triple_bind; [apply conn_handle_spec|]. intros h. eapply session_triple_bind; [eapply triple_pre; [by apply (good_plain (Ping h))|by intros s []]|].
  intros []; [by apply session_triple_ret|]. eapply session_triple_bind; [by apply good_plain|]. intros e. by apply session_triple_ret.
Qed.

Lemma insert_id_good o : triple good (insert_id mysql o) (fun _ => good) good.
Proof. eapply session_triple_bind; [apply conn_handle_spec|]. intros h. eapply triple_pre; [by apply (good_plain (InsertId h))|by intros s []]. Qed.

(** ** Programs *)

Inductive op :=
| NewConnection (o : nat) | Connect (o : nat) (l : login) | CloseConnection (o : nat) | MoveConnection (o from : nat)
| AssignConnection (o from : nat) | DestroyConnection (o : nat) | Disconnected (o : nat) | GetInsertId (o : nat)
| Update (o : nat) (sql : str) | Query (o r : nat) (sql : str) | Prepare (o p : nat) (sql : str)
| MoveResult (o from : nat) | AssignResult (o from : nat) | DestroyResult (o : nat) | Next (o : nat)
| GetColumn (o idx : nat) | FieldsNum (o : nat) | RowsNum (o : nat)
| NewStatement (o : nat) | MoveStatement (o from : nat) | AssignStatement (o from : nat) | DestroyStatement (o : nat)
| NewTransaction (t : nat) | StartTransaction (o t : nat) | StartSerializable (o t : nat) | StartReadCommitted (o t : nat)
| SetRollbackAction (t : nat) (action : option nat) | Rollback (t : nat) | Commit (t : nat)
| MoveTransaction (t from : nat) | AssignTransaction (t from : nat) | DestroyTransaction (t : nat).

Definition ignore {A} (m : M A) : M unit := _ ← m; mret tt.

Definition exec (c : op) : M unit :=
  match c with
  | NewConnection o => new_connection mysql o
  | Connect o l => connect mysql o l
  | CloseConnection o => close mysql o
  | MoveConnection o from => move_connection o from
  | AssignConnection o from => assign_connection mysql o from
  | DestroyConnection o => destroy_connection mysql o
  | Disconnected o => ignore (disconnected mysql o)
  | GetInsertId o => ignore (insert_id mysql o)
  | Update o sql => update mysql o sql
  | Query o r sql => query mysql o r sql
  | Prepare o p sql => prepare mysql o p sql
  | MoveResult o from => move_result o from
  | AssignResult o from => assign_result mysql o from
  | DestroyResult o => destroy_result mysql o
  | Next o => ignore (next mysql o)
  | GetColumn o idx => ignore (get_column o idx)
  | FieldsNum o => ignore (fields_num mysql o)
  | RowsNum o => ignore (rows_num mysql o)
  | NewStatement o => new_statement o
  | MoveStatement o from => move_statement o from
  | AssignStatement o from => assign_statement mysql o from
  | DestroyStatement o => destroy_statement mysql o
  | NewTransaction t => new_transaction t
  | StartTransaction o t => start_transaction mysql o t
  | StartSerializable o t => start_serializable_transaction mysql o t
  | StartReadCommitted o t => start_read_committed_transaction mysql o t
  | SetRollbackAction t action => set_rollback_action t action
  | Rollback t => rollback mysql t
  | Commit t => commit mysql t
  | MoveTransaction t from => move_transaction t from
  | AssignTransaction t from => assign_transaction mysql t from
  | DestroyTransaction t => destroy_transaction mysql t
  end.

(** A connection is moved, closed or destroyed only when nothing refers to it;
    results and statements are not assigned to themselves. *)
Definition permitted (c : op) (m : gmap nat object) : Prop :=
  match c with
  | CloseConnection o | DestroyConnection o => alone o m
  | MoveConnection _ from => alone from m
  | AssignConnection o from => alone o m /\ alone from m
  | AssignResult o from | AssignStatement o from => o <> from
  | _ => True
  end.

(** What a program can get to, exceptions included. *)
Inductive reachable : client W -> Prop :=
| reach_start w : live w = ∅ -> reachable (mkClient ∅ 0 w [])
| reach_step s c : reachable s -> permitted c (objects s) -> defined (exec c s).2 -> reachable (exec c s).1.

Lemma ignore_good {A} (m : M A) : triple good m (fun _ => good) good -> triple good (ignore m) (fun _ => good) good.
Proof. intros H. eapply session_triple_bind; [exact H|]. intros a. by apply session_triple_ret. Qed.

Lemma then_start_good o t sql : triple good (_ ← update mysql o sql; start_transaction mysql o t) (fun _ => good) good.
Proof. eapply session_triple_bind; [apply update_good|]. intros u. apply start_transaction_good. Qed.

Lemma exec_good c : triple (fun s => good s /\ permitted c (objects s)) (exec c) (fun _ => good) good.
Proof.
  destruct c; cbn [exec permitted];
    first [apply close_good | apply move_connection_good | apply assign_connection_good | apply destroy_connection_good
          | apply session_triple_pure; intros Hp;
            first [apply new_connection_good | apply connect_good | apply update_good | apply query_good | apply prepare_good
                  | apply ignore_good; first [apply disconnected_good | apply insert_id_good | apply next_good | apply get_column_good
                      | by apply (result_request_good NumFields) | by apply (result_request_good NumRows)]
                  | apply move_result_good | by apply assign_result_good | apply destroy_result_good
                  | by apply new_vacant_good | apply move_statement_good | by apply assign_statement_good | apply destroy_statement_good
                  | apply start_transaction_good | apply then_start_good | apply set_rollback_action_good | apply rollback_good
                  | apply commit_good | apply move_transaction_good | apply assign_transaction_good | apply destroy_transaction_good]].
Qed.

Lemma inv_start lv tr : lv = ∅ -> inv ∅ ∅ lv tr.
Proof.
  intros ->. split; [|intros c C Hc|intros o x c Ho|intros o x h Ho]; [|by rewrite lookup_empty in *..].
  intros h. unfold count. rewrite map_fold_empty. repeat case_bool_decide; set_solver.
Qed.

Lemma reachable_good s : reachable s -> good s.
Proof.
  induction 1 as [w Hw|s c _ IH Hp Hd]; [by apply inv_start|]. pose proof (exec_good c s (conj IH Hp)) as He.
  by destruct (exec c s) as [s' [u|e| |]].
Qed.

(** Where a commit goes to. *)
Lemma commit_request t x c C h s : objects s !! t = Some (OTransaction x) -> t_conn x = Some c -> objects s !! c = Some (OConnection C) ->
  conn_ C = Some h -> exists ok rest, trace (commit mysql t s).1 = trace s ++ Did (CommitConn h) ok :: rest.
Proof.
  intros Ht Hx Hc Hh. unfold commit, conn_handle, handle, get_transaction, get_connection, get_object, gets, lift, mbind, stm_bind, mret, stm_ret, get_or_ub.
  rewrite Ht, Hx, Hc, Hh. unfold request at 1. destruct (mysql _ (CommitConn h) (library s)) as [w ok]. exists ok. cbv beta iota. destruct ok; cbn [negb].
  - exists []. unfold change_counter, get_connection, get_object, gets, lift, mbind, stm_bind, put, modify, mret, stm_ret, get_or_ub. cbn [objects]. by rewrite Hc.
  - unfold request. cbn [library]. destruct (mysql _ (ErrorText h) w) as [w' text]. cbn [trace fst throw_error]. eexists. by rewrite <- app_assoc.
Qed.

End Sessions.


(** ** A library *)

(** [script] says which queries and preparations succeed; all other calls do, and
    the error of a failed one is that the server has gone away. *)
Record memory := mkMemory { given : gset Z; script : list bool }.

Definition give (w : memory) : memory * option Z :=
  let h := fresh (given w) in (mkMemory (given w ∪ {[h]}) (script w), Some h).
Definition take_back (h : Z) (w : memory) : memory * unit := (mkMemory (given w ∖ {[h]}) (script w), tt).
Definition pop (w : memory) : memory * bool :=
  match script w with [] => (w, true) | b :: l => (mkMemory (given w) l, b) end.

Definition sample_mysql (A : Type) (c : mysys A) (w : memory) : memory * A :=
  match c in mysys A return memory * A with
  | Init => give w
  | StoreResult _ => give w
  | StmtInit _ => give w
  | CloseConn h => take_back h w
  | FreeResult h => take_back h w
  | StmtClose h => take_back h w
  | Options _ => (w, tt)
  | RealConnect _ _ => (w, true)
  | LoginOf _ => (w, Some (mkLogin [] [] [] []))
  | GetFd _ => (w, Some 0)
  | SetFd _ _ => (w, true)
  | Errno _ => (w, CR_SERVER_GONE_ERROR)
  | ErrorText _ => (w, lit "gone")
  | Ping _ => (w, true)
  | InsertId _ => (w, 0)
  | RealQuery _ _ => pop w
  | FetchRow _ => (w, None)
  | NumFields _ => (w, 0)
  | NumRows _ => (w, 0)
  | StmtPrepare _ _ => pop w
  | StmtErrorText _ => (w, lit "gone")
  | RollbackConn _ => (w, true)
  | CommitConn _ => (w, true)
  | CallAction _ => (w, None)
  end.

#[export, program] Instance sample_library : MysqlLibrary sample_mysql := { live := given }.
Next Obligation. intros A c w Hc. destruct c; try done; cbn; unfold pop; by destruct (script w). Qed.
Next Obligation. intros c w [->|[[h ->]|[h ->]]]; (split; [apply is_fresh|done]). Qed.
Next Obligation. by intros c w h [->|[->| ->]]. Qed.
Next Obligation. intros h w. by eexists. Qed.

(** ** Runs of programs *)

#[export] Instance alone_dec o m : Decision (alone o m).
Proof. unfold alone. apply _. Defined.

#[export] Instance permitted_dec c m : Decision (permitted c m).
Proof. destruct c; cbn [permitted]; apply _. Defined.

(** Whether or not the operations are permitted. *)
Fixpoint runs {W} (mysql : forall A, mysys A -> W -> W * A) (p : list op) (s : client W) : option (client W) :=
  match p with
  | [] => Some s
  | c :: p' => match exec mysql c s with (s', Ok _) | (s', Throw _) => runs mysql p' s' | _ => None end
  end.

Fixpoint all_permitted {W} (mysql : forall A, mysys A -> W -> W * A) (p : list op) (s : client W) : bool :=
  match p with
  | [] => true
  | c :: p' => bool_decide (permitted c (objects s)) && all_permitted mysql p' (exec mysql c s).1
  end.

Lemma runs_reachable {W} (mysql : forall A, mysys A -> W -> W * A) `{!MysqlLibrary mysql} p : forall s s',
  reachable mysql s -> all_permitted mysql p s = true -> runs mysql p s = Some s' -> reachable mysql s'.
Proof.
  induction p as [|c p IH]; intros s s' Hs; cbn [all_permitted runs]; [by intros _ [= <-]|]. intros Hp Hr.
  apply andb_true_iff in Hp as [Hp Hps]. apply bool_decide_eq_true in Hp.
  assert (defined (exec mysql c s).2) as Hd by (destruct (exec mysql c s) as [s1 [u|e| |]]; done).
  apply (IH (exec mysql c s).1); [by apply reach_step|done|]. destruct (exec mysql c s) as [s1 [u|e| |]]; done.
Qed.

Definition start (l : list bool) : client memory := mkClient ∅ 0 (mkMemory ∅ l) [].
Definition sample_login : login := mkLogin (lit "localhost") (lit "sim") [] (lit "sim").

(** The first query fails and is repeated in a new session. *)
Definition sample_program : list op :=
  [NewConnection 0; Connect 0 sample_login; StartTransaction 0 1; Prepare 0 2 (lit "SELECT 1"); Query 0 3 (lit "SELECT 2");
   MoveResult 4 3; DestroyResult 3; MoveTransaction 5 1].

Definition after_sample : client memory := default (start []) (runs sample_mysql sample_program (start [false])).

Lemma sample_reachable : reachable sample_mysql after_sample.
Proof.
  apply (runs_reachable sample_mysql sample_program (start [false])); [by apply reach_start|vm_compute; reflexivity|vm_compute; reflexivity].
Qed.


(** ** Where the code does not do what it means to *)

Definition queries (tr : list event) : list (Z * str * bool) :=
  omap (fun e => match e with Did c a => match c in mysys A return A -> option (Z * str * bool) with
    | RealQuery h sql => fun ok => Some (h, sql, ok) | _ => fun _ => None end a end) tr.

Definition closings (stmt : Z) (tr : list event) : nat :=
  length (filter (fun e => match e with Did c _ => match c with StmtClose x => bool_decide (x = stmt) | FreeResult x => bool_decide (x = stmt) | _ => false end end = true) tr).

(** The isolation level is set in one session and, when that one is lost, the
    transaction is started in another one, without an exception. *)
Lemma isolation_level_lost : exists s h1 h2,
  runs sample_mysql [NewConnection 0; Connect 0 sample_login; StartSerializable 0 1] (start [true; false; true]) = Some s /\
  h1 <> h2 /\ queries (trace s) = [(h1, lit "SET TRANSACTION ISOLATION LEVEL SERIALIZABLE", true);
    (h1, START_TRANSACTION, false); (h2, START_TRANSACTION, true)] /\
  objects s !! 1%nat = Some (OTransaction (mkTransaction (Some 0%nat) None)).
Proof.
  eexists _, 0, 1. split_and!; [vm_compute; reflexivity|done|vm_compute; reflexivity|vm_compute; reflexivity].
Qed.

(** The same library, but [mysql_stmt_init] may fail as well. *)
Definition short_of_memory (A : Type) (c : mysys A) (w : memory) : memory * A :=
  match c in mysys A return memory * A with
  | StmtInit _ => match pop w with (w', true) => give w' | (w', false) => (w', None) end
  | c => sample_mysql _ c w
  end.

(** When no statement can be made after reconnecting, the old one is closed
    twice. *)
Lemma statement_closed_twice : exists s stmt,
  runs short_of_memory [NewConnection 0; Connect 0 sample_login; Prepare 0 1 (lit "SELECT 1")] (start [true; false; false; false]) = Some s /\
  closings stmt (trace s) = 2%nat.
Proof. eexists _, 1. split; [vm_compute; reflexivity|vm_compute; reflexivity]. Qed.

(** A result assigned to itself is freed, and freed again at its end. *)
Lemma self_assignment_frees_twice : exists s res,
  runs sample_mysql [NewConnection 0; Connect 0 sample_login; Query 0 1 (lit "SELECT 1"); AssignResult 1 1; DestroyResult 1] (start []) = Some s /\
  closings res (trace s) = 2%nat.
Proof. eexists _, 1. split; [vm_compute; reflexivity|vm_compute; reflexivity]. Qed.

(** A moved connection takes a copy of the counter, which nobody decrements. *)
Lemma moved_connection_counts_for_ever : exists s C,
  runs sample_mysql [NewConnection 0; Connect 0 sample_login; Query 0 1 (lit "SELECT 1"); MoveConnection 2 0; DestroyResult 1] (start []) = Some s /\
  objects s !! 2%nat = Some (OConnection C) /\ referencing_objects_no_ C = 1 /\ referring 2 (objects s) = 0%nat.
Proof. eexists _, _. split_and!; vm_compute; reflexivity. Qed.

Definition actions (tr : list event) : nat :=
  length (filter (fun e => match e with Did c _ => match c with CallAction _ => true | _ => false end end = true) tr).

(** A moved transaction forgets its rollback action. *)
Lemma moved_transaction_forgets_action : exists s,
  runs sample_mysql [NewConnection 0; Connect 0 sample_login; StartTransaction 0 1; SetRollbackAction 1 (Some 7%nat); MoveTransaction 2 1; Rollback 2] (start []) = Some s /\
  actions (trace s) = 0%nat.
Proof. eexists. split; vm_compute; reflexivity. Qed.
