(* ===== verification/MysqlStatement.v ===== *)
(** * Parameters and results of a prepared statement

    [bind], [bind_copy], [res_bind], [execute] and [next] of [Statement] in
    [mysql/mysql.hh], and [Optional].  Columns of the result are bound to
    variables of the program, each to a variable of its own: integers, character
    buffers ([InplaceBuffBase]), either of them possibly inside an [Optional].
    The library answers with what it stores through the pointers it was given.  A
    parameter's variable is read where it is bound, that is, it does not change
    before [execute]; a column that is bound again forgets its old variable. *)

From Stdlib Require Import ZArith Lia.
From S2P Require Import Prelude.
Local Open Scope Z_scope.

Definition MYSQL_NO_DATA : Z := 100.
Definition MYSQL_DATA_TRUNCATED : Z := 101.

Inductive field_type := TYPE_DECIMAL | TYPE_TINY | TYPE_SHORT | TYPE_LONG | TYPE_LONGLONG | TYPE_BLOB | TYPE_NULL.

#[export] Instance field_type_eq_dec : EqDecision field_type.
Proof. solve_decision. Defined.

Definition slen (s : str) : Z := Z.of_nat (length s).

(** [mysql_type<T>] by the width of [T] ([long] has 64 bits). *)
Definition mysql_type (bits : Z) : field_type :=
  if bits =? 8 then TYPE_TINY else if bits =? 16 then TYPE_SHORT else if bits =? 32 then TYPE_LONG else TYPE_LONGLONG.

(** ** Optional *)

Record Optional (T : Type) := mkOptional { value_ : T; has_no_value_ : bool }.
Arguments mkOptional {T}.
Arguments value_ {T}.
Arguments has_no_value_ {T}.

Definition opt_reset {T} (o : Optional T) : Optional T := mkOptional (value_ o) true.
Definition to_opt {T} (o : Optional T) : option T := if has_no_value_ o then None else Some (value_ o).
Definition value_or {T} (o : Optional T) (d : T) : T := if has_no_value_ o then d else value_ o.

(** ** Parameters *)

(** What a parameter refers to: a block of characters or an integer variable. *)
Inductive place := Chars (block : str) | Integer (value : Z).

Record param := mkParam { p_type : field_type; p_buffer : option place; p_length : Z; p_unsigned : bool }.

Definition cleared : param := mkParam TYPE_DECIMAL None 0 false.

(** [binds_]; there is no check of the index. *)
Definition set_param (idx : nat) (f : param -> param) (l : list param) : outcome (list param) :=
  p ← get_or_ub (l !! idx); Ok (<[idx := f p]> l).

(** The rest of an old binding stays. *)
Definition bind_integer (idx : nat) (bits : Z) (unsigned : bool) (x : Z) : list param -> outcome (list param) :=
  set_param idx (fun p => mkParam (mysql_type bits) (Some (Integer x)) (p_length p) unsigned).

(** [bind(idx, char*, size_t& length, size_t max_size)] *)
Definition bind_buffer (idx : nat) (block : str) (length : Z) : list param -> outcome (list param) :=
  set_param idx (fun _ => mkParam TYPE_BLOB (Some (Chars block)) length false).

(** An empty string is bound to the literal [""]. *)
Definition bind_string (idx : nat) (s : str) : list param -> outcome (list param) :=
  set_param idx (fun _ => mkParam TYPE_BLOB (Some (Chars (if slen s =? 0 then [NUL] else s))) (slen s) false).

Definition bind_null (idx : nat) : list param -> outcome (list param) :=
  set_param idx (fun _ => mkParam TYPE_NULL None 0 false).

(** [std::char_traits<char>::length] of a block that need not be terminated. *)
Definition strlen (block : str) : outcome Z :=
  match find_index (fun c => c =c NUL) block with Some n => Ok (Z.of_nat n) | None => UB end.

(** [bind(idx, char* )] *)
Definition bind_chars (idx : nat) (block : str) (l : list param) : outcome (list param) :=
  n ← strlen block; set_param idx (fun _ => mkParam TYPE_BLOB (Some (Chars (if n =? 0 then [NUL] else block))) n false) l.

(** The copy has a character at least. *)
Definition bind_copy (idx : nat) (s : str) (l : list param) : outcome (list param) :=
  bind_chars idx (match s with [] => [NUL] | _ => s end) l.

(** An argument of [bind_and_execute]; one that may be missing is an [Optional]
    or an [std::optional]. *)
Inductive argument :=
| ABool (b : bool) | AInteger (bits : Z) (unsigned : bool) (x : Z) | AString (s : str) | ANull
| AOptional (a : Optional argument).

(** [transform_arg]: copies of what is not a variable; [bool] becomes
    [unsigned char], an [Optional] what [to_opt] gives, which [bind] takes apart. *)
Fixpoint bind_argument (idx : nat) (a : argument) : list param -> outcome (list param) :=
  match a with
  | ABool b => bind_integer idx 8 true (if b then 1 else 0)
  | AInteger bits unsigned x => bind_integer idx bits unsigned x
  | AString s => bind_string idx s
  | ANull => bind_null idx
  | AOptional (mkOptional a no_value) => if no_value then bind_null idx else bind_argument idx a
  end.

Fixpoint bind_args (idx : nat) (args : list argument) (l : list param) : outcome (list param) :=
  match args with
  | [] => Ok l
  | a :: args' => l ← bind_argument idx a l; bind_args (S idx) args' l
  end.

(** ** Results *)

(** The variable of a column; the storage of a buffer holds [data], which may be
    less than [max_size] characters, and [size] may be more. *)
Inductive variable := IntVar (value : Z) | Buff (data : str) (size max_size : Z).

(** [res_binds_[idx]] with the variable it points to.  [nullable]: [is_null]
    points to [has_no_value_] of an [Optional], which is [flag], and otherwise to
    [is_null_value].  [known_length] is the length of the buffer as of the last
    [mysql_stmt_bind_result]. *)
Record column := mkColumn {
  c_type : field_type; c_unsigned : bool; nullable : bool; flag : bool; is_null_value : bool; error_value : bool;
  var : variable; buffer_length : Z; known_length : Z; inplace_buff : bool
}.

Definition clear_column (c : column) : column :=
  mkColumn TYPE_DECIMAL false false (flag c) false false (var c) 0 (known_length c) (inplace_buff c).

Definition res_bind_integer (bits : Z) (unsigned : bool) (x : Z) (c : column) : column :=
  mkColumn (mysql_type bits) unsigned (nullable c) (flag c) (is_null_value c) (error_value c) (IntVar x) (buffer_length c)
    (known_length c) (inplace_buff c).

Definition res_bind_buff (data : str) (size max_size : Z) (c : column) : column :=
  let c := clear_column c in
  mkColumn TYPE_BLOB (c_unsigned c) (nullable c) (flag c) (is_null_value c) (error_value c) (Buff data size max_size) max_size
    (known_length c) true.

Definition res_bind_null (c : column) : column :=
  let c := clear_column c in
  mkColumn TYPE_NULL (c_unsigned c) (nullable c) (flag c) (is_null_value c) (error_value c) (var c) (buffer_length c)
    (known_length c) (inplace_buff c).

(** [res_bind] of an [Optional]: of its value, then of its flag. *)
Definition res_bind_optional (bind_value : column -> column) (has_no_value : bool) (c : column) : column :=
  let c := bind_value c in
  mkColumn (c_type c) (c_unsigned c) true has_no_value (is_null_value c) (error_value c) (var c) (buffer_length c)
    (known_length c) (inplace_buff c).

(** What the library stores for a column. *)
Record cell := mkCell { x_null : bool; x_error : bool; x_length : Z; x_bytes : str; x_int : Z }.

(** Requests about a statement.  [Fetch] is told the lengths it has been bound
    with; [FetchColumn] the length of the buffer it is given. *)
Inductive stsys : Type -> Type :=
| BindParam (params : list param) : stsys bool
| StmtExecute : stsys bool
| StoreResult : stsys bool
| BindResult : stsys bool
| Fetch (types : list (field_type * bool * Z)) : stsys (Z * list cell)
| FetchColumn (idx : nat) (length : Z) : stsys (option cell)
| FreeStmtResult : stsys unit
| StmtError : stsys str.

Section Statement.
Context {W : Type}.
Variable mysql : forall A, stsys A -> W -> W * A.
Arguments mysql {A}.

Record statement := mkSt { params : list param; columns : list column; lib : W }.
Abbreviation M := (stm statement).

Definition ask {A} (c : stsys A) : M A := fun s =>
  let (w, a) := mysql c (lib s) in (mkSt (params s) (columns s) w, Ok a).
Definition set_columns (l : list column) : M unit := modify (fun s => mkSt (params s) l (lib s)).
Definition throw_stmt_error {A} : M A := m ← ask StmtError; throw_error m.

Definition fix_binds : M unit :=
  l ← gets params; ok ← ask (BindParam l); if (ok : bool) then mret tt else throw_stmt_error.

Definition execute : M unit :=
  ok ← ask StmtExecute;
  if negb ok then throw_stmt_error
  else ok ← ask StoreResult; if (ok : bool) then mret tt else throw_stmt_error.

Definition fix_and_execute : M unit := _ ← fix_binds; execute.

Definition bind_all (args : list argument) : M unit :=
  l ← gets params;
  l ← lift (bind_args 0 args l);
  _ ← modify (fun s => mkSt l (columns s) (lib s));
  fix_binds.

Definition bind_and_execute (args : list argument) : M unit := _ ← bind_all args; execute.

Definition res_fix_binds : M unit :=
  ok ← ask BindResult;
  if (ok : bool) then
    modify (fun s => mkSt (params s) ((fun c => mkColumn (c_type c) (c_unsigned c) (nullable c) (flag c) (is_null_value c) (error_value c)
      (var c) (buffer_length c) (buffer_length c) (inplace_buff c)) <$> columns s) (lib s))
  else throw_stmt_error.

Definition stored_var (t : field_type) (v : variable) (x : cell) : variable :=
  if x_null x then v
  else match t, v with
       | TYPE_BLOB, Buff _ _ max => Buff (x_bytes x) (x_length x) max
       | TYPE_BLOB, IntVar z => IntVar z
       | (TYPE_NULL | TYPE_DECIMAL), v => v
       | _, _ => IntVar (x_int x)
       end.

(** The library stores a cell through the pointers of a column. *)
Definition store (c : column) (x : cell) : column :=
  mkColumn (c_type c) (c_unsigned c) (nullable c) (if nullable c then x_null x else flag c)
    (if nullable c then is_null_value c else x_null x) (x_error x) (stored_var (c_type c) (var c) x)
    (buffer_length c) (known_length c) (inplace_buff c).

Definition is_null (c : column) : bool :=
  bool_decide (c_type c = TYPE_NULL) || (if nullable c then flag c else is_null_value c).

(** [InplaceBuffBase::lossy_resize(buff.size)], after which the column points to
    the new storage. *)
Definition enlarge (c : column) : column :=
  match var c with
  | Buff data size max =>
      let buff := if max <? size then Buff [] size (Z.max (2 * max) size) else Buff data size max in
      let max := match buff with Buff _ _ m => m | IntVar _ => 0 end in
      mkColumn (c_type c) (c_unsigned c) (nullable c) (flag c) (is_null_value c) (error_value c) buff max (known_length c) (inplace_buff c)
  | IntVar _ => c
  end.

(** The loop over truncated columns from [idx] on; [done] are those before. *)
Fixpoint refetch (idx : nat) (done rest : list column) : M unit :=
  match rest with
  | [] => set_columns done
  | c :: rest' =>
      if negb (error_value c) then refetch (S idx) (done ++ [c]) rest'
      else if negb (bool_decide (c_type c = TYPE_BLOB)) then _ ← set_columns (done ++ rest); throw_error (lit "Truncated data at column")
      else if negb (inplace_buff c) then lift UB
      else
        let c := enlarge c in
        x ← ask (FetchColumn idx (buffer_length c));
        match x with
        | None => _ ← set_columns (done ++ c :: rest'); throw_stmt_error
        | Some x => refetch (S idx) (done ++ [store c x]) rest'
        end
  end.

Definition unexpected_null (c : column) : bool := negb (nullable c) && is_null_value c.

Definition fetch_types (cs : list column) : list (field_type * bool * Z) :=
  (fun c => (c_type c, c_unsigned c, known_length c)) <$> cs.

Definition next : M bool :=
  cs ← gets columns;
  '(rc, cells) ← ask (Fetch (fetch_types cs));
  if rc =? 0 then
    let cs := zip_with store cs cells in
    _ ← set_columns cs;
    if existsb unexpected_null cs then throw_error (lit "Encountered NULL at a column that did not expect nullable data") else mret true
  else if rc =? MYSQL_NO_DATA then _ ← ask FreeStmtResult; mret false
  else if negb (rc =? MYSQL_DATA_TRUNCATED) then throw_stmt_error
  else
    let cs := zip_with store cs cells in
    _ ← refetch 0 [] cs;
    _ ← res_fix_binds;
    mret true.

End Statement.
