(* ===== verification/MysqlStatementProofs.v ===== *)
(** * A prepared statement reads its rows

    Laws of the library about the rows of a result, as documented for
    [mysql_stmt_fetch] and [mysql_stmt_fetch_column]: a row is stored through the
    bound pointers, a text that does not fit its buffer is cut and reported with
    its whole length, and a column can be fetched again.  With them the loop over
    [next] reads every row whole and in order, and the buffers grow as needed. *)

From Stdlib Require Import ZArith Lia.
From S2P Require Import Prelude.
From S2P Require Import MysqlStatement.
Local Open Scope Z_scope.

(** ** Rows *)

Inductive datum := DNull | DInt (z : Z) | DText (s : str).

Definition type_bits (t : field_type) : option Z :=
  match t with TYPE_TINY => Some 8 | TYPE_SHORT => Some 16 | TYPE_LONG => Some 32 | TYPE_LONGLONG => Some 64 | _ => None end.

Definition fits (t : field_type) (unsigned : bool) (z : Z) : bool :=
  match type_bits t with
  | Some b => if unsigned then (0 <=? z) && (z <? 2 ^ b) else (- 2 ^ (b - 1) <=? z) && (z <? 2 ^ (b - 1))
  | None => false
  end.

(** What does not change about a column: type, sign and whether it expects NULL. *)
Definition sort_of (c : column) : field_type * bool * bool := (c_type c, c_unsigned c, nullable c).

Definition typed (k : field_type * bool * bool) (d : datum) : bool :=
  match d with
  | DNull => bool_decide (k.1.1 = TYPE_BLOB) || bool_decide (is_Some (type_bits k.1.1))
  | DInt _ => bool_decide (is_Some (type_bits k.1.1))
  | DText _ => bool_decide (k.1.1 = TYPE_BLOB)
  end.

(** A datum the column has no place for. *)
Definition misfit (k : field_type * bool * bool) (d : datum) : bool :=
  match d with DNull => negb k.2 | DInt z => negb (fits k.1.1 k.1.2 z) | DText _ => false end.

Definition answer (k : field_type * bool * Z) (d : datum) (x : cell) : Prop :=
  match d with
  | DNull => x_null x = true /\ x_error x = false
  | DInt z => x_null x = false /\ x_error x = negb (fits k.1.1 k.1.2 z) /\ (fits k.1.1 k.1.2 z = true -> x_int x = z)
  | DText s => x_null x = false /\ x_error x = (k.2 <? slen s) /\ x_length x = slen s /\ x_bytes x = take (Z.to_nat k.2) s
  end.

(** The laws, for a library that may fail; a [healthy] one does not. *)
Class StmtLaws {W} (mysql : forall A, stsys A -> W -> W * A) := {
  rows : W -> list (list datum);
  current : W -> list datum;
  healthy : W -> Prop;
  fetch_row ks w d rest : rows w = d :: rest ->
    let '(w', (rc, cells)) := mysql _ (Fetch ks) w in
    (rc = 1 /\ ~ healthy w) \/
    (rows w' = rest /\ current w' = d /\ (healthy w -> healthy w') /\
      (Forall2 (fun k d => typed (k.1, false) d = true) ks d ->
        Forall2 (fun kd x => answer kd.1 kd.2 x) (zip ks d) cells /\
        rc = if existsb x_error cells then MYSQL_DATA_TRUNCATED else 0));
  fetch_end ks w : rows w = [] ->
    let '(_, (rc, _)) := mysql _ (Fetch ks) w in (rc = 1 /\ ~ healthy w) \/ rc = MYSQL_NO_DATA;
  fetch_again idx len w s : current w !! idx = Some (DText s) ->
    let '(w', x) := mysql _ (FetchColumn idx len) w in
    rows w' = rows w /\ current w' = current w /\ (healthy w -> healthy w') /\
    match x with None => ~ healthy w | Some x => answer (TYPE_BLOB, false, len) (DText s) x end;
  bind_result_keeps w :
    let '(w', ok) := mysql _ BindResult w in
    rows w' = rows w /\ current w' = current w /\ (healthy w -> healthy w') /\ (healthy w -> ok = true)
}.

(** ** Columns *)

(** A bound column; [strict] if the library knows its buffer. *)
Definition bound (strict : bool) (c : column) : Prop :=
  match var c with
  | Buff _ _ max => c_type c = TYPE_BLOB /\ inplace_buff c = true /\ 0 <= max /\ buffer_length c = max /\
      (strict = true -> known_length c = max)
  | IntVar _ => is_Some (type_bits (c_type c))
  end.

(** The variable of the column holds the datum. *)
Definition holds (c : column) (d : datum) : Prop :=
  match d with
  | DNull => is_null c = true
  | DInt z => is_null c = false /\ var c = IntVar z
  | DText s => is_null c = false /\ exists max, var c = Buff s (slen s) max /\ slen s <= max
  end.

Definition key_of (c : column) : field_type * bool * Z := (c_type c, c_unsigned c, known_length c).

Lemma slen_nonneg s : 0 <= slen s.
Proof. unfold slen. lia. Qed.

Lemma take_whole len s : slen s <= len -> take (Z.to_nat len) s = s.
Proof. unfold slen. intros. apply take_ge. lia. Qed.

Lemma is_null_store c x : c_type c <> TYPE_NULL -> is_null (store c x) = x_null x.
Proof. intros H. unfold is_null, store. cbn. rewrite bool_decide_false by done. by destruct (nullable c). Qed.

Lemma sort_store c x : sort_of (store c x) = sort_of c.
Proof. done. Qed.

Lemma bound_store b c x : bound b c -> bound b (store c x).
Proof.
  unfold bound, store, stored_var; cbn. destruct (x_null x); [by destruct (var c)|].
  destruct (var c) eqn:Hv; [|intros (-> & ?); done].
  intros [n Hn]. destruct (c_type c); try discriminate; by exists n.
Qed.

Lemma bound_type b c : bound b c -> c_type c <> TYPE_NULL.
Proof. unfold bound. destruct (var c); [intros [n H] E; by rewrite E in H|intros (-> & _); done]. Qed.

(** Columns as [res_bind] leaves them; [res_fix_binds] makes their lengths known. *)
Lemma bound_res_bind_integer bits unsigned x c : bound false (res_bind_integer bits unsigned x c).
Proof.
  unfold bound, res_bind_integer, mysql_type; cbn.
  destruct (bits =? 8); [by exists 8|]. destruct (bits =? 16); [by exists 16|]. destruct (bits =? 32); [by exists 32|by exists 64].
Qed.

Lemma bound_res_bind_buff data size max c : 0 <= max -> bound false (res_bind_buff data size max c).
Proof. done. Qed.

Lemma bound_res_bind_optional bind_value b c : bound false (bind_value c) -> bound false (res_bind_optional bind_value b c).
Proof. done. Qed.

(** A column the library stored whole. *)
Lemma store_holds b c d x len :
  bound b c -> typed (sort_of c) d = true -> answer (c_type c, c_unsigned c, len) d x ->
  (forall t n max, var c = Buff t n max -> len = max) -> x_error x = false -> holds (store c x) d.
Proof.
  intros Hb Ht Ha Hlen He. pose proof (is_null_store c x (bound_type _ _ Hb)) as Hn.
  destruct d as [|z|s]; cbn in Ha, Ht; cbn [holds]; rewrite Hn.
  - by destruct Ha.
  - destruct Ha as (E1 & E2 & E3). rewrite He in E2. specialize (E3 ltac:(by destruct (fits _ _ _))).
    split; [done|]. apply bool_decide_eq_true in Ht as [n Ht]. unfold store, stored_var; cbn. rewrite E1, E3.
    destruct (c_type c); try discriminate; done.
  - destruct Ha as (E1 & E2 & E3 & E4). split; [done|]. apply bool_decide_eq_true in Ht. unfold bound in Hb.
    destruct (var c) as [z|t n max] eqn:Hv; [destruct Hb as [m Hb]; by rewrite Ht in Hb|].
    rewrite (Hlen _ _ _ eq_refl) in E2, E4. rewrite He in E2. symmetry in E2. apply Z.ltb_ge in E2.
    exists max. split; [|done]. unfold store, stored_var; cbn. rewrite E1, Ht, Hv, E3, E4. by rewrite take_whole.
Qed.

(** ** Fetching again what was cut *)

(** Stored, and perhaps cut. *)
Definition stored (c : column) (d : datum) : Prop :=
  bound true c /\ typed (sort_of c) d = true /\
  if error_value c then match d with DText s => exists t max, var c = Buff t (slen s) max | DInt _ => misfit (sort_of c) d = true | DNull => False end
  else holds c d.

Lemma stored_of c d x : bound true c -> typed (sort_of c) d = true -> answer (key_of c) d x -> stored (store c x) d.
Proof.
  intros Hb Ht Ha. split_and!; [by apply bound_store|done|].
  change (error_value (store c x)) with (x_error x). rewrite sort_store. destruct (x_error x) eqn:He.
  - destruct d as [|z|s]; cbn in Ha, Ht |- *.
    + destruct Ha. congruence.
    + destruct Ha as (_ & E & _). congruence.
    + destruct Ha as (E1 & _ & E3 & _). apply bool_decide_eq_true in Ht. unfold bound in Hb.
      destruct (var c) as [z|t n max] eqn:Hv; [destruct Hb as [m Hb]; by rewrite Ht in Hb|].
      unfold stored_var. rewrite E1, Ht, E3. eauto.
  - apply (store_holds true c d x (known_length c)); try done. intros t n max Hv. unfold bound in Hb. rewrite Hv in Hb.
    destruct Hb as (_ & _ & _ & _ & Hk). by apply Hk.
Qed.

Lemma bound_enlarge c : bound true c -> bound false (enlarge c).
Proof.
  unfold bound, enlarge. destruct (var c) as [z|t n max] eqn:Hv; [by rewrite Hv|].
  intros (-> & -> & H0 & _). destruct (max <? n) eqn:E; cbn; split_and!; try done; lia.
Qed.

Lemma bound_weaken c : bound true c -> bound false c.
Proof. unfold bound. destruct (var c); [done|]. intros (? & ? & ? & ? & _). done. Qed.

Lemma sort_enlarge c : sort_of (enlarge c) = sort_of c.
Proof. unfold enlarge. by destruct (var c). Qed.

(** The enlarged buffer is large enough for the text that was cut. *)
Lemma enlarge_room c t s max : var c = Buff t (slen s) max ->
  exists t' max', var (enlarge c) = Buff t' (slen s) max' /\ buffer_length (enlarge c) = max' /\ slen s <= max'.
Proof.
  intros Hv. unfold enlarge. rewrite Hv. destruct (max <? slen s) eqn:E; cbn.
  - eexists _, _. split_and!; [done..|lia].
  - eexists _, _. split_and!; [done..|]. by apply Z.ltb_ge.
Qed.

Section Reading.
Context {W : Type} (mysql : forall A, stsys A -> W -> W * A) `{!StmtLaws mysql}.
Abbreviation statement := (@statement W).

(** What a run that started with the library in [w] may leave. *)
Definition leaves (s : statement) (left : list (list datum)) (d : list datum) (w : W) : Prop :=
  rows (lib s) = left /\ current (lib s) = d /\ (healthy w -> healthy (lib s)).

Definition excused (w : W) (ks : list (field_type * bool * bool)) (d : list datum) : Prop :=
  ~ healthy w \/ existsb (fun kd => misfit kd.1 kd.2) (zip ks d) = true.

Lemma throw_stmt_error_throws {A} (s : statement) : exists s' e, throw_stmt_error mysql (A := A) s = (s', Throw e).
Proof.
  unfold throw_stmt_error, mbind, stm_bind, ask. destruct (mysql str StmtError (lib s)) as [w m]. by eexists _, _.
Qed.

Lemma zip_sort_misfit (l1 : list column) d1 c x l2 d2 : length l1 = length d1 -> misfit (sort_of c) x = true ->
  existsb (fun kd => misfit kd.1 kd.2) (zip (sort_of <$> l1 ++ c :: l2) (d1 ++ x :: d2)) = true.
Proof.
  intros Hl Hm. rewrite fmap_app, fmap_cons, zip_with_app by by rewrite length_fmap.
  apply existsb_exists. exists (sort_of c, x). split; [|done]. apply in_or_app. right. by left.
Qed.

Lemma refetch_spec w left rest d2 :
  Forall2 stored rest d2 -> forall done d1 (s : statement),
  Forall2 holds done d1 -> Forall (bound false) done -> leaves s left (d1 ++ d2) w ->
  match refetch mysql (length done) done rest s with
  | (s', Ok _) => Forall2 holds (columns s') (d1 ++ d2) /\ Forall (bound false) (columns s') /\
      sort_of <$> columns s' = sort_of <$> done ++ rest /\ leaves s' left (d1 ++ d2) w
  | (_, Throw _) => excused w (sort_of <$> done ++ rest) (d1 ++ d2)
  | _ => False
  end.
Proof.
  induction 1 as [|c d rest d2 Hc Hrest IH]; intros done d1 s Hd Hb Hs; cbn [refetch].
  { cbv [set_columns modify]. cbn. rewrite !app_nil_r in *. done. }
  destruct Hc as (Hcb & Ht & Hc). destruct (error_value c) eqn:He; cbn [negb].
  - destruct (decide (c_type c = TYPE_BLOB)) as [Hty|Hty].
    2: { rewrite bool_decide_false by done. cbn [negb]. cbv [mbind stm_bind set_columns modify throw_error]. right.
         apply zip_sort_misfit; [by eapply Forall2_length|]. destruct d as [|z|t]; [done..|].
         cbn in Ht. by apply bool_decide_eq_true in Ht. }
    rewrite bool_decide_true by done. cbn [negb]. destruct d as [|z|t]; [done| |].
    { cbn in Ht. rewrite Hty in Ht. discriminate. }
    destruct Hc as (u & max & Hv). destruct (enlarge_room _ _ _ _ Hv) as (u' & max' & Hv' & Hl & Hroom).
    assert (inplace_buff c = true) as -> by (unfold bound in Hcb; rewrite Hv in Hcb; tauto). cbn [negb].
    destruct Hs as (Hr & Hcur & Hh). unfold mbind, stm_bind, ask.
    pose proof (fetch_again (length done) (buffer_length (enlarge c)) (lib s) t) as Hf.
    rewrite Hcur, (Forall2_length _ _ _ Hd) in Hf. specialize (Hf (list_lookup_middle _ _ _ _ eq_refl)).
    rewrite <-(Forall2_length _ _ _ Hd) in Hf.
    destruct (mysql _ _ (lib s)) as [w' [x|]]; destruct Hf as (F1 & F2 & F3 & Hx).
    2: { cbv [set_columns modify]. edestruct @throw_stmt_error_throws as (s' & e & ->). left. auto. }
    specialize (IH (done ++ [store (enlarge c) x]) (d1 ++ [DText t]) (mkSt (params s) (columns s) w')).
    rewrite length_app, Nat.add_1_r in IH. rewrite <-!app_assoc in IH. cbn [app] in IH.
    rewrite !fmap_app, !fmap_cons, sort_store, sort_enlarge, <-fmap_cons, <-fmap_app in IH.
    rewrite !fmap_app, !fmap_cons, <-fmap_cons, <-fmap_app. apply IH.
    + apply Forall2_app; [done|]. apply Forall2_cons. split; [|done].
      apply (store_holds false _ _ _ (buffer_length (enlarge c))).
      * by apply bound_enlarge.
      * by rewrite sort_enlarge.
      * exact Hx.
      * intros ? ? ? E. rewrite Hv' in E. by injection E as <- <- <-.
      * destruct Hx as (_ & -> & _). apply Z.ltb_ge. by rewrite Hl.
    + apply Forall_app. split; [done|]. apply Forall_singleton. by apply bound_store, bound_enlarge.
    + split_and!; cbn; [congruence..|auto].
  - specialize (IH (done ++ [c]) (d1 ++ [d]) s). rewrite length_app, Nat.add_1_r in IH. rewrite <-!app_assoc in IH. apply IH.
    + by apply Forall2_app; [|apply Forall2_cons].
    + apply Forall_app. split; [done|]. apply Forall_singleton. by apply bound_weaken.
    + done.
Qed.

Lemma store_all cs d cells : Forall (bound true) cs -> Forall2 (fun c d => typed (sort_of c) d = true) cs d ->
  Forall2 (fun kd x => answer kd.1 kd.2 x) (zip (fetch_types cs) d) cells -> Forall2 stored (zip_with store cs cells) d.
Proof.
  intros Hb Ht. revert Hb cells. induction Ht as [|c d cs ds Hc Hcs IH]; intros Hb cells Ha.
  { by inversion Ha. }
  cbn in Ha. inversion Ha as [|? x ? cells' Hx Ha']; subst. apply Forall_cons in Hb as [Hb1 Hb2]. cbn. apply Forall2_cons.
  split; [by apply stored_of|by apply IH].
Qed.

Lemma sorts_stored cs cells : length cs = length cells -> sort_of <$> zip_with store cs cells = sort_of <$> cs.
Proof. revert cells. induction cs as [|c cs IH]; intros [|x cells] H; try done. cbn. f_equal. apply IH. by injection H. Qed.

Lemma errors_stored cs cells : length cs = length cells -> existsb error_value (zip_with store cs cells) = existsb x_error cells.
Proof. revert cells. induction cs as [|c cs IH]; intros [|x cells] H; try done. cbn. f_equal. apply IH. by injection H. Qed.

Lemma all_held l d : Forall2 stored l d -> existsb error_value l = false -> Forall2 holds l d.
Proof.
  induction 1 as [|c d l ds (Hb & Ht & Hc) Hl IH]; cbn; [done|]. intros [E1 E2]%orb_false_elim. rewrite E1 in Hc.
  apply Forall2_cons. auto.
Qed.

(** A NULL reported for a column is a misfit of the row. *)
Lemma unexpected_null_misfit l d : Forall2 holds l d -> Forall (bound true) l -> existsb unexpected_null l = true ->
  existsb (fun kd => misfit kd.1 kd.2) (zip (sort_of <$> l) d) = true.
Proof.
  induction 1 as [|c d l ds Hc Hl IH]; cbn; [done|]. intros [Hb Hbs]%Forall_cons [E|E]%orb_true_elim; [|rewrite IH by done; apply orb_true_r].
  apply andb_true_iff in E as [E1 E2]. destruct (nullable c) eqn:Hn; [done|].
  assert (is_null c = true) as H by (unfold is_null; rewrite Hn, E2; apply orb_true_r).
  destruct d as [|z|t]; cbn in Hc |- *; [by rewrite Hn|..]; destruct Hc; congruence.
Qed.

Lemma res_fix_binds_spec w left d (s : statement) : leaves s left d w -> Forall2 holds (columns s) d -> Forall (bound false) (columns s) ->
  match res_fix_binds mysql s with
  | (s', Ok _) => Forall2 holds (columns s') d /\ Forall (bound true) (columns s') /\
      sort_of <$> columns s' = sort_of <$> columns s /\ leaves s' left d w
  | (_, Throw _) => ~ healthy w
  | _ => False
  end.
Proof.
  intros (Hr & Hc & Hh) Hd Hb. unfold res_fix_binds, mbind, stm_bind, ask. pose proof (bind_result_keeps (lib s)) as H.
  destruct (mysql _ _ (lib s)) as [w' ok]. destruct H as (H1 & H2 & H3 & H4). destruct ok.
  2: { edestruct @throw_stmt_error_throws as (s' & e & ->). intros ?. by discriminate H4; auto. }
  cbv [modify]. cbn. split_and!.
  - apply Forall2_fmap_l. eapply Forall2_impl; [exact Hd|]. intros c [|z|t]; done.
  - apply Forall_fmap. eapply Forall_impl; [exact Hb|]. intros c. unfold bound. cbn. destruct (var c); [done|]. naive_solver.
  - rewrite <-list_fmap_compose. done.
  - split_and!; cbn; [congruence..|auto].
Qed.

Lemma typed_types cs d : Forall2 (fun c d => typed (sort_of c) d = true) cs d ->
  Forall2 (fun k d => typed (k.1, false) d = true) (fetch_types cs) d.
Proof. intros H. apply Forall2_fmap_l. eapply Forall2_impl; [exact H|]. by intros c [|z|t]. Qed.

Lemma answers_length cs d cells : length cs = length d ->
  Forall2 (fun kd x => answer kd.1 kd.2 x) (zip (fetch_types cs) d) cells -> length cs = length cells.
Proof. intros Hl H%Forall2_length. rewrite length_zip_with in H. unfold fetch_types in H. rewrite length_fmap in H. lia. Qed.

(** One call of [next] reads one row. *)
Lemma next_row (s : statement) d left :
  rows (lib s) = d :: left -> Forall (bound true) (columns s) -> Forall2 (fun c d => typed (sort_of c) d = true) (columns s) d ->
  match next mysql s with
  | (s', Ok more) => more = true /\ Forall2 holds (columns s') d /\ Forall (bound true) (columns s') /\
      sort_of <$> columns s' = sort_of <$> columns s /\ rows (lib s') = left /\ (healthy (lib s) -> healthy (lib s'))
  | (_, Throw _) => excused (lib s) (sort_of <$> columns s) d
  | _ => False
  end.
Proof.
  intros Hr Hb Ht. pose proof (fetch_row (fetch_types (columns s)) (lib s) d left Hr) as H.
  unfold next. cbv [mbind stm_bind gets ask]. destruct (mysql _ _ (lib s)) as [w' [rc cells]].
  destruct H as [[-> Hh]|(H1 & H2 & H3 & H4)].
  { change (1 =? 0) with false. change (1 =? MYSQL_NO_DATA) with false. change (1 =? MYSQL_DATA_TRUNCATED) with false. cbn [negb].
    edestruct @throw_stmt_error_throws as (s' & e & ->). by left. }
  destruct (H4 (typed_types _ _ Ht)) as [Ha ->]. pose proof (answers_length _ _ _ (Forall2_length _ _ _ Ht) Ha) as Hl.
  pose proof (store_all _ _ _ Hb Ht Ha) as Hst. rewrite <-(errors_stored _ _ Hl). rewrite <-(sorts_stored _ _ Hl).
  set (cs := zip_with store (columns s) cells) in *. destruct (existsb error_value cs) eqn:He.
  - change (MYSQL_DATA_TRUNCATED =? 0) with false. change (MYSQL_DATA_TRUNCATED =? MYSQL_NO_DATA) with false.
    change (MYSQL_DATA_TRUNCATED =? MYSQL_DATA_TRUNCATED) with true. cbn [negb].
    pose proof (refetch_spec (lib s) left cs d Hst [] [] (mkSt (params s) (columns s) w') ltac:(constructor) ltac:(constructor)) as R.
    specialize (R ltac:(done)). cbn [length app] in R. destruct (refetch _ _ _ _ _) as [s1 [u|e| |]]; try done.
    destruct R as (R1 & R2 & R3 & R4). pose proof (res_fix_binds_spec _ _ _ s1 R4 R1 R2) as B.
    destruct (res_fix_binds mysql s1) as [s2 [v|e| |]]; try done; [|by left].
    destruct B as (B1 & B2 & B3 & B4 & _ & B5). cbv [mret stm_ret]. split_and!; try done. by rewrite B3.
  - change (0 =? 0) with true. cbv iota. cbv [set_columns modify]. pose proof (all_held _ _ Hst He) as Hd.
    assert (Forall (bound true) cs) as Hbs.
    { apply Forall_lookup. intros i c Hi. apply Forall2_lookup_l with (i := i) (x := c) in Hst as (y & _ & ? & _); done. }
    destruct (existsb unexpected_null cs) eqn:Hu; [right; by apply unexpected_null_misfit|].
    cbv [mret stm_ret]. cbn. split_and!; done.
Qed.

Lemma next_end (s : statement) : rows (lib s) = [] ->
  match next mysql s with (_, Ok more) => more = false | (_, Throw _) => ~ healthy (lib s) | _ => False end.
Proof.
  intros Hr. pose proof (fetch_end (fetch_types (columns s)) (lib s) Hr) as H. unfold next. cbv [mbind stm_bind gets ask].
  destruct (mysql _ _ (lib s)) as [w' [rc cells]]. destruct H as [[-> Hh]| ->].
  - change (1 =? 0) with false. change (1 =? MYSQL_NO_DATA) with false. change (1 =? MYSQL_DATA_TRUNCATED) with false. cbn [negb].
    by edestruct @throw_stmt_error_throws as (s' & e & ->).
  - change (MYSQL_NO_DATA =? 0) with false. change (MYSQL_NO_DATA =? MYSQL_NO_DATA) with true. cbv iota.
    cbn [lib]. by destruct (mysql unit FreeStmtResult w') as [w2 []].
Qed.

(** [while (stmt.next())] with what the variables hold after each call. *)
Fixpoint read_all (fuel : nat) : stm statement (list (list column)) :=
  match fuel with
  | O => lift NoFuel
  | S fuel => more ← next mysql;
      if (more : bool) then cs ← gets columns; l ← read_all fuel; mret (cs :: l) else mret []
  end.

(** C27: the loop [while (stmt.next())] over a result reads every row of it, in
    order and whole: whatever the length of a text, the buffer of its column grows
    until the text fits.  It ends after the last row, and throws only when the
    library fails, when a NULL comes to a column that does not expect one, or when
    an integer does not fit its variable. *)
Theorem next_reads_every_row (s : statement) fuel :
  Forall (bound true) (columns s) ->
  Forall (Forall2 (fun k d => typed k d = true) (sort_of <$> columns s)) (rows (lib s)) ->
  (length (rows (lib s)) < fuel)%nat ->
  match read_all fuel s with
  | (_, Ok l) => Forall2 (Forall2 holds) l (rows (lib s))
  | (_, Throw _) => ~ healthy (lib s) \/ Exists (fun d => existsb (fun kd => misfit kd.1 kd.2) (zip (sort_of <$> columns s) d) = true) (rows (lib s))
  | _ => False
  end.
Proof.
  remember (rows (lib s)) as l eqn:Hl. revert s fuel Hl. induction l as [|d l IH]; intros s [|fuel] Hl Hb Ht Hf; cbn [length] in Hf; try lia;
    cbn [read_all]; unfold mbind, stm_bind.
  - pose proof (next_end s (eq_sym Hl)) as H. destruct (next mysql s) as [s' [more|e| |]]; try done; [subst more; constructor|by left].
  - apply Forall_cons in Ht as [Ht1 Ht2].
    pose proof (next_row s d l (eq_sym Hl) Hb (proj1 (Forall2_fmap_l _ _ _ _) Ht1)) as H.
    destruct (next mysql s) as [s' [more|e| |]]; try done.
    + destruct H as (-> & H1 & H2 & H3 & H4 & H5). cbv [gets]. specialize (IH s' fuel (eq_sym H4) H2).
      rewrite H3 in IH. specialize (IH Ht2 ltac:(lia)). destruct (read_all fuel s') as [s2 [r|e| |]]; try done.
      * by constructor.
      * destruct IH as [IH|IH]; [left; auto|right; by constructor].
    + destruct H as [H|H]; [by left|right; by constructor].
Qed.
End Reading.

(** ** A library in memory *)

Definition mem_cell (k : field_type * bool * Z) (d : datum) : cell :=
  match d with
  | DNull => mkCell true false 0 [] 0
  | DInt z => mkCell false (negb (fits k.1.1 k.1.2 z)) 0 [] z
  | DText s => mkCell false (k.2 <? slen s) (slen s) (take (Z.to_nat k.2) s) 0
  end.

Definition mem_mysql (A : Type) (c : stsys A) (w : list (list datum) * list datum) : (list (list datum) * list datum) * A :=
  match c with
  | BindParam _ | StmtExecute | StoreResult | BindResult => (w, true)
  | Fetch ks =>
      match w.1 with
      | [] => (w, (MYSQL_NO_DATA, []))
      | d :: rest => let cells := zip_with mem_cell ks d in
          ((rest, d), (if existsb x_error cells then MYSQL_DATA_TRUNCATED else 0, cells))
      end
  | FetchColumn idx len => (w, mem_cell (TYPE_BLOB, false, len) <$> w.2 !! idx)
  | FreeStmtResult => (w, tt)
  | StmtError => (w, lit "error")
  end.

Lemma mem_cell_answer k d : answer k d (mem_cell k d).
Proof. by destruct d. Qed.

#[export] Instance mem_laws : StmtLaws mem_mysql.
Proof.
  refine {| rows := fst; current := snd; healthy := fun _ => True |}.
  - intros ks [l c] d rest. cbn. intros ->. right. split_and!; [done..|]. intros H. split; [|done].
    clear -H. induction H; cbn; constructor; auto using mem_cell_answer.
  - intros ks [l c]. cbn. intros ->. by right.
  - intros idx len [l c] s. cbn. intros ->. split_and!; done.
  - intros [l c]. done.
Defined.

(** *** Witness: a number and a long text, then NULL in their places *)

Definition witness_columns : list column :=
  [res_bind_optional (res_bind_integer 32 true 0) false (mkColumn TYPE_DECIMAL false false false false false (IntVar 0) 0 0 false);
   mkColumn TYPE_BLOB false true false false false (Buff [] 0 4) 4 4 true].

Definition witness_statement : @statement (list (list datum) * list datum) :=
  mkSt [] witness_columns ([[DInt 7; DText (lit "a long text")]; [DNull; DText (lit "abc")]; [DInt 4294967295; DNull]], []).

Lemma next_reads_every_row_witness :
  match read_all mem_mysql 4 witness_statement with
  | (_, Ok l) => Forall2 (Forall2 holds) l (rows (lib witness_statement))
  | (_, Throw _) => False
  | _ => False
  end /\ exists s l, read_all mem_mysql 4 witness_statement = (s, Ok l).
Proof.
  pose proof (next_reads_every_row mem_mysql witness_statement 4) as H. split.
  - assert (exists s l, read_all mem_mysql 4 witness_statement = (s, Ok l)) as (s & l & E) by (vm_compute; eauto).
    rewrite E in H |- *. apply H.
    + repeat constructor; try done; cbn; eauto.
    + repeat constructor.
    + cbn. lia.
  - vm_compute. eauto.
Defined.

(** ** What the binding does not do *)

(** [bind_copy] binds the copy through a pointer alone, so its length is searched
    for a zero the copy need not have. *)
Lemma bind_copy_reads_past_the_copy idx s l : s <> [] -> Forall (fun c => c <> NUL) s -> bind_copy idx s l = UB.
Proof.
  intros Hs H. unfold bind_copy, bind_chars. replace (match s with [] => [NUL] | _ => s end) with s by by destruct s.
  unfold strlen. assert (find_index (fun c => c =c NUL) s = None) as ->; [|done].
  clear Hs. induction H as [|c s Hc H IH]; [done|]. cbn. rewrite IH. destruct (c =c NUL) eqn:E; [by apply Ascii.eqb_eq in E|done].
Qed.

(** The value [next] reports when another column was cut: no check for NULL. *)
Definition cut_columns : list column :=
  [mkColumn TYPE_LONG false false false false false (IntVar 5) 0 0 false; mkColumn TYPE_BLOB false false false false false (Buff [] 0 4) 4 4 true].

Lemma null_missed_when_cut :
  (next mem_mysql (mkSt [] cut_columns ([[DNull; DText (lit "abcdef")]], []))).2 = Ok true /\
  exists e, (next mem_mysql (mkSt [] cut_columns ([[DNull; DText (lit "abc")]], []))).2 = Throw e.
Proof. split; [reflexivity|]. vm_compute. eauto. Qed.
