(* ===== verification/SimpleParser.v ===== *)
(** * Parsers over a string view

    Models [include/simlib/simple_parser.hh] ([SimpleParser]) and
    [include/simlib/request_uri_parser.hh] ([RequestUriParser]).  An operation
    returns what it extracts together with what is left in the parser. *)

From Stdlib Require Import ZArith Lia Ascii.
From S2P Require Import Prelude.
From S2P Require Import Ctype.
From S2P Require Import StringView.
From S2P Require Import StringTraits.
From S2P Require Import StringCompare.

Module SP.

Definition is_next (buff s : str) (delimiter : ascii) : bool :=
  match compare_to buff 0 delimiter s with Ok rc => (rc =? 0)%Z | _ => false end.

(** The position of the first delimiter ([size()] when there is none). *)
Definition next_pos (is_delimiter : ascii -> bool) (buff : str) : nat :=
  length (take_while (fun c => negb (is_delimiter c)) buff).

Definition extract_next (is_delimiter : ascii -> bool) (buff : str) : str * str :=
  let pos := next_pos is_delimiter buff in
  (take pos buff, SV.remove_prefix buff (pos + 1)).

Definition extract_next_non_empty (is_delimiter : ascii -> bool) (buff : str) : str * str :=
  extract_next is_delimiter (SV.remove_leading is_delimiter buff).

Definition extract_next_char (delimiter : ascii) (buff : str) : str * str :=
  extract_next (fun c => c =c delimiter) buff.

Definition extract_next_non_empty_char (delimiter : ascii) (buff : str) : str * str :=
  extract_next_non_empty (fun c => c =c delimiter) buff.

(** ** Properties *)

Lemma extract_next_eq f s :
  extract_next f s = (take_while (fun c => negb (f c)) s,
                      drop 1 (drop_while (fun c => negb (f c)) s)).
Proof.
  unfold extract_next, next_pos. rewrite SV.remove_prefix_drop.
  set (g := fun c => negb (f c)). f_equal.
  - transitivity (take (length (take_while g s)) (take_while g s ++ drop_while g s)).
    + by rewrite take_drop_while.
    + apply take_app_length.
  - transitivity (drop (length (take_while g s) + 1) (take_while g s ++ drop_while g s)).
    + by rewrite take_drop_while.
    + apply drop_app_add.
Qed.

(** What is extracted has no delimiter. *)
Lemma extract_next_no_delim f s : Forall (fun c => f c = false) (extract_next f s).1.
Proof.
  rewrite extract_next_eq.
  eapply List.Forall_impl; [|exact (take_while_forall (fun c => negb (f c)) s)].
  simpl. intros c. apply negb_true_iff.
Qed.

(** A word that starts the buffer and ends at a delimiter (or at the end) is
    what the next extraction returns. *)
Lemma extract_next_word f w d s : Forall (fun c => f c = false) w -> f d = true ->
  extract_next f (w ++ d :: s) = (w, s).
Proof.
  intros Hw Hd. rewrite extract_next_eq.
  assert (Forall (fun c => negb (f c) = true) w) as Hw'
    by (eapply List.Forall_impl; [|exact Hw]; simpl; intros c ->; done).
  rewrite take_while_app, drop_while_app by done. simpl. rewrite Hd. simpl.
  by rewrite app_nil_r.
Qed.

Lemma extract_next_last f w : Forall (fun c => f c = false) w -> extract_next f w = (w, []).
Proof.
  intros Hw. rewrite extract_next_eq.
  assert (Forall (fun c => negb (f c) = true) w) as Hw'
    by (eapply List.Forall_impl; [|exact Hw]; simpl; intros c ->; done).
  rewrite <- (app_nil_r w) at 1 2. rewrite take_while_app, drop_while_app by done.
  simpl. by rewrite app_nil_r.
Qed.

Lemma length_extract_next_non_empty f s :
  length (extract_next_non_empty f s).2 <= length s.
Proof.
  unfold extract_next_non_empty. rewrite extract_next_eq. simpl.
  rewrite length_drop. pose proof (length_drop_while (fun c => negb (f c)) (SV.remove_leading f s)).
  pose proof (length_drop_while f s). unfold SV.remove_leading in *. lia.
Qed.

End SP.

Module RequestUri.

Definition is_arg_char (c : ascii) : bool := negb (c =c "/") && negb (c =c "?").

Definition extract_next_arg (buff : str) : str * str :=
  match buff with
  | [] => ([], buff)
  | c :: rest =>
      if negb (c =c "/") then ([], buff)
      else
        let pos := 1 + length (take_while is_arg_char rest) in
        match SV.substr buff 1 (pos - 1) with
        | Ok res => (res, SV.remove_prefix buff pos)
        | _ => ([], buff)
        end
  end.

Definition extract_query (buff : str) : str * str :=
  match buff with
  | [] => ([], buff)
  | c :: rest => if negb (c =c "?") then ([], buff) else (rest, [])
  end.

(** All the arguments, as a request handler takes them one by one. *)
Fixpoint extract_args (fuel : nat) (buff : str) : list str * str :=
  match fuel with
  | 0 => ([], buff)
  | S fuel' =>
      match buff with
      | c :: _ =>
          if c =c "/" then
            let '(arg, rest) := extract_next_arg buff in
            let '(args, rest) := extract_args fuel' rest in
            (arg :: args, rest)
          else ([], buff)
      | [] => ([], buff)
      end
  end.

(** ** Properties *)

Lemma extract_next_arg_slash rest :
  extract_next_arg ("/"%char :: rest) = (take_while is_arg_char rest, drop_while is_arg_char rest).
Proof.
  unfold extract_next_arg. cbn [char_eqb negb].
  change ("/"%char =c "/") with true. cbn [negb].
  unfold SV.substr. cbn [length]. rewrite (proj2 (Nat.ltb_ge _ _)) by lia.
  set (n := length (take_while is_arg_char rest)).
  assert (n <= length rest) as Hn.
  { unfold n. rewrite <- (take_drop_while is_arg_char rest) at 2. rewrite length_app. lia. }
  replace (1 + n - 1) with n by lia. rewrite Nat.min_l by lia.
  rewrite SV.remove_prefix_drop. cbn [Nat.add skipn drop]. f_equal.
  - transitivity (take n (take_while is_arg_char rest ++ drop_while is_arg_char rest)).
    + by rewrite take_drop_while.
    + apply take_app_length.
  - transitivity (drop n (take_while is_arg_char rest ++ drop_while is_arg_char rest)).
    + by rewrite take_drop_while.
    + apply drop_app_length.
Qed.

End RequestUri.
