(* ===== verification/Path.v ===== *)
(** * Paths

    Models [include/simlib/path.hh] and [src/path.cc]. *)

From Stdlib Require Import ZArith Lia Ascii.
From S2P Require Import Prelude.
From S2P Require Import Ctype.
From S2P Require Import StringView.
From S2P Require Import StringTraits.

Definition slash : str := ["/"%char].

Definition path_filename (path : str) : str :=
  match SV.rfind_char path "/" 0 with
  | None => path
  | Some pos => drop (pos + 1) path
  end.

Definition path_extension (path : str) : str :=
  let start_pos := match SV.rfind_char path "/" 0 with None => 0 | Some p => p + 1 end in
  match SV.rfind_char path "." start_pos with
  | None => []
  | Some x => drop (x + 1) path
  end.

Definition path_dirpath (path : str) : str :=
  match SV.rfind_char path "/" 0 with
  | None => []
  | Some pos => take (pos + 1) path
  end.

(** The lambda [erase_last_component]. *)
Definition erase_last_component (curr_path : str) : str :=
  let curr_path :=
    if has_suffix curr_path slash && negb (SV.eqb curr_path slash)
    then removelast curr_path else curr_path in
  take (length curr_path - length (path_filename curr_path)) curr_path.

(** The lambda [process_component]. *)
Definition process_component (curr_path component : str) : str :=
  if SV.eqb component (lit "..") then erase_last_component curr_path
  else
    let curr_path :=
      if negb (has_suffix curr_path slash) && negb (SV.empty curr_path)
      then curr_path ++ slash else curr_path in
    if SV.eqb component (lit ".") then curr_path else curr_path ++ component.

(** The loop over the components of [path], from position [i]. *)
Fixpoint path_absolute_loop (fuel : nat) (path : str) (i : nat) (curr_path : str) : outcome str :=
  match fuel with
  | 0 => NoFuel
  | S fuel' =>
      match path !! i with
      | None => Ok curr_path
      | Some c =>
          if c =c "/" then path_absolute_loop fuel' path (S i) curr_path
          else
            let next_slash_pos :=
              match SV.find_char path "/" (i + 1) with
              | Some p => p `min` length path
              | None => length path
              end in
            component ← SV.substring path i next_slash_pos;
            path_absolute_loop fuel' path (S next_slash_pos) (process_component curr_path component)
      end
  end.

Definition path_absolute (path curr_dir : str) : outcome str :=
  match path with
  | [] => Ok curr_dir
  | c :: _ =>
      let curr_path := if c =c "/" then slash else curr_dir in
      let curr_path := if negb (has_suffix curr_path slash) then curr_path ++ slash else curr_path in
      curr_path ← path_absolute_loop (S (length path)) path 0 curr_path;
      Ok (if has_suffix path slash && negb (has_suffix curr_path slash)
          then curr_path ++ slash else curr_path)
  end.

(** [path_exists] is the file system's answer. *)
Section Ancestors.
Variable path_exists : str -> bool.

(** One turn of the loop of [deepest_ancestor_dir_with_subpath] per ancestor. *)
Fixpoint deepest_ancestor_loop (fuel : nat) (path subpath : str) : outcome (option str) :=
  match fuel with
  | 0 => NoFuel
  | S fuel' =>
      let path_len := length (path_dirpath path) in
      let path := take path_len path in
      let end_ := path_len <? 2 in
      if end_ && negb (SV.empty path || SV.eqb path slash) then UB
      else
        let candidate := path ++ subpath in
        if path_exists candidate then Ok (Some candidate)
        else if end_ then Ok None
        else deepest_ancestor_loop fuel' (take (path_len - 1) candidate) subpath
  end.

Definition deepest_ancestor_dir_with_subpath (path subpath : str) : outcome (option str) :=
  deepest_ancestor_loop (S (length path)) path (SV.remove_leading_char "/" subpath).
End Ancestors.

(** ** Specification: a path as a stack of components *)

Definition is_slash (c : ascii) : bool := c =c "/".

(** The non-empty components of a path. *)
Fixpoint components_from (cur : str) (s : str) : list str :=
  match s with
  | [] => if SV.empty cur then [] else [cur]
  | c :: s' =>
      if is_slash c
      then (if SV.empty cur then components_from [] s' else cur :: components_from [] s')
      else components_from (cur ++ [c]) s'
  end.

Definition components (s : str) : list str := components_from [] s.

(** [..] leaves the last directory, [.] stays. *)
Definition walk (stack : list str) (component : str) : list str :=
  if decide (component = lit "..") then removelast stack
  else if decide (component = lit ".") then stack
  else stack ++ [component].

Definition stays_dir (component : str) : bool :=
  bool_decide (component = lit ".." \/ component = lit ".").

(** The path of the directory reached through the components of [stack], and
    the path of what they name. *)
Definition dir_path (stack : list str) : str := slash ++ flat_map (fun c => c ++ slash) stack.

Definition render (stack : list str) (as_dir : bool) : str :=
  if as_dir then dir_path stack else dir_path (removelast stack) ++ default [] (last stack).

(** A component of a normalised path. *)
Definition plain_component (c : str) : Prop :=
  c <> [] /\ Forall (fun x => is_slash x = false) c /\ c <> lit "." /\ c <> lit "..".

(** ** Proofs *)

Lemma render_snoc stack c : render (stack ++ [c]) false = dir_path stack ++ c.
Proof. unfold render. by rewrite removelast_last, last_snoc. Qed.

Lemma dir_path_snoc stack c : dir_path (stack ++ [c]) = dir_path stack ++ c ++ slash.
Proof. unfold dir_path. rewrite flat_map_app. simpl. by rewrite app_nil_r. Qed.

Lemma dir_path_slash stack : exists p, dir_path stack = p ++ slash.
Proof.
  destruct stack as [|c st] using rev_ind; [by exists []|].
  rewrite dir_path_snoc. exists (dir_path st ++ c). by rewrite app_assoc.
Qed.

Lemma has_suffix_slash p : has_suffix (p ++ slash) slash = true.
Proof. apply has_suffix_spec. by exists p. Qed.

Lemma has_suffix_slash_false p c : is_slash c = false -> has_suffix (p ++ [c]) slash = false.
Proof.
  intros Hc. destruct (has_suffix _ _) eqn:E; [|done].
  apply has_suffix_spec in E as [l E]. apply app_inj_tail in E as [_ ->]. done.
Qed.

Lemma no_slash_lookup x i : Forall (fun c => is_slash c = false) x -> x !! i <> Some "/"%char.
Proof. intros H Hi. by apply (Forall_lookup_1 _ _ _ _ H) in Hi. Qed.

Lemma rfind_slash p x : Forall (fun c => is_slash c = false) x ->
  SV.rfind_char (p ++ slash ++ x) "/" 0 = Some (length p).
Proof.
  intros Hx. pose proof (SV.rfind_char_spec (p ++ slash ++ x) "/" 0) as H.
  assert ((p ++ slash ++ x) !! length p = Some "/"%char) as Hp
    by (rewrite lookup_app_r, Nat.sub_diag by lia; done).
  destruct (SV.rfind_char _ _ _) as [i|].
  - destruct H as (_ & Hi & Hmax). f_equal.
    destruct (Nat.lt_trichotomy i (length p)) as [L|[?|L]]; [by exfalso; eapply Hmax|done|].
    exfalso. rewrite lookup_app_r, lookup_app_r in Hi; simpl in *; [|lia..].
    by apply no_slash_lookup in Hi.
  - exfalso. by apply (H (length p)); [lia|].
Qed.

Lemma path_filename_app p x : Forall (fun c => is_slash c = false) x ->
  path_filename (p ++ slash ++ x) = x.
Proof.
  intros Hx. unfold path_filename. rewrite rfind_slash by done.
  rewrite (app_assoc p slash x). replace (length p + 1) with (length (p ++ slash))
    by (by rewrite length_app). apply drop_app_length.
Qed.

Lemma dir_path_app stack x : exists p, dir_path stack ++ x = p ++ slash ++ x.
Proof. destruct (dir_path_slash stack) as [p ->]. exists p. by rewrite app_assoc. Qed.

Lemma path_filename_dir stack x : Forall (fun c => is_slash c = false) x ->
  path_filename (dir_path stack ++ x) = x.
Proof. intros Hx. destruct (dir_path_app stack x) as [p ->]. by apply path_filename_app. Qed.

Lemma plain_last c : c <> [] -> Forall (fun x => is_slash x = false) c ->
  exists d x, c = d ++ [x] /\ is_slash x = false.
Proof.
  intros Hne Hc. destruct c as [|x d] using rev_ind; [done|].
  apply Forall_app in Hc as [_ Hx]. inversion Hx; subst. eauto.
Qed.

Lemma erase_last_component_render stack as_dir :
  Forall plain_component stack ->
  erase_last_component (render stack as_dir) = dir_path (removelast stack).
Proof.
  intros Hst. unfold erase_last_component. destruct stack as [|c st] using rev_ind.
  { destruct as_dir; reflexivity. }
  clear IHst. apply Forall_app in Hst as [_ Hc]. inversion Hc as [|? ? [Hne [Hns _]]]; subst.
  destruct (plain_last c Hne Hns) as (d & x & -> & Hx).
  assert ((if has_suffix (render (st ++ [d ++ [x]]) as_dir) slash &&
              negb (SV.eqb (render (st ++ [d ++ [x]]) as_dir) slash)
           then removelast (render (st ++ [d ++ [x]]) as_dir)
           else render (st ++ [d ++ [x]]) as_dir) = dir_path st ++ d ++ [x]) as ->.
  { destruct as_dir.
    - unfold render. rewrite dir_path_snoc.
      rewrite !(app_assoc (dir_path st)), has_suffix_slash. cbn [andb].
      destruct (SV.eqb _ slash) eqn:E; cbn [negb].
      + apply SV.eqb_eq, (f_equal length) in E. rewrite !length_app in E. simpl in E. lia.
      + unfold slash. by rewrite removelast_last.
    - rewrite render_snoc, app_assoc, has_suffix_slash_false by done. by rewrite <- app_assoc. }
  rewrite path_filename_dir by done. rewrite removelast_last.
  rewrite (length_app (dir_path st)), Nat.add_sub. apply take_app_length.
Qed.

Lemma add_slash_render stack as_dir : Forall plain_component stack ->
  (if negb (has_suffix (render stack as_dir) slash) && negb (SV.empty (render stack as_dir))
   then render stack as_dir ++ slash else render stack as_dir) = dir_path stack.
Proof.
  intros Hst. destruct as_dir.
  { unfold render. destruct (dir_path_slash stack) as [p Hp].
    by rewrite Hp, has_suffix_slash. }
  destruct stack as [|c st] using rev_ind; [done|]. clear IHst.
  apply Forall_app in Hst as [_ Hc]. inversion Hc as [|? ? [Hne [Hns _]]]; subst.
  destruct (plain_last c Hne Hns) as (d & x & -> & Hx).
  rewrite render_snoc, app_assoc, has_suffix_slash_false by done.
  unfold SV.empty. rewrite (proj2 (Nat.eqb_neq _ _)) by (rewrite length_app; simpl; lia).
  cbn [negb andb]. rewrite dir_path_snoc. by rewrite <- !app_assoc.
Qed.

Lemma plain_removelast stack : Forall plain_component stack -> Forall plain_component (removelast stack).
Proof.
  intros H. destruct stack as [|c st] using rev_ind; [done|].
  rewrite removelast_last. by apply Forall_app in H as [H _].
Qed.

(** One component processed by the code is one step of the walk. *)
Lemma process_component_render stack as_dir c :
  Forall plain_component stack -> c <> [] -> Forall (fun x => is_slash x = false) c ->
  process_component (render stack as_dir) c = render (walk stack c) (stays_dir c) /\
  Forall plain_component (walk stack c).
Proof.
  intros Hst Hne Hns. unfold process_component, walk, stays_dir.
  rewrite !SV.eqb_decide, add_slash_render by done.
  destruct (decide (c = lit "..")) as [->|H1].
  { rewrite !bool_decide_eq_true_2 by auto. split; [by apply erase_last_component_render|].
    by apply plain_removelast. }
  rewrite (bool_decide_eq_false_2 (c = lit "..")) by done.
  destruct (decide (c = lit ".")) as [->|H2].
  { rewrite !bool_decide_eq_true_2 by auto. done. }
  rewrite !bool_decide_eq_false_2 by naive_solver. rewrite render_snoc. split; [done|].
  apply Forall_app. split; [done|]. repeat constructor; auto.
Qed.

Definition walk_all (stack : list str) (cs : list str) : list str := fold_left walk cs stack.

(** Whether the walk ends at a path written with a trailing slash. *)
Definition ends_as_dir (as_dir : bool) (cs : list str) : bool :=
  match last cs with None => as_dir | Some c => stays_dir c end.

Lemma components_from_word cur w s : Forall (fun x => is_slash x = false) w ->
  components_from cur (w ++ s) = components_from (cur ++ w) s.
Proof.
  intros Hw. revert cur. induction Hw as [|x w Hx Hw IH]; intros cur; [by rewrite app_nil_r|].
  cbn [app components_from]. by rewrite Hx, IH, <- app_assoc.
Qed.

Lemma components_word w s : w <> [] -> Forall (fun x => is_slash x = false) w ->
  components (w ++ "/"%char :: s) = w :: components s.
Proof.
  intros Hne Hw. unfold components. rewrite components_from_word by done.
  destruct w; done.
Qed.

Lemma components_last w : w <> [] -> Forall (fun x => is_slash x = false) w -> components w = [w].
Proof.
  intros Hne Hw. unfold components. rewrite <- (app_nil_r w) at 1.
  rewrite components_from_word by done. by destruct w.
Qed.

Lemma components_plain s : Forall (fun c => c <> [] /\ Forall (fun x => is_slash x = false) c) (components s).
Proof.
  unfold components. enough (forall cur, Forall (fun x => is_slash x = false) cur ->
    Forall (fun c => c <> [] /\ Forall (fun x => is_slash x = false) c) (components_from cur s)) as H
    by (apply H; constructor).
  induction s as [|c s IH]; intros cur Hcur; simpl.
  - destruct cur as [|x cur]; [constructor|]. apply Forall_singleton. split; [done|exact Hcur].
  - destruct (is_slash c) eqn:E.
    + destruct cur; [by apply IH|]. constructor; [done|]. apply IH. constructor.
    + apply IH. apply Forall_app. auto.
Qed.

(** The component at a position that is not a slash, as the code finds it. *)
Lemma next_component path i c : path !! i = Some c -> is_slash c = false ->
  let next := match SV.find_char path "/" (i + 1) with
              | Some p => p `min` length path | None => length path end in
  exists w, SV.substring path i next = Ok w /\ w <> [] /\ Forall (fun x => is_slash x = false) w /\
    i < next /\ components (drop i path) = w :: components (drop (S next) path).
Proof.
  intros Hi Hc next. pose proof (lookup_lt_Some _ _ _ Hi) as Hlt.
  pose proof (SV.find_char_spec path "/" (i + 1)) as Hf.
  assert (i < next <= length path /\ (forall j, i < j < next -> path !! j <> Some "/"%char) /\
          (next = length path \/ path !! next = Some "/"%char)) as (Hn & Hno & Hor).
  { unfold next. destruct (SV.find_char _ _ _) as [p|].
    - destruct Hf as (H1 & H2 & H3). rewrite Nat.min_l by lia. split_and!; auto; try lia.
      intros j Hj. apply H3. lia.
    - split_and!; auto; try lia. intros j Hj. apply Hf. lia. }
  clearbody next. clear Hf. exists (take (next - i) (drop i path)).
  assert (Forall (fun x => is_slash x = false) (take (next - i) (drop i path))) as Hw.
  { apply Forall_lookup_2. intros j x Hj. apply lookup_take_Some in Hj as [Hj Hlj].
    rewrite lookup_drop in Hj. destruct (decide (j = 0)) as [->|].
    - rewrite Nat.add_0_r in Hj. congruence.
    - destruct (is_slash x) eqn:E; [|done]. apply char_eqb_eq in E as ->.
      exfalso. by apply (Hno (i + j)); [lia|]. }
  assert (take (next - i) (drop i path) <> []) as Hne.
  { intros E. apply (f_equal length) in E. rewrite length_take, length_drop in E. simpl in E. lia. }
  split_and!; auto; try lia.
  - unfold SV.substring. rewrite (proj2 (Nat.ltb_ge next i)), (proj2 (Nat.ltb_ge _ _)) by lia.
    cbn [orb]. by rewrite Nat.min_r by lia.
  - rewrite <- (take_drop (next - i) (drop i path)) at 1. rewrite drop_drop.
    replace (i + (next - i)) with next by lia. destruct Hor as [->|Hs].
    + rewrite (drop_ge path (length path)), (drop_ge path (S (length path))) by lia.
      rewrite app_nil_r. by apply components_last.
    + rewrite (drop_S _ _ _ Hs). by apply components_word.
Qed.

Lemma path_absolute_loop_spec path : forall fuel i stack as_dir,
  length path < fuel + i -> 0 < fuel -> Forall plain_component stack ->
  let cs := components (drop i path) in
  path_absolute_loop fuel path i (render stack as_dir) =
    Ok (render (walk_all stack cs) (ends_as_dir as_dir cs)) /\
  Forall plain_component (walk_all stack cs).
Proof.
  induction fuel as [|fuel IH]; intros i stack as_dir Hf Hf0 Hst; cbn zeta; [lia|].
  cbn [path_absolute_loop]. destruct (path !! i) as [c|] eqn:Hi.
  2: { apply lookup_ge_None in Hi. rewrite drop_ge by lia. done. }
  pose proof (lookup_lt_Some _ _ _ Hi) as Hlt.
  change (c =c "/") with (is_slash c). destruct (is_slash c) eqn:Hc.
  - rewrite (drop_S _ _ _ Hi). apply char_eqb_eq in Hc as ->. by apply IH; [lia..|].
  - destruct (next_component path i c Hi Hc) as (w & -> & Hne & Hw & Hn & ->).
    set (next := match SV.find_char _ _ _ with Some p => _ | None => _ end) in *. cbn [mbind outcome_bind].
    destruct (process_component_render stack as_dir w Hst Hne Hw) as [-> Hst'].
    destruct (IH (S next) (walk stack w) (stays_dir w)) as [-> Hfin]; [lia..|done|].
    split; [|exact Hfin]. f_equal. unfold walk_all, ends_as_dir. cbn [fold_left].
    destruct (components (drop (S next) path)) as [|w' cs]; [done|].
    change (last (w :: w' :: cs)) with (last (w' :: cs)). destruct (last (w' :: cs)) eqn:E; [done|].
    by apply last_None in E.
Qed.

Lemma has_suffix_render stack as_dir : Forall plain_component stack ->
  (if negb (has_suffix (render stack as_dir) slash) then render stack as_dir ++ slash
   else render stack as_dir) = dir_path stack.
Proof.
  intros Hst. rewrite <- (add_slash_render stack as_dir Hst).
  assert (SV.empty (render stack as_dir) = false) as ->; [|by rewrite andb_true_r].
  apply Nat.eqb_neq. destruct as_dir; unfold render, dir_path; rewrite ?length_app; simpl; lia.
Qed.

(** [path_absolute] of a non-empty path, started in a normalised directory, is
    the walk through its components. *)
Lemma path_absolute_spec path stack as_dir :
  path <> [] -> Forall plain_component stack ->
  let start := if has_prefix path slash then [] else stack in
  let final := walk_all start (components path) in
  path_absolute path (render stack as_dir) =
    Ok (render final (ends_as_dir true (components path) || has_suffix path slash)) /\
  Forall plain_component final.
Proof.
  intros Hne Hst. cbn zeta. destruct path as [|c path']; [done|]. set (path := c :: path') in *.
  assert (has_prefix path slash = is_slash c) as Hpre.
  { apply Bool.eq_iff_eq_true. rewrite has_prefix_spec. unfold is_slash. rewrite char_eqb_eq. split.
    - intros [k Hk]. by simplify_eq/=.
    - intros ->. by exists path'. }
  rewrite Hpre. unfold path_absolute. unfold path at 1. cbv beta iota zeta.
  change (c =c "/") with (is_slash c).
  set (start := if is_slash c then [] else stack).
  assert (Forall plain_component start) as Hstart by (unfold start; destruct (is_slash c); auto).
  match goal with |- context [path_absolute_loop _ _ 0 ?x] =>
    replace x with (render start true) end.
  2: { unfold start. destruct (is_slash c); [done|]. symmetry. by apply has_suffix_render. }
  destruct (path_absolute_loop_spec path (S (length path)) 0 start true) as [E Hfin]; [lia..|done|].
  rewrite skipn_O in E, Hfin. rewrite E. cbn [mbind outcome_bind]. split; [|done]. f_equal.
  destruct (has_suffix path slash); [|by rewrite orb_false_r].
  rewrite orb_true_r. cbn [andb]. by apply has_suffix_render.
Qed.

(** Resolved against the root, a non-empty path becomes the absolute path of
    the components that remain after [.] and [..] are resolved: it has no empty,
    [.] or [..] component, so it never leaves the root. *)
Theorem path_absolute_root path : path <> [] ->
  exists as_dir,
    path_absolute path slash = Ok (render (walk_all [] (components path)) as_dir) /\
    Forall plain_component (walk_all [] (components path)).
Proof.
  intros Hne. destruct (path_absolute_spec path [] true Hne ltac:(constructor)) as [E H].
  replace (if has_prefix path slash then [] else []) with (@nil str) in E, H by (by destruct (has_prefix _ _)).
  eexists. split; [exact E|exact H].
Qed.

Lemma path_absolute_root_witness :
  exists as_dir,
    path_absolute (lit "a/../../b/./c/") slash =
      Ok (render (walk_all [] (components (lit "a/../../b/./c/"))) as_dir) /\
    Forall plain_component (walk_all [] (components (lit "a/../../b/./c/"))).
Proof. apply (path_absolute_root (lit "a/../../b/./c/")). discriminate. Defined.

(** The components of a rendered stack are the stack: rendering loses nothing. *)
Lemma components_dir_path stack s : Forall plain_component stack ->
  components (dir_path stack ++ s) = stack ++ components s.
Proof.
  intros H. change (dir_path stack ++ s)
    with ("/"%char :: (flat_map (fun c => c ++ slash) stack ++ s)).
  change (components ("/"%char :: (flat_map (fun c => c ++ slash) stack ++ s)))
    with (components (flat_map (fun c => c ++ slash) stack ++ s)).
  induction H as [|c st [Hne [Hns _]] Hst IH]; [done|].
  cbn [flat_map]. rewrite <- !app_assoc. unfold slash at 1. cbn [app].
  by rewrite components_word, IH.
Qed.

Lemma components_render stack as_dir : Forall plain_component stack ->
  components (render stack as_dir) = stack.
Proof.
  intros H. destruct as_dir; unfold render.
  - rewrite <- (app_nil_r (dir_path stack)), components_dir_path by done. apply app_nil_r.
  - destruct stack as [|c st] using rev_ind; [done|]. clear IHst.
    rewrite removelast_last, last_snoc. apply Forall_app in H as [Hst Hc].
    inversion Hc as [|? ? [Hne [Hns _]]]; subst. cbn [default].
    by rewrite components_dir_path, components_last.
Qed.

Lemma walk_all_plain stack : Forall plain_component stack -> walk_all [] stack = stack.
Proof.
  intros H. assert (forall acc, walk_all acc stack = acc ++ stack) as E; [|by rewrite E].
  induction H as [|c st (_ & _ & H1 & H2) Hst IH]; intros acc; [by rewrite app_nil_r|].
  unfold walk_all in *. cbn [fold_left]. rewrite IH. unfold walk.
  rewrite decide_False, decide_False by done. by rewrite <- app_assoc.
Qed.

(** A rendered path names a directory by its trailing slash; the one of a plain
    component has none. *)
Lemma has_suffix_dir_path stack : has_suffix (dir_path stack) slash = true.
Proof. destruct (dir_path_slash stack) as [p ->]. apply has_suffix_slash. Qed.

Lemma has_suffix_plain stack c : plain_component c -> has_suffix (dir_path stack ++ c) slash = false.
Proof.
  intros (Hne & Hns & _). destruct (plain_last c Hne Hns) as (d & x & -> & Hx).
  rewrite app_assoc. by apply has_suffix_slash_false.
Qed.

(** Normalising a normalised path, absolute or with the leading slash taken off,
    gives it back. *)
Lemma path_absolute_normal stack as_dir path :
  Forall plain_component stack -> (as_dir = false -> stack <> []) -> path <> [] ->
  (path = render stack as_dir \/ slash ++ path = render stack as_dir) ->
  path_absolute path slash = Ok (render stack as_dir).
Proof.
  intros Hst Hd Hne Hp. destruct (path_absolute_spec path [] true Hne ltac:(constructor)) as [E _].
  change (render [] true) with slash in E. rewrite E. clear E.
  replace (if has_prefix path slash then [] else []) with (@nil str) by (by destruct (has_prefix _ _)).
  assert (components path = stack) as ->.
  { destruct Hp as [->|E]; [by apply components_render|].
    rewrite <- (components_render stack as_dir Hst), <- E. done. }
  rewrite walk_all_plain by done. do 2 f_equal.
  assert (has_suffix path slash = has_suffix (render stack as_dir) slash) as ->.
  { destruct Hp as [->|<-]; [done|]. apply Bool.eq_iff_eq_true. rewrite !has_suffix_spec. split.
    - apply suffix_app_r.
    - intros [k E]. destruct path as [|c path] using rev_ind; [done|]. rewrite app_assoc in E.
      apply app_inj_tail in E as [_ ->]. by exists path. }
  destruct as_dir; unfold render.
  - by rewrite has_suffix_dir_path, orb_true_r.
  - destruct stack as [|c st] using rev_ind; [by destruct Hd|]. clear IHst.
    apply Forall_app in Hst as [_ Hc]. inversion Hc as [|? ? Hc']; subst.
    rewrite removelast_last, last_snoc. cbn [default]. rewrite has_suffix_plain by done.
    unfold ends_as_dir. rewrite last_snoc. destruct Hc' as (_ & _ & H1 & H2).
    rewrite orb_false_r. unfold stays_dir. apply bool_decide_eq_false_2. naive_solver.
Qed.

(** The stack and the trailing slash [path_absolute] ends with. *)
Lemma path_absolute_result path : exists stack as_dir,
  path_absolute path slash = Ok (render stack as_dir) /\
  Forall plain_component stack /\ (as_dir = false -> stack <> []).
Proof.
  destruct path as [|c path']; [by exists [], true|]. set (path := c :: path').
  destruct (path_absolute_spec path [] true) as [E H]; [done|constructor|].
  replace (if has_prefix path slash then [] else []) with (@nil str) in E, H by (by destruct (has_prefix _ _)).
  do 2 eexists. split; [exact E|]. split; [exact H|]. intros Hd.
  apply orb_false_iff in Hd as [Hd _]. unfold ends_as_dir in Hd.
  destruct (components path) as [|w cs _] using rev_ind; [done|]. rewrite last_snoc in Hd.
  unfold walk_all. rewrite fold_left_app. cbn [fold_left]. unfold stays_dir in Hd. unfold walk at 1.
  apply bool_decide_eq_false in Hd. rewrite !decide_False by tauto. by destruct (fold_left walk cs []).
Qed.

(** [path_absolute] is idempotent: normalising a normalised path changes
    nothing. *)
Theorem path_absolute_idempotent path : exists p,
  path_absolute path slash = Ok p /\ path_absolute p slash = Ok p.
Proof.
  destruct (path_absolute_result path) as (st & d & E & H1 & H2). exists (render st d).
  split; [exact E|]. apply path_absolute_normal; [done|done| |by left].
  destruct d; unfold render, dir_path; done.
Qed.
