(* ===== verification/LibArchive.v ===== *)
(** * Archives through libarchive

    [libarchive_zip.hh]: going through the entries of an archive, extracting them
    below a directory and reading one of them.  libarchive answers requests and is
    a parameter, as is the kernel.  Each function has one archive it reads and one
    it writes to, so that requests do not name them; [Defer] is what
    [with_guard] runs on every way out. *)

From Stdlib Require Import ZArith Lia Ascii.
From S2P Require Import Prelude.
From S2P Require Import StringView.
From S2P Require Import FileIo.
From S2P Require Import Path.
Local Open Scope Z_scope.

Definition ARCHIVE_EXTRACT_SECURE_SYMLINKS : Z := 256.
Definition BLOCK_SIZE : Z := 2 ^ 18.
Definition STRING_MAX_SIZE : Z := 2 ^ 63 - 1.

(** [archive_entry_pathname] is null when the name cannot be converted. *)
Record archive_entry := mkEntry { pathname : option str; size : Z }.

Inductive header := Eof | HeaderFailed | Header (entry : archive_entry).

(** [bool] answers are "no failure"; [ReadData] answers [None] for an error and
    nothing at the end of the entry. *)
Inductive arsys : Type -> Type :=
| ReadNew : arsys bool
| ReadFree : arsys unit
| WriteDiskNew : arsys bool
| WriteFree : arsys unit
| SetOptions (flags : Z) : arsys unit
| Setup : arsys unit
| ReadOpenFd (fd block_size : Z) : arsys bool
| NextHeader : arsys header
| WriteHeader (path : str) (entry : archive_entry) : arsys bool
| ReadData (length : Z) : arsys (option str)
| WriteData (data : str) : arsys Z
| FinishEntry : arsys bool.

Section LibArchive.
Context {W : Type}.
Variable kernel : forall A, fsys A -> W -> W * A.
Variable libarchive : forall A, arsys A -> W -> W * A.
Arguments libarchive {A}.

Abbreviation M := (stm (io W)).

Definition archive_call {A} (c : arsys A) : M A := fun s =>
  let (w, a) := libarchive c (world s) in (mkIo (errno s) w, Ok a).

Definition check_archive (what : str) (c : arsys bool) : M unit :=
  ok ← archive_call c; if (ok : bool) then mret tt else throw_error what.

Definition with_guard {A} (guard : arsys unit) (m : M A) : M A := fun s =>
  match m s with
  | (s1, UB) => (s1, UB)
  | (s1, NoFuel) => (s1, NoFuel)
  | (s1, r) => let (s2, _) := archive_call guard s1 in (s2, r)
  end.

(** [throw_assert(in)], the guard and [archive_read_open_fd] *)
Definition with_reader {A} (m : M A) : M A :=
  _ ← check_archive (lit "Assertion `in` failed") ReadNew; with_guard ReadFree m.

Definition open_archive (archive_fd : Z) : M unit :=
  check_archive (lit "archive_read_open_fd() - ") (ReadOpenFd archive_fd BLOCK_SIZE).

Definition next_header : M (option archive_entry) :=
  r ← archive_call NextHeader;
  match r with
  | Eof => mret None
  | HeaderFailed => throw_error (lit "archive_read_next_header() - ")
  | Header entry => mret (Some entry)
  end.

(** The destructor of the descriptor. *)
Definition closing {A} (fd : Z) (m : M A) : M A := fun s =>
  match m s with
  | (s1, UB) => (s1, UB)
  | (s1, NoFuel) => (s1, NoFuel)
  | (s1, r) => let (s2, _) := perform kernel (Close fd) s1 in (s2, r)
  end.

(** The overloads that take the name of the archive. *)
Definition with_file {A} (filename : str) (m : Z -> M A) : M A :=
  fd ← perform kernel (Openat AT_FDCWD filename [O_RDONLY; O_CLOEXEC] 0);
  match fd with
  | None => throw_error (lit "Failed to open file `")
  | Some fd => closing fd (m fd)
  end.

(** ** skim_archive *)

(** [entry_callback] returns whether to go on. *)
Fixpoint skim_loop (fuel : nat) (entry_callback : archive_entry -> M bool) : M unit :=
  match fuel with
  | O => lift NoFuel
  | S fuel' =>
      r ← next_header;
      match r with
      | None => mret tt
      | Some entry => more ← entry_callback entry; if (more : bool) then skim_loop fuel' entry_callback else mret tt
      end
  end.

Definition skim_archive (fuel : nat) (fd : Z) (entry_callback : archive_entry -> M bool) : M unit :=
  with_reader (_ ← archive_call Setup; _ ← open_archive fd; skim_loop fuel entry_callback).

Definition skim_archive_file (fuel : nat) (filename : str) (entry_callback : archive_entry -> M bool) : M unit :=
  with_file filename (fun fd => skim_archive fuel fd entry_callback).

(** ** extract *)

Fixpoint copy_data (fuel : nat) : M unit :=
  match fuel with
  | O => lift NoFuel
  | S fuel' =>
      r ← archive_call (ReadData BLOCK_SIZE);
      match r with
      | None => throw_error (lit "archive_read_data() - ")
      | Some [] => mret tt
      | Some data =>
          n ← archive_call (WriteData data);
          if n <? 0 then throw_error (lit "archive_write_data() - ") else copy_data fuel'
      end
  end.

Definition extract_one (fuel : nat) (dest_dir : str) (entry : archive_entry) : M unit :=
  name ← lift (get_or_ub (pathname entry));
  path ← lift (path_absolute name slash);
  _ ← check_archive (lit "archive_write_header() - ") (WriteHeader (dest_dir ++ path) entry);
  _ ← when (0 <? size entry) (copy_data fuel);
  check_archive (lit "archive_write_finish_entry() - ") FinishEntry.

Fixpoint extract_loop (fuel data_fuel : nat) (extract_entry : archive_entry -> bool) (dest_dir : str) : M unit :=
  match fuel with
  | O => lift NoFuel
  | S fuel' =>
      r ← next_header;
      match r with
      | None => mret tt
      | Some entry =>
          _ ← when (extract_entry entry) (extract_one data_fuel dest_dir entry);
          extract_loop fuel' data_fuel extract_entry dest_dir
      end
  end.

Definition extract (fuel : nat) (archive_fd flags : Z) (extract_entry : archive_entry -> bool) (dest_dir : str) : M unit :=
  let dest_dir := SV.remove_trailing_char "/" dest_dir in
  let flags := Z.lor flags ARCHIVE_EXTRACT_SECURE_SYMLINKS in
  with_reader (
    _ ← check_archive (lit "Assertion `out` failed") WriteDiskNew;
    with_guard WriteFree (
      _ ← archive_call (SetOptions flags);
      _ ← archive_call Setup;
      _ ← open_archive archive_fd;
      extract_loop fuel fuel extract_entry dest_dir)).

Definition extract_archive_file (fuel : nat) (filename : str) (flags : Z) (extract_entry : archive_entry -> bool) (dest_dir : str) : M unit :=
  with_file filename (fun fd => extract fuel fd flags extract_entry dest_dir).

(** ** extract_file *)

(** [res]: what has been read of the entry. *)
Fixpoint read_whole (fuel : nat) (left : Z) (res : str) : M str :=
  if left =? 0 then mret res
  else match fuel with
       | O => lift NoFuel
       | S fuel' =>
           r ← archive_call (ReadData left);
           match r with
           | None | Some [] => throw_error (lit "archive_read_data() - ")
           | Some data => read_whole fuel' (left - Z.of_nat (length data)) (res ++ data)
           end
       end.

(** The string is made with [archive_entry_size] characters, which throws
    [std::length_error] when that is too much. *)
Definition read_entry (fuel : nat) (entry : archive_entry) : M str :=
  if (size entry <? 0) || (STRING_MAX_SIZE <? size entry) then throw_error (lit "basic_string::_M_create")
  else read_whole fuel (size entry) [].

Fixpoint extract_file_loop (fuel data_fuel : nat) (path : str) : M str :=
  match fuel with
  | O => lift NoFuel
  | S fuel' =>
      r ← next_header;
      match r with
      | None => mret []
      | Some entry =>
          name ← lift (get_or_ub (pathname entry));
          if SV.eqb name path then read_entry data_fuel entry else extract_file_loop fuel' data_fuel path
      end
  end.

Definition extract_file (fuel : nat) (archive_fd : Z) (path : str) : M str :=
  with_reader (_ ← archive_call Setup; _ ← open_archive archive_fd; extract_file_loop fuel fuel path).

Definition extract_file_from (fuel : nat) (archive_file path : str) : M str :=
  with_file archive_file (fun fd => extract_file fuel fd path).

End LibArchive.
