(* ===== verification/LibArchiveProofs.v ===== *)
(** * Extracting archives

    What is assumed of libarchive, as a relation between what it was asked, what
    it answers and what there is before and after: the entries still to be read,
    the data left of the current one, the files on the disk, the archives that are
    not freed.  Any request may fail, and data comes in pieces of any length. *)

From Stdlib Require Import ZArith Lia Ascii.
From S2P Require Import Prelude.
From S2P Require Import StringView.
From S2P Require Import FileIo.
From S2P Require Import Path.
From S2P Require Import LibArchive.
Local Open Scope Z_scope.

(** [disk]: the files written, with what was written to them. *)
Record view := mkView {
  input : list (archive_entry * str); current : str; disk : list (str * str); options : Z; readers : nat; writers : nat
}.

Definition with_input (i : list (archive_entry * str)) (c : str) (v : view) : view :=
  mkView i c (disk v) (options v) (readers v) (writers v).
Definition with_current (c : str) (v : view) : view := mkView (input v) c (disk v) (options v) (readers v) (writers v).
Definition with_disk (d : list (str * str)) (v : view) : view := mkView (input v) (current v) d (options v) (readers v) (writers v).
Definition with_options (o : Z) (v : view) : view := mkView (input v) (current v) (disk v) o (readers v) (writers v).
Definition with_readers (n : nat) (v : view) : view := mkView (input v) (current v) (disk v) (options v) n (writers v).
Definition with_writers (n : nat) (v : view) : view := mkView (input v) (current v) (disk v) (options v) (readers v) n.

(** Data goes to the file written last. *)
Definition append_last (d : list (str * str)) (data : str) : list (str * str) :=
  match reverse d with
  | (p, c) :: rest => reverse rest ++ [(p, c ++ data)]
  | [] => []
  end.

Definition allowed {A} (c : arsys A) (v v' : view) : A -> Prop :=
  match c in arsys A return A -> Prop with
  | ReadNew => fun ok => v' = if ok then with_readers (S (readers v)) v else v
  | ReadFree => fun _ => v' = with_readers (pred (readers v)) v
  | WriteDiskNew => fun ok => v' = if ok then with_writers (S (writers v)) v else v
  | WriteFree => fun _ => v' = with_writers (pred (writers v)) v
  | SetOptions flags => fun _ => v' = with_options flags v
  | Setup => fun _ => v' = v
  | ReadOpenFd _ _ => fun _ => v' = v
  | NextHeader => fun r =>
      match r with
      | Eof => input v = [] /\ v' = v
      | HeaderFailed => v' = v
      | Header e => exists d rest, input v = (e, d) :: rest /\ v' = with_input rest d v
      end
  | WriteHeader p _ => fun ok => v' = if ok then with_disk (disk v ++ [(p, [])]) v else v
  | ReadData _ => fun r =>
      match r with
      | None => v' = v
      | Some d => exists rest, current v = d ++ rest /\ (d = [] -> rest = []) /\ v' = with_current rest v
      end
  | WriteData data => fun n =>
      if n <? 0 then exists d1 d2, data = d1 ++ d2 /\ v' = with_disk (append_last (disk v) d1) v
      else v' = with_disk (append_last (disk v) data) v
  | FinishEntry => fun _ => v' = v
  end.

Class ArchiveLaws {W} (libarchive : forall A, arsys A -> W -> W * A) := {
  view_of : W -> view;
  answers_allowed A (c : arsys A) w : let (w', a) := libarchive A c w in allowed c (view_of w) (view_of w') a
}.

Lemma append_last_snoc d p c data : append_last (d ++ [(p, c)]) data = d ++ [(p, c ++ data)].
Proof. unfold append_last. rewrite reverse_snoc. by rewrite reverse_involutive. Qed.

(** Where an entry goes. *)
Definition target (dest_dir : str) (e : archive_entry) : str :=
  match pathname e with
  | Some name => match path_absolute name slash with Ok p => dest_dir ++ p | _ => [] end
  | None => []
  end.

Fixpoint wanted (select : archive_entry -> bool) (dest_dir : str) (l : list (archive_entry * str)) : list (str * str) :=
  match l with
  | [] => []
  | (e, d) :: l' => (if select e then [(target dest_dir e, d)] else []) ++ wanted select dest_dir l'
  end.

(** Some of the files, the last one perhaps not whole. *)
Definition begun (full l : list (str * str)) : Prop :=
  l `prefix_of` full \/
  exists done p c c1 rest, full = done ++ (p, c) :: rest /\ c1 `prefix_of` c /\ l = done ++ [(p, c1)].

(** An entry with a name whose size is that of its data. *)
Definition well_formed (select : archive_entry -> bool) (x : archive_entry * str) : Prop :=
  size x.1 = Z.of_nat (length x.2) /\ (select x.1 = true -> is_Some (pathname x.1)).

Definition same_archives (v v' : view) : Prop := options v' = options v /\ readers v' = readers v /\ writers v' = writers v.

Lemma begun_app f l l' : begun l l' -> begun (f ++ l) (f ++ l').
Proof.
  intros [H|(d & p & c & c1 & r & -> & Hp & ->)]; [left; by apply prefix_app|right].
  exists (f ++ d), p, c, c1, r. by rewrite <-!app_assoc.
Qed.

Lemma target_inside dest_dir e : is_Some (pathname e) ->
  exists stack as_dir, target dest_dir e = dest_dir ++ render stack as_dir /\ Forall plain_component stack.
Proof.
  intros [name E]. unfold target. rewrite E. destruct (path_absolute_result name) as (st & d & -> & H & _). by exists st, d.
Qed.

Lemma wanted_inside select dest_dir l p c : Forall (well_formed select) l -> (p, c) ∈ wanted select dest_dir l ->
  exists stack as_dir, p = dest_dir ++ render stack as_dir /\ Forall plain_component stack.
Proof.
  induction 1 as [|[e d] l [_ Hn] Hl IH]; cbn; [by intros ?%not_elem_of_nil|]. intros [H|H]%elem_of_app; [|by apply IH].
  destruct (select e) eqn:E; [|by apply not_elem_of_nil in H]. apply list_elem_of_singleton in H as [= -> ->]. by apply target_inside, Hn.
Qed.

Section Extracting.
Context {W : Type} (kernel : forall A, fsys A -> W -> W * A) (libarchive : forall A, arsys A -> W -> W * A) `{!ArchiveLaws libarchive}.
Abbreviation M := (stm (io W)).
Abbreviation look s := (view_of (world s)).

(** [m] from [s] ends with a value as in [Q] or an exception as in [E]. *)
Definition wp {A} (m : M A) (Q : A -> io W -> Prop) (E : io W -> Prop) (s : io W) : Prop :=
  match m s with (s', Ok a) => Q a s' | (s', Throw _) => E s' | _ => False end.

Lemma wp_bind {A B} (m : M A) (f : A -> M B) Q E s : wp m (fun a => wp (f a) Q E) E s -> wp (m ≫= f) Q E s.
Proof. unfold wp, mbind, stm_bind. destruct (m s) as [s1 [a|e| |]]; done. Qed.

Lemma wp_mono {A} (m : M A) (Q Q' : A -> io W -> Prop) (E E' : io W -> Prop) s :
  wp m Q E s -> (forall a s', Q a s' -> Q' a s') -> (forall s', E s' -> E' s') -> wp m Q' E' s.
Proof. unfold wp. intros H HQ HE. destruct (m s) as [s1 [a|e| |]]; auto. Qed.

Lemma wp_call {A} (c : arsys A) Q E s :
  (forall a s', allowed c (look s) (look s') a -> Q a s') -> wp (archive_call libarchive c) Q E s.
Proof.
  intros H. unfold wp, archive_call. pose proof (answers_allowed A c (world s)) as L. destruct (libarchive A c (world s)) as [w a]. by apply H.
Qed.

Lemma wp_check what (c : arsys bool) Q E s :
  (forall ok s', allowed c (look s) (look s') ok -> if ok then Q tt s' else E s') -> wp (check_archive libarchive what c) Q E s.
Proof.
  intros H. unfold check_archive. apply wp_bind, wp_call. intros ok s' Ha. specialize (H ok s' Ha). by destruct ok.
Qed.

Lemma wp_guard {A} g (m : M A) Q E s :
  wp m (fun a s1 => forall s2, allowed g (look s1) (look s2) tt -> Q a s2) (fun s1 => forall s2, allowed g (look s1) (look s2) tt -> E s2) s ->
  wp (with_guard libarchive g m) Q E s.
Proof.
  unfold wp, with_guard. intros H. destruct (m s) as [s1 [a|e| |]]; try done; unfold archive_call;
    pose proof (answers_allowed _ g (world s1)) as L; destruct (libarchive _ g (world s1)) as [w []]; by apply H.
Qed.

Lemma copy_data_spec p D c : forall fuel c0 s, (length c < fuel)%nat -> current (look s) = c -> disk (look s) = D ++ [(p, c0)] ->
  wp (copy_data libarchive fuel) (fun _ s' => look s' = with_disk (D ++ [(p, c0 ++ c)]) (with_current [] (look s)))
    (fun s' => exists c1 x, c1 `prefix_of` c /\ look s' = with_disk (D ++ [(p, c0 ++ c1)]) (with_current x (look s))) s.
Proof.
  induction c as [c IH] using (induction_ltof1 _ length). unfold ltof in IH. intros [|fuel] c0 s Hf Hc Hd; [lia|].
  cbn [copy_data]. apply wp_bind, wp_call. intros [[|x data]|] s1; cbn.
  - intros (rest & Hr & Hn & Hv). rewrite (Hn eq_refl) in Hr, Hv. rewrite Hc in Hr.
    unfold wp. cbn. rewrite Hv, Hr, app_nil_r, <-Hd. by destruct (look s).
  - intros (rest & Hr & _ & Hv). rewrite Hc in Hr. apply wp_bind, wp_call. intros n s2 Ha. cbn in Ha.
    rewrite Hv in Ha. cbn in Ha. rewrite Hd in Ha. destruct (n <? 0).
    + destruct Ha as (d1 & d2 & Hsplit & Hv2). rewrite append_last_snoc in Hv2. unfold wp. cbn. exists d1, rest. split.
      * rewrite Hr. change (x :: data ++ rest) with ((x :: data) ++ rest). rewrite Hsplit, <-app_assoc. by eexists.
      * by rewrite Hv2.
    + rewrite append_last_snoc in Ha. eapply wp_mono; [apply (IH rest) with (c0 := c0 ++ x :: data)| |].
      * rewrite Hr. cbn. rewrite length_app. lia.
      * rewrite Hr in Hf. cbn in Hf. rewrite length_app in Hf. lia.
      * by rewrite Ha.
      * by rewrite Ha.
      * intros u s' E. rewrite E, Ha, Hr, <-app_assoc. done.
      * intros s' (c1 & y & Hp & E). exists (x :: data ++ c1), y. split.
        -- rewrite Hr. by apply (prefix_app (x :: data)).
        -- rewrite E, Ha, <-app_assoc. done.
  - intros Hv. unfold wp. cbn. exists [], (current (look s)). split; [apply prefix_nil|]. rewrite app_nil_r, Hv, <-Hd. by destruct (look s).
Qed.

(** What [extract_one] makes of the rest of the view. *)
Definition moved (v : view) (l : list (str * str)) (v' : view) : Prop := exists x, v' = with_disk (disk v ++ l) (with_current x v).

Lemma extract_one_spec fuel dest_dir e d s :
  is_Some (pathname e) -> size e = Z.of_nat (length d) -> (length d < fuel)%nat -> current (look s) = d ->
  wp (extract_one libarchive fuel dest_dir e) (fun _ s' => moved (look s) [(target dest_dir e, d)] (look s'))
    (fun s' => exists l, begun [(target dest_dir e, d)] l /\ moved (look s) l (look s')) s.
Proof.
  intros [name Hname] Hsize Hf Hc. unfold extract_one, target. rewrite Hname.
  destruct (path_absolute_result name) as (st & as_dir & Hp & _ & _).
  apply wp_bind. unfold wp at 1. cbn. apply wp_bind. unfold wp at 1. cbn. rewrite Hp. set (p := dest_dir ++ render st as_dir).
  apply wp_bind, wp_check. intros [|] s1 Ha; cbn in Ha.
  2: { exists []. split; [left; apply prefix_nil|]. exists (current (look s)). rewrite Ha, app_nil_r. by destruct (look s). }
  assert (forall c1, c1 `prefix_of` d -> begun [(p, d)] [(p, c1)]) as Hbegun by (intros c1 ?; right; by exists [], p, d, c1, []).
  apply wp_bind. unfold when. destruct (Z.ltb_spec 0 (size e)) as [Hpos|Hpos].
  - eapply wp_mono; [apply (copy_data_spec p (disk (look s)) d fuel [] s1); [done|by rewrite Ha|by rewrite Ha]| |].
    + intros u s2 E. apply wp_check. intros [|] s3 Hv; cbn in Hv; [|exists [(p, d)]; split; [by apply Hbegun|]]; exists []; rewrite Hv, E, Ha; done.
    + intros s2 (c1 & x & Hpre & E). exists [(p, c1)]. split; [by apply Hbegun|]. exists x. by rewrite E, Ha.
  - assert (d = []) as -> by (destruct d; [done|cbn in Hsize; lia]). unfold wp at 1. cbn. apply wp_check.
    intros [|] s3 Hv; cbn in Hv; [|exists [(p, [])]; split; [by apply Hbegun|]]; exists (current (look s)); rewrite Hv, Ha; by destruct (look s).
Qed.

Lemma wp_next_header (Q : option archive_entry -> io W -> Prop) E s :
  (forall s', input (look s) = [] -> look s' = look s -> Q None s') -> (forall s', look s' = look s -> E s') ->
  (forall e d rest s', input (look s) = (e, d) :: rest -> look s' = with_input rest d (look s) -> Q (Some e) s') ->
  wp (next_header libarchive) Q E s.
Proof.
  intros H1 H2 H3. unfold next_header. apply wp_bind, wp_call. intros [| |e] s'; cbn.
  - intros [Hi Hv]. by apply H1.
  - apply H2.
  - intros (d & rest & Hi & Hv). by eapply H3.
Qed.

Lemma extract_loop_spec select dest_dir data_fuel l : forall fuel s,
  input (look s) = l -> Forall (well_formed select) l -> Forall (fun x => (length x.2 < data_fuel)%nat) l -> (length l < fuel)%nat ->
  wp (extract_loop libarchive fuel data_fuel select dest_dir)
    (fun _ s' => disk (look s') = disk (look s) ++ wanted select dest_dir l /\ same_archives (look s) (look s'))
    (fun s' => exists l', begun (wanted select dest_dir l) l' /\ disk (look s') = disk (look s) ++ l' /\ same_archives (look s) (look s')) s.
Proof.
  assert (forall full (s s' : io W), look s' = look s ->
    exists l', begun full l' /\ disk (look s') = disk (look s) ++ l' /\ same_archives (look s) (look s')) as Hnone.
  { intros full s s' ->. exists []. split; [left; apply prefix_nil|]. by rewrite app_nil_r. }
  induction l as [|[e d] l IH]; intros [|fuel] s Hi Hw Hd Hf; cbn [length] in Hf; try lia; cbn [extract_loop]; apply wp_bind, wp_next_header.
  - intros s1 _ E. unfold wp. cbn. by rewrite app_nil_r, E.
  - intros s1 E. by apply Hnone.
  - intros e d rest s1 Hi1. rewrite Hi in Hi1. discriminate.
  - intros s1 Hi1. rewrite Hi in Hi1. discriminate.
  - intros s1 E. by apply Hnone.
  - intros e' d' rest s1 Hi1 Hv1. rewrite Hi in Hi1. injection Hi1 as <- <- <-.
    apply Forall_cons in Hw as [[Hsize Hname] Hw]. apply Forall_cons in Hd as [Hde Hd]. cbn [fst snd] in *. cbn [wanted].
    apply wp_bind. unfold when. destruct (select e) eqn:Hs.
    + eapply wp_mono; [apply (extract_one_spec data_fuel dest_dir e d s1); [by apply Hname|done|done|by rewrite Hv1]| |].
      * intros u s2 [x E]. eapply wp_mono; [apply (IH fuel s2); [by rewrite E, Hv1|done|done|lia]| |].
        -- intros v s' [H1 H2]. rewrite H1, E, Hv1. unfold same_archives in *. rewrite E, Hv1 in H2. cbn. by rewrite <-app_assoc.
        -- intros s' (l' & Hb & H1 & H2). exists ((target dest_dir e, d) :: l'). split; [by apply (begun_app [_])|].
           rewrite H1, E, Hv1. unfold same_archives in *. rewrite E, Hv1 in H2. cbn. by rewrite <-app_assoc.
      * intros s2 (l' & Hb & [x E]). exists l'. split; [|by rewrite E, Hv1].
        destruct Hb as [Hb|(dn & p & c & c1 & r & Hb & Hp & ->)]; [left; by apply prefix_app_r|right].
        exists dn, p, c, c1, (r ++ wanted select dest_dir l). rewrite Hb, <-app_assoc. done.
    + unfold wp at 1. cbn. eapply wp_mono; [apply (IH fuel s1); [by rewrite Hv1|done|done|lia]| |].
      * intros v s'. unfold same_archives. by rewrite Hv1.
      * intros s'. unfold same_archives. by rewrite Hv1.
Qed.


(** ** Reading one file *)

Lemma read_whole_spec c : forall fuel res s, (length c < fuel)%nat -> current (look s) = c ->
  wp (read_whole libarchive fuel (Z.of_nat (length c)) res) (fun r s' => r = res ++ c /\ exists x, look s' = with_current x (look s))
    (fun s' => exists x, look s' = with_current x (look s)) s.
Proof.
  induction c as [c IH] using (induction_ltof1 _ length). unfold ltof in IH. intros [|fuel] res s Hf Hc; [lia|].
  assert (exists x, look s = with_current x (look s)) as Hsame by (exists (current (look s)); by destruct (look s)).
  cbn [read_whole]. destruct (Z.eqb_spec (Z.of_nat (length c)) 0) as [E|E].
  - assert (c = []) as -> by (destruct c; [done|cbn in E; lia]). unfold wp. cbn. by rewrite app_nil_r.
  - apply wp_bind, wp_call. intros [[|x data]|] s1; cbn [allowed].
    + intros (rest & _ & _ & Hv). unfold wp. cbn. rewrite Hv. eauto.
    + intros (rest & Hr & _ & Hv). rewrite Hc in Hr.
      replace (Z.of_nat (length c) - Z.of_nat (length (x :: data))) with (Z.of_nat (length rest)) by (rewrite Hr, length_app; lia).
      eapply wp_mono; [apply (IH rest) with (res := res ++ x :: data)| |].
      * rewrite Hr. cbn. rewrite length_app. lia.
      * rewrite Hr in Hf. cbn in Hf. rewrite length_app in Hf. lia.
      * by rewrite Hv.
      * intros r s' [-> [y Hy]]. rewrite Hr, <-app_assoc. split; [done|]. exists y. by rewrite Hy, Hv.
      * intros s' [y Hy]. exists y. by rewrite Hy, Hv.
    + intros Hv. unfold wp. cbn. rewrite Hv. exact Hsame.
Qed.

(** The data of the first entry with the name. *)
Fixpoint contents_of (path : str) (l : list (archive_entry * str)) : str :=
  match l with
  | [] => []
  | (e, d) :: l' => if bool_decide (pathname e = Some path) then d else contents_of path l'
  end.

Lemma extract_file_loop_spec path data_fuel l : forall fuel s,
  input (look s) = l -> Forall (well_formed (fun _ => true)) l ->
  Forall (fun x => (length x.2 < data_fuel)%nat /\ Z.of_nat (length x.2) <= STRING_MAX_SIZE) l -> (length l < fuel)%nat ->
  wp (extract_file_loop libarchive fuel data_fuel path)
    (fun r s' => r = contents_of path l /\ disk (look s') = disk (look s) /\ same_archives (look s) (look s'))
    (fun s' => disk (look s') = disk (look s) /\ same_archives (look s) (look s')) s.
Proof.
  induction l as [|[e d] l IH]; intros [|fuel] s Hi Hw Hd Hf; cbn [length] in Hf; try lia; cbn [extract_file_loop]; apply wp_bind, wp_next_header.
  - intros s1 _ E. unfold wp. cbn. by rewrite E.
  - intros s1 E. by rewrite E.
  - intros e d rest s1 Hi1. rewrite Hi in Hi1. discriminate.
  - intros s1 Hi1. rewrite Hi in Hi1. discriminate.
  - intros s1 E. by rewrite E.
  - intros e' d' rest s1 Hi1 Hv1. rewrite Hi in Hi1. injection Hi1 as <- <- <-.
    apply Forall_cons in Hw as [[Hsize Hname] Hw]. apply Forall_cons in Hd as [[Hde Hmax] Hd]. cbn [fst snd] in *.
    destruct (Hname eq_refl) as [name Hn]. apply wp_bind. unfold wp at 1. rewrite Hn. cbn. rewrite Hn.
    destruct (decide (name = path)) as [->|Hne].
    + rewrite bool_decide_true by done. replace (SV.eqb path path) with true by (symmetry; by apply SV.eqb_eq). unfold read_entry. rewrite Hsize.
      destruct (Z.ltb_spec (Z.of_nat (length d)) 0); [lia|]. destruct (Z.ltb_spec STRING_MAX_SIZE (Z.of_nat (length d))); [lia|]. cbn [orb].
      eapply wp_mono; [apply (read_whole_spec d data_fuel [] s1); [done|by rewrite Hv1]| |].
      * intros r s' [-> [x E]]. by rewrite E, Hv1.
      * intros s' [x E]. by rewrite E, Hv1.
    + rewrite bool_decide_false by congruence. replace (SV.eqb name path) with false.
      2: { symmetry. apply not_true_is_false. intros H. by apply SV.eqb_eq in H. }
      eapply wp_mono; [apply (IH fuel s1); [by rewrite Hv1|done|done|lia]| |].
      * intros r s' (H1 & H2 & H3). unfold same_archives in *. rewrite Hv1 in H2, H3. done.
      * intros s' (H2 & H3). unfold same_archives in *. rewrite Hv1 in H2, H3. done.
Qed.

(** [extract_file] returns exactly the data of the first entry with the name, or
    nothing when there is none. *)
Theorem extract_file_correct fuel archive_fd path s :
  Forall (well_formed (fun _ => true)) (input (look s)) ->
  Forall (fun x => (length x.2 < fuel)%nat /\ Z.of_nat (length x.2) <= STRING_MAX_SIZE) (input (look s)) ->
  (length (input (look s)) < fuel)%nat ->
  wp (extract_file libarchive fuel archive_fd path)
    (fun r s' => r = contents_of path (input (look s)) /\ disk (look s') = disk (look s) /\ readers (look s') = readers (look s))
    (fun s' => disk (look s') = disk (look s) /\ readers (look s') = readers (look s)) s.
Proof.
  intros Hw Hd Hf. unfold extract_file, with_reader. apply wp_bind, wp_check. intros [|] s1 E1; cbn in E1; [|by rewrite E1].
  apply wp_guard, wp_bind, wp_call. intros u2 s2 E2. apply wp_bind, wp_check. cbn in E2. rewrite E2, E1.
  intros [|] s3 E3; cbn in E3; [|intros s4 E4; cbn in E4; by rewrite E4, E3].
  assert (input (look s3) = input (look s)) as Hi by by rewrite E3.
  eapply wp_mono; [apply (extract_file_loop_spec path fuel _ fuel s3 Hi Hw Hd Hf)| |].
  - intros r s4 (-> & H1 & _ & H2 & _) s5 E5. cbn in E5. rewrite E5. cbn. by rewrite H1, H2, E3.
  - intros s4 (H1 & _ & H2 & _) s5 E5. cbn in E5. rewrite E5. cbn. by rewrite H1, H2, E3.
Qed.
End Extracting.

(** ** libarchive in memory *)

(** Data comes in pieces of three characters. *)
Definition mem_libarchive (A : Type) (c : arsys A) (v : view) : view * A :=
  match c with
  | ReadNew => (with_readers (S (readers v)) v, true)
  | ReadFree => (with_readers (pred (readers v)) v, tt)
  | WriteDiskNew => (with_writers (S (writers v)) v, true)
  | WriteFree => (with_writers (pred (writers v)) v, tt)
  | SetOptions flags => (with_options flags v, tt)
  | Setup => (v, tt)
  | ReadOpenFd _ _ => (v, true)
  | NextHeader => match input v with [] => (v, Eof) | (e, d) :: rest => (with_input rest d v, Header e) end
  | WriteHeader p _ => (with_disk (disk v ++ [(p, [])]) v, true)
  | ReadData _ => (with_current (drop 3 (current v)) v, Some (take 3 (current v)))
  | WriteData data => (with_disk (append_last (disk v) data) v, Z.of_nat (length data))
  | FinishEntry => (v, true)
  end.

#[export] Instance mem_archive_laws : ArchiveLaws mem_libarchive.
Proof.
  refine {| view_of := id |}. intros A [] v; cbn; try done.
  - destruct (input v) as [|[e d] rest]; [done|]. by exists d, rest.
  - exists (drop 3 (current v)). split_and!; [by rewrite take_drop| |done]. by destruct (current v).
  - destruct (Z.ltb_spec (Z.of_nat (length data)) 0); [lia|done].
Defined.

(** *** Witness: a name that leads out of the destination *)

Definition sample_archive : view :=
  mkView [(mkEntry (Some (lit "../../etc/passwd")) 5, lit "hello"); (mkEntry (Some (lit "a/./b")) 0, []); (mkEntry None 3, lit "abc")] [] [] 0 0 0.

Definition named (e : archive_entry) : bool := if pathname e is Some _ then true else false.


(** An entry without a name, which libarchive gives when it cannot convert it, is
    a null pointer. *)
Lemma nameless_entry_not_checked :
  (extract mem_libarchive 10 3 0 (fun _ => true) (lit "out") (mkIo 0 sample_archive)).2 = UB.
Proof. vm_compute. reflexivity. Qed.
