(* ===== verification/DefaultChecker.v ===== *)
(** * The default checker

    The program [default_checker.c], which judges the output of a solution when a
    problem has no checker of its own: it compares two files line by line, without
    the white space at the ends of lines and of the files, and prints its verdict
    for [exit_to_checker_status] to read.  [getline] of the C library allocates a
    buffer also at the end of a file. *)

From Stdlib Require Import ZArith Lia Ascii.
From S2P Require Import Prelude.
From S2P Require Import Ctype.
From S2P Require Import StringView.
From S2P Require Import StringTransform.
Local Open Scope nat_scope.

(** ** The program *)

(** [getline]: the line with its end, and the rest of the file; [None] for -1. *)
Definition getline (f : str) : option (str * str) :=
  match f with
  | [] => None
  | _ =>
      match drop_while (fun c => negb (c =c NL)) f with
      | [] => Some (f, [])
      | _ :: rest => Some (take_while (fun c => negb (c =c NL)) f ++ [NL], rest)
      end
  end.

(** What [s[l] = 0] leaves of a line: the two loops of [are_equal]. *)
Definition trimmed (s : str) : str := SV.remove_trailing is_space s.

(** What string functions see of a buffer. *)
Definition c_str (s : str) : str := take_while (fun c => negb (c =c NUL)) s.

(** [are_equal(s1, s2) == 0] *)
Definition are_equal (s1 s2 : str) : bool := bool_decide (c_str (trimmed s1) = c_str (trimmed s2)).

(** ["%.<n>s%s"] of the line and of the dots. *)
Definition shown (n : nat) (s : str) : str :=
  let s := c_str s in take n s ++ (if n <? length s then lit "..." else []).

Definition wrong (line : nat) (comment : str) : str :=
  lit "WRONG" ++ [NL] ++ lit "0" ++ [NL] ++ lit "Line " ++ to_string (Z.of_nat line) ++ lit ": " ++ comment ++ [NL].

(** The second and the third loop: lines that only one of the files has. *)
Fixpoint rest_loop (fuel : nat) (line : nat) (message : str -> str) (read : option (str * str)) : outcome str :=
  match fuel with
  | O => NoFuel
  | S fuel' =>
      match read with
      | None => Ok (lit "OK" ++ [NL])
      | Some (l, rest) =>
          let line := S line in
          if negb (are_equal l []) then Ok (wrong line (message (trimmed l)))
          else rest_loop fuel' line message (getline rest)
      end
  end.

Definition missing (lout : str) : str := lit "read: EOF, expected: '" ++ shown 157 lout ++ lit "'".
Definition superfluous (lans : str) : str := lit "read: '" ++ shown 157 lans ++ lit "', expected: EOF".
Definition different (lans lout : str) : str :=
  lit "read: '" ++ shown 77 lans ++ lit "', expected: '" ++ shown 77 lout ++ lit "'".

Fixpoint compare_loop (fuel : nat) (line : nat) (fout fans : str) : outcome str :=
  match fuel with
  | O => NoFuel
  | S fuel' =>
      match getline fout, getline fans with
      | Some (lout, fout), Some (lans, fans) =>
          let line := S line in
          if negb (are_equal lout lans) then Ok (wrong line (different (trimmed lans) (trimmed lout)))
          else compare_loop fuel' line fout fans
      | Some read1, None => rest_loop (S (length fout)) line missing (Some read1)
      | None, read2 => rest_loop (S (length fans)) line superfluous read2
      end
  end.

(** What [main] prints and exits with; [None] for a file that cannot be opened,
    which fails the assertion. *)
Definition main (fout fans : option str) : outcome (str * Z) :=
  match fout, fans with
  | Some fout, Some fans => text ← compare_loop (S (length fout)) 0 fout fans; Ok (text, 0%Z)
  | _, _ => Ok ([], 1%Z)
  end.

(** ** What it decides *)

(** The lines of a file, without their ends. *)
Fixpoint pieces (f : str) : list str :=
  match f with
  | [] => [[]]
  | c :: f' =>
      if c =c NL then [] :: pieces f'
      else match pieces f' with p :: ps => (c :: p) :: ps | [] => [[c]] end
  end.

(** Line [i] without the white space at its end; there is nothing but empty lines
    after the last one. *)
Definition line_at (f : str) (i : nat) : str := trimmed (nth i (pieces f) []).

(** ** Properties *)

Lemma remove_trailing_snoc f s c : f c = true -> SV.remove_trailing f (s ++ [c]) = SV.remove_trailing f s.
Proof. intros H. unfold SV.remove_trailing. rewrite rev_app_distr. cbn. by rewrite H. Qed.

Lemma pieces_line l rest : NL ∉ l -> pieces (l ++ NL :: rest) = l :: pieces rest.
Proof.
  induction l as [|c l IH]; intros H; cbn [app pieces]; [done|]. apply not_elem_of_cons in H as [Hc H].
  destruct (c =c NL) eqn:E; [bools; congruence|]. by rewrite IH.
Qed.

Lemma pieces_single l : NL ∉ l -> pieces l = [l].
Proof.
  induction l as [|c l IH]; intros H; cbn [pieces]; [done|]. apply not_elem_of_cons in H as [Hc H].
  destruct (c =c NL) eqn:E; [bools; congruence|]. by rewrite IH.
Qed.

Lemma line_at_nil i : line_at [] i = [].
Proof. unfold line_at. destruct i as [|[|i]]; done. Qed.

Lemma trimmed_elem s c : c ∈ trimmed s -> c ∈ s.
Proof.
  unfold trimmed, SV.remove_trailing. rewrite !list_elem_of_In, <- in_rev. intros H. apply in_rev.
  rewrite <- (take_drop_while is_space (rev s)). apply in_or_app. by right.
Qed.

(** One line is read, at least one character. *)
Lemma getline_spec f :
  match getline f with
  | Some (l, rest) => trimmed l = line_at f 0 /\ NL ∉ trimmed l /\ (forall i, line_at f (S i) = line_at rest i) /\ length rest < length f /\
      (forall c, c ∈ l \/ c ∈ rest -> c ∈ f)
  | None => f = []
  end.
Proof.
  destruct f as [|c f]; [done|]. unfold getline. set (s := c :: f).
  pose proof (take_drop_while (fun c => negb (c =c NL)) s) as E. pose proof (take_while_forall (fun c => negb (c =c NL)) s) as Hl.
  set (l := take_while _ s) in *. destruct (drop_while _ s) as [|d rest] eqn:Ed.
  - rewrite app_nil_r in E. assert (NL ∉ s) as Hn.
    { rewrite <- E. intros Hin. rewrite Forall_forall in Hl. discriminate (Hl _ Hin). }
    unfold line_at. rewrite (pieces_single s Hn). split_and!; [done|intros H; by apply trimmed_elem in H| |cbn; lia|intros x [?|Hx]; [done|by apply elem_of_nil in Hx]].
    intros i. by destruct i as [|[|i]].
  - apply drop_while_head in Ed. bools. subst d. assert (NL ∉ l) as Hn.
    { intros Hin. rewrite Forall_forall in Hl. discriminate (Hl _ Hin). }
    unfold line_at. rewrite <- E, pieces_line by done. assert (trimmed (l ++ [NL]) = trimmed l) as Et by (by apply remove_trailing_snoc).
    split_and!; [done|rewrite Et; intros H; by apply trimmed_elem in H|done|rewrite length_app; cbn; lia|].
    intros x Hx. set_solver.
Qed.

Lemma c_str_nul_free s : NUL ∉ s -> c_str s = s.
Proof.
  intros H. unfold c_str. induction s as [|c s IH]; [done|]. apply not_elem_of_cons in H as [Hc H]. cbn [take_while].
  destruct (c =c NUL) eqn:E; [bools; congruence|]. cbn [negb]. by rewrite IH.
Qed.

Lemma are_equal_spec s1 s2 : NUL ∉ s1 -> NUL ∉ s2 -> are_equal s1 s2 = bool_decide (trimmed s1 = trimmed s2).
Proof. intros H1 H2. unfold are_equal. rewrite !c_str_nul_free by (intros H; by apply trimmed_elem in H). done. Qed.

(** The comments of the three loops fit on a line and do not end in white space. *)
Definition comment_ok (comment : str) : Prop :=
  length comment <= 208 /\ NL ∉ comment /\ exists c, last comment = Some c /\ is_space c = false.

(** The verdict on files whose lines from [line] on are left. *)
Definition decided (line : nat) (f g : str) (text : str) : Prop :=
  ((forall i, line_at f i = line_at g i) /\ text = lit "OK" ++ [NL]) \/
  exists i comment, (forall j, j < i -> line_at f j = line_at g j) /\ line_at f i <> line_at g i /\
    text = wrong (line + i + 1) comment /\ comment_ok comment.

(** The next lines are the same. *)
Lemma decided_next line f g f' g' text : line_at f 0 = line_at g 0 -> (forall i, line_at f (S i) = line_at f' i) ->
  (forall i, line_at g (S i) = line_at g' i) -> decided (S line) f' g' text -> decided line f g text.
Proof.
  intros H0 Hf Hg [[Heq ->]|(i & comment & Hlt & Hne & -> & Hc)].
  - left. split; [|done]. intros [|i]; [done|]. by rewrite Hf, Hg.
  - right. exists (S i), comment. split; [|split; [by rewrite Hf, Hg|split; [|done]]].
    + intros [|j] Hj; [done|]. rewrite Hf, Hg. apply Hlt. lia.
    + f_equal. lia.
Qed.

Lemma shown_spec n s : NUL ∉ s -> NL ∉ s -> length (shown n s) <= n + 3 /\ NL ∉ shown n s.
Proof.
  intros H Hn. unfold shown. rewrite c_str_nul_free by done. split.
  - rewrite length_app, length_take. destruct (n <? length s); cbn; lia.
  - rewrite elem_of_app. intros [Hc|Hc]; [by eapply elem_of_take in Hc as (? & Hc & _); apply Hn; eapply list_elem_of_lookup_2|].
    destruct (n <? length s); cbn in Hc; [|by apply elem_of_nil in Hc]. set_solver.
Qed.

Ltac solve_comment :=
  split; [rewrite ?length_app; cbn [length lit String.list_ascii_of_string]; lia|split;
          [rewrite ?not_elem_of_app; split_and!; try done; by cbn; rewrite ?not_elem_of_cons; split_and!; try done; apply not_elem_of_nil|]];
  rewrite ?app_assoc, last_app; eexists; split; reflexivity.

Lemma missing_ok s : NUL ∉ s -> NL ∉ s -> comment_ok (missing s).
Proof. intros H1 H2. destruct (shown_spec 157 s H1 H2). unfold missing. solve_comment. Qed.

Lemma superfluous_ok s : NUL ∉ s -> NL ∉ s -> comment_ok (superfluous s).
Proof. intros H1 H2. destruct (shown_spec 157 s H1 H2). unfold superfluous. solve_comment. Qed.

Lemma different_ok s t : NUL ∉ s -> NL ∉ s -> NUL ∉ t -> NL ∉ t -> comment_ok (different s t).
Proof. intros H1 H2 H3 H4. destruct (shown_spec 77 s H1 H2), (shown_spec 77 t H3 H4). unfold different. solve_comment. Qed.

(** The loops over one file: it differs where it has something but white space. *)
Lemma rest_loop_decides message : (forall s, NUL ∉ s -> NL ∉ s -> comment_ok (message s)) -> forall fuel line f, NUL ∉ f -> length f < fuel ->
  exists text, rest_loop fuel line message (getline f) = Ok text /\ decided line f [] text.
Proof.
  intros Hm. induction fuel as [|fuel IH]; intros line f Hf Hl; [lia|]. cbn [rest_loop]. pose proof (getline_spec f) as Hg.
  destruct (getline f) as [[l rest]|]; [|subst f; eexists; split; [done|left; done]].
  destruct Hg as (H0 & Hn & Hs & Hlen & Hin). assert (NUL ∉ l) as Hnl by (intros H; apply Hf, Hin; auto).
  rewrite are_equal_spec by (done || apply not_elem_of_nil). change (trimmed []) with (@nil ascii). case_bool_decide as E; cbn [negb].
  - destruct (IH (S line) rest) as (text & -> & Hd); [intros H; apply Hf, Hin; auto|lia|]. exists text. split; [done|].
    eapply decided_next; [by rewrite <- H0, line_at_nil|exact Hs|intros i; by rewrite !line_at_nil|done].
  - assert (comment_ok (message (trimmed l))) as Hc by (apply Hm; [intros H; by apply trimmed_elem in H|done]).
    eexists. split; [reflexivity|]. right. exists 0, (message (trimmed l)).
    split; [intros; lia|split; [by rewrite <- H0, line_at_nil|split; [f_equal; lia|done]]].
Qed.

Lemma decided_sym line f g text : decided line f g text -> decided line g f text.
Proof.
  intros [[H ->]|(i & comment & Hlt & Hne & H)]; [left; auto|]. right. exists i, comment. split; [|split; [done|apply H]].
  intros j Hj. symmetry. by apply Hlt.
Qed.

Lemma compare_loop_decides : forall fuel line f g, NUL ∉ f -> NUL ∉ g -> length f < fuel ->
  exists text, compare_loop fuel line f g = Ok text /\ decided line f g text.
Proof.
  induction fuel as [|fuel IH]; intros line f g Hf Hg Hl; [lia|]. cbn [compare_loop].
  pose proof (getline_spec f) as Sf. pose proof (getline_spec g) as Sg.
  destruct (getline f) as [[lf rf]|] eqn:Ef; [destruct (getline g) as [[lg rg]|] eqn:Eg|].
  - destruct Sf as (F0 & Fn & Fs & Fl & Fin). destruct Sg as (G0 & Gn & Gs & Gl & Gin).
    assert (NUL ∉ lf) as Hlf by (intros H; apply Hf, Fin; auto). assert (NUL ∉ lg) as Hlg by (intros H; apply Hg, Gin; auto).
    rewrite are_equal_spec by done. case_bool_decide as E; cbn [negb].
    + destruct (IH (S line) rf rg) as (text & -> & Hd); [intros H; apply Hf, Fin; auto|intros H; apply Hg, Gin; auto|lia|].
      exists text. split; [done|]. eapply decided_next; [by rewrite <- F0, <- G0|done|done|done].
    + eexists. split; [reflexivity|]. right. exists 0, (different (trimmed lg) (trimmed lf)).
      assert (comment_ok (different (trimmed lg) (trimmed lf))) as Hc by (apply different_ok; try done; intros H; by apply trimmed_elem in H).
      split; [intros; lia|split; [by rewrite <- F0, <- G0|split; [f_equal; lia|done]]].
  - subst g. rewrite <- Ef. apply rest_loop_decides; [apply missing_ok|done|lia].
  - subst f. destruct (rest_loop_decides superfluous superfluous_ok (S (length g)) line g Hg ltac:(lia)) as (text & E & Hd).
    exists text. split; [by rewrite <- E; destruct (getline g) as [[? ?]|]|]. by apply decided_sym.
Qed.

(** Where two files differ one of them has a line. *)
Lemma length_pieces f : length (pieces f) <= S (length f).
Proof.
  induction f as [|c f IH]; [done|]. cbn [pieces length]. destruct (c =c NL); cbn [length]; [lia|].
  destruct (pieces f); cbn [length] in *; lia.
Qed.

Lemma line_at_beyond f i : length f < i -> line_at f i = [].
Proof. intros H. unfold line_at. rewrite nth_overflow by (pose proof (length_pieces f); lia). done. Qed.

Lemma difference_bound f g i : line_at f i <> line_at g i -> i <= length f + length g.
Proof.
  intros H. destruct (decide (i <= length f + length g)); [done|]. exfalso. apply H. by rewrite !line_at_beyond by lia.
Qed.

(** Only the part of a line before a null character counts. *)
Lemma after_nul_is_ignored : main (Some (lit "1" ++ [NUL] ++ lit "2")) (Some (lit "1" ++ [NUL] ++ lit "3")) = Ok (lit "OK" ++ [NL], 0%Z).
Proof. vm_compute. reflexivity. Qed.
