(* ===== verification/ProcStat.v ===== *)
(** * /proc/[pid]/stat

    [ProcStatFileContents] of [proc_stat_file_contents.hh/.cc]: the fields of the
    file, as views into its contents.  The name of the executable is the only
    field that may hold spaces and parentheses. *)

From Stdlib Require Import Lia Ascii.
From S2P Require Import Prelude.
From S2P Require Import Ctype.
From S2P Require Import StringView.
From S2P Require Import StringTraits.

Module ProcStat.

Definition not_space (c : ascii) : bool := negb (is_space c).

(** The fields after the name; each turn of the loop that does not leave it
    takes at least one character. *)
Fixpoint rest_loop (fuel : nat) (s : str) (fields_ : list str) : outcome (list str) :=
  match fuel with
  | O => NoFuel
  | S fuel' =>
      let s := SV.remove_leading is_space s in
      let '(val, s) := SV.extract_leading not_space s in
      if SV.empty val then Ok fields_ else rest_loop fuel' s (fields_ ++ [val])
  end.

(** A failed [assert] is [UB]; a search that finds nothing gives the largest
    [size_t], and [extract_prefix] then takes everything. *)
Definition new (contents_ : str) : outcome (list str) :=
  let s := (SV.extract_leading is_space contents_).2 in
  let '(pid, s) := SV.extract_leading not_space s in
  let s := SV.remove_leading (fun c => negb (c =c "(")) s in
  if negb (has_prefix s (lit "(")) then UB
  else
    let s := SV.remove_prefix s 1 in
    let n := match SV.rfind_char s ")" 0 with Some n => n | None => length s end in
    let '(comm, s) := SV.extract_prefix s n in
    if negb (has_prefix s (lit ")")) then UB
    else
      let s := SV.remove_prefix s 1 in
      rest_loop (S (length s)) s [pid; comm].

Definition fields_no (fields_ : list str) : nat := length fields_.

Definition field (fields_ : list str) (no : nat) : outcome str := get_or_ub (fields_ !! no).

(** ** Properties *)

(** A field other than the name. *)
Definition word (w : str) : Prop := w <> [] /\ Forall (fun c => is_space c = false) w.

(** The file as the kernel prints it. *)
Definition spaced (fields : list str) : str := flat_map (fun w => " "%char :: w) fields.

Definition print (pid comm : str) (fields : list str) : str :=
  pid ++ lit " (" ++ comm ++ lit ")" ++ spaced fields ++ [NL].

Lemma word_not_space w : word w -> Forall (fun c => not_space c = true) w.
Proof. intros [_ H]. eapply Forall_impl; [exact H|]. intros c Hc. unfold not_space. by rewrite Hc. Qed.

(** A word up to the white space after it. *)
Lemma extract_word w c rest : word w -> is_space c = true ->
  SV.extract_leading not_space (w ++ c :: rest) = (w, c :: rest).
Proof.
  intros Hw Hc. unfold SV.extract_leading. apply word_not_space in Hw.
  rewrite take_while_app, drop_while_app by done. cbn [take_while drop_while]. unfold not_space. rewrite Hc. cbn [negb].
  by rewrite app_nil_r.
Qed.

Lemma no_leading_space w rest : word w -> SV.remove_leading is_space (w ++ rest) = w ++ rest.
Proof. intros [Hne Hw]. destruct w as [|c w]; [done|]. apply Forall_cons_1 in Hw as [Hc _]. by apply drop_while_false. Qed.

Lemma rest_loop_words : forall ws fuel c acc, Forall word ws -> is_space c = true ->
  (length (spaced ws) < fuel)%nat -> rest_loop fuel (spaced ws ++ [c]) acc = Ok (acc ++ ws).
Proof.
  induction ws as [|w ws IH]; intros [|fuel] c acc Hws Hc Hf; try (cbn in Hf; lia).
  - cbn [spaced flat_map app rest_loop]. unfold SV.remove_leading. cbn [drop_while]. rewrite Hc. cbn. by rewrite app_nil_r.
  - apply Forall_cons_1 in Hws as [Hw Hws]. change (spaced (w :: ws)) with (" "%char :: w ++ spaced ws) in *.
    cbn [length] in Hf. rewrite length_app in Hf. cbn [app]. rewrite <- app_assoc. cbn [rest_loop].
    change (SV.remove_leading is_space (" "%char :: ?l)) with (SV.remove_leading is_space l).
    rewrite no_leading_space by done.
    assert (exists d rest, spaced ws ++ [c] = d :: rest /\ is_space d = true) as (d & rest & E & Hd).
    { destruct ws as [|w' ws']; [by exists c, []|]. cbn. eauto. }
    rewrite E, extract_word, <- E by done.
    assert (SV.empty w = false) as -> by (destruct Hw as [Hne _]; by destruct w).
    rewrite (IH fuel c (acc ++ [w])); [by rewrite <- app_assoc|done|done|].
    destruct Hw as [Hne _]. destruct w; [done|]. cbn [length] in Hf. lia.
Qed.

Lemma rfind_last s c rest : c ∉ rest -> SV.rfind_char (s ++ c :: rest) c 0 = Some (length s).
Proof.
  intros Hc. pose proof (SV.rfind_char_spec (s ++ c :: rest) c 0) as H.
  assert ((s ++ c :: rest) !! length s = Some c) as Hl by (by rewrite lookup_app_r, Nat.sub_diag by lia).
  destruct (SV.rfind_char _ _ _) as [i|]; [|exfalso; by apply (H (length s)); [lia|]].
  destruct H as (_ & Hi & Hlast). destruct (lt_eq_lt_dec i (length s)) as [[?| ->]|Hlt]; [|done|].
  - exfalso. by apply (Hlast (length s)).
  - rewrite lookup_app_r in Hi by lia. replace (i - length s)%nat with (S (i - length s - 1))%nat in Hi by lia.
    cbn in Hi. exfalso. by eapply Hc, list_elem_of_lookup_2.
Qed.

(** C32: Reading back what the kernel prints in [/proc/[pid]/stat] gives the
    fields that were printed, whatever the name of the executable is: spaces,
    line breaks and parentheses, even unbalanced ones, in it do not shift the
    fields after it. *)
Theorem proc_stat_round_trip pid comm fields : word pid -> Forall (fun w => word w /\ ")"%char ∉ w) fields ->
  new (print pid comm fields) = Ok (pid :: comm :: fields).
Proof.
  intros Hpid Hf. unfold new, print. cbn [lit String.list_ascii_of_string app]. set (tail := spaced fields ++ [NL]).
  assert (forall l, (SV.extract_leading is_space (pid ++ l)).2 = pid ++ l) as -> by (intros l; by apply no_leading_space).
  rewrite extract_word by done.
  change (SV.remove_leading (fun c => negb (c =c "(")) (" "%char :: ?x :: ?l)) with (x :: l).
  assert (forall c l, has_prefix (c :: l) [c] = true) as Hp by (intros c l; apply has_prefix_spec; by exists l).
  rewrite Hp. cbn [negb]. rewrite SV.remove_prefix_drop. rewrite skipn_cons, drop_0.
  assert (")"%char ∉ tail) as Ht.
  { unfold tail. rewrite not_elem_of_app. split; [|by rewrite list_elem_of_singleton].
    unfold spaced. rewrite list_elem_of_In, in_flat_map. intros (w & Hw & Hin). apply list_elem_of_In in Hw, Hin.
    rewrite Forall_forall in Hf. apply Hf in Hw as [_ Hn]. cbn in Hin. apply elem_of_cons in Hin as [?|?]; done. }
  rewrite rfind_last by done. unfold SV.extract_prefix.
  destruct (_ <? _)%nat eqn:E; [apply Nat.ltb_lt in E; rewrite length_app in E; lia|].
  rewrite take_app_length, drop_app_length, Hp. cbn [negb]. rewrite SV.remove_prefix_drop. rewrite skipn_cons, drop_0.
  unfold tail. rewrite rest_loop_words; [done|eapply Forall_impl; [exact Hf|by intros ? [? ?]]|done|].
  rewrite length_app. cbn. lia.
Qed.

Lemma proc_stat_round_trip_witness :
  new (print (lit "42") (lit "a) S 1 (b") [lit "R"; lit "7"]) = Ok [lit "42"; lit "a) S 1 (b"; lit "R"; lit "7"].
Proof.
  apply (proc_stat_round_trip (lit "42") (lit "a) S 1 (b") [lit "R"; lit "7"]).
  - split; [done|]. by repeat constructor.
  - repeat constructor; try done; by vm_compute; intros H; repeat (apply elem_of_cons in H as [H|H]; [done|]); apply elem_of_nil in H.
Defined.

(** The loop always has enough fuel: every input gives the fields or breaks an
    assertion. *)
Lemma rest_loop_total : forall fuel s acc, (length s < fuel)%nat -> exists fs, rest_loop fuel s acc = Ok fs.
Proof.
  induction fuel as [|fuel IH]; intros s acc Hf; [lia|]. cbn [rest_loop]. unfold SV.extract_leading.
  set (t := SV.remove_leading is_space s). assert (length t <= length s)%nat as Ht by apply length_drop_while.
  destruct (SV.empty _) eqn:E; [eauto|]. apply IH.
  pose proof (f_equal length (take_drop_while not_space t)) as Hl. rewrite length_app in Hl.
  unfold SV.empty in E. apply Nat.eqb_neq in E. lia.
Qed.

Lemma new_total contents : new contents <> NoFuel.
Proof.
  unfold new. unfold SV.extract_leading at 1. repeat (case_goal; try done). edestruct rest_loop_total as [fs Hfs]; [|by erewrite Hfs]. lia.
Qed.

End ProcStat.
