(* ===== verification/Process.v ===== *)
(** * Processes and the working directory

    [process.cc], [proc_status_file.cc], [working_directory.hh/.cc] and
    [temporary_directory.cc].  Files go through the requests of [FileIo.v]; the
    requests about processes are [psys], answered by a second kernel over the
    same world.  The texts of exceptions come without the position and the text
    of [errno]. *)

From Stdlib Require Import ZArith QArith Lia Ascii.
From S2P Require Import Prelude.
From S2P Require Import Ctype.
From S2P Require Import StringView.
From S2P Require Import StringTraits.
From S2P Require Import StringCompare.
From S2P Require Import StringTransform.
From S2P Require Import Floats.
From S2P Require Import Doubles.
From S2P Require Import Strtod.
From S2P Require Import Humanize.
From S2P Require Import FileIo.
From S2P Require Import FileManip.
From S2P Require Import Path.
From S2P Require Import ProcStat.
Local Open Scope Z_scope.

Definition ESRCH : Z := 3.
Definition ENOENT : Z := 2.
Definition EINVAL : Z := 22.
Definition S_0600 : Z := 384.
Definition SIGTERM : Z := 15.
Definition SIGKILL : Z := 9.

(** Requests; [inl errno] when they fail.  [Readlink] answers at most [size]
    characters, [Sysconf] is [sysconf(_SC_CLK_TCK)], [Now] the system clock in
    nanoseconds, [SleepFor] takes seconds.  [Mkostemp] answers the descriptor and
    the name made from the template; [OpenTmpfile] is [open] with [O_TMPFILE],
    [O_RDWR] and [O_EXCL] besides [flags]. *)
Inductive psys : Type -> Type :=
| Readlink (path : str) (size : Z) : psys (Z + str)
| Getpid : psys Z
| GetCurrentDirName : psys (Z + str)
| Chdir (path : str) : psys (Z + unit)
| Fchdir (fd : Z) : psys (Z + unit)
| Opendir (path : str) : psys (Z + Z)
| Mkdtemp (templ : str) : psys (Z + str)
| Mkostemp (templ : str) (flags : list open_flag) : psys (Z + Z * str)
| OpenTmpfile (dir : str) (flags : list open_flag) (mode : Z) : psys (Z + Z)
| Umask (mask : Z) : psys unit
| Kill (pid signal : Z) : psys (Z + unit)
| Sysconf : psys Z
| Now : psys Z
| SleepFor (seconds : Q) : psys unit.

(** ** Sorting and searching strings *)

(** [operator<] of [std::string]: bytes compare as [unsigned char]. *)
Fixpoint string_ltb (a b : str) : bool :=
  match a, b with
  | [], [] => false
  | [], _ :: _ => true
  | _ :: _, [] => false
  | x :: a', y :: b' => if uchz x =? uchz y then string_ltb a' b' else uchz x <? uchz y
  end.

Fixpoint sort_insert (x : str) (l : list str) : list str :=
  match l with
  | [] => [x]
  | y :: l' => if string_ltb x y then x :: l else y :: sort_insert x l'
  end.

(** [std::sort]: equal strings cannot be told apart, so that any sort gives the
    same result. *)
Fixpoint sort (l : list str) : list str :=
  match l with
  | [] => []
  | x :: l' => sort_insert x (sort l')
  end.

(** [std::lower_bound] over [len] elements from [first]; a string and a
    [StringView] compare as [StringView]s. *)
Fixpoint lower_bound_loop (fuel : nat) (a : list str) (first len : nat) (val : str) : outcome nat :=
  match fuel with
  | O => NoFuel
  | S fuel' =>
      if (0 <? len)%nat then
        let half := Nat.div2 len in
        x ← get_or_ub (a !! (first + half)%nat);
        if SV.ltb x val then lower_bound_loop fuel' a (first + half + 1) (len - half - 1) val
        else lower_bound_loop fuel' a first half val
      else Ok first
  end.

Definition binary_search (a : list str) (val : str) : outcome bool :=
  i ← lower_bound_loop (S (length a)) a 0 (length a) val;
  Ok (match a !! i with Some x => negb (SV.ltb val x) | None => false end).

Inductive ArchKind := i386 | x86_64.

Section Process.
Context {W : Type}.
Variable kernel : forall A, fsys A -> W -> W * A.
Variable pkernel : forall A, psys A -> W -> W * A.
Arguments pkernel {A}.

Abbreviation M := (stm (io W)).
Abbreviation sys := (perform kernel).

Definition ask {A} (c : psys A) : M A := fun s =>
  let (w, a) := pkernel c (world s) in (mkIo (errno s) w, Ok a).

Definition attempt {A} (c : psys (Z + A)) : M (option A) := fun s =>
  match pkernel c (world s) with
  | (w, inl e) => (mkIo e w, Ok None)
  | (w, inr a) => (mkIo (errno s) w, Ok (Some a))
  end.

(** [try { m } catch (...) { handler }] *)
Definition catching {A} (m : M A) (handler : exn -> M A) : M A := fun s =>
  match m s with
  | (s', Throw e) => handler e s'
  | r => r
  end.

(** The destructor of [Directory]. *)
Definition with_dir {A} (dir : Z) (m : M A) : M A := fun s =>
  match m s with
  | (s1, UB) => (s1, UB)
  | (s1, NoFuel) => (s1, NoFuel)
  | (s1, r) => let (s2, _) := sys (Closedir dir) s1 in (s2, r)
  end.

(** ** process.cc: the executable of a process *)

Definition exe_link (name : str) : str := lit "/proc/" ++ name ++ lit "/exe".

Definition readlink_failed {A} (path : str) : M A := throw_error (lit "Failed: readlink('" ++ path ++ lit "')").

Definition executable_path (pid : Z) : M str :=
  let path := exe_link (to_string pid) in
  rc ← attempt (Readlink path 4096);
  e ← get_errno;
  if match rc with None => e =? ENAMETOOLONG | Some t => 4096 <=? len t end then
    rc ← attempt (Readlink path 65536);
    match rc with
    | Some t => if 65536 <=? len t then readlink_failed path else mret t
    | None => readlink_failed path
    end
  else
    match rc with
    | Some t => mret t
    | None => readlink_failed path
    end.

(** ** working_directory.cc *)

Definition get_cwd : M str :=
  x ← attempt GetCurrentDirName;
  match x with
  | None => throw_error (lit "Failed to get CWD")
  | Some x =>
      if negb (bool_decide (head x = Some "/"%char)) then
        _ ← set_errno ENOENT; throw_error (lit "Failed to get CWD")
      else mret (if decide (last x = Some "/"%char) then x else x ++ ["/"%char])
  end.

Definition chdir_relative_to_executable_dirpath (path : str) : M unit :=
  let path := if SV.eqb path (lit ".") then [] else path in
  pid ← ask Getpid;
  new_cwd ← executable_path pid;
  let new_cwd := take (length (path_dirpath new_cwd)) new_cwd ++ path in
  r ← attempt (Chdir new_cwd);
  match r with
  | None => throw_error (lit "chdir(" ++ new_cwd ++ lit ")")
  | Some _ => mret tt
  end.

(** The descriptor of the old directory. *)
Definition new_directory_changer (new_wd : str) : M Z :=
  old_cwd ← sys (Openat AT_FDCWD (lit ".") [O_RDONLY; O_CLOEXEC] 0);
  match old_cwd with
  | None => throw_error (lit "open() failed")
  | Some old_cwd =>
      r ← attempt (Chdir new_wd);
      match r with
      | None => _ ← sys (Close old_cwd); throw_error (lit "chdir() failed")
      | Some _ => mret old_cwd
      end
  end.

Definition destroy_directory_changer (old_cwd : option Z) : M unit :=
  match old_cwd with
  | None => mret tt
  | Some fd => _ ← attempt (Fchdir fd); _ ← sys (Close fd); mret tt
  end.

(** ** process.cc: finding processes *)

(** The loop that makes the paths absolute; [cwd] is empty until it is needed. *)
Fixpoint make_absolute (cwd : str) (exec_set : list str) : M (list str) :=
  match exec_set with
  | [] => mret []
  | exec :: rest =>
      c ← lift (SV.front exec);
      '(cwd, exec) ←
        (if negb (c =c "/") then
           cwd ← (if SV.empty cwd then get_cwd else mret cwd);
           mret (cwd, cwd ++ exec)
         else mret (cwd, exec));
      exec ← lift (path_absolute exec (lit "/"));
      rest ← make_absolute cwd rest;
      mret (exec :: rest)
  end.

Definition deleted (exec : str) : str := exec ++ lit " (deleted)".

(** [buff_size] before the terminating null character is added to it. *)
Definition longest (exec_set : list str) : nat := fold_left (fun m x => Nat.max m (length (deleted x))) exec_set 0%nat.

(** The lambda, for an entry of /proc. *)
Definition check_process (exec_set : list str) (buff_size my_pid : Z) (res : list Z) (file : str * dtype) : M (list Z * bool) :=
  match str2num int32 file.1 with
  | None => mret (res, true)
  | Some pid =>
      if pid <? 1 then mret (res, true)
      else if pid =? my_pid then mret (res, true)
      else
        l ← attempt (Readlink (exe_link file.1) buff_size);
        match l with
        | None => mret (res, true)
        | Some buff =>
            if buff_size <=? len buff then mret (res, true)
            else
              found ← lift (binary_search exec_set buff);
              mret (if (found : bool) then res ++ [pid] else res, true)
        end
  end.

Definition find_processes_by_executable_path (fuel : nat) (exec_set : list str) (include_me : bool) : M (list Z) :=
  if decide (exec_set = []) then mret []
  else
    my_pid ← (if include_me then mret (-1) else ask Getpid);
    dir ← attempt (Opendir (lit "/proc"));
    match dir with
    | None => throw_error (lit "Cannot open /proc directory")
    | Some dir =>
        with_dir dir
          (exec_set ← make_absolute [] exec_set;
           let buff_size := Z.of_nat (longest exec_set) + 1 in
           let exec_set := sort (exec_set ++ (deleted <$> exec_set)) in
           for_each_dir_component kernel fuel dir (check_process exec_set buff_size my_pid)
             (fun _ => throw_error (lit "readdir()")) [])
    end.

(** ** process.cc: killing processes *)

(** Number of the field with the start time. *)
Definition START_TIME_FID : nat := 21.

(** [ProcStatFileContents::get(pid).field(START_TIME_FID)] *)
Definition start_time_of (fuel : nat) (pid : Z) : M str :=
  contents ← get_file_contents_path kernel fuel (lit "/proc/" ++ to_string pid ++ lit "/stat");
  fields ← lift (ProcStat.new contents);
  lift (ProcStat.field fields START_TIME_FID).

Fixpoint collect_victims (fuel : nat) (pids : list Z) (victims : list (Z * str)) : M (list (Z * str)) :=
  match pids with
  | [] => mret victims
  | pid :: pids' =>
      victims ← catching
        (start_time ← start_time_of fuel pid; mret (victims ++ [(pid, start_time)]))
        (fun ex =>
           r ← attempt (Kill pid 0);
           e ← get_errno;
           if bool_decide (r = Some tt) || negb (e =? ESRCH) then lift (Throw ex) else mret victims);
      collect_victims fuel pids' victims
  end.

Definition max_start_time (victims : list (Z * str)) : str :=
  fold_left (fun m v => if SV.gtb v.2 m then v.2 else m) victims [].

(** [swap(victims[i], victims.back()); victims.pop_back();] *)
Definition swap_remove {A} (i : nat) (l : list A) : list A :=
  match last l with
  | Some x => take (length l - 1) (<[i := x]> l)
  | None => l
  end.

Fixpoint terminate_loop (fuel : nat) (signal : Z) (i : nat) (victims : list (Z * str)) : M (list (Z * str)) :=
  match fuel with
  | O => lift NoFuel
  | S fuel' =>
      match victims !! i with
      | None => mret victims
      | Some (pid, _) =>
          r ← attempt (Kill pid signal);
          match r with
          | Some _ => terminate_loop fuel' signal (S i) victims
          | None =>
              e ← get_errno;
              if negb (e =? ESRCH) then throw_error (lit "kill(" ++ to_string pid ++ lit ")")
              else terminate_loop fuel' signal i (swap_remove i victims)
          end
      end
  end.

(** The inner loop of the waiting. *)
Fixpoint remove_dead (fuel : nat) (i : nat) (victims : list (Z * str)) : M (list (Z * str)) :=
  match fuel with
  | O => lift NoFuel
  | S fuel' =>
      match victims !! i with
      | None => mret victims
      | Some (pid, start_time) =>
          alive ← catching (t ← start_time_of fuel pid; mret (SV.eqb t start_time)) (fun _ => mret false);
          if (alive : bool) then remove_dead fuel' (S i) victims
          else remove_dead fuel' i (swap_remove i victims)
      end
  end.

(** [0.04s], a [long double], in seconds and in nanoseconds. *)
Definition SLEEP_INTERVAL : Q := round_float LONG_DOUBLE_PREC (1 # 25).
Definition SLEEP_INTERVAL_NS : Q := round_float LONG_DOUBLE_PREC (SLEEP_INTERVAL * inject_Z 1000000000).

(** [*wait_timeout - (curr_time - wait_start_time)]: a [double] of nanoseconds. *)
Definition remaining_wait (wait_timeout : double) (waited : Z) : double :=
  dsub (dmul wait_timeout (dZ 1000000000)) (dZ waited).

Definition sleep_interval (remaining : double) : Q :=
  match remaining with
  | Fin q => if negb (Qle_bool SLEEP_INTERVAL_NS q) then round_float LONG_DOUBLE_PREC (q / inject_Z 1000000000) else SLEEP_INTERVAL
  | _ => SLEEP_INTERVAL
  end.

Fixpoint wait_loop (fuel : nat) (wait_timeout : option double) (wait_start_time curr_time : Z) (victims : list (Z * str))
    : M (list (Z * str)) :=
  match fuel with
  | O => lift NoFuel
  | S fuel' =>
      if curr_time <? wait_start_time then
        victims ← remove_dead fuel 0 victims;
        if decide (victims = []) then mret victims
        else
          curr_time ← ask Now;
          match wait_timeout with
          | None => _ ← ask (SleepFor SLEEP_INTERVAL); wait_loop fuel' wait_timeout wait_start_time curr_time victims
          | Some t =>
              let remaining := remaining_wait t (curr_time - wait_start_time) in
              if negb (dltb (Fin 0) remaining) then mret victims
              else _ ← ask (SleepFor (sleep_interval remaining)); wait_loop fuel' wait_timeout wait_start_time curr_time victims
          end
      else mret victims
  end.

(** The last loop. *)
Fixpoint kill_all (victims : list (Z * str)) : M unit :=
  match victims with
  | [] => mret tt
  | (pid, _) :: victims' => _ ← attempt (Kill pid SIGKILL); kill_all victims'
  end.

(** [kill_processes_by_exec] once the victims are known. *)
Definition kill_victims (fuel : nat) (wait_timeout : option double) (kill_after_waiting : bool) (terminate_signal : Z)
    (victims : list (Z * str)) : M unit :=
  if decide (victims = []) then mret tt
  else
    ticks_per_second ← ask Sysconf;
    if ticks_per_second =? -1 then throw_error (lit "sysconf(_SC_CLK_TCK) failed")
    else
      let max_victim_start_time := max_start_time victims in
      proc_uptime ← get_file_contents_path kernel fuel (lit "/proc/uptime");
      uptime ← lift (value_or_throw (str2num_double (SV.extract_leading (fun c => negb (is_space c)) proc_uptime).1));
      let current_uptime := to_string_floating (dmul uptime (dZ ticks_per_second)) 0 in
      _ ← when (SV.geb max_victim_start_time proc_uptime)
        (if ticks_per_second =? 0 then lift UB else ask (SleepFor (inject_Z (Z.quot 1 ticks_per_second))));
      victims ← terminate_loop (S (length victims)) terminate_signal 0 victims;
      wait_start_time ← ask Now;
      victims ← wait_loop fuel wait_timeout wait_start_time wait_start_time victims;
      when kill_after_waiting (kill_all victims).

Definition kill_processes_by_exec (fuel : nat) (exec_set : list str) (wait_timeout : option double) (kill_after_waiting : bool)
    (terminate_signal : Z) : M unit :=
  pids ← find_processes_by_executable_path fuel exec_set false;
  victims ← collect_victims fuel pids [];
  kill_victims fuel wait_timeout kill_after_waiting terminate_signal victims.

Definition detect_architecture (pid : Z) : M ArchKind :=
  let filename := exe_link (to_string pid) in
  fd ← sys (Openat AT_FDCWD filename [O_RDONLY; O_CLOEXEC] 0);
  match fd with
  | None => throw_error (lit "open('" ++ filename ++ lit "')")
  | Some fd =>
      with_fd kernel fd
        (c ← sys (Pread fd 1 4);
         match c with
         | Some [c] =>
             if uchz c =? 1 then mret i386
             else if uchz c =? 2 then mret x86_64
             else throw_error (lit "Unsupported architecture")
         | _ => throw_error (lit "pread()")
         end)
  end.

(** ** proc_status_file.cc *)

(** The buffer holds the whole path: "/proc/", up to 11 characters of the number
    and "/status". *)
Definition open_proc_status (tid : Z) : M (option Z) :=
  sys (Openat AT_FDCWD (lit "/proc/" ++ to_string tid ++ lit "/status") [O_RDONLY; O_CLOEXEC] 0).

Definition get_char_or_eof (b : FdPreadBuff) : M (FdPreadBuff * option ascii) :=
  '(b, c) ← get_char kernel b;
  match c with
  | None => throw_error (lit "read()")
  | Some c => mret (b, c)
  end.

Section Field.
Variable field_name : str.

Definition get_char_throw (b : FdPreadBuff) : M (FdPreadBuff * ascii) :=
  '(b, c) ← get_char_or_eof b;
  match c with
  | None => throw_error (lit "field " ++ [DQ] ++ field_name ++ [DQ] ++ lit " was not found")
  | Some c => mret (b, c)
  end.

Fixpoint skip_to_newline (fuel : nat) (b : FdPreadBuff) : M FdPreadBuff :=
  match fuel with
  | O => lift NoFuel
  | S fuel' =>
      '(b, c) ← get_char_throw b;
      if c =c NL then mret b else skip_to_newline fuel' b
  end.

(** The loop over the name; [false] after a character that differs, with the
    rest of the line skipped.  A byte of the file compares as [unsigned char],
    one of the name as [char]. *)
Fixpoint match_name (fuel : nat) (name : str) (b : FdPreadBuff) : M (FdPreadBuff * bool) :=
  match name with
  | [] => mret (b, true)
  | fc :: name' =>
      '(b, c) ← get_char_throw b;
      if negb (uchz c =? chz fc) then b ← skip_to_newline fuel b; mret (b, false)
      else match_name fuel name' b
  end.

Fixpoint skip_white (fuel : nat) (b : FdPreadBuff) : M (FdPreadBuff * option ascii) :=
  match fuel with
  | O => lift NoFuel
  | S fuel' =>
      '(b, c) ← get_char_or_eof b;
      match c with
      | Some x => if (x =c TAB) || (x =c NL) then skip_white fuel' b else mret (b, c)
      | None => mret (b, c)
      end
  end.

Fixpoint retrieve (fuel : nat) (b : FdPreadBuff) (c : option ascii) (res : str) : M str :=
  match fuel with
  | O => lift NoFuel
  | S fuel' =>
      match c with
      | Some x =>
          if x =c NL then mret res
          else '(b, c) ← get_char_or_eof b; retrieve fuel' b c (res ++ [x])
      | None => mret res
      end
  end.

Fixpoint field_loop (fuel : nat) (b : FdPreadBuff) : M str :=
  match fuel with
  | O => lift NoFuel
  | S fuel' =>
      '(b, matched) ← match_name fuel field_name b;
      if (matched : bool) then
        '(b, c) ← get_char_throw b;
        if negb (c =c ":") then b ← skip_to_newline fuel b; field_loop fuel' b
        else '(b, c) ← skip_white fuel b; retrieve fuel b c []
      else field_loop fuel' b
  end.

End Field.

Definition field_from_proc_status (fuel : nat) (proc_status_fd : Z) (field_name : str) : M str :=
  field_loop field_name fuel (new_pread_buff proc_status_fd 0).

(** ** temporary_directory.cc *)

(** [path_] and [name_]; the object of the default constructor, and one that has
    been moved from, has no name. *)
Record TemporaryDirectory := mkTemporaryDirectory { td_path : str; td_name : option str }.

Definition no_directory : TemporaryDirectory := mkTemporaryDirectory [] None.

Definition new_temporary_directory (templ : str) : M TemporaryDirectory :=
  if negb (has_suffix templ (lit "XXXXXX")) then lift UB
  else
    let templ := SV.remove_trailing (fun c => c =c "/") templ in
    name ← attempt (Mkdtemp templ);
    match name with
    | None => throw_error (lit "Cannot create temporary directory")
    | Some name =>
        path ← (if bool_decide (head name = Some "/"%char) then mret name else cwd ← get_cwd; mret (cwd ++ name));
        path ← lift (path_absolute path (lit "/"));
        let path := if decide (last path = Some "/"%char) then path else path ++ ["/"%char] in
        mret (mkTemporaryDirectory path (Some (name ++ ["/"%char])))
    end.

Definition td_exists (td : TemporaryDirectory) : bool := bool_decide (is_Some (td_name td)).

(** Both objects afterwards. *)
Definition move_temporary_directory (fuel : nat) (this td : TemporaryDirectory) : M (TemporaryDirectory * TemporaryDirectory) :=
  rc ← (if td_exists this then remove_r kernel fuel (td_path this) else mret 0);
  if rc =? -1 then throw_error (lit "remove_r() failed") else mret (td, no_directory).

Definition destroy_temporary_directory (fuel : nat) (this : TemporaryDirectory) : M unit :=
  if td_exists this then _ ← remove_r kernel fuel (td_path this); mret tt else mret tt.

(** ** unlinked_temporary_file.cc *)

Definition open_unlinked_tmp_file (flags : list open_flag) : M (option Z) :=
  fd ← attempt (OpenTmpfile (lit "/tmp") flags S_0600);
  match fd with
  | Some fd => mret (Some fd)
  | None =>
      e ← get_errno;
      if negb (e =? EINVAL) then mret None
      else
        _ ← ask (Umask 63);
        r ← attempt (Mkostemp (lit "/tmp/tmp_unlinked_file.XXXXXX") flags);
        match r with
        | None => mret None
        | Some (fd, name) => _ ← sys (Unlinkat AT_FDCWD name false); mret (Some fd)
        end
  end.

(** ** opened_temporary_file.hh *)

(** [path_] and [fd_]. *)
Record OpenedTemporaryFile := mkOpenedTemporaryFile { otf_path : str; otf_fd : option Z }.

(** [mkstemp] is [mkostemp] without flags. *)
Definition new_opened_temporary_file (templ : str) : M OpenedTemporaryFile :=
  if negb (has_suffix templ (lit "XXXXXX")) then throw_error (lit "this is needed by mkstemp")
  else
    r ← attempt (Mkostemp templ []);
    match r with
    | None => throw_error (lit "mkstemp() failed")
    | Some (fd, name) => mret (mkOpenedTemporaryFile name (Some fd))
    end.

(** The new value of the object assigned to and of the one moved from; the old
    descriptor is closed by the assignment to [fd_]. *)
Definition move_opened_temporary_file (this tf : OpenedTemporaryFile) : M (OpenedTemporaryFile * OpenedTemporaryFile) :=
  _ ← (match otf_fd this with Some _ => _ ← sys (Unlinkat AT_FDCWD (otf_path this) false); mret tt | None => mret tt end);
  _ ← (match otf_fd this with Some fd => _ ← sys (Close fd); mret tt | None => mret tt end);
  mret (tf, mkOpenedTemporaryFile [] None).

Definition destroy_opened_temporary_file (this : OpenedTemporaryFile) : M unit :=
  match otf_fd this with
  | Some fd => _ ← sys (Unlinkat AT_FDCWD (otf_path this) false); _ ← sys (Close fd); mret tt
  | None => mret tt
  end.

End Process.
