(* ===== verification/ProcessSearch.v ===== *)
(** * Sorting and searching the paths of executables

    [std::sort] orders [std::string]s by unsigned bytes, [std::binary_search]
    compares them with a [StringView] by signed ones.  What a positive answer
    means does not depend on the order; a negative one does. *)

From Stdlib Require Import ZArith Lia Ascii.
From stdpp Require Import sorting.
From S2P Require Import Prelude.
From S2P Require Import StringView.
From S2P Require Import Process.
Local Open Scope Z_scope.

(** ** [sort] *)

Lemma sort_insert_perm x l : sort_insert x l ≡ₚ x :: l.
Proof.
  induction l as [|y l IH]; [done|]. cbn [sort_insert]. destruct (string_ltb x y); [done|].
  rewrite IH. constructor.
Qed.

Lemma sort_perm l : sort l ≡ₚ l.
Proof. induction l as [|x l IH]; [done|]. cbn [sort]. by rewrite sort_insert_perm, IH. Qed.

(** Bytes below 128: the two orders agree. *)
Definition ascii_only (s : str) : Prop := Forall (fun c => uchz c < 128) s.

Lemma string_ltb_ascii a : forall b, ascii_only a -> ascii_only b -> string_ltb a b = SV.ltb a b.
Proof.
  intros b Ha Hb. unfold SV.ltb. rewrite SV.compare_lex.
  enough (string_ltb a b = match SV.lex a b with Lt => true | _ => false end) as ->
    by (destruct (SV.lex a b); reflexivity).
  revert b Hb. induction Ha as [|x a Hx Ha IH]; intros [|y b] Hb; try done. apply Forall_cons_1 in Hb as [Hy Hb].
  cbn [string_ltb SV.lex]. unfold chz.
  destruct (Z.ltb_spec (uchz x) 128); [|lia]. destruct (Z.ltb_spec (uchz y) 128); [|lia].
  destruct (Z.eqb_spec (uchz x) (uchz y)) as [E|E]; [rewrite E, Z.compare_refl; by apply IH|].
  unfold Z.ltb. by destruct (Z.compare_spec (uchz x) (uchz y)).
Qed.

Definition sorted (l : list str) : Prop := StronglySorted (fun x y => SV.ltb y x = false) l.

Lemma sorted_lookup l i j x y : sorted l -> (i < j)%nat -> l !! i = Some x -> l !! j = Some y -> SV.ltb y x = false.
Proof.
  intros Hs Hij Hi Hj. rewrite <- (take_drop_middle l i x Hi) in Hs. apply StronglySorted_app_1_r in Hs.
  apply StronglySorted_inv in Hs as [_ Hs]. rewrite Forall_forall in Hs. apply Hs, list_elem_of_lookup.
  exists (j - S i)%nat. rewrite lookup_drop. by replace (S i + (j - S i))%nat with j by lia.
Qed.

Lemma view_ltb_asym a b : SV.ltb a b = true -> SV.ltb b a = false.
Proof.
  intros H. apply not_true_iff_false. intros H'. pose proof (SV.ltb_trans _ _ _ H H') as E. by rewrite SV.ltb_irrefl in E.
Qed.

(** [not (b < a)] and [not (c < b)] give [not (c < a)]. *)
Lemma ltb_ge_trans a b c : SV.ltb b a = false -> SV.ltb c b = false -> SV.ltb c a = false.
Proof.
  intros H1 H2. destruct (SV.ltb a b) eqn:E.
  - apply not_true_iff_false. intros H. by rewrite (SV.ltb_trans _ _ _ H E) in H2.
  - by rewrite (SV.ltb_total a b) by done.
Qed.

Lemma sort_insert_sorted x l : ascii_only x -> Forall ascii_only l -> sorted l -> sorted (sort_insert x l).
Proof.
  intros Hx Hl Hs. induction Hs as [|y l Hs IH Hy]; [by repeat constructor|]. apply Forall_cons_1 in Hl as [Hya Hl].
  cbn [sort_insert]. rewrite string_ltb_ascii by done. destruct (SV.ltb x y) eqn:E.
  - apply view_ltb_asym in E. constructor; [by constructor|]. constructor; [done|].
    eapply Forall_impl; [exact Hy|]. intros z Hz. by eapply ltb_ge_trans.
  - constructor; [by apply IH|]. rewrite sort_insert_perm. by constructor.
Qed.

Lemma sort_sorted l : Forall ascii_only l -> sorted (sort l).
Proof.
  induction 1 as [|x l Hx Hl IH]; [constructor|]. cbn [sort]. apply sort_insert_sorted; [done| |done].
  by rewrite sort_perm.
Qed.

(** ** [lower_bound] *)

(** The end of the range is the end of the list or an element that is not less
    than the value, in any list. *)
Lemma lower_bound_stop a val : forall fuel first len, (len < fuel)%nat -> (first + len <= length a)%nat ->
  (forall x, a !! (first + len)%nat = Some x -> SV.ltb x val = false) ->
  exists i, lower_bound_loop fuel a first len val = Ok i /\ (first <= i <= first + len)%nat /\
    forall x, a !! i = Some x -> SV.ltb x val = false.
Proof.
  induction fuel as [|fuel IH]; intros first len Hf Hl Hend; [lia|]. cbn [lower_bound_loop].
  destruct (Nat.ltb_spec 0 len); [|exists first; replace len with 0%nat in * by lia; rewrite Nat.add_0_r in *; split_and!; done || lia].
  pose proof (Nat.lt_div2 len ltac:(done)) as Hh. set (half := Nat.div2 len) in *.
  destruct (lookup_lt_is_Some_2 a (first + half)) as [y Hy]; [lia|]. rewrite Hy. cbn [get_or_ub mbind outcome_bind].
  destruct (SV.ltb y val) eqn:E.
  - destruct (IH (first + half + 1)%nat (len - half - 1)%nat) as (i & Hi & Hr & Hs); [lia|lia| |].
    { intros x Hx. apply Hend. rewrite <- Hx. f_equal. lia. }
    exists i. split_and!; [done|lia|lia|done].
  - destruct (IH first half) as (i & Hi & Hr & Hs); [lia|lia| |].
    { intros x Hx. rewrite Hx in Hy. by injection Hy as ->. }
    exists i. split_and!; [done|lia|lia|done].
Qed.

(** In a sorted list everything before the result is less. *)
Lemma lower_bound_before a val : sorted a -> forall fuel first len i, (first + len <= length a)%nat ->
  (forall j x, (j < first)%nat -> a !! j = Some x -> SV.ltb x val = true) ->
  lower_bound_loop fuel a first len val = Ok i -> forall j x, (j < i)%nat -> a !! j = Some x -> SV.ltb x val = true.
Proof.
  intros Hs. induction fuel as [|fuel IH]; intros first len i Hl Hb; [done|]. cbn [lower_bound_loop].
  destruct (Nat.ltb_spec 0 len); [|by intros [= <-]].
  pose proof (Nat.lt_div2 len ltac:(done)) as Hh. set (half := Nat.div2 len) in *.
  destruct (lookup_lt_is_Some_2 a (first + half)) as [y Hy]; [lia|]. rewrite Hy. cbn [get_or_ub mbind outcome_bind].
  destruct (SV.ltb y val) eqn:E; apply IH; [lia| |lia|done].
  intros j x Hj Hx. destruct (decide (j = first + half)%nat) as [->|]; [by rewrite Hx in Hy; injection Hy as ->|].
  assert (SV.ltb y x = false) as Hxy by (eapply (sorted_lookup a j (first + half)%nat); eauto; lia).
  destruct (SV.ltb x val) eqn:E'; [done|]. by rewrite (ltb_ge_trans val x y E' Hxy) in E.
Qed.

(** ** [binary_search] *)

(** A positive answer is right in any list. *)
Lemma binary_search_sound a val : exists b, binary_search a val = Ok b /\ (b = true -> val ∈ a).
Proof.
  unfold binary_search. destruct (lower_bound_stop a val (S (length a)) 0 (length a)) as (i & -> & _ & Hs); [lia|lia| |].
  { intros x Hx. apply lookup_lt_Some in Hx. lia. }
  eexists. split; [reflexivity|]. destruct (a !! i) as [x|] eqn:Hx; [|done]. intros E. bools.
  rewrite (SV.ltb_total val x E (Hs x eq_refl)). by eapply list_elem_of_lookup_2.
Qed.

Lemma binary_search_sorted a val : sorted a -> binary_search a val = Ok (bool_decide (val ∈ a)).
Proof.
  intros Hsort. destruct (binary_search_sound a val) as (b & Hb & Hsound). rewrite Hb. f_equal.
  destruct b; [by rewrite bool_decide_true by auto|]. symmetry. apply bool_decide_false.
  rewrite list_elem_of_lookup. intros [j Hj]. unfold binary_search in Hb.
  destruct (lower_bound_loop _ _ _ _ _) as [i|e| |] eqn:Ei; try done. cbn in Hb. injection Hb as Hb.
  pose proof (lower_bound_before a val Hsort _ 0 (length a) i ltac:(lia) ltac:(intros; lia) Ei j val) as Hlt.
  destruct (le_lt_dec i j) as [Hij|Hij]; [|specialize (Hlt Hij Hj); by rewrite SV.ltb_irrefl in Hlt].
  destruct (lookup_lt_is_Some_2 a i) as [x Hx]; [apply lookup_lt_Some in Hj; lia|]. rewrite Hx in Hb. bools.
  destruct (decide (i = j)) as [->|]; [rewrite Hx in Hj; injection Hj as ->; by rewrite SV.ltb_irrefl in Hb|].
  assert (SV.ltb val x = false) as E by (eapply (sorted_lookup a i j); eauto; lia). congruence.
Qed.

(** The search in the paths of bytes below 128, whatever the value is. *)
Lemma search_ascii l val : Forall ascii_only l -> binary_search (sort l) val = Ok (bool_decide (val ∈ l)).
Proof.
  intros Hl. rewrite binary_search_sorted by (by apply sort_sorted). f_equal. apply bool_decide_ext. by rewrite sort_perm.
Qed.

(** A path that starts with a byte above 127 is not found between others. *)
Lemma non_ascii_path_is_missed :
  let paths := [lit "/a"; lit "/b"; lit "/" ++ [char_of 195; char_of 179]] in
  paths !! 2%nat = Some (lit "/" ++ [char_of 195; char_of 179]) /\
  binary_search (sort paths) (lit "/" ++ [char_of 195; char_of 179]) = Ok false.
Proof. by vm_compute. Qed.
