(* ===== verification/ProcessProofs.v ===== *)
(** * Which processes are signalled

    Runs of [Process.v] with a kernel that records the requests about processes:
    whatever the kernel answers, a signal goes only to processes that were found
    to run one of the executables asked for. *)

From Stdlib Require Import ZArith QArith Lia Ascii.
From S2P Require Import Prelude.
From S2P Require Import StringView.
From S2P Require Import StringTransform.
From S2P Require Import Doubles.
From S2P Require Import FileIo.
From S2P Require Import FileManip.
From S2P Require Import Path.
From S2P Require Import ProcStat.
From S2P Require Import Process.
From S2P Require Import ProcessSearch.
Local Open Scope Z_scope.

(** ** The record of a run *)

Inductive event :=
| Ev {A : Type} (c : psys A) (answer : A).

(** The process a signal is sent to; the target of a link that was read; the
    directory and the number of the process itself. *)
Definition signalled (e : event) : option Z :=
  match e with Ev (Kill pid _) _ => Some pid | _ => None end.

Definition link_read (e : event) : option (str * str) :=
  match e with
  | Ev c answer =>
      match c in psys A return A -> option (str * str) with
      | Readlink path _ => fun r => match r with inr t => Some (path, t) | inl _ => None end
      | _ => fun _ => None
      end answer
  end.

Definition directory_read (e : event) : option str :=
  match e with
  | Ev c answer =>
      match c in psys A return A -> option str with
      | GetCurrentDirName => fun r => match r with inr x => Some x | inl _ => None end
      | _ => fun _ => None
      end answer
  end.

Definition own_pid (e : event) : option Z :=
  match e with
  | Ev c answer =>
      match c in psys A return A -> option Z with
      | Getpid => fun r => Some r
      | _ => fun _ => None
      end answer
  end.

(** The world with the events so far, the last one at the end. *)
Definition traced {W} (pkernel : forall A, psys A -> W -> W * A) (A : Type) (c : psys A) (w : W * list event)
    : (W * list event) * A :=
  let (w', a) := pkernel A c w.1 in ((w', w.2 ++ [Ev c a]), a).

Definition untraced {W} (kernel : forall A, fsys A -> W -> W * A) (A : Type) (c : fsys A) (w : W * list event)
    : (W * list event) * A :=
  let (w', a) := kernel A c w.1 in ((w', w.2), a).

Definition log {W} (s : io (W * list event)) : list event := (world s).2.

(** The path an element of [exec_set] stands for. *)
Definition with_slash (x : str) : str := if decide (last x = Some "/"%char) then x else x ++ ["/"%char].

Lemma with_slash_not_empty x : SV.empty (with_slash x) = false.
Proof. unfold with_slash. destruct (decide _) as [Hl|]; by destruct x. Qed.

Definition resolves (l : list event) (exec path : str) : Prop :=
  (head exec = Some "/"%char /\ path_absolute exec (lit "/") = Ok path) \/
  exists x, x ∈ omap directory_read l /\ path_absolute (with_slash x ++ exec) (lit "/") = Ok path.

(** The process was found to run an executable of [exec_set], deleted or not,
    and is not the caller. *)
Definition matches (exec_set : list str) (l : list event) (pid : Z) : Prop :=
  1 <= pid /\ (exists me, me ∈ omap own_pid l /\ pid <> me) /\
  exists name target exec path, str2num int32 name = Some pid /\ (exe_link name, target) ∈ omap link_read l /\
    exec ∈ exec_set /\ resolves l exec path /\ (target = path \/ target = deleted path).

Lemma omap_grows {B} (f : event -> option B) l l' : l `prefix_of` l' -> omap f l ⊆ omap f l'.
Proof. intros [k ->]. rewrite omap_app. set_solver. Qed.

Lemma resolves_grows l l' exec path : l `prefix_of` l' -> resolves l exec path -> resolves l' exec path.
Proof. intros Hl [?|(x & Hx & ?)]; [by left|]. right. exists x. split; [by eapply (omap_grows directory_read)|done]. Qed.

Lemma matches_grows exec_set l l' pid : l `prefix_of` l' -> matches exec_set l pid -> matches exec_set l' pid.
Proof.
  intros Hl (H1 & (me & Hme & Hne) & (name & target & exec & path & H2 & H3 & H4 & H5 & H6)).
  split_and!; [done|exists me; split; [by eapply (omap_grows own_pid)|done]|].
  exists name, target, exec, path. split_and!; [done|by eapply (omap_grows link_read)|done|by eapply resolves_grows|done].
Qed.

Section Runs.
Context {W : Type} (kernel0 : forall A, fsys A -> W -> W * A) (pkernel0 : forall A, psys A -> W -> W * A).

Abbreviation kernel := (untraced kernel0).
Abbreviation pkernel := (traced pkernel0).
Abbreviation S := (io (W * list event)).
Abbreviation M := (stm S).

(** The processes that may be signalled. *)
Variable victim : Z -> Prop.

(** The record grows, by signals to victims only. *)
Definition extends (s s' : S) : Prop :=
  exists new, log s' = log s ++ new /\ Forall victim (omap signalled new).

(** What a run from [s] does, and what holds of its result. *)
Definition run_from {A} (s : S) (m : M A) (Q : A -> S -> Prop) : Prop :=
  extends s (m s).1 /\ forall a, (m s).2 = Ok a -> Q a (m s).1.

Definition any {A} : A -> S -> Prop := fun _ _ => True.

Lemma extends_refl s : extends s s.
Proof. exists []. by rewrite app_nil_r. Qed.

Lemma extends_trans s s1 s2 : extends s s1 -> extends s1 s2 -> extends s s2.
Proof.
  intros (n1 & E1 & H1) (n2 & E2 & H2). exists (n1 ++ n2). rewrite E2, E1, app_assoc, omap_app, Forall_app. done.
Qed.

Lemma extends_log s s' : extends s s' -> log s `prefix_of` log s'.
Proof. intros (n & -> & _). by exists n. Qed.

Lemma extends_same s s' : log s' = log s -> extends s s'.
Proof. intros E. exists []. by rewrite E, app_nil_r. Qed.

Lemma run_ret {A} s (a : A) Q : Q a s -> run_from s (mret a) Q.
Proof. intros H. split; [apply extends_refl|]. by intros ? [= <-]. Qed.

Lemma run_lift {A} s (r : outcome A) Q : (forall a, r = Ok a -> Q a s) -> run_from s (lift r) Q.
Proof. intros H. split; [apply extends_refl|done]. Qed.

Lemma run_throw {A} s text (Q : A -> S -> Prop) : run_from s (throw_error text) Q.
Proof. split; [apply extends_refl|done]. Qed.

Lemma run_gets {A} s (f : S -> A) Q : Q (f s) s -> run_from s (gets f) Q.
Proof. intros H. split; [apply extends_refl|]. by intros ? [= <-]. Qed.

Lemma run_errno s e Q : (forall s', log s' = log s -> Q tt s') -> run_from s (set_errno e) Q.
Proof. intros H. split; [by apply extends_same|]. intros [] _. by apply H. Qed.

Lemma run_bind {A B} s (m : M A) (f : A -> M B) Q R : run_from s m Q ->
  (forall a s1, extends s s1 -> Q a s1 -> run_from s1 (f a) R) -> run_from s (m ≫= f) R.
Proof.
  intros [Hm Hq] Hf. unfold run_from, mbind, stm_bind in *. destruct (m s) as [s1 [a|e| |]]; try by split.
  specialize (Hf a s1 Hm (Hq a eq_refl)). destruct Hf as [He Hr]. split; [by eapply extends_trans|done].
Qed.

Lemma run_weaken {A} s (m : M A) (Q R : A -> S -> Prop) : run_from s m Q -> (forall a s', extends s s' -> Q a s' -> R a s') -> run_from s m R.
Proof. intros [H1 H2] H. split; [done|]. intros a Ha. apply H; [done|]. by apply H2. Qed.

(** A request about processes that is no signal to a stranger. *)
Lemma run_event {A} s (c : psys A) : (forall a, Forall victim (omap signalled [Ev c a])) ->
  let (w, a) := pkernel A c (world s) in
  forall e, extends s (mkIo e w) /\ Ev c a ∈ log (mkIo e w).
Proof.
  intros Hc. unfold traced. destruct (pkernel0 A c (world s).1) as [w' a]. intros e.
  split; [by exists [Ev c a]|]. unfold log. cbn. set_solver.
Qed.

Lemma run_ask {A} s (c : psys A) Q : (forall a, Forall victim (omap signalled [Ev c a])) ->
  (forall a s', extends s s' -> Ev c a ∈ log s' -> Q a s') -> run_from s (ask pkernel c) Q.
Proof.
  intros Hc H. unfold run_from, ask. pose proof (run_event s c Hc) as He. destruct (pkernel A c (world s)) as [w a].
  destruct (He (errno s)) as [H1 H2]. split; [done|]. intros ? [= <-]. by apply H.
Qed.

Lemma run_attempt {A} s (c : psys (Z + A)) Q : (forall a, Forall victim (omap signalled [Ev c a])) ->
  (forall a s', extends s s' -> (forall x, a = Some x -> Ev c (inr x) ∈ log s') -> Q a s') -> run_from s (attempt pkernel c) Q.
Proof.
  intros Hc H. unfold run_from, attempt. pose proof (run_event s c Hc) as He. destruct (pkernel _ c (world s)) as [w [e|a]].
  - destruct (He e) as [H1 H2]. split; [done|]. intros ? [= <-]. by apply H.
  - destruct (He (errno s)) as [H1 H2]. split; [done|]. intros ? [= <-]. apply H; [done|]. by intros ? [= <-].
Qed.

Lemma run_perform {A} s (c : fsys (Z + A)) Q : (forall a s', log s' = log s -> Q a s') -> run_from s (perform kernel c) Q.
Proof.
  intros H. unfold run_from, perform, untraced. destruct (kernel0 _ c (world s).1) as [w [e|a]]; (split; [by apply extends_same|]);
    intros ? [= <-]; by apply H.
Qed.

Lemma run_catching {A} s (m : M A) h Q : run_from s m Q -> (forall e s1, extends s s1 -> run_from s1 (h e) Q) ->
  run_from s (catching m h) Q.
Proof.
  intros [Hm Hq] Hh. unfold run_from, catching in *. destruct (m s) as [s1 [a|e| |]]; try by split.
  destruct (Hh e s1 Hm) as [He Hr]. split; [by eapply extends_trans|done].
Qed.

(** What holds of a result goes on to hold while the record grows. *)
Definition stable {A} (Q : A -> S -> Prop) : Prop := forall a s s', extends s s' -> Q a s -> Q a s'.

Lemma perform_extends {A} (c : fsys (Z + A)) s : extends s (perform kernel c s).1.
Proof. by destruct (run_perform s c any (fun _ _ _ => Logic.I)). Qed.

(** A destructor that makes one request about files. *)
Lemma run_closing {A} s (m : M A) (c : fsys (Z + unit)) Q : stable Q -> run_from s m Q ->
  run_from s (fun s => match m s with
                       | (s1, UB) => (s1, UB)
                       | (s1, NoFuel) => (s1, NoFuel)
                       | (s1, r) => let (s2, _) := perform kernel c s1 in (s2, r)
                       end) Q.
Proof.
  intros HQ [H1 H2]. unfold run_from in *. destruct (m s) as [s1 r]. cbn in H1, H2.
  pose proof (perform_extends c s1) as Hc.
  destruct r as [a|e| |]; [| |by split..]; destruct (perform kernel c s1) as [s2 u]; cbn in Hc |- *;
    (split; [by eapply extends_trans|]); [|done].
  intros a' [= <-]. eapply HQ; [exact Hc|]. by apply H2.
Qed.

Lemma run_with_fd {A} s fd (m : M A) Q : stable Q -> run_from s m Q -> run_from s (with_fd kernel fd m) Q.
Proof. apply run_closing. Qed.

Lemma run_with_dir {A} s dir (m : M A) Q : stable Q -> run_from s m Q -> run_from s (with_dir kernel dir m) Q.
Proof. apply run_closing. Qed.

(** A part that only reads files, or whose result does not matter. *)
Ltac run_step :=
  match goal with
  | |- run_from _ (mbind _ _) _ => eapply (run_bind _ _ _ any)
  | |- run_from _ (perform _ _) _ => apply run_perform
  | |- run_from _ (set_errno _) _ => apply run_errno
  | |- run_from _ (gets _) _ => apply run_gets
  | |- run_from _ get_errno _ => apply run_gets
  | |- run_from _ interrupted _ => apply run_gets
  | |- run_from _ (mret _) _ => apply run_ret
  | |- run_from _ (throw_error _) _ => apply run_throw
  | |- run_from _ (lift _) _ => apply run_lift
  | |- run_from _ (match ?x with _ => _ end) _ => destruct x
  | |- forall _, _ => intros ?
  | |- any _ _ => exact Logic.I
  end.

Lemma any_stable {A} : stable (A := A) any.
Proof. done. Qed.

Lemma open_loop_runs file : forall fuel s, run_from s (open_loop kernel fuel file) any.
Proof. induction fuel as [|fuel IH]; intros s; cbn [open_loop]; repeat run_step. apply IH. Qed.

Lemma contents_loop_runs fd : forall fuel bytes res s, run_from s (contents_loop kernel fuel fd bytes res) any.
Proof. induction fuel as [|fuel IH]; intros bytes res s; cbn [contents_loop]; repeat (run_step || apply IH). Qed.

Lemma get_file_contents_path_runs fuel file s : run_from s (get_file_contents_path kernel fuel file) any.
Proof.
  unfold get_file_contents_path. eapply run_bind; [apply open_loop_runs|]. intros [fd|] s1 _ _; [|apply run_throw].
  apply run_with_fd; [done|]. apply contents_loop_runs.
Qed.

Lemma start_time_runs fuel pid s : run_from s (start_time_of kernel fuel pid) any.
Proof.
  unfold start_time_of. eapply run_bind; [apply get_file_contents_path_runs|]. intros a s1 _ _. repeat run_step.
Qed.

(** The walk over a directory keeps what [func] keeps. *)
Lemma for_each_runs {C} dir (func : C -> str * dtype -> M (C * bool)) failed Q : stable Q ->
  (forall c file s, Q c s -> run_from s (func c file) (fun r => Q r.1)) ->
  (forall c s, Q c s -> run_from s (failed c) Q) ->
  forall fuel c s, Q c s -> run_from s (for_each_dir_component kernel fuel dir func failed c) Q.
Proof.
  intros HQ Hfunc Hfailed. induction fuel as [|fuel IH]; intros c s Hc; cbn [for_each_dir_component]; [by run_step|].
  eapply (run_bind _ _ _ (fun _ s1 => log s1 = log s)); [by apply run_errno|]. intros [] s1 H1 _.
  eapply (run_bind _ _ _ any); [by apply run_perform|]. intros file s2 H2 _.
  assert (Q c s2) as Hc2 by (apply (HQ c s); [by eapply extends_trans|done]).
  assert (run_from s2 (e ← get_errno; if e =? 0 then mret c else failed c) Q) as Hend.
  { eapply (run_bind _ _ _ (fun _ => Q c)); [by apply run_gets|]. intros e s3 _ Hc3. destruct (e =? 0); [by apply run_ret|auto]. }
  destruct file as [[file|]|]; [|done..]. destruct (decide _); [auto|].
  eapply run_bind; [by apply Hfunc|]. intros [c' b] s3 H3 Hc3. cbn in Hc3. destruct b; [auto|by apply run_ret].
Qed.

(** ** Finding processes *)

Lemma logged {B} (f : event -> option B) {A} (c : psys A) a b (s : S) : f (Ev c a) = Some b -> Ev c a ∈ log s -> b ∈ omap f (log s).
Proof. intros Hf Hin. apply list_elem_of_omap. by exists (Ev c a). Qed.

Lemma get_cwd_runs s : run_from s (get_cwd pkernel) (fun r s' => exists x, x ∈ omap directory_read (log s') /\ r = with_slash x).
Proof.
  unfold get_cwd. eapply run_bind.
  - apply (run_attempt _ _ (fun a s' => forall x, a = Some x -> x ∈ omap directory_read (log s'))); [by constructor|].
    intros a s1 _ H x Hx. by eapply (logged directory_read GetCurrentDirName (inr x)), H.
  - intros [x|] s1 _ Hx; [|apply run_throw]. destruct (negb _).
    + eapply (run_bind _ _ _ any); [by apply run_errno|]. intros. apply run_throw.
    + apply run_ret. exists x. auto.
Qed.

Definition all_resolve (exec_set paths : list str) (s : S) : Prop := Forall2 (resolves (log s)) exec_set paths.

Lemma all_resolve_stable exec_set : stable (all_resolve exec_set).
Proof. intros paths s s' H Hr. eapply Forall2_impl; [exact Hr|]. intros exec path. apply resolves_grows. by apply extends_log. Qed.

Definition known_cwd (cwd : str) (s : S) : Prop := cwd = [] \/ exists x, x ∈ omap directory_read (log s) /\ cwd = with_slash x.

Lemma make_absolute_runs : forall exec_set cwd s, known_cwd cwd s ->
  run_from s (make_absolute pkernel cwd exec_set) (all_resolve exec_set).
Proof.
  induction exec_set as [|exec rest IH]; intros cwd s Hcwd; cbn [make_absolute]; [by apply run_ret; constructor|].
  eapply (run_bind _ _ _ (fun c s1 => head exec = Some c /\ s1 = s)).
  { apply run_lift. intros c Hc. split; [|done]. destruct exec; [done|]. by injection Hc as <-. }
  intros c s1 _ [Hc ->].
  eapply (run_bind _ _ _ (fun r s1 => known_cwd r.1 s1 /\
    ((c = "/"%char /\ r.2 = exec) \/ (exists x, x ∈ omap directory_read (log s1) /\ r.2 = with_slash x ++ exec)))).
  { destruct (c =c "/") eqn:E; cbn [negb]; [bools; subst; apply run_ret; auto|].
    eapply (run_bind _ _ _ (fun r s1 => exists x, x ∈ omap directory_read (log s1) /\ r = with_slash x)).
    - destruct Hcwd as [->|(x & Hx & ->)]; [apply get_cwd_runs|].
      rewrite with_slash_not_empty. apply run_ret. eauto.
    - intros r s1 _ (x & Hx & ->). apply run_ret. split; [right; eauto|]. right. eauto. }
  intros [cwd' exec'] s1 _ [Hcwd' Hexec]. cbn in Hcwd', Hexec.
  eapply (run_bind _ _ _ (fun path s2 => path_absolute exec' (lit "/") = Ok path /\ s2 = s1)); [by apply run_lift|].
  intros path s2 _ [Hp ->]. eapply run_bind; [by apply IH|]. intros paths s3 H3 Hpaths. apply run_ret. constructor; [|done].
  eapply resolves_grows; [by apply extends_log|]. destruct Hexec as [[-> ->]|(x & Hx & ->)]; [by left|]. right. eauto.
Qed.

(** While the directory is walked. *)
Definition walking (exec_set paths : list str) (me : Z) (res : list Z) (s : S) : Prop :=
  me ∈ omap own_pid (log s) /\ all_resolve exec_set paths s /\ Forall (matches exec_set (log s)) res.

Lemma walking_stable exec_set paths me : stable (walking exec_set paths me).
Proof.
  intros res s s' H (H1 & H2 & H3). pose proof (extends_log _ _ H) as Hl. split_and!.
  - by eapply (omap_grows own_pid).
  - by eapply all_resolve_stable.
  - eapply Forall_impl; [exact H3|]. intros pid. by apply matches_grows.
Qed.

Lemma check_process_runs exec_set paths me size res file s : walking exec_set paths me res s ->
  run_from s (check_process pkernel (sort (paths ++ (deleted <$> paths))) size me res file) (fun r => walking exec_set paths me r.1).
Proof.
  intros Hw. unfold check_process. destruct (str2num int32 file.1) as [pid|] eqn:Hpid; [|by apply run_ret].
  destruct (Z.ltb_spec pid 1); [by apply run_ret|]. destruct (Z.eqb_spec pid me) as [|Hme]; [by apply run_ret|].
  eapply (run_bind _ _ _ (fun l s1 => forall t, l = Some t -> (exe_link file.1, t) ∈ omap link_read (log s1))).
  { apply run_attempt; [by constructor|]. intros l s1 _ Hl t ->.
    by eapply (logged link_read (Readlink (exe_link file.1) size) (inr t)), Hl. }
  intros [t|] s1 H1 Hl; [specialize (Hl t eq_refl)|]; apply (walking_stable _ _ _ _ _ s1 H1) in Hw; [|by apply run_ret].
  destruct (size <=? len t); [by apply run_ret|]. destruct (binary_search_sound (sort (paths ++ (deleted <$> paths))) t) as (b & Hb & Hin).
  eapply (run_bind _ _ _ (fun found s2 => found = b /\ s2 = s1)); [apply run_lift; rewrite Hb; intros a [= <-]; done|].
  intros found s2 _ [-> ->]. apply run_ret. destruct b; [|done]. destruct Hw as (Hown & Hres & Hall). split_and!; [done..|].
  cbn [fst]. apply Forall_app. split; [done|]. constructor; [|done]. split_and!; [done|by exists me|].
  specialize (Hin eq_refl). rewrite sort_perm in Hin.
  assert (exists path, path ∈ paths /\ (t = path \/ t = deleted path)) as (path & Hpath & Ht).
  { apply elem_of_app in Hin as [Hin|Hin]; [by exists t; auto|]. apply list_elem_of_fmap in Hin as (path & -> & Hp). eauto. }
  apply list_elem_of_lookup in Hpath as [i Hi]. destruct (Forall2_lookup_r _ _ _ _ _ Hres Hi) as (exec & He & Hr).
  exists file.1, t, exec, path. split_and!; [done|done|by eapply list_elem_of_lookup_2|done|done].
Qed.

Lemma find_processes_runs fuel exec_set s :
  run_from s (find_processes_by_executable_path kernel pkernel fuel exec_set false) (fun pids s' => Forall (matches exec_set (log s')) pids).
Proof.
  unfold find_processes_by_executable_path. destruct (decide _); [by apply run_ret|].
  eapply (run_bind _ _ _ (fun me s1 => me ∈ omap own_pid (log s1))).
  { apply run_ask; [by constructor|]. intros a s1 _ Ha. by eapply (logged own_pid Getpid). }
  intros me s1 _ Hme.
  eapply (run_bind _ _ _ any); [by apply run_attempt; [by constructor|]|]. intros [dir|] s2 H2 _; [|apply run_throw].
  apply run_with_dir.
  { intros pids s3 s4 H Hf. eapply Forall_impl; [exact Hf|]. intros pid. apply matches_grows. by apply extends_log. }
  eapply run_bind; [apply make_absolute_runs; by left|]. intros paths s3 H3 Hpaths.
  eapply (run_weaken _ _ (walking exec_set paths me)); [|by intros pids s4 _ (_ & _ & Hp)].
  apply for_each_runs; [apply walking_stable|intros c file s4; apply check_process_runs|intros; apply run_throw|].
  split_and!; [|done|by constructor].
  eapply (omap_grows own_pid); [|exact Hme]. etrans; by apply extends_log.
Qed.

(** ** Killing them *)

Definition victims_only (victims : list (Z * str)) : Prop := Forall (fun v => victim v.1) victims.

Lemma kill_event pid signal : victim pid -> forall a, Forall victim (omap signalled [Ev (Kill pid signal) a]).
Proof. intros H a. by repeat constructor. Qed.

Lemma collect_victims_runs fuel : forall pids victims s, Forall victim pids -> victims_only victims ->
  run_from s (collect_victims kernel pkernel fuel pids victims) (fun vs _ => victims_only vs).
Proof.
  induction pids as [|pid pids IH]; intros victims s Hp Hv; cbn [collect_victims]; [by apply run_ret|].
  apply Forall_cons_1 in Hp as [Hpid Hp].
  eapply (run_bind _ _ _ (fun vs _ => victims_only vs)); [|intros vs s1 _ Hvs; by apply IH].
  apply run_catching.
  - eapply run_bind; [apply start_time_runs|]. intros t s1 _ _. apply run_ret. apply Forall_app. split; [done|]. by repeat constructor.
  - intros e s1 _. eapply (run_bind _ _ _ any); [apply run_attempt; [by apply kill_event|done]|].
    intros r s2 _ _. eapply (run_bind _ _ _ any); [by apply run_gets|]. intros x s3 _ _.
    destruct (_ || _); [by apply run_lift|by apply run_ret].
Qed.

Lemma swap_remove_sub {A} i (l : list A) x : x ∈ swap_remove i l -> x ∈ l.
Proof.
  unfold swap_remove. destruct (last l) as [y|] eqn:Hl; [|done]. intros Hx.
  assert (x ∈ <[i := y]> l) as Hi by (rewrite <- (take_drop (length l - 1) (<[i := y]> l)); set_solver).
  apply list_elem_of_lookup in Hi as [j Hj]. apply list_lookup_insert_Some in Hj as [(_ & <- & _)|[_ Hj]].
  - apply last_Some in Hl as [l' ->]. set_solver.
  - by eapply list_elem_of_lookup_2.
Qed.

Lemma swap_remove_victims i victims : victims_only victims -> victims_only (swap_remove i victims).
Proof. unfold victims_only. rewrite !Forall_forall. intros H x Hx. by eapply H, swap_remove_sub. Qed.

Lemma terminate_loop_runs signal : forall fuel i victims s, victims_only victims ->
  run_from s (terminate_loop pkernel fuel signal i victims) (fun vs _ => victims_only vs).
Proof.
  induction fuel as [|fuel IH]; intros i victims s Hv; cbn [terminate_loop]; [by apply run_lift|].
  destruct (victims !! i) as [[pid t]|] eqn:Hi; [|by apply run_ret]. pose proof (Forall_lookup_1 _ _ _ _ Hv Hi) as Hpid.
  eapply (run_bind _ _ _ any); [apply run_attempt; [by apply kill_event|done]|]. intros [[]|] s1 _ _; [by apply IH|].
  eapply (run_bind _ _ _ any); [by apply run_gets|]. intros e s2 _ _. destruct (negb _); [apply run_throw|].
  by apply IH, swap_remove_victims.
Qed.

Lemma remove_dead_runs : forall fuel i victims s, victims_only victims ->
  run_from s (remove_dead kernel fuel i victims) (fun vs _ => victims_only vs).
Proof.
  induction fuel as [|fuel IH]; intros i victims s Hv; cbn [remove_dead]; [by apply run_lift|].
  destruct (victims !! i) as [[pid t]|]; [|by apply run_ret].
  eapply (run_bind _ _ _ any).
  - apply run_catching; [|by intros; apply run_ret]. eapply run_bind; [apply start_time_runs|]. by intros; apply run_ret.
  - intros [] s1 _ _; [by apply IH|]. by apply IH, swap_remove_victims.
Qed.

Lemma wait_loop_runs timeout start : forall fuel now victims s, victims_only victims ->
  run_from s (wait_loop kernel pkernel fuel timeout start now victims) (fun vs _ => victims_only vs).
Proof.
  induction fuel as [|fuel IH]; intros now victims s Hv; cbn [wait_loop]; [by apply run_lift|].
  destruct (now <? start); [|by apply run_ret]. eapply run_bind; [by apply remove_dead_runs|]. intros vs s1 _ Hvs.
  destruct (decide _); [by apply run_ret|].
  assert (forall q now' s2, run_from s2 (_ ← ask pkernel (SleepFor q); wait_loop kernel pkernel fuel timeout start now' vs)
    (fun vs _ => victims_only vs)) as Hsleep.
  { intros q now' s2. eapply (run_bind _ _ _ any); [by apply run_ask|]. intros _ s3 _ _. by apply IH. }
  eapply (run_bind _ _ _ any); [by apply run_ask|]. intros now' s2 _ _. destruct timeout as [t|]; [|apply Hsleep].
  destruct (negb _); [by apply run_ret|apply Hsleep].
Qed.

Lemma kill_all_runs : forall victims s, victims_only victims -> run_from s (kill_all pkernel victims) any.
Proof.
  induction victims as [|[pid t] victims IH]; intros s Hv; cbn [kill_all]; [by apply run_ret|].
  apply Forall_cons_1 in Hv as [Hpid Hv]. eapply (run_bind _ _ _ any); [apply run_attempt; [by apply kill_event|done]|].
  intros r s1 _ _. by apply IH.
Qed.

(** Everything after the search. *)
Lemma kill_found_runs fuel pids timeout kill_after signal s : Forall victim pids ->
  run_from s (victims ← collect_victims kernel pkernel fuel pids []; kill_victims kernel pkernel fuel timeout kill_after signal victims) any.
Proof.
  intros Hp. eapply run_bind; [apply collect_victims_runs; [done|constructor]|]. intros vs s1 _ Hvs. unfold kill_victims.
  destruct (decide _); [by apply run_ret|]. eapply (run_bind _ _ _ any); [by apply run_ask|]. intros ticks s2 _ _.
  destruct (ticks =? -1); [apply run_throw|]. eapply run_bind; [apply get_file_contents_path_runs|]. intros uptime s3 _ _.
  eapply (run_bind _ _ _ any); [by apply run_lift|]. intros v s4 _ _. cbv zeta.
  eapply (run_bind _ _ _ any).
  { unfold when. destruct (SV.geb _ _); [|by apply run_ret]. destruct (ticks =? 0); [by apply run_lift|by apply run_ask]. }
  intros _ s5 _ _. eapply run_bind; [by apply terminate_loop_runs|]. intros vs2 s6 _ Hvs2.
  eapply (run_bind _ _ _ any); [by apply run_ask|]. intros now s7 _ _.
  eapply run_bind; [by apply wait_loop_runs|]. intros vs3 s8 _ Hvs3. unfold when.
  destruct kill_after; [by apply kill_all_runs|by apply run_ret].
Qed.

End Runs.

Lemma bind_unfold {S A B} (m : stm S A) (f : A -> stm S B) s :
  (m ≫= f) s = match m s with
               | (s', Ok a) => f a s'
               | (s', Throw e) => (s', Throw e)
               | (s', UB) => (s', UB)
               | (s', NoFuel) => (s', NoFuel)
               end.
Proof. done. Qed.

(** C29: Whatever the kernel answers (processes may start, end and change while
    it runs), [kill_processes_by_exec] sends a signal, the probing signal 0
    included, only to a process with a positive number, other than the caller,
    whose link [/proc/[pid]/exe] was read in this run and led to one of the given
    executables made absolute, deleted or not.  In particular it never signals a
    process group or every process. *)
Theorem kill_signals_only_matching {W} (kernel : forall A, fsys A -> W -> W * A) (pkernel : forall A, psys A -> W -> W * A)
    fuel exec_set timeout kill_after signal e w :
  let s := (kill_processes_by_exec (untraced kernel) (traced pkernel) fuel exec_set timeout kill_after signal (mkIo e (w, []))).1 in
  Forall (matches exec_set (log s)) (omap signalled (log s)).
Proof.
  unfold kill_processes_by_exec. set (s0 := mkIo e (w, [])). cbv zeta. rewrite bind_unfold.
  destruct (find_processes_runs kernel pkernel (fun _ => False) fuel exec_set s0) as [(l1 & E1 & H1) Hq].
  destruct (find_processes_by_executable_path _ _ _ _ _ s0) as [s1 r]. cbn [fst snd] in E1, Hq.
  assert (omap signalled (log s1) = []) as Hnone.
  { rewrite E1. cbn [log s0 world snd app]. destruct (omap signalled l1); [done|]. by apply Forall_cons_1 in H1 as [[] _]. }
  destruct r as [pids|ex| |]; try (cbn [fst]; rewrite Hnone; constructor).
  specialize (Hq pids eq_refl).
  destruct (kill_found_runs kernel pkernel (matches exec_set (log s1)) fuel pids timeout kill_after signal s1 Hq) as [(l2 & E2 & H2) _].
  rewrite E2, omap_app, Hnone. cbn [app].
  eapply Forall_impl; [exact H2|]. intros pid. apply matches_grows. by exists l2.
Qed.
