(* ===== verification/ProcessFind.v ===== *)
(** * Finding the processes that run an executable

    On a system whose processes do not change meanwhile,
    [find_processes_by_executable_path] returns exactly the processes it means
    to, in the order of /proc.  Then what [kill_processes_by_exec] does with the
    time it is given, and a run of it. *)

From Stdlib Require Import ZArith QArith Lia Ascii.
From S2P Require Import Prelude.
From S2P Require Import StringView.
From S2P Require Import StringTransform.
From S2P Require Import Doubles.
From S2P Require Import FileIo.
From S2P Require Import FileManip.
From S2P Require Import Path.
From S2P Require Import ProcStat.
From S2P Require Import Process.
From S2P Require Import ProcessSearch.
From S2P Require Import ProcessProofs.
Local Open Scope Z_scope.

(** The caller, its directory, the links that can be read, the entries of /proc
    and what is left to read of the directories that are open. *)
Record pview := mkPview {
  pv_me : Z;
  pv_cwd : str;
  pv_links : gmap str str;
  pv_proc : list (str * dtype);
  pv_dirs : gmap Z (list (str * dtype))
}.

Definition set_dirs (v : pview) (dirs : gmap Z (list (str * dtype))) : pview :=
  mkPview (pv_me v) (pv_cwd v) (pv_links v) (pv_proc v) dirs.

(** [getpid(2)], [readlink(2)], [get_current_dir_name(3)], [opendir(3)] and
    [readdir(3)] on a system at rest with /proc mounted. *)
Class ProcessTable {W : Type} (kernel : forall A, fsys A -> W -> W * A) (pkernel : forall A, psys A -> W -> W * A) := {
  pview_of : W -> pview;
  table_getpid : forall w, (pkernel _ Getpid w).2 = pv_me (pview_of w) /\ pview_of (pkernel _ Getpid w).1 = pview_of w;
  table_readlink : forall path n w,
    match (pkernel _ (Readlink path n) w).2 with
    | inr t => exists l, pv_links (pview_of w) !! path = Some l /\ t = take (Z.to_nat n) l
    | inl _ => pv_links (pview_of w) !! path = None
    end /\ pview_of (pkernel _ (Readlink path n) w).1 = pview_of w;
  table_cwd : forall w, (pkernel _ GetCurrentDirName w).2 = inr (pv_cwd (pview_of w)) /\
    pview_of (pkernel _ GetCurrentDirName w).1 = pview_of w;
  table_opendir : forall w, exists fd, (pkernel _ (Opendir (lit "/proc")) w).2 = inr fd /\
    pview_of (pkernel _ (Opendir (lit "/proc")) w).1 = set_dirs (pview_of w) (<[fd := pv_proc (pview_of w)]> (pv_dirs (pview_of w)));
  table_readdir : forall fd w entries, pv_dirs (pview_of w) !! fd = Some entries ->
    (kernel _ (Readdir fd) w).2 = inr (head entries) /\
    pview_of (kernel _ (Readdir fd) w).1 = set_dirs (pview_of w) (<[fd := tail entries]> (pv_dirs (pview_of w)))
}.

(** The path an element of [exec_set] stands for. *)
Definition stands_for (cwd exec path : str) : Prop :=
  exec <> [] /\ path_absolute (if decide (head exec = Some "/"%char) then exec else with_slash cwd ++ exec) (lit "/") = Ok path.

(** The process an entry of /proc is, if it is one to be found. *)
Definition selected (v : pview) (paths : list str) (include_me : bool) (entry : str * dtype) : option Z :=
  pid ← str2num int32 entry.1;
  target ← pv_links v !! exe_link entry.1;
  if decide (1 <= pid /\ (include_me = true \/ pid <> pv_me v) /\ (target ∈ paths \/ target ∈ (deleted <$> paths)))
  then Some pid else None.

Section Find.
Context {W : Type} (kernel : forall A, fsys A -> W -> W * A) (pkernel : forall A, psys A -> W -> W * A) `{!ProcessTable kernel pkernel}.
Abbreviation M := (stm (io W)).
Abbreviation see s := (pview_of (world s)).

(** A run that succeeds, with its result, and leaves [v]. *)
Definition gives {A} (s : io W) (m : M A) (v : pview) (Q : A -> Prop) : Prop :=
  exists s' a, m s = (s', Ok a) /\ see s' = v /\ Q a.

Lemma gives_ret {A} s (a : A) (Q : A -> Prop) : Q a -> gives s (mret a) (see s) Q.
Proof. intros H. by exists s, a. Qed.

Lemma gives_bind {A B} s (m : M A) (f : A -> M B) v1 v2 Q R : gives s m v1 Q ->
  (forall a s1, see s1 = v1 -> Q a -> gives s1 (f a) v2 R) -> gives s (m ≫= f) v2 R.
Proof. intros (s1 & a & E & H1 & Ha) Hf. destruct (Hf a s1 H1 Ha) as (s2 & b & E2 & H). exists s2, b. by rewrite (stm_bind_run _ _ _ _ _ E). Qed.

Lemma gives_lift {A} s (a : A) (m : outcome A) : m = Ok a -> gives s (lift m) (see s) (eq a).
Proof. intros ->. by exists s, a. Qed.

Lemma gives_getpid s : gives s (ask pkernel Getpid) (see s) (eq (pv_me (see s))).
Proof.
  unfold gives, ask. destruct (table_getpid (world s)) as [H1 H2]. destruct (pkernel _ Getpid (world s)) as [w a].
  cbn in H1, H2. by exists (mkIo (errno s) w), a.
Qed.

Lemma gives_readlink s path n : gives s (attempt pkernel (Readlink path n)) (see s)
  (eq (take (Z.to_nat n) <$> pv_links (see s) !! path)).
Proof.
  unfold gives, attempt. destruct (table_readlink path n (world s)) as [H1 H2].
  destruct (pkernel _ (Readlink path n) (world s)) as [w [e|t]]; cbn in H1, H2.
  - exists (mkIo e w), None. by rewrite H1.
  - destruct H1 as (l & -> & ->). by exists (mkIo (errno s) w), (Some (take (Z.to_nat n) l)).
Qed.

Lemma gives_cwd s : head (pv_cwd (see s)) = Some "/"%char -> gives s (get_cwd pkernel) (see s) (eq (with_slash (pv_cwd (see s)))).
Proof.
  intros Hh. unfold get_cwd. eapply (gives_bind _ _ _ (see s) _ (eq (Some (pv_cwd (see s))))).
  - unfold gives, attempt. destruct (table_cwd (world s)) as [H1 H2]. destruct (pkernel _ GetCurrentDirName (world s)) as [w a].
    cbn in H1, H2. subst a. by exists (mkIo (errno s) w), (Some (pv_cwd (see s))).
  - intros a s1 H1 <-. rewrite bool_decide_true by done. cbn [negb]. rewrite <- H1. by apply gives_ret.
Qed.

Lemma gives_opendir s : exists fd, gives s (attempt pkernel (Opendir (lit "/proc")))
  (set_dirs (see s) (<[fd := pv_proc (see s)]> (pv_dirs (see s)))) (eq (Some fd)).
Proof.
  destruct (table_opendir (world s)) as (fd & H1 & H2). exists fd. unfold gives, attempt.
  destruct (pkernel _ (Opendir (lit "/proc")) (world s)) as [w a]. cbn in H1, H2. subst a. by exists (mkIo (errno s) w), (Some fd).
Qed.

Lemma make_absolute_gives : forall exec_set paths cwd s, head (pv_cwd (see s)) = Some "/"%char ->
  Forall2 (stands_for (pv_cwd (see s))) exec_set paths -> cwd = [] \/ cwd = with_slash (pv_cwd (see s)) ->
  gives s (make_absolute pkernel cwd exec_set) (see s) (eq paths).
Proof.
  induction exec_set as [|exec rest IH]; intros paths cwd s Hh Hp Hcwd; apply Forall2_cons_inv_l in Hp || apply Forall2_nil_inv_l in Hp.
  { subst. by apply gives_ret. }
  destruct Hp as (path & paths' & [Hne Hpath] & Hp & ->). cbn [make_absolute]. destruct exec as [|c exec]; [done|].
  eapply gives_bind; [by apply (gives_lift _ c)|]. intros ? s1 H1 <-. rewrite <- H1 in *.
  set (e := if decide _ then _ else _) in Hpath.
  eapply (gives_bind _ _ _ (see s1) _ (fun r => (r.1 = [] \/ r.1 = with_slash (pv_cwd (see s1))) /\ r.2 = e)).
  { unfold e. cbn [head]. destruct (c =c "/") eqn:E; bools; cbn [negb].
    - rewrite decide_True by congruence. by apply gives_ret.
    - rewrite decide_False by congruence. eapply (gives_bind _ _ _ (see s1) _ (eq (with_slash (pv_cwd (see s1))))).
      + destruct Hcwd as [->| ->]; [by apply gives_cwd|].
        rewrite with_slash_not_empty. by apply gives_ret.
      + intros ? s2 H2 <-. rewrite <- H2. apply gives_ret. auto. }
  intros [cwd' e'] s2 H2 [Hc He]. cbn in Hc, He. subst e'. rewrite <- H2 in *.
  eapply gives_bind; [by apply gives_lift|]. intros ? s3 H3 <-. rewrite <- H3 in *.
  eapply gives_bind; [by apply (IH paths')|]. intros ? s4 H4 <-. rewrite <- H4. by apply gives_ret.
Qed.

Lemma longest_bound : forall paths m x, x ∈ paths -> (length (deleted x) <= fold_left (fun m x => Nat.max m (length (deleted x))) paths m)%nat.
Proof.
  assert (forall paths m, (m <= fold_left (fun m x => Nat.max m (length (deleted x))) paths m)%nat) as Hm.
  { induction paths as [|y paths IH]; intros m; cbn; [done|]. etrans; [|apply IH]. lia. }
  induction paths as [|y paths IH]; intros m x Hx; [by apply elem_of_nil in Hx|]. cbn [fold_left].
  apply elem_of_cons in Hx as [->|Hx]; [|by apply IH]. etrans; [|apply Hm]. lia.
Qed.

(** The longest path looked for fits in the buffer. *)
Lemma target_fits paths target : target ∈ paths \/ target ∈ (deleted <$> paths) -> len target < Z.of_nat (longest paths) + 1.
Proof.
  intros H. assert (exists x, x ∈ paths /\ (length target <= length (deleted x))%nat) as (x & Hx & Hl).
  { destruct H as [H|H]; [exists target; split; [done|]; unfold deleted; rewrite length_app; lia|].
    apply list_elem_of_fmap in H as (x & -> & Hx). by exists x. }
  pose proof (longest_bound paths 0 x Hx). unfold longest, len. lia.
Qed.

Lemma deleted_ascii x : ascii_only x -> ascii_only (deleted x).
Proof. intros Hx. apply Forall_app. split; [done|]. cbn. repeat apply Forall_cons_2; try apply Forall_nil_2; by vm_compute. Qed.

Lemma check_process_gives s paths (include_me : bool) res entry : Forall ascii_only paths ->
  gives s (check_process pkernel (sort (paths ++ (deleted <$> paths))) (Z.of_nat (longest paths) + 1)
             (if include_me then -1 else pv_me (see s)) res entry) (see s)
    (eq (res ++ option_list (selected (see s) paths include_me entry), true)).
Proof.
  intros Ha. unfold check_process, selected. destruct (str2num int32 entry.1) as [pid|]; cbn [mbind option_bind];
    [|apply gives_ret; by rewrite app_nil_r].
  set (o := pv_links (see s) !! exe_link entry.1).
  destruct (decide (1 <= pid /\ (include_me = true \/ pid <> pv_me (see s)))) as [[H1 H2]|Hno].
  - destruct (Z.ltb_spec pid 1); [lia|].
    assert ((pid =? (if include_me then -1 else pv_me (see s))) = false) as -> by (destruct include_me, H2; apply Z.eqb_neq; done || lia).
    eapply gives_bind; [apply gives_readlink|]. intros ? s1 Hs <-. fold o. destruct o as [l|]; cbn [fmap option_fmap option_map mbind option_bind];
      [|rewrite <- Hs; apply gives_ret; by rewrite app_nil_r].
    set (size := Z.of_nat (longest paths) + 1). assert (0 < size) as Hsize by (unfold size; lia).
    destruct (Z.leb_spec size (len (take (Z.to_nat size) l))) as [Hlong|Hshort].
    + rewrite decide_False; [rewrite <- Hs; apply gives_ret; by rewrite app_nil_r|]. intros (_ & _ & Hin).
      apply target_fits in Hin. fold size in Hin. unfold len in *. rewrite length_take in Hlong. lia.
    + assert (take (Z.to_nat size) l = l) as -> by (apply take_ge; unfold len in Hshort; rewrite length_take in Hshort; lia).
      rewrite search_ascii.
      2: { rewrite Forall_app. split; [done|]. apply Forall_fmap. eapply Forall_impl; [exact Ha|]. apply deleted_ascii. }
      eapply gives_bind; [by apply gives_lift|]. intros ? s2 Hs2 <-. rewrite Hs in Hs2. rewrite <- Hs2 in H2 |- *. apply gives_ret. f_equal.
      case_bool_decide as Hin; rewrite elem_of_app in Hin.
      * by rewrite decide_True by auto.
      * rewrite decide_False by tauto. by rewrite app_nil_r.
  - assert (o ≫= (fun target : str => if decide (1 <= pid /\ (include_me = true \/ pid <> pv_me (see s)) /\
      (target ∈ paths \/ target ∈ (deleted <$> paths))) then Some pid else None) = None) as ->.
    { destruct o as [l|]; [|done]. cbn. rewrite decide_False; [done|tauto]. }
    cbn [option_list]. rewrite app_nil_r. destruct (Z.ltb_spec pid 1); [by apply gives_ret|].
    assert ((pid =? (if include_me then -1 else pv_me (see s))) = true) as ->; [|by apply gives_ret].
    apply Z.eqb_eq. destruct include_me; [tauto|]. destruct (decide (pid = pv_me (see s))); [done|tauto].
Qed.

Lemma walk_gives paths include_me me fd : Forall ascii_only paths -> forall entries fuel res s, (length entries < fuel)%nat ->
  pv_dirs (see s) !! fd = Some entries -> pv_me (see s) = me ->
  exists v, gives s (for_each_dir_component kernel fuel fd
      (check_process pkernel (sort (paths ++ (deleted <$> paths))) (Z.of_nat (longest paths) + 1) (if include_me : bool then -1 else me))
      (fun _ => throw_error (lit "readdir()")) res) v
    (eq (res ++ omap (selected (see s) paths include_me) entries)).
Proof.
  intros Ha. induction entries as [|entry entries IH]; intros [|fuel] res s Hf Hd Hme; try (cbn in Hf; lia); cbn [for_each_dir_component].
  all: unfold gives; rewrite (stm_bind_run (set_errno 0) _ s (mkIo 0 (world s)) tt eq_refl); destruct (table_readdir fd (world s) _ Hd) as [H1 H2].
  all: unfold perform at 1, mbind at 1, stm_bind at 1; cbn [world set_errno modify fst]; cbn [world].
  all: destruct (kernel _ (Readdir fd) (world s)) as [w a]; cbn in H1, H2; subst a.
  - eexists. rewrite app_nil_r. exists (mkIo 0 w), res. done.
  - cbn [length] in Hf. set (s1 := mkIo 0 w). assert (see s1 = set_dirs (see s) (<[fd := entries]> (pv_dirs (see s)))) as Hs1 by done.
    assert (forall l : list _, omap (selected (see s) paths include_me) l = omap (selected (see s1) paths include_me) l) as Hsel by (by rewrite Hs1).
    assert (pv_dirs (see s1) !! fd = Some entries) as Hd1 by (rewrite Hs1; apply lookup_insert_eq).
    assert (pv_me (see s1) = me) as Hme1 by (by rewrite Hs1).
    change (omap (selected (see s) paths include_me) (entry :: entries)) with
      (match selected (see s) paths include_me entry with
       | Some y => y :: omap (selected (see s) paths include_me) entries
       | None => omap (selected (see s) paths include_me) entries
       end).
    destruct (decide _) as [Hdot|_].
    + assert (selected (see s) paths include_me entry = None) as -> by (unfold selected; destruct Hdot as [-> | ->]; done).
      rewrite Hsel. apply IH; [lia|done|done].
    + destruct (check_process_gives s1 paths include_me res entry Ha) as (s2 & r & E & Hs2 & <-).
      rewrite <- Hme1. rewrite (stm_bind_run _ _ _ _ _ E). cbn iota.
      assert (selected (see s1) paths include_me entry = selected (see s) paths include_me entry) as -> by (by rewrite Hs1).
      destruct (IH fuel (res ++ option_list (selected (see s) paths include_me entry)) s2) as (v & Hv);
        [lia|by rewrite Hs2|by rewrite Hs2|]. rewrite Hme1. exists v. destruct Hv as (s3 & a & E3 & H3 & Ea). exists s3, a.
      split_and!; [done|done|]. rewrite <- Ea, <- app_assoc. f_equal. rewrite Hs2, Hs1. by destruct (selected (see s) _ _ entry).
Qed.

Lemma find_gives fuel exec_set paths include_me s : exec_set <> [] -> head (pv_cwd (see s)) = Some "/"%char ->
  Forall2 (stands_for (pv_cwd (see s))) exec_set paths -> Forall ascii_only paths -> (length (pv_proc (see s)) < fuel)%nat ->
  exists s', find_processes_by_executable_path kernel pkernel fuel exec_set include_me s =
    (s', Ok (omap (selected (see s) paths include_me) (pv_proc (see s)))).
Proof.
  intros Hne Hh Hp Ha Hf. unfold find_processes_by_executable_path. rewrite decide_False by done.
  assert (gives s (if include_me then mret (-1) else ask pkernel Getpid) (see s) (eq (if include_me then -1 else pv_me (see s))))
    as (s1 & me & E1 & H1 & <-) by (destruct include_me; [by apply gives_ret|apply gives_getpid]).
  rewrite (stm_bind_run _ _ _ _ _ E1). destruct (gives_opendir s1) as (fd & s2 & a & E2 & H2 & <-).
  rewrite (stm_bind_run _ _ _ _ _ E2). rewrite H1 in H2. rewrite <- H1 in Hh, Hp.
  assert (pv_cwd (see s2) = pv_cwd (see s)) as Hcwd by (by rewrite H2).
  destruct (make_absolute_gives exec_set paths [] s2) as (s3 & ? & E3 & H3 & <-); [by rewrite Hcwd, <- H1|by rewrite Hcwd, <- H1|by left|].
  destruct (walk_gives paths include_me (pv_me (see s)) fd Ha (pv_proc (see s)) fuel [] s3) as (v & s4 & ? & E4 & H4 & <-); [done| |by rewrite H3, H2|].
  { rewrite H3, H2. cbn. apply lookup_insert_eq. }
  unfold with_dir. rewrite (stm_bind_run _ _ _ _ _ E3). cbv zeta. rewrite E4. cbn [app].
  destruct (perform kernel (Closedir fd) s4) as [s5 u]. exists s5. by rewrite H3, H2.
Qed.

End Find.

(** ** A system in memory *)

(** The processes, files by their path, what is left to read of the open ones,
    the processes that can be signalled and the clock. *)
Record proc_table := mkProcTable {
  pt_view : pview;
  pt_files : gmap str str;
  pt_open : gmap Z str;
  pt_alive : list Z;
  pt_next : Z
}.

Definition pt_with (w : proc_table) (v : pview) (open : gmap Z str) : proc_table :=
  mkProcTable v (pt_files w) open (pt_alive w) (pt_next w + 1).

Definition table_kernel (A : Type) (c : fsys A) (w : proc_table) : proc_table * A :=
  match c with
  | Readdir fd =>
      match pv_dirs (pt_view w) !! fd with
      | Some entries => (pt_with w (set_dirs (pt_view w) (<[fd := tail entries]> (pv_dirs (pt_view w)))) (pt_open w), inr (head entries))
      | None => (w, inl 9)
      end
  | Openat _ path _ _ =>
      match pt_files w !! path with
      | Some t => (pt_with w (pt_view w) (<[pt_next w := t]> (pt_open w)), inr (pt_next w))
      | None => (w, inl 2)
      end
  | Read fd _ =>
      match pt_open w !! fd with
      | Some t => (pt_with w (pt_view w) (<[fd := []]> (pt_open w)), inr t)
      | None => (w, inl 9)
      end
  | Pread _ _ _ => (w, inl 9)
  | Write _ _ => (w, inl 9)
  | Lseek _ _ _ => (w, inl 9)
  | Close fd => (pt_with w (pt_view w) (delete fd (pt_open w)), inr tt)
  | Ftruncate _ _ => (w, inl 9)
  | Fchmod _ _ => (w, inl 9)
  | Fstatat _ _ => (w, inl 9)
  | Mkdirat _ _ _ => (w, inl 9)
  | Unlinkat _ _ _ => (w, inl 9)
  | Renameat _ _ _ _ => (w, inl 9)
  | Fdopendir _ => (w, inl 9)
  | Closedir _ => (w, inr tt)
  | Random _ => (w, inl 9)
  end.

Definition table_pkernel (A : Type) (c : psys A) (w : proc_table) : proc_table * A :=
  match c with
  | Readlink path n =>
      (w, match pv_links (pt_view w) !! path with Some l => inr (take (Z.to_nat n) l) | None => inl 2 end)
  | Getpid => (w, pv_me (pt_view w))
  | GetCurrentDirName => (w, inr (pv_cwd (pt_view w)))
  | Chdir _ => (w, inr tt)
  | Fchdir _ => (w, inr tt)
  | Opendir _ =>
      (pt_with w (set_dirs (pt_view w) (<[pt_next w := pv_proc (pt_view w)]> (pv_dirs (pt_view w)))) (pt_open w), inr (pt_next w))
  | Mkdtemp _ => (w, inl 13)
  | Mkostemp _ _ => (w, inl 13)
  | OpenTmpfile _ _ _ => (w, inl 13)
  | Umask _ => (w, tt)
  | Kill pid _ => (w, if bool_decide (pid ∈ pt_alive w) then inr tt else inl ESRCH)
  | Sysconf => (w, 100)
  | Now => (w, pt_next w)
  | SleepFor _ => (w, tt)
  end.

#[export] Instance proc_table_table : ProcessTable table_kernel table_pkernel.
Proof.
  refine (Build_ProcessTable _ _ _ pt_view _ _ _ _ _).
  - done.
  - intros path n w. cbn. destruct (pv_links (pt_view w) !! path) as [l|]; [|done]. split; [by exists l|done].
  - done.
  - intros w. by exists (pt_next w).
  - intros fd w entries H. cbn. by rewrite H.
Defined.

(** C30: On a system at rest, [find_processes_by_executable_path] returns exactly
    the processes that run one of the executables, also when it was deleted
    since, in the order of /proc, the caller only when asked for: whatever else
    /proc holds, however long the links are, provided that the paths looked for
    have no bytes above 127. *)
Theorem find_processes_exact {W} (kernel : forall A, fsys A -> W -> W * A) (pkernel : forall A, psys A -> W -> W * A)
    `{!ProcessTable kernel pkernel} fuel exec_set paths include_me s (v := pview_of (world s)) :
  exec_set <> [] -> head (pv_cwd v) = Some "/"%char -> Forall2 (stands_for (pv_cwd v)) exec_set paths ->
  Forall ascii_only paths -> (length (pv_proc v) < fuel)%nat ->
  exists s', find_processes_by_executable_path kernel pkernel fuel exec_set include_me s =
    (s', Ok (omap (selected v paths include_me) (pv_proc v))).
Proof. intros. by apply find_gives. Qed.

(** Two judges, one of a deleted executable, an editor and the caller. *)
Definition sample_stat (pid : Z) : str :=
  ProcStat.print (to_string pid) (lit "judge (1)") ((fun n => to_string (Z.of_nat n)) <$> seq 2 40).

Definition sample_table : proc_table :=
  mkProcTable
    (mkPview 3 (lit "/srv")
       (list_to_map [(lit "/proc/3/exe", lit "/srv/judge"); (lit "/proc/7/exe", lit "/srv/judge");
                     (lit "/proc/21/exe", lit "/usr/bin/vi"); (lit "/proc/30/exe", lit "/srv/judge (deleted)")])
       [(lit ".", DT_DIR); (lit "3", DT_DIR); (lit "7", DT_DIR); (lit "uptime", DT_OTHER); (lit "21", DT_DIR); (lit "30", DT_DIR)]
       ∅)
    (list_to_map [(lit "/proc/uptime", lit "12345.67 1.00"); (lit "/proc/7/stat", sample_stat 7)])
    ∅ [7] 10.

Lemma sample_paths : Forall2 (stands_for (lit "/srv")) [lit "bin/../judge"] [lit "/srv/judge"].
Proof. constructor; [|constructor]. split; [done|]. by vm_compute. Qed.

Lemma sample_found : omap (selected (pt_view sample_table) [lit "/srv/judge"] false) (pv_proc (pt_view sample_table)) = [7; 30].
Proof. by vm_compute. Qed.

Lemma find_processes_exact_witness : exists s',
  find_processes_by_executable_path table_kernel table_pkernel 10 [lit "bin/../judge"] false (mkIo 0 sample_table) = (s', Ok [7; 30]).
Proof.
  destruct (find_processes_exact table_kernel table_pkernel 10 [lit "bin/../judge"] [lit "/srv/judge"] false (mkIo 0 sample_table))
    as [s' Hs'].
  - done.
  - done.
  - exact sample_paths.
  - constructor; [|constructor]. repeat apply Forall_cons_2; try apply Forall_nil_2; by vm_compute.
  - apply Nat.ltb_lt. by vm_compute.
  - exists s'. rewrite Hs'. done.
Defined.

(** ** How long it waits *)

Lemma bind_ext {S A B} (m : stm S A) (f g : A -> stm S B) s : (forall a s, f a s = g a s) -> (m ≫= f) s = (m ≫= g) s.
Proof. intros H. unfold mbind, stm_bind. by destruct (m s) as [s' [a|e| |]]. Qed.

(** The loop is never entered. *)
Lemma wait_loop_idle {W} (kernel : forall A, fsys A -> W -> W * A) pkernel fuel timeout start victims :
  wait_loop kernel pkernel (S fuel) timeout start start victims = mret victims.
Proof. cbn [wait_loop]. by rewrite Z.ltb_irrefl. Qed.

(** The time given to the processes to end has no effect: not on the result and
    not on any request. *)
Theorem wait_timeout_is_ignored {W} (kernel : forall A, fsys A -> W -> W * A) pkernel fuel exec_set timeout kill_after signal s :
  kill_processes_by_exec kernel pkernel fuel exec_set timeout kill_after signal s =
  kill_processes_by_exec kernel pkernel fuel exec_set None kill_after signal s.
Proof.
  unfold kill_processes_by_exec. apply bind_ext. intros pids s1. apply bind_ext. intros victims s2. unfold kill_victims.
  destruct (decide _); [done|]. apply bind_ext. intros ticks s3. destruct (ticks =? -1); [done|].
  do 5 (apply bind_ext; intros ? ?). destruct fuel; [done|]. by rewrite !wait_loop_idle.
Qed.

(** A run with a minute to wait: the processes get SIGKILL right after SIGTERM,
    with nothing between the two but a look at the clock.  (Process 30 has ended
    since; the clock tick waited for before, because of a start time of 21 ticks
    that is after "12345.67" seconds in the order of texts, is of no length.) *)
Lemma killed_without_waiting :
  let run := kill_processes_by_exec (untraced table_kernel) (traced table_pkernel) 10 [lit "/srv/judge"] (Some (dZ 60)) true SIGTERM
    (mkIo 0 (sample_table, [])) in
  match run with
  | (s, Ok tt) => (fun e => match e with
                            | Ev (Kill pid signal) _ => Some (pid, signal)
                            | Ev (SleepFor seconds) _ => Some (0, Qnum seconds)
                            | _ => None
                            end) <$> log s =
      [None; None; None; None; None; Some (30, 0); None; Some (0, 0); Some (7, SIGTERM); None; Some (7, SIGKILL)]
  | _ => False
  end.
Proof. vm_compute. reflexivity. Qed.
