(* ===== verification/ProcStatus.v ===== *)
(** * /proc/[pid]/status

    [field_from_proc_status] reads a file line by line through [FdPreadBuff]: on
    a file of lines "name:<tab>value" it returns the value of the field. *)

From Stdlib Require Import ZArith Lia Ascii.
From S2P Require Import Prelude.
From S2P Require Import StringView.
From S2P Require Import FileIo.
From S2P Require Import Process.
Local Open Scope Z_scope.

(** [pread(2)] on a file of /proc that does not change: it gives some of what is
    left, and nothing only at the end. *)
Class StatusFile {W : Type} (kernel : forall A, fsys A -> W -> W * A) := {
  contents_of : W -> Z -> option str;
  status_pread : forall fd n pos w c, 0 < n -> 0 <= pos -> contents_of w fd = Some c ->
    exists w' data, kernel _ (Pread fd n pos) w = (w', inr data) /\ data `prefix_of` drop (Z.to_nat pos) c /\
      (data = [] -> len c <= pos) /\ contents_of w' = contents_of w
}.

Section Status.
Context {W : Type} (kernel : forall A, fsys A -> W -> W * A) `{!StatusFile kernel}.
Abbreviation M := (stm (io W)).

(** [rest] is what [get_char] has still to return. *)
Definition reads (fd : Z) (c : str) (s : io W) (b : FdPreadBuff) (rest : str) : Prop :=
  pb_fd b = fd /\ contents_of (world s) fd = Some c /\ 0 <= pb_pos b <= pb_len b /\ pb_len b = len (pb_buff b) /\
  0 <= buff_end_offset b /\ rest = drop (Z.to_nat (pb_pos b)) (pb_buff b) ++ drop (Z.to_nat (buff_end_offset b)) c.

Section File.
Context (fd : Z) (c : str).
Abbreviation at_ := (reads fd c).

Lemma get_char_reads s b rest : at_ s b rest ->
  exists s' b', get_char kernel b s = (s', Ok (b', Some (head rest))) /\ at_ s' b' (tail rest).
Proof.
  intros (Hfd & Hc & Hpos & Hlen & Hoff & ->). unfold get_char. destruct (Z.eqb_spec (pb_pos b) (pb_len b)) as [E|E]; cbn [negb].
  - destruct (status_pread fd 4096 (buff_end_offset b) (world s) c) as (w' & data & Hk & Hpre & Hend & Hsame); [lia|done|done|].
    assert (drop (Z.to_nat (pb_pos b)) (pb_buff b) = []) as -> by (apply drop_ge; unfold len in Hlen; lia). cbn [app].
    unfold mbind, stm_bind, perform. rewrite Hfd, Hk. destruct data as [|x data].
    + rewrite drop_ge by (specialize (Hend eq_refl); unfold len in Hend; lia). eexists _, b. split; [reflexivity|].
      split_and!; [done|by cbn; rewrite Hsame|lia|lia|done|done|]. cbn [tail]. rewrite (drop_ge c); [|specialize (Hend eq_refl); unfold len in Hend; lia].
      rewrite app_nil_r. symmetry. apply drop_ge. unfold len in Hlen. lia.
    + destruct Hpre as [k Hk']. eexists _, _. split; [rewrite Hk'; reflexivity|]. unfold len. cbn [length].
      split_and!; cbn [pb_fd pb_pos pb_len pb_buff buff_end_offset world]; [done|by rewrite Hsame|lia|lia|done|lia|].
      rewrite Hk'. cbn [app tail]. replace (Z.to_nat 1) with 1%nat by lia. cbn [drop]. f_equal.
      replace (Z.to_nat (buff_end_offset b + Z.of_nat (S (length data)))) with (Z.to_nat (buff_end_offset b) + S (length data))%nat by lia.
      rewrite <- drop_drop, Hk'. symmetry. apply (drop_app_length (x :: data)).
  - destruct (lookup_lt_is_Some_2 (pb_buff b) (Z.to_nat (pb_pos b))) as [x Hx]; [unfold len in Hlen; lia|].
    rewrite Hx. cbn [get_or_ub]. eexists _, _. rewrite (drop_S _ _ _ Hx). split; [reflexivity|].
    split_and!; cbn [pb_fd pb_pos pb_len pb_buff buff_end_offset]; [done..|lia|lia|done|done|].
    cbn [app tail]. by replace (Z.to_nat (pb_pos b + 1)) with (S (Z.to_nat (pb_pos b))) by lia.
Qed.

(** A run that ends well, at [rest]. *)
Definition gets_to {A} (s : io W) (m : M A) (rest : str) (Q : A -> FdPreadBuff -> Prop) : Prop :=
  exists s' a b, m s = (s', Ok a) /\ Q a b /\ at_ s' b rest.

Lemma gets_to_bind {A B} s (m : M A) (f : A -> M B) mid rest Q R : gets_to s m mid Q ->
  (forall a b s1, Q a b -> at_ s1 b mid -> gets_to s1 (f a) rest R) -> gets_to s (m ≫= f) rest R.
Proof.
  intros (s1 & a & b & E & Ha & Hb) Hf. destruct (Hf a b s1 Ha Hb) as (s2 & a2 & b2 & E2 & H). exists s2, a2, b2.
  by rewrite (stm_bind_run _ _ _ _ _ E).
Qed.

Lemma gets_to_ret {A} s (a : A) b rest (Q : A -> FdPreadBuff -> Prop) : Q a b -> at_ s b rest -> gets_to s (mret a) rest Q.
Proof. intros. by exists s, a, b. Qed.

Lemma char_or_eof_reads s b rest : at_ s b rest -> gets_to s (get_char_or_eof kernel b) (tail rest) (fun r b' => r = (b', head rest)).
Proof.
  intros H. unfold get_char_or_eof. destruct (get_char_reads s b rest H) as (s' & b' & E & H').
  exists s', (b', head rest), b'. by rewrite (stm_bind_run _ _ _ _ _ E).
Qed.

Lemma char_reads field_name s b x rest : at_ s b (x :: rest) ->
  gets_to s (get_char_throw kernel field_name b) rest (fun r b' => r = (b', x)).
Proof.
  intros H. unfold get_char_throw. eapply gets_to_bind; [by apply char_or_eof_reads|]. intros ? b' s1 -> Hb.
  by eapply gets_to_ret.
Qed.

Lemma skip_reads field_name rest : forall line fuel s b, NL ∉ line -> (length line < fuel)%nat -> at_ s b (line ++ NL :: rest) ->
  gets_to s (skip_to_newline kernel field_name fuel b) rest eq.
Proof.
  induction line as [|x line IH]; intros [|fuel] s b Hn Hf Hb; try (cbn in Hf; lia); cbn [skip_to_newline].
  - eapply gets_to_bind; [by apply char_reads|]. intros ? b' s1 -> Hb'. change (NL =c NL) with true. cbn iota. by eapply gets_to_ret.
  - apply not_elem_of_cons in Hn as [Hx Hn]. eapply gets_to_bind; [by apply char_reads|]. intros ? b' s1 -> Hb'.
    destruct (x =c NL) eqn:E; [bools; congruence|]. apply IH; [done|cbn in Hf; lia|done].
Qed.

(** ** A line *)

Definition plain (w : str) : Prop := Forall (fun x => x <> ":"%char /\ x <> NL) w.

(** The name against the start of a line: matched up to its end, or the line is
    left. *)
Lemma match_name_reads whole tl rest fuel : NL ∉ tl -> forall name n s b, Forall (fun x => uchz x < 128) name ->
  plain name -> plain n -> (length n + length tl + 1 < fuel)%nat -> at_ s b (n ++ ":"%char :: tl ++ NL :: rest) ->
  if decide (name `prefix_of` n) then
    gets_to s (match_name kernel whole fuel name b) (drop (length name) n ++ ":"%char :: tl ++ NL :: rest) (fun r b' => r = (b', true))
  else gets_to s (match_name kernel whole fuel name b) rest (fun r b' => r = (b', false)).
Proof.
  intros Htl. induction name as [|fc name IH]; intros n s b Ha Hname Hn Hf Hb.
  { rewrite decide_True by apply prefix_nil. cbn [match_name length]. rewrite drop_0. by eapply gets_to_ret. }
  apply Forall_cons_1 in Ha as [Hfc Ha]. apply Forall_cons_1 in Hname as [[Hcolon Hnl] Hname]. cbn [match_name].
  assert (forall x : ascii, (uchz x =? chz fc) = bool_decide (x = fc)) as Heq.
  { intros x. unfold chz. destruct (Z.ltb_spec (uchz fc) 128); [|lia]. destruct (Z.eqb_spec (uchz x) (uchz fc)) as [E|E]; symmetry.
    - apply bool_decide_true. rewrite <- (char_of_uchz x), <- (char_of_uchz fc). congruence.
    - apply bool_decide_false. congruence. }
  assert (forall x s1 b1 line, x <> fc -> NL ∉ line -> (length line < fuel)%nat -> at_ s1 b1 (line ++ NL :: rest) ->
    gets_to s1 (if negb (uchz x =? chz fc) then b ← skip_to_newline kernel whole fuel b1; mret (b, false)
      else match_name kernel whole fuel name b1) rest (fun r b' => r = (b', false))) as Hskip.
  { intros x s1 b1 line Hx Hl Hfl H1. rewrite Heq, bool_decide_false by done. cbn [negb].
    eapply gets_to_bind; [by eapply skip_reads|]. intros ? b2 s2 -> H2. by eapply gets_to_ret. }
  destruct n as [|x n].
  - rewrite decide_False by (by intros [k Hk]). eapply gets_to_bind; [by apply char_reads|]. intros ? b1 s1 -> H1.
    apply (Hskip _ _ _ tl); [congruence|done|cbn in Hf; lia|done].
  - apply Forall_cons_1 in Hn as [[Hx1 Hx2] Hn]. destruct (decide (x = fc)) as [->|Hne].
    + cbn [length drop]. specialize (IH n). destruct (decide (name `prefix_of` n)) as [Hp|Hp].
      * rewrite decide_True by (by apply prefix_cons). eapply gets_to_bind; [by apply char_reads|]. intros ? b1 s1 -> H1.
        rewrite Heq, bool_decide_true by done. cbn [negb]. apply IH; [done..|cbn in Hf; lia|done].
      * rewrite decide_False by (intros H; by apply prefix_cons_inv_2 in H). eapply gets_to_bind; [by apply char_reads|]. intros ? b1 s1 -> H1.
        rewrite Heq, bool_decide_true by done. cbn [negb]. apply IH; [done..|cbn in Hf; lia|done].
    + rewrite decide_False by (intros H; by apply prefix_cons_inv_1 in H). eapply gets_to_bind; [by apply char_reads|]. intros ? b1 s1 -> H1.
      apply (Hskip _ _ _ (n ++ ":"%char :: tl)); [done| | |by rewrite <- app_assoc].
      * rewrite not_elem_of_app, not_elem_of_cons. split_and!; [|done|done]. intros Hin. rewrite Forall_forall in Hn. by destruct (Hn _ Hin).
      * rewrite length_app. cbn in Hf |- *. lia.
Qed.

(** ** The value *)

Lemma retrieve_reads rest : forall v fuel x res s b, NL ∉ x :: v -> (length v + 1 < fuel)%nat -> at_ s b (v ++ NL :: rest) ->
  exists s', retrieve kernel fuel b (Some x) res s = (s', Ok (res ++ x :: v)).
Proof.
  induction v as [|y v IH]; intros [|fuel] x res s b Hx Hf Hb; try (cbn in Hf; lia); cbn [retrieve];
    apply not_elem_of_cons in Hx as [Hx Hv]; (destruct (x =c NL) eqn:E; [bools; congruence|]);
    destruct (char_or_eof_reads s b _ Hb) as (s1 & ? & b1 & E1 & -> & H1); rewrite (stm_bind_run _ _ _ _ _ E1); cbn [head app].
  - destruct fuel; [cbn in Hf; lia|]. cbn [retrieve]. change (NL =c NL) with true. by exists s1.
  - destruct (IH fuel y (res ++ [x]) s1 b1 Hv) as [s2 E2]; [cbn in Hf; lia|exact H1|]. exists s2. rewrite E2, <- app_assoc. done.
Qed.

(** After the colon: a tab, and a value that does not start with white space. *)
Lemma value_reads rest x v fuel s b : x <> TAB -> NL ∉ x :: v -> (length v + 2 < fuel)%nat -> at_ s b (TAB :: x :: v ++ NL :: rest) ->
  exists s', ('(b, c) ← skip_white kernel fuel b; retrieve kernel fuel b c []) s = (s', Ok (x :: v)).
Proof.
  intros Hx Hv Hf Hb. destruct fuel as [|[|fuel]]; [lia..|].
  assert (gets_to s (skip_white kernel (S (S fuel)) b) (v ++ NL :: rest) (fun r b' => r = (b', Some x))) as (s1 & ? & b1 & E1 & -> & H1).
  { cbn [skip_white]. eapply gets_to_bind; [by apply char_or_eof_reads|]. intros ? b1 s1 -> H1. cbn [head tail] in *.
    change ((TAB =c TAB) || (TAB =c NL)) with true. cbn iota.
    eapply gets_to_bind; [by apply char_or_eof_reads|]. intros ? b2 s2 -> H2. cbn [head tail] in *.
    assert ((x =c TAB) || (x =c NL) = false) as ->.
    { apply orb_false_iff. split; apply char_eqb_neq; [done|]. apply not_elem_of_cons in Hv as [Hv _]. done. }
    by eapply gets_to_ret. }
  rewrite (stm_bind_run _ _ _ _ _ E1). destruct (retrieve_reads rest v (S (S fuel)) x [] s1 b1) as [s2 E2]; [done|lia|done|]. by exists s2.
Qed.

Lemma no_more field_name s b : at_ s b [] -> exists s' text, get_char_throw kernel field_name b s = (s', Throw (RuntimeError text)).
Proof.
  intros Hb. destruct (char_or_eof_reads s b [] Hb) as (s1 & ? & b1 & E1 & -> & H1). unfold get_char_throw.
  rewrite (stm_bind_run _ _ _ _ _ E1). cbn [head]. eexists _, _. reflexivity.
Qed.

End File.

(** ** The file *)

Definition status_line (e : str * str) : str := e.1 ++ ":"%char :: TAB :: e.2 ++ [NL].

Definition line_ok (e : str * str) : Prop := plain e.1 /\ NL ∉ e.2 /\ exists x v, e.2 = x :: v /\ x <> TAB.

(** The value of the first line with the name. *)
Fixpoint status_field (entries : list (str * str)) (name : str) : option str :=
  match entries with
  | [] => None
  | e :: entries' => if decide (e.1 = name) then Some e.2 else status_field entries' name
  end.

Lemma field_loop_reads fd c field_name : Forall (fun x => uchz x < 128) field_name -> plain field_name ->
  forall entries fuel s b, Forall line_ok entries -> (length (flat_map status_line entries) + 1 < fuel)%nat ->
  reads fd c s b (flat_map status_line entries) ->
  exists s', match status_field entries field_name with
  | Some v => field_loop kernel field_name fuel b s = (s', Ok v)
  | None => exists text, field_loop kernel field_name fuel b s = (s', Throw (RuntimeError text))
  end.
Proof.
  intros Hascii Hname. induction entries as [|[n v] entries IH]; intros [|fuel] s b Hok Hf Hb; try (cbn in Hf; lia); cbn [field_loop status_field].
  - cbn [flat_map] in Hb. unfold match_name. destruct (no_more fd c field_name s b Hb) as (s1 & text & E1). exists s1, text.
    destruct field_name as [|fc name].
    + rewrite (stm_bind_run _ _ s s (b, true) eq_refl). cbn iota. unfold mbind, stm_bind. by rewrite E1.
    + unfold mbind, stm_bind. by rewrite E1.
  - apply Forall_cons_1 in Hok as [(Hn & Hv & x & v' & Ev & Hx) Hok]. cbn [fst snd] in Hn, Hv, Ev. subst v.
    cbn [flat_map] in Hf, Hb. rewrite length_app in Hf. set (rest := flat_map status_line entries) in *.
    unfold status_line in Hb, Hf. cbn [fst snd] in Hb, Hf. rewrite length_app in Hf. cbn [length] in Hf. rewrite length_app in Hf. cbn [length] in Hf.
    rewrite <- app_assoc in Hb. cbn [app] in Hb. rewrite <- app_assoc in Hb. cbn [app] in Hb.
    pose proof (match_name_reads fd c field_name (TAB :: x :: v') rest (S fuel)) as Hm.
    specialize (Hm ltac:(rewrite not_elem_of_cons; done) field_name n s b Hascii Hname Hn ltac:(cbn [length]; lia) Hb).
    cbn [fst snd]. destruct (decide (field_name `prefix_of` n)) as [Hp|Hp].
    + destruct Hm as (s1 & ? & b1 & E1 & -> & H1). rewrite (stm_bind_run _ _ _ _ _ E1). cbn iota. destruct Hp as [k ->].
      rewrite drop_app_length in H1. destruct k as [|y k].
      * rewrite app_nil_r in *. rewrite decide_True by done. destruct (char_reads fd c field_name s1 b1 _ _ H1) as (s2 & ? & b2 & E2 & -> & H2).
        rewrite (stm_bind_run _ _ _ _ _ E2). change (negb (":" =c ":")) with false. cbn iota.
        eapply value_reads; [done|done| |exact H2]. lia.
      * rewrite decide_False by (intros E; apply (f_equal length) in E; rewrite length_app in E; cbn in E; lia).
        apply Forall_app in Hn as [_ Hn]. apply Forall_cons_1 in Hn as [[Hy1 Hy2] Hn].
        destruct (char_reads fd c field_name s1 b1 _ _ H1) as (s2 & ? & b2 & E2 & -> & H2). rewrite (stm_bind_run _ _ _ _ _ E2).
        destruct (y =c ":") eqn:E; [bools; congruence|]. cbn [negb].
        destruct (skip_reads fd c field_name rest (k ++ ":"%char :: TAB :: x :: v') (S fuel) s2 b2) as (s3 & ? & b3 & E3 & -> & H3).
        { rewrite not_elem_of_app, !not_elem_of_cons. split_and!; [|done|done|by apply not_elem_of_cons in Hv as [? ?]..].
          intros Hin. rewrite Forall_forall in Hn. by destruct (Hn _ Hin). }
        { rewrite length_app in Hf |- *. cbn [length] in *. lia. }
        { rewrite <- app_assoc. exact H2. }
        rewrite (stm_bind_run _ _ _ _ _ E3). apply IH; [done| |done]. lia.
    + rewrite decide_False by (intros ->; by apply Hp; exists []; rewrite app_nil_r).
      destruct Hm as (s1 & ? & b1 & E1 & -> & H1). rewrite (stm_bind_run _ _ _ _ _ E1). cbn iota. apply IH; [done| |done]. lia.
Qed.

End Status.

(** On a file of lines "name:<tab>value" with non-empty values,
    [field_from_proc_status] returns the value of the first line whose name is the
    given one, and not that of a field whose name merely starts with it or is
    the start of it, however the kernel cuts the file into reads; when there is
    no such line it throws. *)
Theorem field_from_proc_status_correct {W} (kernel : forall A, fsys A -> W -> W * A) `{!StatusFile kernel} fuel fd field_name entries s :
  Forall (fun x => uchz x < 128) field_name -> plain field_name -> Forall line_ok entries ->
  contents_of (world s) fd = Some (flat_map status_line entries) -> (length (flat_map status_line entries) + 1 < fuel)%nat ->
  exists s', match status_field entries field_name with
  | Some v => field_from_proc_status kernel fuel fd field_name s = (s', Ok v)
  | None => exists text, field_from_proc_status kernel fuel fd field_name s = (s', Throw (RuntimeError text))
  end.
Proof.
  intros Ha Hp Hok Hc Hf. apply (field_loop_reads kernel fd (flat_map status_line entries)); [done..|].
  by repeat split.
Qed.

(** ** Files in memory, read four bytes at a time *)

Definition short_kernel (A : Type) (c : fsys A) (w : gmap Z str) : gmap Z str * A :=
  match c with
  | Pread fd _ pos => (w, match w !! fd with Some t => inr (take 4 (drop (Z.to_nat pos) t)) | None => inl 9 end)
  | Read _ _ => (w, inl 9)
  | Write _ _ => (w, inl 9)
  | Lseek _ _ _ => (w, inl 9)
  | Openat _ _ _ _ => (w, inl 2)
  | Close _ => (w, inr tt)
  | Ftruncate _ _ => (w, inl 9)
  | Fchmod _ _ => (w, inl 9)
  | Fstatat _ _ => (w, inl 9)
  | Mkdirat _ _ _ => (w, inl 9)
  | Unlinkat _ _ _ => (w, inl 9)
  | Renameat _ _ _ _ => (w, inl 9)
  | Fdopendir _ => (w, inl 9)
  | Readdir _ => (w, inl 9)
  | Closedir _ => (w, inl 9)
  | Random _ => (w, inl 9)
  end.

#[export] Instance short_kernel_status : StatusFile short_kernel.
Proof.
  refine (Build_StatusFile _ _ (fun w fd => w !! fd) _). intros fd n pos w c Hn Hpos Hc. cbn. rewrite Hc.
  eexists _, _. split_and!; [reflexivity|apply prefix_take| |done].
  intros E. destruct (le_lt_dec (length c) (Z.to_nat pos)); [unfold len; lia|]. exfalso.
  apply (f_equal length) in E. rewrite length_take, length_drop in E. cbn [length] in E. lia.
Defined.

Definition sample_status : list (str * str) :=
  [(lit "Name", lit "judge"); (lit "VmPeakMax", lit "1 kB"); (lit "Vm", lit "2 kB"); (lit "VmPeak", lit "19096 kB")].

Lemma sample_lines : Forall line_ok sample_status.
Proof.
  repeat apply Forall_cons_2; try apply Forall_nil_2; (split; [|split]).
  all: try (eexists _, _; split; [reflexivity|done]).
  all: try (intros H; repeat (apply elem_of_cons in H as [H|H]; [done|]); by apply elem_of_nil in H).
  all: by repeat apply Forall_cons_2; try apply Forall_nil_2.
Qed.

Lemma field_from_proc_status_correct_witness : exists s',
  field_from_proc_status short_kernel 100 5 (lit "VmPeak") (mkIo 0 {[ 5 := flat_map status_line sample_status ]}) = (s', Ok (lit "19096 kB")).
Proof.
  apply (field_from_proc_status_correct short_kernel 100 5 (lit "VmPeak") sample_status (mkIo 0 {[ 5 := flat_map status_line sample_status ]})).
  - repeat apply Forall_cons_2; try apply Forall_nil_2; by vm_compute.
  - by repeat apply Forall_cons_2; try apply Forall_nil_2.
  - exact sample_lines.
  - apply lookup_singleton_eq.
  - apply Nat.ltb_lt. by vm_compute.
Defined.

Definition read_status (text name : str) : option str :=
  match field_from_proc_status short_kernel 100 5 name (mkIo 0 {[ 5 := text ]}) with (_, Ok v) => Some v | _ => None end.

(** An empty value: the line after it is returned. *)
Lemma empty_value_gives_next_line :
  read_status (lit "Groups:" ++ [TAB; NL] ++ lit "VmPeak:" ++ [TAB] ++ lit "1 kB" ++ [NL]) (lit "Groups") = Some (lit "VmPeak:" ++ [TAB] ++ lit "1 kB").
Proof. vm_compute. reflexivity. Qed.

(** A line that ends where the name goes on takes the next one with it. *)
Lemma short_line_hides_next :
  read_status (lit "Vm" ++ [NL] ++ lit "VmPeak:" ++ [TAB] ++ lit "1 kB" ++ [NL]) (lit "VmPeak") = None.
Proof. vm_compute. reflexivity. Qed.
