(* ===== verification/Package.v ===== *)
(** * The contents of a problem package

    Models [PackageContents] and [zip_package_main_dir] of
    [include/simlib/sim/problem_package.hh] and [src/sim/problem_package.cc].
    The entries are spans of one growing buffer, kept in a [std::set] ordered
    by the text they denote; a directory and a zip archive are given by what
    reading them yields. *)

From Stdlib Require Import Lia Sorted Ascii.
From S2P Require Import Prelude.
From S2P Require Import StringView.
From S2P Require Import StringSearch.
From S2P Require Import StringTraits.

(** ** Data *)

Record Span := mkSpan { span_begin : nat; span_end : nat }.

Record PackageContents := mkPC { buff : str; entries : list Span }.

Definition empty_pc : PackageContents := mkPC [] [].

Definition to_str (b : str) (x : Span) : str :=
  take (span_end x - span_begin x) (drop (span_begin x) b).

(** The texts of the entries, in the order of the set. *)
Definition contents (pc : PackageContents) : list str := to_str (buff pc) <$> entries pc.

(** ** Operations *)

(** [std::set::insert] with the comparer of the class. *)
Fixpoint set_insert (b : str) (x : Span) (l : list Span) : list Span :=
  match l with
  | [] => [x]
  | y :: l' =>
      if SV.ltb (to_str b y) (to_str b x) then y :: set_insert b x l'
      else if SV.ltb (to_str b x) (to_str b y) then x :: l else l
  end.

Definition add_entry (s : str) (pc : PackageContents) : PackageContents :=
  let b := buff pc ++ s in
  mkPC b (set_insert b (mkSpan (length (buff pc)) (length b)) (entries pc)).

(** [std::set::find]: the entries from the found one on, empty for [end()]. *)
Fixpoint set_find (b key : str) (l : list Span) : list Span :=
  match l with
  | [] => []
  | y :: l' =>
      if SV.ltb (to_str b y) key then set_find b key l'
      else if SV.ltb key (to_str b y) then [] else l
  end.

Definition exists_ (pc : PackageContents) (entry : str) : bool :=
  match set_find (buff pc) entry (entries pc) with [] => false | _ => true end.

(** The entries before [lower_bound(key)], and those from it on. *)
Definition below (b key : str) : list Span -> list Span :=
  take_while (fun x => SV.ltb (to_str b x) key).

Definition lower_bound (b key : str) : list Span -> list Span :=
  drop_while (fun x => SV.ltb (to_str b x) key).

(** [entries.erase(it)], where [it] is given by the entries from it on. *)
Definition erase (it : list Span) (l : list Span) : list Span :=
  take (length l - length it) l ++ tail it.

Definition remove (entry : str) (pc : PackageContents) : PackageContents * bool :=
  match set_find (buff pc) entry (entries pc) with
  | [] => (pc, false)
  | it => (mkPC (buff pc) (erase it (entries pc)), true)
  end.

Definition remove_with_prefix (prefix : str) (pc : PackageContents) : PackageContents :=
  let b := buff pc in
  mkPC b (below b prefix (entries pc) ++
    drop_while (fun x => has_prefix (to_str b x) prefix) (lower_bound b prefix (entries pc))).

(** The callback runs on a state of the caller. *)
Fixpoint for_each_loop {S} (b prefix : str) (callback : str -> stm S unit) (it : list Span) : stm S unit :=
  match it with
  | [] => mret tt
  | x :: it' =>
      let entry := to_str b x in
      if negb (has_prefix entry prefix) then mret tt
      else _ ← callback entry; for_each_loop b prefix callback it'
  end.

Definition for_each_with_prefix {S} (pc : PackageContents) (prefix : str) (callback : str -> stm S unit) :
    stm S unit :=
  for_each_loop (buff pc) prefix callback (lower_bound (buff pc) prefix (entries pc)).

(** Up to and with the first slash. *)
Definition first_dir (s : str) : option str :=
  (fun pos => take (pos + 1) s) <$> SV.find_char s "/"%char 0.

Definition main_dir (pc : PackageContents) : str :=
  match entries pc, last (entries pc) with
  | x :: _, Some y =>
      match first_dir (to_str (buff pc) x) with
      | None => []
      | Some candidate => if has_prefix (to_str (buff pc) y) candidate then candidate else []
      end
  | _, _ => []
  end.

(** ** Loading *)

(** What reading a directory yields, [.] and [..] left out. *)
Inductive dirent :=
| OtherFile (d_name : str)
| SubDir (d_name : str) (entries : list dirent).

Section LoadFromDirectory.
Variables (pkg_path : str) (retain_pkg_path_prefix : bool).

Definition add_path_to_pc (path : str) (pc : PackageContents) : outcome PackageContents :=
  if retain_pkg_path_prefix then Ok (add_entry path pc)
  else
    p ← SV.substr_from path (length pkg_path + 1);
    Ok (add_entry p pc).

(** [recursive_impl]; [path] is the buffer with the path of the parent, which
    it is restored to. *)
Fixpoint visit (path : str) (e : dirent) (pc : PackageContents) : outcome PackageContents :=
  match e with
  | OtherFile name => add_path_to_pc (path ++ name) pc
  | SubDir filename l =>
      let path := path ++ filename ++ lit "/" in
      pc ← (if length filename + 1 <? length path then add_path_to_pc path pc else Ok pc);
      (fix go (l : list dirent) (pc : PackageContents) : outcome PackageContents :=
         match l with
         | [] => Ok pc
         | e :: l' => pc ← visit path e pc; go l' pc
         end) l pc
  end.

Fixpoint visit_all (path : str) (l : list dirent) (pc : PackageContents) : outcome PackageContents :=
  match l with
  | [] => Ok pc
  | e :: l' => pc ← visit path e pc; visit_all path l' pc
  end.
End LoadFromDirectory.

(** [tree]: what the directory at [pkg_path] holds. *)
Definition load_from_directory (pkg_path : str) (retain : bool) (tree : list dirent)
    (pc : PackageContents) : outcome PackageContents :=
  if SV.empty pkg_path then Throw (RuntimeError (lit "!pkg_path.empty()"))
  else
    let p := SV.remove_trailing_char "/"%char pkg_path in
    visit p retain [] (SubDir p tree) pc.

(** An entry with a component [..] that leads on. *)
Definition unsafe_entry (epath : str) : outcome bool :=
  if has_prefix epath (lit "../") then Ok true
  else
    pos ← SV.find epath (lit "/../");
    Ok (match pos with Some _ => true | None => false end).

Definition unsafe_archive {A} : outcome A :=
  Throw (RuntimeError (lit "Found invalid component " ++ [DQ] ++ lit "../" ++ [DQ] ++
    lit " - archive is not safe for the further processing as it may be disambiguating")).

(** [names]: the names of the entries of the archive. *)
Fixpoint load_from_zip (names : list str) (pc : PackageContents) : outcome PackageContents :=
  match names with
  | [] => Ok pc
  | epath :: names' =>
      unsafe ← unsafe_entry epath;
      if unsafe : bool then unsafe_archive else load_from_zip names' (add_entry epath pc)
  end.

Fixpoint zip_main_dir_loop (res : str) (names : list str) : outcome str :=
  match names with
  | [] => Ok res
  | epath :: names' =>
      unsafe ← unsafe_entry epath;
      if unsafe : bool then unsafe_archive
      else if SV.empty res then
        match first_dir epath with
        | None => Ok []
        | Some d => zip_main_dir_loop d names'
        end
      else if negb (has_prefix epath res) then Ok []
      else zip_main_dir_loop res names'
  end.

Definition zip_package_main_dir (names : list str) : outcome str := zip_main_dir_loop [] names.

(** ** The order of the entries *)

Lemma ltb_cons x y a b : SV.ltb (x :: a) (y :: b) =
  match (chz x ?= chz y)%Z with Lt => true | Eq => SV.ltb a b | Gt => false end.
Proof.
  unfold SV.ltb. rewrite !SV.compare_lex. cbn [SV.lex]. by destruct (chz x ?= chz y)%Z.
Qed.

Lemma ltb_nil_r a : SV.ltb a [] = false.
Proof. unfold SV.ltb. rewrite SV.compare_lex. by destruct a. Qed.

(** A string is not less than its prefixes. *)
Lemma ltb_prefix p s : p `prefix_of` s -> SV.ltb s p = false.
Proof.
  intros [k ->]. induction p as [|c p IH]; [apply ltb_nil_r|]. cbn [app]. by rewrite ltb_cons, Z.compare_refl.
Qed.

(** The strings with a given prefix are next to each other in the order. *)
Lemma prefix_interval p x z :
  SV.ltb x p = false -> p `prefix_of` z -> SV.ltb z x = false -> p `prefix_of` x.
Proof.
  intros H [k ->]. revert x H. induction p as [|c p IH]; intros x H1 H2; [apply prefix_nil|].
  destruct x as [|y x]; [done|]. cbn [app] in H2. rewrite ltb_cons in H1, H2.
  destruct (Z.compare_spec (chz y) (chz c)) as [E|E|E]; [|done|].
  - apply chz_inj in E as ->. rewrite Z.compare_refl in H2. apply prefix_cons. by apply IH.
  - rewrite (proj2 (Z.compare_lt_iff _ _)) in H2 by lia. done.
Qed.

Abbreviation str_sorted := (StronglySorted (fun a b => SV.ltb a b = true)).

Lemma ltb_asym a b : SV.ltb a b = true -> SV.ltb b a = false.
Proof.
  intros H. destruct (SV.ltb b a) eqn:E; [|done]. by rewrite <- (SV.ltb_irrefl a), (SV.ltb_trans a b a).
Qed.

(** *** Searching sorted entries *)

Lemma take_while_fmap {A B} (g : A -> B) (f : B -> bool) l :
  take_while f (g <$> l) = g <$> take_while (fun x => f (g x)) l.
Proof. induction l as [|x l IH]; cbn; [done|]. case_goal; cbn; [by f_equal|done]. Qed.

Lemma drop_while_fmap {A B} (g : A -> B) (f : B -> bool) l :
  drop_while f (g <$> l) = g <$> drop_while (fun x => f (g x)) l.
Proof. induction l as [|x l IH]; cbn; [done|]. case_goal; cbn; done. Qed.

Lemma filter_all {A} (P : A -> Prop) `{!forall x, Decision (P x)} l : Forall P l -> filter P l = l.
Proof. induction 1 as [|x l Hx _ IH]; [done|]. by rewrite filter_cons_True, IH. Qed.

Lemma filter_none {A} (P : A -> Prop) `{!forall x, Decision (P x)} l :
  Forall (fun x => ~ P x) l -> filter P l = [].
Proof. induction 1 as [|x l Hx _ IH]; [done|]. by rewrite filter_cons_False. Qed.

(** In a sorted sequence the entries with a prefix are those from the lower
    bound on, as long as they have it. *)
Lemma prefix_run l p : str_sorted l ->
  take_while (fun x => has_prefix x p) (drop_while (fun x => SV.ltb x p) l) =
    filter (fun x => p `prefix_of` x) l /\
  take_while (fun x => SV.ltb x p) l ++
    drop_while (fun x => has_prefix x p) (drop_while (fun x => SV.ltb x p) l) =
    filter (fun x => ~ p `prefix_of` x) l.
Proof.
  induction l as [|x l IH]; intros H; [done|]. apply StronglySorted_inv in H as [H1 H2].
  specialize (IH H1). destruct IH as [IH1 IH2]. cbn [drop_while take_while].
  destruct (SV.ltb x p) eqn:E.
  - assert (~ p `prefix_of` x) as Hx by (intros Hp; by rewrite ltb_prefix in E).
    rewrite filter_cons_False by done. rewrite filter_cons_True by done. cbn [app]. by rewrite IH2.
  - cbn [take_while drop_while app].
    (* nothing after [x] is below [p] *)
    assert (drop_while (fun x => SV.ltb x p) l = l /\ take_while (fun x => SV.ltb x p) l = []) as [Ed Et].
    { destruct l as [|y l]; [done|]. cbn. apply Forall_cons in H2 as [H2 _].
      destruct (SV.ltb y p) eqn:E2; [|done]. rewrite (SV.ltb_trans x y p) in E; done. }
    rewrite Ed in IH1, IH2. rewrite Et in IH2. cbn [app] in IH2. destruct (has_prefix x p) eqn:E2.
    + apply has_prefix_spec in E2 as Hp. rewrite filter_cons_True by done.
      rewrite filter_cons_False by tauto. by rewrite IH1, IH2.
    + assert (~ p `prefix_of` x) as Hp by (intros Hp; apply has_prefix_spec in Hp; congruence).
      rewrite filter_cons_False by done. rewrite filter_cons_True by done.
      assert (Forall (fun y => ~ p `prefix_of` y) l) as Hl.
      { eapply Forall_impl; [exact H2|]. intros y Hy Hpy. apply Hp.
        apply (prefix_interval p x y); [done|done|by apply ltb_asym]. }
      rewrite filter_none, filter_all by done. done.
Qed.

(** ** The class implements an ordered set of strings *)

(** The spans are inside the buffer and their texts strictly increase. *)
Record well_formed (pc : PackageContents) : Prop := {
  wf_spans : Forall (fun x => span_begin x <= span_end x <= length (buff pc)) (entries pc);
  wf_sorted : str_sorted (contents pc);
}.

Lemma empty_pc_wf : well_formed empty_pc.
Proof. repeat constructor. Qed.

Lemma to_str_app b s x : span_end x <= length b -> to_str (b ++ s) x = to_str b x.
Proof.
  intros H. unfold to_str. destruct (decide (span_begin x <= length b)) as [Hb|Hb].
  - rewrite drop_app_le by done. rewrite take_app_le; [done|]. rewrite length_drop. lia.
  - replace (span_end x - span_begin x) with 0 by lia. by rewrite !take_0.
Qed.

Lemma to_str_new b s : to_str (b ++ s) (mkSpan (length b) (length (b ++ s))) = s.
Proof. unfold to_str. cbn. rewrite drop_app_length, length_app. apply take_ge. lia. Qed.

Lemma set_insert_elem b x l e : e ∈ (to_str b <$> set_insert b x l) <-> e = to_str b x \/ e ∈ (to_str b <$> l).
Proof.
  induction l as [|y l IH]; cbn [set_insert fmap list_fmap]; [rewrite list_elem_of_singleton; set_solver|].
  destruct (SV.ltb (to_str b y) (to_str b x)) eqn:E1.
  - cbn [fmap list_fmap]. rewrite !elem_of_cons, IH. tauto.
  - destruct (SV.ltb (to_str b x) (to_str b y)) eqn:E2; cbn [fmap list_fmap]; rewrite !elem_of_cons; [tauto|].
    rewrite (SV.ltb_total _ _ E2 E1). tauto.
Qed.

Lemma set_insert_sorted b x l : str_sorted (to_str b <$> l) -> str_sorted (to_str b <$> set_insert b x l).
Proof.
  induction l as [|y l IH]; cbn [set_insert fmap list_fmap]; intros H; [repeat constructor|].
  apply StronglySorted_inv in H as [H1 H2]. destruct (SV.ltb (to_str b y) (to_str b x)) eqn:E1.
  - cbn [fmap list_fmap]. constructor; [by apply IH|]. apply Forall_forall. intros e He.
    apply set_insert_elem in He as [->|He]; [done|]. rewrite Forall_forall in H2. auto.
  - destruct (SV.ltb (to_str b x) (to_str b y)) eqn:E2; cbn [fmap list_fmap]; [|by constructor].
    constructor; [by constructor|]. constructor; [done|]. eapply Forall_impl; [exact H2|].
    intros z Hz. by apply (SV.ltb_trans _ (to_str b y)).
Qed.

Lemma set_insert_spans (P : Span -> Prop) b x l : P x -> Forall P l -> Forall P (set_insert b x l).
Proof. intros Hx. induction 1 as [|y l Hy Hl IH]; cbn [set_insert]; [by repeat constructor|]. repeat case_goal; auto. Qed.

Lemma contents_grow pc s : well_formed pc -> to_str (buff pc ++ s) <$> entries pc = contents pc.
Proof.
  intros [H _]. unfold contents. apply list_fmap_ext. intros i x Hx.
  apply to_str_app. rewrite Forall_forall in H. apply list_elem_of_lookup_2 in Hx. apply H in Hx. lia.
Qed.

Lemma add_entry_spec s pc : well_formed pc -> well_formed (add_entry s pc) /\
  forall e, e ∈ contents (add_entry s pc) <-> e = s \/ e ∈ contents pc.
Proof.
  intros W. pose proof (contents_grow pc s W) as G. unfold add_entry. split; [constructor|].
  - cbn. apply set_insert_spans; [cbn; rewrite length_app; lia|]. eapply Forall_impl; [apply W|].
    cbn. rewrite length_app. intros; lia.
  - unfold contents. cbn [buff entries]. apply set_insert_sorted. rewrite G. apply W.
  - intros e. unfold contents. cbn [buff entries]. rewrite set_insert_elem, G, to_str_new. done.
Qed.

Lemma set_find_spec b key l : str_sorted (to_str b <$> l) ->
  match set_find b key l with
  | [] => key ∉ (to_str b <$> l)
  | x :: r => exists l1, l = l1 ++ x :: r /\ to_str b x = key
  end.
Proof.
  induction l as [|y l IH]; cbn [set_find fmap list_fmap]; intros H; [apply not_elem_of_nil|].
  apply StronglySorted_inv in H as [H1 H2]. destruct (SV.ltb (to_str b y) key) eqn:E1.
  - specialize (IH H1). destruct (set_find b key l) as [|x r].
    + apply not_elem_of_cons. split; [|done]. intros ->. by rewrite SV.ltb_irrefl in E1.
    + destruct IH as (l1 & -> & E). by exists (y :: l1).
  - destruct (SV.ltb key (to_str b y)) eqn:E2.
    + apply not_elem_of_cons. split; [intros ->; by rewrite SV.ltb_irrefl in E2|].
      rewrite Forall_forall in H2. intros Hk. apply H2 in Hk. rewrite (ltb_asym _ _ Hk) in E2. done.
    + exists []. split; [done|]. by apply SV.ltb_total.
Qed.

Lemma exists_spec pc e : well_formed pc -> exists_ pc e = bool_decide (e ∈ contents pc).
Proof.
  intros [_ W]. unfold exists_, contents in *. pose proof (set_find_spec (buff pc) e _ W) as H.
  destruct (set_find _ _ _) as [|x r].
  - by rewrite bool_decide_false.
  - destruct H as (l1 & -> & <-). rewrite bool_decide_true; [done|]. rewrite fmap_app. set_solver.
Qed.

Lemma sorted_app_notin l1 (e : str) l2 : str_sorted (l1 ++ e :: l2) -> e ∉ l1 /\ e ∉ l2.
Proof.
  induction l1 as [|x l1 IH]; cbn; intros H; apply StronglySorted_inv in H as [H1 H2].
  - split; [apply not_elem_of_nil|]. intros Hin. rewrite Forall_forall in H2. apply H2 in Hin.
    by rewrite SV.ltb_irrefl in Hin.
  - destruct (IH H1) as [N1 N2]. split; [|done]. apply not_elem_of_cons. split; [|done]. intros ->.
    rewrite Forall_forall in H2. specialize (H2 x). rewrite SV.ltb_irrefl in H2.
    discriminate H2. set_solver.
Qed.

Lemma sorted_filter (P : str -> Prop) `{!forall x, Decision (P x)} l : str_sorted l -> str_sorted (filter P l).
Proof.
  induction 1 as [|x l H1 IH H2]; [constructor|]. destruct (decide (P x)).
  - rewrite filter_cons_True by done. constructor; [done|]. rewrite Forall_forall in H2 |- *.
    intros y Hy. apply list_elem_of_filter in Hy as [_ Hy]. auto.
  - by rewrite filter_cons_False by done.
Qed.

Lemma wf_subset pc l (P : str -> Prop) `{!forall x, Decision (P x)} : well_formed pc ->
  (forall x, x ∈ l -> x ∈ entries pc) -> to_str (buff pc) <$> l = filter P (contents pc) ->
  well_formed (mkPC (buff pc) l).
Proof.
  intros [W1 W2] Hs E. constructor; unfold contents; cbn [buff entries].
  - rewrite Forall_forall in W1. apply Forall_forall. auto.
  - rewrite E. by apply sorted_filter.
Qed.

Lemma remove_spec e pc : well_formed pc -> well_formed (remove e pc).1 /\
  contents (remove e pc).1 = filter (fun x => x <> e) (contents pc) /\
  (remove e pc).2 = bool_decide (e ∈ contents pc).
Proof.
  intros W. rewrite <- exists_spec by done. unfold remove, exists_.
  pose proof (set_find_spec (buff pc) e _ (wf_sorted _ W)) as H.
  destruct (set_find (buff pc) e (entries pc)) as [|x r].
  - split; [done|]. split; [|done]. symmetry. apply filter_all. apply Forall_forall. intros y Hy ->. done.
  - destruct H as (l1 & El & Ex). cbn [fst snd].
    assert (to_str (buff pc) <$> erase (x :: r) (entries pc) = filter (fun x => x <> e) (contents pc)) as Ec.
    { unfold erase, contents. rewrite El, length_app. cbn [length tail].
      replace (length l1 + S (length r) - S (length r)) with (length l1) by lia.
      rewrite take_app_length, !fmap_app, filter_app. cbn [fmap list_fmap]. rewrite filter_cons_False by tauto.
      pose proof (wf_sorted _ W) as S. unfold contents in S. rewrite El, fmap_app in S. cbn [fmap list_fmap] in S.
      apply sorted_app_notin in S as [N1 N2]. rewrite Ex in N1, N2.
      rewrite !filter_all; [done|..]; apply Forall_forall; intros y Hy ->; done. }
    split; [|by split]. eapply wf_subset; [done| |exact Ec]. unfold erase. rewrite El, length_app. cbn [length tail].
    replace (length l1 + S (length r) - S (length r)) with (length l1) by lia. rewrite take_app_length. set_solver.
Qed.

Lemma remove_with_prefix_spec p pc : well_formed pc -> well_formed (remove_with_prefix p pc) /\
  contents (remove_with_prefix p pc) = filter (fun x => ~ p `prefix_of` x) (contents pc).
Proof.
  intros W. pose proof (proj2 (prefix_run _ p (wf_sorted _ W))) as E. unfold contents in E at 1 2.
  rewrite take_while_fmap, !drop_while_fmap, <- fmap_app in E. split; [|exact E].
  eapply wf_subset; [done| |exact E]. intros x Hx. apply elem_of_app in Hx as [Hx|Hx].
  - unfold below in Hx. rewrite <- (take_drop_while (fun x => SV.ltb (to_str (buff pc) x) p) (entries pc)).
    apply elem_of_app. by left.
  - unfold lower_bound in Hx. rewrite <- (take_drop_while (fun x => SV.ltb (to_str (buff pc) x) p) (entries pc)).
    apply elem_of_app. right. rewrite <- (take_drop_while (fun x => has_prefix (to_str (buff pc) x) p)).
    apply elem_of_app. by right.
Qed.

(** Running a callback over a list. *)
Fixpoint run_all {S A} (f : A -> stm S unit) (l : list A) : stm S unit :=
  match l with
  | [] => mret tt
  | x :: l' => _ ← f x; run_all f l'
  end.

Lemma for_each_loop_take {S} b p (f : str -> stm S unit) it s :
  for_each_loop b p f it s = run_all f (to_str b <$> take_while (fun x => has_prefix (to_str b x) p) it) s.
Proof.
  revert s. induction it as [|x it IH]; intros s; cbn [for_each_loop take_while fmap list_fmap run_all]; [done|].
  destruct (has_prefix (to_str b x) p); cbn [negb]; [|done]. cbn [fmap list_fmap run_all].
  unfold mbind, stm_bind. destruct (f (to_str b x) s) as [s' [u|e| |]]; [|done..]. apply IH.
Qed.

(** [for_each_with_prefix] runs the callback on exactly the entries with the
    prefix, in order. *)
Lemma for_each_with_prefix_spec {S} pc p (f : str -> stm S unit) s : well_formed pc ->
  for_each_with_prefix pc p f s = run_all f (filter (fun x => p `prefix_of` x) (contents pc)) s.
Proof.
  intros W. unfold for_each_with_prefix. rewrite for_each_loop_take.
  rewrite <- (proj1 (prefix_run _ p (wf_sorted _ W))). unfold contents, lower_bound.
  by rewrite drop_while_fmap, take_while_fmap.
Qed.

(** ** The main directory *)

Abbreviation slash_c := ("/"%char).

Lemma first_dir_Some s w : slash_c ∉ w -> w ++ [slash_c] `prefix_of` s -> first_dir s = Some (w ++ [slash_c]).
Proof.
  intros Hw [k ->]. rewrite <- app_assoc. cbn [app]. unfold first_dir.
  pose proof (SV.find_char_spec (w ++ slash_c :: k) slash_c 0) as F.
  assert ((w ++ slash_c :: k) !! length w = Some slash_c) as E by (by apply list_lookup_middle).
  destruct (SV.find_char _ _ _) as [i|]; [|by destruct (F (length w) ltac:(lia))].
  destruct F as (_ & Fi & Fmin).
  assert (i = length w) as ->.
  { destruct (Nat.lt_trichotomy i (length w)) as [H|[H|H]]; [exfalso|done|].
    - rewrite lookup_app_l in Fi by done. apply list_elem_of_lookup_2 in Fi. done.
    - by destruct (Fmin (length w) ltac:(lia)). }
  cbn. f_equal. rewrite take_app, take_ge by lia. replace (length w + 1 - length w) with 1 by lia. done.
Qed.

Lemma first_dir_inv s d : first_dir s = Some d -> exists w, d = w ++ [slash_c] /\ slash_c ∉ w /\ d `prefix_of` s.
Proof.
  unfold first_dir. pose proof (SV.find_char_spec s slash_c 0) as F.
  destruct (SV.find_char _ _ _) as [i|]; [|done]. cbn. intros [= <-]. destruct F as (_ & Fi & Fmin).
  exists (take i s). replace (i + 1) with (S i) by lia. split; [by apply take_S_r|]. split; [|apply prefix_take].
  intros Hin. apply list_elem_of_lookup in Hin as [j Hj]. apply lookup_take_Some in Hj as [Hj Hlt].
  by destruct (Fmin j ltac:(lia)).
Qed.

(** The directory (with its slash) all of the entries are in; none: the empty
    string. *)
Definition is_main_dir (l : list str) (d : str) : Prop :=
  (l <> [] /\ exists w, d = w ++ [slash_c] /\ slash_c ∉ w /\ forall e, e ∈ l -> d `prefix_of` e) \/
  (d = [] /\ (l = [] \/ forall w, slash_c ∉ w -> exists e, e ∈ l /\ ~ w ++ [slash_c] `prefix_of` e)).

Lemma is_main_dir_unique l l' d d' : (forall e, e ∈ l <-> e ∈ l') ->
  is_main_dir l d -> is_main_dir l' d' -> d = d'.
Proof.
  intros Hl. assert (l = [] <-> l' = []) as Hn.
  { split; intros ->; [destruct l' as [|x l']|destruct l as [|x l]]; try done; exfalso;
      eapply not_elem_of_nil; apply Hl; left. }
  intros [[H1 (w & -> & Hw & Ha)]|[-> H1]] [[H2 (w' & -> & Hw' & Ha')]|[-> H2]]; [|exfalso..|done].
  - destruct l as [|e l]; [done|]. pose proof (Ha e ltac:(left)) as P1.
    assert (e ∈ l') as He by (apply Hl; left). pose proof (Ha' e He) as P2.
    pose proof (first_dir_Some _ _ Hw P1). pose proof (first_dir_Some _ _ Hw' P2). congruence.
  - destruct H2 as [H2|H2]; [tauto|]. destruct (H2 w Hw) as (e & He & Hn'). apply Hn', Ha, Hl, He.
  - destruct H1 as [H1|H1]; [tauto|]. destruct (H1 w' Hw') as (e & He & Hn'). apply Hn', Ha', Hl, He.
Qed.

Lemma sorted_bounds l (x y e : str) : str_sorted l -> head l = Some x -> last l = Some y -> e ∈ l ->
  SV.ltb e x = false /\ SV.ltb y e = false.
Proof.
  intros S Hx Hy He. destruct l as [|x' l]; [done|]. injection Hx as ->. split.
  - apply StronglySorted_inv in S as [_ S]. apply elem_of_cons in He as [->|He]; [apply SV.ltb_irrefl|].
    rewrite Forall_forall in S. by apply ltb_asym, S.
  - apply last_Some in Hy as [l' E]. rewrite E in S, He. clear E.
    apply elem_of_app in He as [He|He]; [|apply list_elem_of_singleton in He as ->; apply SV.ltb_irrefl].
    induction l' as [|z l' IH]; [by apply not_elem_of_nil in He|]. cbn in S.
    apply StronglySorted_inv in S as [S1 S2]. apply elem_of_cons in He as [->|He]; [|by apply IH].
    rewrite Forall_forall in S2. apply ltb_asym, S2. set_solver.
Qed.

Lemma main_dir_spec pc : well_formed pc -> is_main_dir (contents pc) (main_dir pc).
Proof.
  intros [_ S]. unfold main_dir. destruct (entries pc) as [|x es] eqn:Ee.
  { right. split; [done|]. left. unfold contents. by rewrite Ee. }
  assert (contents pc = to_str (buff pc) x :: (to_str (buff pc) <$> es)) as Ec by (unfold contents; by rewrite Ee).
  destruct (last (x :: es)) as [y|] eqn:Ey; [|by apply last_None in Ey].
  assert (last (contents pc) = Some (to_str (buff pc) y)) as El by (unfold contents; by rewrite Ee, fmap_last, Ey).
  destruct (first_dir (to_str (buff pc) x)) as [d|] eqn:Ed.
  - apply first_dir_inv in Ed as (w & Ed & Hw & Hd).
    assert (forall e, e ∈ contents pc -> SV.ltb e (to_str (buff pc) x) = false /\ SV.ltb (to_str (buff pc) y) e = false) as B.
    { intros e He. apply (sorted_bounds (contents pc)); [done| |done|done]. by rewrite Ec. }
    destruct (has_prefix (to_str (buff pc) y) d) eqn:Ep.
    + apply has_prefix_spec in Ep. left. rewrite Ec. split; [done|]. exists w. split; [done|]. split; [done|].
      rewrite <- Ec. intros e He. destruct (B e He) as [B1 B2]. apply (prefix_interval d e (to_str (buff pc) y)); [|done|done].
      destruct (SV.ltb e d) eqn:E1; [|done].
      destruct (SV.ltb d (to_str (buff pc) x)) eqn:E2; [by rewrite (SV.ltb_trans e d _) in B1|].
      rewrite (SV.ltb_total d (to_str (buff pc) x) E2 (ltb_prefix _ _ Hd)) in E1. congruence.
    + right. split; [done|]. right. intros w' Hw'. destruct (decide (w' ++ [slash_c] `prefix_of` to_str (buff pc) x)) as [P|P].
      * pose proof (first_dir_Some _ _ Hw' P) as E1. rewrite Ed in Hd. pose proof (first_dir_Some _ _ Hw Hd) as E2.
        rewrite E2 in E1. injection E1 as E1. exists (to_str (buff pc) y). split.
        -- apply last_Some in El as [l' ->]. set_solver.
        -- intros P'. apply has_prefix_spec in P'. rewrite <- E1, <- Ed in P'. congruence.
      * exists (to_str (buff pc) x). split; [rewrite Ec; left|done].
  - right. split; [done|]. right. intros w Hw. exists (to_str (buff pc) x). split; [rewrite Ec; left|].
    intros P. by rewrite (first_dir_Some _ _ Hw P) in Ed.
Qed.

(** ** Archives *)

(** The entry leads up from some directory. *)
Definition unsafe (epath : str) : Prop :=
  lit "../" `prefix_of` epath \/ exists i, Search.occurs epath (lit "/../") i.

Lemma unsafe_entry_spec epath : exists b, unsafe_entry epath = Ok b /\ (b = true <-> unsafe epath).
Proof.
  unfold unsafe_entry, unsafe. destruct (has_prefix epath (lit "../")) eqn:E.
  - apply has_prefix_spec in E. exists true. tauto.
  - assert (~ lit "../" `prefix_of` epath) as Hn by (intros H; apply has_prefix_spec in H; congruence).
    destruct (Search.find_spec epath (lit "/../") ltac:(discriminate)) as ([i|] & -> & H); cbn.
    + exists true. split; [done|]. split; [|done]. intros _. right. exists i. apply H.
    + exists false. split; [done|]. split; [done|]. intros [?|[i Hi]]; [done|]. by destruct (H i).
Qed.

Lemma load_from_zip_spec names : forall pc, well_formed pc ->
  match load_from_zip names pc with
  | Ok pc' => Forall (fun e => ~ unsafe e) names /\ well_formed pc' /\
      forall e, e ∈ contents pc' <-> e ∈ contents pc \/ e ∈ names
  | Throw _ => Exists unsafe names
  | _ => False
  end.
Proof.
  induction names as [|n names IH]; intros pc W; cbn [load_from_zip].
  - split; [constructor|]. split; [done|]. set_solver.
  - destruct (unsafe_entry_spec n) as ([|] & -> & H); cbn.
    + left. by apply H.
    + destruct (add_entry_spec n pc W) as [W' Hc]. specialize (IH _ W').
      destruct (load_from_zip names (add_entry n pc)) as [pc'|e| |]; [|by right|done|done].
      destruct IH as (H1 & H2 & H3). split; [constructor; [|done]; intros Hu; by apply H in Hu|]. split; [done|].
      intros e. rewrite H3, Hc, elem_of_cons. tauto.
Qed.

Lemma zip_main_dir_loop_spec names res w : res = w ++ [slash_c] -> Forall (fun e => ~ unsafe e) names ->
  zip_main_dir_loop res names =
  Ok (if decide (Forall (fun e => res `prefix_of` e) names) then res else []).
Proof.
  intros Hres. assert (SV.empty res = false) as He.
  { rewrite Hres. destruct w; reflexivity. }
  induction 1 as [|n names Hn _ IH]; cbn [zip_main_dir_loop]; [by rewrite decide_True by constructor|].
  destruct (unsafe_entry_spec n) as ([|] & -> & H); cbn [mbind outcome_bind]; [exfalso; by apply Hn, H|]. rewrite He.
  destruct (has_prefix n res) eqn:E; cbv [negb].
  - apply has_prefix_spec in E. rewrite IH. f_equal. apply decide_ext. rewrite Forall_cons. tauto.
  - rewrite decide_False; [done|]. intros [P _]%Forall_cons. apply has_prefix_spec in P. congruence.
Qed.

Lemma zip_package_main_dir_spec names : Forall (fun e => ~ unsafe e) names ->
  exists d, zip_package_main_dir names = Ok d /\ is_main_dir names d.
Proof.
  unfold zip_package_main_dir. destruct 1 as [|n names Hn Hl]; cbn [zip_main_dir_loop].
  { exists []. split; [done|]. right. tauto. }
  destruct (unsafe_entry_spec n) as ([|] & -> & H); cbn [mbind outcome_bind]; [exfalso; by apply Hn, H|].
  destruct (first_dir n) as [d|] eqn:Ed.
  - apply first_dir_inv in Ed as (w & Hd & Hw & Hp). rewrite (zip_main_dir_loop_spec names d w Hd Hl).
    eexists. split; [done|]. case_decide as Ha.
    + left. split; [done|]. exists w. split; [done|]. split; [done|]. intros e [->|He]%elem_of_cons; [done|].
      rewrite Forall_forall in Ha. auto.
    + right. split; [done|]. right. intros w' Hw'. destruct (decide (w' ++ [slash_c] `prefix_of` n)) as [P|P].
      * pose proof (first_dir_Some _ _ Hw' P) as E1. subst d. pose proof (first_dir_Some _ _ Hw Hp) as E2.
        rewrite E1 in E2. injection E2 as E2. apply not_Forall_Exists in Ha; [|apply _].
        apply Exists_exists in Ha as (e & He & Hne). exists e. split; [by right|]. by rewrite E2.
      * exists n. split; [left|done].
  - eexists. split; [done|]. right. split; [done|]. right. intros w Hw. exists n. split; [left|].
    intros P. by rewrite (first_dir_Some _ _ Hw P) in Ed.
Qed.

(** ** Directories *)

Section dirent_induction.
Variable P : dirent -> Prop.
Hypothesis P_file : forall n, P (OtherFile n).
Hypothesis P_dir : forall n l, Forall P l -> P (SubDir n l).

Fixpoint dirent_forall (e : dirent) : P e :=
  match e with
  | OtherFile n => P_file n
  | SubDir n l =>
      P_dir n l ((fix go (l : list dirent) : Forall P l :=
        match l with
        | [] => Forall_nil_2 P
        | e :: l' => Forall_cons_2 P e l' (dirent_forall e) (go l')
        end) l)
  end.
End dirent_induction.

(** The paths below a directory, directories with a trailing slash. *)
Fixpoint tree_paths (path : str) (e : dirent) : list str :=
  match e with
  | OtherFile n => [path ++ n]
  | SubDir n l => let p := path ++ n ++ lit "/" in p :: flat_map (tree_paths p) l
  end.

Lemma tree_paths_app e : forall p q, tree_paths (p ++ q) e = (fun x => p ++ x) <$> tree_paths q e.
Proof.
  induction e as [n|n l IH] using dirent_forall; intros p q; cbn [tree_paths].
  - cbn. by rewrite app_assoc.
  - cbn zeta. rewrite <- !app_assoc. cbn [fmap list_fmap]. f_equal.
    induction IH as [|e l He _ IH]; cbn [flat_map]; [done|]. by rewrite fmap_app, He, IH.
Qed.

Lemma flat_map_tree_paths p l : flat_map (tree_paths p) l = (fun x => p ++ x) <$> flat_map (tree_paths []) l.
Proof.
  induction l as [|e l IH]; cbn [flat_map]; [done|]. rewrite fmap_app, IH. f_equal.
  by rewrite <- tree_paths_app, app_nil_r.
Qed.

Section DirectoryProofs.
Variables (pkg_path : str) (retain : bool).

(** What of the path goes into an entry. *)
Definition entry_of (path : str) : str := if retain then path else drop (length pkg_path + 1) path.

Lemma add_path_to_pc_spec path pc : well_formed pc -> length pkg_path + 1 <= length path ->
  exists pc', add_path_to_pc pkg_path retain path pc = Ok pc' /\ well_formed pc' /\
    forall e, e ∈ contents pc' <-> e ∈ contents pc \/ e = entry_of path.
Proof.
  intros W Hl. unfold add_path_to_pc, entry_of, SV.substr_from.
  rewrite (proj2 (Nat.ltb_ge (length path) (length pkg_path + 1))) by lia. cbn.
  destruct retain; (eexists; split; [reflexivity|]); edestruct add_entry_spec as [W' H]; [exact W| |exact W|];
    (split; [exact W'|]; intros e; rewrite H; tauto).
Qed.

Lemma visit_eq path n l pc : visit pkg_path retain path (SubDir n l) pc =
  (let path := path ++ n ++ lit "/" in
   pc ← (if length n + 1 <? length path then add_path_to_pc pkg_path retain path pc else Ok pc);
   visit_all pkg_path retain path l pc).
Proof.
  cbn [visit]. destruct (if length n + 1 <? _ then _ else _) as [pc1|e| |]; [|done..]. cbn [mbind outcome_bind].
  revert pc1. induction l as [|e l IH]; intros pc1; [done|]. cbn [visit_all].
  destruct (visit pkg_path retain _ e pc1); [|done..]. cbn [mbind outcome_bind]. apply IH.
Qed.

Definition visits pc (l : list str) (r : outcome PackageContents) : Prop :=
  exists pc', r = Ok pc' /\ well_formed pc' /\ forall e, e ∈ contents pc' <-> e ∈ contents pc \/ e ∈ entry_of <$> l.

Lemma visit_all_spec path l : length pkg_path + 1 <= length path ->
  Forall (fun e => forall path pc, well_formed pc -> length pkg_path + 1 <= length path ->
    visits pc (tree_paths path e) (visit pkg_path retain path e pc)) l ->
  forall pc, well_formed pc ->
  visits pc (flat_map (tree_paths path) l) (visit_all pkg_path retain path l pc).
Proof.
  intros Hp. induction 1 as [|e l He _ IH]; intros pc W; cbn [visit_all flat_map].
  - exists pc. split; [done|]. split; [done|]. set_solver.
  - destruct (He path pc W Hp) as (pc1 & -> & W1 & H1). cbn [mbind outcome_bind].
    destruct (IH pc1 W1) as (pc2 & E2 & W2 & H2). exists pc2. split; [done|]. split; [done|].
    intros x. rewrite H2, H1, fmap_app, elem_of_app. tauto.
Qed.

Lemma visit_spec e : forall path pc, well_formed pc -> length pkg_path + 1 <= length path ->
  visits pc (tree_paths path e) (visit pkg_path retain path e pc).
Proof.
  induction e as [n|n l IH] using dirent_forall; intros path pc W Hp.
  - cbn [visit tree_paths]. destruct (add_path_to_pc_spec (path ++ n) pc W) as (pc' & E & W' & H).
    { rewrite length_app. lia. }
    exists pc'. split; [done|]. split; [done|]. intros x. rewrite H. cbn. rewrite list_elem_of_singleton. done.
  - rewrite visit_eq. cbn zeta. assert (length n + 1 <? length (path ++ n ++ lit "/") = true) as ->.
    { apply Nat.ltb_lt. rewrite !length_app. cbn. lia. }
    destruct (add_path_to_pc_spec (path ++ n ++ lit "/") pc W) as (pc1 & -> & W1 & H1).
    { rewrite !length_app. lia. }
    cbn [mbind outcome_bind].
    destruct (visit_all_spec (path ++ n ++ lit "/") l) with (pc := pc1) as (pc2 & E2 & W2 & H2); [|done|done|].
    { rewrite !length_app. lia. }
    exists pc2. split; [done|]. split; [done|]. intros x. rewrite H2, H1. cbn [tree_paths]. cbn zeta.
    rewrite fmap_cons, elem_of_cons. tauto.
Qed.
End DirectoryProofs.

Lemma load_from_directory_spec pkg_path tree : pkg_path <> [] ->
  exists pc, load_from_directory pkg_path false tree empty_pc = Ok pc /\ well_formed pc /\
    forall e, e ∈ contents pc <-> e ∈ flat_map (tree_paths []) tree.
Proof.
  intros Hp. unfold load_from_directory. assert (SV.empty pkg_path = false) as -> by (by destruct pkg_path).
  cbn zeta. set (p := SV.remove_trailing_char "/" pkg_path). rewrite visit_eq. cbn zeta.
  assert (length p + 1 <? length ([] ++ p ++ lit "/") = false) as ->.
  { apply Nat.ltb_ge. cbn. rewrite length_app. cbn. lia. }
  cbn [mbind outcome_bind app]. destruct (visit_all_spec p false (p ++ lit "/") tree) with (pc := empty_pc)
    as (pc & E & W & H); [rewrite length_app; cbn; lia| |apply empty_pc_wf|].
  { apply Forall_forall. intros e _. apply visit_spec. }
  exists pc. split; [done|]. split; [done|]. intros e. rewrite H. change (contents empty_pc) with (@nil str).
  rewrite flat_map_tree_paths, <- list_fmap_compose.
  rewrite (list_fmap_ext _ id), list_fmap_id; [set_solver|]. intros i x _. unfold entry_of. cbn.
  rewrite <- app_assoc. cbn. rewrite drop_app, drop_ge by lia. by replace (length p + 1 - length p) with 1 by lia.
Qed.

(** ** Main theorems *)

(** The object stands for a set of paths. *)
Definition represents (pc : PackageContents) (X : gset str) : Prop :=
  well_formed pc /\ forall e, e ∈ contents pc <-> e ∈ X.

(** C19: [PackageContents], whose entries are spans of a growing buffer ordered by
    the text they denote, implements a set of paths: adding, removing, testing
    and removing by prefix are the operations on the set, and
    [for_each_with_prefix] calls back for exactly the paths with the prefix, in
    increasing order. *)
Theorem package_contents_refines_set pc X : represents pc X ->
  (forall s, represents (add_entry s pc) ({[s]} ∪ X)) /\
  (forall e, exists_ pc e = bool_decide (e ∈ X)) /\
  (forall e, represents (remove e pc).1 (X ∖ {[e]}) /\ (remove e pc).2 = bool_decide (e ∈ X)) /\
  (forall p, represents (remove_with_prefix p pc) (filter (fun x => ~ p `prefix_of` x) X)) /\
  (forall p, exists l, str_sorted l /\ (forall e, e ∈ l <-> e ∈ X /\ p `prefix_of` e) /\
     forall S (f : str -> stm S unit) s, for_each_with_prefix pc p f s = run_all f l s).
Proof.
  intros [W H]. split; [|split; [|split; [|split]]].
  - intros s. destruct (add_entry_spec s pc W) as [W' H']. split; [done|]. intros e.
    rewrite H', H, elem_of_union, elem_of_singleton. done.
  - intros e. rewrite exists_spec by done. by apply bool_decide_ext.
  - intros e. destruct (remove_spec e pc W) as (W' & E & ->). split; [split; [done|]|by apply bool_decide_ext].
    intros x. rewrite E, list_elem_of_filter, H, elem_of_difference, elem_of_singleton. tauto.
  - intros p. destruct (remove_with_prefix_spec p pc W) as [W' E]. split; [done|].
    intros x. rewrite E, list_elem_of_filter, H, elem_of_filter. tauto.
  - intros p. exists (filter (fun x => p `prefix_of` x) (contents pc)). split; [apply sorted_filter, W|]. split.
    + intros e. rewrite list_elem_of_filter, H. tauto.
    + intros S f s. by apply for_each_with_prefix_spec.
Qed.

Definition sample_pc : PackageContents :=
  add_entry (lit "a/b") (add_entry (lit "a/") (add_entry (lit "a/b") empty_pc)).

Lemma sample_pc_represents : represents sample_pc {[lit "a/b"; lit "a/"]}.
Proof.
  split; [repeat apply add_entry_spec; apply empty_pc_wf|]. intros e.
  change (contents sample_pc) with [lit "a/"; lit "a/b"]. set_solver.
Qed.

Lemma package_contents_refines_set_witness :
  exists_ sample_pc (lit "a/b") = bool_decide (lit "a/b" ∈ ({[lit "a/b"; lit "a/"]} : gset str)).
Proof. apply (package_contents_refines_set sample_pc _ sample_pc_represents). Defined.

(** [main_dir], which looks at the first and the last entry only, returns
    the directory that all of the entries are in, and the empty string exactly
    when there is no such directory. *)
Theorem main_dir_correct pc : well_formed pc -> is_main_dir (contents pc) (main_dir pc).
Proof. apply main_dir_spec. Qed.

Lemma main_dir_correct_witness : is_main_dir (contents sample_pc) (lit "a/").
Proof. change (lit "a/") with (main_dir sample_pc). apply (main_dir_correct sample_pc), sample_pc_represents. Defined.


(** [load_from_directory] collects exactly the paths below the directory,
    relative to it, directories with a trailing slash. *)
Theorem load_from_directory_correct pkg_path tree : pkg_path <> [] ->
  exists pc, load_from_directory pkg_path false tree empty_pc = Ok pc /\ well_formed pc /\
    forall e, e ∈ contents pc <-> e ∈ flat_map (tree_paths []) tree.
Proof. apply load_from_directory_spec. Qed.

Definition sample_tree : list dirent :=
  [OtherFile (lit "Simfile"); SubDir (lit "prog") [OtherFile (lit "abc.cpp")]].

Lemma load_from_directory_correct_witness :
  exists pc, load_from_directory (lit "/tmp/pkg/") false sample_tree empty_pc = Ok pc /\ well_formed pc /\
    forall e, e ∈ contents pc <-> e ∈ [lit "Simfile"; lit "prog/"; lit "prog/abc.cpp"].
Proof. apply (load_from_directory_correct (lit "/tmp/pkg/") sample_tree). discriminate. Defined.
