(* ===== verification/UrlDispatcher.v ===== *)
(** * The URL dispatcher

    Models [include/simlib/http/url_dispatcher.hh].  What the templates compute
    at compile time (the components of a URL pattern, its literal prefix and
    suffix) are functions here, with [None] for a failed [static_assert]; a
    pattern is a character array with an address. *)

From Stdlib Require Import ZArith Lia Ascii.
From S2P Require Import Prelude.
From S2P Require Import StringView.
From S2P Require Import Ctype.
From S2P Require Import StringTraits.
From S2P Require Import StringTransform.
From S2P Require Import StdMap.

Definition int8 : int_type := IntType true (-128) 127.
Definition int16 : int_type := IntType true (-32768) 32767.
Definition uint16 : int_type := IntType false 0 65535.

Definition SL : ascii := "/"%char.

Record url_pattern := mkPattern { address : Z; text : str }.

Section UrlDispatcher.
(** The values of custom parsers and the responses. *)
Context {X R : Type}.

(** What a handler is called with. *)
Inductive arg :=
| IntArg (z : Z)
| StrArg (s : str)
| CustomArg (x : X).

Inductive url_component :=
| LiteralComponent (idx len : nat) (data : str)
| VariableComponent (parser : str -> option arg).

(** ** Matching a URL *)

(** [url.substring(1, url.find('/', 1))] *)
Definition first_component (url : str) : outcome str :=
  match SV.find_char url SL 1 with
  | Some e => SV.substring url 1 e
  | None => SV.substr_from url 1
  end.

(** [first]: [component_idx == 0]. *)
Fixpoint try_parse (first : bool) (components : list url_component) (url : str) (parsed_args : list arg)
    : outcome (option (list arg)) :=
  match components with
  | [] => Ok (if SV.empty url then Some parsed_args else None)
  | expected :: components' =>
      if SV.empty url then Ok None
      else if first && negb (has_prefix url [SL]) then Ok None
      else if negb (has_prefix url [SL]) then UB
      else
        component ← first_component url;
        url ← SV.substr_from url (1 + length component);
        match expected with
        | LiteralComponent _ _ data =>
            if negb (SV.eqb component data) then Ok None
            else try_parse false components' url parsed_args
        | VariableComponent parser =>
            match parser component with
            | None => Ok None
            | Some x => try_parse false components' url (parsed_args ++ [x])
            end
        end
  end.

(** ** Patterns *)

Definition int_parser (T : int_type) (component : str) : option arg := IntArg <$> str2num T component.

Definition str_component_parser (component : str) : option arg := Some (StrArg component).

Definition variable_parsers : list (str * (str -> option arg)) :=
  [(lit "{i8}", int_parser int8); (lit "{u8}", int_parser uint8);
   (lit "{i16}", int_parser int16); (lit "{u16}", int_parser uint16);
   (lit "{i32}", int_parser int32); (lit "{u32}", int_parser uint32);
   (lit "{i64}", int_parser int64); (lit "{u64}", int_parser uint64);
   (lit "{string}", str_component_parser)].

Definition is_variable (component : str) : bool := has_prefix component (lit "{") && has_suffix component (lit "}").

(** The component at [url_idx] and the next [cp_idx]. *)
Definition parse_component (url_idx : nat) (component : str) (cp_idx : nat) (custom_parsers : list (str -> option X))
    : option (url_component * nat) :=
  if is_variable component then
    match list_find (fun x => x.1 = component) variable_parsers with
    | Some (_, (_, parser)) => Some (VariableComponent parser, cp_idx)
    | None =>
        if SV.eqb component (lit "{custom}") then
          (fun parser => (VariableComponent (fun c => CustomArg <$> parser c), S cp_idx)) <$> custom_parsers !! cp_idx
        else None
    end
  else Some (LiteralComponent (url_idx + 1) (length component) component, cp_idx).
Fixpoint parse_url (fuel : nat) (url : str) (url_idx : nat) (parsed : list url_component) (cp_idx : nat)
    (custom_parsers : list (str -> option X)) : option (list url_component) :=
  let suffix := drop url_idx url in
  if SV.empty suffix then if (cp_idx =? length custom_parsers) then Some parsed else None
  else if negb (has_prefix suffix [SL]) then None
  else
    match fuel, first_component suffix with
    | S fuel', Ok component =>
        next ← parse_component url_idx component cp_idx custom_parsers;
        parse_url fuel' url (url_idx + 1 + length component) (parsed ++ [next.1]) next.2 custom_parsers
    | _, _ => None
    end.

(** How long the literal prefix is. *)
Fixpoint literal_prefix_size (url : str) (components : list url_component) (res_size : nat) : option nat :=
  match components with
  | LiteralComponent idx n _ :: components' =>
      if negb (res_size =? idx) then None
      else literal_prefix_size url components' (idx + n + (if decide (url !! (idx + n) = Some SL) then 1 else 0))
  | _ => Some res_size
  end.

Definition get_literal_prefix (url : str) (components : list url_component) : option str :=
  (fun n => take n url) <$> literal_prefix_size url components 1.

(** Where the literal suffix begins; the components from the last to the first. *)
Fixpoint literal_suffix_begin (url : str) (components : list url_component) (res_beg : nat) : option nat :=
  match components with
  | LiteralComponent idx n _ :: components' =>
      if negb (res_beg =? idx + n) then None
      else literal_suffix_begin url components' (idx - (if decide (url !! (idx - 1) = Some SL) then 1 else 0))
  | _ => Some res_beg
  end.

Definition get_literal_suffix (url : str) (components : list url_component) : option str :=
  (fun n => drop n url) <$> literal_suffix_begin url (rev components) (length url).

Record parsed_url := mkParsedUrl {
  pattern : url_pattern;
  components : list url_component;
  literal_prefix : str;
  literal_suffix : str
}.

(** [UrlParser<url, CustomParsers...>] *)
Definition url_parser (p : url_pattern) (custom_parsers : list (str -> option X)) : option parsed_url :=
  if negb (has_prefix (text p) [SL]) then None
  else
    components ← parse_url (length (text p)) (text p) 0 [] 0 custom_parsers;
    prefix ← get_literal_prefix (text p) components;
    suffix ← get_literal_suffix (text p) components;
    Some (mkParsedUrl p components prefix suffix).

(** ** The table of handlers *)

Definition reverse_less (a b : str) : bool := SV.ltb (rev a) (rev b).

Definition handlers_vec : Type := list (url_pattern * (str -> outcome (option R))).
Definition suffix_map : Type := list (str * handlers_vec).
Definition prefix_map : Type := list (str * suffix_map).

(** [handlers_] *)
Definition dispatcher : Type := list (nat * prefix_map).

Definition count_slash (s : str) : nat := length (filter (fun c => c = SL) s).

(** The lambda that [add_handler] stores. *)
Definition stored_handler (up : parsed_url) (handler : list arg -> outcome R) (url : str) : outcome (option R) :=
  args ← try_parse true (components up) url [];
  match args with
  | None => Ok None
  | Some args => r ← handler args; Ok (Some r)
  end.

Definition add_handler (up : parsed_url) (handler : list arg -> outcome R) (ud : dispatcher) : dispatcher :=
  map_update Nat.ltb (count_slash (text (pattern up))) []
    (map_update SV.ltb (literal_prefix up) []
      (map_update reverse_less (literal_suffix up) []
        (fun v => v ++ [(pattern up, stored_handler up handler)]))) ud.

(** The elements before [upper_bound(key)], from the last to the first. *)
Definition back_from {V} (less : str -> str -> bool) (key : str) (m : list (str * V)) : list (str * V) :=
  rev (take_while (fun e => negb (less key e.1)) m).

Fixpoint try_handlers (hs : handlers_vec) (url : str) : outcome (option R) :=
  match hs with
  | [] => Ok None
  | (_, handler) :: hs' =>
      r ← handler url;
      if r is Some x then Ok (Some x) else try_handlers hs' url
  end.

Fixpoint try_suffixes (l : suffix_map) (url : str) : outcome (option R) :=
  match l with
  | [] => Ok None
  | (suffix, hs) :: l' =>
      if has_suffix url suffix then
        r ← try_handlers hs url;
        if r is Some x then Ok (Some x) else try_suffixes l' url
      else Ok None
  end.

Fixpoint try_prefixes (l : prefix_map) (url : str) : outcome (option R) :=
  match l with
  | [] => Ok None
  | (prefix, sm) :: l' =>
      if has_prefix url prefix then
        r ← try_suffixes (back_from reverse_less url sm) url;
        if r is Some x then Ok (Some x) else try_prefixes l' url
      else Ok None
  end.

Definition dispatch (ud : dispatcher) (url : str) : outcome (option R) :=
  match map_find Nat.ltb (count_slash url) ud with
  | None => Ok None
  | Some pm => try_prefixes (back_from SV.ltb url pm) url
  end.

(** ** Collisions *)

(** What [foreach_handler] calls back with. *)
Definition all_patterns (pm : prefix_map) : list (str * str * url_pattern) :=
  pm ≫= (fun p => p.2 ≫= (fun s => (fun h => (p.1, s.1, h.1)) <$> s.2)).

Definition unordered_has_prefix (a b : str) : bool := has_prefix a b || has_prefix b a.
Definition unordered_has_suffix (a b : str) : bool := has_suffix a b || has_suffix b a.

Definition collides (a b : str * str * url_pattern) : bool :=
  (address a.2 <? address b.2)%Z && unordered_has_prefix a.1.1 b.1.1 && unordered_has_suffix a.1.2 b.1.2.

Fixpoint collisions_of (all l : list (str * str * url_pattern)) (prev_url_a : option str) : list (url_pattern * url_pattern) :=
  match l with
  | [] => []
  | a :: l' =>
      (if decide (prev_url_a = Some (text a.2)) then [(a.2, a.2)] else []) ++
      ((fun b => (a.2, b.2)) <$> filter (fun b => collides a b = true) all) ++
      collisions_of all l' (Some (text a.2))
  end.

Definition all_potential_collisions (ud : dispatcher) : list (url_pattern * url_pattern) :=
  ud ≫= (fun e => let l := all_patterns e.2 in collisions_of l l None).
End UrlDispatcher.

(** ** Quoted strings in HTTP headers *)

Definition BACKSLASH : ascii := "\"%char.
Definition QUOTATION : ascii := ascii_of_nat 34.

(** [http::quote] of [response.cc] *)
Definition quote (s : str) : str :=
  [QUOTATION] ++
  concat ((fun c => if is_print c && negb (c =c QUOTATION) then [c] else [BACKSLASH; c]) <$> s) ++
  [QUOTATION].
