(* ===== verification/UrlDispatcherProofs.v ===== *)
(** * The URL dispatcher finds the handler

    The walk over the ordered maps of prefixes and suffixes against the plain
    search through all handlers in the order they were added. *)

From Stdlib Require Import ZArith Lia Ascii Sorted.
From stdpp Require Import sorting.
From S2P Require Import Prelude.
From S2P Require Import StringView.
From S2P Require Import StringTraits.
From S2P Require Import StringTransform.
From S2P Require Import StdMap.
From S2P Require Import Package.
From S2P Require Import UrlDispatcher.

(** ** URLs as lists of components *)

Definition join (cs : list str) : str := concat (cons SL <$> cs).
#[local] Arguments join _ : simpl never.

Definition no_slash (c : str) : Prop := ~ (SL ∈ c).

Lemma join_cons c cs : join (c :: cs) = SL :: c ++ join cs.
Proof. reflexivity. Qed.

Lemma join_app cs cs' : join (cs ++ cs') = join cs ++ join cs'.
Proof. unfold join. by rewrite fmap_app, concat_app. Qed.

Lemma url_join_head cs : join cs = [] \/ exists s, join cs = SL :: s.
Proof. destruct cs as [|c cs]; [by left|]. right. by eexists. Qed.

(** Every URL that begins with a slash is a list of components. *)
Lemma split_url s : exists c cs, no_slash c /\ Forall no_slash cs /\ s = c ++ join cs.
Proof.
  induction s as [|x s (c & cs & Hc & Hcs & ->)].
  - exists [], []. split_and!; [by apply not_elem_of_nil|done|done].
  - destruct (decide (x = SL)) as [->|Hx].
    + exists [], (c :: cs). split_and!; [by apply not_elem_of_nil|by constructor|done].
    + exists (x :: c), cs. split_and!; [|done|done]. unfold no_slash. rewrite not_elem_of_cons. auto.
Qed.

Lemma count_slash_app a b : count_slash (a ++ b) = (count_slash a + count_slash b)%nat.
Proof. unfold count_slash. by rewrite filter_app, length_app. Qed.

Lemma count_no_slash c : no_slash c -> count_slash c = 0%nat.
Proof.
  unfold no_slash, count_slash. induction c as [|x c IH]; intros H; [done|]. rewrite not_elem_of_cons in H. destruct H as [Hx Hc].
  rewrite filter_cons, decide_False by congruence. auto.
Qed.

Lemma count_join cs : Forall no_slash cs -> count_slash (join cs) = length cs.
Proof.
  induction 1 as [|c cs Hc _ IH]; [done|]. rewrite join_cons. change (SL :: c ++ join cs) with ([SL] ++ c ++ join cs).
  rewrite !count_slash_app, (count_no_slash c Hc), IH. done.
Qed.

Lemma component_no_slash c i : no_slash c -> c !! i <> Some SL.
Proof. intros Hc H. apply Hc. by eapply list_elem_of_lookup_2. Qed.

Lemma first_component_join c cs : no_slash c -> first_component (join (c :: cs)) = Ok c.
Proof.
  intros Hc. unfold first_component. rewrite join_cons. set (s := SL :: c ++ join cs).
  assert (forall i, (1 <= i < 1 + length c)%nat -> s !! i <> Some SL) as Hin.
  { intros [|i] Hi; [lia|]. change (s !! S i) with ((c ++ join cs) !! i). rewrite lookup_app_l by lia. by apply component_no_slash. }
  assert (forall r, join cs = SL :: r -> s !! (1 + length c)%nat = Some SL) as Hnext.
  { intros r E. change (s !! (1 + length c)%nat) with ((c ++ join cs) !! length c). rewrite E. by apply list_lookup_middle. }
  pose proof (SV.find_char_spec s SL 1) as Hf. destruct (SV.find_char s SL 1) as [e|].
  - destruct Hf as (He & Hsl & Hbefore). assert (e = 1 + length c)%nat as ->.
    { destruct (lt_eq_lt_dec e (1 + length c)) as [[Hlt| ->]|Hgt]; [by destruct (Hin e); [lia|]|done|].
      destruct (url_join_head cs) as [E|[r E]].
      - unfold s in He. rewrite E, app_nil_r in He. cbn in He. lia.
      - destruct (Hbefore (1 + length c)%nat); [lia|]. by apply (Hnext r). }
    unfold SV.substring. rewrite (proj2 (Nat.ltb_ge _ _)) by lia. rewrite (proj2 (Nat.ltb_ge (length s) 1)) by lia. cbn [orb].
    f_equal. unfold s. cbn [drop]. replace (length (SL :: c ++ join cs) `min` (1 + length c) - 1)%nat with (length c).
    + apply take_app_length.
    + cbn [length]. rewrite length_app. lia.
  - destruct (url_join_head cs) as [E|[r E]].
    + unfold SV.substr_from, s. rewrite E, app_nil_r. cbn [length]. by rewrite (proj2 (Nat.ltb_ge _ _)) by lia.
    + destruct (Hf (1 + length c)%nat); [lia|]. by apply (Hnext r).
Qed.

(** ** Matching *)

Section Dispatcher.
Context {X R : Type}.
Abbreviation component := (url_component (X := X)).
Abbreviation argument := (arg (X := X)).

(** A URL matches when its components do, one by one. *)
Fixpoint match_all (comps : list component) (us : list str) : option (list argument) :=
  match comps, us with
  | [], [] => Some []
  | LiteralComponent _ _ data :: comps', u :: us' => if decide (u = data) then match_all comps' us' else None
  | VariableComponent parser :: comps', u :: us' => x ← parser u; xs ← match_all comps' us'; Some (x :: xs)
  | _, _ => None
  end.

Lemma has_prefix_slash s : has_prefix (SL :: s) [SL] = true.
Proof. apply has_prefix_spec. by exists s. Qed.

Lemma try_parse_join comps : forall first us args, Forall no_slash us ->
  try_parse first comps (join us) args = Ok ((fun xs => args ++ xs) <$> match_all comps us).
Proof.
  induction comps as [|e comps IH]; intros first us args Hus.
  - destruct us as [|u us]; cbn; [by rewrite app_nil_r|done].
  - destruct Hus as [|u us Hu Hus]; [by destruct e|].
    cbn [try_parse]. assert (SV.empty (join (u :: us)) = false) as -> by done.
    assert (has_prefix (join (u :: us)) [SL] = true) as -> by apply has_prefix_slash. cbn [negb]. rewrite andb_false_r.
    rewrite (first_component_join u us Hu). cbn [mbind outcome_bind].
    assert (SV.substr_from (join (u :: us)) (1 + length u) = Ok (join us)) as ->.
    { unfold SV.substr_from. rewrite join_cons. cbn [length]. rewrite length_app, (proj2 (Nat.ltb_ge _ _)) by lia.
      cbn [drop plus]. by rewrite drop_app_length. }
    cbn [mbind outcome_bind match_all]. destruct e as [i n data|parser].
    + rewrite SV.eqb_decide. destruct (decide (u = data)) as [->|Hne].
      * rewrite bool_decide_true by done. by apply IH.
      * by rewrite bool_decide_false.
    + destruct (parser u) as [x|]; [|done]. rewrite IH by done. cbn. destruct (match_all comps us); cbn; [|done].
      by rewrite <- app_assoc.
Qed.

(** A URL that does not begin with a slash matches nothing. *)
Lemma try_parse_other (comps : list component) s args : comps <> [] -> (forall r, s <> SL :: r) -> try_parse true comps s args = Ok None.
Proof.
  destruct comps as [|e comps]; [done|]. intros _ Hs. cbn [try_parse]. destruct s as [|x s]; [done|].
  cbn [SV.empty length Nat.eqb]. destruct (has_prefix (x :: s) [SL]) eqn:E; [|done].
  apply has_prefix_spec in E as [k [= -> ->]]. by destruct (Hs k).
Qed.
(** ** Patterns *)

(** The components of a pattern whose texts are [ts], from position [i] on. *)
Inductive parsed_at : nat -> list component -> list str -> Prop :=
| parsed_nil i : parsed_at i [] []
| parsed_literal i t comps ts : parsed_at (i + 1 + length t) comps ts ->
    parsed_at i (LiteralComponent (i + 1) (length t) t :: comps) (t :: ts)
| parsed_variable i t parser comps ts : parsed_at (i + 1 + length t) comps ts ->
    parsed_at i (VariableComponent parser :: comps) (t :: ts).

Lemma parsed_at_snoc i comps ts t e : parsed_at i comps ts ->
  e = LiteralComponent (i + length (join ts) + 1) (length t) t \/ (exists parser, e = VariableComponent parser) ->
  parsed_at i (comps ++ [e]) (ts ++ [t]).
Proof.
  intros H He. induction H as [i|i t' comps ts H IH|i t' parser comps ts H IH]; cbn.
  - cbn in He. rewrite Nat.add_0_r in He. destruct He as [->|[parser ->]]; repeat constructor.
  - constructor. apply IH. rewrite join_cons in He. cbn [length] in He. rewrite length_app in He.
    replace (i + 1 + length t' + length (join ts) + 1)%nat with (i + S (length t' + length (join ts)) + 1)%nat by lia. done.
  - constructor. apply IH. rewrite join_cons in He. cbn [length] in He. rewrite length_app in He.
    replace (i + 1 + length t' + length (join ts) + 1)%nat with (i + S (length t' + length (join ts)) + 1)%nat by lia. done.
Qed.

Lemma parsed_at_app i comps ts e comps' : parsed_at i (comps ++ e :: comps') ts ->
  exists ts1 t ts2, ts = ts1 ++ t :: ts2 /\ parsed_at i comps ts1 /\ parsed_at (i + length (join ts1)) (e :: comps') (t :: ts2).
Proof.
  revert i ts. induction comps as [|x comps IH]; intros i ts H.
  - inversion H; subst; exists [], t, ts0; cbn; rewrite Nat.add_0_r; split_and!; (done || constructor).
  - inversion H; subst; destruct (IH _ _ ltac:(eassumption)) as (ts1 & t' & ts2 & -> & H1 & H2);
      exists (t :: ts1), t', ts2; (split_and!; [done|by constructor|]);
      rewrite join_cons; cbn [length]; rewrite length_app;
      replace (i + S (length t + length (join ts1)))%nat with (i + 1 + length t + length (join ts1))%nat by lia; done.
Qed.

Lemma parse_component_shape i t cp cps e cp' : parse_component (X := X) i t cp cps = Some (e, cp') ->
  e = LiteralComponent (i + 1) (length t) t \/ exists parser, e = VariableComponent parser.
Proof.
  unfold parse_component. destruct (is_variable t); [|intros [= <- _]; by left].
  destruct (list_find _ _) as [[? [? parser]]|]; [intros [= <- _]; right; by eexists|].
  destruct (SV.eqb _ _); [|done]. destruct (cps !! cp); [|done]. intros [= <- _]. right. by eexists.
Qed.

Lemma parse_url_spec cps : forall fuel pre ts comps cp, Forall no_slash ts ->
  forall s res, pre = join ts -> parsed_at 0 comps ts ->
  parse_url (X := X) fuel (pre ++ s) (length pre) comps cp cps = Some res ->
  exists ts', Forall no_slash ts' /\ pre ++ s = join ts' /\ parsed_at 0 res ts'.
Proof.
  induction fuel as [|fuel IH]; intros pre ts comps cp Hts s res Hpre Hp; cbn [parse_url]; rewrite drop_app_length.
  - destruct s as [|x s]; cbn [SV.empty length Nat.eqb].
    + destruct (_ =? _); [|done]. intros [= <-]. exists ts. by rewrite app_nil_r.
    + destruct (has_prefix _ _); done.
  - destruct s as [|x s]; cbn [SV.empty length Nat.eqb].
    + destruct (_ =? _); [|done]. intros [= <-]. exists ts. by rewrite app_nil_r.
    + destruct (has_prefix (x :: s) [SL]) eqn:E; cbn [negb]; [|done]. apply has_prefix_spec in E as [k [= -> ->]].
      destruct (split_url k) as (c & cs & Hc & Hcs & ->). change (SL :: c ++ join cs) with (join (c :: cs)).
      rewrite (first_component_join c cs Hc). destruct (parse_component _ _ _ _) as [[e cp']|] eqn:Hpc; [|done]. cbn.
      intros Hres. apply parse_component_shape in Hpc.
      assert (length pre + 1 + length c = length (pre ++ SL :: c))%nat as Hl by (rewrite length_app; cbn; lia).
      rewrite Hl in Hres.
      replace (pre ++ join (c :: cs)) with ((pre ++ SL :: c) ++ join cs) in * by (rewrite join_cons, <- app_assoc; done).
      eapply (IH (pre ++ SL :: c) (ts ++ [c])); [..|exact Hres].
      * apply Forall_app. by repeat constructor.
      * rewrite join_app, join_cons, Hpre. by rewrite app_nil_r.
      * apply parsed_at_snoc; [done|]. by rewrite <- Hpre.
Qed.

Lemma match_all_length comps : forall us xs, match_all comps us = Some xs -> length us = length comps.
Proof.
  induction comps as [|e comps IH]; intros [|u us] xs H; cbn in H; try done; [by destruct e|]. cbn. f_equal.
  destruct e as [i n data|parser].
  - destruct (decide (u = data)); [|done]. by eapply IH.
  - destruct (parser u); [|done]. cbn in H. destruct (match_all comps us) eqn:E; [|done]. by eapply IH.
Qed.

Lemma match_all_app comps comps' us us' xs : length us = length comps -> match_all (comps ++ comps') (us ++ us') = Some xs ->
  exists xs1 xs2, match_all comps us = Some xs1 /\ match_all comps' us' = Some xs2.
Proof.
  revert us xs. induction comps as [|e comps IH]; intros us xs Hl H; destruct us as [|u us]; try done; [by exists [], xs|].
  cbn in H, Hl. injection Hl as Hl. cbn [match_all]. destruct e as [i n data|parser].
  - destruct (decide (u = data)); [|done]. by eapply IH.
  - destruct (parser u) as [x|]; [|done]. cbn in H. destruct (match_all (comps ++ comps') (us ++ us')) as [ys|] eqn:E; [|done].
    destruct (IH us ys Hl E) as (xs1 & xs2 & -> & H2). cbn. eauto.
Qed.

Lemma literal_prefix_matches comps : forall pre ts us xs n, parsed_at (length pre) comps ts -> ts <> [] ->
  match_all comps us = Some xs -> literal_prefix_size (pre ++ join ts) comps (length pre + 1) = Some n ->
  take n (pre ++ join ts) `prefix_of` pre ++ join us.
Proof.
  induction comps as [|e comps IH]; intros pre ts us xs n Hp Hts Hm Hn; inversion Hp as [|i t cs ts' Hp'|i t parser cs ts' Hp']; subst; [done|..].
  - destruct us as [|u us]; [done|]. cbn [match_all] in Hm. destruct (decide (u = t)) as [->|]; [|done].
    cbn [literal_prefix_size] in Hn. rewrite Nat.eqb_refl in Hn. cbn [negb] in Hn.
    replace (length pre + 1 + length t)%nat with (length (pre ++ SL :: t)) in Hn, Hp' by (rewrite length_app; cbn; lia).
    rewrite !join_cons in *. replace (pre ++ SL :: t ++ join ts') with ((pre ++ SL :: t) ++ join ts') in * by (by rewrite <- app_assoc).
    replace (pre ++ SL :: t ++ join us) with ((pre ++ SL :: t) ++ join us) by (by rewrite <- app_assoc).
    destruct ts' as [|t2 ts'].
    + inversion Hp'; subst. apply match_all_length in Hm. destruct us; [|done]. rewrite prefix_take. done.
    + rewrite decide_True in Hn by (by apply list_lookup_middle). eapply IH; done.
  - destruct us as [|u us]; [done|]. cbn in Hn. injection Hn as <-. rewrite !join_cons.
    exists (u ++ join us). change (SL :: u ++ join us) with ([SL] ++ u ++ join us).
    change (SL :: t ++ join ts') with ([SL] ++ t ++ join ts'). rewrite (app_assoc pre), (app_assoc pre [SL] (t ++ _)).
    rewrite take_app_length'; [done|]. by rewrite length_app.
Qed.

Lemma literal_suffix_matches comps : forall suf ts us xs n, parsed_at 0 comps ts -> match_all comps us = Some xs ->
  literal_suffix_begin (join ts ++ suf) (rev comps) (length (join ts)) = Some n ->
  drop n (join ts ++ suf) `suffix_of` join us ++ suf.
Proof.
  induction comps as [|e comps IH] using rev_ind; intros suf ts us xs n Hp Hm Hn.
  - inversion Hp; subst. cbn in Hn. injection Hn as <-. rewrite drop_0. by apply suffix_app_r.
  - destruct (parsed_at_app _ _ _ _ _ Hp) as (ts1 & t & ts2 & -> & Hp1 & Hp2). rewrite rev_app_distr in Hn. cbn [rev app] in Hn.
    assert (ts2 = []) as -> by (by inversion Hp2 as [|? ? ? ? H|? ? ? ? ? H]; inversion H).
    assert (exists us1 u, us = us1 ++ [u] /\ length us1 = length comps) as (us1 & u & -> & Hl).
    { apply match_all_length in Hm. rewrite length_app in Hm. cbn in Hm. destruct us as [|u us _] using rev_ind; [cbn in Hm; lia|].
      exists us, u. rewrite length_app in Hm. cbn in Hm. split; [done|lia]. }
    destruct (match_all_app comps [e] us1 [u] xs Hl Hm) as (xs1 & xs2 & Hm1 & Hm2).
    rewrite !join_app in *. rewrite !join_cons in *. change (join []) with (@nil ascii) in *. rewrite !app_nil_r in *.
    inversion Hp2 as [|? ? ? ? _|? ? ? ? ? _]; subst.
    + cbn [match_all] in Hm2. destruct (decide (u = t)) as [->|]; [|done]. cbn [literal_suffix_begin] in Hn.
      destruct (negb _); [done|]. rewrite <- !app_assoc in *. cbn [app plus] in *.
      rewrite decide_True in Hn by (apply list_lookup_middle; lia). rewrite Nat.add_sub in Hn. by eapply IH.
    + cbn in Hn. injection Hn as <-. rewrite drop_app_length. by apply suffix_app_r.
Qed.

(** A pattern that matches a URL has as many slashes, and its literal prefix and
    suffix are those of the URL. *)
Lemma url_parser_inv p cps up : url_parser (X := X) p cps = Some up ->
  pattern up = p /\ exists ts, Forall no_slash ts /\ ts <> [] /\ text p = join ts /\ parsed_at 0 (components up) ts /\
    get_literal_prefix (text p) (components up) = Some (literal_prefix up) /\
    get_literal_suffix (text p) (components up) = Some (literal_suffix up).
Proof.
  unfold url_parser. destruct (has_prefix (text p) [SL]) eqn:Hsl; cbn [negb]; [|done].
  apply has_prefix_spec in Hsl as [k Hk].
  destruct (parse_url _ _ _ _ _ _) as [comps|] eqn:Hpu; [|done]. cbn.
  destruct (get_literal_prefix _ _) as [pr|] eqn:Hpr; [|done]. cbn. destruct (get_literal_suffix _ _) as [su|] eqn:Hsu; [|done].
  cbn. intros [= <-]. split; [done|]. destruct (parse_url_spec cps _ [] [] [] 0 ltac:(constructor) (text p) comps eq_refl ltac:(constructor) Hpu)
    as (ts & Hts & Ht & Hp). cbn in Ht. exists ts. split_and!; try done. intros ->. by rewrite Hk in Ht.
Qed.

Lemma match_keys p cps up url args : url_parser (X := X) p cps = Some up ->
  try_parse true (components up) url [] = Ok (Some args) ->
  count_slash url = count_slash (text p) /\ literal_prefix up `prefix_of` url /\ literal_suffix up `suffix_of` url.
Proof.
  intros Hup Hm. destruct (url_parser_inv p cps up Hup) as (_ & ts & Hts & Hne & Ht & Hp & Hpr & Hsu).
  destruct url as [|x url]; [rewrite try_parse_other in Hm; [done| |done]; by inversion Hp; subst|].
  destruct (decide (x = SL)) as [->|Hx].
  2: { rewrite try_parse_other in Hm; [done| |congruence]. by inversion Hp; subst. }
  destruct (split_url url) as (c & cs & Hc & Hcs & ->). change (SL :: c ++ join cs) with (join (c :: cs)) in *.
  rewrite try_parse_join in Hm by (by constructor). destruct (match_all (components up) (c :: cs)) as [xs|] eqn:Hma; [|done].
  split_and!.
  - rewrite Ht, !count_join by (done || by constructor). rewrite (match_all_length _ _ _ Hma). clear -Hp. by induction Hp; cbn; f_equal.
  - unfold get_literal_prefix in Hpr. destruct (literal_prefix_size _ _ _) as [n|] eqn:Hn; [|done]. injection Hpr as <-.
    rewrite Ht in *. by apply (literal_prefix_matches (components up) [] ts (c :: cs) xs n).
  - unfold get_literal_suffix in Hsu. destruct (literal_suffix_begin _ _ _) as [n|] eqn:Hn; [|done]. injection Hsu as <-.
    rewrite Ht in *. pose proof (literal_suffix_matches (components up) [] ts (c :: cs) xs n Hp Hma) as H. rewrite !app_nil_r in H. auto.
Qed.

Lemma try_parse_total p cps up url : url_parser (X := X) p cps = Some up -> exists o, try_parse true (components up) url [] = Ok o.
Proof.
  intros Hup. destruct (url_parser_inv p cps up Hup) as (_ & ts & _ & Hne & _ & Hp & _).
  assert (components up <> []) as Hc by (by inversion Hp; subst).
  destruct url as [|x url]; [exists None; by apply try_parse_other|]. destruct (decide (x = SL)) as [->|Hx].
  - destruct (split_url url) as (c & cs & Hc' & Hcs & ->). change (SL :: c ++ join cs) with (join (c :: cs)).
    rewrite try_parse_join by (by constructor). eauto.
  - exists None. apply try_parse_other; congruence.
Qed.
End Dispatcher.

Lemma filter_ext_in {A} (P Q : A -> Prop) `{!forall x, Decision (P x), !forall x, Decision (Q x)} (l : list A) :
  (forall x, x ∈ l -> (P x <-> Q x)) -> filter P l = filter Q l.
Proof.
  induction l as [|x l IH]; intros Hx; [done|]. rewrite !filter_cons, IH by (intros; apply Hx; by right).
  destruct (Hx x ltac:(by left)). by destruct (decide (P x)), (decide (Q x)); auto; exfalso; auto.
Qed.

(** ** Grouping in ordered maps *)

Section Groups.
Context {K V E : Type} `{!EqDecision K} (less : K -> K -> bool) `{!StrictWeakOrder any less}.
Context (less_total : forall a b, less a b = false -> less b a = false -> a = b).
Context (key : E -> K) (dflt : V) (f : E -> V -> V).

(** What many [m[key(e)] = f(e, m[key(e)])] make. *)
Definition group (l : list E) : list (K * V) := fold_left (fun m e => map_update less (key e) dflt (f e) m) l [].

Lemma group_sorted l : map_sorted less (group l).
Proof.
  induction l as [|e l IH] using rev_ind; [constructor|]. unfold group. rewrite fold_left_app. by apply map_update_sorted.
Qed.

Lemma equiv_eq a b : equiv less a b = bool_decide (a = b).
Proof.
  unfold equiv. destruct (decide (a = b)) as [->|Hne].
  - rewrite bool_decide_true by done. by rewrite (less_irrefl less b).
  - rewrite bool_decide_false by done. destruct (less a b) eqn:E1; [done|]. destruct (less b a) eqn:E2; [done|]. by destruct Hne; apply less_total.
Qed.

Lemma group_find l k : map_find less k (group l) =
  let l' := filter (fun e => key e = k) l in
  if decide (l' = []) then None else Some (fold_left (fun v e => f e v) l' dflt).
Proof.
  induction l as [|e l IH] using rev_ind; [done|]. unfold group. rewrite fold_left_app. cbn [fold_left]. fold (group l).
  rewrite (map_find_update less), equiv_eq by (apply _ || apply group_sorted). rewrite filter_app. cbv zeta. destruct (decide (key e = k)) as [<-|Hne].
  - rewrite bool_decide_true by done. rewrite (filter_cons_True _ e []) by done. rewrite decide_False by (by destruct (filter _ l)).
    rewrite fold_left_app. cbn. f_equal. f_equal. rewrite IH. cbv zeta.
    destruct (decide _) as [E0|]; [by rewrite E0|done].
  - rewrite bool_decide_false by done. rewrite (filter_cons_False _ e []) by done. by rewrite app_nil_r.
Qed.

Lemma group_elem l k v : (k, v) ∈ group l -> v = fold_left (fun v e => f e v) (filter (fun e => key e = k) l) dflt /\ exists e, e ∈ l /\ key e = k.
Proof.
  intros H. apply (map_find_sorted less) in H; [|apply group_sorted]. rewrite group_find in H. cbv zeta in H.
  destruct (decide _) as [|Hne]; [done|]. injection H as <-. split; [done|].
  destruct (filter _ l) as [|e l'] eqn:E0; [done|]. exists e.
  assert (e ∈ filter (fun e => key e = k) l) as He by (rewrite E0; by left). by apply list_elem_of_filter in He as [? ?].
Qed.
End Groups.

#[export] Instance sv_ltb_swo : StrictWeakOrder any SV.ltb.
Proof.
  constructor.
  - intros a _. apply SV.ltb_irrefl.
  - intros a b c _ _ _. apply SV.ltb_trans.
  - intros a b c _ _ _ H1 H2. destruct (SV.ltb a c) eqn:E; [|done].
    destruct (SV.ltb b a) eqn:E1; [rewrite (SV.ltb_trans b a c E1 E) in H2; done|].
    rewrite (SV.ltb_total a b H1 E1) in E. congruence.
Qed.

#[export] Instance reverse_less_swo : StrictWeakOrder any reverse_less.
Proof. exact (swo_map any (@rev ascii) SV.ltb _). Qed.

#[export] Instance nat_ltb_swo : StrictWeakOrder any Nat.ltb.
Proof.
  constructor.
  - intros a _. apply Nat.ltb_irrefl.
  - intros a b c _ _ _. rewrite !Nat.ltb_lt. lia.
  - intros a b c _ _ _. rewrite !Nat.ltb_ge. lia.
Qed.

Lemma nat_ltb_total a b : (a <? b)%nat = false -> (b <? a)%nat = false -> a = b.
Proof. rewrite !Nat.ltb_ge. lia. Qed.

Lemma reverse_less_total a b : reverse_less a b = false -> reverse_less b a = false -> a = b.
Proof. intros H1 H2. apply rev_inj. by apply SV.ltb_total. Qed.

(** ** The walk back from the upper bound *)

Section Walk.
Context {R V : Type} (less : str -> str -> bool) `{!StrictWeakOrder any less}.
Context (test : str -> bool) (body : V -> outcome (option R)).

Fixpoint walk (l : list (str * V)) : outcome (option R) :=
  match l with
  | [] => Ok None
  | (k, v) :: l' => if test k then r ← body v; if r is Some x then Ok (Some x) else walk l' else Ok None
  end.

Lemma take_while_all {A} (g : A -> bool) l1 l2 : Forall (fun x => g x = true) l1 -> take_while g (l1 ++ l2) = l1 ++ take_while g l2.
Proof. induction 1 as [|x l1 Hx _ IH]; [done|]. cbn. by rewrite Hx, IH. Qed.

Lemma walk_none l : (forall k, k ∈ l.*1 -> test k = false) -> walk l = Ok None.
Proof. destruct l as [|[k v] l]; [done|]. intros H. cbn [walk]. rewrite H; [done|]. by left. Qed.

(** One key passes the test, and no key between it and the bound. *)
Lemma walk_one url m k v : map_sorted less m -> (k, v) ∈ m -> test k = true -> less url k = false ->
  (forall k', k' ∈ m.*1 -> test k' = true -> k' = k) ->
  (forall k', k' ∈ m.*1 -> less k k' = true -> less url k' = true) ->
  walk (back_from less url m) = body v.
Proof.
  intros Hs Hin Ht Hk Huniq Hup. apply list_elem_of_split in Hin as (m1 & m2 & ->). unfold map_sorted in Hs. rewrite fmap_app in Hs.
  cbn [fmap list_fmap fst] in Hs.
  assert (forall k', k' ∈ m1.*1 -> less k' k = true) as Hbefore.
  { intros k' Hk'. apply (StronglySorted_app_1_elem_of (fun a b => less a b = true) m1.*1 (k :: m2.*1)); [done|done|by left]. }
  assert (less k k = false) as Hirr by (by apply (less_irrefl less)).
  assert (back_from less url (m1 ++ (k, v) :: m2) = (k, v) :: rev m1) as ->.
  { unfold back_from. rewrite take_while_all.
    - cbn [take_while fst]. rewrite Hk. cbn [negb]. destruct m2 as [|[k2 v2] m2]; cbn [take_while fst].
      + rewrite rev_app_distr. done.
      + rewrite Hup; [cbn; by rewrite rev_app_distr| |].
        * rewrite fmap_app, elem_of_app. right. right. by left.
        * apply StronglySorted_app_1_r, StronglySorted_inv in Hs as [_ Hs]. by inversion Hs.
    - apply Forall_forall. intros [k' v'] Hx. cbn. destruct (less url k') eqn:E; [|done].
      rewrite (less_trans less url k' k E) in Hk; [done|]. apply Hbefore. apply list_elem_of_fmap. by exists (k', v'). }
  cbn [walk]. rewrite Ht. destruct (body v) as [[x|]|e| |]; try done. cbn. apply walk_none. intros k' Hk'.
  assert (k' ∈ m1.*1) as Hk1.
  { apply list_elem_of_fmap in Hk' as (y & -> & Hy). apply list_elem_of_fmap. exists y. split; [done|].
    apply list_elem_of_In. apply list_elem_of_In in Hy. by apply in_rev. }
  destruct (test k') eqn:E; [|done]. rewrite (Huniq k') in Hk1.
  - apply Hbefore in Hk1. congruence.
  - rewrite fmap_app, elem_of_app. by left.
  - done.
Qed.

Lemma back_from_keys url (m : list (str * V)) k : k ∈ (back_from less url m).*1 -> k ∈ m.*1.
Proof.
  rewrite !list_elem_of_fmap. intros (y & -> & Hy). exists y. split; [done|]. unfold back_from in Hy.
  apply list_elem_of_In, in_rev, list_elem_of_In in Hy. induction m as [|x m IH]; cbn in Hy; [done|].
  destruct (negb _); [|by apply not_elem_of_nil in Hy]. apply elem_of_cons in Hy as [->|Hy]; [by left|right; auto].
Qed.
End Walk.

(** ** The table *)

Section Table.
Context {X R : Type}.

(** A pattern with its handler. *)
Definition entry : Type := parsed_url (X := X) * (list (arg (X := X)) -> outcome R).

Definition compiled (e : entry) : Prop := exists cps, url_parser (pattern e.1) cps = Some e.1.
Definition slashes (e : entry) : nat := count_slash (text (pattern e.1)).
Definition stored (e : entry) : url_pattern * (str -> outcome (option R)) := (pattern e.1, stored_handler e.1 e.2).

Definition build (l : list entry) : dispatcher := fold_left (fun ud e => add_handler e.1 e.2 ud) l [].

(** Trying all handlers in the order they were added. *)
Definition plain_search (l : list entry) (url : str) : outcome (option R) := try_handlers (stored <$> l) url.

(** No literal prefix goes on to another one, and no literal suffix of patterns
    with the same prefix. *)
Definition unambiguous (l : list entry) : Prop :=
  (forall e1 e2, e1 ∈ l -> e2 ∈ l -> slashes e1 = slashes e2 ->
    literal_prefix e1.1 `prefix_of` literal_prefix e2.1 -> literal_prefix e1.1 = literal_prefix e2.1) /\
  (forall e1 e2, e1 ∈ l -> e2 ∈ l -> slashes e1 = slashes e2 -> literal_prefix e1.1 = literal_prefix e2.1 ->
    literal_suffix e1.1 `suffix_of` literal_suffix e2.1 -> literal_suffix e1.1 = literal_suffix e2.1).

Lemma no_match (e : entry) url : compiled e ->
  ~ (count_slash url = slashes e /\ literal_prefix e.1 `prefix_of` url /\ literal_suffix e.1 `suffix_of` url) ->
  stored_handler e.1 e.2 url = Ok None.
Proof.
  intros [cps Hup] Hno. unfold stored_handler. destruct (try_parse_total _ _ _ url Hup) as [[args|] Ho]; rewrite Ho; [|done].
  destruct Hno. by apply (match_keys _ cps e.1 url args).
Qed.

Lemma try_handlers_filter (P : entry -> Prop) `{!forall e, Decision (P e)} (l : list entry) url :
  (forall e, e ∈ l -> ~ P e -> stored_handler e.1 e.2 url = Ok None) ->
  try_handlers (stored <$> l) url = try_handlers (stored <$> filter P l) url.
Proof.
  induction l as [|e l IH]; intros Hno; [done|]. rewrite filter_cons.
  assert (forall e', e' ∈ l -> ~ P e' -> stored_handler e'.1 e'.2 url = Ok None) as Hno' by (intros; apply Hno; [by right|done]).
  destruct (decide (P e)) as [HP|HP]; cbn [fmap list_fmap try_handlers stored].
  - destruct (stored_handler e.1 e.2 url) as [[x|]|ex| |]; try done. cbn. by apply IH.
  - rewrite Hno; [|by left|done]. cbn. by apply IH.
Qed.

Lemma fold_stored (l : list entry) : forall v, fold_left (fun v e => v ++ [stored e]) l v = v ++ (stored <$> l).
Proof. induction l as [|e l IH]; intros v; cbn; [by rewrite app_nil_r|]. by rewrite IH, <- app_assoc. Qed.

Lemma try_suffixes_walk (l : suffix_map (R := R)) url : try_suffixes l url = walk (has_suffix url) (fun hs => try_handlers hs url) l.
Proof.
  induction l as [|[s hs] l IH]; [done|]. cbn. destruct (has_suffix url s); [|done].
  destruct (try_handlers hs url) as [[x|]|e| |]; try done.
Qed.

Lemma try_prefixes_walk (l : prefix_map (R := R)) url :
  try_prefixes l url = walk (has_prefix url) (fun sm => try_suffixes (back_from reverse_less url sm) url) l.
Proof.
  induction l as [|[p sm] l IH]; [done|]. cbn [try_prefixes walk]. destruct (has_prefix url p); [|done].
  destruct (try_suffixes _ url) as [[x|]|e| |]; try done.
Qed.

(** The three levels of the table. *)
Definition add3 (e : entry) (v : handlers_vec (R := R)) : handlers_vec := v ++ [stored e].
Definition add2 (e : entry) : suffix_map (R := R) -> suffix_map := map_update reverse_less (literal_suffix e.1) [] (add3 e).
Definition add1 (e : entry) : prefix_map (R := R) -> prefix_map := map_update SV.ltb (literal_prefix e.1) [] (add2 e).

Definition by_suffix (l : list entry) : suffix_map := group reverse_less (fun e : entry => literal_suffix e.1) [] add3 l.
Definition by_prefix (l : list entry) : prefix_map := group SV.ltb (fun e : entry => literal_prefix e.1) [] add2 l.

Lemma dispatch_build (l : list entry) url : let l1 := filter (fun e => slashes e = count_slash url) l in
  dispatch (build l) url = if decide (l1 = []) then Ok None else try_prefixes (back_from SV.ltb url (by_prefix l1)) url.
Proof.
  cbv zeta. unfold dispatch. change (build l) with (group Nat.ltb slashes [] add1 l).
  rewrite (group_find Nat.ltb nat_ltb_total slashes [] add1 l). cbv zeta. by destruct (decide _).
Qed.

Lemma group_key_elem {V} less `{!StrictWeakOrder any less} (tot : forall a b, less a b = false -> less b a = false -> a = b)
    (key : entry -> str) (dflt : V) f l k : k ∈ (group less key dflt f l).*1 -> exists e, e ∈ l /\ key e = k.
Proof.
  intros H. apply list_elem_of_fmap in H as ([k' v] & -> & H). by apply (group_elem less tot) in H as [_ ?].
Qed.

Lemma group_elem_in {V} less `{!StrictWeakOrder any less} (tot : forall a b, less a b = false -> less b a = false -> a = b)
    (key : entry -> str) (dflt : V) f l e : e ∈ l ->
  (key e, fold_left (fun v x => f x v) (filter (fun x => key x = key e) l) dflt) ∈ group less key dflt f l.
Proof.
  intros He. pose proof (group_find less tot key dflt f l (key e)) as Hf. cbv zeta in Hf.
  rewrite decide_False in Hf.
  - destruct (map_find_elem less _ _ _ Hf) as (k' & Hin & Heq). rewrite (equiv_eq less tot) in Heq. apply bool_decide_eq_true in Heq as <-. done.
  - intros E. assert (e ∈ filter (fun x => key x = key e) l) as H by (by apply list_elem_of_filter). rewrite E in H. by apply not_elem_of_nil in H.
Qed.
(** Two prefixes of the same URL, one of which may not go on to the other. *)
Lemma prefix_unique (p q url : str) : p `prefix_of` url -> q `prefix_of` url ->
  (p `prefix_of` q -> p = q) -> (q `prefix_of` p -> q = p) -> p = q.
Proof. intros Hp Hq H1 H2. destruct (prefix_weak_total p q url Hp Hq); [auto|symmetry; auto]. Qed.

Lemma suffix_rev (a b : str) : a `suffix_of` b <-> rev a `prefix_of` rev b.
Proof.
  split; intros [k Hk].
  - exists (rev k). by rewrite Hk, rev_app_distr.
  - exists (rev k). apply (f_equal (@rev ascii)) in Hk. rewrite rev_app_distr, !rev_involutive in Hk. done.
Qed.

(** The walk over a level of the table: [fits] is "is a prefix (suffix) of the
    URL"; the strings a key fits into are next to each other in the order. *)
Lemma walk_group {V} less `{!StrictWeakOrder any less} (tot : forall a b, less a b = false -> less b a = false -> a = b)
    (fits : str -> str -> Prop) (test : str -> bool) (key : entry -> str) (dflt : V) f (body : V -> outcome (option R)) l url :
  (forall k, test k = true <-> fits k url) ->
  (forall k s, fits k s -> less s k = false) ->
  (forall k x s, less x k = false -> fits k s -> less s x = false -> fits k x) ->
  (forall p q s, fits p s -> fits q s -> fits p q \/ fits q p) ->
  (forall e1 e2, e1 ∈ l -> e2 ∈ l -> fits (key e1) (key e2) -> key e1 = key e2) ->
  (exists e, e ∈ l /\ fits (key e) url /\ (forall e', e' ∈ l -> fits (key e') url <-> key e' = key e) /\
     walk test body (back_from less url (group less key dflt f l)) =
     body (fold_left (fun v x => f x v) (filter (fun x => key x = key e) l) dflt)) \/
  ((forall e, e ∈ l -> ~ fits (key e) url) /\ walk test body (back_from less url (group less key dflt f l)) = Ok None).
Proof.
  intros Htest Hle Hint Hcmp Hfree.
  pose proof (group_key_elem less tot key dflt f l) as Hkeys.
  destruct (existsb (fun e => test (key e)) l) eqn:Hex.
  - left. apply existsb_exists in Hex as (e & He & Ht). apply list_elem_of_In in He. exists e.
    assert (forall e', e' ∈ l -> fits (key e') url -> key e' = key e) as Huniq.
    { intros e' He' Hf. destruct (Hcmp (key e') (key e) url Hf ltac:(by apply Htest)) as [H|H]; [auto|symmetry; auto]. }
    split_and!; [done|by apply Htest| |].
    { intros e' He'. split; [by apply Huniq|]. intros ->. by apply Htest. }
    apply (walk_one less test body url _ (key e)); try done.
    + by apply group_sorted.
    + by apply group_elem_in.
    + apply Hle. by apply Htest.
    + intros k Hk Hk'. apply Hkeys in Hk as (e' & He' & <-). apply Huniq; [done|]. by apply Htest.
    + intros k Hk Hlt. apply Hkeys in Hk as (e' & He' & <-). destruct (less url (key e')) eqn:E; [done|exfalso].
      assert (key e = key e') as Heq.
      { apply Hfree; [done|done|]. apply (Hint _ _ url); [by apply (less_asym less)|by apply Htest|done]. }
      rewrite Heq in Hlt. by rewrite (less_irrefl less) in Hlt.
  - right. assert (forall e, e ∈ l -> test (key e) = false) as Hno.
    { intros e He. destruct (test (key e)) eqn:E; [|done]. rewrite <- Hex. symmetry. apply existsb_exists. exists e. split; [|done].
      by apply list_elem_of_In. }
    split; [intros e He Hf; apply Htest in Hf; by rewrite Hno in Hf|]. apply walk_none. intros k Hk.
    apply back_from_keys, Hkeys in Hk as (e & He & <-). auto.
Qed.

(** The walk over the suffixes meets the handlers of the one suffix that fits. *)
Lemma suffixes_found (l : list entry) url :
  (forall e1 e2, e1 ∈ l -> e2 ∈ l -> literal_suffix e1.1 `suffix_of` literal_suffix e2.1 -> literal_suffix e1.1 = literal_suffix e2.1) ->
  try_suffixes (back_from reverse_less url (by_suffix l)) url =
  try_handlers (stored <$> filter (fun e : entry => literal_suffix e.1 `suffix_of` url) l) url.
Proof.
  intros Hfree. rewrite try_suffixes_walk.
  destruct (walk_group reverse_less reverse_less_total suffix (has_suffix url) (fun e : entry => literal_suffix e.1) [] add3
    (fun hs => try_handlers hs url) l url) as [(e & He & Hf & Huniq & Hw)|[Hno Hw]]; try done.
  - intros k. apply has_suffix_spec.
  - intros k s Hk. by apply ltb_prefix, suffix_rev.
  - intros k x s H1 H2 H3. apply suffix_rev. by apply (prefix_interval _ _ (rev s)); [|apply suffix_rev|].
  - intros p q s Hp Hq. rewrite !suffix_rev in *. by apply (prefix_weak_total _ _ (rev s)).
  - etransitivity; [exact Hw|]. rewrite (fold_stored _ []). cbn [app]. do 2 f_equal. apply filter_ext_in. intros e' He'. by rewrite Huniq.
  - etransitivity; [exact Hw|]. rewrite filter_none; [done|]. by apply Forall_forall.
Qed.

(** The walk over the prefixes. *)
Lemma prefixes_found (l : list entry) url :
  (forall e1 e2, e1 ∈ l -> e2 ∈ l -> literal_prefix e1.1 `prefix_of` literal_prefix e2.1 -> literal_prefix e1.1 = literal_prefix e2.1) ->
  (forall e1 e2, e1 ∈ l -> e2 ∈ l -> literal_prefix e1.1 = literal_prefix e2.1 ->
    literal_suffix e1.1 `suffix_of` literal_suffix e2.1 -> literal_suffix e1.1 = literal_suffix e2.1) ->
  try_prefixes (back_from SV.ltb url (by_prefix l)) url =
  try_handlers (stored <$> filter (fun e : entry => literal_suffix e.1 `suffix_of` url)
    (filter (fun e : entry => literal_prefix e.1 `prefix_of` url) l)) url.
Proof.
  intros Hfree Hsfree. rewrite try_prefixes_walk.
  destruct (walk_group SV.ltb SV.ltb_total prefix (has_prefix url) (fun e : entry => literal_prefix e.1) [] add2
    (fun sm => try_suffixes (back_from reverse_less url sm) url) l url) as [(e & He & Hf & Huniq & Hw)|[Hno Hw]]; try done.
  - intros k. apply has_prefix_spec.
  - intros k s Hk. by apply ltb_prefix.
  - intros k x s. apply prefix_interval.
  - intros p q s. apply prefix_weak_total.
  - etransitivity; [exact Hw|]. change (fold_left _ ?l' []) with (by_suffix l') at 1. rewrite suffixes_found.
    + do 3 f_equal. apply filter_ext_in. intros e' He'. by rewrite Huniq.
    + intros e1 e2 [E1 H1]%list_elem_of_filter [E2 H2]%list_elem_of_filter. apply Hsfree; [done|done|]. by rewrite E1, E2.
  - etransitivity; [exact Hw|]. rewrite (filter_none _ l); [done|]. by apply Forall_forall.
Qed.
(** A response comes from one of the handlers tried. *)
Lemma walk_found {V} test (body : V -> outcome (option R)) l r : walk test body l = Ok (Some r) ->
  exists k v, (k, v) ∈ l /\ body v = Ok (Some r).
Proof.
  induction l as [|[k v] l IH]; [done|]. cbn [walk]. destruct (test k); [|done]. destruct (body v) as [[x|]|e| |] eqn:E; try done; cbn.
  - intros [= <-]. exists k, v. split; [by left|done].
  - intros H. destruct (IH H) as (k' & v' & Hin & Hb). exists k', v'. split; [by right|done].
Qed.

Lemma back_from_elem {V} less url (m : list (str * V)) x : x ∈ back_from less url m -> x ∈ m.
Proof.
  unfold back_from. intros H. apply list_elem_of_In, in_rev, list_elem_of_In in H. induction m as [|y m IH]; cbn in H; [done|].
  destruct (negb _); [|by apply not_elem_of_nil in H]. apply elem_of_cons in H as [->|H]; [by left|right; auto].
Qed.

Lemma try_handlers_found (l : list entry) url r : try_handlers (stored <$> l) url = Ok (Some r) ->
  exists e args, e ∈ l /\ try_parse true (components e.1) url [] = Ok (Some args) /\ e.2 args = Ok r.
Proof.
  induction l as [|e l IH]; [done|]. cbn [fmap list_fmap try_handlers stored]. unfold stored_handler at 1.
  destruct (try_parse true (components e.1) url []) as [[args|]|ex| |] eqn:Hp; try done; cbn.
  - destruct (e.2 args) as [x|ex| |] eqn:Hx; try done. cbn. intros [= <-]. exists e, args. split_and!; [by left|done|done].
  - intros H. destruct (IH H) as (e' & args & He & Hm). exists e', args. split; [by right|done].
Qed.

Lemma dispatch_found (l : list entry) url r : dispatch (build l) url = Ok (Some r) ->
  exists e args, e ∈ l /\ try_parse true (components e.1) url [] = Ok (Some args) /\ e.2 args = Ok r.
Proof.
  rewrite dispatch_build. destruct (decide _); [done|]. rewrite try_prefixes_walk. intros H.
  apply walk_found in H as (p & sm & Hin & H). apply back_from_elem in Hin. apply (group_elem SV.ltb SV.ltb_total) in Hin as [-> _].
  rewrite try_suffixes_walk in H. apply walk_found in H as (s & hs & Hin & H). apply back_from_elem in Hin.
  apply (group_elem reverse_less reverse_less_total (fun e : entry => literal_suffix e.1) [] add3) in Hin as [-> _].
  rewrite (fold_stored _ []) in H. apply try_handlers_found in H as (e & args & He & Hm). exists e, args. split; [|done].
  by apply list_elem_of_filter in He as [_ [_ [_ He]%list_elem_of_filter]%list_elem_of_filter].
Qed.

Lemma dispatch_plain (l : list entry) url : Forall compiled l -> unambiguous l -> dispatch (build l) url = plain_search l url.
Proof.
  intros Hc [Hpre Hsuf]. rewrite dispatch_build. set (l1 := filter (fun e => slashes e = count_slash url) l).
  unfold plain_search. rewrite (try_handlers_filter (fun e => slashes e = count_slash url)).
  2: { intros e He Hne. apply no_match; [by eapply Forall_forall|]. intros [H _]. by apply Hne. }
  fold l1. assert (forall e, e ∈ l1 -> e ∈ l /\ slashes e = count_slash url) as Hl1.
  { intros e [H1 H2]%list_elem_of_filter. done. }
  destruct (decide (l1 = [])) as [->|_]; [done|]. rewrite prefixes_found.
  - rewrite (try_handlers_filter (fun e : entry => literal_prefix e.1 `prefix_of` url) l1).
    + symmetry. apply try_handlers_filter. intros e [_ He]%list_elem_of_filter Hne. apply Hl1 in He as [He _].
      apply no_match; [by eapply Forall_forall|]. intros (_ & _ & H). done.
    + intros e He Hne. apply Hl1 in He as [He _]. apply no_match; [by eapply Forall_forall|]. intros (_ & H & _). done.
  - intros e1 e2 [H1 E1]%Hl1 [H2 E2]%Hl1. apply Hpre; congruence.
  - intros e1 e2 [H1 E1]%Hl1 [H2 E2]%Hl1. apply Hsuf; congruence.
Qed.
End Table.

(** ** The properties *)

(** C28: Whatever handlers have been added, a response of [dispatch] is the
    response of a handler whose pattern matches the URL, to the arguments parsed
    from it.  When no literal prefix of a pattern goes on to another one (nor a
    suffix, among patterns with the same prefix), [dispatch] does what trying
    all handlers one after another in the order they were added does. *)
Theorem url_dispatch_correct {X R : Type} (l : list (entry (X := X) (R := R))) url : Forall compiled l ->
  (forall r, dispatch (build l) url = Ok (Some r) ->
    exists e args, e ∈ l /\ try_parse true (components e.1) url [] = Ok (Some args) /\ e.2 args = Ok r) /\
  (unambiguous l -> dispatch (build l) url = plain_search l url).
Proof. intros Hc. split; [intros r; apply dispatch_found|by apply dispatch_plain]. Qed.

(** Patterns without custom parsers, answered by a number. *)
Definition numbered (patterns : list str) : option (list (entry (X := Empty_set) (R := Z))) :=
  mapM (fun x : nat * str => (fun up => (up, fun _ => Ok (Z.of_nat x.1))) <$> url_parser (mkPattern (Z.of_nat x.1) x.2) [])
    (imap pair patterns).

Lemma numbered_compiled patterns l : numbered patterns = Some l -> Forall compiled l.
Proof.
  unfold numbered. intros H. apply mapM_Some in H. induction H as [|[i s] e l1 l2 He _ IH]; [done|]. constructor; [|done].
  cbn in He. destruct (url_parser _ _) as [up|] eqn:Hup; [|done]. injection He as <-. exists []. cbn.
  destruct (url_parser_inv _ _ _ Hup) as [-> _]. done.
Qed.

Definition table_of (patterns : list str) : list (entry (X := Empty_set) (R := Z)) := default [] (numbered patterns).

Lemma table_of_compiled patterns : Forall compiled (table_of patterns).
Proof. unfold table_of. destruct (numbered patterns) as [l|] eqn:E; [by eapply numbered_compiled|constructor]. Qed.

Lemma unambiguous_check {X R} (l : list (entry (X := X) (R := R))) :
  forallb (fun e1 => forallb (fun e2 : entry =>
    negb (slashes e1 =? slashes e2) || bool_decide (literal_prefix e1.1 = literal_prefix e2.1) &&
      implb (has_suffix (literal_suffix e2.1) (literal_suffix e1.1)) (bool_decide (literal_suffix e1.1 = literal_suffix e2.1)) ||
    negb (has_prefix (literal_prefix e2.1) (literal_prefix e1.1))) l) l = true -> unambiguous l.
Proof.
  rewrite forallb_forall. intros Hall.
  assert (forall e1 e2, e1 ∈ l -> e2 ∈ l -> slashes e1 = slashes e2 -> literal_prefix e1.1 `prefix_of` literal_prefix e2.1 ->
    literal_prefix e1.1 = literal_prefix e2.1 /\
    (literal_suffix e1.1 `suffix_of` literal_suffix e2.1 -> literal_suffix e1.1 = literal_suffix e2.1)) as H.
  { intros e1 e2 H1%list_elem_of_In H2%list_elem_of_In Hs Hp%has_prefix_spec. specialize (Hall e1 H1). rewrite forallb_forall in Hall.
    specialize (Hall e2 H2). cbv beta in Hall. rewrite Hs, Nat.eqb_refl, Hp in Hall. cbn [negb orb] in Hall. rewrite orb_false_r in Hall.
    apply andb_true_iff in Hall as [E1%bool_decide_eq_true E2]. split; [done|]. intros Hf%has_suffix_spec. rewrite Hf in E2.
    by apply bool_decide_eq_true in E2. }
  split; intros e1 e2 H1 H2 Hs Hp; destruct (H e1 e2 H1 H2 Hs) as [? ?]; auto. by rewrite Hp.
Qed.

Lemma url_dispatch_correct_witness :
  let l := table_of [lit "/a/{string}/x"; lit "/b/{u8}"; lit "/b/{string}"; lit "/c/d/{i64}"] in
  dispatch (build l) (lit "/b/256") = Ok (Some 2%Z) /\
  dispatch (build l) (lit "/b/256") = plain_search l (lit "/b/256") /\
  exists e args, e ∈ l /\ try_parse true (components e.1) (lit "/b/256") [] = Ok (Some args) /\ e.2 args = Ok 2%Z.
Proof.
  intros l. assert (dispatch (build l) (lit "/b/256") = Ok (Some 2%Z)) as Hd by (vm_compute; reflexivity).
  destruct (url_dispatch_correct l (lit "/b/256") (table_of_compiled _)) as [H1 H2].
  split; [exact Hd|]. split; [|exact (H1 _ Hd)]. apply H2. apply unambiguous_check. vm_compute. reflexivity.
Defined.

(** Without that condition handlers are missed: the walk stops at the first
    prefix that does not fit, here [/a/], before the prefix [/] that does.  The
    two patterns do not collide. *)
Theorem dispatch_misses_handler :
  let l := table_of [lit "/a/{string}/y"; lit "/{string}/{string}/x"] in
  all_potential_collisions (build l) = [] /\
  plain_search l (lit "/b/c/x") = Ok (Some 1%Z) /\
  dispatch (build l) (lit "/b/c/x") = Ok None.
Proof. vm_compute. split_and!; reflexivity. Qed.

(** ** Quoting *)

(** A quoted string as HTTP defines it: a backslash takes the next character;
    the contents and what comes after. *)
Fixpoint read_quoted (s acc : str) : option (str * str) :=
  match s with
  | [] => None
  | c :: s' =>
      if decide (c = QUOTATION) then Some (acc, s')
      else if decide (c = BACKSLASH) then match s' with [] => None | d :: s'' => read_quoted s'' (acc ++ [d]) end
      else read_quoted s' (acc ++ [c])
  end.

(** What [quote] writes is read back when the string holds no backslash. *)
Lemma read_quote_chars s : forall acc rest, ~ (BACKSLASH ∈ s) ->
  read_quoted (concat ((fun c => if Ctype.is_print c && negb (c =c QUOTATION) then [c] else [BACKSLASH; c]) <$> s) ++ QUOTATION :: rest) acc =
  Some (acc ++ s, rest).
Proof.
  induction s as [|c s IH]; intros acc rest Hs; [by rewrite app_nil_r|]. rewrite not_elem_of_cons in Hs. destruct Hs as [Hc Hs].
  cbn [fmap list_fmap concat]. destruct (Ctype.is_print c && negb (c =c QUOTATION)) eqn:E; cbn [app read_quoted].
  - bools. rewrite decide_False, decide_False by congruence. rewrite IH by done. by rewrite <- app_assoc.
  - rewrite decide_False, decide_True by done. rewrite IH by done. by rewrite <- app_assoc.
Qed.

Theorem quote_read_back s : ~ (BACKSLASH ∈ s) ->
  match quote s with [] => False | _ :: q => read_quoted q [] = Some (s, []) end.
Proof. intros Hs. unfold quote. cbn. by apply (read_quote_chars s [] []). Qed.

(** A backslash is not escaped: at the end it takes the closing mark. *)
Theorem quote_backslash_unterminated : match quote (lit "C:\") with [] => False | _ :: q => read_quoted q [] = None end.
Proof. vm_compute. reflexivity. Qed.
