(* ===== verification/ConfigFile.v ===== *)
(** * Configuration files

    Models [include/simlib/config_file.hh] and [src/config_file.cc]: the
    variables, the parser [load_config_from_string] and the functions that
    escape a string so that it can be placed in a configuration file.

    The parser works on the view [buff] of the rest of the configuration, which
    ends with a newline that the parser appended; every [buff[i]] is a read that
    is [UB] past the end.  An exception leaves the variables as they are at that
    moment, so the parser returns the variables next to its outcome. *)

From Stdlib Require Import ZArith Lia Ascii.
From S2P Require Import Prelude.
From S2P Require Import Ctype.
From S2P Require Import StringView.
From S2P Require Import StringTraits.
From S2P Require Import StringCompare.
From S2P Require Import StringTransform.

Module Config.

(** ** Variables *)

Record ConfigVariable := mkVariable {
  flag_ : Z;
  str_ : str;
  arr_ : list str;
  value_span_ : nat * nat
}.

Definition SET : Z := 1.
Definition ARRAY : Z := 2.

(** A default-constructed variable, which is also [null_var]. *)
Definition null_var : ConfigVariable := mkVariable 0 [] [] (0, 0).

Definition unset (v : ConfigVariable) : ConfigVariable := mkVariable 0 [] [] (value_span_ v).

Definition is_set (v : ConfigVariable) : bool := negb (Z.land (flag_ v) SET =? 0)%Z.
Definition is_array (v : ConfigVariable) : bool := negb (Z.land (flag_ v) ARRAY =? 0)%Z.

Definition as_bool (v : ConfigVariable) : bool :=
  SV.eqb (str_ v) (lit "1") || lower_equal (str_ v) (lit "on") || lower_equal (str_ v) (lit "true").

Definition as_int (T : int_type) (v : ConfigVariable) : option Z := str2num T (str_ v).

Abbreviation Vars := (gmap str ConfigVariable).

(** [vars.emplace(name, Variable{})] for each name: an existing variable stays. *)
Definition add_vars (names : list str) (vars : Vars) : Vars :=
  fold_left (fun vs n => match vs !! n with Some _ => vs | None => <[n := null_var]> vs end)
    names vars.

Definition get_var (vars : Vars) (name : str) : ConfigVariable :=
  match vars !! name with Some v => v | None => null_var end.

(** ** Parse errors *)

(** The loop [while (x and config[--x] != newline)]. *)
Fixpoint line_begin (config : str) (x : nat) : nat :=
  match x with
  | 0 => 0
  | S x' =>
      match config !! x' with
      | Some c => if c =c NL then x' else line_begin config x'
      | None => 0
      end
  end.

Definition count_newlines (s : str) : nat := length (List.filter (fun c => c =c NL) s).

(** The lambda [append_char]. *)
Definition diag_char (c : ascii) : str :=
  if is_print c then [c]
  else lit "\x" ++ [dec2hex (Z.shiftr (uchz c) 4); dec2hex (Z.land (uchz c) 15)].

Definition CONTEXT : nat := 32.

(** [for (; config[k] != newline and k <= last; ++k) append_char(config[k])],
    then the ellipsis when the line goes on. *)
Fixpoint right_part (fuel : nat) (config : str) (k last : nat) : outcome str :=
  match fuel with
  | 0 => NoFuel
  | S fuel' =>
      c ← get_or_ub (config !! k);
      if c =c NL then Ok []
      else if last <? k then Ok (lit "...")
      else r ← right_part fuel' config (S k) last; Ok (diag_char c ++ r)
  end.

Definition error_position (config buff : str) : nat :=
  length config - length buff - (if SV.empty buff then 1 else 0).

(** Line and column (both from 1) of a position. *)
Definition error_line (config : str) (pos : nat) : nat :=
  1 + count_newlines (take (line_begin config pos + 1) config).

Definition error_column (config : str) (pos : nat) : nat :=
  pos - line_begin config pos + (if error_line config pos =? 1 then 1 else 0).

Definition diagnostics (config : str) (pos : nat) : outcome str :=
  let x := line_begin config pos in
  let left :=
    if error_column config pos <=? CONTEXT + 1
    then flat_map diag_char (take (pos - x) (drop x config))
    else lit "..." ++ flat_map diag_char (take CONTEXT (drop (pos - CONTEXT) config)) in
  let padding := length left in
  c ← get_or_ub (config !! pos);
  '(line, stress_len) ←
    (if c =c NL then Ok (left, 1)
     else
       r ← right_part (CONTEXT + 2) config (pos + 1) (pos + CONTEXT);
       Ok (left ++ diag_char c ++ r, length (diag_char c)));
  Ok (line ++ [NL] ++ replicate padding " "%char ++ lit "^" ++ replicate (stress_len - 1) "~"%char).

(** The lambda [throw_parse_error], called when [buff] is left. *)
Definition throw_parse_error {A} (config buff msg : str) : outcome A :=
  let pos := error_position config buff in
  d ← diagnostics config pos;
  Throw (ParseError
    (lit "line " ++ to_string (Z.of_nat (error_line config pos)) ++ lit ":" ++
     to_string (Z.of_nat (error_column config pos)) ++ lit ": " ++ msg) d).

(** ** Character classes of the grammar *)

Definition is_ws (c : ascii) : bool := negb (c =c NL) && is_space c.

Definition is_name (c : ascii) : bool := is_alnum c || (c =c "-") || (c =c "_") || (c =c ".").

Definition quoted_char (msg : str) (c : ascii) : str := msg ++ [c] ++ lit "`".

(** ** Values: the lambda [extract_value]

    A value is returned with what is left of the buffer after it. *)

Section ExtractValue.
Variable config : str.

(** The loop of a single-quoted string; [s] is the buffer from position
    [i + 1] on. *)
Fixpoint single_quoted (s res : str) : outcome (str * str) :=
  match s with
  | [] => UB
  | c :: s' =>
      if c =c NL then throw_parse_error config s (lit "Missing terminating ' character")
      else if c =c SQ then
        match s' with
        | [] => UB
        | d :: s2 =>
            if negb (d =c SQ) then Ok (res, s')
            else single_quoted s2 (res ++ [d])
        end
      else single_quoted s' (res ++ [c])
  end.

Definition simple_escape (e : ascii) : option ascii :=
  if e =c SQ then Some SQ
  else if e =c DQ then Some DQ
  else if e =c "?" then Some "?"%char
  else if e =c BSLASH then Some BSLASH
  else if e =c "t" then Some "009"%char
  else if e =c "a" then Some "007"%char
  else if e =c "b" then Some "008"%char
  else if e =c "f" then Some "012"%char
  else if e =c "n" then Some "010"%char
  else if e =c "r" then Some "013"%char
  else if e =c "v" then Some "011"%char
  else None.

Definition bad_hex_digit (s : str) (c : ascii) : outcome (str * str) :=
  throw_parse_error config s (quoted_char (lit "Invalid hexadecimal digit: `") c).

(** The loop of a double-quoted string; [s] is the buffer from position
    [i + 1] on. *)
Fixpoint double_quoted (s res : str) : outcome (str * str) :=
  match s with
  | [] => UB
  | c :: s' =>
      if c =c NL
      then throw_parse_error config s (lit "Missing terminating " ++ [DQ] ++ lit " character")
      else if c =c DQ then Ok (res, s')
      else if negb (c =c BSLASH) then double_quoted s' (res ++ [c])
      else
        match s' with
        | [] => UB
        | e :: s2 =>
            match simple_escape e with
            | Some r => double_quoted s2 (res ++ [r])
            | None =>
                if e =c "x" then
                  match s2 with
                  | [] => UB
                  | h :: s3 =>
                      if negb (is_xdigit h) then bad_hex_digit s2 h
                      else
                        match s3 with
                        | [] => UB
                        | l :: s4 =>
                            if negb (is_xdigit l) then bad_hex_digit s3 l
                            else double_quoted s4
                                   (res ++ [char_of (Z.shiftl (hex2dec h) 4 + hex2dec l)])
                        end
                  end
                else throw_parse_error config s' (quoted_char (lit "Unknown escape sequence: `\") e)
            end
        end
  end.

(** The characters that end an unquoted value. *)
Definition ends_literal (is_in_array : bool) (c : ascii) : bool :=
  (c =c NL) || (c =c "#") || (is_in_array && ((c =c "]") || (c =c ","))).

(** An unquoted value that starts with [c]: the interior loop needs a
    character that ends it, the trimming loop one that is not a space. *)
Definition string_literal (is_in_array : bool) (c : ascii) (s : str) : outcome (str * str) :=
  let value := c :: take_while (fun x => negb (ends_literal is_in_array x)) s in
  match drop_while (fun x => negb (ends_literal is_in_array x)) s with
  | [] => UB
  | _ =>
      let value := SV.remove_trailing is_space value in
      if SV.empty value then UB else Ok (value, drop (length value) (c :: s))
  end.

Definition extract_value (is_in_array : bool) (buff : str) : outcome (str * str) :=
  match buff with
  | [] => UB
  | c :: s =>
      if c =c SQ then single_quoted s []
      else if c =c DQ then double_quoted s []
      else if (c =c "[") || (is_in_array && ((c =c ",") || (c =c "]"))) then
        throw_parse_error config buff
          (quoted_char (lit "Invalid beginning of the string literal: `") c)
      else string_literal is_in_array c s
  end.

Definition skip_comment (buff : str) : str := SV.remove_leading (fun c => negb (c =c NL)) buff.

Definition unknown_sequence {A} (buff : str) (c : ascii) : outcome A :=
  throw_parse_error config buff (quoted_char (lit "Unknown sequence after the value: `") c).

(** The loop over the elements of an array, from behind the opening bracket:
    the elements added so far, and what is left behind the closing one. *)
Fixpoint array_loop (fuel : nat) (arr : list str) (buff : str) : list str * outcome str :=
  match fuel with
  | 0 => (arr, NoFuel)
  | S fuel' =>
      let buff := SV.remove_leading is_space buff in
      match buff with
      | [] => (arr, throw_parse_error config buff
                      (lit "Missing terminating ] character at the end of an array"))
      | c :: s =>
          if c =c "]" then (arr, Ok s)
          else if c =c "#" then array_loop fuel' arr (skip_comment buff)
          else if c =c "," then array_loop fuel' arr s
          else
            match extract_value true buff with
            | Ok (v, rest) =>
                let arr := arr ++ [v] in
                let rest := SV.remove_leading is_ws rest in
                match rest with
                | [] => (arr, UB)
                | d :: rest' =>
                    if (d =c ",") || (d =c NL) then array_loop fuel' arr rest'
                    else if d =c "#" then array_loop fuel' arr (skip_comment rest)
                    else if d =c "]" then (arr, Ok rest')
                    else (arr, unknown_sequence rest d)
                end
            | Throw e => (arr, Throw e)
            | UB => (arr, UB)
            | NoFuel => (arr, NoFuel)
            end
      end
  end.
End ExtractValue.

(** ** Loading *)

(** [Variable* varp]: an entry of [vars], or the variable that takes the values
    of the names that are not loaded. *)
Record state := mkState { vars : Vars; tmp : ConfigVariable }.

Definition read_ref (st : state) (ref : option str) : ConfigVariable :=
  match ref with Some name => get_var (vars st) name | None => tmp st end.

Definition write_ref (st : state) (ref : option str) (v : ConfigVariable) : state :=
  match ref with
  | Some name => mkState (<[name := v]> (vars st)) (tmp st)
  | None => mkState (vars st) v
  end.

(** The variable a directive writes to; [vars[name]] creates it when everything
    is loaded. *)
Definition resolve (load_all : bool) (st : state) (name : str) : option str * state :=
  if load_all then
    (Some name,
     match vars st !! name with
     | Some _ => st
     | None => mkState (<[name := null_var]> (vars st)) (tmp st)
     end)
  else
    (match vars st !! name with Some _ => Some name | None => None end, st).

Section Load.
Variable config : str.
Variable load_all : bool.

Definition curr_pos (buff : str) : nat := length config - length buff.

(** The value part of a directive: the variable it leaves and what is left
    behind the value. *)
Definition parse_value (var : ConfigVariable) (buff : str) : ConfigVariable * outcome str :=
  let var := if is_set var then unset var else var in
  let var := mkVariable SET (str_ var) (arr_ var) (curr_pos buff, (value_span_ var).2) in
  match buff with
  | [] => (var, UB)
  | c :: s =>
      if negb (c =c "[") then
        if (c =c NL) || (c =c "#")
        then (mkVariable (flag_ var) [] (arr_ var) (value_span_ var), Ok buff)
        else
          match extract_value config false buff with
          | Ok (v, rest) => (mkVariable (flag_ var) v (arr_ var) (value_span_ var), Ok rest)
          | Throw e => (var, Throw e)
          | UB => (var, UB)
          | NoFuel => (var, NoFuel)
          end
      else
        let '(arr, r) := array_loop config (S (length s)) (arr_ var) s in
        (mkVariable (Z.lor (flag_ var) ARRAY) (str_ var) arr (value_span_ var), r)
  end.

Definition set_span_end (var : ConfigVariable) (pos : nat) : ConfigVariable :=
  mkVariable (flag_ var) (str_ var) (arr_ var) ((value_span_ var).1, pos).

(** What follows the value: the rest of the buffer for the next iteration. *)
Definition after_value (buff : str) : outcome str :=
  let buff := SV.remove_leading is_ws buff in
  match buff with
  | [] => UB
  | c :: s =>
      if c =c "#" then Ok (skip_comment buff)
      else if negb (c =c NL) then unknown_sequence config buff c
      else Ok s
  end.

(** From the variable name to the end of the directive. *)
Definition directive (st : state) (buff : str) : state * outcome str :=
  let '(name, buff) := SV.extract_leading is_name buff in
  if SV.empty name then
    (st, throw_parse_error config buff (lit "Invalid or missing variable's name"))
  else
    let buff := SV.remove_leading is_ws buff in
    match buff with
    | [] => (st, UB)
    | c :: s =>
        if (c =c NL) || (c =c "#") then
          (st, throw_parse_error config buff (lit "Incomplete directive: `" ++ name ++ lit "`"))
        else if negb (c =c "=") && negb (c =c ":") then
          (st, throw_parse_error config buff
                 (quoted_char (lit "Invalid assignment operator: `") c))
        else
          let buff := SV.remove_leading is_ws s in
          let '(ref, st) := resolve load_all st name in
          match parse_value (read_ref st ref) buff with
          | (var, Ok rest) =>
              (write_ref st ref (set_span_end var (curr_pos rest)), after_value rest)
          | (var, Throw e) => (write_ref st ref var, Throw e)
          | (var, UB) => (write_ref st ref var, UB)
          | (var, NoFuel) => (write_ref st ref var, NoFuel)
          end
    end.

(** The main loop. *)
Fixpoint load_loop (fuel : nat) (st : state) (buff : str) : state * outcome unit :=
  match fuel with
  | 0 => (st, NoFuel)
  | S fuel' =>
      match buff with
      | [] => (st, Ok ())
      | _ =>
          let buff := SV.remove_leading is_ws buff in
          match buff with
          | [] => (st, UB)
          | c :: s =>
              if c =c NL then load_loop fuel' st s
              else if c =c "#" then load_loop fuel' st (SV.remove_prefix (skip_comment buff) 1)
              else
                match directive st buff with
                | (st, Ok rest) => load_loop fuel' st rest
                | (st, Throw e) => (st, Throw e)
                | (st, UB) => (st, UB)
                | (st, NoFuel) => (st, NoFuel)
                end
          end
      end
  end.
End Load.

(** [load_config_from_string].  The loop [for (auto it : vars) it.second.unset()]
    unsets a copy of every variable, so the variables keep their values. *)
Definition load_config_from_string (vs : Vars) (config : str) (load_all : bool) :
    Vars * outcome unit :=
  let copies := unset <$> vs in
  let config := config ++ [NL] in
  let '(st, r) := load_loop config load_all (S (length config)) (mkState vs null_var) config in
  (vars st, r).

(** ** Escaping *)

Definition is_string_literal (s : str) : bool :=
  match s with
  | [] => false
  | c :: _ =>
      let back := default NUL (last s) in
      if (c =c "[") || (c =c SQ) || (c =c DQ) || (c =c "#") || is_space c || is_space back
      then false
      else forallb (fun x => negb ((x =c NL) || (x =c "]") || (x =c ",") || (x =c "#"))) s
  end.

Definition escape_to_single_quoted_string (s : str) : str :=
  [SQ] ++ flat_map (fun c => if c =c SQ then [c; SQ] else [c]) s ++ [SQ].

Definition escape_char_to_double_quoted (func : ascii -> bool) (c : ascii) : str :=
  if c =c BSLASH then [BSLASH; BSLASH]
  else if c =c NUL then [BSLASH; "0"%char]
  else if c =c DQ then [BSLASH; DQ]
  else if c =c "?" then [BSLASH; "?"%char]
  else if c =c "007" then [BSLASH; "a"%char]
  else if c =c "008" then [BSLASH; "b"%char]
  else if c =c "012" then [BSLASH; "f"%char]
  else if c =c "010" then [BSLASH; "n"%char]
  else if c =c "013" then [BSLASH; "r"%char]
  else if c =c "009" then [BSLASH; "t"%char]
  else if c =c "011" then [BSLASH; "v"%char]
  else if func c then
    lit "\x" ++ [dec2hex (Z.shiftr (uchz c) 4); dec2hex (Z.land (uchz c) 15)]
  else [c].

Definition escape_to_double_quoted_string_impl (func : ascii -> bool) (s : str) : str :=
  [DQ] ++ flat_map (escape_char_to_double_quoted func) s ++ [DQ].

Definition escape_to_double_quoted_string (s : str) : str :=
  escape_to_double_quoted_string_impl is_cntrl s.

Definition full_escape_to_double_quoted_string (s : str) : str :=
  escape_to_double_quoted_string_impl (fun c => negb (is_print c)) s.

Definition escape_string (s : str) : str :=
  if existsb (fun c => (c =c SQ) || is_cntrl c) s then escape_to_double_quoted_string s
  else if is_string_literal s then s
  else escape_to_single_quoted_string s.

Definition full_escape_string (s : str) : str :=
  if existsb (fun c => (c =c SQ) || negb (is_print c)) s then full_escape_to_double_quoted_string s
  else if is_string_literal s then s
  else escape_to_single_quoted_string s.

End Config.
