(* ===== verification/Simfile.v ===== *)
(** * The Simfile: a problem package's configuration

    Models [include/simlib/sim/simfile.hh] and [src/sim/simfile.cc]: the object,
    the loaders of its parts from the parsed configuration, the validation of
    the files it names and its printing.  A loader is a stateful computation on
    the [Simfile]: what it changed before an exception stays changed. *)

From Stdlib Require Import ZArith QArith Lia Ascii Sorted.
From S2P Require Import Prelude.
From S2P Require Import StdMap.
From S2P Require Import Ctype.
From S2P Require Import StringView.
From S2P Require Import StringTraits.
From S2P Require Import StringCompare.
From S2P Require Import StringTransform.
From S2P Require Import Floats.
From S2P Require Import Time.
From S2P Require Import SimpleParser.
From S2P Require Import Path.
From S2P Require Import ConfigFile.
Import SP.
Local Open Scope Z_scope.

(** ** Data *)

Record Test := mkTest {
  test_name : str;
  test_in : str;
  test_out : option str;
  time_limit : Z;      (* nanoseconds *)
  memory_limit : Z;    (* bytes, uint64_t *)
}.

(** The constructor [Test(name, time_limit, memory_limit)]. *)
Definition new_test (name : str) (tl ml : Z) : Test := mkTest name [] None tl ml.

Record TestGroup := mkTestGroup { tests : list Test; score : Z }.

Definition empty_group : TestGroup := mkTestGroup [] 0.

Record Simfile := mkSimfile {
  name : option str;
  label : option str;
  statement : option str;
  interactive : bool;
  checker : option str;
  solutions : list str;
  global_mem_limit : option Z;
  tgroups : list TestGroup;
  config : Config.Vars;
}.

Definition set_name v s := mkSimfile v (label s) (statement s) (interactive s) (checker s)
  (solutions s) (global_mem_limit s) (tgroups s) (config s).
Definition set_label v s := mkSimfile (name s) v (statement s) (interactive s) (checker s)
  (solutions s) (global_mem_limit s) (tgroups s) (config s).
Definition set_statement v s := mkSimfile (name s) (label s) v (interactive s) (checker s)
  (solutions s) (global_mem_limit s) (tgroups s) (config s).
Definition set_interactive v s := mkSimfile (name s) (label s) (statement s) v (checker s)
  (solutions s) (global_mem_limit s) (tgroups s) (config s).
Definition set_checker v s := mkSimfile (name s) (label s) (statement s) (interactive s) v
  (solutions s) (global_mem_limit s) (tgroups s) (config s).
Definition set_solutions v s := mkSimfile (name s) (label s) (statement s) (interactive s) (checker s)
  v (global_mem_limit s) (tgroups s) (config s).
Definition set_global_mem_limit v s := mkSimfile (name s) (label s) (statement s) (interactive s)
  (checker s) (solutions s) v (tgroups s) (config s).
Definition set_tgroups v s := mkSimfile (name s) (label s) (statement s) (interactive s)
  (checker s) (solutions s) (global_mem_limit s) v (config s).

Definition set_files (t : Test) (i : str) (o : option str) : Test :=
  mkTest (test_name t) i o (time_limit t) (memory_limit t).

Definition set_score (g : TestGroup) (s : Z) : TestGroup := mkTestGroup (tests g) s.

Definition blank : Simfile := mkSimfile None None None false None [] None [] ∅.

(** ** The order of test names *)

(** [TestNameComparator::split]: group id and test id. *)
Definition split (name : str) : str * str :=
  let (tid, rest) := SV.extract_trailing is_alpha name in
  let (gid, _) := SV.extract_trailing is_digit rest in
  (gid, tid).

Definition is_ocen (tid : str) : bool := SV.eqb tid (lit "ocen").

Definition TestNameComparator (a b : str) : bool :=
  let (xgid, xtid) := split a in
  let (ygid, ytid) := split b in
  if is_ocen xtid then
    if is_ocen ytid then StrNumCompare xgid ygid
    else negb (SV.empty (SV.remove_leading_char "0" ygid))
  else if is_ocen ytid then SV.empty (SV.remove_leading_char "0" xgid)
  else if SV.eqb xgid ygid then SV.ltb xtid ytid else StrNumCompare xgid ygid.

(** [shorten_name]: at most three graphical characters, lowered. *)
Fixpoint shorten_name_loop (s acc : str) : str :=
  match s with
  | [] => acc
  | c :: s' =>
      if is_graph c then
        let acc := acc ++ [to_lower c] in
        if (length acc =? 3)%nat then acc else shorten_name_loop s' acc
      else shorten_name_loop s' acc
  end.

Definition shorten_name (s : str) : str := shorten_name_loop s [].

(** ** Loading *)

(** The constructor from the contents of a Simfile. *)
Definition simfile_vars : list str :=
  [lit "name"; lit "label"; lit "interactive"; lit "checker"; lit "statement"; lit "solutions";
   lit "memory_limit"; lit "limits"; lit "scoring"; lit "tests_files"].

Definition make_simfile (contents : str) : outcome Simfile :=
  let (vs, r) := Config.load_config_from_string (Config.add_vars simfile_vars ∅) contents false in
  _ ← r;
  Ok (mkSimfile None None None false None [] None [] vs).

Definition get_config (var : string) : stm Simfile Config.ConfigVariable :=
  gets (fun s => Config.get_var (config s) (lit var)).

Definition CHECK_IF_ARR (var : Config.ConfigVariable) (nm : string) : stm Simfile unit :=
  when (negb (Config.is_array var) && Config.is_set var)
    (throw_error (lit "Simfile: variable `" ++ lit nm ++ lit "` has to be specified as an array")).

Definition CHECK_IF_NOT_ARR (var : Config.ConfigVariable) (nm : string) : stm Simfile unit :=
  when (Config.is_array var)
    (throw_error (lit "Simfile: variable `" ++ lit nm ++ lit "` cannot be specified as an array")).

Definition load_name : stm Simfile unit :=
  var ← get_config "name";
  _ ← CHECK_IF_NOT_ARR var "name";
  _ ← when (negb (Config.is_set var)) (throw_error (lit "Simfile: missing problem's name"));
  modify (set_name (Some (Config.str_ var))).

Definition load_label : stm Simfile unit :=
  var ← get_config "label";
  _ ← CHECK_IF_NOT_ARR var "label";
  _ ← when (negb (Config.is_set var)) (throw_error (lit "Simfile: missing problem's label"));
  modify (set_label (Some (Config.str_ var))).

Definition load_interactive : stm Simfile unit :=
  var ← get_config "interactive";
  _ ← CHECK_IF_NOT_ARR var "label";
  if SV.empty (Config.str_ var) then modify (set_interactive false)
  else modify (set_interactive (Config.as_bool var)).

(** [path_absolute(p).erase(0, 1)]: the path inside the package. *)
Definition secure_path (p : str) : outcome str := drop 1 <$> path_absolute p (lit "/").

Definition load_checker : stm Simfile unit :=
  _ ← load_interactive;
  var ← get_config "checker";
  _ ← CHECK_IF_NOT_ARR var "checker";
  if negb (Config.is_set var) || SV.empty (Config.str_ var) then
    i ← gets interactive;
    _ ← when i (throw_error (lit "Simfile: interactive problems require checker (checker is not set)"));
    modify (set_checker None)
  else
    p ← lift (secure_path (Config.str_ var));
    modify (set_checker (Some p)).

Definition load_statement : stm Simfile unit :=
  var ← get_config "statement";
  _ ← CHECK_IF_NOT_ARR var "statement";
  _ ← when (negb (Config.is_set var)) (throw_error (lit "Simfile: missing statement"));
  _ ← when (SV.empty (Config.str_ var)) (throw_error (lit "Simfile: statement cannot be empty"));
  p ← lift (secure_path (Config.str_ var));
  modify (set_statement (Some p)).

(** [for (str : arr) solutions.emplace_back(...)] *)
Fixpoint load_solutions_loop (arr : list str) : stm Simfile unit :=
  match arr with
  | [] => mret tt
  | x :: arr' =>
      p ← lift (secure_path x);
      _ ← modify (fun s => set_solutions (solutions s ++ [p]) s);
      load_solutions_loop arr'
  end.

Definition load_solutions : stm Simfile unit :=
  var ← get_config "solutions";
  _ ← CHECK_IF_ARR var "solutions";
  _ ← when (length (Config.arr_ var) =? 0)%nat (throw_error (lit "Simfile: missing solution"));
  _ ← modify (set_solutions []);
  load_solutions_loop (Config.arr_ var).

(** [std::numeric_limits<uint64_t>::max() >> 20] *)
Definition max_mem_limit : Z := Z.shiftr (2 ^ 64 - 1) 20.

(** [x << 20] on [uint64_t]. *)
Definition shl20 (x : Z) : Z := Z.shiftl x 20 mod 2 ^ 64.

Definition invalid_mem_limit {A} : stm Simfile A :=
  throw_error (lit "Simfile: invalid memory_limit - it has to be a positive integer").

Definition load_global_memory_limit_only : stm Simfile unit :=
  ml ← get_config "memory_limit";
  _ ← CHECK_IF_NOT_ARR ml "memory_limit";
  if Config.is_set ml then
    _ ← when (negb (is_digit_not_greater_than (to_string max_mem_limit) (Config.str_ ml)))
          (_ ← when (negb (is_digit_str (Config.str_ ml))) invalid_mem_limit;
           throw_error (lit "Simfile: too big value of the `memory_limit`"));
    v ← lift (value_or_throw (Config.as_int uint64 ml));
    let gml := shl20 v in
    _ ← when (gml <=? 0) invalid_mem_limit;
    modify (set_global_mem_limit (Some gml))
  else modify (set_global_mem_limit None).

(** Items of the arrays: words separated by white space. *)
Definition next_word (buff : str) : str * str := extract_next_non_empty is_space buff.

Definition runtime_error {A} (what : str) : outcome A := Throw (RuntimeError what).

Definition parse_limits_item (item : str) : outcome (str * Z * option Z) :=
  let (test_name, sp) := next_word item in
  let (x, sp) := next_word sp in
  if negb (is_real x) then
    runtime_error (lit "Simfile: invalid time limit for the test `" ++ test_name ++ lit "`")
  else
    tl ← stod x;
    if Qle_bool tl 0 then
      runtime_error (lit "Simfile: invalid time limit of the test `" ++ test_name ++
        lit "` - it has to be grater than 0")
    else
      time_limit ← round_to_nanoseconds tl;
      if time_limit =? 0 then
        runtime_error (lit "Simfile: time limit of the test `" ++ test_name ++
          lit "` is to small - after rounding it is equal to 0 " ++
          lit "nanoseconds, but it has to be at least 1 nanosecond")
      else
        let sp := SV.remove_leading is_space sp in
        if SV.empty sp then Ok (test_name, time_limit, None)
        else
          match str2num_in uint64 sp 1 max_mem_limit with
          | None =>
              runtime_error (lit "Simfile: invalid memory limit for the test `" ++ test_name ++
                lit "` - it has to be a positive integer not greater than" ++ to_string max_mem_limit)
          | Some ml => Ok (test_name, time_limit, Some (shl20 ml))
          end.

Definition parse_scoring_item (item : str) : outcome (str * Z) :=
  let (gid, sp) := next_word item in
  if negb (is_digit_str gid) then
    runtime_error (lit "Simfile: scoring of the invalid group `" ++ gid ++
      lit "` - it has to be a positive integer")
  else
    let sp := SV.remove_leading is_space sp in
    match str2num int64 sp with
    | None =>
        runtime_error (lit "Simfile: invalid scoring of the group `" ++ gid ++ lit "`: " ++ sp ++ lit " ")
    | Some score => Ok (gid, score)
    end.

Definition parse_test_files_item (item : str) : outcome (str * str * str) :=
  let (name, sp) := next_word item in
  let (input, sp) := next_word sp in
  let (output, sp) := next_word sp in
  let sp := SV.remove_leading is_space sp in
  if negb (SV.empty sp) then
    runtime_error (lit "Simfile: `tests_files`: invalid format of entry for test `" ++ name ++
      lit "` - excess part: " ++ sp)
  else Ok (name, input, output).

(** *** Tests and their groups *)

(** [std::map<StringView, TestGroup, StrNumCompare>] and the two maps ordered by
    [operator<] of [StringView]. *)
Abbreviation tests_groups_t := (list (str * TestGroup)).

Definition add_test_to_group (t : Test) (g : TestGroup) : TestGroup :=
  mkTestGroup (tests g ++ [t]) (score g).

(** The group a test belongs to. *)
Definition test_gid (test_name : str) : str :=
  let (gid, tid) := split test_name in
  if is_ocen tid then lit "0" else gid.

(** One iteration of the loop over [limits]. *)
Definition add_limits_item (gml : option Z) (groups : tests_groups_t) (item : str) :
    outcome tests_groups_t :=
  '(test_name, time_limit, memory_limit) ← parse_limits_item item;
  memory_limit ←
    match memory_limit with
    | Some ml => Ok ml
    | None =>
        match gml with
        | Some ml => Ok ml
        | None => runtime_error (lit "Simfile: missing memory limit for the test `" ++ test_name ++ lit "`")
        end
    end;
  if SV.empty (split test_name).1 then
    runtime_error (lit "Simfile: missing group id in the name of the test `" ++ test_name ++ lit "`")
  else
    Ok (map_update StrNumCompare (test_gid test_name) empty_group
      (add_test_to_group (new_test test_name time_limit memory_limit)) groups).

Fixpoint add_limits (gml : option Z) (groups : tests_groups_t) (items : list str) :
    outcome tests_groups_t :=
  match items with
  | [] => Ok groups
  | item :: items' =>
      groups' ← add_limits_item gml groups item;
      add_limits gml groups' items'
  end.

(** Automatic scoring: 100 points over the groups other than [0].  A group may
    only get a share while [groups_no] is positive (the [assert]; without it the
    division is by zero). *)
Fixpoint auto_scoring (groups_no total_score : Z) (groups : tests_groups_t) : outcome tests_groups_t :=
  match groups with
  | [] => Ok []
  | (gid, group) :: groups' =>
      if negb (SV.eqb gid (lit "0")) then
        if groups_no <=? 0 then UB
        else
          let s := total_score / groups_no in
          rest ← auto_scoring (groups_no - 1) (total_score - s) groups';
          Ok ((gid, set_score group s) :: rest)
      else
        rest ← auto_scoring groups_no total_score groups';
        Ok ((gid, group) :: rest)
  end.

(** Explicit scoring: the map from group id to score... *)
Fixpoint gid_to_score (groups : tests_groups_t) (m : list (str * Z)) (items : list str) :
    outcome (list (str * Z)) :=
  match items with
  | [] => Ok m
  | item :: items' =>
      '(gid, score) ← parse_scoring_item item;
      match map_find StrNumCompare gid groups with
      | None =>
          runtime_error (lit "Simfile: scoring of the invalid group `" ++ gid ++
            lit "` - there is no test belonging to this group")
      | Some _ =>
          let (m', inserted) := map_emplace SV.ltb gid score m in
          if negb inserted then
            runtime_error (lit "Simfile: redefined scoring of the group `" ++ gid ++ lit "`")
          else gid_to_score groups m' items'
      end
  end.

(** ... and its use. *)
Fixpoint assign_scoring (m : list (str * Z)) (groups : tests_groups_t) : outcome tests_groups_t :=
  match groups with
  | [] => Ok []
  | (gid, group) :: groups' =>
      match map_find SV.ltb gid m with
      | None => runtime_error (lit "Simfile: missing scoring of the group `" ++ gid ++ lit "`")
      | Some s =>
          rest ← assign_scoring m groups';
          Ok ((gid, set_score group s) :: rest)
      end
  end.

Definition score_groups (scoring : Config.ConfigVariable) (groups : tests_groups_t) :
    outcome tests_groups_t :=
  if negb (Config.is_set scoring) then
    auto_scoring (Z.of_nat (length groups) - Z.of_nat (map_count StrNumCompare (lit "0") groups)) 100 groups
  else
    m ← gid_to_score groups [] (Config.arr_ scoring);
    assign_scoring m groups.

Section Load.
Context `{StdSort}.

Definition sort_tests (group : TestGroup) : TestGroup :=
  mkTestGroup (std_sort (fun a b => TestNameComparator (test_name a) (test_name b)) (tests group))
    (score group).

Definition load_tests : stm Simfile unit :=
  _ ← load_global_memory_limit_only;
  limits ← get_config "limits";
  _ ← CHECK_IF_ARR limits "limits";
  _ ← when (negb (Config.is_set limits)) (throw_error (lit "Simfile: missing limits array"));
  gml ← gets global_mem_limit;
  groups ← lift (add_limits gml [] (Config.arr_ limits));
  scoring ← get_config "scoring";
  _ ← CHECK_IF_ARR scoring "scoring";
  groups ← lift (score_groups scoring groups);
  modify (set_tgroups (sort_tests <$> groups.*2)).

(** *** Files of the tests *)

Fixpoint read_tests_files (inter : bool) (files : list (str * (str * str))) (items : list str) :
    outcome (list (str * (str * str))) :=
  match items with
  | [] => Ok files
  | item :: items' =>
      '(test_name, in_file, out_file) ← parse_test_files_item item;
      if SV.empty test_name then read_tests_files inter files items'
      else if SV.empty in_file then
        runtime_error (lit "Simfile: `test_files`: missing input file for test `" ++ test_name ++ lit "`")
      else if inter && negb (SV.empty out_file) then
        runtime_error (lit "Simfile: `test_files`: output file specified for test `" ++ test_name ++
          lit "`, but interactive problems have no test output files")
      else if negb inter && SV.empty out_file then
        runtime_error (lit "Simfile: `test_files`: missing output file for test: `" ++ test_name ++ lit "`")
      else
        let (files', inserted) := map_emplace SV.ltb test_name (in_file, out_file) files in
        if negb inserted then
          runtime_error (lit "Simfile: `test_files`: redefinition of the test `" ++ test_name ++ lit "`")
        else read_tests_files inter files' items'
  end.

(** What the loop body does to one test. *)
Definition assign_files (inter : bool) (files : list (str * (str * str))) (t : Test) : outcome Test :=
  match map_find SV.ltb (test_name t) files with
  | None => runtime_error (lit "Simfile: no files specified for the test `" ++ test_name t ++ lit "`")
  | Some (i, o) =>
      i ← secure_path i;
      if inter then Ok (set_files t i None)
      else
        o ← secure_path o;
        Ok (set_files t i (Some o))
  end.

(** The loop over the tests of a group and over the groups; the elements before
    the one that throws are already changed. *)
Fixpoint for_each {A} (f : A -> outcome A) (l : list A) : list A * outcome unit :=
  match l with
  | [] => ([], Ok tt)
  | x :: l' =>
      match f x with
      | Ok y => let (l'', r) := for_each f l' in (y :: l'', r)
      | Throw e => (l, Throw e)
      | UB => (l, UB)
      | NoFuel => (l, NoFuel)
      end
  end.

Fixpoint for_each_group (f : Test -> outcome Test) (gs : list TestGroup) : list TestGroup * outcome unit :=
  match gs with
  | [] => ([], Ok tt)
  | g :: gs' =>
      let (ts, r) := for_each f (tests g) in
      let g' := mkTestGroup ts (score g) in
      match r with
      | Ok _ => let (gs'', r) := for_each_group f gs' in (g' :: gs'', r)
      | Throw e => (g' :: gs', Throw e)
      | UB => (g' :: gs', UB)
      | NoFuel => (g' :: gs', NoFuel)
      end
  end.

Definition update_tests (f : Test -> outcome Test) : stm Simfile unit :=
  fun s => let (gs, r) := for_each_group f (tgroups s) in (set_tgroups gs s, r).

Definition load_tests_files : stm Simfile unit :=
  _ ← load_interactive;
  tests_files ← get_config "tests_files";
  _ ← CHECK_IF_ARR tests_files "tests_files";
  _ ← when (negb (Config.is_set tests_files)) (throw_error (lit "Simfile: missing tests_files array"));
  inter ← gets interactive;
  files ← lift (read_tests_files inter [] (Config.arr_ tests_files));
  update_tests (assign_files inter files).

Definition load_tests_with_files : stm Simfile unit :=
  _ ← load_tests;
  load_tests_files.

Definition load_all : stm Simfile unit :=
  _ ← load_name;
  _ ← load_label;
  _ ← load_checker;
  _ ← load_statement;
  _ ← load_solutions;
  load_tests_with_files.
End Load.

(** ** Validation of the files *)

Section Validate.
(** [is_regular_file] asks the file system. *)
Variable is_regular_file : str -> bool.
Variable package_path : str.

Definition in_package (p : str) : bool := is_regular_file (package_path ++ lit "/" ++ p).

Definition validate_test (t : Test) : outcome unit :=
  if negb (in_package (test_in t)) then
    runtime_error (lit "Simfile: invalid test input file `" ++ test_in t ++ lit "`")
  else
    match test_out t with
    | Some o =>
        if negb (in_package o) then
          runtime_error (lit "Simfile: invalid test output file `" ++ o ++ lit "`")
        else Ok tt
    | None => Ok tt
    end.

Fixpoint check_all {A} (f : A -> outcome unit) (l : list A) : outcome unit :=
  match l with
  | [] => Ok tt
  | x :: l' => _ ← f x; check_all f l'
  end.

Definition validate_files (s : Simfile) : outcome unit :=
  _ ← match checker s with
      | Some c =>
          if SV.empty c || negb (in_package c) then
            runtime_error (lit "Simfile: invalid checker file `" ++ c ++ lit "`")
          else Ok tt
      | None => Ok tt
      end;
  _ ← match statement s with
      | Some p =>
          if negb (in_package p) then
            runtime_error (lit "Simfile: invalid statement file `" ++ p ++ lit "`")
          else Ok tt
      | None => Ok tt
      end;
  _ ← check_all (fun p =>
        if negb (in_package p) then runtime_error (lit "Simfile: invalid solution file `" ++ p ++ lit "`")
        else Ok tt) (solutions s);
  check_all (fun g => check_all validate_test (tests g)) (tgroups s).
End Validate.

(** ** Printing *)

Definition dump_scoring_item (group : TestGroup) : str :=
  match tests group with
  | [] => []
  | t :: _ =>
      [TAB] ++ Config.escape_string (test_gid (test_name t) ++ lit " " ++ to_string (score group)) ++ [NL]
  end.

(** [append_scoring_value] *)
Definition dump_scoring_value (s : Simfile) : str :=
  lit "[" ++ [NL] ++ flat_map dump_scoring_item (tgroups s) ++ lit "]".

(** The line of a test: its memory limit is left out when it is the global one. *)
Definition limits_line (gml : option Z) (t : Test) : outcome str :=
  tl ← duration_to_string 9 (time_limit t) true;
  let line := test_name t ++ lit " " ++ tl in
  if bool_decide (gml = Some (memory_limit t)) then Ok line
  else Ok (line ++ lit " " ++ to_string (Z.shiftr (memory_limit t) 20)).

Definition dump_limits_item (gml : option Z) (t : Test) : outcome str :=
  line ← limits_line gml t;
  Ok ([TAB] ++ Config.escape_string line ++ [NL]).

(** Concatenation of the texts of the elements. *)
Fixpoint concat_map {A} (f : A -> outcome str) (l : list A) : outcome str :=
  match l with
  | [] => Ok []
  | x :: l' => a ← f x; b ← concat_map f l'; Ok (a ++ b)
  end.

Definition dump_limits_group (gml : option Z) (group : TestGroup) : outcome str :=
  items ← concat_map (dump_limits_item gml) (tests group);
  Ok ((if (length (tests group) =? 0)%nat then [] else [NL]) ++ items).

(** [append_limits_value] *)
Definition dump_limits_value (s : Simfile) : outcome str :=
  body ← concat_map (dump_limits_group (global_mem_limit s)) (tgroups s);
  Ok (lit "[" ++ body ++ lit "]").

(** A test with its files; [test.out.value()] throws when it is not set. *)
Definition dump_files_item (inter : bool) (t : Test) : outcome str :=
  if SV.empty (test_in t) then Ok []
  else if inter then
    Ok ([TAB] ++ Config.escape_string (test_name t ++ lit " " ++ test_in t) ++ [NL])
  else
    o ← value_or_throw (test_out t);
    if SV.empty o then Ok []
    else Ok ([TAB] ++ Config.escape_string (test_name t ++ lit " " ++ test_in t ++ lit " " ++ o) ++ [NL]).

Definition dump_optional (nm : string) (v : option str) : str :=
  match v with
  | Some v => lit nm ++ lit ": " ++ Config.escape_string v ++ [NL]
  | None => []
  end.

Definition dump (s : Simfile) : outcome str :=
  limits ← dump_limits_value s;
  files ← concat_map (fun g => concat_map (dump_files_item (interactive s)) (tests g)) (tgroups s);
  Ok (dump_optional "name" (name s) ++
      dump_optional "label" (label s) ++
      (if interactive s then lit "interactive: " ++ to_string_bool (interactive s) ++ [NL] else []) ++
      dump_optional "statement" (statement s) ++
      dump_optional "checker" (checker s) ++
      lit "solutions: [" ++ join (lit ", ") (Config.escape_string <$> solutions s) ++ lit "]" ++ [NL] ++
      (match global_mem_limit s with
       | Some ml => if 2 ^ 20 <=? ml then lit "memory_limit: " ++ to_string (Z.shiftr ml 20) ++ [NL] else []
       | None => []
       end) ++
      lit "limits: " ++ limits ++ [NL] ++
      (if (length (tgroups s) =? 0)%nat then []
       else lit "scoring: " ++ dump_scoring_value s ++ [NL]) ++
      lit "tests_files: [" ++ [NL] ++ files ++ lit "]" ++ [NL]).
