(* ===== verification/SimfileTests.v ===== *)
(** * Tests, groups and scoring of a Simfile

    What [load_tests] of [src/sim/simfile.cc] builds: the order of the test names
    and of the groups, the distribution of the automatic scoring and the
    grouping of the tests. *)

From Stdlib Require Import ZArith QArith Lia Ascii Sorted.
From S2P Require Import Prelude.
From S2P Require Import StdMap.
From S2P Require Import Ctype.
From S2P Require Import StringView.
From S2P Require Import StringTraits.
From S2P Require Import StringCompare.
From S2P Require Import StringTransform.
From S2P Require Import Floats.
From S2P Require Import Time.
From S2P Require Import SimpleParser.
From S2P Require Import Path.
From S2P Require Import ConfigFile.
From S2P Require Import Simfile.
Local Open Scope Z_scope.

(** ** Orders *)

#[export] Instance swo_Z : StrictWeakOrder any Z.ltb.
Proof. constructor; unfold any; intros; lia. Qed.

#[export] Instance swo_ltb : StrictWeakOrder any SV.ltb.
Proof.
  constructor; unfold any.
  - intros a _. apply SV.ltb_irrefl.
  - intros a b c _ _ _. apply SV.ltb_trans.
  - intros a b c _ _ _ H1 H2. destruct (SV.ltb a c) eqn:E; [|done].
    destruct (SV.ltb b a) eqn:E2.
    + by rewrite (SV.ltb_trans b a c) in H2.
    + rewrite (SV.ltb_total a b) in E by done. congruence.
Qed.

(** A comparator that compares keys is a strict weak order when the order of the
    keys is one. *)
Lemma swo_key {K L} (P : K -> Prop) (f : K -> L) (lessL : L -> L -> bool) (lessK : K -> K -> bool) :
  StrictWeakOrder any lessL ->
  (forall a b, P a -> P b -> lessK a b = lessL (f a) (f b)) ->
  StrictWeakOrder P lessK.
Proof.
  intros W E. constructor.
  - intros a Ha. rewrite E by done. by apply (swo_irrefl (P := any)).
  - intros a b c Ha Hb Hc. rewrite !E by done. by apply (swo_trans (P := any)).
  - intros a b c Ha Hb Hc. rewrite !E by done. by apply (swo_incomp (P := any)).
Qed.

(** Lexicographic product of two orders. *)
Definition lex_less {A B} (la : A -> A -> bool) (lb : B -> B -> bool) (x y : A * B) : bool :=
  la x.1 y.1 || (equiv la x.1 y.1 && lb x.2 y.2).

#[export] Instance swo_lex {A B} (la : A -> A -> bool) (lb : B -> B -> bool) :
  StrictWeakOrder any la -> StrictWeakOrder any lb -> StrictWeakOrder any (lex_less la lb).
Proof.
  intros Wa Wb. unfold lex_less. constructor; unfold any.
  - intros [a b] _. cbn [fst snd]. by rewrite less_irrefl, (less_irrefl lb), andb_false_r.
  - intros [a1 b1] [a2 b2] [a3 b3] _ _ _. cbn [fst snd]. intros H1 H2.
    apply orb_true_iff in H1 as [H1|H1], H2 as [H2|H2].
    + by rewrite (less_trans la a1 a2 a3).
    + apply andb_true_iff in H2 as [H2 _]. by rewrite <- (less_equiv_r la a2 a3 a1 H2), H1.
    + apply andb_true_iff in H1 as [H1 _]. by rewrite (less_equiv_l la a1 a2 a3 H1), H2.
    + apply andb_true_iff in H1 as [H1 H3], H2 as [H2 H4].
      unfold equiv in *. rewrite (less_equiv_l la a1 a2 a3 H1), (less_equiv_r la a1 a2 a3 H1), H2.
      rewrite (less_trans lb b1 b2 b3) by done. by rewrite orb_true_r.
  - intros [a1 b1] [a2 b2] [a3 b3] _ _ _. cbn [fst snd]. intros H1 H2.
    apply orb_false_iff in H1 as [H1 H3], H2 as [H2 H4].
    rewrite (less_incomp la a1 a2 a3) by done. cbn [orb].
    destruct (equiv la a1 a3) eqn:E; [|done]. cbn [andb].
    assert (less_eq : la a2 a1 = la a2 a3) by (by apply less_equiv_r).
    assert (la a1 a2 = la a3 a2) as less_eq2 by (by apply less_equiv_l).
    assert (equiv la a1 a2 = true) as E1.
    { unfold equiv. rewrite H1, less_eq, H2. done. }
    assert (equiv la a2 a3 = true) as E2.
    { unfold equiv. rewrite H2, <- less_eq2, H1. done. }
    rewrite E1 in H3. rewrite E2 in H4. by apply (less_incomp lb b1 b2 b3).
Qed.

(** [StrNumCompare] orders by length, then lexicographically, after the leading
    zeros. *)
#[export] Instance swo_StrNumCompare : StrictWeakOrder any StrNumCompare.
Proof.
  apply (swo_key any (fun s => let s := SV.remove_leading_char "0" s in (Z.of_nat (length s), s))
    (lex_less Z.ltb SV.ltb)).
  - apply _.
  - intros a b _ _. unfold StrNumCompare, lex_less, equiv. cbn [fst snd].
    set (x := SV.remove_leading_char "0" a). set (y := SV.remove_leading_char "0" b).
    destruct (Nat.eqb_spec (length x) (length y)) as [->|Hne].
    + rewrite Z.ltb_irrefl. done.
    + destruct (Nat.ltb_spec (length x) (length y)), (Z.ltb_spec (Z.of_nat (length x)) (Z.of_nat (length y))),
        (Z.ltb_spec (Z.of_nat (length y)) (Z.of_nat (length x))); try lia; done.
Qed.

(** *** Test names *)

Lemma split_gid_digits n : digits (split n).1.
Proof.
  unfold split. unfold SV.extract_trailing. cbn [fst].
  apply Forall_rev. apply take_while_forall.
Qed.

Lemma digits_zero s : digits s -> SV.empty (SV.remove_leading_char "0" s) = (num s =? 0).
Proof.
  intros H. rewrite <- num_remove_zeros.
  assert (digits (SV.remove_leading_char "0" s)) as H' by (by apply digits_drop_while).
  unfold SV.remove_leading_char in *.
  destruct (drop_while (fun x => x =c "0") s) as [|c l] eqn:E; [done|].
  apply drop_while_head, char_eqb_neq in E. pose proof (num_lower c l H' E).
  pose proof (Z.pow_pos_nonneg 10 (Z.of_nat (length l)) ltac:(lia) ltac:(lia)).
  change (SV.empty (c :: l)) with false. destruct (Z.eqb_spec (num (c :: l)) 0); [lia|done].
Qed.

(** A group id without superfluous leading zeros is determined by its number. *)
Definition canonical (gid : str) : Prop := gid = lit "0" \/ SV.remove_leading_char "0" gid = gid.

Lemma canonical_inj a b : digits a -> digits b -> canonical a -> canonical b -> a <> [] -> b <> [] ->
  num a = num b -> a = b.
Proof.
  intros Da Db Ha Hb Na Nb E.
  assert (forall s, s <> [] -> SV.remove_leading_char "0" s = s -> SV.empty (SV.remove_leading_char "0" s) = false) as Hne.
  { intros s Hs ->. by destruct s. }
  assert (forall x y, digits x -> digits y -> SV.remove_leading_char "0" x = x ->
    SV.remove_leading_char "0" y = y -> num x = num y -> x = y) as Hinj.
  { intros x y Dx Dy Hx Hy Exy.
    assert (StrNumCompare x y = false /\ StrNumCompare y x = false) as [H1 H2].
    { rewrite !StrNumCompare_spec by done. rewrite Exy, Z.ltb_irrefl. done. }
    unfold StrNumCompare in H1, H2. rewrite Hx, Hy in H1, H2.
    destruct (Nat.eqb_spec (length x) (length y)) as [El|El].
    - rewrite El, Nat.eqb_refl in H2. by apply SV.ltb_total.
    - destruct (Nat.eqb_spec (length y) (length x)); [lia|].
      destruct (Nat.ltb_spec (length x) (length y)), (Nat.ltb_spec (length y) (length x)); lia || done. }
  destruct Ha as [->|Ha], Hb as [->|Hb]; [done| | |by apply Hinj].
  - pose proof (Hne b Nb Hb) as C. rewrite digits_zero, <- E in C by done. done.
  - pose proof (Hne a Na Ha) as C. rewrite digits_zero, E in C by done. done.
Qed.

(** The key a test name is ordered by: group 0, then the [ocen] tests by their
    number, then the other groups; inside a group by the test id. *)
Definition name_key (n : str) : Z * (Z * str) :=
  let (gid, tid) := split n in
  if is_ocen tid then (1, (num gid, []))
  else (if num gid =? 0 then 0 else num gid + 1, (0, tid)).

(** Names whose group ids, when equal as numbers, are equal as texts. *)
Definition canonical_name (n : str) : Prop :=
  (split n).1 <> [] /\ (is_ocen (split n).2 = false -> canonical (split n).1).

Lemma num_nonneg s : digits s -> 0 <= num s.
Proof. intros H. by apply num_bound in H as []. Qed.

Lemma TestNameComparator_key a b : canonical_name a -> canonical_name b ->
  TestNameComparator a b =
  lex_less Z.ltb (lex_less Z.ltb SV.ltb) (name_key a) (name_key b).
Proof.
  intros [Na Ca] [Nb Cb]. unfold TestNameComparator, name_key.
  pose proof (split_gid_digits a) as Da. pose proof (split_gid_digits b) as Db.
  destruct (split a) as [xg xt], (split b) as [yg yt]. cbn [fst snd] in *.
  pose proof (num_nonneg xg Da). pose proof (num_nonneg yg Db).
  unfold lex_less, equiv.
  destruct (is_ocen xt), (is_ocen yt); cbn [fst snd].
  - rewrite StrNumCompare_spec by done. rewrite SV.ltb_irrefl, andb_false_r, orb_false_r.
    rewrite Z.ltb_irrefl. done.
  - rewrite digits_zero by done. destruct (Z.eqb_spec (num yg) 0); [done|].
    destruct (Z.ltb_spec 1 (num yg + 1)); [done|lia].
  - rewrite digits_zero by done. destruct (Z.eqb_spec (num xg) 0); [done|].
    destruct (Z.ltb_spec (num xg + 1) 1), (Z.ltb_spec 1 (num xg + 1)); try lia; done.
  - rewrite SV.eqb_decide, StrNumCompare_spec by done. rewrite Z.ltb_irrefl. cbn [orb andb negb].
    destruct (bool_decide_reflect (xg = yg)) as [->|Hne].
    + rewrite !Z.ltb_irrefl. done.
    + assert (num xg <> num yg) as Hn.
      { intros E. apply Hne. apply canonical_inj; auto. }
      destruct (Z.eqb_spec (num xg) 0), (Z.eqb_spec (num yg) 0); try lia;
        repeat match goal with |- context [?u <? ?v] => destruct (Z.ltb_spec u v) end; try lia; done.
Qed.

Lemma TestNameComparator_swo : StrictWeakOrder canonical_name TestNameComparator.
Proof. eapply swo_key; [|apply TestNameComparator_key]. apply _. Qed.

(** On test names with canonical group ids the comparator the tests are
    sorted with is a strict weak order, which [std::sort] requires. *)
Theorem TestNameComparator_strict_weak_order : StrictWeakOrder canonical_name TestNameComparator.
Proof. apply TestNameComparator_swo. Qed.

(** Without that, incomparability is not transitive: [1a] and [01b], [01b]
    and [1c] are incomparable, but [1a] comes before [1c]. *)
Theorem TestNameComparator_not_weak_order :
  equiv TestNameComparator (lit "1a") (lit "01b") = true /\
  equiv TestNameComparator (lit "01b") (lit "1c") = true /\
  TestNameComparator (lit "1a") (lit "1c") = true.
Proof. vm_compute. auto. Qed.

(** ** Automatic scoring *)

Definition is_zero_gid (gid : str) : bool := SV.eqb gid (lit "0").

(** The groups that share the points, and the points they got. *)
Definition scored (groups : tests_groups_t) : tests_groups_t :=
  List.filter (fun e => negb (is_zero_gid e.1)) groups.

Definition sum_scores (groups : tests_groups_t) : Z :=
  foldr (fun e acc => score e.2 + acc) 0 (scored groups).

(** Nothing but the scores differs. *)
Definition same_tests (a b : tests_groups_t) : Prop :=
  Forall2 (fun x y => x.1 = y.1 /\ tests x.2 = tests y.2 /\
    (is_zero_gid x.1 = true -> score x.2 = score y.2)) a b.

(** With [q * n <= total <= (q + 1) * n] for the [n] groups left, each of them
    gets [q] or [q + 1] points and they get [total] together. *)
Lemma auto_scoring_spec groups : forall total q,
  let n := Z.of_nat (length (scored groups)) in
  q * n <= total <= (q + 1) * n -> 0 <= q ->
  exists groups', auto_scoring n total groups = Ok groups' /\ same_tests groups groups' /\
    sum_scores groups' = total /\
    Forall (fun e => is_zero_gid e.1 = false -> q <= score e.2 <= q + 1) groups'.
Proof.
  induction groups as [|[gid g] groups IH]; intros total q n Hq Hq0.
  { exists []. split_and!; [done|constructor| |constructor]. subst n. simpl in Hq. unfold sum_scores. simpl. lia. }
  cbn [auto_scoring]. fold (is_zero_gid gid). subst n. unfold scored in *. cbn [List.filter fst] in *.
  destruct (is_zero_gid gid) eqn:Z0; cbn [negb] in *.
  - destruct (IH total q Hq Hq0) as (gs & E & S & Sum & F). rewrite E. cbn [mbind outcome_bind].
    eexists. split; [reflexivity|]. split_and!.
    + constructor; [|done]. done.
    + unfold sum_scores, scored in *. cbn [List.filter fst]. by rewrite Z0.
    + constructor; [|done]. cbn [fst snd]. congruence.
  - rewrite length_cons, Nat2Z.inj_succ in *. set (m := Z.of_nat (length (List.filter _ groups))) in *.
    assert (0 <= m) by (subst m; lia).
    destruct (Z.leb_spec (Z.succ m) 0); [lia|].
    set (s := total / Z.succ m).
    assert (q <= s <= q + 1 /\ q * m <= total - s <= (q + 1) * m) as [Hs Hr].
    { pose proof (Z.div_mod total (Z.succ m) ltac:(lia)) as E. fold s in E.
      pose proof (Z.mod_pos_bound total (Z.succ m) ltac:(lia)) as B.
      assert (q <= s <= q + 1) by nia. nia. }
    replace (Z.succ m - 1) with m by lia.
    destruct (IH (total - s) q Hr Hq0) as (gs & E & S & Sum & F). fold m in E. rewrite E.
    cbn [mbind outcome_bind]. eexists. split; [reflexivity|]. split_and!.
    + constructor; [|done]. cbn [fst snd]. split_and!; [done|done|congruence].
    + unfold sum_scores, scored in *. cbn [List.filter fst]. rewrite Z0. cbn [negb foldr snd score set_score]. lia.
    + constructor; [|done]. cbn [snd score set_score]. intros _. lia.
Qed.

(** The ids of the groups are digit strings; the number zero is only written
    [0]. *)
Definition gids_ok (groups : tests_groups_t) : Prop :=
  Forall (fun gid => digits gid /\ (num gid = 0 -> gid = lit "0")) groups.*1.

Lemma equiv_num a b : digits a -> digits b -> equiv StrNumCompare a b = (num a =? num b).
Proof. intros Ha Hb. unfold equiv. rewrite !StrNumCompare_spec by done. lia. Qed.

Lemma scored_count groups : map_sorted StrNumCompare groups -> gids_ok groups ->
  (length groups = length (scored groups) + map_count StrNumCompare (lit "0") groups)%nat.
Proof.
  intros Hs Hg. assert (digits (lit "0")) as D0 by repeat constructor.
  unfold map_count. revert Hs Hg. unfold scored, gids_ok, map_sorted.
  induction groups as [|[gid g] groups IH]; [done|].
  cbn [List.filter map_find fst fmap list_fmap length]. intros Hs Hg.
  apply StronglySorted_inv in Hs as [Hs Hl]. inversion Hg as [|? ? [Hd Hz] Hg']; subst.
  specialize (IH Hs Hg'). rewrite !StrNumCompare_spec by done. change (num (lit "0")) with 0.
  pose proof (num_nonneg gid Hd). unfold is_zero_gid at 1. rewrite SV.eqb_decide.
  destruct (bool_decide_reflect (gid = lit "0")) as [->|Hne]; cbn [negb].
  - change (num (lit "0") <? 0) with false. change (0 <? num (lit "0")) with false. cbn match.
    destruct (map_find StrNumCompare (lit "0") groups) as [v|] eqn:E; [|lia].
    exfalso. apply map_find_elem in E as (k & Hk & Ek).
    assert (k ∈ groups.*1) as Hk' by (apply list_elem_of_fmap; by exists (k, v)).
    rewrite Forall_forall in Hl. apply Hl in Hk'. unfold equiv in Ek. rewrite Hk' in Ek. done.
  - destruct (Z.ltb_spec (num gid) 0); [lia|]. destruct (Z.ltb_spec 0 (num gid)); cbn [length].
    + destruct (map_find StrNumCompare (lit "0") groups) as [v|] eqn:E; [|lia].
      exfalso. apply map_find_elem in E as (k & Hk & Ek).
      assert (k ∈ groups.*1) as Hk' by (apply list_elem_of_fmap; by exists (k, v)).
      rewrite Forall_forall in Hl, Hg'. pose proof (Hl _ Hk') as Hlt. destruct (Hg' _ Hk') as [Dk _].
      rewrite equiv_num in Ek by done. rewrite StrNumCompare_spec in Hlt by done. change (num (lit "0")) with 0 in Ek. lia.
    + exfalso. apply Hne, Hz. lia.
Qed.

(** When the Simfile has no [scoring], the 100 points are divided over the
    groups other than [0]: each gets 100 / n points rounded down or up, they add
    up to 100, and neither the tests nor the order of the groups change. *)
Theorem automatic_scoring_distributes_100 scoring groups :
  Config.is_set scoring = false -> map_sorted StrNumCompare groups -> gids_ok groups ->
  scored groups <> [] ->
  let n := Z.of_nat (length (scored groups)) in
  exists groups', score_groups scoring groups = Ok groups' /\ same_tests groups groups' /\
    sum_scores groups' = 100 /\
    Forall (fun e => is_zero_gid e.1 = false -> 100 / n <= score e.2 <= 100 / n + 1) groups'.
Proof.
  intros Hset Hs Hg Hne n. unfold score_groups. rewrite Hset. cbn [negb].
  pose proof (scored_count groups Hs Hg) as Hc.
  replace (Z.of_nat (length groups) - Z.of_nat (map_count StrNumCompare (lit "0") groups)) with n
    by (unfold n; lia).
  assert (0 < n) by (unfold n; destruct (scored groups); [done|rewrite length_cons; lia]).
  apply auto_scoring_spec; [fold n|apply Z.div_pos; lia].
  pose proof (Z.div_mod 100 n ltac:(lia)). pose proof (Z.mod_pos_bound 100 n ltac:(lia)). nia.
Qed.

Definition three_groups : tests_groups_t :=
  [(lit "0", empty_group); (lit "1", empty_group); (lit "2", empty_group); (lit "3", empty_group)].

Lemma automatic_scoring_distributes_100_witness :
  exists groups', score_groups Config.null_var three_groups = Ok groups' /\ sum_scores groups' = 100.
Proof.
  destruct (automatic_scoring_distributes_100 Config.null_var three_groups) as (gs & E & _ & S & _).
  - reflexivity.
  - unfold map_sorted. repeat (constructor || reflexivity).
  - unfold gids_ok. repeat constructor; vm_compute; discriminate || reflexivity.
  - discriminate.
  - exists gs. split; [exact E|exact S].
Defined.

(** A group whose id is zero written with more than one digit is counted as
    the group [0] but scored like the others: the division is by zero groups. *)
Theorem automatic_scoring_division_by_zero :
  score_groups Config.null_var [(lit "00", empty_group)] = UB.
Proof. vm_compute. reflexivity. Qed.

(** ** Grouping *)

(** The test an item of [limits] describes. *)
Definition limits_test (gml : option Z) (item : str) : outcome Test :=
  '(n, tl, ml) ← parse_limits_item item;
  ml ←
    match ml with
    | Some ml => Ok ml
    | None =>
        match gml with
        | Some ml => Ok ml
        | None => runtime_error (lit "Simfile: missing memory limit for the test `" ++ n ++ lit "`")
        end
    end;
  if SV.empty (split n).1 then
    runtime_error (lit "Simfile: missing group id in the name of the test `" ++ n ++ lit "`")
  else Ok (new_test n tl ml).

(** Adding a test to the group its name says. *)
Definition add_test (groups : tests_groups_t) (t : Test) : tests_groups_t :=
  map_update StrNumCompare (test_gid (test_name t)) empty_group (add_test_to_group t) groups.

Lemma add_limits_item_eq gml groups item :
  add_limits_item gml groups item = t ← limits_test gml item; Ok (add_test groups t).
Proof.
  unfold add_limits_item, limits_test, add_test.
  destruct (parse_limits_item item) as [[[n tl] ml]| | |]; [|done..]. cbn [mbind outcome_bind].
  destruct ml as [ml|]; [|destruct gml as [ml|]; [|done]]; cbn [mbind outcome_bind];
    destruct (SV.empty (split n).1); done.
Qed.

Fixpoint all_ok {A B} (f : A -> outcome B) (l : list A) : outcome (list B) :=
  match l with
  | [] => Ok []
  | x :: l' => y ← f x; ys ← all_ok f l'; Ok (y :: ys)
  end.

Lemma add_limits_eq gml items : forall groups groups',
  add_limits gml groups items = Ok groups' <->
  exists ts, all_ok (limits_test gml) items = Ok ts /\ groups' = fold_left add_test ts groups.
Proof.
  induction items as [|item items IH]; intros groups groups'; cbn [add_limits all_ok].
  - split; [intros [= <-]; by exists []|]. by intros (ts & [= <-] & ->).
  - rewrite add_limits_item_eq. destruct (limits_test gml item) as [t| | |]; cbn [mbind outcome_bind];
      [|split; [done|by intros (? & ? & _)]..].
    rewrite IH. split.
    + intros (ts & E & ->). exists (t :: ts). rewrite E. done.
    + intros (ts & E & ->). destruct (all_ok (limits_test gml) items) as [ts'| | |]; try discriminate.
      injection E as <-. by exists ts'.
Qed.

Lemma all_ok_app {A B} (f : A -> outcome B) l1 l2 r1 r2 :
  all_ok f l1 = Ok r1 -> all_ok f l2 = Ok r2 -> all_ok f (l1 ++ l2) = Ok (r1 ++ r2).
Proof.
  revert r1. induction l1 as [|x l1 IH]; intros r1 H1 H2; cbn [all_ok app] in *.
  - by injection H1 as <-.
  - destruct (f x) as [y| | |]; try discriminate. cbn [mbind outcome_bind] in *.
    destruct (all_ok f l1) as [ys| | |]; try discriminate. injection H1 as <-.
    by rewrite (IH ys eq_refl H2).
Qed.

(** All the tests, in the order of the groups. *)
Definition all_tests (gs : list TestGroup) : list Test := concat (tests <$> gs).

(** A group of the map: not empty, and its tests belong to it. *)
Definition group_ok (e : str * TestGroup) : Prop :=
  digits e.1 /\ tests e.2 <> [] /\
  Forall (fun t => num (test_gid (test_name t)) = num e.1) (tests e.2).

Lemma test_gid_digits n : digits (test_gid n).
Proof.
  unfold test_gid. pose proof (split_gid_digits n). destruct (split n) as [gid tid].
  case_goal; [repeat constructor|done].
Qed.

Lemma add_test_inv groups t : map_sorted StrNumCompare groups -> Forall group_ok groups ->
  map_sorted StrNumCompare (add_test groups t) /\ Forall group_ok (add_test groups t) /\
  all_tests (add_test groups t).*2 ≡ₚ t :: all_tests groups.*2.
Proof.
  intros Hs Hg. unfold add_test. pose proof (test_gid_digits (test_name t)) as Dt.
  split; [by apply map_update_sorted; [apply _|]|]. clear Hs.
  induction Hg as [|[k g] groups (Hd & Hne & Hf) Hg IH]; cbn [map_update].
  - split; [|done]. constructor; [|constructor]. split_and!; [done|done|by repeat constructor].
  - destruct IH as [IH1 IH2]. cbn [fst snd] in *. rewrite !StrNumCompare_spec by done.
    destruct (Z.ltb_spec (num k) (num (test_gid (test_name t)))).
    + split; [constructor; [done|exact IH1]|].
      unfold all_tests in *. cbn [fmap list_fmap snd concat]. rewrite IH2. by rewrite Permutation_middle.
    + destruct (Z.ltb_spec (num (test_gid (test_name t))) (num k)).
      * split; [|done]. constructor; [|by constructor]. split_and!; [done|done|by repeat constructor].
      * split.
        -- constructor; [|done]. split_and!; [done|cbn [snd tests add_test_to_group]; by destruct (tests g)|]. cbn [snd fst tests add_test_to_group].
           apply Forall_app. split; [done|]. repeat constructor. lia.
        -- unfold all_tests. cbn [fmap list_fmap snd concat tests add_test_to_group].
           rewrite <- app_assoc. cbn [app]. by rewrite Permutation_middle.
Qed.

Lemma add_tests_inv ts : forall groups, map_sorted StrNumCompare groups -> Forall group_ok groups ->
  map_sorted StrNumCompare (fold_left add_test ts groups) /\
  Forall group_ok (fold_left add_test ts groups) /\
  all_tests (fold_left add_test ts groups).*2 ≡ₚ ts ++ all_tests groups.*2.
Proof.
  induction ts as [|t ts IH]; intros groups Hs Hg; cbn [fold_left app]; [done|].
  destruct (add_test_inv groups t Hs Hg) as (H1 & H2 & H3).
  destruct (IH _ H1 H2) as (H4 & H5 & H6). split_and!; [done|done|].
  rewrite H6, H3. by rewrite Permutation_middle.
Qed.

(** *** Scoring changes scores only *)

Definition only_scores (a b : tests_groups_t) : Prop :=
  Forall2 (fun x y => x.1 = y.1 /\ tests x.2 = tests y.2) a b.

Lemma auto_scoring_only_scores groups : forall n total groups',
  auto_scoring n total groups = Ok groups' -> only_scores groups groups'.
Proof.
  induction groups as [|[gid g] groups IH]; intros n total groups'; cbn [auto_scoring].
  - intros [= <-]. constructor.
  - destruct (negb _).
    + destruct (n <=? 0); [done|]. intros E. apply bind_Ok in E as (rest & E & [= <-]).
      constructor; [done|by eapply IH].
    + intros E. apply bind_Ok in E as (rest & E & [= <-]). constructor; [done|by eapply IH].
Qed.

Lemma assign_scoring_only_scores m groups : forall groups',
  assign_scoring m groups = Ok groups' -> only_scores groups groups'.
Proof.
  induction groups as [|[gid g] groups IH]; intros groups'; cbn [assign_scoring].
  - intros [= <-]. constructor.
  - destruct (map_find _ _ _); [|done]. intros E. apply bind_Ok in E as (rest & E & [= <-]).
    constructor; [done|by apply IH].
Qed.

Lemma score_groups_only_scores scoring groups groups' :
  score_groups scoring groups = Ok groups' -> only_scores groups groups'.
Proof.
  unfold score_groups. destruct (negb _); [apply auto_scoring_only_scores|].
  intros E. apply bind_Ok in E as (m & _ & E). by eapply assign_scoring_only_scores.
Qed.

Lemma only_scores_inv groups groups' : only_scores groups groups' ->
  map_sorted StrNumCompare groups -> Forall group_ok groups ->
  map_sorted StrNumCompare groups' /\ Forall group_ok groups' /\
  all_tests groups'.*2 = all_tests groups.*2.
Proof.
  intros H Hs Hg. assert (groups'.*1 = groups.*1) as E1.
  { clear Hs Hg. induction H as [|x y l l' [E _] _ IH]; [done|]. cbn [fmap list_fmap]. congruence. }
  split_and!; [unfold map_sorted in *; congruence| |].
  - clear Hs E1. induction H as [|x y l l' [E1 E2] _ IH]; [constructor|].
    inversion Hg as [|? ? (G1 & G2 & G3)]; subst. constructor; [|by apply IH].
    unfold group_ok. by rewrite <- E1, <- E2.
  - clear Hs Hg E1. unfold all_tests. induction H as [|x y l l' [_ E] _ IH]; [done|].
    cbn [fmap list_fmap concat]. by rewrite E, IH.
Qed.

Section Loaded.
Context `{StdSort}.

Definition test_less (a b : Test) : bool := TestNameComparator (test_name a) (test_name b).

Definition group_number (g : TestGroup) : Z :=
  match tests g with t :: _ => num (test_gid (test_name t)) | [] => 0 end.

(** A loaded group: not empty, sorted, of one number. *)
Definition loaded_group (g : TestGroup) : Prop :=
  tests g <> [] /\ sorted_by test_less (tests g) /\
  Forall (fun t => num (test_gid (test_name t)) = group_number g) (tests g).

Lemma sort_tests_perm g : Forall (fun t => canonical_name (test_name t)) (tests g) ->
  tests (sort_tests g) ≡ₚ tests g /\ sorted_by test_less (tests (sort_tests g)).
Proof.
  intros Hc. unfold sort_tests. cbn [tests]. apply std_sort_correct.
  apply (swo_subset (fun t => canonical_name (test_name t))).
  - intros x Hx. rewrite Forall_forall in Hc. auto.
  - apply swo_map, TestNameComparator_swo.
Qed.

Lemma sort_tests_group e : group_ok e -> Forall (fun t => canonical_name (test_name t)) (tests e.2) ->
  loaded_group (sort_tests e.2) /\ group_number (sort_tests e.2) = num e.1.
Proof.
  intros (Hd & Hne & Hf) Hc. destruct (sort_tests_perm e.2 Hc) as [Hp Hs].
  assert (tests (sort_tests e.2) <> []) as Hne'.
  { intros E. rewrite E in Hp. by apply Permutation_nil_l in Hp. }
  rewrite <- Hp in Hf.
  assert (group_number (sort_tests e.2) = num e.1) as En.
  { unfold group_number. destruct Hf as [|t l Ht _]; [done|]. done. }
  split; [|done]. split_and!; [done|done|]. by rewrite En.
Qed.

Lemma sort_tests_all es : Forall group_ok es ->
  Forall (fun t => canonical_name (test_name t)) (all_tests es.*2) ->
  all_tests (sort_tests <$> es.*2) ≡ₚ all_tests es.*2 /\
  Forall loaded_group (sort_tests <$> es.*2) /\
  group_number <$> (sort_tests <$> es.*2) = num <$> es.*1.
Proof.
  unfold all_tests. induction 1 as [|e es He Hes IH]; cbn [fmap list_fmap concat]; intros Hc; [done|].
  apply Forall_app in Hc as [Hc1 Hc2]. destruct (IH Hc2) as (I1 & I2 & I3).
  destruct (sort_tests_group e He Hc1) as [G1 G2]. destruct (sort_tests_perm e.2 Hc1) as [Hp _].
  split_and!.
  - by rewrite Hp, I1.
  - by constructor.
  - rewrite G2. by f_equal.
Qed.

Lemma load_gml_frame s s' u :
  load_global_memory_limit_only s = (s', Ok u) -> s' = set_global_mem_limit (global_mem_limit s') s.
Proof.
  unfold load_global_memory_limit_only, get_config, CHECK_IF_NOT_ARR. intros H1. inv_stm.
  destruct (Config.is_set _); inv_stm; [|done].
  unfold invalid_mem_limit in *. inv_stm.
  match goal with H : when _ _ _ = (_, Ok _) |- _ => rename H into Hw end.
  unfold when in Hw. destruct (negb _); [inv_stm; discriminate|]. injection Hw as ?. by subst.
Qed.

Lemma load_tests_inv s s' u : load_tests s = (s', Ok u) ->
  exists groups groups',
    add_limits (global_mem_limit s') [] (Config.arr_ (Config.get_var (config s) (lit "limits"))) = Ok groups /\
    score_groups (Config.get_var (config s) (lit "scoring")) groups = Ok groups' /\
    s' = set_tgroups (sort_tests <$> groups'.*2) (set_global_mem_limit (global_mem_limit s') s).
Proof.
  unfold load_tests. intros H1. apply stm_bind_Ok in H1 as (s1 & [] & Hg & H1).
  apply load_gml_frame in Hg. unfold get_config, CHECK_IF_ARR in H1. inv_stm.
  match goal with H : _ = set_global_mem_limit (global_mem_limit ?x) s |- _ =>
    assert (config x = config s) as Ec by (rewrite H; done); rewrite Ec in *
  end.
  eexists _, _. cbn [global_mem_limit set_tgroups]. split_and!; [eassumption|eassumption|congruence].
Qed.

(** [load_tests], when it succeeds, turns every item of [limits] into one
    test and splits the tests into groups: no test is lost, duplicated or
    invented, each group is non-empty, holds the tests of one group number,
    sorted by name, and the groups come in strictly increasing order of their
    numbers. *)
Theorem load_tests_groups s s' :
  load_tests s = (s', Ok tt) ->
  exists ts,
    all_ok (limits_test (global_mem_limit s')) (Config.arr_ (Config.get_var (config s) (lit "limits"))) = Ok ts /\
    (Forall (fun t => canonical_name (test_name t)) ts ->
     all_tests (tgroups s') ≡ₚ ts /\
     Forall loaded_group (tgroups s') /\
     StronglySorted Z.lt (group_number <$> tgroups s')).
Proof.
  intros E. apply load_tests_inv in E as (groups & groups' & E1 & E2 & E3).
  apply add_limits_eq in E1 as (ts & Ets & ->). exists ts. split; [exact Ets|]. intros Hc.
  destruct (add_tests_inv ts []) as (A1 & A2 & A3); [constructor|constructor|].
  apply score_groups_only_scores in E2. destruct (only_scores_inv _ _ E2 A1 A2) as (B1 & B2 & B3).
  rewrite app_nil_r in A3. rewrite <- B3 in A3. rewrite <- A3 in Hc.
  destruct (sort_tests_all groups' B2 Hc) as (C1 & C2 & C3).
  rewrite E3. cbn [tgroups set_tgroups]. split_and!; [by rewrite C1, A3|done|].
  rewrite C3. unfold map_sorted in B1. clear - B1 B2.
  induction B2 as [|[k g] es (Hd & _) Hes IH]; cbn [fmap list_fmap fst] in *; [constructor|].
  apply StronglySorted_inv in B1 as [B1 B3]. constructor; [by apply IH|].
  apply Forall_forall. intros z Hz. apply list_elem_of_fmap in Hz as (k' & -> & Hk').
  rewrite Forall_forall in B3. apply B3 in Hk' as Hlt. cbn [fst] in Hd.
  apply list_elem_of_fmap in Hk' as ([k2 g2] & -> & Hin). rewrite Forall_forall in Hes.
  destruct (Hes _ Hin) as [Hd2 _]. rewrite StrNumCompare_spec in Hlt by done. cbn [fst] in *. lia.
Qed.
End Loaded.

Definition sample_limits : list str := [lit "t2a 1.5 64"; lit "t1 0.2 16"; lit "t1ocen 1 32"; lit "t2 3 8"].

Definition sample_simfile : Simfile :=
  mkSimfile None None None false None [] None []
    (<[lit "limits" := Config.mkVariable 3 [] sample_limits (0, 0)%nat]> ∅).

Lemma load_tests_groups_witness :
  exists s' ts, @load_tests insertion_std_sort sample_simfile = (s', Ok tt) /\
    all_ok (limits_test None) sample_limits = Ok ts /\ all_tests (tgroups s') ≡ₚ ts.
Proof.
  destruct (@load_tests_groups insertion_std_sort sample_simfile
    (fst (@load_tests insertion_std_sort sample_simfile))) as (ts & E & P).
  - vm_compute. reflexivity.
  - exists (fst (@load_tests insertion_std_sort sample_simfile)), ts. split_and!.
    + vm_compute. reflexivity.
    + exact E.
    + apply P. vm_compute in E. injection E as <-.
      repeat (apply Forall_cons_2; [vm_compute; split; [discriminate|]; intros;
        first [discriminate|right; reflexivity]|]). apply Forall_nil_2.
Defined.

(** ** Where the loader stops behaving *)

(** A time limit of 10^10 seconds passes every check and then overflows the
    64-bit count of nanoseconds. *)
Theorem time_limit_overflow : parse_limits_item (lit "t1 10000000000") = UB.
Proof. vm_compute. reflexivity. Qed.

(** The groups are found by number, the scores by text: [01 100] is accepted for
    the group [1] and then reported as missing. *)
Lemma scoring_leading_zero :
  score_groups (Config.mkVariable 3 [] [lit "01 100"] (0, 0)%nat) [(lit "1", empty_group)] =
  Throw (RuntimeError (lit "Simfile: missing scoring of the group `1`")).
Proof. vm_compute. reflexivity. Qed.
