(* ===== verification/SimfileFiles.v ===== *)
(** * Paths a Simfile names

    The loaders of [src/sim/simfile.cc] promise that no file of a loaded Simfile
    lies outside the package ("Secure path, so that it is not going outside the
    package"), and that each test gets the files its entry of [tests_files]
    names. *)

From Stdlib Require Import ZArith QArith Lia Ascii.
From S2P Require Import Prelude.
From S2P Require Import StdMap.
From S2P Require Import Ctype.
From S2P Require Import StringView.
From S2P Require Import StringTraits.
From S2P Require Import StringCompare.
From S2P Require Import StringTransform.
From S2P Require Import Floats.
From S2P Require Import Time.
From S2P Require Import SimpleParser.
From S2P Require Import Path.
From S2P Require Import ConfigFile.
From S2P Require Import Simfile.
From S2P Require Import SimfileTests.
Local Open Scope Z_scope.

(** ** Paths inside the package *)

(** A path relative to the package: plain components, maybe a trailing slash. *)
Definition package_path (p : str) : Prop :=
  exists stack as_dir, Forall plain_component stack /\ (as_dir = false -> stack <> []) /\
    slash ++ p = render stack as_dir.

Lemma render_slash stack as_dir : exists p, render stack as_dir = slash ++ p.
Proof. destruct as_dir; unfold render, dir_path; rewrite <- ?app_assoc; eauto. Qed.

Lemma secure_path_package p : exists q, secure_path p = Ok q /\ package_path q.
Proof.
  unfold secure_path. destruct (path_absolute_result p) as (st & d & E & H1 & H2).
  change (lit "/") with slash. rewrite E. destruct (render_slash st d) as [q Eq]. rewrite Eq.
  exists q. split; [done|]. exists st, d. auto.
Qed.

(** A secured path is not changed by securing it again. *)
Lemma secure_path_id p : package_path p -> p <> [] -> secure_path p = Ok p.
Proof.
  intros (st & d & H1 & H2 & E) Hne. unfold secure_path. change (lit "/") with slash.
  rewrite (path_absolute_normal st d p); [|done|done|done|by right]. rewrite <- E. done.
Qed.

(** It stays inside: it is relative and has neither [.] nor [..] in it. *)
Definition inside (p : str) : Prop :=
  has_prefix p slash = false /\ Forall plain_component (components p).

Lemma package_path_inside p : package_path p -> inside p.
Proof.
  intros (st & d & H1 & H2 & E). split.
  - destruct (has_prefix p slash) eqn:P; [|done]. apply has_prefix_spec in P as [p' ->].
    exfalso. destruct st as [|c st].
    + destruct d; [|by destruct H2]. apply (f_equal length) in E. simpl in E. lia.
    + inversion H1 as [|? ? (Hne & Hns & _)]; subst. destruct c as [|x c]; [done|].
      assert (exists r, render ((x :: c) :: st) d = slash ++ x :: r) as [r Er].
      { destruct d; [eexists; reflexivity|]. unfold render. destruct st as [|c2 st]; [by eexists|].
        cbn [removelast]. unfold dir_path. cbn [flat_map]. rewrite <- !app_assoc. eexists. reflexivity. }
      rewrite Er in E. inversion E; subst. by inversion Hns.
  - assert (components p = st) as ->; [|done].
    rewrite <- (components_render st d H1), <- E. done.
Qed.

(** The path an optional field holds. *)
Definition opt_path (o : option str) : list str := match o with Some p => [p] | None => [] end.

(** ** What each loader does when it succeeds *)

Section Loaders.
Implicit Types s : Simfile.

Definition var s (nm : string) : Config.ConfigVariable := Config.get_var (config s) (lit nm).

Lemma load_name_inv s s' u : load_name s = (s', Ok u) ->
  Config.is_set (var s "name") = true /\ s' = set_name (Some (Config.str_ (var s "name"))) s.
Proof.
  unfold load_name, get_config, CHECK_IF_NOT_ARR. intros H. inv_stm. bools. done.
Qed.

Lemma load_label_inv s s' u : load_label s = (s', Ok u) ->
  Config.is_set (var s "label") = true /\ s' = set_label (Some (Config.str_ (var s "label"))) s.
Proof.
  unfold load_label, get_config, CHECK_IF_NOT_ARR. intros H. inv_stm. bools. done.
Qed.

Lemma load_interactive_inv s s' u : load_interactive s = (s', Ok u) ->
  s' = set_interactive (negb (SV.empty (Config.str_ (var s "interactive"))) && Config.as_bool (var s "interactive")) s.
Proof.
  unfold load_interactive, get_config, CHECK_IF_NOT_ARR, var. intros H. inv_stm.
  destruct (SV.empty _); inv_stm; done.
Qed.

Lemma load_checker_inv s s' u : load_checker s = (s', Ok u) ->
  exists i c, s' = set_checker c (set_interactive i s) /\ Forall package_path (opt_path c).
Proof.
  unfold load_checker, get_config, CHECK_IF_NOT_ARR. intros H.
  apply stm_bind_Ok in H as (s1 & ? & Hi & H). apply load_interactive_inv in Hi as ->. inv_stm.
  match goal with H : (if ?c then _ else _) _ = _ |- _ => destruct c end; inv_stm.
  - eexists _, None. split; [reflexivity|constructor].
  - match goal with H : secure_path ?p = Ok _ |- _ =>
      destruct (secure_path_package p) as (q & E & Hq); rewrite E in H; injection H as <- end.
    eexists _, (Some q). split; [reflexivity|]. by repeat constructor.
Qed.

Lemma load_statement_inv s s' u : load_statement s = (s', Ok u) ->
  exists p, s' = set_statement (Some p) s /\ package_path p.
Proof.
  unfold load_statement, get_config, CHECK_IF_NOT_ARR. intros H. inv_stm.
  match goal with H : secure_path ?p = Ok _ |- _ =>
    destruct (secure_path_package p) as (q & E & Hq); rewrite E in H; injection H as <- end.
  by exists q.
Qed.

Lemma load_solutions_loop_inv arr : forall s s' u, load_solutions_loop arr s = (s', Ok u) ->
  exists ps, s' = set_solutions (solutions s ++ ps) s /\ all_ok secure_path arr = Ok ps /\
    Forall package_path ps.
Proof.
  induction arr as [|x arr IH]; intros s s' u; cbn [load_solutions_loop all_ok].
  - intros [= <-]. exists []. rewrite app_nil_r. by destruct s.
  - intros H. inv_stm. apply IH in H1 as (ps & -> & E & Hps).
    match goal with H : secure_path ?p = Ok _ |- _ =>
      destruct (secure_path_package p) as (q & E1 & Hq); rewrite E1 in H; injection H as <- end.
    exists (q :: ps). rewrite E1, E. split_and!; [|done|by constructor].
    unfold set_solutions. cbn [name label statement interactive checker solutions global_mem_limit tgroups config].
    by rewrite <- app_assoc.
Qed.

Lemma load_solutions_inv s s' u : load_solutions s = (s', Ok u) ->
  exists ps, s' = set_solutions ps s /\ all_ok secure_path (Config.arr_ (var s "solutions")) = Ok ps /\
    Forall package_path ps /\ ps <> [].
Proof.
  unfold load_solutions, get_config, CHECK_IF_ARR. intros H. inv_stm.
  match goal with H : load_solutions_loop _ _ = _ |- _ => apply load_solutions_loop_inv in H as (ps & -> & E & Hps) end.
  exists ps. split_and!; [done|exact E|done|].
  intros ->. match goal with H : (length ?l =? 0)%nat = false |- _ => unfold var in E; destruct l eqn:El end; [done|].
  cbn [all_ok] in E. destruct (secure_path _); [|done..]. cbn in E. destruct (all_ok secure_path _); done.
Qed.
End Loaders.

(** ** Files of the tests *)

Lemma equiv_ltb a b : equiv SV.ltb a b = true <-> a = b.
Proof.
  unfold equiv. split.
  - intros H. bools. by apply SV.ltb_total.
  - intros ->. by rewrite SV.ltb_irrefl.
Qed.

(** An entry of the map comes from an item of the array. *)
Definition from_item (items : list str) (n : str) (v : str * str) : Prop :=
  exists item, item ∈ items /\ parse_test_files_item item = Ok (n, v.1, v.2).

Lemma read_tests_files_spec inter all items : forall files files',
  (forall i, i ∈ items -> i ∈ all) -> map_sorted SV.ltb files ->
  (forall n v, map_find SV.ltb n files = Some v -> from_item all n v) ->
  read_tests_files inter files items = Ok files' ->
  map_sorted SV.ltb files' /\ (forall n v, map_find SV.ltb n files' = Some v -> from_item all n v).
Proof.
  induction items as [|item items IH]; intros files files' Hin Hs Hf; cbn [read_tests_files].
  { intros [= <-]. done. }
  destruct (parse_test_files_item item) as [[[n i] o]| | |] eqn:Ep; [|done..]. cbn [mbind outcome_bind].
  assert (forall i, i ∈ items -> i ∈ all) as Hin' by (intros; apply Hin; by right).
  destruct (SV.empty n); [by apply IH|]. destruct (SV.empty i); [done|].
  destruct (inter && negb (SV.empty o)); [done|]. destruct (negb inter && SV.empty o); [done|].
  unfold map_emplace. destruct (map_find SV.ltb n files) eqn:En; [done|]. cbn [negb].
  apply IH; [done|by apply map_update_sorted; [apply _|]|].
  intros n' v. rewrite map_find_update by first [apply _|done]. destruct (equiv SV.ltb n n') eqn:E; [|apply Hf].
  apply equiv_ltb in E as <-. rewrite En. cbn [default]. intros [= <-].
  exists item. split; [apply Hin; left|exact Ep].
Qed.

Lemma for_each_Ok {A} (f : A -> outcome A) l : forall l' u,
  for_each f l = (l', Ok u) -> Forall2 (fun x y => f x = Ok y) l l'.
Proof.
  induction l as [|x l IH]; intros l' u; cbn [for_each]; [intros [= <-]; constructor|].
  destruct (f x) eqn:E; [|done..]. destruct (for_each f l) as [l'' r] eqn:El.
  intros [= <- ->]. constructor; [done|by eapply IH].
Qed.

Lemma for_each_group_Ok f gs : forall gs' u, for_each_group f gs = (gs', Ok u) ->
  Forall2 (fun g g' => score g' = score g /\ Forall2 (fun x y => f x = Ok y) (tests g) (tests g')) gs gs'.
Proof.
  induction gs as [|g gs IH]; intros gs' u; cbn [for_each_group]; [intros [= <-]; constructor|].
  destruct (for_each f (tests g)) as [ts r] eqn:E. destruct r; [|done..].
  destruct (for_each_group f gs) as [gs'' r] eqn:Eg. intros [= <- ->].
  constructor; [|by eapply IH]. split; [done|]. by eapply for_each_Ok.
Qed.

(** What a test looks like after its files were assigned. *)
Definition files_assigned (items : list str) (inter : bool) (t t' : Test) : Prop :=
  exists i o, from_item items (test_name t) (i, o) /\ secure_path i = Ok (test_in t') /\
    (if inter then test_out t' = None
     else exists q, secure_path o = Ok q /\ test_out t' = Some q) /\
    t' = set_files t (test_in t') (test_out t').

Lemma assign_files_spec items inter files t t' :
  (forall n v, map_find SV.ltb n files = Some v -> from_item items n v) ->
  assign_files inter files t = Ok t' -> files_assigned items inter t t'.
Proof.
  intros Hf. unfold assign_files. destruct (map_find _ _ _) as [[i o]|] eqn:E; [|done].
  intros H. apply bind_Ok in H as (p & Ei & H). exists i, o. split; [by apply Hf|].
  destruct inter; [injection H as <-; done|]. apply bind_Ok in H as (q & Eo & [= <-]).
  split_and!; [done|by exists q|done].
Qed.

Lemma load_tests_files_inv s s' u : load_tests_files s = (s', Ok u) ->
  exists inter gs, s' = set_tgroups gs (set_interactive inter s) /\
    Forall2 (fun g g' => score g' = score g /\
      Forall2 (files_assigned (Config.arr_ (var s "tests_files")) inter) (tests g) (tests g')) (tgroups s) gs.
Proof.
  unfold load_tests_files, get_config, CHECK_IF_ARR. intros H.
  apply stm_bind_Ok in H as (s1 & ? & Hi & H). apply load_interactive_inv in Hi as ->. inv_stm.
  cbn [interactive set_interactive config] in *.
  match goal with H : update_tests _ _ = _ |- _ => rename H into Hu end.
  match goal with H : read_tests_files _ _ _ = _ |- _ => rename H into Hr end.
  unfold update_tests in Hu. cbn [tgroups set_interactive] in Hu.
  destruct (for_each_group _ _) as [gs r] eqn:Eg. injection Hu as <- ->.
  eexists _, gs. split; [reflexivity|]. apply for_each_group_Ok in Eg.
  apply (read_tests_files_spec _ (Config.arr_ (var s "tests_files"))) in Hr as [_ Hf]; [|done|constructor|done].
  eapply Forall2_impl; [exact Eg|]. intros g g' [E1 E2]. split; [done|].
  eapply Forall2_impl; [exact E2|]. intros t t' Et. by eapply assign_files_spec.
Qed.

(** After [load_tests_files] every test has the input (and, unless the
    problem is interactive, the output) file of the entry of [tests_files] with
    its name, normalised; limits, names, order and scores are as before. *)
Theorem load_tests_files_assigns s s' : load_tests_files s = (s', Ok tt) ->
  Forall2 (fun g g' => score g' = score g /\
    Forall2 (files_assigned (Config.arr_ (var s "tests_files")) (interactive s')) (tests g) (tests g'))
    (tgroups s) (tgroups s').
Proof. intros H. apply load_tests_files_inv in H as (inter & gs & -> & F). exact F. Qed.

Definition one_test_simfile : Simfile :=
  mkSimfile None None None false None [] None [mkTestGroup [new_test (lit "t1") 1 1] 100]
    (<[lit "tests_files" := Config.mkVariable 3 [] [lit "t1 a/../in/t1.in ../out/t1.out"] (0, 0)%nat]> ∅).

Lemma load_tests_files_assigns_witness :
  exists s', load_tests_files one_test_simfile = (s', Ok tt) /\
    Forall2 (fun g g' => score g' = score g /\
      Forall2 (files_assigned (Config.arr_ (var one_test_simfile "tests_files")) (interactive s')) (tests g) (tests g'))
      (tgroups one_test_simfile) (tgroups s').
Proof.
  exists (fst (load_tests_files one_test_simfile)). split; [vm_compute; reflexivity|].
  apply (load_tests_files_assigns one_test_simfile). vm_compute. reflexivity.
Defined.

(** ** Nothing outside the package *)

Definition test_paths (t : Test) : list str := test_in t :: opt_path (test_out t).

(** Every path a loaded Simfile holds. *)
Definition all_paths (s : Simfile) : list str :=
  opt_path (checker s) ++ opt_path (statement s) ++ solutions s ++
  flat_map test_paths (all_tests (tgroups s)).

Lemma files_assigned_paths items inter t t' : files_assigned items inter t t' ->
  Forall package_path (test_paths t').
Proof.
  intros (i & o & _ & Ei & Eo & _). unfold test_paths.
  destruct (secure_path_package i) as (qi & E & Hi). rewrite E in Ei. injection Ei as <-.
  constructor; [done|]. destruct inter; [by rewrite Eo|]. destruct Eo as (q & Eq & ->).
  destruct (secure_path_package o) as (qo & E' & Ho). rewrite E' in Eq. injection Eq as <-. by repeat constructor.
Qed.

Lemma load_tests_files_paths s s' u : load_tests_files s = (s', Ok u) ->
  Forall package_path (flat_map test_paths (all_tests (tgroups s'))) /\
  exists gs i, s' = set_tgroups gs (set_interactive i s).
Proof.
  intros H. apply load_tests_files_inv in H as (inter & gs & -> & F). split; [|eauto].
  cbn [tgroups set_tgroups]. unfold all_tests.
  induction F as [|g g' gs0 gs [_ Hg] Hgs IH]; [constructor|]. cbn [fmap list_fmap concat].
  rewrite flat_map_app. apply Forall_app. split; [|done].
  induction Hg as [|t t' ts ts' Ht _ IHt]; [constructor|]. cbn [flat_map]. apply Forall_app.
  split; [by eapply files_assigned_paths|done].
Qed.

(** C37: whatever the Simfile says, after [load_all] every path it holds -
    checker, statement, solutions, test files - is relative to the package and
    contains no [.] and no [..]. *)
Theorem load_all_paths_inside `{StdSort} s s' :
  load_all s = (s', Ok tt) -> Forall inside (all_paths s').
Proof.
  intros H0. apply (Forall_impl package_path); [|apply package_path_inside]. unfold load_all in H0.
  apply stm_bind_Ok in H0 as (s1 & ? & H1 & H0). apply load_name_inv in H1 as [_ ->].
  apply stm_bind_Ok in H0 as (s2 & ? & H2 & H0). apply load_label_inv in H2 as [_ ->].
  apply stm_bind_Ok in H0 as (s3 & ? & H3 & H0). apply load_checker_inv in H3 as (i & c & -> & Hc).
  apply stm_bind_Ok in H0 as (s4 & ? & H4 & H0). apply load_statement_inv in H4 as (p & -> & Hp).
  apply stm_bind_Ok in H0 as (s5 & ? & H5 & H0). apply load_solutions_inv in H5 as (ps & -> & _ & Hps & _).
  unfold load_tests_with_files in H0. apply stm_bind_Ok in H0 as (s6 & ? & H6 & H7).
  apply load_tests_inv in H6 as (groups & groups' & _ & _ & E6).
  apply load_tests_files_paths in H7 as (Hf & gs & j & E7).
  unfold all_paths. rewrite E7 in *. cbn [checker statement solutions tgroups set_tgroups set_interactive] in *.
  rewrite E6. cbn [checker statement solutions set_tgroups set_global_mem_limit set_solutions set_statement
    set_checker set_interactive set_label set_name].
  rewrite !Forall_app. split_and!; [done|by repeat constructor|done|done].
Qed.

Definition scalar (v : string) : Config.ConfigVariable := Config.mkVariable 1 (lit v) [] (0, 0)%nat.
Definition array (vs : list string) : Config.ConfigVariable := Config.mkVariable 3 [] (lit <$> vs) (0, 0)%nat.

(** A Simfile that tries to leave its package. *)
Definition escaping_simfile : Simfile :=
  mkSimfile None None None false None [] None [] (list_to_map [
    (lit "name", scalar "Escape"); (lit "label", scalar "esc");
    (lit "checker", scalar "../../bin/sh"); (lit "statement", scalar "/etc/passwd");
    (lit "solutions", array ["../a.cpp"; "b/../../c.cpp"]);
    (lit "limits", array ["t1 1 64"; "t0 0.5 64"]);
    (lit "tests_files", array ["t1 ../t1.in t1.out"; "t0 ./in/t0 /../../t0.out"])]).

Lemma load_all_paths_inside_witness :
  exists s', @load_all insertion_std_sort escaping_simfile = (s', Ok tt) /\ Forall inside (all_paths s') /\
    statement s' = Some (lit "etc/passwd").
Proof.
  exists (fst (@load_all insertion_std_sort escaping_simfile)).
  split; [vm_compute; reflexivity|]. split; [|vm_compute; reflexivity].
  apply (@load_all_paths_inside insertion_std_sort escaping_simfile). vm_compute. reflexivity.
Defined.

(** ** Validation *)

Section Validation.
Variable is_regular_file : str -> bool.

Lemma check_all_Ok {A} (f : A -> outcome unit) l :
  check_all f l = Ok tt <-> Forall (fun x => f x = Ok tt) l.
Proof.
  induction l as [|x l IH]; cbn [check_all]; [by split; [constructor|]|].
  rewrite Forall_cons. destruct (f x) as [[]| | |]; cbn [mbind outcome_bind]; [|split; [done|by intros []]..].
  rewrite IH. split; [done|by intros []].
Qed.

Lemma validate_test_Ok pkg t :
  validate_test is_regular_file pkg t = Ok tt <->
  Forall (fun p => in_package is_regular_file pkg p = true) (test_paths t).
Proof.
  unfold validate_test, test_paths. rewrite Forall_cons.
  destruct (in_package _ _ (test_in t)); cbn [negb]; [|split; [done|by intros []]].
  destruct (test_out t) as [o|]; cbn [opt_path]; [|split; [by split|done]].
  rewrite Forall_singleton. destruct (in_package _ _ o); cbn [negb]; split; try done. by intros [].
Qed.

(** Two checks in sequence. *)
Lemma seq_Ok (m : outcome unit) (k : unit -> outcome unit) :
  m ≫= k = Ok tt <-> m = Ok tt /\ k tt = Ok tt.
Proof. destruct m as [[]| | |]; cbn; [|split; [done|by intros []]..]. split; [done|by intros []]. Qed.

Lemma in_package_check pkg (cond : bool) p what :
  (if cond || negb (in_package is_regular_file pkg p) then runtime_error what else Ok tt) = Ok tt <->
  cond = false /\ in_package is_regular_file pkg p = true.
Proof. destruct cond, (in_package _ _ _); cbn; split; try done; by intros []. Qed.

Lemma in_package_check1 pkg p what :
  (if negb (in_package is_regular_file pkg p) then runtime_error what else Ok tt) = Ok tt <->
  in_package is_regular_file pkg p = true.
Proof. destruct (in_package _ _ _); done. Qed.

Lemma Forall_iff_pred {A} (P Q : A -> Prop) l : (forall x, P x <-> Q x) -> Forall P l <-> Forall Q l.
Proof. intros H. split; intros F; (eapply Forall_impl; [exact F|]); intros x; apply H. Qed.

Lemma Forall_flat_map {A B} (P : B -> Prop) (f : A -> list B) l :
  Forall P (flat_map f l) <-> Forall (fun x => Forall P (f x)) l.
Proof.
  induction l as [|x l IH]; cbn [flat_map]; [split; constructor|]. by rewrite Forall_app, Forall_cons, IH.
Qed.

Lemma Forall_concat_iff {A} (P : A -> Prop) (l : list (list A)) :
  Forall P (concat l) <-> Forall (Forall P) l.
Proof. induction l as [|x l IH]; cbn [concat]; [split; constructor|]. by rewrite Forall_app, Forall_cons, IH. Qed.

(** [validate_files] accepts a Simfile exactly when every path it holds is a
    regular file under the package directory (and the checker's path, if any,
    is not empty). *)
Theorem validate_files_correct pkg s :
  validate_files is_regular_file pkg s = Ok tt <->
  checker s <> Some [] /\ Forall (fun p => is_regular_file (pkg ++ lit "/" ++ p) = true) (all_paths s).
Proof.
  unfold validate_files, all_paths. rewrite !Forall_app, !seq_Ok, !check_all_Ok.
  rewrite Forall_flat_map. unfold all_tests. rewrite Forall_concat_iff, Forall_fmap.
  rewrite (Forall_iff_pred (fun g : TestGroup => check_all _ (tests g) = Ok tt)
    (Forall (fun t => Forall (fun p => in_package is_regular_file pkg p = true) (test_paths t)) ∘ tests)).
  2: { intros g. rewrite check_all_Ok. apply Forall_iff_pred. intros t. apply validate_test_Ok. }
  rewrite (Forall_iff_pred _ (fun p => in_package is_regular_file pkg p = true) (solutions s)).
  2: { intros p. apply in_package_check1. }
  assert (forall o : option str, match o with
      | Some p => if negb (in_package is_regular_file pkg p)
          then runtime_error (lit "Simfile: invalid statement file `" ++ p ++ lit "`") else Ok tt
      | None => Ok tt end = Ok tt <-> Forall (fun p => in_package is_regular_file pkg p = true) (opt_path o)) as ->.
  { intros [p|]; cbn [opt_path]; [|split; [constructor|done]].
    by rewrite in_package_check1, Forall_singleton. }
  destruct (checker s) as [c|]; cbn [opt_path].
  - rewrite in_package_check, Forall_singleton. unfold in_package. destruct c; cbn [SV.empty length Nat.eqb]; naive_solver.
  - rewrite Forall_nil. unfold in_package. naive_solver.
Qed.
End Validation.
