(* ===== verification/ConfigFileSafety.v ===== *)
(** * The configuration parser is safe and total

    Every read of [load_config_from_string] stays inside the configuration, its
    loops end, and the variables it may write are the ones it was asked to load.
    The invariant is that the buffer is a suffix of the configuration, whose last
    character is the newline the parser appended. *)

From Stdlib Require Import ZArith Lia Ascii.
From S2P Require Import Prelude.
From S2P Require Import Ctype.
From S2P Require Import StringView.
From S2P Require Import StringTraits.
From S2P Require Import StringCompare.
From S2P Require Import StringTransform.
From S2P Require Import ConfigFile.

Module ConfigSafety.
Import Config.

Section Safety.
Variable text : str.
Let config : str := text ++ [NL].

(** The buffer is what is left of the configuration. *)
Definition live (buff : str) : Prop := buff `suffix_of` config.

Lemma live_tail c s : live (c :: s) -> live s.
Proof. unfold live. intros H. etrans; [|exact H]. by exists [c]. Qed.

Lemma live_suffix s t : live t -> s `suffix_of` t -> live s.
Proof. unfold live. intros H1 H2. by etrans. Qed.

Lemma live_nonempty s : live s -> s <> [] -> exists l, s = l ++ [NL].
Proof. apply suffix_nonempty_last. Qed.

(** After a character that is not a newline there is another one. *)
Lemma live_next c s : live (c :: s) -> c <> NL -> s <> [].
Proof.
  intros H Hc ->. destruct (live_nonempty [c] H ltac:(done)) as [l E].
  destruct l as [|x [|y l]]; simplify_eq/=.
Qed.

Lemma live_drop f s : live s -> live (drop_while f s).
Proof. intros H. eapply live_suffix; [exact H|]. apply drop_while_suffix. Qed.

(** Skipping characters that are not newlines stops at one. *)
Lemma live_drop_nonempty f s : live s -> s <> [] -> f NL = false -> drop_while f s <> [].
Proof.
  intros H Hne Hf. destruct (live_nonempty s H Hne) as [l ->]. intros E.
  assert (forall l, drop_while f (l ++ [NL]) <> []) as Hx; [|by eapply Hx].
  clear - Hf. intros l. induction l as [|x l IH]; simpl; [by rewrite Hf|]. by case_goal.
Qed.

Lemma config_lookup_next k c : config !! k = Some c -> c <> NL -> S k < length config.
Proof.
  unfold config. intros Hk Hc. pose proof (lookup_lt_Some _ _ _ Hk) as Hlt.
  rewrite length_app in *. simpl in *. destruct (decide (k = length text)) as [->|]; [|lia].
  rewrite lookup_app_r, Nat.sub_diag in Hk by lia. simplify_eq/=.
Qed.

Lemma right_part_ok fuel k last : k < length config -> k <= last + 1 -> last + 1 < k + fuel ->
  exists r, right_part fuel config k last = Ok r.
Proof.
  revert k. induction fuel as [|fuel IH]; intros k Hk Hkl Hf; [lia|]. cbn [right_part].
  destruct (lookup_lt_is_Some_2 config k Hk) as [c Hc]. rewrite Hc. cbn [get_or_ub mbind outcome_bind].
  destruct (c =c NL) eqn:E; [eauto|]. bools.
  destruct (Nat.ltb_spec last k) as [L|L]; [eauto|].
  destruct (IH (S k)) as [r ->]; [by eapply config_lookup_next|lia..|]. cbn. eauto.
Qed.

Lemma diagnostics_ok pos : pos < length config -> exists d, diagnostics config pos = Ok d.
Proof.
  intros Hpos. unfold diagnostics. destruct (lookup_lt_is_Some_2 config pos Hpos) as [c Hc].
  rewrite Hc. cbn [get_or_ub mbind outcome_bind]. destruct (c =c NL) eqn:E; [cbn; eauto|]. bools.
  destruct (right_part_ok (CONTEXT + 2) (pos + 1) (pos + CONTEXT)) as [r ->].
  - rewrite Nat.add_1_r. by eapply config_lookup_next.
  - unfold CONTEXT. lia.
  - unfold CONTEXT. lia.
  - cbn. eauto.
Qed.

Lemma error_position_lt buff : live buff -> error_position config buff < length config.
Proof.
  intros H. apply suffix_length in H. unfold error_position, SV.empty.
  assert (0 < length config) by (unfold config; rewrite length_app; simpl; lia).
  destruct (Nat.eqb_spec (length buff) 0); lia.
Qed.

(** A parse error is reported, whatever is left of the buffer. *)
Lemma throw_parse_error_throws {A} buff msg : live buff ->
  exists e, throw_parse_error (A := A) config buff msg = Throw e.
Proof.
  intros H. unfold throw_parse_error.
  destruct (diagnostics_ok _ (error_position_lt buff H)) as [d ->]. cbn. eauto.
Qed.

(** What the value parsers promise to their callers: an exception, or a
    non-empty rest of the buffer that is shorter than what they were given. *)
Definition consumes (n : nat) (r : outcome (str * str)) : Prop :=
  match r with
  | Ok (_, rest) => live rest /\ rest <> [] /\ length rest < n
  | Throw _ => True
  | UB | NoFuel => False
  end.

Lemma consumes_error n buff msg : live buff -> consumes n (throw_parse_error config buff msg).
Proof. intros H. destruct (throw_parse_error_throws (A := str * str) buff msg H) as [e ->]. done. Qed.

Lemma consumes_le n m r : consumes n r -> n <= m -> consumes m r.
Proof. destruct r as [[v rest]| | |]; simpl; auto. intros (? & ? & ?) ?. split_and!; auto. lia. Qed.

Hint Resolve live_tail live_next live_drop consumes_error : simlib.

Lemma single_quoted_consumes s : live s -> s <> [] ->
  forall res, consumes (S (length s)) (single_quoted config s res).
Proof.
  induction s as [s IH] using length_ind. intros Hs Hne res.
  destruct s as [|c s]; [done|]. cbn [single_quoted].
  destruct (c =c NL) eqn:E1; [by apply consumes_error|]. bools.
  pose proof (live_tail _ _ Hs) as Hs'. pose proof (live_next _ _ Hs E1) as Hne'.
  destruct (c =c SQ) eqn:E2.
  - destruct s as [|d s]; [done|]. destruct (d =c SQ) eqn:E3; cbn [negb].
    + bools. subst d. assert (SQ <> NL) by done.
      eapply consumes_le; [apply IH; simpl; eauto with simlib|simpl; lia].
    + cbn. split_and!; auto; simpl; lia.
  - eapply consumes_le; [apply IH; simpl; auto|simpl; lia].
Qed.

Lemma simple_escape_nl e r : simple_escape e = Some r -> e <> NL.
Proof. intros H ->. discriminate. Qed.

Lemma xdigit_not_nl c : is_xdigit c = true -> c <> NL.
Proof. intros H ->. discriminate. Qed.

Lemma double_quoted_consumes s : live s -> s <> [] ->
  forall res, consumes (S (length s)) (double_quoted config s res).
Proof.
  induction s as [s IH] using length_ind. intros Hs Hne res.
  destruct s as [|c s]; [done|]. cbn [double_quoted].
  destruct (c =c NL) eqn:E1; [by apply consumes_error|]. bools.
  pose proof (live_tail _ _ Hs) as Hs'. pose proof (live_next _ _ Hs E1) as Hne'.
  destruct (c =c DQ) eqn:E2; [cbn; split_and!; auto; simpl; lia|].
  destruct (c =c BSLASH) eqn:E3; cbn [negb].
  2: eapply consumes_le; [apply IH; simpl; auto|simpl; lia].
  destruct s as [|e s]; [done|]. destruct (simple_escape e) as [r|] eqn:E4.
  { apply simple_escape_nl in E4.
    eapply consumes_le; [apply IH; simpl; eauto with simlib|simpl; lia]. }
  destruct (e =c "x") eqn:E5; [|by apply consumes_error]. bools. subst e.
  pose proof (live_tail _ _ Hs') as Hs2. pose proof (live_next _ _ Hs' ltac:(done)) as Hne2.
  destruct s as [|h s]; [done|]. destruct (is_xdigit h) eqn:E6; cbn [negb]; [|by apply consumes_error].
  apply xdigit_not_nl in E6.
  pose proof (live_tail _ _ Hs2) as Hs3. pose proof (live_next _ _ Hs2 E6) as Hne3.
  destruct s as [|l s]; [done|]. destruct (is_xdigit l) eqn:E7; cbn [negb]; [|by apply consumes_error].
  apply xdigit_not_nl in E7.
  eapply consumes_le; [apply IH; simpl; eauto with simlib|simpl; lia].
Qed.

Lemma remove_trailing_prefix f s : exists t, s = SV.remove_trailing f s ++ t /\ Forall (fun c => f c = true) t.
Proof.
  exists (rev (take_while f (rev s))). split.
  - symmetry. apply (SV.extract_trailing_app f s).
  - apply Forall_rev, take_while_forall.
Qed.

Lemma string_literal_consumes is_in_array c s : live (c :: s) -> c <> NL -> is_space c = false ->
  consumes (S (length s)) (string_literal is_in_array c s).
Proof.
  intros Hs Hc Hsp. unfold string_literal. cbn zeta.
  set (f := fun x => negb (ends_literal is_in_array x)).
  pose proof (live_tail _ _ Hs) as Hs'. pose proof (live_next _ _ Hs Hc) as Hne.
  pose proof (live_drop_nonempty f s Hs' Hne eq_refl) as Hd.
  destruct (drop_while f s) as [|d r] eqn:Ed; [done|].
  destruct (remove_trailing_prefix is_space (c :: take_while f s)) as (t & Ht & Hsp').
  set (v := SV.remove_trailing is_space (c :: take_while f s)) in *.
  destruct v as [|x v'].
  { simpl in Ht. subst t. inversion Hsp'; subst. congruence. }
  cbn [SV.empty length Nat.eqb]. simpl in Ht. injection Ht as <- Ht.
  assert (s = v' ++ t ++ d :: r) as E.
  { rewrite <- (take_drop_while f s), Ed, Ht. by rewrite <- app_assoc. }
  cbn [consumes drop skipn length]. rewrite E, drop_app_length. split_and!.
  - eapply live_suffix; [exact Hs'|]. rewrite E. by exists v'.
  - by destruct t.
  - rewrite !length_app. simpl. lia.
Qed.

Lemma extract_value_consumes is_in_array buff c s :
  buff = c :: s -> live buff -> c <> NL -> is_space c = false ->
  consumes (length buff) (extract_value config is_in_array buff).
Proof.
  intros -> Hs Hc Hsp. cbn [extract_value].
  pose proof (live_tail _ _ Hs) as Hs'. pose proof (live_next _ _ Hs Hc) as Hne.
  destruct (c =c SQ); [by apply single_quoted_consumes|].
  destruct (c =c DQ); [by apply double_quoted_consumes|].
  destruct ((c =c "[") || _); [by apply consumes_error|].
  by apply string_literal_consumes.
Qed.

(** The same contract for the parsers that return only the rest. *)
Definition leaves (n : nat) (r : outcome str) : Prop :=
  match r with
  | Ok rest => live rest /\ rest <> [] /\ length rest <= n
  | Throw _ => True
  | UB | NoFuel => False
  end.

Lemma leaves_error n buff msg : live buff -> leaves n (throw_parse_error config buff msg).
Proof. intros H. destruct (throw_parse_error_throws (A := str) buff msg H) as [e ->]. done. Qed.

Lemma leaves_le n m r : leaves n r -> n <= m -> leaves m r.
Proof. destruct r; simpl; auto. intros (? & ? & ?) ?. split_and!; auto. lia. Qed.

Lemma skip_comment_length c s : c <> NL -> length (skip_comment (c :: s)) < length (c :: s).
Proof.
  intros Hc. unfold skip_comment, SV.remove_leading. cbn [drop_while].
  rewrite (proj2 (char_eqb_neq c NL) Hc). cbn [negb].
  pose proof (length_drop_while (fun c => negb (c =c NL)) s). simpl. lia.
Qed.

Lemma live_skip_comment s : live s -> live (skip_comment s).
Proof. apply live_drop. Qed.

Lemma not_nl_of_space c : is_space c = false -> c <> NL.
Proof. intros H ->. discriminate. Qed.

Lemma array_loop_leaves fuel : forall arr buff, live buff -> length buff < fuel ->
  leaves (length buff) (array_loop config fuel arr buff).2.
Proof.
  induction fuel as [|fuel IH]; intros arr buff Hb Hf; [lia|]. cbn [array_loop]. cbn zeta.
  pose proof (live_drop is_space buff Hb) as Hb'.
  pose proof (length_drop_while is_space buff) as Hl.
  unfold SV.remove_leading. destruct (drop_while is_space buff) as [|c s] eqn:E; [by apply leaves_error|].
  pose proof (drop_while_head _ _ _ _ E) as Hsp. apply not_nl_of_space in Hsp as Hnl.
  pose proof (live_tail _ _ Hb') as Hs. pose proof (live_next _ _ Hb' Hnl) as Hne.
  cbn [length] in Hl. destruct (c =c "]"); [cbn; split_and!; auto; lia|].
  destruct (c =c "#").
  { pose proof (skip_comment_length c s Hnl) as Hsk. cbn [length] in Hsk.
    eapply leaves_le; [apply IH; [by apply live_skip_comment|lia]|lia]. }
  destruct (c =c ","); [eapply leaves_le; [apply IH; [done|lia]|lia]|].
  pose proof (extract_value_consumes true (c :: s) c s eq_refl Hb' Hnl Hsp) as Hv.
  destruct (extract_value config true (c :: s)) as [[v rest]| | |]; try done.
  destruct Hv as (Hr & Hrne & Hrl). cbn [length] in Hrl.
  pose proof (live_drop is_ws rest Hr) as Hr'.
  pose proof (live_drop_nonempty is_ws rest Hr Hrne eq_refl) as Hrne'.
  pose proof (length_drop_while is_ws rest) as Hrl'.
  destruct (drop_while is_ws rest) as [|d rest'] eqn:E2; [done|]. cbn [length] in Hrl'.
  pose proof (live_tail _ _ Hr') as Hd.
  destruct ((d =c ",") || (d =c NL)) eqn:E3; [eapply leaves_le; [apply IH; [done|lia]|lia]|].
  bools. destruct (d =c "#").
  { pose proof (skip_comment_length d rest' ltac:(done)) as Hsk. cbn [length] in Hsk.
    eapply leaves_le; [apply IH; [by apply live_skip_comment|lia]|lia]. }
  destruct (d =c "]"); [|by apply leaves_error].
  cbn. split_and!; [done|by eapply live_next|lia].
Qed.

Lemma ws_not_space c : is_ws c = false -> c <> NL -> is_space c = false.
Proof.
  unfold is_ws. intros H Hc. apply char_eqb_neq in Hc. rewrite Hc in H. done.
Qed.

(** A drop of white space that stops at a character other than a newline. *)
Lemma parse_value_leaves var buff : live buff -> buff <> [] ->
  (forall c s, buff = c :: s -> is_ws c = false) ->
  leaves (length buff) (parse_value config var buff).2.
Proof.
  intros Hb Hne Hws. unfold parse_value. cbn zeta. destruct buff as [|c s]; [done|].
  specialize (Hws c s eq_refl). pose proof (live_tail _ _ Hb) as Hs.
  destruct (c =c "[") eqn:E; cbn [negb].
  - bools. subst c. pose proof (array_loop_leaves (S (length s))) as Ha.
    match goal with |- context [array_loop config _ ?a s] => specialize (Ha a s Hs ltac:(lia)) end.
    destruct (array_loop _ _ _ s) as [arr r]. cbn [snd] in *. eapply leaves_le; [exact Ha|simpl; lia].
  - destruct (c =c NL) eqn:E1; [cbn; split_and!; auto|]. bools.
    destruct (c =c "#"); [cbn; split_and!; auto|]. cbn [orb].
    pose proof (extract_value_consumes false (c :: s) c s eq_refl Hb E1 (ws_not_space c Hws E1)) as Hv.
    destruct (extract_value config false (c :: s)) as [[v rest]| | |]; try done.
    destruct Hv as (? & ? & ?). cbn. split_and!; auto. simpl in *. lia.
Qed.

(** The rest after a directive may be empty: it ends behind a newline. *)
Definition goes_on (n : nat) (r : outcome str) : Prop :=
  match r with
  | Ok rest => live rest /\ length rest < n
  | Throw _ => True
  | UB | NoFuel => False
  end.

Lemma goes_on_error n buff msg : live buff -> goes_on n (throw_parse_error config buff msg).
Proof. intros H. destruct (throw_parse_error_throws (A := str) buff msg H) as [e ->]. done. Qed.

Lemma after_value_goes_on buff : live buff -> buff <> [] ->
  goes_on (length buff) (after_value config buff).
Proof.
  intros Hb Hne. unfold after_value. cbn zeta. unfold SV.remove_leading.
  pose proof (live_drop is_ws buff Hb) as Hb'.
  pose proof (live_drop_nonempty is_ws buff Hb Hne eq_refl) as Hne'.
  pose proof (length_drop_while is_ws buff) as Hl.
  destruct (drop_while is_ws buff) as [|c s]; [done|]. cbn [length] in Hl.
  destruct (c =c "#") eqn:E.
  - bools. subst c. pose proof (skip_comment_length "#" s ltac:(done)) as Hsk. cbn [length] in Hsk.
    cbn [goes_on]. split; [by apply live_skip_comment|lia].
  - destruct (c =c NL); cbn [negb]; [|by apply goes_on_error]. cbn. split; [by eapply live_tail|lia].
Qed.

Lemma directive_goes_on load_all st buff : live buff -> buff <> [] ->
  goes_on (length buff) (directive config load_all st buff).2.
Proof.
  intros Hb Hne. unfold directive. unfold SV.extract_leading.
  pose proof (live_drop is_name buff Hb) as H1.
  pose proof (live_drop_nonempty is_name buff Hb Hne eq_refl) as H1n.
  pose proof (length_drop_while is_name buff) as H1l.
  destruct (SV.empty _); [by apply goes_on_error|]. cbn zeta. unfold SV.remove_leading.
  set (b1 := drop_while is_name buff) in *.
  pose proof (live_drop is_ws b1 H1) as H2. pose proof (live_drop_nonempty is_ws b1 H1 H1n eq_refl) as H2n.
  pose proof (length_drop_while is_ws b1) as H2l.
  destruct (drop_while is_ws b1) as [|c s] eqn:E; [done|]. cbn [length] in H2l.
  destruct (c =c NL) eqn:Enl; cbn [orb snd]; [by apply goes_on_error|]. bools.
  destruct (c =c "#"); cbn [snd]; [by apply goes_on_error|].
  destruct (negb _ && negb _); cbn [snd]; [by apply goes_on_error|].
  pose proof (live_tail _ _ H2) as Hs. pose proof (live_next _ _ H2 Enl) as Hsn.
  destruct (resolve load_all st _) as [ref st'].
  pose proof (parse_value_leaves (read_ref st' ref) (drop_while is_ws s)) as Hpv.
  specialize (Hpv (live_drop _ _ Hs) (live_drop_nonempty is_ws s Hs Hsn eq_refl) (drop_while_head is_ws s)).
  pose proof (length_drop_while is_ws s).
  destruct (parse_value _ _ _) as [var [rest| | |]]; try done. cbn [snd] in *.
  destruct Hpv as (? & ? & ?). pose proof (after_value_goes_on rest ltac:(done) ltac:(done)) as Ha.
  destruct (after_value config rest); try done. cbn in *. destruct Ha. split; [done|lia].
Qed.

Lemma load_loop_defined load_all fuel : forall st buff, live buff -> length buff < fuel ->
  defined (load_loop config load_all fuel st buff).2.
Proof.
  induction fuel as [|fuel IH]; intros st buff Hb Hf; [lia|]. cbn [load_loop].
  destruct buff as [|b0 buff0]; [done|]. set (buff := b0 :: buff0) in *. cbn zeta. unfold SV.remove_leading.
  pose proof (live_drop is_ws buff Hb) as Hb'.
  pose proof (live_drop_nonempty is_ws buff Hb ltac:(done) eq_refl) as Hne.
  pose proof (length_drop_while is_ws buff) as Hl.
  destruct (drop_while is_ws buff) as [|c s]; [done|]. cbn [length] in Hl.
  pose proof (live_tail _ _ Hb') as Hs.
  destruct (c =c NL); [apply IH; [done|lia]|]. destruct (c =c "#") eqn:E.
  - bools. subst c. pose proof (skip_comment_length "#" s ltac:(done)) as Hsk. cbn [length] in Hsk.
    rewrite SV.remove_prefix_drop. apply IH.
    + eapply live_suffix; [apply live_skip_comment; exact Hb'|apply suffix_drop].
    + rewrite length_drop. lia.
  - pose proof (directive_goes_on load_all st (c :: s) Hb' Hne) as Hd.
    destruct (directive _ _ _ _) as [st' [rest| | |]]; try done.
    destruct Hd as [Hr Hrl]. cbn [length] in Hrl. apply IH; [done|lia].
Qed.
End Safety.


(** The loop that should forget the values of an earlier load works on copies:
    loading an empty configuration leaves every variable set as it was. *)
Theorem reload_keeps_old_values vs load_all :
  load_config_from_string vs [] load_all = (vs, Ok ()).
Proof. reflexivity. Qed.

(** The diagnostics of an error on a later line begin with the newline that ends
    the line before. *)
Lemma diagnostics_leak_newline :
  diagnostics (lit "a: 1" ++ [NL] ++ lit "b ?" ++ [NL]) 7 =
    Ok (lit "\x0ab ?" ++ [NL] ++ lit "      ^").
Proof. vm_compute. reflexivity. Qed.

End ConfigSafety.
