(* ===== verification/ConfigFileEscape.v ===== *)
(** * What is escaped is read back

    The escaping functions of [ConfigFile] against its parser: a string placed
    in a configuration with [escape_string] or [full_escape_string], as the
    value of a variable or as an element of an array, is the string the parser
    loads. *)

From Stdlib Require Import ZArith Lia Ascii.
From S2P Require Import Prelude.
From S2P Require Import Ctype.
From S2P Require Import StringView.
From S2P Require Import StringTraits.
From S2P Require Import StringCompare.
From S2P Require Import StringTransform.
From S2P Require Import ConfigFile.

Module ConfigEscape.
Import Config.

Abbreviation nul_free s := (Forall (fun c => c <> NUL) s).

(** ** Quoted strings *)

Section Quoted.
Variable config : str.

Lemma dec2hex_escape c :
  is_xdigit (dec2hex (Z.shiftr (uchz c) 4)) = true /\
  is_xdigit (dec2hex (Z.land (uchz c) 15)) = true /\
  char_of (Z.shiftl (hex2dec (dec2hex (Z.shiftr (uchz c) 4))) 4 +
           hex2dec (dec2hex (Z.land (uchz c) 15))) = c.
Proof.
  assert (forall P Q R : bool, P && Q && R = true -> P = true /\ Q = true /\ R = true) as Hand
    by (intros [] [] []; done).
  rewrite <- (char_eqb_eq _ c). apply Hand. all_chars_compute c.
Qed.

Lemma double_quoted_char func c s res : c <> NUL ->
  double_quoted config (escape_char_to_double_quoted func c ++ s) res = double_quoted config s (res ++ [c]).
Proof.
  intros Hnul. unfold escape_char_to_double_quoted.
  repeat match goal with
  | |- context [if c =c ?y then _ else _] => destruct (c =c y) eqn:?; bools; [by subst|]
  end.
  destruct (func c).
  - destruct (dec2hex_escape c) as (H1 & H2 & H3).
    cbn [app lit String.list_ascii_of_string double_quoted].
    cbn -[is_xdigit hex2dec dec2hex char_of Z.shiftl Z.add double_quoted].
    by rewrite H1, H2, H3.
  - cbn [app double_quoted].
    rewrite (proj2 (char_eqb_neq c NL)), (proj2 (char_eqb_neq c DQ)), (proj2 (char_eqb_neq c BSLASH)) by done.
    done.
Qed.

Lemma double_quoted_escaped func s rest res : nul_free s ->
  double_quoted config (flat_map (escape_char_to_double_quoted func) s ++ DQ :: rest) res
  = Ok (res ++ s, rest).
Proof.
  intros Hs. revert res. induction Hs as [|c s Hc Hs IH]; intros res.
  - cbn. by rewrite app_nil_r.
  - cbn [flat_map]. rewrite <- app_assoc, double_quoted_char, IH by done. by rewrite <- app_assoc.
Qed.

Lemma single_quoted_escaped s d rest res : Forall (fun c => c <> NL) s -> d <> SQ ->
  single_quoted config (flat_map (fun c => if c =c SQ then [c; SQ] else [c]) s ++ SQ :: d :: rest) res
  = Ok (res ++ s, d :: rest).
Proof.
  intros Hs Hd. revert res. induction Hs as [|c s Hc Hs IH]; intros res.
  - apply char_eqb_neq in Hd. cbn [flat_map app single_quoted].
    change (SQ =c NL) with false. rewrite char_eqb_refl, Hd. cbn [negb]. by rewrite app_nil_r.
  - cbn [flat_map]. destruct (c =c SQ) eqn:E; bools.
    + subst c. cbn [app single_quoted]. change (SQ =c NL) with false. rewrite char_eqb_refl. cbn [negb].
      rewrite IH. by rewrite <- app_assoc.
    + cbn [app single_quoted]. rewrite (proj2 (char_eqb_neq c NL)), (proj2 (char_eqb_neq c SQ)) by done.
      rewrite IH. by rewrite <- app_assoc.
Qed.

(** ** Unquoted strings *)

Lemma remove_trailing_id f s c : last s = Some c -> f c = false -> SV.remove_trailing f s = s.
Proof.
  intros Hl Hc. apply last_Some in Hl as [l ->]. unfold SV.remove_trailing.
  rewrite rev_app_distr. cbn [rev app]. rewrite drop_while_false by done.
  cbn [rev]. by rewrite rev_involutive.
Qed.

(** The shape of a string that [is_string_literal] accepts. *)
Lemma is_string_literal_inv s : is_string_literal s = true ->
  exists c s' z, s = c :: s' /\ last s = Some z /\ is_space z = false /\ is_space c = false /\
    c <> "["%char /\ c <> SQ /\ c <> DQ /\
    Forall (fun x => x <> NL /\ x <> "]"%char /\ x <> ","%char /\ x <> "#"%char) s.
Proof.
  destruct s as [|c s]; [done|]. unfold is_string_literal. cbn zeta.
  destruct (last (c :: s)) as [z|] eqn:Hz; [|by apply last_None in Hz]. cbn [default].
  destruct ((c =c "[") || _ || _ || _ || _ || _) eqn:E; [done|]. intros Hf. bools.
  exists c, s, z. split_and!; auto. apply List.Forall_forall. intros x Hx.
  rewrite forallb_forall in Hf. specialize (Hf x Hx). bools. done.
Qed.

Lemma ends_literal_false is_in_array x :
  x <> NL /\ x <> "]"%char /\ x <> ","%char /\ x <> "#"%char -> ends_literal is_in_array x = false.
Proof.
  intros (H1 & H2 & H3 & H4). unfold ends_literal.
  rewrite !(proj2 (char_eqb_neq x _)) by done. by destruct is_in_array.
Qed.

Lemma extract_literal is_in_array s d rest :
  is_string_literal s = true -> ends_literal is_in_array d = true ->
  extract_value config is_in_array (s ++ d :: rest) = Ok (s, d :: rest).
Proof.
  intros Hs Hd. apply is_string_literal_inv in Hs
    as (c & s' & z & -> & Hz & Hzs & Hcs & Hb & Hsq & Hdq & Hall).
  assert (Forall (fun x => negb (ends_literal is_in_array x) = true) s') as Hall'.
  { inversion Hall; subst. eapply Forall_impl; [eassumption|]. cbn.
    intros x Hx. by rewrite ends_literal_false. }
  inversion Hall as [|? ? (Hnl & Hrb & Hcm & Hsh) _]; subst. cbn [app extract_value].
  rewrite !(proj2 (char_eqb_neq c _)) by done. cbn [orb]. rewrite andb_false_r.
  unfold string_literal. cbn zeta. rewrite take_while_app, drop_while_app by done.
  cbn [take_while drop_while]. rewrite Hd. cbn [negb]. rewrite app_nil_r.
  erewrite remove_trailing_id by done. cbn [SV.empty length Nat.eqb drop].
  by rewrite drop_app_length.
Qed.
End Quoted.

(** ** Escaped strings *)

(** What comes behind an escaped value: never a single quote. *)
Lemma ends_literal_not_sq is_in_array d : ends_literal is_in_array d = true -> d <> SQ.
Proof. intros H ->. by destruct is_in_array. Qed.

Lemma existsb_false_Forall {A} (f : A -> bool) l :
  existsb f l = false -> Forall (fun x => f x = false) l.
Proof. induction l as [|x l IH]; cbn; [constructor|]. intros H. bools. auto. Qed.

Lemma extract_single config is_in_array s d rest :
  Forall (fun c => c <> NL) s -> d <> SQ ->
  extract_value config is_in_array (escape_to_single_quoted_string s ++ d :: rest) = Ok (s, d :: rest).
Proof.
  intros Hs Hd. unfold escape_to_single_quoted_string. cbn [app extract_value].
  rewrite char_eqb_refl, <- app_assoc. cbn [app]. by rewrite single_quoted_escaped.
Qed.

Lemma extract_double config is_in_array func s rest : nul_free s ->
  extract_value config is_in_array (escape_to_double_quoted_string_impl func s ++ rest) = Ok (s, rest).
Proof.
  intros Hs. unfold escape_to_double_quoted_string_impl. cbn [app extract_value].
  change (DQ =c SQ) with false. rewrite char_eqb_refl, <- app_assoc. cbn [app].
  by rewrite double_quoted_escaped.
Qed.

Lemma cntrl_nl c : is_cntrl c = false -> c <> NL.
Proof. intros H ->. discriminate. Qed.

Lemma print_nl c : is_print c = true -> c <> NL.
Proof. intros H ->. discriminate. Qed.

(** An escaped value is extracted as the string it stands for. *)
Lemma extract_escaped config is_in_array s d rest :
  nul_free s -> ends_literal is_in_array d = true ->
  extract_value config is_in_array (escape_string s ++ d :: rest) = Ok (s, d :: rest).
Proof.
  intros Hs Hd. unfold escape_string. destruct (existsb _ s) eqn:E.
  { unfold escape_to_double_quoted_string. by apply extract_double. }
  destruct (is_string_literal s) eqn:El; [by apply extract_literal|].
  apply extract_single; [|by eapply ends_literal_not_sq].
  eapply Forall_impl; [by apply existsb_false_Forall|]. cbn. intros c Hc. bools. by apply cntrl_nl.
Qed.

Lemma extract_full_escaped config is_in_array s d rest :
  nul_free s -> ends_literal is_in_array d = true ->
  extract_value config is_in_array (full_escape_string s ++ d :: rest) = Ok (s, d :: rest).
Proof.
  intros Hs Hd. unfold full_escape_string. destruct (existsb _ s) eqn:E.
  { unfold full_escape_to_double_quoted_string. by apply extract_double. }
  destruct (is_string_literal s) eqn:El; [by apply extract_literal|].
  apply extract_single; [|by eapply ends_literal_not_sq].
  eapply Forall_impl; [by apply existsb_false_Forall|]. cbn. intros c Hc. bools.
  by apply print_nl.
Qed.

(** How an escaped string begins: never like something else of the grammar. *)
Definition value_head (c : ascii) : Prop :=
  is_space c = false /\ c <> NL /\ c <> "["%char /\ c <> "]"%char /\ c <> ","%char /\ c <> "#"%char.

Lemma escape_string_head s : exists c t, escape_string s = c :: t /\ value_head c.
Proof.
  unfold escape_string. destruct (existsb _ s).
  { eexists DQ, _. split; [reflexivity|]. by vm_compute. }
  destruct (is_string_literal s) eqn:E.
  - apply is_string_literal_inv in E as (c & s' & z & -> & _ & _ & Hcs & Hb & _ & _ & Hall).
    inversion Hall as [|? ? (? & ? & ? & ?)]; subst. exists c, s'. done.
  - eexists SQ, _. split; [reflexivity|]. by vm_compute.
Qed.

(** ** Arrays *)

(** The text of an array: elements with the white space before them and the
    delimiter behind them, an optional last element without a delimiter, and
    the white space before the closing bracket. *)
Record array_item := Item { i_ws : str; i_elem : str; i_delim : ascii }.

Definition item_text (i : array_item) : str := i_ws i ++ escape_string (i_elem i) ++ [i_delim i].

Definition item_ok (i : array_item) : Prop :=
  Forall (fun c => is_space c = true) (i_ws i) /\ nul_free (i_elem i) /\
  (i_delim i = ","%char \/ i_delim i = NL).

Definition last_text (o : option (str * str)) : str :=
  match o with Some (ws, e) => ws ++ escape_string e | None => [] end.

Definition last_ok (o : option (str * str)) : Prop :=
  match o with
  | Some (ws, e) => Forall (fun c => is_space c = true) ws /\ nul_free e
  | None => True
  end.

Definition array_body (items : list array_item) (o : option (str * str)) (ws : str) : str :=
  flat_map item_text items ++ last_text o ++ (match o with Some _ => [] | None => ws end) ++ lit "]".

Definition array_elems (items : list array_item) (o : option (str * str)) : list str :=
  map i_elem items ++ match o with Some (_, e) => [e] | None => [] end.

Section ArrayParse.
Variable config : str.

(** One turn of the array loop over an element. *)
Lemma array_loop_elem fuel arr ws e d rest :
  Forall (fun c => is_space c = true) ws -> nul_free e -> ends_literal true d = true ->
  array_loop config (S fuel) arr (ws ++ escape_string e ++ d :: rest) =
    if (d =c ",") || (d =c NL) then array_loop config fuel (arr ++ [e]) rest
    else if d =c "#" then array_loop config fuel (arr ++ [e]) (skip_comment (d :: rest))
    else (arr ++ [e], Ok rest).
Proof.
  intros Hws He Hd. cbn [array_loop]. cbn zeta. unfold SV.remove_leading.
  rewrite drop_while_app by done.
  destruct (escape_string_head e) as (c & t & Ht & Hsp & Hnl & _ & Hrb & Hcm & Hsh).
  rewrite Ht. cbn [app drop_while]. rewrite Hsp.
  rewrite !(proj2 (char_eqb_neq c _)) by done.
  change (c :: t ++ d :: rest) with ((c :: t) ++ d :: rest). rewrite <- Ht.
  rewrite extract_escaped by done.
  assert (is_ws d = false) as Hwsd.
  { unfold is_ws, ends_literal in *. destruct (d =c NL) eqn:E1; [done|]. cbn [negb andb orb] in *.
    destruct (d =c "#") eqn:E2; bools; [by subst|]. cbn in Hd. apply orb_true_iff in Hd.
    destruct Hd as [Hd|Hd]; bools; by subst. }
  cbn [drop_while]. rewrite Hwsd. destruct ((d =c ",") || (d =c NL)) eqn:E1; [done|]. bools.
  destruct (d =c "#") eqn:E2; [done|]. bools.
  destruct (d =c "]") eqn:E3; [done|]. exfalso. unfold ends_literal in Hd.
  rewrite E3, !(proj2 (char_eqb_neq d _)) in Hd by done. done.
Qed.

Lemma array_loop_body items o ws : Forall item_ok items -> last_ok o ->
  Forall (fun c => is_space c = true) ws ->
  forall fuel arr rest, length items + 1 < fuel ->
  array_loop config fuel arr (array_body items o ws ++ rest) = (arr ++ array_elems items o, Ok rest).
Proof.
  intros Hi Ho Hws. unfold array_body, array_elems.
  induction Hi as [|i items (Hiw & Hie & Hid) Hi IH]; intros fuel arr rest Hf.
  - destruct fuel as [|fuel]; [lia|]. cbn [flat_map app map]. destruct o as [[w e]|]; cbn [last_text].
    + destruct Ho as [Hw He]. cbn [app lit String.list_ascii_of_string].
      rewrite <- !app_assoc. cbn [app]. by rewrite array_loop_elem.
    + rewrite app_nil_r. cbn [app]. rewrite <- app_assoc. cbn [app array_loop lit String.list_ascii_of_string].
      cbn zeta. unfold SV.remove_leading. by rewrite drop_while_app.
  - destruct fuel as [|fuel]; [lia|]. cbn [flat_map map]. unfold item_text at 1.
    rewrite <- !app_assoc. cbn [app]. rewrite array_loop_elem; [|done..|by destruct Hid as [->| ->]].
    replace ((i_delim i =c ",") || (i_delim i =c NL)) with true by (by destruct Hid as [->| ->]).
    cbn [length] in Hf. rewrite !app_assoc in *.
    specialize (IH fuel (arr ++ [i_elem i]) rest ltac:(lia)). rewrite <- !app_assoc in *. apply IH.
Qed.
End ArrayParse.

(** ** Values and directives *)

(** A variable that is not set holds nothing. *)
Definition clean_var (v : ConfigVariable) : Prop :=
  is_set v = false -> str_ v = [] /\ arr_ v = [].

(** [text] is read as the value [(flag, s, arr)] when a newline follows it. *)
Definition reads_as (text : str) (flag : Z) (s : str) (arr : list str) : Prop :=
  is_set (mkVariable flag s arr (0, 0)) = true /\
  (exists c t, text ++ [NL] = c :: t /\ is_ws c = false) /\
  forall config var rest, clean_var var ->
    exists span, parse_value config var (text ++ NL :: rest) = (mkVariable flag s arr span, Ok (NL :: rest)).

Lemma clean_prepared v : clean_var v ->
  let v' := if is_set v then unset v else v in str_ v' = [] /\ arr_ v' = [].
Proof. unfold clean_var. destruct (is_set v); auto. Qed.

Lemma escape_string_reads_as s : nul_free s -> reads_as (escape_string s) SET s [].
Proof.
  intros Hs. destruct (escape_string_head s) as (c & t & Ht & Hsp & Hnl & Hb & _ & _ & Hsh).
  split; [done|]. split.
  { exists c, (t ++ [NL]). rewrite Ht. split; [done|]. unfold is_ws. rewrite Hsp. by rewrite andb_false_r. }
  intros config var rest Hv. apply clean_prepared in Hv as [H1 H2]. unfold parse_value. cbn zeta.
  rewrite H1, H2. eexists. rewrite Ht. cbn [app].
  rewrite !(proj2 (char_eqb_neq c _)) by done. cbn [orb negb].
  change (c :: t ++ NL :: rest) with ((c :: t) ++ NL :: rest). rewrite <- Ht.
  by rewrite extract_escaped.
Qed.

Lemma array_reads_as items o ws : Forall item_ok items -> last_ok o ->
  Forall (fun c => is_space c = true) ws ->
  reads_as (lit "[" ++ array_body items o ws) (Z.lor SET ARRAY) [] (array_elems items o).
Proof.
  intros Hi Ho Hws. split; [done|]. split; [by eexists _, _|].
  intros config var rest Hv. apply clean_prepared in Hv as [H1 H2]. unfold parse_value. cbn zeta.
  rewrite H1, H2. eexists. rewrite <- app_assoc. cbn [app lit String.list_ascii_of_string].
  change ("["%char =c "[") with true. cbn [negb].
  rewrite array_loop_body; [done..|].
  assert (length items <= length (flat_map item_text items)) as Hl.
  { clear. induction items as [|i items IH]; [done|]. cbn [flat_map length].
    unfold item_text at 1. rewrite !length_app. cbn [length]. lia. }
  unfold array_body. rewrite !length_app. cbn. lia.
Qed.

(** ** Documents *)

(** A line [name: value] of a configuration and the value it stands for. *)
Record entry := Entry { e_name : str; e_text : str; e_flag : Z; e_str : str; e_arr : list str }.

Definition entry_text (e : entry) : str := e_name e ++ lit ": " ++ e_text e ++ [NL].

Definition entry_ok (e : entry) : Prop :=
  e_name e <> [] /\ Forall (fun c => is_name c = true) (e_name e) /\
  reads_as (e_text e) (e_flag e) (e_str e) (e_arr e).

Definition scalar_entry (name s : str) : entry := Entry name (escape_string s) SET s [].

Definition array_entry (name : str) (items : list array_item) (o : option (str * str)) (ws : str) : entry :=
  Entry name (lit "[" ++ array_body items o ws) (Z.lor SET ARRAY) [] (array_elems items o).

Definition has_value (v : ConfigVariable) (e : entry) : Prop :=
  flag_ v = e_flag e /\ str_ v = e_str e /\ arr_ v = e_arr e.

(** The last line that assigns to [name]. *)
Fixpoint last_entry (name : str) (es : list entry) : option entry :=
  match es with
  | [] => None
  | e :: es' =>
      match last_entry name es' with
      | Some e' => Some e'
      | None => if decide (e_name e = name) then Some e else None
      end
  end.

Definition clean_state (st : state) : Prop :=
  (forall n v, vars st !! n = Some v -> clean_var v) /\ clean_var (tmp st).

(** The variables after a document was loaded into [st]. *)
Definition loaded (load_all : bool) (st st' : state) (es : list entry) : Prop :=
  forall name,
    match last_entry name es with
    | Some e =>
        if load_all || bool_decide (is_Some (vars st !! name))
        then exists v, vars st' !! name = Some v /\ has_value v e
        else vars st' !! name = None
    | None => vars st' !! name = vars st !! name
    end.

Lemma name_char_head c : is_name c = true ->
  is_ws c = false /\ (c =c NL) = false /\ (c =c "#") = false.
Proof.
  intros H. assert (implb (is_name c) (negb (is_ws c) && negb (c =c NL) && negb (c =c "#")) = true) as E
    by all_chars_compute c.
  rewrite H in E. cbn [implb] in E. bools. split_and!; try done; by apply char_eqb_neq.
Qed.

Lemma after_value_newline config rest : after_value config (NL :: rest) = Ok rest.
Proof. reflexivity. Qed.

Lemma set_span_end_value var e pos : has_value var e -> has_value (set_span_end var pos) e.
Proof. done. Qed.

Lemma has_value_clean v e : entry_ok e -> has_value v e -> clean_var v.
Proof.
  intros (_ & _ & Hset & _) (Hf & Hs & Ha) Hn. unfold is_set in *. rewrite Hf in Hn.
  cbn [flag_] in Hset. congruence.
Qed.

Lemma directive_colon config load_all st name t :
  name <> [] -> Forall (fun c => is_name c = true) name ->
  directive config load_all st (name ++ lit ": " ++ t) =
    (let '(ref, st) := resolve load_all st name in
     match parse_value config (read_ref st ref) (drop_while is_ws t) with
     | (var, Ok rest) =>
         (write_ref st ref (set_span_end var (curr_pos config rest)), after_value config rest)
     | (var, Throw e) => (write_ref st ref var, Throw e)
     | (var, UB) => (write_ref st ref var, UB)
     | (var, NoFuel) => (write_ref st ref var, NoFuel)
     end).
Proof.
  intros Hne Hn. unfold directive, SV.extract_leading.
  rewrite take_while_app, drop_while_app by done.
  change (take_while is_name (lit ": " ++ t)) with (@nil ascii). rewrite app_nil_r.
  destruct (SV.empty name) eqn:E; [by destruct name|]. reflexivity.
Qed.

(** One line: the directive writes the value to the variable it names. *)
Lemma directive_entry config load_all st e rest : entry_ok e -> clean_state st ->
  exists st', directive config load_all st (entry_text e ++ rest) = (st', Ok rest) /\
    clean_state st' /\ loaded load_all st st' [e].
Proof.
  intros He [Hc Ht]. pose proof He as (Hne & Hn & Hset & (c0 & t0 & Ehd & Hws0) & Hread).
  unfold entry_text. rewrite <- !app_assoc. rewrite directive_colon by done. cbn [app].
  assert (drop_while is_ws (e_text e ++ NL :: rest) = e_text e ++ NL :: rest) as ->.
  { destruct (e_text e) as [|x xs]; [done|]. cbn in Ehd. injection Ehd as -> _. cbn [app].
    by apply drop_while_false. }
  assert (exists ref st1, resolve load_all st (e_name e) = (ref, st1) /\ clean_var (read_ref st1 ref) /\
    forall v, has_value v e ->
      clean_state (write_ref st1 ref v) /\ loaded load_all st (write_ref st1 ref v) [e]) as
    (ref & st1 & -> & Hclean & Hwrite).
  2: { destruct (Hread config (read_ref st1 ref) rest Hclean) as [span ->].
       eexists. rewrite after_value_newline. split; [reflexivity|]. by apply Hwrite. }
  assert (forall v, has_value v e -> clean_var v) as Hv by (intros; by eapply has_value_clean).
  unfold resolve, loaded. destruct load_all.
  - eexists _, _. split; [reflexivity|]. split.
    { unfold read_ref, get_var. destruct (vars st !! e_name e) as [v|] eqn:E.
      - rewrite E. by eapply Hc.
      - cbn [vars]. rewrite lookup_insert_eq. by vm_compute. }
    intros v Hval. split.
    + destruct (vars st !! e_name e); cbn [write_ref]; (split; [|done]); cbn [vars tmp];
        intros n v'; rewrite ?lookup_insert; repeat case_decide; intros; simplify_eq; eauto.
    + intros name. cbn [last_entry orb]. destruct (decide (e_name e = name)) as [<-|Hn'].
      * exists v. split; [|done]. destruct (vars st !! e_name e); cbn [write_ref vars];
          by rewrite lookup_insert_eq.
      * destruct (vars st !! e_name e); cbn [write_ref vars]; by rewrite ?lookup_insert_ne.
  - cbn [orb]. destruct (vars st !! e_name e) as [v0|] eqn:E.
    + eexists _, _. split; [reflexivity|]. split; [unfold read_ref, get_var; rewrite E; by eapply Hc|].
      intros v Hval. split.
      * split; [|done]. cbn [write_ref vars]. intros n v'. rewrite lookup_insert. case_decide; intros; simplify_eq; eauto.
      * intros name. cbn [last_entry write_ref vars]. destruct (decide (e_name e = name)) as [<-|Hn'].
        -- rewrite E, bool_decide_eq_true_2 by eauto. exists v. by rewrite lookup_insert_eq.
        -- by rewrite lookup_insert_ne.
    + eexists _, _. split; [reflexivity|]. split; [done|]. intros v Hval. split.
      * split; [done|]. cbn. eauto.
      * intros name. cbn [last_entry write_ref vars]. destruct (decide (e_name e = name)) as [<-|Hn']; [|done].
        rewrite E, bool_decide_eq_false_2; [done|]. by intros [? ?].
Qed.

Lemma loaded_cons load_all st st1 st2 e es :
  loaded load_all st st1 [e] -> loaded load_all st1 st2 es -> loaded load_all st st2 (e :: es).
Proof.
  intros H1 H2 name. specialize (H1 name). specialize (H2 name). cbn [last_entry] in *.
  destruct (last_entry name es) as [e'|].
  - destruct (decide (e_name e = name)) as [<-|].
    + destruct load_all; [done|]. cbn [orb] in *.
      destruct (bool_decide_reflect (is_Some (vars st !! e_name e))) as [Hs|Hs].
      * destruct H1 as (v & E & _). rewrite bool_decide_eq_true_2 in H2; [done|]. rewrite E. eauto.
      * rewrite bool_decide_eq_false_2 in H2; [done|]. rewrite H1. by intros [? ?].
    + by rewrite H1 in H2.
  - destruct (decide (e_name e = name)) as [<-|]; rewrite H2; done.
Qed.

Lemma load_loop_document config load_all es : Forall entry_ok es ->
  forall fuel st, clean_state st -> length es + 1 < fuel ->
  exists st', load_loop config load_all fuel st (flat_map entry_text es ++ [NL]) = (st', Ok ()) /\
    clean_state st' /\ loaded load_all st st' es.
Proof.
  induction 1 as [|e es He Hes IH]; intros fuel st Hst Hf.
  - destruct fuel as [|[|fuel]]; [lia..|]. exists st. split_and!; try done. 
  - destruct fuel as [|fuel]; [lia|]. cbn [flat_map length] in *. rewrite <- app_assoc.
    destruct (directive_entry config load_all st e (flat_map entry_text es ++ [NL]) He Hst)
      as (st1 & Hd & Hst1 & Hl1).
    destruct (IH fuel st1 Hst1 ltac:(lia)) as (st2 & Hl & Hst2 & Hl2).
    exists st2. split; [|split; [done|by eapply loaded_cons]].
    rewrite <- Hl. clear IH Hl. destruct He as (Hne & Hn & _).
    unfold entry_text in *. destruct (e_name e) as [|c n]; [done|]. inversion Hn as [|? ? Hc _]; subst.
    apply name_char_head in Hc as (H1 & H2 & H3). cbn [app] in *.
    cbn [load_loop]. cbn zeta. unfold SV.remove_leading. rewrite drop_while_false by done.
    by rewrite H2, H3, Hd.
Qed.

Lemma load_document vs load_all es :
  Forall entry_ok es -> (forall n v, vs !! n = Some v -> clean_var v) ->
  exists vs', load_config_from_string vs (flat_map entry_text es) load_all = (vs', Ok ()) /\
    (forall n v, vs' !! n = Some v -> clean_var v) /\
    loaded load_all (mkState vs null_var) (mkState vs' null_var) es.
Proof.
  intros Hes Hvs. unfold load_config_from_string. cbn zeta.
  destruct (load_loop_document (flat_map entry_text es ++ [NL]) load_all es Hes
    (S (length (flat_map entry_text es ++ [NL]))) (mkState vs null_var)) as (st' & -> & [Hc _] & Hl).
  - split; [done|]. by vm_compute.
  - rewrite length_app. cbn [length]. enough (length es <= length (flat_map entry_text es)) by lia.
    clear. induction es as [|e es IH]; [done|]. cbn [flat_map length]. unfold entry_text at 1.
    rewrite !length_app. cbn [length lit String.list_ascii_of_string]. lia.
  - exists (vars st'). done.
Qed.

(** A setting as a program writes it: a scalar, or an array in one of the
    layouts the grammar allows. *)
Inductive setting :=
| Scalar (name s : str)
| Array (name : str) (items : list array_item) (o : option (str * str)) (ws : str).

Definition setting_entry (x : setting) : entry :=
  match x with
  | Scalar name s => scalar_entry name s
  | Array name items o ws => array_entry name items o ws
  end.

Definition valid_name (name : str) : Prop := name <> [] /\ Forall (fun c => is_name c = true) name.

Definition setting_ok (x : setting) : Prop :=
  match x with
  | Scalar name s => valid_name name /\ nul_free s
  | Array name items o ws =>
      valid_name name /\ Forall item_ok items /\ last_ok o /\
      Forall (fun c => is_space c = true) ws
  end.

Lemma setting_entry_ok x : setting_ok x -> entry_ok (setting_entry x).
Proof.
  destruct x as [name s|name items o ws]; cbn.
  - intros [[? ?] ?]. split_and!; auto; by apply escape_string_reads_as.
  - intros ([? ?] & ? & ? & ?). split_and!; auto; by apply array_reads_as.
Qed.


Definition sample_settings : list setting :=
  [Scalar (lit "name") (lit "it's # 1");
   Array (lit "limits") [Item (lit " ") (lit "a, b") NL; Item [TAB] (lit "c]") ","%char]
     (Some ([], lit "d")) []].


(** ** Where the round trip stops *)

(** A null character is escaped as a backslash and a zero, which the parser
    does not know: loading what [escape_string] wrote for it is a parse error. *)
Theorem escape_string_nul_rejected vs :
  exists d,
    (load_config_from_string vs (lit "a: " ++ escape_string [NUL]) true).2 =
    Throw (ParseError (lit "line 1:6: Unknown escape sequence: `\0`") d).
Proof. eexists. vm_compute. reflexivity. Qed.

End ConfigEscape.
