(* ===== verification/SimfileDump.v ===== *)
(** * Printing a Simfile and reading it back

    [Simfile::dump] and the loaders of [src/sim/simfile.cc] against each other,
    through the text, the parser of [ConfigFile] and the readers of the items. *)

From Stdlib Require Import ZArith QArith Lia Ascii Sorted.
From S2P Require Import Prelude.
From S2P Require Import StdMap.
From S2P Require Import Ctype.
From S2P Require Import StringView.
From S2P Require Import StringTraits.
From S2P Require Import StringCompare.
From S2P Require Import StringTransform.
From S2P Require Import Floats.
From S2P Require Import Time.
From S2P Require Import SimpleParser.
From S2P Require Import Path.
From S2P Require Import ConfigFile.
From S2P Require Import Simfile.
From S2P Require Import SimfileTests.
From S2P Require Import SimfileFiles.
From S2P Require Import ConfigFileEscape.
Import ConfigEscape.
Local Open Scope Z_scope.

(** ** Words *)

(** A word of an item. *)
Definition word (w : str) : Prop := w <> [] /\ Forall (fun c => is_space c = false) w.

Lemma word_nonempty w : word w -> SV.empty w = false.
Proof. intros [Hne _]. by destruct w. Qed.

Lemma remove_leading_word w r : word w -> SV.remove_leading is_space (w ++ r) = w ++ r.
Proof.
  intros [Hne Hw]. destruct Hw as [|c w Hc Hw]; [done|]. unfold SV.remove_leading.
  cbn [app]. by apply drop_while_false.
Qed.

Lemma next_word_space w r : word w -> next_word (w ++ lit " " ++ r) = (w, r).
Proof.
  intros Hw. unfold next_word, SP.extract_next_non_empty. rewrite remove_leading_word by done.
  destruct Hw as [_ Hw]. by apply SP.extract_next_word.
Qed.

Lemma next_word_last w : word w -> next_word w = (w, []).
Proof.
  intros Hw. unfold next_word, SP.extract_next_non_empty.
  rewrite <- (app_nil_r w), remove_leading_word, app_nil_r by done. destruct Hw as [_ Hw].
  by apply SP.extract_next_last.
Qed.

Lemma next_word_nil : next_word [] = ([], []).
Proof. reflexivity. Qed.

Lemma digits_word s : s <> [] -> digits s -> word s.
Proof.
  intros Hne H. split; [done|]. eapply Forall_impl; [exact H|]. intros c Hc.
  assert (implb (is_digit c) (negb (is_space c)) = true) as E by all_chars_compute c.
  rewrite Hc in E. by apply negb_true_iff in E.
Qed.

Lemma to_string_word x : word (to_string x).
Proof.
  destruct (Z_lt_le_dec x 0) as [Hx|Hx].
  - rewrite to_string_neg by done. destruct (to_string_nonneg (- x)) as (H1 & H2 & _); [lia|].
    destruct (digits_word _ H1 H2) as [_ Hw]. split; [done|]. by constructor.
  - destruct (to_string_nonneg x Hx) as (H1 & H2 & _). by apply digits_word.
Qed.

Lemma print_decimal_word i f : i <> [] -> digits i -> digits f -> word (print_decimal i f).
Proof.
  intros Hne Hi Hf. destruct (digits_word i Hne Hi) as [_ Wi]. unfold print_decimal. split; [by destruct i|].
  apply Forall_app. split; [done|]. destruct f as [|c f]; [constructor|]. cbn [SV.empty length Nat.eqb].
  destruct (digits_word (c :: f)) as [_ Wf]; [done|done|]. by constructor.
Qed.

(** ** Items *)

(** A whole number of MiB that fits the configuration. *)
Definition mib (x : Z) : Prop := exists k, 1 <= k <= max_mem_limit /\ x = k * 2 ^ 20.

Lemma mib_shift x : mib x ->
  shl20 (Z.shiftr x 20) = x /\ 1 <= Z.shiftr x 20 <= max_mem_limit.
Proof.
  intros (k & Hk & ->). rewrite <- Z.shiftl_mul_pow2, Z.shiftr_shiftl_l, Z.shiftl_0_r by lia.
  split; [|done]. unfold shl20. apply Z.mod_small. rewrite Z.shiftl_mul_pow2 by lia.
  change max_mem_limit with (2 ^ 44 - 1) in Hk. lia.
Qed.

Lemma str2num_in_mib x : mib x -> str2num_in uint64 (to_string (Z.shiftr x 20)) 1 max_mem_limit = Some (Z.shiftr x 20).
Proof.
  intros Hx. destruct (mib_shift x Hx) as [_ Hr]. unfold str2num_in.
  rewrite str2num_to_string_spec; [|by split|done|].
  - destruct (Z.ltb_spec (Z.shiftr x 20) 1), (Z.ltb_spec max_mem_limit (Z.shiftr x 20)); try lia. done.
  - unfold in_range, uint64. cbn [int_min int_max]. change max_mem_limit with (2 ^ 44 - 1) in Hr. lia.
Qed.

Definition limits_ok (t : Test) : Prop :=
  word (test_name t) /\ 0 < time_limit t < 2 ^ 51 /\ mib (memory_limit t).

(** The line of a test reads back as its name and limits. *)
Lemma limits_line_parses gml t : limits_ok t ->
  exists line, limits_line gml t = Ok line /\
    parse_limits_item line =
      Ok (test_name t, time_limit t,
          if bool_decide (gml = Some (memory_limit t)) then None else Some (memory_limit t)).
Proof.
  intros (Hn & Ht & Hm). destruct (time_limit_round_trip _ Ht) as (tl & r & E & Hr & Es & Hp & Ens).
  destruct (duration_to_string_spec 9 (time_limit t)) as (f & E' & Hf & _); [lia|lia|].
  rewrite E in E'. injection E' as ->. set (tl := print_decimal _ f) in *.
  assert (word tl) as Wt.
  { apply print_decimal_word; [|..|done]; apply to_string_nonneg, Z.div_pos; lia. }
  unfold limits_line. rewrite E. cbn [mbind outcome_bind].
  assert (Qle_bool r 0 = false) as Hq.
  { destruct (Qle_bool r 0) eqn:C; [|done]. apply Qle_bool_iff in C. by apply Qle_not_lt in C. }
  assert ((time_limit t =? 0) = false) as Hz by lia.
  unfold parse_limits_item.
  destruct (bool_decide (gml = Some (memory_limit t))); eexists; (split; [reflexivity|]).
  - rewrite next_word_space, next_word_last by done. rewrite Hr. cbn [negb]. rewrite Es. cbn [mbind outcome_bind].
    rewrite Hq, Ens. cbn [mbind outcome_bind]. by rewrite Hz.
  - rewrite <- !app_assoc. rewrite !next_word_space by done. rewrite Hr. cbn [negb]. rewrite Es. cbn [mbind outcome_bind].
    rewrite Hq, Ens. cbn [mbind outcome_bind]. rewrite Hz. cbn zeta.
    rewrite <- (app_nil_r (to_string _)), remove_leading_word, app_nil_r by apply to_string_word.
    rewrite (word_nonempty (to_string _)) by apply to_string_word.
    rewrite str2num_in_mib by done. by destruct (mib_shift _ Hm) as [-> _].
Qed.

Lemma scoring_line_parses gid sc : gid <> [] -> digits gid -> in_range int64 sc = true ->
  parse_scoring_item (gid ++ lit " " ++ to_string sc) = Ok (gid, sc).
Proof.
  intros Hne Hd Hs. unfold parse_scoring_item. rewrite next_word_space by (by apply digits_word).
  rewrite is_digit_str_digits by done. cbn [negb].
  rewrite <- (app_nil_r (to_string _)), remove_leading_word, app_nil_r by apply to_string_word.
  by rewrite str2num_to_string_spec.
Qed.

Lemma files_line_parses n i o : word n -> word i -> word o ->
  parse_test_files_item (n ++ lit " " ++ i ++ lit " " ++ o) = Ok (n, i, o).
Proof.
  intros Hn Hi Ho. unfold parse_test_files_item. rewrite !next_word_space by done.
  by rewrite next_word_last.
Qed.

Lemma files_line_parses_interactive n i : word n -> word i ->
  parse_test_files_item (n ++ lit " " ++ i) = Ok (n, i, []).
Proof.
  intros Hn Hi. unfold parse_test_files_item. rewrite next_word_space, next_word_last by done.
  by rewrite next_word_nil.
Qed.

(** ** Rebuilding the groups *)

(** A test before its files are assigned. *)
Definition limits_only (t : Test) : Test := new_test (test_name t) (time_limit t) (memory_limit t).

Definition group_gid (g : TestGroup) : str :=
  match tests g with t :: _ => test_gid (test_name t) | [] => [] end.

(** The entry of the map [load_tests] makes of a group, with a given score. *)
Definition rebuilt (sc : TestGroup -> Z) (g : TestGroup) : str * TestGroup :=
  (group_gid g, mkTestGroup (limits_only <$> tests g) (sc g)).

Definition group_wf (g : TestGroup) : Prop :=
  tests g <> [] /\
  Forall (fun t => canonical_name (test_name t) /\ num (test_gid (test_name t)) = group_number g) (tests g) /\
  StronglySorted (fun a b => test_less a b = true) (tests g) /\
  in_range int64 (score g) = true.

Definition groups_wf (gs : list TestGroup) : Prop :=
  Forall group_wf gs /\ StronglySorted Z.lt (group_number <$> gs).

Lemma group_gid_num g : group_wf g -> digits (group_gid g) /\ num (group_gid g) = group_number g /\ group_gid g <> [].
Proof.
  intros (Hne & Hf & _ & _). unfold group_gid, group_number. destruct (tests g) as [|t ts]; [done|].
  inversion Hf as [|? ? [[Hg _] _] _]; subst. split; [apply test_gid_digits|]. split; [done|].
  unfold test_gid. destruct (split (test_name t)) as [gid tid]. cbn [fst] in Hg. by case_goal.
Qed.

Lemma map_update_app {K V} (less : K -> K -> bool) k (d : V) f m1 m2 :
  Forall (fun e => less e.1 k = true) m1 ->
  map_update less k d f (m1 ++ m2) = m1 ++ map_update less k d f m2.
Proof.
  induction 1 as [|[k' v] m1 H Hm IH]; [done|]. cbn [app map_update fst] in *. by rewrite H, IH.
Qed.

(** Adding the tests of one group behind the groups before it. *)
Lemma add_tests_to_last ts : forall acc k g,
  Forall (fun e => StrNumCompare e.1 k = true) acc -> digits k -> Forall (fun e : str * TestGroup => digits e.1) acc ->
  Forall (fun t => num (test_gid (test_name t)) = num k) ts ->
  fold_left add_test ts (acc ++ [(k, g)]) = acc ++ [(k, mkTestGroup (tests g ++ ts) (score g))].
Proof.
  induction ts as [|t ts IH]; intros acc k g Hacc Hk Hd Hts; cbn [fold_left].
  - rewrite app_nil_r. by destruct g.
  - inversion Hts as [|? ? Ht Hts']; subst. pose proof (test_gid_digits (test_name t)) as Dt.
    unfold add_test at 2. rewrite map_update_app.
    + cbn [map_update]. rewrite !StrNumCompare_spec, Ht, Z.ltb_irrefl by done.
      rewrite IH by done. unfold add_test_to_group. cbn [tests score]. by rewrite <- app_assoc.
    + clear - Hacc Hk Hd Ht Dt. induction Hacc as [|e acc He Hacc IH]; [constructor|].
      inversion Hd; subst. constructor; [|by apply IH].
      rewrite StrNumCompare_spec in * by done. by rewrite Ht.
Qed.

Lemma add_tests_rebuilds gs : forall acc,
  groups_wf gs -> Forall (fun e : str * TestGroup => digits e.1) acc ->
  Forall (fun e => Forall (fun g => num e.1 < group_number g) gs) acc ->
  fold_left add_test (limits_only <$> all_tests gs) acc = acc ++ (rebuilt (fun _ => 0) <$> gs).
Proof.
  induction gs as [|g gs IH]; intros acc [Hg Hs] Hd Hlt.
  - by rewrite app_nil_r.
  - inversion Hg as [|? ? Hg1 Hg2]; subst. cbn [fmap list_fmap] in Hs. apply StronglySorted_inv in Hs as [Hs1 Hs2].
    destruct (group_gid_num g Hg1) as (Dg & Ng & Neg).
    unfold all_tests. cbn [fmap list_fmap concat]. rewrite fmap_app, fold_left_app. fold (all_tests gs).
    assert (Forall (fun e => StrNumCompare e.1 (group_gid g) = true) acc) as Hacc.
    { clear - Hd Hlt Dg Ng. induction Hlt as [|e acc He Hlt IH]; [constructor|]. inversion Hd; subst.
      constructor; [|by apply IH]. rewrite StrNumCompare_spec by done. inversion He; subst. lia. }
    replace (fold_left add_test (limits_only <$> tests g) acc) with (acc ++ [rebuilt (fun _ => 0) g]).
    + rewrite IH; [|done|..].
      * by rewrite <- app_assoc.
      * apply Forall_app. split; [done|]. by repeat constructor.
      * apply Forall_app. split.
        -- eapply Forall_impl; [exact Hlt|]. intros e He. by inversion He.
        -- constructor; [|constructor]. cbn [rebuilt fst]. rewrite Ng.
           rewrite Forall_fmap in Hs2. exact Hs2.
    + unfold rebuilt. destruct Hg1 as (Hne & Hf & _). unfold group_gid in *. destruct (tests g) as [|t ts] eqn:Et; [done|].
      inversion Hf as [|? ? [_ Ht] Hf']; subst. cbn [fmap list_fmap fold_left]. unfold add_test at 2.
      cbn [test_name limits_only new_test].
      rewrite <- (app_nil_r acc) at 2. rewrite map_update_app by done. cbn [map_update].
      rewrite add_tests_to_last; [done|done|apply test_gid_digits|done|].
      rewrite Forall_fmap. eapply Forall_impl; [exact Hf'|]. intros t' [_ E].
      change (num (test_gid (test_name t')) = num (test_gid (test_name t))). by rewrite E, Ht.
Qed.

(** *** Scores *)

Definition scoring_line (g : TestGroup) : str := group_gid g ++ lit " " ++ to_string (score g).

Lemma group_gids_distinct g gs : groups_wf (g :: gs) -> Forall (fun g' => group_gid g' <> group_gid g) gs.
Proof.
  intros [Hg Hs]. inversion Hg as [|? ? Hg1 Hg2]; subst. cbn [fmap list_fmap] in Hs.
  apply StronglySorted_inv in Hs as [_ Hs]. rewrite Forall_fmap in Hs.
  destruct (group_gid_num g Hg1) as (_ & N1 & _).
  induction Hg2 as [|g' gs Hg' Hgs IH]; [constructor|]. inversion Hs; subst.
  constructor; [|apply IH; [by constructor|done]]. intros E.
  destruct (group_gid_num g' Hg') as (_ & N2 & _). rewrite E, N1 in N2. cbn [compose] in *. lia.
Qed.

Lemma groups_wf_tail g gs : groups_wf (g :: gs) -> groups_wf gs.
Proof.
  intros [Hg Hs]. inversion Hg; subst. cbn [fmap list_fmap] in Hs.
  apply StronglySorted_inv in Hs as [Hs _]. by split.
Qed.

(** The map of the scores holds the score of each group. *)
Lemma gid_to_score_ok groups gs : forall m,
  groups_wf gs -> map_sorted SV.ltb m ->
  Forall (fun g => is_Some (map_find StrNumCompare (group_gid g) groups)) gs ->
  Forall (fun g => map_find SV.ltb (group_gid g) m = None) gs ->
  exists m', gid_to_score groups m (scoring_line <$> gs) = Ok m' /\
    Forall (fun g => map_find SV.ltb (group_gid g) m' = Some (score g)) gs /\
    (forall k, Forall (fun g => group_gid g <> k) gs -> map_find SV.ltb k m' = map_find SV.ltb k m).
Proof.
  induction gs as [|g gs IH]; intros m Hw Hm Hin Hnew.
  { exists m. split_and!; [done|constructor|done]. }
  pose proof (group_gids_distinct g gs Hw) as Hd. pose proof (groups_wf_tail g gs Hw) as Hw'.
  destruct Hw as [Hg _]. inversion Hg as [|? ? Hg1 Hg2]; subst.
  inversion Hin as [|? ? [v Hv] Hin']; subst. inversion Hnew as [|? ? Hn Hnew']; subst.
  destruct (group_gid_num g Hg1) as (Dg & _ & Neg). destruct Hg1 as (_ & _ & _ & Hsc).
  cbn [fmap list_fmap gid_to_score]. change (scoring_line g) with (group_gid g ++ lit " " ++ to_string (score g)).
  rewrite scoring_line_parses by done.
  cbn [mbind outcome_bind]. rewrite Hv. unfold map_emplace. rewrite Hn. cbn [negb].
  set (m1 := map_update SV.ltb (group_gid g) (score g) (fun x => x) m).
  assert (forall k, map_find SV.ltb k m1 = if equiv SV.ltb (group_gid g) k then Some (score g) else map_find SV.ltb k m) as Hm1.
  { intros k. unfold m1. rewrite map_find_update by first [apply _|done]. by rewrite Hn. }
  destruct (IH m1) as (m' & E & F & O); [done|by apply map_update_sorted; [apply _|]|done|..].
  { clear - Hnew' Hd Hm1. induction Hnew' as [|g' gs Hn' Hnew IH]; [constructor|]. inversion Hd; subst.
    constructor; [|by apply IH]. rewrite Hm1. destruct (equiv _ _ _) eqn:E; [|done].
    apply equiv_ltb in E. congruence. }
  exists m'. split_and!; [done| |].
  - constructor; [|done]. rewrite O by done. rewrite Hm1.
    by rewrite (proj2 (equiv_ltb (group_gid g) (group_gid g)) eq_refl).
  - intros k Hk. inversion Hk; subst. rewrite O by done. rewrite Hm1.
    destruct (equiv _ _ _) eqn:Ek; [|done]. apply equiv_ltb in Ek. congruence.
Qed.

Lemma assign_scoring_ok m gs :
  Forall (fun g => map_find SV.ltb (group_gid g) m = Some (score g)) gs ->
  assign_scoring m (rebuilt (fun _ => 0) <$> gs) = Ok (rebuilt score <$> gs).
Proof.
  induction 1 as [|g gs Hg Hgs IH]; [done|]. cbn [fmap list_fmap rebuilt assign_scoring].
  by rewrite Hg, IH.
Qed.

Lemma rebuilt_sorted sc gs : groups_wf gs -> map_sorted StrNumCompare (rebuilt sc <$> gs).
Proof.
  intros [Hg Hs]. unfold map_sorted. induction Hg as [|g gs Hg1 Hgs IH]; cbn [fmap list_fmap]; [constructor|].
  cbn [fmap list_fmap] in Hs. apply StronglySorted_inv in Hs as [Hs1 Hs2]. constructor; [by apply IH|].
  destruct (group_gid_num g Hg1) as (D1 & N1 & _). rewrite !Forall_fmap. rewrite Forall_fmap in Hs2.
  clear - D1 N1 Hgs Hs2. induction Hgs as [|g' gs Hg' Hgs IH]; [constructor|]. inversion Hs2; subst.
  constructor; [|by apply IH]. destruct (group_gid_num g' Hg') as (D2 & N2 & _).
  cbn [compose rebuilt fst] in *. rewrite StrNumCompare_spec by done. lia.
Qed.

Lemma score_groups_rebuilds scoring gs : groups_wf gs ->
  (gs <> [] -> Config.is_set scoring = true /\ Config.arr_ scoring = scoring_line <$> gs) ->
  (gs = [] -> Config.is_set scoring = false) ->
  score_groups scoring (rebuilt (fun _ => 0) <$> gs) = Ok (rebuilt score <$> gs).
Proof.
  intros Hw H1 H2. unfold score_groups. destruct gs as [|g gs0] eqn:Eg; [by rewrite H2|]. rewrite <- Eg in *.
  destruct H1 as [-> ->]; [by rewrite Eg|]. cbn [negb].
  destruct (gid_to_score_ok (rebuilt (fun _ => 0) <$> gs) gs []) as (m & E & F & _); [done|constructor|..].
  - pose proof (rebuilt_sorted (fun _ => 0) gs Hw) as Hs. apply Forall_forall. intros g' Hin.
    eexists. apply map_find_sorted; [apply _|done|]. apply list_elem_of_fmap. by exists g'.
  - apply Forall_forall. done.
  - rewrite E. cbn [mbind outcome_bind]. by apply assign_scoring_ok.
Qed.

(** *** Sorting *)

Section Sorting.
Context `{StdSort}.

(** A strictly sorted list is the only sorted permutation of itself. *)
Lemma sorted_unique {A} (less : A -> A -> bool) (l : list A) : forall l',
  StrictWeakOrder (fun x => x ∈ l) less ->
  StronglySorted (fun a b => less a b = true) l -> l' ≡ₚ l -> sorted_by less l' -> l' = l.
Proof.
  induction l as [|x l IH]; intros l' W Hs Hp Hs'.
  - by apply Permutation_nil_r in Hp.
  - apply StronglySorted_inv in Hs as [Hs1 Hs2]. destruct l' as [|y l'].
    { by apply Permutation_nil_l in Hp. }
    apply StronglySorted_inv in Hs' as [Hs1' Hs2'].
    assert (y = x) as ->.
    { assert (x ∈ y :: l') as Hx by (rewrite Hp; left). apply elem_of_cons in Hx as [->|Hx]; [done|].
      rewrite Forall_forall in Hs2'. apply Hs2' in Hx.
      assert (y ∈ x :: l) as Hy by (rewrite <- Hp; left). apply elem_of_cons in Hy as [->|Hy]; [done|].
      rewrite Forall_forall in Hs2. apply Hs2 in Hy. congruence. }
    f_equal. apply IH; [|done|by apply Permutation_cons_inv in Hp|done].
    eapply swo_subset; [|exact W]. intros z. by right.
Qed.

Lemma sort_tests_rebuilt g : group_wf g -> sort_tests (rebuilt score g).2 = (rebuilt score g).2.
Proof.
  intros (Hne & Hf & Hs & _). unfold rebuilt. cbn [snd].
  assert (Forall (fun t => canonical_name (test_name t)) (limits_only <$> tests g)) as Hc.
  { rewrite Forall_fmap. eapply Forall_impl; [exact Hf|]. intros t [Ht _]. exact Ht. }
  destruct (sort_tests_perm (mkTestGroup (limits_only <$> tests g) (score g)) Hc) as [Hp Hso].
  unfold sort_tests in *. cbn [tests score] in *. f_equal.
  apply (sorted_unique test_less); [|..|done|done].
  - apply (swo_subset (fun t => canonical_name (test_name t))).
    + intros t. rewrite Forall_forall in Hc. apply Hc.
    + apply (swo_map canonical_name test_name TestNameComparator TestNameComparator_swo).
  - clear - Hs. induction Hs as [|t ts Hts IH Ht]; cbn [fmap list_fmap]; [constructor|].
    constructor; [done|]. rewrite Forall_fmap. exact Ht.
Qed.
End Sorting.

(** *** Files *)

Definition files_ok (inter : bool) (t : Test) : Prop :=
  word (test_name t) /\ word (test_in t) /\ package_path (test_in t) /\
  if inter then test_out t = None
  else exists o, test_out t = Some o /\ word o /\ package_path o.

Definition files_line (inter : bool) (t : Test) : str :=
  test_name t ++ lit " " ++ test_in t ++ (if inter then [] else lit " " ++ default [] (test_out t)).

Lemma files_line_ok inter t : files_ok inter t ->
  parse_test_files_item (files_line inter t) = Ok (test_name t, test_in t, default [] (test_out t)) /\
  (inter && negb (SV.empty (default [] (test_out t)))) = false /\
  (negb inter && SV.empty (default [] (test_out t))) = false.
Proof.
  intros (Hn & Hi & _ & Ho). unfold files_line. destruct inter.
  - rewrite app_nil_r, Ho. cbn [default]. by rewrite files_line_parses_interactive.
  - destruct Ho as (o & -> & Hw & _). cbn [default]. rewrite files_line_parses by done.
    by rewrite word_nonempty.
Qed.

Lemma read_tests_files_ok inter ts : forall m,
  Forall (files_ok inter) ts -> NoDup (test_name <$> ts) -> map_sorted SV.ltb m ->
  Forall (fun t => map_find SV.ltb (test_name t) m = None) ts ->
  exists m', read_tests_files inter m (files_line inter <$> ts) = Ok m' /\
    Forall (fun t => map_find SV.ltb (test_name t) m' = Some (test_in t, default [] (test_out t))) ts /\
    (forall k, k ∉ test_name <$> ts -> map_find SV.ltb k m' = map_find SV.ltb k m).
Proof.
  induction ts as [|t ts IH]; intros m Hok Hnd Hm Hnew.
  { exists m. split_and!; [done|constructor|done]. }
  inversion Hok as [|? ? Ht Hok']; subst. inversion Hnew as [|? ? Hn Hnew']; subst.
  cbn [fmap list_fmap] in Hnd |- *. apply NoDup_cons in Hnd as [Hni Hnd].
  destruct (files_line_ok inter t Ht) as (Ep & E1 & E2). destruct Ht as (Wn & Wi & _ & _).
  cbn [read_tests_files]. rewrite Ep. cbn [mbind outcome_bind]. rewrite !word_nonempty, E1, E2 by done.
  unfold map_emplace. rewrite Hn. cbn [negb].
  set (m1 := map_update SV.ltb (test_name t) (test_in t, default [] (test_out t)) (fun x => x) m).
  assert (forall k, map_find SV.ltb k m1 =
    if equiv SV.ltb (test_name t) k then Some (test_in t, default [] (test_out t)) else map_find SV.ltb k m) as Hm1.
  { intros k. unfold m1. rewrite map_find_update by first [apply _|done]. by rewrite Hn. }
  destruct (IH m1) as (m' & E & F & O); [done|done|by apply map_update_sorted; [apply _|]|..].
  { clear - Hnew' Hni Hm1. induction Hnew' as [|t' ts Hn' Hnew IH]; [constructor|].
    cbn [fmap list_fmap] in Hni. apply not_elem_of_cons in Hni as [Hne Hni].
    constructor; [|by apply IH]. rewrite Hm1. destruct (equiv _ _ _) eqn:E; [|done]. by apply equiv_ltb in E. }
  exists m'. split_and!; [done| |].
  - constructor; [|done]. rewrite O by done. rewrite Hm1.
    by rewrite (proj2 (equiv_ltb (test_name t) (test_name t)) eq_refl).
  - intros k Hk. apply not_elem_of_cons in Hk as [Hne Hk]. rewrite O by done. rewrite Hm1.
    destruct (equiv _ _ _) eqn:Ek; [|done]. apply equiv_ltb in Ek. congruence.
Qed.

Lemma assign_files_ok inter m t : files_ok inter t ->
  map_find SV.ltb (test_name t) m = Some (test_in t, default [] (test_out t)) ->
  assign_files inter m (limits_only t) = Ok t.
Proof.
  intros (Hn & [Wi _] & Pi & Ho) Hf. unfold assign_files. cbn [test_name limits_only new_test]. rewrite Hf.
  rewrite (secure_path_id (test_in t)) by done. cbn [mbind outcome_bind]. destruct inter.
  - unfold set_files. cbn [test_name time_limit memory_limit limits_only new_test]. rewrite <- Ho. by destruct t.
  - destruct Ho as (o & Eo & [Wo _] & Po). rewrite Eo. cbn [default]. rewrite secure_path_id by done.
    cbn [mbind outcome_bind]. unfold set_files. cbn [test_name time_limit memory_limit limits_only new_test].
    destruct t as [n i o' tl ml]. simpl in *. by subst.
Qed.

Lemma for_each_fmap {A B} (f : B -> outcome B) (g : A -> B) (h : A -> B) l :
  Forall (fun x => f (g x) = Ok (h x)) l -> for_each f (g <$> l) = (h <$> l, Ok tt).
Proof.
  induction 1 as [|x l Hx Hl IH]; [done|]. cbn [fmap list_fmap for_each]. rewrite Hx.
  by rewrite IH.
Qed.

Lemma for_each_group_rebuilt f gs :
  Forall (fun g => Forall (fun t => f (limits_only t) = Ok t) (tests g)) gs ->
  for_each_group f ((rebuilt score <$> gs).*2) = (gs, Ok tt).
Proof.
  induction 1 as [|g gs Hg Hgs IH]; [done|]. cbn [fmap list_fmap rebuilt snd for_each_group tests score] in *.
  rewrite (for_each_fmap f limits_only id) by exact Hg. rewrite list_fmap_id, IH. by destruct g.
Qed.

(** *** Names *)

Lemma test_less_irrefl a b : canonical_name (test_name a) -> test_name a = test_name b -> test_less a b = false.
Proof.
  intros Ha E. unfold test_less. rewrite <- E.
  by apply (swo_irrefl (StrictWeakOrder := TestNameComparator_swo)).
Qed.

Lemma group_names_nodup g : group_wf g -> NoDup (test_name <$> tests g).
Proof.
  intros (_ & Hf & Hs & _). induction Hs as [|t ts Hs IH Ht]; cbn [fmap list_fmap]; [constructor|].
  inversion Hf as [|? ? [Hc _] Hf']; subst. apply NoDup_cons. split; [|by apply IH].
  intros Hin. apply list_elem_of_fmap in Hin as (t' & E & Hin). rewrite Forall_forall in Ht.
  apply Ht in Hin. by rewrite test_less_irrefl in Hin.
Qed.

Lemma names_nodup gs : groups_wf gs -> NoDup (test_name <$> all_tests gs).
Proof.
  induction gs as [|g gs IH]; intros Hw; [constructor|].
  pose proof (groups_wf_tail g gs Hw) as Hw'. unfold all_tests in *. cbn [fmap list_fmap concat].
  rewrite fmap_app. destruct Hw as [Hg Hs]. inversion Hg as [|? ? Hg1 Hg2]; subst.
  apply NoDup_app. split_and!; [by apply group_names_nodup| |by apply IH].
  intros n Hn Hn'. apply list_elem_of_fmap in Hn as (t & -> & Ht).
  apply list_elem_of_fmap in Hn' as (t' & E & Ht'). apply list_elem_of_In, in_concat in Ht' as (ts & Hts & Ht').
  apply list_elem_of_In, list_elem_of_fmap in Hts as (g' & -> & Hg'). apply list_elem_of_In in Ht'.
  cbn [fmap list_fmap] in Hs. apply StronglySorted_inv in Hs as [_ Hs]. rewrite Forall_fmap, Forall_forall in Hs.
  specialize (Hs g' Hg'). destruct Hg1 as (_ & Hf & _). rewrite Forall_forall in Hf. rewrite Forall_forall in Hg2.
  destruct (Hg2 g' Hg') as (_ & Hf' & _). rewrite Forall_forall in Hf'.
  destruct (Hf t Ht) as [_ N1]. destruct (Hf' t' Ht') as [_ N2]. rewrite E in N1.
  cbn [compose] in Hs. lia.
Qed.

(** ** The text *)

(** An array with one element per line, as [dump] lays it out. *)
Definition line_text (l : str) : str := [TAB] ++ Config.escape_string l ++ [NL].

Definition items_of (lines : list str) : list array_item :=
  match lines with
  | [] => []
  | l :: ls => Item [NL; TAB] l NL :: ((fun l => Item [TAB] l NL) <$> ls)
  end.

Lemma items_of_text lines : lines <> [] ->
  flat_map item_text (items_of lines) = NL :: flat_map line_text lines.
Proof.
  intros Hne. destruct lines as [|l ls]; [done|]. cbn [items_of flat_map]. unfold item_text at 1, line_text at 1.
  cbn [i_ws i_elem i_delim app]. do 2 f_equal. rewrite <- !app_assoc. do 2 f_equal.
  induction ls as [|l' ls IH]; [done|]. cbn [fmap list_fmap flat_map]. f_equal. apply IH. done.
Qed.

Lemma items_of_elems lines : map i_elem (items_of lines) = lines.
Proof.
  destruct lines as [|l ls]; [done|]. cbn [items_of map i_elem]. f_equal.
  induction ls as [|l' ls IH]; [done|]. cbn [fmap list_fmap map i_elem]. by f_equal.
Qed.

Lemma items_of_ok lines : Forall (fun x => nul_free x) lines -> Forall item_ok (items_of lines).
Proof.
  intros H. destruct H as [|l ls Hl Hls]; cbn [items_of]; [constructor|]. constructor.
  - split_and!; [by repeat constructor|done|by right].
  - rewrite Forall_fmap. eapply Forall_impl; [exact Hls|]. intros l' Hl'.
    split_and!; [by repeat constructor|done|by right].
Qed.

(** Several blocks of lines, each after an empty line. *)
Definition blocks_entry (nm : str) (blocks : list (list str)) (ws : str) : entry :=
  array_entry nm (flat_map items_of blocks) None ws.

Lemma blocks_elems nm blocks ws : e_arr (blocks_entry nm blocks ws) = concat blocks.
Proof.
  cbn [blocks_entry array_entry e_arr]. unfold array_elems. rewrite app_nil_r.
  induction blocks as [|b bs IH]; [done|]. cbn [flat_map concat].
  by rewrite map_app, items_of_elems, IH.
Qed.

Lemma blocks_text nm blocks ws : Forall (fun b => b <> []) blocks ->
  e_text (blocks_entry nm blocks ws) =
  lit "[" ++ flat_map (fun b => NL :: flat_map line_text b) blocks ++ ws ++ lit "]".
Proof.
  intros H. cbn [blocks_entry array_entry e_text]. unfold array_body. cbn [last_text app]. do 2 f_equal.
  induction H as [|b bs Hb Hbs IH]; [done|]. cbn [flat_map]. by rewrite flat_map_app, items_of_text, IH.
Qed.

Lemma blocks_entry_ok nm blocks ws : valid_name nm -> Forall (Forall (fun x => nul_free x)) blocks ->
  Forall (fun c => is_space c = true) ws -> entry_ok (blocks_entry nm blocks ws).
Proof.
  intros Hn Hb Hws. apply (setting_entry_ok (Array nm (flat_map items_of blocks) None ws)).
  cbn [setting_ok]. split; [done|]. split; [|by split].
  rewrite Forall_flat_map. eapply Forall_impl; [exact Hb|]. intros b. apply items_of_ok.
Qed.

(** The solutions on one line. *)
Fixpoint join_items (ws : str) (x : str) (xs : list str) : list array_item * (str * str) :=
  match xs with
  | [] => ([], (ws, x))
  | y :: ys => let (items, l) := join_items (lit " ") y ys in (Item ws x ","%char :: items, l)
  end.

Definition line_entry (nm : str) (xs : list str) : entry :=
  match xs with
  | [] => array_entry nm [] None []
  | x :: xs => let (items, l) := join_items [] x xs in array_entry nm items (Some l) []
  end.

Lemma join_items_spec ws x xs : Forall (fun c => is_space c = true) ws -> Forall (fun x => nul_free x) (x :: xs) ->
  let (items, l) := join_items ws x xs in
  flat_map item_text items ++ last_text (Some l) = ws ++ join (lit ", ") (Config.escape_string <$> x :: xs) /\
  map i_elem items ++ [l.2] = x :: xs /\ Forall item_ok items /\ last_ok (Some l).
Proof.
  revert ws x. induction xs as [|y ys IH]; intros ws x Hws Hn; cbn [join_items].
  - inversion Hn; subst. split; [done|]. split; [done|]. split; [apply Forall_nil_2|by split].
  - inversion Hn as [|? ? Hx Hys]; subst. specialize (IH (lit " ") y ltac:(by repeat constructor) Hys).
    destruct (join_items (lit " ") y ys) as [items l]. destruct IH as (I1 & I2 & I3 & I4). split_and!.
    + cbn [flat_map]. rewrite <- app_assoc, I1. unfold item_text. cbn [i_ws i_elem i_delim].
      rewrite <- !app_assoc. reflexivity.
    + cbn [map app i_elem]. by f_equal.
    + constructor; [|done]. split_and!; [done|done|by left].
    + done.
Qed.

Lemma line_entry_ok nm xs : valid_name nm -> Forall (fun x => nul_free x) xs ->
  entry_ok (line_entry nm xs) /\ e_arr (line_entry nm xs) = xs /\
  e_text (line_entry nm xs) = lit "[" ++ join (lit ", ") (Config.escape_string <$> xs) ++ lit "]" /\
  e_name (line_entry nm xs) = nm /\ e_flag (line_entry nm xs) = Z.lor Config.SET Config.ARRAY.
Proof.
  intros Hn Hx. unfold line_entry. destruct xs as [|x xs].
  - split_and!; [|done..]. apply (setting_entry_ok (Array nm [] None [])).
    split; [done|]. split; [constructor|by split].
  - pose proof (join_items_spec [] x xs ltac:(constructor) Hx) as H.
    destruct (join_items [] x xs) as [items [w e]]. destruct H as (H1 & H2 & H3 & H4). split_and!; [|..|done|done].
    + apply (setting_entry_ok (Array nm items (Some (w, e)) [])).
      split; [done|]. split; [done|]. split; [exact H4|constructor].
    + cbn [e_arr array_entry]. unfold array_elems. exact H2.
    + cbn [e_text array_entry]. unfold array_body. f_equal. cbn [app]. rewrite app_assoc. f_equal. exact H1.
Qed.

(** A value that is written without quotes. *)
Lemma escape_digits s : s <> [] -> digits s -> Config.escape_string s = s.
Proof.
  intros Hne Hd. unfold Config.escape_string.
  assert (forall c, is_digit c = true -> ((c =c SQ) || is_cntrl c) = false /\ is_space c = false /\
    ((c =c "[") || (c =c SQ) || (c =c DQ) || (c =c "#")) = false /\
    negb ((c =c NL) || (c =c "]") || (c =c ",") || (c =c "#")) = true) as Hc.
  { intros c H. assert (implb (is_digit c) (negb ((c =c SQ) || is_cntrl c) && negb (is_space c) &&
      negb ((c =c "[") || (c =c SQ) || (c =c DQ) || (c =c "#")) &&
      negb ((c =c NL) || (c =c "]") || (c =c ",") || (c =c "#"))) = true) as E by all_chars_compute c.
    rewrite H in E. cbn [implb] in E. apply andb_true_iff in E as [E E4]. apply andb_true_iff in E as [E E3].
    apply andb_true_iff in E as [E1 E2]. apply negb_true_iff in E1, E2, E3. done. }
  assert (existsb (fun c => (c =c SQ) || is_cntrl c) s = false) as ->.
  { clear Hne. induction Hd as [|c s Hx Hs IH]; [done|]. cbn [existsb]. destruct (Hc c Hx) as (-> & _). done. }
  assert (Config.is_string_literal s = true) as ->; [|done].
  unfold Config.is_string_literal. destruct s as [|c s]; [done|]. inversion Hd as [|? ? Hx Hs]; subst.
  destruct (Hc c Hx) as (_ & H2 & H3 & _). rewrite H3, H2. cbn [orb].
  assert (exists z, last (c :: s) = Some z /\ is_digit z = true) as (z & -> & Hz).
  { destruct (last (c :: s)) as [z|] eqn:E; [|by apply last_None in E]. exists z. split; [done|].
    apply last_Some_elem_of in E. rewrite Forall_forall in Hd. auto. }
  change (default NUL (Some z)) with z. destruct (Hc z Hz) as (_ & -> & _). apply forallb_forall. intros x Hin.
  apply list_elem_of_In in Hin. rewrite Forall_forall in Hd. by apply Hc, Hd.
Qed.

(** ** A complete Simfile *)

Definition path_ok (p : str) : Prop := package_path p /\ p <> [] /\ nul_free p.

Definition test_ok (inter : bool) (t : Test) : Prop :=
  limits_ok t /\ files_ok inter t /\
  nul_free (test_name t) /\ nul_free (test_in t) /\ nul_free (default [] (test_out t)).

(** What [load_all] leaves behind, and [dump] can print. *)
Record simfile_wf (s : Simfile) : Prop := {
  wf_name : exists n, name s = Some n /\ nul_free n;
  wf_label : exists l, label s = Some l /\ nul_free l;
  wf_statement : exists p, statement s = Some p /\ path_ok p;
  wf_checker : match checker s with Some c => path_ok c | None => interactive s = false end;
  wf_solutions : solutions s <> [] /\ Forall path_ok (solutions s);
  wf_mem : match global_mem_limit s with Some m => mib m | None => True end;
  wf_groups : groups_wf (tgroups s);
  wf_tests : Forall (test_ok (interactive s)) (all_tests (tgroups s));
}.

Definition line_of (gml : option Z) (t : Test) : str :=
  match limits_line gml t with Ok l => l | _ => [] end.

(** The lines of the dumped Simfile. *)
Definition entries (s : Simfile) : list entry :=
  (match name s with Some n => [scalar_entry (lit "name") n] | None => [] end) ++
  (match label s with Some n => [scalar_entry (lit "label") n] | None => [] end) ++
  (if interactive s then [scalar_entry (lit "interactive") (lit "true")] else []) ++
  (match statement s with Some n => [scalar_entry (lit "statement") n] | None => [] end) ++
  (match checker s with Some n => [scalar_entry (lit "checker") n] | None => [] end) ++
  [line_entry (lit "solutions") (solutions s)] ++
  (match global_mem_limit s with
   | Some m => [scalar_entry (lit "memory_limit") (to_string (Z.shiftr m 20))]
   | None => []
   end) ++
  [blocks_entry (lit "limits") ((fun g => line_of (global_mem_limit s) <$> tests g) <$> tgroups s) []] ++
  (if (length (tgroups s) =? 0)%nat then []
   else [blocks_entry (lit "scoring") [scoring_line <$> tgroups s] []]) ++
  (if (length (tgroups s) =? 0)%nat then [blocks_entry (lit "tests_files") [] [NL]]
   else [blocks_entry (lit "tests_files") [files_line (interactive s) <$> all_tests (tgroups s)] []]).

Lemma concat_map_ok {A} (f : A -> outcome str) (h : A -> str) l :
  Forall (fun x => f x = Ok (h x)) l -> concat_map f l = Ok (flat_map h l).
Proof. induction 1 as [|x l Hx Hl IH]; [done|]. cbn [concat_map flat_map]. by rewrite Hx, IH. Qed.

Lemma line_of_ok gml t : limits_ok t ->
  limits_line gml t = Ok (line_of gml t) /\
  parse_limits_item (line_of gml t) =
    Ok (test_name t, time_limit t,
        if bool_decide (gml = Some (memory_limit t)) then None else Some (memory_limit t)).
Proof.
  intros H. destruct (limits_line_parses gml t H) as (l & E & P). unfold line_of. rewrite E. done.
Qed.

Lemma digits_nul_free s : digits s -> nul_free s.
Proof. intros H. eapply Forall_impl; [exact H|]. intros c Hc ->. done. Qed.

Lemma to_string_nul_free x : nul_free (to_string x).
Proof.
  destruct (Z_lt_le_dec x 0) as [Hx|Hx].
  - rewrite to_string_neg by done. constructor; [done|]. by apply digits_nul_free, to_string_nonneg; lia.
  - by apply digits_nul_free, to_string_nonneg.
Qed.

Lemma line_of_nul_free gml t : limits_ok t -> nul_free (test_name t) -> nul_free (line_of gml t).
Proof.
  intros (Hn & Ht & Hm) Hnf. unfold line_of, limits_line.
  destruct (duration_to_string_spec 9 (time_limit t)) as (f & -> & Hf & _); [lia|lia|]. cbn [mbind outcome_bind].
  assert (nul_free (print_decimal (to_string (time_limit t / 10 ^ Z.of_nat 9)) f)) as Hp.
  { unfold print_decimal. apply Forall_app. split; [apply to_string_nul_free|].
    destruct (SV.empty f); [constructor|]. constructor; [done|]. by apply digits_nul_free. }
  destruct (bool_decide _); rewrite ?Forall_app; split_and!; try done; try (by repeat constructor).
  apply to_string_nul_free.
Qed.

Lemma all_tests_nonempty gs : groups_wf gs -> gs <> [] -> all_tests gs <> [].
Proof.
  intros [Hg _] Hne. destruct Hg as [|g gs (Ht & _) _]; [done|]. unfold all_tests. cbn [fmap list_fmap concat].
  by destruct (tests g).
Qed.

Lemma Forall_all_tests (P : Test -> Prop) gs :
  Forall P (all_tests gs) <-> Forall (fun g => Forall P (tests g)) gs.
Proof. unfold all_tests. by rewrite Forall_concat_iff, Forall_fmap. Qed.

Lemma dump_limits_text s : simfile_wf s ->
  dump_limits_value s = Ok (e_text (blocks_entry (lit "limits")
    ((fun g => line_of (global_mem_limit s) <$> tests g) <$> tgroups s) [])).
Proof.
  intros W. unfold dump_limits_value. pose proof (wf_tests s W) as Ht. apply Forall_all_tests in Ht.
  destruct (wf_groups s W) as [Hg _]. set (gml := global_mem_limit s).
  rewrite (concat_map_ok _ (fun g => NL :: flat_map line_text (line_of gml <$> tests g))).
  - cbn [mbind outcome_bind]. rewrite blocks_text.
    + cbn [app]. do 3 f_equal. generalize (tgroups s). intros gs. induction gs as [|g gs IH]; [done|].
      cbn [fmap list_fmap flat_map app]. by rewrite IH.
    + rewrite Forall_fmap. eapply Forall_impl; [exact Hg|]. intros g (Hne & _). cbn [compose].
      by destruct (tests g).
  - clear - Ht Hg. induction Ht as [|g gs Ht Hts IH]; [constructor|]. inversion Hg as [|? ? (Hne & _)]; subst.
    constructor; [|by apply IH]. unfold dump_limits_group.
    rewrite (concat_map_ok _ (fun t => line_text (line_of gml t))).
    + cbn [mbind outcome_bind]. destruct (tests g) as [|t ts]; [done|]. cbn [length Nat.eqb app]. do 2 f_equal.
      clear. induction (t :: ts) as [|x l IH]; [done|]. cbn [fmap list_fmap flat_map]. by rewrite IH.
    + eapply Forall_impl; [exact Ht|]. intros t (Hl & _). unfold dump_limits_item.
      by rewrite (proj1 (line_of_ok gml t Hl)).
Qed.

Lemma dump_files_text s : simfile_wf s ->
  concat_map (fun g => concat_map (dump_files_item (interactive s)) (tests g)) (tgroups s) =
  Ok (flat_map line_text (files_line (interactive s) <$> all_tests (tgroups s))).
Proof.
  intros W. pose proof (wf_tests s W) as Ht. apply Forall_all_tests in Ht. set (inter := interactive s) in *.
  rewrite (concat_map_ok _ (fun g => flat_map line_text (files_line inter <$> tests g))).
  - f_equal. unfold all_tests. generalize (tgroups s). intros gs. induction gs as [|g gs IH]; [done|].
    cbn [fmap list_fmap flat_map concat]. rewrite IH. by rewrite fmap_app, flat_map_app.
  - eapply Forall_impl; [exact Ht|]. intros g Hg. rewrite (concat_map_ok _ (fun t => line_text (files_line inter t))).
    + f_equal. clear. induction (tests g) as [|x l IH]; [done|]. cbn [fmap list_fmap flat_map]. by rewrite IH.
    + eapply Forall_impl; [exact Hg|]. intros t (_ & (Hn & Hi & _ & Ho) & _). unfold dump_files_item, files_line.
      rewrite word_nonempty by done. destruct inter; [by rewrite app_nil_r|].
      destruct Ho as (o & -> & Wo & _). cbn [value_or_throw mbind outcome_bind]. by rewrite word_nonempty.
Qed.

Lemma entry_text_eq e : entry_text e = e_name e ++ lit ": " ++ e_text e ++ [NL].
Proof. reflexivity. Qed.

Lemma dump_scoring_text s : simfile_wf s -> tgroups s <> [] ->
  dump_scoring_value s = e_text (blocks_entry (lit "scoring") [scoring_line <$> tgroups s] []).
Proof.
  intros W Hne. rewrite blocks_text by (repeat constructor; by destruct (tgroups s)).
  unfold dump_scoring_value. cbn [flat_map app]. rewrite app_nil_r. do 2 f_equal. f_equal.
  destruct (wf_groups s W) as [Hg _]. clear W Hne. induction Hg as [|g gs (Hne & _) Hg IH]; [done|].
  cbn [fmap list_fmap flat_map]. rewrite IH. f_equal. unfold dump_scoring_item, line_text, scoring_line, group_gid.
  by destruct (tests g).
Qed.

Lemma valid_lit nm : forallb Config.is_name (lit nm) = true -> lit nm <> [] -> valid_name (lit nm).
Proof.
  intros H Hne. split; [done|]. apply Forall_forall. intros c Hc. rewrite forallb_forall in H.
  by apply H, list_elem_of_In.
Qed.

Lemma solutions_nul_free s : simfile_wf s -> Forall (fun x => nul_free x) (solutions s).
Proof. intros W. destruct (wf_solutions s W) as [_ H]. eapply Forall_impl; [exact H|]. by intros p (_ & _ & ?). Qed.

Lemma mib_dump m : mib m -> (2 ^ 20 <=? m) = true /\ Config.escape_string (to_string (Z.shiftr m 20)) = to_string (Z.shiftr m 20).
Proof.
  intros Hm. destruct (mib_shift m Hm) as [_ Hr]. split.
  - destruct Hm as (k & Hk & ->). apply Z.leb_le. lia.
  - destruct (to_string_nonneg (Z.shiftr m 20)) as (H1 & H2 & _); [lia|]. by apply escape_digits.
Qed.

(** The line of an entry in front of the rest of the text. *)
Lemma entry_text_app nm e rest : e_name e = lit nm ->
  lit nm ++ lit ": " ++ e_text e ++ [NL] ++ rest = entry_text e ++ rest.
Proof. intros <-. unfold entry_text. by rewrite <- !app_assoc. Qed.

Lemma flat_map_single {A B} (f : A -> list B) x : flat_map f [x] = f x.
Proof. cbn. apply app_nil_r. Qed.

Lemma dump_optional_text nm v :
  dump_optional nm v = flat_map entry_text (match v with Some n => [scalar_entry (lit nm) n] | None => [] end).
Proof. destruct v as [n|]; [|done]. by rewrite flat_map_single. Qed.

Lemma app_cong_r {A} (a b c : list A) : b = c -> a ++ b = a ++ c.
Proof. by intros ->. Qed.

Lemma wf_mem_text s : simfile_wf s ->
  match global_mem_limit s with
  | Some ml => if 2 ^ 20 <=? ml then lit "memory_limit: " ++ to_string (Z.shiftr ml 20) ++ [NL] else []
  | None => []
  end =
  flat_map entry_text
    (match global_mem_limit s with
     | Some m => [scalar_entry (lit "memory_limit") (to_string (Z.shiftr m 20))]
     | None => []
     end).
Proof.
  intros W. pose proof (wf_mem s W) as Hm. destruct (global_mem_limit s) as [m|]; [|done].
  destruct (mib_dump m Hm) as [-> E]. rewrite flat_map_single. unfold entry_text, scalar_entry.
  cbn [e_name e_text]. by rewrite E.
Qed.

Lemma dump_text s : simfile_wf s -> dump s = Ok (flat_map entry_text (entries s)).
Proof.
  intros W. unfold dump. rewrite dump_limits_text, dump_files_text by done. cbn [mbind outcome_bind]. f_equal.
  unfold entries. rewrite !flat_map_app, !flat_map_single.
  pose proof (line_entry_ok (lit "solutions") (solutions s) ltac:(by apply valid_lit) (solutions_nul_free s W))
    as (_ & _ & Es & En & _).
  rewrite !dump_optional_text. do 2 f_equal. f_equal; [by destruct (interactive s); rewrite ?flat_map_single|].
  do 2 f_equal.
  rewrite <- (entry_text_app "solutions" (line_entry _ _)), Es by done.
  rewrite <- (entry_text_app "limits" (blocks_entry _ _ _)) by done.
  rewrite <- !app_assoc. change (lit "solutions: [") with (lit "solutions" ++ lit ": " ++ lit "[").
  change (lit "limits: ") with (lit "limits" ++ lit ": "). rewrite <- !app_assoc.
  do 6 apply app_cong_r. rewrite (wf_mem_text s W). do 5 apply app_cong_r.
  destruct (Nat.eqb_spec (length (tgroups s)) 0) as [E0|E0].
  - apply nil_length_inv in E0. rewrite E0. rewrite flat_map_single. cbn [flat_map app]. done.
  - assert (tgroups s <> []) as Hne by (by intros E; rewrite E in E0).
    rewrite !flat_map_single, dump_scoring_text by done.
    rewrite <- (entry_text_app "scoring" (blocks_entry _ _ _)) by done.
    change (lit "scoring: ") with (lit "scoring" ++ lit ": "). rewrite <- !app_assoc.
    do 4 apply app_cong_r. unfold entry_text. rewrite blocks_text.
    + cbn [flat_map app]. rewrite app_nil_r. change (e_name _) with (lit "tests_files").
      change (lit "tests_files: [") with (lit "tests_files" ++ lit ": " ++ lit "["). rewrite <- !app_assoc. cbn [app]. by rewrite <- !app_assoc.
    + constructor; [|constructor]. pose proof (all_tests_nonempty _ (wf_groups s W) Hne).
      by destruct (all_tests (tgroups s)).
Qed.

(** ** Reading it back *)

Lemma last_entry_None nm es : nm ∉ (e_name <$> es) -> last_entry nm es = None.
Proof.
  induction es as [|e es IH]; [done|]. cbn [fmap list_fmap last_entry]. intros H.
  apply not_elem_of_cons in H as [H1 H2]. rewrite IH by done. by rewrite decide_False.
Qed.

Lemma last_entry_Some e es : NoDup (e_name <$> es) -> e ∈ es -> last_entry (e_name e) es = Some e.
Proof.
  induction es as [|e' es IH]; intros Hnd Hin; [by apply not_elem_of_nil in Hin|].
  cbn [fmap list_fmap] in Hnd. apply NoDup_cons in Hnd as [Hni Hnd]. cbn [last_entry].
  apply elem_of_cons in Hin as [->|Hin]; [|by rewrite IH].
  rewrite last_entry_None by done. by rewrite decide_True.
Qed.

Lemma line_entry_name nm xs : e_name (line_entry nm xs) = nm.
Proof. destruct xs as [|x xs]; [done|]. unfold line_entry. by destruct (join_items _ _ _). Qed.

(** The names of the variables in the order [dump] writes them. *)
Definition dump_names : list str :=
  [lit "name"] ++ [lit "label"] ++ [lit "interactive"] ++ [lit "statement"] ++ [lit "checker"] ++
  [lit "solutions"] ++ [lit "memory_limit"] ++ [lit "limits"] ++ [lit "scoring"] ++ [lit "tests_files"].

Lemma entries_names s : e_name <$> entries s `sublist_of` dump_names.
Proof.
  unfold entries, dump_names. rewrite !fmap_app.
  change (e_name <$> [line_entry (lit "solutions") (solutions s)])
    with [e_name (line_entry (lit "solutions") (solutions s))]. rewrite line_entry_name.
  repeat apply sublist_app; try reflexivity;
    match goal with |- _ <$> (match ?x with _ => _ end) `sublist_of` _ => destruct x end;
    first [reflexivity|apply sublist_nil_l].
Qed.

Lemma entries_nodup s : NoDup (e_name <$> entries s).
Proof.
  apply (sublist_NoDup _ dump_names); [|apply entries_names].
  apply (bool_decide_unpack _). vm_compute. exact I.
Qed.

Lemma scalar_entry_ok nm v : valid_name nm -> nul_free v -> entry_ok (scalar_entry nm v).
Proof. intros. by apply (setting_entry_ok (Scalar nm v)). Qed.

Ltac valid_lit := apply valid_lit; [reflexivity|discriminate].

Lemma entries_ok s : simfile_wf s -> Forall entry_ok (entries s).
Proof.
  intros W. unfold entries. rewrite !Forall_app.
  destruct (wf_name s W) as (n & -> & Hn), (wf_label s W) as (l & -> & Hl), (wf_statement s W) as (p & -> & _ & _ & Hp).
  assert (forall nm v, valid_name nm -> nul_free v -> Forall entry_ok [scalar_entry nm v]) as Hs.
  { intros nm v Hv Hf. constructor; [by apply scalar_entry_ok|constructor]. }
  pose proof (wf_tests s W) as Ht. rewrite Forall_all_tests in Ht.
  split_and!.
  - apply Hs; [valid_lit|done].
  - apply Hs; [valid_lit|done].
  - destruct (interactive s); [|constructor]. apply Hs; [valid_lit|by repeat constructor].
  - apply Hs; [valid_lit|done].
  - pose proof (wf_checker s W) as Hc. destruct (checker s) as [c|]; [|constructor]. destruct Hc as (_ & _ & Hc).
    apply Hs; [valid_lit|done].
  - constructor; [|constructor]. apply line_entry_ok; [valid_lit|by apply solutions_nul_free].
  - pose proof (wf_mem s W) as Hm. destruct (global_mem_limit s) as [m|]; [|constructor].
    apply Hs; [valid_lit|apply to_string_nul_free].
  - constructor; [|constructor]. apply blocks_entry_ok; [valid_lit| |constructor].
    rewrite Forall_fmap. eapply Forall_impl; [exact Ht|]. intros g Hg. cbn [compose]. rewrite Forall_fmap.
    eapply Forall_impl; [exact Hg|]. intros t (Hlim & _ & Hnf & _). by apply line_of_nul_free.
  - destruct (Nat.eqb_spec (length (tgroups s)) 0); [constructor|]. constructor; [|constructor].
    apply blocks_entry_ok; [valid_lit| |constructor]. constructor; [|constructor]. rewrite Forall_fmap.
    destruct (wf_groups s W) as [Hg _]. eapply Forall_impl; [exact Hg|]. intros g Hw. cbn [compose].
    unfold scoring_line. rewrite !Forall_app. destruct (group_gid_num g Hw) as (Hd & _).
    split_and!; [by apply digits_nul_free|by repeat constructor|apply to_string_nul_free].
  - destruct (Nat.eqb_spec (length (tgroups s)) 0); (constructor; [|constructor]);
      (apply blocks_entry_ok; [valid_lit| |by repeat constructor]); [constructor|].
    constructor; [|constructor]. rewrite Forall_fmap. pose proof (wf_tests s W) as Ht'.
    eapply Forall_impl; [exact Ht'|]. intros t (_ & _ & H1 & H2 & H3). cbn [compose]. unfold files_line.
    rewrite !Forall_app. split_and!; [done|by repeat constructor|done|].
    destruct (interactive s); [constructor|]. apply Forall_app. split; [by repeat constructor|done].
Qed.

Lemma add_vars_null names : forall vs : Config.Vars,
  (forall n v, vs !! n = Some v -> v = Config.null_var) ->
  forall n v, Config.add_vars names vs !! n = Some v -> v = Config.null_var.
Proof.
  unfold Config.add_vars. induction names as [|nm names IH]; intros vs Hvs; cbn [fold_left]; [done|].
  apply IH. intros n v. destruct (vs !! nm) eqn:E; [apply Hvs|].
  destruct (decide (nm = n)) as [->|Hne].
  - rewrite lookup_insert_eq. by intros [= <-].
  - rewrite lookup_insert_ne by done. apply Hvs.
Qed.

Definition initial_vars : Config.Vars := Config.add_vars simfile_vars ∅.

Lemma initial_vars_lookup nm : nm ∈ simfile_vars -> initial_vars !! nm = Some Config.null_var.
Proof.
  intros H. unfold simfile_vars in H. repeat (apply elem_of_cons in H as [->|H]; [vm_compute; reflexivity|]).
  by apply not_elem_of_nil in H.
Qed.

(** The configuration read from the dump. *)
Lemma load_dump s : simfile_wf s -> exists vs,
  make_simfile (flat_map entry_text (entries s)) = Ok (mkSimfile None None None false None [] None [] vs) /\
  (forall e, e ∈ entries s -> e_name e ∈ simfile_vars -> has_value (Config.get_var vs (e_name e)) e) /\
  (forall nm, nm ∈ simfile_vars -> nm ∉ (e_name <$> entries s) -> Config.get_var vs nm = Config.null_var).
Proof.
  intros W. destruct (load_document initial_vars false (entries s) (entries_ok s W)) as (vs & E & _ & L).
  { intros n v Hv. apply add_vars_null in Hv as ->; [|done]. by vm_compute. }
  exists vs. split; [|split].
  - unfold make_simfile. fold initial_vars. by rewrite E.
  - intros e He Hn. specialize (L (e_name e)). rewrite last_entry_Some in L; [|apply entries_nodup|done].
    cbn [Config.vars] in L.
    assert (is_Some (initial_vars !! e_name e)) as Hs by (exists Config.null_var; by apply initial_vars_lookup).
    rewrite (bool_decide_eq_true_2 _ Hs) in L. cbn [orb] in L. destruct L as (v & Hv & Hh). unfold Config.get_var. by rewrite Hv.
  - intros nm Hn Hni. specialize (L nm). rewrite last_entry_None in L by done. cbn [Config.vars] in L.
    unfold Config.get_var. rewrite L, initial_vars_lookup by done. done.
Qed.

(** *** Running the loaders *)

(** A variable set to a string, to an array, or not set. *)
Definition is_scalar (v : Config.ConfigVariable) (x : str) : Prop :=
  Config.is_set v = true /\ Config.is_array v = false /\ Config.str_ v = x.
Definition is_arr (v : Config.ConfigVariable) (xs : list str) : Prop :=
  Config.is_set v = true /\ Config.is_array v = true /\ Config.arr_ v = xs.

Lemma has_value_scalar v nm x : has_value v (scalar_entry nm x) -> is_scalar v x.
Proof. intros (H1 & H2 & _). unfold is_scalar, Config.is_set, Config.is_array. by rewrite H1, H2. Qed.

Lemma has_value_arr v e xs : has_value v e -> e_flag e = Z.lor Config.SET Config.ARRAY -> e_arr e = xs -> is_arr v xs.
Proof. intros (H1 & _ & H2) E1 E2. unfold is_arr, Config.is_set, Config.is_array. by rewrite H1, H2, E1, E2. Qed.

Ltac run_stm := unfold get_config, CHECK_IF_ARR, CHECK_IF_NOT_ARR, gets, modify, lift, when, throw_error,
  mbind, stm_bind, mret, stm_ret.

Lemma load_name_run s n : is_scalar (var s "name") n -> load_name s = (set_name (Some n) s, Ok tt).
Proof. intros (H1 & H2 & H3). unfold load_name, var in *. run_stm. by rewrite H2, H1, H3. Qed.

Lemma load_label_run s n : is_scalar (var s "label") n -> load_label s = (set_label (Some n) s, Ok tt).
Proof. intros (H1 & H2 & H3). unfold load_label, var in *. run_stm. by rewrite H2, H1, H3. Qed.

(** [interactive] is written as [true] or not at all. *)
Definition interactive_var (inter : bool) (v : Config.ConfigVariable) : Prop :=
  if inter then is_scalar v (lit "true") else v = Config.null_var.

Lemma load_interactive_run s inter : interactive_var inter (var s "interactive") ->
  load_interactive s = (set_interactive inter s, Ok tt).
Proof.
  intros H. unfold load_interactive, var in *. run_stm. destruct inter; cbn [interactive_var] in H.
  - destruct H as (H1 & H2 & H3). rewrite H2, H3. unfold Config.as_bool. rewrite H3. done.
  - by rewrite H.
Qed.

Lemma load_checker_run s inter c : interactive_var inter (var s "interactive") ->
  match c with
  | Some p => is_scalar (var s "checker") p /\ path_ok p
  | None => var s "checker" = Config.null_var /\ inter = false
  end ->
  load_checker s = (set_checker c (set_interactive inter s), Ok tt).
Proof.
  intros Hi Hc. unfold load_checker. unfold mbind at 1, stm_bind at 1. rewrite (load_interactive_run s inter Hi).
  unfold var in *. run_stm. cbn [config set_interactive interactive]. destruct c as [p|].
  - destruct Hc as ((H1 & H2 & H3) & Hp & Hne & _). rewrite H2, H1, H3. cbn [negb orb].
    assert (SV.empty p = false) as -> by (by destruct p). by rewrite secure_path_id.
  - destruct Hc as [-> ->]. done.
Qed.

Lemma load_statement_run s p : is_scalar (var s "statement") p -> path_ok p ->
  load_statement s = (set_statement (Some p) s, Ok tt).
Proof.
  intros (H1 & H2 & H3) (Hp & Hne & _). unfold load_statement, var in *. run_stm. rewrite H2, H1, H3.
  assert (SV.empty p = false) as -> by (by destruct p). by rewrite secure_path_id.
Qed.

Lemma load_solutions_loop_run ps : forall s, Forall path_ok ps ->
  load_solutions_loop ps s = (set_solutions (solutions s ++ ps) s, Ok tt).
Proof.
  induction ps as [|p ps IH]; intros s Hps; cbn [load_solutions_loop].
  - rewrite app_nil_r. by destruct s.
  - inversion Hps as [|? ? (Hp & Hne & _) Hps']; subst. run_stm. rewrite secure_path_id by done.
    rewrite IH by done. unfold set_solutions.
    cbn [name label statement interactive checker solutions global_mem_limit tgroups config].
    by rewrite <- app_assoc.
Qed.

Lemma load_solutions_run s ps : is_arr (var s "solutions") ps -> ps <> [] -> Forall path_ok ps ->
  load_solutions s = (set_solutions ps s, Ok tt).
Proof.
  intros (H1 & H2 & H3) Hne Hps. unfold load_solutions, var in *. run_stm. rewrite H2, H3. cbn [negb andb].
  assert ((length ps =? 0)%nat = false) as -> by (by destruct ps). rewrite load_solutions_loop_run by done.
  by destruct s.
Qed.

Lemma load_gml_run s gml :
  match gml with
  | Some m => is_scalar (var s "memory_limit") (to_string (Z.shiftr m 20)) /\ mib m
  | None => var s "memory_limit" = Config.null_var
  end ->
  load_global_memory_limit_only s = (set_global_mem_limit gml s, Ok tt).
Proof.
  intros H. unfold load_global_memory_limit_only, var in *. run_stm. destruct gml as [m|].
  - destruct H as ((H1 & H2 & H3) & Hm). destruct (mib_shift m Hm) as [Es Hr].
    destruct (to_string_nonneg (Z.shiftr m 20)) as (N1 & N2 & N3); [lia|].
    rewrite H2, H1, H3. unfold Config.as_int. rewrite H3.
    rewrite (proj2 (is_digit_not_greater_than_spec max_mem_limit (to_string (Z.shiftr m 20)) ltac:(done)))
      by (rewrite N3; split_and!; [done|done|lia]).
    cbn [negb]. rewrite str2num_to_string_spec; [|by split|done|].
    + cbn [value_or_throw]. rewrite Es. destruct (Z.leb_spec m 0); [|done]. destruct Hm as (k & Hk & ->). lia.
    + unfold in_range, uint64. cbn [int_min int_max]. change max_mem_limit with (2 ^ 44 - 1) in Hr. lia.
  - by rewrite H.
Qed.

Lemma limits_tests_run gml ts : Forall limits_ok ts -> Forall (fun t => (split (test_name t)).1 <> []) ts ->
  all_ok (limits_test gml) (line_of gml <$> ts) = Ok (limits_only <$> ts).
Proof.
  intros Hl Hg. induction Hl as [|t ts Ht Hts IH]; [done|]. inversion Hg as [|? ? Hne Hg']; subst.
  assert (limits_test gml (line_of gml t) = Ok (limits_only t)) as E.
  { unfold limits_test. rewrite (proj2 (line_of_ok gml t Ht)).
    assert (SV.empty (split (test_name t)).1 = false) as He by (by destruct (split (test_name t)).1).
    cbn [mbind outcome_bind]. destruct (bool_decide_reflect (gml = Some (memory_limit t))) as [->|E];
      cbn [mbind outcome_bind]; by rewrite He. }
  cbn [fmap list_fmap all_ok]. rewrite E, IH by done. done.
Qed.

Lemma groups_canonical gs : groups_wf gs -> Forall (fun t => (split (test_name t)).1 <> []) (all_tests gs).
Proof.
  intros [Hg _]. apply Forall_all_tests. eapply Forall_impl; [exact Hg|]. intros g (_ & Hf & _).
  eapply Forall_impl; [exact Hf|]. by intros t [[H _] _].
Qed.

Section Run.
Context `{StdSort}.

Lemma load_tests_run s gml gs :
  match gml with
  | Some m => is_scalar (var s "memory_limit") (to_string (Z.shiftr m 20)) /\ mib m
  | None => var s "memory_limit" = Config.null_var
  end ->
  is_arr (var s "limits") (line_of gml <$> all_tests gs) ->
  (if (length gs =? 0)%nat then var s "scoring" = Config.null_var
   else is_arr (var s "scoring") (scoring_line <$> gs)) ->
  groups_wf gs -> Forall limits_ok (all_tests gs) ->
  load_tests s = (set_tgroups (rebuilt score <$> gs).*2 (set_global_mem_limit gml s), Ok tt).
Proof.
  intros Hm (L1 & L2 & L3) Hs Hw Hl. unfold load_tests. unfold mbind at 1, stm_bind at 1.
  rewrite (load_gml_run s gml Hm). unfold var in *. run_stm.
  change (global_mem_limit (set_global_mem_limit gml s)) with gml.
  change (config (set_global_mem_limit gml s)) with (config s). rewrite L2, L1, L3. cbn [negb andb].
  change (global_mem_limit (set_global_mem_limit gml s)) with gml.
  change (config (set_global_mem_limit gml s)) with (config s).
  assert (add_limits gml [] (line_of gml <$> all_tests gs) = Ok (rebuilt (fun _ => 0) <$> gs)) as ->.
  { apply add_limits_eq. exists (limits_only <$> all_tests gs).
    rewrite limits_tests_run by first [done|by apply groups_canonical]. split; [done|].
    symmetry. by apply (add_tests_rebuilds gs []). }
  assert (negb (Config.is_array (Config.get_var (config s) (lit "scoring"))) &&
    Config.is_set (Config.get_var (config s) (lit "scoring")) = false) as ->.
  { destruct (length gs =? 0)%nat; [by rewrite Hs|]. destruct Hs as (-> & -> & _). done. }
  rewrite score_groups_rebuilds; [|done|..].
  - do 3 f_equal. destruct Hw as [Hg _]. clear - Hg.
    induction Hg as [|g gs Hg Hgs IH]; [done|]. cbn [fmap list_fmap]. rewrite sort_tests_rebuilt by done. by f_equal.
  - intros Hne. destruct gs; [done|]. by destruct Hs as (? & _ & ?).
  - intros ->. by rewrite Hs.
Qed.

Lemma load_tests_files_run s inter gs :
  interactive_var inter (var s "interactive") ->
  is_arr (var s "tests_files") (files_line inter <$> all_tests gs) ->
  tgroups s = (rebuilt score <$> gs).*2 -> groups_wf gs -> Forall (files_ok inter) (all_tests gs) ->
  load_tests_files s = (set_tgroups gs (set_interactive inter s), Ok tt).
Proof.
  intros Hi (L1 & L2 & L3) Ht Hw Hf. unfold load_tests_files. unfold mbind at 1, stm_bind at 1.
  rewrite (load_interactive_run s inter Hi). unfold var in *. run_stm.
  change (config (set_interactive inter s)) with (config s). rewrite L2, L1, L3. cbn [negb andb].
  change (interactive (set_interactive inter s)) with inter.
  destruct (read_tests_files_ok inter (all_tests gs) []) as (m & E & F & _);
    [done|by apply names_nodup|constructor|by apply Forall_forall|].
  rewrite E. unfold update_tests. cbn [tgroups set_interactive]. rewrite Ht.
  rewrite for_each_group_rebuilt; [done|]. rewrite Forall_all_tests in Hf. rewrite Forall_all_tests in F.
  clear - Hf F. induction Hf as [|g gs Hg Hgs IH]; [constructor|]. inversion F as [|? ? Fg Fgs]; subst.
  constructor; [|by apply IH]. clear - Hg Fg. induction Hg as [|t ts Ht Hts IH]; [constructor|].
  inversion Fg; subst. constructor; [by apply assign_files_ok|by apply IH].
Qed.
End Run.

(** ** The round trip *)

(** The same Simfile but for the configuration it was loaded from. *)
Definition same_contents (s s' : Simfile) : Prop :=
  name s' = name s /\ label s' = label s /\ statement s' = statement s /\ interactive s' = interactive s /\
  checker s' = checker s /\ solutions s' = solutions s /\ global_mem_limit s' = global_mem_limit s /\
  tgroups s' = tgroups s.

(** What the configuration read from the dump holds. *)
Record dumped_vars (s s0 : Simfile) : Prop := {
  dv_name : exists n, name s = Some n /\ is_scalar (var s0 "name") n;
  dv_label : exists n, label s = Some n /\ is_scalar (var s0 "label") n;
  dv_interactive : interactive_var (interactive s) (var s0 "interactive");
  dv_statement : exists p, statement s = Some p /\ is_scalar (var s0 "statement") p;
  dv_checker : match checker s with
    | Some c => is_scalar (var s0 "checker") c | None => var s0 "checker" = Config.null_var end;
  dv_solutions : is_arr (var s0 "solutions") (solutions s);
  dv_mem : match global_mem_limit s with
    | Some m => is_scalar (var s0 "memory_limit") (to_string (Z.shiftr m 20))
    | None => var s0 "memory_limit" = Config.null_var end;
  dv_limits : is_arr (var s0 "limits") (line_of (global_mem_limit s) <$> all_tests (tgroups s));
  dv_scoring : if (length (tgroups s) =? 0)%nat then var s0 "scoring" = Config.null_var
    else is_arr (var s0 "scoring") (scoring_line <$> tgroups s);
  dv_files : is_arr (var s0 "tests_files") (files_line (interactive s) <$> all_tests (tgroups s));
}.

Lemma concat_lines (f : Test -> str) gs : concat ((fun g => f <$> tests g) <$> gs) = f <$> all_tests gs.
Proof.
  unfold all_tests. induction gs as [|g gs IH]; [done|]. cbn [fmap list_fmap concat]. by rewrite IH, fmap_app.
Qed.

(** Find an entry, or show that there is none with a name. *)
Ltac in_entries :=
  rewrite ?elem_of_app, ?list_elem_of_singleton; repeat first [reflexivity | left; reflexivity | right].

Ltac not_in_entries :=
  unfold entries; rewrite !fmap_app, !not_elem_of_app; split_and!;
  repeat match goal with
  | |- _ ∉ _ <$> (match ?x with _ => _ end) => destruct x
  | |- context [e_name <$> [line_entry ?n ?xs]] =>
      change (e_name <$> [line_entry n xs]) with [e_name (line_entry n xs)]; rewrite line_entry_name
  end; cbn [fmap list_fmap]; rewrite ?list_elem_of_singleton; try apply not_elem_of_nil; discriminate.

Lemma load_dump_vars s : simfile_wf s -> exists vs,
  make_simfile (flat_map entry_text (entries s)) = Ok (mkSimfile None None None false None [] None [] vs) /\
  dumped_vars s (mkSimfile None None None false None [] None [] vs).
Proof.
  intros W. destruct (load_dump s W) as (vs & E & Hin & Hout). exists vs. split; [exact E|]. clear E.
  assert (forall nm e, e ∈ entries s -> e_name e = lit nm -> lit nm ∈ simfile_vars ->
    has_value (Config.get_var vs (lit nm)) e) as Hv by (intros nm e H1 <- H2; by apply Hin).
  destruct (wf_name s W) as (n & En & _), (wf_label s W) as (l & El & _), (wf_statement s W) as (p & Ep & _).
  constructor; unfold var; cbn [config].
  - exists n. split; [done|]. eapply has_value_scalar, Hv; [|reflexivity|unfold simfile_vars; in_entries].
    unfold entries. rewrite En. in_entries.
  - exists l. split; [done|]. eapply has_value_scalar, Hv; [|reflexivity|unfold simfile_vars; in_entries].
    unfold entries. rewrite El. in_entries.
  - destruct (interactive s) eqn:Ei; cbn [interactive_var].
    + eapply has_value_scalar, Hv; [|reflexivity|unfold simfile_vars; in_entries].
      unfold entries. rewrite Ei. in_entries.
    + apply Hout; [unfold simfile_vars; in_entries|]. unfold entries. rewrite Ei. not_in_entries.
  - exists p. split; [done|]. eapply has_value_scalar, Hv; [|reflexivity|unfold simfile_vars; in_entries].
    unfold entries. rewrite Ep. in_entries.
  - destruct (checker s) as [c|] eqn:Ec.
    + eapply has_value_scalar, Hv; [|reflexivity|unfold simfile_vars; in_entries].
      unfold entries. rewrite Ec. in_entries.
    + apply Hout; [unfold simfile_vars; in_entries|]. unfold entries. rewrite Ec. not_in_entries.
  - destruct (line_entry_ok (lit "solutions") (solutions s)) as (_ & Ea & _ & Ena & Ef);
      [valid_lit|by apply solutions_nul_free|].
    eapply has_value_arr; [apply Hv; [|exact Ena|unfold simfile_vars; in_entries]|exact Ef|exact Ea].
    unfold entries. in_entries.
  - destruct (global_mem_limit s) as [m|] eqn:Em.
    + eapply has_value_scalar, Hv; [|reflexivity|unfold simfile_vars; in_entries].
      unfold entries. rewrite Em. in_entries.
    + apply Hout; [unfold simfile_vars; in_entries|]. unfold entries. rewrite Em. not_in_entries.
  - set (e := blocks_entry (lit "limits")
      ((fun g => line_of (global_mem_limit s) <$> tests g) <$> tgroups s) []).
    apply (has_value_arr _ e); [apply Hv; [|reflexivity|unfold simfile_vars; in_entries]|reflexivity|].
    + unfold entries. in_entries.
    + unfold e. rewrite blocks_elems. apply concat_lines.
  - destruct (length (tgroups s) =? 0)%nat eqn:E0.
    + apply Hout; [unfold simfile_vars; in_entries|]. unfold entries. rewrite E0. not_in_entries.
    + set (e := blocks_entry (lit "scoring") [scoring_line <$> tgroups s] []).
      apply (has_value_arr _ e); [apply Hv; [|reflexivity|unfold simfile_vars; in_entries]|reflexivity|].
      * unfold entries. rewrite E0. in_entries.
      * unfold e. rewrite blocks_elems. cbn [concat]. apply app_nil_r.
  - destruct (length (tgroups s) =? 0)%nat eqn:E0.
    + set (e := blocks_entry (lit "tests_files") [] [NL]).
      apply (has_value_arr _ e); [apply Hv; [|reflexivity|unfold simfile_vars; in_entries]|reflexivity|].
      * unfold entries. rewrite E0. in_entries.
      * unfold e. rewrite blocks_elems. apply Nat.eqb_eq, nil_length_inv in E0. by rewrite E0.
    + set (e := blocks_entry (lit "tests_files") [files_line (interactive s) <$> all_tests (tgroups s)] []).
      apply (has_value_arr _ e); [apply Hv; [|reflexivity|unfold simfile_vars; in_entries]|reflexivity|].
      * unfold entries. rewrite E0. in_entries.
      * unfold e. rewrite blocks_elems. cbn [concat]. apply app_nil_r.
Qed.

(** C11: printing a Simfile and loading the text gives the Simfile back: names,
    label, statement, checker, solutions, the global memory limit and all the
    test groups with their scores, the tests with their limits (up to 26 days)
    and files, in the same order. *)
Theorem simfile_round_trip `{StdSort} s : simfile_wf s ->
  exists text s0 s', dump s = Ok text /\ make_simfile text = Ok s0 /\
    load_all s0 = (s', Ok tt) /\ same_contents s s'.
Proof.
  intros W. destruct (load_dump_vars s W) as (vs & E & V).
  set (s0 := mkSimfile None None None false None [] None [] vs) in *.
  destruct (dv_name _ _ V) as (n & En & Vn), (dv_label _ _ V) as (l & El & Vl), (dv_statement _ _ V) as (p & Ep & Vp).
  destruct (wf_statement s W) as (p' & Ep' & Hp). rewrite Ep in Ep'. injection Ep' as <-.
  destruct (wf_solutions s W) as [Hne Hsol].
  pose proof (wf_tests s W) as Ht.
  eexists _, s0, _. split; [by apply dump_text|]. split; [exact E|]. unfold load_all, load_tests_with_files.
  erewrite stm_bind_run by exact (load_name_run s0 n Vn). set (s1 := set_name (Some n) s0).
  erewrite stm_bind_run by exact (load_label_run s1 l Vl). set (s2 := set_label (Some l) s1).
  erewrite stm_bind_run by (apply (load_checker_run s2 (interactive s) (checker s));
    [apply (dv_interactive _ _ V)|pose proof (dv_checker _ _ V); pose proof (wf_checker s W); destruct (checker s); by split]).
  set (s3 := set_checker (checker s) (set_interactive (interactive s) s2)).
  erewrite stm_bind_run by exact (load_statement_run s3 p Vp Hp). set (s4 := set_statement (Some p) s3).
  erewrite stm_bind_run by exact (load_solutions_run s4 (solutions s) (dv_solutions _ _ V) Hne Hsol).
  set (s5 := set_solutions (solutions s) s4).
  erewrite stm_bind_run by (apply (load_tests_run s5 (global_mem_limit s) (tgroups s));
    [pose proof (dv_mem _ _ V); pose proof (wf_mem s W); by destruct (global_mem_limit s)
    |apply (dv_limits _ _ V)|apply (dv_scoring _ _ V)|by apply wf_groups
    |eapply Forall_impl; [exact Ht|]; by intros t (? & _)]).
  set (s6 := set_tgroups _ _).
  rewrite (load_tests_files_run s6 (interactive s) (tgroups s));
    [|apply (dv_interactive _ _ V)|apply (dv_files _ _ V)|done|by apply wf_groups
     |eapply Forall_impl; [exact Ht|]; by intros t (_ & ? & _)].
  split; [reflexivity|]. unfold same_contents. rewrite En, El, Ep. done.
Qed.

Lemma package_path_of p : secure_path p = Ok p -> package_path p.
Proof. intros E. destruct (secure_path_package p) as (q & E' & H). rewrite E in E'. by injection E' as <-. Qed.

(** Decision procedures for the sample. *)
Definition wordb (w : str) : bool := negb (SV.empty w) && forallb (fun c => negb (is_space c)) w.

Lemma wordb_word w : wordb w = true -> word w.
Proof.
  unfold wordb. intros H. bools. split; [by destruct w|]. apply Forall_forall. intros c Hc.
  rewrite forallb_forall in H0. apply negb_true_iff, H0. by apply list_elem_of_In.
Qed.

Lemma nul_freeb s : forallb (fun c => negb (c =c NUL)) s = true -> nul_free s.
Proof.
  intros H. apply Forall_forall. intros c Hc. rewrite forallb_forall in H.
  apply list_elem_of_In, H in Hc. bools. done.
Qed.

Definition nul_check (s : str) : bool := forallb (fun c => negb (c =c NUL)) s.

Lemma test_ok_of n i o tl ml :
  wordb n && nul_check n = true -> wordb i && nul_check i = true -> wordb o && nul_check o = true ->
  secure_path i = Ok i -> secure_path o = Ok o -> 0 < tl < 2 ^ 51 -> mib ml ->
  test_ok false (mkTest n i (Some o) tl ml).
Proof.
  intros Hn Hi Ho Si So Ht Hm. bools.
  split; [split_and!; [by apply wordb_word|cbn; lia|cbn; lia|done]|].
  split; [|split_and!; by apply nul_freeb].
  split_and!; [by apply wordb_word|by apply wordb_word|by apply package_path_of|].
  exists o. split_and!; [done|by apply wordb_word|by apply package_path_of].
Qed.

Definition sample : Simfile :=
  mkSimfile (Some (lit "It's # 1")) (Some (lit "its")) (Some (lit "doc/a.pdf")) false (Some (lit "check/a.cc"))
    [lit "prog/a.cpp"; lit "prog/b, c.cpp"] (Some (64 * 2 ^ 20))
    [mkTestGroup [mkTest (lit "t0") (lit "in/t0") (Some (lit "out/t0")) 1012300000 (64 * 2 ^ 20);
                  mkTest (lit "t1ocen") (lit "in/o") (Some (lit "out/o")) 3 (1 * 2 ^ 20)] 0;
     mkTestGroup [mkTest (lit "t1a") (lit "in/1a") (Some (lit "out/1a")) 1500000000 (32 * 2 ^ 20)] 100] ∅.

Lemma sample_wf : simfile_wf sample.
Proof.
  assert (forall t, test_name t ∈ [lit "t0"; lit "t1ocen"; lit "t1a"] -> canonical_name (test_name t)) as Hcn.
  { intros t Hin. repeat (apply elem_of_cons in Hin as [->|Hin]; [vm_compute; split; [discriminate|]; intros;
      first [discriminate|left; reflexivity|right; reflexivity]|]). by apply not_elem_of_nil in Hin. }
  assert (forall k, 1 <= k <= 64 -> mib (k * 2 ^ 20)) as Hmib.
  { intros k Hk. exists k. change max_mem_limit with (2 ^ 44 - 1). split; [lia|done]. }
  assert (forall p, secure_path p = Ok p -> p <> [] -> forallb (fun c => negb (c =c NUL)) p = true -> path_ok p) as Hpath.
  { intros p H1 H2 H3. split_and!; [by apply package_path_of|done|by apply nul_freeb]. }
  constructor; cbn [sample name label statement checker interactive solutions global_mem_limit tgroups].
  - eexists. split; [reflexivity|]. by apply nul_freeb.
  - eexists. split; [reflexivity|]. by apply nul_freeb.
  - eexists. split; [reflexivity|]. by apply Hpath.
  - by apply Hpath.
  - split; [done|]. repeat (apply Forall_cons_2; [by apply Hpath|]). apply Forall_nil_2.
  - apply Hmib. lia.
  - split; [|repeat constructor].
    repeat (apply Forall_cons_2 || apply Forall_nil_2); (split_and!; [discriminate| |repeat constructor|reflexivity]);
      repeat (apply Forall_cons_2 || apply Forall_nil_2); (split; [apply Hcn; vm_compute; set_solver|reflexivity]).
  - repeat (apply Forall_cons_2 || apply Forall_nil_2);
      (apply test_ok_of; [reflexivity..|lia|apply Hmib; lia]).
Qed.

Lemma simfile_round_trip_witness :
  exists text s0 s', dump sample = Ok text /\ make_simfile text = Ok s0 /\
    @load_all insertion_std_sort s0 = (s', Ok tt) /\ same_contents sample s'.
Proof. apply (@simfile_round_trip insertion_std_sort sample). exact sample_wf. Defined.
