(* ===== verification/Judge.v ===== *)
(** * Judging a solution

    Models [JudgeReport], [exit_to_checker_status], [process_tests] and the
    verdict on one test of [include/simlib/sim/judge_worker.hh],
    [src/sim/judge_worker.cc] and [src/sim/checker.cc].  Running a program in
    the sandbox, reading the package and the report's recipient belong to the
    outside world, a parameter of the section; what the worker tells its
    [JudgeLogger] is the sequence of the calls. *)

From Stdlib Require Import ZArith QArith Lia Ascii.
From S2P Require Import Prelude.
From S2P Require Import Ctype.
From S2P Require Import StringView.
From S2P Require Import StringTraits.
From S2P Require Import StringCompare.
From S2P Require Import StringTransform.
From S2P Require Import Floats.
From S2P Require Import Doubles.
From S2P Require Import Time.
From S2P Require Import Os.
From S2P Require Import Spawner.
From S2P Require Import SimpleParser.
From S2P Require Import Simfile.
Import SP.
Local Open Scope Z_scope.

(** ** Judge report *)

Inductive Status := OK | WA | TLE | MLE | RTE | CHECKER_ERROR | SKIPPED.

#[export] Instance Status_eq_dec : EqDecision Status.
Proof. solve_decision. Defined.

Definition description (st : Status) : str :=
  match st with
  | OK => lit "OK"
  | WA => lit "Wrong answer"
  | TLE => lit "Time limit exceeded"
  | MLE => lit "Memory limit exceeded"
  | RTE => lit "Runtime error"
  | CHECKER_ERROR => lit "Checker error"
  | SKIPPED => lit "Skipped"
  end.

Record JTest := mkJTest {
  jt_name : str;
  jt_status : Status;
  jt_runtime : Z;
  jt_time_limit : Z;
  jt_memory_consumed : Z;
  jt_memory_limit : Z;
  jt_comment : str;
}.

Record JGroup := mkJGroup { jg_tests : list JTest; jg_score : Z; jg_max_score : Z }.

Record JudgeReport := mkReport { groups : list JGroup; judge_log : str }.

Definition simple_span_status (st : Status) : str :=
  match st with
  | OK => lit "OK"
  | WA => lit "WA"
  | TLE => lit "TLE"
  | MLE => lit "MLE"
  | RTE => lit "RTE"
  | CHECKER_ERROR => lit "CHECKER_ERROR"
  | SKIPPED => lit "SKIPPED"
  end.

(** A time in hundredths of a second. *)
Definition show_time (ns : Z) : outcome str := duration_to_string 2 (floor_to_10ms ns) false.

Definition dump_test (span_status : Status -> str) (t : JTest) : outcome str :=
  rt ← show_time (jt_runtime t);
  tl ← show_time (jt_time_limit t);
  Ok (lit "  " ++ padded_string (jt_name t) 11 LEFT " " ++ padded_string rt 4 RIGHT " " ++
      lit " / " ++ tl ++ lit " s  " ++
      to_string (Z.shiftr (jt_memory_consumed t) 10) ++ lit " / " ++
      to_string (Z.shiftr (jt_memory_limit t) 10) ++ lit " KiB    Status: " ++
      span_status (jt_status t) ++
      (if SV.empty (jt_comment t) then [NL] else lit " " ++ jt_comment t ++ [NL])).

Definition dump_group (span_status : Status -> str) (g : JGroup) : outcome str :=
  ts ← concat_map (dump_test span_status) (jg_tests g);
  Ok (ts ++ lit "  Score: " ++ to_string (jg_score g) ++ lit " / " ++ to_string (jg_max_score g) ++ [NL]).

Definition pretty_dump (span_status : Status -> str) (r : JudgeReport) : outcome str :=
  gs ← concat_map (dump_group span_status) (groups r);
  Ok (lit "{" ++ [NL] ++ gs ++ lit "}").

(** ** Source files *)

Inductive SolutionLanguage := UNKNOWN | C11 | CPP11 | CPP14 | CPP17 | PASCAL.

Definition is_source (file : str) : bool :=
  has_one_of_suffixes file [lit ".c"; lit ".cc"; lit ".cpp"; lit ".cxx"; lit ".pas"].

Definition filename_to_lang (filename : str) : SolutionLanguage :=
  if has_suffix filename (lit ".c") then C11
  else if has_one_of_suffixes filename [lit ".cc"; lit ".cpp"; lit ".cxx"] then CPP17
  else if has_suffix filename (lit ".pas") then PASCAL
  else UNKNOWN.

Definition compile_command (lang : SolutionLanguage) (source exec : str) : outcome (list str) :=
  match lang with
  | C11 => Ok [lit "gcc"; lit "-O2"; lit "-std=c11"; lit "-static"; lit "-lm"; lit "-m32"; lit "-o"; exec; lit "-xc"; source]
  | CPP11 => Ok [lit "g++"; lit "-O2"; lit "-std=c++11"; lit "-static"; lit "-lm"; lit "-m32"; lit "-o"; exec; lit "-xc++"; source]
  | CPP14 => Ok [lit "g++"; lit "-O2"; lit "-std=c++14"; lit "-static"; lit "-lm"; lit "-m32"; lit "-o"; exec; lit "-xc++"; source]
  | CPP17 => Ok [lit "g++"; lit "-O2"; lit "-std=c++17"; lit "-static"; lit "-lm"; lit "-m32"; lit "-o"; exec; lit "-xc++"; source]
  | PASCAL => Ok [lit "fpc"; lit "-O2"; lit "-XS"; lit "-Xt"; lit "-o" ++ exec; source]
  | UNKNOWN => Throw (RuntimeError (lit "Invalid Language!"))
  end.

(** The name of the copied source in [compile_impl]. *)
Definition source_filename (lang : SolutionLanguage) (basename : str) : outcome str :=
  match lang with
  | C11 => Ok (basename ++ lit ".c")
  | CPP11 | CPP14 | CPP17 => Ok (basename ++ lit ".cpp")
  | PASCAL => Ok (basename ++ lit ".pas")
  | UNKNOWN => Throw (RuntimeError (lit "Invalid language: 0"))
  end.

(** ** The checker's answer *)

(** [es.si.code == CLD_EXITED] *)
Definition exited (es : ExitStat) : bool := es_code es =? CLD_EXITED.

(** The limits of [Sandbox::Options]. *)
Record run_limits := mkLimits {
  real_time_limit : option Z;
  mem_limit : option Z;
  cpu_time_limit : option Z;
}.

Inductive checker_verdict := CS_OK | CS_WRONG | CS_ERROR.

Record CheckerStatus := mkCS { cs_status : checker_verdict; cs_ratio : double; cs_message : str }.

(** [obtain_checker_output] of a file with these contents. *)
Definition obtain_checker_output (contents : str) (max_length : nat) : str :=
  if (length contents <? max_length)%nat then SV.remove_trailing is_space contents
  else if (3 <=? max_length)%nat then take (max_length - 3) contents ++ lit "..."
  else take max_length contents.

Definition exited_with_0 (es : ExitStat) : bool := exited es && (es_status es =? 0).

Definition is_MLE (message : str) : bool := SV.eqb message (lit "Memory limit exceeded").

Definition first_line_error (output_name line1 : str) : CheckerStatus :=
  mkCS CS_ERROR (dZ 0) (lit "First line of the " ++ output_name ++ lit " is invalid: `" ++ line1 ++
    lit "` - it has to be either `OK` or `WRONG`").

Definition wrong_second_line (output_name line2 : str) : CheckerStatus :=
  mkCS CS_ERROR (dZ 0) (lit "Second line of the " ++ output_name ++ lit " is invalid: `" ++ line2 ++
    lit "` - it has to be either empty or a real number representing " ++
    lit "the percentage of the score that solution will receive").

Definition percent : double := round_double (1 # 100).

(** [output]: what the checker wrote to the descriptor.  When the second line
    has a wrong format, the status built for it is thrown away and the first
    line decides, as if it were not [OK]. *)
Definition exit_to_checker_status (es : ExitStat) (opts : run_limits) (output output_name : str) :
    CheckerStatus :=
  if exited_with_0 es then
    let chout := obtain_checker_output output 512 in
    let (line1, parser) := extract_next_char NL chout in
    let (line2, parser) := extract_next_char NL parser in
    let bad_line2 := negb (SV.empty line2) &&
      ((match line2 with c :: _ => c =c "-" | [] => false end) || negb (is_real line2)) in
    let rest :=
      if SV.eqb line1 (lit "WRONG") then mkCS CS_WRONG (dZ 0) parser
      else first_line_error output_name line1 in
    if bad_line2 then rest
    else if SV.eqb line1 (lit "OK") then
      if SV.empty line2 then mkCS CS_OK (dZ 1) parser
      else
        match stod line2 with
        | Ok x => mkCS CS_OK (dmul (Fin x) percent) parser
        | _ => wrong_second_line output_name line2
        end
    else rest
  else if (match real_time_limit opts with Some tl => tl <=? es_runtime es | None => false end) then
    mkCS CS_ERROR (dZ 0) (lit "Time limit exceeded")
  else if is_MLE (es_message es) ||
      (match mem_limit opts with Some ml => ml <? vm_peak es | None => false end) then
    mkCS CS_ERROR (dZ 0) (lit "Memory limit exceeded")
  else
    mkCS CS_ERROR (dZ 0) (lit "Runtime error" ++
      (if SV.empty (es_message es) then [] else lit " (" ++ es_message es ++ lit ")")).

(** [cpu_tl * 3 / 2 + 500ms] *)
Definition cpu_time_limit_to_real_time_limit (cpu_tl : Z) : outcome Z :=
  x ← i64 (cpu_tl * 3);
  i64 (Z.quot x 2 + 500000000).

(** ** Logging *)

(** The calls of a [JudgeLogger]. *)
Inductive log_event :=
| LogBegin (final : bool)
| LogTest (test_name : str) (rep : JTest) (es : ExitStat)
| LogChecked (test_name : str) (rep : JTest) (es checker_es : ExitStat)
    (checker_mem_limit : option Z) (checker_error_str : str)
| LogGroupScore (score max_score : Z) (score_ratio : double)
| LogFinalScore (score max_score : Z)
| LogEnd.

(** Wrap-around of [uint64_t] and the conversion to [int64_t]. *)
Definition wrap_u64 (x : Z) : Z := x mod 2 ^ 64.
Definition u64_to_i64 (x : Z) : Z := if x <? 2 ^ 63 then x else x - 2 ^ 64.

Definition calc_group_score (score : Z) (ratio : double) : outcome Z :=
  d_to_int64 (dround (dmul (dZ score) ratio)).

Definition one_millionth : double := round_double (1 # 1000000).

(** The score ratio falls when the runtime comes close to the time limit. *)
Definition update_ratio (score_cut_lambda : double) (rep : JTest) (ratio : double) : double :=
  if dltb score_cut_lambda (dZ 1) then
    let x := d_seconds (jt_runtime rep) in
    let t := d_seconds (jt_time_limit rep) in
    let ratio := dmin ratio (ddiv (dsub (ddiv x t) (dZ 1)) (dsub score_cut_lambda (dZ 1))) in
    if dltb ratio (dZ 0) then dZ 0 else ratio
  else ratio.

Definition skipped_report (t : Test) : JTest :=
  mkJTest (test_name t) SKIPPED 0 (time_limit t) 0 (memory_limit t) [].

(** Group "0" goes to the initial report, other groups to the final one. *)
Definition selected (final : bool) (g : TestGroup) : outcome bool :=
  t ← get_or_ub (tests g !! 0%nat);
  let (gid, _) := split (test_name t) in
  Ok (eqb (negb (SV.eqb gid (lit "0"))) final).

Section Process.
(** The state of everything outside of the worker. *)
Context {W : Type}.

Record JS := mkJS { world : W; log : list log_event }.

Definition log_call (e : log_event) : stm JS unit := modify (fun s => mkJS (world s) (log s ++ [e])).

Definition outside {A} (m : stm W A) : stm JS A :=
  fun s => let (w, r) := m (world s) in (mkJS w (log s), r).

(** [judge_on_test(test, group_score_ratio)]: the report and the new ratio. *)
Variable judge_on_test : Test -> double -> stm JS (JTest * double).
Variable score_cut_lambda : double.
Variable partial_report_callback : option (JudgeReport -> stm W unit).
(** [judge_log.judge_log()] *)
Variable render : list log_event -> str.

Definition has_callback : bool := match partial_report_callback with Some _ => true | None => false end.

(** The loop over the tests of a group. *)
Fixpoint judge_tests (group_score : Z) (ts : list Test) (ratio : double) (skip_tests were_skipped : bool) :
    stm JS (list JTest * double * bool) :=
  match ts with
  | [] => mret ([], ratio, were_skipped)
  | t :: ts' =>
      if skip_tests then
        '(reps, ratio, were_skipped) ← judge_tests group_score ts' ratio skip_tests true;
        mret (skipped_report t :: reps, ratio, were_skipped)
      else
        '(rep, ratio) ← judge_on_test t ratio;
        let ratio := update_ratio score_cut_lambda rep ratio in
        no_score ← (if dltb ratio one_millionth then
                      v ← lift (calc_group_score group_score ratio);
                      mret (v =? 0)
                    else mret false);
        '(reps, ratio, were_skipped) ←
          judge_tests group_score ts' ratio (if no_score : bool then has_callback else skip_tests) were_skipped;
        mret (rep :: reps, ratio, were_skipped)
  end.

(** First round: as little as possible to compute the score.  Returns the groups
    of the report, whether tests were skipped, the total and the maximum
    score. *)
Fixpoint first_round (final : bool) (gs : list TestGroup) (were_skipped : bool) (total_score max_score : Z) :
    stm JS (list JGroup * bool * Z * Z) :=
  match gs with
  | [] => mret ([], were_skipped, total_score, max_score)
  | g :: gs' =>
      sel ← lift (selected final g);
      if negb sel then first_round final gs' were_skipped total_score max_score
      else
        '(reps, ratio, were_skipped) ← judge_tests (score g) (tests g) (dZ 1) false were_skipped;
        gscore ← lift (calc_group_score (score g) ratio);
        let total_score := wrap_u64 (total_score + gscore) in
        let max_score := if 0 <? score g then wrap_u64 (max_score + score g) else max_score in
        _ ← log_call (LogGroupScore gscore (score g) ratio);
        '(rgs, were_skipped, total_score, max_score) ←
          first_round final gs' were_skipped total_score max_score;
        mret (mkJGroup reps gscore (score g) :: rgs, were_skipped, total_score, max_score)
  end.

(** Second round: the skipped tests. *)
Fixpoint judge_skipped (ts : list Test) (reps : list JTest) : stm JS (list JTest) :=
  match ts, reps with
  | [], _ => mret reps
  | _ :: _, [] => lift UB
  | t :: ts', rep :: reps' =>
      rep ← (if bool_decide (jt_status rep = SKIPPED) then
               '(rep, _) ← judge_on_test t (dZ 0); mret rep
             else mret rep);
      reps ← judge_skipped ts' reps';
      mret (rep :: reps)
  end.

Fixpoint second_round (final : bool) (gs : list TestGroup) (rgs : list JGroup) : stm JS (list JGroup) :=
  match gs with
  | [] => mret rgs
  | g :: gs' =>
      sel ← lift (selected final g);
      if negb sel then second_round final gs' rgs
      else
        match rgs with
        | [] => lift UB
        | rg :: rgs' =>
            reps ← judge_skipped (tests g) (jg_tests rg);
            rgs' ← second_round final gs' rgs';
            mret (mkJGroup reps (jg_score rg) (jg_max_score rg) :: rgs')
        end
  end.

Definition process_tests (sf : Simfile) (final : bool) : stm JS JudgeReport :=
  _ ← log_call (LogBegin final);
  '(rgs, were_skipped, total_score, max_score) ← first_round final (tgroups sf) false 0 0;
  _ ← log_call (LogFinalScore (u64_to_i64 total_score) (u64_to_i64 max_score));
  rgs ← (if were_skipped : bool then
           jlog ← gets (fun s => render (log s));
           callback ← lift (value_or_throw partial_report_callback);
           _ ← outside (callback (mkReport rgs jlog));
           second_round final (tgroups sf) rgs
         else mret rgs);
  _ ← log_call LogEnd;
  jlog ← gets (fun s => render (log s));
  mret (mkReport rgs jlog).
End Process.
Arguments JS : clear implicits.

(** ** The verdict on a test *)

(** The report of a run, before anything is concluded from it. *)
Definition run_report (t : Test) (es : ExitStat) : JTest :=
  mkJTest (test_name t) OK (cpu_runtime es) (time_limit t) (vm_peak es) (memory_limit t) [].

Definition set_verdict (rep : JTest) (st : Status) (comment : str) : JTest :=
  mkJTest (jt_name rep) st (jt_runtime rep) (jt_time_limit rep) (jt_memory_consumed rep)
    (jt_memory_limit rep) comment.

Definition solution_ok (t : Test) (es : ExitStat) : bool :=
  exited_with_0 es && (cpu_runtime es <=? time_limit t).

(** A run that was not accepted: time limit, memory limit, runtime error. *)
Definition failed_report (t : Test) (es : ExitStat) : JTest :=
  let rep := run_report t es in
  if (jt_time_limit rep <=? jt_runtime rep) || (time_limit t <=? es_runtime es) then
    let rt := if jt_runtime rep <? jt_time_limit rep then jt_time_limit rep else jt_runtime rep in
    mkJTest (jt_name rep) TLE rt (jt_time_limit rep) (jt_memory_consumed rep) (jt_memory_limit rep)
      (lit "Time limit exceeded")
  else if is_MLE (es_message es) || (jt_memory_limit rep <? jt_memory_consumed rep) then
    set_verdict rep MLE (lit "Memory limit exceeded")
  else
    set_verdict rep RTE (lit "Runtime error" ++
      (if SV.empty (es_message es) then [] else lit " (" ++ es_message es ++ lit ")")).

(** The checker's opinion on an accepted run. *)
Definition checked_report (rep : JTest) (cs : CheckerStatus) : JTest :=
  match cs_status cs with
  | CS_OK => set_verdict rep OK (cs_message cs)
  | CS_WRONG => set_verdict rep WA (cs_message cs)
  | CS_ERROR => set_verdict rep CHECKER_ERROR (lit "Checker error")
  end.

Section Worker.
Context {W : Type}.

(** [PackageLoader::load_as_file], opening a file for reading and running a
    program in the sandbox; for the checker also what it wrote and where its
    descriptors were left. *)
Variable load_as_file : str -> str -> stm W str.
Variable open_file : str -> stm W unit.
Variable run_solution : str -> run_limits -> stm W ExitStat.
Variable run_checker : str -> str -> run_limits -> stm W (ExitStat * (str * Z) * (str * Z)).
(** An interactive run: of the solution, of the checker, what the checker wrote
    and whether the checker ended first. *)
Variable run_interactive : str -> run_limits -> run_limits -> stm W (ExitStat * ExitStat * str * bool).

Variable checker_time_limit checker_memory_limit : option Z.
Variable score_cut_lambda : double.
Variable partial_report_callback : option (JudgeReport -> stm W unit).
Variable render : list log_event -> str.
(** What [std::move] leaves of a string it was taken from. *)
Variable moved_from : str -> str.

(** The checker's message when the report is logged: already moved into the
    comment, unless the checker failed. *)
Definition logged_message (cs : CheckerStatus) : str :=
  match cs_status cs with CS_ERROR => cs_message cs | _ => moved_from (cs_message cs) end.

Definition checker_limits : run_limits := mkLimits checker_time_limit checker_memory_limit None.

(** [judge_on_test] of [judge]. *)
Definition judge_on_test (t : Test) (ratio : double) : stm (JS W) (JTest * double) :=
  in_path ← outside (load_as_file (test_in t) (lit "test.in"));
  out ← lift (value_or_throw (test_out t));
  out_path ← outside (load_as_file out (lit "test.out"));
  _ ← outside (open_file in_path);
  rtl ← lift (cpu_time_limit_to_real_time_limit (time_limit t));
  es ← outside (run_solution in_path (mkLimits (Some rtl) (Some (memory_limit t)) (Some (time_limit t))));
  if negb (solution_ok t es) then
    let rep := failed_report t es in
    _ ← log_call (LogTest (test_name t) rep es);
    mret (rep, dZ 0)
  else
    '(ces, (err, err_pos), (out, out_pos)) ← outside (run_checker in_path out_path checker_limits);
    let cs :=
      if (err_pos =? 0) && (0 <? out_pos) then exit_to_checker_status ces checker_limits out (lit "stdout")
      else exit_to_checker_status ces checker_limits err (lit "stderr") in
    let ratio := dmin ratio (cs_ratio cs) in
    let rep := checked_report (run_report t es) cs in
    _ ← log_call (LogChecked (test_name t) rep es ces checker_memory_limit (logged_message cs));
    mret (rep, ratio).

(** The checker may only be blamed for the end of a solution that was in time. *)
Definition interrupted_by_checker (t : Test) (es : ExitStat) (cs : CheckerStatus) (checker_first : bool) : bool :=
  checker_first &&
  (negb (match cs_status cs with CS_OK => true | _ => false end) || dltb (cs_ratio cs) (dZ 1)) &&
  (cpu_runtime es <? time_limit t) && (es_runtime es <? time_limit t).

(** [judge_on_test] of [judge_interactive]. *)
Definition judge_on_test_interactive (t : Test) (ratio : double) : stm (JS W) (JTest * double) :=
  in_path ← outside (load_as_file (test_in t) (lit "test.in"));
  rtl ← lift (cpu_time_limit_to_real_time_limit (time_limit t));
  crtl ← lift (match checker_time_limit with Some tl => Some <$> i64 (tl + rtl) | None => Ok None end);
  let checker_opts := mkLimits crtl checker_memory_limit None in
  '(es, ces, err, checker_first) ←
    outside (run_interactive in_path (mkLimits (Some rtl) (Some (memory_limit t)) (Some (time_limit t)))
      checker_opts);
  let cs := exit_to_checker_status ces checker_opts err (lit "stderr") in
  let ratio := dmin ratio (cs_ratio cs) in
  match cs_status cs with
  | CS_ERROR =>
      let rep := checked_report (run_report t es) cs in
      _ ← log_call (LogChecked (test_name t) rep es ces checker_memory_limit (logged_message cs));
      mret (rep, ratio)
  | _ =>
      if solution_ok t es || interrupted_by_checker t es cs checker_first then
        let rep := checked_report (run_report t es) cs in
        _ ← log_call (LogChecked (test_name t) rep es ces checker_memory_limit (logged_message cs));
        mret (rep, ratio)
      else
        let rep := failed_report t es in
        _ ← log_call (LogTest (test_name t) rep es);
        mret (rep, dZ 0)
  end.

Definition judge (sf : Simfile) (final : bool) : stm (JS W) JudgeReport :=
  _ ← when (match checker_time_limit with Some tl => tl <=? 0 | None => false end)
        (throw_error (lit "If set, checker_time_limit has to be greater than 0"));
  _ ← when (match checker_memory_limit with Some ml => ml <=? 0 | None => false end)
        (throw_error (lit "If set, checker_memory_limit has to be greater than 0"));
  _ ← when (dltb score_cut_lambda (dZ 0) || dltb (dZ 1) score_cut_lambda)
        (throw_error (lit "score_cut_lambda has to be from [0, 1]"));
  process_tests (if interactive sf then judge_on_test_interactive else judge_on_test)
    score_cut_lambda partial_report_callback render sf final.
End Worker.
