(* ===== verification/DefaultCheckerVerdict.v ===== *)
(** * From the default checker to the verdict

    What the judge reads from the output of the default checker. *)

From Stdlib Require Import ZArith Lia Ascii.
From S2P Require Import Prelude.
From S2P Require Import Ctype.
From S2P Require Import StringView.
From S2P Require Import StringTransform.
From S2P Require Import Doubles.
From S2P Require Import Time.
From S2P Require Import SimpleParser.
From S2P Require Import DefaultChecker.
From S2P Require Import Simfile.
From S2P Require Import Os.
From S2P Require Import Spawner.
From S2P Require Import Judge.
Local Open Scope nat_scope.

Lemma extract_line w rest : NL ∉ w -> SP.extract_next_char NL (w ++ NL :: rest) = (w, rest).
Proof.
  intros H. apply SP.extract_next_word; [|done]. apply Forall_forall. intros c Hc. apply char_eqb_neq. congruence.
Qed.

(** A message that is short and ends visibly is read whole, but for the end of
    its line. *)
Lemma obtain_short text n c : last text = Some c -> is_space c = false -> length text + 1 < n ->
  obtain_checker_output (text ++ [NL]) n = text.
Proof.
  intros Hl Hc Hn. unfold obtain_checker_output. rewrite length_app. cbn [length].
  destruct (Nat.ltb_spec (length text + 1) n); [|lia]. rewrite remove_trailing_snoc by done.
  unfold SV.remove_trailing. apply last_Some in Hl as [l ->]. rewrite rev_app_distr. cbn [rev app drop_while]. rewrite Hc.
  cbn [rev]. by rewrite rev_involutive.
Qed.

(** The comment the judge shows. *)
Definition line_comment (line : nat) (comment : str) : str := lit "Line " ++ to_string (Z.of_nat line) ++ lit ": " ++ comment.

Lemma wrong_read es opts name line comment : exited_with_0 es = true -> comment_ok comment -> (Z.of_nat line < 10 ^ 20)%Z ->
  exit_to_checker_status es opts (wrong line comment) name = mkCS CS_WRONG (dZ 0) (line_comment line comment).
Proof.
  intros He (Hlen & Hnl & c & Hlast & Hc) Hline. unfold exit_to_checker_status. rewrite He.
  pose proof (length_to_string (Z.of_nat line) 20 ltac:(lia) ltac:(lia)) as Hd.
  assert (wrong line comment = (lit "WRONG" ++ NL :: lit "0" ++ NL :: line_comment line comment) ++ [NL]) as ->.
  { unfold wrong, line_comment. cbn [lit String.list_ascii_of_string app]. by rewrite <- !app_assoc. }
  assert (last (lit "WRONG" ++ NL :: lit "0" ++ NL :: line_comment line comment) = Some c) as Hl.
  { transitivity (last ((lit "WRONG" ++ [NL] ++ lit "0" ++ [NL] ++ lit "Line " ++ to_string (Z.of_nat line) ++ lit ": ") ++ comment));
      [unfold line_comment; by rewrite <- !app_assoc|]. by rewrite last_app, Hlast. }
  rewrite (obtain_short _ 512 c); [|done|done|].
  2: { unfold line_comment. rewrite !length_app. cbn [length lit String.list_ascii_of_string app]. rewrite !length_app.
       cbn [length lit String.list_ascii_of_string app]. lia. }
  rewrite extract_line by (cbn; rewrite !not_elem_of_cons; split_and!; try done; apply not_elem_of_nil).
  rewrite extract_line by (cbn; rewrite !not_elem_of_cons; split_and!; try done; apply not_elem_of_nil). reflexivity.
Qed.

(** C10: A problem without a checker of its own: on files without null characters
    the default checker ends and exits with 0, and what the judge makes of its
    output is OK with the whole score exactly when the solution's output and the
    right one have the same lines up to the white space at the ends of lines and
    of the files; otherwise WRONG with no score and a comment about the first
    line in which they differ. *)
Theorem default_checker_verdict fout fans es opts name : NUL ∉ fout -> NUL ∉ fans -> (Z.of_nat (length fout + length fans) < 2 ^ 64)%Z ->
  exited_with_0 es = true ->
  exists text, main (Some fout) (Some fans) = Ok (text, 0%Z) /\
  let cs := exit_to_checker_status es opts text name in
  ((forall i, line_at fout i = line_at fans i) /\ cs = mkCS CS_OK (dZ 1) []) \/
  (exists i comment, (forall j, j < i -> line_at fout j = line_at fans j) /\ line_at fout i <> line_at fans i /\
     cs = mkCS CS_WRONG (dZ 0) (line_comment (i + 1) comment)).
Proof.
  intros Hf Hg Hlen He. destruct (compare_loop_decides (S (length fout)) 0 fout fans Hf Hg ltac:(lia)) as (text & E & Hd).
  exists text. unfold main. rewrite E. split; [done|]. cbv zeta. destruct Hd as [[Heq ->]|(i & comment & Hlt & Hne & -> & Hc)].
  - left. split; [done|]. unfold exit_to_checker_status. by rewrite He.
  - right. exists i, comment. split; [done|]. split; [done|]. pose proof (difference_bound _ _ _ Hne). apply wrong_read; [done|done|].
    cbn [Nat.add]. lia.
Qed.

Lemma default_checker_verdict_witness :
  exists text, main (Some (lit "1 2" ++ [NL; NL])) (Some (lit "1 2 ")) = Ok (text, 0%Z) /\
  exit_to_checker_status (mkExitStat 0 0 CLD_EXITED 0 [] 0 []) (mkLimits None None None) text [] = mkCS CS_OK (dZ 1) [].
Proof.
  destruct (default_checker_verdict (lit "1 2" ++ [NL; NL]) (lit "1 2 ") (mkExitStat 0 0 CLD_EXITED 0 [] 0 []) (mkLimits None None None) [])
    as (text & E & H).
  - intros H. repeat (apply elem_of_cons in H as [H|H]; [done|]). by apply elem_of_nil in H.
  - intros H. repeat (apply elem_of_cons in H as [H|H]; [done|]). by apply elem_of_nil in H.
  - by vm_compute.
  - done.
  - exists text. split; [exact E|]. destruct H as [[_ H]|(i & comment & _ & Hne & _)]; [exact H|].
    exfalso. apply Hne. destruct i as [|[|[|i]]]; reflexivity || (unfold line_at; cbn; by destruct i).
Defined.
