(* ===== verification/JudgeProofs.v ===== *)
(** * The judge's reports

    Scores stay between zero and the group's score, every selected test is
    judged and reported, and the verdict is the one the run and the checker
    give. *)

From Stdlib Require Import ZArith QArith Lia Lqa Ascii.
From S2P Require Import Prelude.
From S2P Require Import Ctype.
From S2P Require Import StringView.
From S2P Require Import StringTraits.
From S2P Require Import StringCompare.
From S2P Require Import StringTransform.
From S2P Require Import Floats.
From S2P Require Import Doubles.
From S2P Require Import Time.
From S2P Require Import Os.
From S2P Require Import Spawner.
From S2P Require Import SimpleParser.
From S2P Require Import Simfile.
From S2P Require Import Judge.
Import SP.
Local Open Scope Z_scope.

(** ** Ratios *)

(** A ratio between 0 and 1. *)
Definition valid_ratio (d : double) : Prop := exists q, d = Fin q /\ (0 <= q /\ q <= 1)%Q.

Definition zero_ratio (d : double) : Prop := exists q, d = Fin q /\ (q == 0)%Q.

(** Not negative, possibly infinite. *)
Definition nonneg (d : double) : Prop :=
  match d with Fin q => (0 <= q)%Q | Inf neg => neg = false | NaN => False end.

Lemma valid_0 : valid_ratio (dZ 0).
Proof. exists 0%Q. split; [reflexivity|]. lra. Qed.

Lemma valid_1 : valid_ratio (dZ 1).
Proof. exists 1%Q. split; [reflexivity|]. lra. Qed.

Lemma zero_0 : zero_ratio (dZ 0).
Proof. exists 0%Q. done. Qed.

#[export] Hint Resolve valid_0 valid_1 zero_0 : simlib.

Lemma dmin_zero_l a b : zero_ratio a -> nonneg b -> zero_ratio (dmin a b).
Proof.
  intros (q & -> & Hq) Hb. unfold dmin. destruct (dltb b (Fin q)) eqn:E; [|by exists q].
  destruct b as [p|n|]; cbn in *; [|congruence|done]. bools.
  assert (~ (q <= p)%Q) as Hn by (rewrite <- Qle_bool_iff; congruence). lra.
Qed.

Lemma dmin_zero_r a : valid_ratio a -> zero_ratio (dmin a (dZ 0)).
Proof.
  intros (q & -> & Hq). unfold dmin. destruct (dltb (dZ 0) (Fin q)) eqn:E; [apply zero_0|].
  exists q. split; [done|]. change (dZ 0) with (Fin 0) in E. cbn in E. bools. apply Qle_bool_iff in E. lra.
Qed.

Lemma dmin_nonneg a b : valid_ratio a -> nonneg b -> valid_ratio (dmin a b).
Proof.
  intros (q & -> & Hq) Hb. unfold dmin. destruct (dltb b (Fin q)) eqn:E; [|by exists q].
  destruct b as [p|n|]; cbn in *; [|congruence|done]. exists p. split; [done|]. bools.
  assert (~ (q <= p)%Q) as Hn by (rewrite <- Qle_bool_iff; congruence). lra.
Qed.

Lemma update_ratio_valid lambda rep r : valid_ratio r -> valid_ratio (update_ratio lambda rep r).
Proof.
  intros (q & -> & Hq). unfold update_ratio. destruct (dltb lambda (dZ 1)); [|by exists q].
  cbn zeta. set (e := ddiv _ _). unfold dmin. destruct (dltb e (Fin q)) eqn:E.
  - destruct e as [p|[|]|]; cbn in E; try discriminate.
    + bools. assert (~ (q <= p)%Q) as Hn by (rewrite <- Qle_bool_iff; congruence).
      destruct (dltb (Fin p) (dZ 0)) eqn:E0; [apply valid_0|]. exists p. split; [done|].
      change (dZ 0) with (Fin 0) in E0. cbn in E0. bools. apply Qle_bool_iff in E0. lra.
    + apply valid_0.
  - destruct (dltb (Fin q) (dZ 0)); [apply valid_0|]. by exists q.
Qed.

Lemma update_ratio_zero lambda rep r : zero_ratio r -> zero_ratio (update_ratio lambda rep r).
Proof.
  intros (q & -> & Hq). unfold update_ratio. destruct (dltb lambda (dZ 1)); [|by exists q].
  cbn zeta. set (e := ddiv _ _). unfold dmin. destruct (dltb e (Fin q)) eqn:E.
  - assert (dltb e (dZ 0) = true) as ->; [|apply zero_0]. destruct e as [p|n|]; cbn in *; [|done..]. bools.
    apply negb_true_iff. destruct (Qle_bool 0 p) eqn:E0; [|done]. apply Qle_bool_iff in E0.
    assert (~ (q <= p)%Q) as Hn by (rewrite <- Qle_bool_iff; congruence). lra.
  - destruct (dltb (Fin q) (dZ 0)); [apply zero_0|]. by exists q.
Qed.

Lemma round_abs_nonneg x : (0 < x)%Q -> nonneg (round_abs x).
Proof.
  intros H. unfold round_abs. cbn zeta. destruct (Qle_bool _ _); [done|]. cbn [nonneg]. rewrite Qred_correct.
  unfold round_at. pose proof (pow2_pos (ulp_exp x)) as P. apply Qmult_le_0_compat; [|lra].
  change 0%Q with (inject_Z 0). rewrite <- Zle_Qle. apply round_even_nonneg. apply Qle_shift_div_l; [done|]. lra.
Qed.

Lemma round_double_nonneg x : (0 <= x)%Q -> nonneg (round_double x).
Proof.
  intros H. unfold round_double. destruct (Qeq_bool x 0) eqn:E; [cbn; lra|].
  assert (Qneg x = false) as -> by (by apply Qneg_false). apply round_abs_nonneg.
  apply Qeq_bool_neq in E. lra.
Qed.

Lemma stod_abs_nonneg x r : (0 <= x)%Q -> stod_abs x = Ok r -> (0 <= r)%Q.
Proof.
  intros H. unfold stod_abs. destruct (Qeq_bool x 0) eqn:E; [intros [= <-]; lra|].
  apply Qeq_bool_neq in E. assert (forall e, 0 <= round_at e x)%Q as R.
  { intros e. unfold round_at. pose proof (pow2_pos e) as P. apply Qmult_le_0_compat; [|lra].
    change 0%Q with (inject_Z 0). rewrite <- Zle_Qle. apply round_even_nonneg. apply Qle_shift_div_l; [done|]. lra. }
  cbn zeta. repeat case_goal; intros [= <-]; apply R.
Qed.

Lemma Ok_inj {A} (a b : A) : Ok a = Ok b -> a = b.
Proof. congruence. Qed.

(** A text without a sign that [is_real] accepts is a printed decimal. *)
Lemma is_real_inv c s : (c =c "-") = false -> is_real (c :: s) = true ->
  exists i f, c :: s = print_decimal i f /\ i <> [] /\ digits i /\ digits f.
Proof.
  unfold is_real. intros -> H. pose proof (SV.find_char_spec (c :: s) "." 0) as F.
  destruct (SV.find_char (c :: s) "." 0) as [p|].
  - destruct F as ((_ & F1) & F2 & _).
    destruct (SV.substring (c :: s) 0 p) as [i|e| |] eqn:Ei; [|done..].
    destruct (SV.substr_from (c :: s) (p + 1)) as [f|e| |] eqn:Ef; [|done..]. bools.
    rename H into Hi, H0 into Hf. apply is_digit_str_spec in Hi as [Hi1 Hi2], Hf as [Hf1 Hf2].
    exists i, f. split; [|done]. unfold SV.substring in Ei. unfold SV.substr_from in Ef.
    destruct (_ || _); [done|]. destruct (_ <? _)%nat; [done|]. apply Ok_inj in Ei, Ef.
    rewrite Nat.min_r, Nat.sub_0_r in Ei by lia. change (drop 0 (c :: s)) with (c :: s) in Ei. unfold print_decimal.
    destruct f as [|d f]; [done|]. rewrite <- (take_drop p (c :: s)), Ei. cbn [SV.empty length Nat.eqb]. f_equal.
    rewrite (drop_S _ "."%char) by done. cbn. f_equal. rewrite <- Ef. by rewrite Nat.add_comm.
  - apply is_digit_str_spec in H as [H1 H2]. exists (c :: s), []. split; [|by repeat split].
    unfold print_decimal. cbn [SV.empty length Nat.eqb]. by rewrite app_nil_r.
Qed.

Lemma checker_ratio_nonneg es opts output nm : nonneg (cs_ratio (exit_to_checker_status es opts output nm)).
Proof.
  assert (nonneg (dZ 0)) as N0 by (vm_compute; discriminate). assert (nonneg (dZ 1)) as N1 by (vm_compute; discriminate).
  unfold exit_to_checker_status. destruct (exited_with_0 es); [|repeat case_goal; done].
  cbn zeta. destruct (extract_next_char NL (obtain_checker_output output 512)) as [line1 p1].
  destruct (extract_next_char NL p1) as [line2 p2].
  assert (forall x, nonneg (cs_ratio (if SV.eqb line1 x then mkCS CS_WRONG (dZ 0) p2 else first_line_error nm line1))) as R.
  { intros x. destruct (SV.eqb line1 x); done. }
  destruct (negb (SV.empty line2) && _) eqn:Eb; [apply R|].
  destruct (SV.eqb line1 (lit "OK")); [|apply R]. destruct line2 as [|c l]; [done|].
  cbn [SV.empty length Nat.eqb negb andb] in *. apply orb_false_iff in Eb as [Ec Er]. bools.
  destruct (is_real_inv c l) as (i & f & E & Hi & Di & Df); [by apply char_eqb_neq|done|]. rewrite E.
  unfold stod. rewrite decimal_print by done. destruct (stod_abs _) as [x|e| |] eqn:Ex; [|done..]. cbn [mbind outcome_bind cs_ratio].
  apply stod_abs_nonneg in Ex.
  - cbn [dmul percent]. change percent with (Fin (5764607523034235 # 576460752303423488)).
    cbn [dmul]. apply round_double_nonneg. nra.
  - pose proof (num_bound (i ++ f) ltac:(by apply Forall_app)) as B.
    apply Qle_shift_div_l; [|rewrite Qmult_0_l]; change 0%Q with (inject_Z 0).
    + rewrite <- Zlt_Qlt. apply Z.pow_pos_nonneg; lia.
    + rewrite <- Zle_Qle. lia.
Qed.

Lemma checker_ratio_not_ok es opts output nm :
  cs_status (exit_to_checker_status es opts output nm) <> CS_OK ->
  cs_ratio (exit_to_checker_status es opts output nm) = dZ 0.
Proof. unfold exit_to_checker_status, first_line_error, wrong_second_line. repeat case_goal; by intros H. Qed.

(** ** Judging one test *)

(** A report on the test [t] that says what happened. *)
Definition describes (t : Test) (rep : JTest) : Prop :=
  jt_name rep = test_name t /\ jt_time_limit rep = time_limit t /\
  jt_memory_limit rep = memory_limit t /\ jt_status rep <> SKIPPED.

(** What [process_tests] expects of [judge_on_test] on the tests that satisfy
    [good]; it may throw only when [E] allows it. *)
Class TestJudge {W} (E : Prop) (good : Test -> Prop) (f : Test -> double -> stm (JS W) (JTest * double)) : Prop := {
  test_judged t r : good t -> valid_ratio r ->
    runs E (f t r) (fun res => valid_ratio res.2 /\ describes t res.1 /\
      (jt_status res.1 <> OK \/ zero_ratio r -> zero_ratio res.2));
}.

Lemma TestJudge_weaken {W} E (good good' : Test -> Prop) (f : Test -> double -> stm (JS W) (JTest * double)) :
  (forall t, good t -> good' t) -> TestJudge E good' f -> TestJudge E good f.
Proof. intros H J. constructor. intros t r Ht. apply test_judged. auto. Qed.

Lemma runs_outside {W A} E (m : stm W A) Q : runs E m Q -> runs E (outside m) Q.
Proof. intros H s. specialize (H (world s)). unfold outside. destruct (m (world s)) as [w r]. exact H. Qed.

Lemma failed_describes t es : describes t (failed_report t es).
Proof. unfold failed_report. repeat case_goal; by repeat split. Qed.

Lemma checked_describes t es cs : describes t (checked_report (run_report t es) cs).
Proof. unfold checked_report. destruct (cs_status cs); by repeat split. Qed.

#[export] Hint Resolve failed_describes checked_describes dmin_nonneg checker_ratio_nonneg : simlib.

(** The checker's verdict leaves a ratio only to what it accepts. *)
Lemma checker_status_cases es t cs r :
  (exists ces opts output nm, cs = exit_to_checker_status ces opts output nm) -> valid_ratio r ->
  valid_ratio (dmin r (cs_ratio cs)) /\
  (jt_status (checked_report (run_report t es) cs) <> OK \/ zero_ratio r -> zero_ratio (dmin r (cs_ratio cs))).
Proof.
  intros (ces & opts & output & nm & ->) Hr. pose proof (checker_ratio_nonneg ces opts output nm) as Hn.
  set (cs := exit_to_checker_status _ _ _ _) in *. split; [auto with simlib|].
  intros [H|H]; [|by apply dmin_zero_l]. assert (cs_ratio cs = dZ 0) as ->; [|by apply dmin_zero_r].
  unfold checked_report in H. unfold cs in *. apply checker_ratio_not_ok. destruct (cs_status _); [|done..].
  by destruct H.
Qed.

(** Limits whose real time limit can be computed. *)
Definition sane_time (tl : Z) : Prop := 0 <= tl <= 2 ^ 60.

Lemma real_time_limit_ok tl : sane_time tl ->
  exists rtl, cpu_time_limit_to_real_time_limit tl = Ok rtl /\ tl <= rtl <= 2 ^ 62.
Proof.
  unfold sane_time, cpu_time_limit_to_real_time_limit. intros H. rewrite i64_ok by lia. cbn [mbind outcome_bind].
  rewrite Z.quot_div_nonneg by lia.
  pose proof (Z.div_mod (tl * 3) 2 ltac:(lia)) as D. pose proof (Z.mod_pos_bound (tl * 3) 2 ltac:(lia)) as M.
  exists (tl * 3 / 2 + 500000000). rewrite i64_ok by lia. split; [done|]. lia.
Qed.

Section OnTest.
Context {W : Type} (E : Prop).
Variable load_as_file : str -> str -> stm W str.
Variable open_file : str -> stm W unit.
Variable run_solution : str -> run_limits -> stm W ExitStat.
Variable run_checker : str -> str -> run_limits -> stm W (ExitStat * (str * Z) * (str * Z)).
Variable run_interactive : str -> run_limits -> run_limits -> stm W (ExitStat * ExitStat * str * bool).
Variables (checker_time_limit checker_memory_limit : option Z) (moved_from : str -> str).

(** The outside world answers, or throws. *)
Record answers : Prop := {
  load_answers p h : runs E (load_as_file p h) (fun _ => True);
  open_answers p : runs E (open_file p) (fun _ => True);
  run_answers p l : runs E (run_solution p l) (fun _ => True);
  checker_answers p q l : runs E (run_checker p q l) (fun _ => True);
  interactive_answers p l l' : runs E (run_interactive p l l') (fun _ => True);
}.
Hypothesis A : answers.

Lemma judge_on_test_judges :
  TestJudge E (fun t => sane_time (time_limit t) /\ is_Some (test_out t))
    (judge_on_test load_as_file open_file run_solution run_checker checker_time_limit checker_memory_limit moved_from).
Proof.
  constructor. intros t r [Ht [out Hout]] Hr. unfold judge_on_test.
  eapply runs_bind; [apply runs_outside, A|]. intros in_path _.
  eapply runs_bind; [apply runs_lift; rewrite Hout; by instantiate (1 := fun _ => True)|]. intros o _.
  eapply runs_bind; [apply runs_outside, A|]. intros out_path _.
  eapply runs_bind; [apply runs_outside, A|]. intros _ _.
  destruct (real_time_limit_ok _ Ht) as (rtl & -> & _).
  eapply runs_bind; [apply runs_lift; by instantiate (1 := fun _ => True)|]. intros rtl' _.
  eapply runs_bind; [apply runs_outside, A|]. intros es _.
  destruct (negb (solution_ok t es)).
  - eapply runs_bind; [by apply runs_modify; instantiate (1 := fun _ => True)|]. intros _ _. apply runs_ret.
    cbn [fst snd]. split_and!; auto with simlib.
  - eapply runs_bind; [apply runs_outside, A|]. intros [[ces [err ep]] [o' op]] _.
    eapply runs_bind; [by apply runs_modify; instantiate (1 := fun _ => True)|]. intros _ _. apply runs_ret.
    cbn [fst snd]. set (cs := if _ : bool then _ else _).
    destruct (checker_status_cases es t cs r) as [H1 H2]; [|done|by split_and!; auto with simlib].
    unfold cs. destruct (_ && _); eauto.
Qed.

Lemma judge_on_test_interactive_judges :
  match checker_time_limit with Some tl => sane_time tl | None => True end ->
  TestJudge E (fun t => sane_time (time_limit t))
    (judge_on_test_interactive load_as_file run_interactive checker_time_limit checker_memory_limit moved_from).
Proof.
  intros Hc. constructor. intros t r Ht Hr. unfold judge_on_test_interactive.
  eapply runs_bind; [apply runs_outside, A|]. intros in_path _.
  destruct (real_time_limit_ok _ Ht) as (rtl & -> & Hrtl).
  eapply runs_bind; [apply runs_lift; by instantiate (1 := fun x => x = rtl)|]. intros rtl' ->.
  eapply runs_bind with (P := fun _ => True).
  { apply runs_lift. destruct checker_time_limit as [tl|]; [|done]. unfold sane_time in *.
    rewrite i64_ok; [done|]. lia. }
  intros crtl _. eapply runs_bind; [apply runs_outside, A|]. intros [[[es ces] err] first] _. cbn zeta.
  set (cs := exit_to_checker_status _ _ _ _).
  destruct (checker_status_cases es t cs r) as [H1 H2]; [by repeat eexists|done|].
  assert (forall rep, describes t rep -> forall r', valid_ratio r' -> (jt_status rep <> OK \/ zero_ratio r -> zero_ratio r') ->
    forall e, runs (S := JS W) E (log_call e ≫= fun _ => mret (rep, r'))
      (fun res => valid_ratio res.2 /\ describes t res.1 /\ (jt_status res.1 <> OK \/ zero_ratio r -> zero_ratio res.2))) as Hend.
  { intros rep Hrep r' Hr' Hz e. eapply runs_bind; [by apply runs_modify; instantiate (1 := fun _ => True)|].
    intros _ _. by apply runs_ret. }
  destruct (cs_status cs); [destruct (_ || _); apply Hend..|apply Hend]; auto with simlib.
Qed.
End OnTest.

(** ** Judging all tests *)

Definition is_selected (final : bool) (g : TestGroup) : bool :=
  match selected final g with Ok b => b | _ => false end.

(** The groups the report is about. *)
Definition selection (final : bool) (gs : list TestGroup) : list TestGroup :=
  filter (fun g => is_selected final g = true) gs.

(** Between zero and the maximum. *)
Definition in_scale (score max_score : Z) : Prop := 0 <= score <= max_score \/ max_score <= score <= 0.

Definition not_ok (rep : JTest) : Prop := jt_status rep <> OK.

(** A report on a group: about its tests one by one, with a score on the scale,
    which is zero unless all of the tests are passed. *)
Definition reports (P : Test -> JTest -> Prop) (g : TestGroup) (rg : JGroup) : Prop :=
  jg_max_score rg = score g /\ in_scale (jg_score rg) (jg_max_score rg) /\
  Forall2 P (tests g) (jg_tests rg) /\ (Exists not_ok (jg_tests rg) -> jg_score rg = 0).

Section ProcessTests.
Context {W : Type} {E : Prop} {good : Test -> Prop}.
Context (f : Test -> double -> stm (JS W) (JTest * double)) `{TJ : !TestJudge E good f}.
Variables (lambda : double) (callback : option (JudgeReport -> stm W unit)) (render : list log_event -> str).

Definition judgeable (g : TestGroup) : Prop :=
  tests g <> [] /\ - 2 ^ 53 <= score g <= 2 ^ 53 /\ Forall good (tests g).

(** A test was judged, or left for the second round. *)
Definition provisional (t : Test) (rep : JTest) : Prop := describes t rep \/ rep = skipped_report t.

(** Skipping is for partial reports only. *)
Definition allowed (b : bool) : Prop := b = true -> has_callback callback = true.

Lemma calc_group_score_ok sc r : - 2 ^ 53 <= sc <= 2 ^ 53 -> valid_ratio r ->
  exists v, calc_group_score sc r = Ok v /\ in_scale v sc.
Proof. intros H (q & -> & Hq1 & Hq2). exact (scale_bounds sc q H Hq1 Hq2). Qed.

Lemma calc_group_score_zero sc r : - 2 ^ 53 <= sc <= 2 ^ 53 -> zero_ratio r -> calc_group_score sc r = Ok 0.
Proof.
  intros H (q & -> & Hq). unfold calc_group_score.
  assert (exists p, dZ sc = Fin p) as [p ->].
  { destruct (Z.leb_spec 0 sc); [destruct (dZ_exact sc) as (p & -> & _); [lia|by exists p]|].
    replace sc with (- - sc) by lia. rewrite dZ_opp. destruct (dZ_exact (- sc)) as (p & -> & _); [lia|by eexists]. }
  cbn [dmul]. unfold round_double.
  assert (Qeq_bool (p * q) 0 = true) as -> by (apply Qeq_bool_iff; rewrite Hq; ring). done.
Qed.

(** What the loop over the tests of a group ends with. *)
Definition group_judged sc ts r skip ws (res : list JTest * double * bool) : Prop :=
  let '(reps, r', ws') := res in
  valid_ratio r' /\ Forall2 provisional ts reps /\ allowed ws' /\ (ws = true -> ws' = true) /\
  (ws' = false -> Forall2 describes ts reps) /\ (skip = true -> r' = r) /\
  (zero_ratio r -> zero_ratio r') /\ (Exists not_ok reps -> calc_group_score sc r' = Ok 0).

Lemma judge_tests_spec sc : - 2 ^ 53 <= sc <= 2 ^ 53 -> forall ts r skip ws,
  Forall good ts -> valid_ratio r -> allowed skip -> allowed ws ->
  (skip = true -> calc_group_score sc r = Ok 0) ->
  runs E (judge_tests f lambda callback sc ts r skip ws) (group_judged sc ts r skip ws).
Proof.
  intros Hsc. induction ts as [|t ts IH]; intros r skip ws Hg Hr Hs Hw Hk; cbn [judge_tests].
  { apply runs_ret. cbn [group_judged]. split_and!; try done. intros H. inversion H. }
  apply Forall_cons in Hg as [Ht Hg]. destruct skip.
  - eapply runs_bind; [apply (IH r true true); auto|]. intros [[reps r'] ws'] (H1 & H2 & H3 & H4 & H5 & H6 & H7 & H8).
    apply runs_ret. cbn [group_judged]. rewrite (H6 eq_refl) in *. specialize (H4 eq_refl). split_and!; auto.
    + constructor; [by right|done].
    + intros ->. discriminate.
  - eapply runs_bind; [by apply test_judged|]. intros [rep r'] (Hr' & Hd & Hz). cbn [fst snd] in *. cbn zeta.
    pose proof (update_ratio_valid lambda rep r' Hr') as Hu.
    pose proof (update_ratio_zero lambda rep r') as Huz. set (r2 := update_ratio lambda rep r') in *.
    eapply runs_bind with (P := fun b => b = true -> calc_group_score sc r2 = Ok 0).
    { destruct (dltb r2 one_millionth); [|by apply runs_ret].
      destruct (calc_group_score_ok sc r2 Hsc Hu) as (v & -> & _). intros s. cbn. intros Hv. f_equal. lia. }
    intros no_score Hns. eapply runs_bind; [apply (IH r2 _ ws); try done|].
    { destruct no_score; [by intros ?|done]. }
    { destruct no_score; [by intros _; apply Hns|done]. }
    intros [[reps r3] ws'] (H1 & H2 & H3 & H4 & H5 & _ & H7 & H8). apply runs_ret. cbn [group_judged].
    split_and!; auto; [constructor; [by left|done]|discriminate|].
    intros [Hx|Hx]%Exists_cons; [|auto]. apply calc_group_score_zero; [done|]. auto.
Qed.

Lemma selected_ok final g : judgeable g -> selected final g = Ok (is_selected final g).
Proof.
  intros (Hne & _). unfold is_selected, selected. destruct (tests g) as [|t ts]; [done|]. cbn.
  by destruct (split (test_name t)).
Qed.

Lemma selection_cons final g gs : selection final (g :: gs) =
  if is_selected final g then g :: selection final gs else selection final gs.
Proof.
  unfold selection. destruct (is_selected final g) eqn:Es; [by rewrite filter_cons_True|].
  rewrite filter_cons_False; [done|congruence].
Qed.

Lemma first_round_spec final : forall gs ws tot mx, Forall judgeable gs -> allowed ws ->
  runs E (first_round f lambda callback final gs ws tot mx) (fun res =>
    Forall2 (reports provisional) (selection final gs) res.1.1.1 /\ allowed res.1.1.2 /\
    (ws = true -> res.1.1.2 = true) /\
    (res.1.1.2 = false -> Forall2 (reports describes) (selection final gs) res.1.1.1)).
Proof.
  induction gs as [|g gs IH]; intros ws tot mx Hg Hw; cbn [first_round].
  { apply runs_ret. cbn [fst snd]. by split_and!. }
  apply Forall_cons in Hg as [Hj Hg]. rewrite (selected_ok final g Hj), selection_cons.
  eapply runs_bind; [apply runs_lift; by instantiate (1 := fun b => b = is_selected final g)|]. intros b ->.
  destruct (is_selected final g); cbn [negb]; [|by apply IH]. destruct Hj as (_ & Hsc & Hts).
  eapply runs_bind; [apply (judge_tests_spec (score g) Hsc); auto with simlib; by intros ?|].
  intros [[reps r] ws1] (H1 & H2 & H3 & H4 & H5 & _ & _ & H8).
  destruct (calc_group_score_ok (score g) r Hsc H1) as (v & Ev & Hv). rewrite Ev in *.
  eapply runs_bind; [apply runs_lift; by instantiate (1 := fun x => x = v)|]. intros v' ->. cbn zeta.
  eapply runs_bind; [by apply runs_modify; instantiate (1 := fun _ => True)|]. intros _ _.
  eapply runs_bind; [by apply (IH ws1)|]. intros [[[rgs ws2] t2] m2] (R1 & R2 & R3 & R4). apply runs_ret.
  assert (Exists not_ok reps -> v = 0) as Hz by (intros Hx; specialize (H8 Hx); congruence).
  cbn [fst snd] in *. split; [|split; [done|split; [auto|]]].
  - constructor; [|done]. unfold reports. by split_and!.
  - intros E2. constructor; [|auto]. unfold reports. split_and!; [done|done| |done]. cbn. apply H5.
    destruct ws1; [|done]. rewrite R3 in E2; done.
Qed.

Lemma judge_skipped_spec ts : Forall good ts -> forall reps, Forall2 provisional ts reps ->
  runs E (judge_skipped f ts reps) (fun reps' =>
    Forall2 describes ts reps' /\ (Exists not_ok reps' -> Exists not_ok reps)).
Proof.
  induction 1 as [|t ts Ht _ IH]; intros reps H; cbn [judge_skipped].
  { inversion H. apply runs_ret. split; [constructor|done]. }
  inversion H as [|? rep ? reps' Hp Hps]; subst. cbn [judge_skipped].
  eapply runs_bind with (P := fun rep' => describes t rep' /\ (not_ok rep' -> not_ok rep)).
  { destruct (bool_decide_reflect (jt_status rep = SKIPPED)) as [Es|Es].
    - eapply runs_bind; [apply test_judged; auto with simlib|]. intros [rep' r'] (_ & Hd & _). apply runs_ret.
      split; [done|]. unfold not_ok. by rewrite Es.
    - apply runs_ret. destruct Hp as [Hp| ->]; [done|]. by destruct Es. }
  intros rep' [Hd Hn]. eapply runs_bind; [by apply IH|]. intros reps2 [H2 Hn2]. apply runs_ret.
  split; [by constructor|]. rewrite !Exists_cons. tauto.
Qed.

Lemma second_round_spec final : forall gs rgs, Forall judgeable gs ->
  Forall2 (reports provisional) (selection final gs) rgs ->
  runs E (second_round f final gs rgs) (fun rgs' => Forall2 (reports describes) (selection final gs) rgs').
Proof.
  induction gs as [|g gs IH]; intros rgs Hg H; cbn [second_round].
  { inversion H. by apply runs_ret. }
  apply Forall_cons in Hg as [Hj Hg]. rewrite (selected_ok final g Hj). rewrite selection_cons in *.
  eapply runs_bind; [apply runs_lift; by instantiate (1 := fun b => b = is_selected final g)|]. intros b ->.
  destruct (is_selected final g); cbn [negb]; [|by apply IH].
  inversion H as [|? rg ? rgs' (P1 & P2 & P3 & P4) Hps]; subst.
  eapply runs_bind; [by apply judge_skipped_spec; [apply Hj|]|]. intros reps [Hd Hn].
  eapply runs_bind; [by apply IH|]. intros rgs2 H2. apply runs_ret. constructor; [|done].
  unfold reports. cbn [jg_tests jg_score jg_max_score]. split_and!; auto.
Qed.

Lemma process_tests_spec sf final : Forall judgeable (tgroups sf) ->
  (forall g rep, callback = Some g -> runs E (g rep) (fun _ => True)) ->
  runs E (process_tests f lambda callback render sf final)
    (fun rep => Forall2 (reports describes) (selection final (tgroups sf)) (groups rep)).
Proof.
  intros Hg Hc. unfold process_tests.
  eapply runs_bind; [by apply runs_modify; instantiate (1 := fun _ => True)|]. intros _ _.
  eapply runs_bind; [apply first_round_spec; [done|by intros ?]|].
  intros [[[rgs ws] tot] mx] (H1 & H2 & _ & H4). cbn [fst snd] in *.
  eapply runs_bind; [by apply runs_modify; instantiate (1 := fun _ => True)|]. intros _ _.
  eapply runs_bind with (P := fun rgs => Forall2 (reports describes) (selection final (tgroups sf)) rgs).
  { destruct ws; [|by apply runs_ret, H4]. specialize (H2 eq_refl). unfold has_callback in H2.
    destruct callback as [g|] eqn:Ec; [|done].
    eapply runs_bind; [apply runs_gets; by instantiate (1 := fun _ => True)|]. intros jlog _.
    eapply runs_bind; [apply runs_lift; by instantiate (1 := fun x => x = g)|]. intros g' ->.
    eapply runs_bind; [apply runs_outside; by apply Hc|]. intros _ _. by apply second_round_spec. }
  intros rgs' H. eapply runs_bind; [by apply runs_modify; instantiate (1 := fun _ => True)|]. intros _ _.
  eapply runs_bind; [apply runs_gets; by instantiate (1 := fun _ => True)|]. intros jlog _. by apply runs_ret.
Qed.
End ProcessTests.

(** ** Main theorems *)

Section Judge.
Context {W : Type} (E : Prop).
Variable load_as_file : str -> str -> stm W str.
Variable open_file : str -> stm W unit.
Variable run_solution : str -> run_limits -> stm W ExitStat.
Variable run_checker : str -> str -> run_limits -> stm W (ExitStat * (str * Z) * (str * Z)).
Variable run_interactive : str -> run_limits -> run_limits -> stm W (ExitStat * ExitStat * str * bool).
Variables (checker_time_limit checker_memory_limit : option Z) (score_cut_lambda : double).
Variable callback : option (JudgeReport -> stm W unit).
Variables (render : list log_event -> str) (moved_from : str -> str).

(** Options [judge] accepts. *)
Definition options_ok : Prop :=
  match checker_time_limit with Some tl => 0 < tl <= 2 ^ 60 | None => True end /\
  match checker_memory_limit with Some ml => 0 < ml | None => True end /\
  valid_ratio score_cut_lambda.

(** The tests of the package can be run. *)
Definition test_ok (sf : Simfile) (t : Test) : Prop :=
  sane_time (time_limit t) /\ (interactive sf = false -> is_Some (test_out t)).

(** C3: [judge] (interactive or not), whatever the solution and the checker do,
    either returns a report or passes on an exception of the outside world: it
    has one group for every selected group and one test for every test, in
    order, none of them left skipped; every group's score is between 0 and its
    maximum, and is 0 unless all the tests of the group are passed. *)
Theorem judge_report_correct sf final :
  answers E load_as_file open_file run_solution run_checker run_interactive ->
  (forall g rep, callback = Some g -> runs E (g rep) (fun _ => True)) ->
  options_ok -> Forall (judgeable (good := test_ok sf)) (tgroups sf) ->
  runs E (judge load_as_file open_file run_solution run_checker run_interactive checker_time_limit
      checker_memory_limit score_cut_lambda callback render moved_from sf final)
    (fun rep => Forall2 (reports describes) (selection final (tgroups sf)) (groups rep)).
Proof.
  intros A Hcb (Ho1 & Ho2 & q & Ho3 & Hq) Hg. unfold judge.
  eapply runs_bind with (P := fun _ => True).
  { apply runs_when_throw; [|done]. destruct checker_time_limit; [|done]. intros H. apply Z.leb_le in H. lia. }
  intros _ _. eapply runs_bind with (P := fun _ => True).
  { apply runs_when_throw; [|done]. destruct checker_memory_limit; [|done]. intros H. apply Z.leb_le in H. lia. }
  intros _ _. eapply runs_bind with (P := fun _ => True).
  { apply runs_when_throw; [|done]. rewrite Ho3. change (dZ 0) with (Fin 0). change (dZ 1) with (Fin 1). cbn.
    rewrite !(proj2 (Qle_bool_iff _ _)) by apply Hq. done. }
  intros _ _. destruct (interactive sf) eqn:Ei.
  - unshelve eapply (@process_tests_spec W E (test_ok sf)); [|done|done]. eapply TestJudge_weaken; [|eapply judge_on_test_interactive_judges; [exact A|]].
    + by intros t [Ht _].
    + destruct checker_time_limit; [|done]. unfold sane_time. lia.
  - unshelve eapply (@process_tests_spec W E (test_ok sf)); [|done|done].
    eapply TestJudge_weaken; [|eapply judge_on_test_judges; exact A]. intros t [Ht Ho]. split; [done|]. by apply Ho.
Qed.
End Judge.

(** A world where the solution is right on the first test and too slow on the
    second. *)
Definition sample_run (p : str) (l : run_limits) : stm nat ExitStat :=
  fun n => (S n, Ok (mkExitStat (Z.of_nat n * 2000000000) (Z.of_nat n * 2000000000) CLD_EXITED 0 [] 0 [])).

Definition sample_checker (p q : str) (l : run_limits) : stm nat (ExitStat * (str * Z) * (str * Z)) :=
  mret (mkExitStat 0 0 CLD_EXITED 0 [] 0 [], (lit "OK", 2), ([], 0)).

Definition sample_interactive (p : str) (l l' : run_limits) : stm nat (ExitStat * ExitStat * str * bool) :=
  mret (mkExitStat 0 0 CLD_EXITED 0 [] 0 [], mkExitStat 0 0 CLD_EXITED 0 [] 0 [], lit "OK", true).

Definition sample_simfile : Simfile :=
  set_tgroups
    [mkTestGroup [mkTest (lit "x0") (lit "x0.in") (Some (lit "x0.out")) 1000000000 1048576] 0;
     mkTestGroup [mkTest (lit "x1a") (lit "x1a.in") (Some (lit "x1a.out")) 1000000000 1048576] 40;
     mkTestGroup [mkTest (lit "x2a") (lit "x2a.in") (Some (lit "x2a.out")) 1000000000 1048576] 60] blank.

Definition sample_judge : stm (JS nat) JudgeReport :=
  judge (fun p h => mret p) (fun p => mret tt) sample_run sample_checker sample_interactive (Some 1000000000)
    (Some 1000000) (dmul (dZ 2) (ddiv (dZ 1) (dZ 3))) None (fun _ => []) (fun m => []) sample_simfile true.

Example sample_judge_scores :
  match (sample_judge (mkJS 0%nat [])).2 with
  | Ok rep => jg_score <$> groups rep
  | _ => []
  end = [40; 0].
Proof. vm_compute. reflexivity. Qed.

Lemma judge_report_correct_witness :
  runs False sample_judge
    (fun rep => Forall2 (reports describes) (selection true (tgroups sample_simfile)) (groups rep)).
Proof.
  apply (judge_report_correct False).
  - constructor; intros; intros s; exact I.
  - discriminate.
  - split; [split; [done|]; vm_compute; discriminate|]. split; [done|].
    exists (Qred (6004799503160661 # 9007199254740992)). split; [vm_compute; reflexivity|].
    split; vm_compute; discriminate.
  - repeat constructor; try discriminate; try (cbn; lia); try (vm_compute; discriminate); by eexists.
Defined.

(** A group that holds only [ocen] tests, which belong to the group 0, is
    judged in the final report and not in the initial one. *)
Theorem ocen_group_is_final :
  test_gid (lit "x1ocen") = lit "0" /\
  forall ml score, let g := mkTestGroup [mkTest (lit "x1ocen") [] None 1 ml] score in
  selection false [g] = [] /\ selection true [g] = [g].
Proof. split; [reflexivity|]. intros ml sc g. split; reflexivity. Qed.

(** When the second line of the checker's output is not a number, the status
    built for it is dropped: after [OK] the error blames the first line, and
    after [WRONG] the output is accepted. *)
Theorem wrong_second_line_is_dropped es opts nm : exited es = true -> es_status es = 0 ->
  exit_to_checker_status es opts (lit "OK" ++ [NL] ++ lit "x") nm = first_line_error nm (lit "OK") /\
  exit_to_checker_status es opts (lit "WRONG" ++ [NL] ++ lit "x") nm = mkCS CS_WRONG (dZ 0) [].
Proof.
  intros H1 H2. unfold exit_to_checker_status, exited_with_0. rewrite H1, H2. split; reflexivity.
Qed.

Lemma wrong_second_line_is_dropped_witness :
  let es := mkExitStat 0 0 CLD_EXITED 0 [] 0 [] in let opts := mkLimits None None None in
  exit_to_checker_status es opts (lit "OK" ++ [NL] ++ lit "x") (lit "stderr") =
    first_line_error (lit "stderr") (lit "OK") /\
  exit_to_checker_status es opts (lit "WRONG" ++ [NL] ++ lit "x") (lit "stderr") = mkCS CS_WRONG (dZ 0) [].
Proof. apply (wrong_second_line_is_dropped (mkExitStat 0 0 CLD_EXITED 0 [] 0 [])); reflexivity. Defined.
