(* ===== verification/InteractiveJudge.v ===== *)
(** * The two threads of an interactive judgement

    [JudgeWorker::judge_interactive] runs the solution in one thread and the
    checker in another.  They hand over jobs, their readiness, the number of the
    solution's process and the checker's status through four [std::promise]s that
    are reset after each use, so that setting one twice, or asking twice for its
    future, throws.  Each thread is a machine whose steps are the accesses to
    what the threads share; a call that may throw has a step for either case, and
    a run of a sandbox ends.  What a value or the state of a thread belongs to is
    tracked by a flag: whether it was made for the test the solution thread is
    at. *)

From Stdlib Require Import ZArith Lia.
From S2P Require Import Prelude.

(** ** Promises *)

(** The value or exception, and whether the future was taken. *)
Record promise (A : Type) := mkPromise { content : option (A + unit); taken : bool }.
Arguments mkPromise {A}.
Arguments content {A}.
Arguments taken {A}.

#[export] Instance promise_eq_dec {A} `{EqDecision A} : EqDecision (promise A).
Proof. solve_decision. Defined.

(** [p = {}] *)
Definition fresh {A} : promise A := mkPromise None false.

(** [set_value] and [set_exception]; [None] for a [std::future_error]. *)
Definition set_content {A} (p : promise A) (v : A + unit) : option (promise A) :=
  match content p with
  | None => Some (mkPromise (Some v) (taken p))
  | Some _ => None
  end.

(** [get_future().get()] *)
Inductive got (A : Type) := Blocked | Error | Got (v : A + unit) (p : promise A).
Arguments Blocked {A}.
Arguments Error {A}.
Arguments Got {A}.

Definition get {A} (p : promise A) : got A :=
  if taken p then Error
  else match content p with
       | None => Blocked
       | Some v => Got v (mkPromise (content p) true)
       end.

(** ** The state *)

(** Where the thread of the solution is; [caught]: in the handler of the
    exceptions. *)
Inductive spc :=
| S_setup | S_setup_reset
| S_next | S_prepare | S_schedule | S_ready | S_ready_reset
| S_run | S_running | S_load | S_status | S_status_reset | S_report
| S_finish (caught : bool) | S_join (caught : bool) | S_done (caught : bool).

(** The thread of the checker. *)
Inductive kpc :=
| K_setup | K_setup_failed | K_ready | K_wait | K_reset | K_test
| K_prepare | K_announce | K_run | K_exited | K_output | K_pid | K_pid_reset | K_kill | K_status | K_failed
| K_done.

#[export] Instance spc_eq_dec : EqDecision spc.
Proof. solve_decision. Defined.
#[export] Instance kpc_eq_dec : EqDecision kpc.
Proof. solve_decision. Defined.

Record state := mkState {
  spc_of : spc;
  kpc_of : kpc;
  checker_supervisor_ready : promise unit;
  next_job_promise : promise (option bool);
  checker_status_promise : promise bool;
  solution_pid_promise : promise (option bool);
  checker_finished : bool;
  finished_current : bool; (* [checker_finished] was stored for this test *)
  job : option bool;       (* the job the checker thread has *)
  sol_pid : option bool;   (* the process it was told *)
  solution_alive : bool;   (* the process of this test has not been waited for *)
  misused : bool           (* a [std::future_error] *)
}.

#[export] Instance state_eq_dec : EqDecision state.
Proof. solve_decision. Defined.

Definition init : state :=
  mkState S_setup K_setup fresh fresh fresh fresh false false None None false false.

(** ** Updates *)

Definition at_s (p : spc) (s : state) : state :=
  mkState p (kpc_of s) (checker_supervisor_ready s) (next_job_promise s) (checker_status_promise s) (solution_pid_promise s)
    (checker_finished s) (finished_current s) (job s) (sol_pid s) (solution_alive s) (misused s).
Definition at_k (p : kpc) (s : state) : state :=
  mkState (spc_of s) p (checker_supervisor_ready s) (next_job_promise s) (checker_status_promise s) (solution_pid_promise s)
    (checker_finished s) (finished_current s) (job s) (sol_pid s) (solution_alive s) (misused s).
Definition with_ready (p : promise unit) (s : state) : state :=
  mkState (spc_of s) (kpc_of s) p (next_job_promise s) (checker_status_promise s) (solution_pid_promise s)
    (checker_finished s) (finished_current s) (job s) (sol_pid s) (solution_alive s) (misused s).
Definition with_next (p : promise (option bool)) (s : state) : state :=
  mkState (spc_of s) (kpc_of s) (checker_supervisor_ready s) p (checker_status_promise s) (solution_pid_promise s)
    (checker_finished s) (finished_current s) (job s) (sol_pid s) (solution_alive s) (misused s).
Definition with_status (p : promise bool) (s : state) : state :=
  mkState (spc_of s) (kpc_of s) (checker_supervisor_ready s) (next_job_promise s) p (solution_pid_promise s)
    (checker_finished s) (finished_current s) (job s) (sol_pid s) (solution_alive s) (misused s).
Definition with_pid (p : promise (option bool)) (s : state) : state :=
  mkState (spc_of s) (kpc_of s) (checker_supervisor_ready s) (next_job_promise s) (checker_status_promise s) p
    (checker_finished s) (finished_current s) (job s) (sol_pid s) (solution_alive s) (misused s).
Definition with_job (j : option bool) (s : state) : state :=
  mkState (spc_of s) (kpc_of s) (checker_supervisor_ready s) (next_job_promise s) (checker_status_promise s) (solution_pid_promise s)
    (checker_finished s) (finished_current s) j (sol_pid s) (solution_alive s) (misused s).
Definition with_sol_pid (j : option bool) (s : state) : state :=
  mkState (spc_of s) (kpc_of s) (checker_supervisor_ready s) (next_job_promise s) (checker_status_promise s) (solution_pid_promise s)
    (checker_finished s) (finished_current s) (job s) j (solution_alive s) (misused s).
Definition with_alive (b : bool) (s : state) : state :=
  mkState (spc_of s) (kpc_of s) (checker_supervisor_ready s) (next_job_promise s) (checker_status_promise s) (solution_pid_promise s)
    (checker_finished s) (finished_current s) (job s) (sol_pid s) b (misused s).
Definition store_finished (b current : bool) (s : state) : state :=
  mkState (spc_of s) (kpc_of s) (checker_supervisor_ready s) (next_job_promise s) (checker_status_promise s) (solution_pid_promise s)
    b current (job s) (sol_pid s) (solution_alive s) (misused s).
Definition misuse (s : state) : state :=
  mkState (spc_of s) (kpc_of s) (checker_supervisor_ready s) (next_job_promise s) (checker_status_promise s) (solution_pid_promise s)
    (checker_finished s) (finished_current s) (job s) (sol_pid s) (solution_alive s) true.

(** Setting a promise, and waiting for one. *)
Definition setting {A} (p : state -> promise A) (with_p : promise A -> state -> state) (v : A + unit) (k : state -> list state) (s : state)
    : list state :=
  match set_content (p s) v with
  | Some q => k (with_p q s)
  | None => [misuse s]
  end.

Definition getting {A} (p : state -> promise A) (with_p : promise A -> state -> state) (k : A + unit -> state -> list state) (s : state)
    : list state :=
  match get (p s) with
  | Blocked => []
  | Error => [misuse s]
  | Got v q => k v (with_p q s)
  end.

Definition outdated {A} (f : A -> A) (p : promise A) : promise A :=
  mkPromise (match content p with Some (inl v) => Some (inl (f v)) | c => c end) (taken p).

(** The next test: what was made for the one before is not current any more. *)
Definition next_test (s : state) : state :=
  mkState (spc_of s) (kpc_of s) (checker_supervisor_ready s) (outdated (fmap (fun _ => false)) (next_job_promise s))
    (outdated (fun _ => false) (checker_status_promise s)) (outdated (fmap (fun _ => false)) (solution_pid_promise s))
    (checker_finished s) false ((fun _ => false) <$> job s) ((fun _ => false) <$> sol_pid s) (solution_alive s) (misused s).

(** ** The thread of the solution *)

Definition sstep (s : state) : list state :=
  match spc_of s with
  | S_setup => getting checker_supervisor_ready with_ready (fun v s => [at_s (if v is inl _ then S_setup_reset else S_finish true) s]) s
  | S_setup_reset => [at_s S_next (with_ready fresh s)]
  | S_next => [at_s S_prepare (next_test s); at_s (S_finish false) s; at_s (S_finish true) s]
  | S_prepare => [at_s S_schedule s; at_s (S_finish true) s]
  | S_schedule => setting next_job_promise with_next (inl (Some true)) (fun s => [at_s S_ready s]) s
  | S_ready => getting checker_supervisor_ready with_ready (fun v s => [at_s (if v is inl _ then S_ready_reset else S_finish true) s]) s
  | S_ready_reset => [at_s S_run (with_ready fresh s)]
  | S_run =>
      (* the callback with the number of the process, or an exception before it *)
      setting solution_pid_promise with_pid (inl (Some true)) (fun s => [at_s S_running (with_alive true s)]) s ++
      setting solution_pid_promise with_pid (inl None) (fun s => [at_s (S_finish true) s]) s
  | S_running => [at_s S_load (with_alive false s); at_s (S_finish true) (with_alive false s)]
  | S_load => [at_s S_status s]
  | S_status => getting checker_status_promise with_status (fun v s => [at_s (if v is inl _ then S_status_reset else S_finish true) s]) s
  | S_status_reset => [at_s S_report (with_status fresh s)]
  | S_report => [at_s S_next s; at_s (S_finish true) s]
  | S_finish caught => setting next_job_promise with_next (inl None) (fun s => [at_s (S_join caught) s]) s
  | S_join caught => if decide (kpc_of s = K_done) then [at_s (S_done caught) s] else []
  | S_done _ => []
  end.

(** ** The thread of the checker *)

Definition kstep (s : state) : list state :=
  match kpc_of s with
  | K_setup => [at_k K_ready s; at_k K_setup_failed s]
  | K_setup_failed => setting checker_supervisor_ready with_ready (inr tt) (fun s => [at_k K_done s]) s
  | K_ready => setting checker_supervisor_ready with_ready (inl tt) (fun s => [at_k K_wait s]) s
  | K_wait =>
      getting next_job_promise with_next (fun v s => match v with inl j => [at_k K_reset (with_job j s)] | inr _ => [misuse s] end) s
  | K_reset => [at_k K_test (with_next fresh s)]
  | K_test => [at_k (if job s is Some _ then K_prepare else K_done) s]
  | K_prepare => [at_k K_announce (store_finished false (bool_decide (job s = Some true)) s)]
  | K_announce => setting checker_supervisor_ready with_ready (inl tt) (fun s => [at_k K_run s]) s
  | K_run => [at_k K_exited s; at_k K_failed s]
  | K_exited => [at_k K_output (store_finished true (bool_decide (job s = Some true)) s)]
  | K_output => [at_k K_pid s; at_k K_failed s]
  | K_pid =>
      getting solution_pid_promise with_pid
        (fun v s => match v with inl p => [at_k K_pid_reset (with_sol_pid p s)] | inr _ => [misuse s] end) s
  | K_pid_reset => [at_k K_kill (with_pid fresh s)]
  | K_kill => [at_k K_status s]
  | K_status => setting checker_status_promise with_status (inl (bool_decide (job s = Some true))) (fun s => [at_k K_wait s]) s
  | K_failed => setting checker_status_promise with_status (inr tt) (fun s => [at_k K_wait s]) s
  | K_done => []
  end.

Definition steps (s : state) : list state := sstep s ++ kstep s.

(** ** Exploration

    There are finitely many states: all that can be reached are listed and the
    list is checked to be closed. *)

Inductive reachable : state -> Prop :=
| reach_init : reachable init
| reach_step s s' : reachable s -> s' ∈ steps s -> reachable s'.

Fixpoint explore (fuel : nat) (todo seen : list state) : list state :=
  match fuel with
  | O => seen
  | S fuel' =>
      match todo with
      | [] => seen
      | s :: todo' => if bool_decide (s ∈ seen) then explore fuel' todo' seen else explore fuel' (steps s ++ todo') (s :: seen)
      end
  end.

Definition states : list state := explore 5000 [init] [].

Lemma states_closed : forallb (fun s => forallb (fun t => bool_decide (t ∈ states)) (steps s)) states = true.
Proof. vm_compute. reflexivity. Qed.

Lemma init_listed : bool_decide (init ∈ states) = true.
Proof. vm_compute. reflexivity. Qed.

#[local] Opaque states.

Lemma reachable_states s : reachable s -> s ∈ states.
Proof.
  induction 1 as [|s s' _ IH Hs].
  - exact (bool_decide_eq_true_1 _ init_listed).
  - pose proof states_closed as H. rewrite forallb_forall in H. specialize (H s (proj1 (list_elem_of_In _ _) IH)).
    rewrite forallb_forall in H. specialize (H s' (proj1 (list_elem_of_In _ _) Hs)). by apply bool_decide_eq_true_1 in H.
Qed.

(** A property that can be computed holds in every state that can be reached when
    it holds in all that are listed. *)
Lemma reachable_check (P : state -> bool) : forallb P states = true -> forall s, reachable s -> P s = true.
Proof. intros H s Hs. rewrite forallb_forall in H. exact (H s (proj1 (list_elem_of_In _ _) (reachable_states s Hs))). Qed.

(** ** Properties *)

Definition both_ended (s : state) : Prop := kpc_of s = K_done /\ exists caught, spc_of s = S_done caught.

Definition ended (s : state) : bool :=
  match kpc_of s, spc_of s with K_done, S_done _ => true | _, _ => false end.

Lemma ended_spec s : ended s = true -> both_ended s.
Proof. unfold ended, both_ended. destruct (kpc_of s), (spc_of s); try done. eauto. Qed.

(** What has to hold of a state. *)
Definition state_ok (s : state) : bool :=
  negb (misused s) &&
  (negb (bool_decide (steps s = [])) || ended s) &&
  (negb (bool_decide (spc_of s = S_status_reset)) || bool_decide (content (checker_status_promise s) = Some (inl true))) &&
  (negb (bool_decide (spc_of s = S_load)) || finished_current s) &&
  (negb (bool_decide (kpc_of s = K_kill)) || negb (bool_decide (sol_pid s = Some false))).

Lemma states_ok : forallb state_ok states = true.
Proof. vm_compute. reflexivity. Qed.

(** ** The length of a run *)

(** Going to the next test is the only step that does not come nearer to the
    end. *)
Definition begins_test (s s' : state) : bool := bool_decide (spc_of s = S_next) && bool_decide (spc_of s' = S_prepare).

Definition s_rank (p : spc) : nat :=
  match p with
  | S_setup => 21 | S_setup_reset => 20
  | S_next => 19 | S_prepare => 45 | S_schedule => 44 | S_ready => 27 | S_ready_reset => 26
  | S_run => 25 | S_running => 24 | S_load => 23 | S_status => 22 | S_status_reset => 21 | S_report => 20
  | S_finish _ => 18 | S_join _ => 1 | S_done _ => 0
  end.

Definition k_rank (p : kpc) : nat :=
  match p with
  | K_setup => 3 | K_setup_failed => 1 | K_ready => 2 | K_wait => 1 | K_reset => 16 | K_test => 15
  | K_prepare => 14 | K_announce => 13 | K_run => 12 | K_exited => 11 | K_output => 10 | K_pid => 9 | K_pid_reset => 8
  | K_kill => 7 | K_status => 6 | K_failed => 6 | K_done => 0
  end.

(** A job that is not taken yet is work for the checker's thread. *)
Definition rank (s : state) : nat :=
  s_rank (spc_of s) + k_rank (kpc_of s) +
  match content (next_job_promise s), taken (next_job_promise s) with Some _, false => 16 | _, _ => 0 end.

Lemma rank_decreases :
  forallb (fun s => forallb (fun t => if begins_test s t then rank t <=? rank s + 26 else rank t <? rank s) (steps s)) states = true.
Proof. vm_compute. reflexivity. Qed.

(** An execution: the number of its steps and of the tests it has begun. *)
Inductive execution : nat -> nat -> state -> Prop :=
| exec_init : execution 0 0 init
| exec_step k t s s' : execution k t s -> s' ∈ steps s -> execution (S k) (if begins_test s s' then S t else t) s'.

Lemma execution_reachable k t s : execution k t s -> reachable s.
Proof. induction 1; econstructor; eauto. Qed.

Lemma execution_bound k t s : execution k t s -> k + rank s <= 24 + 27 * t.
Proof.
  induction 1 as [|k t s s' He IH Hs]; [vm_compute; lia|].
  pose proof (reachable_check _ rank_decreases s (execution_reachable _ _ _ He)) as H. rewrite forallb_forall in H.
  specialize (H s' (proj1 (list_elem_of_In _ _) Hs)). destruct (begins_test s s').
  - apply Nat.leb_le in H. lia.
  - apply Nat.ltb_lt in H. lia.
Qed.

(** C6: Under every interleaving of the two threads of [judge_interactive] and
    whichever calls throw: an execution that has begun [t] tests has at most
    [24 + 27 t] steps; no promise is set twice or asked twice for its future;
    when no thread can go on both have ended (the checker's thread is always
    joined); the status the solution's thread takes, and the value of
    [checker_finished] it looks at, were made for the test it is at; and the
    checker's thread is never told the process of another test. *)
Theorem interactive_threads_safe k t s : execution k t s ->
  k <= 24 + 27 * t /\ misused s = false /\ (steps s = [] -> both_ended s) /\
  (spc_of s = S_status_reset -> content (checker_status_promise s) = Some (inl true)) /\
  (spc_of s = S_load -> finished_current s = true) /\
  (kpc_of s = K_kill -> sol_pid s <> Some false).
Proof.
  intros He. pose proof (execution_bound _ _ _ He) as Hk.
  pose proof (reachable_check _ states_ok s (execution_reachable _ _ _ He)) as H. unfold state_ok in H. bools. split_and!; [lia|done|..].
  - intros E. apply ended_spec. rewrite bool_decide_true in * by done. done.
  - intros E. rewrite (bool_decide_true (spc_of s = S_status_reset)) in * by done. by apply (bool_decide_eq_true_1 _).
  - intros E. by rewrite (bool_decide_true (spc_of s = S_load)) in * by done.
  - intros E F. rewrite (bool_decide_true (kpc_of s = K_kill)), (bool_decide_true (sol_pid s = Some false)) in * by done. done.
Qed.

(** ** A run *)

(** The first choice at every state: the threads work on one test. *)
Fixpoint first_steps (n : nat) (s : state) : option state :=
  match n with
  | O => Some s
  | S n' => s' ← head (steps s); first_steps n' s'
  end.

Fixpoint tests_begun (n : nat) (s : state) : nat :=
  match n with
  | O => 0
  | S n' => match steps s with s' :: _ => (if begins_test s s' then 1 else 0) + tests_begun n' s' | [] => 0 end
  end.

Lemma first_steps_execution n : forall k t s s', execution k t s -> first_steps n s = Some s' -> execution (n + k) (tests_begun n s + t) s'.
Proof.
  induction n as [|n IH]; intros k t s s' He; cbn [first_steps tests_begun]; [by intros [= <-]|].
  destruct (steps s) as [|s1 rest] eqn:E; [done|]. cbn [head mbind option_bind]. intros Hs.
  assert (execution (S k) (if begins_test s s1 then S t else t) s1) as H1 by (apply exec_step; [done|rewrite E; constructor]).
  specialize (IH _ _ _ _ H1 Hs). replace (S n + k) with (n + S k) by lia. destruct (begins_test s s1).
  - by replace (1 + tests_begun n s1 + t) with (tests_begun n s1 + S t) by lia.
  - exact IH.
Qed.

(** After 25 steps the status has been taken. *)
Definition status_taken : state := default init (first_steps 25 init).

Lemma sample_execution : execution 25 1 status_taken.
Proof. apply (first_steps_execution 25 0 0 init); [constructor|vm_compute; reflexivity]. Qed.

Lemma interactive_threads_safe_witness : content (checker_status_promise status_taken) = Some (inl true).
Proof.
  destruct (interactive_threads_safe 25 1 status_taken) as (_ & _ & _ & H & _).
  - exact sample_execution.
  - apply H. vm_compute. reflexivity.
Defined.

(** The checker's thread may be about to kill the solution's process when it has
    been waited for already, so that its number may be another process's. *)
Lemma kill_after_wait : exists k t s, execution k t s /\ kpc_of s = K_kill /\ sol_pid s = Some true /\ solution_alive s = false.
Proof.
  exists (22 + 0), (tests_begun 22 init + 0), (default init (first_steps 22 init)).
  split; [apply (first_steps_execution 22 0 0 init); [constructor|vm_compute; reflexivity]|]. vm_compute. done.
Qed.
