(* ===== verification/SignalHandling.v ===== *)
(** * Running a function while signals are handled

    [handle_signals_while_running] of [signal_handling.hh]: a handler passes the
    number of a signal to a thread through an event descriptor, and the thread
    cleans up and kills the process, unless the function ends first.  The steps of
    the two threads interleave with signals that arrive at any time; a system call
    that may fail has a step for either case.  The function that is run and the
    cleanup are arbitrary and assumed to end; [kill] ends the process at once. *)

From Stdlib Require Import ZArith Lia.
From S2P Require Import Prelude.
Local Open Scope Z_scope.

(** ** Packing *)

Definition pack_signum (signum : Z) : Z := Z.lor (Z.shiftl 1 32) (signum mod 2 ^ 32).

(** The conversion of [uint32_t] to [int]. *)
Definition to_int (x : Z) : Z := if x <? 2 ^ 31 then x else x - 2 ^ 32.

Definition unpack_signum (packed_signum : Z) : Z := to_int (Z.land packed_signum (Z.shiftl 1 32 - 1)).

(** An event descriptor: writing adds to its counter; a write that would make it
    too large fails without blocking. *)
Definition eventfd_write (counter v : Z) : option Z := if counter + v <=? 2 ^ 64 - 2 then Some (counter + v) else None.

(** signal(7): what a signal with the default disposition does to a process:
    SIGCHLD, SIGCONT, SIGSTOP, SIGTSTP, SIGTTIN, SIGTTOU, SIGURG and SIGWINCH do
    not terminate it. *)
Definition terminates (signum : Z) : bool :=
  (1 <=? signum) && (signum <=? 64) && negb (existsb (Z.eqb signum) [17; 18; 19; 20; 21; 22; 23; 28]).

(** ** The state *)

(** Where the thread that called the function is. *)
Inductive main_at :=
| M_eventfd | M_eventfd_ended | M_sigaction (rest : list Z) | M_thread | M_main_func | M_write | M_join
| M_close_ended | M_close_signal | M_end.

(** Where the thread that handles signals is. *)
Inductive thread_at := T_none | T_poll | T_read | T_cleanup (signum : Z) | T_default (signum : Z) | T_kill (signum : Z) | T_pause | T_finished.

#[export] Instance thread_at_eq_dec : EqDecision thread_at.
Proof. solve_decision. Defined.

Inductive fate := Killed (signum : Z) | Terminated.

(** [handlers] are the signals with [signal_handler]; the other ones have their
    default disposition.  [threw]: an exception is passed on.  [cleaned]: the calls
    of the cleanup.  [accepted], [polled] and [consumed] are history: the signals
    the handler passed on, those of them there were when [poll] returned, and
    those that made up the number that was read. *)
Record state := mkState {
  main : main_at; thread : thread_at; signal_eventfd : option Z; ended_eventfd : option Z; handlers : list Z; threw : bool;
  died : option fate; cleaned : list Z; accepted : list Z; polled : option (list Z); consumed : list Z
}.

Definition start (old_handlers : list Z) : state :=
  mkState M_eventfd T_none None None old_handlers false None [] [] None [].

Definition at_main (m : main_at) (s : state) : state :=
  mkState m (thread s) (signal_eventfd s) (ended_eventfd s) (handlers s) (threw s) (died s) (cleaned s) (accepted s) (polled s) (consumed s).
Definition at_thread (t : thread_at) (s : state) : state :=
  mkState (main s) t (signal_eventfd s) (ended_eventfd s) (handlers s) (threw s) (died s) (cleaned s) (accepted s) (polled s) (consumed s).
Definition with_signal_eventfd (e : option Z) (s : state) : state :=
  mkState (main s) (thread s) e (ended_eventfd s) (handlers s) (threw s) (died s) (cleaned s) (accepted s) (polled s) (consumed s).
Definition with_ended_eventfd (e : option Z) (s : state) : state :=
  mkState (main s) (thread s) (signal_eventfd s) e (handlers s) (threw s) (died s) (cleaned s) (accepted s) (polled s) (consumed s).
Definition with_handlers (h : list Z) (s : state) : state :=
  mkState (main s) (thread s) (signal_eventfd s) (ended_eventfd s) h (threw s) (died s) (cleaned s) (accepted s) (polled s) (consumed s).
Definition throwing (s : state) : state :=
  mkState (main s) (thread s) (signal_eventfd s) (ended_eventfd s) (handlers s) true (died s) (cleaned s) (accepted s) (polled s) (consumed s).
Definition dies (f : fate) (s : state) : state :=
  mkState (main s) (thread s) (signal_eventfd s) (ended_eventfd s) (handlers s) (threw s) (Some f) (cleaned s) (accepted s) (polled s) (consumed s).
Definition cleans (signum : Z) (s : state) : state :=
  mkState (main s) (thread s) (signal_eventfd s) (ended_eventfd s) (handlers s) (threw s) (died s) (cleaned s ++ [signum]) (accepted s) (polled s) (consumed s).
Definition accepts (signum : Z) (s : state) : state :=
  mkState (main s) (thread s) (signal_eventfd s) (ended_eventfd s) (handlers s) (threw s) (died s) (cleaned s) (accepted s ++ [signum]) (polled s) (consumed s).
Definition polls (s : state) : state :=
  mkState (main s) (thread s) (signal_eventfd s) (ended_eventfd s) (handlers s) (threw s) (died s) (cleaned s) (accepted s) (Some (accepted s)) (consumed s).
Definition consumes (s : state) : state :=
  mkState (main s) (thread s) (signal_eventfd s) (ended_eventfd s) (handlers s) (threw s) (died s) (cleaned s) (accepted s) (polled s) (accepted s).

(** ** Steps *)

Inductive poll_answer := Ready | Interrupted | PollFailed.

(** [MainStep ok]: the call succeeds or fails; [main_func] returns or throws. *)
Inductive event := MainStep (ok : bool) | ThreadStep (answer : poll_answer) | SignalArrives (signum : Z).

Section Steps.
Variable signals : list Z.

Definition main_step (ok : bool) (s : state) : option state :=
  match main s with
  | M_eventfd => Some (if ok then at_main M_eventfd_ended (with_signal_eventfd (Some 0) s) else at_main M_end (throwing s))
  | M_eventfd_ended =>
      Some (if ok then at_main (M_sigaction signals) (with_ended_eventfd (Some 0) s) else at_main M_close_signal (throwing s))
  | M_sigaction [] => if ok then Some (at_main M_thread s) else None
  | M_sigaction (signum :: rest) =>
      Some (if ok then at_main (M_sigaction rest) (with_handlers (signum :: handlers s) s) else at_main M_close_ended (throwing s))
  | M_thread => Some (if ok then at_main M_main_func (at_thread T_poll s) else at_main M_close_ended (throwing s))
  | M_main_func => Some (at_main M_write (if ok then s else throwing s))
  | M_write => if ok then e ← ended_eventfd s; e ← eventfd_write e 1; Some (at_main M_join (with_ended_eventfd (Some e) s)) else None
  | M_join => match ok, thread s with true, T_finished => Some (at_main M_close_ended s) | _, _ => None end
  | M_close_ended => if ok then Some (at_main M_close_signal (with_ended_eventfd None s)) else None
  | M_close_signal => if ok then Some (at_main M_end (with_signal_eventfd None s)) else None
  | M_end => None
  end.

Definition readable (e : option Z) : bool := match e with Some c => 0 <? c | None => false end.

Definition poll_step (answer : poll_answer) (s : state) : option state :=
  match answer with
  | Interrupted => Some s
  | PollFailed => Some (dies Terminated s)
  | Ready =>
      if readable (signal_eventfd s) then Some (at_thread T_read (polls s))
      else if readable (ended_eventfd s) then Some (at_thread T_finished (polls s))
      else None
  end.

Definition thread_step (answer : poll_answer) (s : state) : option state :=
  match thread s, answer with
  | T_poll, _ => poll_step answer s
  | T_read, Ready => c ← signal_eventfd s; Some (at_thread (T_cleanup (unpack_signum c)) (with_signal_eventfd (Some 0) (consumes s)))
  | T_cleanup signum, Ready => Some (at_thread (T_default signum) (cleans signum s))
  | T_default signum, Ready => Some (at_thread (T_kill signum) (with_handlers (List.filter (fun x => negb (x =? signum)) (handlers s)) s))
  | T_kill signum, Ready => Some (at_thread T_pause (if terminates signum then dies (Killed signum) s else s))
  | _, _ => None
  end.

(** The signal handler, in whichever thread. *)
Definition signal_handler (signum : Z) (s : state) : state :=
  match signal_eventfd s ≫= (fun c => eventfd_write c (pack_signum signum)) with
  | Some c => with_signal_eventfd (Some c) (accepts signum s)
  | None => s
  end.

Definition signal_arrives (signum : Z) (s : state) : option state :=
  if negb (existsb (Z.eqb signum) signals) then None
  else if existsb (Z.eqb signum) (handlers s) then Some (signal_handler signum s)
  else Some (if terminates signum then dies (Killed signum) s else s).

Definition step (e : event) (s : state) : option state :=
  match died s, e with
  | Some _, _ => None
  | None, MainStep ok => main_step ok s
  | None, ThreadStep answer => thread_step answer s
  | None, SignalArrives signum => signal_arrives signum s
  end.

Fixpoint run (es : list event) (s : state) : option state :=
  match es with
  | [] => Some s
  | e :: es' => s' ← step e s; run es' s'
  end.

End Steps.

(** ** Invariant *)

(** The counter after these signals. *)
Definition packs (l : list Z) : Z := foldr (fun n c => pack_signum n + c) 0 l.

Definition number_of (s : state) (n : Z) : Prop := consumed s <> [] /\ n = unpack_signum (packs (consumed s)).

Definition thread_inv (s : state) : Prop :=
  match thread s with
  | T_none | T_poll => polled s = None /\ cleaned s = [] /\ consumed s = []
  | T_read => accepted s <> [] /\ cleaned s = [] /\ consumed s = []
  | T_cleanup n => number_of s n /\ cleaned s = []
  | T_default n | T_kill n => number_of s n /\ cleaned s = [n]
  | T_pause => exists n, number_of s n /\ cleaned s = [n] /\ (died s = None -> terminates n = false)
  | T_finished => polled s = Some [] /\ cleaned s = [] /\ consumed s = []
  end.

Definition running (t : thread_at) : bool := match t with T_none | T_finished => false | _ => true end.

(** The thread is over, or was never started because of an exception. *)
Definition over (s : state) : Prop := thread s = T_finished \/ (thread s = T_none /\ threw s = true).

Definition main_inv (s : state) : Prop :=
  match main s with
  | M_eventfd => thread s = T_none /\ signal_eventfd s = None /\ ended_eventfd s = None /\ accepted s = []
  | M_eventfd_ended => thread s = T_none /\ is_Some (signal_eventfd s) /\ ended_eventfd s = None
  | M_sigaction _ | M_thread => thread s = T_none /\ is_Some (signal_eventfd s) /\ ended_eventfd s = Some 0
  | M_main_func | M_write => running (thread s) = true /\ is_Some (signal_eventfd s) /\ ended_eventfd s = Some 0
  | M_join => thread s <> T_none /\ is_Some (signal_eventfd s) /\ ended_eventfd s = Some 1
  | M_close_ended => over s /\ is_Some (signal_eventfd s)
  | M_close_signal => over s /\ is_Some (signal_eventfd s) /\ ended_eventfd s = None
  | M_end => over s /\ signal_eventfd s = None /\ ended_eventfd s = None
  end.

(** The counter is made of the signals that were accepted and not yet read. *)
Definition counter_inv (s : state) : Prop :=
  match signal_eventfd s with Some c => exists l, accepted s = consumed s ++ l /\ c = packs l | None => True end.

Lemma pack_add n : pack_signum n = 2 ^ 32 + n mod 2 ^ 32.
Proof.
  unfold pack_signum. rewrite <-Z.lxor_lor; [rewrite <-Z.add_nocarry_lxor; [done|]|]; apply Z.bits_inj'; intros i Hi;
    rewrite Z.land_spec, Z.bits_0, Z.shiftl_1_l, Z.pow2_bits_eqb by lia;
    destruct (Z.eqb_spec 32 i) as [<-|]; try done; by rewrite Z.mod_pow2_bits_high by lia.
Qed.

Lemma pack_pos n : 0 < pack_signum n.
Proof. rewrite pack_add. pose proof (Z.mod_pos_bound n (2 ^ 32) ltac:(lia)). lia. Qed.

Lemma packs_nonneg l : 0 <= packs l.
Proof. unfold packs. induction l as [|n l IH]; cbn [foldr]; [done|]. pose proof (pack_pos n). lia. Qed.

Lemma packs_pos l : l <> [] -> 0 < packs l.
Proof.
  destruct l as [|n l]; [done|]. intros _. change (packs (n :: l)) with (pack_signum n + packs l).
  pose proof (pack_pos n). pose proof (packs_nonneg l). lia.
Qed.

Lemma packs_snoc l n : packs (l ++ [n]) = packs l + pack_signum n.
Proof. unfold packs. induction l as [|m l IH]; cbn [foldr app]; [lia|]. rewrite IH. lia. Qed.

Lemma unpack_mod x : unpack_signum x = to_int (x mod 2 ^ 32).
Proof. unfold unpack_signum. change (Z.shiftl 1 32 - 1) with (Z.ones 32). by rewrite Z.land_ones by lia. Qed.

(** The number that is read is the sum of the numbers that were written. *)
Lemma unpack_packs l : unpack_signum (packs l) = to_int (foldr Z.add 0 l mod 2 ^ 32).
Proof.
  rewrite unpack_mod. f_equal. induction l as [|n l IH]; [done|]. cbn [packs foldr].
  change (foldr (fun n c => pack_signum n + c) 0 l) with (packs l). rewrite pack_add.
  rewrite Z.add_mod, IH, <-(Z.add_mod _ (foldr Z.add 0 l)) by lia.
  rewrite Z.add_mod, (Z.add_mod (2 ^ 32) _), Z.mod_same, Z.add_0_l, !Z.mod_mod, <-Z.add_mod by lia. done.
Qed.

Lemma unpack_one n : - 2 ^ 31 <= n < 2 ^ 31 -> unpack_signum (packs [n]) = n.
Proof.
  intros H. rewrite unpack_packs. cbn [foldr]. rewrite Z.add_0_r. unfold to_int.
  destruct (Z.ltb_spec n 0).
  - replace (n mod 2 ^ 32) with (n + 2 ^ 32); [|apply (Z.mod_unique_pos _ _ (-1)); lia].
    destruct (Z.ltb_spec (n + 2 ^ 32) (2 ^ 31)); lia.
  - rewrite Z.mod_small by lia. destruct (Z.ltb_spec n (2 ^ 31)); lia.
Qed.

Section Invariant.
Context (signals : list Z).

(** Signals that have a handler, the one the process is killed with apart. *)
Definition caught (s : state) (n : Z) : Prop :=
  n ∈ handlers s \/ match thread s with T_kill _ | T_pause => cleaned s = [n] | _ => False end.

Definition handlers_inv (s : state) : Prop :=
  match main s with
  | M_sigaction rest => exists l, signals = l ++ rest /\ Forall (caught s) l
  | M_thread => Forall (caught s) signals
  | _ => thread s <> T_none -> Forall (caught s) signals
  end.

(** How the process may die. *)
Definition died_inv (s : state) : Prop :=
  match died s with Some (Killed n) => cleaned s = [n] \/ (thread s = T_none /\ cleaned s = []) | _ => True end.

Definition inv (s : state) : Prop :=
  thread_inv s /\ main_inv s /\ counter_inv s /\ handlers_inv s /\ died_inv s /\ Forall (fun n => n ∈ signals) (accepted s).

Lemma signals_start_inv old : inv (start old).
Proof. split_and!; cbn; done. Qed.

Ltac unfold_inv :=
  unfold thread_inv, main_inv, counter_inv, handlers_inv, died_inv, number_of, over, caught in *; cbn in *; destruct_and?; subst; cbn in *; split_and!.

Lemma inv_main ok s s' : died s = None -> inv s -> main_step signals ok s = Some s' -> inv s'.
Proof.
  destruct s as [m t se ee h th di cl ac po co]. intros Hd (Ht & Hm & Hc & Hh & Hi & Ha) H. cbn in Hd. subst di.
  unfold main_step in H. cbn in H, Hm. unfold inv. cbn in Ha.
  destruct m as [| |[|n rest]| | | | | | |]; destruct ok; try done; try (destruct t; try done; []); simplify_option_eq.
  all: unfold_inv; try done; try naive_solver.
  - by exists [].
  - destruct Hh as (l & -> & Hl). by rewrite app_nil_r.
  - destruct Hh as (l & -> & Hl). exists (l ++ [n]). rewrite <-app_assoc. split; [done|]. apply Forall_app. split.
    + eapply Forall_impl; [exact Hl|]. cbn. intros x [Hx|[]]. left. by right.
    + apply Forall_singleton. left. by left.
Qed.

Ltac solve_inv := unfold_inv; try done; try (match goal with H : _ <> T_none -> _ |- _ => intros _; by apply H end).

Lemma running_main s : main_inv s -> running (thread s) = true -> main s = M_main_func \/ main s = M_write \/ main s = M_join.
Proof. unfold main_inv, over. destruct (main s); auto; intros H Hr; destruct (thread s); naive_solver. Qed.

Lemma counter_whole s c : counter_inv s -> consumed s = [] -> signal_eventfd s = Some c -> c = packs (accepted s).
Proof. unfold counter_inv. intros H Hc E. rewrite E, Hc in H. cbn in H. by destruct H as (l & -> & ->). Qed.

Lemma inv_poll answer s s' : died s = None -> thread s = T_poll -> inv s -> poll_step answer s = Some s' -> inv s'.
Proof.
  destruct s as [m t se ee h th di cl ac po co]. intros Hd Ht0 (Ht & Hm & Hc & Hh & Hi & Ha) H. cbn in Hd, Ht0, Ha. subst di t.
  pose proof (running_main _ Hm eq_refl) as Hr. cbn in Hr. unfold inv. destruct answer; cbn in H; simplify_option_eq.
  2, 3: destruct_or!; subst; solve_inv.
  destruct se as [c|]; [|destruct_or!; subst; cbn in Hm; destruct Hm as (_ & [? E] & _); discriminate]. cbn in H.
  assert (c = packs ac) as -> by (apply (counter_whole _ _ Hc); [by destruct Ht as (_ & _ & ?)|done]).
  destruct (Z.ltb_spec 0 (packs ac)).
  - injection H as <-. assert (ac <> []) by by intros ->. destruct_or!; subst; solve_inv.
  - assert (ac = []) as -> by (destruct ac as [|n l]; [done|]; pose proof (packs_pos (n :: l) ltac:(done)); lia).
    destruct_or!; subst; cbn in Hm; destruct Hm as (? & ? & ->); simplify_option_eq; solve_inv.
Qed.

Lemma caught_default h n l : Forall (fun x => x ∈ h \/ False) l ->
  Forall (fun x => x ∈ List.filter (fun y => negb (y =? n)) h \/ [n] = [x]) l.
Proof.
  intros H. eapply Forall_impl; [exact H|]. cbn. intros x [Hx|[]]. destruct (Z.eqb_spec x n) as [->|Hn]; [by right|]. left.
  apply list_elem_of_In, filter_In. split; [by apply list_elem_of_In|]. by rewrite (proj2 (Z.eqb_neq x n) Hn).
Qed.

Lemma inv_thread answer s s' : died s = None -> inv s -> thread_step answer s = Some s' -> inv s'.
Proof.
  intros Hd H0 H. destruct (decide (thread s = T_poll)) as [E|E].
  { unfold thread_step in H. rewrite E in H. by eapply inv_poll. }
  destruct s as [m t se ee h th di cl ac po co]. destruct H0 as (Ht & Hm & Hc & Hh & Hi & Ha). cbn in Hd, Ha, E. subst di.
  unfold thread_step in H. cbn in H. destruct t; destruct answer; try done.
  1: destruct se as [c|]; [|done].
  all: pose proof (running_main _ Hm eq_refl) as Hr; cbn in Hr; unfold inv; cbn in H; simplify_option_eq.
  - assert (c = packs ac) as -> by (apply (counter_whole _ _ Hc); [by destruct Ht as (_ & _ & ?)|done]).
    destruct_or!; subst; solve_inv; try (by exists []; rewrite app_nil_r).
  - destruct_or!; subst; solve_inv.
  - destruct_or!; subst; unfold_inv; try done; intros _; by apply caught_default, Hh.
  - destruct (terminates signum) eqn:Hs; destruct_or!; subst; solve_inv; naive_solver.
Qed.

Lemma inv_accept n c s : n ∈ signals -> signal_eventfd s = Some c -> inv s ->
  inv (with_signal_eventfd (Some (c + pack_signum n)) (accepts n s)).
Proof.
  intros Hn E (Ht & Hm & Hc & Hh & Hi & Ha). unfold inv. split_and!.
  - unfold thread_inv in *. cbn. destruct (thread s); try done. destruct Ht as (_ & ?). split; [by destruct (accepted s)|done].
  - unfold main_inv in *. cbn. destruct (main s); rewrite E in Hm; try naive_solver.
  - unfold counter_inv in *. rewrite E in Hc. cbn. destruct Hc as (l & -> & ->). exists (l ++ [n]). by rewrite app_assoc, packs_snoc.
  - exact Hh.
  - exact Hi.
  - cbn. apply Forall_app. split; [done|]. by apply Forall_singleton.
Qed.

Lemma all_caught s : main_inv s -> handlers_inv s -> thread s <> T_none -> Forall (caught s) signals.
Proof.
  unfold main_inv, handlers_inv. intros Hm Hh Hn. destruct (main s); try (by apply Hh); by destruct Hm.
Qed.

Lemma inv_killed n s : n ∈ signals -> n ∉ handlers s -> inv s -> inv (dies (Killed n) s).
Proof.
  intros Hn Hh' (Ht & Hm & Hc & Hh & Hi & Ha). unfold inv. split_and!; try done.
  - unfold thread_inv in *. cbn. destruct (thread s); naive_solver.
  - unfold died_inv. cbn. destruct (decide (thread s = T_none)) as [E|E].
    + right. unfold thread_inv in Ht. rewrite E in Ht. naive_solver.
    + left. pose proof (proj1 (Forall_forall _ _) (all_caught _ Hm Hh E) n Hn) as [?|H]; [done|]. by destruct (thread s).
Qed.

Lemma inv_signal n s s' : inv s -> signal_arrives signals n s = Some s' -> inv s'.
Proof.
  intros H0 H. unfold signal_arrives in H. destruct (existsb (Z.eqb n) signals) eqn:Hn; [|done]. cbn [negb] in H.
  apply existsb_exists in Hn as (n' & Hin & ->%Z.eqb_eq). apply list_elem_of_In in Hin.
  destruct (existsb (Z.eqb n') (handlers s)) eqn:Hh'; injection H as <-.
  - unfold signal_handler. destruct (signal_eventfd s) as [c|] eqn:E; [|done]. cbn. unfold eventfd_write.
    destruct (c + pack_signum n' <=? 2 ^ 64 - 2); [by apply inv_accept|done].
  - destruct (terminates n'); [|done]. apply inv_killed; [done| |done]. intros Hx. rewrite <-not_true_iff_false in Hh'. apply Hh'.
    apply existsb_exists. exists n'. split; [by apply list_elem_of_In|apply Z.eqb_refl].
Qed.

Lemma inv_step e s s' : inv s -> step signals e s = Some s' -> inv s'.
Proof.
  unfold step. intros Hi H. destruct (died s) eqn:Hd; [done|]. destruct e; [by eapply inv_main|by eapply inv_thread|by eapply inv_signal].
Qed.

Lemma inv_run es s s' : inv s -> run signals es s = Some s' -> inv s'.
Proof.
  revert s. induction es as [|e es IH]; intros s Hi H; cbn in H; [by injection H as <-|].
  destruct (step signals e s) as [s1|] eqn:E; [|done]. cbn in H. eapply IH; [|exact H]. by eapply inv_step.
Qed.

(** ** Progress *)

(** Steps of the two threads that are not repetitions of an interrupted call. *)
Definition own (e : event) : bool :=
  match e with MainStep _ => true | ThreadStep Interrupted => false | ThreadStep _ => true | SignalArrives _ => false end.

Definition main_rank (m : main_at) : nat :=
  match m with
  | M_eventfd => length signals + 9 | M_eventfd_ended => length signals + 8 | M_sigaction rest => length rest + 7
  | M_thread => 6 | M_main_func => 5 | M_write => 4 | M_join => 3 | M_close_ended => 2 | M_close_signal => 1 | M_end => 0
  end.

Definition thread_rank (t : thread_at) : nat :=
  match t with T_none | T_poll => 5 | T_read => 4 | T_cleanup _ => 3 | T_default _ => 2 | T_kill _ => 1 | T_pause | T_finished => 0 end.

Definition rank (s : state) : nat := main_rank (main s) + thread_rank (thread s) + (if died s then 0 else 1).

Lemma rank_main ok s s' : inv s -> main_step signals ok s = Some s' -> (rank s' < rank s)%nat.
Proof.
  intros (_ & Hm & _) H. unfold rank, main_step, main_inv in *.
  destruct (main s) as [| |[|n rest]| | | | | | |] eqn:E; destruct ok; try done.
  all: try (destruct (thread s) eqn:Et; try done; []); simplify_option_eq; cbn; try lia.
  all: destruct (thread s); cbn; try lia; destruct Hm; done.
Qed.

Lemma rank_thread answer s s' : died s = None -> thread_step answer s = Some s' ->
  if own (ThreadStep answer) then (rank s' < rank s)%nat else s' = s.
Proof.
  intros Hd H. unfold thread_step, poll_step in H. unfold rank. rewrite Hd.
  destruct (thread s) eqn:E; destruct answer; try done; simplify_option_eq; cbn; rewrite ?Hd; cbn; try lia; try done.
  all: repeat case_match; simplify_option_eq; cbn; rewrite ?Hd, ?E; cbn; lia.
Qed.

Lemma rank_signal n s s' : died s = None -> signal_arrives signals n s = Some s' -> (rank s' <= rank s)%nat.
Proof.
  intros Hd H. unfold signal_arrives, signal_handler in H. repeat case_match; simplify_eq; unfold rank; cbn; rewrite ?Hd; lia.
Qed.

Lemma own_steps_bounded es s s' : inv s -> run signals es s = Some s' -> (length (List.filter own es) + rank s' <= rank s)%nat.
Proof.
  revert s. induction es as [|e es IH]; intros s Hi H; cbn [run] in H; [injection H as <-; cbn; lia|].
  destruct (step signals e s) as [s1|] eqn:E; [|done]. specialize (IH s1 (inv_step _ _ _ Hi E) H). cbn [List.filter].
  unfold step in E. destruct (died s) eqn:Hd; [done|]. destruct e as [ok|answer|n].
  - apply rank_main in E; [|done]. cbn [own length]. lia.
  - apply rank_thread in E; [|done]. destruct (own _); [cbn [length]; lia|by subst s1].
  - apply rank_signal in E; [|done]. cbn [own]. lia.
Qed.

(** Where nothing but a signal can happen any more. *)
Lemma stuck_paused s : inv s -> died s = None -> (forall e, own e = true -> step signals e s = None) ->
  main s = M_end \/ thread s = T_pause.
Proof.
  intros (_ & Hm & _) Hd H. pose proof (H (MainStep true) eq_refl) as H1. pose proof (H (ThreadStep Ready) eq_refl) as H2.
  unfold step in H1, H2. rewrite Hd in H1, H2. unfold main_inv in Hm. unfold main_step in H1. unfold thread_step in H2.
  destruct (main s) as [| |[|n rest]| | | | | | |]; try done; [by destruct Hm as (_ & _ & E); rewrite E in H1| |by left].
  right. destruct Hm as (Ht & [c Hc] & He). unfold poll_step in H2. rewrite Hc, He in H2.
  destruct (thread s); try done. cbn in H2. by destruct (0 <? c).
Qed.

Lemma consumed_signals s : inv s -> thread s = T_pause -> Forall (fun n => n ∈ signals) (consumed s).
Proof.
  intros (_ & Hm & Hc & _ & _ & Ha) Ht. unfold counter_inv in Hc.
  assert (is_Some (signal_eventfd s)) as [c E].
  { pose proof (running_main _ Hm) as R. rewrite Ht in R. specialize (R eq_refl). unfold main_inv in Hm.
    destruct R as [R|[R|R]]; rewrite R in Hm; tauto. }
  rewrite E in Hc. destruct Hc as (l & Hl & _). rewrite Hl in Ha. by apply Forall_app in Ha as [? _].
Qed.

Lemma terminates_int n : terminates n = true -> - 2 ^ 31 <= n < 2 ^ 31.
Proof. unfold terminates. intros [[H1%Z.leb_le H2%Z.leb_le]%andb_true_iff _]%andb_true_iff. lia. Qed.

Lemma cleaned_number s : inv s ->
  cleaned s = [] \/ exists n, cleaned s = [n] /\ number_of s n /\ (main s = M_main_func \/ main s = M_write \/ main s = M_join).
Proof.
  intros (Ht & Hm & _). pose proof (running_main s Hm) as R. unfold thread_inv in Ht.
  destruct (thread s); try naive_solver.
Qed.
End Invariant.

(** C7: every run of [handle_signals_while_running], however its threads and the
    signals interleave and whichever system calls fail.  The threads take a
    number of steps bounded by the number of signals.  If it returns or throws
    then the cleanup was not called, its descriptors are closed, and no signal had
    come before the thread looked for one.  The cleanup is called once at most,
    while the function has not returned, with the sum of the numbers of the signals
    read, so with the signal itself if there was one only; the process is then
    killed with that number.  The threads do not block for ever unless two signals
    or more came whose numbers add up to one that does not terminate a process. *)
Theorem signals_handled signals old es s :
  Forall (fun n => terminates n = true) signals -> run signals es (start old) = Some s ->
  (length (List.filter own es) <= length signals + 15)%nat /\
  (main s = M_end -> cleaned s = [] /\ signal_eventfd s = None /\ ended_eventfd s = None /\
    (polled s = Some [] \/ (threw s = true /\ thread s = T_none))) /\
  (cleaned s = [] \/ exists n, cleaned s = [n] /\ consumed s <> [] /\ n = to_int (foldr Z.add 0 (consumed s) mod 2 ^ 32) /\
    (main s = M_main_func \/ main s = M_write \/ main s = M_join)) /\
  (forall n m, cleaned s = [n] -> consumed s = [m] -> - 2 ^ 31 <= m < 2 ^ 31 -> n = m) /\
  (forall n, died s = Some (Killed n) -> cleaned s = [n] \/ (thread s = T_none /\ cleaned s = [])) /\
  ((forall e, own e = true -> step signals e s = None) ->
    main s = M_end \/ is_Some (died s) \/ (exists n, cleaned s = [n] /\ terminates n = false /\ (2 <= length (consumed s))%nat)).
Proof.
  intros Hs H. pose proof (inv_run _ _ _ _ (signals_start_inv signals old) H) as Hi. pose proof (own_steps_bounded _ _ _ _ (signals_start_inv signals old) H) as Hb.
  pose proof (cleaned_number _ _ Hi) as Hn. split_and!.
  - unfold rank in Hb. cbn in Hb. lia.
  - intros E. destruct Hi as (Ht & Hm & _). unfold main_inv, over, thread_inv in *. rewrite E in Hm. destruct Hm as ([F|[F G]] & ? & ?);
      rewrite F in Ht; naive_solver.
  - destruct Hn as [?|(n & ? & [? Hn] & ?)]; [by left|right]. rewrite unpack_packs in Hn. eauto.
  - intros n m E1 E2 Hr. destruct Hn as [?|(n' & E & [_ ->] & _)]; [congruence|]. rewrite E1, E2 in E. injection E as ->. by apply unpack_one.
  - intros n E. destruct Hi as (_ & _ & _ & _ & Hd & _). unfold died_inv in Hd. by rewrite E in Hd.
  - intros Hst. destruct (died s) eqn:Hd; [right; left; done|]. destruct (stuck_paused _ _ Hi Hd Hst) as [|Hp]; [by left|]. right; right.
    pose proof (consumed_signals _ _ Hi Hp) as Hc. destruct Hi as (Ht & _). unfold thread_inv in Ht. rewrite Hp in Ht.
    destruct Ht as (n & [Hne Hx] & Hcl & Hterm). exists n. split_and!; [done|by apply Hterm|].
    destruct (consumed s) as [|m [|m' l]]; [done| |cbn; lia]. exfalso. apply Forall_cons in Hc as [Hc _].
    pose proof (proj1 (Forall_forall _ _) Hs m Hc) as Hm. rewrite (unpack_one m (terminates_int m Hm)) in Hx. subst n. specialize (Hterm Hd). cbn in Hm. congruence.
Qed.

(** *** Witness: SIGTERM comes while the function runs *)

Definition started : list event := repeat (MainStep true) 6.
Definition handling : list event := [ThreadStep Ready; ThreadStep Ready; ThreadStep Ready; ThreadStep Ready; ThreadStep Ready].

Lemma signals_handled_witness : exists s,
  run [2; 15] (started ++ [SignalArrives 15] ++ handling) (start []) = Some s /\ died s = Some (Killed 15) /\
  (cleaned s = [15] \/ (thread s = T_none /\ cleaned s = [])).
Proof.
  destruct (run [2; 15] (started ++ [SignalArrives 15] ++ handling) (start [])) as [s|] eqn:E; [|vm_compute in E; discriminate].
  exists s. split; [done|]. assert (died s = Some (Killed 15)) as Hd by (vm_compute in E; by injection E as <-). split; [done|].
  apply (signals_handled [2; 15] [] _ s ltac:(repeat constructor) E). exact Hd.
Defined.

(** ** What is not as documented *)

(** Two SIGINTs kill the process with SIGILL. *)
Lemma two_interrupts_kill_with_another_signal : exists s,
  run [2; 15] (started ++ [SignalArrives 2; SignalArrives 2] ++ handling) (start []) = Some s /\
  cleaned s = [4] /\ died s = Some (Killed 4).
Proof. eexists. split; [vm_compute; reflexivity|]. split; reflexivity. Qed.

(** SIGINT and SIGTERM add up to SIGCHLD: the process is not killed and waits for
    ever. *)
Lemma interrupt_and_termination_hang : exists s,
  run [2; 15] (started ++ [SignalArrives 2; SignalArrives 15] ++ handling ++ [MainStep true; MainStep true]) (start []) = Some s /\
  cleaned s = [17] /\ died s = None /\ main s = M_join /\ forall e, own e = true -> step [2; 15] e s = None.
Proof. eexists. split; [vm_compute; reflexivity|]. split_and!; try reflexivity. intros [[]|[]|n]; done. Qed.

(** A signal that comes after the thread looked does nothing, and nor does one
    after the return: the handler stays. *)
Lemma late_signals_ignored : exists s,
  run [2; 15] (started ++ [MainStep true; MainStep true; ThreadStep Ready; SignalArrives 15] ++ repeat (MainStep true) 3) (start []) = Some s /\
  main s = M_end /\ threw s = false /\ step [2; 15] (SignalArrives 15) s = Some s.
Proof. eexists. split; [vm_compute; reflexivity|]. split_and!; reflexivity. Qed.
