(* ===== verification/Compile.v ===== *)
(** * Compiling solutions and checkers

    [sim/compile.cc] and the part of [JudgeWorker] that comes before judging:
    loading a package from a directory or an archive, compiling the checker and
    the solution, loading and saving compiled programs, with
    [thread_fork_safe_copyat] of [file_manip.cc].  Files go through [FileIo.v],
    processes through [Process.v], archives through [Zip.v], and the compiler is
    run by [Spawner.run]; all of these kernels share one world. *)

From Stdlib Require Import ZArith Lia Ascii.
From S2P Require Import Prelude.
From S2P Require Import StdMap.
From S2P Require Import StringView.
From S2P Require Import StringTraits.
From S2P Require Import StringTransform.
From S2P Require Import Os.
From S2P Require Import Spawner.
From S2P Require Import Zip.
From S2P Require Import ProcStat.
From S2P Require Import Process.
From S2P Require Import Package.
From S2P Require Import Simfile.
From S2P Require Import Judge.
From S2P Require Import FileIo.
From S2P Require Import FileManip.
Local Open Scope Z_scope.

Definition CHECKER_FILENAME : str := lit "checker".
Definition SOLUTION_FILENAME : str := lit "solution".

(** Requests of [thread_fork_safe_copyat]: [WaitExit] answers [si_code] and
    [si_status]. *)
Inductive csys : Type -> Type :=
| Eventfd : csys (Z + Z)
| Fork : csys (Z + Z)
| WaitExit (pid : Z) : csys (Z + Z * Z)
| Stat (path : str) : csys (Z + Z)
| Access (path : str) : csys (Z + unit).

(** The two subclasses of [PackageLoader]. *)
Inductive PackageLoader :=
| DirPackageLoader (pkg_root_ : str)
| ZipPackageLoader (zip_ : Z) (pkg_main_dir_ : str).

(** The fields of [JudgeWorker]; [tmp_path] is [tmp_dir.path()]. *)
Record worker := mkWorker { tmp_path : str; sf : Simfile.Simfile; package_loader : option PackageLoader }.

Section Compile.
Context {W : Type} `{StdSort}.
Variable kernel : forall A, fsys A -> W -> W * A.
Variable pkernel : forall A, Process.psys A -> W -> W * A.
Variable ckernel : forall A, csys A -> W -> W * A.
Variable libzip : forall A, Zip.zsys A -> W -> W * A.
(** What [Spawner::run] asks of the system when it runs [exec] with [args]. *)
Variable okernel : str -> list str -> forall A, Os.sys A -> W -> W * A.
Variable strsignal : Z -> str.
Variable get_random_letter : stm (io W) ascii.
(** The text of [default_checker.c], which the build embeds. *)
Variable default_checker_c : str.
Arguments ckernel {A}.

Abbreviation M := (stm (io W)).

Definition cask {A} (c : csys (Z + A)) : M (option A) := fun s =>
  match ckernel c (world s) with
  | (w, inl e) => (mkIo e w, Ok None)
  | (w, inr a) => (mkIo (errno s) w, Ok (Some a))
  end.

(** ** thread_fork_safe_copyat *)

Definition NUM_THREADS_FID : nat := 19.

Definition current_process_threads_num (fuel : nat) : M Z :=
  pid ← Process.ask pkernel Process.Getpid;
  contents ← get_file_contents_path kernel fuel (lit "/proc/" ++ to_string pid ++ lit "/stat");
  fields ← lift (ProcStat.ProcStat.new contents);
  f ← lift (ProcStat.ProcStat.field fields NUM_THREADS_FID);
  lift (get_or_ub (str2num StringTransform.uint32 f)).

(** What the child leaves: its exit status, after it has written [errno] to the
    event descriptor. *)
Definition little_endian (e : Z) : str := (fun k => char_of (Z.shiftr e (8 * Z.of_nat k))) <$> seq 0 8.

Definition copy_child (fuel : nat) (efd src_dirfd : Z) (src : str) (dest_dirfd : Z) (dest : str) (mode : Z) : M Z :=
  r ← copyat_mode kernel get_random_letter fuel src_dirfd src dest_dirfd dest mode;
  if negb (r =? 0) then
    e ← get_errno;
    n ← perform kernel (Write efd (little_endian e));
    if bool_decide (n = Some 8) then mret 1 else mret 2
  else mret 0.

(** The parent. *)
Definition thread_fork_safe_copyat (fuel : nat) (src_dirfd : Z) (src : str) (dest_dirfd : Z) (dest : str) (mode : Z) : M unit :=
  n ← current_process_threads_num fuel;
  if n =? 1 then
    r ← copyat_mode kernel get_random_letter fuel src_dirfd src dest_dirfd dest mode;
    if negb (r =? 0) then throw_error (lit "copyat()") else mret tt
  else
    efd ← cask Eventfd;
    match efd with
    | None => throw_error (lit "eventfd()")
    | Some efd =>
        with_fd kernel efd
          (child ← cask Fork;
           match child with
           | None => throw_error (lit "fork()")
           | Some child =>
               si ← cask (WaitExit child);
               match si with
               | None => throw_error (lit "waitid()")
               | Some (code, status) =>
                   if negb (code =? Os.CLD_EXITED) || negb (Z.lor status 1 =? 1) then
                     throw_error (lit "copying within child process failed")
                   else if status =? 0 then mret tt
                   else
                     data ← perform kernel (FileIo.Read efd 8);
                     match data with
                     | Some data => if len data =? 8 then throw_error (lit "copy()") else throw_error (lit "read()")
                     | None => throw_error (lit "read()")
                     end
               end
           end)
    end.

Definition thread_fork_safe_copy (fuel : nat) (src dest : str) (mode : Z) : M unit :=
  thread_fork_safe_copyat fuel AT_FDCWD src AT_FDCWD dest mode.

(** ** compile *)

Definition run_compiler (fuel : nat) (exec : str) (args : list str) (opts : Spawner.Options) : M Spawner.ExitStat := fun s =>
  let '(p, r) := Spawner.run (okernel exec args) strsignal fuel opts (Os.mkProc tt [] (world s) []) in
  (mkIo (errno s) (Os.world p), r).

Definition proot_args (proot_path dir_to_chdir : str) : list str :=
  match proot_path with
  | [] => []
  | _ => [proot_path; lit "-v"; lit "-1"; lit "-r"; dir_to_chdir; lit "-b"; lit "/usr"; lit "-b"; lit "/bin"; lit "-b"; lit "/lib";
          lit "-b"; lit "/lib32"; lit "-b"; lit "/libx32"; lit "-b"; lit "/lib64"; lit "-b"; lit "/etc/alternatives/";
          lit "-b"; lit "/etc/fpc.cfg"]
  end.

(** [size_t] to [off64_t]. *)
Definition to_off64 (n : Z) : Z := if n <? 2 ^ 63 then n else n - 2 ^ 64.

Definition TIME_LIMIT_EXCEEDED : str := lit "Compilation time limit exceeded".

(** What [*c_errors] becomes; [cef] is -1 when nothing is asked for. *)
Definition run_and_report (fuel : nat) (cef : Z) (args : list str) (time_limit : option Z) (want_errors : bool)
    (c_errors_max_len : Z) (working_dir : str) : M (Z * str) :=
  exec ← lift (get_or_ub (args !! 0%nat));
  es ← run_compiler fuel exec args (Spawner.mkOptions (-1) cef cef time_limit (Some (2 ^ 30)) None working_dir);
  if negb (Spawner.es_code es =? Os.CLD_EXITED) || negb (Spawner.es_status es =? 0) then
    if want_errors then
      errors ← (if match time_limit with Some tl => tl <=? Spawner.es_runtime es | None => false end then mret TIME_LIMIT_EXCEEDED
                else get_file_contents_range kernel fuel cef 0 (to_off64 c_errors_max_len));
      mret (2, errors)
    else mret (2, [])
  else mret (0, []).

(** [c_errors]: the string pointed to, if any. *)
Definition compile (fuel : nat) (dir_to_chdir : str) (compile_command : list str) (time_limit : option Z) (c_errors : option str)
    (c_errors_max_len : Z) (proot_path : str) : M (Z * option str) :=
  if match time_limit with Some tl => tl <=? 0 | None => false end then throw_error (lit "If set, time_limit has to be greater than 0")
  else
    let args := proot_args proot_path dir_to_chdir ++ compile_command in
    let working_dir := match proot_path with [] => dir_to_chdir | _ => lit "." end in
    match c_errors with
    | Some _ =>
        cef ← Process.open_unlinked_tmp_file kernel pkernel [O_APPEND; O_CLOEXEC];
        match cef with
        | None => throw_error (lit "Failed to open 'compile_errors'")
        | Some cef =>
            '(rc, errors) ← with_fd kernel cef (run_and_report fuel cef args time_limit true c_errors_max_len working_dir);
            mret (rc, Some errors)
        end
    | None =>
        '(rc, _) ← run_and_report fuel (-1) args time_limit false c_errors_max_len working_dir;
        mret (rc, None)
    end.

(** ** Package loaders *)

Definition new_dir_package_loader (pkg_path : str) : PackageLoader :=
  DirPackageLoader (match last pkg_path with
                    | Some c => if (c =c "/") then pkg_path else pkg_path ++ lit "/"
                    | None => pkg_path
                    end).

(** [zip_package_main_dir] as it reads the names. *)
Fixpoint main_dir_of_zip (n : nat) (zip i : Z) (res : str) : M str :=
  match n with
  | O => mret res
  | S n' =>
      epath ← Zip.get_name libzip zip i 0;
      unsafe ← lift (Package.unsafe_entry epath);
      if (unsafe : bool) then lift Package.unsafe_archive
      else if SV.empty res then
        match Package.first_dir epath with
        | None => mret []
        | Some d => main_dir_of_zip n' zip (i + 1) d
        end
      else if negb (has_prefix epath res) then mret []
      else main_dir_of_zip n' zip (i + 1) res
  end.

Definition ZIP_RDONLY : Z := 16.

(** Left by an exception, the constructor destroys [zip_]. *)
Definition or_discard {A} (zip : Z) (m : M A) : M A := fun s =>
  match m s with
  | (s1, Throw e) => let (s2, _) := Zip.discard libzip (Some zip) s1 in (s2, Throw e)
  | out => out
  end.

Definition new_zip_package_loader (pkg_path : str) : M PackageLoader :=
  zip ← Zip.new_zip_file libzip pkg_path ZIP_RDONLY;
  eno ← Zip.entries_no libzip zip 0;
  main_dir ← or_discard zip (main_dir_of_zip (Z.to_nat eno) zip 0 []);
  mret (ZipPackageLoader zip main_dir).

Definition dir_load_into_dest_file (fuel : nat) (pkg_root_ path dest : str) : M str :=
  r ← copyat kernel get_random_letter fuel AT_FDCWD (pkg_root_ ++ path) AT_FDCWD dest;
  if negb (r =? 0) then throw_error (lit "copy()") else mret dest.

Definition dir_load_as_file (pkg_root_ path : str) : M str :=
  r ← cask (Access (pkg_root_ ++ path));
  match r with
  | None => throw_error (lit "load_as_file() - Such file does not exist")
  | Some _ => mret (pkg_root_ ++ path)
  end.

Definition dir_load_as_str (fuel : nat) (pkg_root_ path : str) : M str := get_file_contents_path kernel fuel (pkg_root_ ++ path).

Definition as_pkg_path (pkg_main_dir_ path : str) : str := pkg_main_dir_ ++ path.

Definition zip_load_into_dest_file (fuel : nat) (zip_ : Z) (pkg_main_dir_ path dest : str) : M str :=
  index ← Zip.get_index libzip zip_ (as_pkg_path pkg_main_dir_ path);
  _ ← Zip.extract_to_file kernel libzip fuel zip_ index dest (Some Process.S_0600);
  mret dest.

Definition zip_load_as_file (fuel : nat) (tmp : str) (zip_ : Z) (pkg_main_dir_ path hint_name : str) : M str :=
  let dest := tmp ++ lit "from_zip_pgk:" ++ hint_name in
  index ← Zip.get_index libzip zip_ (as_pkg_path pkg_main_dir_ path);
  _ ← Zip.extract_to_file kernel libzip fuel zip_ index dest (Some Process.S_0600);
  mret dest.

Definition zip_load_as_str (fuel : nat) (zip_ : Z) (pkg_main_dir_ path : str) : M str :=
  index ← Zip.get_index libzip zip_ (as_pkg_path pkg_main_dir_ path);
  Zip.extract_to_str libzip fuel zip_ index.

(** The virtual functions. *)
Definition load_into_dest_file (fuel : nat) (l : PackageLoader) (path dest : str) : M str :=
  match l with
  | DirPackageLoader root => dir_load_into_dest_file fuel root path dest
  | ZipPackageLoader zip main_dir => zip_load_into_dest_file fuel zip main_dir path dest
  end.

Definition load_as_file (fuel : nat) (tmp : str) (l : PackageLoader) (path hint_name : str) : M str :=
  match l with
  | DirPackageLoader root => dir_load_as_file root path
  | ZipPackageLoader zip main_dir => zip_load_as_file fuel tmp zip main_dir path hint_name
  end.

Definition load_as_str (fuel : nat) (l : PackageLoader) (path : str) : M str :=
  match l with
  | DirPackageLoader root => dir_load_as_str fuel root path
  | ZipPackageLoader zip main_dir => zip_load_as_str fuel zip main_dir path
  end.

Definition is_directory (file : str) : M bool :=
  r ← cask (Stat file); mret (match r with Some mode => S_ISDIR mode | None => false end).

(** ** JudgeWorker *)

Record job := mkJob { j_io : io W; j_worker : worker }.
Abbreviation JM := (stm job).

Definition on_io {A} (m : M A) : JM A := fun s => let (i, r) := m (j_io s) in (mkJob i (j_worker s), r).
Definition set_worker (f : worker -> worker) : JM unit := modify (fun s => mkJob (j_io s) (f (j_worker s))).
Definition get_loader : JM PackageLoader := w ← gets j_worker; lift (get_or_ub (package_loader w)).
Definition on_sf (m : stm Simfile.Simfile unit) : JM unit := fun s =>
  let (f, r) := m (sf (j_worker s)) in
  (mkJob (j_io s) (mkWorker (tmp_path (j_worker s)) f (package_loader (j_worker s))), r).

Definition load_package (fuel : nat) (package_path : str) (simfile : option str) : JM unit :=
  dir ← on_io (is_directory package_path);
  loader ← (if (dir : bool) then mret (new_dir_package_loader package_path) else on_io (new_zip_package_loader package_path));
  _ ← set_worker (fun w => mkWorker (tmp_path w) (sf w) (Some loader));
  contents ← (match simfile with Some c => mret c | None => on_io (load_as_str fuel loader (lit "Simfile")) end);
  f ← lift (Simfile.make_simfile contents);
  _ ← set_worker (fun w => mkWorker (tmp_path w) f (package_loader w));
  _ ← on_sf Simfile.load_tests_with_files;
  on_sf Simfile.load_checker.

Definition compile_impl (fuel : nat) (source : str) (lang : Judge.SolutionLanguage) (time_limit : option Z) (c_errors : option str)
    (c_errors_max_len : Z) (proot_path compilation_source_basename exec_dest_filename : str) : JM (Z * option str) :=
  w ← gets j_worker;
  let compilation_dir := tmp_path w ++ lit "compilation/" in
  r ← on_io (remove_r kernel fuel compilation_dir);
  e ← on_io get_errno;
  if negb (r =? 0) && negb (e =? Process.ENOENT) then throw_error (lit "remove_r()")
  else
    r ← on_io (rc_of kernel (Mkdirat AT_FDCWD compilation_dir S_0755));
    if negb (r =? 0) then throw_error (lit "mkdir()")
    else
      src_filename ← lift (Judge.source_filename lang compilation_source_basename);
      r ← on_io (copyat kernel get_random_letter fuel AT_FDCWD source AT_FDCWD (compilation_dir ++ src_filename));
      if negb (r =? 0) then throw_error (lit "copy()")
      else
        command ← lift (Judge.compile_command lang src_filename exec_dest_filename);
        '(rc, errors) ← on_io (compile fuel compilation_dir command time_limit c_errors c_errors_max_len proot_path);
        if rc =? 0 then
          r ← on_io (move kernel get_random_letter fuel (compilation_dir ++ exec_dest_filename) (tmp_path w ++ exec_dest_filename) true);
          if negb (r =? 0) then throw_error (lit "move()") else mret (rc, errors)
        else mret (rc, errors).

Definition compile_checker (fuel : nat) (time_limit : option Z) (c_errors : option str) (c_errors_max_len : Z) (proot_path : str) : JM (Z * option str) :=
  w ← gets j_worker;
  '(path, lang) ← (match Simfile.checker (sf w) with
    | Some checker =>
        l ← get_loader;
        path ← on_io (load_as_file fuel (tmp_path w) l checker (lit "checker"));
        mret (path, Judge.filename_to_lang checker)
    | None =>
        let path := tmp_path w ++ lit "default_checker.c" in
        _ ← on_io (put_file_contents kernel fuel path default_checker_c 420);
        mret (path, Judge.C11)
    end);
  compile_impl fuel path lang time_limit c_errors c_errors_max_len proot_path (lit "checker") CHECKER_FILENAME.

Definition compile_solution (fuel : nat) (source : str) (lang : Judge.SolutionLanguage) (time_limit : option Z) (c_errors : option str)
    (c_errors_max_len : Z) (proot_path : str) : JM (Z * option str) :=
  compile_impl fuel source lang time_limit c_errors c_errors_max_len proot_path (lit "source") SOLUTION_FILENAME.

Definition compile_solution_from_package (fuel : nat) (source : str) (lang : Judge.SolutionLanguage) (time_limit : option Z)
    (c_errors : option str) (c_errors_max_len : Z) (proot_path : str) : JM (Z * option str) :=
  w ← gets j_worker;
  l ← get_loader;
  solution_path ← on_io (load_as_file fuel (tmp_path w) l source (lit "source"));
  compile_impl fuel solution_path lang time_limit c_errors c_errors_max_len proot_path (lit "source") SOLUTION_FILENAME.

Definition load_compiled (fuel : nat) (compiled filename : str) : JM unit :=
  w ← gets j_worker; on_io (thread_fork_safe_copy fuel compiled (tmp_path w ++ filename) S_0755).

Definition load_compiled_checker (fuel : nat) (compiled_checker : str) : JM unit := load_compiled fuel compiled_checker CHECKER_FILENAME.
Definition load_compiled_solution (fuel : nat) (compiled_solution : str) : JM unit := load_compiled fuel compiled_solution SOLUTION_FILENAME.

(** [copy_fn] is [copy] unless the caller gives another function. *)
Definition save_compiled (fuel : nat) (filename destination : str) : JM unit :=
  w ← gets j_worker;
  r ← on_io (copyat_mode kernel get_random_letter fuel AT_FDCWD (tmp_path w ++ filename) AT_FDCWD destination S_0755);
  if negb (r =? 0) then throw_error (lit "copy()") else mret tt.

Definition save_compiled_checker (fuel : nat) (destination : str) : JM unit := save_compiled fuel CHECKER_FILENAME destination.
Definition save_compiled_solution (fuel : nat) (destination : str) : JM unit := save_compiled fuel SOLUTION_FILENAME destination.

End Compile.
