(* ===== verification/CompileProofs.v ===== *)
(** * What compiling reports

    The result of [sim::compile] and the main directory of an archive as the
    loader finds it. *)

From Stdlib Require Import ZArith Lia Ascii.
From S2P Require Import Prelude.
From S2P Require Import StdMap.
From S2P Require Import StringView.
From S2P Require Import StringTraits.
From S2P Require Import Os.
From S2P Require Import Spawner.
From S2P Require Import Zip.
From S2P Require Import Process.
From S2P Require Import Package.
From S2P Require Import FileIo.
From S2P Require Import FileManip.
From S2P Require Import Compile.
Local Open Scope Z_scope.

Section Reports.
Context {W : Type} (kernel : forall A, fsys A -> W -> W * A) (pkernel : forall A, psys A -> W -> W * A)
  (okernel : str -> list str -> forall A, Os.sys A -> W -> W * A) (strsignal : Z -> str).

(** [read(2)] gives at most as much as it is asked for. *)
Hypothesis read_at_most : forall fd n w w' data, kernel _ (FileIo.Read fd n) w = (w', inr data) -> len data <= n.

Lemma contents_loop_length fd : forall fuel bytes res s s' r, 0 <= bytes -> contents_loop kernel fuel fd bytes res s = (s', Ok r) ->
  len r <= len res + bytes.
Proof.
  induction fuel as [|fuel IH]; intros bytes res s s' r Hb; [done|]. cbn [contents_loop]. destruct (Z.ltb_spec 0 bytes) as [Hlt|Hge].
  2: { intros [= _ <-]. lia. }
  unfold mbind at 1, stm_bind at 1. unfold perform at 1. destruct (kernel _ (FileIo.Read fd (Z.min BUFF_SIZE bytes)) (FileIo.world s)) as [w [e|data]] eqn:E.
  - unfold mbind, stm_bind, interrupted, gets. cbn [errno]. destruct (e =? FileIo.EINTR); [by apply IH|done].
  - apply read_at_most in E. destruct data as [|x data]; [intros [= _ <-]; lia|]. intros Hr.
    apply IH in Hr; [|lia]. unfold len in *. rewrite length_app in Hr. lia.
Qed.

Lemma range_length fuel fd end_ s s' r : 0 <= end_ -> get_file_contents_range kernel fuel fd 0 end_ s = (s', Ok r) -> len r <= end_.
Proof.
  intros He. unfold get_file_contents_range. unfold mbind at 1, stm_bind at 1. unfold perform at 1.
  destruct (kernel _ (FileIo.Lseek fd 0 SEEK_END) (FileIo.world s)) as [w o]. change (0 <? 0) with false. cbv iota.
  set (r0 := match o with inl e => (mkIo e w, Ok None) | inr a => (mkIo (errno s) w, Ok (Some a)) end).
  assert (exists s1 x, r0 = (s1, Ok x)) as (s1 & x & ->) by (unfold r0; destruct o; eauto). cbv beta iota.
  set (size := match x with Some y => y | None => -1 end).
  destruct (size =? -1) eqn:Hs; cbn [when]; [done|]. unfold mbind at 1, stm_bind at 1, mret, stm_ret.
  destruct (Z.ltb_spec size 0) as [Hlt|Hge]; [intros [= _ <-]; unfold len; cbn; lia|].
  set (end1 := if (size <? end_) || (end_ <? 0) then size else end_). set (end2 := if end1 <? 0 then 0 else end1).
  assert (0 <= end2 <= end_) as Hend.
  { unfold end2, end1. destruct (Z.ltb_spec size end_), (Z.ltb_spec end_ 0); cbn [orb]; try lia; match goal with |- context [?a <? 0] => destruct (Z.ltb_spec a 0) end; lia. }
  unfold mbind at 1, stm_bind at 1. destruct (perform kernel (FileIo.Lseek fd 0 SEEK_SET) s1) as [s2 [y|e| |]]; try done.
  unfold mbind, stm_bind. destruct (negb (bool_decide (y = Some 0))); cbn [when]; [done|]. intros Hr.
  apply contents_loop_length in Hr; [|lia]. unfold len at 2 in Hr. cbn [length] in Hr. lia.
Qed.

Lemma with_fd_ok {A} fd (m : stm (io W) A) s s' r : with_fd kernel fd m s = (s', Ok r) -> exists s1, m s = (s1, Ok r).
Proof.
  unfold with_fd. destruct (m s) as [s1 [a|e| |]]; try (destruct (perform kernel (FileIo.Close fd) s1)); intros [=]; subst; eauto.
Qed.

(** The compiler was run with [args] in [dir], within the limits. *)
Definition compiler_ran (fuel : nat) (args : list str) (time_limit : option Z) (dir : str) (es : ExitStat) : Prop :=
  exists exec cef s1 s2, args !! 0%nat = Some exec /\
    run_compiler okernel strsignal fuel exec args (mkOptions (-1) cef cef time_limit (Some (2 ^ 30)) None dir) s1 = (s2, Ok es).

Definition succeeded (es : ExitStat) : Prop := es_code es = CLD_EXITED /\ es_status es = 0.

Definition reported (time_limit : option Z) (max : Z) (es : ExitStat) (rc : Z) (errors : str) : Prop :=
  rc = 0 /\ succeeded es /\ errors = [] \/
  rc = 2 /\ ~ succeeded es /\
    (errors = TIME_LIMIT_EXCEEDED /\ (exists tl, time_limit = Some tl /\ tl <= es_runtime es) \/ len errors <= max).

Lemma run_and_report_spec fuel cef args tl want max dir s s' rc errors : 0 <= max < 2 ^ 63 ->
  run_and_report kernel okernel strsignal fuel cef args tl want max dir s = (s', Ok (rc, errors)) ->
  exists es, compiler_ran fuel args tl dir es /\ reported tl max es rc errors.
Proof.
  intros Hmax. unfold run_and_report. destruct (args !! 0%nat) as [exec|] eqn:Ha; [|done]. unfold mbind at 1, stm_bind at 1. cbn [get_or_ub lift].
  unfold mbind at 1, stm_bind at 1.
  match goal with |- context [run_compiler ?a ?b ?c ?d ?e ?f ?g] => destruct (run_compiler a b c d e f g) as [s1 [es|e'| |]] eqn:Er end; try done.
  intros H. exists es. split; [exists exec, cef, s, s1; split; [done|exact Er]|]. revert H.
  destruct (negb (es_code es =? CLD_EXITED) || negb (es_status es =? 0)) eqn:Hx.
  - assert (~ succeeded es) as Hns.
    { intros [H1 H2]. rewrite H1, H2, !Z.eqb_refl in Hx. done. }
    destruct want; [|intros [= _ <- <-]; right; split_and!; [done|done|right; unfold len; cbn; lia]].
    unfold mbind, stm_bind. destruct (match tl with Some t => t <=? es_runtime es | None => false end) eqn:Ht.
    + intros [= _ <- <-]. right. split_and!; [done|done|]. left. split; [done|]. destruct tl as [t|]; [|done]. exists t. split; [done|by apply Z.leb_le].
    + destruct (get_file_contents_range kernel fuel cef 0 (to_off64 max) s1) as [s2 [r|e| |]] eqn:Eg; try done. intros [= _ <- <-].
      right. split_and!; [done|done|]. right. unfold to_off64 in Eg. destruct (Z.ltb_spec max (2 ^ 63)); [|lia]. apply range_length in Eg; [done|lia].
  - apply orb_false_iff in Hx as [H1 H2]. apply negb_false_iff in H1, H2. apply Z.eqb_eq in H1, H2. intros [= _ <- <-]. by left.
Qed.

(** [compile], when it returns: the compiler was run with a positive time limit
    (if any) in the directory it has to be run in; the result is 0 and the text of
    errors empty exactly when it exited with 0, otherwise the result is 2 and the
    text is at most as long as asked for, or says that the time limit was
    exceeded. *)
Theorem compile_reports fuel dir command tl c_errors max proot s s' rc errors : 0 <= max < 2 ^ 63 ->
  compile kernel pkernel okernel strsignal fuel dir command tl c_errors max proot s = (s', Ok (rc, errors)) ->
  (forall t, tl = Some t -> 0 < t) /\ (is_Some errors <-> is_Some c_errors) /\
  exists es, compiler_ran fuel (proot_args proot dir ++ command) tl (match proot with [] => dir | _ => lit "." end) es /\
    reported tl max es rc (default [] errors).
Proof.
  intros Hmax. unfold compile. destruct (match tl with Some t => t <=? 0 | None => false end) eqn:Ht; [done|].
  assert (forall t, tl = Some t -> 0 < t) as Hpos by (intros t ->; apply Z.leb_gt in Ht; done).
  destruct c_errors as [old|].
  - unfold mbind at 1, stm_bind at 1. destruct (open_unlinked_tmp_file kernel pkernel [O_APPEND; O_CLOEXEC] s) as [s1 [[cef|]|e| |]]; try done.
    unfold mbind, stm_bind. match goal with |- context [with_fd kernel cef ?m s1] => destruct (with_fd kernel cef m s1) as [s2 [[rc' errs]|e| |]] eqn:Ew end; try done.
    intros [= _ <- <-]. apply with_fd_ok in Ew as [s3 Ew]. apply run_and_report_spec in Ew; [|done]. done.
  - unfold mbind, stm_bind. match goal with |- context [run_and_report ?a ?b ?c ?d ?e ?f ?g ?h ?i ?j s] => destruct (run_and_report a b c d e f g h i j s) as [s2 [[rc' errs]|e'| |]] eqn:Ew end; try done.
    intros [= _ <- <-]. apply run_and_report_spec in Ew as (es & H1 & H2); [|done]. split_and!; [done|by split; intros [? [=]]|].
    exists es. split; [done|]. cbn. destruct H2 as [(H2 & H3 & _)|(H2 & H3 & _)]; [by left|]. right. split_and!; [done|done|]. right. unfold len. cbn. lia.
Qed.

End Reports.

(** The message about the time limit is longer than what may be asked for. *)
Lemma time_limit_message_not_cut : len TIME_LIMIT_EXCEEDED = 31.
Proof. reflexivity. Qed.

(** ** The main directory of an archive *)

Section MainDir.
Context {W : Type} (libzip : forall A, zsys A -> W -> W * A).

(** The names the library gives, one by one, leaving the world alone. *)
Definition gives_names (zip : Z) (names : list str) : Prop :=
  forall i name, names !! i = Some name -> forall w, libzip _ (GetName zip (Z.of_nat i) 0) w = (w, Some name).

(** The loader finds what [zip_package_main_dir] finds among the names. *)
Lemma main_dir_of_zip_names zip names : gives_names zip names ->
  forall s, main_dir_of_zip libzip (length names) zip 0 [] s = (s, zip_package_main_dir names).
Proof.
  intros Hn. unfold zip_package_main_dir.
  assert (forall rest i res s, names = take i names ++ rest -> (i <= length names)%nat ->
    main_dir_of_zip libzip (length rest) zip (Z.of_nat i) res s = (s, zip_main_dir_loop res rest)) as H; [|intros s; exact (H names 0%nat [] s eq_refl (Nat.le_0_l _))].
  induction rest as [|epath rest IH]; intros i res s Hr Hi; [done|]. cbn [length main_dir_of_zip zip_main_dir_loop].
  assert (names !! i = Some epath) as Hl.
  { rewrite Hr, lookup_app_r; rewrite length_take_le by done; [|lia]. by rewrite Nat.sub_diag. }
  assert (names = take (S i) names ++ rest) as Hr'.
  { rewrite (take_S_r _ _ _ Hl), <- app_assoc. exact Hr. }
  pose proof (lookup_lt_Some _ _ _ Hl) as Hlt.
  assert (get_name libzip zip (Z.of_nat i) 0 s = (s, Ok epath)) as Hg.
  { unfold get_name, or_throw, zip_call, mbind, stm_bind. rewrite (Hn i epath Hl (FileIo.world s)). by destruct s. }
  unfold mbind at 1, stm_bind at 1. rewrite Hg. unfold mbind, stm_bind, lift, outcome_bind. replace (Z.of_nat i + 1) with (Z.of_nat (S i)) by lia.
  destruct (unsafe_entry epath) as [[]|e| |]; try done. destruct (SV.empty res).
  - destruct (first_dir epath) as [d|]; [|done]. by apply IH.
  - destruct (negb (has_prefix epath res)); [done|]. by apply IH.
Qed.

End MainDir.
