(* ===== verification/Conver.v ===== *)
(** * Constructing a Simfile from a package

    Models [Conver] of [include/simlib/sim/conver.hh] and [src/sim/conver.cc].
    The package is what reading its directory or archive yields, with a function
    for the contents of its files; the local variables of [construct_simfile]
    that are changed as it goes are the state of the computation, next to the
    report.  The position [THROW] adds to its messages is left out. *)

From Stdlib Require Import ZArith QArith Lia Ascii Sorted.
From S2P Require Import Prelude.
From S2P Require Import StdMap.
From S2P Require Import Ctype.
From S2P Require Import StringView.
From S2P Require Import StringTraits.
From S2P Require Import StringCompare.
From S2P Require Import StringTransform.
From S2P Require Import Floats.
From S2P Require Import Doubles.
From S2P Require Import Time.
From S2P Require Import SimpleParser.
From S2P Require Import Path.
From S2P Require Import Package.
From S2P Require Import ConfigFile.
From S2P Require Import Simfile.
From S2P Require Import Judge.
Local Open Scope Z_scope.

(** ** Options *)

Record ResetTimeLimitsOptions := mkRtl {
  min_time_limit : Z;
  solution_runtime_coefficient : double;
}.

Record Options := mkOptions {
  opt_name : option str;
  opt_label : option str;
  opt_interactive : option bool;
  opt_memory_limit : option Z;
  global_time_limit : option Z;
  max_time_limit : Z;
  reset_time_limits_using_main_solution : bool;
  ignore_simfile : bool;
  seek_for_new_tests : bool;
  reset_scoring : bool;
  require_statement : bool;
  rtl_opts : ResetTimeLimitsOptions;
}.

Definition default_options : Options :=
  mkOptions None None None None None 60000000000 false false false false true (mkRtl 300000000 (dZ 3)).

Inductive conver_status := COMPLETE | NEED_MODEL_SOLUTION_JUDGE_REPORT.

Record ConstructionResult := mkResult { status : conver_status; simfile : Simfile; pkg_main_dir : str }.

(** ** Time limits and runtimes *)

Definition solution_runtime_to_time_limit (main_solution_runtime coefficient min_time_limit : double) : double :=
  let x := main_solution_runtime in
  dadd (dmul coefficient main_solution_runtime)
    (ddiv (dmul min_time_limit (dZ 2)) (dadd (dmul x x) (dZ 2))).

Definition billionth : double := round_double (1 # 1000000000).

(** The loop of Newton's method; it has no bound of its own. *)
Fixpoint newton (fuel : nat) (time_limit coefficient min_time_limit x : double) : outcome double :=
  match fuel with
  | O => NoFuel
  | S fuel' =>
      let fx := dsub time_limit (solution_runtime_to_time_limit x coefficient min_time_limit) in
      if dltb (dneg billionth) fx && dltb fx billionth then Ok x
      else
        let x2 := dadd (dmul x x) (dZ 2) in
        let dfx := dadd (dneg coefficient)
          (ddiv (ddiv (dmul (dmul (dZ 4) min_time_limit) x) x2) x2) in
        newton fuel' time_limit coefficient min_time_limit (dsub x (ddiv fx dfx))
  end.

Definition time_limit_to_solution_runtime (fuel : nat) (time_limit coefficient min_time_limit : double) :
    outcome double :=
  newton fuel time_limit coefficient min_time_limit time_limit.

(** Rounds time limits to 0.01 s. *)
Definition normalize_time_limit (t : Test) : outcome Test :=
  x ← i64 (time_limit t + 5000000);
  Ok (mkTest (test_name t) (test_in t) (test_out t) (floor_to_10ms x * 10000000) (memory_limit t)).

Definition normalize_time_limits : stm Simfile unit := update_tests normalize_time_limit.

Definition set_time_limit (tl : Z) (t : Test) : Test :=
  mkTest (test_name t) (test_in t) (test_out t) tl (memory_limit t).

(** ** State *)

Record TestProperties := mkProps {
  prop_in : option str;
  prop_out : option str;
  prop_time_limit : option Z;
  prop_memory_limit : option Z;
}.

Definition no_props : TestProperties := mkProps None None None None.

Abbreviation tests_map := (list (str * TestProperties)).

Record CS := mkState { report_ : str; package_path_ : str; sf : Simfile; tests_ : tests_map }.

Definition set_sf (s : Simfile) (cs : CS) : CS := mkState (report_ cs) (package_path_ cs) s (tests_ cs).
Definition set_tests (m : tests_map) (cs : CS) : CS := mkState (report_ cs) (package_path_ cs) (sf cs) m.

(** [report_.append(...)] *)
Definition append (msg : str) : stm CS unit :=
  modify (fun cs => mkState (report_ cs ++ msg ++ [NL]) (package_path_ cs) (sf cs) (tests_ cs)).

(** A member function of the local Simfile. *)
Definition on_sf {A} (m : stm Simfile A) : stm CS A :=
  fun cs => let (s, r) := m (sf cs) in (set_sf s cs, r).

(** [try { m } catch (e) { handler }] *)
Definition try_catch {A} (m : stm CS A) (handler : exn -> stm CS A) : stm CS A :=
  fun cs => match m cs with
  | (cs', Throw e) => handler e cs'
  | r => r
  end.

Definition what (e : exn) : str :=
  match e with
  | RuntimeError w | ParseError w _ | OutOfRange w => w
  | BadOptionalAccess => lit "bad optional access"
  end.

Definition ESC : ascii := "027"%char.
Definition warning : str := [ESC] ++ lit "[1;35mwarning" ++ [ESC] ++ lit "[m".

(** ** The package *)

Inductive package :=
| Directory (tree : list dirent)
| Archive (names : list str).

Section Construct.
Variable pkg : package.
(** The contents of a file of the package. *)
Variable file_contents : str -> outcome str.
Variable opts : Options.
(** Iterations allowed to Newton's method. *)
Variable fuel : nat.

Definition exists_in_pkg (pc : PackageContents) (main_dir file : str) : bool :=
  negb (SV.empty file) && exists_ pc (main_dir ++ file).

Definition check_options : stm CS unit :=
  _ ← when (match opt_memory_limit opts with Some ml => ml <=? 0 | None => false end)
        (throw_error (lit "If set, memory_limit has to be greater than 0"));
  _ ← when (match global_time_limit opts with Some tl => tl <=? 0 | None => false end)
        (throw_error (lit "If set, global_time_limit has to be greater than 0"));
  _ ← when (max_time_limit opts <=? 0) (throw_error (lit "max_time_limit has to be greater than 0"));
  _ ← when (min_time_limit (rtl_opts opts) <? 0) (throw_error (lit "min_time_limit has to be non-negative"));
  when (dltb (solution_runtime_coefficient (rtl_opts opts)) (dZ 0))
    (throw_error (lit "solution_runtime_coefficient has to be non-negative")).

Definition reset_report : stm CS unit :=
  modify (fun cs => mkState [] (package_path_ cs) (sf cs) (tests_ cs)).

(** The path of a directory gets a trailing slash. *)
Definition with_slash (p : str) : str :=
  match last p with Some c => if c =c "/" then p else p ++ lit "/" | None => p end.

Definition load_contents : stm CS PackageContents :=
  match pkg with
  | Directory tree =>
      p ← gets package_path_;
      _ ← when (SV.empty p) (throw_error (lit "!package_path_.empty()"));
      _ ← modify (fun cs => mkState (report_ cs) (with_slash p) (sf cs) (tests_ cs));
      lift (load_from_directory (with_slash p) false tree empty_pc)
  | Archive names => lift (load_from_zip names empty_pc)
  end.

Definition load_simfile (pc : PackageContents) (main_dir : str) : stm CS unit :=
  if negb (ignore_simfile opts) && exists_in_pkg pc main_dir (lit "Simfile") then
    text ← lift (file_contents (main_dir ++ lit "Simfile"));
    match make_simfile text with
    | Throw (ParseError w d) => throw_error (lit "(Simfile) " ++ w ++ [NL] ++ d)
    | r => s ← lift r; modify (set_sf s)
    end
  else mret tt.

Definition choose_name : stm CS unit :=
  match opt_name opts with
  | Some n =>
      _ ← on_sf (modify (set_name (Some n)));
      append (lit "Problem's name (specified in options): " ++ n)
  | None =>
      _ ← append (lit "Problem's name is not specified in options - loading it from Simfile");
      _ ← on_sf load_name;
      n ← gets (fun cs => name (sf cs));
      n ← lift (value_or_throw n);
      append (lit "  name loaded from Simfile: " ++ n)
  end.

Definition choose_label : stm CS unit :=
  match opt_label opts with
  | Some l =>
      _ ← on_sf (modify (set_label (Some l)));
      append (lit "Problem's label (specified in options): " ++ l)
  | None =>
      _ ← append (lit "Problem's label is not specified in options - loading it from Simfile");
      try_catch
        (_ ← on_sf load_label;
         l ← gets (fun cs => label (sf cs));
         l ← lift (value_or_throw l);
         append (lit "  label loaded from Simfile: " ++ l))
        (fun e =>
         _ ← append (lit "  " ++ what e ++ lit " -> generating label from the problem's name");
         n ← gets (fun cs => name (sf cs));
         n ← lift (value_or_throw n);
         _ ← on_sf (modify (set_label (Some (shorten_name n))));
         append (lit "  label generated from name: " ++ shorten_name n))
  end.

(** ** Files *)

(** The entries with the prefix that satisfy the condition. *)
Definition collect_files (pc : PackageContents) (prefix : str) (cond : str -> bool) : list str :=
  (for_each_with_prefix pc prefix
     (fun file => when (cond file) (modify (fun res => res ++ [file]))) []).1.

(** The first least element, and the elements before and after it. *)
Fixpoint split_min {A} (less : A -> A -> bool) (before : list A) (m : A) (after l : list A) : list A * A * list A :=
  match l with
  | [] => (before, m, after)
  | x :: l' =>
      if less x m then split_min less (before ++ m :: after) x [] l'
      else split_min less before m (after ++ [x]) l'
  end.

(** [std::swap(x.front(), *std::min_element(...))] *)
Definition min_to_front {A} (less : A -> A -> bool) (l : list A) : list A :=
  match l with
  | [] => []
  | x :: l' =>
      match split_min less [] x [] l' with
      | ([], m, after) => m :: after
      | (f :: before, m, after) => m :: before ++ f :: after
      end
  end.

Definition shorter (a b : str) : bool := (length a <? length b)%nat.

Definition invalid_checker : stm CS unit :=
  append (lit "Invalid checker specified in the package's Simfile - searching for one").

Definition choose_checker (pc : PackageContents) (main_dir : str) : stm CS unit :=
  _ ← try_catch
        (_ ← on_sf load_checker;
         c ← gets (fun cs => checker (sf cs));
         match c with
         | None => append (lit "Missing checker in the package's Simfile - searching for one")
         | Some c =>
             if negb (exists_in_pkg pc main_dir c) then
               _ ← invalid_checker;
               on_sf (modify (set_checker None))
             else mret tt
         end)
        (fun _ => invalid_checker);
  _ ← match opt_interactive opts with
      | Some i => on_sf (modify (set_interactive i))
      | None => mret tt
      end;
  c ← gets (fun cs => checker (sf cs));
  match c with
  | Some _ => mret tt
  | None =>
      let x := collect_files pc (main_dir ++ lit "check/") is_source ++
               collect_files pc (main_dir ++ lit "checker/") is_source in
      i ← gets (fun cs => interactive (sf cs));
      match min_to_front shorter x with
      | c :: _ =>
          c ← lift (SV.substr_from c (length main_dir));
          _ ← on_sf (modify (set_checker (Some c)));
          append (lit "Chosen checker: " ++ c)
      | [] =>
          if i : bool then
            _ ← append (lit "No checker was found");
            throw_error (lit "No checker was found, but interactive problems require checker")
          else append (lit "No checker was found - the default checker will be used")
      end
  end.

Definition is_statement (file : str) : bool := has_one_of_suffixes file [lit ".pdf"; lit ".md"; lit ".txt"].

(** Prefer PDF to other formats, then the shorter paths. *)
Definition better_statement (a b : str) : bool :=
  let pa := negb (has_suffix a (lit ".pdf")) in
  let pb := negb (has_suffix b (lit ".pdf")) in
  if eqb pa pb then (length a <? length b)%nat else negb pa && pb.

Definition choose_statement (pc : PackageContents) (main_dir : str) : stm CS unit :=
  _ ← try_catch (on_sf load_statement) (fun _ => mret tt);
  st ← gets (fun cs => statement (sf cs));
  if match st with Some st => exists_in_pkg pc main_dir st && is_statement st | None => false end then mret tt
  else
    _ ← append ((match st with Some _ => lit "Invalid" | None => lit "Missing" end) ++
          lit " statement specified in the package's Simfile - searching for one");
    let x := collect_files pc (main_dir ++ lit "doc/") is_statement in
    let x := if (length x =? 0)%nat then collect_files pc [] is_statement else x in
    match min_to_front better_statement x with
    | [] =>
        _ ← when (require_statement opts)
              (throw_error (lit "No statement was found (recognized extensions: pdf, md, txt)"));
        append (warning ++ lit ": no statement was found (recognized extensions: pdf, md, txt)")
    | s :: _ =>
        s ← lift (SV.substr_from s (length main_dir));
        _ ← on_sf (modify (set_statement (Some s)));
        append (lit "Chosen statement: " ++ s)
    end.

(** The solutions of the Simfile that exist, without duplicates. *)
Fixpoint valid_solutions (pc : PackageContents) (main_dir : str) (acc sols : list str) : stm CS (list str) :=
  match sols with
  | [] => mret acc
  | sol :: sols' =>
      if exists_in_pkg pc main_dir sol && bool_decide (sol ∉ acc) then
        valid_solutions pc main_dir (acc ++ [sol]) sols'
      else
        _ ← append (warning ++ lit ": ignoring invalid solution: `" ++ sol ++ lit "`");
        valid_solutions pc main_dir acc sols'
  end.

Fixpoint merge_solutions (main_dir : str) (acc x : list str) : list str :=
  match x with
  | [] => acc
  | s :: x' =>
      let s := SV.remove_prefix s (length main_dir) in
      merge_solutions main_dir (if bool_decide (s ∈ acc) then acc else acc ++ [s]) x'
  end.

Definition choose_solutions (pc : PackageContents) (main_dir : str) : stm CS unit :=
  _ ← try_catch (on_sf load_solutions) (fun _ => mret tt);
  sols ← gets (fun cs => solutions (sf cs));
  solutions ← valid_solutions pc main_dir [] sols;
  let x := collect_files pc [] is_source in
  x ← (if (length solutions =? 0)%nat then
         _ ← when (length x =? 0)%nat (throw_error (lit "No solution was found"));
         mret (min_to_front shorter x)
       else mret x);
  on_sf (modify (set_solutions (merge_solutions main_dir solutions x))).

(** ** Tests *)

(** [tests.insert_or_assign(name, props)] and a change of the properties of a
    test that is there. *)
Definition assign_test (nm : str) (p : TestProperties) (m : tests_map) : tests_map :=
  map_update SV.ltb nm p (fun _ => p) m.

Definition change_test (nm : str) (f : TestProperties -> TestProperties) (m : tests_map) : tests_map :=
  map_update SV.ltb nm no_props f m.

Definition set_in (v : str) (p : TestProperties) : TestProperties :=
  mkProps (Some v) (prop_out p) (prop_time_limit p) (prop_memory_limit p).
Definition set_out (v : str) (p : TestProperties) : TestProperties :=
  mkProps (prop_in p) (Some v) (prop_time_limit p) (prop_memory_limit p).

Definition modify_tests (f : tests_map -> tests_map) : stm CS unit :=
  modify (fun cs => set_tests (f (tests_ cs)) cs).

(** An array of the Simfile, when it may be used. *)
Definition used_array (var : string) : stm CS (list str) :=
  v ← gets (fun cs => Config.get_var (config (sf cs)) (lit var));
  mret (if negb (ignore_simfile opts) && Config.is_set v && Config.is_array v then Config.arr_ v else []).

(** A parsing function, whose exceptions only make the item ignored. *)
Definition parse_or_warn {A} (r : outcome A) (var : string) (k : A -> stm CS unit) : stm CS unit :=
  match r with
  | Throw e => append (warning ++ lit ": " ++ [DQ] ++ lit var ++ [DQ] ++ lit ": ignoring unparsable item -> " ++ what e)
  | r => a ← lift r; k a
  end.

Definition load_limits_item (item : str) : stm CS unit :=
  parse_or_warn (parse_limits_item item) "limits" (fun '(test_name, tl, ml) =>
    if SV.empty (split test_name).1 then
      append (warning ++ lit ": " ++ [DQ] ++ lit "limits" ++ [DQ] ++ lit ": ignoring test `" ++ test_name ++
        lit "` because it has no group id in its name")
    else modify_tests (assign_test test_name (mkProps None None (Some tl) ml))).

Definition load_limits : stm CS unit :=
  items ← used_array "limits";
  run_all load_limits_item items.

(** The test a file belongs to: its name without directories and extension. *)
Definition file_test_name (path : str) : str :=
  let stem := match SV.rfind_char path "." 0 with Some pos => take pos path | None => path end in
  (SV.extract_trailing (fun c => negb (c =c "/")) stem).1.

Definition warn_twice (kind : string) (test_name old new : str) : stm CS unit :=
  append (warning ++ lit ": " ++ lit kind ++ lit " file for test `" ++ test_name ++
    lit "` was found in more than one location: `" ++ old ++ lit "` and `" ++ new ++ lit "`, choosing the latter").

Definition add_test_file (main_dir path : str) : stm CS unit :=
  let path := SV.remove_prefix path (length main_dir) in
  inter ← gets (fun cs => interactive (sf cs));
  if negb (has_suffix path (lit ".in") || (has_suffix path (lit ".out") && negb inter)) then mret tt
  else
    let test_name := file_test_name path in
    _ ← when (seek_for_new_tests opts) (modify_tests (change_test test_name (fun p => p)));
    m ← gets tests_;
    match map_find SV.ltb test_name m with
    | None => mret tt
    | Some test =>
        if has_suffix path (lit ".in") then
          _ ← match prop_in test with Some old => warn_twice "input" test_name old path | None => mret tt end;
          modify_tests (change_test test_name (set_in path))
        else
          _ ← match prop_out test with Some old => warn_twice "output" test_name old path | None => mret tt end;
          modify_tests (change_test test_name (set_out path))
    end.

Definition find_test_files (pc : PackageContents) (main_dir : str) : stm CS unit :=
  for_each_with_prefix pc [] (add_test_file main_dir).

Definition tests_files_warning (msg : str) : stm CS unit :=
  append (warning ++ lit ": " ++ [DQ] ++ lit "tests_files" ++ [DQ] ++ lit ":" ++ msg).

(** The input and output file of an item, when they can be used. *)
Definition usable_input (pc : PackageContents) (main_dir input : str) : stm CS (option str) :=
  if negb (exists_ pc (main_dir ++ input)) then
    _ ← tests_files_warning (lit " test input file: `" ++ input ++ lit "` not found - ignoring file");
    mret None
  else mret (Some input).

Definition usable_output (pc : PackageContents) (main_dir test_name : str) (input : option str) (output : str) :
    stm CS (option str) :=
  inter ← gets (fun cs => interactive (sf cs));
  if inter : bool then
    _ ← (if negb (SV.empty output) then
           shown ← lift (value_or_throw input);
           tests_files_warning (lit " test output file: `" ++ shown ++
             lit "` specified, but the problem is interactive - ignoring file")
         else mret tt);
    mret None
  else if SV.empty output then
    _ ← tests_files_warning (lit " missing test output file for test `" ++ test_name ++ lit "` - ignoring");
    mret None
  else if negb (exists_ pc (main_dir ++ output)) then
    _ ← tests_files_warning (lit " test output file: `" ++ output ++ lit "` not found - ignoring file");
    mret None
  else mret (Some output).

Definition load_tests_files_item (pc : PackageContents) (main_dir item : str) : stm CS unit :=
  parse_or_warn (parse_test_files_item item) "tests_files" (fun '(test_name, input, output) =>
    if SV.empty test_name then mret tt
    else if SV.empty input then
      _ ← tests_files_warning (lit " missing test input file for test `" ++ test_name ++ lit "` - ignoring");
      when (negb (SV.empty output)) (throw_error (lit "output.value().empty()"))
    else
      i ← usable_input pc main_dir input;
      o ← usable_output pc main_dir test_name i output;
      _ ← when (seek_for_new_tests opts) (modify_tests (change_test test_name (fun p => p)));
      m ← gets tests_;
      match map_find SV.ltb test_name m with
      | None =>
          tests_files_warning (lit " ignoring files for test `" ++ test_name ++
            lit "` because no such test is specified in " ++ [DQ] ++ lit "limits" ++ [DQ])
      | Some _ =>
          _ ← match i with Some i => modify_tests (change_test test_name (set_in i)) | None => mret tt end;
          match o with Some o => modify_tests (change_test test_name (set_out o)) | None => mret tt end
      end).

Definition load_files (pc : PackageContents) (main_dir : str) : stm CS unit :=
  items ← used_array "tests_files";
  run_all (load_tests_files_item pc main_dir) items.

(** Tests without their files are dropped. *)
Definition has_value {A} (o : option A) : bool := match o with Some _ => true | None => false end.

Definition complete_test (inter : bool) (p : TestProperties) : bool :=
  has_value (prop_in p) && (inter || has_value (prop_out p)).

Fixpoint filter_tests (inter : bool) (m : tests_map) : stm CS tests_map :=
  match m with
  | [] => mret []
  | (test_name, p) :: m' =>
      _ ← when (negb (has_value (prop_in p)) && has_value (prop_time_limit p))
            (append (warning ++ lit ": limits: ignoring test `" ++ test_name ++
               lit "` because it has no corresponding input file"));
      _ ← when (negb inter && negb (has_value (prop_out p)) && has_value (prop_time_limit p))
            (append (warning ++ lit ": limits: ignoring test `" ++ test_name ++
               lit "` because it has no corresponding output file"));
      rest ← filter_tests inter m';
      mret (if complete_test inter p then (test_name, p) :: rest else rest)
  end.

Definition drop_incomplete : stm CS unit :=
  inter ← gets (fun cs => interactive (sf cs));
  m ← gets tests_;
  m' ← filter_tests inter m;
  modify (set_tests m').

(** ** Memory limits *)

Definition set_memory_limit (ml : option Z) (p : TestProperties) : TestProperties :=
  mkProps (prop_in p) (prop_out p) (prop_time_limit p) ml.

(** The tests before the one that throws are already changed, but nothing reads
    them afterwards. *)
Fixpoint default_memory_limits (gml : option Z) (m : tests_map) : outcome tests_map :=
  match m with
  | [] => Ok []
  | (test_name, p) :: m' =>
      p ← (if has_value (prop_memory_limit p) then Ok p
           else
             match gml with
             | None =>
                 runtime_error (lit "Memory limit is not specified for test `" ++ test_name ++
                   lit "` and no global memory limit is set")
             | Some _ => Ok (set_memory_limit gml p)
             end);
      rest ← default_memory_limits gml m';
      Ok ((test_name, p) :: rest)
  end.

Definition choose_memory_limits : stm CS unit :=
  match opt_memory_limit opts with
  | Some ml =>
      _ ← on_sf (modify (set_global_mem_limit (Some (shl20 ml))));
      modify_tests (fun m => (fun '(n, p) => (n, set_memory_limit (Some (shl20 ml)) p)) <$> m)
  | None =>
      _ ← when (ignore_simfile opts)
            (throw_error (lit "Missing memory limit - global memory limit not specified in options and simfile is ignored"));
      _ ← append (lit "Global memory limit not specified in options - loading it from Simfile");
      _ ← on_sf load_global_memory_limit_only;
      gml ← gets (fun cs => global_mem_limit (sf cs));
      _ ← when (negb (has_value gml))
            (_ ← append (lit "Memory limit is not specified in the Simfile");
             append (warning ++ lit ": no global memory limit is set"));
      m ← gets tests_;
      m' ← lift (default_memory_limits gml m);
      modify (set_tests m')
  end.

(** ** Groups and scoring *)

Record TestsGroup := mkGroup { group_score : option Z; group_tests : tests_map }.

Abbreviation groups_map := (list (str * TestsGroup)).

(** [multimap::emplace]: after the elements that are not greater. *)
Fixpoint multimap_emplace {K V} (less : K -> K -> bool) (k : K) (v : V) (m : list (K * V)) : list (K * V) :=
  match m with
  | [] => [(k, v)]
  | (k', v') :: m' => if less k k' then (k, v) :: m else (k', v') :: multimap_emplace less k v m'
  end.

Definition add_to_group (test_name : str) (p : TestProperties) (gs : groups_map) : groups_map :=
  if SV.empty (split test_name).1 then gs
  else
    map_update StrNumCompare (test_gid test_name) (mkGroup None [])
      (fun g => mkGroup (group_score g) (multimap_emplace TestNameComparator test_name p (group_tests g))) gs.

Definition fill_groups (m : tests_map) : groups_map :=
  fold_left (fun gs '(n, p) => add_to_group n p gs) m [].

Fixpoint load_scoring (gs : groups_map) (items : list str) : stm CS groups_map :=
  match items with
  | [] => mret gs
  | item :: items' =>
      match parse_scoring_item item with
      | Ok (gid, sc) =>
          match map_find StrNumCompare gid gs with
          | Some _ =>
              load_scoring
                (map_update StrNumCompare gid (mkGroup None []) (fun g => mkGroup (Some sc) (group_tests g)) gs) items'
          | None =>
              _ ← append (warning ++ lit ": " ++ [DQ] ++ lit "scoring" ++ [DQ] ++
                    lit ": ignoring score of the group with id `" ++ gid ++ lit "` because no test belongs to it");
              load_scoring gs items'
          end
      | Throw e =>
          _ ← append (warning ++ lit ": " ++ [DQ] ++ lit "scoring" ++ [DQ] ++
                lit ": ignoring unparsable item -> " ++ what e);
          load_scoring gs items'
      | UB => lift UB
      | NoFuel => lift NoFuel
      end
  end.

(** The sum of the positive scores, as [uint64_t], and the number of groups
    without a score. *)
Definition sum_scores (gs : groups_map) : Z :=
  fold_left (fun acc '(_, g) => wrap_u64 (acc + Z.max (default 0 (group_score g)) 0)) gs 0.

Definition count_unscored (gs : groups_map) : Z :=
  fold_left (fun acc '(_, g) => if has_value (group_score g) then acc else acc + 1) gs 0.

Fixpoint distribute (max_score unscored : Z) (gs : groups_map) : stm CS groups_map :=
  match gs with
  | [] => mret []
  | (gid, g) :: gs' =>
      if has_value (group_score g) then
        rest ← distribute max_score unscored gs';
        mret ((gid, g) :: rest)
      else
        if unscored =? 0 then lift UB
        else
          let sc := max_score / unscored in
          _ ← append (lit "Auto-scoring: score of the group with id `" ++ gid ++ lit "` set to " ++ to_string sc);
          rest ← distribute (max_score - sc) (unscored - 1) gs';
          mret ((gid, mkGroup (Some sc) (group_tests g)) :: rest)
  end.

(** Group 0 always has score equal to 0. *)
Definition score_groups (gs : groups_map) : stm CS groups_map :=
  let max_score := sum_scores gs in
  let unscored := count_unscored gs in
  if 0 <? unscored then
    let max_score := if 100 <? max_score then 0 else 100 - max_score in
    match gs with
    | [] => lift UB
    | (gid, g) :: gs' =>
        if SV.empty (SV.remove_leading_char "0" gid) && negb (has_value (group_score g)) then
          _ ← append (lit "Auto-scoring: score of the group with id `" ++ gid ++ lit "` set to 0");
          distribute max_score (unscored - 1) ((gid, mkGroup (Some 0) (group_tests g)) :: gs')
        else distribute max_score unscored gs
    end
  else mret gs.

Definition choose_scoring (gs : groups_map) : stm CS groups_map :=
  scoring ← gets (fun cs => Config.get_var (config (sf cs)) (lit "scoring"));
  gs ← (if negb (ignore_simfile opts) && negb (reset_scoring opts) && Config.is_set scoring && Config.is_array scoring
        then load_scoring gs (Config.arr_ scoring) else mret gs);
  score_groups gs.

(** ** The result *)

Definition export_test (inter : bool) (test_name : str) (p : TestProperties) : outcome Test :=
  ml ← value_or_throw (prop_memory_limit p);
  i ← value_or_throw (prop_in p);
  o ← (if inter then Ok None else Some <$> value_or_throw (prop_out p));
  Ok (mkTest test_name i o (default 0 (prop_time_limit p)) ml).

Fixpoint export_tests (inter : bool) (m : tests_map) : outcome (list Test) :=
  match m with
  | [] => Ok []
  | (n, p) :: m' => t ← export_test inter n p; ts ← export_tests inter m'; Ok (t :: ts)
  end.

Fixpoint export_groups (inter : bool) (gs : groups_map) : outcome (list TestGroup) :=
  match gs with
  | [] => Ok []
  | (_, g) :: gs' =>
      sc ← value_or_throw (group_score g);
      ts ← export_tests inter (group_tests g);
      rest ← export_groups inter gs';
      Ok (mkTestGroup ts sc :: rest)
  end.

(** A test without a time limit. *)
Definition lacks_time_limit (gs : groups_map) : bool :=
  existsb (fun '(_, g) => existsb (fun '(_, p) => negb (has_value (prop_time_limit p))) (group_tests g)) gs.

Definition set_time_limits (tl : Z) : stm Simfile unit :=
  modify (fun s => set_tgroups ((fun g => mkTestGroup (set_time_limit tl <$> tests g) (score g)) <$> tgroups s) s).

(** [duration_cast<milliseconds>], as nanoseconds. *)
Definition to_milliseconds (d : double) : outcome Z :=
  ms ← d_to_int64 (dmul d (dZ 1000));
  i64 (ms * 1000000).

Definition finish (main_dir : str) (gs : groups_map) : stm CS ConstructionResult :=
  inter ← gets (fun cs => interactive (sf cs));
  groups ← lift (export_groups inter gs);
  _ ← on_sf (modify (set_tgroups groups));
  _ ← match global_time_limit opts with
      | Some tl => on_sf (set_time_limits tl)
      | None => mret tt
      end;
  let run_main_solution :=
    match global_time_limit opts with
    | Some _ => reset_time_limits_using_main_solution opts
    | None => reset_time_limits_using_main_solution opts || lacks_time_limit gs
    end in
  if negb run_main_solution then
    _ ← on_sf normalize_time_limits;
    s ← gets sf;
    mret (mkResult COMPLETE s main_dir)
  else
    x ← lift (time_limit_to_solution_runtime fuel (d_seconds (max_time_limit opts))
          (solution_runtime_coefficient (rtl_opts opts)) (d_seconds (min_time_limit (rtl_opts opts))));
    tl ← lift (to_milliseconds x);
    _ ← on_sf (set_time_limits tl);
    s ← gets sf;
    mret (mkResult NEED_MODEL_SOLUTION_JUDGE_REPORT s main_dir).

Definition construct_simfile : stm CS ConstructionResult :=
  _ ← check_options;
  _ ← reset_report;
  pc ← load_contents;
  let main_dir := main_dir pc in
  let pc := remove_with_prefix (main_dir ++ lit "utils/") pc in
  _ ← load_simfile pc main_dir;
  _ ← choose_name;
  _ ← choose_label;
  _ ← choose_checker pc main_dir;
  let pc := remove_with_prefix (main_dir ++ lit "check/") pc in
  let pc := remove_with_prefix (main_dir ++ lit "checker/") pc in
  _ ← choose_statement pc main_dir;
  _ ← choose_solutions pc main_dir;
  _ ← load_limits;
  _ ← find_test_files pc main_dir;
  _ ← load_files pc main_dir;
  _ ← drop_incomplete;
  _ ← choose_memory_limits;
  m ← gets tests_;
  gs ← choose_scoring (fill_groups m);
  finish main_dir gs.
End Construct.

(** The object before the call: no Simfile and no tests yet. *)
Definition start (package_path : str) : CS := mkState [] package_path blank [].

(** ** Time limits from judge reports *)

Definition ns_floor_to_10ms (d : double) : outcome Z :=
  x ← d_to_int64 (dmul d (dZ 100));
  i64 (x * 10000000).

Definition add_time_limit (opts : ResetTimeLimitsOptions) (tls : list (str * Z)) (t : JTest) :
    outcome (list (str * Z)) :=
  match jt_status t with
  | OK | WA =>
      tl ← ns_floor_to_10ms (solution_runtime_to_time_limit (d_seconds (jt_runtime t))
             (solution_runtime_coefficient opts) (d_seconds (min_time_limit opts)));
      Ok (map_update SV.ltb (jt_name t) tl (fun _ => tl) tls)
  | st => runtime_error (lit "Error on test `" ++ jt_name t ++ lit "`: " ++ description st)
  end.

Fixpoint add_time_limits (opts : ResetTimeLimitsOptions) (tls : list (str * Z)) (ts : list JTest) :
    outcome (list (str * Z)) :=
  match ts with
  | [] => Ok tls
  | t :: ts' => tls ← add_time_limit opts tls t; add_time_limits opts tls ts'
  end.

Definition assign_time_limit (tls : list (str * Z)) (t : Test) : Test :=
  match map_find SV.ltb (test_name t) tls with
  | Some tl => set_time_limit tl t
  | None => t
  end.

Definition reset_time_limits_using_jugde_reports (jrep1 jrep2 : JudgeReport) (opts : ResetTimeLimitsOptions) :
    stm Simfile unit :=
  _ ← when (min_time_limit opts <? 0) (throw_error (lit "min_time_limit has to be non-negative"));
  _ ← when (dltb (solution_runtime_coefficient opts) (dZ 0))
        (throw_error (lit "solution_runtime_coefficient has to be non-negative"));
  tls ← lift (add_time_limits opts []
          (concat (jg_tests <$> groups jrep1) ++ concat (jg_tests <$> groups jrep2)));
  _ ← modify (fun s =>
        set_tgroups ((fun g => mkTestGroup (assign_time_limit tls <$> tests g) (score g)) <$> tgroups s) s);
  normalize_time_limits.

(** ** Examples *)

Definition sample_package : package :=
  Archive [lit "p/Simfile"; lit "p/doc/stmt.pdf"; lit "p/prog/sol.cpp"; lit "p/prog/s.cpp"; lit "p/in/t0.in";
           lit "p/out/t0.out"; lit "p/in/t1a.in"; lit "p/out/t1a.out"; lit "p/in/t2a.in"; lit "p/out/t2a.out"].

Definition sample_text : str :=
  lit "name: x" ++ [NL] ++ lit "memory_limit: 64" ++ [NL] ++
  lit "limits: [t0 1" ++ [NL] ++ lit "t1a 2" ++ [NL] ++ lit "t2a 0.125 32]" ++ [NL].

Definition sample_construct (opts : Options) : outcome ConstructionResult :=
  (construct_simfile sample_package (fun _ => Ok sample_text) opts 20 (start (lit "p.zip"))).2.

Example sample_construct_ok :
  match sample_construct default_options with
  | Ok (mkResult COMPLETE s d) =>
      (d, statement s, checker s, solutions s, (fun g => ((fun t => (test_name t, time_limit t)) <$> tests g, score g)) <$> tgroups s)
  | _ => ([], None, None, [], [])
  end =
  (lit "p/", Some (lit "doc/stmt.pdf"), None, [lit "prog/s.cpp"; lit "prog/sol.cpp"],
   [([(lit "t0", 1000000000)], 0); ([(lit "t1a", 2000000000)], 50); ([(lit "t2a", 130000000)], 50)]).
Proof. vm_compute. reflexivity. Qed.

(** With a time limit of 60 s for the main solution's tripled runtime the main
    solution gets 19.999 s. *)
Example newton_ex :
  match time_limit_to_solution_runtime 20 (d_seconds 60000000000) (dZ 3) (d_seconds 300000000) with
  | Ok x => to_milliseconds x
  | _ => UB
  end = Ok 19999000000.
Proof. vm_compute. reflexivity. Qed.
