(* ===== verification/ConverProofs.v ===== *)
(** * The Simfiles Conver constructs

    A constructed Simfile names only files of the package, each test has its
    files and its limits, every group has a score. *)

From Stdlib Require Import ZArith QArith Lia Ascii Sorted.
From S2P Require Import Prelude.
From S2P Require Import StdMap.
From S2P Require Import Ctype.
From S2P Require Import StringView.
From S2P Require Import StringTraits.
From S2P Require Import StringCompare.
From S2P Require Import StringTransform.
From S2P Require Import Floats.
From S2P Require Import Doubles.
From S2P Require Import Time.
From S2P Require Import SimpleParser.
From S2P Require Import Path.
From S2P Require Import Package.
From S2P Require Import ConfigFile.
From S2P Require Import Simfile.
From S2P Require Import SimfileTests.
From S2P Require Import SimfileFiles.
From S2P Require Import Judge.
From S2P Require Import Conver.
Local Open Scope Z_scope.

(** ** Frames: what a computation leaves alone, also when it throws *)

Definition preserves {S A B} (f : S -> B) (m : stm S A) : Prop := forall s, f (m s).1 = f s.

Section Preserves.
Context {S B : Type} (f : S -> B).

Lemma preserves_ret {A} (a : A) : preserves f (mret a).
Proof. by intros s. Qed.

Lemma preserves_lift {A} (r : outcome A) : preserves f (lift r).
Proof. by intros s. Qed.

Lemma preserves_gets {A} (g : S -> A) : preserves f (gets g).
Proof. by intros s. Qed.

Lemma preserves_throw {A} w : preserves f (throw_error (A := A) w).
Proof. by intros s. Qed.

Lemma preserves_modify (g : S -> S) : (forall s, f (g s) = f s) -> preserves f (modify g).
Proof. intros H s. apply H. Qed.

Lemma preserves_bind {A C} (m : stm S A) (k : A -> stm S C) :
  preserves f m -> (forall a, preserves f (k a)) -> preserves f (m ≫= k).
Proof.
  intros Hm Hk s. unfold mbind, stm_bind. specialize (Hm s). destruct (m s) as [s' [a|e| |]]; cbn in *; [|done..].
  by rewrite Hk.
Qed.

Lemma preserves_when c (m : stm S unit) : preserves f m -> preserves f (when c m).
Proof. intros H. destruct c; [done|apply preserves_ret]. Qed.

Lemma preserves_run_all {A} (g : A -> stm S unit) l : (forall a, preserves f (g a)) -> preserves f (run_all g l).
Proof. intros H. induction l as [|x l IH]; cbn [run_all]; [apply preserves_ret|]. by apply preserves_bind. Qed.

Lemma preserves_Ok {A} (m : stm S A) s s' r : preserves f m -> m s = (s', r) -> f s' = f s.
Proof. intros H E. specialize (H s). by rewrite E in H. Qed.
End Preserves.

Lemma preserves_try {B A} (f : CS -> B) (m : stm CS A) h :
  preserves f m -> (forall e, preserves f (h e)) -> preserves f (try_catch m h).
Proof.
  intros Hm Hh s. unfold try_catch. specialize (Hm s). destruct (m s) as [s' [a|e| |]]; cbn in *; [done| |done..].
  by rewrite Hh.
Qed.

Lemma preserves_sf {B A} (g : Simfile -> B) (m : stm Simfile A) :
  preserves g m -> preserves (fun cs => g (sf cs)) (on_sf m).
Proof. intros Hm cs. unfold on_sf. specialize (Hm (sf cs)). by destruct (m (sf cs)). Qed.

(** The same for the runs that end with an exception only. *)
Definition throw_preserves {S A B} (f : S -> B) (m : stm S A) : Prop :=
  forall s s' e, m s = (s', Throw e) -> f s' = f s.

Lemma throw_bind {S A B C} (f : S -> B) (m : stm S A) (k : A -> stm S C) :
  preserves f m -> (forall a, throw_preserves f (k a)) -> throw_preserves f (m ≫= k).
Proof.
  intros Hm Hk s s' e. unfold mbind, stm_bind. specialize (Hm s). destruct (m s) as [s1 [a|e1| |]]; cbn in *; [| |done..].
  - intros H. apply Hk in H. congruence.
  - by intros [= <- _].
Qed.

Lemma throw_modify {S B} (f : S -> B) (g : S -> S) : throw_preserves f (modify g).
Proof. intros s s' e. discriminate. Qed.

(** Prove a frame by following the structure of the computation. *)
Ltac frame :=
  repeat first
    [ done
    | apply preserves_bind; intros
    | apply preserves_when
    | apply preserves_ret
    | apply preserves_lift
    | apply preserves_gets
    | apply preserves_throw
    | apply preserves_try; intros
    | apply preserves_run_all; intros
    | apply preserves_sf
    | (apply preserves_modify; by intros)
    | case_goal ].

(** Take apart a run that ended without an exception. *)
Ltac inv_cs :=
  inv_stm;
  repeat match goal with
  | H : on_sf (modify _) _ = (_, Ok _) |- _ => injection H as <-
  | H : append _ _ = (_, Ok _) |- _ => injection H as <-
  | H : modify_tests _ _ = (_, Ok _) |- _ => injection H as <-
  | H : mret _ _ = (_, Ok _) |- _ => injection H as <- <-
  | H : mret _ _ = (_, Ok _) |- _ => injection H as <-
  end.

(** ** Collecting files *)

Lemma run_all_collect (cond : str -> bool) l acc :
  run_all (fun file => when (cond file) (modify (fun res => res ++ [file]))) l acc =
  (acc ++ filter (fun x => cond x = true) l, Ok tt).
Proof.
  revert acc. induction l as [|x l IH]; intros acc; cbn [run_all]; [by rewrite app_nil_r|].
  unfold mbind, stm_bind, when. destruct (cond x) eqn:E; unfold modify, mret, stm_ret.
  - rewrite IH, filter_cons_True by done. by rewrite <- app_assoc.
  - rewrite IH, filter_cons_False; [done|congruence].
Qed.

Lemma elem_of_collect pc p cond x : well_formed pc ->
  x ∈ collect_files pc p cond <-> x ∈ contents pc /\ p `prefix_of` x /\ cond x = true.
Proof.
  intros W. unfold collect_files. rewrite for_each_with_prefix_spec by done. rewrite run_all_collect. cbn [fst app].
  rewrite !list_elem_of_filter. tauto.
Qed.

Lemma split_min_perm {A} (less : A -> A -> bool) l : forall before m after b m' a,
  split_min less before m after l = (b, m', a) -> b ++ m' :: a ≡ₚ before ++ m :: after ++ l.
Proof.
  induction l as [|x l IH]; intros before m after b m' a; cbn [split_min].
  - intros [= -> -> ->]. by rewrite app_nil_r.
  - destruct (less x m); intros H; apply IH in H; rewrite H.
    + rewrite <- !app_assoc. cbn. by rewrite <- (Permutation_middle after l x).
    + rewrite <- !app_assoc. done.
Qed.

Lemma min_to_front_perm {A} (less : A -> A -> bool) l : min_to_front less l ≡ₚ l.
Proof.
  destruct l as [|x l]; [done|]. cbn [min_to_front]. destruct (split_min less [] x [] l) as [[b m] a] eqn:E.
  apply split_min_perm in E. cbn [app] in E. rewrite <- E. destruct b as [|f b]; [done|]. cbn.
  rewrite <- !Permutation_middle. constructor.
Qed.

(** ** Invariants of a computation, also when it throws *)

Definition keeps {S A} (P : S -> Prop) (m : stm S A) : Prop := forall s, P s -> P (m s).1.

Section Keeps.
Context {S : Type} (P : S -> Prop).

Lemma keeps_preserves {A B} (f : S -> B) (Q : B -> Prop) (m : stm S A) :
  (forall s, P s <-> Q (f s)) -> preserves f m -> keeps P m.
Proof. intros H Hm s Hs. apply H. rewrite Hm. by apply H. Qed.

Lemma keeps_bind {A C} (m : stm S A) (k : A -> stm S C) :
  keeps P m -> (forall a, keeps P (k a)) -> keeps P (m ≫= k).
Proof.
  intros Hm Hk s Hs. unfold mbind, stm_bind. specialize (Hm s Hs). destruct (m s) as [s' [a|e| |]]; cbn in *; [|done..].
  by apply Hk.
Qed.

Lemma keeps_modify (g : S -> S) : (forall s, P s -> P (g s)) -> keeps P (modify g).
Proof. intros H s Hs. by apply H. Qed.

Lemma keeps_when c (m : stm S unit) : keeps P m -> keeps P (when c m).
Proof. intros H. destruct c; [done|by intros s]. Qed.

Lemma keeps_run_all {A} (g : A -> stm S unit) l : Forall (fun a => keeps P (g a)) l -> keeps P (run_all g l).
Proof. induction 1; cbn [run_all]; [by intros s|]. by apply keeps_bind. Qed.

Lemma keeps_Ok {A} (m : stm S A) s s' r : keeps P m -> m s = (s', r) -> P s -> P s'.
Proof. intros H E Hs. specialize (H s Hs). by rewrite E in H. Qed.
End Keeps.

(** Elements of a map after an update. *)
Lemma map_update_Forall {K V} (less : K -> K -> bool) (P : K * V -> Prop) k dflt f m :
  P (k, f dflt) -> (forall k' v, equiv less k k' = true -> P (k', v) -> P (k', f v)) ->
  Forall P m -> Forall P (map_update less k dflt f m).
Proof.
  intros H1 H2. induction 1 as [|[k' v] m Hx Hm IH]; cbn [map_update]; [by repeat constructor|].
  destruct (less k' k) eqn:E1; [by constructor|]. destruct (less k k') eqn:E2; [by repeat constructor|].
  constructor; [|done]. apply H2; [|done]. unfold equiv. by rewrite E1, E2.
Qed.

(** ** Choosing files *)

Section Choose.
Variables (opts : Options) (pc : PackageContents) (d : str).
Hypothesis W : well_formed pc.
Hypothesis Hd : forall e, e ∈ contents pc -> d `prefix_of` e.

(** A file of the package, below its main directory. *)
Definition in_pkg (f : str) : Prop := d ++ f ∈ contents pc.

Lemma exists_in_pkg_true f : exists_in_pkg pc d f = true -> in_pkg f.
Proof.
  unfold exists_in_pkg. intros H. bools. rewrite exists_spec in H0 by done. by apply bool_decide_eq_true in H0.
Qed.

Lemma entry_suffix e : e ∈ contents pc -> exists f, e = d ++ f /\ in_pkg f /\ drop (length d) e = f /\
  SV.substr_from e (length d) = Ok f.
Proof.
  intros H. destruct (Hd e H) as [f ->]. exists f. unfold SV.substr_from, in_pkg.
  rewrite drop_app_length, length_app, (proj2 (Nat.ltb_ge _ _)) by lia. done.
Qed.

Lemma load_checker_throw s s' e : load_checker s = (s', Throw e) -> checker s' = checker s.
Proof.
  revert s s' e. change (throw_preserves checker load_checker). unfold load_checker.
  apply throw_bind; [unfold load_interactive, CHECK_IF_NOT_ARR; frame|]. intros _.
  apply throw_bind; [frame|]. intros var. apply throw_bind; [unfold CHECK_IF_NOT_ARR; frame|]. intros _.
  destruct (_ || _); apply throw_bind; [frame| |frame|]; intros x.
  - apply throw_bind; [frame|]. intros _. apply throw_modify.
  - apply throw_modify.
Qed.

Lemma choose_checker_valid cs cs' : checker (sf cs) = None ->
  choose_checker opts pc d cs = (cs', Ok tt) ->
  (forall c, checker (sf cs') = Some c -> in_pkg c) /\ (interactive (sf cs') = true -> checker (sf cs') <> None).
Proof.
  intros Hn H. unfold choose_checker in H. apply stm_bind_Ok in H as (cs1 & [] & H1 & H).
  assert (forall c, checker (sf cs1) = Some c -> in_pkg c) as P1.
  { unfold try_catch in H1. destruct ((on_sf load_checker ≫= _) cs) as [cs2 [[]|e| |]] eqn:E; [|clear H|done..].
    - injection H1 as ->. apply stm_bind_Ok in E as (cs3 & [] & E1 & E).
      apply stm_bind_Ok in E as (cs4 & c0 & E2 & E). injection E2 as <- <-.
      destruct (checker (sf cs3)) as [c|] eqn:Ec.
      + destruct (exists_in_pkg pc d c) eqn:Ex; cbn [negb] in E.
        * injection E as <-. intros c' Hc'. rewrite Hc' in Ec. injection Ec as ->. by apply exists_in_pkg_true.
        * apply stm_bind_Ok in E as (cs4 & [] & _ & E). injection E as <-. done.
      + injection E as <-. cbn. by rewrite Ec.
    - unfold on_sf in E. unfold mbind, stm_bind in E. destruct (load_checker (sf cs)) as [s2 [[]|e2| |]] eqn:El.
      + exfalso. unfold gets in E. cbn [sf set_sf] in E. destruct (checker s2) as [c|]; [|discriminate E].
        destruct (negb _); discriminate E.
      + injection E as <- _. injection H1 as <-. cbn. apply load_checker_throw in El. rewrite El, Hn. done.
      + done.
      + done. }
  clear H1. apply stm_bind_Ok in H as (cs2 & [] & H1 & H).
  assert (checker (sf cs2) = checker (sf cs1)) as E2 by (destruct (opt_interactive opts); by injection H1 as <-).
  clear H1. apply stm_bind_Ok in H as (cs3 & c & H1 & H). injection H1 as <- <-. rewrite E2 in *.
  destruct (checker (sf cs1)) as [c|] eqn:Ec.
  - injection H as <-. rewrite E2. split; [|done]. intros c' [= <-]. auto.
  - clear P1. apply stm_bind_Ok in H as (cs3 & i & H1 & H). injection H1 as <- <-.
    destruct (min_to_front shorter _) as [|c l] eqn:Em.
    + destruct (interactive (sf cs2)) eqn:Ei.
      * apply stm_bind_Ok in H as (cs4 & [] & _ & H). discriminate.
      * injection H as <-. cbn. rewrite E2, Ei. done.
    + assert (c ∈ contents pc) as Hc.
      { assert (c ∈ min_to_front shorter (collect_files pc (d ++ lit "check/") is_source ++
          collect_files pc (d ++ lit "checker/") is_source)) as Hin by (rewrite Em; left).
        rewrite min_to_front_perm in Hin. rewrite elem_of_app, !elem_of_collect in Hin by done. tauto. }
      destruct (entry_suffix c Hc) as (f & _ & Hf & _ & Es). rewrite Es in H. inv_cs. subst. cbn.
      split; [by intros c' [= <-]|done].
Qed.

(** With [require_statement] there is one, and it is a file of the package. *)
Lemma choose_statement_valid cs cs' : require_statement opts = true ->
  choose_statement opts pc d cs = (cs', Ok tt) ->
  exists st, statement (sf cs') = Some st /\ in_pkg st.
Proof.
  intros Hreq H. unfold choose_statement in H. apply stm_bind_Ok in H as (cs1 & [] & _ & H).
  apply stm_bind_Ok in H as (cs2 & st & H1 & H). injection H1 as <- <-.
  destruct (match statement (sf cs1) with Some _ => _ | None => _ end) eqn:Est.
  - injection H as <-. destruct (statement (sf cs1)) as [st|] eqn:E; [|done]. apply andb_true_iff in Est as [Ex _].
    exists st. split; [done|]. by apply exists_in_pkg_true.
  - apply stm_bind_Ok in H as (cs2 & [] & _ & H). cbn zeta in H. set (x := if (_ =? 0)%nat then _ else _) in H.
    destruct (min_to_front better_statement x) as [|s l] eqn:Em.
    + rewrite Hreq in H. apply stm_bind_Ok in H as (cs3 & [] & H1 & _). discriminate H1.
    + assert (s ∈ contents pc) as Hs.
      { assert (s ∈ min_to_front better_statement x) as Hin by (rewrite Em; left).
        rewrite min_to_front_perm in Hin. unfold x in Hin. destruct (_ =? 0)%nat; apply elem_of_collect in Hin; tauto. }
      destruct (entry_suffix s Hs) as (f & _ & Hf & _ & Es). rewrite Es in H. inv_cs. subst. cbn. by eexists.
Qed.

(** *** Solutions *)

Lemma valid_solutions_spec sols : forall acc cs cs' res,
  NoDup acc -> Forall in_pkg acc -> valid_solutions pc d acc sols cs = (cs', Ok res) ->
  NoDup res /\ Forall in_pkg res.
Proof.
  induction sols as [|sol sols IH]; intros acc cs cs' res Hn Ha H; cbn [valid_solutions] in H.
  { by inv_cs. }
  destruct (exists_in_pkg pc d sol && _) eqn:E.
  - bools. apply bool_decide_eq_true in H1. eapply IH; [| |exact H].
    + apply NoDup_app. split; [done|]. split; [|apply NoDup_singleton]. intros x Hx Hs.
      apply list_elem_of_singleton in Hs as ->. done.
    + apply Forall_app. split; [done|]. apply Forall_singleton. by apply exists_in_pkg_true.
  - apply stm_bind_Ok in H as (cs1 & [] & _ & H). by eapply IH.
Qed.

Lemma merge_solutions_spec x : forall acc, NoDup acc -> Forall in_pkg acc -> Forall (fun e => e ∈ contents pc) x ->
  NoDup (merge_solutions d acc x) /\ Forall in_pkg (merge_solutions d acc x) /\
  (acc <> [] \/ x <> [] -> merge_solutions d acc x <> []).
Proof.
  induction x as [|s x IH]; intros acc Hn Ha Hx; cbn [merge_solutions]; [by split_and!; [..|intros []]|].
  apply Forall_cons in Hx as [Hs Hx]. cbn zeta. rewrite SV.remove_prefix_drop.
  destruct (entry_suffix s Hs) as (f & _ & Hf & -> & _).
  destruct (bool_decide_reflect (f ∈ acc)) as [Hin|Hin].
  - destruct (IH acc Hn Ha Hx) as (H1 & H2 & H3). split_and!; [done|done|]. intros _. apply H3. left. by intros ->; apply not_elem_of_nil in Hin.
  - destruct (IH (acc ++ [f])) as (H1 & H2 & H3); [| |done|].
    + apply NoDup_app. split; [done|]. split; [|apply NoDup_singleton]. intros y Hy Hs'.
      apply list_elem_of_singleton in Hs' as ->. done.
    + apply Forall_app. split; [done|]. by apply Forall_singleton.
    + split_and!; [done|done|]. intros _. apply H3. left. by destruct acc.
Qed.

Lemma choose_solutions_valid cs cs' : choose_solutions pc d cs = (cs', Ok tt) ->
  NoDup (solutions (sf cs')) /\ Forall in_pkg (solutions (sf cs')) /\ solutions (sf cs') <> [].
Proof.
  intros H. unfold choose_solutions in H. apply stm_bind_Ok in H as (cs1 & [] & _ & H).
  apply stm_bind_Ok in H as (cs2 & sols & H1 & H). injection H1 as <- <-.
  apply stm_bind_Ok in H as (cs2 & acc & H1 & H). cbn zeta in H. apply stm_bind_Ok in H as (cs3 & x & H2 & H).
  injection H as <-. cbn [sf set_sf solutions].
  apply valid_solutions_spec in H1 as [Hn Ha]; [|constructor|constructor].
  assert (Forall (fun e => e ∈ contents pc) (collect_files pc [] is_source)) as Hc.
  { apply Forall_forall. intros e He. by apply elem_of_collect in He as [He _]. }
  assert (Forall (fun e => e ∈ contents pc) x /\ (acc <> [] \/ x <> [])) as [Hx Hne].
  { destruct acc as [|a acc]; cbn [length Nat.eqb] in H2.
    - apply stm_bind_Ok in H2 as (cs4 & [] & H2 & H3). apply when_throw_Ok in H2 as [E ->]. injection H3 as <- <-.
      split; [by rewrite min_to_front_perm|]. right. intros E'. apply (f_equal length) in E'.
      rewrite (Permutation_length (min_to_front_perm shorter _)) in E'. rewrite E' in E. discriminate.
    - injection H2 as <- <-. split; [done|]. by left. }
  destruct (merge_solutions_spec x acc Hn Ha Hx) as (H3 & H4 & H5). auto.
Qed.

(** *** Test files *)

(** The files of a test exist. *)
Definition files_ok (p : TestProperties) : Prop :=
  (forall i, prop_in p = Some i -> in_pkg i) /\ (forall o, prop_out p = Some o -> in_pkg o).

Definition tests_ok (cs : CS) : Prop := Forall (fun np => files_ok np.2) (tests_ cs).

Lemma no_props_ok : files_ok no_props.
Proof. done. Qed.

Lemma set_in_ok i p : in_pkg i -> files_ok p -> files_ok (set_in i p).
Proof. intros H [H1 H2]. split; [by intros ? [= <-]|done]. Qed.

Lemma set_out_ok o p : in_pkg o -> files_ok p -> files_ok (set_out o p).
Proof. intros H [H1 H2]. split; [done|by intros ? [= <-]]. Qed.

Lemma keeps_tests_preserves {A} (m : stm CS A) : preserves tests_ m -> keeps tests_ok m.
Proof. apply (keeps_preserves tests_ok tests_ (Forall (fun np => files_ok np.2))). done. Qed.

Lemma keeps_change nm f : (forall p, files_ok p -> files_ok (f p)) -> keeps tests_ok (modify_tests (change_test nm f)).
Proof.
  intros H. apply keeps_modify. intros cs Hcs. unfold tests_ok, change_test in *. cbn.
  apply map_update_Forall; [apply H, no_props_ok|by intros ? ? _; apply H|done].
Qed.

Lemma load_limits_tests_ok : keeps tests_ok (load_limits opts).
Proof.
  apply keeps_bind; [apply keeps_tests_preserves; unfold used_array; frame|]. intros items.
  apply keeps_run_all, Forall_forall. intros item _. unfold load_limits_item, parse_or_warn.
  destruct (parse_limits_item item) as [[[nm tl] ml]|e| |]; [|apply keeps_tests_preserves; unfold append; frame..].
  apply keeps_bind; [by intros cs|]. intros [[nm' tl'] ml'].
  destruct (SV.empty _); [apply keeps_tests_preserves; unfold append; frame|].
  apply keeps_modify. intros cs Hcs. unfold tests_ok, assign_test in *. cbn.
  apply map_update_Forall; [done|done|done].
Qed.

Lemma find_test_files_tests_ok : keeps tests_ok (find_test_files opts pc d).
Proof.
  intros cs. unfold find_test_files. rewrite for_each_with_prefix_spec by done. revert cs. fold (keeps (A := unit) tests_ok).
  apply keeps_run_all, Forall_forall. intros e He. apply list_elem_of_filter in He as [_ He].
  unfold add_test_file. cbn zeta. rewrite SV.remove_prefix_drop.
  destruct (entry_suffix e He) as (f & _ & Hf & -> & _). apply keeps_bind; [by intros cs|]. intros inter.
  destruct (negb _); [by intros cs|]. apply keeps_bind; [apply keeps_when, keeps_change; done|]. intros _.
  apply keeps_bind; [by intros cs|]. intros m. destruct (map_find _ _ _) as [t|]; [|by intros cs].
  destruct (has_suffix f _); (apply keeps_bind; [apply keeps_tests_preserves; unfold warn_twice, append; frame|]);
    intros _; apply keeps_change; intros p; [apply set_in_ok|apply set_out_ok]; done.
Qed.

Lemma usable_input_spec input cs cs' r : usable_input pc d input cs = (cs', Ok r) ->
  tests_ cs' = tests_ cs /\ forall i, r = Some i -> in_pkg i.
Proof.
  unfold usable_input. rewrite exists_spec by done. intros H. destruct (bool_decide_reflect (d ++ input ∈ contents pc)) as [Hi|Hi];
    cbn [negb] in H.
  - injection H as <- <-. split; [done|]. by intros i [= <-].
  - apply stm_bind_Ok in H as (cs1 & [] & H1 & H). injection H as <- <-. injection H1 as <-. done.
Qed.

Lemma usable_output_spec nm input output cs cs' r : usable_output pc d nm input output cs = (cs', Ok r) ->
  tests_ cs' = tests_ cs /\ forall o, r = Some o -> in_pkg o.
Proof.
  intros H. split.
  { eapply (preserves_Ok tests_); [|exact H]. unfold usable_output, tests_files_warning, append. frame. }
  unfold usable_output in H. apply stm_bind_Ok in H as (cs1 & i & H1 & H). injection H1 as <- <-.
  destruct (interactive (sf cs)).
  { apply stm_bind_Ok in H as (cs2 & [] & _ & H). by injection H as <- <-. }
  destruct (SV.empty output).
  { apply stm_bind_Ok in H as (cs2 & [] & _ & H). by injection H as <- <-. }
  rewrite exists_spec in H by done. destruct (bool_decide_reflect (d ++ output ∈ contents pc)) as [Ho|Ho]; cbn [negb] in H.
  - injection H as <- <-. by intros o [= <-].
  - apply stm_bind_Ok in H as (cs2 & [] & _ & H). by injection H as <- <-.
Qed.

Lemma load_tests_files_item_ok item cs cs' : tests_ok cs ->
  load_tests_files_item opts pc d item cs = (cs', Ok tt) -> tests_ok cs'.
Proof.
  intros Hcs H. unfold load_tests_files_item, parse_or_warn in H.
  destruct (parse_test_files_item item) as [[[nm input] output]|e| |]; [|by injection H as <-|discriminate H..].
  apply stm_bind_Ok in H as (cs0 & [[nm' input'] output'] & H0 & H). injection H0 as <- <- <- <-.
  destruct (SV.empty nm); [by injection H as <-|]. destruct (SV.empty input).
  { apply stm_bind_Ok in H as (cs1 & [] & H1 & H). injection H1 as <-. by apply when_throw_Ok in H as [_ ->]. }
  apply stm_bind_Ok in H as (cs1 & i & H1 & H). apply usable_input_spec in H1 as [E1 Hi].
  apply stm_bind_Ok in H as (cs2 & o & H1 & H). apply usable_output_spec in H1 as [E2 Ho].
  assert (tests_ok cs2) as H2 by (unfold tests_ok; by rewrite E2, E1).
  apply stm_bind_Ok in H as (cs3 & [] & H1 & H).
  assert (tests_ok cs3) as H4.
  { refine (keeps_Ok tests_ok _ _ _ _ _ H1 H2). by apply keeps_when, keeps_change. }
  apply stm_bind_Ok in H as (cs4 & m & H3 & H). injection H3 as <- <-.
  destruct (map_find _ _ _) as [t|]; [|by injection H as <-].
  refine (keeps_Ok tests_ok _ _ _ _ _ H H4).
  apply keeps_bind; [destruct i as [i|]; [|by intros ?]|intros _; destruct o as [o|]; [|by intros ?]];
    apply keeps_change; intros p; [apply set_in_ok|apply set_out_ok]; auto.
Qed.

Lemma load_files_ok cs cs' : tests_ok cs -> load_files opts pc d cs = (cs', Ok tt) -> tests_ok cs'.
Proof.
  intros Hcs H. unfold load_files in H. apply stm_bind_Ok in H as (cs1 & items & H1 & H).
  unfold used_array in H1. apply stm_bind_Ok in H1 as (cs2 & v & H2 & H1). injection H2 as <- <-. injection H1 as <- _.
  revert cs Hcs H. induction items as [|item items IH]; intros cs Hcs H; cbn [run_all] in H; [by injection H as <-|].
  apply stm_bind_Ok in H as (cs1 & [] & H1 & H). eapply IH; [|exact H]. by eapply load_tests_files_item_ok.
Qed.

(** *** Dropping incomplete tests *)

Lemma filter_tests_spec inter m : forall cs cs' m', filter_tests inter m cs = (cs', Ok m') ->
  sf cs' = sf cs /\ m' = filter (fun np => complete_test inter np.2 = true) m.
Proof.
  induction m as [|[n p] m IH]; intros cs cs' m' H; cbn [filter_tests] in H; [by injection H as <- <-|].
  apply stm_bind_Ok in H as (cs1 & [] & H1 & H). apply stm_bind_Ok in H as (cs2 & [] & H2 & H).
  apply stm_bind_Ok in H as (cs3 & rest & H3 & H). injection H as <- <-. apply IH in H3 as [E3 ->].
  assert (sf cs1 = sf cs) as E1 by (eapply (preserves_Ok sf); [|exact H1]; unfold append; frame).
  assert (sf cs2 = sf cs1) as E2 by (eapply (preserves_Ok sf); [|exact H2]; unfold append; frame).
  split; [congruence|]. destruct (complete_test inter p) eqn:E.
  - by rewrite filter_cons_True.
  - rewrite filter_cons_False; [done|]. cbn. congruence.
Qed.

(** A test with all its files. *)
Definition test_complete (inter : bool) (p : TestProperties) : Prop :=
  files_ok p /\ complete_test inter p = true.

Lemma drop_incomplete_ok cs cs' : tests_ok cs -> drop_incomplete cs = (cs', Ok tt) ->
  sf cs' = sf cs /\ Forall (fun np => test_complete (interactive (sf cs)) np.2) (tests_ cs').
Proof.
  intros Hcs H. unfold drop_incomplete in H. apply stm_bind_Ok in H as (cs1 & inter & H1 & H). injection H1 as <- <-.
  apply stm_bind_Ok in H as (cs1 & m & H1 & H). injection H1 as <- <-.
  apply stm_bind_Ok in H as (cs1 & m' & H1 & H). injection H as <-. apply filter_tests_spec in H1 as [E ->].
  cbn. split; [done|]. apply Forall_forall. intros np Hnp. apply list_elem_of_filter in Hnp as [Hc Hin].
  unfold tests_ok in Hcs. rewrite Forall_forall in Hcs. split; [by apply Hcs|done].
Qed.
End Choose.

(** ** Memory limits *)

Lemma default_memory_limits_spec (P : TestProperties -> Prop) gml m m' :
  (forall ml p, P p -> P (set_memory_limit ml p)) -> Forall (fun np => P np.2) m ->
  default_memory_limits gml m = Ok m' ->
  Forall (fun np => P np.2 /\ is_Some (prop_memory_limit np.2)) m'.
Proof.
  intros HP Hm. revert m'. induction Hm as [|[n p] m Hp Hm IH]; intros m' H; cbn [default_memory_limits] in H.
  { injection H as <-. constructor. }
  apply bind_Ok in H as (p' & Hp' & H). apply bind_Ok in H as (rest & Hr & [= <-]). constructor; [|by apply IH].
  cbn in *. destruct (prop_memory_limit p) as [ml|] eqn:E; cbn in Hp'.
  - injection Hp' as <-. rewrite E. split; [done|by eexists].
  - destruct gml as [ml|]; [|discriminate]. injection Hp' as <-. split; [by apply HP|by eexists].
Qed.

Lemma choose_memory_limits_spec (P : TestProperties -> Prop) opts cs cs' :
  (forall ml p, P p -> P (set_memory_limit ml p)) -> Forall (fun np => P np.2) (tests_ cs) ->
  choose_memory_limits opts cs = (cs', Ok tt) ->
  Forall (fun np => P np.2 /\ is_Some (prop_memory_limit np.2)) (tests_ cs').
Proof.
  intros HP Hcs H. unfold choose_memory_limits in H. destruct (opt_memory_limit opts) as [ml|].
  - apply stm_bind_Ok in H as (cs1 & [] & H1 & H). injection H1 as <-. injection H as <-. cbn.
    apply Forall_fmap. eapply Forall_impl; [exact Hcs|]. intros [n p] Hp. cbn in *. split; [by apply HP|by eexists].
  - apply stm_bind_Ok in H as (cs1 & [] & H1 & H). apply when_throw_Ok in H1 as [_ ->].
    apply stm_bind_Ok in H as (cs1 & [] & H1 & H). injection H1 as <-.
    apply stm_bind_Ok in H as (cs2 & [] & H2 & H).
    assert (tests_ cs2 = tests_ cs) as E2 by (unfold on_sf in H2; destruct (load_global_memory_limit_only _); by injection H2 as <- _).
    apply stm_bind_Ok in H as (cs3 & gml & H3 & H). injection H3 as <- <-.
    apply stm_bind_Ok in H as (cs3 & [] & H3 & H).
    assert (tests_ cs3 = tests_ cs2) as E3 by (eapply (preserves_Ok tests_); [|exact H3]; unfold append; frame).
    apply stm_bind_Ok in H as (cs4 & m & H4 & H). injection H4 as <- <-.
    apply stm_bind_Ok in H as (cs4 & m' & H4 & H). injection H4 as <- H4. injection H as <-. cbn.
    eapply default_memory_limits_spec; [exact HP| |exact H4]. by rewrite E3, E2.
Qed.

(** ** Groups *)

(** The tests of a group belong to it and satisfy [P]. *)
Definition group_ok (P : TestProperties -> Prop) (x : str * list (str * TestProperties)) : Prop :=
  x.2 <> [] /\ Forall (fun np => P np.2 /\ (split np.1).1 <> [] /\ equiv StrNumCompare (test_gid np.1) x.1 = true) x.2.

Definition groups_ok (P : TestProperties -> Prop) (gs : list (str * TestsGroup)) : Prop :=
  map_sorted StrNumCompare gs /\ Forall (fun kg => group_ok P (kg.1, group_tests kg.2)) gs.

Lemma multimap_emplace_perm {K V} less (k : K) (v : V) m : multimap_emplace less k v m ≡ₚ (k, v) :: m.
Proof.
  induction m as [|[k' v'] m IH]; cbn [multimap_emplace]; [done|]. destruct (less k k'); [done|].
  rewrite IH. apply Permutation_swap.
Qed.

Lemma add_to_group_ok P n p gs : P p -> groups_ok P gs -> groups_ok P (add_to_group n p gs).
Proof.
  intros Hp [Hs Hg]. unfold add_to_group. destruct (SV.empty (split n).1) eqn:E; [done|].
  assert ((split n).1 <> []) as Hne by (intros C; by rewrite C in E). split; [by apply map_update_sorted; [apply _|]|].
  apply map_update_Forall; [| |done].
  - split; [done|]. cbn. repeat constructor; [done|done|]. apply equiv_refl, _.
  - intros k' g Hk [H1 H2]. cbn in *. split; cbn.
    + intros C. apply (f_equal length) in C. by rewrite multimap_emplace_perm in C.
    + rewrite multimap_emplace_perm. by constructor.
Qed.

Lemma fill_groups_ok P m : Forall (fun np => P np.2) m -> groups_ok P (fill_groups m).
Proof.
  unfold fill_groups. assert (groups_ok P []) as H0 by (split; constructor). revert H0. generalize (@nil (str * TestsGroup)).
  intros gs H0 Hm. revert gs H0. induction Hm as [|[n p] m Hp Hm IH]; intros gs H0; cbn [fold_left]; [done|].
  apply IH. by apply add_to_group_ok.
Qed.

Lemma load_scoring_ok P items : forall gs cs cs' gs', groups_ok P gs ->
  load_scoring gs items cs = (cs', Ok gs') -> groups_ok P gs' /\ sf cs' = sf cs.
Proof.
  induction items as [|item items IH]; intros gs cs cs' gs' Hg H; cbn [load_scoring] in H; [by injection H as <- <-|].
  destruct (parse_scoring_item item) as [[gid sc]|e| |]; [|apply stm_bind_Ok in H as (cs1 & [] & H1 & H); injection H1 as <-;
    by apply IH in H as [H2 ->]|discriminate H..].
  destruct (map_find StrNumCompare gid gs) as [g0|] eqn:Ef.
  - apply IH in H; [done|]. destruct Hg as [Hs Hg]. split; [by apply map_update_sorted; [apply _|]|].
    clear H IH Hs. induction Hg as [|[k g] gs Hx Hg IHg]; [done|]. cbn [map_find map_update] in *.
    destruct (StrNumCompare k gid) eqn:E1; [constructor; [done|by apply IHg]|].
    destruct (StrNumCompare gid k); [done|]. by constructor.
  - apply stm_bind_Ok in H as (cs1 & [] & H1 & H). injection H1 as <-. by apply IH in H as [H2 ->].
Qed.

(** ** Scoring *)

Definition pos_score (g : TestsGroup) : Z := Z.max (default 0 (group_score g)) 0.

Fixpoint total_pos (gs : list (str * TestsGroup)) : Z :=
  match gs with [] => 0 | (_, g) :: gs' => pos_score g + total_pos gs' end.

Fixpoint unscored (gs : list (str * TestsGroup)) : Z :=
  match gs with [] => 0 | (_, g) :: gs' => (if has_value (group_score g) then 0 else 1) + unscored gs' end.

Lemma total_pos_nonneg gs : 0 <= total_pos gs.
Proof. induction gs as [|[k g] gs IH]; cbn; [lia|]. unfold pos_score. lia. Qed.

Lemma unscored_nonneg gs : 0 <= unscored gs.
Proof. induction gs as [|[k g] gs IH]; cbn; [lia|]. case_goal; lia. Qed.

Lemma sum_scores_fold gs : forall acc, 0 <= acc -> acc + total_pos gs < 2 ^ 64 ->
  fold_left (fun acc '(_, g) => wrap_u64 (acc + Z.max (default 0 (group_score g)) 0)) gs acc = acc + total_pos gs.
Proof.
  induction gs as [|[k g] gs IH]; intros acc H0 H; cbn [fold_left total_pos] in *; [lia|].
  pose proof (total_pos_nonneg gs). fold (pos_score g) in *. assert (0 <= pos_score g) by (unfold pos_score; lia).
  unfold wrap_u64 at 2. rewrite Z.mod_small by lia. rewrite IH by lia. lia.
Qed.

Lemma sum_scores_eq gs : total_pos gs < 2 ^ 64 -> sum_scores gs = total_pos gs.
Proof. intros H. unfold sum_scores. rewrite sum_scores_fold; lia. Qed.

Lemma count_unscored_eq gs : count_unscored gs = unscored gs.
Proof.
  unfold count_unscored. replace (unscored gs) with (0 + unscored gs) by lia. generalize 0.
  induction gs as [|[k g] gs IH]; intros acc; cbn [fold_left unscored]; [lia|]. rewrite IH. case_goal; lia.
Qed.

(** What scoring does to a group: nothing but giving a score to one without. *)
Definition scored (a b : str * TestsGroup) : Prop :=
  b.1 = a.1 /\ group_tests b.2 = group_tests a.2 /\
  match group_score a.2 with
  | Some sc => group_score b.2 = Some sc
  | None => exists sc, group_score b.2 = Some sc /\ 0 <= sc
  end.

Lemma scored_refl a : is_Some (group_score a.2) -> scored a a.
Proof. intros [sc H]. unfold scored. by rewrite H. Qed.

(** The points to distribute all go to the groups without a score; the division
    is never by zero. *)
Lemma distribute_spec gs : forall ms cs, 0 <= ms ->
  exists cs' gs', distribute ms (unscored gs) gs cs = (cs', Ok gs') /\ sf cs' = sf cs /\ Forall2 scored gs gs' /\
    total_pos gs' = total_pos gs + (if 0 <? unscored gs then ms else 0).
Proof.
  induction gs as [|[k g] gs IH]; intros ms cs Hms; cbn [distribute unscored].
  { exists cs, []. by repeat split. }
  destruct (has_value (group_score g)) eqn:Es.
  - rewrite Z.add_0_l. destruct (IH ms cs Hms) as (cs' & gs' & E & H1 & H2 & H3).
    exists cs', ((k, g) :: gs'). unfold mbind, stm_bind. rewrite E. split; [done|]. split; [done|]. split.
    + constructor; [|done]. apply scored_refl. cbn. destruct (group_score g); [by eexists|done].
    + cbn [total_pos]. lia.
  - pose proof (unscored_nonneg gs) as Hu. rewrite (proj2 (Z.eqb_neq _ _)) by lia. cbn zeta.
    set (sc := ms / (1 + unscored gs)).
    match goal with |- context [append ?m] => set (msg := m) end. set (cs1 := (append msg cs).1).
    assert (0 <= sc <= ms) as Hsc.
    { split; [apply Z.div_pos; lia|]. apply Z.div_le_upper_bound; [lia|]. nia. }
    destruct (IH (ms - sc) cs1 ltac:(lia)) as (cs' & gs' & E & H1 & H2 & H3).
    exists cs', ((k, mkGroup (Some sc) (group_tests g)) :: gs'). split.
    { rewrite (stm_bind_run _ _ cs cs1 tt) by done. replace (1 + unscored gs - 1) with (unscored gs) by lia.
      by rewrite (stm_bind_run _ _ cs1 cs' gs'). }
    split; [done|]. split.
    + constructor; [|done]. unfold scored. cbn. destruct (group_score g); [done|]. split_and!; [done|done|]. exists sc. split; [done|lia].
    + cbn [total_pos]. unfold pos_score at 1 2. cbn. destruct (group_score g); [done|]. cbn.
      rewrite (proj2 (Z.ltb_lt 0 (1 + unscored gs))) by lia. destruct (Z.ltb_spec 0 (unscored gs)); [lia|].
      assert (unscored gs = 0) as U by lia. assert (sc = ms) by (unfold sc; rewrite U, Z.div_1_r; done). lia.
Qed.

(** The first group has the id 0 and no score yet: it gets no points. *)
Definition zero_first (gs : list (str * TestsGroup)) : bool :=
  match gs with
  | (gid, g) :: _ => SV.empty (SV.remove_leading_char "0" gid) && negb (has_value (group_score g))
  | [] => false
  end.

Lemma score_groups_spec gs cs : exists cs' gs', score_groups gs cs = (cs', Ok gs') /\ sf cs' = sf cs /\
  Forall2 scored gs gs' /\
  (zero_first gs = true -> exists k g, head gs' = Some (k, g) /\ group_score g = Some 0) /\
  (total_pos gs <= 100 -> (if zero_first gs then 1 else 0) < unscored gs -> total_pos gs' = 100).
Proof.
  unfold score_groups. rewrite count_unscored_eq. cbn zeta. destruct (Z.ltb_spec 0 (unscored gs)) as [Hu|Hu].
  2:{ assert (Forall (fun kg => is_Some (group_score kg.2)) gs) as Hs.
      { induction gs as [|[k g] gs IH]; [constructor|]. cbn [unscored] in Hu. pose proof (unscored_nonneg gs).
        destruct (group_score g) as [sc|] eqn:E; cbn in Hu; [|lia]. constructor; [by eexists|apply IH; lia]. }
      exists cs, gs. split; [done|]. split; [done|]. split; [|split].
      - induction Hs; constructor; [by apply scored_refl|apply IHHs]. cbn [unscored] in Hu. destruct x. pose proof (unscored_nonneg l). case_match; lia.
      - destruct Hs as [|[k g] gs [sc Hsc] _]; [done|]. cbn in *. rewrite Hsc. cbn. by rewrite andb_false_r.
      - intros _ H. destruct (zero_first gs); lia. }
  destruct gs as [|[gid g] gs]; [cbn in Hu; lia|].
  set (ms := if 100 <? sum_scores ((gid, g) :: gs) then 0 else 100 - sum_scores ((gid, g) :: gs)).
  assert (0 <= ms) as Hms.
  { unfold ms. destruct (Z.ltb_spec 100 (sum_scores ((gid, g) :: gs))); lia. }
  assert (total_pos ((gid, g) :: gs) <= 100 -> ms = 100 - total_pos ((gid, g) :: gs)) as Ems.
  { intros H. unfold ms. rewrite sum_scores_eq by lia. destruct (Z.ltb_spec 100 (total_pos ((gid, g) :: gs))); lia. }
  clearbody ms. cbn [zero_first]. destruct (SV.empty _ && negb (has_value (group_score g))) eqn:Ez.
  - apply andb_true_iff in Ez as [_ Ez]. apply negb_true_iff in Ez.
    match goal with |- context [append ?m] => set (msg := m) end. set (cs1 := (append msg cs).1).
    set (gs1 := (gid, mkGroup (Some 0) (group_tests g)) :: gs).
    destruct (distribute_spec gs1 ms cs1 Hms) as (cs' & gs' & E & H1 & H2 & H3).
    assert (unscored ((gid, g) :: gs) - 1 = unscored gs1) as Eu by (cbn; rewrite Ez; lia).
    assert (total_pos gs1 = total_pos ((gid, g) :: gs)) as Et.
    { cbn. unfold pos_score. cbn. destruct (group_score g); [done|]. done. }
    inversion H2 as [|? [k' g'] ? gs2 (K1 & K2 & K3) Hr]; subst. cbn in K1, K2, K3. subst.
    exists cs', ((gid, g') :: gs2). rewrite Eu. split; [by rewrite (stm_bind_run _ _ cs cs1 tt)|]. split; [done|].
    split; [|split].
    + constructor; [|done]. unfold scored. cbn. rewrite K2, K3. destruct (group_score g); [done|].
      split_and!; [done|done|]. exists 0. split; [done|lia].
    + intros _. by exists gid, g'.
    + intros Hle H. rewrite H3, Et, (Ems Hle), (proj2 (Z.ltb_lt 0 (unscored gs1))) by lia. lia.
  - destruct (distribute_spec ((gid, g) :: gs) ms cs Hms) as (cs' & gs' & E & H1 & H2 & H3).
    exists cs', gs'. split; [done|]. split; [done|]. split; [done|]. split; [done|]. intros Hle _.
    rewrite H3, (Ems Hle), (proj2 (Z.ltb_lt 0 _)) by lia. lia.
Qed.

(** ** The result *)

Definition core (s : Simfile) := (name s, label s, statement s, interactive s, checker s, solutions s).

(** The same test but for its time limit. *)
Definition same_test (t t' : Test) : Prop :=
  test_name t' = test_name t /\ test_in t' = test_in t /\ test_out t' = test_out t /\ memory_limit t' = memory_limit t.

Definition same_group (g g' : TestGroup) : Prop := score g' = score g /\ Forall2 same_test (tests g) (tests g').

Lemma same_group_trans l1 l2 l3 : Forall2 same_group l1 l2 -> Forall2 same_group l2 l3 -> Forall2 same_group l1 l3.
Proof.
  assert (forall t1 t2 t3, same_test t1 t2 -> same_test t2 t3 -> same_test t1 t3) as T.
  { intros t1 t2 t3 (A1 & A2 & A3 & A4) (B1 & B2 & B3 & B4). repeat split; congruence. }
  assert (forall l1 l2 l3, Forall2 same_test l1 l2 -> Forall2 same_test l2 l3 -> Forall2 same_test l1 l3) as TL.
  { intros a b c H. revert c. induction H; intros c' Hc; inversion Hc; subst; constructor; eauto. }
  intros H. revert l3. induction H as [|g1 g2 l1 l2 [S1 G1] _ IH]; intros l3 H3; inversion H3 as [|? g3 ? l3' [S2 G2] H4]; subst;
    constructor; [|by apply IH]. split; [congruence|]. by eapply TL.
Qed.

Lemma set_time_limits_same tl s : Forall2 same_group (tgroups s) (tgroups (set_time_limits tl s).1).
Proof.
  cbn. induction (tgroups s) as [|g gs IH]; cbn; constructor; [|done]. split; [done|]. cbn.
  induction (tests g) as [|t ts IHt]; cbn; constructor; [by repeat split|done].
Qed.

Lemma normalize_same s s' : normalize_time_limits s = (s', Ok tt) ->
  Forall2 same_group (tgroups s) (tgroups s') /\ core s' = core s.
Proof.
  unfold normalize_time_limits, update_tests. destruct (for_each_group _ _) as [gs r] eqn:E. intros [= <- ->].
  split; [|done]. apply for_each_group_Ok in E. cbn. eapply Forall2_impl; [exact E|].
  intros g g' [S H]. split; [done|]. eapply Forall2_impl; [exact H|]. intros t t' Ht. unfold normalize_time_limit in Ht.
  apply bind_Ok in Ht as (x & _ & [= <-]). by repeat split.
Qed.

Lemma finish_ok opts fuel d gs cs cs' r : finish opts fuel d gs cs = (cs', Ok r) ->
  core (simfile r) = core (sf cs) /\ pkg_main_dir r = d /\
  exists groups, export_groups (interactive (sf cs)) gs = Ok groups /\ Forall2 same_group groups (tgroups (simfile r)).
Proof.
  intros H. unfold finish in H. apply stm_bind_Ok in H as (cs0 & inter & H0 & H). injection H0 as <- <-.
  apply stm_bind_Ok in H as (cs1 & groups & H1 & H). injection H1 as <- Eg.
  apply stm_bind_Ok in H as (cs2 & [] & H2 & H). injection H2 as <-.
  apply stm_bind_Ok in H as (cs3 & [] & H3 & H).
  assert (core (sf cs3) = core (sf cs) /\ Forall2 same_group groups (tgroups (sf cs3))) as [C3 G3].
  { destruct (global_time_limit opts) as [tl|].
    - unfold on_sf in H3. injection H3 as <-. split; [done|].
      apply (set_time_limits_same tl (set_tgroups groups (sf cs))).
    - injection H3 as <-. split; [done|]. cbn. clear. induction groups as [|g gs IH]; constructor; [|done].
      split; [done|]. induction (tests g); constructor; [by repeat split|done]. }
  clear H3. cbn zeta in H. destruct (negb _).
  - apply stm_bind_Ok in H as (cs4 & [] & H4 & H). unfold on_sf in H4.
    destruct (normalize_time_limits (sf cs3)) as [s4 r4] eqn:E4. injection H4 as <- ->.
    apply normalize_same in E4 as [G4 C4]. apply stm_bind_Ok in H as (cs5 & s & H5 & H). injection H5 as <- <-.
    injection H as <- <-. cbn. split; [congruence|]. split; [done|]. exists groups. split; [done|]. by eapply same_group_trans.
  - apply stm_bind_Ok in H as (cs4 & x & H4 & H). injection H4 as <- _.
    apply stm_bind_Ok in H as (cs4 & tl & H4 & H). injection H4 as <- _.
    apply stm_bind_Ok in H as (cs4 & [] & H4 & H). unfold on_sf in H4. injection H4 as <-.
    apply stm_bind_Ok in H as (cs5 & s & H5 & H). injection H5 as <- <-. injection H as <- <-. cbn [simfile sf set_sf pkg_main_dir].
    split; [done|]. split; [done|]. exists groups. split; [done|]. eapply same_group_trans; [exact G3|].
    apply (set_time_limits_same tl (sf cs3)).
Qed.

(** ** Frames of the steps *)

(** The fields that a step must not touch. *)
Definition fields1 (s : Simfile) := (name s, checker s).
Definition fields2 (s : Simfile) := (name s, label s).
Definition fields3 (s : Simfile) := (name s, label s, interactive s, checker s).
Definition fields4 (s : Simfile) := (name s, label s, statement s, interactive s, checker s).

Lemma choose_name_frame opts : preserves (fun cs => checker (sf cs)) (choose_name opts).
Proof. unfold choose_name, append, load_name, get_config, CHECK_IF_NOT_ARR. frame. Qed.

Lemma choose_label_frame opts : preserves (fun cs => fields1 (sf cs)) (choose_label opts).
Proof. unfold choose_label, append, load_label, get_config, CHECK_IF_NOT_ARR. frame. Qed.

Lemma choose_checker_frame opts pc d : preserves (fun cs => fields2 (sf cs)) (choose_checker opts pc d).
Proof.
  unfold choose_checker, invalid_checker, append, load_checker, load_interactive, get_config, CHECK_IF_NOT_ARR. frame.
Qed.

Lemma choose_statement_frame opts pc d :
  preserves (fun cs => fields3 (sf cs)) (choose_statement opts pc d).
Proof. unfold choose_statement, append, load_statement, get_config, CHECK_IF_NOT_ARR. frame. Qed.

Lemma load_solutions_loop_frame l :
  preserves fields4 (load_solutions_loop l).
Proof. induction l; cbn [load_solutions_loop]; frame. Qed.

Lemma valid_solutions_frame {B} (g : Simfile -> B) pc d sols : forall acc,
  preserves (fun cs => g (sf cs)) (valid_solutions pc d acc sols).
Proof.
  induction sols as [|s sols IH]; intros acc; cbn [valid_solutions]; [frame|]. destruct (_ && _); [done|].
  apply preserves_bind; [unfold append; frame|done].
Qed.

Lemma choose_solutions_frame pc d :
  preserves (fun cs => fields4 (sf cs)) (choose_solutions pc d).
Proof.
  unfold choose_solutions, load_solutions, get_config, CHECK_IF_ARR, append.
  apply preserves_bind; [frame; apply load_solutions_loop_frame|]. intros _. apply preserves_bind; [frame|]. intros sols.
  apply preserves_bind; [apply (valid_solutions_frame fields4)|].
  intros acc. cbn zeta. frame.
Qed.

Lemma for_each_frame {S B} (f : S -> B) pc p (g : str -> stm S unit) : (forall x, preserves f (g x)) ->
  preserves f (for_each_with_prefix pc p g).
Proof.
  intros H. unfold for_each_with_prefix. induction (lower_bound _ _ _) as [|x l IH]; cbn [for_each_loop]; [frame|].
  destruct (negb _); [frame|]. by apply preserves_bind.
Qed.

Lemma tests_frame opts pc d :
  preserves (fun cs => core (sf cs)) (load_limits opts) /\
  preserves (fun cs => core (sf cs)) (find_test_files opts pc d) /\
  preserves (fun cs => core (sf cs)) (load_files opts pc d).
Proof.
  split; [|split].
  - unfold load_limits, used_array, load_limits_item, parse_or_warn, append, modify_tests. frame.
  - unfold find_test_files. apply for_each_frame. intros x. unfold add_test_file, warn_twice, append, modify_tests. frame.
  - unfold load_files, used_array, load_tests_files_item, parse_or_warn, usable_input, usable_output, tests_files_warning,
      append, modify_tests. frame.
Qed.

Lemma choose_memory_limits_frame opts : preserves (fun cs => core (sf cs)) (choose_memory_limits opts).
Proof.
  unfold choose_memory_limits, append, modify_tests, load_global_memory_limit_only, get_config, CHECK_IF_NOT_ARR,
    invalid_mem_limit. frame.
Qed.

(** ** Name and label *)

Lemma choose_name_some opts cs cs' : choose_name opts cs = (cs', Ok tt) -> is_Some (name (sf cs')).
Proof.
  unfold choose_name. destruct (opt_name opts) as [n|]; intros H.
  - inv_cs. by eexists.
  - apply stm_bind_Ok in H as (cs1 & [] & _ & H). apply stm_bind_Ok in H as (cs2 & [] & _ & H).
    apply stm_bind_Ok in H as (cs3 & n & H1 & H). injection H1 as <- <-.
    apply stm_bind_Ok in H as (cs3 & n & H1 & H). injection H1 as <- H1. injection H as <-. cbn.
    destruct (name (sf cs2)); [by eexists|done].
Qed.

Lemma choose_label_some opts cs cs' : choose_label opts cs = (cs', Ok tt) -> is_Some (label (sf cs')).
Proof.
  unfold choose_label. destruct (opt_label opts) as [l|]; intros H.
  - inv_cs. by eexists.
  - apply stm_bind_Ok in H as (cs1 & [] & _ & H). unfold try_catch in H.
    destruct ((on_sf load_label ≫= _) cs1) as [cs2 [[]|e| |]] eqn:E; [| |done..].
    + injection H as ->. apply stm_bind_Ok in E as (cs3 & [] & _ & H).
      apply stm_bind_Ok in H as (cs4 & n & H1 & H). injection H1 as <- <-.
      apply stm_bind_Ok in H as (cs4 & n & H1 & H). injection H1 as <- H1. injection H as <-. cbn.
      destruct (label (sf cs3)); [by eexists|done].
    + apply stm_bind_Ok in H as (cs3 & [] & _ & H). apply stm_bind_Ok in H as (cs4 & n & H1 & H). injection H1 as <- <-.
      apply stm_bind_Ok in H as (cs4 & n & H1 & H). injection H1 as <- _.
      apply stm_bind_Ok in H as (cs4 & [] & H1 & H). injection H1 as <-. injection H as <-. by eexists.
Qed.

(** ** Exporting *)

Definition exported (inter : bool) (np : str * TestProperties) (t : Test) : Prop :=
  test_name t = np.1 /\ prop_in np.2 = Some (test_in t) /\
  (if inter then test_out t = None else exists o, prop_out np.2 = Some o /\ test_out t = Some o).

Lemma export_tests_spec inter m : forall ts, export_tests inter m = Ok ts -> Forall2 (exported inter) m ts.
Proof.
  induction m as [|[n p] m IH]; intros ts H; cbn [export_tests] in H; [injection H as <-; constructor|].
  apply bind_Ok in H as (t & Ht & H). apply bind_Ok in H as (ts' & Hts & [= <-]). constructor; [|by apply IH].
  unfold export_test in Ht. apply bind_Ok in Ht as (ml & _ & Ht). apply bind_Ok in Ht as (i & Hi & Ht).
  apply bind_Ok in Ht as (o & Ho & [= <-]). unfold exported. cbn. split; [done|].
  split; [destruct (prop_in p); by simplify_eq/=|]. destruct inter; [by injection Ho as <-|].
  destruct (prop_out p) as [o'|]; [|done]. injection Ho as <-. by exists o'.
Qed.

Lemma export_groups_spec inter gs : forall groups, export_groups inter gs = Ok groups ->
  Forall2 (fun kg tg => group_score kg.2 = Some (score tg) /\ Forall2 (exported inter) (group_tests kg.2) (tests tg)) gs groups.
Proof.
  induction gs as [|[k g] gs IH]; intros groups H; cbn [export_groups] in H; [injection H as <-; constructor|].
  apply bind_Ok in H as (sc & Hsc & H). apply bind_Ok in H as (ts & Hts & H). apply bind_Ok in H as (rest & Hr & [= <-]).
  constructor; [|by apply IH]. cbn. split; [destruct (group_score g); by simplify_eq/=|]. by apply export_tests_spec.
Qed.

(** ** Main theorem *)

Section Valid.
Variables (pc : PackageContents) (d : str).

(** A test whose files are there: an input, and an output unless the problem is
    interactive. *)
Definition test_valid (inter : bool) (t : Test) : Prop :=
  in_pkg pc d (test_in t) /\ (split (test_name t)).1 <> [] /\
  (if inter then test_out t = None else exists o, test_out t = Some o /\ in_pkg pc d o).

(** A group of tests with the id [gid]. *)
Definition group_valid (inter : bool) (gid : str) (g : TestGroup) : Prop :=
  tests g <> [] /\
  Forall (fun t => test_valid inter t /\ equiv StrNumCompare (test_gid (test_name t)) gid = true) (tests g).

(** A Simfile that fits the package. *)
Record valid_simfile (s : Simfile) : Prop := {
  vs_name : is_Some (name s);
  vs_label : is_Some (label s);
  vs_checker c : checker s = Some c -> in_pkg pc d c;
  vs_interactive : interactive s = true -> checker s <> None;
  vs_solutions : solutions s <> [] /\ NoDup (solutions s) /\ Forall (in_pkg pc d) (solutions s);
  vs_groups : exists gids, StronglySorted (fun a b => StrNumCompare a b = true) gids /\
    Forall2 (group_valid (interactive s)) gids (tgroups s);
}.

Lemma exported_valid inter m ts : Forall (fun np => test_complete pc d inter np.2 /\ (split np.1).1 <> []) m ->
  Forall2 (exported inter) m ts -> Forall (test_valid inter) ts.
Proof.
  intros H F. induction F as [|[n p] t m ts (E1 & E2 & E3) F IH]; [constructor|].
  apply Forall_cons in H as [[[[Hi Ho] _] Hs] H]. constructor; [|by apply IH]. cbn in *. split; [by apply Hi|].
  split; [by rewrite E1|]. destruct inter; [done|]. destruct E3 as (o & E3 & ->). exists o. split; [done|]. by apply Ho.
Qed.

Lemma groups_valid inter gs gs' groups groups' :
  groups_ok (test_complete pc d inter) gs -> Forall2 scored gs gs' ->
  Forall2 (fun kg tg => group_score kg.2 = Some (score tg) /\ Forall2 (exported inter) (group_tests kg.2) (tests tg)) gs' groups ->
  Forall2 same_group groups groups' -> Forall2 (group_valid inter) gs.*1 groups'.
Proof.
  intros [_ H] S. revert groups groups'. induction S as [|[k g] [k' g'] gs gs' (S1 & S2 & _) S IH]; intros groups groups' F1 F2.
  { inversion F1; subst. inversion F2; subst. constructor. }
  inversion F1 as [|? tg ? tgs [_ F3] F4]; subst. inversion F2 as [|? tg' ? tgs' [_ F5] F6]; subst.
  apply Forall_cons in H as [[H1 H2] H]. cbn in *. constructor; [|by eapply IH]. rewrite S2 in F3.
  assert (Forall2 (fun np t => exported inter np t) (group_tests g) (tests tg')) as F.
  { clear -F3 F5. revert F5. generalize (tests tg'). induction F3 as [|np t m ts E _ IH]; intros l F5; inversion F5 as [|? t' ? ts' (A1 & A2 & A3 & _) F6]; subst; constructor; [|by apply IH].
    destruct E as (E1 & E2 & E3). unfold exported. rewrite A1, A2, A3. done. }
  split.
  - intros C. rewrite C in F. by inversion F; subst.
  - pose proof (exported_valid inter (group_tests g) (tests tg')) as V. clear -V F H2.
    assert (Forall (test_valid inter) (tests tg')) as V'.
    { apply V; [|done]. eapply Forall_impl; [exact H2|]. by intros np (A1 & A2 & _). }
    clear V. revert V'. induction F as [|np t m ts (E1 & _) F IH]; intros V; [constructor|].
    apply Forall_cons in V as [V1 V]. apply Forall_cons in H2 as [(_ & _ & H3) H2]. constructor; [|by apply IH].
    split; [done|]. by rewrite E1.
Qed.
End Valid.

Lemma group_valid_subset pc pc' d inter gid g : (forall e, e ∈ contents pc' -> e ∈ contents pc) ->
  group_valid pc' d inter gid g -> group_valid pc d inter gid g.
Proof.
  intros S [V1 V2]. split; [done|]. eapply Forall_impl; [exact V2|].
  intros t [(X1 & X2 & X3) X4]. split; [|done]. split; [by apply S|]. split; [done|].
  destruct inter; [done|]. destruct X3 as (o & -> & Xo). exists o. split; [done|]. by apply S.
Qed.

Lemma preserves_tests_sf {A} (m : stm Simfile A) : preserves tests_ (on_sf m).
Proof. intros cs. unfold on_sf. by destruct (m (sf cs)). Qed.

(** The steps before the tests are looked at. *)
Lemma early_frame opts pc d : preserves tests_ (choose_name opts) /\ preserves tests_ (choose_label opts) /\
  preserves tests_ (choose_checker opts pc d) /\ preserves tests_ (choose_statement opts pc d) /\
  preserves tests_ (choose_solutions pc d).
Proof.
  assert (forall sols acc, preserves tests_ (valid_solutions pc d acc sols)) as V.
  { induction sols as [|s sols IH]; intros acc; cbn [valid_solutions]; [frame|]. destruct (_ && _); [done|].
    apply preserves_bind; [unfold append; frame|done]. }
  unfold choose_name, choose_label, choose_checker, choose_statement, choose_solutions, invalid_checker, append.
  split_and!; repeat first [apply preserves_tests_sf | apply V | progress frame].
Qed.

Lemma load_contents_spec pkg cs cs' pc : load_contents pkg cs = (cs', Ok pc) ->
  well_formed pc /\ sf cs' = sf cs /\ tests_ cs' = tests_ cs.
Proof.
  unfold load_contents. destruct pkg as [tree|names]; intros H.
  - apply stm_bind_Ok in H as (cs1 & p & H1 & H). injection H1 as <- <-.
    apply stm_bind_Ok in H as (cs1 & [] & H1 & H). apply when_throw_Ok in H1 as [Hp ->].
    apply stm_bind_Ok in H as (cs1 & [] & H1 & H). injection H1 as <-. injection H as <- H.
    split; [|done]. assert (with_slash (package_path_ cs) <> []) as Hne.
    { unfold with_slash. destruct (package_path_ cs) as [|c p] using rev_ind; [done|]. rewrite last_snoc.
      destruct (c =c "/"); by destruct p. }
    destruct (load_from_directory_spec _ tree Hne) as (pc' & E & W & _). rewrite E in H. by injection H as <-.
  - injection H as <- H. split; [|done]. pose proof (load_from_zip_spec names empty_pc empty_pc_wf) as Z.
    rewrite H in Z. apply Z.
Qed.

Lemma load_simfile_spec fc opts pc d cs cs' : checker (sf cs) = None ->
  load_simfile fc opts pc d cs = (cs', Ok tt) -> checker (sf cs') = None /\ tests_ cs' = tests_ cs.
Proof.
  intros Hc H. unfold load_simfile in H. destruct (_ && _); [|by injection H as <-].
  apply stm_bind_Ok in H as (cs1 & text & H1 & H). injection H1 as <- _.
  assert (exists s, make_simfile text = Ok s /\ cs' = set_sf s cs) as (s & E & ->).
  { destruct (make_simfile text) as [s|[]| |]; try discriminate. injection H as <-. by exists s. }
  split; [|done]. unfold make_simfile in E. destruct (Config.load_config_from_string _ _ _) as [vs r].
  apply bind_Ok in E as (u & _ & [= <-]). done.
Qed.

Lemma choose_scoring_spec P opts gs cs cs' gs' : groups_ok P gs -> choose_scoring opts gs cs = (cs', Ok gs') ->
  sf cs' = sf cs /\ exists gs1, groups_ok P gs1 /\ Forall2 scored gs1 gs'.
Proof.
  intros Hg H. unfold choose_scoring in H. apply stm_bind_Ok in H as (cs1 & v & H1 & H). injection H1 as <- <-.
  apply stm_bind_Ok in H as (cs1 & gs1 & H1 & H).
  assert (groups_ok P gs1 /\ sf cs1 = sf cs) as [Hg1 E1].
  { destruct (_ && _); [by eapply load_scoring_ok|]. by injection H1 as <- <-. }
  destruct (score_groups_spec gs1 cs1) as (cs2 & gs2 & E & E2 & Hs & _). rewrite E in H. injection H as <- <-.
  split; [congruence|]. by exists gs1.
Qed.

Lemma in_pkg_subset pc pc' d f : (forall e, e ∈ contents pc' -> e ∈ contents pc) -> in_pkg pc' d f -> in_pkg pc d f.
Proof. intros H. apply H. Qed.

Lemma main_dir_prefix pc : well_formed pc -> forall e, e ∈ contents pc -> main_dir pc `prefix_of` e.
Proof.
  intros W e He. destruct (main_dir_spec pc W) as [[_ (w & _ & _ & H)]|[-> _]]; [by apply H|apply prefix_nil].
Qed.

Lemma removed_ok p pc : well_formed pc -> well_formed (remove_with_prefix p pc) /\
  forall e, e ∈ contents (remove_with_prefix p pc) -> e ∈ contents pc.
Proof.
  intros W. destruct (remove_with_prefix_spec p pc W) as [W' E]. split; [done|]. intros e. rewrite E.
  rewrite list_elem_of_filter. tauto.
Qed.

Lemma check_options_same opts cs cs' : check_options opts cs = (cs', Ok tt) -> cs' = cs.
Proof.
  intros H. apply (preserves_Ok (fun cs => cs)) in H; [done|]. unfold check_options. frame.
Qed.

(** Take the next step off the run [H]. *)
Ltac step H cs u H1 := apply stm_bind_Ok in H as (cs & u & H1 & H).

(** The tests found for the Simfile, with their files in the package. *)
Lemma tests_stage opts pc d cs cs1 cs2 cs3 cs4 cs5 : well_formed pc ->
  (forall e, e ∈ contents pc -> d `prefix_of` e) -> tests_ cs = [] ->
  load_limits opts cs = (cs1, Ok tt) -> find_test_files opts pc d cs1 = (cs2, Ok tt) ->
  load_files opts pc d cs2 = (cs3, Ok tt) -> drop_incomplete cs3 = (cs4, Ok tt) ->
  choose_memory_limits opts cs4 = (cs5, Ok tt) ->
  core (sf cs5) = core (sf cs) /\
  Forall (fun np => test_complete pc d (interactive (sf cs)) np.2) (tests_ cs5).
Proof.
  intros W Hd H0 H1 H2 H3 H4 H5. destruct (tests_frame opts pc d) as (F1 & F2 & F3).
  assert (core (sf cs1) = core (sf cs)) as E1 by exact (preserves_Ok _ _ _ _ _ F1 H1).
  assert (core (sf cs2) = core (sf cs1)) as E2 by exact (preserves_Ok _ _ _ _ _ F2 H2).
  assert (core (sf cs3) = core (sf cs2)) as E3 by exact (preserves_Ok _ _ _ _ _ F3 H3).
  assert (core (sf cs5) = core (sf cs4)) as E5 by exact (preserves_Ok _ _ _ _ _ (choose_memory_limits_frame opts) H5).
  assert (tests_ok pc d cs) as T0 by (unfold tests_ok; rewrite H0; constructor).
  pose proof (keeps_Ok _ _ _ _ _ (load_limits_tests_ok opts pc d) H1 T0) as T1.
  pose proof (keeps_Ok _ _ _ _ _ (find_test_files_tests_ok opts pc d W Hd) H2 T1) as T2.
  pose proof (load_files_ok opts pc d W _ _ T2 H3) as T3.
  destruct (drop_incomplete_ok pc d _ _ T3 H4) as [E4 T4].
  assert (core (sf cs3) = core (sf cs)) as E by congruence.
  assert (interactive (sf cs3) = interactive (sf cs)) as Ei by (unfold core in E; congruence). rewrite Ei in T4.
  split; [congruence|].
  apply choose_memory_limits_spec with (P := test_complete pc d (interactive (sf cs))) in H5; [|done|done].
  eapply Forall_impl; [exact H5|]. by intros np [? _].
Qed.

(** The files chosen before the tests are looked at. *)
Lemma files_stage fc opts pc1 pc3 d cs cs1 cs2 cs3 cs4 cs5 cs6 : well_formed pc1 -> well_formed pc3 ->
  (forall e, e ∈ contents pc1 -> d `prefix_of` e) -> (forall e, e ∈ contents pc3 -> d `prefix_of` e) ->
  checker (sf cs) = None -> tests_ cs = [] ->
  load_simfile fc opts pc1 d cs = (cs1, Ok tt) -> choose_name opts cs1 = (cs2, Ok tt) ->
  choose_label opts cs2 = (cs3, Ok tt) -> choose_checker opts pc1 d cs3 = (cs4, Ok tt) ->
  choose_statement opts pc3 d cs4 = (cs5, Ok tt) -> choose_solutions pc3 d cs5 = (cs6, Ok tt) ->
  let s := sf cs6 in
  tests_ cs6 = [] /\ is_Some (name s) /\ is_Some (label s) /\
  (forall c, checker s = Some c -> in_pkg pc1 d c) /\ (interactive s = true -> checker s <> None) /\
  (solutions s <> [] /\ NoDup (solutions s) /\ Forall (in_pkg pc3 d) (solutions s)) /\
  (require_statement opts = true -> exists st, statement s = Some st /\ in_pkg pc3 d st).
Proof.
  intros W1 W3 D1 D3 Hc Ht H3 H4 H5 H6 H7 H8 s.
  destruct (early_frame opts pc1 d) as (T1 & T2 & T3 & _). destruct (early_frame opts pc3 d) as (_ & _ & _ & T4 & T5).
  apply load_simfile_spec in H3 as [C3 E3]; [|done]. split.
  { rewrite (preserves_Ok _ _ _ _ _ T5 H8), (preserves_Ok _ _ _ _ _ T4 H7), (preserves_Ok _ _ _ _ _ T3 H6).
    rewrite (preserves_Ok _ _ _ _ _ T2 H5), (preserves_Ok _ _ _ _ _ T1 H4), E3. done. }
  pose proof (preserves_Ok _ _ _ _ _ (choose_name_frame opts) H4) as F4.
  pose proof (preserves_Ok _ _ _ _ _ (choose_label_frame opts) H5) as F5.
  pose proof (preserves_Ok _ _ _ _ _ (choose_checker_frame opts pc1 d) H6) as F6.
  pose proof (preserves_Ok _ _ _ _ _ (choose_statement_frame opts pc3 d) H7) as F7.
  pose proof (preserves_Ok _ _ _ _ _ (choose_solutions_frame pc3 d) H8) as F8.
  injection F5 as Fn5 Fc5. injection F6 as Fn6 Fl6. injection F7 as Fn7 Fl7 Fi7 Fc7. injection F8 as Fn8 Fl8 Fs8 Fi8 Fc8.
  apply choose_name_some in H4 as N. apply choose_label_some in H5 as L.
  destruct (choose_checker_valid opts pc1 d W1 D1 cs3 cs4) as [K1 K2]; [congruence|done|].
  destruct (choose_solutions_valid pc3 d W3 D3 _ _ H8) as (Q1 & Q2 & Q3). unfold s.
  split; [by rewrite Fn8, Fn7, Fn6, Fn5|]. split; [by rewrite Fl8, Fl7, Fl6|]. rewrite Fc8, Fc7, Fi8, Fi7.
  split; [done|]. split; [done|]. split; [done|]. rewrite Fs8. intros Hreq. by apply (choose_statement_valid opts pc3 d W3 D3 cs4).
Qed.

(** C2: a Simfile that [construct_simfile] returns fits the package: it has a
    name and a label; its checker (which an interactive problem has), its
    solutions (at least one, no two the same) and the files of every test are
    files of the package; a test has an output file exactly when the problem is
    not interactive; every group holds the tests of one group id, and the groups
    are ordered by it; with [require_statement] there is a statement, which is a
    file of the package. *)
Theorem construct_simfile_valid pkg file_contents opts fuel path cs' r :
  construct_simfile pkg file_contents opts fuel (start path) = (cs', Ok r) ->
  exists pc, (load_contents pkg (start path)).2 = Ok pc /\ pkg_main_dir r = main_dir pc /\
    valid_simfile pc (main_dir pc) (simfile r) /\
    (require_statement opts = true ->
     exists st, statement (simfile r) = Some st /\ in_pkg pc (main_dir pc) st).
Proof.
  intros H. unfold construct_simfile in H. step H cs1 u1 H1. destruct u1. apply check_options_same in H1 as ->.
  step H cs2 u2 H2. injection H2 as <- <-. step H cs2 pc H2. exists pc. split; [unfold start; by rewrite H2|].
  apply load_contents_spec in H2 as (W & Esf & Et). cbn in Esf, Et. cbn zeta in H.
  set (d := main_dir pc) in *. pose proof (main_dir_prefix pc W) as Hd. fold d in Hd.
  destruct (removed_ok (d ++ lit "utils/") pc W) as [W1 S1]. set (pc1 := remove_with_prefix _ pc) in *.
  destruct (removed_ok (d ++ lit "check/") pc1 W1) as [W2 S2]. set (pc2 := remove_with_prefix _ pc1) in *.
  destruct (removed_ok (d ++ lit "checker/") pc2 W2) as [W3 S3]. set (pc3 := remove_with_prefix _ pc2) in *.
  assert (forall e, e ∈ contents pc3 -> e ∈ contents pc) as S by auto. clear S2 S3.
  step H cs3 u3 H3. destruct u3. step H cs4 u4 H4. destruct u4. step H cs5 u5 H5. destruct u5.
  step H cs6 u6 H6. destruct u6. step H cs7 u7 H7. destruct u7. step H cs8 u8 H8. destruct u8.
  assert (checker (sf cs2) = None) as C2 by (by rewrite Esf).
  destruct (files_stage _ _ pc1 pc3 d cs2 cs3 cs4 cs5 cs6 cs7 cs8 W1 W3 ltac:(auto) ltac:(auto) C2 Et H3 H4 H5 H6 H7 H8)
    as (E8 & N & L & K1 & K2 & (Q1 & Q2 & Q3) & R).
  step H cs9 u9 H9. destruct u9. step H cs10 u10 H10. destruct u10. step H cs11 u11 H11. destruct u11.
  step H cs12 u12 H12. destruct u12. step H cs13 u13 H13. destruct u13.
  destruct (tests_stage opts pc3 d cs8 cs9 cs10 cs11 cs12 cs13 W3 ltac:(auto) E8 H9 H10 H11 H12 H13) as [E13 P13].
  step H cs14 m H14. injection H14 as <- <-. step H cs14 gs H14.
  apply choose_scoring_spec with (P := test_complete pc3 d (interactive (sf cs8))) in H14 as (E14 & gs1 & G1 & G2);
    [|by apply fill_groups_ok].
  apply finish_ok in H as (Er & Ed & groups & Eg & Hs). rewrite E14, E13 in Er. rewrite E14 in Eg.
  split; [done|]. injection Er as Rn Rl Rs Ri Rc Ro.
  assert (interactive (sf cs13) = interactive (sf cs8)) as E13i by (unfold core in E13; congruence).
  rewrite E13i in Eg. apply export_groups_spec in Eg.
  split; [|intros Hreq; destruct (R Hreq) as (st & X1 & X2); exists st; split; [congruence|by apply S]].
  constructor; [by rewrite Rn|by rewrite Rl|rewrite Rc; intros c Hc; by apply (in_pkg_subset pc pc1), K1|by rewrite Rc, Ri| |].
  - rewrite Ro. split; [done|]. split; [done|]. eapply Forall_impl; [exact Q3|]. intros f. apply S.
  - exists gs1.*1. split; [apply G1|]. rewrite Ri. pose proof (groups_valid pc3 d _ _ _ _ _ G1 G2 Eg Hs) as V.
    eapply Forall2_impl; [exact V|]. intros gid g. by apply group_valid_subset.
Qed.

Lemma construct_simfile_valid_witness :
  exists pc r, (load_contents sample_package (start (lit "p.zip"))).2 = Ok pc /\
    sample_construct default_options = Ok r /\ valid_simfile pc (main_dir pc) (simfile r).
Proof.
  destruct (construct_simfile sample_package (fun _ => Ok sample_text) default_options 20 (start (lit "p.zip")))
    as [cs' o] eqn:E.
  assert (exists r, o = Ok r) as [r ->].
  { change o with (cs', o).2. rewrite <- E. vm_compute. by eexists. }
  destruct (construct_simfile_valid sample_package (fun _ => Ok sample_text) default_options 20 (lit "p.zip") cs' r E)
    as (pc & H1 & _ & H2 & _).
  exists pc, r. split; [exact H1|]. split; [|exact H2]. unfold sample_construct. by rewrite E.
Defined.
