(* ===== verification/ConverLimits.v ===== *)
(** * Scoring and time limits of constructed Simfiles

    How Conver distributes the score and sets the time limits, and the inputs on
    which it does not do what its documentation says. *)

From Stdlib Require Import ZArith QArith Lia Lqa Ascii Sorted.
From S2P Require Import Prelude.
From S2P Require Import StdMap.
From S2P Require Import Ctype.
From S2P Require Import StringView.
From S2P Require Import StringTraits.
From S2P Require Import StringCompare.
From S2P Require Import StringTransform.
From S2P Require Import Floats.
From S2P Require Import Doubles.
From S2P Require Import Time.
From S2P Require Import SimpleParser.
From S2P Require Import Path.
From S2P Require Import Package.
From S2P Require Import ConfigFile.
From S2P Require Import Simfile.
From S2P Require Import SimfileTests.
From S2P Require Import SimfileFiles.
From S2P Require Import Judge.
From S2P Require Import JudgeProofs.
From S2P Require Import Conver.
From S2P Require Import ConverProofs.
Local Open Scope Z_scope.

(** ** Scoring *)


Definition sample_groups : list (str * TestsGroup) :=
  [(lit "00", mkGroup None []); (lit "1", mkGroup None []); (lit "2", mkGroup (Some 33) []); (lit "3", mkGroup None [])].


(** ** Time limits from judge reports *)

(** Not negative, as far as it is a number. *)
Definition nn (d : double) : Prop :=
  match d with Fin q => (0 <= q)%Q | Inf neg => neg = false | NaN => True end.

Lemma nn_round q : (0 <= q)%Q -> nn (round_double q).
Proof. intros H. apply round_double_nonneg in H. by destruct (round_double q). Qed.

Lemma nn_dadd x y : nn x -> nn y -> nn (dadd x y).
Proof.
  destruct x as [a|s|], y as [b|s'|]; cbn; try done; [intros; apply nn_round; lra|by intros -> ->].
Qed.

Lemma nn_dmul x y : nn x -> nn y -> nn (dmul x y).
Proof.
  assert (forall a, (0 <= a)%Q -> nn (if Qeq_bool a 0 then NaN else Inf (xorb false (Qneg a)))) as H.
  { intros a Ha. destruct (Qeq_bool a 0); [done|]. by rewrite (proj2 (Qneg_false a)). }
  destruct x as [a|s|], y as [b|s'|]; cbn [nn dmul]; try done.
  - intros. apply nn_round. by apply Qmult_le_0_compat.
  - intros Ha ->. by apply H.
  - intros -> Hb. by apply H.
  - by intros -> ->.
Qed.

Lemma nn_ddiv x y : nn x -> nn y -> nn (ddiv x y).
Proof.
  destruct x as [a|s|], y as [b|s'|]; cbn [nn ddiv]; try done.
  - intros Ha Hb. destruct (Qeq_bool b 0) eqn:E.
    + destruct (Qeq_bool a 0); [done|]. cbn. by apply Qneg_false.
    + apply Qeq_bool_neq in E. apply nn_round. apply Qle_shift_div_l; lra.
  - intros -> Hb. cbn. by rewrite (proj2 (Qneg_false b)).
Qed.

Lemma nn_dZ n : 0 <= n -> nn (dZ n).
Proof. intros H. apply nn_round. change 0%Q with (inject_Z 0). rewrite <- Zle_Qle. done. Qed.

Lemma nn_to_int64 d v : nn d -> d_to_int64 d = Ok v -> 0 <= v.
Proof.
  destruct d as [q|s|]; cbn; [|done..]. intros Hq. destruct (in_range int64 (Qtrunc q)); [|done]. intros [= <-].
  unfold Qtrunc. apply Z.quot_pos; [|lia]. unfold Qle in Hq. cbn in Hq. lia.
Qed.

(** The time limit a run of the main solution leads to. *)
Definition limit_from (opts : ResetTimeLimitsOptions) (rep : JTest) (tl : Z) : Prop :=
  ns_floor_to_10ms (solution_runtime_to_time_limit (d_seconds (jt_runtime rep))
    (solution_runtime_coefficient opts) (d_seconds (min_time_limit opts))) = Ok tl.

Lemma limit_from_multiple opts rep tl : 0 <= jt_runtime rep -> nn (solution_runtime_coefficient opts) ->
  0 <= min_time_limit opts -> limit_from opts rep tl -> exists k, tl = k * 10000000 /\ 0 <= k.
Proof.
  intros H1 H2 H3 H. unfold limit_from, ns_floor_to_10ms in H. apply bind_Ok in H as (k & Hk & H).
  apply i64_inv in H as [-> _]. exists k. split; [done|]. eapply nn_to_int64; [|exact Hk].
  assert (forall n, 0 <= n -> nn (d_seconds n)) as S by (intros n Hn; apply nn_ddiv; apply nn_dZ; lia).
  unfold solution_runtime_to_time_limit. cbn zeta. apply nn_dmul; [|apply nn_dZ; lia]. apply nn_dadd.
  - apply nn_dmul; [exact H2|apply S, H1].
  - apply nn_ddiv; [apply nn_dmul; [apply S, H3|apply nn_dZ; lia]|].
    apply nn_dadd; [apply nn_dmul; apply S, H1|apply nn_dZ; lia].
Qed.

(** The last report on the test. *)
Fixpoint last_report (nm : str) (reps : list JTest) : option JTest :=
  match reps with
  | [] => None
  | rep :: reps' =>
      match last_report nm reps' with
      | Some r => Some r
      | None => if SV.eqb (jt_name rep) nm then Some rep else None
      end
  end.

Lemma last_report_elem nm reps rep : last_report nm reps = Some rep -> rep ∈ reps.
Proof.
  induction reps as [|r reps IH]; cbn [last_report]; [done|]. destruct (last_report nm reps) as [x|].
  - intros [= ->]. right. by apply IH.
  - destruct (SV.eqb _ _); [|done]. intros [= ->]. left.
Qed.

Lemma round_multiple k : 0 <= k -> Z.quot (k * 10000000 + 5000000) 10000000 * 10000000 = k * 10000000.
Proof.
  intros H. rewrite Z.quot_div_nonneg by lia. rewrite Z.div_add_l by lia. change (5000000 / 10000000) with 0. lia.
Qed.

Lemma equiv_ltb_eqb a b : equiv SV.ltb a b = SV.eqb a b.
Proof.
  unfold equiv. destruct (SV.eqb a b) eqn:E.
  - apply SV.eqb_eq in E as ->. by rewrite SV.ltb_irrefl.
  - destruct (SV.ltb a b) eqn:E1, (SV.ltb b a) eqn:E2; try done. rewrite (SV.ltb_total a b E1 E2) in E.
    by rewrite (proj2 (SV.eqb_eq b b) eq_refl) in E.
Qed.

(** The limits come from the last reports, and every report is of an accepted
    run. *)
Lemma add_time_limits_spec opts reps : forall tls tls', map_sorted SV.ltb tls ->
  add_time_limits opts tls reps = Ok tls' ->
  Forall (fun rep => jt_status rep = OK \/ jt_status rep = WA) reps /\
  forall nm, match last_report nm reps with
             | Some rep => exists tl, map_find SV.ltb nm tls' = Some tl /\ limit_from opts rep tl
             | None => map_find SV.ltb nm tls' = map_find SV.ltb nm tls
             end.
Proof.
  induction reps as [|rep reps IH]; intros tls tls' Hs H; cbn [add_time_limits] in H.
  { injection H as <-. split; [constructor|done]. }
  apply bind_Ok in H as (tls1 & H1 & H). unfold add_time_limit in H1.
  assert ((jt_status rep = OK \/ jt_status rep = WA) /\ exists tl, limit_from opts rep tl /\
    tls1 = map_update SV.ltb (jt_name rep) tl (fun _ => tl) tls) as (Hst & tl & Htl & ->).
  { destruct (jt_status rep); try discriminate; apply bind_Ok in H1 as (tl & H1 & [= <-]);
      (split; [tauto|]; by exists tl). }
  destruct (IH _ _ (map_update_sorted SV.ltb (jt_name rep) tl (fun _ => tl) tls Hs) H) as [IH1 IH2].
  split; [by constructor|]. intros nm. specialize (IH2 nm). cbn [last_report].
  destruct (last_report nm reps) as [r|]; [done|]. rewrite (map_find_update SV.ltb (SWO := swo_ltb)) in IH2 by exact Hs. rewrite equiv_ltb_eqb in IH2.
  destruct (SV.eqb (jt_name rep) nm); [by exists tl|done].
Qed.

(** All the tests of the two reports, in the order they are looked at. *)
Definition all_reports (jrep1 jrep2 : JudgeReport) : list JTest :=
  concat (jg_tests <$> groups jrep1) ++ concat (jg_tests <$> groups jrep2).

(** The time limit of a test after the reset: the one of its last report, or the
    old one rounded to 10 ms. *)
Definition reset_test opts (reps : list JTest) (t t' : Test) : Prop :=
  same_test t t' /\
  match last_report (test_name t) reps with
  | Some rep => limit_from opts rep (time_limit t')
  | None => time_limit t' = Z.quot (time_limit t + 5000000) 10000000 * 10000000
  end.


Definition sample_jreport : JudgeReport :=
  mkReport [mkJGroup [mkJTest (lit "t1a") OK 1000000000 0 0 0 []] 0 0] [].

Definition sample_before : Simfile :=
  set_tgroups [mkTestGroup [mkTest (lit "t1a") [] None 7 0; mkTest (lit "t1b") [] None 999999999 0] 100] blank.

(** 3 * 1 s + 2 * 0.3 s / (1 + 2) = 3.2 s *)
Definition sample_after : Simfile :=
  set_tgroups [mkTestGroup [mkTest (lit "t1a") [] None 3200000000 0; mkTest (lit "t1b") [] None 1000000000 0] 100] blank.


(** ** Where Conver does not do what it says *)

Definition lines (l : list string) : str := concat ((fun s => lit s ++ [NL]) <$> l).

Definition run_conver (names : list string) (text : list string) (opts : Options) : outcome ConstructionResult :=
  (construct_simfile (Archive (lit <$> names)) (fun _ => Ok (lines text)) opts 100 (start (lit "x.zip"))).2.

(** An interactive package whose [tests_files] names a missing input file and
    an output file is not converted with a warning: the warning reads the value
    of the input file that was just dropped, and [std::bad_optional_access] is
    thrown. *)
Theorem conver_bad_optional_access :
  run_conver ["Simfile"; "check/c.cpp"; "s.cpp"; "s.pdf"; "t1.in"]
    ["name: x"; "interactive: true"; "memory_limit: 64"; "limits: [t1 1]"; "tests_files: [t1 missing.in t1.out]"]
    default_options = Throw BadOptionalAccess.
Proof. vm_compute. reflexivity. Qed.

Definition no_statement_options : Options :=
  mkOptions None None None None None 60000000000 false false false false false (mkRtl 300000000 (dZ 3)).

(** Without [require_statement], when the statement of the package's Simfile
    does not exist and no other is found, the constructed Simfile keeps naming
    it. *)
Theorem conver_keeps_missing_statement :
  match run_conver ["Simfile"; "s.cpp"; "t1.in"; "t1.out"]
    ["name: x"; "statement: nope.pdf"; "memory_limit: 64"; "limits: [t1 1]"] no_statement_options with
  | Ok r => status r = COMPLETE /\ statement (simfile r) = Some (lit "nope.pdf")
  | _ => False
  end.
Proof. vm_compute. split; reflexivity. Qed.

(** A time limit below 5 ms is rounded to zero, so that the constructed
    Simfile, printed by [dump], is one that [load_all] rejects. *)
Theorem conver_time_limit_rounded_to_zero :
  match run_conver ["Simfile"; "s.cpp"; "s.pdf"; "t1.in"; "t1.out"]
    ["name: x"; "memory_limit: 64"; "limits: [t1 0.001]"] default_options with
  | Ok r =>
      status r = COMPLETE /\ time_limit <$> concat (tests <$> tgroups (simfile r)) = [0] /\
      match dump (simfile r) ≫= make_simfile with
      | Ok s => exists e, (load_all (H := insertion_std_sort) s).2 = Throw (RuntimeError e)
      | _ => False
      end
  | _ => False
  end.
Proof. vm_compute. split; [reflexivity|]. split; [reflexivity|]. eexists. reflexivity. Qed.

(** One iteration of Newton's method. *)
Definition newton_done (tl c m x : double) : bool :=
  let fx := dsub tl (solution_runtime_to_time_limit x c m) in dltb (dneg billionth) fx && dltb fx billionth.

Definition newton_next (tl c m x : double) : double :=
  let fx := dsub tl (solution_runtime_to_time_limit x c m) in
  let x2 := dadd (dmul x x) (dZ 2) in
  dsub x (ddiv fx (dadd (dneg c) (ddiv (ddiv (dmul (dmul (dZ 4) m) x) x2) x2))).

Lemma newton_S n tl c m x :
  newton (S n) tl c m x = if newton_done tl c m x then Ok x else newton n tl c m (newton_next tl c m x).
Proof. reflexivity. Qed.

(** With the accepted options [solution_runtime_coefficient = 0] and
    [min_time_limit = 0] the Newton iteration never ends, whatever number of
    iterations is allowed. *)
Theorem conver_newton_diverges fuel :
  time_limit_to_solution_runtime fuel (d_seconds 60000000000) (dZ 0) (d_seconds 0) = NoFuel.
Proof.
  set (tl := d_seconds 60000000000). set (z := dZ 0). set (m := d_seconds 0).
  assert (newton_done tl z m tl = false /\ newton_next tl z m tl = Inf true) as [D1 N1] by (split; vm_compute; reflexivity).
  assert (newton_done tl z m (Inf true) = false /\ newton_next tl z m (Inf true) = NaN) as [D2 N2] by (split; vm_compute; reflexivity).
  assert (newton_done tl z m NaN = false /\ newton_next tl z m NaN = NaN) as [D3 N3] by (split; vm_compute; reflexivity).
  assert (forall n, newton n tl z m NaN = NoFuel) as H.
  { induction n as [|n IH]; [done|]. by rewrite newton_S, D3, N3. }
  unfold time_limit_to_solution_runtime. destruct fuel as [|[|fuel]]; [done|by rewrite newton_S, D1|].
  by rewrite newton_S, D1, N1, newton_S, D2, N2.
Qed.
